(* ===== verification/_CoqProject ===== *)
-Q . S2P
Prelude.v
JS.v
Store.v
SourceScan.v
Relay.v
Recovery.v
Roster.v
Merkle.v
Legacy.v
Retry.v
Worker.v
Journal.v
Budget.v
Delivery.v
Attrs.v
Evm.v
Edit.v
Json.v
Evidence.v
Identity.v
Kr.v
Issue.v
Float.v
Names.v
Match.v
Screen.v
Bank.v
Publication.v
Revocation.v
Retention.v
Vault.v
VaultFile.v
Monitor.v
Rescreen.v
RescreenEvm.v
ReceiptTrie.v
RosterSource.v
RosterReplay.v
RosterBundle.v
External.v
Lists.v
ListIndex.v
Snapshot.v
Epoch.v
WalletSession.v
