(* ===== verification/Prelude.v ===== *)
(** * A verification of the core of the repository

    The repository issues compliance marks.  An issuance pipeline checks a person
    (jurisdiction adapter, account verification, reconciliation of names, sanctions
    screening, identity policy), packs what was checked into a 256-bit word and delivers a
    transaction to a source chain; the evidence goes into an encrypted vault, whose cases are
    screened again and whose revocations are delivered.  A worker scans the source chain for
    the events of the contract, obtains proofs of them and relays them to a hub chain.  Marks
    are gathered in epoch rosters, replayed from the chain and published with their Merkle
    roots, which allow inclusion and non-membership proofs.  Sanctions lists are downloaded,
    parsed and activated for the screening engine.  This library models these programs from
    their TypeScript source under [src/] and proves what makes them correct.

    ** Files and what they model

    Shared: [Prelude] (errors, the outcome monad, the state and error monad of programs with
    mutable state, automation, generic list lemmas), [JS] (the parts of the language: safe
    integers, hexadecimal patterns, insertion-ordered dictionaries, the stable sort), [Json]
    (JSON values and their serialisation, [pipeline/canonical.ts]), [Float] (binary64 numbers,
    on the specification floats of the Standard Library).

    The worker, [src/worker/]:
    - [Store] ([store.ts]): the durable job and checkpoint store; state is the memory of the
      class with the file it is kept in and the faults to come.
    - [SourceScan] ([source-events.ts], [source-scan.ts]): one bounded scan step over a chain
      that may reorganise; uses [Store].
    - [Relay] ([relay.ts]): one unresolved nonce at a time; uses [Store].
    - [Recovery] ([recovery.ts]): what a restored worker must find on the hub.
    - [Retry] ([retry.ts], [attestation.ts], [proof-http.ts], [proof.ts]): waiting for
      attestations and asking the proof service.
    - [Worker] ([worker.ts], [pool.ts]): the loop that composes all of these.

    Issuance, [src/pipeline/]:
    - [Issue] ([issue.ts]) composes [Kr] ([adapters/kr.ts], [reconcile.ts]), [Identity]
      ([identity-policy.ts]), [Evidence] ([evidence.ts]), [Merkle] and [Attrs] ([attrs.ts],
      [methods.ts], [policy.ts]); screening is a function argument there, which [Screen]
      supplies.
    - [Delivery] ([issuance-delivery.ts]) signs, journals and broadcasts, over the interfaces
      that [Journal] ([issuance-journal.ts]), [Budget] ([issuance-budget.ts]) and [Evm]
      ([issuance-evm.ts], [issuer-key.ts]) implement.
    - [Bank] ([bank-state.ts]): the challenges of the one-won account verification, in Redis
      and in the memory of the demo.
    - [External] ([external-credential.ts]): signed tokens of an external provider, and the
      replay store that accepts each once.
    - [WalletSession] ([wallet-session.ts]): the browser wallet's session as a step relation
      over the calls of the page, the wallet's notifications and answers, timers and expiry.

    Screening, [src/aml/]:
    - [Edit] ([edit-distance.ts]), [Names] ([normalize.ts], [romanize.ts], [identity.ts],
      [jurisdiction.ts]), [Match] ([match.ts] and the scores) and [Screen] ([provenance.ts],
      [engine.ts]).
    - [Lists] ([ingest/saxlite.ts], [ingest/parse.ts], [ingest/validate.ts]): from the XML of
      a list to its entries; [ListIndex] ([index-format.ts], [loader.ts], [index-cache.ts]):
      the baked index, the loader and the cached engine; [Snapshot] ([snapshot-store.ts]): a
      refresh of the directory of list generations, which [ListIndex] then loads.

    Retained evidence, [src/pipeline/]:
    - [Revocation] ([revocation-observation.ts], [revocation-check.ts]): a revocation job and
      its reconciliation with both chains; [Retention] ([retention-policy.ts]): the policy of
      a record's deadlines and deletions.
    - [Vault] ([vault.ts], the records and every change of them) and [VaultFile]
      ([vault-atomic.ts] and the rest of [vault.ts]: the object over its encrypted file, the
      writer lock, backup, restore, key rotation).
    - [Monitor] ([vault-monitor.ts], [rescreen-schedule.ts]): reports for operators.
    - [Rescreen] ([rescreen.ts]): screening of due cases and delivery of revocations, against
      the class [VaultHandle] with its laws [VaultLaws], which the object of [VaultFile]
      implements (Module VaultProcess); [RescreenEvm] ([rescreen-evm.ts]): its transport.

    Rosters and commitments, [src/pipeline/]:
    - [Roster] ([roster.ts]), [Legacy] ([roster-legacy-v1.ts], [roster-format.ts]), [Merkle]
      ([merkle.ts], [claims.ts], [source-order.ts]).
    - [RosterSource] ([roster-source.ts]) replays the lifecycle events of the source contract
      from receipts; [ReceiptTrie] is the receipts trie that ties them to a block header, with
      the [ethers] library behind the class [Ethers] and its laws [EthersLaws]; [RosterReplay]
      holds the theorems of the replay.
    - [RosterBundle] ([roster-bundle.ts]): checking, exporting and loading a roster's file.
    - [Epoch] ([epoch.ts], [roster-authorization.ts], the plan of
      [script/publish-epoch.ts]): the bounds and approvals of a publication; [Publication]
      ([epoch-publication-journal.ts], [epoch-publication-delivery.ts]): its journal and one
      recovery step.

    A Module has the name of the class or of the file it models, and definitions keep the
    names of the source; where a reserved word or a clash forbids it, an underscore is
    appended.

    ** How code is modelled

    A function that may throw returns an [outcome]; a method of a class that changes state is
    in the monad [M] of [Prelude], whose throw keeps the writes made before it, as in
    JavaScript.  An [await] at which other tasks may run is an arbitrary effect of those
    tasks, an argument of the definition ([Relay], [Delivery], [Worker], [Publication]) or a
    step of the run ([Rescreen], [External]); operations of remote services are arguments that
    may change the world they share and may fail at any call.  What a reader answered is a
    relation between a read and the world it met ([answered] of the files that need it).  The
    three Redis scripts are modelled as the atomic programs they are, with Lua's number
    formatting where it shows.

    Files: [VaultFile.Fs] is a small file system whose state lists the faults to come; every
    operation may fail, with part of its text written if it is a write, or be the last before
    the process dies, when no handler runs.  A test whether a file exists answers false when
    it fails; which tests fail is the parameter [Fs.Tests], and a theorem that needs them to
    answer truly has the hypothesis [Fs.Exact].  [Snapshot], [Monitor] and [Rescreen] use the
    same file system.  [Store] and [Publication] have coarser faults, one for each stage of a
    commit, and take existence tests to answer truly.  What other processes do to the files
    while a writer waits for a lock is an arbitrary function, one for each wait.

    Numbers are Z, with [isSafeInteger] where the source tests it and 32-bit wrapping for
    JavaScript's bit operations ([Attrs.jsOr] and its kin); scores and durations in hours are
    binary64 ([Float]).  Strings are sequences of single-unit characters, except the names
    that are screened and the text of a document, which are lists of code points; identifiers
    and addresses of a list are kept from the code points of a document by their low octet
    ([Lists.asString]).  A Map or an object used as one is an association list in insertion
    order, where the order is visible, and a [gmap] elsewhere.  An object that is reachable
    twice and mutated (the hits of a screening, the envelope of a token) is a reference into
    the state that holds it.

    Hash functions, HMAC, encryption, ABI encoding, transaction decoding, URL and Unicode
    functions, compression, the XML parser, contracts and RPC nodes are parameters.  Injectivity
    of hashing and encoding, where a theorem needs it, is a hypothesis on the values that
    occur, with a witness at a concrete function.  Wherever a clock is read twice in one
    synchronous call the model reads it once.

    ** Fuel and bounds

    Recursion is structural or over lists except in a few loops, each with its bound: the
    retry loop counts down the attempts of its policy; the attestation wait counts polls, and
    reaching the height is proved for enough of them; the response reader runs over the chunks
    of the body; the tree builders halve their input and the receipts trie is built with as
    much fuel as its longest path has nibbles, and both are proved total; a search in a sorted
    roster halves its interval; a replay goes over chunks of blocks whose number is computed
    from its range; numbers are printed with as much fuel as they have bits.  No theorem holds
    because fuel ran out.

    ** What is proved

    - Durability and refinement: the store refines an abstract one whatever faults the file
      system has and every state it reaches is well formed; a change of the vault is atomic
      whatever fails, and its file is the replay of the acknowledged changes; a refresh of the
      lists is all or nothing for whoever loads them; the publication journal only grows.
    - Progress: repeated scan steps reach the safe head of an honest chain; building a roster
      is total.
    - Signing safety: the relay never holds two unresolved nonces and releases one only on a
      re-observed receipt; delivery and publication broadcast only what was journaled; the
      journal's gate is exclusive; revocations are signed once over runs, deaths and other
      writers; a failed attempt of a job ends in exactly one recorded way.
    - Rosters: inclusion is equivalent to membership, two neighbouring leaves refute
      membership; the receipts root commits to the receipts; a roster built from the source
      chain is the roster of the chain; a loaded bundle answers proofs that its root accepts;
      an approved publication is within its bounds.
    - Issuance: packing attributes is a bijection on values in range; the adapter reports
      exactly what ran; the identity verdict is characterised; an issued mark has passed every
      step, and its evidence hash recomputes and binds its steps; guesses of a bank challenge
      are bounded; an external credential is accepted for one token only; a result of a wallet
      session belongs to the session that asked.
    - Screening: a list is read completely; the edit table is the optimal-string-alignment
      distance; blocking loses no accepted name; the decision of the engine is characterised;
      a listed wallet, from the published document on, is blocked.
    - Retained evidence: an accepted policy is well formed; records are deleted only on an
      approved request for the case as it is; the check of a revocation rests on stated reads
      of both chains and agrees with its validator; a re-screening records decisions only on
      the cases it screened.

    ** Not modelled

    The Solidity contracts and the circuits of [src/src] and [src/zk] (other languages), the
    web application of [src/web], command-line programs under [src/script], [src/scripts],
    [src/worker/index.ts] (argument parsing and input/output; the plan
    of [script/publish-epoch.ts] is modelled), vendors and HTTP adapters under
    [pipeline/adapters] and [pipeline/providers] other than the Korean one, the fetching
    commands of [aml], evaluation and benchmark programs, the monitoring of the worker, unit
    economics.  Reading limits from environment variables is left out wherever a modelled
    function takes the limit as an argument.  The privacy processing policy (a record where an
    issuance uses it), audit evidence, the carry, records and observations of epochs, the
    checkpoint store of the roster, the transport of publications and the verdicts of
    consumers, all in [src/pipeline], are not modelled yet. *)

From Stdlib Require Import ZArith Lia.
From stdpp Require Import base decidable option list gmap strings.

#[global] Set Default Goal Selector "!".

(** * Scope and automation of the development *)

Declare Scope js_scope.
Delimit Scope js_scope with js.
#[global] Open Scope Z_scope.

Create HintDb js discriminated.
Create Rewrite HintDb js_rw.

(** * Errors the program throws

    One constructor per JavaScript error class of the source; the string is the
    [code] (or message) the class is constructed with. *)

Inductive exn :=
  | EError (msg : string)          (* new Error(msg) *)
  | EStoreWrite                    (* StoreWriteError *)
  | ESourceSafety (code : string)  (* SourceSafetyError *)
  | EHubSafety (code : string)     (* HubSafetyError *)
  | EWorkerStopped                 (* WorkerStoppedError *)
  | ERelayBusy                     (* RelayBusy *)
  | EJournal (code : string)       (* IssuanceJournalError *)
  | EBudget (code : string)        (* IssuanceBudgetError *)
  | EPublication (code : string)   (* PublicationJournalError *)
  | EAmlCapacity (what : string)   (* AmlMatchCapacityError *)
  | EClass (class code : string).  (* the error classes with one user *)

#[export] Instance exn_eq_dec : EqDecision exn.
Proof. solve_decision. Defined.

Inductive outcome (A : Type) :=
  | Ok (a : A)
  | Throw (e : exn).
Arguments Ok {A} a.
Arguments Throw {A} e.

#[export] Instance outcome_eq_dec {A} `{EqDecision A} : EqDecision (outcome A).
Proof. solve_decision. Defined.

Definition is_ok {A} (o : outcome A) : bool := match o with Ok _ => true | Throw _ => false end.

Lemma Ok_inj {A} (a b : A) : Ok a = Ok b → a = b.
Proof. congruence. Qed.

(** The value of an outcome, or a default. *)
Definition ok_or {A} (d : A) (o : outcome A) : A := match o with Ok a => a | Throw _ => d end.

(** Pure fallible code: the exception monad on [outcome]. *)
Definition obind {A B} (o : outcome A) (k : A → outcome B) : outcome B :=
  match o with Ok a => k a | Throw e => Throw e end.

Definition orequire (b : bool) (e : exn) : outcome unit := if b then Ok tt else Throw e.

Lemma obind_ok {A B} (o : outcome A) (k : A → outcome B) b : obind o k = Ok b → ∃ a, o = Ok a ∧ k a = Ok b.
Proof. destruct o as [a|]; [|done]. intros H. by exists a. Qed.
Lemma orequire_ok b e u : orequire b e = Ok u → b = true.
Proof. by destruct b. Qed.

Fixpoint omap_out {A B} (f : A → outcome B) (l : list A) : outcome (list B) :=
  match l with
  | [] => Ok []
  | x :: l => obind (f x) (λ y, obind (omap_out f l) (λ ys, Ok (y :: ys)))
  end.

(** A loop that threads a value and may throw. *)
Fixpoint ofold {A S} (f : A → S → outcome S) (l : list A) (s : S) : outcome S :=
  match l with
  | [] => Ok s
  | x :: l => obind (f x s) (ofold f l)
  end.

Lemma obind_throw {A B} (o : outcome A) (k : A → outcome B) e :
  obind o k = Throw e → o = Throw e ∨ ∃ a, o = Ok a ∧ k a = Throw e.
Proof. destruct o as [a|e']; simpl; [intros H; right; by exists a|intros [= ->]; by left]. Qed.

Lemma omap_out_throw {A B} (f : A → outcome B) l e : omap_out f l = Throw e → ∃ x, x ∈ l ∧ f x = Throw e.
Proof.
  induction l as [|x l IH]; simpl; [done|]. intros [H|(y & _ & [H|(ys & _ & H)]%obind_throw)]%obind_throw; [| |done].
  - exists x. split; [left|done].
  - destruct (IH H) as (x' & Hx & He). exists x'. split; [by right|done].
Qed.

Lemma ofold_app {A S} (f : A → S → outcome S) l l' s :
  ofold f (l ++ l') s = obind (ofold f l s) (ofold f l').
Proof. revert s. induction l as [|x l IH]; intros s; simpl; [done|]. destruct (f x s); simpl; auto. Qed.

Lemma omap_out_Forall2 {A B} (f : A → outcome B) l ys :
  omap_out f l = Ok ys ↔ Forall2 (λ x y, f x = Ok y) l ys.
Proof.
  revert ys. induction l as [|x l IH]; intros ys; simpl.
  - split; [by intros [= <-]|]. by intros ->%Forall2_nil_inv_l.
  - unfold obind. split.
    + destruct (f x) as [y|] eqn:Hx; [|done]. destruct (omap_out f l) as [ys'|] eqn:Hl; [|done].
      intros [= <-]. constructor; [done|]. by apply IH.
    + intros (y & ys' & Hx & Hl & ->)%Forall2_cons_inv_l. rewrite Hx.
      apply IH in Hl. by rewrite Hl.
Qed.

(** * The state-and-exception monad

    An operation of the program maps a state to an outcome and a state; as in
    JavaScript, the state reached before a throw is kept. *)

Definition M (S A : Type) : Type := S → outcome A * S.

Definition ret {S A} (a : A) : M S A := λ s, (Ok a, s).
Definition throw {S A} (e : exn) : M S A := λ s, (Throw e, s).
Definition bind {S A B} (m : M S A) (k : A → M S B) : M S B := λ s,
  match m s with
  | (Ok a, s') => k a s'
  | (Throw e, s') => (Throw e, s')
  end.
Definition getS {S} : M S S := λ s, (Ok s, s).
Definition putS {S} (s' : S) : M S unit := λ _, (Ok tt, s').
Definition gets {S A} (f : S → A) : M S A := λ s, (Ok (f s), s).
Definition modify {S} (f : S → S) : M S unit := λ s, (Ok tt, f s).
Definition tryCatch {S A} (m : M S A) (h : exn → M S A) : M S A := λ s,
  match m s with
  | (Ok a, s') => (Ok a, s')
  | (Throw e, s') => h e s'
  end.
(** [try { m } finally { f }]: [f] runs on both paths; if it throws, its error
    replaces the outcome of [m]. *)
Definition tryFinally {S A} (m : M S A) (f : M S unit) : M S A := λ s,
  let '(o, s') := m s in
  match f s' with
  | (Ok _, s'') => (o, s'')
  | (Throw e, s'') => (Throw e, s'')
  end.
Definition require {S} (b : bool) (e : exn) : M S unit := if b then ret tt else throw e.
Definition when {S} (b : bool) (m : M S unit) : M S unit := if b then m else ret tt.
Definition lift_out {S A} (o : outcome A) : M S A := λ s, (o, s).

Fixpoint forM {S A} (l : list A) (f : A → M S unit) : M S unit :=
  match l with
  | [] => ret tt
  | x :: l => bind (f x) (λ _, forM l f)
  end.

(** A loop that threads a value and performs effects. *)
Fixpoint foldM {W A S} (f : A → S → M W S) (l : list A) (s : S) : M W S :=
  match l with
  | [] => ret s
  | x :: l => bind (f x s) (foldM f l)
  end.

Notation "'let!' x := m 'in' k" := (bind m (λ x, k))
 (at level 10, x pattern, m at level 100, k at level 200) : js_scope.
Notation "m ;;; k" := (bind m (λ _, k)) (at level 199, right associativity) : js_scope.
Notation "'let?' x := o 'in' k" := (obind o (λ x, k))
  (at level 10, x pattern, o at level 100, k at level 200) : js_scope.
#[global] Open Scope js_scope.

(** ** Weakest preconditions

    [wp m Q s]: running [m] from [s] ends in an outcome and a state that
    satisfy [Q].  Every operation of the model is a total function, so [wp]
    states total correctness, on the throwing paths too. *)

Definition wp {S A} (m : M S A) (Q : outcome A → S → Prop) (s : S) : Prop :=
  Q (m s).1 (m s).2.

Section wp.
Context {S : Type}.

Lemma wp_mono {A} (m : M S A) (Q Q' : outcome A → S → Prop) s :
  wp m Q s → (∀ o s', Q o s' → Q' o s') → wp m Q' s.
Proof. unfold wp; auto. Qed.

Lemma wp_ret {A} (a : A) (Q : outcome A → S → Prop) s : Q (Ok a) s → wp (ret a) Q s.
Proof. done. Qed.

Lemma wp_throw {A} e (Q : outcome A → S → Prop) s : Q (Throw e) s → wp (throw e) Q s.
Proof. done. Qed.

Lemma wp_bind {A B} (m : M S A) (k : A → M S B) Q s :
  wp m (λ o s', match o with Ok a => wp (k a) Q s' | Throw e => Q (Throw e) s' end) s →
  wp (bind m k) Q s.
Proof. unfold wp, bind. destruct (m s) as [[a|e] s']; done. Qed.

Lemma wp_getS (Q : outcome S → S → Prop) s : Q (Ok s) s → wp getS Q s.
Proof. done. Qed.

Lemma wp_putS s' (Q : outcome unit → S → Prop) s : Q (Ok tt) s' → wp (putS s') Q s.
Proof. done. Qed.

Lemma wp_gets {A} (f : S → A) (Q : outcome A → S → Prop) s :
  Q (Ok (f s)) s → wp (gets f) Q s.
Proof. done. Qed.

Lemma wp_modify f (Q : outcome unit → S → Prop) s : Q (Ok tt) (f s) → wp (modify f) Q s.
Proof. done. Qed.

Lemma wp_require b e (Q : outcome unit → S → Prop) s :
  (b = true → Q (Ok tt) s) → (b = false → Q (Throw e) s) → wp (require b e) Q s.
Proof. destruct b; unfold wp, require; simpl; auto. Qed.

Lemma wp_when b m (Q : outcome unit → S → Prop) s :
  (b = true → wp m Q s) → (b = false → Q (Ok tt) s) → wp (when b m) Q s.
Proof. destruct b; unfold wp, when; simpl; auto. Qed.

Lemma wp_tryCatch {A} (m : M S A) h Q s :
  wp m (λ o s', match o with Ok a => Q (Ok a) s' | Throw e => wp (h e) Q s' end) s →
  wp (tryCatch m h) Q s.
Proof. unfold wp, tryCatch. destruct (m s) as [[a|e] s']; done. Qed.

Lemma wp_tryFinally {A} (m : M S A) f Q s :
  wp m (λ o s', wp f (λ r s'', match r with Ok _ => Q o s'' | Throw e => Q (Throw e) s'' end) s') s →
  wp (tryFinally m f) Q s.
Proof.
  unfold wp, tryFinally. destruct (m s) as [o s']; simpl.
  destruct (f s') as [[?|e] s'']; done.
Qed.

Lemma wp_lift_out {A} (o : outcome A) (Q : outcome A → S → Prop) s : Q o s → wp (lift_out o) Q s.
Proof. done. Qed.

(** Loop rule: an invariant [I] on the state over the elements still to visit. *)
Lemma wp_forM {A} (l : list A) (f : A → M S unit) (I : list A → S → Prop)
    (Q : outcome unit → S → Prop) s :
  I l s →
  (∀ x l s, I (x :: l) s →
     wp (f x) (λ o s', match o with Ok _ => I l s' | Throw e => Q (Throw e) s' end) s) →
  (∀ s, I [] s → Q (Ok tt) s) →
  wp (forM l f) Q s.
Proof.
  intros Hs Hstep Hend. revert s Hs. induction l as [|x l IH]; intros s Hs; simpl.
  - by apply wp_ret, Hend.
  - apply wp_bind. eapply wp_mono; [by apply Hstep|]. intros [[]|e] s' H; auto.
Qed.

(** What every iteration establishes about its element holds of all of them. *)
Lemma wp_forM_all {A} (P : A → Prop) (l : list A) (f : A → M S unit) s :
  (∀ x s, wp (f x) (λ o _, o = Ok tt → P x) s) →
  wp (forM l f) (λ o _, o = Ok tt → Forall P l) s.
Proof.
  intros Hf. revert s. induction l as [|x l IH]; intros s; simpl; [by apply wp_ret|].
  apply wp_bind. eapply wp_mono; [apply Hf|]. intros [[]|e] s' Hx; [|done].
  eapply wp_mono; [apply IH|]. intros o s'' Hl Ho. constructor; auto.
Qed.

(** An invariant on the value threaded through the elements visited so far, and on the state. *)
Lemma wp_foldM_state {A V} (P : list A → V → S → Prop) (f : A → V → M S V) l v (Q : outcome V → S → Prop) s :
  P [] v s →
  (∀ visited x rest v s, l = visited ++ x :: rest → P visited v s →
     wp (f x v) (λ o s', match o with Ok v' => P (visited ++ [x]) v' s' | Throw e => Q (Throw e) s' end) s) →
  (∀ v s, P l v s → Q (Ok v) s) →
  wp (foldM f l v) Q s.
Proof.
  intros H0 Hf HQ. assert (∀ rest visited v s, l = visited ++ rest → P visited v s → wp (foldM f rest v) Q s) as H; [|by apply (H l [])].
  clear v s H0. induction rest as [|x rest IH]; intros visited v s Hl Hp; simpl.
  - rewrite app_nil_r in Hl. subst. by apply wp_ret, HQ.
  - apply wp_bind. eapply wp_mono; [by apply (Hf visited x rest)|]. intros [v'|e] s' H; [|done].
    apply (IH (visited ++ [x])); [|done]. by rewrite <- app_assoc.
Qed.

(** An invariant on the value only. *)
Lemma wp_foldM {A V} (P : list A → V → Prop) (f : A → V → M S V) l v (Q : outcome V → S → Prop) s :
  P [] v →
  (∀ visited x rest v s, l = visited ++ x :: rest → P visited v →
     wp (f x v) (λ o s', match o with Ok v' => P (visited ++ [x]) v' | Throw e => Q (Throw e) s' end) s) →
  (∀ v s, P l v → Q (Ok v) s) →
  wp (foldM f l v) Q s.
Proof. intros H0 Hf HQ. apply (wp_foldM_state (λ l v _, P l v)); eauto. Qed.

Lemma forM_ok {A} (l : list A) (f : A → M S unit) s :
  (∀ x, x ∈ l → f x s = (Ok tt, s)) → forM l f s = (Ok tt, s).
Proof.
  induction l as [|x l IH]; simpl; [done|]. intros Hf.
  unfold bind. rewrite Hf by by left. apply IH. intros y Hy. apply Hf. by right.
Qed.

Lemma wp_run {A} (m : M S A) Q s o s' : wp m Q s → m s = (o, s') → Q o s'.
Proof. unfold wp. intros H E. by rewrite E in H. Qed.
End wp.

(** Symbolic execution: one rule per monad operation, then case analysis on the
    guards.  [wp_step] makes one step, [wp_go] runs as far as it can. *)
Ltac wp_step :=
  match goal with
  | |- wp (bind _ _) _ _ => apply wp_bind
  | |- wp (ret _) _ _ => apply wp_ret
  | |- wp (throw _) _ _ => apply wp_throw
  | |- wp getS _ _ => apply wp_getS
  | |- wp (putS _) _ _ => apply wp_putS
  | |- wp (gets _) _ _ => apply wp_gets
  | |- wp (modify _) _ _ => apply wp_modify
  | |- wp (require _ _) _ _ => apply wp_require; intros ?
  | |- wp (when _ _) _ _ => apply wp_when; intros ?
  | |- wp (tryCatch _ _) _ _ => apply wp_tryCatch
  | |- wp (tryFinally _ _) _ _ => apply wp_tryFinally
  | |- wp (lift_out _) _ _ => apply wp_lift_out
  | |- wp (if ?b then _ else _) _ _ => destruct b eqn:?
  | |- wp (match ?o with _ => _ end) _ _ => destruct o eqn:?
  end; cbv beta iota.
Ltac wp_go := repeat wp_step.

(** ** Reads of a world that may change *)

(** [m] answered [a] at some moment. *)
Definition answered {W A} (m : M W A) (a : A) : Prop := ∃ w w', m w = (Ok a, w').

(** A read: afterwards its answer is known to have been given. *)
Lemma wp_read {W A} (m : M W A) (Q : outcome A → W → Prop) w :
  (∀ a w', answered m a → Q (Ok a) w') → (∀ e w', Q (Throw e) w') → wp m Q w.
Proof.
  intros Hok Hth. unfold wp. destruct (m w) as [[a|e] w'] eqn:E; [|apply Hth].
  apply Hok. exists w, w'. done.
Qed.

Ltac read_step :=
  apply wp_bind; apply wp_read; [intros ? ? ?|by intros].

(** ** Running a computation step by step

    [run_step H] consumes the first operation of a sequence, whose result is [H]. *)

Lemma bind_ok {S A B} (m : M S A) (k : A → M S B) s a s' :
  m s = (Ok a, s') → bind m k s = k a s'.
Proof. unfold bind. by intros ->. Qed.

Lemma bind_throw {S A B} (m : M S A) (k : A → M S B) s e s' :
  m s = (Throw e, s') → bind m k s = (Throw e, s').
Proof. unfold bind. by intros ->. Qed.

Lemma require_true {S} b e (s : S) : b = true → require b e s = (Ok tt, s).
Proof. by intros ->. Qed.

Lemma require_false {S} b e (s : S) : b = false → require b e s = (Throw e, s).
Proof. by intros ->. Qed.

Ltac run_step H := etransitivity; [eapply bind_ok; exact H|]; cbv beta iota.
Ltac run_throw H := eapply bind_throw; exact H.
(** The first operation reads, and its result is known by computation. *)
Ltac run_pure := etransitivity; [eapply bind_ok; reflexivity|]; cbv beta iota.

(** Case analysis of the membership [H] in a literal list. *)
Ltac in_cases H :=
  first [ by apply elem_of_nil in H | apply elem_of_cons in H as [->|H]; [ | in_cases H ] ].

(** * Running an operation on a part of the state *)

(** A client whose state contains a component's state: the interface through
    which the components below are composed. *)
Class Lens (S T : Type) := {
  lens_get : S → T;
  lens_set : T → S → S;
  lens_get_set : ∀ t s, lens_get (lens_set t s) = t;
  lens_set_get : ∀ s, lens_set (lens_get s) s = s;
  lens_set_set : ∀ t t' s, lens_set t (lens_set t' s) = lens_set t s;
}.

#[export] Instance Lens_self S : Lens S S.
Proof. by refine {| lens_get := λ s, s; lens_set := λ t _, t |}. Defined.

Definition zoom {S T A} `{Lens S T} (m : M T A) : M S A := λ s,
  let '(o, t) := m (lens_get s) in (o, lens_set t s).

Lemma wp_zoom {S T A} `{Lens S T} (m : M T A) Q (s : S) :
  wp m (λ o t, Q o (lens_set t s)) (lens_get s) → wp (zoom m) Q s.
Proof. unfold wp, zoom. by destruct (m (lens_get s)) as [o t]. Qed.

Lemma zoom_run {S T A} `{Lens S T} (m : M T A) (s : S) o t :
  m (lens_get s) = (o, t) → zoom m s = (o, lens_set t s).
Proof. unfold zoom. by intros ->. Qed.

(** ** Preserved properties

    [keeps I m]: whatever the outcome, [m] leads from states with [I] to states with [I]. *)

Definition keeps {S A} (I : S → Prop) (m : M S A) : Prop := ∀ s, I s → I (m s).2.

Section keeps.
Context {S : Type} (I : S → Prop).

Lemma keeps_ret {A} (a : A) : keeps I (ret a).
Proof. by intros s. Qed.
Lemma keeps_throw {A} e : keeps I (throw e : M S A).
Proof. by intros s. Qed.
Lemma keeps_bind {A B} (m : M S A) (k : A → M S B) : keeps I m → (∀ a, keeps I (k a)) → keeps I (bind m k).
Proof.
  intros Hm Hk s Hs. unfold bind. specialize (Hm s Hs). destruct (m s) as [[a|e] s']; [|done].
  by apply Hk.
Qed.
(** After [m], the rest runs from a state with [J]. *)
Lemma keeps_seq {A B} (J : S → Prop) (m : M S A) (k : A → M S B) s :
  (∀ s', J s' → I s') → J (m s).2 → (∀ a s', J s' → I (k a s').2) → I (bind m k s).2.
Proof. intros Hw Hm Hk. unfold bind. destruct (m s) as [[a|e] s']; [by apply Hk|by apply Hw]. Qed.
Lemma keeps_getS : keeps I getS.
Proof. by intros s. Qed.
Lemma keeps_gets {A} (f : S → A) : keeps I (gets f).
Proof. by intros s. Qed.
Lemma keeps_require b e : keeps I (require b e).
Proof. by destruct b; intros s. Qed.
Lemma keeps_require_bind {A} b e (k : M S A) : (b = true → keeps I k) → keeps I (require b e ;;; k).
Proof. destruct b; intros Hk; [by apply Hk|by intros s]. Qed.
Lemma keeps_when b m : (b = true → keeps I m) → keeps I (when b m).
Proof. destruct b; intros Hm; [by apply Hm|by intros s]. Qed.
Lemma keeps_lift_out {A} (o : outcome A) : keeps I (lift_out o).
Proof. by intros s. Qed.
Lemma keeps_modify f : (∀ s, I s → I (f s)) → keeps I (modify f).
Proof. intros Hf s Hs. by apply Hf. Qed.
Lemma keeps_tryCatch {A} (m : M S A) h : keeps I m → (∀ e, keeps I (h e)) → keeps I (tryCatch m h).
Proof.
  intros Hm Hh s Hs. unfold tryCatch. specialize (Hm s Hs). destruct (m s) as [[a|e] s']; [done|].
  by apply Hh.
Qed.
Lemma keeps_tryFinally {A} (m : M S A) f : keeps I m → keeps I f → keeps I (tryFinally m f).
Proof.
  intros Hm Hf s Hs. unfold tryFinally. specialize (Hm s Hs). destruct (m s) as [o s'].
  specialize (Hf s' Hm). by destruct (f s') as [[?|e] s''].
Qed.
Lemma keeps_forM {A} (l : list A) (f : A → M S unit) : (∀ x, keeps I (f x)) → keeps I (forM l f).
Proof. intros Hf. induction l as [|x l IH]; simpl; [apply keeps_ret|]. by apply keeps_bind. Qed.
End keeps.

Create HintDb keeps discriminated.
#[export] Hint Resolve keeps_ret keeps_throw keeps_getS keeps_gets keeps_require keeps_lift_out : keeps.

(** Structural decomposition of [keeps] goals; leaves the operations it does not know. *)
Ltac keeps_step :=
  match goal with
  | |- keeps _ (bind (require _ _) _) => apply keeps_require_bind; intros ?
  | |- keeps _ (bind _ _) => apply keeps_bind; [|intros ?]
  | |- keeps _ (when _ _) => apply keeps_when; intros ?
  | |- keeps _ (tryCatch _ _) => apply keeps_tryCatch; [|intros ?]
  | |- keeps _ (tryFinally _ _) => apply keeps_tryFinally
  | |- keeps _ (forM _ _) => apply keeps_forM; intros ?
  | |- keeps _ (if ?b then _ else _) => destruct b eqn:?
  | |- keeps _ (match ?o with _ => _ end) => destruct o eqn:?
  | |- keeps _ _ => solve [eauto with keeps]
  end; cbv beta iota.
Ltac keeps_go := repeat keeps_step.

(** * Sums over a map *)

Section sum_map.
Context {K V : Type} `{Countable K}.
Implicit Types (f : V → Z) (m : gmap K V).

Definition sumMap f m : Z := map_fold (λ _ v acc, f v + acc) 0 m.

Lemma sumMap_empty f : sumMap f ∅ = 0.
Proof. apply map_fold_empty. Qed.
Lemma sumMap_fresh f m k v : m !! k = None → sumMap f (<[k := v]> m) = f v + sumMap f m.
Proof. intros Hk. unfold sumMap. rewrite map_fold_insert_L; [done| |done]. intros; lia. Qed.
Lemma sumMap_delete f m k v : m !! k = Some v → sumMap f m = f v + sumMap f (delete k m).
Proof.
  intros Hk. rewrite <-(insert_delete_id m k v) at 1 by done.
  by rewrite sumMap_fresh by apply lookup_delete_eq.
Qed.
Lemma sumMap_update f m k v v' : m !! k = Some v →
  sumMap f (<[k := v']> m) = f v' - f v + sumMap f m.
Proof.
  intros Hk. rewrite (sumMap_delete f m k v) by done.
  rewrite (sumMap_delete f (<[k := v']> m) k v') by apply lookup_insert_eq.
  rewrite delete_insert_eq. lia.
Qed.
Lemma sumMap_ext f g m : (∀ k v, m !! k = Some v → f v = g v) → sumMap f m = sumMap g m.
Proof.
  induction m as [|k v m Hk IH] using map_ind; intros Hfg; [by rewrite !sumMap_empty|].
  rewrite !sumMap_fresh by done. rewrite IH, (Hfg k v); [done|apply lookup_insert_eq|].
  intros k' v' Hk'. apply (Hfg k'). rewrite lookup_insert_ne; [done|congruence].
Qed.
Lemma sumMap_zero f m : (∀ k v, m !! k = Some v → f v = 0) → sumMap f m = 0.
Proof.
  intros Hf. rewrite (sumMap_ext f (λ _, 0) m Hf). induction m as [|k v m Hk IH] using map_ind;
    [by rewrite sumMap_empty|]. rewrite sumMap_fresh by done. rewrite IH; [done|].
  intros k' v' Hk'. apply (Hf k'). rewrite lookup_insert_ne; [done|congruence].
Qed.
Lemma sumMap_filter f m (P : K * V → Prop) `{!∀ x, Decision (P x)} :
  (∀ k v, m !! k = Some v → 0 ≤ f v) → 0 ≤ sumMap f (filter P m) ≤ sumMap f m.
Proof.
  induction m as [|k v m Hk IH] using map_ind; intros Hf; [by rewrite map_filter_empty, sumMap_empty|].
  assert (0 ≤ f v) by (apply (Hf k); apply lookup_insert_eq).
  assert (0 ≤ sumMap f (filter P m) ≤ sumMap f m).
  { apply IH. intros k' v' Hk'. apply (Hf k'). rewrite lookup_insert_ne; [done|congruence]. }
  rewrite (sumMap_fresh f m) by done. destruct (decide (P (k, v))).
  - rewrite map_filter_insert_True by done. rewrite sumMap_fresh; [lia|].
    apply map_lookup_filter_None. by left.
  - rewrite map_filter_insert_not' by (done || (intros ?; congruence)). lia.
Qed.
End sum_map.
