(* ===== verification/JS.v ===== *)
(** The parts of the JavaScript language and standard library the program uses:
    safe integers, ASCII strings and the hexadecimal patterns, insertion-ordered
    dictionaries, and the stable [Array.prototype.sort]. *)

From Stdlib Require Import ZArith Lia Ascii String.
From stdpp Require Import base decidable option list gmap strings sorting.
From S2P Require Import Prelude.
Local Open Scope Z_scope.

(** * Numbers

    A JavaScript number that holds an integer is the integer it denotes; the
    guards of the source ([Number.isSafeInteger]) reduce to the range test. *)

Definition MAX_SAFE_INTEGER : Z := 9007199254740991.
Definition isSafeInteger (n : Z) : bool :=
  (- MAX_SAFE_INTEGER <=? n) && (n <=? MAX_SAFE_INTEGER).

Lemma isSafeInteger_spec n :
  isSafeInteger n = true ↔ - MAX_SAFE_INTEGER ≤ n ≤ MAX_SAFE_INTEGER.
Proof. unfold isSafeInteger. rewrite andb_true_iff, !Z.leb_le. done. Qed.

(** [Number.isSafeInteger(n) && n >= 0], the guard written at many call sites. *)
Definition safeNat (n : Z) : bool := isSafeInteger n && (0 <=? n).

Lemma safeNat_spec n : safeNat n = true ↔ 0 ≤ n ≤ MAX_SAFE_INTEGER.
Proof.
  unfold safeNat. rewrite andb_true_iff, isSafeInteger_spec, Z.leb_le.
  unfold MAX_SAFE_INTEGER. lia.
Qed.

(** * Truthiness of optional strings *)

Definition truthy (s : option string) : bool :=
  match s with Some s => negb (String.eqb s "") | None => false end.

(** * Strings *)

Definition lower_ascii (c : ascii) : ascii :=
  let n := nat_of_ascii c in
  if (65 <=? n)%nat && (n <=? 90)%nat then ascii_of_nat (n + 32) else c.

Fixpoint toLowerCase (s : string) : string :=
  match s with
  | EmptyString => EmptyString
  | String c s => String (lower_ascii c) (toLowerCase s)
  end.

Definition isDigit (c : ascii) : bool :=
  let n := nat_of_ascii c in (48 <=? n)%nat && (n <=? 57)%nat.
Definition isLowerHex (c : ascii) : bool :=
  let n := nat_of_ascii c in isDigit c || ((97 <=? n)%nat && (n <=? 102)%nat).
Definition isHex (c : ascii) : bool := isLowerHex (lower_ascii c).

Fixpoint allChars (p : ascii → bool) (s : string) : bool :=
  match s with
  | EmptyString => true
  | String c s => p c && allChars p s
  end.

(** [/^0x[0-9a-fA-F]{n}$/.test(s)] and its lower-case-only variant. *)
Definition hexString (p : ascii → bool) (n : nat) (s : string) : bool :=
  match s with
  | String "0" (String "x" s) => Nat.eqb (String.length s) n && allChars p s
  | _ => false
  end.
Definition isBytes32 : string → bool := hexString isHex 64.
Definition isLowerBytes32 : string → bool := hexString isLowerHex 64.
Definition isAddress20 : string → bool := hexString isHex 40.

Definition isLower (s : string) : bool := String.eqb (toLowerCase s) s.

Lemma lower_ascii_idem c : lower_ascii (lower_ascii c) = lower_ascii c.
Proof. destruct c as [[] [] [] [] [] [] [] []]; vm_compute; reflexivity. Qed.

Lemma toLowerCase_idem s : toLowerCase (toLowerCase s) = toLowerCase s.
Proof. induction s as [|c s IH]; simpl; [done|]. by rewrite lower_ascii_idem, IH. Qed.

Lemma toLowerCase_length s : String.length (toLowerCase s) = String.length s.
Proof. induction s; simpl; congruence. Qed.

Lemma isHex_lower c : isHex (lower_ascii c) = isHex c.
Proof. unfold isHex. by rewrite lower_ascii_idem. Qed.

Lemma lower_isLowerHex c : isLowerHex c = true → lower_ascii c = c.
Proof. destruct c as [[] [] [] [] [] [] [] []]; vm_compute; congruence. Qed.

Lemma allChars_lower_fix s : allChars isLowerHex s = true → toLowerCase s = s.
Proof.
  induction s as [|c s IH]; simpl; [done|].
  intros [H1 H2]%andb_true_iff. by rewrite lower_isLowerHex, IH.
Qed.

Lemma hexString_lower_fix n s : hexString isLowerHex n s = true → toLowerCase s = s.
Proof.
  unfold hexString. repeat (case_match; try done).
  intros [_ Hall]%andb_true_iff. simplify_eq/=. by rewrite allChars_lower_fix.
Qed.

Lemma allChars_hex_lower s : allChars isHex s = allChars isLowerHex (toLowerCase s).
Proof. induction s as [|c s IH]; simpl; [done|]. by rewrite IH. Qed.

Lemma hexString_toLower n s : hexString isHex n s = true → hexString isLowerHex n (toLowerCase s) = true.
Proof.
  unfold hexString. repeat (case_match; try done).
  simplify_eq/=. rewrite toLowerCase_length, <- allChars_hex_lower. done.
Qed.
Lemma isBytes32_lower s : isBytes32 s = true → isLowerBytes32 (toLowerCase s) = true.
Proof. apply hexString_toLower. Qed.

(** JavaScript's [a < b] on strings of single-unit characters. *)
Definition str_ltb (a b : string) : bool := String.ltb a b.
Definition str_leb (a b : string) : bool := String.leb a b.

Lemma str_ltb_cons a s b t :
  str_ltb (String a s) (String b t)
  = (N_of_ascii a <? N_of_ascii b)%N || ((N_of_ascii a =? N_of_ascii b)%N && str_ltb s t).
Proof.
  unfold str_ltb, String.ltb. simpl. unfold Ascii.compare.
  destruct (N.compare_spec (N_of_ascii a) (N_of_ascii b)) as [Heq|H|H].
  - rewrite Heq, N.ltb_irrefl, N.eqb_refl. done.
  - by rewrite (proj2 (N.ltb_lt _ _)).
  - rewrite (proj2 (N.ltb_ge _ _)), (proj2 (N.eqb_neq _ _)) by lia. done.
Qed.

Lemma str_ltb_irrefl s : str_ltb s s = false.
Proof. induction s as [|c s IH]; [done|]. by rewrite str_ltb_cons, IH, N.ltb_irrefl, andb_false_r. Qed.

Lemma str_ltb_trans a b c : str_ltb a b = true → str_ltb b c = true → str_ltb a c = true.
Proof.
  revert b c. induction a as [|x a IH]; intros [|y b] [|z c]; try done.
  rewrite !str_ltb_cons, !orb_true_iff, !andb_true_iff, !N.ltb_lt, !N.eqb_eq.
  intros [H1|[H1 H2]] [H3|[H3 H4]]; [left; lia..|right]. split; [lia|eauto].
Qed.

Lemma str_ltb_total a b : a ≠ b → str_ltb a b = true ∨ str_ltb b a = true.
Proof.
  revert b. induction a as [|x a IH]; intros [|y b] Hne; [done|by left|by right|].
  rewrite !str_ltb_cons, !orb_true_iff, !andb_true_iff, !N.ltb_lt, !N.eqb_eq.
  destruct (N.lt_trichotomy (N_of_ascii x) (N_of_ascii y)) as [|[Heq|]]; [auto| |auto].
  assert (x = y) as ->.
  { by rewrite <- (ascii_N_embedding x), <- (ascii_N_embedding y), Heq. }
  assert (a ≠ b) as Hab by (intros ->; by apply Hne). destruct (IH b Hab); auto.
Qed.

Lemma str_ltb_asym a b : str_ltb a b = true → str_ltb b a = false.
Proof.
  intros H. destruct (str_ltb b a) eqn:E; [|done]. pose proof (str_ltb_trans _ _ _ H E) as F.
  by rewrite str_ltb_irrefl in F.
Qed.

Lemma str_ltb_antirefl a b : str_ltb a b = true → a ≠ b.
Proof. intros H ->. by rewrite str_ltb_irrefl in H. Qed.

Lemma app_str_inj (a b c d : string) :
  String.length a = String.length c → a +:+ b = c +:+ d → a = c ∧ b = d.
Proof.
  revert c. induction a as [|x a IH]; intros [|y c]; simpl; try done.
  intros [= Hl] [= -> Hs]. by destruct (IH c Hl Hs) as [-> ->].
Qed.

Lemma app_assoc_str (a b c : string) : (a +:+ b) +:+ c = a +:+ (b +:+ c).
Proof. induction a as [|x a IH]; [done|]. change (String x ((a +:+ b) +:+ c) = String x (a +:+ (b +:+ c))). by rewrite IH. Qed.
Lemma app_cons_str c (a b : string) : String c a +:+ b = String c (a +:+ b).
Proof. done. Qed.
Lemma app_nil_str (b : string) : "" +:+ b = b.
Proof. done. Qed.

Lemma allChars_app (p : ascii → bool) a b : allChars p (a +:+ b) = allChars p a && allChars p b.
Proof. induction a as [|c a IH]; [done|]. rewrite app_cons_str. simpl. by rewrite IH, andb_assoc. Qed.

Lemma length_app_str (a b : string) : String.length (a +:+ b) = (String.length a + String.length b)%nat.
Proof.
  induction a as [|x a IH]; [done|].
  change (S (String.length (a +:+ b)) = S (String.length a + String.length b)). by rewrite IH.
Qed.

(** * Insertion-ordered dictionaries

    A plain object or [Map] used as a dictionary with string keys: [Object.values]
    enumerates in insertion order, assigning an existing key keeps its place. *)

Section dict.
Context {V : Type}.

Fixpoint dget (k : string) (d : list (string * V)) : option V :=
  match d with
  | [] => None
  | (k', v) :: d => if String.eqb k k' then Some v else dget k d
  end.

Fixpoint dset (k : string) (v : V) (d : list (string * V)) : list (string * V) :=
  match d with
  | [] => [(k, v)]
  | (k', v') :: d => if String.eqb k k' then (k', v) :: d else (k', v') :: dset k v d
  end.

Definition ddel (k : string) (d : list (string * V)) : list (string * V) :=
  filter (λ kv, negb (String.eqb k kv.1)) d.

Definition dvalues (d : list (string * V)) : list V := map snd d.
Definition dkeys (d : list (string * V)) : list string := map fst d.
Definition dhas (k : string) (d : list (string * V)) : bool :=
  match dget k d with Some _ => true | None => false end.

Lemma dget_dset k k' v d :
  dget k (dset k' v d) = if String.eqb k k' then Some v else dget k d.
Proof.
  induction d as [|[k0 v0] d IH]; simpl; [done|].
  destruct (String.eqb_spec k' k0) as [->|Hne]; simpl.
  - destruct (String.eqb_spec k k0); done.
  - rewrite IH. destruct (String.eqb_spec k k0) as [->|].
    + destruct (String.eqb_spec k0 k'); congruence.
    + done.
Qed.

Lemma dget_dset_eq k v d : dget k (dset k v d) = Some v.
Proof. by rewrite dget_dset, String.eqb_refl. Qed.

Lemma dget_dset_ne k k' v d : k ≠ k' → dget k (dset k' v d) = dget k d.
Proof. intros H%String.eqb_neq. by rewrite dget_dset, H. Qed.

Lemma dget_ddel k k' d :
  dget k (ddel k' d) = if String.eqb k k' then None else dget k d.
Proof.
  unfold ddel. induction d as [|[k0 v0] d IH]; simpl.
  - by destruct (String.eqb k k').
  - rewrite filter_cons; simpl. destruct (String.eqb_spec k' k0) as [->|Hne]; simpl.
    + rewrite IH. by destruct (String.eqb_spec k k0).
    + rewrite IH. destruct (String.eqb_spec k k0) as [->|]; [|done].
      destruct (String.eqb_spec k0 k'); congruence.
Qed.

Lemma dget_ddel_eq k d : dget k (ddel k d) = None.
Proof. by rewrite dget_ddel, String.eqb_refl. Qed.

Lemma dget_ddel_ne k k' d : k ≠ k' → dget k (ddel k' d) = dget k d.
Proof. intros H%String.eqb_neq. by rewrite dget_ddel, H. Qed.

Lemma dget_elem k v d : dget k d = Some v → (k, v) ∈ d.
Proof.
  induction d as [|[k0 v0] d IH]; simpl; [done|].
  destruct (String.eqb_spec k k0) as [->|]; intros ?; simplify_eq; [by left|].
  right; auto.
Qed.

Lemma dget_dvalues k v d : dget k d = Some v → v ∈ dvalues d.
Proof.
  intros H%dget_elem. unfold dvalues. apply list_elem_of_fmap. by exists (k, v).
Qed.

Lemma elem_dget k v d : NoDup (dkeys d) → (k, v) ∈ d → dget k d = Some v.
Proof.
  induction d as [|[k0 v0] d IH]; simpl; [by intros _ ?%elem_of_nil|].
  intros [Hk Hnd]%NoDup_cons [Heq|Hin]%elem_of_cons.
  - simplify_eq. by rewrite String.eqb_refl.
  - destruct (String.eqb_spec k k0) as [->|]; [|by apply IH].
    exfalso. apply Hk. apply list_elem_of_fmap. by exists (k0, v).
Qed.

Lemma dkeys_dset k v d :
  dkeys (dset k v d) = if dhas k d then dkeys d else dkeys d ++ [k].
Proof.
  unfold dhas. induction d as [|[k0 v0] d IH]; simpl; [done|].
  destruct (String.eqb_spec k k0) as [->|]; simpl; [done|].
  rewrite IH. by destruct (dget k d).
Qed.

Lemma elem_dkeys_dset k k' v d : k' ∈ dkeys (dset k v d) ↔ k' = k ∨ k' ∈ dkeys d.
Proof.
  rewrite dkeys_dset. unfold dhas. destruct (dget k d) eqn:Hk.
  - split; [by right|]. intros [->|]; [|done]. apply dget_elem in Hk. apply list_elem_of_fmap. by eexists (_, _).
  - rewrite elem_of_app, list_elem_of_singleton. tauto.
Qed.

Lemma dget_None k d : dget k d = None ↔ k ∉ dkeys d.
Proof.
  induction d as [|[k0 v0] d IH]; simpl.
  - split; [|done]. by intros _ ?%elem_of_nil.
  - rewrite not_elem_of_cons. destruct (String.eqb_spec k k0) as [->|].
    + split; [done|]. by intros [[] _].
    + rewrite IH. tauto.
Qed.

Lemma dset_NoDup k v d : NoDup (dkeys d) → NoDup (dkeys (dset k v d)).
Proof.
  intros Hnd. rewrite dkeys_dset. unfold dhas. destruct (dget k d) eqn:Hk; [done|].
  apply NoDup_app. split_and!; [done| |apply NoDup_singleton].
  intros x Hx ->%list_elem_of_singleton. by apply dget_None in Hk.
Qed.

Lemma ddel_NoDup k d : NoDup (dkeys d) → NoDup (dkeys (ddel k d)).
Proof.
  unfold ddel, dkeys. induction d as [|[k0 v0] d IH]; simpl; [done|].
  intros [Hk Hnd]%NoDup_cons. rewrite filter_cons; simpl.
  destruct (String.eqb k k0); simpl; [auto|]. apply NoDup_cons. split; [|auto].
  intros Hin. apply Hk. apply list_elem_of_fmap in Hin as (kv & -> & Hin).
  apply list_elem_of_filter in Hin as [_ Hin]. by apply list_elem_of_fmap_2.
Qed.
End dict.

#[export] Hint Rewrite @dget_dset_eq @dget_ddel_eq : js_rw.
#[export] Hint Resolve dset_NoDup ddel_NoDup : js.

(** * Stable sort

    [Array.prototype.sort(cmp)] is stable; for a consistent comparator every
    stable sort returns the list this insertion sort returns. [le x y] stands
    for [cmp(x, y) <= 0]. *)

Section sort.
Context {A : Type} (le : A → A → bool).

Fixpoint insert_by (x : A) (l : list A) : list A :=
  match l with
  | [] => [x]
  | y :: l' => if le x y then x :: y :: l' else y :: insert_by x l'
  end.

Fixpoint sort_by (l : list A) : list A :=
  match l with
  | [] => []
  | x :: l => insert_by x (sort_by l)
  end.

Lemma insert_by_perm x l : insert_by x l ≡ₚ x :: l.
Proof.
  induction l as [|y l IH]; simpl; [done|].
  destruct (le x y); [done|]. rewrite IH. apply Permutation_swap.
Qed.

Lemma sort_by_perm l : sort_by l ≡ₚ l.
Proof. induction l as [|x l IH]; simpl; [done|]. by rewrite insert_by_perm, IH. Qed.

Lemma sort_by_length l : length (sort_by l) = length l.
Proof. by rewrite sort_by_perm. Qed.

Hypothesis le_total : ∀ x y, le x y = true ∨ le y x = true.
Hypothesis le_trans : ∀ x y z, le x y = true → le y z = true → le x z = true.

Lemma insert_by_sorted x l : StronglySorted le l → StronglySorted le (insert_by x l).
Proof.
  induction 1 as [|y l Hl IH Hy]; simpl; [repeat constructor|].
  destruct (le x y) eqn:Hxy.
  - constructor; [by constructor|]. constructor; [by rewrite Hxy|].
    eapply Forall_impl; [done|]. intros z Hz. apply Is_true_eq_left.
    eapply le_trans; [done|]. by apply Is_true_eq_true.
  - constructor; [done|]. rewrite insert_by_perm. constructor; [|done].
    destruct (le_total x y) as [|H]; [congruence|]. by rewrite H.
Qed.

Lemma sort_by_sorted l : StronglySorted le (sort_by l).
Proof. induction l; simpl; [constructor|by apply insert_by_sorted]. Qed.
End sort.
