(* ===== verification/Store.v ===== *)
(** The worker's durable store, [src/worker/store.ts].

    The state is the in-memory [data] of the class together with the state file
    and the file-system faults to come: every mutation goes through [commit],
    which writes a temporary file, renames it over the state file and syncs the
    directory, and on any fault reloads whatever the file then holds. *)

From Stdlib Require Import ZArith Lia String.
From stdpp Require Import base decidable option list gmap strings relations sorting.
From S2P Require Import Prelude JS.
Local Open Scope string_scope.
Local Open Scope list_scope.
Local Open Scope Z_scope.

Module Store.

(** * Data *)

Inductive JobState := discovered | attested | submitted | done | skipped | dead.
#[export] Instance JobState_eq_dec : EqDecision JobState.
Proof. solve_decision. Defined.

Definition JobState_name (s : JobState) : string :=
  match s with
  | discovered => "discovered" | attested => "attested" | submitted => "submitted"
  | done => "done" | skipped => "skipped" | dead => "dead"
  end.

Inductive ReceiptStatus := success | reverted.
#[export] Instance ReceiptStatus_eq_dec : EqDecision ReceiptStatus.
Proof. solve_decision. Defined.

Record SkipObservation := {
  so_blockNumber : Z; so_blockHash : string; so_confirmations : Z; so_observedAt : Z }.
#[export] Instance SkipObservation_eq_dec : EqDecision SkipObservation.
Proof. solve_decision. Defined.

Record RelayHistory := {
  rh_hash : string; rh_nonce : Z; rh_status : ReceiptStatus;
  rh_blockNumber : Z; rh_blockHash : string }.
#[export] Instance RelayHistory_eq_dec : EqDecision RelayHistory.
Proof. solve_decision. Defined.

Record Job := {
  txHash : string;
  blockNumber : Z;
  blockHash : option string;
  transactionIndex : option Z;
  action : Z;
  eventName : string;
  logCount : Z;
  state : JobState;
  attempts : Z;
  lastError : option string;
  ascTxHash : option string;
  queryId : option string;
  discoveredAt : Z;
  updatedAt : Z;
  skipObservation : option SkipObservation;
  relayHistory : option (list RelayHistory) }.
#[export] Instance Job_eq_dec : EqDecision Job.
Proof. solve_decision. Defined.

Record WorkerScope := {
  sourceChainId : Z; hubChainId : Z; chainKey : Z; source : string; asc : string;
  signer : string; startBlock : Z }.
#[export] Instance WorkerScope_eq_dec : EqDecision WorkerScope.
Proof. solve_decision. Defined.

Record RelayEnvelope := {
  re_sourceTxHash : string; re_queryId : string; re_hash : string; re_raw : string;
  re_nonce : Z; re_chainId : Z; re_to : string; re_signer : string; re_data : string }.
#[export] Instance RelayEnvelope_eq_dec : EqDecision RelayEnvelope.
Proof. solve_decision. Defined.

Record SourceCheckpoint := { height : Z; hash : string }.
#[export] Instance SourceCheckpoint_eq_dec : EqDecision SourceCheckpoint.
Proof. solve_decision. Defined.

Record SourceRewind := { at_ : Z; from_ : Z; to_ : Z; orphanedTxs : list string }.
#[export] Instance SourceRewind_eq_dec : EqDecision SourceRewind.
Proof. solve_decision. Defined.

Record Data := {
  version : Z;
  cursor : Z;
  jobs : list (string * Job);
  scope : option WorkerScope;
  relay : option RelayEnvelope;
  sourceCheckpoints : option (list SourceCheckpoint);
  sourceHold : option string;
  hubStartNonce : option Z;
  hubHold : option string;
  sourceRewinds : option (list SourceRewind) }.
#[export] Instance Data_eq_dec : EqDecision Data.
Proof. solve_decision. Defined.

Definition initialData : Data := {|
  version := 1; cursor := 0; jobs := []; scope := None; relay := None;
  sourceCheckpoints := None; sourceHold := None; hubStartNonce := None;
  hubHold := None; sourceRewinds := None |}.

Definition with_job_relayed (r : RelayEnvelope) (now : Z) (j : Job) : Job := {|
  txHash := txHash j; blockNumber := blockNumber j; blockHash := blockHash j;
  transactionIndex := transactionIndex j; action := action j; eventName := eventName j;
  logCount := logCount j; state := submitted; attempts := attempts j; lastError := lastError j;
  ascTxHash := Some (re_hash r); queryId := Some (re_queryId r);
  discoveredAt := discoveredAt j; updatedAt := now;
  skipObservation := skipObservation j; relayHistory := relayHistory j |}.

(** A [Partial<Job>] patch is the list of the properties it assigns. *)
Inductive JobField :=
  | SetTxHash (v : string) | SetBlockNumber (v : Z) | SetBlockHash (v : option string)
  | SetTransactionIndex (v : option Z) | SetAction (v : Z) | SetEventName (v : string)
  | SetLogCount (v : Z) | SetState (v : JobState) | SetAttempts (v : Z)
  | SetLastError (v : option string) | SetAscTxHash (v : option string)
  | SetQueryId (v : option string) | SetDiscoveredAt (v : Z) | SetUpdatedAt (v : Z)
  | SetSkipObservation (v : option SkipObservation)
  | SetRelayHistory (v : option (list RelayHistory)).

Definition set_field (j : Job) (f : JobField) : Job :=
  {| txHash := match f with SetTxHash v => v | _ => txHash j end;
     blockNumber := match f with SetBlockNumber v => v | _ => blockNumber j end;
     blockHash := match f with SetBlockHash v => v | _ => blockHash j end;
     transactionIndex := match f with SetTransactionIndex v => v | _ => transactionIndex j end;
     action := match f with SetAction v => v | _ => action j end;
     eventName := match f with SetEventName v => v | _ => eventName j end;
     logCount := match f with SetLogCount v => v | _ => logCount j end;
     state := match f with SetState v => v | _ => state j end;
     attempts := match f with SetAttempts v => v | _ => attempts j end;
     lastError := match f with SetLastError v => v | _ => lastError j end;
     ascTxHash := match f with SetAscTxHash v => v | _ => ascTxHash j end;
     queryId := match f with SetQueryId v => v | _ => queryId j end;
     discoveredAt := match f with SetDiscoveredAt v => v | _ => discoveredAt j end;
     updatedAt := match f with SetUpdatedAt v => v | _ => updatedAt j end;
     skipObservation := match f with SetSkipObservation v => v | _ => skipObservation j end;
     relayHistory := match f with SetRelayHistory v => v | _ => relayHistory j end |}.

Definition JobPatch := list JobField.
(** [Object.assign(j, patch)] *)
Definition assign (j : Job) (p : JobPatch) : Job := fold_left set_field p j.
(** [patch.state] *)
Definition patch_state (p : JobPatch) : option JobState :=
  fold_left (λ acc f, match f with SetState v => Some v | _ => acc end) p None.

(** * Updates of single fields of [Data] ([{ ...data, f: v }]) *)

Definition set_cursor c (d : Data) : Data := {| version := version d; cursor := c; jobs := jobs d;
  scope := scope d; relay := relay d; sourceCheckpoints := sourceCheckpoints d;
  sourceHold := sourceHold d; hubStartNonce := hubStartNonce d; hubHold := hubHold d;
  sourceRewinds := sourceRewinds d |}.
Definition set_jobs js (d : Data) : Data := {| version := version d; cursor := cursor d; jobs := js;
  scope := scope d; relay := relay d; sourceCheckpoints := sourceCheckpoints d;
  sourceHold := sourceHold d; hubStartNonce := hubStartNonce d; hubHold := hubHold d;
  sourceRewinds := sourceRewinds d |}.
Definition set_scope sc (d : Data) : Data := {| version := version d; cursor := cursor d;
  jobs := jobs d; scope := sc; relay := relay d; sourceCheckpoints := sourceCheckpoints d;
  sourceHold := sourceHold d; hubStartNonce := hubStartNonce d; hubHold := hubHold d;
  sourceRewinds := sourceRewinds d |}.
Definition set_relay r (d : Data) : Data := {| version := version d; cursor := cursor d;
  jobs := jobs d; scope := scope d; relay := r; sourceCheckpoints := sourceCheckpoints d;
  sourceHold := sourceHold d; hubStartNonce := hubStartNonce d; hubHold := hubHold d;
  sourceRewinds := sourceRewinds d |}.
Definition set_checkpoints cs (d : Data) : Data := {| version := version d; cursor := cursor d;
  jobs := jobs d; scope := scope d; relay := relay d; sourceCheckpoints := cs;
  sourceHold := sourceHold d; hubStartNonce := hubStartNonce d; hubHold := hubHold d;
  sourceRewinds := sourceRewinds d |}.
Definition set_sourceHold h (d : Data) : Data := {| version := version d; cursor := cursor d;
  jobs := jobs d; scope := scope d; relay := relay d; sourceCheckpoints := sourceCheckpoints d;
  sourceHold := h; hubStartNonce := hubStartNonce d; hubHold := hubHold d;
  sourceRewinds := sourceRewinds d |}.
Definition set_hubStartNonce n (d : Data) : Data := {| version := version d; cursor := cursor d;
  jobs := jobs d; scope := scope d; relay := relay d; sourceCheckpoints := sourceCheckpoints d;
  sourceHold := sourceHold d; hubStartNonce := n; hubHold := hubHold d;
  sourceRewinds := sourceRewinds d |}.
Definition set_hubHold h (d : Data) : Data := {| version := version d; cursor := cursor d;
  jobs := jobs d; scope := scope d; relay := relay d; sourceCheckpoints := sourceCheckpoints d;
  sourceHold := sourceHold d; hubStartNonce := hubStartNonce d; hubHold := h;
  sourceRewinds := sourceRewinds d |}.
Definition set_rewinds rs (d : Data) : Data := {| version := version d; cursor := cursor d;
  jobs := jobs d; scope := scope d; relay := relay d; sourceCheckpoints := sourceCheckpoints d;
  sourceHold := sourceHold d; hubStartNonce := hubStartNonce d; hubHold := hubHold d;
  sourceRewinds := rs |}.

(** * The class state and its file *)

(** What one [commit] meets in the file system. *)
Inductive FsFault :=
  | FsOk            (* every call succeeds *)
  | FsBeforeRename  (* a call up to and including [renameSync] throws *)
  | FsAfterRename.  (* the directory sync throws: the rename has happened *)
(** What the [catch] and the [finally] of a failed [commit] meet.  An error thrown there takes the place of
    [StoreWriteError].  The existence tests are taken as exact. *)
Inductive Aftermath :=
  | ReloadOk        (* the file is read again and the temporary file is removed *)
  | ReloadFails     (* reading the file throws: [this.data] stays as it is *)
  | CleanupFails.   (* the file is read again; closing or removing the temporary file throws *)

Record StoreSt := mkStore {
  data : Data;                (* [this.data] *)
  disk : option Data;         (* the state file, parsed *)
  faults : list (FsFault * Aftermath) }.    (* what the next commits meet *)

Definition next_fault (fs : list (FsFault * Aftermath)) : FsFault * Aftermath * list (FsFault * Aftermath) :=
  match fs with [] => (FsOk, ReloadOk, []) | f :: fs => (f, fs) end.
(** The error of a file operation, a plain [Error]. *)
Definition EIo : exn := EError "file system".

Definition load (file : option Data) : outcome Data :=
  match file with
  | None => Ok initialData
  | Some parsed =>
      if negb (version parsed =? 1) then Throw (EError "unknown state file version")
      else
        match relay parsed with
        | None => Ok parsed
        | Some r =>
            match dget (re_sourceTxHash r) (jobs parsed) with
            | None => Throw (EError "INCONSISTENT_RELAY_STATE")
            | Some job =>
                if bool_decide (state job = submitted)
                   && bool_decide (ascTxHash job = Some (re_hash r))
                   && bool_decide (queryId job = Some (re_queryId r))
                then Ok parsed else Throw (EError "INCONSISTENT_RELAY_STATE")
            end
        end
  end.

(** [this.data = this.load()] *)
Definition reload : M StoreSt unit := λ s,
  match load (disk s) with
  | Ok d => (Ok tt, {| data := d; disk := disk s; faults := faults s |})
  | Throw e => (Throw e, s)
  end.

(** [new Store(path)]: the file as found, no fault met yet. *)
Definition newStore (file : option Data) (fs : list (FsFault * Aftermath)) : outcome StoreSt :=
  let? d := load file in Ok {| data := d; disk := file; faults := fs |}.

(** The [catch] and the [finally]: the contents are those of the file, unless it cannot be read. *)
Definition failCommit (a : Aftermath) : M StoreSt unit :=
  match a with
  | ReloadOk => reload ;;; throw EStoreWrite
  | ReloadFails => throw EIo
  | CleanupFails => λ s, (Throw EIo, (reload s).2)
  end.

Definition commit (next : Data) : M StoreSt unit := λ s,
  let '(f, a, fs) := next_fault (faults s) in
  match f with
  | FsOk => (Ok tt, {| data := next; disk := Some next; faults := fs |})
  | FsBeforeRename => failCommit a {| data := data s; disk := disk s; faults := fs |}
  | FsAfterRename => failCommit a {| data := next; disk := Some next; faults := fs |}
  end.

(** * Operations *)

Definition checkpoints (d : Data) : list SourceCheckpoint := default [] (sourceCheckpoints d).

Definition bindScope (sc : WorkerScope) : M StoreSt unit :=
  let! d := gets data in
  require (match scope d with Some sc' => bool_decide (sc' = sc) | None => true end)
    (EError "WORKER_STATE_SCOPE_MISMATCH") ;;;
  require (match scope d with
           | None => (cursor d =? 0) && bool_decide (jobs d = [])
           | Some _ => true end) (EError "LEGACY_WORKER_STATE_REQUIRES_RECONCILIATION") ;;;
  match scope d with
  | None => commit (set_scope (Some sc) d)
  | Some _ => ret tt
  end.

Definition assertSourceReady : M StoreSt unit :=
  let! d := gets data in
  if truthy (sourceHold d) then throw (ESourceSafety (default "" (sourceHold d))) else ret tt.

Definition assertHubReady : M StoreSt unit :=
  let! d := gets data in
  if truthy (hubHold d) then throw (EHubSafety (default "" (hubHold d))) else ret tt.

Definition holdSource {A} (reason : string) : M StoreSt A :=
  let! d := gets data in
  commit (set_sourceHold (Some reason) d) ;;; throw (ESourceSafety reason).

Definition holdHub {A} (reason : string) : M StoreSt A :=
  let! d := gets data in
  commit (set_hubHold (Some reason) d) ;;; throw (EHubSafety reason).

Definition initializeHubSigner (startNonce : Z) : M StoreSt unit :=
  assertHubReady ;;;
  require (safeNat startNonce) (EHubSafety "HUB_SIGNER_BASELINE_INVALID") ;;;
  let! d := gets data in
  match hubStartNonce d with
  | Some n => require (n =? startNonce) (EHubSafety "HUB_SIGNER_BASELINE_MISMATCH")
  | None => commit (set_hubStartNonce (Some startNonce) d)
  end.

Definition initializeSource (checkpoint : SourceCheckpoint) : M StoreSt unit :=
  assertSourceReady ;;;
  let! d := gets data in
  if negb (bool_decide (checkpoints d = [])) then ret tt
  else
    require (bool_decide (jobs d = []) && ((cursor d =? 0) || (cursor d =? height checkpoint)))
      (ESourceSafety "UNHASHED_SOURCE_STATE_REQUIRES_RECONCILIATION") ;;;
    commit (set_checkpoints (Some [checkpoint]) (set_cursor (height checkpoint) d)).

(** [{ ...job, discoveredAt: now, updatedAt: now }] *)
Definition stamped (j : Job) (now : Z) : Job :=
  set_field (set_field j (SetDiscoveredAt now)) (SetUpdatedAt now).

(** One iteration of the loop of [commitSourceRange] on the cloned [jobs]. *)
Definition addSourceJob (from to : Z) (now : Z) (job : Job) (js : list (string * Job))
    : outcome (list (string * Job)) :=
  let? _ := orequire (truthy (blockHash job)
                      && match transactionIndex job with Some i => isSafeInteger i | None => false end
                      && (from <=? blockNumber job) && (blockNumber job <=? to))
              (ESourceSafety "INVALID_SOURCE_JOB_COORDINATES") in
  match dget (txHash job) js with
  | Some existing =>
      let? _ := orequire (bool_decide (blockHash existing = blockHash job)
                          && (blockNumber existing =? blockNumber job))
                  (ESourceSafety "SOURCE_TX_RELOCATION_NOT_RECONCILED") in
      Ok js
  | None => Ok (dset (txHash job) (stamped job now) js)
  end.

Fixpoint addSourceJobs (from to : Z) (now : Z) (l : list Job) (js : list (string * Job))
    : outcome (list (string * Job)) :=
  match l with
  | [] => Ok js
  | job :: l => let? js' := addSourceJob from to now job js in addSourceJobs from to now l js'
  end.

(** [l.slice(-n)] *)
Definition sliceLast {A} (n : nat) (l : list A) : list A := drop (length l - n) l.

(** The verified initial anchor plus the 128 most recent range boundaries. *)
Definition trimCheckpoints (cs : list SourceCheckpoint) : list SourceCheckpoint :=
  if (129 <? length cs)%nat
  then match cs with c0 :: _ => c0 :: sliceLast 128 cs | [] => [] end
  else cs.

Definition commitSourceRange (from : Z) (end_ : SourceCheckpoint) (js : list Job) (now : Z)
    : M StoreSt unit :=
  assertSourceReady ;;; assertHubReady ;;;
  let! d := gets data in
  require ((from =? cursor d + 1) && (from <=? height end_))
    (ESourceSafety "SOURCE_SCAN_CURSOR_CONFLICT") ;;;
  let! js' := lift_out (addSourceJobs from (height end_) now js (jobs d)) in
  commit (set_cursor (height end_)
    (set_checkpoints (Some (trimCheckpoints (checkpoints d ++ [end_]))) (set_jobs js' d))).

(** The jobs a rewind to [ancestor] would orphan, and when one of them is bound to a
    signature or an on-chain outcome. *)
Definition affectedJobs (ancestor : SourceCheckpoint) (d : Data) : list Job :=
  filter (λ j, bool_decide (height ancestor < blockNumber j)) (dvalues (jobs d)).

Definition relayTouched (j : Job) : bool :=
  truthy (ascTxHash j) || truthy (queryId j)
  || match relayHistory j with Some (_ :: _) => true | _ => false end
  || bool_decide (state j = submitted) || bool_decide (state j = done)
  || bool_decide (state j = skipped).

Definition rewindUnsignedSource (ancestor : SourceCheckpoint) (now : Z) : M StoreSt Z :=
  assertSourceReady ;;;
  let! d := gets data in
  require (existsb (λ c, (height c =? height ancestor) && String.eqb (hash c) (hash ancestor))
             (checkpoints d)) (ESourceSafety "UNKNOWN_SOURCE_ANCESTOR") ;;;
  let affected := affectedJobs ancestor d in
  if existsb relayTouched affected then holdSource "SOURCE_REORG_TOUCHES_RELAYED_JOB"
  else
    commit
      (set_checkpoints (Some (filter (λ c, height c <= height ancestor) (checkpoints d)))
      (set_cursor (height ancestor)
      (set_rewinds (Some (default [] (sourceRewinds d) ++
         [{| at_ := now; from_ := cursor d; to_ := height ancestor;
             orphanedTxs := map txHash affected |}]))
      (set_jobs (fold_left (λ js j, ddel (txHash j) js) affected (jobs d)) d)))) ;;;
    ret (Z.of_nat (length affected)).

Definition terminalState (s : JobState) : bool :=
  bool_decide (s = done) || bool_decide (s = dead) || bool_decide (s = skipped).

Definition reserveRelay (r : RelayEnvelope) (now : Z) : M StoreSt unit :=
  assertSourceReady ;;; assertHubReady ;;;
  let! d := gets data in
  require (bool_decide (relay d = None)) (EError "RELAY_NONCE_UNRESOLVED") ;;;
  match dget (re_sourceTxHash r) (jobs d) with
  | None => throw (EError "RELAY_JOB_NOT_PENDING")
  | Some job =>
      require (negb (terminalState (state job))) (EError "RELAY_JOB_NOT_PENDING") ;;;
      (* [Object.assign(next.jobs[job.txHash], ...)]: the key is the job's own hash *)
      match dget (txHash job) (jobs d) with
      | None => throw (EError "TypeError")
      | Some target =>
          commit (set_relay (Some r)
            (set_jobs (dset (txHash job) (with_job_relayed r now target) (jobs d)) d))
      end
  end.

Record Receipt := { rc_status : ReceiptStatus; rc_blockNumber : Z; rc_blockHash : string }.
#[export] Instance Receipt_eq_dec : EqDecision Receipt.
Proof. solve_decision. Defined.

(** The job as [finishRelay] leaves it. *)
Definition finishedJob (r : RelayEnvelope) (receipt : Receipt) (now : Z) (j : Job) : Job :=
  assign j
    [ SetRelayHistory (Some (default [] (relayHistory j) ++
        [{| rh_hash := re_hash r; rh_nonce := re_nonce r; rh_status := rc_status receipt;
            rh_blockNumber := rc_blockNumber receipt; rh_blockHash := rc_blockHash receipt |}]));
      SetState (match rc_status receipt with success => done | reverted => dead end);
      SetLastError (match rc_status receipt with
                    | success => None
                    | reverted => Some "ASC_TRANSACTION_REVERTED_REVIEW_REQUIRED" end);
      SetUpdatedAt now ].

Definition finishRelay (h : string) (receipt : Receipt) (now : Z) : M StoreSt unit :=
  assertHubReady ;;;
  let! d := gets data in
  match relay d with
  | None => throw (EError "RELAY_STATE_CONFLICT")
  | Some r =>
      require (String.eqb (re_hash r) h) (EError "RELAY_STATE_CONFLICT") ;;;
      match dget (re_sourceTxHash r) (jobs d) with
      | None => throw (EError "TypeError")
      | Some job =>
          commit (set_relay None
            (set_jobs (dset (re_sourceTxHash r) (finishedJob r receipt now job) (jobs d)) d))
      end
  end.

(** Advance the cursor, never rewind it. *)
Definition setCursor (block : Z) : M StoreSt unit :=
  let! d := gets data in
  if block <? cursor d then ret tt else commit (set_cursor block d).

Definition has (h : string) : M StoreSt bool := gets (λ s, dhas h (jobs (data s))).
Definition get (h : string) : M StoreSt (option Job) := gets (λ s, dget h (jobs (data s))).

Definition add (job : Job) (now : Z) : M StoreSt Job :=
  let! d := gets data in
  match dget (txHash job) (jobs d) with
  | Some existing => ret existing
  | None =>
      let j := stamped job now in
      commit (set_jobs (dset (txHash j) j (jobs d)) d) ;;; ret j
  end.

Definition update (h : string) (patch : JobPatch) (now : Z) : M StoreSt unit :=
  let! d := gets data in
  require (negb (match relay d with
                 | Some r => String.eqb (re_sourceTxHash r) h
                     && match patch_state patch with
                        | Some s => negb (bool_decide (s = submitted))
                        | None => false end
                 | None => false end)) (EError "UNRESOLVED_RELAY_CANNOT_BE_DROPPED") ;;;
  match dget h (jobs d) with
  | None => ret tt
  | Some j => commit (set_jobs (dset h (set_field (assign j patch) (SetUpdatedAt now)) (jobs d)) d)
  end.

(** Jobs that have not finished, the owner of the unresolved nonce first. *)
Definition ownsRelay (d : Data) (j : Job) : bool :=
  match relay d with Some r => String.eqb (txHash j) (re_sourceTxHash r) | None => false end.

Definition pending (d : Data) : list Job :=
  sort_by (λ a b, Z.b2z (ownsRelay d b) - Z.b2z (ownsRelay d a) <=? 0)
    (filter (λ j, negb (terminalState (state j))) (dvalues (jobs d))).

Definition counts (d : Data) : list (string * Z) :=
  fold_left (λ out j, let k := JobState_name (state j) in dset k (default 0 (dget k out) + 1) out)
    (dvalues (jobs d)) [].

(** [jobsReadyForDispatch(store, reserved, limit)] *)
Definition jobsReadyForDispatch (d : Data) (reserved : string → bool) (limit : nat) : list Job :=
  take limit (filter (λ j, negb (reserved (txHash j))) (pending d)).

Record RecoverySnapshot := {
  rs_scope : option WorkerScope; rs_relay : option RelayEnvelope;
  rs_jobs : list (string * Job); rs_hubStartNonce : option Z; rs_hubHold : option string }.

Definition recoverySnapshot (d : Data) : RecoverySnapshot := {|
  rs_scope := scope d; rs_relay := relay d; rs_jobs := jobs d;
  rs_hubStartNonce := hubStartNonce d; rs_hubHold := hubHold d |}.

(** * Abstract specification

    What each operation promises about [data], with no file and no faults: the
    outcome, and the new contents when it writes. *)

Inductive StoreOp :=
  | OReload
  | OBindScope (sc : WorkerScope)
  | OHoldSource (reason : string)
  | OHoldHub (reason : string)
  | OInitializeHubSigner (n : Z)
  | OInitializeSource (c : SourceCheckpoint)
  | OCommitSourceRange (from : Z) (end_ : SourceCheckpoint) (js : list Job) (now : Z)
  | ORewind (ancestor : SourceCheckpoint) (now : Z)
  | OReserveRelay (r : RelayEnvelope) (now : Z)
  | OFinishRelay (h : string) (receipt : Receipt) (now : Z)
  | OSetCursor (b : Z)
  | OAdd (j : Job) (now : Z)
  | OUpdate (h : string) (patch : JobPatch) (now : Z).

Definition runOp (op : StoreOp) : M StoreSt unit :=
  match op with
  | OReload => reload
  | OBindScope sc => bindScope sc
  | OHoldSource r => holdSource r
  | OHoldHub r => holdHub r
  | OInitializeHubSigner n => initializeHubSigner n
  | OInitializeSource c => initializeSource c
  | OCommitSourceRange f e js now => commitSourceRange f e js now
  | ORewind a now => rewindUnsignedSource a now ;;; ret tt
  | OReserveRelay r now => reserveRelay r now
  | OFinishRelay h rc now => finishRelay h rc now
  | OSetCursor b => setCursor b
  | OAdd j now => add j now ;;; ret tt
  | OUpdate h p now => update h p now
  end.

Definition Verdict : Type := outcome unit * option Data.

Definition refuse (e : exn) : Verdict := (Throw e, None).
Definition keep : Verdict := (Ok tt, None).
Definition write (d : Data) : Verdict := (Ok tt, Some d).

Definition sourceOpen (d : Data) (k : Verdict) : Verdict :=
  if truthy (sourceHold d) then refuse (ESourceSafety (default "" (sourceHold d))) else k.
Definition hubOpen (d : Data) (k : Verdict) : Verdict :=
  if truthy (hubHold d) then refuse (EHubSafety (default "" (hubHold d))) else k.

(** The state of the owner of the unresolved nonce may only be set to [submitted]. *)
Definition updateBlocked (d : Data) (h : string) (p : JobPatch) : bool :=
  match relay d with
  | Some r => String.eqb (re_sourceTxHash r) h
      && match patch_state p with
         | Some s => negb (bool_decide (s = submitted)) | None => false end
  | None => false end.

Definition committedRange (end_ : SourceCheckpoint) (js : list (string * Job)) (d : Data) : Data :=
  set_cursor (height end_)
    (set_checkpoints (Some (trimCheckpoints (checkpoints d ++ [end_]))) (set_jobs js d)).

Definition rewound (ancestor : SourceCheckpoint) (now : Z) (d : Data) : Data :=
  let affected := affectedJobs ancestor d in
  set_checkpoints (Some (filter (λ c, height c <= height ancestor) (checkpoints d)))
    (set_cursor (height ancestor)
    (set_rewinds (Some (default [] (sourceRewinds d) ++
       [{| at_ := now; from_ := cursor d; to_ := height ancestor;
           orphanedTxs := map txHash affected |}]))
    (set_jobs (fold_left (λ js j, ddel (txHash j) js) affected (jobs d)) d))).

Definition spec (op : StoreOp) (d : Data) : Verdict :=
  match op with
  | OReload => keep
  | OBindScope sc =>
      match scope d with
      | Some sc' =>
          if bool_decide (sc' = sc) then keep else refuse (EError "WORKER_STATE_SCOPE_MISMATCH")
      | None =>
          if (cursor d =? 0) && bool_decide (jobs d = []) then write (set_scope (Some sc) d)
          else refuse (EError "LEGACY_WORKER_STATE_REQUIRES_RECONCILIATION")
      end
  | OHoldSource r => (Throw (ESourceSafety r), Some (set_sourceHold (Some r) d))
  | OHoldHub r => (Throw (EHubSafety r), Some (set_hubHold (Some r) d))
  | OInitializeHubSigner n =>
      hubOpen d
        (if negb (safeNat n) then refuse (EHubSafety "HUB_SIGNER_BASELINE_INVALID")
         else match hubStartNonce d with
              | Some m => if m =? n then keep else refuse (EHubSafety "HUB_SIGNER_BASELINE_MISMATCH")
              | None => write (set_hubStartNonce (Some n) d)
              end)
  | OInitializeSource c =>
      sourceOpen d
        (if negb (bool_decide (checkpoints d = [])) then keep
         else if bool_decide (jobs d = []) && ((cursor d =? 0) || (cursor d =? height c))
         then write (set_checkpoints (Some [c]) (set_cursor (height c) d))
         else refuse (ESourceSafety "UNHASHED_SOURCE_STATE_REQUIRES_RECONCILIATION"))
  | OCommitSourceRange from end_ js now =>
      sourceOpen d (hubOpen d
        (if (from =? cursor d + 1) && (from <=? height end_)
         then match addSourceJobs from (height end_) now js (jobs d) with
              | Ok js' => write (committedRange end_ js' d)
              | Throw e => refuse e
              end
         else refuse (ESourceSafety "SOURCE_SCAN_CURSOR_CONFLICT")))
  | ORewind a now =>
      sourceOpen d
        (if existsb (λ c, (height c =? height a) && String.eqb (hash c) (hash a)) (checkpoints d)
         then if existsb relayTouched (affectedJobs a d)
              then (Throw (ESourceSafety "SOURCE_REORG_TOUCHES_RELAYED_JOB"),
                    Some (set_sourceHold (Some "SOURCE_REORG_TOUCHES_RELAYED_JOB") d))
              else write (rewound a now d)
         else refuse (ESourceSafety "UNKNOWN_SOURCE_ANCESTOR"))
  | OReserveRelay r now =>
      sourceOpen d (hubOpen d
        (if negb (bool_decide (relay d = None)) then refuse (EError "RELAY_NONCE_UNRESOLVED")
         else match dget (re_sourceTxHash r) (jobs d) with
              | None => refuse (EError "RELAY_JOB_NOT_PENDING")
              | Some job =>
                  if terminalState (state job) then refuse (EError "RELAY_JOB_NOT_PENDING")
                  else match dget (txHash job) (jobs d) with
                       | None => refuse (EError "TypeError")
                       | Some t => write (set_relay (Some r)
                           (set_jobs (dset (txHash job) (with_job_relayed r now t) (jobs d)) d))
                       end
              end))
  | OFinishRelay h rc now =>
      hubOpen d
        (match relay d with
         | None => refuse (EError "RELAY_STATE_CONFLICT")
         | Some r =>
             if String.eqb (re_hash r) h
             then match dget (re_sourceTxHash r) (jobs d) with
                  | None => refuse (EError "TypeError")
                  | Some job => write (set_relay None
                      (set_jobs (dset (re_sourceTxHash r) (finishedJob r rc now job) (jobs d)) d))
                  end
             else refuse (EError "RELAY_STATE_CONFLICT")
         end)
  | OSetCursor b => if b <? cursor d then keep else write (set_cursor b d)
  | OAdd j now =>
      match dget (txHash j) (jobs d) with
      | Some _ => keep
      | None => write (set_jobs (dset (txHash j) (stamped j now) (jobs d)) d)
      end
  | OUpdate h p now =>
      if updateBlocked d h p then refuse (EError "UNRESOLVED_RELAY_CANNOT_BE_DROPPED")
      else match dget h (jobs d) with
           | None => keep
           | Some j => write (set_jobs (dset h (set_field (assign j p) (SetUpdatedAt now)) (jobs d)) d)
           end
  end.

(** The file backs the memory: re-reading it gives the data held. *)
Definition durable (s : StoreSt) : Prop := load (disk s) = Ok (data s).

(** [d] can be written and read back. *)
Definition loadable (d : Data) : Prop := load (Some d) = Ok d.

(** Running [m] from data [d] realises the verdict [v] atomically: a refused or
    idle operation changes nothing; a write either happens as specified, or ends in
    [StoreWriteError] or the error of the file system with the old or the new contents,
    and the file agrees with the memory in every case. *)
Definition WriteFailed (e : exn) : Prop := e = EStoreWrite ∨ e = EIo.
Definition realises (m : M StoreSt unit) (d : Data) (v : Verdict) : Prop :=
  ∀ s, data s = d → durable s →
  match v.2 with
  | None => m s = (v.1, s)
  | Some d' =>
      loadable d' →
      durable (m s).2 ∧
      (((m s).1 = v.1 ∧ data (m s).2 = d')
       ∨ ((∃ e, (m s).1 = Throw e ∧ WriteFailed e) ∧ (data (m s).2 = d ∨ data (m s).2 = d')))
  end.

(** * Lemmas *)

Lemma commit_cases d' s :
  durable s → loadable d' →
  ∃ o s', commit d' s = (o, s') ∧ durable s' ∧
    ((o = Ok tt ∧ data s' = d')
     ∨ ((∃ e, o = Throw e ∧ WriteFailed e) ∧ (data s' = data s ∨ data s' = d'))).
Proof.
  unfold durable, loadable, commit. destruct s as [d0 f fs]; simpl. intros Hs Hl.
  destruct fs as [|[[] a] fs]; simpl; [naive_solver|naive_solver|..].
  all: destruct a; unfold failCommit, bind, reload, throw; simpl; rewrite ?Hs, ?Hl; eexists _, _; (split; [done|]); simpl;
    unfold WriteFailed; eauto 8.
Qed.

#[local] Arguments commit : simpl never.
#[local] Arguments Z.eqb : simpl never.

(** Case analysis on the guards of an operation and of its specification, which
    branch alike; where both write, [commit_cases]. *)
Ltac realise_commit :=
  intros Hl;
  match goal with
  | Hs : durable ?s |- context [commit ?d' ?s] =>
      destruct (commit_cases d' s Hs Hl) as (o & s' & -> & ? & [[-> ?]|[(? & -> & ?) ?]])
  end; simpl; eauto 8.
Ltac realise_case :=
  match goal with
  | |- context [match ?x with _ => _ end] =>
      lazymatch x with
      | context [match _ with _ => _ end] => fail
      | context [commit _ _] => fail
      | _ => destruct x eqn:?
      end
  end; simpl.
Ltac realise :=
  intros s <- Hs;
  unfold runOp, spec, bindScope, initializeHubSigner, initializeSource,
    commitSourceRange, rewindUnsignedSource, reserveRelay, finishRelay, setCursor, add, update,
    updateBlocked, holdSource, holdHub, assertSourceReady, assertHubReady, sourceOpen, hubOpen, keep, refuse, write, require, orequire,
    bind, gets, ret, throw, lift_out; simpl;
  repeat realise_case; simplify_eq; try done; try congruence; try realise_commit.

Lemma op_realises (op : StoreOp) (d : Data) :
  realises (runOp op) d (spec op d).
Proof.
  destruct op; [intros s <- Hs; unfold durable in Hs; destruct s; simpl in *;
    unfold reload; simpl; by rewrite Hs|realise..].
Qed.

(** ** Well-formed contents *)

(** The envelope in flight is the one its job was submitted with, so that the file
    passes the check of [load]. *)
Definition relayBound (js : list (string * Job)) (r : RelayEnvelope) : Prop :=
  ∃ j, dget (re_sourceTxHash r) js = Some j ∧ state j = submitted
       ∧ ascTxHash j = Some (re_hash r) ∧ queryId j = Some (re_queryId r).

Record WF (d : Data) : Prop := {
  wf_version : version d = 1;
  wf_nodup : NoDup (dkeys (jobs d));
  wf_keyed : ∀ k j, dget k (jobs d) = Some j → txHash j = k;
  wf_relay : ∀ r, relay d = Some r → relayBound (jobs d) r }.

(** The patches the program applies leave a job's key alone, and leave alone the
    submission of the job that owns the unresolved nonce. *)
Definition keepsKey (p : JobPatch) : Prop := Forall (λ f, ∀ v, f ≠ SetTxHash v) p.
Definition keepsSubmission (p : JobPatch) : Prop :=
  Forall (λ f, (∀ v, f ≠ SetAscTxHash v) ∧ (∀ v, f ≠ SetQueryId v)) p.

Definition opSafe (d : Data) (op : StoreOp) : Prop :=
  match op with
  | OUpdate h p _ =>
      keepsKey p ∧ (∀ r, relay d = Some r → re_sourceTxHash r = h → keepsSubmission p)
  | _ => True
  end.

(** States of the store: from a fresh file, by operations, whatever the faults, and
    by restarting on the file as it stands. *)
Inductive reachable : StoreSt → Prop :=
  | reach_new fs s : newStore None fs = Ok s → reachable s
  | reach_op op s : reachable s → opSafe (data s) op → reachable (runOp op s).2
  | reach_restart s fs s' : reachable s → newStore (disk s) fs = Ok s' → reachable s'.

Lemma WF_loadable d : WF d → loadable d.
Proof.
  intros [Hv _ _ Hr]. unfold loadable, load. rewrite Hv. simpl.
  destruct (relay d) as [r|]; [|done].
  destruct (Hr r eq_refl) as (j & -> & Hs & Ha & Hq).
  by rewrite !bool_decide_eq_true_2.
Qed.

Lemma assign_snoc j p f : assign j (p ++ [f]) = set_field (assign j p) f.
Proof. unfold assign. by rewrite fold_left_app. Qed.

Lemma assign_txHash j p : keepsKey p → txHash (assign j p) = txHash j.
Proof.
  induction p as [|f p IH] using rev_ind; [done|].
  intros [Hp Hf]%Forall_app. apply Forall_inv in Hf. rewrite assign_snoc, <- IH by done.
  destruct f; try done. by destruct (Hf v).
Qed.

Lemma assign_submission j p :
  keepsSubmission p →
  ascTxHash (assign j p) = ascTxHash j ∧ queryId (assign j p) = queryId j.
Proof.
  induction p as [|f p IH] using rev_ind; [done|].
  intros [Hp Hf]%Forall_app. apply Forall_inv in Hf. rewrite assign_snoc.
  destruct (IH Hp) as [<- <-]. destruct Hf as [Ha Hq].
  destruct f; try done; [by destruct (Ha v)|by destruct (Hq v)].
Qed.

Lemma assign_state j p : state (assign j p) = default (state j) (patch_state p).
Proof.
  unfold patch_state. induction p as [|f p IH] using rev_ind; [done|].
  rewrite assign_snoc, fold_left_app. destruct f; simpl; done || by rewrite IH.
Qed.

(** Replacing or adding the job of one key. *)
Lemma WF_put d k j' rel :
  WF d → txHash j' = k →
  (∀ r, rel = Some r → relayBound (dset k j' (jobs d)) r) →
  WF (set_relay rel (set_jobs (dset k j' (jobs d)) d)).
Proof.
  intros [Hv Hn Hk Hr] Hj Hrel. split; simpl; [done|by apply dset_NoDup| |done].
  intros k' j. rewrite dget_dset. destruct (String.eqb_spec k' k) as [->|]; [|apply Hk].
  by intros [= <-].
Qed.

Lemma relayBound_put_other js k j' r :
  relayBound js r → re_sourceTxHash r ≠ k → relayBound (dset k j' js) r.
Proof. intros (j & Hj & ?) Hne. exists j. by rewrite dget_dset_ne. Qed.

Lemma relayBound_put_same js j' r :
  state j' = submitted → ascTxHash j' = Some (re_hash r) → queryId j' = Some (re_queryId r) →
  relayBound (dset (re_sourceTxHash r) j' js) r.
Proof. intros. exists j'. by rewrite dget_dset_eq. Qed.

Lemma set_relay_same d : set_relay (relay d) d = d.
Proof. by destruct d. Qed.

(** The jobs a successful [commitSourceRange] leaves. *)
Lemma addSourceJob_get from to now job js js' :
  addSourceJob from to now job js = Ok js' →
  (∃ j, dget (txHash job) js' = Some j ∧ blockHash j = blockHash job
        ∧ blockNumber j = blockNumber job ∧ from ≤ blockNumber j ≤ to ∧ truthy (blockHash j) = true
        ∧ (js' = js ∨ (js' = dset (txHash job) j js ∧ dget (txHash job) js = None
                       ∧ j = stamped job now))).
Proof.
  unfold addSourceJob, obind, orequire.
  destruct (truthy (blockHash job) && _ && _ && _) eqn:Hg; [|done].
  apply andb_true_iff in Hg as [[[Hh _]%andb_true_iff Hf]%andb_true_iff Ht].
  apply Z.leb_le in Hf, Ht.
  destruct (dget (txHash job) js) as [ex|] eqn:Hex.
  - destruct (bool_decide _ && _) eqn:Hb; [|done]. intros [= <-].
    apply andb_true_iff in Hb as [Hb%bool_decide_eq_true Hn%Z.eqb_eq].
    exists ex. rewrite Hb, Hn. naive_solver.
  - intros [= <-]. exists (stamped job now). rewrite dget_dset_eq.
    unfold stamped; simpl. naive_solver.
Qed.

Lemma addSourceJobs_get from to now l js js' :
  addSourceJobs from to now l js = Ok js' →
  (∀ k j, dget k js = Some j → dget k js' = Some j) ∧
  (∀ k j, dget k js' = Some j → dget k js = None →
     txHash j = k ∧ (from ≤ blockNumber j ≤ to) ∧ ∃ job, job ∈ l ∧ txHash job = k) ∧
  (NoDup (dkeys js) → NoDup (dkeys js')) ∧
  (∀ job, job ∈ l → ∃ j, dget (txHash job) js' = Some j ∧ blockHash j = blockHash job
     ∧ blockNumber j = blockNumber job).
Proof.
  revert js. induction l as [|job l IH]; intros js; simpl.
  { intros [= <-]. split_and!; [done|congruence|done|by intros ? ?%elem_of_nil]. }
  destruct (addSourceJob from to now job js) as [js1|e] eqn:H1; [|done]. simpl. intros H2.
  destruct (addSourceJob_get _ _ _ _ _ _ H1) as (j1 & Hj1 & Hh & Hn & Hr & _ & Hjs).
  destruct (IH _ H2) as (Hold & Hnew & Hnd & Hall). split_and!.
  - intros k j Hk. apply Hold. destruct Hjs as [->|(-> & Hnone & _)]; [done|].
    rewrite dget_dset_ne; [done|]. congruence.
  - intros k j Hk Hnone. destruct (dget k js1) as [j0|] eqn:Hk1.
    2:{ destruct (Hnew _ _ Hk Hk1) as (? & ? & jb & ? & ?). split; [done|]. split; [done|].
        exists jb. split; [by right|done]. }
    rewrite (Hold _ _ Hk1) in Hk. simplify_eq.
    destruct Hjs as [->|(-> & _ & ->)]; [congruence|].
    rewrite dget_dset in Hk1. destruct (String.eqb_spec k (txHash job)) as [->|]; [|congruence].
    simplify_eq. split_and!; [done|lia|lia|]. exists job. split; [by left|done].
  - intros Hd. apply Hnd. destruct Hjs as [->|(-> & _)]; auto with js.
  - intros job' [->|Hin]%elem_of_cons; [|by apply Hall]. exists j1. split; [auto|done].
Qed.

(** The jobs a rewind leaves: those at or below the ancestor. *)
Lemma fold_ddel_get (l : list Job) (js : list (string * Job)) k :
  dget k (fold_left (λ js j, ddel (txHash j) js) l js)
  = if existsb (λ j, String.eqb k (txHash j)) l then None else dget k js.
Proof.
  revert js. induction l as [|j l IH]; intros js; simpl; [done|].
  rewrite IH, dget_ddel. by destruct (String.eqb k (txHash j)), (existsb _ l).
Qed.

Lemma fold_ddel_NoDup (l : list Job) (js : list (string * Job)) :
  NoDup (dkeys js) → NoDup (dkeys (fold_left (λ js j, ddel (txHash j) js) l js)).
Proof. revert js. induction l; simpl; auto with js. Qed.

Lemma rewound_jobs a now d k :
  WF d →
  dget k (jobs (rewound a now d))
  = match dget k (jobs d) with
    | Some j => if blockNumber j <=? height a then Some j else None
    | None => None
    end.
Proof.
  intros [_ Hn Hk _]. unfold rewound, affectedJobs. simpl. rewrite fold_ddel_get.
  destruct (existsb _ _) eqn:He.
  - apply existsb_exists in He as (j & Hin & ->%String.eqb_eq).
    apply list_elem_of_In, list_elem_of_filter in Hin as [Hlt%bool_decide_spec Hin].
    unfold dvalues in Hin. apply list_elem_of_fmap in Hin as ([k' j'] & ? & Hin). simplify_eq/=.
    pose proof (elem_dget _ _ _ Hn Hin) as Hget. rewrite (Hk _ _ Hget), Hget.
    case_match eqn:Hle; [|done]. apply Z.leb_le in Hle. lia.
  - destruct (dget k (jobs d)) as [j|] eqn:Hget; [|done].
    case_match eqn:Hle; [done|]. apply Z.leb_gt in Hle.
    exfalso. apply not_true_iff_false in He. apply He, existsb_exists. exists j. split.
    + apply list_elem_of_In, list_elem_of_filter. split; [by apply bool_decide_spec|].
      by eapply dget_dvalues.
    + by rewrite (Hk _ _ Hget), String.eqb_refl.
Qed.

Lemma affected_untouched a d k j :
  existsb relayTouched (affectedJobs a d) = false →
  dget k (jobs d) = Some j → height a < blockNumber j → relayTouched j = false.
Proof.
  intros He Hget Hlt. destruct (relayTouched j) eqn:Ht; [|done].
  exfalso. apply not_true_iff_false in He. apply He, existsb_exists. exists j. split; [|done].
  apply list_elem_of_In, list_elem_of_filter. split; [by apply bool_decide_spec|].
  by eapply dget_dvalues.
Qed.

(** Inverting the specification: one goal per way an operation writes. *)
Ltac spec_cases H :=
  unfold spec, sourceOpen, hubOpen, keep, refuse, write in H;
  repeat (case_match; try discriminate H); injection H as <- <-.

Lemma WF_reserve d r now t job :
  WF d → dget (re_sourceTxHash r) (jobs d) = Some job →
  dget (txHash job) (jobs d) = Some t →
  WF (set_relay (Some r) (set_jobs (dset (txHash job) (with_job_relayed r now t) (jobs d)) d)).
Proof.
  intros HWF Hjob Ht. pose proof (wf_keyed d HWF _ _ Hjob) as Hk.
  apply WF_put; [done|by apply (wf_keyed d HWF) in Ht|].
  intros r' [= <-]. rewrite Hk. by apply relayBound_put_same.
Qed.

Lemma WF_finish d r rc now job :
  WF d → dget (re_sourceTxHash r) (jobs d) = Some job →
  WF (set_relay None (set_jobs (dset (re_sourceTxHash r) (finishedJob r rc now job) (jobs d)) d)).
Proof.
  intros HWF Hjob. apply WF_put; [done| |done]. simpl. by apply (wf_keyed d HWF).
Qed.

Lemma WF_add d j now :
  WF d → dget (txHash j) (jobs d) = None →
  WF (set_jobs (dset (txHash j) (stamped j now) (jobs d)) d).
Proof.
  intros HWF Hnone. rewrite <- (set_relay_same (set_jobs _ d)). simpl.
  apply WF_put; [done|done|]. intros r Hr. apply relayBound_put_other; [by apply (wf_relay d)|].
  intros Heq. destruct (wf_relay d HWF r Hr) as (? & Hj & _). congruence.
Qed.

Lemma owner_state_kept d p r j :
  relay d = Some r → updateBlocked d (re_sourceTxHash r) p = false → state j = submitted →
  state (assign j p) = submitted.
Proof.
  intros Hr Hb Hj. unfold updateBlocked in Hb. rewrite Hr, String.eqb_refl in Hb.
  rewrite assign_state. destruct (patch_state p) as [s|]; simpl in *; [|done].
  by apply negb_false_iff, bool_decide_eq_true in Hb.
Qed.

Lemma WF_update d h p now j :
  WF d → opSafe d (OUpdate h p now) → updateBlocked d h p = false →
  dget h (jobs d) = Some j →
  WF (set_jobs (dset h (set_field (assign j p) (SetUpdatedAt now)) (jobs d)) d).
Proof.
  intros HWF [Hkey Hsub] Hb Hj. rewrite <- (set_relay_same (set_jobs _ d)). simpl.
  apply WF_put; [done| |].
  - simpl. rewrite assign_txHash by done. by apply (wf_keyed d HWF).
  - intros r Hr. destruct (decide (re_sourceTxHash r = h)) as [<-|Hne];
      [|by apply relayBound_put_other; [apply (wf_relay d)|]].
    destruct (wf_relay d HWF r Hr) as (j0 & Hj0 & Hs & Ha & Hq).
    rewrite Hj in Hj0. injection Hj0 as <-.
    destruct (assign_submission j p (Hsub r Hr eq_refl)) as [Ha' Hq'].
    apply relayBound_put_same; simpl; [by eapply owner_state_kept|congruence|congruence].
Qed.

Lemma WF_range d end_ js js' from now :
  WF d → addSourceJobs from (height end_) now js (jobs d) = Ok js' → WF (committedRange end_ js' d).
Proof.
  intros [Hv Hn Hk Hr] Hadd.
  destruct (addSourceJobs_get _ _ _ _ _ _ Hadd) as (Hold & Hnew & Hnd & _).
  split; simpl; [done|auto| |].
  - intros k j Hj. destruct (dget k (jobs d)) as [j0|] eqn:Hj0.
    + rewrite (Hold _ _ Hj0) in Hj. simplify_eq. by apply Hk.
    + by apply (Hnew _ _ Hj Hj0).
  - intros r Hrel. destruct (Hr r Hrel) as (j & Hj & ?). exists j. auto.
Qed.

Lemma WF_rewound d a now :
  WF d → existsb relayTouched (affectedJobs a d) = false → WF (rewound a now d).
Proof.
  intros HWF Hu. split.
  - apply HWF.
  - simpl. apply fold_ddel_NoDup, HWF.
  - intros k j. rewrite rewound_jobs by done. destruct (dget k (jobs d)) eqn:Hj; [|done].
    case_match; [|done]. intros [= <-]. by apply (wf_keyed d HWF).
  - intros r Hr. simpl in Hr. destruct (wf_relay d HWF r Hr) as (j & Hj & Hs & Ha & Hq).
    exists j. rewrite rewound_jobs, Hj by done. case_match eqn:Hle; [done|].
    apply Z.leb_gt in Hle. pose proof (affected_untouched _ _ _ _ Hu Hj Hle) as Ht.
    unfold relayTouched in Ht. by rewrite Hs, !orb_true_r in Ht.
Qed.

Lemma spec_WF op d o d' : WF d → opSafe d op → spec op d = (o, Some d') → WF d'.
Proof.
  intros HWF Hsafe H. destruct op; try discriminate H; spec_cases H; simplify_eq.
  all: try (split; simpl; by apply HWF).
  - by eapply WF_range.
  - by apply WF_rewound.
  - by eapply WF_reserve.
  - by eapply WF_finish.
  - by apply WF_add.
  - by eapply WF_update.
Qed.

(** One step of the store at the level of its contents. *)
Lemma step_cases op s :
  durable s → WF (data s) → opSafe (data s) op →
  let s' := (runOp op s).2 in
  durable s' ∧ WF (data s') ∧
  (data s' = data s ∨ ∃ o d', spec op (data s) = (o, Some d') ∧ data s' = d').
Proof.
  intros Hs HWF Hsafe. pose proof (op_realises op (data s) s eq_refl Hs) as H.
  destruct (spec op (data s)) as [o [d'|]] eqn:Hspec; simpl in *.
  - pose proof (spec_WF _ _ _ _ HWF Hsafe Hspec) as HWF'.
    destruct (H (WF_loadable _ HWF')) as (Hd & [[_ E]|[_ [E|E]]]); rewrite E;
      (split_and!; [done|done|eauto]).
  - rewrite H. simpl. auto.
Qed.

Lemma initial_WF : WF initialData.
Proof. split; simpl; done || constructor. Qed.

Lemma reachable_inv (s : StoreSt) : reachable s → durable s ∧ WF (data s).
Proof.
  induction 1 as [fs s H|op s _ [Hs HWF] Hsafe|s fs s' _ [Hs HWF] H].
  - injection H as <-. split; [done|apply initial_WF].
  - destruct (step_cases op s Hs HWF Hsafe) as (? & ? & _). done.
  - unfold newStore in H. unfold durable in Hs. rewrite Hs in H. by injection H as <-.
Qed.

(** C1. Every operation of the store, run from any reachable state under faults of
    any write, of the reading that follows a failed one and of its cleaning up, realises
    its abstract specification atomically: a refusal changes nothing; a write either
    happens exactly as specified or ends in StoreWriteError, or in the error of that
    reading or cleaning up, with the old or the new contents, and the state file always
    agrees with the memory. Updates must, as those of the worker do, apply a patch that
    leaves the key of the job alone and, for the job of the unresolved nonce, its
    transaction hash and query id; an existence test is taken to answer truly. *)
Theorem store_refines_spec (op : StoreOp) (s : StoreSt) :
  reachable s → opSafe (data s) op →
  durable (runOp op s).2 ∧
  match spec op (data s) with
  | (v, None) => runOp op s = (v, s)
  | (v, Some d') =>
      ((runOp op s).1 = v ∧ data (runOp op s).2 = d')
      ∨ ((∃ e, (runOp op s).1 = Throw e ∧ WriteFailed e)
         ∧ (data (runOp op s).2 = data s ∨ data (runOp op s).2 = d'))
  end.
Proof.
  intros [Hs HWF]%reachable_inv Hsafe. split; [by apply step_cases|].
  pose proof (op_realises op (data s) s eq_refl Hs) as H.
  destruct (spec op (data s)) as [v [d'|]] eqn:Hspec; simpl in H; [|done].
  apply H, WF_loadable. by eapply spec_WF.
Qed.

(** C7. In every state reachable by the operations, under any faults and restarts,
    the state file loads to the contents held, job keys are their own hashes without
    duplicates, and the envelope in flight is bound to a submitted job carrying its hash
    and query id, so a restart recovers exactly the contents held and never fails with
    INCONSISTENT_RELAY_STATE. Updates apply patches as those of the worker do, and an
    existence test is taken to answer truly. *)
Theorem store_reachable_wf (s : StoreSt) :
  reachable s →
  durable s ∧ WF (data s) ∧
  ∀ fs, newStore (disk s) fs = Ok {| data := data s; disk := disk s; faults := fs |}.
Proof.
  intros [Hs HWF]%reachable_inv. split_and!; [done|done|].
  intros fs. unfold newStore. by rewrite Hs.
Qed.

(** How an operation may change the envelope in flight. *)
Lemma relay_step (s : StoreSt) (op : StoreOp) :
  reachable s → opSafe (data s) op →
  let s' := (runOp op s).2 in
  relay (data s') = relay (data s) ∨
  (∃ r now, op = OReserveRelay r now ∧ relay (data s) = None ∧ relay (data s') = Some r) ∨
  (∃ r rc now j, op = OFinishRelay (re_hash r) rc now ∧ relay (data s) = Some r ∧
     relay (data s') = None ∧ dget (re_sourceTxHash r) (jobs (data s)) = Some j ∧
     dget (re_sourceTxHash r) (jobs (data s')) = Some (finishedJob r rc now j)).
Proof.
  intros [Hs HWF]%reachable_inv Hsafe. cbv zeta.
  destruct (step_cases op s Hs HWF Hsafe) as (_ & _ & [->|(o & d' & Hspec & ->)]); [by left|].
  destruct op; try discriminate Hspec; spec_cases Hspec; simplify_eq; try (left; done).
  - right. left. eexists _, _.
    match goal with Hh : negb (bool_decide _) = false |- _ =>
      apply negb_false_iff, bool_decide_eq_true in Hh end. done.
  - right. right.
    match goal with Hh : String.eqb _ _ = true |- _ => apply String.eqb_eq in Hh as <- end.
    eexists _, _, _, _. split_and!; [done..|]. simpl. by rewrite dget_dset_eq.
Qed.

(** Once a relay envelope is reserved, every operation keeps it, except
    finishRelay called with its own hash, which appends its receipt to the job history
    and makes the job done or dead: the signer nonce is never reused while unresolved.
    *)
Theorem relay_released_only_by_finish (s : StoreSt) (op : StoreOp) (r : RelayEnvelope) :
  reachable s → opSafe (data s) op → relay (data s) = Some r →
  relay (data (runOp op s).2) = Some r ∨
  ∃ rc now j, op = OFinishRelay (re_hash r) rc now ∧ relay (data (runOp op s).2) = None ∧
    dget (re_sourceTxHash r) (jobs (data s)) = Some j ∧
    dget (re_sourceTxHash r) (jobs (data (runOp op s).2)) = Some (finishedJob r rc now j).
Proof.
  intros Hs Hsafe Hr.
  destruct (relay_step s op Hs Hsafe) as [->|[(? & ? & _ & Hn & _)|(r' & rc & now & j & -> & Hr' & H)]].
  - by left.
  - congruence.
  - right. exists rc, now, j. rewrite Hr in Hr'. injection Hr' as <-. done.
Qed.

Lemma reserve_ok r now s s' :
  reachable s → reserveRelay r now s = (Ok tt, s') → relay (data s') = Some r.
Proof.
  intros [Hs HWF]%reachable_inv Hrun.
  pose proof (op_realises (OReserveRelay r now) (data s) s eq_refl Hs) as H.
  destruct (spec (OReserveRelay r now) (data s)) as [v [d'|]] eqn:Hspec.
  - assert (WF d') as HWF' by by eapply (spec_WF (OReserveRelay r now) _ _ _ HWF I Hspec).
    destruct (H (WF_loadable _ HWF')) as [_ [[_ E]|[(? & E & _) _]]].
    + simpl in E. rewrite Hrun in E. simpl in E. rewrite E. by spec_cases Hspec.
    + simpl in E. by rewrite Hrun in E.
  - simpl in H. rewrite Hrun in H. injection H as <- <-.
    unfold spec, sourceOpen, hubOpen in Hspec. by repeat case_match.
Qed.

Lemma finish_job h rc now s :
  reachable s → (∀ r, relay (data s) = Some r → re_hash r = h) →
  relay (data (finishRelay h rc now s).2) = relay (data s) ∨
  ∃ r j, relay (data s) = Some r ∧ relay (data (finishRelay h rc now s).2) = None ∧
    dget (re_sourceTxHash r) (jobs (data s)) = Some j ∧
    dget (re_sourceTxHash r) (jobs (data (finishRelay h rc now s).2)) = Some (finishedJob r rc now j).
Proof.
  intros Hr Hh.
  destruct (relay_step s (OFinishRelay h rc now) Hr I) as [?|[(? & ? & ? & _)|(r & rc' & t & j & E & ? & ? & ? & ?)]].
  - by left.
  - done.
  - injection E as -> <- <-. right. eauto 10.
Qed.

(** The file holds the same envelope as the memory. *)
Definition diskRelay (s : StoreSt) : option RelayEnvelope :=
  match disk s with Some d => relay d | None => None end.

Lemma diskRelay_durable s : durable s → diskRelay s = relay (data s).
Proof.
  unfold durable, diskRelay, load. destruct (disk s) as [p|]; [|by intros [= <-]].
  repeat case_match; intros; simplify_eq; done.
Qed.

(** A source hold is never lifted by any operation, and while it stands
    initializeSource, commitSourceRange, rewindUnsignedSource and reserveRelay throw
    SourceSafetyError with the recorded reason and change nothing. *)
Theorem source_hold_is_sticky (s : StoreSt) (op : StoreOp) :
  reachable s → opSafe (data s) op → op ≠ OHoldSource "" →
  truthy (sourceHold (data s)) = true →
  truthy (sourceHold (data (runOp op s).2)) = true ∧
  match op with
  | OInitializeSource _ | OCommitSourceRange _ _ _ _ | ORewind _ _ | OReserveRelay _ _ =>
      runOp op s = (Throw (ESourceSafety (default "" (sourceHold (data s)))), s)
  | _ => True
  end.
Proof.
  intros [Hs HWF]%reachable_inv Hsafe Hne Hh. split.
  - destruct (step_cases op s Hs HWF Hsafe) as (_ & _ & [->|(o & d' & Hspec & ->)]); [done|].
    destruct op; try discriminate Hspec; spec_cases Hspec; simplify_eq; try done.
    simpl. by destruct reason.
  - pose proof (op_realises op (data s) s eq_refl Hs) as H.
    destruct op; try done; unfold spec, sourceOpen in H; by rewrite Hh in H.
Qed.

(** ** The checkpoint chain

    The scanner's operations: everything but the two that only tests use. *)
Definition scannerOp (op : StoreOp) : Prop :=
  match op with OSetCursor _ | OAdd _ _ => False | _ => True end.

Definition keepsBlock (p : JobPatch) : Prop := Forall (λ f, ∀ v, f ≠ SetBlockNumber v) p.
Definition scanSafe (d : Data) (op : StoreOp) : Prop :=
  scannerOp op ∧ opSafe d op ∧ match op with OUpdate _ p _ => keepsBlock p | _ => True end.

Record Chain (d : Data) : Prop := {
  chain_bounded : (length (checkpoints d) <= 129)%nat;
  chain_sorted : StronglySorted (λ a b, height a < height b) (checkpoints d);
  chain_cursor : ∀ c, last (checkpoints d) = Some c → cursor d = height c;
  chain_jobs : ∀ k j, dget k (jobs d) = Some j → blockNumber j ≤ cursor d }.

Lemma sliceLast_last {A} n (l : list A) : (0 < n)%nat → last (sliceLast n l) = last l.
Proof.
  intros Hn. unfold sliceLast. destruct l as [|x l _] using rev_ind; [done|].
  rewrite length_app. simpl. rewrite drop_app_le by lia.
  by rewrite !last_snoc.
Qed.

Lemma trim_length cs : (length (trimCheckpoints cs) <= 129)%nat.
Proof.
  unfold trimCheckpoints. case_match eqn:H; [|by apply Nat.ltb_ge in H].
  destruct cs; simpl; [lia|]. unfold sliceLast. rewrite length_drop. simpl. lia.
Qed.

Lemma trim_last cs : last (trimCheckpoints cs) = last cs.
Proof.
  unfold trimCheckpoints. case_match eqn:H; [|done]. apply Nat.ltb_lt in H.
  destruct cs as [|c cs]; [done|]. simpl in *.
  rewrite <- (sliceLast_last 128 (c :: cs)) by lia.
  destruct (sliceLast 128 (c :: cs)) eqn:E; [|done].
  apply (f_equal length) in E. unfold sliceLast in E. rewrite length_drop in E. simpl in *. lia.
Qed.

Lemma trim_head cs : head (trimCheckpoints cs) = head cs.
Proof. unfold trimCheckpoints. case_match; [|done]. by destruct cs. Qed.

Lemma StronglySorted_drop {A} (R : A → A → Prop) n l :
  StronglySorted R l → StronglySorted R (drop n l).
Proof.
  revert n. induction l as [|x l IH]; intros [|n] H; simpl; auto; try constructor.
  apply IH. by inversion H.
Qed.

Lemma trim_sorted (R : SourceCheckpoint → SourceCheckpoint → Prop) cs :
  StronglySorted R cs → StronglySorted R (trimCheckpoints cs).
Proof.
  intros Hs. unfold trimCheckpoints. case_match eqn:H; [|done].
  destruct cs as [|c cs]; [done|]. apply Nat.ltb_lt in H. simpl in H.
  unfold sliceLast. simpl length. replace (S (length cs) - 128)%nat with (S (length cs - 128)) by lia.
  simpl. inversion Hs; subst. constructor; [by apply StronglySorted_drop|].
  by apply Forall_drop.
Qed.

Lemma StronglySorted_snoc {A} (R : A → A → Prop) l x :
  StronglySorted R l → Forall (λ y, R y x) l → StronglySorted R (l ++ [x]).
Proof.
  induction 1 as [|y l Hl IH Hy]; simpl; [by repeat constructor|].
  intros [? ?]%Forall_cons. constructor; [auto|]. apply Forall_app. by repeat constructor.
Qed.

Lemma chain_below d c : Chain d → c ∈ checkpoints d → height c ≤ cursor d.
Proof.
  intros [_ Hs Hc _] Hin. destruct (checkpoints d) as [|x l _] using rev_ind; [by apply elem_of_nil in Hin|].
  rewrite last_snoc in Hc. rewrite (Hc x eq_refl).
  apply elem_of_app in Hin as [Hin|Hin]; [|apply list_elem_of_singleton in Hin as ->; done].
  clear Hc. induction l as [|y l IH]; [by apply elem_of_nil in Hin|].
  simpl in Hs. inversion Hs as [|? ? Hs' Hall]; subst.
  apply elem_of_cons in Hin as [->|Hin]; [|auto].
  apply Forall_app in Hall as [_ Hx%Forall_inv]. lia.
Qed.

Lemma assign_blockNumber j p : keepsBlock p → blockNumber (assign j p) = blockNumber j.
Proof.
  induction p as [|f p IH] using rev_ind; [done|].
  intros [Hp Hf]%Forall_app. apply Forall_inv in Hf. rewrite assign_snoc, <- IH by done.
  destruct f; try done. by destruct (Hf v).
Qed.

(** Contents with the same checkpoints and cursor whose jobs sit at known blocks. *)
Lemma Chain_jobs d js rel :
  Chain d →
  (∀ k j, dget k js = Some j → ∃ j0, dget k (jobs d) = Some j0 ∧ blockNumber j = blockNumber j0) →
  Chain (set_relay rel (set_jobs js d)).
Proof.
  intros [? ? ? Hj] H. split; simpl; [done..|].
  intros k j Hk. destruct (H k j Hk) as (j0 & Hk0 & ->). by eapply Hj.
Qed.

Lemma Chain_put d k j j' rel :
  Chain d → dget k (jobs d) = Some j → blockNumber j' = blockNumber j →
  Chain (set_relay rel (set_jobs (dset k j' (jobs d)) d)).
Proof.
  intros HC Hj Hn. apply Chain_jobs; [done|]. intros k' j0.
  rewrite dget_dset. destruct (String.eqb_spec k' k) as [->|]; intros ?; simplify_eq; eauto.
Qed.

Lemma checkpoints_committed end_ js d :
  checkpoints (committedRange end_ js d) = trimCheckpoints (checkpoints d ++ [end_]).
Proof. done. Qed.

Lemma checkpoints_rewound a now d :
  checkpoints (rewound a now d) = filter (λ c, height c <= height a) (checkpoints d).
Proof. done. Qed.

Lemma Chain_range d end_ js js' now :
  Chain d → cursor d + 1 ≤ height end_ →
  addSourceJobs (cursor d + 1) (height end_) now js (jobs d) = Ok js' →
  Chain (committedRange end_ js' d).
Proof.
  intros HC Hle Hadd. destruct (addSourceJobs_get _ _ _ _ _ _ Hadd) as (Hold & Hnew & _).
  split; simpl.
  - apply trim_length.
  - apply trim_sorted, StronglySorted_snoc; [apply HC|].
    apply Forall_forall. intros c Hc%(chain_below _ _ HC). lia.
  - intros c. rewrite checkpoints_committed, trim_last, last_snoc. by intros [= <-].
  - intros k j Hj. destruct (dget k (jobs d)) as [j0|] eqn:Hj0.
    + rewrite (Hold _ _ Hj0) in Hj. simplify_eq. pose proof (chain_jobs d HC _ _ Hj0). lia.
    + destruct (Hnew _ _ Hj Hj0). lia.
Qed.

Lemma filter_below_last cs a :
  StronglySorted (λ a b, height a < height b) cs → a ∈ cs →
  last (filter (λ c, height c <= height a) cs) = Some a.
Proof.
  induction 1 as [|c cs Hs IH Hc]; [by intros ?%elem_of_nil|].
  rewrite Forall_forall in Hc. intros [->|Hin]%elem_of_cons.
  - rewrite filter_cons_True by lia.
    assert (filter (λ x, height x <= height c) cs = []) as ->; [|done].
    clear -Hc. induction cs as [|x cs IH]; [done|].
    rewrite filter_cons_False; [|pose proof (Hc x (list_elem_of_here _ _)); lia].
    apply IH. intros y Hy. apply Hc. by right.
  - specialize (IH Hin). rewrite filter_cons_True by (pose proof (Hc _ Hin); lia).
    destruct (filter _ cs); [done|]. exact IH.
Qed.

Lemma StronglySorted_filter {A} (R : A → A → Prop) (P : A → Prop) `{∀ x, Decision (P x)} l :
  StronglySorted R l → StronglySorted R (filter P l).
Proof.
  induction 1 as [|x l Hl IH Hx]; [constructor|]. rewrite filter_cons. case_decide; [|done].
  constructor; [done|]. rewrite Forall_forall in *. intros y [_ Hy]%list_elem_of_filter. auto.
Qed.

Lemma known_ancestor d a :
  existsb (λ c, (height c =? height a) && String.eqb (hash c) (hash a)) (checkpoints d) = true →
  a ∈ checkpoints d.
Proof.
  intros (c & Hin & [Hh%Z.eqb_eq Hc%String.eqb_eq]%andb_true_iff)%existsb_exists.
  apply list_elem_of_In in Hin. destruct c, a. simpl in *. by subst.
Qed.

Lemma Chain_rewound d a now :
  WF d → Chain d → a ∈ checkpoints d → Chain (rewound a now d).
Proof.
  intros HWF HC Ha. split.
  - rewrite checkpoints_rewound. etrans; [apply length_filter|apply HC].
  - rewrite checkpoints_rewound. apply StronglySorted_filter, HC.
  - intros c. rewrite checkpoints_rewound, filter_below_last by (done || apply HC). by intros [= <-].
  - intros k j. rewrite rewound_jobs by done. destruct (dget k (jobs d)); [|done].
    case_match eqn:Hle; [|done]. intros [= <-]. simpl. by apply Z.leb_le.
Qed.

Lemma spec_Chain op d o d' :
  WF d → Chain d → scanSafe d op → spec op d = (o, Some d') →
  Chain d' ∧ (∀ c, head (checkpoints d) = Some c → head (checkpoints d') = Some c).
Proof.
  intros HWF HC (Hscan & Hsafe & Hblk) H.
  destruct op; try discriminate H; try done; spec_cases H; simplify_eq.
  all: try (split; [split; simpl; by apply HC|done]).
  - apply negb_false_iff, bool_decide_eq_true in H1.
    apply andb_true_iff in H2 as [Hj%bool_decide_eq_true _]. split; [|by rewrite H1].
    split; simpl; [lia|repeat constructor|by intros ? [= <-]|by rewrite Hj].
  - apply andb_true_iff in H2 as [->%Z.eqb_eq Hle%Z.leb_le]. split; [by eapply Chain_range|].
    intros c Hc. rewrite checkpoints_committed, trim_head. by destruct (checkpoints d).
  - apply known_ancestor in H1. split; [by apply Chain_rewound|].
    intros c Hc. rewrite checkpoints_rewound. destruct (checkpoints d) as [|c0 cs] eqn:E; [done|]. simplify_eq/=.
    rewrite filter_cons_True; [done|].
    pose proof (chain_sorted d HC) as Hs. rewrite E in Hs. inversion Hs as [|? ? _ Hall]; subst.
    apply elem_of_cons in H1 as [->|Hin]; [lia|]. rewrite Forall_forall in Hall.
    specialize (Hall _ Hin). simpl in Hall. lia.
  - split; [by eapply Chain_put|done].
  - split; [by eapply Chain_put|done].
  - split; [|done]. rewrite <- (set_relay_same (set_jobs _ d)). simpl.
    eapply Chain_put; [done..|]. by apply assign_blockNumber.
Qed.

(** The scanner operations keep the checkpoint chain: at most 129 checkpoints
    in strictly increasing height, the last one at the cursor, every job at or below the
    cursor, and the verified initial anchor never dropped. *)
Theorem checkpoint_chain_preserved (s : StoreSt) (op : StoreOp) :
  reachable s → scanSafe (data s) op → Chain (data s) →
  Chain (data (runOp op s).2) ∧
  ∀ c, head (checkpoints (data s)) = Some c → head (checkpoints (data (runOp op s).2)) = Some c.
Proof.
  intros [Hs HWF]%reachable_inv Hscan HC.
  destruct (step_cases op s Hs HWF (proj1 (proj2 Hscan)))
    as (_ & _ & [->|(o & d' & Hspec & ->)]); [done|].
  by eapply spec_Chain.
Qed.

(** A successful rewind keeps exactly the jobs at or below a recorded ancestor,
    moves the cursor there, and every job it discards carries no signature, query or
    relay history. *)
Theorem rewind_discards_only_unsigned (s s' : StoreSt) (a : SourceCheckpoint) (now n : Z) :
  reachable s → rewindUnsignedSource a now s = (Ok n, s') →
  a ∈ checkpoints (data s) ∧ cursor (data s') = height a ∧ relay (data s') = relay (data s) ∧
  (∀ k j, dget k (jobs (data s)) = Some j →
     if blockNumber j <=? height a then dget k (jobs (data s')) = Some j
     else dget k (jobs (data s')) = None ∧ relayTouched j = false) ∧
  (∀ k j, dget k (jobs (data s')) = Some j → dget k (jobs (data s)) = Some j).
Proof.
  intros [Hs HWF]%reachable_inv Hrun.
  pose proof (op_realises (ORewind a now) (data s) s eq_refl Hs) as H.
  unfold runOp, bind in H. rewrite Hrun in H. unfold ret in H. simpl in H. unfold sourceOpen in H.
  destruct (truthy _); [done|]. destruct (existsb _ (checkpoints _)) eqn:Hanc; [|done].
  destruct (existsb relayTouched _) eqn:Hu; simpl in H.
  { destruct H as [_ [[? _]|[(? & ? & _) _]]]; [by apply WF_loadable; split; simpl; apply HWF|done|done]. }
  destruct H as [_ [[_ ->]|[(? & ? & _) _]]]; [by apply WF_loadable, WF_rewound| |done].
  split; [by apply known_ancestor|]. split; [done|]. split; [done|]. split.
  - intros k j Hj. rewrite !rewound_jobs, Hj by done. case_match eqn:Hle; [done|].
    split; [done|]. apply Z.leb_gt in Hle. by eapply affected_untouched.
  - intros k j. rewrite rewound_jobs by done. destruct (dget k _); [|done].
    case_match; [by intros|done].
Qed.

(** ** Dispatch order *)

Lemma pending_perm d :
  pending d ≡ₚ filter (λ j, negb (terminalState (state j))) (dvalues (jobs d)).
Proof. apply sort_by_perm. Qed.

Lemma elem_pending d j :
  j ∈ pending d ↔ terminalState (state j) = false ∧ j ∈ dvalues (jobs d).
Proof. rewrite pending_perm, list_elem_of_filter. by rewrite Is_true_true, negb_true_iff. Qed.

Lemma pending_keys_NoDup d : WF d → NoDup (map txHash (pending d)).
Proof.
  intros [_ Hn Hk _]. rewrite pending_perm.
  assert (map txHash (dvalues (jobs d)) = dkeys (jobs d)) as Heq.
  { unfold dvalues, dkeys. rewrite map_map. apply map_ext_in. intros [k j] Hin%list_elem_of_In.
    simpl. by apply Hk, elem_dget. }
  rewrite <- Heq in Hn. clear -Hn. induction (dvalues (jobs d)) as [|j l IH]; [constructor|].
  simpl in Hn. apply NoDup_cons in Hn as [Hj Hl]. rewrite filter_cons.
  case_decide; [|auto]. simpl. apply NoDup_cons. split; [|auto].
  intros Hin. apply list_elem_of_fmap in Hin as (x & Hx & Hin).
  apply list_elem_of_filter in Hin as [_ Hin]. apply Hj, list_elem_of_fmap. eauto.
Qed.

Lemma pending_head d r :
  WF d → relay d = Some r → ∃ rest0 rest, pending d = rest0 :: rest ∧ txHash rest0 = re_sourceTxHash r.
Proof.
  intros HWF Hr. destruct (wf_relay _ HWF r Hr) as (j & Hj & Hst & _).
  assert (j ∈ pending d) as Hin.
  { apply elem_pending. rewrite Hst. split; [done|]. by eapply dget_dvalues. }
  assert (ownsRelay d j = true) as Hown.
  { unfold ownsRelay. rewrite Hr. apply String.eqb_eq. by apply (wf_keyed d HWF). }
  assert (StronglySorted (λ a b, Z.b2z (ownsRelay d b) - Z.b2z (ownsRelay d a) <=? 0) (pending d)) as Hs.
  { apply sort_by_sorted.
    - intros x y. destruct (ownsRelay d x), (ownsRelay d y); simpl; auto.
    - intros x y z. destruct (ownsRelay d x), (ownsRelay d y), (ownsRelay d z); simpl; auto. }
  destruct (pending d) as [|j0 rest]; [by apply elem_of_nil in Hin|].
  exists j0, rest. split; [done|].
  assert (ownsRelay d j0 = true) as Hown0.
  { apply elem_of_cons in Hin as [->|Hin]; [done|].
    inversion Hs as [|? ? _ Hall]; subst. rewrite Forall_forall in Hall.
    specialize (Hall _ Hin). rewrite Hown in Hall. by destruct (ownsRelay d j0). }
  unfold ownsRelay in Hown0. rewrite Hr in Hown0. by apply String.eqb_eq.
Qed.

(** jobsReadyForDispatch returns at most limit distinct stored jobs, none
    terminal or reserved, and puts the owner of the unresolved nonce first. *)
Theorem dispatch_order (s : StoreSt) (reserved : string → bool) (limit : nat) :
  reachable s →
  let ready := jobsReadyForDispatch (data s) reserved limit in
  (length ready <= limit)%nat ∧ NoDup (map txHash ready) ∧
  (∀ j, j ∈ ready → dget (txHash j) (jobs (data s)) = Some j ∧
     terminalState (state j) = false ∧ reserved (txHash j) = false) ∧
  (∀ r, relay (data s) = Some r → reserved (re_sourceTxHash r) = false → limit ≠ 0%nat →
     option_map txHash (head ready) = Some (re_sourceTxHash r)).
Proof.
  intros [_ HWF]%reachable_inv ready.
  assert (∀ j, j ∈ ready → j ∈ pending (data s) ∧ reserved (txHash j) = false) as Hready.
  { intros j (i & Hi%list_elem_of_lookup_2 & _)%elem_of_take.
    apply list_elem_of_filter in Hi as [Hr Hp]. by apply Is_true_true, negb_true_iff in Hr. }
  split_and!.
  - apply firstn_le_length.
  - eapply sublist_NoDup; [by apply (pending_keys_NoDup _ HWF)|]. apply fmap_sublist.
    etrans; [apply sublist_take|apply sublist_filter].
  - intros j [[Hnt Hin]%elem_pending Hres]%Hready. split; [|done].
    apply list_elem_of_fmap in Hin as ([k j'] & ? & Hin). simplify_eq/=.
    pose proof (elem_dget _ _ _ (wf_nodup _ HWF) Hin) as Hget. by rewrite (wf_keyed _ HWF _ _ Hget).
  - intros r Hr Hres Hlim. destruct (pending_head _ _ HWF Hr) as (j0 & rest & Hp & Hh).
    unfold ready, jobsReadyForDispatch. rewrite Hp, filter_cons_True.
    + destruct limit; [done|]. simpl. by rewrite Hh.
    + by rewrite Hh, Hres.
Qed.

(** * A concrete history

    A bound worker that scanned one range, found one job and reserved its relay
    envelope, with one failed directory sync on the way. *)

Definition runOps (ops : list StoreOp) (s : StoreSt) : StoreSt :=
  fold_left (λ s op, (runOp op s).2) ops s.

Definition isUpdate (op : StoreOp) : bool := match op with OUpdate _ _ _ => true | _ => false end.

Lemma reachable_runOps ops s :
  forallb (λ op, negb (isUpdate op)) ops = true → reachable s → reachable (runOps ops s).
Proof.
  revert s. induction ops as [|op ops IH]; intros s; simpl; [done|].
  intros [Hop Hops]%andb_true_iff Hs. apply IH; [done|]. apply reach_op; [done|].
  by destruct op.
Qed.

Definition exScope : WorkerScope := {|
  sourceChainId := 11155111; hubChainId := 102031; chainKey := 1; source := "0xsource";
  asc := "0xasc"; signer := "0xsigner"; startBlock := 10 |}.
Definition exJob (h : string) (n : Z) : Job := {|
  txHash := h; blockNumber := n; blockHash := Some "0xblock"; transactionIndex := Some 3;
  action := 0; eventName := "MarkIssued"; logCount := 1; state := discovered; attempts := 0;
  lastError := None; ascTxHash := None; queryId := None; discoveredAt := 0; updatedAt := 0;
  skipObservation := None; relayHistory := None |}.
Definition exEnvelope : RelayEnvelope := {|
  re_sourceTxHash := "0xa"; re_queryId := "0xq"; re_hash := "0xh"; re_raw := "0xraw"; re_nonce := 0;
  re_chainId := 102031; re_to := "0xasc"; re_signer := "0xsigner"; re_data := "0xdata" |}.
Definition exReceipt : Receipt := {|
  rc_status := success; rc_blockNumber := 77; rc_blockHash := "0xhub" |}.

Definition exFresh : StoreSt := {| data := initialData; disk := None;
  faults := [(FsOk, ReloadOk); (FsOk, ReloadOk); (FsAfterRename, ReloadFails); (FsOk, ReloadOk)] |}.
Definition exScanned : StoreSt := runOps
  [ OBindScope exScope; OInitializeHubSigner 0;
    OInitializeSource {| height := 9; hash := "0xc9" |};
    OCommitSourceRange 10 {| height := 20; hash := "0xc20" |} [exJob "0xb" 11; exJob "0xa" 12] 1000 ]
  exFresh.
Definition exReserved : StoreSt := runOps [OReserveRelay exEnvelope 2000] exScanned.
Definition exHeld : StoreSt := runOps [OHoldSource "SOURCE_REORG_TOUCHES_RELAYED_JOB"] exReserved.

Lemma exScanned_reachable : reachable exScanned.
Proof. apply reachable_runOps; [done|]. by eapply reach_new. Qed.
Lemma exReserved_reachable : reachable exReserved.
Proof. apply reachable_runOps; [done|]. apply exScanned_reachable. Qed.
Lemma exHeld_reachable : reachable exHeld.
Proof. apply reachable_runOps; [done|]. apply exReserved_reachable. Qed.
#[export] Hint Resolve exScanned_reachable exReserved_reachable exHeld_reachable : js.

Lemma exScanned_Chain : Chain (data exScanned).
Proof.
  split; simpl.
  - vm_compute. lia.
  - repeat constructor.
  - by intros c [= <-].
  - intros k j. vm_compute. repeat case_match; intros; simplify_eq; done.
Qed.
#[export] Hint Resolve exScanned_Chain : js.

Lemma store_refines_spec_witness :
  let op := OReserveRelay exEnvelope 2000 in
  reachable exScanned ∧ durable (runOp op exScanned).2 ∧
  ((runOp op exScanned).1 = Ok tt ∨ ∃ e, (runOp op exScanned).1 = Throw e ∧ WriteFailed e).
Proof.
  split; [auto with js|].
  destruct (store_refines_spec (OReserveRelay exEnvelope 2000) exScanned) as [Hd H];
    [auto with js|exact I|].
  split; [exact Hd|]. vm_compute in H.
  destruct H as [[H _]|[H _]]; [left; vm_compute; exact H|right]. destruct H as (e & H & He). exists e. split; [vm_compute; exact H|exact He].
Defined.

Lemma store_reachable_wf_witness :
  reachable exReserved ∧ relay (data exReserved) = Some exEnvelope
  ∧ durable exReserved ∧ WF (data exReserved)
  ∧ ∀ fs, newStore (disk exReserved) fs
          = Ok {| data := data exReserved; disk := disk exReserved; faults := fs |}.
Proof.
  split; [auto with js|]. split; [reflexivity|].
  apply (store_reachable_wf exReserved). auto with js.
Defined.

Lemma relay_released_only_by_finish_witness :
  let op := OFinishRelay "0xh" exReceipt 3000 in
  reachable exReserved ∧ opSafe (data exReserved) op ∧ relay (data exReserved) = Some exEnvelope ∧
  (relay (data (runOp op exReserved).2) = Some exEnvelope ∨
   ∃ rc now j, op = OFinishRelay (re_hash exEnvelope) rc now
     ∧ relay (data (runOp op exReserved).2) = None
     ∧ dget (re_sourceTxHash exEnvelope) (jobs (data exReserved)) = Some j
     ∧ dget (re_sourceTxHash exEnvelope) (jobs (data (runOp op exReserved).2))
       = Some (finishedJob exEnvelope rc now j)).
Proof.
  split; [auto with js|]. split; [exact I|]. split; [reflexivity|].
  apply (relay_released_only_by_finish exReserved (OFinishRelay "0xh" exReceipt 3000) exEnvelope);
    [auto with js|exact I|reflexivity].
Defined.

Lemma source_hold_is_sticky_witness :
  let op := OReserveRelay exEnvelope 5 in
  truthy (sourceHold (data exHeld)) = true ∧
  truthy (sourceHold (data (runOp op exHeld).2)) = true ∧
  runOp op exHeld = (Throw (ESourceSafety "SOURCE_REORG_TOUCHES_RELAYED_JOB"), exHeld).
Proof.
  split; [reflexivity|].
  apply (source_hold_is_sticky exHeld (OReserveRelay exEnvelope 5));
    [auto with js|exact I|discriminate|reflexivity].
Defined.

Lemma checkpoint_chain_preserved_witness :
  let op := ORewind {| height := 9; hash := "0xc9" |} 4000 in
  Chain (data exScanned) ∧ Chain (data (runOp op exScanned).2) ∧
  ∀ c, head (checkpoints (data exScanned)) = Some c →
       head (checkpoints (data (runOp op exScanned).2)) = Some c.
Proof.
  split; [auto with js|].
  apply (checkpoint_chain_preserved exScanned (ORewind {| height := 9; hash := "0xc9" |} 4000));
    [auto with js| |auto with js]. repeat split.
Defined.

Lemma rewind_discards_only_unsigned_witness :
  let a := {| height := 9; hash := "0xc9" |} in
  let s' := (rewindUnsignedSource a 4000 exScanned).2 in
  rewindUnsignedSource a 4000 exScanned = (Ok 2, s') ∧
  cursor (data s') = 9 ∧ dget "0xa" (jobs (data s')) = None.
Proof.
  split; [vm_compute; reflexivity|].
  destruct (rewind_discards_only_unsigned exScanned
    (rewindUnsignedSource {| height := 9; hash := "0xc9" |} 4000 exScanned).2
    {| height := 9; hash := "0xc9" |} 4000 2) as (_ & Hc & _ & Hj & _);
    [auto with js|vm_compute; reflexivity|].
  split; [exact Hc|]. apply (Hj "0xa" (stamped (exJob "0xa" 12) 1000)). reflexivity.
Defined.

Lemma dispatch_order_witness :
  let ready := jobsReadyForDispatch (data exReserved) (λ _, false) 1 in
  map txHash ready = ["0xa"] ∧ (length ready <= 1)%nat
  ∧ option_map txHash (head ready) = Some "0xa".
Proof.
  split; [vm_compute; reflexivity|].
  destruct (dispatch_order exReserved (λ _, false) 1) as (Hl & _ & _ & Hh); [auto with js|].
  split; [exact Hl|]. apply (Hh exEnvelope); [reflexivity|reflexivity|discriminate].
Defined.

End Store.
