(* ===== verification/SourceScan.v ===== *)
(** Source-chain scanning: [src/worker/source-events.ts] groups the contract's logs
    into one job per transaction, [src/worker/source-scan.ts] makes one bounded,
    hash-pinned scan step over the store. *)

From Stdlib Require Import ZArith Lia String.
From stdpp Require Import base decidable option list strings pretty sets sorting.
From S2P Require Import Prelude JS Store.
Local Open Scope string_scope.
Local Open Scope list_scope.
Local Open Scope Z_scope.

(** * Source events *)

Module SourceEvents.

Definition TRANSACTION_PROCESSING_VERSION : Z := 2.

Definition EVENT_TO_ACTION : list (string * Z) :=
  [ ("MarkIssued", 0); ("KeyedMarkIssued", 0); ("MarkRevoked", 1); ("SanctionDenied", 2);
    ("RosterEpochPublished", 3); ("IssuerKeyCompromised", 4); ("SanctionDenialCorrected", 5) ].
Definition WATCHED_EVENTS : list string := dkeys EVENT_TO_ACTION.

(** A version number read from a contract over RPC (an ABI-decoded integer), or a failed read. *)
Definition requireAtomicReceipts (readVersion : outcome Z) : outcome unit :=
  match readVersion with
  | Throw _ => Throw (EError "ASC does not expose atomic receipt processing v2; migrate before starting this worker")
  | Ok v => orequire (v =? TRANSACTION_PROCESSING_VERSION)
              (EError ("unsupported ASC transaction processing version: " +:+ pretty v))
  end.

Definition requireIssuerKeyProvenance (readSource readAsc : outcome Z) : outcome unit :=
  match readSource, readAsc with
  | Ok s, Ok a => orequire ((s =? 1) && (a =? 1))
      (EError ("unsupported issuer-key provenance: source=" +:+ pretty s +:+ " asc=" +:+ pretty a))
  | _, _ => Throw (EError "issuer-key provenance unavailable; migrate source and ASC before starting this worker")
  end.

Definition requireDenialCorrection (readSource readAsc : outcome Z) : outcome unit :=
  match readSource, readAsc with
  | Ok s, Ok a => orequire ((s =? 1) && (a =? 1))
      (EError ("unsupported denial-correction governance: source=" +:+ pretty s +:+ " asc=" +:+ pretty a))
  | _, _ => Throw (EError "denial-correction governance unavailable; migrate source and ASC before starting this worker")
  end.

(** A log as the RPC returns it (the ethers [Log] fields the worker reads). *)
Record Log := {
  address : string; topics : list string; logData : string; transactionHash : string;
  blockNumber : Z; index : Z; blockHash : string; transactionIndex : Z; removed : bool }.

Record EventJob := {
  ej_txHash : string; ej_blockNumber : Z; ej_action : Z; ej_eventName : string; ej_logCount : Z }.
#[export] Instance EventJob_eq_dec : EqDecision EventJob.
Proof. solve_decision. Defined.

(** The comparator [a.blockNumber - b.blockNumber || a.index - b.index]. *)
Definition logLe (a b : Log) : bool :=
  if blockNumber a - blockNumber b =? 0 then index a - index b <=? 0
  else blockNumber a - blockNumber b <=? 0.

(** A [Set<string>]: insertion without repetition. *)
Definition setAdd (x : string) (l : list string) : list string :=
  if bool_decide (x ∈ l) then l else l ++ [x].

Definition joinWith (sep : string) (l : list string) : string := String.concat sep l.

#[local] Opaque EVENT_TO_ACTION WATCHED_EVENTS.

Section grouping.
(** The contract interface of the ethers library: the name of the event a log decodes
    to; [None] when [parseLog] throws or returns null. *)
Context (parseLog : list string → string → option string).

(** The two maps of the loop: [groups] and [names]. *)
Record Groups := { groups : list (string * EventJob); names : list (string * list string) }.

(** The log is the contract's and decodes to a watched event. *)
Definition watchedName (source : string) (l : Log) : option string :=
  if negb (String.eqb (toLowerCase (address l)) (toLowerCase source)) then None
  else match parseLog (topics l) (logData l) with
       | Some n => if bool_decide (n ∈ WATCHED_EVENTS) then Some n else None
       | None => None
       end.

Definition groupLog (source : string) (l : Log) (g : Groups) : outcome Groups :=
  match watchedName source l with
  | None => Ok g
  | Some n =>
      let tx := transactionHash l in
      let '(job, ns) :=
        match dget tx (groups g) with
        | Some job => (job, default [] (dget tx (names g)))
        | None => ({| ej_txHash := tx; ej_blockNumber := blockNumber l;
                      ej_action := default 0 (dget n EVENT_TO_ACTION);
                      ej_eventName := ""; ej_logCount := 0 |}, [])
        end in
      let? _ := orequire (ej_blockNumber job =? blockNumber l)
                  (EError "inconsistent source transaction block") in
      let ns' := setAdd n ns in
      Ok {| groups := dset tx {| ej_txHash := ej_txHash job; ej_blockNumber := ej_blockNumber job;
                                 ej_action := ej_action job; ej_eventName := joinWith "+" ns';
                                 ej_logCount := ej_logCount job + 1 |} (groups g);
            names := dset tx ns' (names g) |}
  end.

Fixpoint groupLogs (source : string) (ls : list Log) (g : Groups) : outcome Groups :=
  match ls with
  | [] => Ok g
  | l :: ls => let? g' := groupLog source l g in groupLogs source ls g'
  end.

Definition groupSourceEvents (raw : list Log) (source : string) : outcome (list EventJob) :=
  let? g := groupLogs source (sort_by logLe raw) {| groups := []; names := [] |} in
  Ok (dvalues (groups g)).

(** ** Reference: the jobs read off the sorted watched logs *)

(** The watched logs with their event names, in chain order. *)
Definition watched (source : string) (ls : list Log) : list (Log * string) :=
  omap (λ l, pair l <$> watchedName source l) ls.

Definition ofTx (tx : string) (ws : list (Log * string)) : list (Log * string) :=
  filter (λ w, transactionHash w.1 = tx) ws.

(** The job of one transaction, from its watched logs in order. *)
Definition jobOf (tx : string) (ws : list (Log * string)) : option EventJob :=
  match ofTx tx ws with
  | [] => None
  | ((l, n) :: _) as own => Some {|
      ej_txHash := tx; ej_blockNumber := blockNumber l;
      ej_action := default 0 (dget n EVENT_TO_ACTION);
      ej_eventName := joinWith "+" (fold_left (λ acc w, setAdd w.2 acc) own []);
      ej_logCount := Z.of_nat (length own) |}
  end.

Definition txOrder (ws : list (Log * string)) : list string :=
  fold_left (λ acc w, setAdd (transactionHash w.1) acc) ws [].

Definition consistent (ws : list (Log * string)) : Prop :=
  ∀ w w', w ∈ ws → w' ∈ ws → transactionHash w.1 = transactionHash w'.1 →
          blockNumber w.1 = blockNumber w'.1.

Lemma watched_cons source l ls :
  watched source (l :: ls) = match watchedName source l with
                             | Some n => (l, n) :: watched source ls | None => watched source ls end.
Proof. unfold watched. simpl. by destruct (watchedName source l). Qed.

Lemma ofTx_snoc_eq tx ws w : transactionHash w.1 = tx → ofTx tx (ws ++ [w]) = ofTx tx ws ++ [w].
Proof. intros H. unfold ofTx. by rewrite filter_app, filter_cons_True. Qed.

Lemma ofTx_snoc_ne tx ws w : transactionHash w.1 ≠ tx → ofTx tx (ws ++ [w]) = ofTx tx ws.
Proof. intros H. unfold ofTx. rewrite filter_app, filter_cons_False, filter_nil by done. apply app_nil_r. Qed.

Lemma jobOf_None tx ws : jobOf tx ws = None ↔ ofTx tx ws = [].
Proof. unfold jobOf. by destruct (ofTx tx ws) as [|[] ?]. Qed.

(** What the loop has built after the watched logs [ws]. *)
Record Built (ws : list (Log * string)) (g : Groups) : Prop := {
  built_keys : dkeys (groups g) = txOrder ws;
  built_jobs : ∀ tx, dget tx (groups g) = jobOf tx ws;
  built_names : ∀ tx, default [] (dget tx (names g))
                      = fold_left (λ acc w, setAdd w.2 acc) (ofTx tx ws) [] }.

Lemma txOrder_snoc ws w : txOrder (ws ++ [w]) = setAdd (transactionHash w.1) (txOrder ws).
Proof. unfold txOrder. by rewrite fold_left_app. Qed.

Lemma dset_dkeys_setAdd {V} k (v : V) d : dkeys (dset k v d) = setAdd k (dkeys d).
Proof.
  rewrite dkeys_dset. unfold dhas, setAdd. destruct (dget k d) eqn:H.
  - rewrite bool_decide_eq_true_2; [done|].
    destruct (decide (k ∈ dkeys d)) as [|Hn]; [done|]. apply dget_None in Hn. congruence.
  - rewrite bool_decide_eq_false_2; [done|]. by apply dget_None.
Qed.

(** One iteration extends what was built by the log, and fails exactly when the log's
    block differs from that of the transaction's first log. *)
Lemma groupLog_built source ws g l :
  Built ws g →
  match watchedName source l with
  | None => groupLog source l g = Ok g
  | Some n =>
      match ofTx (transactionHash l) ws with
      | w0 :: _ =>
          if blockNumber w0.1 =? blockNumber l
          then ∃ g', groupLog source l g = Ok g' ∧ Built (ws ++ [(l, n)]) g'
          else groupLog source l g = Throw (EError "inconsistent source transaction block")
      | [] => ∃ g', groupLog source l g = Ok g' ∧ Built (ws ++ [(l, n)]) g'
      end
  end.
Proof.
  intros [Hk Hj Hn]. unfold groupLog. destruct (watchedName source l) as [n|]; [|done].
  set (tx := transactionHash l). rewrite (Hj tx), (Hn tx).
  assert (∀ g' job' ns',
    groups g' = dset tx job' (groups g) → names g' = dset tx ns' (names g) →
    jobOf tx (ws ++ [(l, n)]) = Some job' →
    ns' = setAdd n (fold_left (λ acc w, setAdd w.2 acc) (ofTx tx ws) []) →
    Built (ws ++ [(l, n)]) g') as Hbuilt.
  { intros g' job' ns' Hg Hns Hjob ->. split; [by rewrite Hg, dset_dkeys_setAdd, txOrder_snoc, Hk| |];
      intros tx'; rewrite ?Hg, ?Hns, dget_dset;
      destruct (String.eqb_spec tx' tx) as [->|Hne]; [done| | |].
    - unfold jobOf. rewrite ofTx_snoc_ne by (intros <-; by apply Hne). apply Hj.
    - rewrite ofTx_snoc_eq, fold_left_app by done. done.
    - rewrite ofTx_snoc_ne by (intros <-; by apply Hne). apply Hn. }
  unfold jobOf. destruct (ofTx tx ws) as [|[l0 n0] own] eqn:Hof; simpl.
  - rewrite Z.eqb_refl. simpl. eexists. split; [done|]. eapply Hbuilt; [done|done| |done].
    unfold jobOf. rewrite ofTx_snoc_eq by done. by rewrite Hof.
  - destruct (blockNumber l0 =? blockNumber l) eqn:Hb; simpl; [|done].
    eexists. split; [done|]. eapply Hbuilt; [done|done| |done].
    unfold jobOf. rewrite ofTx_snoc_eq, Hof by done. simpl.
    rewrite fold_left_app, length_app. simpl. repeat f_equal. lia.
Qed.

Lemma dvalues_dget {V} (d : list (string * V)) :
  NoDup (dkeys d) → dvalues d = omap (λ k, dget k d) (dkeys d).
Proof.
  induction d as [|[k v] d IH]; simpl; [done|]. intros [Hk Hd]%NoDup_cons.
  rewrite String.eqb_refl, IH by done. f_equal.
  apply list_omap_ext. apply Forall_Forall2_diag, Forall_forall. intros x Hx.
  destruct (String.eqb_spec x k) as [->|]; done.
Qed.

Lemma setAdd_NoDup x l : NoDup l → NoDup (setAdd x l).
Proof.
  intros Hl. unfold setAdd. case_bool_decide; [done|]. apply NoDup_app.
  split_and!; [done| |apply NoDup_singleton]. by intros y Hy ->%list_elem_of_singleton.
Qed.

Lemma txOrder_NoDup ws : NoDup (txOrder ws).
Proof.
  induction ws as [|w ws IH] using rev_ind; [constructor|]. rewrite txOrder_snoc. by apply setAdd_NoDup.
Qed.

Lemma elem_setAdd x y l : y ∈ setAdd x l ↔ y = x ∨ y ∈ l.
Proof.
  unfold setAdd. case_bool_decide; [split; [by right|by intros [->|?]]|]. rewrite elem_of_app, list_elem_of_singleton. tauto.
Qed.

Lemma elem_txOrder tx ws : tx ∈ txOrder ws ↔ ∃ w, w ∈ ws ∧ transactionHash w.1 = tx.
Proof.
  induction ws as [|w ws IH] using rev_ind; [set_solver|].
  rewrite txOrder_snoc, elem_setAdd, IH. set_solver.
Qed.

(** The loop over the sorted logs, from what was built so far. *)
Lemma groupLogs_built source ls ws g :
  Built ws g → consistent (ws ++ watched source ls) →
  ∃ g', groupLogs source ls g = Ok g' ∧ Built (ws ++ watched source ls) g'.
Proof.
  revert ws g. induction ls as [|l ls IH]; intros ws g HB Hc; simpl.
  { exists g. by rewrite app_nil_r. }
  pose proof (groupLog_built source ws g l HB) as H.
  rewrite watched_cons in *. destruct (watchedName source l) as [n|].
  - assert (∃ g', groupLog source l g = Ok g' ∧ Built (ws ++ [(l, n)]) g') as (g' & -> & HB').
    { destruct (ofTx (transactionHash l) ws) as [|w0 own] eqn:Hof; [done|].
      assert (w0 ∈ ofTx (transactionHash l) ws) as Hw0 by (rewrite Hof; left).
      apply list_elem_of_filter in Hw0 as [Htx Hw0].
      assert (blockNumber w0.1 = blockNumber l) as Hb.
      { apply (Hc w0 (l, n)); [set_solver|set_solver|done]. }
      by rewrite Hb, Z.eqb_refl in H. }
    simpl. destruct (IH _ _ HB') as (g'' & -> & HB''); rewrite <- app_assoc in *; simpl in *; eauto.
  - rewrite H. simpl. by apply IH.
Qed.

Lemma groupLogs_inconsistent source ls ws g :
  Built ws g → consistent ws → ¬ consistent (ws ++ watched source ls) →
  groupLogs source ls g = Throw (EError "inconsistent source transaction block").
Proof.
  revert ws g. induction ls as [|l ls IH]; intros ws g HB Hok Hc; simpl.
  { destruct Hc. unfold watched. simpl. by rewrite app_nil_r. }
  pose proof (groupLog_built source ws g l HB) as H.
  rewrite watched_cons in Hc. destruct (watchedName source l) as [n|].
  2:{ rewrite H. simpl. by eapply IH. }
  assert (∀ b, (∀ w, w ∈ ofTx (transactionHash l) ws → blockNumber w.1 = b) →
    b = blockNumber l → consistent (ws ++ [(l, n)])) as Hext.
  { intros b Hb ->.
    assert (∀ w, w ∈ ws → transactionHash w.1 = transactionHash l → blockNumber w.1 = blockNumber l) as Hw.
    { intros w Hw Htx. apply Hb, list_elem_of_filter. done. }
    intros w w' Hin Hin' Htx.
    apply elem_of_app in Hin as [Hin|Hin], Hin' as [Hin'|Hin'];
      rewrite ?list_elem_of_singleton in *; subst; simpl in *; auto; symmetry; auto. }
  destruct (ofTx (transactionHash l) ws) as [|w0 own] eqn:Hof.
  - destruct H as (g' & -> & HB'). simpl. eapply (IH _ _ HB'); [|by rewrite <- app_assoc].
    apply (Hext (blockNumber l)); [|done]. by intros ? ?%elem_of_nil.
  - destruct (blockNumber w0.1 =? blockNumber l) eqn:Hb; [|by rewrite H].
    destruct H as (g' & -> & HB'). simpl. eapply (IH _ _ HB'); [|by rewrite <- app_assoc].
    apply (Hext (blockNumber l)); [|done]. apply Z.eqb_eq in Hb. intros w Hw. rewrite <- Hb.
    assert (w0 ∈ w0 :: own) as Hw0 by left. rewrite <- Hof in Hw, Hw0.
    apply list_elem_of_filter in Hw as [? ?], Hw0 as [? ?]. apply Hok; congruence.
Qed.

Lemma Built_nil : Built [] {| groups := []; names := [] |}.
Proof. by split. Qed.

Lemma Built_values ws g : Built ws g → dvalues (groups g) = omap (λ tx, jobOf tx ws) (txOrder ws).
Proof.
  intros [Hk Hj _]. rewrite dvalues_dget, Hk by (rewrite Hk; apply txOrder_NoDup).
  apply list_omap_ext. apply Forall_Forall2_diag, Forall_forall. auto.
Qed.

Lemma group_ok raw source :
  consistent (watched source (sort_by logLe raw)) →
  groupSourceEvents raw source
  = Ok (omap (λ tx, jobOf tx (watched source (sort_by logLe raw)))
             (txOrder (watched source (sort_by logLe raw)))).
Proof.
  intros Hc. unfold groupSourceEvents.
  destruct (groupLogs_built source (sort_by logLe raw) [] _ Built_nil Hc) as (g & -> & HB).
  simpl. f_equal. by apply Built_values in HB.
Qed.

Lemma elem_watched source raw l n :
  (l, n) ∈ watched source (sort_by logLe raw) ↔ l ∈ raw ∧ watchedName source l = Some n.
Proof.
  unfold watched. rewrite list_elem_of_omap. split.
  - intros (l' & Hl & Hw). rewrite (sort_by_perm logLe raw) in Hl.
    destruct (watchedName source l') eqn:E; [|done]. by injection Hw as <- <-.
  - intros [Hl Hw]. exists l. by rewrite (sort_by_perm logLe raw), Hw.
Qed.

(** Grouping returns one job per transaction with a watched log, in first-log
    chain order, carrying the first event action, the distinct event names in order and
    the number of watched logs; it throws exactly when two watched logs of a transaction
    disagree on the block. *)
Theorem groupSourceEvents_correct (raw : list Log) (source : string) :
  let ws := watched source (sort_by logLe raw) in
  (consistent ws → groupSourceEvents raw source = Ok (omap (λ tx, jobOf tx ws) (txOrder ws))) ∧
  (¬ consistent ws →
     groupSourceEvents raw source = Throw (EError "inconsistent source transaction block")) ∧
  NoDup (txOrder ws) ∧
  (∀ tx, tx ∈ txOrder ws ↔ ∃ l, l ∈ raw ∧ transactionHash l = tx ∧ is_Some (watchedName source l)).
Proof.
  intros ws. split_and!.
  - apply group_ok.
  - intros Hc. unfold groupSourceEvents.
    erewrite groupLogs_inconsistent; [done|apply Built_nil| |done]. by intros ? ? ?%elem_of_nil.
  - apply txOrder_NoDup.
  - intros tx. rewrite elem_txOrder. split.
    + intros ([l n] & [Hl Hn]%elem_watched & Htx). eauto.
    + intros (l & Hl & Htx & [n Hn]). exists (l, n). split; [|done]. by apply elem_watched.
Qed.

End grouping.
End SourceEvents.

(** * One scan step *)

Module SourceScan.
Import SourceEvents.

Record Block := { number : Z; bhash : option string }.

(** [getBlock(tag)] with a height or ['finalized']. *)
Inductive BlockTag := AtHeight (n : Z) | Finalized.

(** The source RPC and the clock, with arbitrary effects on the world [W]: between two
    awaits other tasks of the worker may run. *)
Record SourceReader (W : Type) := {
  getBlockNumber : M W Z;
  getBlock : BlockTag → M W (option Block);
  getLogs : string → Z → Z → M W (list Log);
  dateNow : M W Z }.
Arguments getBlockNumber {W} _.
Arguments getBlock {W} _ _.
Arguments getLogs {W} _ _ _ _.
Arguments dateNow {W} _.

Definition validBlock (b : option Block) (h : option Z) : option (Z * string) :=
  match b with
  | Some {| number := n; bhash := Some bh |} =>
      if safeNat n && match h with Some h => n =? h | None => true end && isBytes32 bh
      then Some (n, bh) else None
  | _ => None
  end.

Record ScanOptions := {
  so_address : string; so_startBlock : Z; so_confirmations : Z; so_chunk : Z }.

Record ScanResult := { scanned : bool; sr_jobs : Z; sr_rewound : Z }.
#[export] Instance ScanResult_eq_dec : EqDecision ScanResult.
Proof. solve_decision. Defined.

Definition positiveSafe (n : Z) : bool := isSafeInteger n && (1 <=? n).

Definition toJob (loc : list (string * (string * Z))) (e : EventJob) : outcome Store.Job :=
  match dget (ej_txHash e) loc with
  | None => Throw (EError "TypeError")
  | Some (bh, ti) => Ok {|
      Store.txHash := ej_txHash e; Store.blockNumber := ej_blockNumber e;
      Store.blockHash := Some bh; Store.transactionIndex := Some ti;
      Store.action := ej_action e; Store.eventName := ej_eventName e;
      Store.logCount := ej_logCount e; Store.state := Store.discovered; Store.attempts := 0;
      Store.lastError := None; Store.ascTxHash := None; Store.queryId := None;
      Store.discoveredAt := 0; Store.updatedAt := 0; Store.skipObservation := None;
      Store.relayHistory := None |}
  end.

Section step.
Context {W : Type} `{Lens W Store.StoreSt}.
Context (reader : SourceReader W) (parseLog : list string → string → option string).
(** [options.beforeRewind?.()] *)
Context (beforeRewind : M W unit).

Definition checkBlock (b : option Block) (h : Z) (code : string) : M W string :=
  match validBlock b (Some h) with
  | Some (_, bh) => ret bh
  | None => throw (ESourceSafety code)
  end.

(** Line 39 to 42: the highest checkpoint whose block is still canonical and final. *)
Fixpoint findAncestor (safeHead : Z) (cs : list Store.SourceCheckpoint)
    : M W (option Store.SourceCheckpoint) :=
  match cs with
  | [] => ret None
  | c :: cs =>
      let! block := getBlock reader (AtHeight (Store.height c)) in
      match validBlock block (Some (Store.height c)) with
      | Some (n, bh) =>
          if String.eqb bh (Store.hash c) && (n <=? safeHead) then ret (Some c)
          else findAncestor safeHead cs
      | None => findAncestor safeHead cs
      end
  end.

Definition Locations := list (string * (string * Z)).
Definition Blocks := list (Z * string).
Fixpoint bget (n : Z) (bs : Blocks) : option string :=
  match bs with [] => None | (m, h) :: bs => if n =? m then Some h else bget n bs end.

(** Line 57 to 61: the canonical hash of the log's block, read once per block. *)
Definition blockHashOf (bs : Blocks) (n : Z) : M W (string * Blocks) :=
  match bget n bs with
  | Some h => ret (h, bs)
  | None =>
      let! block := getBlock reader (AtHeight n) in
      let! bh := checkBlock block n "SOURCE_LOG_BLOCK_UNAVAILABLE" in
      ret (bh, bs ++ [(n, bh)])
  end.

Fixpoint checkLogs (opts : ScanOptions) (from to : Z) (logs : list Log) (bs : Blocks)
    (loc : Locations) : M W Locations :=
  match logs with
  | [] => ret loc
  | e :: logs =>
      require (negb (removed e)
               && String.eqb (toLowerCase (address e)) (toLowerCase (so_address opts))
               && (from <=? blockNumber e) && (blockNumber e <=? to)
               && safeNat (transactionIndex e)) (ESourceSafety "SOURCE_LOG_COORDINATE_MISMATCH") ;;;
      let! (bh, bs') := blockHashOf bs (blockNumber e) in
      require (String.eqb bh (blockHash e)) (ESourceSafety "SOURCE_LOG_HASH_MISMATCH") ;;;
      require (match dget (transactionHash e) loc with
               | Some (pbh, pti) => String.eqb pbh (blockHash e) && (pti =? transactionIndex e)
               | None => true
               end) (ESourceSafety "SOURCE_TRANSACTION_COORDINATE_MISMATCH") ;;;
      checkLogs opts from to logs bs'
        (dset (transactionHash e) (blockHash e, transactionIndex e) loc)
  end.

(** Line 35 to 45: rewind to a canonical checkpoint when the last one was reorganised
    away; [0] when it was not. *)
Definition reconcileTip (safeHead : Z) : M W Z :=
  let! checkpoints := gets (λ w, Store.checkpoints (Store.data (lens_get w))) in
  match last checkpoints with
  | None => throw (EError "TypeError")
  | Some lst =>
      let! cursor := gets (λ w, Store.cursor (Store.data (lens_get w))) in
      require (Store.height lst =? cursor) (ESourceSafety "SOURCE_CHECKPOINT_CURSOR_MISMATCH") ;;;
      let! block := getBlock reader (AtHeight (Store.height lst)) in
      let! current := checkBlock block (Store.height lst) "SOURCE_CHECKPOINT_UNAVAILABLE" in
      if String.eqb current (Store.hash lst) then ret 0
      else
        beforeRewind ;;;
        let! ancestor := findAncestor safeHead (reverse checkpoints) in
        match ancestor with
        | None => zoom (Store.holdSource "SOURCE_REORG_BEYOND_VERIFIED_ANCHOR")
        | Some a =>
            let! now := dateNow reader in
            zoom (Store.rewindUnsignedSource a now)
        end
  end.

(** Line 69 to 72: both ends of the range and the finality of its end, read again after the
    log request. *)
Definition recheckRange (opts : ScanOptions) (to : Z) (endHash : string) : M W unit :=
  let! tips := gets (λ w, Store.checkpoints (Store.data (lens_get w))) in
  match last tips with
  | None => throw (EError "TypeError")
  | Some start =>
      let! endAgain := getBlock reader (AtHeight to) in
      let! startAgain := getBlock reader (AtHeight (Store.height start)) in
      let! finalAgain := getBlock reader Finalized in
      let! headAgain := getBlockNumber reader in
      require
        (match validBlock endAgain (Some to), validBlock startAgain (Some (Store.height start)),
               validBlock finalAgain None with
         | Some (_, eh), Some (_, sh), Some (fn, _) =>
             String.eqb eh endHash && String.eqb sh (Store.hash start)
             && isSafeInteger headAgain && (fn <=? headAgain) && (to <=? fn)
             && (to <=? headAgain - so_confirmations opts)
         | _, _, _ => false
         end) (ESourceSafety "SOURCE_RANGE_CHANGED_DURING_SCAN")
  end.

(** Line 46 to 76: scan the next bounded range above the cursor. *)
Definition scanRange (opts : ScanOptions) (safeHead rewound : Z) : M W ScanResult :=
  let! cursor := gets (λ w, Store.cursor (Store.data (lens_get w))) in
  let from := cursor + 1 in
  if safeHead <? from then ret {| scanned := false; sr_jobs := 0; sr_rewound := rewound |}
  else
    let to := Z.min (from + so_chunk opts - 1) safeHead in
    let! block := getBlock reader (AtHeight to) in
    let! endHash := checkBlock block to "SOURCE_RANGE_END_UNAVAILABLE" in
    let! logs := getLogs reader (so_address opts) from to in
    let! loc := checkLogs opts from to logs [] [] in
    recheckRange opts to endHash ;;;
    let! grouped := lift_out (groupSourceEvents parseLog logs (so_address opts)) in
    let! jobs := lift_out (omap_out (toJob loc) grouped) in
    zoom Store.assertHubReady ;;;
    let! now := dateNow reader in
    zoom (Store.commitSourceRange from {| Store.height := to; Store.hash := endHash |} jobs now) ;;;
    ret {| scanned := true; sr_jobs := Z.of_nat (length jobs); sr_rewound := rewound |}.

(** Line 25 to 30: on the first scan, pin the block below the start as the anchor. *)
Definition anchorSource (opts : ScanOptions) (safeHead : Z) : M W bool :=
  let! checkpoints := gets (λ w, Store.checkpoints (Store.data (lens_get w))) in
  if negb (bool_decide (checkpoints = [])) then ret true
  else if safeHead <? so_startBlock opts - 1 then ret false
  else
    let! block := getBlock reader (AtHeight (so_startBlock opts - 1)) in
    let! bh := checkBlock block (so_startBlock opts - 1) "SOURCE_ANCHOR_UNAVAILABLE" in
    zoom (Store.initializeSource {| Store.height := so_startBlock opts - 1; Store.hash := bh |}) ;;;
    ret true.

Definition scanSourceStep (opts : ScanOptions) : M W ScanResult :=
  zoom Store.assertSourceReady ;;; zoom Store.assertHubReady ;;;
  require (positiveSafe (so_startBlock opts) && positiveSafe (so_confirmations opts)
           && positiveSafe (so_chunk opts)) (ESourceSafety "INVALID_SOURCE_SCAN_SETTINGS") ;;;
  let! head := getBlockNumber reader in
  let! finalized := getBlock reader Finalized in
  match validBlock finalized None with
  | Some (fn, _) =>
      require (isSafeInteger head && (fn <=? head)) (ESourceSafety "SOURCE_FINALITY_UNCONFIRMED") ;;;
      let safeHead := Z.min fn (head - so_confirmations opts) in
      let! anchored := anchorSource opts safeHead in
      if negb anchored then ret {| scanned := false; sr_jobs := 0; sr_rewound := 0 |}
      else
        let! rewound := reconcileTip safeHead in
        scanRange opts safeHead rewound
  | None => throw (ESourceSafety "SOURCE_FINALITY_UNCONFIRMED")
  end.
End step.

(** When [commitSourceRange] accepts a list of jobs. *)
Lemma addSourceJobs_ok from to now l js :
  (∀ j, j ∈ l → truthy (Store.blockHash j) = true ∧ from ≤ Store.blockNumber j ≤ to
     ∧ ∃ i, Store.transactionIndex j = Some i ∧ isSafeInteger i = true) →
  (∀ j ex, j ∈ l → dget (Store.txHash j) js = Some ex →
     Store.blockHash ex = Store.blockHash j ∧ Store.blockNumber ex = Store.blockNumber j) →
  (∀ j j', j ∈ l → j' ∈ l → Store.txHash j = Store.txHash j' →
     Store.blockHash j = Store.blockHash j' ∧ Store.blockNumber j = Store.blockNumber j') →
  ∃ js', Store.addSourceJobs from to now l js = Ok js'.
Proof.
  revert js. induction l as [|j l IH]; intros js Hok Hex Hl; simpl; [eauto|].
  destruct (Hok j) as (Hh & Hr & i & Hi & Hsi); [by left|].
  assert (∃ js1, Store.addSourceJob from to now j js = Ok js1 ∧
    ∀ k ex, dget k js1 = Some ex → dget k js = Some ex ∨
      k = Store.txHash j ∧ Store.blockHash ex = Store.blockHash j
      ∧ Store.blockNumber ex = Store.blockNumber j) as (js1 & -> & H1).
  { unfold Store.addSourceJob. rewrite Hh, Hi, Hsi, !(proj2 (Z.leb_le _ _)) by lia. simpl.
    destruct (dget (Store.txHash j) js) as [ex|] eqn:Hd.
    - destruct (Hex j ex) as [-> ->]; [by left|done|].
      rewrite bool_decide_eq_true_2, Z.eqb_refl by done. simpl. eauto.
    - eexists. split; [done|]. intros k ex. rewrite dget_dset.
      destruct (String.eqb_spec k (Store.txHash j)) as [->|]; [|by left].
      intros [= <-]. by right. }
  simpl. apply IH.
  - intros; apply Hok; by right.
  - intros j' ex Hj' Hd. destruct (H1 _ _ Hd) as [Hd'|(Htx & -> & ->)].
    + apply Hex; [by right|done].
    + apply Hl; [by left|by right|done].
  - intros; apply Hl; [by right|by right|done].
Qed.

(** * Scanning a canonical chain *)

(** An RPC that serves one fixed chain: block hashes by height up to [head], a finalized
    block, and the logs of the contract. *)
Record ChainView := {
  cv_chain : Z → string; cv_head : Z; cv_final : Z; cv_logs : list Log }.

Definition servedBlock (v : ChainView) (t : BlockTag) : option Block :=
  let n := match t with AtHeight n => n | Finalized => cv_final v end in
  if (0 <=? n) && (n <=? cv_head v) then Some {| number := n; bhash := Some (cv_chain v n) |}
  else None.

Definition inRange (addr : string) (from to : Z) (l : Log) : bool :=
  String.eqb (toLowerCase (address l)) (toLowerCase addr)
  && (from <=? blockNumber l) && (blockNumber l <=? to).

Definition honestReader (v : ChainView) (now : Z) : SourceReader Store.StoreSt := {|
  getBlockNumber := ret (cv_head v);
  getBlock := λ t, ret (servedBlock v t);
  getLogs := λ a f t, ret (filter (λ l, inRange a f t l) (cv_logs v));
  dateNow := ret now |}.

(** What makes the view a chain: well-formed hashes, finality below the head, and logs that
    carry their block's hash and one coordinate per transaction. *)
Record coherent (v : ChainView) : Prop := {
  co_hash : ∀ n, isBytes32 (cv_chain v n) = true;
  co_final : 0 ≤ cv_final v ≤ cv_head v;
  co_head : cv_head v ≤ MAX_SAFE_INTEGER;
  co_log : ∀ l, l ∈ cv_logs v →
    removed l = false ∧ blockHash l = cv_chain v (blockNumber l)
    ∧ safeNat (transactionIndex l) = true;
  co_tx : ∀ l l', l ∈ cv_logs v → l' ∈ cv_logs v → transactionHash l = transactionHash l' →
    blockNumber l = blockNumber l' ∧ transactionIndex l = transactionIndex l' }.

Definition safeHead (v : ChainView) (opts : ScanOptions) : Z :=
  Z.min (cv_final v) (cv_head v - so_confirmations opts).

Definition canonicalTip (v : ChainView) (d : Store.Data) : Prop :=
  ∀ c, last (Store.checkpoints d) = Some c → Store.hash c = cv_chain v (Store.height c).

Section honest.
Context (v : ChainView) (now : Z) (Hv : coherent v).
Context (parseLog : list string → string → option string).
Let reader := honestReader v now.

Lemma valid_served n h :
  0 ≤ n ≤ cv_head v → match h with Some h => n = h | None => True end →
  validBlock (servedBlock v (AtHeight n)) h = Some (n, cv_chain v n).
Proof.
  intros Hn Hh. unfold servedBlock. rewrite (proj2 (Z.leb_le 0 n)), (proj2 (Z.leb_le n _)) by lia.
  simpl. rewrite (proj2 (safeNat_spec n)), (co_hash v Hv) by (pose proof (co_head v Hv); lia).
  destruct h as [h|]; [|done]. subst. by rewrite Z.eqb_refl.
Qed.

Lemma valid_served_inv t h n bh :
  validBlock (servedBlock v t) h = Some (n, bh) →
  bh = cv_chain v n ∧ 0 ≤ n ≤ cv_head v ∧ match h with Some h => n = h | None => True end
  ∧ match t with AtHeight m => n = m | Finalized => n = cv_final v end.
Proof.
  unfold servedBlock. destruct (_ && _) eqn:Hb; [|done]. simpl.
  apply andb_true_iff in Hb as [?%Z.leb_le ?%Z.leb_le].
  destruct (safeNat _ && _ && _) eqn:Hg; [|done]. intros [= <- <-].
  apply andb_true_iff in Hg as [[_ Hh]%andb_true_iff _].
  destruct h as [h|]; [apply Z.eqb_eq in Hh|]; destruct t; done.
Qed.

Lemma checkBlock_served n code (s : Store.StoreSt) :
  0 ≤ n ≤ cv_head v → checkBlock (servedBlock v (AtHeight n)) n code s = (Ok (cv_chain v n), s).
Proof. intros Hn. unfold checkBlock. by rewrite valid_served. Qed.

Lemma bget_snoc n m h bs :
  bget n (bs ++ [(m, h)]) = match bget n bs with
                            | Some x => Some x
                            | None => if n =? m then Some h else None end.
Proof. induction bs as [|[k x] bs IH]; simpl; [done|]. by destruct (n =? k). Qed.

Definition goodBlocks (bs : Blocks) : Prop := ∀ n h, bget n bs = Some h → h = cv_chain v n.
Definition goodLocations (loc : Locations) : Prop := ∀ tx bh ti, dget tx loc = Some (bh, ti) →
  ∃ l, l ∈ cv_logs v ∧ transactionHash l = tx ∧ bh = blockHash l ∧ ti = transactionIndex l.

Lemma blockHashOf_served bs n (s : Store.StoreSt) :
  0 ≤ n ≤ cv_head v → goodBlocks bs →
  ∃ bs', blockHashOf reader bs n s = (Ok (cv_chain v n, bs'), s) ∧ goodBlocks bs'.
Proof.
  intros Hn Hbs. unfold blockHashOf. destruct (bget n bs) as [h|] eqn:Hg.
  { exists bs. by rewrite (Hbs _ _ Hg). }
  eexists. unfold bind. simpl. rewrite checkBlock_served by lia. split; [done|].
  intros m h. rewrite bget_snoc. destruct (bget m bs) eqn:Hm; [intros [= <-]; auto|].
  destruct (m =? n) eqn:E; [|done]. apply Z.eqb_eq in E as ->. by intros [= <-].
Qed.

(** The log checks accept every log of the view in the range and record its coordinates. *)
Lemma checkLogs_served opts from to logs bs loc (s : Store.StoreSt) :
  0 ≤ from → to ≤ cv_head v →
  (∀ l, l ∈ logs → l ∈ cv_logs v ∧ inRange (so_address opts) from to l = true) →
  goodBlocks bs → goodLocations loc →
  ∃ loc', checkLogs reader opts from to logs bs loc s = (Ok loc', s) ∧ goodLocations loc' ∧
    (∀ tx, is_Some (dget tx loc) → is_Some (dget tx loc')) ∧
    (∀ l, l ∈ logs → is_Some (dget (transactionHash l) loc')).
Proof.
  intros Hf Ht. revert bs loc. induction logs as [|e logs IH]; intros bs loc Hlogs Hbs Hloc; simpl.
  { exists loc. split_and!; [done|done|done|by intros ? ?%elem_of_nil]. }
  destruct (Hlogs e) as [He Hr]; [by left|].
  destruct (co_log v Hv e He) as (Hrm & Hbh & Hti).
  unfold inRange in Hr. apply andb_true_iff in Hr as [[Ha Hfrom]%andb_true_iff Hto].
  apply Z.leb_le in Hfrom as Hfrom'. apply Z.leb_le in Hto as Hto'.
  destruct (blockHashOf_served bs (blockNumber e) s) as (bs' & Hblk & Hbs'); [lia|done|].
  unfold bind at 1. rewrite Hrm, Ha, Hfrom, Hto, Hti. simpl.
  unfold bind at 1. rewrite Hblk, <- Hbh, String.eqb_refl. simpl. unfold bind at 1. simpl.
  assert (match dget (transactionHash e) loc with
          | Some (pbh, pti) => String.eqb pbh (blockHash e) && (pti =? transactionIndex e)
          | None => true end = true) as Hprev.
  { destruct (dget (transactionHash e) loc) as [[pbh pti]|] eqn:Hp; [|done].
    destruct (Hloc _ _ _ Hp) as (l & Hl & Htx & -> & ->).
    destruct (co_tx v Hv l e Hl He Htx) as [Hb ->].
    destruct (co_log v Hv l Hl) as (_ & -> & _). by rewrite Hbh, Hb, String.eqb_refl, Z.eqb_refl. }
  unfold bind at 1. rewrite Hprev. simpl.
  destruct (IH bs' (dset (transactionHash e) (blockHash e, transactionIndex e) loc))
    as (loc' & -> & Hl' & Hm & Hin); [intros l Hl; apply Hlogs; by right|done| |].
  { intros tx bh ti. rewrite dget_dset. destruct (String.eqb_spec tx (transactionHash e)) as [->|]; [|apply Hloc].
    intros [= <- <-]. eauto. }
  exists loc'. split_and!; [done|done| |].
  - intros tx [x Hx]. apply Hm. rewrite dget_dset, Hx. destruct (tx =? transactionHash e)%string; eauto.
  - intros l [->|Hl]%elem_of_cons; [|by apply Hin]. apply Hm. rewrite dget_dset_eq. eexists; reflexivity.
Qed.

(** The jobs of a range: one per transaction with a watched log, at its block and hash. *)
Definition freshIn (addr : string) (d : Store.Data) : Prop :=
  ∀ l j, l ∈ cv_logs v → dget (transactionHash l) (Store.jobs d) = Some j →
    is_Some (watchedName parseLog addr l) → Store.cursor d < blockNumber l →
    Store.blockHash j = Some (cv_chain v (blockNumber l)) ∧ Store.blockNumber j = blockNumber l.

Lemma jobOf_event tx ws j : jobOf tx ws = Some j →
  ∃ w, w ∈ ws ∧ transactionHash w.1 = tx ∧ ej_txHash j = tx ∧ ej_blockNumber j = blockNumber w.1.
Proof.
  unfold jobOf. destruct (ofTx tx ws) as [|[l n] own] eqn:Hof; [done|]. intros [= <-].
  assert ((l, n) ∈ ofTx tx ws) as [Htx Hw]%list_elem_of_filter by (rewrite Hof; left).
  by exists (l, n).
Qed.

Lemma honest_consistent addr from to :
  consistent (watched parseLog addr
    (sort_by logLe (filter (λ l, inRange addr from to l) (cv_logs v)))).
Proof.
  intros [l n] [l' n'] [[_ Hl]%list_elem_of_filter _]%elem_watched
    [[_ Hl']%list_elem_of_filter _]%elem_watched Htx. by destruct (co_tx v Hv l l').
Qed.

(** Every grouped event becomes a store job with the recorded coordinates. *)
Lemma toJobs_ok loc es :
  goodLocations loc → (∀ e, e ∈ es → is_Some (dget (ej_txHash e) loc)) →
  ∃ js, omap_out (toJob loc) es = Ok js ∧ length js = length es ∧
    (∀ e, e ∈ es → ∃ j, j ∈ js ∧ Store.txHash j = ej_txHash e
                       ∧ Store.blockNumber j = ej_blockNumber e) ∧
    (∀ j, j ∈ js → ∃ e bh ti, e ∈ es ∧ Store.txHash j = ej_txHash e
       ∧ Store.blockNumber j = ej_blockNumber e ∧ dget (ej_txHash e) loc = Some (bh, ti)
       ∧ Store.blockHash j = Some bh ∧ Store.transactionIndex j = Some ti).
Proof.
  intros Hloc. induction es as [|e es IH]; intros Hes; simpl.
  { exists []. split_and!; [done|done| |]; by intros ? ?%elem_of_nil. }
  destruct IH as (js & Hjs & Hlen & H1 & H2); [intros; apply Hes; by right|].
  destruct (Hes e) as [[bh ti] He]; [by left|].
  assert (∃ j, toJob loc e = Ok j ∧ Store.txHash j = ej_txHash e
    ∧ Store.blockNumber j = ej_blockNumber e ∧ Store.blockHash j = Some bh
    ∧ Store.transactionIndex j = Some ti) as (j & Hj & ? & ? & ? & ?).
  { unfold toJob. rewrite He. eexists. split_and!; done. }
  exists (j :: js). unfold obind at 1. rewrite Hj, Hjs. simpl. split_and!; [done|by rewrite Hlen| |].
  - intros e' [->|He']%elem_of_cons; [exists j; split_and!; [by left|done..]|].
    destruct (H1 e' He') as (j' & ? & ?). exists j'. split; [by right|done].
  - intros j' [->|Hj']%elem_of_cons; [exists e, bh, ti; split_and!; [by left|done..]|].
    destruct (H2 j' Hj') as (e' & bh' & ti' & ? & ?). exists e', bh', ti'. split; [by right|done].
Qed.

(** The preconditions under which a scan step makes progress: an open store with no pending
    file fault, whose last checkpoint is canonical and below the safe head. *)
Record Ready (opts : ScanOptions) (s : Store.StoreSt) : Prop := {
  rd_opts : positiveSafe (so_startBlock opts) && positiveSafe (so_confirmations opts)
            && positiveSafe (so_chunk opts) = true;
  rd_source : truthy (Store.sourceHold (Store.data s)) = false;
  rd_hub : truthy (Store.hubHold (Store.data s)) = false;
  rd_faults : Store.faults s = [];
  rd_chain : Store.Chain (Store.data s);
  rd_tip : Store.checkpoints (Store.data s) ≠ [];
  rd_canon : canonicalTip v (Store.data s);
  rd_cursor : 0 ≤ Store.cursor (Store.data s) < safeHead v opts;
  rd_fresh : freshIn (so_address opts) (Store.data s) }.

Definition rangeEnd (opts : ScanOptions) (d : Store.Data) : Z :=
  Z.min (Store.cursor d + so_chunk opts) (safeHead v opts).

Definition committed (opts : ScanOptions) (js : list (string * Store.Job)) (d : Store.Data)
    : Store.Data :=
  Store.committedRange {| Store.height := rangeEnd opts d; Store.hash := cv_chain v (rangeEnd opts d) |}
    js d.

(** The jobs the range adds to the dictionary. *)
Definition rangeJobs (opts : ScanOptions) (d : Store.Data) (js : list (string * Store.Job)) : Prop :=
  (∀ k j, dget k (Store.jobs d) = Some j → dget k js = Some j) ∧
  (∀ l, l ∈ cv_logs v → is_Some (watchedName parseLog (so_address opts) l) →
     Store.cursor d < blockNumber l ≤ rangeEnd opts d →
     ∃ j, dget (transactionHash l) js = Some j
          ∧ Store.blockHash j = Some (cv_chain v (blockNumber l))
          ∧ Store.blockNumber j = blockNumber l) ∧
  (∀ k j, dget k js = Some j → dget k (Store.jobs d) = None →
     ∃ l, l ∈ cv_logs v ∧ transactionHash l = k
          ∧ is_Some (watchedName parseLog (so_address opts) l)
          ∧ Store.cursor d < blockNumber l ≤ rangeEnd opts d).

Lemma bytes32_truthy h : isBytes32 h = true → truthy (Some h) = true.
Proof. by destruct h. Qed.

Definition rangeLogs (opts : ScanOptions) (d : Store.Data) : list Log :=
  filter (λ l, inRange (so_address opts) (Store.cursor d + 1) (rangeEnd opts d) l) (cv_logs v).

Lemma elem_rangeLogs opts d l n :
  l ∈ rangeLogs opts d ∧ watchedName parseLog (so_address opts) l = Some n ↔
  l ∈ cv_logs v ∧ watchedName parseLog (so_address opts) l = Some n
  ∧ Store.cursor d < blockNumber l ≤ rangeEnd opts d.
Proof.
  unfold rangeLogs. rewrite list_elem_of_filter. unfold inRange, watchedName.
  destruct (String.eqb (toLowerCase (address l)) _); simpl; [|naive_solver].
  rewrite Is_true_true, andb_true_iff, !Z.leb_le. intuition lia.
Qed.

(** The events grouped from a range, seen from the chain. *)
Lemma rangeEvents opts d :
  ∃ es, groupSourceEvents parseLog (rangeLogs opts d) (so_address opts) = Ok es ∧
    (∀ e, e ∈ es → ∃ l n, l ∈ rangeLogs opts d ∧ watchedName parseLog (so_address opts) l = Some n
       ∧ ej_txHash e = transactionHash l ∧ ej_blockNumber e = blockNumber l) ∧
    (∀ l n, l ∈ rangeLogs opts d → watchedName parseLog (so_address opts) l = Some n →
       ∃ e, e ∈ es ∧ ej_txHash e = transactionHash l).
Proof.
  eexists. split; [apply group_ok, honest_consistent|].
  set (ws := watched _ _ _). split.
  - intros e (tx & _ & Hj)%list_elem_of_omap.
    destruct (jobOf_event _ _ _ Hj) as ([l n] & [Hl Hn]%elem_watched & Htx & ? & ?).
    simpl in *. exists l, n. split_and!; [done|done|congruence|done].
  - intros l n Hl Hn. assert ((l, n) ∈ ws) as Hw by by apply elem_watched.
    destruct (jobOf (transactionHash l) ws) as [e|] eqn:Hj.
    + exists e. destruct (jobOf_event _ _ _ Hj) as (? & _ & _ & ? & _). split; [|done].
      apply list_elem_of_omap. exists (transactionHash l).
      split; [apply elem_txOrder; eauto|done].
    + apply jobOf_None in Hj. assert ((l, n) ∈ ofTx (transactionHash l) ws) as Hx
        by by apply list_elem_of_filter. rewrite Hj in Hx. by apply elem_of_nil in Hx.
Qed.

Lemma range_jobs_ok opts s loc :
  Ready opts s → goodLocations loc →
  (∀ l, l ∈ rangeLogs opts (Store.data s) → is_Some (dget (transactionHash l) loc)) →
  ∃ es jl js, groupSourceEvents parseLog (rangeLogs opts (Store.data s)) (so_address opts) = Ok es
    ∧ omap_out (toJob loc) es = Ok jl
    ∧ Store.addSourceJobs (Store.cursor (Store.data s) + 1) (rangeEnd opts (Store.data s)) now jl
        (Store.jobs (Store.data s)) = Ok js
    ∧ rangeJobs opts (Store.data s) js.
Proof.
  intros HR Hloc Hall. destruct (rangeEvents opts (Store.data s)) as (es & Hes & He & Hl).
  destruct (toJobs_ok loc es) as (jl & Hjl & _ & Hfwd & Hbwd); [done| |].
  { intros e Hin. destruct (He e Hin) as (l & n & ? & ? & -> & _). auto. }
  assert (∀ j, j ∈ jl → ∃ l n, l ∈ cv_logs v ∧ watchedName parseLog (so_address opts) l = Some n
    ∧ Store.cursor (Store.data s) < blockNumber l ≤ rangeEnd opts (Store.data s)
    ∧ Store.txHash j = transactionHash l ∧ Store.blockNumber j = blockNumber l
    ∧ Store.blockHash j = Some (cv_chain v (blockNumber l))
    ∧ ∃ ti, Store.transactionIndex j = Some ti ∧ safeNat ti = true) as Hj.
  { intros j Hin. destruct (Hbwd j Hin) as (e & bh & ti & Hein & Htx & Hb & Hg & Hbh & Hti).
    destruct (He e Hein) as (l & n & Hlr & Hn & Hx & Hy).
    destruct (proj1 (elem_rangeLogs opts _ l n) (conj Hlr Hn)) as (Hlc & _ & Hr).
    destruct (Hloc _ _ _ Hg) as (l' & Hl' & Htx' & -> & ->).
    destruct (co_tx v Hv l' l) as [Hb' _]; [done|done|congruence|].
    destruct (co_log v Hv l' Hl') as (_ & Hbl & Hs). rewrite Hb' in Hbl.
    exists l, n. split_and!; try done; try congruence; try lia. eauto. }
  destruct (addSourceJobs_ok (Store.cursor (Store.data s) + 1) (rangeEnd opts (Store.data s)) now jl
    (Store.jobs (Store.data s))) as [js Hjs].
  - intros j Hin. destruct (Hj j Hin) as (l & n & _ & _ & Hr & _ & Hb & Hh & ti & Hti & Hs).
    rewrite Hh, Hb. split_and!; [apply bytes32_truthy, (co_hash v Hv)|lia|lia|].
    exists ti. split; [done|]. by apply andb_true_iff in Hs as [? _].
  - intros j ex Hin Hd. destruct (Hj j Hin) as (l & n & Hlc & Hn & Hr & Htx & Hb & Hh & _).
    rewrite Hh, Hb. rewrite Htx in Hd. eapply (rd_fresh _ _ HR); [done..| |lia]. by eexists.
  - intros j j' Hin Hin' Heq.
    destruct (Hj j Hin) as (l & n & Hlc & _ & _ & Htx & Hb & Hh & _).
    destruct (Hj j' Hin') as (l' & n' & Hlc' & _ & _ & Htx' & Hb' & Hh' & _).
    destruct (co_tx v Hv l l') as [Hll _]; [done|done|congruence|]. split; congruence.
  - exists es, jl, js. split_and!; [done..|].
    destruct (Store.addSourceJobs_get _ _ _ _ _ _ Hjs) as (Hold & Hsrc & _ & Hadd).
    split_and!; [done| |].
    + intros l Hlc [n Hn] Hr.
      destruct (Hl l n) as (e & Hein & Htx); [|done|]; [by apply (elem_rangeLogs opts _ l n)|].
      destruct (Hfwd e Hein) as (j & Hin & Hjtx & _).
      destruct (Hadd j Hin) as (j' & Hd & Hbh & Hbn).
      destruct (Hj j Hin) as (l' & n' & Hlc' & _ & _ & Htx' & Hb' & Hh' & _).
      destruct (co_tx v Hv l' l) as [Hll _]; [done|done|congruence|].
      exists j'. rewrite <- Hll. split_and!; [congruence|congruence|congruence].
    + intros k j Hd Hnone. destruct (Hsrc k j Hd Hnone) as (_ & _ & job & Hin & <-).
      destruct (Hj job Hin) as (l & n & ? & ? & ? & ? & _). exists l.
      split_and!; [done|done|by eexists|lia|lia].
Qed.

(** Reads of the view leave the state unchanged. *)
Lemma recheck_served opts to c s :
  last (Store.checkpoints (Store.data s)) = Some c → Store.hash c = cv_chain v (Store.height c) →
  0 ≤ Store.height c ≤ cv_head v → 0 ≤ to ≤ safeHead v opts →
  0 ≤ so_confirmations opts →
  recheckRange reader opts to (cv_chain v to) s = (Ok tt, s).
Proof.
  intros Hc Hh Hch Hto Hconf. unfold recheckRange, bind, gets. simpl. rewrite Hc.
  unfold safeHead in Hto. pose proof (co_final v Hv). pose proof (co_head v Hv).
  pose proof (valid_served to (Some to) ltac:(lia) eq_refl) as E1.
  pose proof (valid_served (Store.height c) (Some (Store.height c)) ltac:(lia) eq_refl) as E2.
  pose proof (valid_served (cv_final v) None ltac:(lia) I) as E3.
  change (servedBlock v (AtHeight (cv_final v))) with (servedBlock v Finalized) in E3.
  simpl. rewrite E1, E2, E3, Hh, !String.eqb_refl. simpl.
  unfold require. rewrite (proj2 (isSafeInteger_spec _)) by lia.
  rewrite !(proj2 (Z.leb_le _ _)) by lia. done.
Qed.

Lemma commit_clean d s : Store.faults s = [] →
  Store.commit d s = (Ok tt, Store.mkStore d (Some d) []).
Proof. intros Hf. unfold Store.commit. by rewrite Hf. Qed.

Lemma assert_open s :
  truthy (Store.sourceHold (Store.data s)) = false → truthy (Store.hubHold (Store.data s)) = false →
  Store.assertSourceReady s = (Ok tt, s) ∧ Store.assertHubReady s = (Ok tt, s).
Proof.
  intros H1 H2. unfold Store.assertSourceReady, Store.assertHubReady, bind, gets. by rewrite H1, H2.
Qed.

(** The scan of the next range on a ready store commits it. *)
Lemma scanRange_progress opts s rew :
  Ready opts s →
  ∃ js n, scanRange reader parseLog opts (safeHead v opts) rew s
    = (Ok {| scanned := true; sr_jobs := n; sr_rewound := rew |},
       Store.mkStore (committed opts js (Store.data s)) (Some (committed opts js (Store.data s))) [])
    ∧ rangeJobs opts (Store.data s) js ∧ Store.Chain (committed opts js (Store.data s)).
Proof.
  intros HR. set (d := Store.data s).
  destruct (last (Store.checkpoints d)) as [c|] eqn:Hc.
  2:{ apply last_None in Hc. by destruct (rd_tip _ _ HR). }
  pose proof (Store.chain_cursor _ (rd_chain _ _ HR) c Hc) as Hcur.
  pose proof (rd_cursor _ _ HR) as Hr. fold d in Hr, Hcur.
  pose proof (rd_opts _ _ HR) as Ho. unfold positiveSafe in Ho.
  apply andb_true_iff in Ho as [[_ [_ Hcf%Z.leb_le]%andb_true_iff]%andb_true_iff
    [_ Hck%Z.leb_le]%andb_true_iff].
  assert (0 ≤ rangeEnd opts d ≤ cv_head v ∧ rangeEnd opts d ≤ safeHead v opts
          ∧ Store.cursor d + 1 ≤ rangeEnd opts d) as (He1 & He2 & He3).
  { unfold rangeEnd, safeHead in *. pose proof (co_final v Hv). lia. }
  destruct (checkLogs_served opts (Store.cursor d + 1) (rangeEnd opts d) (rangeLogs opts d) [] [] s)
    as (loc & Hck' & Hgood & _ & Hall); [lia|lia| |done|done|].
  { intros l [Hl ?]%list_elem_of_filter. split; [done|]. by apply Is_true_true. }
  destruct (range_jobs_ok opts s loc HR Hgood Hall) as (es & jl & js & Hes & Hjl & Hjs & HJ).
  exists js, (Z.of_nat (length jl)). split; [|split; [done|]].
  2:{ eapply Store.Chain_range; [apply HR|done|exact Hjs]. }
  destruct (assert_open s (rd_source _ _ HR) (rd_hub _ _ HR)) as [Has Hah].
  assert (0 ≤ Store.height c ≤ cv_head v) as Hch.
  { unfold safeHead in Hr. pose proof (co_final v Hv). lia. }
  unfold scanRange. run_pure. change (lens_get s) with s. fold d. rewrite (proj2 (Z.ltb_ge (safeHead v opts) (Store.cursor d + 1))) by lia.
  replace (Z.min (Store.cursor d + 1 + so_chunk opts - 1) (safeHead v opts)) with (rangeEnd opts d)
    by (unfold rangeEnd; f_equal; lia).
  run_pure. run_step (checkBlock_served (rangeEnd opts d) "SOURCE_RANGE_END_UNAVAILABLE" s He1).
  run_pure. run_step Hck'.
  run_step (recheck_served opts (rangeEnd opts d) c s Hc (rd_canon _ _ HR c Hc)
    Hch (conj (proj1 He1) He2) ltac:(lia)).
  run_step (f_equal (λ o, (o, s)) Hes). run_step (f_equal (λ o, (o, s)) Hjl).
  run_step (zoom_run (H := Lens_self _) _ _ _ _ Hah). run_pure.
  assert (Store.commitSourceRange (Store.cursor d + 1)
    {| Store.height := rangeEnd opts d; Store.hash := cv_chain v (rangeEnd opts d) |} jl now s
    = (Ok tt, Store.mkStore (committed opts js d) (Some (committed opts js d)) [])) as Hcm.
  { unfold Store.commitSourceRange. run_step Has. run_step Hah. run_pure. fold d.
    rewrite Z.eqb_refl, (proj2 (Z.leb_le _ _)) by (simpl; lia). run_pure.
    run_step (f_equal (λ o, (o, s)) Hjs). by apply commit_clean, HR. }
  by run_step (zoom_run (H := Lens_self _) _ _ _ _ Hcm).
Qed.

(** Up to the tip check the step of an anchored store only reads. *)
Lemma scanStep_enter beforeRewind opts s :
  positiveSafe (so_startBlock opts) && positiveSafe (so_confirmations opts)
    && positiveSafe (so_chunk opts) = true →
  truthy (Store.sourceHold (Store.data s)) = false → truthy (Store.hubHold (Store.data s)) = false →
  Store.checkpoints (Store.data s) ≠ [] →
  scanSourceStep reader parseLog beforeRewind opts s =
  bind (reconcileTip reader beforeRewind (safeHead v opts))
    (scanRange reader parseLog opts (safeHead v opts)) s.
Proof.
  intros Ho Hs Hh Hne. pose proof (co_final v Hv). pose proof (co_head v Hv).
  destruct (assert_open s Hs Hh) as [Has Hah].
  assert (validBlock (servedBlock v Finalized) None = Some (cv_final v, cv_chain v (cv_final v))) as Hf
    by (by apply (valid_served (cv_final v) None); [lia|]).
  unfold scanSourceStep. run_step (zoom_run (H := Lens_self _) _ _ _ _ Has).
  run_step (zoom_run (H := Lens_self _) _ _ _ _ Hah).
  run_step (require_true _ (ESourceSafety "INVALID_SOURCE_SCAN_SETTINGS") s Ho).
  run_pure. run_pure. rewrite Hf. change (Z.min _ _) with (safeHead v opts).
  rewrite (proj2 (isSafeInteger_spec _)), (proj2 (Z.leb_le _ _)) by lia. run_pure.
  assert (anchorSource reader opts (safeHead v opts) s = (Ok true, s)) as Hanc.
  { unfold anchorSource. run_pure. change (lens_get s) with s. by rewrite bool_decide_eq_false_2. }
  by run_step Hanc.
Qed.

Lemma scanStep_progress beforeRewind opts s :
  Ready opts s →
  ∃ js n, scanSourceStep reader parseLog beforeRewind opts s
    = (Ok {| scanned := true; sr_jobs := n; sr_rewound := 0 |},
       Store.mkStore (committed opts js (Store.data s)) (Some (committed opts js (Store.data s))) [])
    ∧ rangeJobs opts (Store.data s) js ∧ Store.Chain (committed opts js (Store.data s)).
Proof.
  intros HR. destruct (scanRange_progress opts s 0 HR) as (js & n & Hs & HJ).
  exists js, n. split; [|done].
  destruct (last (Store.checkpoints (Store.data s))) as [c|] eqn:Hc.
  2:{ apply last_None in Hc. by destruct (rd_tip _ _ HR). }
  pose proof (Store.chain_cursor _ (rd_chain _ _ HR) c Hc) as Hcur.
  pose proof (rd_cursor _ _ HR) as Hr. pose proof (co_final v Hv). pose proof (co_head v Hv).
  assert (0 ≤ Store.height c ≤ cv_head v) as Hch by (unfold safeHead in Hr; lia).
  rewrite scanStep_enter by apply HR.
  assert (reconcileTip reader beforeRewind (safeHead v opts) s = (Ok 0, s)) as Hrec.
  { unfold reconcileTip. run_pure. change (lens_get s) with s. rewrite Hc. run_pure.
    change (lens_get s) with s. rewrite Hcur, Z.eqb_refl. run_pure. run_pure.
    run_step (checkBlock_served (Store.height c) "SOURCE_CHECKPOINT_UNAVAILABLE" s Hch).
    by rewrite (rd_canon _ _ HR c Hc), String.eqb_refl. }
  run_step Hrec. exact Hs.
Qed.

Lemma committed_last opts js d :
  last (Store.checkpoints (committed opts js d))
  = Some {| Store.height := rangeEnd opts d; Store.hash := cv_chain v (rangeEnd opts d) |}.
Proof.
  unfold committed. by rewrite Store.checkpoints_committed, Store.trim_last, last_snoc.
Qed.

Lemma Ready_next opts s js :
  Ready opts s → rangeJobs opts (Store.data s) js → Store.Chain (committed opts js (Store.data s)) →
  rangeEnd opts (Store.data s) < safeHead v opts →
  Ready opts (Store.mkStore (committed opts js (Store.data s))
                (Some (committed opts js (Store.data s))) []).
Proof.
  intros HR (Hold & Hin & Hnew) HC Hlt. pose proof (rd_cursor _ _ HR) as Hr.
  pose proof (rd_opts _ _ HR) as Ho. unfold positiveSafe in Ho.
  apply andb_true_iff in Ho as [_ [_ Hck%Z.leb_le]%andb_true_iff].
  split; simpl; try apply HR; try done.
  - intros Hn. pose proof (committed_last opts js (Store.data s)) as Hl. by rewrite Hn in Hl.
  - intros c. rewrite committed_last. by intros [= <-].
  - unfold rangeEnd in *. lia.
  - intros l j Hl Hj Hw Hgt. simpl in Hgt. destruct (dget (transactionHash l) (Store.jobs (Store.data s)))
      as [j0|] eqn:Hd.
    + pose proof (Hold _ _ Hd) as Hj'. simpl in Hj. rewrite Hj in Hj'. injection Hj' as <-.
      apply (rd_fresh _ _ HR); [done..|]. unfold rangeEnd in *. lia.
    + destruct (Hnew _ _ Hj Hd) as (l' & Hl' & Htx & _ & Hb).
      destruct (co_tx v Hv l l') as [? _]; [done|done|congruence|]. lia.
Qed.

Fixpoint scanMany (beforeRewind : M Store.StoreSt unit) (opts : ScanOptions) (n : nat)
    : M Store.StoreSt unit :=
  match n with
  | O => ret tt
  | S n => scanSourceStep reader parseLog beforeRewind opts ;;; scanMany beforeRewind opts n
  end.

(** Every watched log above the block [from] up to the block [to] has a job at its canonical coordinates. *)
Definition delivered (addr : string) (from to : Z) (js : list (string * Store.Job)) : Prop :=
  ∀ l, l ∈ cv_logs v → is_Some (watchedName parseLog addr l) → from < blockNumber l ≤ to →
    ∃ j, dget (transactionHash l) js = Some j
         ∧ Store.blockHash j = Some (cv_chain v (blockNumber l))
         ∧ Store.blockNumber j = blockNumber l.

Lemma scanMany_reaches beforeRewind opts s :
  Ready opts s →
  ∃ n s', Z.of_nat n ≤ safeHead v opts - Store.cursor (Store.data s)
    ∧ scanMany beforeRewind opts n s = (Ok tt, s')
    ∧ Store.disk s' = Some (Store.data s') ∧ Store.cursor (Store.data s') = safeHead v opts
    ∧ canonicalTip v (Store.data s')
    ∧ (∀ k j, dget k (Store.jobs (Store.data s)) = Some j →
         dget k (Store.jobs (Store.data s')) = Some j)
    ∧ delivered (so_address opts) (Store.cursor (Store.data s)) (safeHead v opts)
        (Store.jobs (Store.data s')).
Proof.
  remember (Z.to_nat (safeHead v opts - Store.cursor (Store.data s))) as m eqn:Hm.
  revert s Hm. induction m as [m IH] using lt_wf_ind. intros s -> HR.
  destruct (scanStep_progress beforeRewind opts s HR) as (js & k & Hstep & HJ & HC).
  pose proof (rd_cursor _ _ HR) as Hr. pose proof (rd_opts _ _ HR) as Ho. unfold positiveSafe in Ho.
  apply andb_true_iff in Ho as [_ [_ Hck%Z.leb_le]%andb_true_iff].
  destruct HJ as (Hold & Hin & Hnew).
  destruct (decide (rangeEnd opts (Store.data s) < safeHead v opts)) as [Hlt|Hge].
  - pose proof (Ready_next opts s js HR (conj Hold (conj Hin Hnew)) HC Hlt) as HR'.
    match type of HR' with Ready _ ?t =>
      destruct (IH (Z.to_nat (safeHead v opts - Store.cursor (Store.data t)))) with (s := t)
        as (n & s' & Hn & Hrun & Hd & Hcur & Hcan & Hkeep & Hdel); [|done|done|] end.
    { simpl. unfold rangeEnd in *. lia. }
    simpl in *. exists (S n), s'. split_and!; try done.
    + unfold rangeEnd in *. lia.
    + simpl. by run_step Hstep.
    + auto.
    + intros l Hl Hw Hb. destruct (decide (blockNumber l ≤ rangeEnd opts (Store.data s))).
      * destruct (Hin l Hl Hw) as (j & Hj & ?); [lia|]. exists j. auto.
      * apply Hdel; [done|done|lia].
  - eexists 1%nat, _. split_and!; [lia|simpl; by run_step Hstep|done| | |done|].
    + simpl. unfold rangeEnd in *. lia.
    + intros c. simpl. rewrite committed_last. by intros [= <-].
    + intros l Hl Hw Hb. apply Hin; [done|done|lia].
Qed.

(** A checkpoint a rewind may return to: still on the chain and final. *)
Definition ancestorOk (sh : Z) (c : Store.SourceCheckpoint) : bool :=
  (0 <=? Store.height c) && (Store.height c <=? sh)
  && String.eqb (Store.hash c) (cv_chain v (Store.height c)).

Lemma findAncestor_served sh cs s :
  sh ≤ cv_head v → findAncestor reader sh cs s = (Ok (head (filter (ancestorOk sh) cs)), s).
Proof.
  intros Hsh. induction cs as [|c cs IH]; [done|]. cbn [findAncestor]. run_pure.
  rewrite filter_cons. destruct (ancestorOk sh c) eqn:Hok; simpl.
  - unfold ancestorOk in Hok. apply andb_true_iff in Hok as [[H0%Z.leb_le H1]%andb_true_iff H2].
    apply Z.leb_le in H1 as H1'. rewrite valid_served by (try done; lia).
    rewrite String.eqb_sym, H2, H1. done.
  - destruct (validBlock (servedBlock v (AtHeight (Store.height c))) (Some (Store.height c)))
      as [[n bh]|] eqn:Hvb; [|done].
    destruct (valid_served_inv _ _ _ _ Hvb) as (-> & Hr & -> & _).
    unfold ancestorOk in Hok. rewrite (proj2 (Z.leb_le _ _)) in Hok by lia. simpl in Hok.
    rewrite String.eqb_sym, andb_comm, Hok. done.
Qed.

(** The store is open and its last checkpoint [c] is off the chain the RPC serves. *)
Record Reorged (opts : ScanOptions) (s : Store.StoreSt) (c : Store.SourceCheckpoint) : Prop := {
  ro_opts : positiveSafe (so_startBlock opts) && positiveSafe (so_confirmations opts)
            && positiveSafe (so_chunk opts) = true;
  ro_source : truthy (Store.sourceHold (Store.data s)) = false;
  ro_hub : truthy (Store.hubHold (Store.data s)) = false;
  ro_faults : Store.faults s = [];
  ro_chain : Store.Chain (Store.data s);
  ro_last : last (Store.checkpoints (Store.data s)) = Some c;
  ro_height : 0 ≤ Store.height c ≤ cv_head v;
  ro_off : Store.hash c ≠ cv_chain v (Store.height c) }.

Definition held (reason : string) (d : Store.Data) : Store.StoreSt :=
  Store.mkStore (Store.set_sourceHold (Some reason) d)
    (Some (Store.set_sourceHold (Some reason) d)) [].

(** The tip check of a reorganised store hands the highest sound checkpoint to the rewind. *)
Lemma reconcile_off opts s c beforeRewind :
  Reorged opts s c → beforeRewind s = (Ok tt, s) →
  reconcileTip reader beforeRewind (safeHead v opts) s =
  match last (filter (ancestorOk (safeHead v opts)) (Store.checkpoints (Store.data s))) with
  | None => Store.holdSource "SOURCE_REORG_BEYOND_VERIFIED_ANCHOR" s
  | Some a => Store.rewindUnsignedSource a now s
  end.
Proof.
  intros HR Hbr. pose proof (ro_last _ _ _ HR) as Hl.
  pose proof (Store.chain_cursor _ (ro_chain _ _ _ HR) c Hl) as Hcur.
  unfold reconcileTip. run_pure. change (lens_get s) with s. rewrite Hl. run_pure.
  change (lens_get s) with s. rewrite Hcur, Z.eqb_refl. run_pure. run_pure.
  run_step (checkBlock_served (Store.height c) "SOURCE_CHECKPOINT_UNAVAILABLE" s (ro_height _ _ _ HR)).
  destruct (String.eqb_spec (cv_chain v (Store.height c)) (Store.hash c)) as [Heq|_].
  { by destruct (ro_off _ _ _ HR). }
  run_step Hbr. assert (safeHead v opts ≤ cv_head v) as Hsh by (unfold safeHead; pose proof (co_final v Hv); lia).
  run_step (findAncestor_served (safeHead v opts) (reverse (Store.checkpoints (Store.data s))) s Hsh).
  rewrite filter_reverse, head_reverse. destruct (last (filter _ _)) as [a|].
  - run_pure. unfold zoom. simpl. by destruct (Store.rewindUnsignedSource a now s).
  - unfold zoom. simpl. by destruct (Store.holdSource _ s).
Qed.

Lemma hold_run {A} reason s : Store.faults s = [] →
  Store.holdSource (A := A) reason s = (Throw (ESourceSafety reason), held reason (Store.data s)).
Proof.
  intros Hf. unfold Store.holdSource. run_pure.
  by run_step (commit_clean (Store.set_sourceHold (Some reason) (Store.data s)) s Hf).
Qed.

Lemma rewind_run opts s c a :
  Reorged opts s c → a ∈ Store.checkpoints (Store.data s) →
  Store.rewindUnsignedSource a now s =
  if existsb Store.relayTouched (Store.affectedJobs a (Store.data s))
  then (Throw (ESourceSafety "SOURCE_REORG_TOUCHES_RELAYED_JOB"),
        held "SOURCE_REORG_TOUCHES_RELAYED_JOB" (Store.data s))
  else (Ok (Z.of_nat (length (Store.affectedJobs a (Store.data s)))),
        Store.mkStore (Store.rewound a now (Store.data s)) (Some (Store.rewound a now (Store.data s))) []).
Proof.
  intros HR Ha. destruct (assert_open s (ro_source _ _ _ HR) (ro_hub _ _ _ HR)) as [Has _].
  assert (existsb (λ c, (Store.height c =? Store.height a)
    && String.eqb (Store.hash c) (Store.hash a)) (Store.checkpoints (Store.data s)) = true) as Hex.
  { apply existsb_exists. exists a. split; [by apply list_elem_of_In|].
    by rewrite Z.eqb_refl, String.eqb_refl. }
  unfold Store.rewindUnsignedSource. run_step Has. run_pure. rewrite Hex. run_pure.
  case_match; [by apply hold_run, HR|].
  etransitivity; [eapply bind_ok, commit_clean, HR|done].
Qed.
End honest.

(** When the last checkpoint has been reorganised away, the step rewinds to the
    highest checkpoint that is still on the chain and final, unless a job above it
    carries a signature or outcome, in which case, or when no checkpoint survives, the
    store is durably held and the step throws; after a rewind the tip is canonical and
    the scan of the next range runs from there. *)
Theorem scan_reorg (v : ChainView) (now : Z) (parseLog : list string → string → option string)
    (beforeRewind : M Store.StoreSt unit) (opts : ScanOptions) (s : Store.StoreSt)
    (c : Store.SourceCheckpoint) :
  coherent v → Reorged v opts s c → beforeRewind s = (Ok tt, s) →
  let d := Store.data s in
  let step := scanSourceStep (honestReader v now) parseLog beforeRewind opts s in
  match last (filter (ancestorOk v (safeHead v opts)) (Store.checkpoints d)) with
  | None => step = (Throw (ESourceSafety "SOURCE_REORG_BEYOND_VERIFIED_ANCHOR"),
                    held "SOURCE_REORG_BEYOND_VERIFIED_ANCHOR" d)
  | Some a =>
      if existsb Store.relayTouched (Store.affectedJobs a d)
      then step = (Throw (ESourceSafety "SOURCE_REORG_TOUCHES_RELAYED_JOB"),
                   held "SOURCE_REORG_TOUCHES_RELAYED_JOB" d)
      else
        canonicalTip v (Store.rewound a now d) ∧
        step = scanRange (honestReader v now) parseLog opts (safeHead v opts)
                 (Z.of_nat (length (Store.affectedJobs a d)))
                 (Store.mkStore (Store.rewound a now d) (Some (Store.rewound a now d)) [])
  end.
Proof.
  intros Hv HR Hbr d step. pose proof (ro_last _ _ _ _ HR) as Hl. fold d in Hl.
  unfold step. clear step.
  rewrite scanStep_enter; [|done|apply HR|apply HR|apply HR|by intros Hn; unfold d in Hl; rewrite Hn in Hl].
  destruct (assert_open s (ro_source _ _ _ _ HR) (ro_hub _ _ _ _ HR)) as [Has _].
  pose proof (reconcile_off v now Hv opts s c beforeRewind HR Hbr) as Hrec. fold d in Hrec.
  destruct (last (filter _ (Store.checkpoints d))) as [a|] eqn:Ha.
  2:{ apply bind_throw. rewrite Hrec. by apply hold_run, (ro_faults _ _ _ _ HR). }
  assert (a ∈ filter (ancestorOk v (safeHead v opts)) (Store.checkpoints d)) as [Hok Hin]%list_elem_of_filter.
  { rewrite last_lookup in Ha. by eapply list_elem_of_lookup_2. }
  pose proof (rewind_run v now opts s c a HR Hin) as Hrw. fold d in Hrw.
  destruct (existsb Store.relayTouched _) eqn:Hu.
  - apply bind_throw. by rewrite Hrec, Hrw.
  - split; [|erewrite bind_ok; [done|by rewrite Hrec]].
    intros x. rewrite Store.checkpoints_rewound, Store.filter_below_last by (done || apply HR).
    intros [= <-]. unfold ancestorOk in Hok. apply Is_true_true in Hok.
    by apply andb_true_iff in Hok as [_ ?%String.eqb_eq].
Qed.

(** C39. On a coherent chain, from an open store whose tip is canonical, one scan
    step advances the cursor by exactly min(chunk, remaining), and at most safeHead -
    cursor steps bring it to the safe head, losing no stored job and leaving every
    watched log of the range as a durable job at its canonical block and hash. *)
Theorem scan_catches_up (v : ChainView) (now : Z) (parseLog : list string → string → option string)
    (beforeRewind : M Store.StoreSt unit) (opts : ScanOptions) (s : Store.StoreSt) :
  coherent v → Ready v parseLog opts s →
  (∃ r s', scanSourceStep (honestReader v now) parseLog beforeRewind opts s = (Ok r, s')
     ∧ scanned r = true ∧ sr_rewound r = 0
     ∧ Store.cursor (Store.data s')
       = Z.min (Store.cursor (Store.data s) + so_chunk opts) (safeHead v opts)) ∧
  ∃ n s', Z.of_nat n ≤ safeHead v opts - Store.cursor (Store.data s)
    ∧ scanMany v now parseLog beforeRewind opts n s = (Ok tt, s')
    ∧ Store.disk s' = Some (Store.data s') ∧ Store.cursor (Store.data s') = safeHead v opts
    ∧ canonicalTip v (Store.data s')
    ∧ (∀ k j, dget k (Store.jobs (Store.data s)) = Some j →
         dget k (Store.jobs (Store.data s')) = Some j)
    ∧ delivered v parseLog (so_address opts) (Store.cursor (Store.data s)) (safeHead v opts)
        (Store.jobs (Store.data s')).
Proof.
  intros Hv HR. split; [|by apply scanMany_reaches].
  destruct (scanStep_progress v now Hv parseLog beforeRewind opts s HR) as (js & n & Hs & _).
  rewrite Hs. eexists _, _. done.
Qed.

(** ** Concrete runs *)

(** A chain of which block 12 holds two watched logs of one transaction and block 14 a third. *)
Definition exHash (c : string) : string :=
  "0x" +:+ c +:+ "00000000000000000000000000000000000000000000000000000000000000a".
Definition exChain (n : Z) : string := if n <=? 9 then exHash "1" else if n <=? 12 then exHash "2" else exHash "3".
Definition exLog (tx : string) (n i : Z) : Log := {|
  address := "0xSource"; topics := ["0xt"]; logData := "0x"; transactionHash := tx;
  blockNumber := n; index := i; blockHash := exChain n; transactionIndex := 0; removed := false |}.
Definition exView : ChainView := {| cv_chain := exChain; cv_head := 40; cv_final := 18;
  cv_logs := [exLog "0xt2" 14 0; exLog "0xt1" 12 5; exLog "0xt1" 12 4] |}.
Definition exParse (_ : list string) (_ : string) : option string := Some "MarkIssued".
Definition exOpts : ScanOptions := {|
  so_address := "0xsource"; so_startBlock := 10; so_confirmations := 6; so_chunk := 4 |}.
Definition exStart (c : string) : Store.StoreSt := Store.runOps
  [ Store.OBindScope Store.exScope; Store.OInitializeHubSigner 0;
    Store.OInitializeSource {| Store.height := 9; Store.hash := exHash c |} ]
  {| Store.data := Store.initialData; Store.disk := None; Store.faults := [] |}.

Lemma exView_coherent : coherent exView.
Proof.
  split; [|vm_compute; split; discriminate|vm_compute; discriminate| |].
  - intros n. simpl. unfold exChain. by repeat case_match.
  - intros l Hl. in_cases Hl; done.
  - intros l l' Hl Hl' Htx. in_cases Hl; in_cases Hl'; done.
Qed.

Lemma exStart_Chain c : Store.Chain (Store.data (exStart c)).
Proof.
  split; simpl.
  - lia.
  - repeat constructor.
  - by intros x [= <-].
  - done.
Qed.

Lemma exStart_Ready : Ready exView exParse exOpts (exStart "1").
Proof.
  split; try done.
  - apply exStart_Chain.
  - by intros x [= <-].
Qed.

Lemma exStart_Reorged : Reorged exView exOpts (exStart "4") {| Store.height := 9; Store.hash := exHash "4" |}.
Proof.
  split; try done. apply exStart_Chain.
Qed.

Lemma scan_catches_up_witness :
  ∃ n s', Z.of_nat n ≤ safeHead exView exOpts - Store.cursor (Store.data (exStart "1"))
    ∧ scanMany exView 0 exParse (ret tt) exOpts n (exStart "1") = (Ok tt, s')
    ∧ Store.disk s' = Some (Store.data s') ∧ Store.cursor (Store.data s') = safeHead exView exOpts
    ∧ canonicalTip exView (Store.data s')
    ∧ (∀ k j, dget k (Store.jobs (Store.data (exStart "1"))) = Some j →
         dget k (Store.jobs (Store.data s')) = Some j)
    ∧ delivered exView exParse "0xsource" (Store.cursor (Store.data (exStart "1")))
        (safeHead exView exOpts) (Store.jobs (Store.data s')).
Proof.
  exact (proj2 (scan_catches_up exView 0 exParse (ret tt) exOpts (exStart "1")
    exView_coherent exStart_Ready)).
Defined.

Lemma scan_reorg_witness :
  scanSourceStep (honestReader exView 0) exParse (ret tt) exOpts (exStart "4")
  = (Throw (ESourceSafety "SOURCE_REORG_BEYOND_VERIFIED_ANCHOR"),
     held "SOURCE_REORG_BEYOND_VERIFIED_ANCHOR" (Store.data (exStart "4"))).
Proof.
  exact (scan_reorg exView 0 exParse (ret tt) exOpts (exStart "4") _ exView_coherent
    exStart_Reorged eq_refl).
Defined.

Lemma groupSourceEvents_correct_witness :
  groupSourceEvents exParse (cv_logs exView) "0xSOURCE"
  = Ok [ {| ej_txHash := "0xt1"; ej_blockNumber := 12; ej_action := 0;
            ej_eventName := "MarkIssued"; ej_logCount := 2 |};
         {| ej_txHash := "0xt2"; ej_blockNumber := 14; ej_action := 0;
            ej_eventName := "MarkIssued"; ej_logCount := 1 |} ].
Proof.
  refine (eq_trans (proj1 (groupSourceEvents_correct exParse (cv_logs exView) "0xSOURCE") _) eq_refl).
  vm_compute. intros w w' Hw Hw' Htx. in_cases Hw; in_cases Hw'; done.
Defined.
End SourceScan.
