(* ===== verification/Relay.v ===== *)
(** The relay sender of [src/worker/relay.ts]: one unresolved signer nonce at a time,
    broadcast only after a durable reservation, released only on a re-observed receipt; and
    the EVM transport that gives it receipts and query observations. *)

From Stdlib Require Import ZArith Lia String.
From stdpp Require Import base decidable option list strings.
From S2P Require Import Prelude JS Store SourceScan.
Local Open Scope string_scope.
Local Open Scope list_scope.
Local Open Scope Z_scope.

Module Relay.
Import Store.

Inductive QueryStatus := unprocessed | pendingQuery | confirmed.
#[export] Instance QueryStatus_eq_dec : EqDecision QueryStatus.
Proof. solve_decision. Defined.

Record QueryObservation := {
  qo_status : QueryStatus; qo_blockNumber : Z; qo_blockHash : string;
  qo_confirmations : Z; qo_observedAt : Z }.

Inductive ReceiptObs := RPending | RFinal (rc : Receipt).
#[export] Instance ReceiptObs_eq_dec : EqDecision ReceiptObs.
Proof. solve_decision. Defined.

(** What a contract view returns at run time: a boolean, or some other value of the given
    truthiness. *)
Inductive Dyn := DBool (b : bool) | DOther (b : bool).
Definition dynTruthy (v : Dyn) : bool := match v with DBool b => b | DOther b => b end.

Record Preparation := { pr_queryId : string; pr_data : string; pr_gasLimit : Z }.

Record RelayTransport (W : Type) := {
  processed : string → option Z → M W Dyn;
  observeProcessed : string → option QueryObservation → M W QueryObservation;
  prepare : string → string → string → Z → M W RelayEnvelope;
  receipt : RelayEnvelope → M W ReceiptObs;
  broadcast : RelayEnvelope → M W unit }.
Arguments processed {W} _ _ _.
Arguments observeProcessed {W} _ _ _.
Arguments prepare {W} _ _ _ _ _.
Arguments receipt {W} _ _.
Arguments broadcast {W} _ _.

(** * The sender *)

(** What the sender did and saw, in order: an instrumentation of the model.  A send records
    the envelope the state file held at that moment. *)
Inductive Event :=
  | Sent (r : RelayEnvelope) (onDisk : option RelayEnvelope)
  | Saw (r : RelayEnvelope) (o : ReceiptObs)
  | Queried (q : string) (block : Z) (v : Dyn).

(** The worker process around the sender: the store, the sender's [active] flag, the abort
    signal, the instrumentation and whatever else there is. *)
Record World (E : Type) := mkWorld {
  wst : StoreSt; active : bool; aborted : bool; events : list Event; env : E }.
Arguments mkWorld {E} _ _ _ _ _.
Arguments wst {E} _.
Arguments active {E} _.
Arguments aborted {E} _.
Arguments events {E} _.
Arguments env {E} _.

#[export] Instance Lens_World E : Lens (World E) StoreSt.
Proof.
  by refine {| lens_get := wst;
     lens_set := λ s w, mkWorld s (active w) (aborted w) (events w) (env w) |}; intros; destruct_and?;
     try destruct s.
Defined.

Section sender.
Context {E : Type}.
Local Abbreviation W := (World E).
Context (transport : RelayTransport W) (guardSource : string → M W unit) (guardHub : M W unit).
Context (dateNow : M W Z).

Definition setActive (b : bool) : M W unit :=
  modify (λ w, mkWorld (wst w) b (aborted w) (events w) (env w)).
Definition record (e : Event) : M W unit :=
  modify (λ w, mkWorld (wst w) (active w) (aborted w) (events w ++ [e]) (env w)).

Definition throwIfStopped : M W unit :=
  let! stopped := gets aborted in if stopped then throw EWorkerStopped else ret tt.

Definition readReceipt (r : RelayEnvelope) : M W ReceiptObs :=
  let! o := receipt transport r in record (Saw r o) ;;; ret o.

Definition sendRaw (r : RelayEnvelope) : M W unit :=
  let! w := getS in
  record (Sent r (diskRelay (wst w))) ;;; broadcast transport r.

Definition readProcessed (q : string) (block : Z) : M W Dyn :=
  let! v := processed transport q (Some block) in record (Queried q block v) ;;; ret v.

(** Line 34 to 52: [None] when the step returns early. *)
Definition obtain (sourceTxHash : string) (preparation : option Preparation)
    : M W (option RelayEnvelope) :=
  match preparation with
  | None => throw (EError "RELAY_PREPARATION_REQUIRED")
  | Some p =>
      guardHub ;;; throwIfStopped ;;; zoom assertHubReady ;;;
      let! query := observeProcessed transport (pr_queryId p) None in
      match qo_status query with
      | pendingQuery => ret None
      | confirmed =>
          guardSource sourceTxHash ;;;
          let! final := observeProcessed transport (pr_queryId p) (Some query) in
          if negb (bool_decide (qo_status final = confirmed)
                   && (qo_blockNumber final =? qo_blockNumber query)
                   && String.eqb (qo_blockHash final) (qo_blockHash query)) then ret None
          else
            throwIfStopped ;;; zoom assertSourceReady ;;;
            let! now := dateNow in
            zoom (update sourceTxHash
              [ SetState skipped; SetQueryId (Some (pr_queryId p));
                SetSkipObservation (Some {| so_blockNumber := qo_blockNumber final;
                  so_blockHash := qo_blockHash final; so_confirmations := qo_confirmations final;
                  so_observedAt := qo_observedAt final |}) ] now) ;;;
            ret None
      | unprocessed =>
          guardSource sourceTxHash ;;;
          let! r := prepare transport sourceTxHash (pr_queryId p) (pr_data p) (pr_gasLimit p) in
          require (String.eqb (re_sourceTxHash r) sourceTxHash
                   && String.eqb (re_queryId r) (pr_queryId p)
                   && String.eqb (re_data r) (pr_data p)) (EError "RELAY_PREPARATION_CONFLICT") ;;;
          guardSource sourceTxHash ;;;
          let! now := dateNow in
          zoom (reserveRelay r now) ;;;
          ret (Some r)
      end
  end.

(** Line 53 to 61: the receipt, after one broadcast when there is none yet. *)
Definition deliver (sourceTxHash : string) (r : RelayEnvelope) : M W ReceiptObs :=
  let! o := readReceipt r in
  match o with
  | RFinal rc => ret (RFinal rc)
  | RPending =>
      guardSource sourceTxHash ;;;
      zoom assertSourceReady ;;;
      tryCatch (sendRaw r) (λ _,
        let! now := dateNow in
        zoom (update sourceTxHash [SetLastError (Some "ASC_BROADCAST_UNCONFIRMED")] now)) ;;;
      readReceipt r
  end.

(** Line 61 to 70: release the nonce only on a receipt observed again after every other read. *)
Definition settle (sourceTxHash : string) (r : RelayEnvelope) (o : ReceiptObs) : M W unit :=
  match o with
  | RPending => ret tt
  | RFinal rc =>
      guardSource sourceTxHash ;;;
      match rc_status rc with
      | success =>
          let! v := readProcessed (re_queryId r) (rc_blockNumber rc) in
          require (dynTruthy v) (EError "ASC_QUERY_NOT_CONFIRMED")
      | reverted => ret tt
      end ;;;
      let! final := readReceipt r in
      if bool_decide (final = RFinal rc) then
        throwIfStopped ;;; zoom assertSourceReady ;;; zoom assertHubReady ;;;
        let! now := dateNow in
        zoom (finishRelay (re_hash r) rc now)
      else ret tt
  end.

Definition step (sourceTxHash : string) (preparation : option Preparation) : M W unit :=
  throwIfStopped ;;;
  let! w := getS in
  require (negb (active w
                 || match relay (data (wst w)) with
                    | Some r => negb (String.eqb (re_sourceTxHash r) sourceTxHash)
                    | None => false end)) ERelayBusy ;;;
  setActive true ;;;
  tryFinally
    (zoom assertSourceReady ;;; zoom assertHubReady ;;;
     let! job := zoom (get sourceTxHash) in
     require (match job with Some j => negb (terminalState (state j)) | None => false end)
       (EError "RELAY_JOB_NOT_PENDING") ;;;
     let! w := getS in
     let! held := match relay (data (wst w)) with
                  | Some r => ret (Some r)
                  | None => obtain sourceTxHash preparation
                  end in
     match held with
     | None => ret tt
     | Some r => let! o := deliver sourceTxHash r in settle sourceTxHash r o
     end)
    (setActive false).

(** * Safety of a step *)

(** What other tasks may do to the world while the sender awaits: they act on the store
    through its operations, and leave the envelope in flight and the sender alone (a
    second [step] is refused while [active] holds). *)
Definition stable (w w' : W) : Prop :=
  active w' = active w ∧ events w' = events w ∧ relay (data (wst w')) = relay (data (wst w))
  ∧ (reachable (wst w) → reachable (wst w')).
Definition stableOp {A} (m : M W A) : Prop := ∀ w, stable w (m w).2.

Record Cooperative : Prop := {
  co_processed : ∀ q b, stableOp (processed transport q b);
  co_observe : ∀ q e, stableOp (observeProcessed transport q e);
  co_prepare : ∀ h q d g, stableOp (prepare transport h q d g);
  co_receipt : ∀ r, stableOp (receipt transport r);
  co_broadcast : ∀ r, stableOp (broadcast transport r);
  co_guardSource : ∀ h, stableOp (guardSource h);
  co_guardHub : stableOp guardHub;
  co_now : stableOp dateNow }.

(** Only the reserved envelope of the job is sent, and only once the file holds it. *)
Definition soundEvent (tx : string) (e : Event) : Prop :=
  match e with
  | Sent r onDisk => onDisk = Some r ∧ re_sourceTxHash r = tx
  | _ => True
  end.

Record Inv (tx : string) (w0 : W) (cur : option RelayEnvelope) (new : list Event) (w : W) : Prop := {
  inv_reach : reachable (wst w);
  inv_active : active w = true;
  inv_relay : relay (data (wst w)) = cur;
  inv_events : events w = events w0 ++ new;
  inv_sound : Forall (soundEvent tx) new }.

Context (Hco : Cooperative).

Lemma wp_stable {A} (m : M W A) (Q : outcome A → W → Prop) tx w0 cur new w :
  stableOp m → Inv tx w0 cur new w → (∀ o w', Inv tx w0 cur new w' → Q o w') → wp m Q w.
Proof.
  intros Hm [Hr Ha Hc He Hs] HQ. destruct (Hm w) as (Ha' & He' & Hc' & Hr'). apply HQ.
  split; [auto|congruence|congruence|congruence|done].
Qed.

Lemma wp_record e (Q : outcome unit → W → Prop) tx w0 cur new w :
  Inv tx w0 cur new w → soundEvent tx e →
  (∀ w', Inv tx w0 cur (new ++ [e]) w' → Q (Ok tt) w') → wp (record e) Q w.
Proof.
  intros [Hr Ha Hc He Hs] Hsnd HQ. apply HQ. split; simpl; [done..| |].
  - by rewrite He, app_assoc.
  - apply Forall_app. split; [done|]. by constructor.
Qed.

(** The assertions only read. *)
Lemma wp_assertSource (Q : outcome unit → W → Prop) w : (∀ o, Q o w) → wp (zoom assertSourceReady) Q w.
Proof.
  intros HQ. unfold wp, zoom, assertSourceReady, bind, gets, throw, ret. simpl.
  destruct w. simpl. destruct (truthy _); apply HQ.
Qed.
Lemma wp_assertHub (Q : outcome unit → W → Prop) w : (∀ o, Q o w) → wp (zoom assertHubReady) Q w.
Proof.
  intros HQ. unfold wp, zoom, assertHubReady, bind, gets, throw, ret. simpl.
  destruct w. simpl. destruct (truthy _); apply HQ.
Qed.

(** A store operation that keeps the envelope. *)
Lemma wp_update h p now (Q : outcome unit → W → Prop) tx w0 cur new w :
  Inv tx w0 cur new w → keepsKey p → (∀ r, cur = Some r → keepsSubmission p) →
  (∀ o w', Inv tx w0 cur new w' → Q o w') → wp (zoom (update h p now)) Q w.
Proof.
  intros [Hr Ha Hc He Hs] Hk Hsub HQ.
  assert (opSafe (data (wst w)) (OUpdate h p now)) as Hsafe.
  { split; [done|]. intros r Hr' _. apply (Hsub r). congruence. }
  apply wp_zoom. unfold wp. apply HQ. split; simpl; [|done| |done|done].
  - by apply (reach_op (OUpdate h p now)).
  - change (update h p now) with (runOp (OUpdate h p now)).
    destruct (relay_step _ _ Hr Hsafe) as [->|[(? & ? & ? & _)|(? & ? & ? & ? & ? & _)]]; done.
Qed.

Lemma wp_reserve r now (Q : outcome unit → W → Prop) tx w0 new w :
  Inv tx w0 None new w →
  (∀ o cur w', Inv tx w0 cur new w' → (cur = None ∨ cur = Some r) →
     (o = Ok tt → cur = Some r) → Q o w') →
  wp (zoom (reserveRelay r now)) Q w.
Proof.
  intros [Hr Ha Hc He Hs] HQ. apply wp_zoom. unfold wp.
  pose proof (relay_step (wst w) (OReserveRelay r now) Hr I) as Hst.
  change (reserveRelay r now) with (runOp (OReserveRelay r now)).
  eapply (HQ _ (relay (data (runOp (OReserveRelay r now) (wst w)).2))).
  - split; simpl; [|done..]. by apply (reach_op (OReserveRelay r now)).
  - simpl in Hst. change (runOp (OReserveRelay r now)) with (reserveRelay r now).
    destruct Hst as [->|[(r' & ? & [= <- <-] & _ & ->)|(? & ? & ? & ? & ? & _)]]; auto; done.
  - intros Hok. destruct (reachable_inv _ Hr) as [Hd HWF].
    pose proof (λ s', reserve_ok r now (wst w) s' Hr) as H.
    change (runOp (OReserveRelay r now)) with (reserveRelay r now). simpl in Hok.
    destruct (reserveRelay r now (wst w)) as [o s'] eqn:Hrun. simpl in *. subst o. by apply (H s').
Qed.

(** The nonce released: the last things seen are a final receipt, the query it answers (for a
    success), and the same receipt again; the job records it. *)
Definition confirmedBy (r : RelayEnvelope) (rc : Receipt) (evs : list Event) : Prop :=
  ∃ evs0 mid, evs = evs0 ++ Saw r (RFinal rc) :: mid ++ [Saw r (RFinal rc)] ∧
    match rc_status rc with
    | success => ∃ v, mid = [Queried (re_queryId r) (rc_blockNumber rc) v] ∧ dynTruthy v = true
    | reverted => mid = []
    end.

Definition released (tx : string) (r : RelayEnvelope) (new : list Event) (w : W) : Prop :=
  relay (data (wst w)) = None ∧
  ∃ rc j now, confirmedBy r rc new ∧ dget tx (jobs (data (wst w))) = Some (finishedJob r rc now j).

(** After the settling of [r]: still held, or released. *)
Definition Settled (tx : string) (w0 : W) (r : RelayEnvelope) (o : outcome unit) (w : W) : Prop :=
  ∃ cur new, Inv tx w0 cur new w ∧ (cur = Some r ∨ released tx r new w).

Lemma wp_finish r rc now tx w0 new w (Q : outcome unit → W → Prop) :
  Inv tx w0 (Some r) new w → re_sourceTxHash r = tx → confirmedBy r rc new →
  (∀ o w', Settled tx w0 r o w' → Q o w') →
  wp (zoom (finishRelay (re_hash r) rc now)) Q w.
Proof.
  intros [Hr Ha Hc He Hs] Htx Hcf HQ. apply wp_zoom. unfold wp. apply HQ.
  assert (reachable (finishRelay (re_hash r) rc now (wst w)).2) as Hr'
    by by apply (reach_op (OFinishRelay (re_hash r) rc now)).
  destruct (finish_job (re_hash r) rc now (wst w) Hr) as [E1|(r' & j & E1 & E2 & Hj & Hj')].
  - intros r' Hr0. congruence.
  - exists (Some r), new. split; [|by left]. split; simpl; [done|done|congruence|done|done].
  - rewrite Hc in E1. injection E1 as <-. exists None, new. split; [by split|]. right.
    split; [done|]. exists rc, j, now. split; [done|]. simpl. by rewrite <- Htx.
Qed.

Lemma readReceipt_wp r tx w0 cur new w (Q : outcome ReceiptObs → W → Prop) :
  Inv tx w0 cur new w →
  (∀ o w', match o with
           | Ok x => Inv tx w0 cur (new ++ [Saw r x]) w'
           | Throw _ => Inv tx w0 cur new w' end → Q o w') →
  wp (readReceipt r) Q w.
Proof.
  intros HI HQ. unfold readReceipt. apply wp_bind. eapply wp_stable; [apply Hco|done|].
  intros [o|e] w' HI'; [|by apply (HQ (Throw e))].
  apply wp_bind. eapply wp_record; [done|done|]. intros w'' HI''. by apply wp_ret, (HQ (Ok o)).
Qed.

Lemma settle_wp r o tx w0 new w :
  Inv tx w0 (Some r) new w → re_sourceTxHash r = tx →
  (∀ rc, o = RFinal rc → ∃ evs0, new = evs0 ++ [Saw r (RFinal rc)]) →
  wp (settle tx r o) (Settled tx w0 r) w.
Proof.
  intros HI Htx Hlast. unfold settle. destruct o as [|rc].
  { apply wp_ret. exists (Some r), new. auto. }
  destruct (Hlast rc eq_refl) as [evs0 ->].
  assert (∀ o new w', Inv tx w0 (Some r) new w' → Settled tx w0 r o w') as Hheld.
  { intros o' new' w' H. exists (Some r), new'. auto. }
  apply wp_bind. eapply wp_stable; [apply Hco|done|]. intros [[]|e] w1 H1; [|by eapply Hheld].
  apply wp_bind. set (mid := λ evs : list Event, match rc_status rc with
     | success => ∃ v, evs = [Queried (re_queryId r) (rc_blockNumber rc) v] ∧ dynTruthy v = true
     | reverted => evs = [] end).
  assert (wp (match rc_status rc with
      | success => let! v := readProcessed (re_queryId r) (rc_blockNumber rc) in
                   require (dynTruthy v) (EError "ASC_QUERY_NOT_CONFIRMED")
      | reverted => ret tt end)
    (λ o w', ∃ evs, Inv tx w0 (Some r) ((evs0 ++ [Saw r (RFinal rc)]) ++ evs) w'
                    ∧ (o = Ok tt → mid evs)) w1) as Hmid.
  { unfold mid. destruct (rc_status rc).
    - apply wp_bind. unfold readProcessed. apply wp_bind.
      eapply wp_stable; [apply Hco|exact H1|]. intros [v|e] w2 H2; cycle 1.
      { exists []. rewrite app_nil_r. done. }
      apply wp_bind. eapply wp_record; [done|done|]. intros w3 H3. apply wp_ret.
      apply wp_require; intros Hv; eexists; (split; [exact H3|]); [eauto|done].
    - apply wp_ret. exists []. by rewrite app_nil_r. }
  eapply wp_mono; [exact Hmid|]. intros [[]|e] w2 (evs & H2 & Hm); [|by eapply Hheld].
  apply wp_bind. eapply readReceipt_wp; [done|]. intros [x|e] w3 H3; [|by eapply Hheld].
  case_bool_decide as Hx; [|by eapply wp_ret, Hheld]. subst x.
  unfold throwIfStopped. apply wp_bind, wp_bind, wp_gets.
  destruct (aborted w3); [by eapply wp_throw, Hheld|]. apply wp_ret, wp_bind.
  apply wp_assertSource. intros [[]|e]; [|by eapply Hheld].
  apply wp_bind, wp_assertHub. intros [[]|e]; [|by eapply Hheld].
  apply wp_bind. eapply wp_stable; [apply Hco|done|]. intros [now|e] w4 H4; [|by eapply Hheld].
  eapply wp_finish; [done|done| |done].
  exists evs0, evs. split; [by rewrite <- !app_assoc|]. by apply Hm.
Qed.

Lemma deliver_wp r tx w0 new w :
  Inv tx w0 (Some r) new w → re_sourceTxHash r = tx →
  wp (deliver tx r) (λ o w', ∃ new', Inv tx w0 (Some r) new' w' ∧
    ∀ rc, o = Ok (RFinal rc) → ∃ evs0, new' = evs0 ++ [Saw r (RFinal rc)]) w.
Proof.
  intros HI Htx. unfold deliver.
  assert (∀ e new w', Inv tx w0 (Some r) new w' → ∃ new', Inv tx w0 (Some r) new' w' ∧
    ∀ rc, Throw (A := ReceiptObs) e = Ok (RFinal rc) → ∃ evs0, new' = evs0 ++ [Saw r (RFinal rc)]) as Hfail.
  { intros e new' w' H. exists new'. done. }
  apply wp_bind. eapply readReceipt_wp; [done|]. intros [[|rc]|e] w1 H1; [|apply wp_ret|by eapply Hfail].
  2:{ exists (new ++ [Saw r (RFinal rc)]). split; [done|]. intros rc' [= <-]. eauto. }
  apply wp_bind. eapply wp_stable; [apply Hco|done|]. intros [[]|e] w2 H2; [|by eapply Hfail].
  apply wp_bind, wp_assertSource. intros [[]|e]; [|by eapply Hfail].
  apply wp_bind.
  assert (wp (tryCatch (sendRaw r) (λ _, let! now := dateNow in
    zoom (update tx [SetLastError (Some "ASC_BROADCAST_UNCONFIRMED")] now)))
    (λ _ w', ∃ new', Inv tx w0 (Some r) new' w') w2) as Hsend.
  { apply wp_tryCatch. unfold sendRaw. apply wp_bind, wp_getS, wp_bind.
    eapply wp_record; [done| |].
    { split; [|done]. destruct (reachable_inv _ (inv_reach _ _ _ _ _ H2)) as [Hd _].
      rewrite diskRelay_durable by done. apply H2. }
    intros w3 H3. eapply wp_stable; [apply Hco|done|]. intros [[]|e] w4 H4; [by eexists|].
    apply wp_bind. eapply wp_stable; [apply Hco|done|]. intros [now|e'] w5 H5; [|by eexists].
    eapply wp_update; [done|repeat constructor; done|intros; repeat constructor; done|].
    intros o w6 H6. by eexists. }
  eapply wp_mono; [exact Hsend|]. intros [[]|e] w3 (new' & H3); [|by eapply Hfail].
  eapply readReceipt_wp; [done|]. intros [x|e] w4 H4; [|by eapply Hfail].
  exists (new' ++ [Saw r x]). split; [done|]. intros rc [= ->]. eauto.
Qed.

Lemma obtain_wp tx prep w0 new w :
  Inv tx w0 None new w →
  wp (obtain tx prep) (λ o w', ∃ cur, Inv tx w0 cur new w' ∧
    (∀ r, cur = Some r → re_sourceTxHash r = tx) ∧
    match o with Ok None => cur = None | Ok (Some r) => cur = Some r | Throw _ => True end) w.
Proof.
  intros HI. unfold obtain.
  set (Post := λ (o : outcome (option RelayEnvelope)) w', ∃ cur, Inv tx w0 cur new w' ∧
    (∀ r, cur = Some r → re_sourceTxHash r = tx) ∧
    match o with Ok None => cur = None | Ok (Some r) => cur = Some r | Throw _ => True end).
  assert (∀ e w', Inv tx w0 None new w' → Post (Throw e) w') as Hfail by (intros; exists None; done).
  assert (∀ w', Inv tx w0 None new w' → Post (Ok None) w') as Hnone by (intros; exists None; done).
  destruct prep as [p|]; [|by apply wp_throw, Hfail].
  apply wp_bind. eapply wp_stable; [apply Hco|done|]. intros [[]|e] w1 H1; [|by apply Hfail].
  unfold throwIfStopped. apply wp_bind, wp_bind, wp_gets.
  destruct (aborted w1); [by apply wp_throw, Hfail|]. apply wp_ret, wp_bind.
  apply wp_assertHub. intros [[]|e]; [|by apply Hfail].
  apply wp_bind. eapply wp_stable; [apply Hco|done|]. intros [q|e] w2 H2; [|by apply Hfail].
  destruct (qo_status q).
  - apply wp_bind. eapply wp_stable; [apply Hco|done|]. intros [[]|e] w3 H3; [|by apply Hfail].
    apply wp_bind. eapply wp_stable; [apply Hco|done|]. intros [r|e] w4 H4; [|by apply Hfail].
    apply wp_bind, wp_require; [|by intros _; apply Hfail].
    intros [[Htx%String.eqb_eq _]%andb_true_iff _]%andb_true_iff.
    apply wp_bind. eapply wp_stable; [apply Hco|done|]. intros [[]|e] w5 H5; [|by apply Hfail].
    apply wp_bind. eapply wp_stable; [apply Hco|done|]. intros [now|e] w6 H6; [|by apply Hfail].
    apply wp_bind. eapply wp_reserve; [done|]. intros [[]|e] cur w7 H7 Hcur Hok.
    + apply wp_ret. exists cur. rewrite (Hok eq_refl) in *. split_and!; [done| |done].
      by intros r' [= <-].
    + exists cur. split_and!; [done| |done]. destruct Hcur as [->| ->]; [done|]. by intros r' [= <-].
  - by apply wp_ret, Hnone.
  - apply wp_bind. eapply wp_stable; [apply Hco|done|]. intros [[]|e] w3 H3; [|by apply Hfail].
    apply wp_bind. eapply wp_stable; [apply Hco|done|]. intros [f|e] w4 H4; [|by apply Hfail].
    case_match; [by apply wp_ret, Hnone|].
    apply wp_bind, wp_bind, wp_gets. destruct (aborted w4); [by apply wp_throw, Hfail|].
    apply wp_ret, wp_bind, wp_assertSource. intros [[]|e]; [|by apply Hfail].
    apply wp_bind. eapply wp_stable; [apply Hco|done|]. intros [now|e] w5 H5; [|by apply Hfail].
    apply wp_bind. eapply wp_update; [done|repeat constructor; done|done|].
    intros [[]|e] w6 H6; [by apply wp_ret, Hnone|by apply Hfail].
Qed.

(** What a finished step has done to the envelope in flight. *)
Definition relayOutcome (tx : string) (w0 : W) (new : list Event) (w : W) : Prop :=
  relay (data (wst w)) = relay (data (wst w0)) ∨
  (relay (data (wst w0)) = None ∧ ∃ r, relay (data (wst w)) = Some r ∧ re_sourceTxHash r = tx) ∨
  (∃ r, (relay (data (wst w0)) = Some r ∨ relay (data (wst w0)) = None) ∧ released tx r new w).

Lemma body_wp tx prep w0 w :
  Inv tx w0 (relay (data (wst w0))) [] w →
  (∀ r, relay (data (wst w0)) = Some r → re_sourceTxHash r = tx) →
  wp (zoom assertSourceReady ;;; zoom assertHubReady ;;;
      let! job := zoom (get tx) in
      require (match job with Some j => negb (terminalState (state j)) | None => false end)
        (EError "RELAY_JOB_NOT_PENDING") ;;;
      let! w := getS in
      let! held := match relay (data (wst w)) with
                   | Some r => ret (Some r)
                   | None => obtain tx prep
                   end in
      match held with
      | None => ret tt
      | Some r => let! o := deliver tx r in settle tx r o
      end)
    (λ o w', ∃ cur new, Inv tx w0 cur new w' ∧ relayOutcome tx w0 new w') w.
Proof.
  intros HI Hown.
  assert (∀ new w', Inv tx w0 (relay (data (wst w0))) new w' →
    ∃ cur new, Inv tx w0 cur new w' ∧ relayOutcome tx w0 new w') as Hkept.
  { intros new w' H. eexists _, new. split; [exact H|]. left. apply H. }
  apply wp_bind, wp_assertSource. intros [[]|e]; [|by eapply Hkept].
  apply wp_bind, wp_assertHub. intros [[]|e]; [|by eapply Hkept].
  apply wp_bind. unfold wp at 1, zoom, get, gets. simpl.
  replace (mkWorld (wst w) (active w) (aborted w) (events w) (env w)) with w by by destruct w.
  apply wp_bind, wp_require; intros _; [|by eapply Hkept].
  apply wp_bind, wp_getS, wp_bind.
  assert (wp (match relay (data (wst w)) with
              | Some r => ret (Some r) | None => obtain tx prep end)
    (λ o w', ∃ cur, Inv tx w0 cur [] w' ∧ (∀ r, cur = Some r → re_sourceTxHash r = tx) ∧
      (cur = relay (data (wst w0)) ∨ relay (data (wst w0)) = None) ∧
      match o with Ok None => cur = None | Ok (Some r) => cur = Some r | Throw _ => True end) w) as Hget.
  { rewrite (inv_relay _ _ _ _ _ HI). destruct (relay (data (wst w0))) as [r|] eqn:Hr.
    - apply wp_ret. exists (Some r). auto.
    - eapply wp_mono; [by apply obtain_wp|]. intros o w' (cur & ? & ? & ?). exists cur. auto. }
  eapply wp_mono; [exact Hget|]. clear Hget. intros o w1 (cur & H1 & Hc & Hfrom & Ho).
  assert (∀ new w', Inv tx w0 cur new w' → ∃ cur new, Inv tx w0 cur new w' ∧ relayOutcome tx w0 new w')
    as Hheld.
  { intros new w' H. eexists _, new. split; [exact H|]. destruct Hfrom as [->|Hn]; [left; apply H|].
    pose proof (inv_relay _ _ _ _ _ H) as E1. destruct cur as [r|]; [right; left|left; congruence].
    split; [done|]. exists r. auto. }
  destruct o as [[r|]|e]; [|by apply wp_ret; eapply Hheld|by eapply Hheld].
  subst cur. apply wp_bind. eapply wp_mono; [apply (deliver_wp r tx w0 []); [done|auto]|].
  intros [o|e] w2 (new & H2 & Hlast); [|by eapply Hheld].
  eapply wp_mono; [apply (settle_wp r o tx w0 new); [done|auto|]|].
  { intros rc ->. by apply Hlast. }
  intros o' w3 (cur & new' & H3 & [->|Hrel]); [by eapply Hheld|].
  exists cur, new'. split; [done|]. right. right. exists r. split; [|done].
  destruct Hfrom as [<-|Hn]; auto.
Qed.
End sender.
Arguments Cooperative {E} _ _ _ _.
Arguments stable {E} _ _.

(** C16. Whatever the transport, the guards and the other tasks do between awaits, a
    step sends only the envelope of its own job and only once the state file holds it,
    leaves the sender free, and either keeps the envelope in flight, or reserves one for
    its job, or releases the nonce after the same final receipt was read twice around
    the query check (for a success) and recorded in the job; a concurrent step is
    refused with RelayBusy and changes nothing. *)
Theorem relay_step_safe {E} (transport : RelayTransport (World E)) (guardSource : string → M (World E) unit)
    (guardHub : M (World E) unit) (dateNow : M (World E) Z) (tx : string)
    (prep : option Preparation) (w0 : World E) :
  Cooperative transport guardSource guardHub dateNow → reachable (wst w0) →
  let w := (step transport guardSource guardHub dateNow tx prep w0).2 in
  (active w0 = true → w = w0 ∧
     (step transport guardSource guardHub dateNow tx prep w0).1
       = Throw (if aborted w0 then EWorkerStopped else ERelayBusy)) ∧
  (active w0 = false → active w = false ∧ reachable (wst w) ∧
     ∃ new, events w = events w0 ++ new ∧ Forall (soundEvent tx) new ∧ relayOutcome tx w0 new w).
Proof.
  intros Hco Hr. cbv zeta. split.
  - intros Ha. unfold step, throwIfStopped, bind, gets, getS. destruct (aborted w0); [done|]. simpl.
    by rewrite Ha.
  - intros Ha. set (Post := λ (o : outcome unit) w, active w = false ∧ reachable (wst w) ∧
      ∃ new, events w = events w0 ++ new ∧ Forall (soundEvent tx) new ∧ relayOutcome tx w0 new w).
    change (wp (step transport guardSource guardHub dateNow tx prep) Post w0).
    assert (∀ o, Post o w0) as Hsame.
    { intros o. split; [done|]. split; [done|]. exists []. rewrite app_nil_r. split_and!; [done|constructor|by left]. }
    unfold step, throwIfStopped. apply wp_bind, wp_bind, wp_gets.
    destruct (aborted w0); [apply wp_throw, Hsame|]. apply wp_ret, wp_bind, wp_getS, wp_bind.
    apply wp_require; [|intros _; apply Hsame]. rewrite Ha. simpl. intros Hown.
    apply wp_bind, wp_modify, wp_tryFinally. eapply wp_mono; [apply (body_wp _ _ _ _ Hco tx prep w0)|].
    + split; simpl; [done|done|done|by rewrite app_nil_r|constructor].
    + intros r Hrel. rewrite Hrel, negb_involutive in Hown. by apply String.eqb_eq.
    + intros o w (cur & new & [Hr' _ _ He Hs] & Hout). apply wp_modify. split; [done|].
      split; [done|]. exists new. done.
Qed.

(** * The EVM transport *)

(** [ethers.Transaction.from(raw)], the fields the program reads. *)
Record ParsedTx := {
  ptx_signed : bool; ptx_hash : option string; ptx_nonce : Z; ptx_chainId : Z;
  ptx_to : option string; ptx_from : string; ptx_data : string; ptx_value : Z }.

Record TxReceipt := {
  tr_hash : string; tr_from : string; tr_to : option string; tr_status : option Z;
  tr_blockNumber : Z; tr_blockHash : string }.

Record PopulatedTx := { pop_nonce : Z; pop_chainId : Z; pop_body : string }.

(** The ethers provider, wallet and contract, with arbitrary effects on the world. *)
Record Evm (W : Type) := {
  parseTx : string → outcome ParsedTx;
  keccak256 : string → string;
  getBlockNumber : M W Z;
  getBlock : Z → M W (option SourceScan.Block);
  getTransactionReceipt : string → M W (option TxReceipt);
  getCode : string → Z → M W string;
  broadcastTransaction : string → M W string;  (* the hash of the response *)
  populateTransaction : string → string → Z → M W PopulatedTx;
  signTransaction : PopulatedTx → M W string;
  wallet_address : string;
  asc_getAddress : M W string;
  processedQueries : string → option Z → M W Dyn;
  evm_now : M W Z }.
Arguments parseTx {W} _ _.
Arguments keccak256 {W} _ _.
Arguments getBlockNumber {W} _.
Arguments getBlock {W} _ _.
Arguments getTransactionReceipt {W} _ _.
Arguments getCode {W} _ _ _.
Arguments broadcastTransaction {W} _ _.
Arguments populateTransaction {W} _ _ _ _.
Arguments signTransaction {W} _ _.
Arguments wallet_address {W} _.
Arguments asc_getAddress {W} _.
Arguments processedQueries {W} _ _ _.
Arguments evm_now {W} _.

Definition eqLower (a b : string) : bool := String.eqb (toLowerCase a) (toLowerCase b).
(** [a?.toLowerCase() === b.toLowerCase()] *)
Definition eqLowerOpt (a : option string) (b : string) : bool :=
  match a with Some a => eqLower a b | None => false end.

Section evm.
Context {W : Type} (evm : Evm W) (confirmations : Z).

Definition HUB_CHAIN_ID : Z := 102031.

Definition validateRelay (r : RelayEnvelope) (chainId : Z) (asc signer : string) : outcome unit :=
  let? tx := parseTx evm (re_raw r) in
  orequire (ptx_signed tx && bool_decide (ptx_hash tx = Some (re_hash r))
            && (ptx_nonce tx =? re_nonce r) && (ptx_chainId tx =? chainId)
            && (re_chainId r =? chainId) && eqLowerOpt (ptx_to tx) asc && eqLower (re_to r) asc
            && eqLower (ptx_from tx) signer && eqLower (re_signer r) signer
            && String.eqb (ptx_data tx) (re_data r) && (ptx_value tx =? 0))
    (EError "RELAY_SIGNATURE_TARGET_MISMATCH").

Definition newEvmRelayTransport : outcome unit :=
  orequire (SourceScan.positiveSafe confirmations) (EError "invalid relay confirmation depth").

Definition evm_processed (q : string) (blockNumber : option Z) : M W Dyn :=
  processedQueries evm q blockNumber.

Record Sample := {
  sm_value : bool; sm_blockNumber : Z; sm_blockHash : string; sm_confirmations : Z; sm_at : Z }.

(** The closure [sample] of [observeProcessed]. *)
Definition sample (queryId : string) (height : Z) (expectedHash : option string) : M W Sample :=
  let! block := getBlock evm height in
  match block with
  | Some {| SourceScan.number := n; SourceScan.bhash := Some h |} =>
      require ((n =? height) && isBytes32 h
               && match expectedHash with Some e => String.eqb h e | None => true end)
        (EError "ASC_QUERY_OBSERVATION_CHANGED") ;;;
      let! value := evm_processed queryId (Some height) in
      match value with
      | DOther _ => throw (EError "ASC_QUERY_OBSERVATION_UNAVAILABLE")
      | DBool value =>
          let! finalHead := getBlockNumber evm in
          let! again := getBlock evm height in
          require (match again with
                   | Some b => (SourceScan.number b =? height)
                       && bool_decide (SourceScan.bhash b = Some h)
                   | None => false end
                   && isSafeInteger finalHead && (height <=? finalHead))
            (EError "ASC_QUERY_OBSERVATION_CHANGED") ;;;
          let! now := evm_now evm in
          ret {| sm_value := value; sm_blockNumber := height; sm_blockHash := h;
                 sm_confirmations := finalHead - height + 1; sm_at := now |}
      end
  | _ => throw (EError "ASC_QUERY_OBSERVATION_CHANGED")
  end.

Definition observation (s : Sample) (st : QueryStatus) : QueryObservation := {|
  qo_status := st; qo_blockNumber := sm_blockNumber s; qo_blockHash := sm_blockHash s;
  qo_confirmations := sm_confirmations s; qo_observedAt := sm_at s |}.

Definition settled (s : Sample) : QueryStatus :=
  if sm_value s && (confirmations <=? sm_confirmations s) then confirmed else pendingQuery.

Definition evm_observeProcessed (queryId : string) (expected : option QueryObservation)
    : M W QueryObservation :=
  let! head := getBlockNumber evm in
  require (safeNat head) (EError "ASC_QUERY_OBSERVATION_UNAVAILABLE") ;;;
  match expected with
  | Some e =>
      require (bool_decide (qo_status e = confirmed) && safeNat (qo_blockNumber e)
               && isBytes32 (qo_blockHash e)) (EError "ASC_QUERY_OBSERVATION_UNAVAILABLE") ;;;
      if head - qo_blockNumber e + 1 <? confirmations
      then ret {| qo_status := pendingQuery; qo_blockNumber := qo_blockNumber e;
                  qo_blockHash := qo_blockHash e; qo_confirmations := qo_confirmations e;
                  qo_observedAt := qo_observedAt e |}
      else
        let! result := sample queryId (qo_blockNumber e) (Some (qo_blockHash e)) in
        ret (observation result (settled result))
  | None =>
      let! latest := sample queryId head None in
      if negb (sm_value latest) then ret (observation latest unprocessed)
      else
        let height := head - confirmations + 1 in
        if height <? 0 then ret (observation latest pendingQuery)
        else
          let! addr := asc_getAddress evm in
          let! code := getCode evm addr height in
          if String.eqb code "0x" then ret (observation latest pendingQuery)
          else
            let! stable := if height =? head then ret latest else sample queryId height None in
            ret (observation stable (settled stable))
  end.

Definition evm_prepare (sourceTxHash queryId data : string) (gasLimit : Z) : M W RelayEnvelope :=
  let! to := asc_getAddress evm in
  let! tx := populateTransaction evm to data gasLimit in
  let! raw := signTransaction evm tx in
  let r := {| re_sourceTxHash := sourceTxHash; re_queryId := queryId; re_hash := keccak256 evm raw;
              re_raw := raw; re_nonce := pop_nonce tx; re_chainId := pop_chainId tx; re_to := to;
              re_signer := wallet_address evm; re_data := data |} in
  lift_out (validateRelay r HUB_CHAIN_ID to (wallet_address evm)) ;;; ret r.

Definition sameBlock (b : option SourceScan.Block) (n : Z) (h : string) : bool :=
  match b with
  | Some b => (SourceScan.number b =? n) && bool_decide (SourceScan.bhash b = Some h)
  | None => false
  end.

Definition evm_receipt (r : RelayEnvelope) : M W ReceiptObs :=
  let! asc := asc_getAddress evm in
  lift_out (validateRelay r HUB_CHAIN_ID asc (wallet_address evm)) ;;;
  let! rec := getTransactionReceipt evm (re_hash r) in
  match rec with
  | None => ret RPending
  | Some t =>
      require (safeNat (tr_blockNumber t) && isBytes32 (tr_blockHash t))
        (EError "RELAY_RECEIPT_MISMATCH") ;;;
      let! block := getBlock evm (tr_blockNumber t) in
      let! head := getBlockNumber evm in
      if negb (isSafeInteger head && (tr_blockNumber t <=? head)
               && sameBlock block (tr_blockNumber t) (tr_blockHash t)
               && (confirmations <=? head - tr_blockNumber t + 1)) then ret RPending
      else
        require (String.eqb (tr_hash t) (re_hash r) && eqLower (tr_from t) (re_signer r)
                 && eqLowerOpt (tr_to t) (re_to r)
                 && (bool_decide (tr_status t = Some 0) || bool_decide (tr_status t = Some 1)))
          (EError "RELAY_RECEIPT_MISMATCH") ;;;
        let! checked := getBlock evm (tr_blockNumber t) in
        if negb (sameBlock checked (tr_blockNumber t) (tr_blockHash t)) then ret RPending
        else ret (RFinal {| rc_status := if bool_decide (tr_status t = Some 1) then success else reverted;
                            rc_blockNumber := tr_blockNumber t; rc_blockHash := tr_blockHash t |})
  end.

Definition evm_broadcast (r : RelayEnvelope) : M W unit :=
  let! asc := asc_getAddress evm in
  lift_out (validateRelay r HUB_CHAIN_ID asc (wallet_address evm)) ;;;
  let! h := broadcastTransaction evm (re_raw r) in
  require (String.eqb h (re_hash r)) (EError "RELAY_BROADCAST_HASH_MISMATCH").

Definition EvmRelayTransport : RelayTransport W := {|
  processed := evm_processed; observeProcessed := evm_observeProcessed; prepare := evm_prepare;
  receipt := evm_receipt; broadcast := evm_broadcast |}.


(** What a final receipt of [r] rests on: the envelope is the wallet's signed call of the
    contract; the node's receipt is that transaction's, from the signer to the contract; its
    block was the canonical one in two reads and [confirmations] deep under a head read
    between them. *)
Definition canonicalReceipt (r : RelayEnvelope) (rc : Receipt) : Prop :=
  ∃ asc t head b1 b2,
    answered (asc_getAddress evm) asc
    ∧ validateRelay r HUB_CHAIN_ID asc (wallet_address evm) = Ok tt
    ∧ answered (getTransactionReceipt evm (re_hash r)) (Some t)
    ∧ tr_hash t = re_hash r ∧ eqLower (tr_from t) (re_signer r) = true
    ∧ eqLowerOpt (tr_to t) (re_to r) = true
    ∧ tr_status t = Some (match rc_status rc with success => 1 | reverted => 0 end)
    ∧ tr_blockNumber t = rc_blockNumber rc ∧ tr_blockHash t = rc_blockHash rc
    ∧ answered (getBlock evm (rc_blockNumber rc)) b1
    ∧ sameBlock b1 (rc_blockNumber rc) (rc_blockHash rc) = true
    ∧ answered (getBlockNumber evm) head
    ∧ confirmations <= head - rc_blockNumber rc + 1 ∧ rc_blockNumber rc ≤ head
    ∧ answered (getBlock evm (rc_blockNumber rc)) b2
    ∧ sameBlock b2 (rc_blockNumber rc) (rc_blockHash rc) = true.

Lemma evm_receipt_wp r w :
  wp (evm_receipt r) (λ o _, ∀ rc, o = Ok (RFinal rc) →
    canonicalReceipt r rc ∧ safeNat (rc_blockNumber rc) = true ∧ isBytes32 (rc_blockHash rc) = true) w.
Proof.
  unfold evm_receipt. read_step. apply wp_bind, wp_lift_out.
  destruct (validateRelay _ _ _ _) as [[]|e] eqn:Hval; [|done].
  read_step. case_match eqn:Ht; [|by apply wp_ret]. subst.
  apply wp_bind, wp_require; [|done]. intros [Hn Hh]%andb_true_iff.
  read_step. read_step. case_match eqn:Hdeep; [by apply wp_ret|].
  apply negb_false_iff in Hdeep. apply andb_true_iff in Hdeep as [[[_ Hle]%andb_true_iff Hb]%andb_true_iff Hc].
  apply wp_bind, wp_require; [|done].
  intros [[[Hth%String.eqb_eq Hfrom]%andb_true_iff Hto]%andb_true_iff Hst]%andb_true_iff.
  read_step. case_match eqn:Hb2; [by apply wp_ret|]. apply negb_false_iff in Hb2. apply wp_ret.
  intros rc [= <-]. simpl. split; [|done].
  eexists _, _, _, _, _. split_and!; try done; simpl; [|by apply Z.leb_le|by apply Z.leb_le].
  apply orb_true_iff in Hst as [Hs%bool_decide_eq_true|Hs%bool_decide_eq_true]; by rewrite Hs.
Qed.

(** A provider whose reads are stable: they answer the same and change nothing. *)
Definition pureRead {A} (m : M W A) (a : A) : Prop := ∀ w, m w = (Ok a, w).

Lemma evm_receipt_stable r asc t head b w :
  pureRead (asc_getAddress evm) asc →
  validateRelay r HUB_CHAIN_ID asc (wallet_address evm) = Ok tt →
  pureRead (getTransactionReceipt evm (re_hash r)) (Some t) →
  safeNat (tr_blockNumber t) && isBytes32 (tr_blockHash t) = true →
  pureRead (getBlock evm (tr_blockNumber t)) b →
  sameBlock b (tr_blockNumber t) (tr_blockHash t) = true →
  pureRead (getBlockNumber evm) head → isSafeInteger head = true →
  tr_hash t = re_hash r → eqLower (tr_from t) (re_signer r) = true →
  eqLowerOpt (tr_to t) (re_to r) = true → tr_status t = Some 0 ∨ tr_status t = Some 1 →
  tr_blockNumber t ≤ head →
  evm_receipt r w =
  (Ok (if confirmations <=? head - tr_blockNumber t + 1
       then RFinal {| rc_status := if bool_decide (tr_status t = Some 1) then success else reverted;
                      rc_blockNumber := tr_blockNumber t; rc_blockHash := tr_blockHash t |}
       else RPending), w).
Proof.
  intros Ha Hv Hr Hg Hb Hs Hh Hsafe H1 H2 H3 H4 Hle. unfold evm_receipt.
  run_step (Ha w). rewrite Hv. run_pure. run_step (Hr w). rewrite Hg. run_pure.
  run_step (Hb w). run_step (Hh w). rewrite Hsafe, Hs, (proj2 (Z.leb_le _ _)) by done. simpl.
  destruct (confirmations <=? _); [|done]. simpl. rewrite H1, H2, H3, String.eqb_refl. simpl.
  assert (bool_decide (tr_status t = Some 0) || bool_decide (tr_status t = Some 1) = true) as ->.
  { apply orb_true_iff. by destruct H4; [left|right]; apply bool_decide_eq_true. }
  run_pure. run_step (Hb w). by rewrite Hs.
Qed.

(** A query observation at a block: the contract answered [v] for it at that height, under the
    hash the block had before and after. *)
Definition observedAt (q : string) (height : Z) (h : string) (v : bool) (depth : Z) : Prop :=
  ∃ b1 b2 head, answered (getBlock evm height) b1 ∧ sameBlock b1 height h = true
    ∧ isBytes32 h = true ∧ answered (processedQueries evm q (Some height)) (DBool v)
    ∧ answered (getBlockNumber evm) head ∧ depth = head - height + 1
    ∧ answered (getBlock evm height) b2 ∧ sameBlock b2 height h = true.

Lemma sample_wp q height eh w :
  wp (sample q height eh) (λ o _, ∀ s, o = Ok s →
    sm_blockNumber s = height ∧ match eh with Some e => sm_blockHash s = e | None => True end ∧
    observedAt q height (sm_blockHash s) (sm_value s) (sm_confirmations s)) w.
Proof.
  unfold sample. read_step. case_match eqn:Hb; [|done]. subst. destruct b as [n [h|]]; [|done].
  apply wp_bind, wp_require; [|done].
  intros [[Hn Hh]%andb_true_iff He]%andb_true_iff. read_step.
  match goal with |- wp (match ?v with _ => _ end) _ _ => destruct v as [v|v]; [|done] end.
  read_step. read_step. apply wp_bind, wp_require; [|done].
  intros [[Hag _]%andb_true_iff _]%andb_true_iff. read_step. apply wp_ret. intros s [= <-]. simpl.
  split; [done|]. split; [by destruct eh; [apply String.eqb_eq|]|].
  eexists _, _, _. split_and!; try done; simpl; rewrite Hn; simpl; by apply bool_decide_eq_true.
Qed.
End evm.

(** The reads of [r]'s receipt are stable and agree on a matching receipt [t] under [head]. *)
Record StableReceipt {W} (evm : Evm W) (r : RelayEnvelope) (t : TxReceipt) (head : Z) : Prop := {
  st_envelope : ∃ asc, pureRead (asc_getAddress evm) asc
    ∧ validateRelay evm r HUB_CHAIN_ID asc (wallet_address evm) = Ok tt;
  st_receipt : pureRead (getTransactionReceipt evm (re_hash r)) (Some t);
  st_shape : safeNat (tr_blockNumber t) && isBytes32 (tr_blockHash t) = true;
  st_block : ∃ b, pureRead (getBlock evm (tr_blockNumber t)) b
    ∧ sameBlock b (tr_blockNumber t) (tr_blockHash t) = true;
  st_head : pureRead (getBlockNumber evm) head ∧ isSafeInteger head = true ∧ tr_blockNumber t ≤ head;
  st_match : tr_hash t = re_hash r ∧ eqLower (tr_from t) (re_signer r) = true
    ∧ eqLowerOpt (tr_to t) (re_to r) = true ∧ (tr_status t = Some 0 ∨ tr_status t = Some 1) }.

(** A final receipt of the EVM transport rests on a valid signed envelope, the
    node receipt of that very transaction from the signer to the contract, and a block
    that was canonical in two reads and at the required depth; conversely, under stable
    reads a matching receipt is final exactly when it is deep enough. *)
Theorem evm_receipt_canonical {W} (evm : Evm W) (confirmations : Z) (r : RelayEnvelope) (w : W) :
  (∀ rc w', evm_receipt evm confirmations r w = (Ok (RFinal rc), w') →
     canonicalReceipt evm confirmations r rc
     ∧ 0 ≤ rc_blockNumber rc ≤ MAX_SAFE_INTEGER ∧ isBytes32 (rc_blockHash rc) = true) ∧
  (∀ t head, StableReceipt evm r t head →
     evm_receipt evm confirmations r w =
     (Ok (if confirmations <=? head - tr_blockNumber t + 1
          then RFinal {| rc_status := if bool_decide (tr_status t = Some 1) then success else reverted;
                         rc_blockNumber := tr_blockNumber t; rc_blockHash := tr_blockHash t |}
          else RPending), w)).
Proof.
  split.
  - intros rc w' H.
    destruct (wp_run _ _ _ _ _ (evm_receipt_wp evm confirmations r w) H rc eq_refl) as (? & ? & ?).
    split_and!; [done|by apply safeNat_spec|by apply safeNat_spec|done].
  - intros t head [(asc & ? & ?) ? ? (b & ? & ?) (? & ? & ?) (? & ? & ? & ?)].
    by eapply evm_receipt_stable.
Qed.

(** A confirmed query observation says the contract answered true at a block
    whose hash held before and after the read and that is at least the confirmation
    depth below the head (the expected block, or head - depth + 1); an unprocessed one
    says it answered false at the head. *)
Theorem evm_query_observation {W} (evm : Evm W) (confirmations : Z) (q : string)
    (expected : option QueryObservation) (w w' : W) (o : QueryObservation) :
  evm_observeProcessed evm confirmations q expected w = (Ok o, w') →
  match qo_status o with
  | confirmed => observedAt evm q (qo_blockNumber o) (qo_blockHash o) true (qo_confirmations o)
                 ∧ confirmations ≤ qo_confirmations o
                 ∧ match expected with
                   | Some e => qo_status e = confirmed ∧ qo_blockNumber o = qo_blockNumber e
                               ∧ qo_blockHash o = qo_blockHash e
                   | None => ∃ head, answered (getBlockNumber evm) head
                               ∧ qo_blockNumber o = head - confirmations + 1
                   end
  | unprocessed => expected = None
                 ∧ observedAt evm q (qo_blockNumber o) (qo_blockHash o) false (qo_confirmations o)
                 ∧ answered (getBlockNumber evm) (qo_blockNumber o)
  | pendingQuery => True
  end.
Proof.
  set (P := λ x : outcome QueryObservation, ∀ o, x = Ok o → match qo_status o with
  | confirmed => observedAt evm q (qo_blockNumber o) (qo_blockHash o) true (qo_confirmations o)
                 ∧ confirmations ≤ qo_confirmations o
                 ∧ match expected with
                   | Some e => qo_status e = confirmed ∧ qo_blockNumber o = qo_blockNumber e
                               ∧ qo_blockHash o = qo_blockHash e
                   | None => ∃ head, answered (getBlockNumber evm) head
                               ∧ qo_blockNumber o = head - confirmations + 1
                   end
  | unprocessed => expected = None
                 ∧ observedAt evm q (qo_blockNumber o) (qo_blockHash o) false (qo_confirmations o)
                 ∧ answered (getBlockNumber evm) (qo_blockNumber o)
  | pendingQuery => True
  end).
  enough (wp (evm_observeProcessed evm confirmations q expected) (λ o _, P o) w) as Hwp
    by (intros H; exact (wp_run _ _ _ _ _ Hwp H o eq_refl)).
  unfold evm_observeProcessed. read_step. rename a into head.
  assert (∀ s, P (Ok (observation s pendingQuery))) as Hpend by by intros s o' [= <-].
  apply wp_bind, wp_require; [|done]. intros _. destruct expected as [e|].
  - apply wp_bind, wp_require; [|done].
    intros [[Hst%bool_decide_eq_true _]%andb_true_iff _]%andb_true_iff.
    case_match; [by apply wp_ret; intros o' [= <-]|].
    apply wp_bind. eapply wp_mono; [apply sample_wp|]. intros [s|ex] w2 Hs; [|done].
    destruct (Hs s eq_refl) as (Hn & Hh & Ho). apply wp_ret. intros o' [= <-].
    unfold settled. destruct (sm_value s) eqn:Hv; [|done].
    destruct (confirmations <=? sm_confirmations s) eqn:Hc; [|done]. simpl.
    rewrite Hn. split_and!; [done|by apply Z.leb_le|done|done|done].
  - apply wp_bind. eapply wp_mono; [apply sample_wp|]. intros [s|ex] w2 Hs; [|done].
    destruct (Hs s eq_refl) as (Hn & _ & Ho). destruct (sm_value s) eqn:Hv; simpl.
    2:{ apply wp_ret. intros o' [= <-]. simpl. by rewrite Hn. }
    case_match; [apply wp_ret, Hpend|]. read_step. read_step.
    case_match; [apply wp_ret, Hpend|]. apply wp_bind.
    assert (∀ w1, wp (if head - confirmations + 1 =? head then ret s
                else sample evm q (head - confirmations + 1) None)
      (λ o _, ∀ s, o = Ok s → sm_blockNumber s = head - confirmations + 1 ∧
        observedAt evm q (head - confirmations + 1) (sm_blockHash s) (sm_value s) (sm_confirmations s))
      w1) as Hstable.
    { intros w1. destruct (Z.eqb_spec (head - confirmations + 1) head) as [Heq|Hne].
      - apply wp_ret. intros s' [= <-]. rewrite Heq. split; [by rewrite Hn|]. by rewrite Hv.
      - eapply wp_mono; [apply sample_wp|]. intros o' w3 Hs' s' ->.
        destruct (Hs' s' eq_refl) as (? & _ & ?). done. }
    eapply wp_mono; [apply Hstable|]. intros [s'|ex] w3 Hs'; [|done].
    destruct (Hs' s' eq_refl) as [Hn' Ho']. apply wp_ret. intros o' [= <-].
    unfold settled. destruct (sm_value s') eqn:Hv'; [|done].
    destruct (confirmations <=? sm_confirmations s') eqn:Hc; [|done]. simpl.
    rewrite Hn'. split_and!; [done|by apply Z.leb_le|]. by exists head.
Qed.

(** ** Concrete runs *)

Definition exTransport : RelayTransport (World unit) := {|
  processed := λ _ _, ret (DBool true);
  observeProcessed := λ _ _, throw (EError "unused");
  prepare := λ _ _ _ _, throw (EError "unused");
  receipt := λ _, ret (RFinal exReceipt);
  broadcast := λ _, ret tt |}.
Definition exWorld : World unit := mkWorld exReserved false false [] tt.

Lemma exTransport_cooperative : Cooperative exTransport (λ _, ret tt) (ret tt) (ret 5000).
Proof. by split; repeat intro. Qed.

Lemma relay_step_safe_witness :
  let w := (step exTransport (λ _, ret tt) (ret tt) (ret 5000) "0xa" None exWorld).2 in
  active w = false ∧ reachable (wst w) ∧
  ∃ new, events w = [] ++ new ∧ Forall (soundEvent "0xa") new ∧ relayOutcome "0xa" exWorld new w.
Proof.
  exact (proj2 (relay_step_safe exTransport (λ _, ret tt) (ret tt) (ret 5000) "0xa" None exWorld
    exTransport_cooperative exReserved_reachable) eq_refl).
Defined.

Example exStep_releases :
  let w := (step exTransport (λ _, ret tt) (ret tt) (ret 5000) "0xa" None exWorld).2 in
  relay (data (wst w)) = None
  ∧ events w = [Saw exEnvelope (RFinal exReceipt); Queried "0xq" 77 (DBool true); Saw exEnvelope (RFinal exReceipt)].
Proof. vm_compute. done. Qed.

(** A chain whose head is 100, on which query ["0xq"] was processed at block 90 or before. *)
Definition exBlockHash : string := SourceScan.exHash "b".
Definition exEvm : Evm unit := {|
  parseTx := λ _, Throw (EError "unused"); keccak256 := λ s, s;
  getBlockNumber := ret 100;
  getBlock := λ n, ret (Some {| SourceScan.number := n; SourceScan.bhash := Some exBlockHash |});
  getTransactionReceipt := λ _, ret None; getCode := λ _ _, ret "0x60";
  broadcastTransaction := ret; populateTransaction := λ _ _ _, throw (EError "unused");
  signTransaction := λ _, throw (EError "unused"); wallet_address := "0xs";
  asc_getAddress := ret "0xasc"; processedQueries := λ _ b, ret (DBool true); evm_now := ret 7 |}.

Lemma evm_query_observation_witness :
  observedAt exEvm "0xq" 95 exBlockHash true 6 ∧ 6 ≤ 6 ∧
  ∃ head, answered (getBlockNumber exEvm) head ∧ 95 = head - 6 + 1.
Proof.
  exact (evm_query_observation exEvm 6 "0xq" None tt tt
    {| qo_status := confirmed; qo_blockNumber := 95; qo_blockHash := exBlockHash;
       qo_confirmations := 6; qo_observedAt := 7 |} eq_refl).
Defined.
End Relay.
