(* ===== verification/Recovery.v ===== *)
(** Hub recovery, [src/worker/recovery.ts]: the one-time signer baseline, and the reconciliation
    of the durable relay history with the hub before a recovered worker may sign. *)

From Stdlib Require Import ZArith Lia String.
From stdpp Require Import base decidable option list strings sorting.
From S2P Require Import Prelude JS Store SourceScan Relay.
Local Open Scope string_scope.
Local Open Scope list_scope.
Local Open Scope Z_scope.

Module Recovery.
Import Store.

Inductive CountTag := Latest | Pending.

Record HubRecoveryReader (W : Type) := {
  transactionCount : string → CountTag → M W Z;
  hubBlockNumber : M W Z;
  hubBlock : Z → M W (option SourceScan.Block);
  hubReceipt : string → M W (option Relay.TxReceipt);
  hubProcessed : string → Z → M W Relay.Dyn }.
Arguments transactionCount {W} _ _ _.
Arguments hubBlockNumber {W} _.
Arguments hubBlock {W} _ _.
Arguments hubReceipt {W} _ _.
Arguments hubProcessed {W} _ _ _.

Definition integer (v : Z) : bool := safeNat v.

(** The evidence [JSON.stringify] serialises: two snapshots have the same string exactly when
    these agree. *)
Record TerminalEvidence := {
  te_txHash : string; te_state : JobState; te_ascTxHash : option string; te_queryId : option string;
  te_relayHistory : option (list RelayHistory); te_skipObservation : option SkipObservation }.
#[export] Instance TerminalEvidence_eq_dec : EqDecision TerminalEvidence.
Proof. solve_decision. Defined.

Record Evidence := {
  ev_hubStartNonce : option Z; ev_hubHold : option string; ev_relay : option RelayEnvelope;
  ev_terminal : list TerminalEvidence }.
#[export] Instance Evidence_eq_dec : EqDecision Evidence.
Proof. solve_decision. Defined.

Definition terminalEvidence (j : Job) : TerminalEvidence := {|
  te_txHash := txHash j; te_state := state j; te_ascTxHash := ascTxHash j; te_queryId := queryId j;
  te_relayHistory := relayHistory j; te_skipObservation := skipObservation j |}.

Section recovery.
Context {W : Type} `{Lens W StoreSt}.
Context (hub : HubRecoveryReader W).
(** [a.localeCompare(b) <= 0] under the host's locale. *)
Context (localeLe : string → string → bool).

Definition evidenceIdentity (s : RecoverySnapshot) : Evidence := {|
  ev_hubStartNonce := rs_hubStartNonce s; ev_hubHold := rs_hubHold s; ev_relay := rs_relay s;
  ev_terminal := sort_by (λ a b, localeLe (te_txHash a) (te_txHash b))
    (map terminalEvidence (filter (λ j, terminalState (state j)) (dvalues (rs_jobs s)))) |}.

Definition hold {A} (reason : string) : M W A := zoom (holdHub reason).
Definition snapshotNow : M W RecoverySnapshot :=
  gets (λ w, recoverySnapshot (data (lens_get w))).

(** A job the initializer may not disown. *)
Definition hasSignerHistory (j : Job) : bool :=
  truthy (ascTxHash j) || match relayHistory j with Some (_ :: _) => true | _ => false end
  || bool_decide (state j = submitted) || bool_decide (state j = done) || bool_decide (state j = dead).

Definition initializeHubRecovery : M W unit :=
  zoom assertHubReady ;;;
  let! snapshot := snapshotNow in
  match rs_scope snapshot with
  | None => hold "HUB_SIGNER_BASELINE_REQUIRES_RECONCILIATION"
  | Some sc =>
      if bool_decide (is_Some (rs_hubStartNonce snapshot)) || bool_decide (is_Some (rs_relay snapshot))
         || existsb hasSignerHistory (dvalues (rs_jobs snapshot))
      then hold "HUB_SIGNER_BASELINE_REQUIRES_RECONCILIATION"
      else
        let! latest := transactionCount hub (signer sc) Latest in
        let! pending := transactionCount hub (signer sc) Pending in
        require (integer latest && integer pending) (EHubSafety "HUB_RECOVERY_OBSERVATION_UNAVAILABLE") ;;;
        when (negb (latest =? 0) || negb (pending =? 0)) (hold "HUB_SIGNER_BASELINE_REQUIRES_RECONCILIATION") ;;;
        zoom (initializeHubSigner 0)
  end.

(** Line 51 to 55. *)
Definition counts (signer : string) : M W (Z * Z) :=
  let! latest := transactionCount hub signer Latest in
  let! pending := transactionCount hub signer Pending in
  require (integer latest && integer pending && (latest <=? pending))
    (EHubSafety "HUB_RECOVERY_OBSERVATION_UNAVAILABLE") ;;;
  ret (latest, pending).

(** Line 59 to 66: the done and dead jobs with their one history entry. *)
Fixpoint collectTerminal (js : list Job) : M W (list (Job * RelayHistory)) :=
  match js with
  | [] => ret []
  | j :: js =>
      if bool_decide (state j = done) || bool_decide (state j = dead) then
        match relayHistory j with
        | Some [h] =>
            if truthy (queryId j) && truthy (ascTxHash j)
            then let! rest := collectTerminal js in ret ((j, h) :: rest)
            else hold "HUB_TERMINAL_HISTORY_REQUIRES_RECONCILIATION"
        | _ => hold "HUB_TERMINAL_HISTORY_REQUIRES_RECONCILIATION"
        end
      else match relayHistory j with
           | Some (_ :: _) => hold "HUB_TERMINAL_HISTORY_REQUIRES_RECONCILIATION"
           | _ => collectTerminal js
           end
  end.

(** Line 68 to 72: consecutive nonces from the baseline. *)
Fixpoint checkNonces (expected : Z) (ts : list (Job * RelayHistory)) : M W unit :=
  match ts with
  | [] => ret tt
  | (_, h) :: ts =>
      if negb (integer (rh_nonce h)) || negb (rh_nonce h =? expected)
      then hold "HUB_NONCE_HISTORY_REQUIRES_RECONCILIATION"
      else checkNonces (expected + 1) ts
  end.

Definition statusCode (s : ReceiptStatus) : Z := match s with success => 1 | reverted => 0 end.

(** Line 75 to 92, one terminal job. *)
Definition checkTerminal (signer asc : string) (head confirmations : Z) (t : Job * RelayHistory)
    : M W unit :=
  let '(job, h) := t in
  let! receipt := hubReceipt hub (rh_hash h) in
  match receipt with
  | None => hold "HUB_TERMINAL_HISTORY_NOT_CANONICAL"
  | Some r =>
      if negb (String.eqb (Relay.tr_hash r) (rh_hash h)
               && String.eqb (toLowerCase (Relay.tr_from r)) signer
               && bool_decide (toLowerCase <$> Relay.tr_to r = Some asc)
               && bool_decide (Relay.tr_status r = Some (statusCode (rh_status h)))
               && (Relay.tr_blockNumber r =? rh_blockNumber h)
               && String.eqb (Relay.tr_blockHash r) (rh_blockHash h)
               && integer (Relay.tr_blockNumber r) && isBytes32 (Relay.tr_blockHash r)
               && (Relay.tr_blockNumber r <=? head)
               && (confirmations <=? head - Relay.tr_blockNumber r + 1))
      then hold "HUB_TERMINAL_HISTORY_NOT_CANONICAL"
      else
        let! block := hubBlock hub (Relay.tr_blockNumber r) in
        when (negb (Relay.sameBlock block (Relay.tr_blockNumber r) (Relay.tr_blockHash r)))
          (hold "HUB_TERMINAL_HISTORY_NOT_CANONICAL") ;;;
        match rh_status h with
        | success =>
            let! v := hubProcessed hub (default "" (queryId job)) (Relay.tr_blockNumber r) in
            match v with
            | Relay.DOther _ => throw (EHubSafety "HUB_RECOVERY_OBSERVATION_UNAVAILABLE")
            | Relay.DBool b => when (negb b) (hold "HUB_TERMINAL_QUERY_NOT_CANONICAL")
            end
        | reverted => ret tt
        end ;;;
        let! again := hubBlock hub (Relay.tr_blockNumber r) in
        when (negb (Relay.sameBlock again (Relay.tr_blockNumber r) (Relay.tr_blockHash r)))
          (hold "HUB_TERMINAL_HISTORY_NOT_CANONICAL")
  end.

(** Line 93 to 105, one job. *)
Definition checkSkipped (head confirmations : Z) (job : Job) : M W unit :=
  if negb (bool_decide (state job = skipped)) then ret tt
  else
    match skipObservation job with
    | None => hold "HUB_SKIP_OBSERVATION_NOT_CANONICAL"
    | Some o =>
        if negb (truthy (queryId job) && integer (so_blockNumber o) && isBytes32 (so_blockHash o)
                 && (so_blockNumber o <=? head) && (confirmations <=? head - so_blockNumber o + 1))
        then hold "HUB_SKIP_OBSERVATION_NOT_CANONICAL"
        else
          let! block := hubBlock hub (so_blockNumber o) in
          when (negb (Relay.sameBlock block (so_blockNumber o) (so_blockHash o)))
            (hold "HUB_SKIP_OBSERVATION_NOT_CANONICAL") ;;;
          let! v := hubProcessed hub (default "" (queryId job)) (so_blockNumber o) in
          when (negb (Relay.dynTruthy v)) (hold "HUB_SKIP_OBSERVATION_NOT_CANONICAL") ;;;
          let! again := hubBlock hub (so_blockNumber o) in
          when (negb (Relay.sameBlock again (so_blockNumber o) (so_blockHash o)))
            (hold "HUB_SKIP_OBSERVATION_NOT_CANONICAL")
    end.

Definition nonceLe (a b : Job * RelayHistory) : bool := rh_nonce a.2 - rh_nonce b.2 <=? 0.

(** Line 106 to 115. *)
Definition checkCounts (snapshot : RecoverySnapshot) (signer : string) (expected : Z) : M W unit :=
  let! (latest, pending) := counts signer in
  let! now := snapshotNow in
  if negb (bool_decide (evidenceIdentity now = evidenceIdentity snapshot)) then ret tt
  else
    match rs_relay snapshot with
    | Some r =>
        when (negb ((re_nonce r =? expected)
                    && ((latest =? expected) || (latest =? expected + 1))
                    && ((pending =? expected) || (pending =? expected + 1))))
          (hold "HUB_SIGNER_NONCE_DIVERGED")
    | None => when (negb ((latest =? expected) && (pending =? expected))) (hold "HUB_SIGNER_NONCE_DIVERGED")
    end.

Definition reconcileHubRecovery (confirmations : Z) : M W unit :=
  zoom assertHubReady ;;;
  require (SourceScan.positiveSafe confirmations) (EHubSafety "HUB_RECOVERY_SETTINGS_INVALID") ;;;
  let! snapshot := snapshotNow in
  match rs_scope snapshot with
  | None => throw (EHubSafety "HUB_RECOVERY_SCOPE_UNBOUND")
  | Some sc =>
      let sgn := toLowerCase (signer sc) in
      let asc_ := toLowerCase (asc sc) in
      match rs_hubStartNonce snapshot with
      | None => hold "HUB_SIGNER_BASELINE_REQUIRES_RECONCILIATION"
      | Some baseline =>
          when (negb (integer baseline)) (hold "HUB_SIGNER_BASELINE_REQUIRES_RECONCILIATION") ;;;
          let! collected := collectTerminal (dvalues (rs_jobs snapshot)) in
          let terminal := sort_by nonceLe collected in
          checkNonces baseline terminal ;;;
          let! head := hubBlockNumber hub in
          require (integer head) (EHubSafety "HUB_RECOVERY_OBSERVATION_UNAVAILABLE") ;;;
          forM terminal (checkTerminal sgn asc_ head confirmations) ;;;
          forM (dvalues (rs_jobs snapshot)) (checkSkipped head confirmations) ;;;
          checkCounts snapshot sgn (baseline + Z.of_nat (length terminal))
      end
  end.

(** * What a passed reconciliation rests on

    Stated over a reading [R] of the hub: [R m a] says the read [m] gives [a] (at some moment,
    or at every moment). *)

Context (R : ∀ A, M W A → A → Prop).
Arguments R {A} _ _.

Definition blockHolds (n : Z) (h : string) : Prop :=
  ∃ b, R (hubBlock hub n) b ∧ Relay.sameBlock b n h = true.

(** A terminal job's one history entry is the signer's transaction to the contract, canonical
    and [confirmations] deep, and for a success its query is processed at that block. *)
Definition canonicalTerminal (sgn asc_ : string) (head confirmations : Z) (t : Job * RelayHistory)
    : Prop :=
  ∃ r, R (hubReceipt hub (rh_hash t.2)) (Some r)
    ∧ Relay.tr_hash r = rh_hash t.2 ∧ toLowerCase (Relay.tr_from r) = sgn
    ∧ toLowerCase <$> Relay.tr_to r = Some asc_
    ∧ Relay.tr_status r = Some (statusCode (rh_status t.2))
    ∧ Relay.tr_blockNumber r = rh_blockNumber t.2 ∧ Relay.tr_blockHash r = rh_blockHash t.2
    ∧ integer (rh_blockNumber t.2) = true ∧ isBytes32 (rh_blockHash t.2) = true
    ∧ rh_blockNumber t.2 ≤ head ∧ confirmations ≤ head - rh_blockNumber t.2 + 1
    ∧ blockHolds (rh_blockNumber t.2) (rh_blockHash t.2)
    ∧ (rh_status t.2 = success →
       R (hubProcessed hub (default "" (queryId t.1)) (rh_blockNumber t.2)) (Relay.DBool true)).

Definition canonicalSkip (head confirmations : Z) (j : Job) : Prop :=
  state j = skipped → ∃ o v, skipObservation j = Some o ∧ truthy (queryId j) = true
    ∧ integer (so_blockNumber o) = true ∧ isBytes32 (so_blockHash o) = true
    ∧ so_blockNumber o ≤ head ∧ confirmations ≤ head - so_blockNumber o + 1
    ∧ blockHolds (so_blockNumber o) (so_blockHash o)
    ∧ R (hubProcessed hub (default "" (queryId j)) (so_blockNumber o)) v ∧ Relay.dynTruthy v = true.

Definition isTerminalRelay (j : Job) : bool :=
  bool_decide (state j = done) || bool_decide (state j = dead).

(** [ts] pairs every done or dead job with its only history entry; no other job has history. *)
Definition completeHistory (d : Data) (ts : list (Job * RelayHistory)) : Prop :=
  map fst ts ≡ₚ filter (λ j, isTerminalRelay j) (dvalues (jobs d))
  ∧ Forall (λ t, relayHistory t.1 = Some [t.2] ∧ truthy (queryId t.1) = true
                 ∧ truthy (ascTxHash t.1) = true) ts
  ∧ Forall (λ j, isTerminalRelay j = false → relayHistory j = None ∨ relayHistory j = Some [])
      (dvalues (jobs d)).

(** Every nonce the signer has used since the baseline belongs to one recorded job, and the
    hub's counts leave room for at most the envelope in flight. *)
Definition noncesAgree (d : Data) (expected latest pending : Z) : Prop :=
  match relay d with
  | Some r => re_nonce r = expected ∧ (latest = expected ∨ latest = expected + 1)
              ∧ (pending = expected ∨ pending = expected + 1)
  | None => latest = expected ∧ pending = expected
  end.

Definition Reconciled (confirmations : Z) (d d' : Data) : Prop :=
  truthy (hubHold d) = false ∧ 1 ≤ confirmations ≤ MAX_SAFE_INTEGER ∧
  ∃ sc baseline ts head latest pending,
    scope d = Some sc ∧ hubStartNonce d = Some baseline ∧ integer baseline = true
    ∧ completeHistory d ts
    ∧ map (λ t, rh_nonce t.2) ts = seqZ baseline (Z.of_nat (length ts))
    ∧ Forall (λ t, integer (rh_nonce t.2) = true) ts
    ∧ R (hubBlockNumber hub) head ∧ integer head = true
    ∧ Forall (canonicalTerminal (toLowerCase (signer sc)) (toLowerCase (asc sc)) head confirmations) ts
    ∧ Forall (canonicalSkip head confirmations) (dvalues (jobs d))
    ∧ R (transactionCount hub (toLowerCase (signer sc)) Latest) latest
    ∧ R (transactionCount hub (toLowerCase (signer sc)) Pending) pending
    ∧ integer latest = true ∧ integer pending = true ∧ latest ≤ pending
    ∧ (evidenceIdentity (recoverySnapshot d') ≠ evidenceIdentity (recoverySnapshot d)
       ∨ noncesAgree d (baseline + Z.of_nat (length ts)) latest pending).
End recovery.

Section soundness.
Context {W : Type} `{Lens W StoreSt}.
Context (hub : HubRecoveryReader W) (localeLe : string → string → bool).
Local Abbreviation Ans := (λ A, @answered W A).

(** A hold never returns. *)
Lemma wp_hold {A} reason (Q : outcome A → W → Prop) w : (∀ e w', Q (Throw e) w') → wp (hold reason) Q w.
Proof.
  intros HQ. unfold wp, hold, zoom, holdHub, bind, gets, throw. 
  destruct (commit _ _) as [[[]|e] s]; apply HQ.
Qed.

Lemma wp_when_hold b reason (Q : outcome unit → W → Prop) w :
  (b = false → Q (Ok tt) w) → (∀ e w', Q (Throw e) w') → wp (when b (hold reason)) Q w.
Proof. intros HQ He. apply wp_when; [intros _; by apply wp_hold|done]. Qed.

Ltac rd := apply wp_bind; apply wp_read; [intros ? ? ?|by intros].
Ltac held := apply wp_hold; by intros.
Ltac guard_hold := apply wp_bind; apply wp_when_hold; [intros ?|by intros].

Lemma collectTerminal_sound js w :
  wp (collectTerminal js) (λ o w', ∀ ts, o = Ok ts →
    w' = w ∧ map fst ts = filter (λ j, isTerminalRelay j) js
    ∧ Forall (λ t, relayHistory t.1 = Some [t.2] ∧ truthy (queryId t.1) = true
                   ∧ truthy (ascTxHash t.1) = true) ts
    ∧ Forall (λ j, isTerminalRelay j = false → relayHistory j = None ∨ relayHistory j = Some []) js) w.
Proof.
  induction js as [|j js IH]; simpl.
  { apply wp_ret. intros ts [= <-]. done. }
  rewrite filter_cons. destruct (bool_decide _ || _) eqn:Ht.
  - rewrite decide_True by by rewrite Is_true_true.
    destruct (relayHistory j) as [[|h [|]]|] eqn:Hh; try held.
    destruct (truthy (queryId j) && truthy (ascTxHash j)) eqn:Hq; [|held].
    apply andb_true_iff in Hq as [? ?].
    apply wp_bind. eapply wp_mono; [exact IH|]. intros [ts|e] w' Hts; [|done].
    destruct (Hts ts eq_refl) as (-> & Hm & Hf & Hn). apply wp_ret. intros ts' [= <-]. simpl.
    split_and!; [done|by f_equal|by constructor|constructor; [|done]].
    unfold isTerminalRelay. by rewrite Ht.
  - rewrite decide_False by (unfold isTerminalRelay; rewrite Ht; by intros []).
    assert (relayHistory j = None ∨ relayHistory j = Some [] →
      wp (collectTerminal js) (λ o w', ∀ ts, o = Ok ts →
        w' = w ∧ map fst ts = filter (λ j, isTerminalRelay j) js
        ∧ Forall (λ t, relayHistory t.1 = Some [t.2] ∧ truthy (queryId t.1) = true
                       ∧ truthy (ascTxHash t.1) = true) ts
        ∧ Forall (λ j, isTerminalRelay j = false → relayHistory j = None ∨ relayHistory j = Some [])
            (j :: js)) w) as Hgo.
    { intros Hh. eapply wp_mono; [exact IH|]. intros o w' Hts ts Ho.
      destruct (Hts ts Ho) as (? & ? & ? & ?). split_and!; [done..|]. by constructor. }
    destruct (relayHistory j) as [[|]|]; [apply Hgo; by right|held|apply Hgo; by left].
Qed.

Lemma checkNonces_sound ts n w :
  wp (checkNonces n ts) (λ o w', o = Ok tt → w' = w
    ∧ map (λ t, rh_nonce t.2) ts = seqZ n (Z.of_nat (length ts))
    ∧ Forall (λ t, integer (rh_nonce t.2) = true) ts) w.
Proof.
  revert n. induction ts as [|[j h] ts IH]; intros n; simpl; [by apply wp_ret|].
  destruct (integer (rh_nonce h)) eqn:Hi; simpl; [|held].
  destruct (rh_nonce h =? n) eqn:Hn; simpl; [|held]. apply Z.eqb_eq in Hn.
  eapply wp_mono; [apply IH|]. intros o w' Ho Hok. destruct (Ho Hok) as (-> & Hm & Hf).
  split_and!; [done| |by constructor]. rewrite seqZ_cons by lia. f_equal; [done|].
  rewrite Hm. f_equal; lia.
Qed.

Lemma checkTerminal_sound sgn asc_ head conf t w :
  wp (checkTerminal hub sgn asc_ head conf t)
    (λ o _, o = Ok tt → canonicalTerminal hub Ans sgn asc_ head conf t) w.
Proof.
  unfold checkTerminal. destruct t as [j h]. rd.
  match goal with |- wp (match ?o with _ => _ end) _ _ => destruct o as [r|]; [|held] end.
  match goal with |- wp (if negb ?b then _ else _) _ _ => destruct b eqn:Hg; [|held] end.
  repeat match goal with Hb : _ && _ = true |- _ => apply andb_true_iff in Hb as [? ?] end.
  simpl. rd. guard_hold. apply wp_bind.
  assert (∀ w, wp (match rh_status h with
     | success => let! v := hubProcessed hub (default "" (queryId j)) (Relay.tr_blockNumber r) in
                  match v with
                  | Relay.DBool b => when (negb b) (hold "HUB_TERMINAL_QUERY_NOT_CANONICAL")
                  | Relay.DOther _ => throw (EHubSafety "HUB_RECOVERY_OBSERVATION_UNAVAILABLE")
                  end
     | reverted => ret tt end)
    (λ o _, o = Ok tt → rh_status h = success →
       answered (hubProcessed hub (default "" (queryId j)) (Relay.tr_blockNumber r)) (Relay.DBool true)) w) as Hp.
  { intros w0. destruct (rh_status h); [|by apply wp_ret]. rd.
    match goal with |- wp (match ?o with _ => _ end) _ _ => destruct o as [[]|]; [..|by apply wp_throw] end.
    - by apply wp_ret.
    - held. }
  eapply wp_mono; [apply Hp|]. intros [[]|e] wp_ Hok; [|done]. specialize (Hok eq_refl).
  rd. apply wp_when_hold; [intros Hb2 _|done].
  repeat match goal with
  | Hb : String.eqb _ _ = true |- _ => apply String.eqb_eq in Hb
  | Hb : (_ =? _) = true |- _ => apply Z.eqb_eq in Hb
  | Hb : (_ <=? _) = true |- _ => apply Z.leb_le in Hb
  | Hb : bool_decide _ = true |- _ => apply bool_decide_eq_true in Hb
  | Hb : negb _ = false |- _ => apply negb_false_iff in Hb
  end.
  exists r. simpl. match goal with Hn : Relay.tr_blockNumber r = _ |- _ => rewrite Hn in * end.
  match goal with Hn : Relay.tr_blockHash r = _ |- _ => rewrite Hn in * end.
  split_and!; try done. eexists. split; [|eassumption]. eassumption.
Qed.

Lemma checkSkipped_sound head conf j w :
  wp (checkSkipped hub head conf j) (λ o _, o = Ok tt → canonicalSkip hub Ans head conf j) w.
Proof.
  unfold checkSkipped, canonicalSkip. case_bool_decide as Hst; simpl; [|by apply wp_ret].
  destruct (skipObservation j) as [o|]; [|held].
  match goal with |- wp (if negb ?b then _ else _) _ _ => destruct b eqn:Hg; [|held] end. simpl.
  apply andb_true_iff in Hg as [[[[Hq Hi]%andb_true_iff Hh]%andb_true_iff Hle%Z.leb_le]%andb_true_iff
    Hc%Z.leb_le].
  rd. guard_hold. rd. guard_hold. rd. apply wp_when_hold; [intros Hb _ _|done].
  repeat match goal with Hb : negb _ = false |- _ => apply negb_false_iff in Hb end.
  eexists o, _. split_and!; try done. by eexists.
Qed.

Lemma snapshot_bind {A} (k : RecoverySnapshot → M W A) (Q : outcome A → W → Prop) w :
  wp (k (recoverySnapshot (data (lens_get w)))) Q w → wp (bind snapshotNow k) Q w.
Proof. intros Hk. apply wp_bind, wp_gets. exact Hk. Qed.

Lemma checkCounts_sound d sgn expected w :
  wp (checkCounts hub localeLe (recoverySnapshot d) sgn expected) (λ o w', o = Ok tt →
    ∃ latest pending, answered (transactionCount hub sgn Latest) latest
    ∧ answered (transactionCount hub sgn Pending) pending
    ∧ integer latest = true ∧ integer pending = true ∧ latest ≤ pending
    ∧ (evidenceIdentity localeLe (recoverySnapshot (data (lens_get w')))
         ≠ evidenceIdentity localeLe (recoverySnapshot d)
       ∨ noncesAgree d expected latest pending)) w.
Proof.
  unfold checkCounts, counts. apply wp_bind. rd. rd. apply wp_bind, wp_require; [|done].
  intros [[Hi Hp]%andb_true_iff Hle%Z.leb_le]%andb_true_iff. apply wp_ret, snapshot_bind.
  case_bool_decide as Hev; simpl.
  2:{ apply wp_ret. intros _. eexists _, _. split_and!; try done. by left. }
  unfold noncesAgree. destruct (relay d) as [r|]; apply wp_when_hold; try done;
    intros Hb%negb_false_iff _; eexists _, _; split_and!; try done; right.
  - apply andb_true_iff in Hb as [[HA%Z.eqb_eq HB%orb_true_iff]%andb_true_iff HC%orb_true_iff].
    rewrite !Z.eqb_eq in *. done.
  - by apply andb_true_iff in Hb as [HA%Z.eqb_eq HB%Z.eqb_eq].
Qed.

Lemma assertHub_bind {A} (m : M W A) (Q : outcome A → W → Prop) w :
  (truthy (hubHold (data (lens_get w))) = false → wp m Q w) → (∀ e w', Q (Throw e) w') →
  wp (zoom assertHubReady ;;; m) Q w.
Proof.
  intros Hm He. apply wp_bind. unfold wp at 1, zoom, assertHubReady, bind, gets.
  destruct (truthy _) eqn:Hh; simpl; [apply He|]. rewrite lens_set_get. auto.
Qed.

Lemma reconcile_ok_sound conf w :
  wp (reconcileHubRecovery hub localeLe conf)
    (λ o w', o = Ok tt →
       Reconciled hub localeLe Ans conf (data (lens_get w)) (data (lens_get w'))) w.
Proof.
  apply assertHub_bind; [intros Hhold|done]. apply wp_bind, wp_require; [|done].
  intros [Hs1%isSafeInteger_spec Hs2%Z.leb_le]%andb_true_iff. apply snapshot_bind.
  set (d := data (lens_get w)) in *. simpl. destruct (scope d) as [sc|] eqn:Hsc; [|done].
  destruct (hubStartNonce d) as [baseline|] eqn:Hbase; [|held].
  guard_hold. apply wp_bind. eapply wp_mono; [apply collectTerminal_sound|].
  intros [ts|e] w0 Hts; [|done]. destruct (Hts ts eq_refl) as (-> & Hm & Hf & Hn).
  apply wp_bind. eapply wp_mono; [apply checkNonces_sound|]. intros [[]|e] w1 Hnon; [|done].
  destruct (Hnon eq_refl) as (-> & Hseq & Hint). rd.
  apply wp_bind, wp_require; [intros Hhead|done].
  apply wp_bind. eapply wp_mono; [apply wp_forM_all; intros; apply checkTerminal_sound|].
  intros [[]|e] w2 Hterm; [|done]. specialize (Hterm eq_refl).
  apply wp_bind. eapply wp_mono; [apply wp_forM_all; intros; apply checkSkipped_sound|].
  intros [[]|e] w3 Hskip; [|done]. specialize (Hskip eq_refl).
  eapply wp_mono; [apply checkCounts_sound|]. intros o w4 Hc Hok.
  destruct (Hc Hok) as (latest & pending & ? & ? & ? & ? & ? & Hfin).
  split; [done|]. split; [lia|].
  exists sc, baseline, (sort_by nonceLe ts). eexists _, latest, pending.
  assert (integer baseline = true) by by apply negb_false_iff.
  split_and!; try done. split_and!.
  - by rewrite sort_by_perm, Hm.
  - by rewrite sort_by_perm.
  - done.
Qed.

(** * A canonical history passes *)

Local Abbreviation Pure := (λ A, @Relay.pureRead W A).

Lemma collectTerminal_ok js w ts :
  Forall (λ j, isTerminalRelay j = true → ∃ h, relayHistory j = Some [h]
    ∧ truthy (queryId j) = true ∧ truthy (ascTxHash j) = true) js →
  Forall (λ j, isTerminalRelay j = false → relayHistory j = None ∨ relayHistory j = Some []) js →
  map fst ts = filter (λ j, isTerminalRelay j) js →
  Forall (λ t, relayHistory t.1 = Some [t.2]) ts →
  collectTerminal js w = (Ok ts, w).
Proof.
  intros Hj Hn. revert ts. induction js as [|j js IH]; intros ts Hts Hh; simpl.
  { by destruct ts. }
  apply Forall_cons in Hj as [Hj Hjs], Hn as [Hnj Hns]. rewrite filter_cons in Hts.
  destruct (isTerminalRelay j) eqn:Ht.
  - rewrite decide_True in Hts by done. destruct ts as [|[j' h] ts]; [done|].
    injection Hts as -> Hts. apply Forall_cons in Hh as [Hh Hhs]. simpl in Hh.
    destruct (Hj eq_refl) as (h' & Hh' & Hq & Ha). unfold isTerminalRelay in Ht. rewrite Ht, Hh, Hq, Ha.
    simpl. by run_step (IH Hjs Hns ts Hts Hhs).
  - rewrite decide_False in Hts by by intros []. unfold isTerminalRelay in Ht. rewrite Ht.
    destruct (Hnj eq_refl) as [-> | ->]; by apply IH.
Qed.

Lemma checkNonces_ok ts n w :
  map (λ t, rh_nonce t.2) ts = seqZ n (Z.of_nat (length ts)) →
  Forall (λ t, integer (rh_nonce t.2) = true) ts → checkNonces n ts w = (Ok tt, w).
Proof.
  revert n. induction ts as [|[j h] ts IH]; intros n Hm Hi; simpl; [done|].
  apply Forall_cons in Hi as [Hi His]. simpl in Hm, Hi. rewrite seqZ_cons in Hm by lia.
  injection Hm as Hn Hm. rewrite Hi, Hn, Z.eqb_refl. simpl. apply IH; [|done].
  rewrite Hm. f_equal; lia.
Qed.

Lemma checkTerminal_ok sgn asc_ head conf t w :
  canonicalTerminal hub Pure sgn asc_ head conf t → checkTerminal hub sgn asc_ head conf t w = (Ok tt, w).
Proof.
  destruct t as [j h]. intros (r & Hr & E1 & E2 & E3 & E4 & E5 & E6 & Hi & Hh & Hle & Hc & (b & Hb & Hs) & Hq).
  simpl in *. unfold checkTerminal. run_step (Hr w).
  rewrite E1, E2, E3, E4, E5, E6, Hi, Hh, !String.eqb_refl, Z.eqb_refl, !bool_decide_eq_true_2,
    !(proj2 (Z.leb_le _ _)) by done. simpl.
  run_step (Hb w). rewrite Hs. simpl. run_pure. destruct (rh_status h).
  - etransitivity; [eapply bind_ok; run_step (Hq eq_refl w); reflexivity|].
    run_step (Hb w). by rewrite Hs.
  - run_pure. run_step (Hb w). by rewrite Hs.
Qed.

Lemma checkSkipped_ok head conf j w :
  canonicalSkip hub Pure head conf j → checkSkipped hub head conf j w = (Ok tt, w).
Proof.
  unfold canonicalSkip, checkSkipped. case_bool_decide as Hst; simpl; [|done].
  intros Hc. destruct (Hc Hst) as (o & v & -> & Hq & Hi & Hh & Hle & Hd & (b & Hb & Hs) & Hv & Ht).
  rewrite Hq, Hi, Hh, !(proj2 (Z.leb_le _ _)) by done. simpl.
  run_step (Hb w). rewrite Hs. run_pure. run_step (Hv w). rewrite Ht. run_pure.
  run_step (Hb w). by rewrite Hs.
Qed.

(** The consecutive nonces make the sorted history the given one. *)
Lemma sorted_history ts us n :
  map (λ t, rh_nonce t.2) ts = seqZ n (Z.of_nat (length ts)) → us ≡ₚ ts → sort_by nonceLe us = ts.
Proof.
  intros Hm Hp.
  assert (∀ x y : Job * RelayHistory, nonceLe x y = true ↔ rh_nonce x.2 ≤ rh_nonce y.2) as Hle.
  { intros x y. unfold nonceLe. rewrite Z.leb_le. lia. }
  assert (StronglySorted nonceLe ts ∧ ∀ x y, x ∈ ts → y ∈ ts → rh_nonce x.2 = rh_nonce y.2 → x = y)
    as [Hts Hinj].
  { clear Hp us. revert n Hm. induction ts as [|t ts IH]; intros n Hm; simpl in *.
    - split; [constructor|]. by intros ? ? ?%elem_of_nil.
    - rewrite seqZ_cons in Hm by lia. injection Hm as Hn Hm.
      destruct (IH (Z.succ n)) as [Hs Hi]; [rewrite Hm; f_equal; lia|].
      assert (∀ x, x ∈ ts → n < rh_nonce x.2) as Hgt.
      { intros x Hx. assert (rh_nonce x.2 ∈ map (λ t, rh_nonce t.2) ts) as Hin
          by by apply (list_elem_of_fmap_2 (λ t : Job * RelayHistory, rh_nonce t.2)).
        rewrite Hm in Hin. apply elem_of_seqZ in Hin. lia. }
      split.
      + constructor; [done|]. apply Forall_forall. intros x Hx. apply Is_true_true, Hle.
        specialize (Hgt x Hx). lia.
      + intros x y [->|Hx]%elem_of_cons [->|Hy]%elem_of_cons Heq; [done|..|by apply Hi].
        * specialize (Hgt y Hy). lia.
        * specialize (Hgt x Hx). lia. }
  apply (StronglySorted_unique_strong nonceLe).
  - intros x y Hx Hy H1%Is_true_true%Hle H2%Is_true_true%Hle. rewrite sort_by_perm, Hp in Hx.
    apply Hinj; [done|done|lia].
  - apply sort_by_sorted; intros; rewrite ?Hle in *; lia.
  - done.
  - by rewrite sort_by_perm.
Qed.

Lemma collected_history d ts :
  completeHistory d ts →
  ∃ us, us ≡ₚ ts ∧ ∀ w, collectTerminal (dvalues (jobs d)) w = (Ok us, w).
Proof.
  intros (Hp & Hf & Hn). set (g := λ j, (j, match relayHistory j with Some (h :: _) => h
    | _ => {| rh_hash := ""; rh_nonce := 0; rh_status := success; rh_blockNumber := 0; rh_blockHash := "" |} end)).
  assert (∀ t, t ∈ ts → g t.1 = t) as Hg.
  { intros [j h] Ht. rewrite Forall_forall in Hf. destruct (Hf _ Ht) as [Hh _]. simpl in *.
    unfold g. by rewrite Hh. }
  assert (∀ j, j ∈ filter (λ j, isTerminalRelay j) (dvalues (jobs d)) →
    ∃ t, t ∈ ts ∧ j = t.1) as Hin.
  { intros j Hj. rewrite <- Hp in Hj. apply list_elem_of_fmap in Hj as (t & -> & Ht). eauto. }
  rewrite Forall_forall in Hf.
  exists (map g (filter (λ j, isTerminalRelay j) (dvalues (jobs d)))). split.
  - rewrite <- Hp, map_map. rewrite (map_ext_in _ id); [by rewrite map_id|].
    intros t Ht%list_elem_of_In. by apply Hg.
  - intros w. apply collectTerminal_ok.
    + apply Forall_forall. intros j Hj Ht. destruct (Hin j) as (t & Hts & ->).
      { apply list_elem_of_filter. by rewrite Ht. }
      exists t.2. by apply Hf.
    + done.
    + rewrite map_map. simpl. apply map_id.
    + apply Forall_fmap, Forall_forall. intros j Hj. destruct (Hin j Hj) as (t & Ht & ->).
      change (relayHistory (g t.1).1 = Some [(g t.1).2]). rewrite Hg by done. by apply Hf.
Qed.

Lemma reconcile_ok_complete conf w d :
  d = data (lens_get w) → Reconciled hub localeLe Pure conf d d →
  reconcileHubRecovery hub localeLe conf w = (Ok tt, w).
Proof.
  intros Hd (Hhold & Hconf & sc & baseline & ts & head & latest & pending & Hsc & Hb & Hbi & Hc & Hm & Hint
    & Hhead & Hhi & Hterm & Hskip & Hl & Hp & Hli & Hpi & Hle & Hfin).
  destruct (collected_history d ts Hc) as (us & Hus & Hcol).
  assert (zoom assertHubReady w = (Ok tt, w)) as Has.
  { unfold zoom, assertHubReady, bind, gets. rewrite <- Hd, Hhold. simpl. by rewrite lens_set_get. }
  unfold reconcileHubRecovery. run_step Has.
  assert (SourceScan.positiveSafe conf = true) as ->.
  { apply andb_true_iff. split; [apply isSafeInteger_spec|apply Z.leb_le]; unfold MAX_SAFE_INTEGER in *; lia. }
  run_pure. run_pure. rewrite <- Hd. simpl. rewrite Hsc, Hb, Hbi.
  run_pure. run_step (Hcol w). rewrite (sorted_history ts us baseline Hm Hus).
  run_step (checkNonces_ok ts baseline w Hm Hint). run_step (Hhead w). rewrite Hhi. run_pure.
  rewrite Forall_forall in Hterm. rewrite Forall_forall in Hskip.
  run_step (forM_ok ts (checkTerminal hub (toLowerCase (signer sc)) (toLowerCase (asc sc)) head conf) w
    (λ t Ht, checkTerminal_ok _ _ _ _ t w (Hterm t Ht))).
  run_step (forM_ok (dvalues (jobs d)) (checkSkipped hub head conf) w
    (λ j Hj, checkSkipped_ok _ _ j w (Hskip j Hj))).
  unfold checkCounts, counts.
  etransitivity; [eapply bind_ok; run_step (Hl w); run_step (Hp w);
    rewrite Hli, Hpi, (proj2 (Z.leb_le _ _)) by done; reflexivity|].
  run_pure. rewrite <- Hd. destruct Hfin as [?|Hfin]; [done|].
  rewrite bool_decide_eq_true_2 by done. simpl. unfold noncesAgree in Hfin.
  destruct (relay d) as [r|].
  - destruct Hfin as (-> & H1 & H2). rewrite Z.eqb_refl, <- !Z.eqb_eq, <- !orb_true_iff in *.
    by rewrite H1, H2.
  - destruct Hfin as [-> ->]. by rewrite !Z.eqb_refl.
Qed.
End soundness.

(** Reconciliation returns only if every done or dead job has exactly one
    history entry, the entries have the consecutive nonces from the baseline, each is a
    canonical, deep enough transaction of the signer to the contract (with its query
    processed, for a success), each skip observation is canonical, and the hub counts
    leave room for at most the envelope in flight; and when the hub stably says so it
    does return and changes nothing. *)
Theorem reconcile_iff_canonical {W} `{Lens W StoreSt} (hub : HubRecoveryReader W)
    (localeLe : string → string → bool) (confirmations : Z) (w : W) :
  (∀ w', reconcileHubRecovery hub localeLe confirmations w = (Ok tt, w') →
     Reconciled hub localeLe (λ A, @answered W A) confirmations
       (data (lens_get w)) (data (lens_get w'))) ∧
  (Reconciled hub localeLe (λ A, @Relay.pureRead W A) confirmations
     (data (lens_get w)) (data (lens_get w)) →
   reconcileHubRecovery hub localeLe confirmations w = (Ok tt, w)).
Proof.
  split.
  - intros w' Hrun. by apply (wp_run _ _ _ _ _ (reconcile_ok_sound hub localeLe confirmations w) Hrun).
  - by apply reconcile_ok_complete.
Qed.

(** ** Concrete run: one confirmed relay since the baseline *)

Definition exHash : string := SourceScan.exHash "b".
Definition exDone : StoreSt := runOps
  [OFinishRelay "0xh" {| rc_status := success; rc_blockNumber := 77; rc_blockHash := exHash |} 3000]
  exReserved.
Definition exHub : HubRecoveryReader StoreSt := {|
  transactionCount := λ _ _, ret 1; hubBlockNumber := ret 100;
  hubBlock := λ n, ret (Some {| SourceScan.number := n; SourceScan.bhash := Some exHash |});
  hubReceipt := λ h, ret (Some {| Relay.tr_hash := h; Relay.tr_from := "0xSigner";
    Relay.tr_to := Some "0xASC"; Relay.tr_status := Some 1; Relay.tr_blockNumber := 77;
    Relay.tr_blockHash := exHash |});
  hubProcessed := λ _ _, ret (Relay.DBool true) |}.

Lemma reconcile_iff_canonical_witness :
  Reconciled exHub str_leb (λ A, @answered StoreSt A) 6
    (data (lens_get exDone)) (data (lens_get exDone)).
Proof. refine (proj1 (reconcile_iff_canonical exHub str_leb 6 exDone) exDone _). vm_compute. reflexivity. Defined.
End Recovery.
