(* ===== verification/Roster.v ===== *)
(** The epoch roster, [src/pipeline/roster.ts]: a positional Merkle tree over sorted subject keys
    with sentinels, its inclusion proofs and its non-membership proofs. *)

From Stdlib Require Import ZArith Lia Ascii String List.
From stdpp Require Import base decidable option list strings sets sorting.
From S2P Require Import Prelude JS.
Local Open Scope string_scope.
Local Open Scope list_scope.
Local Open Scope Z_scope.

Module Roster.

Record RosterEntry := {
  subject : string; attrs : string; claimsRoot : string; evidenceHash : string; issuer : string }.

Record RosterTree := {
  formatVersion : Z;
  entries : list RosterEntry;
  keys : list string;
  marks : list string;
  leaves : list string;
  layers : list (list string);
  root : string }.

Definition leafIndexOf (i : Z) : Z := i + 1.

Definition EVM_NAMESPACE : string := "eip155".
Definition ROSTER_FORMAT_VERSION : Z := 2.

Fixpoint repeatStr (s : string) (n : nat) : string :=
  match n with O => "" | S n => s +:+ repeatStr s n end.

Definition MIN_KEY : string := "0x" +:+ repeatStr "00" 32.
Definition MAX_KEY : string := "0x" +:+ repeatStr "ff" 32.
Definition SENTINEL_MARK : string := "0x" +:+ repeatStr "00" 32.

Definition canonicalBytes32 (v : string) : option string :=
  if isBytes32 v then Some (toLowerCase v) else None.

(** * Packed preimages

    [ethers.solidityPacked] of a tag byte and two 32-byte words (hexadecimal strings of any
    case); it throws on anything else. *)

Definition hexBody (s : string) : string := match s with String _ (String _ b) => b | _ => "" end.

Definition hexDigit (n : Z) : ascii :=
  ascii_of_nat (Z.to_nat (if n <? 10 then 48 + n else 87 + n)).
(** [k] hexadecimal digits of [n], most significant first. *)
Fixpoint hexDigits (k : nat) (n : Z) : string :=
  match k with
  | O => ""
  | S k => hexDigits k (n / 16) +:+ String (hexDigit (n mod 16)) ""
  end.

Definition packWords (tag : string) (a b : string) : string := "0x" +:+ tag +:+ hexBody a +:+ hexBody b.

Definition packed (tag : string) (a b : string) : outcome string :=
  match canonicalBytes32 a, canonicalBytes32 b with
  | Some a, Some b => Ok (packWords tag a b)
  | _, _ => Throw (EError "INVALID_ARGUMENT")
  end.

(** [solidityPacked(['bytes1', 'uint256', 'bytes32'], ['0x02', n, top])] *)
Definition rootPre (n : Z) (top : string) : string := "0x02" +:+ hexDigits 64 n +:+ hexBody top.

Record InclusionProof := { index : Z; leafCount : Z; siblings : list string }.

Record NonInclusionProof := {
  left : InclusionProof; leftKey : string; leftMark : string;
  right : InclusionProof; rightKey : string; rightMark : string }.

Section roster.
(** The ethers library: hashing, ABI encoding and address parsing. *)
Context (keccak256 : string → string).
Context (getAddress : string → outcome string).
Context (abiEncodeKey : string → string → string).
Context (abiEncodeMark : string → string → string → string → outcome string).

Definition subjectKey (subject namespace : string) : outcome string :=
  let? a := getAddress subject in Ok (keccak256 (abiEncodeKey namespace a)).

Definition markHash (e : RosterEntry) : outcome string :=
  let? a := getAddress (issuer e) in
  let? enc := abiEncodeMark (attrs e) (claimsRoot e) (evidenceHash e) a in
  Ok (keccak256 enc).

Definition leafOf (key mark : string) : outcome string :=
  let? p := packed "00" key mark in Ok (keccak256 p).

Definition rosterLeaf (e : RosterEntry) (namespace : string) : outcome string :=
  let? k := subjectKey (subject e) namespace in let? m := markHash e in leafOf k m.

Definition hashNode (l r : string) : outcome string :=
  let? p := packed "01" l r in Ok (keccak256 p).

Definition rosterRoot (treeRoot : string) (leafCount : Z) : outcome string :=
  let? _ := orequire (isSafeInteger leafCount && (2 <=? leafCount)) (EError "invalid roster leaf count") in
  match canonicalBytes32 treeRoot with
  | Some r => Ok (keccak256 (rootPre leafCount r))
  | None => Throw (EError "INVALID_ARGUMENT")
  end.

Definition keyLe (a b : RosterEntry * string) : bool := negb (str_ltb b.2 a.2).

Fixpoint checkDuplicates (l : list (RosterEntry * string)) : outcome unit :=
  match l with
  | (_, k) :: (((e', k') :: _) as l') =>
      if String.eqb k' k then Throw (EError ("buildRoster: duplicate subject " +:+ subject e'))
      else checkDuplicates l'
  | _ => Ok tt
  end.

Fixpoint checkSentinels (l : list (RosterEntry * string)) : outcome unit :=
  match l with
  | [] => Ok tt
  | (e, k) :: l =>
      if String.eqb k MIN_KEY || String.eqb k MAX_KEY
      then Throw (EError ("buildRoster: " +:+ subject e +:+ " collides with a sentinel key"))
      else checkSentinels l
  end.

(** Line 125 to 128: one layer above [cur]; an odd tail is paired with itself. *)
Fixpoint nextLayer (cur : list string) : outcome (list string) :=
  match cur with
  | [] => Ok []
  | [x] => let? h := hashNode x x in Ok [h]
  | x :: y :: cur => let? h := hashNode x y in let? rest := nextLayer cur in Ok (h :: rest)
  end.

(** The [while] loop; every round halves the layer, so its length is fuel enough. *)
Fixpoint buildLayers (fuel : nat) (cur : list string) : outcome (list (list string)) :=
  match fuel with
  | O => Throw (EError "out of fuel")
  | S fuel =>
      if (length cur <=? 1)%nat then Ok [cur]
      else let? next := nextLayer cur in let? rest := buildLayers fuel next in Ok (cur :: rest)
  end.

Definition withKey (namespace : string) (e : RosterEntry) : outcome (RosterEntry * string) :=
  let? k := subjectKey (subject e) namespace in Ok (e, k).

Definition buildRoster (es : list RosterEntry) (namespace : string) : outcome RosterTree :=
  let? unsorted := omap_out (withKey namespace) es in
  let withKeys := sort_by keyLe unsorted in
  let? _ := checkDuplicates withKeys in
  let? _ := checkSentinels withKeys in
  let sorted := map fst withKeys in
  let keys := [MIN_KEY] ++ map snd withKeys ++ [MAX_KEY] in
  let? hashes := omap_out markHash sorted in
  let marks := [SENTINEL_MARK] ++ hashes ++ [SENTINEL_MARK] in
  let? leaves := omap_out (λ km, leafOf km.1 km.2) (zip keys marks) in
  let? layers := buildLayers (length leaves) leaves in
  let? r := rosterRoot (default "" (last layers ≫= head)) (Z.of_nat (length leaves)) in
  Ok {| formatVersion := ROSTER_FORMAT_VERSION; entries := sorted; keys := keys; marks := marks;
        leaves := leaves; layers := layers; root := r |}.

(** [a[i]] on an array, with an index known to be a natural number. *)
Definition at_ (l : list string) (i : Z) : option string := if i <? 0 then None else l !! Z.to_nat i.

Definition pairOf (idx : Z) : Z := if idx mod 2 =? 0 then idx + 1 else idx - 1.

(** The loop over the layers below the top one. *)
Fixpoint proofSiblings (layers : list (list string)) (idx : Z) : list string :=
  match layers with
  | layer :: ((_ :: _) as rest) =>
      let pair := pairOf idx in
      default "" (if pair <? Z.of_nat (length layer) then at_ layer pair else at_ layer idx)
        :: proofSiblings rest (idx / 2)
  | _ => []
  end.

Definition inclusionProof (tree : RosterTree) (i : Z) : outcome InclusionProof :=
  let? _ := orequire (isSafeInteger i && (0 <=? i) && (i <? Z.of_nat (length (leaves tree))))
              (EError "inclusionProof: index out of range") in
  Ok {| index := i; leafCount := Z.of_nat (length (leaves tree)); siblings := proofSiblings (layers tree) i |}.

(** The loop of [verifyInclusion]: [None] is its early [return false]. *)
Fixpoint climb (acc : string) (idx width : Z) (ss : list string)
    : outcome (option (string * Z * Z)) :=
  match ss with
  | [] => Ok (Some (acc, idx, width))
  | s :: ss =>
      if width <=? 1 then Ok None
      else if (width <=? pairOf idx) && negb (String.eqb (toLowerCase s) (toLowerCase acc)) then Ok None
      else
        let? acc' := if idx mod 2 =? 0 then hashNode acc s else hashNode s acc in
        climb acc' (idx / 2) ((width + 1) / 2) ss
  end.

Definition verifyInclusion (root leaf : string) (p : InclusionProof) : outcome bool :=
  if negb (isSafeInteger (index p) && isSafeInteger (leafCount p) && (2 <=? leafCount p)
           && (0 <=? index p) && (index p <? leafCount p) && (length (siblings p) <=? 256)%nat)
  then Ok false
  else
    let? r := climb leaf (index p) (leafCount p) (siblings p) in
    match r with
    | None => Ok false
    | Some (acc, idx, width) =>
        if (width =? 1) && (idx =? 0) then
          let? rr := rosterRoot acc (leafCount p) in
          Ok (String.eqb (toLowerCase rr) (toLowerCase root))
        else Ok false
    end.

Fixpoint findIndex (p : string → bool) (l : list string) : Z :=
  match l with
  | [] => -1
  | x :: l => if p x then 0 else let i := findIndex p l in if i <? 0 then -1 else i + 1
  end.

Definition nonInclusionProof (tree : RosterTree) (target namespace : string) : outcome NonInclusionProof :=
  let? tk := subjectKey target namespace in
  let? _ := orequire (negb (bool_decide (tk ∈ keys tree)))
              (EError "nonInclusionProof: the target is in the roster") in
  let hi := findIndex (λ k, str_ltb tk k) (keys tree) in
  let? _ := orequire (0 <? hi) (EError "nonInclusionProof: outside the sentinel range") in
  let lo := hi - 1 in
  let? l := inclusionProof tree lo in
  let? r := inclusionProof tree hi in
  Ok {| left := l; leftKey := default "" (at_ (keys tree) lo); leftMark := default "" (at_ (marks tree) lo);
        right := r; rightKey := default "" (at_ (keys tree) hi); rightMark := default "" (at_ (marks tree) hi) |}.

Definition verifyNonInclusion (root target : string) (p : NonInclusionProof) (namespace : string)
    : outcome bool :=
  let? tk := subjectKey target namespace in
  match canonicalBytes32 (leftKey p), canonicalBytes32 (rightKey p) with
  | Some lk, Some rk =>
      if negb (str_ltb lk tk && str_ltb tk rk) then Ok false
      else if negb (index (right p) =? index (left p) + 1) then Ok false
      else if negb ((leafCount (left p) =? leafCount (right p))
                    && (length (siblings (left p)) =? length (siblings (right p)))%nat) then Ok false
      else
        let? ll := leafOf lk (leftMark p) in
        let? rl := leafOf rk (rightMark p) in
        let? bl := verifyInclusion root ll (left p) in
        if bl then verifyInclusion root rl (right p) else Ok false
  | _, _ => Ok false
  end.

(** * Words and packed preimages *)

Lemma lower_word a : isLowerBytes32 a = true → canonicalBytes32 a = Some a.
Proof.
  intros H. unfold canonicalBytes32.
  rewrite (hexString_lower_fix 64 a H).
  assert (isBytes32 a = true) as ->; [|done].
  revert H. unfold isLowerBytes32, isBytes32, hexString. repeat (case_match; try done).
  intros [Hl Hc]%andb_true_iff. rewrite Hl. simpl.
  by rewrite allChars_hex_lower, allChars_lower_fix.
Qed.

Lemma canonical_lower a b : canonicalBytes32 a = Some b → b = toLowerCase a ∧ isLowerBytes32 b = true.
Proof.
  unfold canonicalBytes32. destruct (isBytes32 a) eqn:H; [|done]. intros [= <-].
  split; [done|]. by apply isBytes32_lower.
Qed.

Lemma lower_body a : isLowerBytes32 a = true →
  a = "0x" +:+ hexBody a ∧ String.length (hexBody a) = 64%nat.
Proof.
  unfold isLowerBytes32, hexString. repeat (case_match; try done).
  intros [Hl%Nat.eqb_eq _]%andb_true_iff. done.
Qed.

Lemma body_inj a b : isLowerBytes32 a = true → isLowerBytes32 b = true →
  hexBody a = hexBody b → a = b.
Proof. intros [Ea _]%lower_body [Eb _]%lower_body E. by rewrite Ea, Eb, E. Qed.

Lemma packWords_inj t a b c d :
  isLowerBytes32 a = true → isLowerBytes32 b = true → isLowerBytes32 c = true → isLowerBytes32 d = true →
  packWords t a b = packWords t c d → a = c ∧ b = d.
Proof.
  intros Ha Hb Hc Hd H. unfold packWords in H.
  apply app_str_inj in H as [_ H]; [|done]. apply app_str_inj in H as [_ H]; [|done].
  apply app_str_inj in H as [H1 H2].
  - split; by apply body_inj.
  - destruct (lower_body a Ha) as [_ ->], (lower_body c Hc) as [_ ->]. done.
Qed.

Lemma packed_ok t a b a' b' : canonicalBytes32 a = Some a' → canonicalBytes32 b = Some b' →
  packed t a b = Ok (packWords t a' b').
Proof. unfold packed. by intros -> ->. Qed.

Lemma packed_inv t a b p : packed t a b = Ok p →
  ∃ a' b', canonicalBytes32 a = Some a' ∧ canonicalBytes32 b = Some b' ∧ p = packWords t a' b'.
Proof.
  unfold packed. destruct (canonicalBytes32 a), (canonicalBytes32 b); try done. intros [= <-]. eauto.
Qed.

Lemma hexDigits_length k n : String.length (hexDigits k n) = k.
Proof.
  revert n. induction k as [|k IH]; intros n; simpl; [done|]. rewrite length_app_str, IH. simpl. lia.
Qed.

Lemma hexDigit_inj n m : 0 ≤ n < 16 → 0 ≤ m < 16 → hexDigit n = hexDigit m → n = m.
Proof.
  intros Hn Hm. unfold hexDigit. intros H%(f_equal nat_of_ascii).
  rewrite !nat_ascii_embedding in H by (repeat case_match; lia).
  repeat case_match; rewrite ?Z.ltb_lt, ?Z.ltb_ge in *; lia.
Qed.

Lemma hexDigits_inj k n m :
  0 ≤ n < 16 ^ Z.of_nat k → 0 ≤ m < 16 ^ Z.of_nat k → hexDigits k n = hexDigits k m → n = m.
Proof.
  revert n m. induction k as [|k IH]; intros n m Hn Hm; [simpl in *; lia|].
  rewrite Nat2Z.inj_succ, Z.pow_succ_r in Hn, Hm by lia. simpl. intros H.
  apply app_str_inj in H as [H1 H2]; [|by rewrite !hexDigits_length].
  injection H2 as H2. apply hexDigit_inj in H2; [|apply Z.mod_pos_bound; lia..].
  apply IH in H1; [|split; [apply Z.div_pos; lia|apply Z.div_lt_upper_bound; lia]..].
  rewrite (Z.div_mod n 16), (Z.div_mod m 16) by lia. congruence.
Qed.

Lemma rootPre_inj n a m b :
  0 ≤ n ≤ MAX_SAFE_INTEGER → 0 ≤ m ≤ MAX_SAFE_INTEGER →
  isLowerBytes32 a = true → isLowerBytes32 b = true →
  rootPre n a = rootPre m b → n = m ∧ a = b.
Proof.
  unfold rootPre. intros Hn Hm Ha Hb H. apply app_str_inj in H as [_ H]; [|done].
  apply app_str_inj in H as [H1 H2]; [|by rewrite !hexDigits_length].
  split; [|by apply body_inj]. apply (hexDigits_inj 64); [..|done];
    (split; [lia|]; eapply Z.le_lt_trans; [apply Hn || apply Hm|]; vm_compute; done).
Qed.

(** * Layers *)

Definition words (l : list string) : Prop := Forall (λ x, isLowerBytes32 x = true) l.

(** The node preimages of the layer above [cur]. *)
Fixpoint nodePacks (cur : list string) : list string :=
  match cur with
  | [] => []
  | [x] => [packWords "01" x x]
  | x :: y :: cur => packWords "01" x y :: nodePacks cur
  end.

Lemma list_pair_ind {A} (P : list A → Prop) :
  P [] → (∀ x, P [x]) → (∀ x y l, P l → P (x :: y :: l)) → ∀ l, P l.
Proof.
  intros H0 H1 H2. fix F 1. intros [|x [|y l]]; [done|apply H1|]. apply H2, F.
Qed.

Hypothesis keccak_word : ∀ x, isLowerBytes32 (keccak256 x) = true.

Lemma nextLayer_ok cur : words cur → nextLayer cur = Ok (map keccak256 (nodePacks cur)).
Proof.
  induction cur as [|x|x y cur IH] using list_pair_ind; intros Hw; simpl; [done|..].
  - apply Forall_cons in Hw as [Hx _]. unfold hashNode.
    by rewrite (packed_ok "01" x x x x) by by apply lower_word.
  - apply Forall_cons in Hw as [Hx [Hy Hw]%Forall_cons]. unfold hashNode.
    rewrite (packed_ok "01" x y x y) by by apply lower_word. simpl. by rewrite IH.
Qed.

Lemma words_keccak ps : words (map keccak256 ps).
Proof. apply Forall_fmap, Forall_forall. intros x _. apply keccak_word. Qed.

Lemma nodePacks_length cur : length (nodePacks cur) = ((length cur + 1) / 2)%nat.
Proof.
  induction cur as [|x|x y cur IH] using list_pair_ind; [done..|]. simpl length. rewrite IH.
  replace (S (S (length cur)) + 1)%nat with (length cur + 1 + 1 * 2)%nat by lia.
  rewrite Nat.div_add by lia. lia.
Qed.

Lemma nodePacks_lookup cur j a :
  cur !! (2 * j)%nat = Some a →
  nodePacks cur !! j = Some (packWords "01" a (default a (cur !! (2 * j + 1)%nat))).
Proof.
  revert j. induction cur as [|x|x y cur IH] using list_pair_ind; intros j; simpl; [done|..].
  - destruct j; simpl; [|by rewrite Nat.add_succ_r]. by intros [= <-].
  - destruct j as [|j]; simpl; [by intros [= <-]|].
    replace (j + S (j + 0))%nat with (S (2 * j)) by lia. simpl.
    replace (j + (j + 0))%nat with (2 * j)%nat by lia. intros Hj. rewrite (IH j Hj).
    by replace (2 * j + 1)%nat with (S (2 * j)) by lia.
Qed.

(** The layers the loop builds over a non-empty list of words. *)
Inductive Layers : list (list string) → Prop :=
  | L_top x : Layers [[x]]
  | L_cons cur rest : (2 <= length cur)%nat → Layers (map keccak256 (nodePacks cur) :: rest) →
      Layers (cur :: map keccak256 (nodePacks cur) :: rest).

Lemma buildLayers_ok fuel cur :
  words cur → (1 <= length cur <= fuel)%nat →
  ∃ rest, buildLayers fuel cur = Ok (cur :: rest) ∧ Layers (cur :: rest).
Proof.
  revert cur. induction fuel as [|fuel IH]; intros cur Hw Hl; [lia|]. simpl.
  destruct (Nat.leb_spec (length cur) 1).
  - destruct cur as [|x [|]]; simpl in *; [lia| |lia]. exists []. split; [done|constructor].
  - rewrite nextLayer_ok by done. simpl.
    destruct (IH (map keccak256 (nodePacks cur))) as (rest & -> & HL).
    + apply words_keccak.
    + rewrite length_map, nodePacks_length.
      pose proof (Nat.Div0.div_lt_upper_bound (length cur + 1) 2 (S fuel) ltac:(lia)).
      pose proof (Nat.div_le_lower_bound (length cur + 1) 2 1 ltac:(lia) ltac:(lia)). lia.
    + simpl. eexists. split; [done|]. by constructor.
Qed.

Definition topOf (ls : list (list string)) : string := default "" (last ls ≫= head).

Lemma topOf_cons l l' ls : topOf (l :: l' :: ls) = topOf (l' :: ls).
Proof. done. Qed.

Lemma topOf_word l ls : Layers (l :: ls) → words l → isLowerBytes32 (topOf (l :: ls)) = true.
Proof.
  intros HL. remember (l :: ls) as ls' eqn:E. revert l ls E.
  induction HL as [x|cur rest Hl HL IH]; intros l ls [= <- <-] Hw.
  - by apply Forall_cons in Hw as [? _].
  - rewrite topOf_cons. eapply IH; [done|apply words_keccak].
Qed.

Lemma Layers_height ls k :
  Layers ls → match ls with l :: _ => Z.of_nat (length l) ≤ 2 ^ k | [] => True end → 0 ≤ k →
  Z.of_nat (length ls) ≤ k + 1.
Proof.
  intros HL. revert k. induction HL as [x|cur rest Hl HL IH]; intros k Hk Hk0; simpl in *; [lia|].
  assert (1 ≤ k) as Hk1.
  { destruct (decide (k = 0)) as [->|]; [simpl in Hk; lia|lia]. }
  specialize (IH (k - 1)). rewrite length_map, nodePacks_length in IH.
  enough (Z.of_nat ((length cur + 1) / 2) ≤ 2 ^ (k - 1)) by lia.
  rewrite Nat2Z.inj_div. apply Z.lt_succ_r, Z.div_lt_upper_bound; [lia|].
  replace (2 ^ k) with (2 * 2 ^ (k - 1)) in Hk by (rewrite <- Z.pow_succ_r by lia; f_equal; lia). lia.
Qed.

(** * Climbing *)

Lemma parity (i : nat) : (∃ j, i = 2 * j ∨ i = 2 * j + 1)%nat.
Proof. exists (i / 2)%nat. pose proof (Nat.div_mod_eq i 2). pose proof (Nat.mod_upper_bound i 2). lia. Qed.

Lemma even_index j : Z.of_nat (2 * j) mod 2 = 0 ∧ Z.of_nat (2 * j) / 2 = Z.of_nat j.
Proof.
  replace (Z.of_nat (2 * j)) with (Z.of_nat j * 2) by lia.
  split; [apply Z.mod_mul; lia|apply Z.div_mul; lia].
Qed.

Lemma odd_index j : Z.of_nat (2 * j + 1) mod 2 = 1 ∧ Z.of_nat (2 * j + 1) / 2 = Z.of_nat j.
Proof.
  replace (Z.of_nat (2 * j + 1)) with (1 + Z.of_nat j * 2) by lia.
  split; [by rewrite Z.mod_add by lia|by rewrite Z.div_add by lia].
Qed.

Lemma at_lookup l i : at_ l (Z.of_nat i) = l !! i.
Proof. unfold at_. rewrite (proj2 (Z.ltb_ge _ _)) by lia. by rewrite Nat2Z.id. Qed.

(** The sibling the prover gives, in terms of the pair it belongs to. *)
Definition siblingOf (cur : list string) (i : nat) : string :=
  let pair := pairOf (Z.of_nat i) in
  default "" (if pair <? Z.of_nat (length cur) then at_ cur pair else at_ cur (Z.of_nat i)).

Lemma sibling_even cur j a :
  cur !! (2 * j)%nat = Some a → siblingOf cur (2 * j) = default a (cur !! (2 * j + 1)%nat).
Proof.
  intros Ha. unfold siblingOf, pairOf. destruct (even_index j) as [-> _]. simpl (0 =? 0).
  cbv iota zeta. replace (Z.of_nat (2 * j) + 1) with (Z.of_nat (2 * j + 1)) by lia.
  rewrite !at_lookup, Ha. destruct (Z.ltb_spec (Z.of_nat (2 * j + 1)) (Z.of_nat (length cur))).
  - destruct (lookup_lt_is_Some_2 cur (2 * j + 1)) as [b ->]; [lia|done].
  - by rewrite lookup_ge_None_2 by lia.
Qed.

Lemma sibling_odd cur j a :
  cur !! (2 * j + 1)%nat = Some a → ∃ b, cur !! (2 * j)%nat = Some b ∧ siblingOf cur (2 * j + 1) = b.
Proof.
  intros Ha. pose proof (lookup_lt_Some _ _ _ Ha) as Hlt.
  destruct (lookup_lt_is_Some_2 cur (2 * j)) as [b Hb]; [lia|]. exists b. split; [done|].
  unfold siblingOf, pairOf. destruct (odd_index j) as [-> _]. simpl (1 =? 0). cbv iota zeta.
  replace (Z.of_nat (2 * j + 1) - 1) with (Z.of_nat (2 * j)) by lia.
  rewrite (proj2 (Z.ltb_lt _ _)) by lia. by rewrite at_lookup, Hb.
Qed.

Lemma half_length cur :
  (Z.of_nat (length cur) + 1) / 2 = Z.of_nat (length (map keccak256 (nodePacks cur))).
Proof. rewrite length_map, nodePacks_length, Nat2Z.inj_div. f_equal. lia. Qed.

Lemma words_lookup l i x : words l → l !! i = Some x → isLowerBytes32 x = true.
Proof. intros H Hi. exact (Forall_lookup_1 _ l i x H Hi). Qed.

Lemma hashNode_words a b : isLowerBytes32 a = true → isLowerBytes32 b = true →
  hashNode a b = Ok (keccak256 (packWords "01" a b)).
Proof.
  intros Ha Hb. unfold hashNode. by rewrite (packed_ok "01" a b a b) by by apply lower_word.
Qed.

Lemma Layers_words cur rest : Layers (cur :: map keccak256 (nodePacks cur) :: rest) →
  Layers (map keccak256 (nodePacks cur) :: rest) ∧ (2 <= length cur)%nat.
Proof. by inversion 1. Qed.

Lemma climb_complete ls i acc :
  Layers ls →
  match ls with cur :: _ => words cur ∧ cur !! i = Some acc | [] => False end →
  match ls with
  | cur :: _ => climb acc (Z.of_nat i) (Z.of_nat (length cur)) (proofSiblings ls (Z.of_nat i))
                = Ok (Some (topOf ls, 0, 1))
  | [] => True
  end.
Proof.
  intros HL. revert i acc. induction HL as [x|cur rest Hlen HL IH]; intros i acc [Hw Hi].
  { destruct i; [|done]. by injection Hi as <-. }
  set (next := map keccak256 (nodePacks cur)) in *.
  change (proofSiblings (cur :: next :: rest) (Z.of_nat i))
    with (siblingOf cur i :: proofSiblings (next :: rest) (Z.of_nat i / 2)).
  cbn [climb]. rewrite (proj2 (Z.leb_gt _ _)) by lia. rewrite half_length. fold next.
  pose proof (words_lookup _ _ _ Hw Hi) as Hacc.
  destruct (parity i) as (j & [->| ->]).
  - rewrite (sibling_even cur j acc Hi).
    set (b := default acc (cur !! (2 * j + 1)%nat)).
    assert (isLowerBytes32 b = true) as Hb.
    { unfold b. destruct (cur !! (2 * j + 1)%nat) eqn:E; [by eapply words_lookup|done]. }
    assert ((Z.of_nat (length cur) <=? pairOf (Z.of_nat (2 * j)))
            && negb (toLowerCase b =? toLowerCase acc)%string = false) as ->.
    { unfold pairOf. destruct (even_index j) as [-> _]. simpl (0 =? 0). cbv iota.
      destruct (Z.leb_spec (Z.of_nat (length cur)) (Z.of_nat (2 * j) + 1)); [|done].
      unfold b. rewrite lookup_ge_None_2 by lia. simpl. by rewrite String.eqb_refl. }
    destruct (even_index j) as [-> ->]. simpl (0 =? 0). cbv iota.
    rewrite hashNode_words by done. simpl. apply IH. split; [apply words_keccak|].
    unfold next. rewrite list_lookup_fmap, (nodePacks_lookup cur j acc Hi). done.
  - destruct (sibling_odd cur j acc Hi) as (b & Hb & ->). pose proof (words_lookup _ _ _ Hw Hb) as Hbw.
    pose proof (lookup_lt_Some _ _ _ Hi) as Hlt.
    assert ((Z.of_nat (length cur) <=? pairOf (Z.of_nat (2 * j + 1))) = false) as ->.
    { unfold pairOf. destruct (odd_index j) as [-> _]. simpl (1 =? 0). cbv iota. apply Z.leb_gt. lia. }
    destruct (odd_index j) as [-> ->]. simpl (1 =? 0). cbv iota. simpl andb. cbv iota.
    rewrite hashNode_words by done. simpl. apply IH. split; [apply words_keccak|].
    unfold next. rewrite list_lookup_fmap, (nodePacks_lookup cur j b Hb). by rewrite Hi.
Qed.

(** The preimages a verifier hashes while climbing. *)
Fixpoint climbPacks (acc : string) (idx : Z) (ss : list string) : list string :=
  match ss with
  | [] => []
  | s :: ss =>
      let p := if idx mod 2 =? 0 then packWords "01" (toLowerCase acc) (toLowerCase s)
               else packWords "01" (toLowerCase s) (toLowerCase acc) in
      p :: climbPacks (keccak256 p) (idx / 2) ss
  end.

(** [keccak256] does not collide on these preimages. *)
Definition NoCollision (ps : list string) : Prop :=
  ∀ x y, x ∈ ps → y ∈ ps → keccak256 x = keccak256 y → x = y.

Lemma NoCollision_sub ps qs : NoCollision ps → qs ⊆ ps → NoCollision qs.
Proof. intros H Hs x y Hx Hy. apply H; auto. Qed.

Lemma hashNode_inv a b h : hashNode a b = Ok h →
  h = keccak256 (packWords "01" (toLowerCase a) (toLowerCase b))
  ∧ isLowerBytes32 (toLowerCase a) = true ∧ isLowerBytes32 (toLowerCase b) = true.
Proof.
  unfold hashNode. destruct (packed "01" a b) as [p|] eqn:Hp; [|done]. intros [= <-].
  destruct (packed_inv _ _ _ _ Hp) as (a' & b' & [-> ?]%canonical_lower & [-> ?]%canonical_lower & ->).
  done.
Qed.

(** Climbing to the top of the layers from an index means starting at that index's entry, along
    the prover's path. *)
Lemma climb_sound ss ls acc i top (ps : list string) :
  Layers ls → NoCollision ps →
  match ls with
  | cur :: _ => words cur ∧ (i < length cur)%nat
      ∧ (∀ l, l ∈ ls → nodePacks l ⊆ ps) ∧ climbPacks acc (Z.of_nat i) ss ⊆ ps
      ∧ climb acc (Z.of_nat i) (Z.of_nat (length cur)) ss = Ok (Some (top, 0, 1))
      ∧ toLowerCase top = topOf ls
  | [] => False
  end →
  match ls with
  | cur :: _ => cur !! i = Some (toLowerCase acc)
      ∧ map toLowerCase ss = proofSiblings ls (Z.of_nat i)
  | [] => False
  end.
Proof.
  intros HL HN. revert i acc ss. induction HL as [x|cur rest Hlen HL IH];
    intros i acc ss (Hw & Hi & Hps & Hcp & Hcl & Htop).
  { simpl in Hi. assert (i = 0)%nat as -> by lia. destruct ss as [|s ss]; [|done].
    simpl in *. injection Hcl as <-. by rewrite Htop. }
  set (next := map keccak256 (nodePacks cur)) in *.
  destruct ss as [|s ss]; [simpl in Hcl; simplify_eq; lia|].
  cbn [climb] in Hcl. rewrite (proj2 (Z.leb_gt _ _)) in Hcl by lia. rewrite half_length in Hcl.
  fold next in Hcl. cbn [climbPacks] in Hcp.
  destruct ((Z.of_nat (length cur) <=? pairOf (Z.of_nat i)) && _); [done|].
  change (proofSiblings (cur :: next :: rest) (Z.of_nat i))
    with (siblingOf cur i :: proofSiblings (next :: rest) (Z.of_nat i / 2)).
  pose proof (half_length cur) as Hhalf. fold next in Hhalf.
  assert (∀ h j, (j < length next)%nat → isLowerBytes32 h = true → climbPacks h (Z.of_nat j) ss ⊆ ps →
    climb h (Z.of_nat j) (Z.of_nat (length next)) ss = Ok (Some (top, 0, 1)) →
    next !! j = Some h ∧ map toLowerCase ss = proofSiblings (next :: rest) (Z.of_nat j)) as Hrec.
  { intros h j Hj Hh Hsub Hrun. rewrite <- (hexString_lower_fix 64 h Hh). apply IH.
    split_and!; [apply words_keccak|done| |done|done|done].
    intros l Hl. apply Hps. by right. }
  assert (nodePacks cur ⊆ ps) as Hcur by (apply Hps; by left).
  destruct (parity i) as (j & [->| ->]).
  - destruct (even_index j) as [E1 E2]. rewrite E1, E2 in *. simpl (0 =? 0) in *. cbv iota in *.
    destruct (hashNode acc s) as [h|] eqn:Hh; [|done]. simpl in Hcl.
    destruct (hashNode_inv _ _ _ Hh) as (-> & Ha & Hs).
    destruct (lookup_lt_is_Some_2 cur (2 * j) Hi) as [a Hca].
    pose proof (nodePacks_lookup cur j a Hca) as Hnp.
    destruct (Hrec (keccak256 (packWords "01" (toLowerCase acc) (toLowerCase s))) j) as [Hnext Hsib].
    + unfold next. rewrite length_map. by apply lookup_lt_Some in Hnp.
    + apply keccak_word.
    + etransitivity; [|exact Hcp]. by apply list_subseteq_skip_r || set_solver.
    + done.
    + unfold next in Hnext. rewrite list_lookup_fmap, Hnp in Hnext. injection Hnext as Hk.
      set (b := default a (cur !! (2 * j + 1)%nat)) in *.
      assert (isLowerBytes32 b = true) as Hb.
      { unfold b. destruct (cur !! (2 * j + 1)%nat) eqn:E; by eapply words_lookup. }
      apply HN in Hk; [|apply Hcur; by eapply list_elem_of_lookup_2|apply Hcp; by left].
      apply packWords_inj in Hk as [-> Hbs]; [|by eapply words_lookup|done|done|done].
      split; [done|]. cbn [map]. rewrite Hsib, (sibling_even cur j _ Hca). f_equal. symmetry. exact Hbs.
  - destruct (odd_index j) as [E1 E2]. rewrite E1, E2 in *. simpl (1 =? 0) in *. cbv iota in *.
    destruct (hashNode s acc) as [h|] eqn:Hh; [|done]. simpl in Hcl.
    destruct (hashNode_inv _ _ _ Hh) as (-> & Hs & Ha).
    destruct (lookup_lt_is_Some_2 cur (2 * j + 1) Hi) as [a Hca].
    destruct (sibling_odd cur j a Hca) as (b & Hcb & ->).
    pose proof (nodePacks_lookup cur j b Hcb) as Hnp. rewrite Hca in Hnp. simpl in Hnp.
    destruct (Hrec (keccak256 (packWords "01" (toLowerCase s) (toLowerCase acc))) j) as [Hnext Hsib].
    + unfold next. rewrite length_map. by apply lookup_lt_Some in Hnp.
    + apply keccak_word.
    + set_solver.
    + done.
    + unfold next in Hnext. rewrite list_lookup_fmap, Hnp in Hnext. injection Hnext as Hk.
      apply HN in Hk; [|apply Hcur; by eapply list_elem_of_lookup_2|apply Hcp; by left].
      apply packWords_inj in Hk as [Hbs ->]; [|by eapply words_lookup|by eapply words_lookup|done|done].
      split; [done|]. cbn [map]. by rewrite Hsib, Hbs.
Qed.

(** * What [buildRoster] builds *)

Record Built (namespace : string) (t : RosterTree) : Prop := {
  b_keys : ∃ ks, keys t = MIN_KEY :: ks ++ [MAX_KEY]
             ∧ Forall2 (λ e k, subjectKey (subject e) namespace = Ok k) (entries t) ks;
  b_sorted : StronglySorted (λ a b, str_ltb a b = true) (keys t);
  b_marks : ∃ ms, marks t = SENTINEL_MARK :: ms ++ [SENTINEL_MARK]
             ∧ Forall2 (λ e m, markHash e = Ok m) (entries t) ms;
  b_leaves : Forall2 (λ km l, leafOf km.1 km.2 = Ok l) (zip (keys t) (marks t)) (leaves t);
  b_layers : ∃ rest, layers t = leaves t :: rest ∧ Layers (layers t);
  b_size : 2 ≤ Z.of_nat (length (leaves t)) ≤ MAX_SAFE_INTEGER;
  b_root : root t = keccak256 (rootPre (Z.of_nat (length (leaves t))) (topOf (layers t)));
  b_top : isLowerBytes32 (topOf (layers t)) = true }.

Lemma keyLe_total a b : keyLe a b = true ∨ keyLe b a = true.
Proof.
  unfold keyLe. destruct (str_ltb b.2 a.2) eqn:E; [right|by left].
  by rewrite (str_ltb_asym _ _ E).
Qed.

Lemma keyLe_spec a b : keyLe a b = true ↔ a.2 = b.2 ∨ str_ltb a.2 b.2 = true.
Proof.
  unfold keyLe. rewrite negb_true_iff. split.
  - intros H. destruct (decide (a.2 = b.2)) as [|Hne]; [by left|]. right.
    destruct (str_ltb_total _ _ Hne); congruence.
  - intros [->|H]; [apply str_ltb_irrefl|by apply str_ltb_asym].
Qed.

Lemma keyLe_trans a b c : keyLe a b = true → keyLe b c = true → keyLe a c = true.
Proof.
  rewrite !keyLe_spec. intros [E1|H1] [E2|H2]; [left; congruence|right; congruence|right; congruence|].
  right. by eapply str_ltb_trans.
Qed.

Lemma strict_keys l :
  StronglySorted keyLe l → checkDuplicates l = Ok tt →
  StronglySorted (λ a b, str_ltb a b = true) (map snd l).
Proof.
  induction 1 as [|[e k] l Hl IH Hk]; intros Hd; simpl; [constructor|].
  destruct l as [|[e' k'] l]; [repeat constructor|]. cbn [checkDuplicates] in Hd.
  destruct (String.eqb_spec k' k) as [|Hne]; [done|]. specialize (IH Hd).
  constructor; [done|]. apply Forall_cons in Hk as [Hk _]. apply Is_true_true, keyLe_spec in Hk.
  simpl in Hk. destruct Hk as [Heq|Hlt]; [by destruct Hne|].
  simpl in IH. apply StronglySorted_inv in IH as [_ Hall]. constructor; [done|].
  eapply Forall_impl; [exact Hall|]. intros x. by apply str_ltb_trans.
Qed.

Fixpoint repeatChar (c : ascii) (n : nat) : string :=
  match n with O => "" | S n => String c (repeatChar c n) end.

Lemma hex_range c : isLowerHex c = true → (48 <= N_of_ascii c <= 102)%N.
Proof. destruct c as [[] [] [] [] [] [] [] []]; vm_compute; intros; try discriminate; split; discriminate. Qed.

Lemma zeros_least s : allChars isLowerHex s = true → s ≠ repeatChar "0" (String.length s) →
  str_ltb (repeatChar "0" (String.length s)) s = true.
Proof.
  induction s as [|c s IH]; simpl; [done|]. intros [Hc Hs]%andb_true_iff Hne.
  rewrite str_ltb_cons. apply orb_true_iff. pose proof (hex_range c Hc).
  destruct (decide (N_of_ascii c = 48%N)) as [Heq|].
  - right. assert (c = "0"%char) as -> by (rewrite <- (ascii_N_embedding c), Heq; done).
    apply IH; [done|]. intros Hs'. apply Hne. by rewrite <- Hs'.
  - left. apply N.ltb_lt. change (N_of_ascii "0") with 48%N. lia.
Qed.

Lemma effs_greatest s : allChars isLowerHex s = true → s ≠ repeatChar "f" (String.length s) →
  str_ltb s (repeatChar "f" (String.length s)) = true.
Proof.
  induction s as [|c s IH]; simpl; [done|]. intros [Hc Hs]%andb_true_iff Hne.
  rewrite str_ltb_cons. apply orb_true_iff. pose proof (hex_range c Hc).
  destruct (decide (N_of_ascii c = 102%N)) as [Heq|].
  - right. assert (c = "f"%char) as -> by (rewrite <- (ascii_N_embedding c), Heq; done).
    apply andb_true_iff. split; [by apply N.eqb_eq|].
    apply IH; [done|]. intros Hs'. apply Hne. by rewrite <- Hs'.
  - left. apply N.ltb_lt. change (N_of_ascii "f") with 102%N. lia.
Qed.

Lemma word_chars k : isLowerBytes32 k = true → allChars isLowerHex (hexBody k) = true.
Proof.
  unfold isLowerBytes32, hexString. repeat (case_match; try done). by intros [_ ?]%andb_true_iff.
Qed.

Lemma key_between k : isLowerBytes32 k = true → k ≠ MIN_KEY → k ≠ MAX_KEY →
  str_ltb MIN_KEY k = true ∧ str_ltb k MAX_KEY = true.
Proof.
  intros Hk Hmin Hmax. pose proof (word_chars k Hk) as Hc. destruct (lower_body k Hk) as [Hb Hl].
  remember (hexBody k) as b eqn:Eb. clear Eb Hk. subst k.
  change ("0x" +:+ b) with (String "0" (String "x" b)) in *.
  change MIN_KEY with (String "0" (String "x" (repeatChar "0" 64))) in *.
  change MAX_KEY with (String "0" (String "x" (repeatChar "f" 64))) in *. rewrite <- Hl in *.
  rewrite !str_ltb_cons, !N.ltb_irrefl, !N.eqb_refl. simpl.
  split; [apply zeros_least|apply effs_greatest]; try done; intros E.
  - apply Hmin. by rewrite <- E.
  - apply Hmax. by rewrite <- E.
Qed.

Lemma checkSentinels_ok l : checkSentinels l = Ok tt → Forall (λ ek, ek.2 ≠ MIN_KEY ∧ ek.2 ≠ MAX_KEY) l.
Proof.
  induction l as [|[e k] l IH]; cbn [checkSentinels]; [constructor|].
  destruct (String.eqb_spec k MIN_KEY); [done|]. destruct (String.eqb_spec k MAX_KEY); [done|].
  simpl. intros H. constructor; [done|auto].
Qed.

Lemma subjectKey_word a ns k : subjectKey a ns = Ok k → isLowerBytes32 k = true.
Proof. unfold subjectKey, obind. destruct (getAddress a); [|done]. intros [= <-]. apply keccak_word. Qed.

Lemma leafOf_word a b l : leafOf a b = Ok l → isLowerBytes32 l = true.
Proof. unfold leafOf, obind. destruct (packed _ _ _); [|done]. intros [= <-]. apply keccak_word. Qed.

(** Strict order of the keys with the sentinels added. *)
Lemma sentinels_sorted ks :
  Forall (λ k, str_ltb MIN_KEY k = true ∧ str_ltb k MAX_KEY = true) ks →
  StronglySorted (λ a b, str_ltb a b = true) ks →
  StronglySorted (λ a b, str_ltb a b = true) (MIN_KEY :: ks ++ [MAX_KEY]).
Proof.
  intros Hb Hs. constructor.
  - induction Hs as [|k ks Hs IH Hk]; simpl; [repeat constructor|].
    apply Forall_cons in Hb as [[_ Hmax] Hb]. constructor; [auto|].
    apply Forall_app. split; [done|by repeat constructor].
  - apply Forall_app. split; [|by repeat constructor].
    eapply Forall_impl; [exact Hb|]. by intros k [? _].
Qed.

Lemma buildRoster_inv es ns t :
  buildRoster es ns = Ok t → Built ns t ∧ entries t ≡ₚ es.
Proof.
  unfold buildRoster, obind. destruct (omap_out (withKey ns) es) as [unsorted|] eqn:Hun; [|done].
  apply omap_out_Forall2 in Hun. set (wk := sort_by keyLe unsorted).
  destruct (checkDuplicates wk) as [[]|] eqn:Hd; [|done].
  destruct (checkSentinels wk) as [[]|] eqn:Hst; [|done].
  destruct (omap_out markHash (map fst wk)) as [ms|] eqn:Hm; [|done]. apply omap_out_Forall2 in Hm.
  destruct (omap_out _ (zip _ _)) as [lvs|] eqn:Hlv; [|done]. apply omap_out_Forall2 in Hlv.
  destruct (buildLayers _ lvs) as [lys|] eqn:Hly; [|done].
  destruct (rosterRoot _ _) as [r|] eqn:Hr; [|done]. intros [= <-].
  assert (Forall (λ ek, subjectKey (subject ek.1) ns = Ok ek.2) unsorted) as Hks.
  { clear -Hun. induction Hun as [|e [e' k] es l He _ IH]; constructor; [|done].
    unfold withKey, obind in He. destruct (subjectKey (subject e) ns) eqn:E; [|done]. by simplify_eq/=. }
  assert (map fst unsorted = es) as Hfst.
  { clear -Hun. induction Hun as [|e [e' k] es l He _ IH]; simpl; [done|].
    unfold withKey, obind in He. destruct (subjectKey (subject e) ns); [|done]. by simplify_eq/=. }
  assert (wk ≡ₚ unsorted) as Hp by apply sort_by_perm.
  assert (Forall (λ ek, subjectKey (subject ek.1) ns = Ok ek.2) wk) as Hks' by by rewrite Hp.
  split; [|simpl; by rewrite Hp, Hfst].
  (* sizes *)
  assert (length ms = length wk) as Hlm by (apply Forall2_length in Hm; by rewrite length_map in Hm).
  apply Forall2_length in Hlv as Hll. rewrite length_zip in Hll. simpl in Hll.
  rewrite !length_app, length_map in Hll. simpl in Hll.
  assert (words lvs) as Hw.
  { apply Forall_forall. intros l (i & Hi)%list_elem_of_lookup.
    destruct (Forall2_lookup_r _ _ _ _ _ Hlv Hi) as (km & _ & Hkm). by apply leafOf_word in Hkm. }
  destruct (buildLayers_ok (length lvs) lvs Hw) as (rest & Hly' & HL); [lia|].
  rewrite Hly in Hly'. injection Hly' as ->.
  unfold rosterRoot, obind in Hr. destruct (orequire _ _) as [[]|] eqn:Hg in Hr; [|done].
  unfold orequire in Hg. destruct (_ && _) eqn:Hsz in Hg; [|done]. clear Hg.
  apply andb_true_iff in Hsz as [Hsafe%isSafeInteger_spec H2%Z.leb_le].
  fold (topOf (lvs :: rest)) in Hr.
  destruct (canonicalBytes32 (topOf (lvs :: rest))) as [top|] eqn:Htop; [|done]. injection Hr as <-.
  assert (isLowerBytes32 (topOf (lvs :: rest)) = true) as Htw by by apply topOf_word.
  rewrite lower_word in Htop by done. injection Htop as <-.
  split; simpl; [| | |done|eauto|lia|done|done].
  - exists (map snd wk). split; [done|]. clear -Hks'.
    induction Hks' as [|ek l H _ IH]; constructor; done.
  - apply sentinels_sorted; [|apply strict_keys; [|done]].
    + apply Forall_fmap. apply checkSentinels_ok in Hst.
      rewrite Forall_forall in Hks'. rewrite Forall_forall in Hst. apply Forall_forall. intros ek Hek.
      destruct (Hst ek Hek). apply key_between; [|done|done]. by eapply subjectKey_word, Hks'.
    + apply sort_by_sorted; [apply keyLe_total|apply keyLe_trans].
  - exists ms. done.
Qed.

#[local] Opaque rootPre.

(** * Inclusion *)

Lemma proofSiblings_length ls idx : Layers ls → S (length (proofSiblings ls idx)) = length ls.
Proof.
  intros HL. revert idx. induction HL as [|cur rest Hl HL IH]; intros idx; [done|].
  cbn [proofSiblings length] in *. by rewrite IH.
Qed.

Lemma lower_fix h : isLowerBytes32 h = true → toLowerCase h = h.
Proof. apply (hexString_lower_fix 64). Qed.

Lemma built_words ns t : Built ns t → words (leaves t).
Proof.
  intros HB. apply Forall_forall. intros l (i & Hi)%list_elem_of_lookup.
  destruct (Forall2_lookup_r _ _ _ _ _ (b_leaves _ _ HB) Hi) as (km & _ & Hkm).
  by apply leafOf_word in Hkm.
Qed.

Lemma rosterRoot_ok top n : isLowerBytes32 top = true → 2 ≤ n ≤ MAX_SAFE_INTEGER →
  rosterRoot top n = Ok (keccak256 (rootPre n top)).
Proof.
  intros Ht Hn. unfold rosterRoot. rewrite (proj2 (isSafeInteger_spec n)), (proj2 (Z.leb_le 2 n)) by lia.
  simpl. by rewrite lower_word.
Qed.

Lemma inclusion_ok ns t i leaf :
  Built ns t → leaves t !! i = Some leaf →
  let p := {| index := Z.of_nat i; leafCount := Z.of_nat (length (leaves t));
              siblings := proofSiblings (layers t) (Z.of_nat i) |} in
  inclusionProof t (Z.of_nat i) = Ok p ∧ verifyInclusion (root t) leaf p = Ok true.
Proof.
  intros HB Hi p. pose proof (lookup_lt_Some _ _ _ Hi) as Hlt. pose proof (b_size _ _ HB) as Hs.
  destruct (b_layers _ _ HB) as (rest & Hly & HL). split.
  - unfold inclusionProof.
    by rewrite (proj2 (isSafeInteger_spec _)), (proj2 (Z.leb_le 0 _)), (proj2 (Z.ltb_lt _ _)) by lia.
  - unfold verifyInclusion. simpl index. simpl leafCount. simpl siblings.
    assert ((length (proofSiblings (layers t) (Z.of_nat i)) <=? 256)%nat = true) as ->.
    { apply Nat.leb_le. pose proof (Layers_height (layers t) 53 HL) as Hh. rewrite Hly in Hh.
      specialize (Hh ltac:(unfold MAX_SAFE_INTEGER in Hs; lia) ltac:(lia)). rewrite <- Hly in Hh.
      pose proof (proofSiblings_length (layers t) (Z.of_nat i) HL). lia. }
    rewrite !(proj2 (isSafeInteger_spec _)), !(proj2 (Z.leb_le _ _)), (proj2 (Z.ltb_lt _ _)) by lia.
    simpl. pose proof (climb_complete (layers t) i leaf HL) as Hc. rewrite Hly in Hc at 1 2.
    rewrite Hc by (split; [by eapply built_words|done]). simpl.
    rewrite rosterRoot_ok by (done || apply HB). simpl. by rewrite (b_root _ _ HB), String.eqb_refl.
Qed.

(** What is hashed when building a tree, and when checking a proof. *)
Definition leafPack (km : string * string) : string := packWords "00" (toLowerCase km.1) (toLowerCase km.2).
Definition treePacks (t : RosterTree) : list string :=
  rootPre (Z.of_nat (length (leaves t))) (topOf (layers t))
  :: map leafPack (zip (keys t) (marks t)) ++ concat (map nodePacks (layers t)).

Fixpoint climbTop (acc : string) (idx : Z) (ss : list string) : string :=
  match ss with
  | [] => acc
  | s :: ss =>
      climbTop (keccak256 (if idx mod 2 =? 0 then packWords "01" (toLowerCase acc) (toLowerCase s)
                           else packWords "01" (toLowerCase s) (toLowerCase acc))) (idx / 2) ss
  end.

Definition verifyPacks (leaf : string) (p : InclusionProof) : list string :=
  rootPre (leafCount p) (toLowerCase (climbTop leaf (index p) (siblings p)))
  :: climbPacks leaf (index p) (siblings p).

Lemma climb_top acc idx w ss top i w' :
  climb acc idx w ss = Ok (Some (top, i, w')) → top = climbTop acc idx ss.
Proof.
  revert acc idx w. induction ss as [|s ss IH]; intros acc idx w; cbn [climb climbTop].
  { by intros [= -> _ _]. }
  destruct (w <=? 1); [done|]. destruct (_ && _); [done|].
  destruct (idx mod 2 =? 0).
  - destruct (hashNode acc s) as [h|] eqn:Hh; [|done].
    apply hashNode_inv in Hh as [-> _]. apply IH.
  - destruct (hashNode s acc) as [h|] eqn:Hh; [|done].
    apply hashNode_inv in Hh as [-> _]. apply IH.
Qed.

Lemma inclusion_sound ns t leaf p :
  Built ns t → NoCollision (treePacks t ++ verifyPacks leaf p) →
  verifyInclusion (root t) leaf p = Ok true →
  leafCount p = Z.of_nat (length (leaves t)) ∧ 0 ≤ index p < leafCount p ∧
  leaves t !! Z.to_nat (index p) = Some (toLowerCase leaf) ∧
  map toLowerCase (siblings p) = proofSiblings (layers t) (index p).
Proof.
  intros HB HN. unfold verifyInclusion, obind. destruct (negb _) eqn:Hg; [done|].
  apply negb_false_iff in Hg.
  apply andb_true_iff in Hg as [[[[[_ Hsz%isSafeInteger_spec]%andb_true_iff H2%Z.leb_le]%andb_true_iff
    H0%Z.leb_le]%andb_true_iff Hlt%Z.ltb_lt]%andb_true_iff _].
  destruct (climb _ _ _ _) as [[[[top idx] w]|]|] eqn:Hc; [|done..].
  destruct (w =? 1) eqn:Hw; [|done]. destruct (idx =? 0) eqn:Hi; [|done].
  apply Z.eqb_eq in Hw as ->. apply Z.eqb_eq in Hi as ->. simpl.
  destruct (rosterRoot top (leafCount p)) as [rr|] eqn:Hrr; [|done].
  intros [= Heq%String.eqb_eq].
  unfold rosterRoot, orequire in Hrr. destruct (_ && _); [|done]. simpl in Hrr.
  destruct (canonicalBytes32 top) as [ct|] eqn:Hct; [|done]. injection Hrr as <-.
  apply canonical_lower in Hct as [-> Htw].
  rewrite (b_root _ _ HB), (lower_fix _ (keccak_word _)), (lower_fix _ (keccak_word _)) in Heq.
  pose proof (climb_top _ _ _ _ _ _ _ Hc) as Htop.
  apply HN in Heq; [|rewrite elem_of_app; right; rewrite Htop; by left|rewrite elem_of_app; left; by left].
  pose proof (b_size _ _ HB) as Hs.
  apply rootPre_inj in Heq as [Hn Ht]; [|lia|lia|done|apply HB].
  destruct (b_layers _ _ HB) as (rest & Hly & HL). split; [done|]. split; [lia|].
  pose proof (climb_sound (siblings p) (layers t) leaf (Z.to_nat (index p)) top _ HL HN) as Hsound.
  assert (∀ l, l ∈ layers t → nodePacks l ⊆ treePacks t ++ verifyPacks leaf p) as Hpacks.
  { intros l Hl x Hx. apply elem_of_app. left. right. apply elem_of_app. right.
    apply list_elem_of_In, in_concat. exists (nodePacks l).
    split; apply list_elem_of_In; [|done]. apply list_elem_of_fmap. eauto. }
  rewrite Z2Nat.id in Hsound by lia. rewrite Hly in HL, Hsound, Hpacks, Ht |- *.
  apply Hsound. split_and!; [by eapply built_words|lia|done| |by rewrite <- Hn|done].
  intros x Hx. apply elem_of_app. right. by right.
Qed.

(** * Non-membership *)

Lemma findIndex_spec (p : string → bool) l :
  (findIndex p l = -1 ∧ ∀ x, x ∈ l → p x = false) ∨
  (∃ i x, findIndex p l = Z.of_nat i ∧ l !! i = Some x ∧ p x = true
          ∧ ∀ j y, (j < i)%nat → l !! j = Some y → p y = false).
Proof.
  induction l as [|x l IH]; simpl; [left; split; [done|by intros ? ?%elem_of_nil]|].
  destruct (p x) eqn:Hx.
  { right. exists 0%nat, x. split_and!; [done..|]. intros j y Hj. lia. }
  destruct IH as [[-> Hall]|(i & y & -> & Hy & Hp & Hlt)].
  - left. split; [done|]. intros y [->|Hy]%elem_of_cons; auto.
  - right. exists (S i), y. rewrite (proj2 (Z.ltb_ge _ _)) by lia. split_and!; [lia|done|done|].
    intros [|j] z Hj; simpl; [by intros [= <-]|]. apply Hlt. lia.
Qed.

Lemma built_leaf ns t i k m :
  Built ns t → keys t !! i = Some k → marks t !! i = Some m →
  ∃ l, leafOf k m = Ok l ∧ leaves t !! i = Some l.
Proof.
  intros HB Hk Hm. assert (zip (keys t) (marks t) !! i = Some (k, m)) as Hz
    by by apply lookup_zip_Some.
  destruct (Forall2_lookup_l _ _ _ _ _ (b_leaves _ _ HB) Hz) as (l & Hl & Hkm). eauto.
Qed.

Lemma built_lengths ns t : Built ns t →
  length (marks t) = length (keys t) ∧ length (leaves t) = length (keys t).
Proof.
  intros HB. destruct (b_keys _ _ HB) as (ks & Hks & Hk), (b_marks _ _ HB) as (ms & Hms & Hm).
  apply Forall2_length in Hk, Hm. pose proof (Forall2_length _ _ _ (b_leaves _ _ HB)) as Hl.
  rewrite length_zip in Hl. rewrite Hks, Hms in *. simpl in *. rewrite !length_app in *. simpl in *. lia.
Qed.

Lemma built_key_word ns t k : Built ns t → k ∈ keys t → isLowerBytes32 k = true.
Proof.
  intros HB Hk. destruct (b_keys _ _ HB) as (ks & Hks & Hf). rewrite Hks in Hk.
  apply elem_of_cons in Hk as [->|[Hk|Hk]%elem_of_app]; [done| |].
  - apply list_elem_of_lookup in Hk as (i & Hi).
    destruct (Forall2_lookup_r _ _ _ _ _ Hf Hi) as (e & _ & He). by eapply subjectKey_word.
  - by apply list_elem_of_singleton in Hk as ->.
Qed.

Lemma sorted_index l i j a b :
  StronglySorted (λ a b, str_ltb a b = true) l → l !! i = Some a → l !! j = Some b →
  str_ltb a b = true → (i < j)%nat.
Proof.
  intros Hs. revert i j. induction Hs as [|x l Hs IH Hx]; intros i j Ha Hb Hlt; [done|].
  rewrite Forall_forall in Hx. destruct i as [|i], j as [|j]; simpl in *; simplify_eq; [|lia| |].
  - by rewrite str_ltb_irrefl in Hlt.
  - apply list_elem_of_lookup_2, Hx, str_ltb_asym in Ha. congruence.
  - pose proof (IH i j Ha Hb Hlt). lia.
Qed.

Lemma nonInclusion_ok ns t target tk :
  Built ns t → subjectKey target ns = Ok tk → tk ∉ keys t →
  ∃ p, nonInclusionProof t target ns = Ok p ∧ verifyNonInclusion (root t) target p ns = Ok true.
Proof.
  intros HB Htk Hnin. pose proof (subjectKey_word _ _ _ Htk) as Hw.
  destruct (built_lengths _ _ HB) as [Hlm Hll].
  destruct (b_keys _ _ HB) as (ks & Hks & _).
  assert (str_ltb MIN_KEY tk = true ∧ str_ltb tk MAX_KEY = true) as [Hmin Hmax].
  { apply key_between; [done|..]; intros ->; apply Hnin; rewrite Hks; [by left|].
    right. apply elem_of_app. right. by left. }
  unfold nonInclusionProof. rewrite Htk. simpl. rewrite bool_decide_eq_false_2 by done. simpl.
  destruct (findIndex_spec (λ k, str_ltb tk k) (keys t)) as [[_ Hall]|(hi & k & -> & Hk & Hlt & Hbefore)].
  { rewrite (Hall MAX_KEY) in Hmax; [done|]. rewrite Hks. right. apply elem_of_app. right. by left. }
  destruct hi as [|lo].
  { rewrite Hks in Hk. injection Hk as <-. by rewrite (str_ltb_asym _ _ Hmin) in Hlt. }
  replace (Z.of_nat (S lo) - 1) with (Z.of_nat lo) by lia. simpl (0 <? _). cbv beta.
  pose proof (lookup_lt_Some _ _ _ Hk) as Hhi.
  destruct (lookup_lt_is_Some_2 (keys t) lo) as [kl Hkl]; [lia|].
  destruct (lookup_lt_is_Some_2 (marks t) lo) as [ml Hml]; [lia|].
  destruct (lookup_lt_is_Some_2 (marks t) (S lo)) as [mr Hmr]; [lia|].
  destruct (built_leaf _ _ _ _ _ HB Hkl Hml) as (ll & Hleafl & Hll').
  destruct (built_leaf _ _ _ _ _ HB Hk Hmr) as (lr & Hleafr & Hlr').
  destruct (inclusion_ok _ _ _ _ HB Hll') as [-> Hvl]. simpl.
  destruct (inclusion_ok _ _ _ _ HB Hlr') as [Hr Hvr].
  change (Z.pos (Pos.of_succ_nat lo)) with (Z.of_nat (S lo)). rewrite Hr. simpl.
  eexists. split; [done|]. unfold verifyNonInclusion. rewrite Htk.
  change (Z.pos (Pos.of_succ_nat lo)) with (Z.of_nat (S lo)).
  cbn [leftKey rightKey leftMark rightMark left right index leafCount siblings obind].
  rewrite !at_lookup, Hkl, Hml, Hk, Hmr. cbn [from_option id].
  rewrite !lower_word by (eapply built_key_word; [done|]; by eapply list_elem_of_lookup_2).
  assert (str_ltb kl tk = true) as Hkltk.
  { destruct (str_ltb_total kl tk) as [|H]; [|done|].
    - intros ->. apply Hnin. by eapply list_elem_of_lookup_2.
    - rewrite (Hbefore lo kl ltac:(lia) Hkl) in H. done. }
  rewrite Hkltk, Hlt. replace (Z.of_nat (S lo) =? Z.of_nat lo + 1) with true by (symmetry; apply Z.eqb_eq; lia).
  rewrite Z.eqb_refl. destruct (b_layers _ _ HB) as (rest & _ & HL).
  assert ((length (proofSiblings (layers t) (Z.of_nat lo))
           =? length (proofSiblings (layers t) (Z.of_nat (S lo))))%nat = true) as ->.
  { apply Nat.eqb_eq. pose proof (proofSiblings_length (layers t) (Z.of_nat lo) HL).
    pose proof (proofSiblings_length (layers t) (Z.of_nat (S lo)) HL). lia. }
  simpl negb. cbv iota. rewrite Hleafl, Hleafr. cbn [obind]. rewrite Hvl. cbn [obind]. exact Hvr.
Qed.

Definition nonPacks (p : NonInclusionProof) : list string :=
  let pl := leafPack (leftKey p, leftMark p) in
  let pr := leafPack (rightKey p, rightMark p) in
  pl :: pr :: verifyPacks (keccak256 pl) (left p) ++ verifyPacks (keccak256 pr) (right p).

Lemma leafOf_inv k m l : leafOf k m = Ok l →
  l = keccak256 (leafPack (k, m)) ∧ isLowerBytes32 (toLowerCase k) = true
  ∧ isLowerBytes32 (toLowerCase m) = true.
Proof.
  unfold leafOf, obind. destruct (packed "00" k m) as [p|] eqn:Hp; [|done]. intros [= <-].
  destruct (packed_inv _ _ _ _ Hp) as (a' & b' & [-> ?]%canonical_lower & [-> ?]%canonical_lower & ->).
  done.
Qed.

(** An accepted neighbour is the key at its index. *)
Lemma neighbour_key ns t k m q l :
  Built ns t → isLowerBytes32 k = true → leafOf k m = Ok l →
  NoCollision (treePacks t ++ leafPack (k, m) :: verifyPacks l q) →
  verifyInclusion (root t) l q = Ok true →
  keys t !! Z.to_nat (index q) = Some k ∧ 0 ≤ index q.
Proof.
  intros HB Hk Hl HN Hv. destruct (leafOf_inv _ _ _ Hl) as (-> & Hkw & Hmw).
  destruct (inclusion_sound ns t (keccak256 (leafPack (k, m))) q HB) as (Hn & Hr & Hi & _); [|done|].
  { eapply NoCollision_sub; [exact HN|]. set_solver. }
  split; [|lia]. destruct (built_lengths _ _ HB) as [Hlm Hll].
  pose proof (lookup_lt_Some _ _ _ Hi) as Hlt.
  destruct (lookup_lt_is_Some_2 (keys t) (Z.to_nat (index q))) as [k' Hk']; [lia|].
  destruct (lookup_lt_is_Some_2 (marks t) (Z.to_nat (index q))) as [m' Hm']; [lia|].
  destruct (built_leaf _ _ _ _ _ HB Hk' Hm') as (l' & Hl' & Hi').
  rewrite Hi in Hi'. injection Hi' as Hi'. rewrite lower_fix in Hi' by apply keccak_word. subst l'.
  destruct (leafOf_inv _ _ _ Hl') as (Heq & Hkw' & Hmw').
  apply HN in Heq.
  - unfold leafPack in Heq. simpl in Heq. apply packWords_inj in Heq as [Heq _]; [|done..].
    rewrite !lower_fix in Heq; [by subst|..|done].
    eapply built_key_word; [done|]. by eapply list_elem_of_lookup_2.
  - set_solver.
  - apply elem_of_app. left. right. apply elem_of_app. left. apply list_elem_of_fmap.
    exists (k', m'). split; [done|]. eapply list_elem_of_lookup_2, lookup_zip_Some. done.
Qed.

Lemma nonInclusion_sound ns t target p :
  Built ns t → NoCollision (treePacks t ++ nonPacks p) →
  verifyNonInclusion (root t) target p ns = Ok true →
  ∃ tk, subjectKey target ns = Ok tk ∧ tk ∉ keys t.
Proof.
  intros HB HN. unfold verifyNonInclusion, obind. destruct (subjectKey target ns) as [tk|]; [|done].
  destruct (canonicalBytes32 (leftKey p)) as [lk|] eqn:Hlk; [|done].
  destruct (canonicalBytes32 (rightKey p)) as [rk|] eqn:Hrk; [|done].
  apply canonical_lower in Hlk as [-> Hlw], Hrk as [-> Hrw].
  destruct (str_ltb _ tk && _) eqn:Hb; [|done]. destruct (index (right p) =? _) eqn:Hi; [|done].
  simpl. destruct (negb _); [done|]. apply andb_true_iff in Hb as [Hb1 Hb2]. apply Z.eqb_eq in Hi.
  destruct (leafOf _ (leftMark p)) as [ll|] eqn:Hll; [|done].
  destruct (leafOf _ (rightMark p)) as [rl|] eqn:Hrl; [|done].
  destruct (verifyInclusion (root t) ll (left p)) as [[]|] eqn:Hvl; [|done..]. intros Hvr.
  exists tk. split; [done|].
  pose proof (leafOf_inv _ _ _ Hll) as (El & _ & _). pose proof (leafOf_inv _ _ _ Hrl) as (Er & _ & _).
  assert (leafPack (toLowerCase (leftKey p), leftMark p) = leafPack (leftKey p, leftMark p)) as Epl
    by (unfold leafPack; simpl; by rewrite toLowerCase_idem).
  assert (leafPack (toLowerCase (rightKey p), rightMark p) = leafPack (rightKey p, rightMark p)) as Epr
    by (unfold leafPack; simpl; by rewrite toLowerCase_idem).
  destruct (neighbour_key ns t _ _ (left p) ll HB Hlw Hll) as [Hkl Hl0]; [|done|].
  { eapply NoCollision_sub; [exact HN|]. rewrite El, Epl. unfold nonPacks. set_solver. }
  destruct (neighbour_key ns t _ _ (right p) rl HB Hrw Hrl) as [Hkr _]; [|done|].
  { eapply NoCollision_sub; [exact HN|]. rewrite Er, Epr. unfold nonPacks. set_solver. }
  intros (j & Hj)%list_elem_of_lookup.
  pose proof (sorted_index _ _ _ _ _ (b_sorted _ _ HB) Hkl Hj Hb1).
  pose proof (sorted_index _ _ _ _ _ (b_sorted _ _ HB) Hj Hkr Hb2). lia.
Qed.

(** * Building never fails on valid, distinct entries *)

Lemma checkDuplicates_ok l : NoDup (map snd l) → checkDuplicates l = Ok tt.
Proof.
  induction l as [|[e k] l IH]; [done|]. cbn [map snd]. intros [Hk Hnd]%NoDup_cons.
  destruct l as [|[e' k'] l]; [done|]. cbn [checkDuplicates].
  destruct (String.eqb_spec k' k) as [->|]; [|by apply IH]. destruct Hk. by left.
Qed.

Lemma checkSentinels_pass l : Forall (λ ek, ek.2 ≠ MIN_KEY ∧ ek.2 ≠ MAX_KEY) l → checkSentinels l = Ok tt.
Proof.
  induction 1 as [|[e k] l [H1 H2] _ IH]; [done|]. cbn [checkSentinels]. simpl in H1, H2.
  apply String.eqb_neq in H1, H2. by rewrite H1, H2.
Qed.

Lemma buildRoster_total es ns ks :
  Forall2 (λ e k, subjectKey (subject e) ns = Ok k) es ks → Forall (λ e, is_ok (markHash e) = true) es →
  NoDup ks → MIN_KEY ∉ ks → MAX_KEY ∉ ks → Z.of_nat (length es) + 2 ≤ MAX_SAFE_INTEGER →
  ∃ t, buildRoster es ns = Ok t.
Proof.
  intros Hk Hm Hnd Hmin Hmax Hlen. unfold buildRoster.
  assert (omap_out (withKey ns) es = Ok (zip es ks)) as ->.
  { apply omap_out_Forall2. clear -Hk. induction Hk as [|e k es ks He _ IH]; constructor; [|done].
    unfold withKey. by rewrite He. }
  cbn [obind]. set (wk := sort_by keyLe (zip es ks)).
  assert (wk ≡ₚ zip es ks) as Hp by apply sort_by_perm.
  assert (length es = length ks) as Hl by by eapply Forall2_length.
  assert (map snd wk ≡ₚ ks) as Hsnd by (rewrite Hp; by rewrite snd_zip by lia).
  assert (map fst wk ≡ₚ es) as Hfst by (rewrite Hp; by rewrite fst_zip by lia).
  rewrite checkDuplicates_ok by by rewrite Hsnd. cbn [obind].
  rewrite checkSentinels_pass; cycle 1.
  { apply Forall_forall. intros ek Hek. assert (ek.2 ∈ ks) by (rewrite <- Hsnd; by apply list_elem_of_fmap_2).
    split; intros E; rewrite E in *; done. }
  cbn [obind]. assert (∃ ms, omap_out markHash (map fst wk) = Ok ms) as (ms & Hms).
  { assert (Forall (λ e, is_ok (markHash e) = true) (map fst wk)) as Hf by by rewrite Hfst.
    clear -Hf. induction Hf as [|e l He _ (ms & IH)]; [by exists []|].
    simpl. destruct (markHash e) as [m|]; [|done]. rewrite IH. simpl. eauto. }
  rewrite Hms. cbn [obind]. apply omap_out_Forall2 in Hms.
  assert (length ms = length (map snd wk)) as Hlm.
  { apply Forall2_length in Hms. rewrite !length_map in *. lia. }
  assert (Forall (λ m, isLowerBytes32 m = true) ms) as Hmw.
  { apply Forall_forall. intros m (i & Hi)%list_elem_of_lookup.
    destruct (Forall2_lookup_r _ _ _ _ _ Hms Hi) as (e & _ & He). unfold markHash, obind in He.
    destruct (getAddress _); [|done]. destruct (abiEncodeMark _ _ _ _); [|done]. simplify_eq. apply keccak_word. }
  assert (Forall (λ k, isLowerBytes32 k = true) (map snd wk)) as Hkw.
  { rewrite Hsnd. apply Forall_forall. intros k (i & Hi)%list_elem_of_lookup.
    destruct (Forall2_lookup_r _ _ _ _ _ Hk Hi) as (e & _ & He). by eapply subjectKey_word. }
  set (zs := zip (MIN_KEY :: map snd wk ++ [MAX_KEY]) (SENTINEL_MARK :: ms ++ [SENTINEL_MARK])).
  match goal with |- context [omap_out ?f ?l] =>
    change (omap_out f l) with (omap_out (λ km, leafOf km.1 km.2) zs) end.
  assert (omap_out (λ km, leafOf km.1 km.2) zs
    = Ok (map (λ km, keccak256 (packWords "00" km.1 km.2)) zs)) as ->.
  { apply omap_out_Forall2, Forall2_fmap_r, Forall_Forall2_diag, Forall_forall. intros [k m] Hkm.
    assert (isLowerBytes32 k = true ∧ isLowerBytes32 m = true) as [Hk1 Hm1].
    { split.
      - apply elem_of_zip_l in Hkm. revert Hkm. rewrite elem_of_cons, elem_of_app, list_elem_of_singleton.
        rewrite Forall_forall in Hkw. by intros [->|[?| ->]]; [|apply Hkw|].
      - apply elem_of_zip_r in Hkm. revert Hkm. rewrite elem_of_cons, elem_of_app, list_elem_of_singleton.
        rewrite Forall_forall in Hmw. by intros [->|[?| ->]]; [|apply Hmw|]. }
    simpl. unfold leafOf. by rewrite (packed_ok "00" k m k m) by by apply lower_word. }
  cbn [obind]. set (lvs := map (λ km, keccak256 (packWords "00" km.1 km.2)) zs).
  assert (length lvs = (2 + length es)%nat) as Hll.
  { unfold lvs, zs. rewrite length_map, length_zip. simpl. rewrite !length_app, Hlm. simpl.
    apply Permutation_length in Hsnd. lia. }
  assert (words lvs) as Hw.
  { unfold lvs. apply Forall_fmap, Forall_forall. intros km _. apply keccak_word. }
  destruct (buildLayers_ok (length lvs) lvs Hw) as (rest & -> & HL); [lia|]. cbn [obind].
  fold (topOf (lvs :: rest)). rewrite rosterRoot_ok; [eexists; done|by apply topOf_word|rewrite Hll; lia].
Qed.
End roster.
End Roster.

(** * Theorems *)

Module RosterProofs.
Import Roster.

Section statements.
Context (keccak256 : string → string).
Context (getAddress : string → outcome string).
Context (abiEncodeKey : string → string → string).
Context (abiEncodeMark : string → string → string → string → outcome string).
Hypothesis keccak_word : ∀ x, isLowerBytes32 (keccak256 x) = true.

Let build := buildRoster keccak256 getAddress abiEncodeKey abiEncodeMark.
Let key := subjectKey keccak256 getAddress abiEncodeKey.

(** C8. For a roster that was built, the inclusion proof of every index exists and
    is accepted for that leaf; and, where keccak256 does not collide on the preimages
    hashed, whatever proof is accepted for a leaf has the tree's leaf count, an index in
    range, that very leaf at that index, and exactly the siblings the prover gives. *)
Theorem roster_inclusion (es : list RosterEntry) (ns : string) (t : RosterTree) :
  build es ns = Ok t →
  (entries t ≡ₚ es ∧ ∀ i e, entries t !! i = Some e → ∃ leaf p,
     rosterLeaf keccak256 getAddress abiEncodeKey abiEncodeMark e ns = Ok leaf
     ∧ inclusionProof t (leafIndexOf (Z.of_nat i)) = Ok p
     ∧ verifyInclusion keccak256 (root t) leaf p = Ok true) ∧
  (∀ leaf p, NoCollision keccak256 (treePacks t ++ verifyPacks keccak256 leaf p) →
     verifyInclusion keccak256 (root t) leaf p = Ok true →
     leafCount p = Z.of_nat (length (leaves t)) ∧ 0 ≤ index p < leafCount p
     ∧ leaves t !! Z.to_nat (index p) = Some (toLowerCase leaf)
     ∧ map toLowerCase (siblings p) = proofSiblings (layers t) (index p)).
Proof.
  intros [HB Hp]%buildRoster_inv; [|done]. split; [split; [done|]|].
  - intros i e He. destruct (b_keys _ _ _ _ _ _ HB) as (ks & Hks & Hk).
    destruct (b_marks _ _ _ _ _ _ HB) as (ms & Hms & Hm).
    destruct (Forall2_lookup_l _ _ _ _ _ Hk He) as (k & Hki & Hke).
    destruct (Forall2_lookup_l _ _ _ _ _ Hm He) as (m & Hmi & Hme).
    destruct (built_leaf keccak256 getAddress abiEncodeKey abiEncodeMark ns t (S i) k m HB)
      as (leaf & Hleaf & Hl).
    { rewrite Hks. simpl. by apply lookup_app_l_Some. }
    { rewrite Hms. simpl. by apply lookup_app_l_Some. }
    destruct (inclusion_ok keccak256 getAddress abiEncodeKey abiEncodeMark keccak_word ns t (S i) leaf HB Hl)
      as [Hip Hv].
    exists leaf. eexists. split; [|split; [|exact Hv]].
    + unfold rosterLeaf. rewrite Hke. simpl. rewrite Hme. exact Hleaf.
    + unfold leafIndexOf. rewrite <- Hip. f_equal. lia.
  - intros leaf p. by apply (inclusion_sound keccak256 getAddress abiEncodeKey abiEncodeMark keccak_word ns).
Qed.

(** C9. A subject absent from a built roster has a non-membership proof and it is
    accepted; and, under collision freeness, an accepted non-membership proof implies
    that no entry of the roster has that subject key. *)
Theorem roster_nonmembership (es : list RosterEntry) (ns : string) (t : RosterTree)
    (target tk : string) :
  build es ns = Ok t → key target ns = Ok tk → tk ≠ MIN_KEY → tk ≠ MAX_KEY →
  ((∀ e, e ∈ es → key (subject e) ns ≠ Ok tk) ↔
   ∃ p, nonInclusionProof keccak256 getAddress abiEncodeKey t target ns = Ok p
        ∧ verifyNonInclusion keccak256 getAddress abiEncodeKey (root t) target p ns = Ok true) ∧
  (∀ p, NoCollision keccak256 (treePacks t ++ nonPacks keccak256 p) →
     verifyNonInclusion keccak256 getAddress abiEncodeKey (root t) target p ns = Ok true →
     ∀ e, e ∈ es → key (subject e) ns ≠ Ok tk).
Proof.
  intros [HB Hp]%buildRoster_inv Htk Hmin Hmax; [|done].
  destruct (b_keys _ _ _ _ _ _ HB) as (ks & Hks & Hk).
  assert ((∀ e, e ∈ es → key (subject e) ns ≠ Ok tk) ↔ tk ∉ keys t) as Hiff.
  { rewrite Hks, elem_of_cons, elem_of_app, list_elem_of_singleton. split.
    - intros Hno [?|[Hin|?]]; [done| |done]. apply list_elem_of_lookup in Hin as (i & Hi).
      destruct (Forall2_lookup_r _ _ _ _ _ Hk Hi) as (e & He & Hke). apply (Hno e); [|done].
      rewrite <- Hp. by eapply list_elem_of_lookup_2.
    - intros Hno e He Hke. rewrite <- Hp in He. apply list_elem_of_lookup in He as (i & Hi).
      destruct (Forall2_lookup_l _ _ _ _ _ Hk Hi) as (k & Hki & Hke'). unfold key in Hke.
      rewrite Hke' in Hke. injection Hke as ->. apply Hno. right. left.
      by eapply list_elem_of_lookup_2. }
  split.
  - rewrite Hiff. split.
    + by eapply nonInclusion_ok.
    + intros (p & Hpf & _) Hin. unfold nonInclusionProof in Hpf. unfold key in Htk.
      rewrite Htk in Hpf. simpl in Hpf. by rewrite bool_decide_eq_true_2 in Hpf.
  - intros p HN Hv. apply Hiff.
    destruct (nonInclusion_sound keccak256 getAddress abiEncodeKey abiEncodeMark keccak_word ns t target p HB HN Hv)
      as (tk' & Htk' & Hnin). unfold key in Htk. rewrite Htk in Htk'. by injection Htk' as ->.
Qed.

(** C40. Building succeeds exactly when the subject keys are distinct (given that
    keys and marks can be computed and no key is a sentinel), and the keys of the tree
    are then strictly increasing: the sentinels around a permutation of the subject
    keys. *)
Theorem roster_build_total (es : list RosterEntry) (ns : string) (ks : list string) :
  Forall2 (λ e k, key (subject e) ns = Ok k) es ks →
  Forall (λ e, is_ok (markHash keccak256 getAddress abiEncodeMark e) = true) es →
  MIN_KEY ∉ ks → MAX_KEY ∉ ks → Z.of_nat (length es) + 2 ≤ MAX_SAFE_INTEGER →
  (NoDup ks → ∃ t, build es ns = Ok t
     ∧ StronglySorted (λ a b, str_ltb a b = true) (keys t) ∧ keys t ≡ₚ MIN_KEY :: ks ++ [MAX_KEY]) ∧
  (∀ t, build es ns = Ok t → NoDup ks).
Proof.
  intros Hk Hm Hmin Hmax Hlen.
  assert (∀ t, build es ns = Ok t → StronglySorted (λ a b, str_ltb a b = true) (keys t)
    ∧ keys t ≡ₚ MIN_KEY :: ks ++ [MAX_KEY]) as Hkeys.
  { intros t [HB Hp]%buildRoster_inv; [|done]. split; [apply HB|].
    destruct (b_keys _ _ _ _ _ _ HB) as (ks' & -> & Hk'). constructor. apply Permutation_app_tail.
    assert (map (λ e, key (subject e) ns) (entries t) ≡ₚ map (λ e, key (subject e) ns) es) as Hmap by by rewrite Hp.
    assert (∀ l (xs : list string), Forall2 (λ e k, key (subject e) ns = Ok k) l xs →
      map (λ e, key (subject e) ns) l = map Ok xs) as Hf.
    { clear. induction 1 as [|e x l xs He _ IH]; simpl; [done|]. by rewrite He, IH. }
    rewrite (Hf _ _ Hk), (Hf _ _ Hk') in Hmap.
    apply (Permutation_map (λ o : outcome string, match o with Ok k => k | Throw _ => "" end)) in Hmap.
    by rewrite !map_map, !map_id in Hmap. }
  split.
  - intros Hnd. destruct (buildRoster_total keccak256 getAddress abiEncodeKey abiEncodeMark keccak_word
      es ns ks Hk Hm Hnd Hmin Hmax Hlen) as (t & Ht). exists t. split; [done|]. by apply Hkeys.
  - intros t Ht. destruct (Hkeys t Ht) as [Hs Hp].
    assert (NoDup (keys t)) as Hnd.
    { clear -Hs. induction Hs as [|x l _ IH Hx]; constructor; [|done]. intros Hin.
      rewrite Forall_forall in Hx. apply Hx in Hin. by rewrite str_ltb_irrefl in Hin. }
    rewrite Hp in Hnd. apply NoDup_cons in Hnd as [_ Hnd]. by apply NoDup_app in Hnd as [? _].
Qed.
End statements.

(** ** A concrete tree, under a toy hash *)

Definition toyHash (s : string) : string :=
  "0x" +:+ hexDigits 64 (fold_left (λ acc c, Z.land (acc * 131 + Z.of_N (N_of_ascii c)) (Z.ones 40)) (list_ascii_of_string s) 7).

Lemma hexDigits_chars k n : allChars isLowerHex (hexDigits k n) = true.
Proof.
  revert n. induction k as [|k IH]; intros n; [done|]. cbn [hexDigits].
  assert (∀ a b, allChars isLowerHex (a +:+ b) = allChars isLowerHex a && allChars isLowerHex b) as Happ.
  { intros a b. induction a as [|c a IHa]; [done|].
    change (isLowerHex c && allChars isLowerHex (a +:+ b)
      = isLowerHex c && allChars isLowerHex a && allChars isLowerHex b). by rewrite IHa, andb_assoc. }
  rewrite Happ, IH. simpl. rewrite andb_true_r.
  pose proof (Z.mod_pos_bound n 16 ltac:(lia)). set (m := n mod 16) in *. clearbody m.
  assert (m = 0 ∨ m = 1 ∨ m = 2 ∨ m = 3 ∨ m = 4 ∨ m = 5 ∨ m = 6 ∨ m = 7 ∨ m = 8 ∨ m = 9 ∨ m = 10
    ∨ m = 11 ∨ m = 12 ∨ m = 13 ∨ m = 14 ∨ m = 15) as Hm by lia.
  by destruct_or!; subst.
Qed.

Lemma toyHash_word s : isLowerBytes32 (toyHash s) = true.
Proof.
  unfold toyHash. set (n := fold_left _ _ _). clearbody n.
  change (isLowerBytes32 (String "0" (String "x" (hexDigits 64 n))) = true).
  unfold isLowerBytes32, hexString. by rewrite hexDigits_length, hexDigits_chars.
Qed.

Definition exKey (ns a : string) : string := ns +:+ a.
Definition exMark (a c e i : string) : outcome string := Ok (a +:+ c +:+ e +:+ i).
Definition exEntry (s : string) : RosterEntry := {|
  subject := s; attrs := "0xattrs"; claimsRoot := "0xclaims"; evidenceHash := "0xevidence"; issuer := "0xissuer" |}.
Definition exEntries : list RosterEntry := [exEntry "0xalice"; exEntry "0xbob"; exEntry "0xcarol"].
Definition emptyTree : RosterTree := {| formatVersion := 2; entries := []; keys := []; marks := [];
  leaves := []; layers := []; root := "" |}.
Definition exTree : RosterTree := Eval vm_compute in
  ok_or emptyTree (buildRoster toyHash Ok exKey exMark exEntries EVM_NAMESPACE).
Definition exLeaf : string := Eval vm_compute in default "" (leaves exTree !! 1%nat).
Definition exProof : InclusionProof := Eval vm_compute in
  ok_or {| index := 0; leafCount := 0; siblings := [] |} (inclusionProof exTree 1).
Definition noProof : NonInclusionProof :=
  {| left := exProof; leftKey := ""; leftMark := ""; right := exProof; rightKey := ""; rightMark := "" |}.
Definition exAbsent : NonInclusionProof := Eval vm_compute in
  ok_or noProof (nonInclusionProof toyHash Ok exKey exTree "0xdave" EVM_NAMESPACE).

(** A decision of [NoCollision] on a list: distinct preimages have distinct hashes. *)
Lemma NoCollision_decide h ps :
  NoDup (map h (remove_dups ps)) → NoCollision h ps.
Proof.
  intros Hnd x y Hx Hy Heq. apply elem_of_remove_dups in Hx, Hy. revert Hx Hy Hnd Heq.
  generalize (remove_dups ps). intros l Hx Hy Hnd Heq.
  apply list_elem_of_lookup in Hx as (i & Hi), Hy as (j & Hj).
  assert (i = j) as ->; [|congruence].
  apply (NoDup_lookup _ i j (h x) Hnd); rewrite list_lookup_fmap; [by rewrite Hi|by rewrite Hj; simpl; rewrite Heq].
Qed.

Lemma exBuild : buildRoster toyHash Ok exKey exMark exEntries EVM_NAMESPACE = Ok exTree.
Proof. by vm_compute. Qed.

Lemma roster_inclusion_witness :
  leafCount exProof = Z.of_nat (length (leaves exTree)) ∧ 0 ≤ index exProof < leafCount exProof
  ∧ leaves exTree !! Z.to_nat (index exProof) = Some (toLowerCase exLeaf)
  ∧ map toLowerCase (siblings exProof) = proofSiblings (layers exTree) (index exProof).
Proof.
  apply (proj2 (roster_inclusion toyHash Ok exKey exMark toyHash_word exEntries EVM_NAMESPACE exTree exBuild)
    exLeaf exProof).
  - apply NoCollision_decide. refine (bool_decide_eq_true_1 (NoDup _) _). vm_compute. reflexivity.
  - by vm_compute.
Defined.

Lemma roster_nonmembership_witness :
  Forall (λ e, subjectKey toyHash Ok exKey (subject e) EVM_NAMESPACE
                ≠ Ok (toyHash (exKey EVM_NAMESPACE "0xdave"))) exEntries.
Proof.
  apply Forall_forall.
  apply (proj2 (roster_nonmembership toyHash Ok exKey exMark toyHash_word exEntries EVM_NAMESPACE exTree
    "0xdave" _ exBuild eq_refl ltac:(by vm_compute) ltac:(by vm_compute)) exAbsent).
  - apply NoCollision_decide. refine (bool_decide_eq_true_1 (NoDup _) _). vm_compute. reflexivity.
  - by vm_compute.
Defined.

Lemma roster_build_total_witness :
  NoDup (map (λ e, toyHash (exKey EVM_NAMESPACE (subject e))) exEntries).
Proof.
  apply (proj2 (roster_build_total toyHash Ok exKey exMark toyHash_word exEntries EVM_NAMESPACE
    (map (λ e, toyHash (exKey EVM_NAMESPACE (subject e))) exEntries)
    ltac:(repeat constructor) ltac:(repeat constructor)
    ltac:(apply (bool_decide_eq_true_1 (_ ∉ _)); by vm_compute)
    ltac:(apply (bool_decide_eq_true_1 (_ ∉ _)); by vm_compute) ltac:(done)) exTree exBuild).
Defined.
End RosterProofs.
