(* ===== verification/Merkle.v ===== *)
(** Claim commitments and the orders they rely on: the sorted-pair Merkle tree of
    [src/pipeline/merkle.ts], the claim disclosures of [src/pipeline/claims.ts], the newest mark per
    subject of [src/pipeline/source-order.ts]. *)

From Stdlib Require Import ZArith Lia Ascii String List.
From stdpp Require Import base decidable option list strings sets sorting.
From S2P Require Import Prelude JS Roster.
Local Open Scope string_scope.
Local Open Scope list_scope.
Local Open Scope Z_scope.

(** * Sorted-pair Merkle trees *)

Module Merkle.

Definition ZeroHash : string := "0x" +:+ Roster.repeatStr "00" 32.

(** [ethers.concat] of hexadecimal data; it throws on a string that is not whole bytes. *)
Definition isHexData (s : string) : bool :=
  match s with
  | String "0" (String "x" b) => Nat.even (String.length b) && allChars isHex b
  | _ => false
  end.
Definition concatHex (a b : string) : outcome string :=
  if isHexData a && isHexData b
  then Ok ("0x" +:+ Roster.hexBody (toLowerCase a) +:+ Roster.hexBody (toLowerCase b))
  else Throw (EError "INVALID_ARGUMENT").

Definition indexOf (x : string) (l : list string) : Z := Roster.findIndex (String.eqb x) l.

Section merkle.
Context (keccak256 : string → string).

Definition hashPair (a b : string) : outcome string :=
  let? p := if str_leb (toLowerCase a) (toLowerCase b) then concatHex a b else concatHex b a in
  Ok (keccak256 p).

Fixpoint nextLevel (level : list string) : outcome (list string) :=
  match level with
  | [] => Ok []
  | [x] => Ok [x]
  | x :: y :: l => let? h := hashPair x y in let? rest := nextLevel l in Ok (h :: rest)
  end.

(** The [while] loop; every round shortens the level, so its length is fuel enough. *)
Fixpoint reduceLevels (fuel : nat) (level : list string) : outcome string :=
  match level with
  | [] => Throw (EError "TypeError")
  | [x] => Ok x
  | _ => match fuel with
         | O => Throw (EError "out of fuel")
         | S fuel => let? next := nextLevel level in reduceLevels fuel next
         end
  end.

Definition sorted (leaves : list string) : list string := sort_by str_leb leaves.

Definition merkleRoot (leaves : list string) : outcome string :=
  match leaves with
  | [] => Ok ZeroHash
  | _ => reduceLevels (length leaves) (sorted leaves)
  end.

Fixpoint proofLevels (fuel : nat) (level : list string) (idx : Z) : outcome (list string) :=
  if (length level <=? 1)%nat then Ok []
  else match fuel with
       | O => Throw (EError "out of fuel")
       | S fuel =>
           let sibling := Roster.pairOf idx in
           let own := if sibling <? Z.of_nat (length level)
                      then [default "" (Roster.at_ level sibling)] else [] in
           let? next := nextLevel level in
           let? rest := proofLevels fuel next (idx / 2) in
           Ok (own ++ rest)
       end.

Definition merkleProof (leaves : list string) (leaf : string) : outcome (list string) :=
  let level := sorted leaves in
  let idx := indexOf leaf level in
  let? _ := orequire (0 <=? idx) (EError "merkleProof: leaf not found") in
  proofLevels (length leaves) level idx.

Fixpoint foldProof (acc : string) (proof : list string) : outcome string :=
  match proof with
  | [] => Ok acc
  | p :: proof => let? acc' := hashPair acc p in foldProof acc' proof
  end.

Definition verifyProof (root leaf : string) (proof : list string) : outcome bool :=
  let? acc := foldProof leaf proof in
  Ok (String.eqb (toLowerCase acc) (toLowerCase root)).

(** * Completeness *)

Hypothesis keccak_word : ∀ x, isLowerBytes32 (keccak256 x) = true.

(** The preimage of a pair of words. *)
Definition pairPre (a b : string) : string :=
  if str_leb a b then Roster.packWords "" a b else Roster.packWords "" b a.

Lemma word_hexData a : isLowerBytes32 a = true → isHexData a = true.
Proof.
  intros H. pose proof (Roster.word_chars a H) as Hc. destruct (Roster.lower_body a H) as [E Hl].
  rewrite E. change (Nat.even (String.length (Roster.hexBody a)) && allChars isHex (Roster.hexBody a) = true).
  rewrite Hl. simpl. by rewrite allChars_hex_lower, allChars_lower_fix.
Qed.

Lemma concat_words a b : isLowerBytes32 a = true → isLowerBytes32 b = true →
  concatHex a b = Ok (Roster.packWords "" a b).
Proof.
  intros Ha Hb. unfold concatHex. rewrite !word_hexData by done. simpl.
  by rewrite !(hexString_lower_fix 64).
Qed.

Lemma hashPair_words a b : isLowerBytes32 a = true → isLowerBytes32 b = true →
  hashPair a b = Ok (keccak256 (pairPre a b)).
Proof.
  intros Ha Hb. unfold hashPair, pairPre. rewrite !(hexString_lower_fix 64) by done.
  by destruct (str_leb a b); rewrite concat_words.
Qed.

Lemma str_leb_eq a b : str_leb a b = true → str_leb b a = true → a = b.
Proof. intros. by apply String.leb_antisym. Qed.

Lemma pairPre_comm a b : pairPre a b = pairPre b a.
Proof.
  unfold pairPre. destruct (str_leb a b) eqn:E1, (str_leb b a) eqn:E2; [|done..|].
  - by rewrite (str_leb_eq a b).
  - destruct (String.leb_total a b); unfold str_leb in *; congruence.
Qed.

(** The pairs hashed at a level, and the level above. *)
Fixpoint levelPacks (level : list string) : list string :=
  match level with x :: y :: l => pairPre x y :: levelPacks l | _ => [] end.
Fixpoint above (level : list string) : list string :=
  match level with
  | [] => []
  | [x] => [x]
  | x :: y :: l => keccak256 (pairPre x y) :: above l
  end.

Lemma nextLevel_words l : Roster.words l → nextLevel l = Ok (above l) ∧ Roster.words (above l).
Proof.
  induction l as [|x|x y l IH] using Roster.list_pair_ind; intros Hw; [done..|].
  apply Forall_cons in Hw as [Hx [Hy Hw]%Forall_cons]. destruct (IH Hw) as [IH1 IH2].
  cbn [nextLevel above]. rewrite hashPair_words, IH1 by done. split; [done|]. constructor; [apply keccak_word|done].
Qed.

Lemma above_length l : length (above l) = ((length l + 1) / 2)%nat.
Proof.
  induction l as [|x|x y l IH] using Roster.list_pair_ind; [done..|]. cbn [above length]. rewrite IH.
  replace (S (S (length l)) + 1)%nat with (length l + 1 + 1 * 2)%nat by lia.
  rewrite Nat.div_add by lia. lia.
Qed.

Lemma above_shorter l fuel : (2 <= length l <= S fuel)%nat → (1 <= length (above l) <= fuel)%nat.
Proof.
  intros Hl. rewrite above_length.
  pose proof (Nat.Div0.div_lt_upper_bound (length l + 1) 2 (S fuel) ltac:(lia)).
  pose proof (Nat.div_le_lower_bound (length l + 1) 2 1 ltac:(lia) ltac:(lia)). lia.
Qed.

(** The parent of an entry, computed from its sibling when it has one. *)
Lemma above_lookup l i x : l !! i = Some x →
  let pair := Roster.pairOf (Z.of_nat i) in
  above l !! (i / 2)%nat = Some (match Roster.at_ l pair with
                                 | Some y => keccak256 (pairPre x y) | None => x end)
  ∧ (pair <? Z.of_nat (length l)) = bool_decide (is_Some (Roster.at_ l pair)).
Proof.
  revert i. induction l as [|a|a b l IH] using Roster.list_pair_ind; intros i Hi pair; [done|..].
  - destruct i; [|done]. injection Hi as ->. done.
  - destruct i as [|[|i]].
    + injection Hi as ->. split; [done|]. rewrite (proj2 (Z.ltb_lt _ _)); [done|]. unfold pair. change (Roster.pairOf (Z.of_nat 0)) with 1. simpl length. lia.
    + injection Hi as ->. split; [|done]. cbn [above]. rewrite pairPre_comm. done.
    + simpl in Hi. specialize (IH i Hi). cbn zeta in IH.
      assert (pair = Roster.pairOf (Z.of_nat i) + 2) as Hp.
      { unfold pair, Roster.pairOf. replace (Z.of_nat (S (S i))) with (Z.of_nat i + 1 * 2) by lia.
        rewrite Z.mod_add by lia. destruct (Z.of_nat i mod 2 =? 0); lia. }
      assert (0 ≤ Roster.pairOf (Z.of_nat i)) as H0.
      { unfold Roster.pairOf. destruct (Z.eqb_spec (Z.of_nat i mod 2) 0); [lia|].
        destruct i; [done|lia]. }
      assert (Roster.at_ (a :: b :: l) pair = Roster.at_ l (Roster.pairOf (Z.of_nat i))) as Hat.
      { unfold Roster.at_. rewrite Hp, !(proj2 (Z.ltb_ge _ _)) by lia.
        replace (Z.to_nat (Roster.pairOf (Z.of_nat i) + 2)) with (S (S (Z.to_nat (Roster.pairOf (Z.of_nat i))))) by lia.
        done. }
      rewrite Hat. destruct IH as [IH1 IH2]. split.
      * replace (S (S i) / 2)%nat with (S (i / 2)) by (replace (S (S i)) with (i + 1 * 2)%nat by lia; rewrite Nat.div_add by lia; lia).
        exact IH1.
      * rewrite <- IH2, Hp. simpl length. apply Bool.eq_iff_eq_true. rewrite !Z.ltb_lt. lia.
Qed.

Lemma proof_complete fuel l i x : Roster.words l → (1 <= length l <= S fuel)%nat → l !! i = Some x →
  ∃ r p, reduceLevels fuel l = Ok r ∧ proofLevels fuel l (Z.of_nat i) = Ok p ∧ foldProof x p = Ok r
    ∧ Roster.words p.
Proof.
  revert l i x. induction fuel as [|fuel IH]; intros l i x Hw Hl Hi;
    (destruct l as [|a [|b l]]; [done|destruct i; [|done]; injection Hi as ->; exists x, []; split_and!; try done; constructor|]).
  { simpl in Hl. lia. }
  set (lv := a :: b :: l) in *. destruct (nextLevel_words lv Hw) as [Hn Hw'].
  destruct (above_lookup lv i x Hi) as [Hup Hpair].
  assert (1 <= length (above lv) <= S fuel)%nat as Hlen
    by (apply above_shorter; change (length lv) with (S (S (length l))) in *; lia).
  destruct (IH (above lv) (i / 2)%nat _ Hw' Hlen Hup) as (r & p & Hr & Hp & Hf & Hwp).
  exists r. change (reduceLevels (S fuel) lv) with (obind (nextLevel lv) (reduceLevels fuel)).
  rewrite Hn. cbn [obind]. cbn [proofLevels]. replace (length lv <=? 1)%nat with false by done.
  rewrite Hn. cbn [obind]. replace (Z.of_nat i / 2) with (Z.of_nat (i / 2)) by by rewrite Nat2Z.inj_div.
  rewrite Hp, Hpair. cbn [obind]. eexists. split; [done|]. split; [done|].
  destruct (Roster.at_ lv (Roster.pairOf (Z.of_nat i))) as [y|] eqn:Hy.
  - assert (isLowerBytes32 y = true) as Hyw.
    { unfold Roster.at_ in Hy. destruct (_ <? 0); [done|]. exact (Roster.words_lookup _ _ _ Hw Hy). }
    rewrite bool_decide_eq_true_2 by by eexists. simpl.
    rewrite hashPair_words; [|exact (Roster.words_lookup _ _ _ Hw Hi)|done].
    split; [exact Hf|]. by constructor.
  - by rewrite bool_decide_eq_false_2 by by intros [].
Qed.

(** * Soundness *)

(** The pair preimages hashed on the way to the root. *)
Fixpoint rootPacks (fuel : nat) (level : list string) : list string :=
  match fuel with
  | O => []
  | S fuel => levelPacks level ++ rootPacks fuel (above level)
  end.

(** What the root commits to: the leaves and the nodes over them. *)
Inductive InTree (leaves packs : list string) : string → Prop :=
  | IT_leaf x : x ∈ leaves → InTree leaves packs x
  | IT_node a b : isLowerBytes32 a = true → isLowerBytes32 b = true → pairPre a b ∈ packs →
      InTree leaves packs a → InTree leaves packs b → InTree leaves packs (keccak256 (pairPre a b)).

Lemma InTree_above leaves packs l :
  Roster.words l → Forall (InTree leaves packs) l → levelPacks l ⊆ packs →
  Forall (InTree leaves packs) (above l).
Proof.
  induction l as [|x|x y l IH] using Roster.list_pair_ind; intros Hw Hl Hp; [done..|].
  apply Forall_cons in Hl as [Hx [Hy Hl]%Forall_cons], Hw as [Hwx [Hwy Hw]%Forall_cons].
  cbn [above levelPacks] in *. constructor; [apply IT_node; [done|done|apply Hp; by left|done|done]|].
  apply IH; [done|done|set_solver].
Qed.

Lemma root_InTree fuel leaves packs l r :
  Roster.words l → Forall (InTree leaves packs) l → rootPacks fuel l ⊆ packs →
  reduceLevels fuel l = Ok r → InTree leaves packs r.
Proof.
  revert l. induction fuel as [|fuel IH]; intros l Hw Hl Hp Hr;
    (destruct l as [|a [|b l]]; [done|injection Hr as <-; by apply Forall_cons in Hl as [? _]|]); [done|].
  set (lv := a :: b :: l) in *. destruct (nextLevel_words lv Hw) as [Hn Hw'].
  change (reduceLevels (S fuel) lv) with (obind (nextLevel lv) (reduceLevels fuel)) in Hr.
  rewrite Hn in Hr. cbn [rootPacks] in Hp. apply (IH (above lv)); [done|apply InTree_above|..|done];
    [done|done|set_solver|set_solver].
Qed.

(** The preimages hashed when folding a proof. *)
Fixpoint foldPacks (acc : string) (proof : list string) : list string :=
  match proof with
  | [] => []
  | p :: proof =>
      let pre := pairPre (toLowerCase acc) (toLowerCase p) in pre :: foldPacks (keccak256 pre) proof
  end.

(** Words have 64 digits; what is hashed for a pair of words has 128. *)
Lemma pairPre_length a b : isLowerBytes32 a = true → isLowerBytes32 b = true →
  String.length (pairPre a b) = 130%nat.
Proof.
  intros [_ Ha]%Roster.lower_body [_ Hb]%Roster.lower_body. unfold pairPre, Roster.packWords.
  case_match; rewrite !length_app_str, Ha, Hb; done.
Qed.

Lemma pairPre_inj a b c d :
  isLowerBytes32 a = true → isLowerBytes32 b = true → isLowerBytes32 c = true → isLowerBytes32 d = true →
  pairPre a b = pairPre c d → (a = c ∧ b = d) ∨ (a = d ∧ b = c).
Proof.
  intros Ha Hb Hc Hd. unfold pairPre. destruct (str_leb a b), (str_leb c d);
    intros E%Roster.packWords_inj; try done; naive_solver.
Qed.

Lemma concat_inv a b p : concatHex a b = Ok p →
  p = Roster.packWords "" (toLowerCase a) (toLowerCase b).
Proof. unfold concatHex. by destruct (_ && _); [intros [= <-]|]. Qed.

Lemma hashPair_inv a b h : hashPair a b = Ok h →
  h = keccak256 (pairPre (toLowerCase a) (toLowerCase b)).
Proof.
  unfold hashPair, pairPre, obind. destruct (str_leb (toLowerCase a) (toLowerCase b));
    (destruct (concatHex _ _) as [p|] eqn:Hp; [|done]); intros [= <-]; by rewrite (concat_inv _ _ _ Hp).
Qed.

Lemma lower_word32 a : isBytes32 a = true → isLowerBytes32 (toLowerCase a) = true.
Proof. apply isBytes32_lower. Qed.

(** Folding 32-byte siblings ends in the tree only from within it. *)
Lemma fold_InTree leaves pres packs acc proof final :
  isLowerBytes32 (toLowerCase acc) = true → Forall (λ p, isBytes32 p = true) proof →
  (∀ x, x ∈ leaves → ∃ pre, pre ∈ pres ∧ x = keccak256 pre ∧ String.length pre ≠ 130%nat) →
  Roster.NoCollision keccak256 (pres ++ packs ++ foldPacks acc proof) →
  foldProof acc proof = Ok final → InTree leaves packs (toLowerCase final) →
  InTree leaves packs (toLowerCase acc).
Proof.
  intros Hacc Hproof Hleaves. revert acc Hacc. induction proof as [|p proof IH]; intros acc Hacc HN Hf HT.
  { simpl in Hf. by injection Hf as ->. }
  apply Forall_cons in Hproof as [Hp%lower_word32 Hproof]. cbn [foldProof foldPacks] in *.
  destruct (hashPair acc p) as [h|] eqn:Hh; [|done]. apply hashPair_inv in Hh as ->. simpl in Hf.
  set (pre := pairPre (toLowerCase acc) (toLowerCase p)) in *.
  assert (toLowerCase (keccak256 pre) = keccak256 pre) as Hlow by apply (hexString_lower_fix 64), keccak_word.
  assert (InTree leaves packs (keccak256 pre)) as Hin.
  { rewrite <- Hlow. apply IH; [done|rewrite Hlow; apply keccak_word| |done|done].
    eapply Roster.NoCollision_sub; [exact HN|]. set_solver. }
  assert (pre ∈ pres ++ packs ++ pre :: foldPacks (keccak256 pre) proof) as Hpre by set_solver.
  remember (keccak256 pre) as y eqn:Hy. destruct Hin as [y Hy'|a b Ha Hb Hab HTa HTb].
  - destruct (Hleaves y Hy') as (pre' & Hin' & -> & Hlen). apply HN in Hy; [|set_solver|done].
    destruct Hlen. rewrite Hy. by apply pairPre_length.
  - apply HN in Hy; [|set_solver|done].
    apply pairPre_inj in Hy as [[<- _]|[_ <-]]; done.
Qed.
End merkle.
End Merkle.

(** * Claims *)

Module Claims.
Import Merkle.

Record Claim := { c_key : string; c_value : string; c_salt : string }.
#[export] Instance Claim_eq_dec : EqDecision Claim.
Proof. solve_decision. Defined.

Section claims.
Context (keccak256 : string → string).
(** [AbiCoder.encode(['string', 'string', 'bytes32'], [key, value, salt])], as hexadecimal data. *)
Context (abiEncodeClaim : string → string → string → outcome string).

Definition encodeClaim (c : Claim) : outcome string := abiEncodeClaim (c_key c) (c_value c) (c_salt c).

Definition claimLeaf (c : Claim) : outcome string :=
  let? e := encodeClaim c in Ok (keccak256 e).

Definition claimsRoot (claims : list Claim) : outcome string :=
  let? leaves := omap_out claimLeaf claims in merkleRoot keccak256 leaves.

Definition discloseClaim (claims : list Claim) (key : string) : outcome (Claim * list string) :=
  match find (λ c, String.eqb (c_key c) key) claims with
  | None => Throw (EError ("discloseClaim: no claim named '" +:+ key +:+ "'"))
  | Some claim =>
      let? leaves := omap_out claimLeaf claims in
      let? leaf := claimLeaf claim in
      let? proof := merkleProof keccak256 leaves leaf in
      Ok (claim, proof)
  end.

Definition verifyDisclosure (root : string) (claim : Claim) (proof : list string) : outcome bool :=
  let? leaf := claimLeaf claim in verifyProof keccak256 root leaf proof.

(** The preimages of a commitment, and of an opening. *)
Definition encoded (claims : list Claim) : list string := map (λ c, ok_or "" (encodeClaim c)) claims.
Definition leavesOf (claims : list Claim) : list string := map keccak256 (encoded claims).
Definition commitPacks (claims : list Claim) : list string :=
  encoded claims ++ rootPacks keccak256 (length claims) (sorted (leavesOf claims)).
Definition openPacks (c : Claim) (proof : list string) : list string :=
  let e := ok_or "" (encodeClaim c) in e :: foldPacks keccak256 (keccak256 e) proof.

(** Claims the encoder accepts. *)
Definition encodable (c : Claim) : Prop := is_ok (encodeClaim c) = true.

Lemma leaves_ok claims : Forall encodable claims → omap_out claimLeaf claims = Ok (leavesOf claims).
Proof.
  induction 1 as [|c claims Hc _ IH]; [done|]. unfold leavesOf, encoded in *. simpl. rewrite IH.
  unfold encodable, claimLeaf in *. by destruct (encodeClaim c).
Qed.

Lemma claimLeaf_ok c : encodable c → claimLeaf c = Ok (keccak256 (ok_or "" (encodeClaim c))).
Proof. unfold encodable, claimLeaf. by destruct (encodeClaim c). Qed.
Hypothesis keccak_word : ∀ x, isLowerBytes32 (keccak256 x) = true.
Hypothesis enc_inj : ∀ k v s k' v' s' e, abiEncodeClaim k v s = Ok e → abiEncodeClaim k' v' s' = Ok e →
  k = k' ∧ v = v' ∧ toLowerCase s = toLowerCase s'.
Hypothesis enc_long : ∀ k v s e, abiEncodeClaim k v s = Ok e → (130 < String.length e)%nat.

(** What a successful commitment to [claims] consists of. *)
Record Committed (claims : list Claim) (root : string) : Prop := {
  cm_enc : Forall encodable claims;
  cm_words : Roster.words (sorted (leavesOf claims));
  cm_size : (1 <= length claims)%nat;
  cm_root : reduceLevels keccak256 (length claims) (sorted (leavesOf claims)) = Ok root }.

Lemma leavesOf_length claims : length (leavesOf claims) = length claims.
Proof. unfold leavesOf, encoded. by rewrite !length_map. Qed.

Lemma sorted_perm l : sorted l ≡ₚ l.
Proof. apply sort_by_perm. Qed.

Lemma committed claims root : claims ≠ [] → claimsRoot claims = Ok root → Committed claims root.
Proof.
  intros Hne Hroot. unfold claimsRoot in Hroot.
  destruct (omap_out claimLeaf claims) as [lvs|] eqn:Hlvs; [|done].
  assert (Forall encodable claims) as Henc.
  { apply omap_out_Forall2 in Hlvs. clear -Hlvs. induction Hlvs as [|c l cs ls Hc _ IH]; constructor; [|done].
    unfold claimLeaf, encodable in *. by destruct (encodeClaim c). }
  rewrite leaves_ok in Hlvs by done. injection Hlvs as <-. simpl in Hroot.
  pose proof (leavesOf_length claims) as Hlen. split; [done| |by destruct claims; [|simpl; lia]|].
  - unfold Roster.words. rewrite sorted_perm. apply Forall_fmap, Forall_forall. intros e _. apply keccak_word.
  - unfold merkleRoot in Hroot. rewrite Hlen in Hroot. destruct (leavesOf claims); [|done]. by destruct claims.
Qed.

Lemma find_key key claims : (∃ c, c ∈ claims ∧ c_key c = key) →
  ∃ c, find (λ c, String.eqb (c_key c) key) claims = Some c ∧ c ∈ claims ∧ c_key c = key.
Proof.
  intros (c0 & Hc0 & Hkey). destruct (find _ claims) as [c|] eqn:Hfind.
  - apply find_some in Hfind as [Hin%list_elem_of_In Hk%String.eqb_eq]. eauto.
  - pose proof (find_none _ _ Hfind c0 ltac:(by apply list_elem_of_In)) as Hn. simpl in Hn.
    by rewrite Hkey, String.eqb_refl in Hn.
Qed.

Lemma disclose_complete claims root key :
  Committed claims root → (∃ c, c ∈ claims ∧ c_key c = key) →
  ∃ c proof, discloseClaim claims key = Ok (c, proof) ∧ c ∈ claims ∧ c_key c = key
    ∧ Forall (λ p, isBytes32 p = true) proof ∧ verifyDisclosure root c proof = Ok true.
Proof.
  intros [Henc Hw Hsz Hred] (c & Hfind & Hin & Hk)%find_key. unfold discloseClaim. rewrite Hfind, leaves_ok by done.
  cbn [obind]. assert (encodable c) as He by (by rewrite Forall_forall in Henc; apply Henc).
  rewrite claimLeaf_ok by done. cbn [obind]. set (leaf := keccak256 (ok_or "" (encodeClaim c))).
  assert (leaf ∈ sorted (leavesOf claims)) as Hleaf.
  { rewrite sorted_perm. unfold leavesOf, encoded. rewrite map_map.
    by apply (list_elem_of_fmap_2 (λ x, keccak256 (ok_or "" (encodeClaim x))) claims c). }
  unfold merkleProof, indexOf.
  destruct (Roster.findIndex_spec (String.eqb leaf) (sorted (leavesOf claims)))
    as [[_ Hno]|(i & x & -> & Hi & Hx & _)].
  { pose proof (Hno leaf Hleaf) as Hf. by rewrite String.eqb_refl in Hf. }
  apply String.eqb_eq in Hx as <-. rewrite (proj2 (Z.leb_le 0 _)) by lia. cbn [orequire obind].
  assert (1 <= length (sorted (leavesOf claims)) <= S (length claims))%nat as Hsl
    by (rewrite sorted_perm, leavesOf_length; lia).
  destruct (proof_complete keccak256 keccak_word (length claims) _ i leaf Hw Hsl Hi)
    as (r & p & Hr & Hp & Hf & Hwp).
  rewrite Hred in Hr. injection Hr as <-. rewrite leavesOf_length, Hp. cbn [obind].
  exists c, p. split_and!; [done|done|done| |].
  - eapply Forall_impl; [exact Hwp|]. intros x Hx. apply Roster.lower_word in Hx.
    unfold Roster.canonicalBytes32 in Hx. by destruct (isBytes32 x).
  - unfold verifyDisclosure. rewrite claimLeaf_ok by done. cbn [obind]. fold leaf.
    unfold verifyProof. rewrite Hf. cbn [obind]. by rewrite String.eqb_refl.
Qed.

(** Every leaf hashes the encoding of a committed claim. *)
Lemma leaf_origin claims x : Forall encodable claims → x ∈ sorted (leavesOf claims) →
  ∃ c e, c ∈ claims ∧ encodeClaim c = Ok e ∧ e ∈ encoded claims ∧ x = keccak256 e.
Proof.
  intros Henc Hx. rewrite sorted_perm in Hx. apply list_elem_of_fmap in Hx as (e & -> & He).
  pose proof He as He'. apply list_elem_of_fmap in He as (c & -> & Hc). rewrite Forall_forall in Henc.
  specialize (Henc c Hc). unfold encodable in Henc. destruct (encodeClaim c) as [e|] eqn:Ee; [|done].
  exists c, e. done.
Qed.

Lemma opening_InTree claims root c e proof :
  Committed claims root → encodeClaim c = Ok e → Forall (λ p, isBytes32 p = true) proof →
  Roster.NoCollision keccak256 (commitPacks claims ++ openPacks c proof) →
  verifyDisclosure root c proof = Ok true →
  InTree keccak256 (sorted (leavesOf claims)) (rootPacks keccak256 (length claims) (sorted (leavesOf claims)))
    (keccak256 e).
Proof.
  intros [Henc Hw Hsz Hred] He Hproof HN. unfold verifyDisclosure, claimLeaf, openPacks in *. rewrite He in *.
  simpl in *. unfold verifyProof.
  destruct (foldProof keccak256 (keccak256 e) proof) as [final|] eqn:Hf; [|done]. simpl.
  intros [= Heq%String.eqb_eq].
  set (packs := rootPacks keccak256 (length claims) (sorted (leavesOf claims))) in *.
  assert (InTree keccak256 (sorted (leavesOf claims)) packs root) as HT.
  { eapply (root_InTree keccak256 keccak_word (length claims)); [exact Hw| |done|exact Hred].
    apply Forall_forall. intros x Hx. by apply IT_leaf. }
  assert (toLowerCase root = root) as Hrl.
  { destruct HT; apply (hexString_lower_fix 64); [|apply keccak_word].
    unfold Roster.words in Hw. rewrite Forall_forall in Hw. auto. }
  rewrite <- (hexString_lower_fix 64 _ (keccak_word e)).
  eapply (fold_InTree keccak256 keccak_word _ (encoded claims)); [|exact Hproof| | |exact Hf|].
  - rewrite (hexString_lower_fix 64); apply keccak_word.
  - intros x Hx. destruct (leaf_origin claims x Henc Hx) as (c' & e' & _ & He' & Hin' & ->).
    exists e'. split_and!; [done|done|]. apply enc_long in He'. lia.
  - eapply Roster.NoCollision_sub; [exact HN|]. unfold commitPacks. fold packs. set_solver.
  - by rewrite Heq, Hrl.
Qed.

Lemma disclosure_sound claims root c proof :
  Committed claims root → Forall (λ p, isBytes32 p = true) proof →
  Roster.NoCollision keccak256 (commitPacks claims ++ openPacks c proof) →
  verifyDisclosure root c proof = Ok true →
  ∃ c', c' ∈ claims ∧ c_key c' = c_key c ∧ c_value c' = c_value c
        ∧ toLowerCase (c_salt c') = toLowerCase (c_salt c).
Proof.
  intros HC Hproof HN Hv. destruct (encodeClaim c) as [e|] eqn:He.
  2:{ unfold verifyDisclosure, claimLeaf in Hv. by rewrite He in Hv. }
  pose proof (opening_InTree claims root c e proof HC He Hproof HN Hv) as Hin.
  assert (e ∈ commitPacks claims ++ openPacks c proof) as Hep by (unfold openPacks; rewrite He; set_solver).
  remember (keccak256 e) as y eqn:Hy. destruct Hin as [y Hy'|a b Ha Hb Hab _ _].
  - destruct (leaf_origin claims y (cm_enc _ _ HC) Hy') as (c' & e' & Hc' & He' & Hpre & ->).
    apply HN in Hy; [|unfold commitPacks; set_solver|done]. subst e'. exists c'. split; [done|].
    by apply (enc_inj _ _ _ _ _ _ _ He' He).
  - apply HN in Hy; [|unfold commitPacks; set_solver|done].
    pose proof (pairPre_length a b Ha Hb) as Hl. rewrite Hy in Hl. apply enc_long in He. lia.
Qed.
End claims.


(** Every claim of a committed list can be disclosed and its proof is accepted
    against the root; and a disclosure accepted with 32-byte siblings opens a claim that
    was committed, with the same key, value and salt, when keccak256 does not collide on
    the preimages hashed. *)
Theorem claims_disclosure (keccak256 : string → string)
    (abiEncodeClaim : string → string → string → outcome string) (claims : list Claim) (root : string) :
  (∀ x, isLowerBytes32 (keccak256 x) = true) →
  (∀ k v s k' v' s' e, abiEncodeClaim k v s = Ok e → abiEncodeClaim k' v' s' = Ok e →
     k = k' ∧ v = v' ∧ toLowerCase s = toLowerCase s') →
  (∀ k v s e, abiEncodeClaim k v s = Ok e → (130 < String.length e)%nat) →
  claims ≠ [] → claimsRoot keccak256 abiEncodeClaim claims = Ok root →
  (∀ key, (∃ c, c ∈ claims ∧ c_key c = key) →
     ∃ c proof, discloseClaim keccak256 abiEncodeClaim claims key = Ok (c, proof)
       ∧ c ∈ claims ∧ c_key c = key ∧ Forall (λ p, isBytes32 p = true) proof
       ∧ verifyDisclosure keccak256 abiEncodeClaim root c proof = Ok true) ∧
  (∀ c proof, Forall (λ p, isBytes32 p = true) proof →
     Roster.NoCollision keccak256
       (commitPacks keccak256 abiEncodeClaim claims ++ openPacks keccak256 abiEncodeClaim c proof) →
     verifyDisclosure keccak256 abiEncodeClaim root c proof = Ok true →
     ∃ c', c' ∈ claims ∧ c_key c' = c_key c ∧ c_value c' = c_value c
           ∧ toLowerCase (c_salt c') = toLowerCase (c_salt c)).
Proof.
  intros Hkw Hinj Hlong Hne Hroot. pose proof (committed _ _ Hkw claims root Hne Hroot) as HC. split.
  - intros key. by apply disclose_complete.
  - intros c proof. by apply disclosure_sound.
Qed.
End Claims.

Module ClaimsExample.
Import Merkle Claims.

(** A length-prefixed encoding, for a concrete run. *)
Definition exEncode (k v s : string) : outcome string :=
  if (Z.of_nat (String.length k) <? 2 ^ 60) && (Z.of_nat (String.length v) <? 2 ^ 60)
  then Ok (Roster.hexDigits 64 (Z.of_nat (String.length k)) +:+ Roster.hexDigits 64 (Z.of_nat (String.length v))
           +:+ Roster.hexDigits 64 0 +:+ k +:+ v +:+ toLowerCase s)
  else Throw (EError "too long").

Lemma exEncode_Ok k v s e : exEncode k v s = Ok e →
  Z.of_nat (String.length k) < 2 ^ 60 ∧ Z.of_nat (String.length v) < 2 ^ 60
  ∧ e = Roster.hexDigits 64 (Z.of_nat (String.length k)) +:+ Roster.hexDigits 64 (Z.of_nat (String.length v))
        +:+ Roster.hexDigits 64 0 +:+ k +:+ v +:+ toLowerCase s.
Proof.
  unfold exEncode. destruct (_ && _) eqn:Hb; intros E; [|by apply (f_equal is_ok) in E].
  apply andb_true_iff in Hb as [?%Z.ltb_lt ?%Z.ltb_lt]. apply (f_equal (ok_or "")) in E.
  unfold ok_or in E. by subst e.
Qed.

Lemma exEncode_inj k v s k' v' s' e : exEncode k v s = Ok e → exEncode k' v' s' = Ok e →
  k = k' ∧ v = v' ∧ toLowerCase s = toLowerCase s'.
Proof.
  intros (?&?&->)%exEncode_Ok (?&?&E)%exEncode_Ok.
  assert ((2 ^ 60 <= 16 ^ Z.of_nat 64)%Z) as Hb by by vm_compute.
  apply app_str_inj in E as [Ek E]; [|by rewrite !Roster.hexDigits_length].
  apply app_str_inj in E as [Ev E]; [|by rewrite !Roster.hexDigits_length].
  apply app_str_inj in E as [_ E]; [|by rewrite !Roster.hexDigits_length].
  apply Roster.hexDigits_inj in Ek; [|lia..]. apply Roster.hexDigits_inj in Ev; [|lia..].
  apply app_str_inj in E as [-> E]; [|lia]. apply app_str_inj in E as [-> E]; [done|lia].
Qed.

Lemma exEncode_long k v s e : exEncode k v s = Ok e → (130 < String.length e)%nat.
Proof. intros (_&_&->)%exEncode_Ok. rewrite !length_app_str, !Roster.hexDigits_length. lia. Qed.

Definition exClaims : list Claim := [
  {| c_key := "fullName"; c_value := "Ada"; c_salt := "0x01" |};
  {| c_key := "dob"; c_value := "1815-12-10"; c_salt := "0x02" |};
  {| c_key := "idDocHash"; c_value := "0xfeed"; c_salt := "0x03" |} ].
Definition exRoot : string := ok_or "" (claimsRoot RosterProofs.toyHash exEncode exClaims).

Lemma exRoot_ok : claimsRoot RosterProofs.toyHash exEncode exClaims = Ok exRoot.
Proof. by vm_compute. Qed.

Lemma claims_disclosure_witness :
  ∃ c proof, discloseClaim RosterProofs.toyHash exEncode exClaims "dob" = Ok (c, proof)
    ∧ c ∈ exClaims ∧ c_key c = "dob" ∧ Forall (λ p, isBytes32 p = true) proof
    ∧ verifyDisclosure RosterProofs.toyHash exEncode exRoot c proof = Ok true.
Proof.
  apply (proj1 (claims_disclosure RosterProofs.toyHash exEncode exClaims exRoot RosterProofs.toyHash_word
    exEncode_inj exEncode_long ltac:(done) exRoot_ok) "dob").
  exists {| c_key := "dob"; c_value := "1815-12-10"; c_salt := "0x02" |}.
  split; [|done]. right. left.
Defined.

(** [verifyProof] does not ask its siblings to be 32 bytes long: where the encoding of a committed
    claim ends in the 32 bytes of another leaf, the rest of it is an accepted sibling. *)
Theorem long_sibling_accepted (keccak256 : string → string) (e f x : string) :
  (∀ y, isLowerBytes32 (keccak256 y) = true) →
  isHexData ("0x" +:+ x) = true → toLowerCase x = x →
  e = "0x" +:+ x +:+ Roster.hexBody (keccak256 f) → str_leb (keccak256 f) ("0x" +:+ x) = false →
  verifyProof keccak256 (keccak256 e) (keccak256 f) ["0x" +:+ x] = Ok true.
Proof.
  intros Hw Hx Hl -> Hlt. unfold verifyProof, foldProof, hashPair.
  assert (toLowerCase ("0x" +:+ x) = "0x" +:+ x) as Hlow.
  { change (String "0" (String "x" (toLowerCase x)) = String "0" (String "x" x)). by rewrite Hl. }
  rewrite Hlow, (hexString_lower_fix 64 _ (Hw f)), Hlt. unfold concatHex.
  rewrite Hx, (word_hexData _ (Hw f)), Hlow, (hexString_lower_fix 64 _ (Hw f)). cbn [obind andb].
  change (Roster.hexBody ("0x" +:+ x)) with x. by rewrite String.eqb_refl.
Qed.
End ClaimsExample.

(** * The newest mark per subject *)

Module SourceOrder.

Record Candidate (A : Type) := { cd_subject : string; cd_blockNumber : Z; cd_logIndex : Z; cd_data : A }.
Arguments cd_subject {A} _.
Arguments cd_blockNumber {A} _.
Arguments cd_logIndex {A} _.

Section order.
Context {A : Type}.

Definition newer (c p : Candidate A) : bool :=
  (cd_blockNumber p <? cd_blockNumber c)
  || ((cd_blockNumber c =? cd_blockNumber p) && (cd_logIndex p <? cd_logIndex c)).

Fixpoint newestFrom (all : list (Candidate A)) (latest : list (string * Candidate A))
    : list (string * Candidate A) :=
  match all with
  | [] => latest
  | c :: all =>
      newestFrom all
        (match dget (cd_subject c) latest with
         | Some p => if newer c p then dset (cd_subject c) c latest else latest
         | None => dset (cd_subject c) c latest
         end)
  end.

(** [newestPerSubject(all)]: the values of the given map, in order. *)
Definition newestPerSubject (all : list (string * Candidate A)) : list (string * Candidate A) :=
  newestFrom (dvalues all) [].

Lemma newer_irrefl c : newer c c = false.
Proof. unfold newer. by rewrite !Z.ltb_irrefl, andb_false_r. Qed.

Lemma newer_spec c p : newer c p = true ↔
  cd_blockNumber p < cd_blockNumber c ∨ (cd_blockNumber c = cd_blockNumber p ∧ cd_logIndex p < cd_logIndex c).
Proof. unfold newer. by rewrite orb_true_iff, andb_true_iff, !Z.ltb_lt, Z.eqb_eq. Qed.

Lemma newer_false c p : newer c p = false ↔
  cd_blockNumber c < cd_blockNumber p ∨ (cd_blockNumber c = cd_blockNumber p ∧ cd_logIndex c ≤ cd_logIndex p).
Proof.
  rewrite <- not_true_iff_false, newer_spec. lia.
Qed.

(** The first candidate of [l] for [s] that none of the others is newer than. *)
Definition isNewest (s : string) (l : list (Candidate A)) (c : Candidate A) : Prop :=
  ∃ l1 l2, l = l1 ++ c :: l2 ∧ cd_subject c = s
    ∧ (∀ x, x ∈ l1 → cd_subject x = s → newer c x = true)
    ∧ (∀ x, x ∈ l2 → cd_subject x = s → newer x c = false).

Lemma newest_step s l c x (o : option (Candidate A)) :
  match o with Some p => isNewest s l p | None => ∀ y, y ∈ l → cd_subject y ≠ s end →
  (c = x) → cd_subject x = s →
  isNewest s (l ++ [x]) (match o with Some p => if newer x p then x else p | None => x end).
Proof.
  intros Ho -> Hs. destruct o as [p|].
  - destruct Ho as (l1 & l2 & -> & Hp & H1 & H2). destruct (newer x p) eqn:Hn.
    + exists (l1 ++ p :: l2), []. split_and!; [done|done| |by intros ? ?%elem_of_nil].
      intros y Hy Hys. apply newer_spec. apply newer_spec in Hn.
      apply elem_of_app in Hy as [Hy|[->|Hy]%elem_of_cons].
      * specialize (H1 y Hy Hys). apply newer_spec in H1. lia.
      * lia.
      * specialize (H2 y Hy Hys). apply newer_false in H2. lia.
    + exists l1, (l2 ++ [x]). split_and!; [by rewrite <- app_assoc|done|done|].
      intros y [Hy| ->%list_elem_of_singleton]%elem_of_app; auto.
  - exists l, []. split_and!; [done|done| |by intros ? ?%elem_of_nil].
    intros y Hy Hys. by destruct (Ho y Hy).
Qed.

Lemma isNewest_other s l c x : cd_subject x ≠ s → isNewest s l c → isNewest s (l ++ [x]) c.
Proof.
  intros Hx (l1 & l2 & -> & Hc & H1 & H2). exists l1, (l2 ++ [x]).
  split_and!; [by rewrite <- app_assoc|done|done|].
  intros y [Hy| ->%list_elem_of_singleton]%elem_of_app; auto. congruence.
Qed.

Definition Newest (l : list (Candidate A)) (latest : list (string * Candidate A)) : Prop :=
  ∀ s, match dget s latest with
       | Some c => isNewest s l c
       | None => ∀ x, x ∈ l → cd_subject x ≠ s
       end.

Lemma newestFrom_correct all l latest : Newest l latest → Newest (l ++ all) (newestFrom all latest).
Proof.
  revert l latest. induction all as [|x all IH]; intros l latest HN; simpl; [by rewrite app_nil_r|].
  replace (l ++ x :: all) with ((l ++ [x]) ++ all) by by rewrite <- app_assoc. apply IH.
  intros s. pose proof (HN (cd_subject x)) as Hx. pose proof (HN s) as Hs.
  destruct (decide (cd_subject x = s)) as [Heq|Hne].
  - rewrite Heq in *. pose proof (newest_step s l x x (dget s latest) Hx eq_refl Heq) as Hst.
    destruct (dget s latest) as [p|] eqn:Hd; [destruct (newer x p) eqn:Hn|]; rewrite ?dget_dset_eq, ?Hd; done.
  - assert (dget s (match dget (cd_subject x) latest with
        | Some p => if newer x p then dset (cd_subject x) x latest else latest
        | None => dset (cd_subject x) x latest end) = dget s latest) as ->.
    { destruct (dget (cd_subject x) latest) as [p|]; [destruct (newer x p)|];
        rewrite ?dget_dset_ne by done; done. }
    destruct (dget s latest) as [c|]; [by apply isNewest_other|].
    intros y [Hy| ->%list_elem_of_singleton]%elem_of_app; auto.
Qed.
End order.

(** For every subject, the candidate kept is the first of those that no other
    candidate of the subject is newer than in (block, log index) order, and a subject
    with no candidate has no entry. *)
Theorem newestPerSubject_correct {A} (all : list (string * Candidate A)) (s : string) :
  match dget s (newestPerSubject all) with
  | Some c => isNewest s (dvalues all) c
  | None => ∀ x, x ∈ dvalues all → cd_subject x ≠ s
  end.
Proof. apply (newestFrom_correct (dvalues all) [] []). intros s'. by intros ? ?%elem_of_nil. Qed.
End SourceOrder.
