(* ===== verification/Legacy.v ===== *)
(** The retired roster format: [src/pipeline/roster-legacy-v1.ts] and the record version test of
    [src/pipeline/roster-format.ts].  Its leaves and its internal nodes have the same untagged
    preimage, which is why format 2 replaced it. *)

From Stdlib Require Import ZArith Lia Ascii String List.
From stdpp Require Import base decidable option list strings sets sorting.
From S2P Require Import Prelude JS Roster.
Local Open Scope string_scope.
Local Open Scope list_scope.
Local Open Scope Z_scope.

Module Legacy.
Import Roster.

(** * 32-bit operators *)

(** [ToInt32]: JavaScript's conversion before a bitwise operator. *)
Definition toInt32 (n : Z) : Z :=
  let m := n mod 2 ^ 32 in if m <? 2 ^ 31 then m else m - 2 ^ 32.
(** [idx ^ 1] and [idx >> 1] *)
Definition xor1 (n : Z) : Z := Z.lxor (toInt32 n) 1.
Definition shr1 (n : Z) : Z := Z.shiftr (toInt32 n) 1.

Lemma toInt32_small n : 0 ≤ n < 2 ^ 31 → toInt32 n = n.
Proof.
  intros Hn. unfold toInt32. rewrite Z.mod_small by lia. by rewrite (proj2 (Z.ltb_lt _ _)) by lia.
Qed.

Lemma shr1_small n : 0 ≤ n < 2 ^ 31 → shr1 n = n / 2.
Proof. intros Hn. unfold shr1. by rewrite toInt32_small, Z.shiftr_div_pow2. Qed.

Lemma xor1_small n : 0 ≤ n < 2 ^ 31 → xor1 n = pairOf n.
Proof.
  intros Hn. unfold xor1, pairOf. rewrite toInt32_small by done.
  assert (∀ j, Z.lxor (2 * j) 1 = 2 * j + 1) as Heven.
  { intros j. symmetry. apply Z.add_nocarry_lxor.
    rewrite <- (Z.mul_comm j 2). change 1 with (Z.ones 1) at 1. rewrite Z.land_ones by lia.
    by apply Z.mod_mul. }
  pose proof (Z.div_mod n 2 ltac:(lia)) as Hdm. pose proof (Z.mod_pos_bound n 2 ltac:(lia)).
  destruct (Z.eqb_spec (n mod 2) 0) as [E|E].
  - replace n with (2 * (n / 2)) at 1 by lia. rewrite Heven. lia.
  - replace n with (Z.lxor (2 * (n / 2)) 1) at 1 by (rewrite Heven; lia).
    rewrite Z.lxor_assoc, Z.lxor_nilpotent, Z.lxor_0_r. lia.
Qed.

(** * The tree *)

Record LegacyRosterTree := {
  lt_entries : list RosterEntry;
  lt_keys : list string;
  lt_marks : list string;
  lt_leaves : list string;
  lt_layers : list (list string);
  lt_root : string }.

Record LegacyInclusionProof := { lp_index : Z; lp_siblings : list string }.

Record LegacyNonInclusionProof := {
  ln_left : LegacyInclusionProof; ln_leftKey : string; ln_leftMark : string;
  ln_right : LegacyInclusionProof; ln_rightKey : string; ln_rightMark : string }.

(** The version stamps of a record; only whether they are there matters. *)
Record VersionStamps := {
  rosterFormatVersion : option Z; epochSchemaVersion : option Z; rosterAuthVersion : option Z }.

Definition isLegacyRosterRecord (r : VersionStamps) : bool :=
  bool_decide (rosterFormatVersion r = None) && bool_decide (epochSchemaVersion r = None)
  && bool_decide (rosterAuthVersion r = None).

Definition assertRosterRecordVersion (r : VersionStamps) : outcome unit :=
  orequire (bool_decide (rosterFormatVersion r = Some ROSTER_FORMAT_VERSION)
            && bool_decide (epochSchemaVersion r = Some 2)
            && bool_decide (rosterAuthVersion r = Some 1))
    (EError "Legacy or unknown roster record").

Definition legacyLeafIndexOf (i : Z) : Z := i + 1.

Section legacy.
Context (keccak256 : string → string).
Context (getAddress : string → outcome string).
Context (abiEncodeKey : string → string → string).
Context (abiEncodeMark : string → string → string → string → outcome string).

Definition legacySubjectKey (subject namespace : string) : outcome string :=
  let? a := getAddress subject in Ok (keccak256 (abiEncodeKey namespace a)).

Definition legacyMarkHash (e : RosterEntry) : outcome string :=
  let? a := getAddress (issuer e) in
  let? enc := abiEncodeMark (attrs e) (claimsRoot e) (evidenceHash e) a in
  Ok (keccak256 enc).

Definition leafOf (key mark : string) : outcome string :=
  let? p := packed "" key mark in Ok (keccak256 p).
Definition hashNode (l r : string) : outcome string :=
  let? p := packed "" l r in Ok (keccak256 p).

Fixpoint nextLayer (cur : list string) : outcome (list string) :=
  match cur with
  | [] => Ok []
  | [x] => let? h := hashNode x x in Ok [h]
  | x :: y :: cur => let? h := hashNode x y in let? rest := nextLayer cur in Ok (h :: rest)
  end.

Fixpoint buildLayers (fuel : nat) (cur : list string) : outcome (list (list string)) :=
  match fuel with
  | O => Throw (EError "out of fuel")
  | S fuel =>
      if (length cur <=? 1)%nat then Ok [cur]
      else let? next := nextLayer cur in let? rest := buildLayers fuel next in Ok (cur :: rest)
  end.

Fixpoint checkDuplicates (l : list (RosterEntry * string)) : outcome unit :=
  match l with
  | (_, k) :: (((e', k') :: _) as l') =>
      if String.eqb k' k then Throw (EError ("buildLegacyRoster: duplicate subject " +:+ subject e'))
      else checkDuplicates l'
  | _ => Ok tt
  end.

Fixpoint checkSentinels (l : list (RosterEntry * string)) : outcome unit :=
  match l with
  | [] => Ok tt
  | (e, k) :: l =>
      if String.eqb k MIN_KEY || String.eqb k MAX_KEY
      then Throw (EError ("buildLegacyRoster: " +:+ subject e +:+ " collides with a sentinel key"))
      else checkSentinels l
  end.

Definition withKey (namespace : string) (e : RosterEntry) : outcome (RosterEntry * string) :=
  let? k := legacySubjectKey (subject e) namespace in Ok (e, k).

Definition buildLegacyRoster (es : list RosterEntry) (namespace : string) : outcome LegacyRosterTree :=
  let? unsorted := omap_out (withKey namespace) es in
  let withKeys := sort_by keyLe unsorted in
  let? _ := checkDuplicates withKeys in
  let? _ := checkSentinels withKeys in
  let sorted := map fst withKeys in
  let keys := [MIN_KEY] ++ map snd withKeys ++ [MAX_KEY] in
  let? hashes := omap_out legacyMarkHash sorted in
  let marks := [SENTINEL_MARK] ++ hashes ++ [SENTINEL_MARK] in
  let? leaves := omap_out (λ km, leafOf km.1 km.2) (zip keys marks) in
  let? layers := buildLayers (length leaves) leaves in
  Ok {| lt_entries := sorted; lt_keys := keys; lt_marks := marks; lt_leaves := leaves;
        lt_layers := layers; lt_root := topOf layers |}.

(** The loop over the layers below the top one. *)
Fixpoint proofSiblings (layers : list (list string)) (idx : Z) : list string :=
  match layers with
  | layer :: ((_ :: _) as rest) =>
      let pair := xor1 idx in
      default "" (if pair <? Z.of_nat (length layer) then at_ layer pair else at_ layer idx)
        :: proofSiblings rest (shr1 idx)
  | _ => []
  end.

Definition legacyInclusionProof (tree : LegacyRosterTree) (i : Z) : outcome LegacyInclusionProof :=
  let? _ := orequire (negb ((i <? 0) || (Z.of_nat (length (lt_leaves tree)) <=? i)))
              (EError "legacyInclusionProof: index out of range") in
  Ok {| lp_index := i; lp_siblings := proofSiblings (lt_layers tree) i |}.

Fixpoint climb (acc : string) (idx : Z) (ss : list string) : outcome string :=
  match ss with
  | [] => Ok acc
  | s :: ss =>
      let? acc' := if Z.rem idx 2 =? 0 then hashNode acc s else hashNode s acc in
      climb acc' (shr1 idx) ss
  end.

Definition verifyLegacyInclusion (root leaf : string) (p : LegacyInclusionProof) : outcome bool :=
  let? acc := climb leaf (lp_index p) (lp_siblings p) in
  Ok (String.eqb (toLowerCase acc) (toLowerCase root)).

Definition legacyNonInclusionProof (tree : LegacyRosterTree) (target namespace : string)
    : outcome LegacyNonInclusionProof :=
  let? tk := legacySubjectKey target namespace in
  let? _ := orequire (negb (bool_decide (tk ∈ lt_keys tree)))
              (EError "legacyNonInclusionProof: the target is in the roster") in
  let hi := findIndex (λ k, str_ltb tk k) (lt_keys tree) in
  let? _ := orequire (negb (hi <=? 0)) (EError "legacyNonInclusionProof: outside the sentinel range") in
  let lo := hi - 1 in
  let? l := legacyInclusionProof tree lo in
  let? r := legacyInclusionProof tree hi in
  Ok {| ln_left := l; ln_leftKey := default "" (at_ (lt_keys tree) lo);
        ln_leftMark := default "" (at_ (lt_marks tree) lo);
        ln_right := r; ln_rightKey := default "" (at_ (lt_keys tree) hi);
        ln_rightMark := default "" (at_ (lt_marks tree) hi) |}.

Definition verifyLegacyNonInclusion (root target : string) (p : LegacyNonInclusionProof)
    (namespace : string) : outcome bool :=
  let? tk := legacySubjectKey target namespace in
  if negb (str_ltb (ln_leftKey p) tk && str_ltb tk (ln_rightKey p)) then Ok false
  else if negb (lp_index (ln_right p) =? lp_index (ln_left p) + 1) then Ok false
  else
    let? ll := leafOf (ln_leftKey p) (ln_leftMark p) in
    let? bl := verifyLegacyInclusion root ll (ln_left p) in
    if bl then
      let? rl := leafOf (ln_rightKey p) (ln_rightMark p) in verifyLegacyInclusion root rl (ln_right p)
    else Ok false.

(** * Completeness *)

Hypothesis keccak_word : ∀ x, isLowerBytes32 (keccak256 x) = true.

Definition node (a b : string) : string := keccak256 (packWords "" a b).

Lemma l_hashNode_words a b : isLowerBytes32 a = true → isLowerBytes32 b = true → hashNode a b = Ok (node a b).
Proof.
  intros Ha Hb. unfold hashNode. by rewrite (packed_ok "" a b a b) by by apply lower_word.
Qed.

Fixpoint above (cur : list string) : list string :=
  match cur with
  | [] => []
  | [x] => [node x x]
  | x :: y :: cur => node x y :: above cur
  end.

Lemma words_above cur : words (above cur).
Proof.
  induction cur as [|x|x y cur IH] using list_pair_ind; simpl; [constructor|..];
    (constructor; [apply keccak_word|]); [constructor|exact IH].
Qed.

Lemma l_nextLayer_ok cur : words cur → nextLayer cur = Ok (above cur).
Proof.
  induction cur as [|x|x y cur IH] using list_pair_ind; intros Hw; cbn [nextLayer above]; [done|..].
  - apply Forall_cons in Hw as [Hx _]. by rewrite l_hashNode_words.
  - apply Forall_cons in Hw as [Hx [Hy Hw]%Forall_cons]. rewrite l_hashNode_words by done. cbn [obind].
    by rewrite IH.
Qed.

Lemma l_above_length cur : length (above cur) = ((length cur + 1) / 2)%nat.
Proof.
  induction cur as [|x|x y cur IH] using list_pair_ind; [done..|]. cbn [above length]. rewrite IH.
  replace (S (S (length cur)) + 1)%nat with (length cur + 1 + 1 * 2)%nat by lia.
  rewrite Nat.div_add by lia. lia.
Qed.

Lemma l_above_lookup cur j a : cur !! (2 * j)%nat = Some a →
  above cur !! j = Some (node a (default a (cur !! (2 * j + 1)%nat))).
Proof.
  revert j. induction cur as [|x|x y cur IH] using list_pair_ind; intros j; cbn [above]; [done|..].
  - destruct j; simpl; [|by rewrite Nat.add_succ_r]. by intros [= <-].
  - destruct j as [|j]; [by intros [= <-]|].
    replace (2 * S j)%nat with (S (S (2 * j))) by lia.
    replace (S (S (2 * j)) + 1)%nat with (S (S (2 * j + 1))) by lia. apply IH.
Qed.

(** The layers the loop builds over a non-empty list of words. *)
Inductive LLayers : list (list string) → Prop :=
  | LL_top x : LLayers [[x]]
  | LL_cons cur rest : (2 <= length cur)%nat → LLayers (above cur :: rest) →
      LLayers (cur :: above cur :: rest).

Lemma l_buildLayers_ok fuel cur : words cur → (1 <= length cur <= fuel)%nat →
  ∃ rest, buildLayers fuel cur = Ok (cur :: rest) ∧ LLayers (cur :: rest).
Proof.
  revert cur. induction fuel as [|fuel IH]; intros cur Hw Hl; [lia|]. cbn [buildLayers].
  destruct (Nat.leb_spec (length cur) 1).
  - destruct cur as [|x [|]]; simpl in *; [lia| |lia]. exists []. split; [done|constructor].
  - rewrite l_nextLayer_ok by done. cbn [obind].
    destruct (IH (above cur)) as (rest & -> & HL); [apply words_above| |].
    + rewrite l_above_length.
      pose proof (Nat.Div0.div_lt_upper_bound (length cur + 1) 2 (S fuel) ltac:(lia)).
      pose proof (Nat.div_le_lower_bound (length cur + 1) 2 1 ltac:(lia) ltac:(lia)). lia.
    + cbn [obind]. eexists. split; [done|]. by constructor.
Qed.

Lemma rem_mod n : 0 ≤ n → Z.rem n 2 = n mod 2.
Proof. intros. by apply Z.rem_mod_nonneg. Qed.

(** The prover's path from an entry of the lowest layer leads to the top. *)
Lemma l_climb_complete ls i acc :
  LLayers ls →
  match ls with cur :: _ => words cur ∧ cur !! i = Some acc ∧ Z.of_nat (length cur) ≤ 2 ^ 31 | [] => False end →
  climb acc (Z.of_nat i) (proofSiblings ls (Z.of_nat i)) = Ok (topOf ls).
Proof.
  intros HL. revert i acc. induction HL as [x|cur rest Hlen HL IH]; intros i acc (Hw & Hi & Hsz).
  { destruct i; [|done]. by injection Hi as <-. }
  pose proof (lookup_lt_Some _ _ _ Hi) as Hlt. pose proof (words_lookup _ _ _ Hw Hi) as Hacc.
  assert (proofSiblings (cur :: above cur :: rest) (Z.of_nat i)
          = siblingOf cur i :: proofSiblings (above cur :: rest) (Z.of_nat i / 2)) as ->.
  { unfold siblingOf. rewrite <- xor1_small, <- shr1_small by lia. done. }
  cbn [climb]. rewrite rem_mod, shr1_small by lia.
  assert (Z.of_nat (length (above cur)) ≤ 2 ^ 31) as Hsz'.
  { rewrite l_above_length, Nat2Z.inj_div. etransitivity; [|exact Hsz].
    apply Z.div_le_upper_bound; lia. }
  destruct (parity i) as (j & [->| ->]).
  - rewrite (sibling_even cur j acc Hi). destruct (even_index j) as [-> ->].
    change (0 =? 0) with true. cbv iota.
    set (b := default acc (cur !! (2 * j + 1)%nat)).
    assert (isLowerBytes32 b = true) as Hb.
    { unfold b. destruct (cur !! (2 * j + 1)%nat) eqn:E; [by eapply words_lookup|done]. }
    rewrite l_hashNode_words by done. cbn [obind]. apply IH.
    split_and!; [apply words_above|by rewrite (l_above_lookup cur j acc Hi)|done].
  - destruct (sibling_odd cur j acc Hi) as (b & Hb & ->). pose proof (words_lookup _ _ _ Hw Hb) as Hbw.
    destruct (odd_index j) as [-> ->]. change (1 =? 0) with false. cbv iota.
    rewrite l_hashNode_words by done. cbn [obind]. apply IH.
    split_and!; [apply words_above|by rewrite (l_above_lookup cur j b Hb), Hi|done].
Qed.

Record LBuilt (t : LegacyRosterTree) : Prop := {
  lb_layers : ∃ rest, lt_layers t = lt_leaves t :: rest ∧ LLayers (lt_layers t);
  lb_words : words (lt_leaves t);
  lb_leaves : Forall2 (λ km l, leafOf km.1 km.2 = Ok l) (zip (lt_keys t) (lt_marks t)) (lt_leaves t);
  lb_root : lt_root t = topOf (lt_layers t) }.

Lemma l_leafOf_word k m l : leafOf k m = Ok l → isLowerBytes32 l = true.
Proof. unfold leafOf. destruct (packed "" k m); [|done]. intros [= <-]. apply keccak_word. Qed.

Lemma build_LBuilt es namespace t : buildLegacyRoster es namespace = Ok t → LBuilt t.
Proof.
  unfold buildLegacyRoster. destruct (omap_out (withKey namespace) es) as [u|]; [|done]. cbn [obind].
  set (wk := sort_by keyLe u).
  destruct (checkDuplicates wk) as [[]|]; [|done]. cbn [obind].
  destruct (checkSentinels wk) as [[]|]; [|done]. cbn [obind].
  destruct (omap_out legacyMarkHash _) as [hs|]; [|done]. cbn [obind].
  set (km := zip ([MIN_KEY] ++ map snd wk ++ [MAX_KEY]) ([SENTINEL_MARK] ++ hs ++ [SENTINEL_MARK])).
  destruct (omap_out _ km) as [leaves|] eqn:Hl; [|done]. cbn [obind].
  apply omap_out_Forall2 in Hl. intros Hrest.
  assert (words leaves) as Hw by (eapply Forall2_Forall_r; [exact Hl|]; apply Forall_forall; eauto using l_leafOf_word).
  assert (1 <= length leaves)%nat as Hlen.
  { rewrite <- (Forall2_length _ _ _ Hl). unfold km. simpl. lia. }
  destruct (l_buildLayers_ok (length leaves) leaves Hw ltac:(lia)) as (rest & Hb & HL).
  rewrite Hb in Hrest. cbn [obind] in Hrest. injection Hrest as <-.
  constructor; cbn [lt_layers lt_leaves lt_keys lt_marks lt_root]; eauto.
Qed.

Lemma top_word ls cur rest : LLayers ls → ls = cur :: rest → words cur → isLowerBytes32 (topOf ls) = true.
Proof.
  intros HL. revert cur rest. induction HL as [x|cur' rest' Hl HL IH]; intros cur rest [= <- <-] Hw.
  - by apply Forall_cons in Hw as [? _].
  - rewrite topOf_cons. eapply IH; [done|apply words_above].
Qed.

(** What the prover answers for index [i] of a layer stack is accepted. *)
Lemma verify_path ls cur rest i acc :
  LLayers ls → ls = cur :: rest → words cur → cur !! i = Some acc → Z.of_nat (length cur) ≤ 2 ^ 31 →
  verifyLegacyInclusion (topOf ls) acc
    {| lp_index := Z.of_nat i; lp_siblings := proofSiblings ls (Z.of_nat i) |} = Ok true.
Proof.
  intros HL -> Hw Hi Hsz. unfold verifyLegacyInclusion. cbn [lp_index lp_siblings].
  rewrite (l_climb_complete _ i acc HL) by done. cbn [obind]. by rewrite String.eqb_refl.
Qed.

Lemma legacy_complete es namespace t :
  buildLegacyRoster es namespace = Ok t → Z.of_nat (length (lt_leaves t)) ≤ 2 ^ 31 →
  ∀ i, if (0 <=? i) && (i <? Z.of_nat (length (lt_leaves t)))
       then ∃ k m l p, at_ (lt_keys t) i = Some k ∧ at_ (lt_marks t) i = Some m ∧ leafOf k m = Ok l
         ∧ legacyInclusionProof t i = Ok p ∧ verifyLegacyInclusion (lt_root t) l p = Ok true
       else ∃ e, legacyInclusionProof t i = Throw e.
Proof.
  intros Hb Hsz i. pose proof (build_LBuilt _ _ _ Hb) as [(rest & Hlay & HL) Hw Hlv Hr].
  unfold legacyInclusionProof. destruct (Z.leb_spec 0 i), (Z.ltb_spec i (Z.of_nat (length (lt_leaves t)))); simpl.
  2-4: try (rewrite (proj2 (Z.ltb_lt i 0)) by lia); try (rewrite (proj2 (Z.leb_le _ i)) by lia);
    rewrite ?orb_true_r; simpl; eauto.
  rewrite (proj2 (Z.ltb_ge i 0)), (proj2 (Z.leb_gt _ i)) by lia. simpl.
  destruct (lookup_lt_is_Some_2 (lt_leaves t) (Z.to_nat i)) as [l Hl]; [lia|].
  destruct (Forall2_lookup_r _ _ _ _ _ Hlv Hl) as ([k m] & Hkm & Hleaf).
  apply lookup_zip_Some in Hkm as [Hk Hm]. exists k, m, l.
  rewrite <- (Z2Nat.id i) by lia. rewrite !at_lookup. eexists. split_and!; [done..|].
  rewrite Hr. eapply verify_path; [exact HL|exact Hlay|done..].
Qed.

(** * Leaves and internal nodes are not told apart *)

Lemma LLayers_above cur rest : LLayers (cur :: rest) → (2 <= length cur)%nat →
  ∃ rest', rest = above cur :: rest' ∧ LLayers rest.
Proof. inversion 1; simplify_eq/=; [lia|eauto]. Qed.

Lemma forged es namespace t target tk j a b c d :
  buildLegacyRoster es namespace = Ok t → Z.of_nat (length (lt_leaves t)) ≤ 2 ^ 31 →
  lt_leaves t !! (2 * j)%nat = Some a → lt_leaves t !! (2 * j + 1)%nat = Some b →
  lt_leaves t !! (2 * j + 2)%nat = Some c → lt_leaves t !! (2 * j + 3)%nat = Some d →
  legacySubjectKey target namespace = Ok tk → str_ltb a tk = true → str_ltb tk c = true →
  ∃ p, verifyLegacyNonInclusion (lt_root t) target p namespace = Ok true.
Proof.
  intros Hb Hsz Ha Hb' Hc Hd Htk Hlo Hhi.
  pose proof (build_LBuilt _ _ _ Hb) as [(rest & Hlay & HL) Hw _ Hr].
  rewrite Hlay in HL. apply lookup_lt_Some in Hd as Hlen.
  assert (∃ rest', rest = above (lt_leaves t) :: rest' ∧ LLayers rest) as (rest' & -> & HL').
  { apply LLayers_above in HL; [done|lia]. }
  exists {| ln_left := {| lp_index := Z.of_nat j; lp_siblings := proofSiblings (above (lt_leaves t) :: rest') (Z.of_nat j) |};
     ln_leftKey := a; ln_leftMark := b;
     ln_right := {| lp_index := Z.of_nat (S j); lp_siblings := proofSiblings (above (lt_leaves t) :: rest') (Z.of_nat (S j)) |};
     ln_rightKey := c; ln_rightMark := d |}.
  unfold verifyLegacyNonInclusion. rewrite Htk. cbn [obind ln_left ln_right ln_leftKey ln_rightKey ln_leftMark ln_rightMark lp_index].
  rewrite Hlo, Hhi. cbn [andb negb].
  rewrite (proj2 (Z.eqb_eq (Z.of_nat (S j)) (Z.of_nat j + 1))) by lia. cbn [negb].
  assert (Z.of_nat (length (above (lt_leaves t))) ≤ 2 ^ 31) as Hsz'.
  { rewrite l_above_length, Nat2Z.inj_div. etransitivity; [|exact Hsz]. apply Z.div_le_upper_bound; lia. }
  replace (2 * j + 2)%nat with (2 * S j)%nat in Hc by lia.
  replace (2 * j + 3)%nat with (2 * S j + 1)%nat in Hd by lia.
  change (leafOf a b) with (hashNode a b). change (leafOf c d) with (hashNode c d).
  rewrite (l_hashNode_words a b), (l_hashNode_words c d) by (eapply words_lookup; done). cbn [obind].
  assert (topOf (lt_layers t) = topOf (above (lt_leaves t) :: rest')) as Htop by by rewrite Hlay.
  rewrite Hr, Htop.
  rewrite (verify_path _ _ _ j (node a b) HL' eq_refl); [|apply words_above|by rewrite (l_above_lookup _ _ a Ha), Hb'|done].
  apply (verify_path _ _ _ (S j) (node c d) HL' eq_refl); [apply words_above|by rewrite (l_above_lookup _ _ c Hc), Hd|done].
Qed.
End legacy.
End Legacy.

Module LegacyProofs.
Import Roster Legacy.

(** In the retired format every index of a built tree has an accepted inclusion
    proof of the leaf of its key and mark (for at most 2^31 leaves, the range of the
    32-bit index operators), and every other index is refused. *)
Theorem legacy_inclusion_complete (keccak256 : string → string) (getAddress : string → outcome string)
    (abiEncodeKey : string → string → string)
    (abiEncodeMark : string → string → string → string → outcome string)
    (es : list RosterEntry) (namespace : string) (t : LegacyRosterTree) :
  (∀ x, isLowerBytes32 (keccak256 x) = true) →
  buildLegacyRoster keccak256 getAddress abiEncodeKey abiEncodeMark es namespace = Ok t →
  Z.of_nat (length (lt_leaves t)) ≤ 2 ^ 31 →
  ∀ i, if (0 <=? i) && (i <? Z.of_nat (length (lt_leaves t)))
       then ∃ k m l p, at_ (lt_keys t) i = Some k ∧ at_ (lt_marks t) i = Some m
         ∧ leafOf keccak256 k m = Ok l ∧ legacyInclusionProof t i = Ok p
         ∧ verifyLegacyInclusion keccak256 (lt_root t) l p = Ok true
       else ∃ e, legacyInclusionProof t i = Throw e.
Proof. intros Hk. by apply legacy_complete. Qed.

(** The retired format does not tell leaves from internal nodes: in any built
    tree, a target whose key lies between two leaf hashes at even positions has an
    accepted non-membership proof, also when it is in the roster. *)
Theorem legacy_nonmembership_forgeable (keccak256 : string → string)
    (getAddress : string → outcome string) (abiEncodeKey : string → string → string)
    (abiEncodeMark : string → string → string → string → outcome string)
    (es : list RosterEntry) (namespace : string) (t : LegacyRosterTree) (target tk : string)
    (j : nat) (a b c d : string) :
  (∀ x, isLowerBytes32 (keccak256 x) = true) →
  buildLegacyRoster keccak256 getAddress abiEncodeKey abiEncodeMark es namespace = Ok t →
  Z.of_nat (length (lt_leaves t)) ≤ 2 ^ 31 →
  lt_leaves t !! (2 * j)%nat = Some a → lt_leaves t !! (2 * j + 1)%nat = Some b →
  lt_leaves t !! (2 * j + 2)%nat = Some c → lt_leaves t !! (2 * j + 3)%nat = Some d →
  legacySubjectKey keccak256 getAddress abiEncodeKey target namespace = Ok tk →
  str_ltb a tk = true → str_ltb tk c = true →
  ∃ p, verifyLegacyNonInclusion keccak256 getAddress abiEncodeKey (lt_root t) target p namespace = Ok true.
Proof. intros Hk. by apply forged. Qed.

Definition emptyLegacy : LegacyRosterTree :=
  {| lt_entries := []; lt_keys := []; lt_marks := []; lt_leaves := []; lt_layers := []; lt_root := "" |}.
Definition exSubjects : list RosterEntry :=
  map RosterProofs.exEntry ["0xgina-lollobrigida"; "0xheidi-klum-000000"].
Definition exLegacy : LegacyRosterTree :=
  ok_or emptyLegacy (buildLegacyRoster RosterProofs.toyHash Ok RosterProofs.exKey RosterProofs.exMark
                       exSubjects EVM_NAMESPACE).
Lemma exLegacyBuild : buildLegacyRoster RosterProofs.toyHash Ok RosterProofs.exKey RosterProofs.exMark
  exSubjects EVM_NAMESPACE = Ok exLegacy.
Proof. by vm_compute. Qed.

Lemma exLegacyLength : length (lt_leaves exLegacy) = 4%nat.
Proof. by vm_compute. Qed.
Lemma exLegacySize : Z.of_nat (length (lt_leaves exLegacy)) ≤ 2 ^ 31.
Proof. by rewrite exLegacyLength. Qed.

Lemma legacy_inclusion_complete_witness :
  ∃ k m l p, at_ (lt_keys exLegacy) 1 = Some k ∧ at_ (lt_marks exLegacy) 1 = Some m
    ∧ leafOf RosterProofs.toyHash k m = Ok l ∧ legacyInclusionProof exLegacy 1 = Ok p
    ∧ verifyLegacyInclusion RosterProofs.toyHash (lt_root exLegacy) l p = Ok true.
Proof.
  pose proof (legacy_inclusion_complete RosterProofs.toyHash Ok RosterProofs.exKey RosterProofs.exMark
    exSubjects EVM_NAMESPACE exLegacy RosterProofs.toyHash_word exLegacyBuild exLegacySize 1) as H.
  rewrite exLegacyLength in H. exact H.
Defined.

(** The target of this accepted non-membership proof is the first entry of the roster. *)
Lemma legacy_nonmembership_forgeable_witness :
  "0xgina-lollobrigida" ∈ map subject exSubjects ∧
  ∃ p, verifyLegacyNonInclusion RosterProofs.toyHash Ok RosterProofs.exKey (lt_root exLegacy)
         "0xgina-lollobrigida" p EVM_NAMESPACE = Ok true.
Proof.
  split; [by left|].
  apply (legacy_nonmembership_forgeable RosterProofs.toyHash Ok RosterProofs.exKey RosterProofs.exMark
    exSubjects EVM_NAMESPACE exLegacy "0xgina-lollobrigida"
    (ok_or "" (legacySubjectKey RosterProofs.toyHash Ok RosterProofs.exKey "0xgina-lollobrigida" EVM_NAMESPACE))
    0 (default "" (lt_leaves exLegacy !! 0%nat)) (default "" (lt_leaves exLegacy !! 1%nat))
    (default "" (lt_leaves exLegacy !! 2%nat)) (default "" (lt_leaves exLegacy !! 3%nat))
    RosterProofs.toyHash_word exLegacyBuild exLegacySize); vm_compute; first [reflexivity | discriminate].
Defined.
End LegacyProofs.
