(* ===== verification/Retry.v ===== *)
(** Waiting on the outside world: the retry loop of [src/worker/retry.ts] and the
    attested-height wait of [src/worker/attestation.ts] (Module Retry), the bounded response reader
    of [src/worker/proof-http.ts] (Module ProofHttp), and the proof client of
    [src/worker/proof.ts] (Module ProofClient). *)

From Stdlib Require Import ZArith Lia Ascii String.
From stdpp Require Import base decidable option list strings.
From S2P Require Import Prelude JS Roster.
Local Open Scope string_scope.
Local Open Scope list_scope.
Local Open Scope Z_scope.

Module Retry.

(** [try { m } catch (e) { ... }] as a value. *)
Definition attempt {W A} (m : M W A) : M W (outcome A) := λ w, let '(o, w') := m w in (Ok o, w').

Lemma keeps_attempt {W A} I (m : M W A) : keeps I m → keeps I (attempt m).
Proof. intros Hm w Hw. unfold attempt. specialize (Hm w Hw). by destruct (m w). Qed.

Section retry.
Context {W : Type}.
(** [signal.aborted], the timer, and [Math.floor(raw * (0.5 + Math.random() * 0.5))]. *)
Context (aborted : W → bool) (delay : Z → M W unit) (jitter : Z → M W Z).

Definition throwIfStopped : M W unit :=
  let! stopped := gets aborted in if stopped then throw EWorkerStopped else ret tt.

Definition sleep (ms : Z) : M W unit :=
  throwIfStopped ;;; tryCatch (delay ms) (λ e, throwIfStopped ;;; throw e).

Record Backoff := { baseMs : Z; maxMs : Z; factor : Z }.
Definition defaultBackoff : Backoff := {| baseMs := 1000; maxMs := 60000; factor := 2 |}.

Definition delayFor (b : Backoff) (n : Z) : M W Z := jitter (Z.min (maxMs b) (baseMs b * factor b ^ n)).

(** The loop from attempt [i] on, with [more] attempts to go; [last] is the error so far. *)
Fixpoint retryFrom {A} (fn : M W A) (b : Backoff) (more : nat) (i : Z) (last : exn) : M W A :=
  match more with
  | O => throw last
  | S more =>
      throwIfStopped ;;;
      let! o := attempt (let! r := fn in throwIfStopped ;;; ret r) in
      match o with
      | Ok r => ret r
      | Throw e =>
          throwIfStopped ;;;
          match more with
          | O => throw e
          | _ => let! d := delayFor b i in sleep d ;;; retryFrom fn b more (i + 1) e
          end
      end
  end.

Definition withRetry {A} (fn : M W A) (attempts : nat) (b : Backoff) : M W A :=
  retryFrom fn b attempts 0 (EError "undefined").

(** * The attested height *)

(** [poll]: the [attestedHeight] property of the body when it is a number; it throws what
    the request throws. *)
Context (poll : M W (option Z)).

Definition readHeight : M W Z :=
  let! h := poll in
  match h with
  | Some h => if safeNat h then ret h else throw (EError "ATTESTED_HEIGHT_INVALID")
  | None => throw (EError "ATTESTED_HEIGHT_INVALID")
  end.

Definition latestAttestedHeight : M W Z :=
  withRetry readHeight 5 {| baseMs := 500; maxMs := 10000; factor := 2 |}.

(** One round of the loop of [waitFor]: whether it returned. *)
Definition waitRound (pollMs height : Z) : M W bool :=
  throwIfStopped ;;;
  let! o := attempt latestAttestedHeight in
  match o with
  | Throw _ => throwIfStopped ;;; sleep pollMs ;;; ret false
  | Ok latest => if height <=? latest then ret true else sleep pollMs ;;; ret false
  end.

(** The [for (;;)], for at most [fuel] rounds. *)
Fixpoint waitFor (fuel : nat) (pollMs height : Z) : M W unit :=
  match fuel with
  | O => throw (EError "out of fuel")
  | S fuel =>
      let! arrived := waitRound pollMs height in
      if arrived then ret tt else waitFor fuel pollMs height
  end.
End retry.

(** * What the loops do, against a given series of answers

    The world of these theorems is the list of answers still to come and the number of timers
    that ran; nothing aborts. *)

Record Answers (A : Type) := { coming : list (outcome A); slept : nat }.
Arguments coming {A} _.
Arguments slept {A} _.

Section answers.
Context {A : Type}.
Local Abbreviation W := (Answers A).

Definition never (w : W) : bool := false.
Definition tick (ms : Z) : M W unit := λ w, (Ok tt, {| coming := coming w; slept := S (slept w) |}).
Definition noJitter (d : Z) : M W Z := ret d.
(** The next answer; an exhausted series fails. *)
Definition next : M W A := λ w,
  match coming w with
  | [] => (Throw (EError "network"), w)
  | o :: l => (o, {| coming := l; slept := slept w |})
  end.

Context {B : Type} (f : outcome A → outcome B) (fn : M W B).
(** [fn] uses up one answer and returns a function of it. *)
Definition Consumes : Prop := ∀ o l n,
  fn {| coming := o :: l; slept := n |} = (f o, {| coming := l; slept := n |}).
Context (Hfn : Consumes).

Definition failures (l : list (outcome A)) : Prop := Forall (λ o, is_ok (f o) = false) l.

Lemma attempt_fn o l n :
  attempt (let! r := fn in throwIfStopped never ;;; ret r) {| coming := o :: l; slept := n |}
  = (Ok (f o), {| coming := l; slept := n |}).
Proof. unfold attempt, bind. rewrite Hfn. by destruct (f o). Qed.

(** [retryFrom] takes answers until the first success or the last attempt. *)
Lemma retryFrom_answers b more i last bad o l n :
  failures bad → (length bad < more)%nat → is_ok (f o) = true ∨ S (length bad) = more →
  retryFrom never tick noJitter fn b more i last {| coming := bad ++ o :: l; slept := n |}
  = (f o, {| coming := l; slept := n + length bad |}).
Proof.
  revert i last bad n. induction more as [|more IH]; intros i last bad n Hb Hl Ho; [lia|].
  cbn [retryFrom]. unfold throwIfStopped at 1, never at 1. unfold bind at 1 2, gets. cbv iota beta.
  destruct bad as [|e bad].
  - rewrite app_nil_l. unfold ret at 1. unfold bind at 1. rewrite attempt_fn.
    rewrite Nat.add_0_r. destruct (f o) as [a|e] eqn:Hfo; [done|].
    destruct Ho as [Ho|Ho]; [done|]. simpl in Ho. by assert (more = 0)%nat as -> by lia.
  - apply Forall_cons in Hb as [He Hb]. unfold ret at 1. unfold bind at 1.
    rewrite <- app_comm_cons, attempt_fn. destruct (f e) as [a|e']; [done|].
    simpl in Hl, Ho. destruct more as [|more]; [lia|].
    etransitivity; [|etransitivity; [apply (IH (i + 1) e' bad (S n) Hb)|]]; [done|lia| |].
    + destruct Ho; [by left|right; lia].
    + f_equal. f_equal. simpl. lia.
Qed.

(** Where the loop stops in a series that holds a success. *)
Lemma retry_split more l : (0 < more)%nat → ¬ failures l → ∃ bad o l',
  l = bad ++ o :: l' ∧ failures bad ∧ (length bad < more)%nat
  ∧ (is_ok (f o) = true ∨ S (length bad) = more).
Proof.
  revert more. induction l as [|o l IH]; intros more Hm Hl; [by destruct Hl; constructor|].
  destruct (is_ok (f o)) eqn:Ho.
  { exists [], o, l. split_and!; [done|constructor|simpl; lia|by left]. }
  destruct (decide (more = 1)%nat) as [->|].
  { exists [], o, l. split_and!; [done|constructor|simpl; lia|by right]. }
  destruct (IH (more - 1)%nat) as (bad & o' & l' & -> & Hb & Hlen & Hend); [lia| |].
  { intros Hf. apply Hl. by constructor. }
  exists (o :: bad), o', l'. split_and!; [done|by constructor|simpl; lia|].
  destruct Hend; [by left|right; simpl; lia].
Qed.
End answers.

Lemma next_consumes {A} : Consumes (λ o : outcome A, o) next.
Proof. by intros [a|e] l n. Qed.

(** A retried call is made until its first success and at most the given number
    of times, returns that success or the last failure, and waits once between two
    calls; with the signal aborted it is not made at all. *)
Theorem withRetry_bounded {W A} (aborted : W → bool) (delay : Z → M W unit) (jitter : Z → M W Z)
    (fn : M W A) (attempts : nat) (b : Backoff) (w : W)
    (bad : list (outcome A)) (o : outcome A) (l : list (outcome A)) (n : nat) :
  (aborted w = true → (0 < attempts)%nat →
     withRetry aborted delay jitter fn attempts b w = (Throw EWorkerStopped, w)) ∧
  (failures (λ o, o) bad → (length bad < attempts)%nat → is_ok o = true ∨ S (length bad) = attempts →
     withRetry never tick noJitter next attempts b {| coming := bad ++ o :: l; slept := n |}
     = (o, {| coming := l; slept := n + length bad |})).
Proof.
  split.
  - intros Ha. destruct attempts as [|k]; [lia|]. intros _. unfold withRetry. cbn [retryFrom].
    unfold throwIfStopped at 1, bind at 1 2, gets. by rewrite Ha.
  - intros Hb Hl Ho. by apply (retryFrom_answers (λ o, o) next next_consumes).
Qed.

(** ** The attestation wait *)

(** The height an answer reports, when it is one the wait accepts. *)
Definition reported (o : outcome (option Z)) : outcome Z :=
  match o with
  | Ok (Some h) => if safeNat h then Ok h else Throw (EError "ATTESTED_HEIGHT_INVALID")
  | Ok None => Throw (EError "ATTESTED_HEIGHT_INVALID")
  | Throw e => Throw e
  end.
Definition arrives (height : Z) (o : outcome (option Z)) : bool :=
  match reported o with Ok h => height <=? h | Throw _ => false end.

Lemma readHeight_consumes : Consumes reported (readHeight next).
Proof.
  intros [[h|]|e] l n; unfold readHeight, bind, next; cbn [coming slept reported]; [|done..].
  by destruct (safeNat h).
Qed.

Lemma waitRound_answers pollMs height l n : ¬ failures reported l →
  ∃ taken o l' n', l = taken ++ o :: l' ∧ Forall (λ x, arrives height x = false) taken ∧
    waitRound never tick noJitter next pollMs height {| coming := l; slept := n |}
    = (Ok (arrives height o), {| coming := l'; slept := n' |}).
Proof.
  intros Hl. destruct (retry_split reported 5 l ltac:(lia) Hl) as (bad & o & l' & -> & Hb & Hlen & Hend).
  assert (∃ n', waitRound never tick noJitter next pollMs height {| coming := bad ++ o :: l'; slept := n |}
    = (Ok (arrives height o), {| coming := l'; slept := n' |})) as [n' Hrun].
  { unfold waitRound. unfold throwIfStopped at 1, never at 1. unfold bind at 1 2, gets. cbv iota beta.
    unfold ret at 1. unfold bind at 1, attempt, latestAttestedHeight, withRetry.
    rewrite (retryFrom_answers reported _ readHeight_consumes) by done. unfold arrives.
    destruct (reported o) as [h|e]; [destruct (height <=? h)|]; by eexists. }
  exists bad, o, l', n'. split_and!; [done| |done].
  eapply Forall_impl; [exact Hb|]. intros x Hx. cbv beta in Hx |- *. unfold arrives. by destruct (reported x).
Qed.

(** Two ways to split a series, by its first arrival and by what a round takes. *)
Lemma first_split {A} (p : A → bool) early o l taken x l' :
  early ++ o :: l = taken ++ x :: l' → Forall (λ y, p y = false) early →
  Forall (λ y, p y = false) taken → p o = true →
  (x = o ∧ l' = l) ∨ (∃ rest, early = taken ++ x :: rest ∧ l' = rest ++ o :: l ∧ p x = false).
Proof.
  revert taken. induction early as [|e early IH]; intros [|t taken]; simpl; intros E He Ht Ho.
  - injection E as -> ->. by left.
  - injection E as -> _. apply Forall_cons in Ht as [Ht _]. congruence.
  - injection E as -> <-. apply Forall_cons in He as [He _]. right. by exists early.
  - injection E as -> E. apply Forall_cons in He as [_ He]. apply Forall_cons in Ht as [_ Ht].
    destruct (IH _ E He Ht Ho) as [?|(rest & -> & -> & ?)]; [by left|]. right. by exists rest.
Qed.

(** The attestation wait absorbs every failed, malformed or too low poll and
    returns at the first poll that reports a height at or above the target, having made
    no further poll. *)
Theorem waitFor_arrives (pollMs height : Z) (fuel : nat) (early : list (outcome (option Z)))
    (o : outcome (option Z)) (l : list (outcome (option Z))) (n : nat) :
  Forall (λ x, arrives height x = false) early → arrives height o = true →
  (length early < fuel)%nat →
  ∃ n', waitFor never tick noJitter next fuel pollMs height {| coming := early ++ o :: l; slept := n |}
        = (Ok tt, {| coming := l; slept := n' |}).
Proof.
  intros He Ho. revert n early He. induction fuel as [|fuel IH]; intros n early He Hf; [lia|].
  destruct (waitRound_answers pollMs height (early ++ o :: l) n) as (taken & x & l' & n' & El & Ht & Hrun).
  { intros [_ [Hof _]%Forall_cons]%Forall_app. unfold arrives in Ho. by destruct (reported o). }
  cbn [waitFor]. unfold bind. rewrite Hrun. destruct (first_split (arrives height) _ _ _ _ _ _ El He Ht Ho) as [(-> & ->)|(rest & -> & -> & Hx)].
  - rewrite Ho. by exists n'.
  - rewrite Hx. apply IH; [|rewrite length_app in Hf; simpl in Hf; lia].
    apply Forall_app in He as [_ He]. by apply Forall_cons in He as [_ He].
Qed.
Definition exAnswers : list (outcome (option Z)) :=
  [Throw (EError "timeout"); Ok (Some 90); Ok None; Throw (EError "502"); Ok (Some (-1))].

Lemma withRetry_bounded_witness :
  withRetry never tick noJitter next 3 defaultBackoff
    {| coming := [Throw (EError "a"); Throw (EError "b")] ++ Ok 5 :: [Ok 6]; slept := 0 |}
  = (Ok 5, {| coming := [Ok 6]; slept := 2 |}).
Proof.
  apply (proj2 (withRetry_bounded never tick noJitter next 3 defaultBackoff {| coming := []; slept := 0 |}
    [Throw (EError "a"); Throw (EError "b")] (Ok 5) [Ok 6] 0)); [by repeat constructor|simpl; lia|by left].
Defined.

(** Two rounds: the first ends on the height 90, the second on the height 120 after three errors. *)
Lemma waitFor_arrives_witness :
  ∃ n', waitFor never tick noJitter next 6 15000 100
          {| coming := exAnswers ++ Ok (Some 120) :: [Ok None]; slept := 0 |}
        = (Ok tt, {| coming := [Ok None]; slept := n' |}).
Proof.
  apply (waitFor_arrives 15000 100 6 exAnswers (Ok (Some 120)) [Ok None] 0);
    [by repeat constructor|done|simpl; lia].
Defined.
End Retry.

(** * Reading a proof service response *)

Module ProofHttp.
Import Retry.

Definition ProofHttpError (code : string) : exn := EClass "ProofHttpError" code.
Definition isProofHttpError (e : exn) : bool :=
  match e with EClass c _ => String.eqb c "ProofHttpError" | _ => false end.

Record Response := { res_ok : bool; contentLength : option string; hasBody : bool }.

Section http.
Context {W A : Type}.
(** [fetch], one [reader.read()] ([None] at the end), whether the timer fired, the strict UTF-8
    decoding with [JSON.parse], and [Number] on a string of digits. *)
Context (aborted : W → bool) (fetch : M W Response) (read : M W (option string)) (timedOut : W → bool).
Context (parseJson : string → option A) (toNumber : string → Z).

Definition MAX_CHUNKS : Z := 65536.

(** The loop from [size] bytes and [chunks] chunks on. *)
Fixpoint readBody (fuel : nat) (maxBytes : Z) (buffer : string) (chunks : Z) : M W string :=
  match fuel with
  | O => throw (EError "out of fuel")
  | S fuel =>
      let! value := read in
      throwIfStopped aborted ;;;
      match value with
      | None => ret buffer
      | Some v =>
          require (negb ((MAX_CHUNKS <? chunks + 1)
                         || (maxBytes - Z.of_nat (String.length buffer) <? Z.of_nat (String.length v))))
            (ProofHttpError "PROOF_HTTP_LIMIT") ;;;
          readBody fuel maxBytes (buffer +:+ v) (chunks + 1)
      end
  end.

Definition lengthRefused (maxBytes : Z) (declared : option string) : bool :=
  match declared with
  | None => false
  | Some d => negb (negb (String.eqb d "") && allChars isDigit d && isSafeInteger (toNumber d))
              || (maxBytes <? toNumber d)
  end.

Definition readResponse (maxBytes : Z) : M W A :=
  let! res := fetch in
  require (res_ok res) (ProofHttpError "PROOF_HTTP_STATUS") ;;;
  require (negb (lengthRefused maxBytes (contentLength res))) (ProofHttpError "PROOF_HTTP_LIMIT") ;;;
  require (hasBody res) (ProofHttpError "PROOF_HTTP_INVALID") ;;;
  let! body := readBody (Z.to_nat MAX_CHUNKS + 2) maxBytes "" 0 in
  match parseJson body with
  | Some v => ret v
  | None => throw (ProofHttpError "PROOF_HTTP_INVALID")
  end.

Definition proofJson (timeoutMs maxBytes : Z) : M W A :=
  require (isSafeInteger timeoutMs && (1 <=? timeoutMs) && (timeoutMs <=? 15000)
           && isSafeInteger maxBytes && (1 <=? maxBytes) && (maxBytes <=? 8 * 1024 * 1024))
    (ProofHttpError "PROOF_HTTP_INVALID") ;;;
  throwIfStopped aborted ;;;
  tryCatch (readResponse maxBytes) (λ error,
    throwIfStopped aborted ;;;
    let! t := gets timedOut in
    if t then throw (ProofHttpError "PROOF_HTTP_TIMEOUT")
    else if isProofHttpError error then throw error
    else throw (ProofHttpError "PROOF_HTTP_NETWORK")).

(** [body] is the chunks that were read, in order. *)
Definition Received (maxBytes : Z) (body : string) (n : Z) : Prop :=
  Z.of_nat (String.length body) ≤ maxBytes ∧ 0 ≤ n ≤ MAX_CHUNKS ∧
  ∃ chunks, body = foldr (λ a b, a +:+ b) "" chunks ∧ Z.of_nat (length chunks) = n
            ∧ Forall (λ c, ∃ w w', read w = (Ok (Some c), w')) chunks.

Lemma app_str_assoc (a b c : string) : (a +:+ b) +:+ c = a +:+ (b +:+ c).
Proof.
  induction a as [|x a IH]; [done|].
  change (String x ((a +:+ b) +:+ c) = String x (a +:+ (b +:+ c))). by rewrite IH.
Qed.

Lemma foldr_snoc (chunks : list string) v :
  foldr (λ a b, a +:+ b) "" (chunks ++ [v]) = foldr (λ a b, a +:+ b) "" chunks +:+ v.
Proof.
  induction chunks as [|c chunks IH]; simpl.
  - clear. induction v as [|x v IH]; [done|]. change (String x (v +:+ "") = String x v). by f_equal.
  - by rewrite IH, app_str_assoc.
Qed.

Lemma Received_snoc maxBytes body n v w w' : Received maxBytes body n → read w = (Ok (Some v), w') →
  (MAX_CHUNKS <? n + 1) || (maxBytes - Z.of_nat (String.length body) <? Z.of_nat (String.length v)) = false →
  Received maxBytes (body +:+ v) (n + 1).
Proof.
  intros (Hl & Hn & chunks & -> & Hc & Hall) Hr [?%Z.ltb_ge ?%Z.ltb_ge]%orb_false_iff. split_and!.
  - rewrite length_app_str. lia.
  - lia.
  - lia.
  - exists (chunks ++ [v]). rewrite foldr_snoc, length_app. split_and!; [done|simpl; lia|].
    apply Forall_app. split; [done|]. repeat constructor. by exists w, w'.
Qed.

(** Reading ends within the chunk bound: the fuel is never used up. *)
Definition bodyPost (maxBytes : Z) (o : outcome string) (_ : W) : Prop :=
  match o with
  | Ok body => ∃ n, Received maxBytes body n
  | Throw e => e ≠ EError "out of fuel" ∨ ∃ w w', read w = (Throw e, w')
  end.

Lemma readBody_wp fuel maxBytes body n w :
  Received maxBytes body n → MAX_CHUNKS < n + Z.of_nat fuel - 1 →
  wp (readBody fuel maxBytes body n) (bodyPost maxBytes) w.
Proof.
  revert body n w. induction fuel as [|fuel IH]; intros body n w HR Hf.
  { destruct HR as (_ & ? & _). lia. }
  cbn [readBody]. apply wp_bind. unfold wp at 1. destruct (read w) as [[v|e] w'] eqn:Hr; simpl.
  2:{ right. by exists w, w'. }
  apply wp_bind. unfold throwIfStopped. apply wp_bind, wp_gets.
  destruct (aborted w'); [by apply wp_throw; left|]. apply wp_ret.
  destruct v as [v|]; [|apply wp_ret; by exists n].
  apply wp_bind, wp_require; [|by intros _; left]. intros Hb. apply IH; [|lia].
  eapply Received_snoc; [done|done|]. by apply negb_true_iff.
Qed.
Lemma whole_body maxBytes w : 1 ≤ maxBytes →
  wp (readBody (Z.to_nat MAX_CHUNKS + 2) maxBytes "" 0) (bodyPost maxBytes) w.
Proof.
  intros Hm. apply readBody_wp.
  - split; [simpl; lia|]. split; [unfold MAX_CHUNKS; lia|]. by exists [].
  - rewrite Nat2Z.inj_add, Z2Nat.id; unfold MAX_CHUNKS; lia.
Qed.
End http.

(** Whatever the peer sends, reading a proof response ends; a value returned is
    parsed from the concatenation of the chunks received, at most 65536 of them and at
    most maxBytes (never more than 8 MiB) in total; every failure is a ProofHttpError or
    the stop of the worker. *)
Theorem proofJson_bounded {W A} (aborted : W → bool) (fetch : M W Response) (read : M W (option string))
    (timedOut : W → bool) (parseJson : string → option A) (toNumber : string → Z)
    (timeoutMs maxBytes : Z) (w : W) :
  match (proofJson aborted fetch read timedOut parseJson toNumber timeoutMs maxBytes w).1 with
  | Ok v => 1 ≤ maxBytes ≤ 8388608 ∧ ∃ body n, parseJson body = Some v ∧ Received read maxBytes body n
  | Throw e => e = EWorkerStopped ∨ isProofHttpError e = true
  end.
Proof.
  set (Q := λ (o : outcome A) (_ : W), match o with
    | Ok v => 1 ≤ maxBytes ≤ 8388608 ∧ ∃ body n, parseJson body = Some v ∧ Received read maxBytes body n
    | Throw e => e = EWorkerStopped ∨ isProofHttpError e = true end).
  change (wp (proofJson aborted fetch read timedOut parseJson toNumber timeoutMs maxBytes) Q w).
  unfold proofJson, throwIfStopped. apply wp_bind, wp_require; [|by intros _; right]. intros Hset.
  assert (1 ≤ maxBytes ≤ 8388608) as Hmax by (rewrite !andb_true_iff, !Z.leb_le in Hset; lia).
  clear Hset. wp_go; try (by left). eapply (wp_mono _ (λ o _, match o with Ok v => Q (Ok v) w | _ => True end)).
  - unfold readResponse. apply wp_bind. unfold wp at 1. destruct (fetch w) as [[res|e] w']; cbn [fst snd]; [|done].
    apply wp_bind, wp_require; [intros _|done]. apply wp_bind, wp_require; [intros _|done].
    apply wp_bind, wp_require; [intros _|done]. apply wp_bind.
    eapply wp_mono; [apply whole_body; lia|].
    + intros [body|e] w''; [|done]. intros (n & HR).
      destruct (parseJson body) as [v|] eqn:Hp; [|by apply wp_throw]. apply wp_ret.
      split; [done|]. by exists body, n.
  - intros [v|e] w' HQ; [done|]. wp_go; (by left) || (by right).
Qed.
End ProofHttp.

(** * Proofs and query identities *)

Module ProofClient.
Import Retry.

Record Sibling := { sib_hash : string; isLeft : bool }.
Record ProofData := {
  pd_chainKey : Z; pd_headerNumber : Z; pd_txBytes : string;
  pd_root : string; pd_siblings : list Sibling;
  pd_lowerEndpointDigest : string; pd_roots : option (list string) }.

Definition fetchProof {W} (aborted : W → bool) (delay : Z → M W unit) (jitter : Z → M W Z)
    (request : M W ProofData) : M W ProofData :=
  withRetry aborted delay jitter request 5 {| baseMs := 2000; maxMs := 30000; factor := 2 |}.

(** [ethers.zeroPadValue(ethers.toBeHex(BigInt(n)), width)] without its prefix: both throw
    on a value that has no such representation. *)
Definition padded (n : Z) (width : nat) : outcome string :=
  if (0 <=? n) && (n <? 256 ^ Z.of_nat width) then Ok (Roster.hexDigits (2 * width) n)
  else Throw (EError "INVALID_ARGUMENT").

Definition queryPre (chainKey blockHeight txIndex : Z) : outcome string :=
  let? a := padded chainKey 32 in
  let? b := padded blockHeight 8 in
  let? c := padded txIndex 32 in
  Ok ("0x" +:+ a +:+ b +:+ c).

Section query.
Context (keccak256 : string → string).

Definition computeQueryId (chainKey blockHeight txIndex : Z) : outcome string :=
  let? p := queryPre chainKey blockHeight txIndex in Ok (keccak256 p).
End query.

(** The loop from the last sibling down to the first. *)
Definition txIndexFromProof (siblings : list Sibling) : Z :=
  fold_right (λ s idx, Z.lor (Z.shiftl idx 1) (if isLeft s then 1 else 0)) 0 siblings.

Lemma padded_inv n width s : padded n width = Ok s →
  0 ≤ n < 16 ^ Z.of_nat (2 * width) ∧ s = Roster.hexDigits (2 * width) n.
Proof.
  unfold padded. destruct (_ && _) eqn:Hn; [|done]. intros E.
  apply (f_equal (ok_or "")) in E. unfold ok_or in E. subst s.
  apply andb_true_iff in Hn as [?%Z.leb_le ?%Z.ltb_lt].
  replace (16 ^ Z.of_nat (2 * width)) with (256 ^ Z.of_nat width); [done|].
  rewrite Nat2Z.inj_mul, Z.pow_mul_r by lia. done.
Qed.

Lemma queryPre_inv k b i p : queryPre k b i = Ok p →
  ∃ x y z, padded k 32 = Ok x ∧ padded b 8 = Ok y ∧ padded i 32 = Ok z ∧ p = "0x" +:+ x +:+ y +:+ z.
Proof.
  unfold queryPre. destruct (padded k 32) as [x|]; [|done]. destruct (padded b 8) as [y|]; [|done].
  destruct (padded i 32) as [z|]; [|done]. cbn [obind]. intros E.
  exists x, y, z. split_and!; [done..|]. by injection E.
Qed.

Lemma padded_inj n m w s : padded n w = Ok s → padded m w = Ok s → n = m.
Proof.
  intros (Hn&->)%padded_inv (Hm&E)%padded_inv. by apply (Roster.hexDigits_inj (2 * w)).
Qed.

Lemma padded_length n w s : padded n w = Ok s → String.length s = (2 * w)%nat.
Proof. intros (_&->)%padded_inv. apply Roster.hexDigits_length. Qed.

Lemma queryPre_inj k b i k' b' i' p :
  queryPre k b i = Ok p → queryPre k' b' i' = Ok p → k = k' ∧ b = b' ∧ i = i'.
Proof.
  intros (x&y&z&Hx&Hy&Hz&->)%queryPre_inv (x'&y'&z'&Hx'&Hy'&Hz'&E)%queryPre_inv.
  apply app_str_inj in E as [_ E]; [|done].
  apply app_str_inj in E as [-> E]; [|by rewrite (padded_length _ _ _ Hx), (padded_length _ _ _ Hx')].
  apply app_str_inj in E as [-> ->]; [|by rewrite (padded_length _ _ _ Hy), (padded_length _ _ _ Hy')].
  split_and!; by eapply padded_inj.
Qed.

Lemma txIndex_cons s l : txIndexFromProof (s :: l) = 2 * txIndexFromProof l + Z.b2z (isLeft s).
Proof.
  change (Z.lor (Z.shiftl (txIndexFromProof l) 1) (if isLeft s then 1 else 0)
    = 2 * txIndexFromProof l + Z.b2z (isLeft s)).
  generalize (txIndexFromProof l). intros idx.
  assert (Z.land (Z.shiftl idx 1) 1 = 0) as Hl.
  { change 1 with (Z.ones 1) at 2. rewrite Z.land_ones, Z.shiftl_mul_pow2 by lia. by apply Z.mod_mul. }
  assert (Z.shiftl idx 1 = 2 * idx) as E by (rewrite Z.shiftl_mul_pow2 by lia; change (2 ^ 1) with 2; lia).
  destruct (isLeft s); [|rewrite Z.lor_0_r, E; simpl; lia].
  pose proof (Z.add_lor_land (Z.shiftl idx 1) 1) as Ha. rewrite Hl in Ha. rewrite E in *. simpl. lia.
Qed.

Lemma txIndex_bits l n :
  0 ≤ txIndexFromProof l < 2 ^ Z.of_nat (length l)
  ∧ Z.testbit (txIndexFromProof l) (Z.of_nat n) = match l !! n with Some s => isLeft s | None => false end.
Proof.
  revert n. induction l as [|s l IH]; intros n.
  { split; [simpl; lia|]. by rewrite Z.testbit_0_l. }
  rewrite txIndex_cons. destruct (IH 0%nat) as [Hb _]. split.
  - cbn [length]. rewrite Nat2Z.inj_succ, Z.pow_succ_r by lia. destruct (isLeft s); simpl; lia.
  - destruct n as [|n].
    + change (Z.of_nat 0) with 0. cbn [lookup list_lookup].
      rewrite Z.add_comm. rewrite Z.bit0_odd, Z.odd_add_mul_2; by destruct (isLeft s).
    + rewrite Nat2Z.inj_succ. cbn [lookup list_lookup].
      rewrite Z.testbit_succ_r by lia. apply (proj2 (IH n)).
Qed.

Lemma pow_256_32 : 256 ^ Z.of_nat 32 = 2 ^ 256.
Proof. reflexivity. Qed.
Lemma pow_256_8 : 256 ^ Z.of_nat 8 = 2 ^ 64.
Proof. reflexivity. Qed.

Lemma padded_ok n w : 0 ≤ n < 256 ^ Z.of_nat w → padded n w = Ok (Roster.hexDigits (2 * w) n).
Proof. intros Hn. unfold padded. by rewrite (proj2 (Z.leb_le _ _)), (proj2 (Z.ltb_lt _ _)) by lia. Qed.

(** The transaction index recovered from a proof is the number whose n-th bit
    is the side of the n-th sibling; for coordinates in range the query preimage exists,
    is the 72 bytes the contract hashes, and a query identity names one chain key, block
    height and transaction index unless keccak256 collides on the two preimages; a
    height outside uint64 is refused. *)
Theorem query_identity (keccak256 : string → string) (chainKey blockHeight : Z) (siblings : list Sibling) :
  let i := txIndexFromProof siblings in
  (∀ n, Z.testbit i (Z.of_nat n) = match siblings !! n with Some s => isLeft s | None => false end) ∧
  (0 ≤ chainKey < 2 ^ 256 → 0 ≤ blockHeight < 2 ^ 64 → (length siblings <= 256)%nat →
     ∃ p, queryPre chainKey blockHeight i = Ok p ∧ String.length p = 146%nat
       ∧ computeQueryId keccak256 chainKey blockHeight i = Ok (keccak256 p)
       ∧ ∀ k' b' i' p', queryPre k' b' i' = Ok p' → (keccak256 p = keccak256 p' → p = p') →
           computeQueryId keccak256 k' b' i' = Ok (keccak256 p) → k' = chainKey ∧ b' = blockHeight ∧ i' = i) ∧
  (∀ b' j, blockHeight < 0 ∨ 2 ^ 64 ≤ blockHeight → ∃ e, computeQueryId keccak256 b' blockHeight j = Throw e).
Proof.
  cbv zeta. split_and!.
  - intros n. apply txIndex_bits.
  - intros Hk Hb Hs. destruct (txIndex_bits siblings 0) as [Hi _].
    assert (txIndexFromProof siblings < 2 ^ 256).
    { eapply Z.lt_le_trans; [apply Hi|]. apply Z.pow_le_mono_r; lia. }
    assert (queryPre chainKey blockHeight (txIndexFromProof siblings)
      = Ok ("0x" +:+ Roster.hexDigits (2 * 32) chainKey +:+ Roster.hexDigits (2 * 8) blockHeight
            +:+ Roster.hexDigits (2 * 32) (txIndexFromProof siblings))) as Hq.
    { unfold queryPre. rewrite (padded_ok chainKey 32), (padded_ok blockHeight 8),
        (padded_ok (txIndexFromProof siblings) 32); [done| | |]; rewrite ?pow_256_32, ?pow_256_8; lia. }
    set (p := _ +:+ _) in Hq. exists p. split_and!; [done| |by unfold computeQueryId; rewrite Hq|].
    + unfold p. by rewrite !length_app_str, !Roster.hexDigits_length.
    + clearbody p. intros k' b' i' p' Hp' Hinj. unfold computeQueryId. rewrite Hp'. cbn [obind]. intros E.
      assert (keccak256 p = keccak256 p') as E' by by injection E. apply Hinj in E'. subst p'.
      apply (queryPre_inj _ _ _ _ _ _ _ Hp' Hq).
  - intros b' j Hb. unfold computeQueryId, queryPre.
    assert (padded blockHeight 8 = Throw (EError "INVALID_ARGUMENT")) as ->.
    { unfold padded. destruct (_ && _) eqn:E; [|done].
      apply andb_true_iff in E as [?%Z.leb_le ?%Z.ltb_lt]. rewrite pow_256_8 in *. lia. }
    destruct (padded b' 32) as [|e]; [|by exists e]. by eexists.
Qed.
Definition exSiblings : list Sibling :=
  [{| sib_hash := "0xa"; isLeft := true |}; {| sib_hash := "0xb"; isLeft := false |};
   {| sib_hash := "0xc"; isLeft := true |}].

Lemma query_identity_witness :
  txIndexFromProof exSiblings = 5 ∧
  ∃ p, queryPre 1 7000000 (txIndexFromProof exSiblings) = Ok p ∧ String.length p = 146%nat
    ∧ computeQueryId RosterProofs.toyHash 1 7000000 (txIndexFromProof exSiblings) = Ok (RosterProofs.toyHash p)
    ∧ ∀ k' b' i' p', queryPre k' b' i' = Ok p' → (RosterProofs.toyHash p = RosterProofs.toyHash p' → p = p') →
        computeQueryId RosterProofs.toyHash k' b' i' = Ok (RosterProofs.toyHash p) →
        k' = 1 ∧ b' = 7000000 ∧ i' = txIndexFromProof exSiblings.
Proof.
  split; [reflexivity|].
  apply (proj1 (proj2 (query_identity RosterProofs.toyHash 1 7000000 exSiblings))); [lia|lia|simpl; lia].
Defined.
End ProofClient.
