(* ===== verification/Worker.v ===== *)
(** The relay worker: its bounded pool ([src/worker/pool.ts], Module BoundedPool) and its
    loop, scheduling, canonicality guard and per-job processing ([src/worker/worker.ts],
    Module Worker), composed from the store, the scanner, the sender, recovery and the proof
    client. *)

From Stdlib Require Import ZArith Lia String.
From stdpp Require Import base decidable option list strings relations.
From S2P Require Import Prelude JS Store SourceScan Relay Recovery Roster Retry.
Local Open Scope string_scope.
Local Open Scope list_scope.
Local Open Scope Z_scope.

Module BoundedPool.

(** The reservations of the running tasks, in insertion order. *)
Record Pool := { capacity : Z; accepting : bool; tasks : list string }.

Definition new (capacity : Z) : outcome Pool :=
  let? _ := orequire (isSafeInteger capacity && negb (capacity <? 1))
              (EError "pool capacity must be a positive safe integer") in
  Ok {| capacity := capacity; accepting := true; tasks := [] |}.

Definition size (p : Pool) : Z := Z.of_nat (length (tasks p)).
Definition has (p : Pool) (id : string) : bool := bool_decide (id ∈ tasks p).
Definition available (p : Pool) : Z := if accepting p then capacity p - size p else 0.

(** The reservation made by [tryRun]; the task itself runs later. *)
Definition tryRun (id : string) (p : Pool) : bool * Pool :=
  if negb (accepting p) || has p id || (capacity p <=? size p) then (false, p)
  else (true, {| capacity := capacity p; accepting := accepting p; tasks := tasks p ++ [id] |}).

(** The [finally] of a task: [tasks.delete(id)]. *)
Definition settle (id : string) (p : Pool) : Pool :=
  {| capacity := capacity p; accepting := accepting p; tasks := filter (λ t, t ≠ id) (tasks p) |}.

Definition stop (p : Pool) : Pool :=
  {| capacity := capacity p; accepting := false; tasks := tasks p |}.

(** What happens to a pool, in any order. *)
Inductive PoolStep : Pool → Pool → Prop :=
  | PS_try id p : PoolStep p (tryRun id p).2
  | PS_settle id p : PoolStep p (settle id p)
  | PS_stop p : PoolStep p (stop p).

Record PoolInv (p : Pool) : Prop := {
  pi_capacity : 1 ≤ capacity p;
  pi_size : size p ≤ capacity p;
  pi_NoDup : NoDup (tasks p) }.

Lemma new_inv c p : new c = Ok p → PoolInv p ∧ capacity p = c ∧ tasks p = [].
Proof.
  unfold new. destruct (_ && _) eqn:Hc; [|done]. intros [= <-].
  apply andb_true_iff in Hc as [_ Hc%negb_true_iff%Z.ltb_ge].
  split_and!; [split|..]; unfold size; simpl; (lia || done || constructor).
Qed.

Lemma tryRun_inv id p : PoolInv p → PoolInv (tryRun id p).2.
Proof.
  intros [Hc Hs Hn]. unfold tryRun. destruct (_ || _) eqn:E; [done|].
  apply orb_false_iff in E as [[_ Hid]%orb_false_iff Hle%Z.leb_gt]. unfold has in Hid.
  apply bool_decide_eq_false in Hid. split; simpl; [done| |].
  - unfold size in *. simpl. rewrite length_app. simpl. lia.
  - apply NoDup_app. split_and!; [done| |apply NoDup_singleton].
    intros x Hx ->%list_elem_of_singleton. done.
Qed.

Lemma settle_inv id p : PoolInv p → PoolInv (settle id p).
Proof.
  intros [Hc Hs Hn]. split; simpl; [done| |by apply NoDup_filter].
  unfold size in *. simpl. pose proof (length_filter (λ t, t ≠ id) (tasks p)). lia.
Qed.

Lemma step_inv p p' : PoolStep p p' → PoolInv p → PoolInv p'.
Proof. intros [id|id|] ?; [by apply tryRun_inv|by apply settle_inv|]. by destruct H; split. Qed.
Lemma step_stopped p p' : PoolStep p p' → accepting p = false → accepting p' = false ∧ tasks p' ⊆ tasks p.
Proof.
  intros [id q|id q|q] Ha; simpl; [|split; [done|by intros y [_ Hy]%list_elem_of_filter]|done].
  unfold tryRun. by rewrite Ha.
Qed.

(** Whatever sequence of reservations, completions and stops, the pool holds at
    most its capacity of distinct tasks, and once stopped it never accepts another. *)
Theorem pool_bounded (c : Z) (p0 p p' : Pool) :
  new c = Ok p0 → rtc PoolStep p0 p → rtc PoolStep p p' →
  size p ≤ c ∧ NoDup (tasks p) ∧ 0 ≤ available p ≤ c ∧
  (accepting p = false → accepting p' = false ∧ tasks p' ⊆ tasks p).
Proof.
  intros Hn Hr Hr'. destruct (new_inv c p0 Hn) as (Hi & Hc & _).
  assert (PoolInv p ∧ capacity p = c) as [[H1 H2 H3] Hcap].
  { clear Hr' Hn p'. revert Hi Hc. induction Hr as [|x y z Hxy _ IH]; [done|]. intros Hi Hc.
    apply IH; [by eapply step_inv|]. destruct Hxy as [id q|id q|q]; simpl; [|done|done].
    unfold tryRun. by destruct (_ || _). }
  unfold available. split_and!; [lia|done|destruct (accepting p); unfold size in *; lia..|].
  clear -Hr'. induction Hr' as [|x y z Hxy _ IH]; [done|]. intros Ha.
  destruct (step_stopped _ _ Hxy Ha) as [Ha' Hs]. destruct (IH Ha') as [? Hs']. split; [done|]. by etrans.
Qed.

Lemma pool_bounded_witness :
  size (tryRun "b" (tryRun "a" {| capacity := 1; accepting := true; tasks := [] |}).2).2 ≤ 1.
Proof.
  apply (pool_bounded 1 {| capacity := 1; accepting := true; tasks := [] |} _ _ eq_refl
    (rtc_l _ _ _ _ (PS_try "a" _) (rtc_l _ _ _ _ (PS_try "b" _) (rtc_refl _ _))) (rtc_refl _ _)).
Defined.
End BoundedPool.

Module Worker.
Import Store Relay.

(** The immutable settings of [cfg] the worker reads. *)
Record Config := {
  cfg_chainKey : Z; cfg_sourceAddress : string; cfg_ascAddress : string; cfg_startBlock : Z;
  cfg_confirmations : Z; cfg_hubConfirmations : Z; cfg_scanChunk : Z; cfg_pollMs : Z;
  cfg_maxAttempts : Z }.

(** The worker's own fields; [abort] is the [aborted] flag of the relay's world. *)
Record Env (E : Type) := mkEnv {
  stopping : bool; pool : BoundedPool.Pool; fatalError : option exn; outside : E }.
Arguments mkEnv {E} _ _ _ _.
Arguments stopping {E} _.
Arguments pool {E} _.
Arguments fatalError {E} _.
Arguments outside {E} _.

Record ExecuteArgs := {
  ea_action : Z; ea_chainKey : Z; ea_headerNumber : Z; ea_txBytes : string; ea_root : string;
  ea_siblings : list ProofClient.Sibling; ea_lowerEndpointDigest : string; ea_roots : option (list string) }.

(** Everything the worker calls that is not its own state: the source RPC with the log parser,
    the relay transport, the hub's recovery reader, the timers, the attested-height poll, the
    proof request, the gas estimate, the ABI encoder, the hash and the text of an error; the
    calls have arbitrary effects on the world. *)
Record Outside (W : Type) := {
  o_src : SourceScan.SourceReader W;
  o_parseLog : list string → string → option string;
  o_transport : RelayTransport W;
  o_hubReader : Recovery.HubRecoveryReader W;
  o_localeLe : string → string → bool;
  o_delay : Z → M W unit;
  o_jitter : Z → M W Z;
  o_poll : M W (option Z);
  o_requestProof : string → M W ProofClient.ProofData;
  o_estimate : ExecuteArgs → M W Z;
  o_encodeExecute : ExecuteArgs → outcome string;
  o_keccak256 : string → string;
  o_messageOf : exn → string }.
Arguments o_src {W} _.
Arguments o_parseLog {W} _ _ _.
Arguments o_transport {W} _.
Arguments o_hubReader {W} _.
Arguments o_localeLe {W} _ _ _.
Arguments o_delay {W} _ _.
Arguments o_jitter {W} _ _.
Arguments o_poll {W} _.
Arguments o_requestProof {W} _ _.
Arguments o_estimate {W} _ _.
Arguments o_encodeExecute {W} _ _.
Arguments o_keccak256 {W} _ _.
Arguments o_messageOf {W} _ _.

Section worker.
Context {E : Type}.
Local Abbreviation W := (World (Env E)).
(** [fuel]: rounds of the attestation wait. *)
Context (cfg : Config) (x : Outside W) (fuel : nat).

Definition modifyEnv (f : Env E → Env E) : M W unit :=
  modify (λ w, mkWorld (wst w) (active w) (aborted w) (events w) (f (env w))).

Definition isStopping : M W bool := gets (λ w, stopping (env w)).

Definition stop : M W unit :=
  modify (λ w, mkWorld (wst w) (active w) true (events w)
    (mkEnv true (BoundedPool.stop (pool (env w))) (fatalError (env w)) (outside (env w)))).

Definition reportFatal (e : exn) : M W unit :=
  modifyEnv (λ v, mkEnv (stopping v) (pool v) (Some e) (outside v)) ;;; stop.

Definition dateNow : M W Z := SourceScan.dateNow (o_src x).

(** * The canonicality guard *)

Definition assertCanonicalJob (job : Job) : M W unit :=
  zoom assertSourceReady ;;;
  require (truthy (blockHash job)
           && match transactionIndex job with Some i => isSafeInteger i | None => false end)
    (ESourceSafety "SOURCE_JOB_MISSING_HASH_COORDINATES") ;;;
  let! block := SourceScan.getBlock (o_src x) (SourceScan.AtHeight (blockNumber job)) in
  let! finalized := SourceScan.getBlock (o_src x) SourceScan.Finalized in
  match block, finalized with
  | Some b, Some f =>
      require (truthy (SourceScan.bhash b) && (SourceScan.number b =? blockNumber job)
               && truthy (SourceScan.bhash f) && negb (SourceScan.number f <? blockNumber job))
        (ESourceSafety "SOURCE_JOB_CANONICALITY_UNCONFIRMED") ;;;
      when (negb (bool_decide (SourceScan.bhash b = blockHash job)))
        (when (truthy (ascTxHash job)) (zoom (holdSource "SOURCE_REORG_TOUCHES_RELAYED_JOB")) ;;;
         throw (ESourceSafety "SOURCE_JOB_NOT_CANONICAL_FINALIZED")) ;;;
      throwIfStopped
  | _, _ => throw (ESourceSafety "SOURCE_JOB_CANONICALITY_UNCONFIRMED")
  end.

(** The two callbacks the constructor gives the sender. *)
Definition guardSource (id : string) : M W unit :=
  throwIfStopped ;;;
  let! job := zoom (get id) in
  match job with
  | None => throw (ESourceSafety "SOURCE_JOB_NOT_RUNNABLE")
  | Some job => assertCanonicalJob job
  end.
Definition guardHub : M W unit :=
  Recovery.reconcileHubRecovery (o_hubReader x) (o_localeLe x) (cfg_hubConfirmations cfg).

Definition senderStep (id : string) (p : option Preparation) : M W unit :=
  step (o_transport x) guardSource guardHub dateNow id p.

(** * Processing *)

Definition estimateGas (args : ExecuteArgs) (continuityBlocks : Z) : M W Z :=
  tryCatch (let! est := o_estimate x args in ret (Z.quot (est * 135) 100))
    (λ _, ret (21000 + continuityBlocks * 5000 + 400000)).

Definition executeArgs (job : Job) (proof : ProofClient.ProofData) : ExecuteArgs := {|
  ea_action := action job; ea_chainKey := ProofClient.pd_chainKey proof;
  ea_headerNumber := ProofClient.pd_headerNumber proof; ea_txBytes := ProofClient.pd_txBytes proof;
  ea_root := ProofClient.pd_root proof; ea_siblings := ProofClient.pd_siblings proof;
  ea_lowerEndpointDigest := ProofClient.pd_lowerEndpointDigest proof; ea_roots := ProofClient.pd_roots proof |}.

(** [this.store.relay?.sourceTxHash === txHash] *)
Definition ownsEnvelope (d : Data) (h : string) : bool :=
  match relay d with Some r => String.eqb (re_sourceTxHash r) h | None => false end.

(** Line 229 to 235: wait until the job's block is attested. *)
Definition awaitAttestation (job : Job) : M W unit :=
  when (bool_decide (state job = discovered))
    (Retry.waitFor aborted (o_delay x) (o_jitter x) (o_poll x) fuel 15000 (blockNumber job) ;;;
     assertCanonicalJob job ;;;
     let! now := dateNow in
     zoom (update (txHash job) [SetState attested] now)).

(** Line 237 to 260: prove, estimate and submit. *)
Definition submitProof (job : Job) : M W unit :=
  let! proof := ProofClient.fetchProof aborted (o_delay x) (o_jitter x) (o_requestProof x (txHash job)) in
  require ((ProofClient.pd_chainKey proof =? cfg_chainKey cfg)
           && (ProofClient.pd_headerNumber proof =? blockNumber job))
    (EError "SOURCE_PROOF_COORDINATE_CHANGED") ;;;
  let txIndex := ProofClient.txIndexFromProof (ProofClient.pd_siblings proof) in
  require (bool_decide (Some txIndex = transactionIndex job)) (ESourceSafety "SOURCE_PROOF_TX_INDEX_CHANGED") ;;;
  let! queryId := lift_out (ProofClient.computeQueryId (o_keccak256 x) (ProofClient.pd_chainKey proof)
                              (ProofClient.pd_headerNumber proof) txIndex) in
  let args := executeArgs job proof in
  let! gasLimit := estimateGas args
    (match ProofClient.pd_roots proof with Some l => Z.of_nat (length l) | None => 1 end) in
  let! stopped := isStopping in
  if stopped then ret tt
  else
    let! calldata := lift_out (o_encodeExecute x args) in
    senderStep (txHash job) (Some {| pr_queryId := queryId; pr_data := calldata; pr_gasLimit := gasLimit |}).

Definition process (job : Job) : M W unit :=
  let! w := getS in
  let d := data (wst w) in
  if ownsEnvelope d (txHash job) then senderStep (txHash job) None
  else
    require (bool_decide (relay d = None)) ERelayBusy ;;;
    require (negb (bool_decide (state job = submitted) || truthy (ascTxHash job)))
      (EError "LEGACY_SUBMISSION_REQUIRES_RECONCILIATION") ;;;
    assertCanonicalJob job ;;;
    awaitAttestation job ;;;
    submitProof job.

Definition isStopError (e : exn) : bool :=
  match e with EStoreWrite | ESourceSafety _ => true | _ => false end.

(** The [catch] of [processReserved]. *)
Definition onFailure (h : string) (e : exn) : M W unit :=
  let! stopped := isStopping in
  if isStopError e then stop ;;; throw e
  else if stopped then ret tt
  else if bool_decide (e = ERelayBusy) then ret tt
  else
    let! w := getS in
    let d := data (wst w) in
    if ownsEnvelope d h then
      let! now := dateNow in
      zoom (update h [SetState submitted; SetLastError (Some "RELAY_RECONCILIATION_PENDING")] now)
    else
      let n := match dget h (jobs d) with Some j => attempts j | None => 0 end + 1 in
      let! now := dateNow in
      if cfg_maxAttempts cfg <=? n
      then zoom (update h [SetState dead; SetAttempts n; SetLastError (Some (o_messageOf x e))] now)
      else zoom (update h [SetAttempts n; SetLastError (Some (o_messageOf x e))] now).

Definition processReserved (job : Job) : M W unit := tryCatch (process job) (onFailure (txHash job)).

(** * Scheduling *)

(** The work of a reserved task. *)
Definition taskBody (id : string) : M W unit :=
  let! current := zoom (get id) in
  let! stopped := isStopping in
  match current with
  | None => ret tt
  | Some job => if terminalState (state job) || stopped then ret tt else processReserved job
  end.

(** A task as the event loop runs it: its error is reported, its reservation released. *)
Definition runTask (id : string) : M W unit :=
  let! o := Retry.attempt (taskBody id) in
  match o with Ok _ => ret tt | Throw e => reportFatal e end ;;;
  modifyEnv (λ v, mkEnv (stopping v) (BoundedPool.settle id (pool v)) (fatalError v) (outside v)).

Definition dispatch (job : Job) : M W unit :=
  let! stopped := isStopping in
  if stopped then ret tt
  else modifyEnv (λ v, mkEnv (stopping v) (BoundedPool.tryRun (txHash job) (pool v)).2 (fatalError v) (outside v)).

Definition schedulePending : M W unit :=
  let! w := getS in
  let p := pool (env w) in
  forM (jobsReadyForDispatch (data (wst w)) (BoundedPool.has p) (Z.to_nat (BoundedPool.available p))) dispatch.

(** * Preflight *)

(** The contract views the preflight reads, in its order; a failed read is a [Throw]. *)
Record Deployment := {
  dp_processing : outcome Z; dp_epochSource : outcome Z; dp_epochAsc : outcome Z;
  dp_authSource : outcome Z; dp_authAsc : outcome Z; dp_keySource : outcome Z; dp_keyAsc : outcome Z;
  dp_denialSource : outcome Z; dp_denialAsc : outcome Z; dp_sourceChainId : Z; dp_hubChainId : Z;
  dp_expectedChainKey : Z; dp_sourceContract : string }.

(** The loop of [requireEpochV2] and of [requireRosterAuthorization]. *)
Fixpoint requireVersions (expected : Z) (unavailable unsupported : string) (reads : list (outcome Z))
    : outcome unit :=
  match reads with
  | [] => Ok tt
  | Throw _ :: _ => Throw (EError unavailable)
  | Ok v :: reads =>
      let? _ := orequire (v =? expected) (EError unsupported) in
      requireVersions expected unavailable unsupported reads
  end.
Definition requireEpochV2 (reads : list (outcome Z)) : outcome unit :=
  let? _ := orequire (negb (length reads =? 0)%nat) (EError "epoch compatibility requires a target") in
  requireVersions 2 "epoch schema v2 unavailable; migrate source/ASC/Registry together"
    "unsupported epoch schema; migrate source/ASC/Registry together" reads.
Definition requireRosterAuthorization (reads : list (outcome Z)) : outcome unit :=
  let? _ := orequire (negb (length reads =? 0)%nat) (EError "roster authorization target required") in
  requireVersions 1 "roster issuer authorization unavailable; migrate all contracts"
    "unsupported roster issuer authorization" reads.

Definition scopeOf (signer : string) : WorkerScope := {|
  sourceChainId := 11155111; hubChainId := 102031; chainKey := cfg_chainKey cfg;
  source := toLowerCase (cfg_sourceAddress cfg); asc := toLowerCase (cfg_ascAddress cfg);
  Store.signer := toLowerCase signer; startBlock := cfg_startBlock cfg |}.

Definition preflight (dp : Deployment) (signer : string) : M W unit :=
  lift_out (SourceEvents.requireAtomicReceipts (dp_processing dp)) ;;;
  lift_out (requireEpochV2 [dp_epochSource dp; dp_epochAsc dp]) ;;;
  lift_out (requireRosterAuthorization [dp_authSource dp; dp_authAsc dp]) ;;;
  lift_out (SourceEvents.requireIssuerKeyProvenance (dp_keySource dp) (dp_keyAsc dp)) ;;;
  lift_out (SourceEvents.requireDenialCorrection (dp_denialSource dp) (dp_denialAsc dp)) ;;;
  require ((dp_sourceChainId dp =? 11155111) && (dp_hubChainId dp =? 102031) && (cfg_chainKey cfg =? 1))
    (EError "unsupported worker source/hub chain binding") ;;;
  require (dp_expectedChainKey dp =? cfg_chainKey cfg) (EError "ASC expectedChainKey does not match worker config") ;;;
  require (eqLower (dp_sourceContract dp) (cfg_sourceAddress cfg))
    (EError "ASC sourceContract does not match worker config") ;;;
  zoom (bindScope (scopeOf signer)).

(** * The loop *)

Definition beforeRewind : M W unit :=
  let! w := getS in
  when (negb (BoundedPool.size (pool (env w)) =? 0))
    (stop ;;; throw (ESourceSafety "SOURCE_REORG_DRAIN_AND_RESTART_REQUIRED")).

Definition scanOptions : SourceScan.ScanOptions := {|
  SourceScan.so_address := cfg_sourceAddress cfg; SourceScan.so_startBlock := cfg_startBlock cfg;
  SourceScan.so_confirmations := cfg_confirmations cfg; SourceScan.so_chunk := cfg_scanChunk cfg |}.

(** The scan loop, for at most [rounds] rounds. *)
Fixpoint scan (rounds : nat) : M W unit :=
  match rounds with
  | O => throw (EError "out of fuel")
  | S rounds =>
      let! stopped := isStopping in
      if stopped then ret tt
      else
        let! result := SourceScan.scanSourceStep (o_src x) (o_parseLog x) beforeRewind scanOptions in
        schedulePending ;;;
        if SourceScan.scanned result then scan rounds else ret tt
  end.

Definition isFatalScanError (e : exn) : bool :=
  match e with EStoreWrite | ESourceSafety _ | EHubSafety _ => true | _ => false end.

(** One round of the loop of [runLoop]. *)
Definition cycle (rounds : nat) : M W unit :=
  tryCatch (guardHub ;;; scan rounds)
    (λ e, if isFatalScanError e then stop ;;; throw e else ret tt) ;;;
  schedulePending ;;;
  tryCatch (Retry.sleep aborted (o_delay x) (cfg_pollMs cfg))
    (λ e, let! stopped := isStopping in if stopped then ret tt else throw e).

Fixpoint cycles (n rounds : nat) : M W unit :=
  match n with
  | O => throw (EError "out of fuel")
  | S n =>
      let! stopped := isStopping in
      if stopped then ret tt else cycle rounds ;;; cycles n rounds
  end.

(** [runLoop] after the preflight; [drained] is the [await this.pool.drain()]. *)
Definition runLoop (drained : M W unit) (n rounds : nat) : M W unit :=
  guardHub ;;; scan rounds ;;; cycles n rounds ;;;
  modifyEnv (λ v, mkEnv (stopping v) (BoundedPool.stop (pool v)) (fatalError v) (outside v)) ;;;
  drained ;;;
  let! w := getS in
  match fatalError (env w) with Some e => throw e | None => ret tt end.
End worker.
End Worker.

(** * The envelope a job gets *)

Module WorkerProofs.
Import Store Relay Worker.

Section binding.
Context {E : Type}.
Local Abbreviation W := (World (Env E)).
Context (cfg : Config) (x : Outside W) (fuel : nat) (tx : string).

(** Whatever runs while the worker awaits goes through the store's operations and reserves no
    envelope for [tx]: the pool runs at most one task per transaction. *)
Definition quiet {A} (m : M W A) : Prop := ∀ w,
  (reachable (wst w) → reachable (wst (m w).2)) ∧
  (∀ r, relay (data (wst (m w).2)) = Some r → relay (data (wst w)) = Some r ∨ re_sourceTxHash r ≠ tx).

Record QuietOutside : Prop := {
  q_now : quiet (SourceScan.dateNow (o_src x));
  q_block : ∀ t, quiet (SourceScan.getBlock (o_src x) t);
  q_observe : ∀ q e, quiet (observeProcessed (o_transport x) q e);
  q_processed : ∀ q b, quiet (processed (o_transport x) q b);
  q_prepare : ∀ h q d g, quiet (prepare (o_transport x) h q d g);
  q_receipt : ∀ r, quiet (receipt (o_transport x) r);
  q_broadcast : ∀ r, quiet (broadcast (o_transport x) r);
  q_count : ∀ a t, quiet (Recovery.transactionCount (o_hubReader x) a t);
  q_number : quiet (Recovery.hubBlockNumber (o_hubReader x));
  q_hubBlock : ∀ n, quiet (Recovery.hubBlock (o_hubReader x) n);
  q_hubReceipt : ∀ h, quiet (Recovery.hubReceipt (o_hubReader x) h);
  q_hubProcessed : ∀ q b, quiet (Recovery.hubProcessed (o_hubReader x) q b);
  q_delay : ∀ ms, quiet (o_delay x ms);
  q_jitter : ∀ d, quiet (o_jitter x d);
  q_poll : quiet (o_poll x);
  q_request : ∀ h, quiet (o_requestProof x h);
  q_estimate : ∀ a, quiet (o_estimate x a) }.
Context (Hq : QuietOutside).

(** A reachable store whose envelope, if it is for [tx], satisfies [P]. *)
Definition Held (P : RelayEnvelope → Prop) (w : W) : Prop :=
  reachable (wst w) ∧ ∀ r, relay (data (wst w)) = Some r → re_sourceTxHash r = tx → P r.

Lemma keeps_quiet {A} P (m : M W A) : quiet m → keeps (Held P) m.
Proof.
  intros Hm w [Hr Hp]. destruct (Hm w) as [Hr' Hp']. split; [auto|]. intros r Hrel Htx.
  destruct (Hp' r Hrel); [by apply Hp|done].
Qed.

Lemma keeps_op P op : (∀ w, Held P w → opSafe (data (wst w)) op) →
  (∀ r now, op = OReserveRelay r now → re_sourceTxHash r = tx → P r) →
  keeps (Held P) (zoom (runOp op) : M W unit).
Proof.
  intros Hsafe Hres w Hw. pose proof Hw as [Hr Hp]. specialize (Hsafe w Hw).
  pose proof (reach_op op _ Hr Hsafe) as Hr'. pose proof (relay_step (wst w) op Hr Hsafe) as Hst.
  unfold zoom. change (lens_get w) with (wst w).
  destruct (runOp op (wst w)) as [o s'] eqn:Hrun. simpl in *. split; [done|]. simpl. intros r Hrel Htx.
  destruct Hst as [Heq|[(r' & now & -> & _ & Hn)|(r' & rc & now & j & -> & _ & Hn & _)]].
  - apply Hp; [|done]. by rewrite <- Heq.
  - simplify_eq. by eapply Hres.
  - by rewrite Hn in Hrel.
Qed.

Lemma keeps_zoom_read {A} P (f : StoreSt → outcome A) :
  keeps (Held P) (zoom (λ s, (f s, s)) : M W A).
Proof. intros w Hw. unfold zoom. simpl. by destruct w. Qed.

Lemma keeps_assertSource P : keeps (Held P) (zoom assertSourceReady : M W unit).
Proof.
  intros w Hw. unfold zoom, assertSourceReady, bind, gets, throw, ret. simpl.
  by destruct (truthy _), w.
Qed.
Lemma keeps_assertHub P : keeps (Held P) (zoom assertHubReady : M W unit).
Proof.
  intros w Hw. unfold zoom, assertHubReady, bind, gets, throw, ret. simpl. by destruct (truthy _), w.
Qed.
Lemma keeps_get P h : keeps (Held P) (zoom (get h) : M W (option Job)).
Proof. intros w Hw. unfold zoom, get, gets. simpl. by destruct w. Qed.

Lemma keeps_holdSource P reason : keeps (Held P) (zoom (holdSource reason) : M W unit).
Proof. by apply (keeps_op P (OHoldSource reason)). Qed.
Lemma keeps_holdHub {A} P reason : keeps (Held P) (Recovery.hold reason : M W A).
Proof.
  intros w Hw. pose proof (keeps_op P (OHoldHub reason) ltac:(done) ltac:(done) w Hw) as Hk.
  revert Hk. unfold Recovery.hold, zoom. simpl. unfold holdHub, bind, throw, gets.
  by destruct (commit _ _) as [[?|?] ?].
Qed.
Lemma keeps_stopped P : keeps (Held P) (throwIfStopped : M W unit).
Proof. unfold throwIfStopped. keeps_go. Qed.
Lemma keeps_record P e : keeps (Held P) (record e : M W unit).
Proof. by apply keeps_modify. Qed.
Lemma keeps_active P b : keeps (Held P) (setActive b : M W unit).
Proof. by apply keeps_modify. Qed.

Lemma keeps_update P h p now : keepsKey p → keepsSubmission p →
  keeps (Held P) (zoom (update h p now) : M W unit).
Proof. intros Hk Hs. by apply (keeps_op P (OUpdate h p now)). Qed.
Lemma keeps_skip h p now : keepsKey p → h = tx →
  keeps (Held (λ _, False)) (zoom (update h p now) : M W unit).
Proof.
  intros Hk ->. apply (keeps_op _ (OUpdate tx p now)); [|done]. intros w [_ Hn].
  split; [done|]. intros r Hr Htx. by destruct (Hn r Hr).
Qed.
Lemma keeps_finish P h rc now : keeps (Held P) (zoom (finishRelay h rc now) : M W unit).
Proof. by apply (keeps_op P (OFinishRelay h rc now)). Qed.

Hint Resolve keeps_assertSource keeps_assertHub keeps_get keeps_holdSource keeps_holdHub keeps_stopped
  keeps_record keeps_active keeps_finish : keeps.
Hint Extern 1 (keeps _ _) => apply keeps_quiet; apply Hq : keeps.
Hint Extern 2 (keeps _ (zoom (update _ _ _))) =>
  apply keeps_update; [by repeat constructor|by repeat constructor] : keeps.

Lemma keeps_retry {A} P (fn : M W A) b n i last : keeps (Held P) fn →
  keeps (Held P) (Retry.retryFrom aborted (o_delay x) (o_jitter x) fn b n i last).
Proof.
  intros Hfn. revert i last. induction n as [|n IH]; intros i last; cbn [Retry.retryFrom]; [keeps_go|].
  unfold Retry.throwIfStopped, Retry.sleep, Retry.delayFor, Retry.throwIfStopped.
  apply keeps_bind; [keeps_go|intros _]. apply keeps_bind.
  - apply Retry.keeps_attempt, keeps_bind; [done|intros; cbv beta; keeps_go].
  - intros [r|e]; keeps_go; try apply IH.
Qed.

Lemma keeps_canonical P job : keeps (Held P) (assertCanonicalJob x job).
Proof. unfold assertCanonicalJob. keeps_go. Qed.
Hint Resolve keeps_canonical : keeps.
Lemma keeps_guardSource P id : keeps (Held P) (guardSource x id).
Proof. unfold guardSource. keeps_go. Qed.

Lemma keeps_collect P js : keeps (Held P) (Recovery.collectTerminal js : M W _).
Proof. induction js as [|j js IH]; cbn [Recovery.collectTerminal]; keeps_go; apply IH. Qed.
Lemma keeps_nonces P n ts : keeps (Held P) (Recovery.checkNonces n ts : M W _).
Proof. revert n. induction ts as [|[j h] ts IH]; intros n; cbn [Recovery.checkNonces]; keeps_go. Qed.
Hint Resolve keeps_guardSource keeps_collect keeps_nonces : keeps.

Lemma keeps_guardHub P : keeps (Held P) (guardHub cfg x).
Proof.
  unfold guardHub, Recovery.reconcileHubRecovery, Recovery.checkTerminal, Recovery.checkSkipped,
    Recovery.checkCounts, Recovery.counts, Recovery.snapshotNow. keeps_go.
Qed.
Hint Resolve keeps_guardHub : keeps.

Lemma keeps_deliver P r : keeps (Held P)
  (deliver (o_transport x) (guardSource x) (dateNow x) tx r).
Proof. unfold deliver, readReceipt, sendRaw, dateNow. keeps_go. Qed.
Lemma keeps_settle P r o : keeps (Held P)
  (settle (o_transport x) (guardSource x) (dateNow x) tx r o).
Proof. unfold settle, readReceipt, readProcessed, dateNow. keeps_go. Qed.

(** From a state without an envelope for [tx] to one whose envelope for [tx], if any, has [P]. *)
Definition leads {A} (P : RelayEnvelope → Prop) (m : M W A) : Prop :=
  ∀ w, Held (λ _, False) w → Held P (m w).2.

Lemma Held_weaken P w : Held (λ _, False) w → Held P w.
Proof. intros [Hr Hn]. split; [done|]. intros r Hrel Htx. by destruct (Hn r Hrel). Qed.
Lemma leads_keeps {A} P (m : M W A) : keeps (Held (λ _, False)) m → leads P m.
Proof. intros Hm w Hw. by apply Held_weaken, Hm. Qed.
Lemma leads_bind {A B} P (m : M W A) (k : A → M W B) :
  keeps (Held (λ _, False)) m → (∀ a, leads P (k a)) → leads P (bind m k).
Proof.
  intros Hm Hk w Hw. apply (keeps_seq (Held P) (Held (λ _, False))); [apply Held_weaken|by apply Hm|].
  intros a w' Hw'. by apply Hk.
Qed.
Lemma leads_require {A} P b e (k : M W A) : (b = true → leads P k) → leads P (require b e ;;; k).
Proof. destruct b; intros Hk; [by apply Hk|]. intros w Hw. by apply Held_weaken. Qed.

Lemma leads_reserve P r now : (re_sourceTxHash r = tx → P r) →
  leads P (zoom (reserveRelay r now) ;;; ret (Some r)).
Proof.
  intros Hr w Hw. apply (keeps_bind (Held P) _ _); [|intros _; apply keeps_ret|by apply Held_weaken].
  apply (keeps_op P (OReserveRelay r now)); [done|]. intros r' now' [= -> ->]. done.
Qed.

Lemma leads_obtain P prep :
  (∀ p r, prep = Some p → re_queryId r = pr_queryId p → re_data r = pr_data p → P r) →
  leads P (obtain (o_transport x) (guardSource x) (guardHub cfg x) (dateNow x) tx prep).
Proof.
  intros HP. unfold obtain, dateNow. destruct prep as [p|]; [|apply leads_keeps; keeps_go].
  repeat (apply leads_bind; [solve [keeps_go]|intros ?]).
  destruct (qo_status _).
  - apply leads_bind; [solve [keeps_go]|intros ?]. apply leads_bind; [solve [keeps_go]|intros ?].
    apply leads_require. intros Hc.
    rewrite !andb_true_iff, !String.eqb_eq in Hc. destruct Hc as [[Hs Hqi] Hd].
    repeat (apply leads_bind; [solve [keeps_go]|intros ?]). apply leads_reserve. intros _. by eapply HP.
  - apply leads_keeps; keeps_go.
  - apply leads_keeps; keeps_go. apply keeps_skip; [by repeat constructor|done].
Qed.

Lemma keeps_step_sender P prep :
  (∀ p r, prep = Some p → re_queryId r = pr_queryId p → re_data r = pr_data p → P r) →
  keeps (Held P) (senderStep cfg x tx prep).
Proof.
  intros HP. unfold senderStep, step. apply keeps_bind; [keeps_go|intros _].
  apply keeps_bind; [keeps_go|intros w0]. apply keeps_require_bind. intros _.
  apply keeps_bind; [keeps_go|intros _]. apply keeps_tryFinally; [|keeps_go].
  apply keeps_bind; [keeps_go|intros _]. apply keeps_bind; [keeps_go|intros _].
  apply keeps_bind; [keeps_go|intros job]. apply keeps_require_bind. intros _.
  assert (∀ held, keeps (Held P) (match held with
    | None => ret tt
    | Some r => let! o := deliver (o_transport x) (guardSource x) (dateNow x) tx r in
                settle (o_transport x) (guardSource x) (dateNow x) tx r o end)) as Hrest.
  { intros [r|]; [|keeps_go]. apply keeps_bind; [apply keeps_deliver|intros; apply keeps_settle]. }
  intros w Hw. unfold bind at 1, getS. cbv beta iota. destruct (relay (data (wst w))) as [r|] eqn:Hrel.
  - by apply (keeps_bind (Held P) (ret (Some r)) _ (keeps_ret _ _) Hrest).
  - apply (keeps_seq (Held P) (Held P)); [done| |by intros held w' Hw'; apply Hrest].
    apply leads_obtain; [done|]. destruct Hw as [Hr _]. split; [done|]. intros r Hr'. congruence.
Qed.

(** The envelope of a submission: it carries the job's coordinates as the proof confirmed them. *)
Definition boundTo (job : Job) (r : RelayEnvelope) : Prop := ∃ args,
  ea_action args = action job ∧ ea_chainKey args = cfg_chainKey cfg ∧
  ea_headerNumber args = blockNumber job ∧
  transactionIndex job = Some (ProofClient.txIndexFromProof (ea_siblings args)) ∧
  o_encodeExecute x args = Ok (re_data r) ∧
  ProofClient.computeQueryId (o_keccak256 x) (cfg_chainKey cfg) (blockNumber job)
    (ProofClient.txIndexFromProof (ea_siblings args)) = Ok (re_queryId r).

Lemma keeps_lift_out_bind {A B} I (o : outcome A) (k : A → M W B) :
  (∀ a, o = Ok a → keeps I (k a)) → keeps I (bind (lift_out o) k).
Proof. destruct o as [a|e]; intros Hk; [by apply Hk|by intros w]. Qed.

Lemma keeps_submit (P : RelayEnvelope → Prop) job : txHash job = tx → (∀ r, boundTo job r → P r) →
  keeps (Held P) (submitProof cfg x job).
Proof.
  intros Htx HP. unfold submitProof, estimateGas, isStopping.
  apply keeps_bind; [apply keeps_retry; keeps_go|intros proof].
  apply keeps_require_bind. rewrite andb_true_iff, !Z.eqb_eq. intros [Hk Hn].
  apply keeps_require_bind. rewrite bool_decide_eq_true. intros Hi.
  apply keeps_lift_out_bind. intros q Hqid.
  apply keeps_bind; [keeps_go|intros gas]. apply keeps_bind; [keeps_go|intros stopped].
  destruct stopped; [keeps_go|]. apply keeps_lift_out_bind. intros calldata Hcd. rewrite Htx.
  apply keeps_step_sender. intros p r [= <-] Hrq Hrd. simpl in Hrq, Hrd. apply HP.
  exists (executeArgs job proof). rewrite <- Hk, <- Hn, Hrq, Hrd. done.
Qed.

Lemma keeps_process (P : RelayEnvelope → Prop) job : txHash job = tx → (∀ r, boundTo job r → P r) →
  keeps (Held P) (process cfg x fuel job).
Proof.
  intros Htx HP. unfold process, awaitAttestation. apply keeps_bind; [keeps_go|intros w].
  destruct (ownsEnvelope _ _); [rewrite Htx; by apply keeps_step_sender|].
  apply keeps_require_bind. intros _. apply keeps_require_bind. intros _.
  apply keeps_bind; [keeps_go|intros _]. apply keeps_bind; [|intros _; by apply keeps_submit].
  apply keeps_when. intros _. apply keeps_bind; [|intros _; unfold dateNow; keeps_go].
  generalize fuel. intros n. induction n as [|n IH]; cbn [Retry.waitFor]; [keeps_go|].
  unfold Retry.waitRound, Retry.throwIfStopped, Retry.sleep, Retry.throwIfStopped.
  apply keeps_bind; [|intros []; [keeps_go|done]]. apply keeps_bind; [keeps_go|intros _].
  apply keeps_bind; [|intros [h|e]; keeps_go].
  apply Retry.keeps_attempt, keeps_retry. unfold Retry.readHeight. keeps_go.
Qed.
End binding.
Arguments QuietOutside {E} _ _.
Arguments boundTo {E} _ _ _ _.

(** Whatever happens between awaits, and however processing ends, an envelope
    in flight for the job afterwards is the one it had before, or one whose call data
    encodes the job action with the configured chain key, the block number of the job
    and siblings that give the transaction index of the job, and whose query identity is
    computed from exactly those coordinates. *)
Theorem process_binds_envelope {E} (cfg : Config) (x : Outside (World (Env E))) (fuel : nat) (job : Job)
    (w : World (Env E)) :
  QuietOutside x (txHash job) → reachable (wst w) →
  let w' := (process cfg x fuel job w).2 in
  reachable (wst w') ∧
  ∀ r, relay (data (wst w')) = Some r → re_sourceTxHash r = txHash job →
    relay (data (wst w)) = Some r ∨ boundTo cfg x job r.
Proof.
  intros Hq Hr. apply (keeps_process cfg x fuel (txHash job) Hq
    (λ r, relay (data (wst w)) = Some r ∨ boundTo cfg x job r)); [done|by right|].
  split; [done|]. by left.
Qed.

(** * Scheduling *)

Section scheduling.
Context {E : Type}.
Local Abbreviation W := (World (Env E)).

Definition withTasks (l : list string) (w : W) : W :=
  mkWorld (wst w) (active w) (aborted w) (events w)
    (mkEnv (stopping (env w))
       {| BoundedPool.capacity := BoundedPool.capacity (pool (env w));
          BoundedPool.accepting := BoundedPool.accepting (pool (env w));
          BoundedPool.tasks := BoundedPool.tasks (pool (env w)) ++ l |}
       (fatalError (env w)) (outside (env w))).

Lemma dispatch_all (js : list Job) (w : W) :
  stopping (env w) = false → BoundedPool.accepting (pool (env w)) = true →
  NoDup (BoundedPool.tasks (pool (env w)) ++ map txHash js) →
  Z.of_nat (length js) ≤ BoundedPool.available (pool (env w)) →
  forM js dispatch w = (Ok tt, withTasks (map txHash js) w).
Proof.
  unfold BoundedPool.available, BoundedPool.size. revert w.
  induction js as [|j js IH]; intros w Hs Ha Hn Hl; cbn [forM map] in *.
  - unfold withTasks. rewrite app_nil_r. by destruct w as [? ? ? ? [? [] ? ?]].
  - rewrite Ha in Hl. cbn [length] in Hl.
    assert (dispatch j w = (Ok tt, withTasks [txHash j] w)) as Hd.
    { unfold dispatch, isStopping, bind, gets. rewrite Hs. unfold modifyEnv, modify, withTasks.
      unfold BoundedPool.tryRun, BoundedPool.has, BoundedPool.size. rewrite Ha.
      rewrite bool_decide_eq_false_2, (proj2 (Z.leb_gt _ _)); [done|lia|].
      apply NoDup_app in Hn as (_ & Hdis & _). intros Hin. apply (Hdis _ Hin). by left. }
    rewrite (bind_ok _ _ _ _ _ Hd), IH; [|done|done| |].
    + unfold withTasks. cbn. by rewrite <- app_assoc.
    + cbn. by rewrite <- app_assoc.
    + cbn. rewrite Ha, length_app. cbn [length]. lia.
Qed.
End scheduling.

(** On a running worker, scheduling reserves exactly the first unreserved
    pending jobs that fit, changes nothing else, keeps at most capacity distinct
    reservations, and leaves a pending job unreserved only when the pool is full. *)
Theorem schedulePending_exact {E} (w : World (Env E)) :
  reachable (wst w) → BoundedPool.PoolInv (pool (env w)) → stopping (env w) = false →
  BoundedPool.accepting (pool (env w)) = true →
  let p := pool (env w) in
  let ready := jobsReadyForDispatch (data (wst w)) (BoundedPool.has p) (Z.to_nat (BoundedPool.available p)) in
  schedulePending w = (Ok tt, withTasks (map txHash ready) w) ∧
  BoundedPool.PoolInv (pool (env (withTasks (map txHash ready) w))) ∧
  (∀ j, j ∈ pending (data (wst w)) →
     txHash j ∈ BoundedPool.tasks p ++ map txHash ready ∨
     Z.of_nat (length (BoundedPool.tasks p ++ map txHash ready)) = BoundedPool.capacity p).
Proof.
  intros Hr [Hc Hsz Hnd] Hstop Hacc p ready.
  destruct (reachable_inv _ Hr) as [_ HWF].
  assert (BoundedPool.available p = BoundedPool.capacity p - BoundedPool.size p) as Hav.
  { unfold BoundedPool.available. by unfold p; rewrite Hacc. }
  assert (0 ≤ BoundedPool.available p) as Hpos by (rewrite Hav; unfold p; lia).
  assert (length ready <= Z.to_nat (BoundedPool.available p))%nat as Hlen by apply firstn_le_length.
  assert (NoDup (BoundedPool.tasks p ++ map txHash ready)) as Hnodup.
  { apply NoDup_app. split_and!; [done| |].
    - intros h Hh (j & -> & Hj)%list_elem_of_fmap. unfold ready, jobsReadyForDispatch in Hj.
      apply elem_of_take in Hj as (i & Hi%list_elem_of_lookup_2 & _).
      apply list_elem_of_filter in Hi as [Hi _]. apply Is_true_true, negb_true_iff in Hi.
      by apply bool_decide_eq_false in Hi.
    - eapply sublist_NoDup; [by apply (pending_keys_NoDup _ HWF)|]. apply fmap_sublist.
      etrans; [apply sublist_take|apply sublist_filter]. }
  split_and!.
  - unfold schedulePending. unfold bind, getS. fold p. apply dispatch_all; [done|done|done|]. fold p. lia.
  - split; cbn; [done| |done]. unfold BoundedPool.size. cbn. rewrite length_app, length_map.
    unfold BoundedPool.size in *. fold p. lia.
  - intros j Hj. destruct (decide (txHash j ∈ BoundedPool.tasks p)) as [Hin|Hout].
    { left. apply elem_of_app. by left. }
    set (free := filter (λ j, negb (BoundedPool.has p (txHash j))) (pending (data (wst w)))).
    assert (j ∈ free) as Hf.
    { apply list_elem_of_filter. split; [|done]. unfold BoundedPool.has. by rewrite bool_decide_eq_false_2. }
    destruct (decide (length free <= Z.to_nat (BoundedPool.available p))%nat) as [Hle|Hgt].
    + left. apply elem_of_app. right. apply list_elem_of_fmap. exists j. split; [done|].
      unfold ready, jobsReadyForDispatch. fold free. by rewrite take_ge.
    + right. rewrite length_app, length_map. unfold ready, jobsReadyForDispatch. fold free.
      rewrite length_take. unfold BoundedPool.size in *. lia.
Qed.

(** * Failed attempts *)

(** A run of [update] on a job that is stored. *)
Lemma update_run h p now (s : StoreSt) j :
  reachable s → opSafe (data s) (OUpdate h p now) → updateBlocked (data s) h p = false → dget h (jobs (data s)) = Some j →
  let d' := set_jobs (dset h (set_field (assign j p) (SetUpdatedAt now)) (jobs (data s))) (data s) in
  ∃ o s', update h p now s = (o, s') ∧ reachable s' ∧ (faults s = [] → o = Ok tt) ∧
    (o = Ok tt ∧ data s' = d' ∨ (∃ e, o = Throw e ∧ WriteFailed e) ∧ (data s' = data s ∨ data s' = d')).
Proof.
  intros Hr Hsafe Hb Hj d'. destruct (update h p now s) as [o s'] eqn:Hu. exists o, s'. split; [done|].
  pose proof (reach_op (OUpdate h p now) s Hr Hsafe) as Hr'. simpl in Hr'. rewrite Hu in Hr'. split; [done|].
  apply reachable_inv in Hr as [Hs HWF]. pose proof (op_realises (OUpdate h p now) (data s) s eq_refl Hs) as H.
  pose proof (WF_update _ _ _ now _ HWF Hsafe Hb Hj) as HWF'. simpl in H. rewrite Hb, Hj, Hu in H. simpl in H.
  destruct H as [_ H]; [by apply WF_loadable|]. split; [|done]. intros Hf. revert Hu. unfold update. unfold updateBlocked in Hb.
  unfold bind, gets, require. rewrite Hb, Hj. simpl. unfold commit. rewrite Hf. simpl. by intros [= <- _].
Qed.

Section failures.
Context {E : Type}.
Local Abbreviation W := (World (Env E)).
Context (cfg : Config) (x : Outside W).
Context (Hnow : ∀ w, ∃ now, SourceScan.dateNow (o_src x) w = (Ok now, w)).

(** What a failure that is charged to the job leaves: one more attempt, dead at the limit. *)
Definition Charged (h : string) (msg : string) (j : Job) (d d' : Data) : Prop :=
  ∃ j', dget h (jobs d') = Some j' ∧ attempts j' = attempts j + 1 ∧ lastError j' = Some msg
    ∧ state j' = (if cfg_maxAttempts cfg <=? attempts j + 1 then dead else state j)
    ∧ ascTxHash j' = ascTxHash j ∧ queryId j' = queryId j
    ∧ relay d' = relay d ∧ ∀ k, k ≠ h → dget k (jobs d') = dget k (jobs d).

(** What a failure leaves while the envelope of the job is in flight. *)
Definition Unresolved (h : string) (j : Job) (d d' : Data) : Prop :=
  ∃ j', dget h (jobs d') = Some j' ∧ state j' = submitted ∧ attempts j' = attempts j
    ∧ relay d' = relay d ∧ ∀ k, k ≠ h → dget k (jobs d') = dget k (jobs d).

Definition Recorded (h msg : string) (j : Job) (d d' : Data) : Prop :=
  if ownsEnvelope d h then Unresolved h j d d' else Charged h msg j d d'.

(** The failure is recorded; or, only when writing fails, the write's error is thrown - the worker is
    not stopped - and the record is there or nothing changed. *)
Definition Settled (h msg : string) (j : Job) (w : W) (r : outcome unit * W) : Prop :=
  env r.2 = env w ∧ reachable (wst r.2) ∧ (faults (wst w) = [] → r.1 = Ok tt) ∧
  (r.1 = Ok tt ∧ Recorded h msg j (data (wst w)) (data (wst r.2))
   ∨ (∃ e, r.1 = Throw e ∧ WriteFailed e)
     ∧ (data (wst r.2) = data (wst w) ∨ Recorded h msg j (data (wst w)) (data (wst r.2)))).

Lemma put_others h j' d k : k ≠ h → dget k (jobs (set_jobs (dset h j' (jobs d)) d)) = dget k (jobs d).
Proof. intros Hk. simpl. by apply dget_dset_ne. Qed.

Lemma update_settles h p msg (w : W) j : reachable (wst w) → keepsKey p → keepsSubmission p →
  updateBlocked (data (wst w)) h p = false → dget h (jobs (data (wst w))) = Some j →
  (∀ now, Recorded h msg j (data (wst w))
            (set_jobs (dset h (set_field (assign j p) (SetUpdatedAt now)) (jobs (data (wst w)))) (data (wst w)))) →
  Settled h msg j w ((let! now := dateNow x in zoom (update h p now)) w).
Proof.
  intros Hr Hk Hsub Hb Hj HR. destruct (Hnow w) as [now Hn].
  destruct (update_run h p now (wst w) j Hr (conj Hk (λ _ _ _, Hsub)) Hb Hj) as (o & s' & Hu & Hr' & Hf & H).
  assert ((let! now := dateNow x in zoom (update h p now)) w = (o, lens_set s' w)) as ->.
  { unfold bind, dateNow. rewrite Hn. unfold zoom. simpl lens_get. by rewrite Hu. }
  remember (set_jobs _ _) as d' eqn:Hd in H. specialize (HR now). rewrite <- Hd in HR.
  destruct w as [st ab ev wl en]. simpl in *. split_and!; [done|done|done|].
  destruct H as [[-> H]|[He [H|H]]]; [left|right; split; [done|left; exact H]|right; split; [done|right]].
  - split; [done|]. simpl. by rewrite H.
  - simpl. by rewrite H.
Qed.

Lemma onFailure_settles h e (w : W) j :
  isStopError e = false → stopping (env w) = false → e ≠ ERelayBusy →
  reachable (wst w) → dget h (jobs (data (wst w))) = Some j →
  Settled h (o_messageOf x e) j w (onFailure cfg x h e w).
Proof.
  intros He Hs Hb Hr Hj. assert (onFailure cfg x h e w =
    (if ownsEnvelope (data (wst w)) h
     then (let! now := dateNow x in zoom (update h [SetState submitted; SetLastError (Some "RELAY_RECONCILIATION_PENDING")] now)) w
     else (let! now := dateNow x in zoom (update h (if cfg_maxAttempts cfg <=? attempts j + 1
             then [SetState dead; SetAttempts (attempts j + 1); SetLastError (Some (o_messageOf x e))]
             else [SetAttempts (attempts j + 1); SetLastError (Some (o_messageOf x e))]) now)) w)) as ->.
  { unfold onFailure, isStopping. unfold bind at 1, gets. rewrite He, Hs, bool_decide_eq_false_2 by done.
    unfold bind at 1, getS. cbv zeta. destruct (ownsEnvelope _ _); [done|]. rewrite Hj. by destruct (_ <=? _). }
  destruct (ownsEnvelope (data (wst w)) h) eqn:Hown.
  - apply update_settles; [done|repeat constructor; done|repeat constructor; done| |done|].
    + unfold updateBlocked. destruct (relay _); [|done]. simpl. apply andb_false_r.
    + intros now. unfold Recorded. rewrite Hown. eexists. split; [apply dget_dset_eq|]. split_and!; [done..|].
      intros k Hk. by apply put_others.
  - apply update_settles; [done|destruct (_ <=? _); repeat constructor; done|destruct (_ <=? _); repeat constructor; done| |done|].
    + unfold updateBlocked. unfold ownsEnvelope in Hown. destruct (relay _); [|done]. by rewrite Hown.
    + intros now. unfold Recorded. rewrite Hown. eexists. split; [apply dget_dset_eq|].
      destruct (_ <=? _); (split_and!; [done..|]); intros k Hk; by apply put_others.
Qed.
End failures.
Arguments Charged _ _ _ _ _ _ /.

(** C22. A failed attempt of a job of the store ends in exactly one way: a
    StoreWriteError or a source-safety error stops the worker and is rethrown with the
    store untouched; a stop or a busy sender leaves everything as it was; otherwise the
    failure is recorded - the job is kept submitted while its envelope is in flight, or
    is charged one attempt with the error recorded and becomes dead exactly at the
    configured number of attempts, other jobs and the envelope untouched - unless
    writing the record meets a fault: then that error is thrown without stopping the
    worker, and either the record was made or nothing changed. The store stays
    reachable; the clock is taken to answer. *)
Theorem failure_policy {E} (cfg : Config) (x : Outside (World (Env E))) (fuel : nat) (job : Job)
    (w w1 : World (Env E)) (e : exn) :
  (∀ w, ∃ now, SourceScan.dateNow (o_src x) w = (Ok now, w)) →
  process cfg x fuel job w = (Throw e, w1) →
  let r := processReserved cfg x fuel job w in
  (isStopError e = true → r.1 = Throw e ∧ stopping (env r.2) = true ∧ aborted r.2 = true
     ∧ BoundedPool.accepting (pool (env r.2)) = false ∧ wst r.2 = wst w1) ∧
  (isStopError e = false → stopping (env w1) = true ∨ e = ERelayBusy → r = (Ok tt, w1)) ∧
  (isStopError e = false → stopping (env w1) = false → e ≠ ERelayBusy → reachable (wst w1) →
     ∀ j, dget (txHash job) (jobs (data (wst w1))) = Some j → Settled cfg (txHash job) (o_messageOf x e) j w1 r).
Proof.
  intros Hnow Hp. unfold processReserved, tryCatch. rewrite Hp. cbv zeta. split_and!.
  - intros He. unfold onFailure. rewrite He. done.
  - intros He [Hs| ->].
    + unfold onFailure, isStopping, bind, gets. rewrite He, Hs. done.
    + unfold onFailure, isStopping, bind, gets. rewrite He. by destruct (stopping (env w1)).
  - intros He Hs Hb Hr j Hj. by apply (onFailure_settles cfg x Hnow).
Qed.

(** * A concrete worker *)

Definition exCfg : Config := {| cfg_chainKey := 1; cfg_sourceAddress := "0xsource"; cfg_ascAddress := "0xasc";
  cfg_startBlock := 10; cfg_confirmations := 4; cfg_hubConfirmations := 6; cfg_scanChunk := 500;
  cfg_pollMs := 12000; cfg_maxAttempts := 8 |}.
Definition exProof (chainKey : Z) : ProofClient.ProofData := {|
  ProofClient.pd_chainKey := chainKey; ProofClient.pd_headerNumber := 12; ProofClient.pd_txBytes := "0xtx";
  ProofClient.pd_root := "0xroot";
  ProofClient.pd_siblings := [{| ProofClient.sib_hash := "0x1"; ProofClient.isLeft := true |};
                              {| ProofClient.sib_hash := "0x2"; ProofClient.isLeft := true |}];
  ProofClient.pd_lowerEndpointDigest := "0xd"; ProofClient.pd_roots := None |}.
Definition exWorkerTransport : RelayTransport (World (Env unit)) := {|
  processed := λ _ _, ret (DBool true);
  observeProcessed := λ _ _, ret {| qo_status := unprocessed; qo_blockNumber := 90; qo_blockHash := "0xh";
    qo_confirmations := 1; qo_observedAt := 1 |};
  prepare := λ h q d g, ret {| re_sourceTxHash := h; re_queryId := q; re_hash := "0xrelay"; re_raw := "0xraw";
    re_nonce := 0; re_chainId := 102031; re_to := "0xasc"; re_signer := "0xsigner"; re_data := d |};
  receipt := λ _, ret RPending; broadcast := λ _, ret tt |}.
Definition exHub : Recovery.HubRecoveryReader (World (Env unit)) := {|
  Recovery.transactionCount := λ _ _, ret 0; Recovery.hubBlockNumber := ret 100;
  Recovery.hubBlock := λ _, ret None; Recovery.hubReceipt := λ _, ret None;
  Recovery.hubProcessed := λ _ _, ret (DBool false) |}.
(** The proof service answers for [chainKey]. *)
Definition exOutside (chainKey : Z) : Outside (World (Env unit)) := {|
  o_src := {| SourceScan.getBlockNumber := ret 30;
    SourceScan.getBlock := λ t, ret (Some match t with
      | SourceScan.AtHeight n => {| SourceScan.number := n; SourceScan.bhash := Some "0xblock" |}
      | SourceScan.Finalized => {| SourceScan.number := 25; SourceScan.bhash := Some "0xfinal" |} end);
    SourceScan.getLogs := λ _ _ _, ret []; SourceScan.dateNow := ret 5000 |};
  o_parseLog := λ _ _, None; o_transport := exWorkerTransport; o_hubReader := exHub;
  o_localeLe := str_leb; o_delay := λ _, ret tt; o_jitter := ret; o_poll := ret (Some 25);
  o_requestProof := λ _, ret (exProof chainKey); o_estimate := λ _, ret 1000;
  o_encodeExecute := λ _, Ok "0xcalldata"; o_keccak256 := RosterProofs.toyHash;
  o_messageOf := λ e, match e with EError m => m | _ => "error" end |}.
Definition exPool (ts : list string) : BoundedPool.Pool :=
  {| BoundedPool.capacity := 2; BoundedPool.accepting := true; BoundedPool.tasks := ts |}.
Definition exWorker (ts : list string) : World (Env unit) :=
  mkWorld {| data := data exScanned; disk := disk exScanned; faults := [] |} false false []
    (mkEnv false (exPool ts) None tt).
Definition exSource : Job := exJob "0xa" 12.

Lemma exClean_reachable : reachable (wst (exWorker [])).
Proof. by eapply (reach_restart exScanned [] _ exScanned_reachable). Qed.

Lemma exOutside_quiet k tx : QuietOutside (exOutside k) tx.
Proof. split; repeat intro; (split; [done|by left]). Qed.

(** This run reserves an envelope. *)
Lemma process_binds_envelope_witness :
  let w' := (process exCfg (exOutside 1) 3 exSource (exWorker [])).2 in
  (re_data <$> relay (data (wst w'))) = Some "0xcalldata" ∧ reachable (wst w') ∧
  ∀ r, relay (data (wst w')) = Some r → re_sourceTxHash r = txHash exSource →
    relay (data (wst (exWorker []))) = Some r ∨ boundTo exCfg (exOutside 1) exSource r.
Proof.
  split; [vm_compute; reflexivity|].
  apply (process_binds_envelope exCfg (exOutside 1) 3 exSource (exWorker []) (exOutside_quiet _ _) exClean_reachable).
Defined.

Lemma schedulePending_exact_witness :
  schedulePending (exWorker ["0xz"]) = (Ok tt, withTasks ["0xb"] (exWorker ["0xz"])).
Proof.
  apply (schedulePending_exact (exWorker ["0xz"]) exClean_reachable); [|done..].
  split; [done|done|]. apply NoDup_singleton.
Defined.

Definition exFailed : World (Env unit) := (process exCfg (exOutside 2) 3 exSource (exWorker [])).2.

Lemma exFailed_reachable : reachable (wst exFailed).
Proof.
  eapply (keeps_process exCfg (exOutside 2) 3 (txHash exSource) (exOutside_quiet _ _) (λ _, True) exSource eq_refl); [done|].
  split; [apply exClean_reachable|done].
Qed.

Lemma failure_policy_witness :
  ∃ j, dget "0xa" (jobs (data (wst exFailed))) = Some j ∧
  Settled exCfg "0xa" "SOURCE_PROOF_COORDINATE_CHANGED" j exFailed (processReserved exCfg (exOutside 2) 3 exSource (exWorker [])).
Proof.
  eexists. split; [vm_compute; reflexivity|].
  pose proof (failure_policy exCfg (exOutside 2) 3 exSource (exWorker []) exFailed
    (EError "SOURCE_PROOF_COORDINATE_CHANGED") (λ w, ex_intro _ 5000 eq_refl) ltac:(vm_compute; reflexivity)) as H.
  apply (proj2 (proj2 H)); [done|by vm_compute|done|exact exFailed_reachable|by vm_compute].
Defined.
End WorkerProofs.
