(* ===== verification/Journal.v ===== *)
(** The issuance journal, [src/pipeline/issuance-journal.ts]: the script that runs atomically in
    one Redis slot (Module JournalScript), the encrypted client around it with a network that may
    lose the answer (Module JournalClient), and what the script promises: an exclusive signer gate
    without expiry, compare-and-set saves under a lease, and refusals that write nothing. *)

From Stdlib Require Import ZArith Lia Ascii String.
From stdpp Require Import base decidable option list gmap strings.
From S2P Require Import Prelude JS.
Local Open Scope string_scope.
Local Open Scope list_scope.
Local Open Scope Z_scope.

Module JournalScript.

(** The hash of a request, with the key's own expiry ([PEXPIREAT]). *)
Record Request (P : Type) := mkRequest {
  revision : Z; payload : P; signer : string; needsSigner : bool;
  owner : option string; leaseUntil : option Z;
  terminalExpiresAt : option Z; expireAt : option Z }.
Arguments mkRequest {P} _ _ _ _ _ _ _ _.
Arguments revision {P} _.
Arguments payload {P} _.
Arguments signer {P} _.
Arguments needsSigner {P} _.
Arguments owner {P} _.
Arguments leaseUntil {P} _.
Arguments terminalExpiresAt {P} _.
Arguments expireAt {P} _.

(** The slot: the request hashes, the signer gates, the sorted set of pending requests and the set
    of active signers' requests. *)
Record Redis (P : Type) := mkRedis {
  requests : gmap string (Request P);
  gates : gmap string string;
  pendingSet : gmap string Z;
  active : gset string }.
Arguments mkRedis {P} _ _ _ _.
Arguments requests {P} _.
Arguments gates {P} _.
Arguments pendingSet {P} _.
Arguments active {P} _.

Inductive Op := OpCreate | OpGet | OpAcquire | OpSave | OpRelease | OpPending.
#[export] Instance Op_eq_dec : EqDecision Op.
Proof. solve_decision. Defined.

(** [{'ok', revision, payload}]; one of the refusal codes; a list of members; or a reply that
    holds a nil, which the client refuses. *)
Inductive Reply (P : Type) :=
  | RSnapshot (rev : Z) (p : P)
  | RCode (code : string)
  | RMembers (l : list string)
  | RNil.
Arguments RSnapshot {P} _ _.
Arguments RCode {P} _.
Arguments RMembers {P} _.
Arguments RNil {P}.

(** [ARGV] and the server's clock, with its permission to set expiries. *)
Record Args (P : Type) := {
  a_op : Op; a_id : string; a_owner : string; a_revision : Z; a_payload : P;
  a_needsSigner : bool; a_signer : string; a_terminal : bool; a_now : Z; a_aclExpire : bool }.
Arguments a_op {P} _.
Arguments a_id {P} _.
Arguments a_owner {P} _.
Arguments a_revision {P} _.
Arguments a_payload {P} _.
Arguments a_needsSigner {P} _.
Arguments a_signer {P} _.
Arguments a_terminal {P} _.
Arguments a_now {P} _.
Arguments a_aclExpire {P} _.

Section script.
Context {P : Type}.
Implicit Types (db : Redis P) (h : Request P).

Definition with_requests (rs : gmap string (Request P)) db : Redis P :=
  mkRedis rs (gates db) (pendingSet db) (active db).

(** Keys past their expiry do not exist. *)
Definition live (now : Z) h : Prop := match expireAt h with Some t => now ≤ t | None => True end.
#[export] Instance live_dec now h : Decision (live now h).
Proof. unfold live. destruct (expireAt h); apply _. Defined.
Definition expireKeys (now : Z) db : Redis P :=
  with_requests (filter (λ kv, live now kv.2) (requests db)) db.

Definition snapshot (id : string) db : Reply P :=
  match requests db !! id with Some h => RSnapshot (revision h) (payload h) | None => RNil end.

Definition DAY : Z := 86400000.

Definition terminalDeadline (now : Z) h : Z :=
  match terminalExpiresAt h, expireAt h with
  | Some d, Some c => if (0 <? c) && (c <? d) then c else d
  | Some d, None => d
  | None, Some c => if 0 <? c then c else now + DAY
  | None, None => now + DAY
  end.

(** [retain(terminalUntil)], on a hash that exists. [PEXPIREAT] in the past deletes the key. *)
Definition retain (a : Args P) (terminalUntil : Z) db : Redis P :=
  match requests db !! a_id a with
  | None => db
  | Some h =>
      if a_terminal a then
        let h' := mkRequest (revision h) (payload h) (signer h) (needsSigner h) (owner h) (leaseUntil h)
                    (Some terminalUntil) (Some terminalUntil) in
        mkRedis (if terminalUntil <=? a_now a then delete (a_id a) (requests db)
                 else <[a_id a := h']> (requests db))
          (gates db) (delete (a_id a) (pendingSet db)) (active db)
      else
        let h' := mkRequest (revision h) (payload h) (signer h) (needsSigner h) (owner h) (leaseUntil h)
                    None None in
        mkRedis (<[a_id a := h']> (requests db)) (gates db)
          (match pendingSet db !! a_id a with
           | Some _ => pendingSet db
           | None => <[a_id a := a_now a]> (pendingSet db) end)
          (active db)
  end.

(** Members by score, then by name. *)
Definition scoreLe (x y : string * Z) : bool :=
  (x.2 <? y.2) || ((x.2 =? y.2) && str_leb x.1 y.1).
Definition zrange1000 db : list string :=
  take 1000 (map fst (sort_by scoreLe (map_to_list (pendingSet db)))).
Definition pendingMembers db : list string :=
  elements (active db) ++ filter (λ v, v ∉ elements (active db)) (zrange1000 db).

(** Take the signer gate for [id] unless another request holds it. *)
Definition takeGate (signer id : string) db : option (Redis P) :=
  match gates db !! signer with
  | Some current =>
      if String.eqb current id
      then Some (mkRedis (requests db) (<[signer := id]> (gates db)) (pendingSet db) ({[id]} ∪ active db))
      else None
  | None => Some (mkRedis (requests db) (<[signer := id]> (gates db)) (pendingSet db) ({[id]} ∪ active db))
  end.
Definition dropGate (signer id : string) db : Redis P :=
  mkRedis (requests db)
    (match gates db !! signer with
     | Some current => if String.eqb current id then delete signer (gates db) else gates db
     | None => gates db end)
    (pendingSet db) (active db ∖ {[id]}).

Definition create (a : Args P) db : Reply P * Redis P :=
  match requests db !! a_id a with
  | Some _ => (snapshot (a_id a) db, db)
  | None =>
      if a_terminal a && a_needsSigner a then (RCode "RETENTION_STATE_INVALID", db)
      else
        let h := mkRequest 1 (a_payload a) (a_signer a) (a_needsSigner a) None None None None in
        let db' := retain a (a_now a + DAY) (with_requests (<[a_id a := h]> (requests db)) db) in
        (snapshot (a_id a) db', db')
  end.

Definition release (a : Args P) h db : Reply P * Redis P :=
  if bool_decide (owner h = Some (a_owner a)) then
    (RCode "released",
     with_requests (<[a_id a := mkRequest (revision h) (payload h) (signer h) (needsSigner h) None None
                                  (terminalExpiresAt h) (expireAt h)]> (requests db)) db)
  else (RCode "released", db).

Definition leased (a : Args P) h db : Redis P :=
  with_requests (<[a_id a := mkRequest (revision h) (payload h) (signer h) (needsSigner h)
      (Some (a_owner a)) (Some (a_now a + 30000)) (terminalExpiresAt h) (expireAt h)]> (requests db)) db.

Definition acquire (a : Args P) h db : Reply P * Redis P :=
  if a_now a <? default 0 (leaseUntil h) then (RCode "REQUEST_BUSY", db)
  else if needsSigner h then
    match takeGate (a_signer a) (a_id a) db with
    | None => (RCode "SIGNER_BUSY", db)
    | Some db1 => let db2 := leased a h db1 in (snapshot (a_id a) db2, db2)
    end
  else let db2 := leased a h db in (snapshot (a_id a) db2, db2).

(** The hash after [HSET] and [HINCRBY]. *)
Definition saved (a : Args P) h db : Redis P :=
  with_requests (<[a_id a := mkRequest (revision h + 1) (a_payload a) (signer h) (a_needsSigner a)
      (owner h) (Some (a_now a + 30000)) (terminalExpiresAt h) (expireAt h)]> (requests db)) db.

Definition save (a : Args P) h db : Reply P * Redis P :=
  if negb (bool_decide (owner h = Some (a_owner a))) || (default 0 (leaseUntil h) <=? a_now a)
  then (RCode "LEASE_LOST", db)
  else if negb (revision h =? a_revision a) then (RCode "REVISION_CONFLICT", db)
  else
    let terminalUntil := terminalDeadline (a_now a) h in
    if a_terminal a && a_needsSigner a then (RCode "RETENTION_STATE_INVALID", db)
    else if a_needsSigner a then
      match takeGate (a_signer a) (a_id a) db with
      | None => (RCode "SIGNER_BUSY", db)
      | Some db1 => let db2 := retain a terminalUntil (saved a h db1) in (snapshot (a_id a) db2, db2)
      end
    else
      let db2 := retain a terminalUntil (saved a h (dropGate (a_signer a) (a_id a) db)) in
      (snapshot (a_id a) db2, db2).

(** The whole script, on the keys that have not expired. *)
Definition script (a : Args P) (db0 : Redis P) : Reply P * Redis P :=
  let db := expireKeys (a_now a) db0 in
  let stored := requests db !! a_id a in
  if (bool_decide (a_op a = OpCreate) || bool_decide (a_op a = OpSave)) && a_terminal a
     && negb (a_aclExpire a)
  then (RCode "JOURNAL_UNAVAILABLE", db)
  else
    let refused := match stored ≫= terminalExpiresAt with
    | Some d =>
        if (d <=? 0) || (MAX_SAFE_INTEGER <? d) then Some (RCode "RETENTION_STATE_INVALID")
        else if d <=? a_now a then Some (RCode "RETENTION_DEADLINE_PASSED") else None
    | None => None
    end in
    match refused with
    | Some r => (r, db)
    | None =>
        match a_op a with
        | OpPending => (RMembers (pendingMembers db), db)
        | OpCreate => create a db
        | op =>
            match stored with
            | None => (RCode "NOT_FOUND", db)
            | Some h =>
                match op with
                | OpGet => (snapshot (a_id a) db, db)
                | OpRelease => release a h db
                | _ =>
                    if negb (String.eqb (signer h) (a_signer a)) then (RCode "TARGET_CONFLICT", db)
                    else if bool_decide (op = OpAcquire) then acquire a h db else save a h db
                end
            end
        end
    end.

(** * The invariant *)

(** A request that needs the signer is durable, and a gate is held by such a request of that
    signer, which is listed as active. *)
Record Inv db : Prop := {
  inv_revision : ∀ id h, requests db !! id = Some h → 1 ≤ revision h;
  inv_durable : ∀ id h, requests db !! id = Some h → needsSigner h = true →
    expireAt h = None ∧ terminalExpiresAt h = None;
  inv_gate : ∀ s id, gates db !! s = Some id →
    id ∈ active db ∧ ∃ h, requests db !! id = Some h ∧ signer h = s ∧ needsSigner h = true }.

Lemma expire_lookup now db id h :
  requests (expireKeys now db) !! id = Some h ↔ requests db !! id = Some h ∧ live now h.
Proof. simpl. by rewrite map_lookup_filter_Some. Qed.

Lemma expire_Inv now db : Inv db → Inv (expireKeys now db).
Proof.
  intros [Hr Hd Hg]. split.
  - intros id h [H _]%expire_lookup. by eapply Hr.
  - intros id h [H _]%expire_lookup. by eapply Hd.
  - intros s id H. destruct (Hg s id H) as (Ha & h & Hh & Hs & Hn). split; [done|]. exists h.
    split; [|done]. apply expire_lookup. split; [done|]. unfold live. by rewrite (proj1 (Hd _ _ Hh Hn)).
Qed.

Lemma Inv_put id h db : Inv db → 1 ≤ revision h →
  (needsSigner h = true → expireAt h = None ∧ terminalExpiresAt h = None) →
  (∀ s, gates db !! s = Some id → signer h = s ∧ needsSigner h = true) →
  Inv (with_requests (<[id := h]> (requests db)) db).
Proof.
  intros [Hr Hd Hg] H1 H2 H3. split; simpl.
  - intros id' h' [[-> ->]|[_ H]]%lookup_insert_Some; [done|by eapply Hr].
  - intros id' h' [[-> ->]|[_ H]]%lookup_insert_Some; [done|by eapply Hd].
  - intros s id' H. destruct (Hg s id' H) as (Ha & h' & Hh & Hs & Hn). split; [done|].
    destruct (decide (id' = id)) as [->|Hne].
    + exists h. rewrite lookup_insert_eq. split; [done|by apply H3].
    + exists h'. by rewrite lookup_insert_ne.
Qed.

Lemma no_gate id db h s : Inv db → requests db !! id = Some h → needsSigner h = false →
  gates db !! s ≠ Some id.
Proof. intros HI Hh Hn Hg. destruct (inv_gate _ HI _ _ Hg) as (_ & h' & Hh' & _ & Hn'). congruence. Qed.

Lemma Inv_sets g p ac db : Inv db → g = gates db → ac = active db → Inv (mkRedis (requests db) g p ac).
Proof. intros [Hr Hd Hg] -> ->. by split. Qed.

Lemma retain_Inv a t db : Inv db →
  (a_terminal a = true → ∀ h, requests db !! a_id a = Some h → needsSigner h = false) →
  Inv (retain a t db).
Proof.
  intros HI Ht. unfold retain. destruct (requests db !! a_id a) as [h|] eqn:Hh; [|done].
  destruct (a_terminal a) eqn:Hterm.
  - assert (needsSigner h = false) as Hn by by apply Ht.
    destruct (t <=? a_now a).
    + destruct HI as [Hr Hd Hg]. split; simpl.
      * intros id h' [_ H]%lookup_delete_Some. by eapply Hr.
      * intros id h' [_ H]%lookup_delete_Some. by eapply Hd.
      * intros s id H. destruct (Hg s id H) as (Ha & h' & Hh' & Hs & Hn'). split; [done|]. exists h'.
        split; [|done]. apply lookup_delete_Some. split; [|done]. intros Heq. rewrite Heq in Hh. congruence.
    + pose proof (Inv_put (a_id a) (mkRequest (revision h) (payload h) (signer h) (needsSigner h) (owner h)
        (leaseUntil h) (Some t) (Some t)) db HI) as Hput. simpl in Hput.
      apply (Inv_sets _ (delete (a_id a) (pendingSet db)) _ _
        (Hput ltac:(by eapply inv_revision) ltac:(congruence)
          ltac:(intros s Hs; by destruct (no_gate _ _ _ s HI Hh Hn)))); done.
  - pose proof (Inv_put (a_id a) (mkRequest (revision h) (payload h) (signer h) (needsSigner h) (owner h)
      (leaseUntil h) None None) db HI) as Hput. simpl in Hput.
    eapply (Inv_sets _ _ _ _ (Hput ltac:(by eapply inv_revision) ltac:(done) ltac:(intros s Hs;
      destruct (inv_gate _ HI _ _ Hs) as (_ & h' & Hh' & Hs' & Hn'); rewrite Hh in Hh'; by injection Hh' as <-))); done.
Qed.

Lemma takeGate_Inv s id db db1 h : Inv db → requests db !! id = Some h → signer h = s →
  needsSigner h = true → takeGate s id db = Some db1 → Inv db1.
Proof.
  intros [Hr Hd Hg] Hh Hs Hn Ht.
  assert (db1 = mkRedis (requests db) (<[s := id]> (gates db)) (pendingSet db) ({[id]} ∪ active db)) as ->.
  { unfold takeGate in Ht. destruct (gates db !! s); [destruct (String.eqb _ _)|]; by simplify_eq. }
  split; simpl; [done|done|]. intros s' id' [[<- <-]|[_ H]]%lookup_insert_Some.
  - split; [set_solver|]. by exists h.
  - destruct (Hg s' id' H) as [? ?]. split; [set_solver|done].
Qed.

Lemma takeGate_requests s id db rs :
  takeGate s id (with_requests rs db) = with_requests rs <$> takeGate s id db.
Proof. unfold takeGate. simpl. destruct (gates db !! s); [destruct (String.eqb _ _)|]; done. Qed.

Lemma takeGate_gates s id db db1 : takeGate s id db = Some db1 →
  requests db1 = requests db ∧ gates db1 !! s = Some id
  ∧ ∀ s' id', gates db !! s' = Some id' → gates db1 !! s' = Some id'.
Proof.
  unfold takeGate. destruct (gates db !! s) as [cur|] eqn:Hs.
  - destruct (String.eqb_spec cur id) as [->|]; [|done]. intros [= <-]. simpl.
    split; [done|]. split; [by rewrite lookup_insert_eq|]. intros s' id' H.
    destruct (decide (s' = s)) as [->|]; [|by rewrite lookup_insert_ne]. rewrite lookup_insert_eq. congruence.
  - intros [= <-]. simpl. split; [done|]. split; [by rewrite lookup_insert_eq|]. intros s' id' H.
    rewrite lookup_insert_ne; [done|congruence].
Qed.

Lemma dropGate_Inv id db h : Inv db → requests db !! id = Some h →
  Inv (dropGate (signer h) id db) ∧ (∀ s, gates (dropGate (signer h) id db) !! s ≠ Some id)
  ∧ (∀ s id', gates db !! s = Some id' → (s ≠ signer h ∨ id' ≠ id) →
      gates (dropGate (signer h) id db) !! s = Some id').
Proof.
  intros [Hr Hd Hg] Hh.
  assert (∀ s, gates (dropGate (signer h) id db) !! s ≠ Some id) as Hno.
  { intros s Hs. unfold dropGate in Hs. simpl in Hs.
    assert (gates db !! s = Some id) as Hs0.
    { destruct (gates db !! signer h) as [cur|]; [|done]. destruct (String.eqb cur id); [|done].
      by apply lookup_delete_Some in Hs as [_ ?]. }
    destruct (Hg s id Hs0) as (_ & h' & Hh' & <- & _). simplify_eq.
    rewrite Hs0, String.eqb_refl in Hs. by rewrite lookup_delete_eq in Hs. }
  assert (∀ s id', gates (dropGate (signer h) id db) !! s = Some id' → gates db !! s = Some id') as Hsub.
  { intros s id'. unfold dropGate. simpl. destruct (gates db !! signer h) as [cur|]; [|done].
    destruct (String.eqb cur id); [|done]. by intros [_ ?]%lookup_delete_Some. }
  split_and!; [split|done|].
  - done.
  - done.
  - intros s id' Hs. pose proof (Hsub s id' Hs) as Hs0. destruct (Hg s id' Hs0) as [Ha Hex]. split; [|done].
    simpl. apply elem_of_difference. split; [done|]. intros ->%elem_of_singleton. by destruct (Hno s).
  - intros s id' Hs Hor. unfold dropGate. simpl. destruct (gates db !! signer h) as [cur|] eqn:Hc; [|done].
    destruct (String.eqb_spec cur id) as [->|]; [|done]. rewrite lookup_delete_ne; [done|].
    intros <-. rewrite Hs in Hc. simplify_eq. destruct Hor; congruence.
Qed.

Lemma retain_gates a t db : gates (retain a t db) = gates db.
Proof. unfold retain. destruct (requests db !! a_id a); [destruct (a_terminal a)|]; done. Qed.

(** The lease and revision a save needs. *)
Definition mayFinish (a : Args P) h : Prop :=
  owner h = Some (a_owner a) ∧ a_now a < default 0 (leaseUntil h) ∧ revision h = a_revision a.

(** What one call may do to the gates: keep every holder, except the one it lets go by a valid save
    of its own request; admit the request itself to a free gate. *)
Record GateStep (a : Args P) db (r : Reply P) db' : Prop := {
  gs_inv : Inv db';
  gs_kept : ∀ s id, gates db !! s = Some id → gates db' !! s = Some id ∨
    (a_op a = OpSave ∧ a_id a = id ∧ a_signer a = s ∧ a_needsSigner a = false ∧
     ∃ h, requests db !! id = Some h ∧ mayFinish a h);
  gs_new : ∀ s id, gates db' !! s = Some id → gates db !! s = Some id ∨
    (gates db !! s = None ∧ a_id a = id ∧ a_signer a = s ∧ (a_op a = OpAcquire ∨ a_op a = OpSave));
  gs_granted : a_op a = OpAcquire ∨ a_op a = OpSave → ∀ rev p h, r = RSnapshot rev p →
    requests db' !! a_id a = Some h → needsSigner h = true → gates db' !! signer h = Some (a_id a) }.

Lemma GateStep_same a db r : Inv db → (∀ rev p, r ≠ RSnapshot rev p) → GateStep a db r db.
Proof. intros HI Hr. split; [done|by left|by left|]. intros _ rev p h ->. by destruct (Hr rev p). Qed.

Lemma GateStep_gates a db r db' : Inv db' → gates db' = gates db →
  ¬ (a_op a = OpAcquire ∨ a_op a = OpSave) → GateStep a db r db'.
Proof. intros HI Hg Ho. split; [done|rewrite Hg; by left..|done]. Qed.

Lemma takeGate_new s id db db1 s' id' : takeGate s id db = Some db1 → gates db1 !! s' = Some id' →
  gates db !! s' = Some id' ∨ (gates db !! s' = None ∧ id = id' ∧ s = s').
Proof.
  unfold takeGate. destruct (gates db !! s) as [cur|] eqn:Hs.
  - destruct (String.eqb_spec cur id) as [->|]; [|done]. intros [= <-]. simpl.
    intros [[<- <-]|[_ H]]%lookup_insert_Some; by left.
  - intros [= <-]. simpl. intros [[<- <-]|[_ H]]%lookup_insert_Some; [by right|by left].
Qed.

Lemma create_step a db : Inv db → a_op a = OpCreate → GateStep a db (create a db).1 (create a db).2.
Proof.
  intros HI Hop. assert (¬ (a_op a = OpAcquire ∨ a_op a = OpSave)) as Hno by (rewrite Hop; by intros [|]).
  unfold create. destruct (requests db !! a_id a) as [h|] eqn:Hh; [by apply GateStep_gates|].
  destruct (a_terminal a && a_needsSigner a) eqn:Hb; [by apply GateStep_gates|].
  apply GateStep_gates; [|by cbn [snd]; rewrite retain_gates|done]. simpl. apply retain_Inv.
  - apply Inv_put; [done|done|done|]. intros s Hs.
    destruct (inv_gate _ HI _ _ Hs) as (_ & h & Hh' & _). congruence.
  - intros Ht h. simpl. rewrite lookup_insert_eq. intros [= <-]. simpl. by rewrite Ht in Hb.
Qed.

Lemma acquire_step a h db : Inv db → a_op a = OpAcquire → requests db !! a_id a = Some h →
  signer h = a_signer a → GateStep a db (acquire a h db).1 (acquire a h db).2.
Proof.
  intros HI Hop Hh Hsg. unfold acquire. destruct (a_now a <? _); [by apply GateStep_same|].
  assert (∀ db1, Inv db1 → requests db1 = requests db → Inv (leased a h db1)) as Hleased.
  { intros db1 HI1 Hreq. apply Inv_put; simpl; [done|exact (inv_revision _ HI _ _ Hh)|exact (inv_durable _ HI _ _ Hh)|].
    intros s Hs. destruct (inv_gate _ HI1 _ _ Hs) as (_ & h' & Hh' & ? & ?). rewrite Hreq, Hh in Hh'.
    by injection Hh' as <-. }
  destruct (needsSigner h) eqn:Hn.
  - destruct (takeGate _ _ db) as [db1|] eqn:Ht; [|by apply GateStep_same].
    destruct (takeGate_gates _ _ _ _ Ht) as (Hreq & Hgot & Hkeep). split; simpl.
    + apply Hleased; [|done]. by eapply takeGate_Inv.
    + intros s id Hs. left. by apply Hkeep.
    + intros s id Hs. destruct (takeGate_new _ _ _ _ _ _ Ht Hs) as [?|(?&?&?)]; [by left|right; auto].
    + intros _ rev p h' _. rewrite lookup_insert_eq. intros [= <-] _. simpl. by rewrite Hsg.
  - split; simpl; [by apply Hleased|by left|by left|].
    intros _ rev p h' _. rewrite lookup_insert_eq. intros [= <-]. simpl. congruence.
Qed.

Lemma save_step a h db : Inv db → a_op a = OpSave → requests db !! a_id a = Some h →
  signer h = a_signer a → GateStep a db (save a h db).1 (save a h db).2.
Proof.
  intros HI Hop Hh Hsg. unfold save.
  destruct (negb _ || _) eqn:Hl; [by apply GateStep_same|].
  destruct (negb (revision h =? _)) eqn:Hrev; [by apply GateStep_same|].
  destruct (a_terminal a && a_needsSigner a) eqn:Hb; [by apply GateStep_same|].
  assert (mayFinish a h) as Hmay.
  { apply orb_false_iff in Hl as [Ho%negb_false_iff%bool_decide_eq_true Hl%Z.leb_gt].
    apply negb_false_iff, Z.eqb_eq in Hrev. done. }
  set (t := terminalDeadline (a_now a) h).
  destruct (a_needsSigner a) eqn:Hn.
  - destruct (takeGate _ _ db) as [db1|] eqn:Ht; [|by apply GateStep_same].
    destruct (takeGate_gates _ _ _ _ Ht) as (Hreq & Hgot & Hkeep).
    assert (a_terminal a = false) as Hterm by (by rewrite andb_true_r in Hb).
    split; cbn [fst snd]; rewrite ?retain_gates; cbn [gates saved with_requests].
    + unfold retain. simpl. rewrite lookup_insert_eq, Hterm. simpl. rewrite Hn, Hreq.
      rewrite insert_insert_eq.
      set (h' := mkRequest (revision h + 1) (a_payload a) (signer h) true (owner h) (Some (a_now a + 30000)) None None).
      assert (Inv (with_requests (<[a_id a := h']> (requests db)) db)) as HI'.
      { apply Inv_put; [done| |done|].
        - pose proof (inv_revision _ HI _ _ Hh). simpl. lia.
        - intros s Hs. destruct (inv_gate _ HI _ _ Hs) as (_ & h0 & Hh0 & <- & _). simplify_eq. done. }
      assert (Inv (with_requests (<[a_id a := h']> (requests db)) db1)) as HI1.
      { eapply (takeGate_Inv (a_signer a) (a_id a) _ _ h' HI'); [apply lookup_insert_eq|done|done|].
        by rewrite takeGate_requests, Ht. }
      by eapply (Inv_sets _ _ _ _ HI1).
    + intros s id Hs. left. by apply Hkeep.
    + intros s id Hs. destruct (takeGate_new _ _ _ _ _ _ Ht Hs) as [?|(?&?&?)]; [by left|right; auto].
    + intros _ rev p h' _. unfold retain. simpl. rewrite lookup_insert_eq, Hterm. simpl.
      rewrite lookup_insert_eq. intros [= <-] _. simpl. by rewrite Hsg.
  - destruct (dropGate_Inv (a_id a) db h HI Hh) as (HId & Hno & Hkeep). rewrite Hsg in *.
    split; cbn [fst snd]; rewrite ?retain_gates; cbn [gates saved with_requests].
    + apply retain_Inv.
      * apply Inv_put; simpl; [done| |by rewrite Hn|intros s Hs; by destruct (Hno s)].
        pose proof (inv_revision _ HI _ _ Hh). lia.
      * intros _ h'. simpl. rewrite lookup_insert_eq. intros [= <-]. done.
    + intros s id Hs. destruct (decide (s = a_signer a ∧ id = a_id a)) as [[-> ->]|Hne].
      * right. split_and!; [done..|]. by exists h.
      * left. apply Hkeep; [done|]. destruct (decide (s = a_signer a)); [right|by left]. intros ->. auto.
    + intros s id Hs. left. unfold dropGate in Hs. simpl in Hs. destruct (gates db !! a_signer a) as [cur|]; [|done].
      destruct (String.eqb cur (a_id a)); [|done]. by apply lookup_delete_Some in Hs as [_ ?].
    + intros _ rev p h' _. unfold retain. simpl. rewrite lookup_insert_eq.
      destruct (a_terminal a); [destruct (t <=? a_now a)|]; simpl;
        rewrite ?lookup_delete_eq, ?lookup_insert_eq; [done|..];
        intros [= <-]; simpl; rewrite Hn; done.
Qed.

Lemma release_step a h db : Inv db → a_op a = OpRelease → requests db !! a_id a = Some h →
  GateStep a db (release a h db).1 (release a h db).2.
Proof.
  intros HI Hop Hh. assert (¬ (a_op a = OpAcquire ∨ a_op a = OpSave)) as Hno by (rewrite Hop; by intros [|]).
  unfold release. destruct (bool_decide _); [|by apply GateStep_gates].
  apply GateStep_gates; [|done|done]. apply Inv_put; simpl; [done|exact (inv_revision _ HI _ _ Hh)|
    exact (inv_durable _ HI _ _ Hh)|].
  intros s Hs. destruct (inv_gate _ HI _ _ Hs) as (_ & h' & Hh' & ? & ?). by simplify_eq.
Qed.

Lemma script_step a db0 : Inv db0 → GateStep a (expireKeys (a_now a) db0) (script a db0).1 (script a db0).2.
Proof.
  intros HI0. pose proof (expire_Inv (a_now a) db0 HI0) as HI. unfold script.
  set (db := expireKeys (a_now a) db0) in *.
  destruct (_ && negb (a_aclExpire a)); [by apply GateStep_same|].
  destruct (match _ ≫= _ with Some d => _ | None => None end) as [r|] eqn:Hr.
  { assert (∀ rev p, r ≠ RSnapshot rev p).
    { intros rev p ->. destruct (_ ≫= _); [|done]. destruct (_ || _); [done|]. by destruct (_ <=? _). }
    by apply GateStep_same. }
  destruct (a_op a) eqn:Hop; [by apply create_step| | | | |];
    try (destruct (requests db !! a_id a) as [h|] eqn:Hh; [|by apply GateStep_same]).
  - apply GateStep_gates; [done|done|]. rewrite Hop. by intros [|].
  - destruct (String.eqb_spec (signer h) (a_signer a)) as [Hs|]; simpl; [|by apply GateStep_same].
    by apply acquire_step.
  - destruct (String.eqb_spec (signer h) (a_signer a)) as [Hs|]; simpl; [|by apply GateStep_same].
    by apply save_step.
  - by apply release_step.
  - by apply GateStep_same.
Qed.

(** A save that is answered with a snapshot was made under the lease, on the revision it read. *)
Lemma save_ok a db0 rev p : a_op a = OpSave → (script a db0).1 = RSnapshot rev p →
  ∃ h, requests db0 !! a_id a = Some h ∧ mayFinish a h ∧ signer h = a_signer a
    ∧ rev = a_revision a + 1 ∧ p = a_payload a.
Proof.
  intros Hop. unfold script. set (db := expireKeys (a_now a) db0). rewrite Hop.
  destruct (_ && negb (a_aclExpire a)); [done|].
  destruct (match _ ≫= _ with Some d => _ | None => None end) as [r|] eqn:Hr.
  { destruct (requests db !! a_id a ≫= _); [|done]. destruct (_ || _); [by simplify_eq|].
    destruct (_ <=? _); by simplify_eq. }
  destruct (requests db !! a_id a) as [h|] eqn:Hh; [|done].
  destruct (String.eqb_spec (signer h) (a_signer a)) as [Hs|]; simpl; [|done].
  apply expire_lookup in Hh as [Hh _]. intros Hsave. exists h. split; [done|]. unfold save in Hsave.
  destruct (negb _ || _) eqn:Hl; [done|]. destruct (negb (revision h =? _)) eqn:Hrev; [done|].
  apply orb_false_iff in Hl as [Ho%negb_false_iff%bool_decide_eq_true Hl%Z.leb_gt].
  apply negb_false_iff, Z.eqb_eq in Hrev.
  assert (∀ t db1, snapshot (a_id a) (retain a t (saved a h db1)) = RSnapshot rev p →
    rev = a_revision a + 1 ∧ p = a_payload a) as Hsnap.
  { intros t db1. unfold snapshot, retain. simpl. rewrite lookup_insert_eq.
    destruct (a_terminal a); [destruct (t <=? a_now a)|]; simpl;
      rewrite ?lookup_delete_eq, ?lookup_insert_eq; [done|..]; intros [= <- <-]; simpl; rewrite Hrev; done. }
  split; [done|]. split; [done|]. destruct (a_terminal a && _); [done|].
  destruct (a_needsSigner a); [destruct (takeGate _ _ db); [|done]|]; by eapply Hsnap.
Qed.

(** Every refusal leaves the slot as it was. *)
Lemma refused_unchanged a db0 code : (script a db0).1 = RCode code → code ≠ "released" →
  (script a db0).2 = expireKeys (a_now a) db0.
Proof.
  intros Hr Hc. revert Hr. unfold script. set (db := expireKeys (a_now a) db0).
  destruct (_ && negb (a_aclExpire a)); [done|].
  destruct (match _ ≫= _ with Some d => _ | None => None end) as [r|]; [done|].
  assert (∀ d : Redis P, snapshot (a_id a) d ≠ RCode code) as Hns.
  { intros d. unfold snapshot. by destruct (requests d !! a_id a). }
  assert (∀ h, (release a h db).1 = RCode code → (release a h db).2 = db) as Hrel.
  { intros h. unfold release. destruct (bool_decide _); [|done]. simpl. congruence. }
  destruct (a_op a); try (destruct (requests db !! a_id a) as [h|]; [|done]); auto; try done.
  - unfold create. destruct (requests db !! a_id a); [done|]. destruct (_ && _); [done|].
    simpl. intros H. by destruct (Hns _ H).
  - destruct (negb _); [done|]. simpl. unfold acquire. destruct (_ <? _); [done|].
    destruct (needsSigner h); [destruct (takeGate _ _ db); [|done]|]; simpl; intros H; by destruct (Hns _ H).
  - destruct (negb _); [done|]. simpl. unfold save.
    destruct (_ || _); [done|]. destruct (negb _); [done|]. destruct (_ && _); [done|].
    destruct (a_needsSigner a); [destruct (takeGate _ _ db); [|done]|]; simpl; intros H; by destruct (Hns _ H).
Qed.
End script.
Arguments Inv {P} _.
Arguments mayFinish {P} _ _.

Definition empty {P} : Redis P := mkRedis ∅ ∅ ∅ ∅.
Lemma empty_Inv {P} : Inv (P := P) empty.
Proof. by split. Qed.

(** C24. Every operation of the journal script keeps the slot invariant (a request
    that needs the signer never expires, a gate is held by such a request of that signer
    which is listed active); a held signer gate stays with its holder until that holder,
    owning the lease at the right revision, saves an entry that no longer needs the
    signer; a gate is taken only by an acquire or save of the request itself; an acquire
    or save that succeeds for a request that needs the signer holds the gate. *)
Theorem signer_gate_exclusive {P} (a : Args P) (db : Redis P) (s id : string) :
  Inv db →
  let r := (script a db).1 in
  let db' := (script a db).2 in
  Inv db' ∧
  (gates db !! s = Some id →
     (gates db' !! s = Some id ∧ ∀ id', gates db' !! s = Some id' → id' = id) ∨
     (a_op a = OpSave ∧ a_id a = id ∧ a_signer a = s ∧ a_needsSigner a = false ∧
      ∃ h, requests db !! id = Some h ∧ mayFinish a h)) ∧
  (gates db !! s = None → gates db' !! s = Some id →
     a_id a = id ∧ a_signer a = s ∧ (a_op a = OpAcquire ∨ a_op a = OpSave)) ∧
  (a_op a = OpAcquire ∨ a_op a = OpSave → ∀ rev p h, r = RSnapshot rev p →
     requests db' !! a_id a = Some h → needsSigner h = true → gates db' !! signer h = Some (a_id a)).
Proof.
  intros HI. pose proof (script_step a db HI) as [H1 H2 H3 H4]. cbv zeta.
  split; [done|]. split; [|split; [|done]].
  - intros Hg. destruct (H2 s id Hg) as [Hk|(?&?&?&?&h&[Hh _]%expire_lookup&?)].
    + left. split; [done|]. intros id' Hid'. congruence.
    + right. split_and!; [done..|]. by exists h.
  - intros Hn Hg. destruct (H3 s id Hg) as [?|(?&?&?&?)]; [simpl in *; congruence|done].
Qed.

(** A save is accepted only from the owner of an unexpired lease, at the stored
    revision and for the same signer, and raises the revision by one with the given
    payload; every refusal of the script leaves the slot as it was but for expired keys.
    *)
Theorem journal_save_cas {P} (a : Args P) (db : Redis P) :
  (∀ rev p, a_op a = OpSave → (script a db).1 = RSnapshot rev p →
     ∃ h, requests db !! a_id a = Some h ∧ owner h = Some (a_owner a)
       ∧ a_now a < default 0 (leaseUntil h) ∧ revision h = a_revision a ∧ signer h = a_signer a
       ∧ rev = revision h + 1 ∧ p = a_payload a) ∧
  (∀ code, (script a db).1 = RCode code → code ≠ "released" → (script a db).2 = expireKeys (a_now a) db).
Proof.
  split; [|intros code; apply refused_unchanged].
  intros rev p Hop Hs. destruct (save_ok a db rev p Hop Hs) as (h & Hh & (Ho & Hl & Hr) & Hsg & -> & ->).
  exists h. rewrite Hr. done.
Qed.
(** ** A concrete history: two requests of one signer *)

Definition exArgs (op : Op) (id own : string) (rev now : Z) (needs term : bool) : Args string := {|
  a_op := op; a_id := id; a_owner := own; a_revision := rev; a_payload := "sealed"; a_needsSigner := needs;
  a_signer := "key"; a_terminal := term; a_now := now; a_aclExpire := true |}.
Definition runAll (l : list (Args string)) : Redis string := fold_left (λ db a, (script a db).2) l empty.
Definition exHistory : Redis string := runAll
  [ exArgs OpCreate "r1" "" 0 1000 true false; exArgs OpCreate "r2" "" 0 1001 true false;
    exArgs OpAcquire "r1" "w1" 1 1002 true false ].

Lemma runAll_Inv l : Inv (runAll l).
Proof.
  unfold runAll. assert (∀ db, Inv db → Inv (fold_left (λ db a, (script a db).2) l db)) as H; [|apply H, empty_Inv].
  induction l as [|a l IH]; intros db HI; simpl; [done|]. apply IH. by apply script_step.
Qed.

(** The second request is refused while the first holds the gate, which stays held. *)
Lemma signer_gate_exclusive_witness :
  (script (exArgs OpAcquire "r2" "w2" 1 50000 true false) exHistory).1 = RCode "SIGNER_BUSY" ∧
  gates (script (exArgs OpAcquire "r2" "w2" 1 50000 true false) exHistory).2 !! "key" = Some "r1".
Proof.
  split; [vm_compute; reflexivity|].
  destruct (proj1 (proj2 (signer_gate_exclusive (exArgs OpAcquire "r2" "w2" 1 50000 true false) exHistory
    "key" "r1" (runAll_Inv _))) ltac:(vm_compute; reflexivity)) as [[H _]|[H _]]; [exact H|discriminate H].
Defined.

(** The first worker's lease has passed to a second one: its save is refused. *)
Lemma journal_save_cas_witness :
  (script (exArgs OpSave "r1" "w1" 1 50000 true false) exHistory).2 = expireKeys 50000 exHistory.
Proof.
  apply (proj2 (journal_save_cas (exArgs OpSave "r1" "w1" 1 50000 true false) exHistory) "LEASE_LOST");
    [vm_compute; reflexivity|discriminate].
Defined.
End JournalScript.

(** * The client *)

Module JournalClient.
Import JournalScript.

Inductive IssuancePhase := prepared | submitted | sourceConfirmed | materialized | failed.
#[export] Instance IssuancePhase_eq_dec : EqDecision IssuancePhase.
Proof. solve_decision. Defined.

Record SignedIssuance := {
  si_hash : string; si_raw : string; si_nonce : Z; si_chainId : Z; si_source : string; si_issuer : string;
  si_gasLimit : option string }.
#[export] Instance SignedIssuance_eq_dec : EqDecision SignedIssuance.
Proof. solve_decision. Defined.

Record SourceConfirmation := {
  sc_blockNumber : Z; sc_blockHash : string; sc_transactionIndex : Z; sc_confirmedAt : Z;
  sc_gasUsed : option string }.
#[export] Instance SourceConfirmation_eq_dec : EqDecision SourceConfirmation.
Proof. solve_decision. Defined.

Record Target := {
  t_chainId : Z; t_source : string; t_issuer : string; t_hubChainId : Z; t_asc : string;
  t_issuerMode : option string; t_operatingKey : option string; t_issuerKeyEpoch : option Z }.
#[export] Instance Target_eq_dec : EqDecision Target.
Proof. solve_decision. Defined.

(** The outcome of the pipeline: what the journal reads of it; the evidence is its JSON text. *)
Inductive OutcomeStatus := ISSUED | DENIED | REVIEW | REJECTED.
#[export] Instance OutcomeStatus_eq_dec : EqDecision OutcomeStatus.
Proof. solve_decision. Defined.
Record IssueOutcome := {
  io_status : OutcomeStatus; io_attrs : string; io_claimsRoot : string; io_evidenceHash : string;
  io_expiry : Z; io_rest : string }.
#[export] Instance IssueOutcome_eq_dec : EqDecision IssueOutcome.
Proof. solve_decision. Defined.

Record Reverted := { rv_hash : string; rv_nonce : Z; rv_at : Z }.
#[export] Instance Reverted_eq_dec : EqDecision Reverted.
Proof. solve_decision. Defined.

(** An entry; the processing and retention policies and the evidence record are JSON texts. *)
Record IssuanceEntry := mkEntry {
  version : Z; requestId : string; wallet : string; fingerprint : string; consentVersion : string;
  processingPolicy : option string; retentionPolicy : option string; createdAt : Z; prepareUntil : Z;
  phase : IssuancePhase; target : Target; outcome_ : IssueOutcome; assurance : Z;
  evidenceRecord : option string; evidenceStored : bool; transaction : option SignedIssuance;
  revertedTransactions : list Reverted; sourceConfirmation : option SourceConfirmation;
  broadcastAcceptedAt : option Z; materializedAt : option Z; lastError : option string }.

Record JournalSnapshot := { js_revision : Z; js_entry : IssuanceEntry }.

Definition JournalError (code : string) : exn := EJournal code.

Definition entryNeedsSigner (e : IssuanceEntry) : bool :=
  bool_decide (io_status (outcome_ e) = ISSUED)
  && (bool_decide (phase e = prepared) || bool_decide (phase e = submitted)).
Definition entryTerminal (e : IssuanceEntry) : bool :=
  bool_decide (phase e = failed) || bool_decide (phase e = materialized).
Definition checkId (id : string) : outcome string :=
  if isBytes32 id then Ok (toLowerCase id) else Throw (JournalError "INVALID_REQUEST_ID").

(** What a request to the endpoint meets: the server runs the script at its time, and the answer
    arrives or is lost; or the server is not reached. *)
Inductive Net := NetOk (now : Z) (acl : bool) | NetLost (now : Z) (acl : bool) | NetDown.

Record Server := { slot : Redis string; net : list Net }.

Section client.
(** The cipher (with its key), JSON of an entry, the digest of the signer and a fresh nonce. *)
Context (encrypt : string → string → string → string) (decrypt : string → string → option string).
Context (stringify : IssuanceEntry → string) (parse : string → option IssuanceEntry).
Context (digest : string → string) (randomBytes12 : string) (numberText : Z → string).

Definition signerKey (e : IssuanceEntry) : string :=
  digest (numberText (t_chainId (target e)) +:+ "|" +:+ toLowerCase (t_issuer (target e))).

Definition seal (e : IssuanceEntry) : outcome string :=
  let? aad := checkId (requestId e) in Ok (encrypt randomBytes12 aad (stringify e)).

Definition open (id ciphertext : string) : outcome IssuanceEntry :=
  let o :=
    let? aad := checkId id in
    match decrypt aad ciphertext ≫= parse with
    | None => Throw (JournalError "JOURNAL_AUTHENTICATION_FAILED")
    | Some e =>
        let? own := checkId (requestId e) in
        if (version e =? 1) && String.eqb own aad then Ok e
        else Throw (JournalError "JOURNAL_AUTHENTICATION_FAILED")
    end in
  match o with Ok e => Ok e | Throw _ => Throw (JournalError "JOURNAL_AUTHENTICATION_FAILED") end.

Definition argsOf (op : Op) (aad own : string) (s : option JournalSnapshot) (payload : string)
    (now : Z) (acl : bool) : Args string := {|
  a_op := op; a_id := aad; a_owner := own; a_revision := match s with Some s => js_revision s | None => 0 end;
  a_payload := payload; a_needsSigner := match s with Some s => entryNeedsSigner (js_entry s) | None => false end;
  a_signer := match s with Some s => signerKey (js_entry s) | None => "" end;
  a_terminal := match s with Some s => entryTerminal (js_entry s) | None => false end;
  a_now := now; a_aclExpire := acl |}.

Definition run (op : Op) (id own : string) (s : option JournalSnapshot) : M Server (Reply string) :=
  let! aad := lift_out (checkId id) in
  let! payload := lift_out (match s with Some s => seal (js_entry s) | None => Ok "" end) in
  require (negb (500000 <? Z.of_nat (String.length payload))) (JournalError "JOURNAL_ENTRY_TOO_LARGE") ;;;
  λ srv,
    match net srv with
    | NetOk now acl :: net =>
        let '(r, db) := script (argsOf op aad own s payload now acl) (slot srv) in
        (match r with RNil => Throw (JournalError "JOURNAL_UNAVAILABLE") | _ => Ok r end,
         {| slot := db; net := net |})
    | NetLost now acl :: net =>
        (Throw (JournalError "JOURNAL_UNAVAILABLE"),
         {| slot := (script (argsOf op aad own s payload now acl) (slot srv)).2; net := net |})
    | NetDown :: net => (Throw (JournalError "JOURNAL_UNAVAILABLE"), {| slot := slot srv; net := net |})
    | [] => (Throw (JournalError "JOURNAL_UNAVAILABLE"), srv)
    end.

Definition snapshotOf (id : string) (r : Reply string) : outcome JournalSnapshot :=
  match r with
  | RSnapshot rev p =>
      let? _ := orequire (isSafeInteger rev && (1 <=? rev)) (JournalError "BAD_JOURNAL_REVISION") in
      let? e := open id p in Ok {| js_revision := rev; js_entry := e |}
  | RCode c => Throw (JournalError (if String.eqb c "" then "JOURNAL_UNAVAILABLE" else c))
  | RMembers (c :: _) => Throw (JournalError c)
  | _ => Throw (JournalError "JOURNAL_UNAVAILABLE")
  end.

Definition create (e : IssuanceEntry) : M Server JournalSnapshot :=
  let! r := run OpCreate (requestId e) "" (Some {| js_revision := 0; js_entry := e |}) in
  lift_out (snapshotOf (requestId e) r).
Definition get (id : string) : M Server (option JournalSnapshot) :=
  let! r := run OpGet id "" None in
  match r with
  | RCode c => if String.eqb c "NOT_FOUND" then ret None
               else let! s := lift_out (snapshotOf id r) in ret (Some s)
  | _ => let! s := lift_out (snapshotOf id r) in ret (Some s)
  end.
Definition acquire (id own : string) : M Server JournalSnapshot :=
  let! s := get id in
  match s with
  | None => throw (JournalError "NOT_FOUND")
  | Some s => let! r := run OpAcquire id own (Some s) in lift_out (snapshotOf id r)
  end.
Definition save (s : JournalSnapshot) (own : string) : M Server JournalSnapshot :=
  let! r := run OpSave (requestId (js_entry s)) own (Some s) in
  lift_out (snapshotOf (requestId (js_entry s)) r).
Definition release (id own : string) : M Server unit := run OpRelease id own None ;;; ret tt.
Definition pending : M Server (list string) :=
  let! r := run OpPending ("0x0000000000000000000000000000000000000000000000000000000000000000") "" None in
  match r with
  | RMembers l => ret l
  | RCode c => ret [c]
  | _ => throw (JournalError "JOURNAL_UNAVAILABLE")
  end.

(** * What a save stores is what a later read opens *)

Hypothesis decrypt_encrypt : ∀ iv aad p, decrypt aad (encrypt iv aad p) = Some p.

Lemma open_seal id aad e c : checkId id = Ok aad → checkId (requestId e) = Ok aad → version e = 1 →
  parse (stringify e) = Some e → seal e = Ok c → open id c = Ok e.
Proof.
  intros Hid He Hv Hjson. unfold seal. rewrite He. cbn [obind]. intros [= <-].
  unfold open. rewrite Hid. cbn [obind]. rewrite decrypt_encrypt. cbn [mbind option_bind].
  rewrite Hjson, He. cbn [obind]. by rewrite Hv, String.eqb_refl.
Qed.

Lemma run_ok op id own s srv r srv' : run op id own s srv = (Ok r, srv') →
  ∃ aad payload now acl rest, checkId id = Ok aad ∧
    match s with Some s => seal (js_entry s) = Ok payload | None => payload = "" end ∧
    net srv = NetOk now acl :: rest ∧ r ≠ RNil ∧
    script (argsOf op aad own s payload now acl) (slot srv) = (r, slot srv') ∧ net srv' = rest.
Proof.
  unfold run. destruct (checkId id) as [aad|e] eqn:Hid; [|done]. unfold bind at 1, lift_out at 1. cbv beta iota.
  destruct (match s with Some s => seal (js_entry s) | None => Ok "" end) as [payload|e] eqn:Hp; [|done].
  unfold bind at 1, lift_out at 1. cbv beta iota.
  destruct (negb (500000 <? _)) eqn:Hlen; [|done]. unfold bind, require, ret. cbv beta iota.
  destruct (net srv) as [|[now acl|now acl|] rest] eqn:Hn; [done| |done|done].
  destruct (script _ (slot srv)) as [r' db] eqn:Hs. intros E.
  exists aad, payload, now, acl, rest. split; [done|]. split.
  { destruct s; [done|]. by injection Hp as <-. }
  destruct r'; simplify_eq/=; done.
Qed.

Lemma save_stores (a : Args string) (db : Redis string) rev p : a_op a = OpSave → (script a db).1 = RSnapshot rev p → a_terminal a = false →
  ∃ h, requests (script a db).2 !! a_id a = Some h ∧ revision h = rev ∧ JournalScript.payload h = p
    ∧ expireAt h = None ∧ terminalExpiresAt h = None.
Proof.
  intros Hop Hr Ht. revert Hr. unfold script. set (db1 := expireKeys (a_now a) db). rewrite Hop.
  destruct (_ && negb (a_aclExpire a)); [done|].
  destruct (match _ ≫= _ with Some d => _ | None => None end) as [r|] eqn:Hd.
  { destruct (requests db1 !! a_id a ≫= _); [|done]. destruct (_ || _); [by simplify_eq|].
    destruct (_ <=? _); by simplify_eq. }
  destruct (requests db1 !! a_id a) as [h|] eqn:Hh; [|done].
  destruct (String.eqb (JournalScript.signer h) (a_signer a)); [|done]. cbn [negb bool_decide].
  change (bool_decide (OpSave = OpAcquire)) with false. cbv iota. unfold JournalScript.save.
  destruct (_ || _); [done|]. destruct (negb _); [done|]. destruct (_ && _); [done|].
  assert (∀ t db2, (snapshot (a_id a) (retain a t (saved a h db2))) = RSnapshot rev p →
    ∃ h', requests (retain a t (saved a h db2)) !! a_id a = Some h' ∧ revision h' = rev
      ∧ JournalScript.payload h' = p ∧ expireAt h' = None ∧ terminalExpiresAt h' = None) as Hsnap.
  { intros t db2. unfold snapshot, retain. simpl. rewrite lookup_insert_eq, Ht. simpl.
    rewrite lookup_insert_eq. intros [= <- <-]. by eexists. }
  destruct (a_needsSigner a); [destruct (takeGate _ _ db1); [|done]|]; apply Hsnap.
Qed.

(** Only a version 1 entry opens. *)
Lemma open_version id aad e c e' : checkId id = Ok aad → parse (stringify e) = Some e →
  checkId (requestId e) = Ok aad → seal e = Ok c → open id c = Ok e' → version e = 1.
Proof.
  intros Hid Hjson He. unfold seal. rewrite He. cbn [obind]. intros [= <-].
  unfold open. rewrite Hid. cbn [obind]. rewrite decrypt_encrypt. cbn [mbind option_bind].
  rewrite Hjson, He. cbn [obind]. destruct (Z.eqb_spec (version e) 1); [done|]. done.
Qed.

Lemma save_roundtrip (s s' : JournalSnapshot) own srv srv' :
  parse (stringify (js_entry s)) = Some (js_entry s) →
  save s own srv = (Ok s', srv') →
  js_entry s' = js_entry s ∧ js_revision s' = js_revision s + 1 ∧
  (entryTerminal (js_entry s) = false → ∀ now acl rest,
     get (requestId (js_entry s)) {| slot := slot srv'; net := NetOk now acl :: rest |}
     = (Ok (Some s'), {| slot := expireKeys now (slot srv'); net := rest |})).
Proof.
  intros Hjson. unfold save. destruct (run OpSave (requestId (js_entry s)) own (Some s) srv) as [[r|e] srv1] eqn:Hrun;
    [|rewrite (bind_throw _ _ _ _ _ Hrun); done].
  rewrite (bind_ok _ _ _ _ _ Hrun). intros [= Hs <-].
  destruct (run_ok _ _ _ _ _ _ _ Hrun) as (aad & c & now & acl & rest & Hid & Hseal & Hn & Hnil & Hsc & Hrest).
  destruct r as [rev p|code|l|]; [| |by destruct l|done]; cbn [snapshotOf] in Hs; [|done].
  assert ((script (argsOf OpSave aad own (Some s) c now acl) (slot srv)).1 = RSnapshot rev p) as H1 by by rewrite Hsc.
  destruct (save_ok (argsOf OpSave aad own (Some s) c now acl) (slot srv) _ _ eq_refl H1) as (h & Hh & _ & _ & -> & ->). simpl in Hs.
  destruct (isSafeInteger _ && _) eqn:Hsafe; [|done]. cbn [orequire obind] in Hs.
  assert (version (js_entry s) = 1) as Hv.
  { change (a_payload (argsOf OpSave aad own (Some s) c now acl)) with c in Hs.
    destruct (open (requestId (js_entry s)) c) as [e0|] eqn:Ho; [|done].
    by apply (open_version (requestId (js_entry s)) aad (js_entry s) c e0). }
  pose proof (open_seal _ aad (js_entry s) c Hid Hid Hv Hjson Hseal) as Hopen. rewrite Hopen in Hs.
  injection Hs as <-. simpl. split; [done|]. split; [done|]. intros Hterm now' acl' rest'.
  destruct (save_stores (argsOf OpSave aad own (Some s) c now acl) (slot srv) _ _ eq_refl H1 Hterm) as (h' & Hh' & Hrev & Hpay & He & Ht).
  rewrite Hsc in Hh'. simpl in Hh', Hrev, Hpay.
  unfold get, run. rewrite Hid. unfold bind, lift_out, require, ret. cbn [option_map negb String.length].
  unfold script. simpl.
  assert (requests (expireKeys now' (slot srv1)) !! aad = Some h') as Hlive.
  { apply expire_lookup. split; [done|]. unfold live. by rewrite He. }
  simpl in Hlive. rewrite Hlive. simpl. rewrite Ht. unfold snapshot. simpl. rewrite Hlive, Hrev, Hpay. cbn.
  rewrite Hsafe. cbn. by rewrite Hopen.
Qed.
End client.

(** An entry saved through the client is what the save returns, one revision
    later, and unless it is terminal any later read that reaches the server returns
    exactly that snapshot, however long afterwards, provided decryption inverts
    encryption and the JSON text of the entry parses back to it. *)
Theorem journal_client_roundtrip (encrypt : string → string → string → string)
    (decrypt : string → string → option string) (stringify : IssuanceEntry → string)
    (parse : string → option IssuanceEntry) (digest : string → string) (iv : string)
    (numberText : Z → string) (s s' : JournalSnapshot) (own : string) (srv srv' : Server) :
  (∀ iv aad p, decrypt aad (encrypt iv aad p) = Some p) →
  parse (stringify (js_entry s)) = Some (js_entry s) →
  save encrypt decrypt stringify parse digest iv numberText s own srv = (Ok s', srv') →
  js_entry s' = js_entry s ∧ js_revision s' = js_revision s + 1 ∧
  (entryTerminal (js_entry s) = false → ∀ now acl rest,
     get encrypt decrypt stringify parse digest iv numberText (requestId (js_entry s))
       {| slot := slot srv'; net := NetOk now acl :: rest |}
     = (Ok (Some s'), {| slot := expireKeys now (slot srv'); net := rest |})).
Proof. intros Hd. by apply save_roundtrip. Qed.

Definition exId : string := "0x00000000000000000000000000000000000000000000000000000000000000aB".
Definition exEntry : IssuanceEntry := mkEntry 1 exId "0xwallet" "fp" "v1" None None 1000 9000000 prepared
  {| t_chainId := 11155111; t_source := "0xSrc"; t_issuer := "0xIss"; t_hubChainId := 102031; t_asc := "0xAsc";
     t_issuerMode := None; t_operatingKey := None; t_issuerKeyEpoch := None |}
  {| io_status := ISSUED; io_attrs := "0xattrs"; io_claimsRoot := "0xroot"; io_evidenceHash := "0xev";
     io_expiry := 9000; io_rest := "{}" |} 2 None false None [] None None None None.
Definition exServer (l : list Net) : Server := {| slot := empty; net := l |}.
Definition exStringify (e : IssuanceEntry) : string := "json".
Definition exRun : Server :=
  ((let! _ := create (λ _ _ p, p) (λ _ p, Some p) exStringify (λ _, Some exEntry) (λ d, d) "iv" (λ _, "n") exEntry in
   acquire (λ _ _ p, p) (λ _ p, Some p) exStringify (λ _, Some exEntry) (λ d, d) "iv" (λ _, "n") exId "w1")
    (exServer [NetOk 1000 true; NetOk 1001 true; NetOk 1002 true; NetOk 1003 true])).2.

Lemma journal_client_roundtrip_witness :
  get (λ _ _ p, p) (λ _ p, Some p) exStringify (λ _, Some exEntry) (λ d, d) "iv" (λ _, "n") exId
    {| slot := slot (save (λ _ _ p, p) (λ _ p, Some p) exStringify (λ _, Some exEntry) (λ d, d) "iv" (λ _, "n")
                       {| js_revision := 1; js_entry := exEntry |} "w1" exRun).2; net := [NetOk 2000 true] |}
  = (Ok (Some {| js_revision := 2; js_entry := exEntry |}),
     {| slot := expireKeys 2000 (slot (save (λ _ _ p, p) (λ _ p, Some p) exStringify (λ _, Some exEntry) (λ d, d) "iv"
          (λ _, "n") {| js_revision := 1; js_entry := exEntry |} "w1" exRun).2); net := [] |}).
Proof.
  apply (proj2 (proj2 (journal_client_roundtrip (λ _ _ p, p) (λ _ p, Some p) exStringify (λ _, Some exEntry)
    (λ d, d) "iv" (λ _, "n") {| js_revision := 1; js_entry := exEntry |} {| js_revision := 2; js_entry := exEntry |}
    "w1" exRun _ (λ _ _ _, eq_refl) eq_refl ltac:(vm_compute; reflexivity))) eq_refl).
Defined.
End JournalClient.
