(* ===== verification/Budget.v ===== *)
(** The issuance gas budget, [src/pipeline/issuance-budget.ts]: the script that keeps one ledger per
    issuer and UTC day in one Redis slot (Module BudgetScript), and the client around it
    (Module BudgetClient).  Whatever the requests, repetitions and settlements, the reservations
    of one issuer for one day never exceed the configured gas and transaction limits; and a
    reservation whose acknowledgement was lost can be repeated without being charged twice. *)

From Stdlib Require Import ZArith Lia Ascii String.
From stdpp Require Import base decidable option list gmap strings sorting.
From S2P Require Import Prelude JS.
Local Open Scope string_scope.
Local Open Scope list_scope.
Local Open Scope Z_scope.

Module BudgetScript.

Definition DAY : Z := 86400000.
Definition dayOf (now : Z) : Z := now / DAY.

(** [KEYS[1]], the ledger of an issuer, and [KEYS[2]], the reservation of a request. *)
Record Ledger := { l_day : Z; l_gas : Z; l_tx : Z; l_expireAt : Z }.
Record Reservation := {
  r_issuer : string; r_request : string; r_day : Z; r_reserved : Z; r_reconciled : bool;
  r_used : option Z; r_ledgerGas : Z; r_ledgerTx : Z; r_expireAt : option Z }.
Record Redis := mkRedis { ledgers : gmap string Ledger; reservations : gmap string Reservation }.

(** A number of the reply: printed by Lua's [tostring], or read back from the hash. *)
Inductive Num := Shown (n : Z) | Stored (n : Z).
Inductive Reply := ROk (l : list Num) | RCode (code : string).

Inductive Op := OpStatus | OpReserve | OpReconcile.
#[export] Instance Op_eq_dec : EqDecision Op.
Proof. solve_decision. Defined.

Record Args := {
  b_op : Op; b_issuer : string; b_request : string; b_amount : Z;
  b_maxGas : Z; b_maxTx : Z; b_now : Z }.

(** Keys past their expiry do not exist. *)
Definition live (now : Z) (r : Reservation) : Prop :=
  match r_expireAt r with Some t => now ≤ t | None => True end.
#[export] Instance live_dec now r : Decision (live now r).
Proof. unfold live. destruct (r_expireAt r); apply _. Defined.
Definition expireKeys (now : Z) (db : Redis) : Redis :=
  mkRedis (filter (λ kv, now ≤ l_expireAt kv.2) (ledgers db))
          (filter (λ kv, live now kv.2) (reservations db)).

(** The totals of the day, zero when the ledger is of another day. *)
Definition totals (a : Args) (db : Redis) : Z * Z :=
  match ledgers db !! b_issuer a with
  | Some l => if l_day l =? dayOf (b_now a) then (l_gas l, l_tx l) else (0, 0)
  | None => (0, 0)
  end.

Definition reserve (a : Args) (db : Redis) : Reply * Redis :=
  let day := dayOf (b_now a) in
  match reservations db !! b_request a with
  | Some r =>
      if negb (String.eqb (r_issuer r) (b_issuer a)) || negb (r_reserved r =? b_amount a)
      then (RCode "BUDGET_REQUEST_CONFLICT", db)
      else (ROk [Stored (r_ledgerGas r); Stored (r_ledgerTx r)], db)
  | None =>
      if (b_amount a <=? 0) || (b_maxGas a <? b_amount a) then (RCode "DAILY_GAS_BUDGET_EXCEEDED", db)
      else if b_maxGas a <? (totals a db).1 + b_amount a then (RCode "DAILY_GAS_BUDGET_EXCEEDED", db)
      else if b_maxTx a <? (totals a db).2 + 1 then (RCode "DAILY_TRANSACTION_BUDGET_EXCEEDED", db)
      else
        let gas := (totals a db).1 + b_amount a in
        let tx := (totals a db).2 + 1 in
        (ROk [Shown gas; Shown tx],
         mkRedis
           (<[b_issuer a := {| l_day := day; l_gas := gas; l_tx := tx; l_expireAt := (day + 3) * DAY |}]> (ledgers db))
           (<[b_request a := {| r_issuer := b_issuer a; r_request := b_request a; r_day := day;
               r_reserved := b_amount a; r_reconciled := false; r_used := None;
               r_ledgerGas := gas; r_ledgerTx := tx; r_expireAt := None |}]> (reservations db)))
  end.

(** The reservation after [HSET reconciled, used] and [PEXPIRE]. *)
Definition settled (now amount : Z) (r : Reservation) : Reservation := {|
  r_issuer := r_issuer r; r_request := r_request r; r_day := r_day r; r_reserved := r_reserved r;
  r_reconciled := true; r_used := Some amount; r_ledgerGas := r_ledgerGas r; r_ledgerTx := r_ledgerTx r;
  r_expireAt := Some (now + 172800000) |}.

Definition reconcile (a : Args) (db : Redis) : Reply * Redis :=
  let day := dayOf (b_now a) in
  match reservations db !! b_request a with
  | None => (RCode "BUDGET_RESERVATION_MISSING", db)
  | Some r =>
      if negb (String.eqb (r_issuer r) (b_issuer a)) then (RCode "BUDGET_REQUEST_CONFLICT", db)
      else if r_reserved r <? b_amount a then (RCode "BUDGET_ACTUAL_EXCEEDS_RESERVATION", db)
      else if r_reconciled r then
        if bool_decide (r_used r = Some (b_amount a)) then (ROk [], db)
        else (RCode "BUDGET_REQUEST_CONFLICT", db)
      else
        let rs := <[b_request a := settled (b_now a) (b_amount a) r]> (reservations db) in
        match ledgers db !! b_issuer a with
        | Some l =>
            if (l_day l =? day) && (r_day r =? day) then
              let gas := l_gas l - r_reserved r + b_amount a in
              if gas <? 0 then (RCode "BUDGET_STATE_INVALID", db)
              else (ROk [], mkRedis (<[b_issuer a := {| l_day := l_day l; l_gas := gas; l_tx := l_tx l;
                                          l_expireAt := l_expireAt l |}]> (ledgers db)) rs)
            else (ROk [], mkRedis (ledgers db) rs)
        | None => (ROk [], mkRedis (ledgers db) rs)
        end
  end.

(** The whole script; the client passes integers only. *)
Definition script (a : Args) (db0 : Redis) : Reply * Redis :=
  let db := expireKeys (b_now a) db0 in
  match b_op a with
  | OpStatus => (ROk [Shown (totals a db).1; Shown (totals a db).2], db)
  | op =>
      if b_amount a <? 0 then (RCode "INVALID_BUDGET_INPUT", db)
      else if bool_decide (op = OpReserve) then reserve a db else reconcile a db
  end.

(** * The charge of a day *)

(** What a reservation counts for: what was used once that is known, what was reserved until then. *)
Definition charge (r : Reservation) : Z :=
  if r_reconciled r then default 0 (r_used r) else r_reserved r.
Definition counts (i : string) (d : Z) (r : Reservation) : bool :=
  String.eqb (r_issuer r) i && (r_day r =? d).
Definition dayGas (i : string) (d : Z) (rs : gmap string Reservation) : Z :=
  sumMap (λ r, if counts i d r then charge r else 0) rs.
Definition dayTx (i : string) (d : Z) (rs : gmap string Reservation) : Z :=
  sumMap (λ r, if counts i d r then 1 else 0) rs.

Section bound.
Context (maxGas maxTx : Z).
Hypothesis maxGas_pos : 0 ≤ maxGas.
Hypothesis maxTx_pos : 0 ≤ maxTx.

(** The invariant, at time [t]. *)
Record Inv (t : Z) (db : Redis) : Prop := {
  inv_ledger : ∀ i l, ledgers db !! i = Some l →
    0 ≤ l_gas l ≤ maxGas ∧ 0 ≤ l_tx l ≤ maxTx ∧ l_expireAt l = (l_day l + 3) * DAY ∧ l_day l ≤ dayOf t
    ∧ dayGas i (l_day l) (reservations db) ≤ l_gas l ∧ dayTx i (l_day l) (reservations db) ≤ l_tx l;
  inv_charge : ∀ k r, reservations db !! k = Some r → 0 ≤ charge r ≤ r_reserved r;
  inv_day : ∀ k r, reservations db !! k = Some r →
    (∃ l, ledgers db !! r_issuer r = Some l ∧ r_day r ≤ l_day l) ∨ (r_day r + 3) * DAY < t;
  inv_bound : ∀ i d, dayGas i d (reservations db) ≤ maxGas ∧ dayTx i d (reservations db) ≤ maxTx }.

Lemma dayOf_mono t t' : t ≤ t' → dayOf t ≤ dayOf t'.
Proof. intros. apply Z.div_le_mono; [done|lia]. Qed.
Lemma dayOf_bounds t : dayOf t * DAY ≤ t < (dayOf t + 1) * DAY.
Proof. unfold dayOf, DAY. pose proof (Z.div_mod t 86400000). pose proof (Z.mod_pos_bound t 86400000). lia. Qed.

Lemma budget_empty_Inv t : Inv t (mkRedis ∅ ∅).
Proof. by split. Qed.

Lemma expire_day t i d db : (∀ k r, reservations db !! k = Some r → 0 ≤ charge r) →
  dayGas i d (reservations (expireKeys t db)) ≤ dayGas i d (reservations db) ∧ dayTx i d (reservations (expireKeys t db)) ≤ dayTx i d (reservations db).
Proof.
  intros Hc. unfold dayGas, dayTx. simpl. split.
  - apply sumMap_filter. intros k r Hk. specialize (Hc k r Hk). destruct (counts i d r); lia.
  - apply sumMap_filter. intros k r Hk. destruct (counts i d r); lia.
Qed.

Lemma budget_expire_Inv t t' db : t ≤ t' → Inv t db → Inv t' (expireKeys t' db).
Proof.
  intros Ht [Hl Hc Hd Hb].
  assert (∀ i d, dayGas i d (reservations (expireKeys t' db)) ≤ dayGas i d (reservations db) ∧ dayTx i d (reservations (expireKeys t' db)) ≤ dayTx i d (reservations db)) as Hle.
  { intros i d. apply expire_day. intros k r Hk. by apply (Hc k r). }
  unfold expireKeys in Hle |- *. cbn [ledgers reservations] in Hle. split; cbn [ledgers reservations].
  - intros i l [Hi _]%map_lookup_filter_Some. destruct (Hl i l Hi) as (?&?&?&?&?&?).
    pose proof (Hle i (l_day l)). pose proof (dayOf_mono t t' Ht). split_and!; lia.
  - intros k r [Hk _]%map_lookup_filter_Some. by eapply Hc.
  - intros k r [Hk _]%map_lookup_filter_Some. destruct (Hd k r Hk) as [(l & Hi & Hle')|?]; [|right; lia].
    destruct (decide (t' ≤ l_expireAt l)) as [Hlive|Hdead].
    + left. exists l. split; [|done]. by apply map_lookup_filter_Some.
    + right. destruct (Hl _ _ Hi) as (_&_&He&_). unfold DAY in *. lia.
  - intros i d. pose proof (Hle i d). pose proof (Hb i d). lia.
Qed.

Lemma totals_spec a db : Inv (b_now a) db →
  0 ≤ (totals a db).1 ≤ maxGas ∧ 0 ≤ (totals a db).2 ≤ maxTx ∧
  dayGas (b_issuer a) (dayOf (b_now a)) (reservations db) ≤ (totals a db).1 ∧
  dayTx (b_issuer a) (dayOf (b_now a)) (reservations db) ≤ (totals a db).2.
Proof.
  intros [Hl _ Hd _]. set (i := b_issuer a). set (D := dayOf (b_now a)).
  pose proof (dayOf_bounds (b_now a)) as HD. fold D in HD.
  assert ((∀ k r, reservations db !! k = Some r → counts i D r = false) →
          dayGas i D (reservations db) = 0 ∧ dayTx i D (reservations db) = 0) as Hzero.
  { intros Hc. unfold dayGas, dayTx. split; apply sumMap_zero; intros k r Hk; by rewrite (Hc k r Hk). }
  assert (∀ r, counts i D r = true → r_issuer r = i ∧ r_day r = D) as Hcounts.
  { intros r. unfold counts. rewrite andb_true_iff, String.eqb_eq, Z.eqb_eq. done. }
  unfold totals. fold i D. destruct (ledgers db !! i) as [l|] eqn:Hi.
  - destruct (Hl i l Hi) as (?&?&?&Hday&Hg&Ht). destruct (Z.eqb_spec (l_day l) D) as [Heq|Hne].
    + rewrite Heq in Hg, Ht. simpl. lia.
    + destruct Hzero as [-> ->]; [|simpl; lia]. intros k r Hk.
      destruct (counts i D r) eqn:Hct; [|done]. destruct (Hcounts r Hct) as [Hri Hrd].
      destruct (Hd k r Hk) as [(l' & Hl' & ?)|?]; [|unfold DAY in *; lia].
      rewrite Hri, Hi in Hl'. simplify_eq. lia.
  - destruct Hzero as [-> ->]; [|simpl; lia]. intros k r Hk.
    destruct (counts i D r) eqn:Hct; [|done]. destruct (Hcounts r Hct) as [Hri Hrd].
    destruct (Hd k r Hk) as [(l' & Hl' & ?)|?]; [|unfold DAY in *; lia].
    rewrite Hri, Hi in Hl'. done.
Qed.

Lemma day_fresh i d db k r : reservations db !! k = None →
  dayGas i d (<[k := r]> (reservations db)) = (if counts i d r then charge r else 0) + dayGas i d (reservations db)
  ∧ dayTx i d (<[k := r]> (reservations db)) = (if counts i d r then 1 else 0) + dayTx i d (reservations db).
Proof. intros Hk. unfold dayGas, dayTx. simpl. by rewrite !sumMap_fresh. Qed.

Lemma day_settled i d db k r now amount : reservations db !! k = Some r →
  dayGas i d (<[k := settled now amount r]> (reservations db))
  = (if counts i d r then amount - charge r else 0) + dayGas i d (reservations db)
  ∧ dayTx i d (<[k := settled now amount r]> (reservations db)) = dayTx i d (reservations db).
Proof.
  intros Hk. unfold dayGas, dayTx. simpl. rewrite !(sumMap_update _ _ k r) by done.
  change (counts i d (settled now amount r)) with (counts i d r).
  change (charge (settled now amount r)) with amount. destruct (counts i d r); lia.
Qed.

Lemma counts_true i d r : counts i d r = true ↔ r_issuer r = i ∧ r_day r = d.
Proof. unfold counts. by rewrite andb_true_iff, String.eqb_eq, Z.eqb_eq. Qed.

Lemma reserve_Inv a db : b_maxGas a = maxGas → b_maxTx a = maxTx →
  Inv (b_now a) db → Inv (b_now a) (reserve a db).2.
Proof.
  intros Hmg Hmt HI. unfold reserve. destruct (reservations db !! b_request a) as [r|] eqn:Hk.
  { by destruct (_ || _). }
  rewrite Hmg, Hmt. destruct (_ || _) eqn:Ham; [done|]. apply orb_false_iff in Ham as [Ham1%Z.leb_gt Ham2%Z.ltb_ge].
  destruct (Z.ltb_spec maxGas ((totals a db).1 + b_amount a)); [done|].
  destruct (Z.ltb_spec maxTx ((totals a db).2 + 1)); [done|]. cbv zeta. cbn [snd].
  destruct (totals_spec a db HI) as ([Hg0 Hg1] & [Ht0 Ht1] & Hdg & Hdt).
  set (g := (totals a db).1) in *. set (x := (totals a db).2) in *. clearbody g x.
  set (r := {| r_issuer := _ |}). set (D := dayOf (b_now a)) in *. set (i := b_issuer a) in *.
  assert (∀ i' d, counts i' d r = true → i' = i ∧ d = D) as Hcnt.
  { intros i' d [<- <-]%counts_true. done. }
  destruct HI as [Hl Hc Hd Hb]. split; cbn [ledgers reservations].
  - intros i' l [[<- <-]|[Hne Hi]]%lookup_insert_Some.
    + cbn [l_gas l_tx l_day l_expireAt]. destruct (day_fresh i D db _ r Hk) as [-> ->].
      assert (charge r = b_amount a) as -> by done.
      destruct (counts i D r); split_and!; lia.
    + destruct (Hl i' l Hi) as (?&?&?&?&?&?).
      edestruct (day_fresh i' (l_day l) db) as [-> ->]; [exact Hk|].
      destruct (counts i' (l_day l) r) eqn:E; [|split_and!; lia]. by destruct (Hcnt _ _ E) as [?%symmetry _].
  - intros k r' [[<- <-]|[Hne Hr]]%lookup_insert_Some; [|by eapply Hc]. unfold charge; cbn. lia.
  - intros k r' [[<- <-]|[Hne Hr]]%lookup_insert_Some.
    + left. eexists. split; [apply lookup_insert_eq|]. cbn. lia.
    + destruct (Hd k r' Hr) as [(l & Hi & Hle)|?]; [left|by right].
      destruct (decide (r_issuer r' = i)) as [->|Hne'].
      * eexists. split; [apply lookup_insert_eq|]. cbn. destruct (Hl _ _ Hi) as (?&?&?&?&?). fold D in H4. lia.
      * exists l. by rewrite lookup_insert_ne.
  - intros i' d. edestruct (day_fresh i' d db) as [-> ->]; [exact Hk|]. specialize (Hb i' d).
    destruct (counts i' d r) eqn:E; [|lia]. destruct (Hcnt _ _ E) as [-> ->].
    assert (charge r = b_amount a) as -> by done. lia.
Qed.

Lemma reconcile_Inv a db : 0 ≤ b_amount a → Inv (b_now a) db → Inv (b_now a) (reconcile a db).2.
Proof.
  intros Ham HI. unfold reconcile. destruct (reservations db !! b_request a) as [r|] eqn:Hk; [|done].
  destruct (String.eqb_spec (r_issuer r) (b_issuer a)) as [Hri|]; [|done]. cbn [negb].
  destruct (Z.ltb_spec (r_reserved r) (b_amount a)); [done|].
  destruct (r_reconciled r) eqn:Hrec; [by destruct (bool_decide _)|].
  assert (charge r = r_reserved r) as Hch by (unfold charge; by rewrite Hrec).
  pose proof HI as [Hl Hc Hd Hb].
  set (rs := <[b_request a := settled (b_now a) (b_amount a) r]> (reservations db)).
  assert (∀ i d, dayGas i d rs = (if counts i d r then b_amount a - charge r else 0) + dayGas i d (reservations db)
    ∧ dayTx i d rs = dayTx i d (reservations db)) as Hday by (intros; by apply day_settled).
  assert (∀ ls, (∀ i l, ls !! i = Some l → ∃ l0, ledgers db !! i = Some l0 ∧ l_day l = l_day l0
            ∧ l_expireAt l = l_expireAt l0 ∧ l_tx l = l_tx l0 ∧ 0 ≤ l_gas l ≤ l_gas l0
            ∧ dayGas i (l_day l) rs ≤ l_gas l) →
          (∀ i l0, ledgers db !! i = Some l0 → ∃ l, ls !! i = Some l ∧ l_day l = l_day l0) →
          Inv (b_now a) (mkRedis ls rs)) as Hgo.
  { intros ls H1 H2. split; cbn [ledgers reservations].
    - intros i l Hi. destruct (H1 i l Hi) as (l0 & Hi0 & Hd0 & He & Ht & ? & ?).
      destruct (Hl i l0 Hi0) as (?&?&?&?&?&?). destruct (Hday i (l_day l)) as [_ ->].
      rewrite Hd0, He, Ht. split_and!; try lia; congruence.
    - intros k r' [[<- <-]|[_ Hr]]%lookup_insert_Some; [|by eapply Hc]. unfold charge; cbn. lia.
    - assert (∀ k r', reservations db !! k = Some r' →
        (∃ l, ls !! r_issuer r' = Some l ∧ r_day r' ≤ l_day l) ∨ (r_day r' + 3) * DAY < b_now a) as Hd'.
      { intros k r' Hr. destruct (Hd k r' Hr) as [(l0 & Hi & Hle)|?]; [left|by right].
        destruct (H2 _ _ Hi) as (l & Hl' & Heq). exists l. split; [done|lia]. }
      intros k r' [[<- <-]|[_ Hr]]%lookup_insert_Some; [|by apply (Hd' k)]. by apply (Hd' _ r Hk).
    - intros i d. destruct (Hday i d) as [-> ->]. specialize (Hb i d). destruct (counts i d r); lia. }
  assert (∀ i l, ledgers db !! i = Some l → dayGas i (l_day l) rs ≤ l_gas l) as Hkeep.
  { intros i l Hi. destruct (Hday i (l_day l)) as [-> _]. destruct (Hl i l Hi) as (_&_&_&_&?&_).
    destruct (counts _ _ _); lia. }
  assert (Inv (b_now a) (mkRedis (ledgers db) rs)) as Hsame.
  { apply Hgo; [|eauto]. intros i l Hi. exists l. destruct (Hl i l Hi) as (?&_). split_and!; try done; [lia..|by apply Hkeep]. }
  destruct (ledgers db !! b_issuer a) as [l|] eqn:Hi; [|done].
  destruct ((l_day l =? _) && _) eqn:Hsd; [|done]. cbv zeta.
  destruct (Z.ltb_spec (l_gas l - r_reserved r + b_amount a) 0); [done|]. cbn [snd].
  apply andb_true_iff in Hsd as [Hl1%Z.eqb_eq Hl2%Z.eqb_eq]. apply Hgo.
  - intros i' l' [[<- <-]|[Hne Hi']]%lookup_insert_Some.
    + exists l. cbn. split_and!; try done; [lia..|].
      destruct (Hday (b_issuer a) (l_day l)) as [-> _].
      rewrite (proj2 (counts_true _ _ _)) by (split; congruence).
      destruct (Hl _ _ Hi) as (_&_&_&_&?&_). lia.
    + exists l'. destruct (Hl i' l' Hi') as (?&_). split_and!; try done; [lia..|].
      by apply Hkeep.
  - intros i' l0 Hi0. destruct (decide (i' = b_issuer a)) as [->|].
    + eexists. split; [apply lookup_insert_eq|]. cbn. congruence.
    + exists l0. by rewrite lookup_insert_ne.
Qed.
End bound.

Definition runAll (l : list Args) : Redis := fold_left (λ db a, (script a db).2) l (mkRedis ∅ ∅).

Lemma script_Inv maxGas maxTx t a db : 0 ≤ maxGas → 0 ≤ maxTx → b_maxGas a = maxGas → b_maxTx a = maxTx →
  t ≤ b_now a → Inv maxGas maxTx t db → Inv maxGas maxTx (b_now a) (script a db).2.
Proof.
  intros Hg Hx Hmg Hmx Ht HI%(budget_expire_Inv maxGas maxTx t (b_now a)); [|done]. unfold script.
  destruct (b_op a); [done| |]; (destruct (Z.ltb_spec (b_amount a) 0); [done|]); case_bool_decide; try done.
  - by apply reserve_Inv.
  - by apply reconcile_Inv.
Qed.

Lemma budget_runAll_Inv maxGas maxTx l t db : 0 ≤ maxGas → 0 ≤ maxTx →
  Forall (λ a, b_maxGas a = maxGas ∧ b_maxTx a = maxTx) l → Sorted (λ a b, b_now a ≤ b_now b) l →
  (∀ a, head l = Some a → t ≤ b_now a) → Inv maxGas maxTx t db →
  ∃ t', Inv maxGas maxTx t' (fold_left (λ db a, (script a db).2) l db).
Proof.
  intros Hg Hx. revert t db. induction l as [|a l IH]; intros t db Hf Hs Ht HI; [by exists t|]. simpl.
  apply Forall_cons in Hf as [[Ha1 Ha2] Hf]. apply Sorted_inv in Hs as [Hs Hh].
  apply (IH (b_now a)); [done..| |].
  - intros b Hb. destruct l; simplify_eq/=. by inversion Hh.
  - apply (script_Inv _ _ t); try done. by apply Ht.
Qed.

(** Over every history of reservations, settlements and status reads with the
    same limits and a clock that does not run backwards, what the live reservations of
    one issuer for one UTC day count for (the gas used once settled, the gas reserved
    until then) never exceeds the daily gas limit, their number never exceeds the
    transaction limit, and the ledger of the issuer is an upper bound of both. *)
Theorem budget_daily_bound (maxGas maxTx : Z) (l : list Args) (i : string) (d : Z) :
  0 ≤ maxGas → 0 ≤ maxTx →
  Forall (λ a, b_maxGas a = maxGas ∧ b_maxTx a = maxTx) l → Sorted (λ a b, b_now a ≤ b_now b) l →
  dayGas i d (reservations (runAll l)) ≤ maxGas ∧ dayTx i d (reservations (runAll l)) ≤ maxTx ∧
  (∀ g, ledgers (runAll l) !! i = Some g →
     dayGas i (l_day g) (reservations (runAll l)) ≤ l_gas g ≤ maxGas ∧
     dayTx i (l_day g) (reservations (runAll l)) ≤ l_tx g ≤ maxTx).
Proof.
  intros Hg Hx Hf Hs. unfold runAll.
  destruct (budget_runAll_Inv maxGas maxTx l (match l with a :: _ => b_now a | [] => 0 end) (mkRedis ∅ ∅) Hg Hx Hf Hs) as [t [HL _ _ HB]].
  - intros a. destruct l; [done|]. by intros [= ->].
  - by apply budget_empty_Inv.
  - destruct (HB i d). split_and!; [done..|]. intros g Hi. destruct (HL i g Hi) as (?&?&?&?&?&?). lia.
Qed.

Definition exCall (op : Op) (request : string) (amount now : Z) : Args := {|
  b_op := op; b_issuer := "issuer"; b_request := request; b_amount := amount;
  b_maxGas := 100; b_maxTx := 3; b_now := now |}.
Definition exCalls : list Args :=
  [exCall OpReserve "r1" 60 1000; exCall OpReserve "r2" 60 2000; exCall OpReconcile "r1" 25 3000;
   exCall OpReserve "r2" 60 4000; exCall OpReserve "r2" 60 5000].
Lemma exCalls_total : dayGas "issuer" 0 (reservations (runAll exCalls)) = 85
  ∧ (script (exCall OpReserve "r2" 60 2000) (runAll (take 1 exCalls))).1 = RCode "DAILY_GAS_BUDGET_EXCEEDED".
Proof. split; vm_compute; reflexivity. Qed.

Lemma budget_daily_bound_witness :
  dayGas "issuer" 0 (reservations (runAll exCalls)) ≤ 100 ∧ dayTx "issuer" 0 (reservations (runAll exCalls)) ≤ 3.
Proof.
  destruct (budget_daily_bound 100 3 exCalls "issuer" 0) as (H1 & H2 & _).
  - lia.
  - lia.
  - repeat constructor.
  - repeat constructor; simpl; lia.
  - by split.
Defined.

(** ** What a repeated reservation finds *)

Lemma reserve_fresh a db l : b_op a = OpReserve → reservations (expireKeys (b_now a) db) !! b_request a = None →
  (script a db).1 = ROk l →
  ∃ r, reservations (script a db).2 !! b_request a = Some r ∧ r_issuer r = b_issuer a
    ∧ r_reserved r = b_amount a ∧ r_reconciled r = false ∧ r_expireAt r = None
    ∧ l = [Shown (r_ledgerGas r); Shown (r_ledgerTx r)]
    ∧ r_ledgerGas r = (totals a (expireKeys (b_now a) db)).1 + b_amount a
    ∧ r_ledgerTx r = (totals a (expireKeys (b_now a) db)).2 + 1 ∧ r_ledgerTx r ≤ b_maxTx a
    ∧ 0 < b_amount a ∧ r_day r = dayOf (b_now a)
    ∧ ∀ i d, dayGas i d (reservations (script a db).2)
        = (if counts i d r then b_amount a else 0) + dayGas i d (reservations (expireKeys (b_now a) db)).
Proof.
  intros Hop Hk. unfold script. rewrite Hop. destruct (b_amount a <? 0); [done|]. cbn [bool_decide].
  change (bool_decide (OpReserve = OpReserve)) with true. cbv iota. unfold reserve. rewrite Hk.
  destruct (_ || _) eqn:Ham; [done|]. apply orb_false_iff in Ham as [?%Z.leb_gt _].
  destruct (b_maxGas a <? _); [done|]. destruct (Z.ltb_spec (b_maxTx a) ((totals a (expireKeys (b_now a) db)).2 + 1)); [done|]. cbv zeta.
  cbn [fst snd reservations].
  intros [= <-]. eexists. split; [apply lookup_insert_eq|]. split_and!; try done.
  intros i d. by edestruct (day_fresh i d (expireKeys (b_now a) db)) as [-> _].
Qed.

Lemma reserve_again a db r : b_op a = OpReserve → 0 ≤ b_amount a →
  reservations (expireKeys (b_now a) db) !! b_request a = Some r →
  r_issuer r = b_issuer a → r_reserved r = b_amount a →
  script a db = (ROk [Stored (r_ledgerGas r); Stored (r_ledgerTx r)], expireKeys (b_now a) db).
Proof.
  intros Hop Ham Hk Hi Hr. unfold script. rewrite Hop. rewrite (proj2 (Z.ltb_ge _ _)) by done.
  change (bool_decide (OpReserve = OpReserve)) with true. cbv iota. unfold reserve. rewrite Hk, Hi, Hr.
  by rewrite String.eqb_refl, Z.eqb_refl.
Qed.
End BudgetScript.

Module BudgetClient.
Import BudgetScript.

Record IssuanceBudgetStatus := { reservedGas : Z; transactionCount : Z }.
Record Config := {
  url : string; token : string; secret : string; namespace : option string;
  dailyGasLimit : Z; dailyTransactionLimit : Z }.
Record Client := { c_endpoint : string; c_gasLimit : Z; c_transactionLimit : Z }.

Inductive Net := NetOk (now : Z) | NetLost (now : Z) | NetDown.
Record Server := { slot : Redis; net : list Net }.

Definition BudgetError (code : string) : exn := EBudget code.

Definition safeInteger (value : Z) (name : string) : outcome Z :=
  if (value <? 0) || (MAX_SAFE_INTEGER <? value) then Throw (BudgetError ("INVALID_" +:+ name)) else Ok value.

(** [/^[a-zA-Z0-9_-]{1,64}$/]. *)
Definition isNamespace (s : string) : bool :=
  let n := String.length s in
  (1 <=? n)%nat && (n <=? 64)%nat &&
  allChars (λ c, let n := nat_of_ascii (lower_ascii c) in
    isDigit c || ((97 <=? n)%nat && (n <=? 122)%nat) || (n =? 95)%nat || (n =? 45)%nat) s.

(** [BigInt(text)] and [Number(text)] of a number in a reply. Lua prints with [%.14g]: from [1e14]
    on in exponent notation, rounded to fourteen digits, which [BigInt] refuses; a count is at most
    [Number.MAX_SAFE_INTEGER], below [1e16]. *)
Definition round14 (n : Z) : Z :=
  let p := if n <? 10 ^ 15 then 10 else 100 in
  let q := n / p in let r := 2 * (n mod p) in
  (if (p <? r) || ((r =? p) && Z.odd q) then q + 1 else q) * p.
Definition bigintOf (n : Num) : option Z :=
  match n with Stored n => Some n | Shown n => if Z.abs n <? 10 ^ 14 then Some n else None end.
Definition numberOf (n : Num) : Z :=
  match n with Stored n => n | Shown n => if Z.abs n <? 10 ^ 14 then n else round14 n end.

Definition statusResult (r : Reply) : outcome IssuanceBudgetStatus :=
  match r with
  | RCode c => Throw (BudgetError (if String.eqb c "" then "BUDGET_UNAVAILABLE" else c))
  | ROk [g; t] =>
      match bigintOf g with
      | Some gas =>
          let transactions := numberOf t in
          if (gas <? 0) || negb (isSafeInteger transactions) || (transactions <? 0)
          then Throw (BudgetError "BUDGET_STATE_INVALID")
          else Ok {| reservedGas := gas; transactionCount := transactions |}
      | None => Throw (BudgetError "BUDGET_STATE_INVALID")
      end
  | ROk _ => Throw (BudgetError "BUDGET_STATE_INVALID")
  end.

Definition ZERO_ADDRESS : string := "0x0000000000000000000000000000000000000000".
Definition ZERO_REQUEST : string := "0x0000000000000000000000000000000000000000000000000000000000000000".

Section client.
(** The URL parser with the refusals of the constructor, the address library, and the keyed digest. *)
Context (parseUrl : string → option string) (isAddress : string → bool) (getAddress : string → string).
Context (hmac : string → string).

Definition construct (c : Config) : outcome Client :=
  match parseUrl (url c) with
  | None => Throw (BudgetError "INVALID_BUDGET_CONFIG")
  | Some endpoint =>
      if String.eqb (token c) "" || (String.length (secret c) <? 32)%nat
         || negb (isNamespace (default "proofmark" (namespace c)))
         || negb (isSafeInteger (dailyTransactionLimit c)) || (dailyTransactionLimit c <? 1)
      then Throw (BudgetError "INVALID_BUDGET_CONFIG")
      else
        let? gas := safeInteger (dailyGasLimit c) "BUDGET_CONFIG" in
        if gas <? 1 then Throw (BudgetError "INVALID_BUDGET_CONFIG")
        else Ok {| c_endpoint := endpoint; c_gasLimit := gas; c_transactionLimit := dailyTransactionLimit c |}
  end.

Definition digest (kind value : string) : string := hmac (kind +:+ "|" +:+ toLowerCase value).

Definition argsOf (c : Client) (op : Op) (issuer requestId : string) (amount now : Z) : Args := {|
  b_op := op; b_issuer := digest "issuer" (getAddress issuer); b_request := digest "request" requestId;
  b_amount := amount; b_maxGas := c_gasLimit c; b_maxTx := c_transactionLimit c; b_now := now |}.

Definition run (c : Client) (op : Op) (issuerInput requestId : string) (amount : Z) : M Server Reply :=
  require (isAddress issuerInput && negb (String.eqb issuerInput ZERO_ADDRESS) && isBytes32 requestId)
    (BudgetError "INVALID_BUDGET_INPUT") ;;;
  let! amount := lift_out (safeInteger amount "BUDGET_INPUT") in
  λ srv,
    match net srv with
    | NetOk now :: net =>
        let '(r, db) := script (argsOf c op issuerInput requestId amount now) (slot srv) in
        (Ok r, {| slot := db; net := net |})
    | NetLost now :: net =>
        (Throw (BudgetError "BUDGET_UNAVAILABLE"),
         {| slot := (script (argsOf c op issuerInput requestId amount now) (slot srv)).2; net := net |})
    | NetDown :: net => (Throw (BudgetError "BUDGET_UNAVAILABLE"), {| slot := slot srv; net := net |})
    | [] => (Throw (BudgetError "BUDGET_UNAVAILABLE"), srv)
    end.

Definition reserve (c : Client) (requestId issuer : string) (gasLimit : Z) : M Server IssuanceBudgetStatus :=
  let! r := run c OpReserve issuer requestId gasLimit in lift_out (statusResult r).
Definition reconcile (c : Client) (requestId issuer : string) (gasUsed : Z) : M Server unit :=
  let! r := run c OpReconcile issuer requestId gasUsed in
  match r with
  | RCode code => throw (BudgetError (if String.eqb code "" then "BUDGET_UNAVAILABLE" else code))
  | ROk _ => ret tt
  end.
Definition status (c : Client) (issuer : string) : M Server IssuanceBudgetStatus :=
  let! r := run c OpStatus issuer ZERO_REQUEST 0 in lift_out (statusResult r).

Lemma construct_limits cfg c : construct cfg = Ok c →
  1 ≤ c_gasLimit c ≤ MAX_SAFE_INTEGER ∧ 1 ≤ c_transactionLimit c ≤ MAX_SAFE_INTEGER.
Proof.
  unfold construct. destruct (parseUrl (url cfg)); [|done]. destruct (_ || _) eqn:E; [done|].
  rewrite !orb_false_iff, !negb_false_iff, isSafeInteger_spec, Z.ltb_ge in E. unfold safeInteger.
  destruct (_ || _) eqn:E2; [done|]. apply orb_false_iff in E2 as [_ E2%Z.ltb_ge]. cbn [obind].
  destruct (Z.ltb_spec (dailyGasLimit cfg) 1); [done|]. intros [= <-]. cbn. lia.
Qed.

Lemma run_net c op issuer id amount srv :
  isAddress issuer && negb (String.eqb issuer ZERO_ADDRESS) && isBytes32 id = true →
  0 ≤ amount ≤ MAX_SAFE_INTEGER →
  run c op issuer id amount srv =
    match net srv with
    | NetOk now :: net =>
        let '(r, db) := script (argsOf c op issuer id amount now) (slot srv) in
        (Ok r, {| slot := db; net := net |})
    | NetLost now :: net =>
        (Throw (BudgetError "BUDGET_UNAVAILABLE"),
         {| slot := (script (argsOf c op issuer id amount now) (slot srv)).2; net := net |})
    | NetDown :: net => (Throw (BudgetError "BUDGET_UNAVAILABLE"), {| slot := slot srv; net := net |})
    | [] => (Throw (BudgetError "BUDGET_UNAVAILABLE"), srv)
    end.
Proof.
  intros Hv [H1%Z.ltb_ge H2%Z.ltb_ge]. unfold run. rewrite Hv. unfold bind, require, ret, lift_out.
  unfold safeInteger. by rewrite H1, H2.
Qed.

Lemma retry_once cfg c id issuer gas t t1 t2 rest db :
  construct cfg = Ok c →
  isAddress issuer && negb (String.eqb issuer ZERO_ADDRESS) && isBytes32 id = true →
  0 ≤ gas ≤ MAX_SAFE_INTEGER →
  Inv (c_gasLimit c) (c_transactionLimit c) t db → t ≤ t1 →
  let a := argsOf c OpReserve issuer id gas t1 in
  reservations (expireKeys t1 db) !! b_request a = None →
  (∀ code, (script a db).1 ≠ RCode code) →
  let p := reserve c id issuer gas {| slot := db; net := NetLost t1 :: NetOk t2 :: rest |} in
  p.1 = Throw (BudgetError "BUDGET_UNAVAILABLE") ∧
  reserve c id issuer gas p.2 =
    (Ok {| reservedGas := (totals a (expireKeys t1 db)).1 + gas;
           transactionCount := (totals a (expireKeys t1 db)).2 + 1 |},
     {| slot := expireKeys t2 (slot p.2); net := rest |}) ∧
  ∀ i d, dayGas i d (reservations (slot p.2))
    = (if String.eqb (b_issuer a) i && (dayOf t1 =? d) then gas else 0)
      + dayGas i d (reservations (expireKeys t1 db)).
Proof.
  intros Hc Hv Hgas HI Ht a Hfresh Hcode. unfold reserve, bind.
  rewrite run_net by done. cbn [net slot]. cbv zeta. cbn [fst snd slot].
  split; [done|]. rewrite run_net by done. cbn [net slot].
  change (argsOf c OpReserve issuer id gas t1) with a.
  destruct (script a db).1 as [l|code] eqn:Hs; [|by destruct (Hcode code)].
  destruct (reserve_fresh a db l eq_refl Hfresh Hs) as (r & Hr & Hri & Hrr & Hrec & Hexp & Hl & Hg & Hx & Hmax & Hpos & Hrd & Hday).
  assert (reservations (expireKeys t2 (script a db).2) !! b_request a = Some r) as Hr2.
  { apply map_lookup_filter_Some. split; [done|]. unfold live. cbn. by rewrite Hexp. }
  rewrite (reserve_again (argsOf c OpReserve issuer id gas t2) _ r eq_refl (proj1 Hgas) Hr2 Hri Hrr).
  assert (Inv (c_gasLimit c) (c_transactionLimit c) t1 (expireKeys t1 db)) as HI0 by by eapply budget_expire_Inv.
  destruct (construct_limits _ _ Hc) as [? ?].
  destruct (totals_spec (c_gasLimit c) (c_transactionLimit c) ltac:(lia) ltac:(lia) a _ HI0) as (Hg0 & Hx0 & _).
  split.
  - unfold lift_out, statusResult, bigintOf, numberOf.
    change (b_maxTx a) with (c_transactionLimit c) in Hmax.
    assert (isSafeInteger (r_ledgerTx r) = true) as ->.
    { apply isSafeInteger_spec. change (b_now a) with t1 in *. unfold MAX_SAFE_INTEGER in *. lia. }
    change (b_now a) with t1 in *. change (b_amount a) with gas in *.
    rewrite !(proj2 (Z.ltb_ge _ _)) by lia. cbn [negb orb]. by rewrite Hg, Hx.
  - intros i d. rewrite Hday. unfold counts. by rewrite Hri, Hrd.
Qed.
End client.

(** A reservation that reached the ledger but whose acknowledgement was lost is
    reported unavailable; repeating the call succeeds, returns the totals of the first
    attempt, and charges nothing more: the first attempt added exactly its gas to the
    day of the issuer and the second changes nothing but expired keys. *)
Theorem budget_retry_once (parseUrl : string → option string) (isAddress : string → bool)
    (getAddress hmac : string → string) (cfg : Config) (c : Client) (id issuer : string) (gas t t1 t2 : Z)
    (rest : list Net) (db : Redis) :
  construct parseUrl cfg = Ok c →
  isAddress issuer && negb (String.eqb issuer ZERO_ADDRESS) && isBytes32 id = true →
  0 ≤ gas ≤ MAX_SAFE_INTEGER →
  Inv (c_gasLimit c) (c_transactionLimit c) t db → t ≤ t1 →
  let a := argsOf getAddress hmac c OpReserve issuer id gas t1 in
  reservations (expireKeys t1 db) !! b_request a = None →
  (∀ code, (script a db).1 ≠ RCode code) →
  let p := reserve isAddress getAddress hmac c id issuer gas
             {| slot := db; net := NetLost t1 :: NetOk t2 :: rest |} in
  p.1 = Throw (BudgetError "BUDGET_UNAVAILABLE") ∧
  reserve isAddress getAddress hmac c id issuer gas p.2 =
    (Ok {| reservedGas := (totals a (expireKeys t1 db)).1 + gas;
           transactionCount := (totals a (expireKeys t1 db)).2 + 1 |},
     {| slot := expireKeys t2 (slot p.2); net := rest |}) ∧
  ∀ i d, dayGas i d (reservations (slot p.2))
    = (if String.eqb (b_issuer a) i && (dayOf t1 =? d) then gas else 0)
      + dayGas i d (reservations (expireKeys t1 db)).
Proof. apply retry_once. Qed.

Definition exConfig : Config := {|
  url := "https://kv.example"; token := "token"; secret := "0123456789abcdef0123456789abcdef"; namespace := None;
  dailyGasLimit := 1000000; dailyTransactionLimit := 10 |}.
Definition exClient : Client := {| c_endpoint := "https://kv.example"; c_gasLimit := 1000000; c_transactionLimit := 10 |}.
Definition exIssuer : string := "0x00000000000000000000000000000000000000a1".

Lemma budget_retry_once_witness :
  (reserve (λ _, true) (λ s, s) (λ s, s) exClient ZERO_REQUEST exIssuer 21000
     (reserve (λ _, true) (λ s, s) (λ s, s) exClient ZERO_REQUEST exIssuer 21000
        {| slot := mkRedis ∅ ∅; net := [NetLost 1000; NetOk 2000] |}).2).1
  = Ok {| reservedGas := 21000; transactionCount := 1 |}.
Proof.
  destruct (budget_retry_once Some (λ _, true) (λ s, s) (λ s, s) exConfig exClient ZERO_REQUEST exIssuer 21000
    0 1000 2000 [] (mkRedis ∅ ∅)) as (_ & H & _).
  - vm_compute; reflexivity.
  - vm_compute; reflexivity.
  - unfold MAX_SAFE_INTEGER; lia.
  - apply budget_empty_Inv; simpl; lia.
  - lia.
  - vm_compute; reflexivity.
  - intros code. vm_compute. discriminate.
  - exact (f_equal fst H).
Defined.
End BudgetClient.
