(* ===== verification/Delivery.v ===== *)
(** Delivery of an issuance, [src/pipeline/issuance-delivery.ts]: one bounded step of the workflow
    that signs, journals, broadcasts and confirms a transaction, over the interfaces of the source
    (journal, transport, evidence sink, budget), whose operations may do anything to the world they
    share and may throw at any await.  A write-ahead discipline is proved of every execution:
    signed bytes leave only after they are saved, at most once per step, and a journaled
    transaction is never replaced before it is known to have reverted. *)

From Stdlib Require Import ZArith Lia Ascii String.
From stdpp Require Import base decidable option list gmap strings.
From S2P Require Import Prelude JS Journal.
Import JournalClient.
Local Open Scope string_scope.
Local Open Scope list_scope.
Local Open Scope Z_scope.
Local Open Scope js_scope.

Module Delivery.

Inductive IssuanceReceipt :=
  | RPending
  | RReverted (confirmation : SourceConfirmation)
  | RSuccess (confirmation : SourceConfirmation).

(** * The interfaces *)

Record IssuanceJournal (W : Type) := {
  j_get : string → M W (option JournalSnapshot);
  j_acquire : string → string → M W JournalSnapshot;
  j_save : JournalSnapshot → string → M W JournalSnapshot;
  j_release : string → string → M W unit }.
Arguments j_get {W} _ _.
Arguments j_acquire {W} _ _ _.
Arguments j_save {W} _ _ _.
Arguments j_release {W} _ _ _.

Record IssuanceTransport (W : Type) := {
  assertTarget : IssuanceEntry → M W unit;
  processed : IssuanceEntry → M W bool;
  prepare : IssuanceEntry → M W SignedIssuance;
  broadcast : SignedIssuance → M W unit;
  receipt : IssuanceEntry → M W IssuanceReceipt;
  materialized : IssuanceEntry → SourceConfirmation → M W bool }.
Arguments assertTarget {W} _ _.
Arguments processed {W} _ _.
Arguments prepare {W} _ _.
Arguments broadcast {W} _ _.
Arguments receipt {W} _ _.
Arguments materialized {W} _ _ _.

Record IssuanceEvidenceSink (W : Type) := {
  ev_put : IssuanceEntry → M W unit;
  ev_assertMayBroadcast : IssuanceEntry → M W unit;
  ev_sourceConfirmed : IssuanceEntry → SourceConfirmation → M W unit;
  ev_materialized : IssuanceEntry → M W unit }.
Arguments ev_put {W} _ _.
Arguments ev_assertMayBroadcast {W} _ _.
Arguments ev_sourceConfirmed {W} _ _ _.
Arguments ev_materialized {W} _ _.

(** Request (the transaction hash), issuer, gas. *)
Record IssuanceBudget (W : Type) := {
  bd_reserve : string → string → Z → M W unit;
  bd_reconcile : string → string → Z → M W unit }.
Arguments bd_reserve {W} _ _ _ _.
Arguments bd_reconcile {W} _ _ _ _.

Record Options (W : Type) := {
  retryFailed : bool; now : M W Z; budget : option (IssuanceBudget W) }.
Arguments retryFailed {W} _.
Arguments now {W} _.
Arguments budget {W} _.

(** * Mutation of an entry *)

Definition set_phase (p : IssuancePhase) (e : IssuanceEntry) : IssuanceEntry :=
  let '(mkEntry v i w f c pp rp ca pu _ tg o a er es tx rv sc ba ma le) := e in
  mkEntry v i w f c pp rp ca pu p tg o a er es tx rv sc ba ma le.
Definition set_evidenceStored (b : bool) (e : IssuanceEntry) : IssuanceEntry :=
  let '(mkEntry v i w f c pp rp ca pu p tg o a er _ tx rv sc ba ma le) := e in
  mkEntry v i w f c pp rp ca pu p tg o a er b tx rv sc ba ma le.
Definition set_transaction (t : option SignedIssuance) (e : IssuanceEntry) : IssuanceEntry :=
  let '(mkEntry v i w f c pp rp ca pu p tg o a er es _ rv sc ba ma le) := e in
  mkEntry v i w f c pp rp ca pu p tg o a er es t rv sc ba ma le.
Definition push_reverted (r : Reverted) (e : IssuanceEntry) : IssuanceEntry :=
  let '(mkEntry v i w f c pp rp ca pu p tg o a er es tx rv sc ba ma le) := e in
  mkEntry v i w f c pp rp ca pu p tg o a er es tx (rv ++ [r]) sc ba ma le.
Definition set_sourceConfirmation (s : option SourceConfirmation) (e : IssuanceEntry) : IssuanceEntry :=
  let '(mkEntry v i w f c pp rp ca pu p tg o a er es tx rv _ ba ma le) := e in
  mkEntry v i w f c pp rp ca pu p tg o a er es tx rv s ba ma le.
Definition set_broadcastAcceptedAt (t : option Z) (e : IssuanceEntry) : IssuanceEntry :=
  let '(mkEntry v i w f c pp rp ca pu p tg o a er es tx rv sc _ ma le) := e in
  mkEntry v i w f c pp rp ca pu p tg o a er es tx rv sc t ma le.
Definition set_materializedAt (t : option Z) (e : IssuanceEntry) : IssuanceEntry :=
  let '(mkEntry v i w f c pp rp ca pu p tg o a er es tx rv sc ba _ le) := e in
  mkEntry v i w f c pp rp ca pu p tg o a er es tx rv sc ba t le.
Definition set_lastError (s : option string) (e : IssuanceEntry) : IssuanceEntry :=
  let '(mkEntry v i w f c pp rp ca pu p tg o a er es tx rv sc ba ma _) := e in
  mkEntry v i w f c pp rp ca pu p tg o a er es tx rv sc ba ma s.

(** [/^\d+$/.test(s)] and [BigInt(s)]. *)
Fixpoint decimalFrom (acc : Z) (s : string) : option Z :=
  match s with
  | EmptyString => Some acc
  | String c s => if isDigit c then decimalFrom (10 * acc + (Z.of_nat (nat_of_ascii c) - 48)) s else None
  end.
Definition decimal (s : string) : option Z := if String.eqb s "" then None else decimalFrom 0 s.

Section advance.
Context {W : Type}.
(** [Transaction.from(raw).gasLimit], and the run's [randomUUID()]. *)
Context (rawGasLimit : string → option Z) (owner : string).
Context (journal : IssuanceJournal W) (transport : IssuanceTransport W)
  (evidence : IssuanceEvidenceSink W) (options : Options W).

Definition gasLimitOf (t : SignedIssuance) : outcome Z :=
  match si_gasLimit t ≫= decimal with
  | Some g => Ok g
  | None => match rawGasLimit (si_raw t) with Some g => Ok g | None => Throw (EJournal "GAS_LIMIT_MISSING") end
  end.

(** The variables of [advanceIssuance].  [entry] is always [snapshot.entry], the same object: the
    source assigns it from the snapshot after the acquire and after every save. *)
Record Local := mkLocal { snap : JournalSnapshot; budgetReservedThisPass : bool; world : W }.
#[local] Instance Local_world : Lens Local W.
Proof.
  refine {| lens_get := world; lens_set := λ w L, mkLocal (snap L) (budgetReservedThisPass L) w |};
    by repeat intros [].
Defined.

Definition call {A} (m : M W A) : M Local A := zoom m.
Definition entry (L : Local) : IssuanceEntry := js_entry (snap L).
Definition setEntry (f : IssuanceEntry → IssuanceEntry) : M Local unit :=
  modify (λ L, mkLocal {| js_revision := js_revision (snap L); js_entry := f (entry L) |}
                 (budgetReservedThisPass L) (world L)).
Definition setSnap (s : JournalSnapshot) : M Local unit :=
  modify (λ L, mkLocal s (budgetReservedThisPass L) (world L)).
Definition save : M Local unit :=
  let! s := gets snap in let! s' := call (j_save journal s owner) in setSnap s'.
Definition failWith (err : string) : M Local unit :=
  setEntry (λ e, set_lastError (Some err) (set_phase failed e)) ;;; save.

Definition mayRetry (e : IssuanceEntry) : bool :=
  retryFailed options && bool_decide (lastError e = Some "SOURCE_REVERTED").

(** The steps of the body; [true] is an early [return snapshot]. *)
Definition stayFailed : M Local bool :=
  let! e := gets entry in ret (bool_decide (phase e = failed) && negb (mayRetry e)).

Definition expirePreparation : M Local bool :=
  let! e := gets entry in
  if bool_decide (phase e = prepared) && bool_decide (transaction e = None)
     && bool_decide (io_status (outcome_ e) = ISSUED) then
    let! t := call (now options) in
    if prepareUntil e <=? t then failWith "PREPARATION_EXPIRED" ;;; ret true else ret false
  else ret false.

Definition storeEvidence : M Local bool :=
  let! e := gets entry in
  when (negb (evidenceStored e))
    (call (ev_put evidence e) ;;; setEntry (set_evidenceStored true) ;;; save) ;;;
  ret false.

Definition notApproved : M Local bool :=
  let! e := gets entry in
  if bool_decide (io_status (outcome_ e) ≠ ISSUED) then failWith "NOT_APPROVED" ;;; ret true
  else call (assertTarget transport e) ;;; ret false.

Definition resetFailed (e : IssuanceEntry) : IssuanceEntry :=
  set_lastError None (set_phase prepared (set_broadcastAcceptedAt None
    (set_sourceConfirmation None (set_transaction None e)))).
Definition retryReverted : M Local bool :=
  let! e := gets entry in
  if bool_decide (phase e = failed) then
    if negb (mayRetry e) then ret true
    else
      match transaction e with
      | Some t => let! at_ := call (now options) in
                  setEntry (push_reverted {| rv_hash := si_hash t; rv_nonce := si_nonce t; rv_at := at_ |})
      | None => ret tt
      end ;;;
      setEntry resetFailed ;;; save ;;; ret false
  else ret false.

Definition sameTarget (e : IssuanceEntry) (t : SignedIssuance) : bool :=
  (si_chainId t =? t_chainId (target e))
  && String.eqb (toLowerCase (si_source t)) (toLowerCase (t_source (target e)))
  && String.eqb (toLowerCase (si_issuer t)) (toLowerCase (t_issuer (target e))).

Definition reserve (b : IssuanceBudget W) (t : SignedIssuance) : M Local unit :=
  let! e := gets entry in
  let! gas := lift_out (gasLimitOf t) in
  call (bd_reserve b (si_hash t) (t_issuer (target e)) gas).

Definition sign : M Local bool :=
  let! e := gets entry in
  match transaction e with
  | Some _ => ret false
  | None =>
      let! t1 := call (now options) in
      let! expired := if prepareUntil e <=? t1 then ret true
                      else let! t2 := call (now options) in ret (io_expiry (outcome_ e) * 1000 <=? t2) in
      if expired then failWith "PREPARATION_EXPIRED" ;;; ret true
      else
        let! used := call (processed transport e) in
        if used then failWith "REQUEST_ALREADY_USED_UNRECONCILED" ;;; ret true
        else
          call (ev_assertMayBroadcast evidence e) ;;;
          let! t := call (prepare transport e) in
          require (sameTarget e t) (EJournal "TARGET_CONFLICT") ;;;
          match budget options with
          | Some b => reserve b t ;;; modify (λ L, mkLocal (snap L) true (world L))
          | None => ret tt
          end ;;;
          setEntry (set_transaction (Some t)) ;;; save ;;; ret false
  end.

Definition reserveAgain : M Local bool :=
  let! e := gets entry in
  let! done_ := gets budgetReservedThisPass in
  match budget options, transaction e with
  | Some b, Some t => when (negb done_) (reserve b t)
  | _, _ => ret tt
  end ;;;
  ret false.

(** [transport.broadcast(entry.transaction!)] with its catch. *)
Definition send : M Local unit :=
  tryCatch
    (let! e := gets entry in
     match transaction e with
     | Some t => call (broadcast transport t)
     | None => throw (EError "TypeError")
     end ;;;
     match broadcastAcceptedAt e with
     | Some _ => ret tt
     | None => let! t := call (now options) in setEntry (set_broadcastAcceptedAt (Some t))
     end ;;;
     setEntry (set_lastError None))
    (λ _, setEntry (set_lastError (Some "BROADCAST_UNCONFIRMED"))).

Definition deliver : M Local IssuanceReceipt :=
  let! e := gets entry in
  let! r := call (receipt transport e) in
  match r with
  | RPending =>
      call (ev_assertMayBroadcast evidence e) ;;;
      setEntry (λ e, set_sourceConfirmation None (set_phase submitted e)) ;;;
      save ;;;
      let! e := gets entry in
      call (ev_assertMayBroadcast evidence e) ;;;
      send ;;;
      save ;;;
      let! e := gets entry in
      call (receipt transport e)
  | r => ret r
  end.

Definition confirmationOf (r : IssuanceReceipt) : option SourceConfirmation :=
  match r with RPending => None | RReverted c | RSuccess c => Some c end.

Definition reconcile (c : SourceConfirmation) : M Local unit :=
  match budget options with
  | None => ret tt
  | Some b =>
      match sc_gasUsed c ≫= decimal with
      | None => throw (EJournal "GAS_USED_MISSING")
      | Some used =>
          let! e := gets entry in
          match transaction e with
          | Some t => call (bd_reconcile b (si_hash t) (t_issuer (target e)) used)
          | None => throw (EError "TypeError")
          end
      end
  end.

Definition confirm (r : IssuanceReceipt) : M Local unit :=
  match r with
  | RPending => ret tt
  | RReverted c =>
      reconcile c ;;;
      setEntry (λ e, set_sourceConfirmation (Some c) (set_lastError (Some "SOURCE_REVERTED") (set_phase failed e))) ;;;
      save
  | RSuccess c =>
      reconcile c ;;;
      let! e := gets entry in
      call (ev_sourceConfirmed evidence e c) ;;;
      if bool_decide (phase e = JournalClient.materialized) then call (ev_materialized evidence e)
      else
        setEntry (λ e, set_lastError None (set_sourceConfirmation (Some c) (set_phase sourceConfirmed e))) ;;;
        save ;;;
        let! e := gets entry in
        let! there := call (materialized transport e c) in
        when there
          (call (ev_materialized evidence e) ;;;
           setEntry (set_phase JournalClient.materialized) ;;;
           match materializedAt e with
           | Some _ => ret tt
           | None => let! t := call (now options) in setEntry (set_materializedAt (Some t))
           end ;;;
           setEntry (set_lastError None) ;;;
           save)
  end.

(** The try block: the steps in order, each of which may return early. *)
Fixpoint steps (l : list (M Local bool)) (last : M Local unit) : M Local unit :=
  match l with
  | [] => last
  | m :: l => let! stop := m in if stop then ret tt else steps l last
  end.
Definition body : M Local JournalSnapshot :=
  steps [stayFailed; expirePreparation; storeEvidence; notApproved; retryReverted; sign; reserveAgain]
    (let! r := deliver in confirm r) ;;;
  gets snap.

Definition isKnownError (e : exn) : bool :=
  match e with EJournal _ | EBudget _ => true | _ => false end.

(** The catch block. *)
Definition recover (requestId : string) (err : exn) : M Local JournalSnapshot :=
  if isKnownError err then throw err
  else
    let! current := call (j_get journal requestId) in
    match current with
    | None => throw (EJournal "NOT_FOUND")
    | Some current =>
        let! s := gets snap in
        if (js_revision current =? js_revision s) && negb (bool_decide (phase (js_entry current) = failed)) then
          let! s' := call (j_save journal {| js_revision := js_revision current;
            js_entry := set_lastError (Some "DEPENDENCY_UNAVAILABLE") (js_entry current) |} owner) in
          setSnap s' ;;; gets snap
        else setSnap current ;;; gets snap
    end.

Definition advanceIssuance (requestId : string) : M W JournalSnapshot := λ w,
  match j_acquire journal requestId owner w with
  | (Throw e, w') => (Throw e, w')
  | (Ok s, w') =>
      let m := tryFinally (tryCatch body (recover requestId))
                 (tryCatch (call (j_release journal requestId owner)) (λ _, ret tt)) in
      let '(o, L) := m (mkLocal s false w') in (o, world L)
  end.
End advance.

(** * The trace of a step *)

Inductive Event :=
  | EvAcquire (r : outcome JournalSnapshot)
  | EvGet (r : outcome (option JournalSnapshot))
  | EvSave (s : JournalSnapshot) (r : outcome JournalSnapshot)
  | EvMay (e : IssuanceEntry) (r : outcome unit)
  | EvReserve (request issuer : string) (gas : Z) (r : outcome unit)
  | EvBroadcast (t : SignedIssuance) (r : outcome unit).

(** The same collaborators, on a world that also records their calls, newest first. *)
Section logged.
Context {W : Type}.
Definition Traced : Type := W * list Event.
Definition quietly {A} (m : M W A) : M Traced A := λ p,
  let '(o, w) := m p.1 in (o, (w, p.2)).
Definition logging {A} (f : outcome A → Event) (m : M W A) : M Traced A := λ p,
  let '(o, w) := m p.1 in (o, (w, f o :: p.2)).
Definition loggedJournal (j : IssuanceJournal W) : IssuanceJournal Traced := {|
  j_get id := logging EvGet (j_get j id);
  j_acquire id o := logging EvAcquire (j_acquire j id o);
  j_save s o := logging (EvSave s) (j_save j s o);
  j_release id o := quietly (j_release j id o) |}.
Definition loggedTransport (t : IssuanceTransport W) : IssuanceTransport Traced := {|
  assertTarget e := quietly (assertTarget t e);
  processed e := quietly (processed t e);
  prepare e := quietly (prepare t e);
  broadcast x := logging (EvBroadcast x) (broadcast t x);
  receipt e := quietly (receipt t e);
  materialized e c := quietly (materialized t e c) |}.
Definition loggedEvidence (v : IssuanceEvidenceSink W) : IssuanceEvidenceSink Traced := {|
  ev_put e := quietly (ev_put v e);
  ev_assertMayBroadcast e := logging (EvMay e) (ev_assertMayBroadcast v e);
  ev_sourceConfirmed e c := quietly (ev_sourceConfirmed v e c);
  ev_materialized e := quietly (ev_materialized v e) |}.
Definition loggedBudget (b : IssuanceBudget W) : IssuanceBudget Traced := {|
  bd_reserve h i g := logging (EvReserve h i g) (bd_reserve b h i g);
  bd_reconcile h i g := quietly (bd_reconcile b h i g) |}.
Definition loggedOptions (o : Options W) : Options Traced := {|
  retryFailed := retryFailed o; now := quietly (now o); budget := loggedBudget <$> budget o |}.
End logged.

(** What a journal promises a delivery: a save stores the entry it is given, one revision later. *)
Class JournalLaws {W} (j : IssuanceJournal W) : Prop :=
  save_stores : ∀ s o w s' w', j_save j s o w = (Ok s', w') →
    js_entry s' = js_entry s ∧ js_revision s' = js_revision s + 1.

(** The snapshot the journal last answered with. *)
Fixpoint durable (tr : list Event) : option JournalSnapshot :=
  match tr with
  | [] => None
  | EvAcquire (Ok s) :: _ | EvGet (Ok (Some s)) :: _ | EvSave _ (Ok s) :: _ => Some s
  | _ :: tr => durable tr
  end.

(** What a step may make of the entry [d] of the journal before it saves it as [e]. *)
Definition frozen (d e : IssuanceEntry) : Prop :=
  version e = version d ∧ requestId e = requestId d ∧ wallet e = wallet d
  ∧ fingerprint e = fingerprint d ∧ consentVersion e = consentVersion d
  ∧ processingPolicy e = processingPolicy d ∧ retentionPolicy e = retentionPolicy d
  ∧ createdAt e = createdAt d ∧ prepareUntil e = prepareUntil d ∧ target e = target d
  ∧ outcome_ e = outcome_ d ∧ assurance e = assurance d ∧ evidenceRecord e = evidenceRecord d.
Definition dropped (retry : bool) (d e : IssuanceEntry) (t : SignedIssuance) : Prop :=
  retry = true ∧ phase d = failed ∧ lastError d = Some "SOURCE_REVERTED" ∧ transaction e = None
  ∧ ∃ at_, revertedTransactions e
      = revertedTransactions d ++ [{| rv_hash := si_hash t; rv_nonce := si_nonce t; rv_at := at_ |}].
Definition evolves (retry : bool) (d e : IssuanceEntry) : Prop :=
  frozen d e ∧ (evidenceStored d = true → evidenceStored e = true)
  ∧ (∃ l, revertedTransactions e = revertedTransactions d ++ l)
  ∧ ∀ t, transaction d = Some t → transaction e = Some t ∨ dropped retry d e t.

Fixpoint SavesOk (retry : bool) (tr : list Event) : Prop :=
  match tr with
  | [] => True
  | ev :: tr =>
      match ev with
      | EvSave s _ => ∃ d, durable tr = Some d ∧ js_revision s = js_revision d
                        ∧ evolves retry (js_entry d) (js_entry s)
      | _ => True
      end ∧ SavesOk retry tr
  end.

Definition isBroadcast (ev : Event) : bool := match ev with EvBroadcast _ _ => true | _ => false end.
Definition quiet (tr : list Event) : Prop := Forall (λ ev, isBroadcast ev = false) tr.

(** * Every step keeps the write-ahead discipline *)

Section discipline.
Context {W : Type} (rawGasLimit : string → option Z) (owner : string).
Context (J : IssuanceJournal W) `{HJ : !JournalLaws J}.
Context (T : IssuanceTransport W) (V : IssuanceEvidenceSink W) (O : Options W).
Abbreviation gasLimitOf := (gasLimitOf rawGasLimit).
Abbreviation retry := (retryFailed O).

(** The transaction was saved, as submitted, just before; and the evidence sink allowed it since. *)
Definition reserved (e : IssuanceEntry) (tr : list Event) : Prop :=
  ∀ b t, budget O = Some b → transaction e = Some t →
    ∃ g, gasLimitOf t = Ok g ∧ EvReserve (si_hash t) (t_issuer (target e)) g (Ok tt) ∈ tr.
Definition announced (t : SignedIssuance) (pre : list Event) : Prop :=
  ∃ s s' pre', pre = EvMay (js_entry s') (Ok tt) :: EvSave s (Ok s') :: pre'
    ∧ js_entry s' = js_entry s ∧ phase (js_entry s) = submitted
    ∧ transaction (js_entry s) = Some t ∧ io_status (outcome_ (js_entry s)) = ISSUED
    ∧ evidenceStored (js_entry s) = true ∧ reserved (js_entry s) pre'.
Definition Good (tr : list Event) : Prop :=
  quiet tr ∨ ∃ post t r pre, tr = post ++ EvBroadcast t r :: pre ∧ quiet post ∧ quiet pre ∧ announced t pre.

Lemma quiet_cons ev tr : isBroadcast ev = false → quiet tr → quiet (ev :: tr).
Proof. by constructor. Qed.
Lemma Good_cons ev tr : isBroadcast ev = false → Good tr → Good (ev :: tr).
Proof.
  intros He [Hq|(post & t & r & pre & -> & Hq & Hp & Ha)]; [left; by apply quiet_cons|right].
  exists (ev :: post), t, r, pre. split; [done|]. split; [by apply quiet_cons|done].
Qed.

(** [Base Q tr]: every save so far was allowed, and [Q]; [At Q s tr]: moreover the snapshot in hand
    is the one the journal answered with. *)
Definition Base (Q : list Event → Prop) (tr : list Event) : Prop := SavesOk retry tr ∧ Q tr.
Definition At (Q : list Event → Prop) (s : JournalSnapshot) (tr : list Event) : Prop :=
  Base Q tr ∧ durable tr = Some s.
Definition trace (L : Local (W := Traced (W := W))) : list Event := (world L).2.

Section calls.
Context (Q : list Event → Prop) (Q_cons : ∀ ev tr, isBroadcast ev = false → Q tr → Q (ev :: tr)).

Lemma Base_cons ev tr : isBroadcast ev = false → (∀ s r, ev ≠ EvSave s r) → Base Q tr → Base Q (ev :: tr).
Proof. intros Hb Hs [H1 H2]. split; [|by apply Q_cons]. split; [|done]. destruct ev; try done. by destruct (Hs s r). Qed.

Lemma Base_save s r tr d : durable tr = Some d → js_revision s = js_revision d →
  evolves retry (js_entry d) (js_entry s) → Base Q tr → Base Q (EvSave s r :: tr).
Proof. intros. destruct H2. split; [|by apply Q_cons]. split; [|done]. by exists d. Qed.
End calls.

Lemma wp_quietly {A} (m : M W A) R s f w tr :
  (∀ o w', R o (mkLocal s f (w', tr))) → wp (call (quietly m)) R (mkLocal s f (w, tr)).
Proof. intros H. unfold wp, call, zoom, quietly. simpl. destruct (m w) as [o w']. apply H. Qed.
Lemma wp_logging {A} (m : M W A) ev R s f w tr :
  (∀ o w', R o (mkLocal s f (w', ev o :: tr))) → wp (call (logging ev m)) R (mkLocal s f (w, tr)).
Proof. intros H. unfold wp, call, zoom, logging. simpl. destruct (m w) as [o w']. apply H. Qed.

(** A save of the snapshot in hand, which came from the journal entry [d]. *)
Lemma wp_save (Q : list Event → Prop) d R s f w tr :
  (∀ ev tr, isBroadcast ev = false → Q tr → Q (ev :: tr)) →
  At Q d tr → js_revision s = js_revision d → evolves retry (js_entry d) (js_entry s) →
  (∀ s' w', js_entry s' = js_entry s → At Q s' (EvSave s (Ok s') :: tr) →
     R (Ok tt) (mkLocal s' f (w', EvSave s (Ok s') :: tr))) →
  (∀ e w', Base Q (EvSave s (Throw e) :: tr) → R (Throw e) (mkLocal s f (w', EvSave s (Throw e) :: tr))) →
  wp (save owner (loggedJournal J)) R (mkLocal s f (w, tr)).
Proof.
  intros HQ [HB Hd] Hr He Hok Hth. unfold save. apply wp_bind, wp_gets, wp_bind. simpl.
  unfold wp, call, zoom, logging. simpl. destruct (j_save J s owner w) as [[s'|e] w'] eqn:Hs; simpl.
  - destruct (save_stores _ _ _ _ _ Hs) as [Hs' _]. apply Hok; [done|]. split; [|done].
    eapply Base_save; eauto.
  - apply Hth. eapply Base_save; eauto.
Qed.

Lemma evolves_refl e : evolves retry e e.
Proof. unfold evolves, frozen. split_and!; try done; [exists []; by rewrite app_nil_r|auto]. Qed.

(** The step specification: what holds of the trace in any case, and what a step that does not
    return early establishes of the snapshot and the budget flag. *)
Definition Fact := JournalSnapshot → bool → list Event → Prop.
Definition StepSpec (F G : Fact) (m : M (Local (W := Traced (W := W))) bool) : Prop :=
  ∀ s f w tr, At quiet s tr → F s f tr →
    wp m (λ o L, Base quiet (trace L) ∧
            ∀ b, o = Ok b → b = false → At quiet (snap L) (trace L)
                                       ∧ G (snap L) (budgetReservedThisPass L) (trace L))
       (mkLocal s f (w, tr)).

Lemma steps_cons F G m l last R s f w tr : StepSpec F G m → At quiet s tr → F s f tr →
  (∀ o L, Base quiet (trace L) → R o L) →
  (∀ s f w tr, At quiet s tr → G s f tr → wp (steps l last) R (mkLocal s f (w, tr))) →
  wp (steps (m :: l) last) R (mkLocal s f (w, tr)).
Proof.
  intros Hm HA HF Hstop Hgo. simpl. apply wp_bind. eapply wp_mono; [by apply Hm|].
  intros [[]|e] [s' f' [w' tr']] [HB HG]; simpl in *.
  - by apply wp_ret, Hstop.
  - destruct (HG false eq_refl eq_refl) as [HA' HG']. by apply Hgo.
  - by apply Hstop.
Qed.

(** ** The steps before the delivery *)

Ltac ev_solve := match goal with |- evolves _ ?d _ =>
  destruct d; unfold evolves, frozen; simpl; split_and!; try done; [exists []; by rewrite app_nil_r|by left] end.
Ltac go := repeat first
  [ wp_step | apply wp_quietly; intros [?|?] ? | apply wp_logging; intros [?|?] ? ]; simpl.

Lemma wp_failWith Q err s f w tr :
  (∀ ev tr, isBroadcast ev = false → Q tr → Q (ev :: tr)) → At Q s tr →
  wp (failWith owner (loggedJournal J) err) (λ _ L, Base Q (trace L)) (mkLocal s f (w, tr)).
Proof.
  intros HQ HA. unfold failWith. apply wp_bind, wp_modify. unfold entry. simpl.
  eapply (wp_save Q s); simpl; [done..| | |].
  - destruct s as [r e]. simpl. ev_solve.
  - intros s' w' _ [H _]. exact H.
  - intros e w' H. exact H.
Qed.

Definition F0 : Fact := λ _ f _, f = false.
Definition F1 : Fact := λ s f _, f = false ∧ evidenceStored (js_entry s) = true.
Definition F2 : Fact := λ s f tr, F1 s f tr ∧ io_status (outcome_ (js_entry s)) = ISSUED.
Definition F3 : Fact := λ s f tr,
  evidenceStored (js_entry s) = true ∧ io_status (outcome_ (js_entry s)) = ISSUED
  ∧ (f = true → reserved (js_entry s) tr).
Definition F4 : Fact := λ s f tr,
  evidenceStored (js_entry s) = true ∧ io_status (outcome_ (js_entry s)) = ISSUED
  ∧ reserved (js_entry s) tr.

Lemma stayFailed_spec : StepSpec F0 F0 (stayFailed (loggedOptions O)).
Proof.
  intros s f w tr HA HF. unfold stayFailed. go. split; [apply HA|by intros].
Qed.

Lemma expirePreparation_spec : StepSpec F0 F0 (expirePreparation owner (loggedJournal J) (loggedOptions O)).
Proof.
  intros s f w tr HA HF. unfold expirePreparation. go; try (split; [apply HA|done]).
  - eapply wp_mono; [by apply (wp_failWith quiet); [apply quiet_cons|]|]. intros [[]|?] L HB; [|done].
    apply wp_ret. split; [done|]. by intros b [= <-].
Qed.

Lemma storeEvidence_spec : StepSpec F0 F1 (storeEvidence owner (loggedJournal J) (loggedEvidence V)).
Proof.
  intros s f w tr HA HF. unfold storeEvidence, F0 in *. subst f.
  apply wp_bind, wp_gets. cbv beta iota. apply wp_bind, wp_when; unfold entry; simpl.
  - intros _. apply wp_bind. apply wp_quietly. intros [[]|?] w'; [|split; [apply HA|done]].
    apply wp_bind, wp_modify. unfold entry. simpl.
    eapply (wp_save quiet s); simpl; [by apply quiet_cons|done|done| | |].
    + destruct s as [r e]. simpl. destruct e; unfold evolves, frozen; simpl; split_and!; try done;
        [exists []; by rewrite app_nil_r|by left].
    + intros s' w'' Hs' HA'. apply wp_ret. split; [apply HA'|]. intros b _ _. split; [done|].
      split; [done|]. simpl. rewrite Hs'. by destruct s as [? []].
    + intros e w'' HB. by split.
  - intros Hst%negb_false_iff. apply wp_ret. split; [apply HA|]. by intros b _ _.
Qed.

Lemma notApproved_spec :
  StepSpec F1 F2 (notApproved owner (loggedJournal J) (loggedTransport T)).
Proof.
  intros s f w tr HA HF. unfold notApproved. apply wp_bind, wp_gets. cbv beta iota. unfold entry. simpl.
  case_bool_decide as Hst.
  - apply wp_bind. eapply wp_mono; [by apply (wp_failWith quiet); [apply quiet_cons|]|].
    intros [[]|?] L HB; [|done]. apply wp_ret. split; [done|]. by intros b [= <-].
  - apply wp_bind, wp_quietly. intros [[]|?] w'; [|split; [apply HA|done]]. apply wp_ret.
    split; [apply HA|]. intros b _ _. split; [done|]. split; [done|]. destruct (decide (io_status (outcome_ (js_entry s)) = ISSUED)); [done|by destruct Hst].
Qed.

Lemma reset_evolves r e tm : retryFailed O = true → phase e = failed → lastError e = Some "SOURCE_REVERTED" →
  transaction e = Some r →
  evolves retry e (resetFailed (push_reverted {| rv_hash := si_hash r; rv_nonce := si_nonce r; rv_at := tm |} e)).
Proof.
  intros Hr Hp Hl Ht. destruct e; simpl in *. unfold evolves, frozen, resetFailed; simpl. split_and!; try done; [eauto|].
  intros t Heq. right. rewrite Ht in Heq. injection Heq as ->. unfold dropped; simpl. split_and!; try done. by eexists.
Qed.

Lemma retryReverted_spec : StepSpec F2 F3 (retryReverted owner (loggedJournal J) (loggedOptions O)).
Proof.
  intros s f w tr HA [[-> He] Hi]. unfold retryReverted. apply wp_bind, wp_gets. cbv beta iota. unfold entry. simpl.
  case_bool_decide as Hph; [|apply wp_ret; split; [apply HA|]; intros b _ _; split; [done|by split_and!]].
  unfold mayRetry. simpl. destruct (retryFailed O) eqn:Hret; simpl;
    [|apply wp_ret; split; [apply HA|]; intros b Hb Hb'; congruence].
  case_bool_decide as Hle; simpl; [|apply wp_ret; split; [apply HA|]; intros b Hb Hb'; congruence].
  assert (∀ e' w', evolves retry (js_entry s) e' → evidenceStored e' = evidenceStored (js_entry s) →
    outcome_ e' = outcome_ (js_entry s) →
    wp (save owner (loggedJournal J) ;;; ret false)
      (λ o L, Base quiet (trace L) ∧ ∀ b, o = Ok b → b = false →
         At quiet (snap L) (trace L) ∧ F3 (snap L) (budgetReservedThisPass L) (trace L))
      (mkLocal {| js_revision := js_revision s; js_entry := e' |} false (w', tr))) as Hsave.
  { intros e' w' Hev He' Ho'. apply wp_bind. eapply (wp_save quiet s); simpl; [by apply quiet_cons|done..| |].
    - intros s' w'' Hs' HA'. apply wp_ret. split; [apply HA'|]. intros b _ _. split; [done|]. simpl.
      unfold F3. rewrite Hs', He', Ho'. by split_and!.
    - intros e w'' HB. by split. }
  apply wp_bind. destruct (transaction (js_entry s)) as [t|] eqn:Ht.
  - apply wp_bind, wp_quietly. intros [tm|?] w'; [|split; [apply HA|done]]. apply wp_modify. unfold entry. simpl.
    apply wp_bind, wp_modify. unfold entry. simpl. apply Hsave.
    + by apply reset_evolves.
    + by destruct (js_entry s).
    + by destruct (js_entry s).
  - apply wp_ret. apply wp_bind, wp_modify. unfold entry. simpl. apply Hsave.
    + destruct (js_entry s); simpl in *. unfold evolves, frozen, resetFailed; simpl. subst.
      split_and!; try done. exists []. by rewrite app_nil_r.
    + by destruct (js_entry s).
    + by destruct (js_entry s).
Qed.

Lemma wp_reserveGas (b : IssuanceBudget W) t R s f w tr :
  (∀ g r w', gasLimitOf t = Ok g →
     R r (mkLocal s f (w', EvReserve (si_hash t) (t_issuer (target (js_entry s))) g r :: tr))) →
  (∀ e, R (Throw e) (mkLocal s f (w, tr))) →
  wp (reserve rawGasLimit (loggedBudget b) t) R (mkLocal s f (w, tr)).
Proof.
  intros H1 H2. unfold reserve. apply wp_bind, wp_gets. cbv beta iota. apply wp_bind, wp_lift_out.
  destruct (Delivery.gasLimitOf rawGasLimit t) as [g|e] eqn:Hg; [|by apply H2]. cbv beta iota.
  apply wp_logging. intros r w'. by apply H1.
Qed.

Lemma sign_evolves t e : transaction e = None → evolves retry e (set_transaction (Some t) e).
Proof.
  intros Ht. destruct e; simpl in *. unfold evolves, frozen; simpl. subst. split_and!; try done.
  exists []. by rewrite app_nil_r.
Qed.

Lemma At_cons (Q : list Event → Prop) ev s tr : (∀ ev tr, isBroadcast ev = false → Q tr → Q (ev :: tr)) →
  isBroadcast ev = false → durable (ev :: tr) = durable tr → (∀ s r, ev ≠ EvSave s r) →
  At Q s tr → At Q s (ev :: tr).
Proof. intros HQ Hb Hd Hs [HB H]. split; [by apply Base_cons|by rewrite Hd]. Qed.

(** The save of the freshly signed transaction. *)
Lemma saveSigned_spec t s f w tr : At quiet s tr → transaction (js_entry s) = None →
  evidenceStored (js_entry s) = true → io_status (outcome_ (js_entry s)) = ISSUED →
  (f = true → ∀ b, budget O = Some b →
     ∃ g, gasLimitOf t = Ok g ∧ EvReserve (si_hash t) (t_issuer (target (js_entry s))) g (Ok tt) ∈ tr) →
  wp (setEntry (set_transaction (Some t)) ;;; save owner (loggedJournal J) ;;; ret false)
    (λ o L, Base quiet (trace L) ∧ ∀ b, o = Ok b → b = false →
       At quiet (snap L) (trace L) ∧ F3 (snap L) (budgetReservedThisPass L) (trace L))
    (mkLocal s f (w, tr)).
Proof.
  intros HA Ht He Hi Hb. apply wp_bind, wp_modify. unfold entry. simpl. apply wp_bind.
  eapply (wp_save quiet s); simpl; [by apply quiet_cons|done|done|by apply sign_evolves| |].
  - intros s' w' Hs' HA'. apply wp_ret. split; [apply HA'|]. intros b _ _. split; [done|].
    unfold F3. simpl. rewrite Hs'. destruct (js_entry s); simpl in *. split_and!; try done.
    intros Hf b' t' Hb' Heq. simpl in Heq. injection Heq as <-. destruct (Hb Hf b' Hb') as (g & Hg & Hin). exists g.
    split; [done|by right].
  - intros e w' HB. by split.
Qed.

Lemma sign_spec : StepSpec F3 F3 (sign rawGasLimit owner (loggedJournal J) (loggedTransport T)
                                    (loggedEvidence V) (loggedOptions O)).
Proof.
  intros s f w tr HA HF. unfold sign. apply wp_bind, wp_gets. cbv beta iota. unfold entry. simpl.
  destruct (transaction (js_entry s)) as [t|] eqn:Ht.
  { apply wp_ret. split; [apply HA|]. intros b _ _. by split. }
  assert (∀ err w', wp (failWith owner (loggedJournal J) err ;;; ret true)
    (λ o L, Base quiet (trace L) ∧ ∀ b, o = Ok b → b = false →
       At quiet (snap L) (trace L) ∧ F3 (snap L) (budgetReservedThisPass L) (trace L))
    (mkLocal s f (w', tr))) as Hfail.
  { intros err w'. apply wp_bind. eapply wp_mono; [by apply (wp_failWith quiet); [apply quiet_cons|]|].
    intros [[]|?] L HB; [|done]. apply wp_ret. split; [done|]. by intros b [= <-]. }
  destruct HF as (He & Hi & _).
  apply wp_bind, wp_quietly. intros [t1|?] w1; [|split; [apply HA|done]]. apply wp_bind.
  assert (∀ b w', wp
    (if b : bool then failWith owner (loggedJournal J) "PREPARATION_EXPIRED" ;;; ret true
     else
       let! used := call (processed (loggedTransport T) (js_entry s)) in
       if used : bool then failWith owner (loggedJournal J) "REQUEST_ALREADY_USED_UNRECONCILED" ;;; ret true
       else
         call (ev_assertMayBroadcast (loggedEvidence V) (js_entry s)) ;;;
         let! t := call (prepare (loggedTransport T) (js_entry s)) in
         require (sameTarget (js_entry s) t) (EJournal "TARGET_CONFLICT") ;;;
         match budget (loggedOptions O) with
         | Some b => reserve rawGasLimit b t ;;; modify (λ L, mkLocal (snap L) true (world L))
         | None => ret tt
         end ;;;
         setEntry (set_transaction (Some t)) ;;; save owner (loggedJournal J) ;;; ret false)
    (λ o L, Base quiet (trace L) ∧ ∀ b, o = Ok b → b = false →
       At quiet (snap L) (trace L) ∧ F3 (snap L) (budgetReservedThisPass L) (trace L))
    (mkLocal s f (w', tr))) as Hrest.
  { intros b w'. destruct b; [apply Hfail|]. apply wp_bind, wp_quietly.
    intros [[]|?] w2; [apply Hfail| |split; [apply HA|done]].
    apply wp_bind, wp_logging. intros o w3.
    assert (At quiet s (EvMay (js_entry s) o :: tr)) as HA'.
    { apply At_cons; try done. by apply quiet_cons. }
    destruct o as [[]|?]; [|split; [apply HA'|done]].
    apply wp_bind, wp_quietly. intros [t|?] w4; [|split; [apply HA'|done]].
    apply wp_bind, wp_require; intros Hsame; [|split; [apply HA'|done]]. cbv beta iota.
    simpl. apply wp_bind. destruct (budget O) as [bd|] eqn:Hbd; simpl.
    - apply wp_bind, wp_reserveGas; [|by split; [apply HA'|]]. intros g r w5 Hg.
      assert (At quiet s (EvReserve (si_hash t) (t_issuer (target (js_entry s))) g r :: EvMay (js_entry s) (Ok tt) :: tr)) as HA''.
      { apply At_cons; try done. by apply quiet_cons. }
      destruct r as [[]|?]; [|split; [apply HA''|done]]. apply wp_modify. simpl.
      apply saveSigned_spec; try done. intros _ b _. exists g. split; [done|by left].
    - apply wp_ret. apply saveSigned_spec; try done. intros _ b Hb. congruence. }
  destruct (prepareUntil (js_entry s) <=? t1); [apply wp_ret, (Hrest true)|].
  apply wp_bind, wp_quietly. intros [t2|?] w2; [|split; [apply HA|done]]. apply wp_ret, (Hrest _).
Qed.

Lemma reserveAgain_spec : StepSpec F3 F4 (reserveAgain rawGasLimit (loggedOptions O)).
Proof.
  intros s f w tr HA (He & Hi & Hf). unfold reserveAgain. apply wp_bind, wp_gets. cbv beta iota.
  apply wp_bind, wp_gets. cbv beta iota.
  unfold entry. simpl. apply wp_bind. destruct (budget O) as [bd|] eqn:Hbd; simpl.
  - destruct (transaction (js_entry s)) as [t|] eqn:Ht.
    + apply wp_when; intros Hfl; [|].
      * apply wp_reserveGas; [|by split; [apply HA|]]. intros g r w5 Hg.
        assert (At quiet s (EvReserve (si_hash t) (t_issuer (target (js_entry s))) g r :: tr)) as HA'.
        { apply At_cons; try done. by apply quiet_cons. }
        destruct r as [[]|?]; [|split; [apply HA'|done]]. apply wp_ret. split; [apply HA'|].
        intros b _ _. split; [done|]. split_and!; [done..|]. simpl. intros b' t' _ Heq.
        rewrite Ht in Heq. simplify_eq. exists g. split; [done|by left].
      * apply wp_ret. split; [apply HA|]. intros b _ _. split; [done|]. split_and!; [done..|]. simpl.
        apply Hf. by destruct f.
    + apply wp_ret, wp_ret. split; [apply HA|]. intros b _ _. split; [done|]. split_and!; [done..|]. simpl.
      intros b' t' _ Heq. congruence.
  - apply wp_ret, wp_ret. split; [apply HA|]. intros b _ _. split; [done|]. split_and!; [done..|]. simpl.
    intros b' t' Hb'. congruence.
Qed.

(** ** The delivery *)

Lemma At_Good s tr : At quiet s tr → At Good s tr.
Proof. intros [[H1 H2] H3]. split; [|done]. split; [done|by left]. Qed.

Lemma submit_evolves e : evolves retry e (set_sourceConfirmation None (set_phase submitted e)).
Proof. ev_solve. Qed.
Lemma accepted_evolves e tm : evolves retry e (set_lastError None (set_broadcastAcceptedAt tm e)).
Proof. ev_solve. Qed.
Lemma lastError_evolves e err : evolves retry e (set_lastError err e).
Proof. ev_solve. Qed.

Lemma send_spec s f w tr :
  At quiet s tr → (∀ t, transaction (js_entry s) = Some t → announced t tr) →
  wp (send (loggedTransport T) (loggedOptions O))
    (λ o L, o = Ok tt ∧ At Good s (trace L) ∧ js_revision (snap L) = js_revision s
            ∧ evolves retry (js_entry s) (js_entry (snap L))) (mkLocal s f (w, tr)).
Proof.
  intros HA Han. unfold send. apply wp_tryCatch, wp_bind, wp_gets. cbv beta iota. unfold entry. simpl.
  assert (∀ tr' w', At Good s tr' → wp (setEntry (set_lastError (Some "BROADCAST_UNCONFIRMED")))
    (λ o L, o = Ok tt ∧ At Good s (trace L) ∧ js_revision (snap L) = js_revision s
            ∧ evolves retry (js_entry s) (js_entry (snap L))) (mkLocal s f (w', tr'))) as Hcatch.
  { intros tr' w' HA'. apply wp_modify. unfold entry. simpl. split_and!; try done. apply lastError_evolves. }
  apply wp_bind. destruct (transaction (js_entry s)) as [t|] eqn:Ht;
    [|apply wp_throw, Hcatch; by apply At_Good].
  apply wp_logging. intros o w1.
  assert (At Good s (EvBroadcast t o :: tr)) as HA1.
  { destruct HA as [[Hs Hq] Hd]. split; [|done]. split; [by split|]. right.
    exists [], t, o, tr. split_and!; [done|by constructor|done|by apply Han]. }
  destruct o as [[]|?]; [|by apply Hcatch]. apply wp_bind.
  destruct (broadcastAcceptedAt (js_entry s)) as [acc|] eqn:Hacc.
  - apply wp_ret, wp_modify. unfold entry. simpl. split_and!; try done. apply lastError_evolves.
  - apply wp_bind, wp_quietly. intros [tm|?] w2; [|by apply Hcatch]. apply wp_modify. unfold entry. simpl.
    apply wp_modify. unfold entry. simpl. split_and!; try done. apply accepted_evolves.
Qed.

Definition Delivered (o : outcome IssuanceReceipt) (L : Local (W := Traced (W := W))) : Prop :=
  Base Good (trace L) ∧ (is_ok o = true → At Good (snap L) (trace L)).

Lemma deliver_spec s f w tr : At quiet s tr → F4 s f tr →
  wp (deliver owner (loggedJournal J) (loggedTransport T) (loggedEvidence V) (loggedOptions O))
    Delivered (mkLocal s f (w, tr)).
Proof.
  intros HA (He & Hi & Hr). unfold deliver. apply wp_bind, wp_gets. cbv beta iota. unfold entry. simpl.
  assert (∀ o tr' w', At quiet s tr' → Delivered o (mkLocal s f (w', tr'))) as Hq.
  { intros o tr' w' HA'. pose proof (At_Good _ _ HA'). split; [apply H|done]. }
  apply wp_bind, wp_quietly. intros [r|?] w1; [|by apply Hq]. destruct r; [|by apply wp_ret, Hq..].
  apply wp_bind, wp_logging. intros o1 w2.
  assert (At quiet s (EvMay (js_entry s) o1 :: tr)) as HA1 by (apply At_cons; try done; by apply quiet_cons).
  destruct o1 as [[]|?]; [|by apply Hq]. apply wp_bind, wp_modify. unfold entry. simpl. apply wp_bind.
  eapply (wp_save quiet s); simpl; [by apply quiet_cons|done|done|by apply submit_evolves| |].
  2:{ intros e w3 [H1 H2]. split; [|done]. split; [done|by left]. }
  intros s' w3 Hs' HA2. apply wp_bind, wp_gets. cbv beta iota. unfold entry. simpl.
  apply wp_bind, wp_logging. intros o2 w4.
  assert (At quiet s' (EvMay (js_entry s') o2 :: EvSave {| js_revision := js_revision s;
    js_entry := set_sourceConfirmation None (set_phase submitted (js_entry s)) |} (Ok s')
    :: EvMay (js_entry s) (Ok tt) :: tr)) as HA3 by (apply At_cons; try done; by apply quiet_cons).
  destruct o2 as [[]|?]; [|pose proof (At_Good _ _ HA3); split; [apply H|done]].
  apply wp_bind. eapply wp_mono; [apply send_spec; [exact HA3|]|].
  - intros t Ht. eexists _, s', _. split_and!; [reflexivity|done|..]; simpl.
    + by destruct (js_entry s).
    + by rewrite <-Hs'.
    + by destruct (js_entry s).
    + by destruct (js_entry s).
    + intros b t' Hb Ht'. destruct (Hr b t' Hb) as (g & Hg & Hin); [by destruct (js_entry s)|].
      exists g. split; [done|]. right. by destruct (js_entry s).
  - intros o [s2 f2 [w5 tr5]] (-> & HA4 & Hrev & Hev). simpl in *. apply wp_bind.
    eapply (wp_save Good s'); simpl; [by apply Good_cons|done..| |].
    + intros s3 w6 _ HA5. apply wp_bind, wp_gets. cbv beta iota. apply wp_quietly. intros o w7.
      split; [apply HA5|done].
    + intros e w6 HB. by split.
Qed.

Lemma reconcile_spec c s f w tr : At Good s tr →
  wp (reconcile (loggedOptions O) c)
    (λ o L, At Good s (trace L) ∧ snap L = s) (mkLocal s f (w, tr)).
Proof.
  intros HA. unfold reconcile. simpl. destruct (budget O) as [b|]; simpl; [|by apply wp_ret].
  destruct (sc_gasUsed c ≫= decimal); [|by apply wp_throw]. apply wp_bind, wp_gets. cbv beta iota.
  unfold entry. simpl. destruct (transaction (js_entry s)); [|by apply wp_throw]. apply wp_quietly. by intros.
Qed.

Lemma saveLast_spec e' s f w tr : At Good s tr → evolves retry (js_entry s) e' →
  wp (save owner (loggedJournal J)) (λ _ L, Base Good (trace L))
    (mkLocal {| js_revision := js_revision s; js_entry := e' |} f (w, tr)).
Proof.
  intros HA He. eapply (wp_save Good s); simpl; [by apply Good_cons|done..| |].
  - intros s' w' _ HA'. apply HA'.
  - by intros.
Qed.

Lemma confirm_spec r s f w tr : At Good s tr →
  wp (confirm owner (loggedJournal J) (loggedTransport T) (loggedEvidence V) (loggedOptions O) r)
    (λ _ L, Base Good (trace L)) (mkLocal s f (w, tr)).
Proof.
  intros HA. unfold confirm. destruct r as [|c|c]; [apply wp_ret, HA|..].
  - apply wp_bind. eapply wp_mono; [by apply reconcile_spec|]. intros [[]|?] [s' f' [w' tr']] [HA' Hs]; [|apply HA'].
    simpl in *. subst s'. apply wp_bind, wp_modify. unfold entry. simpl. apply saveLast_spec; [done|].
    destruct s as [? e]; simpl. ev_solve.
  - apply wp_bind. eapply wp_mono; [by apply reconcile_spec|]. intros [[]|?] [s' f' [w' tr']] [HA' Hs]; [|apply HA'].
    simpl in *. subst s'. apply wp_bind, wp_gets. cbv beta iota. unfold entry. simpl.
    apply wp_bind, wp_quietly. intros [[]|?] w2; [|apply HA']. case_bool_decide.
    + apply wp_quietly. intros ??. apply HA'.
    + apply wp_bind, wp_modify. unfold entry. simpl. apply wp_bind.
      eapply (wp_save Good s); simpl; [by apply Good_cons|done|done| | |by intros].
      { destruct s as [? e]; simpl. ev_solve. }
      intros s2 w3 _ HA2. apply wp_bind, wp_gets. cbv beta iota. unfold entry. simpl.
      apply wp_bind, wp_quietly. intros [there|?] w4; [|apply HA2]. apply wp_when; intros _; [|apply HA2].
      apply wp_bind, wp_quietly. intros [[]|?] w5; [|apply HA2]. apply wp_bind, wp_modify. unfold entry. simpl.
      apply wp_bind. destruct (materializedAt (js_entry s2)).
      * apply wp_ret, wp_bind, wp_modify. unfold entry. simpl. apply saveLast_spec; [done|].
        destruct s2 as [? e]; simpl. ev_solve.
      * apply wp_bind, wp_quietly. intros [tm|?] w6; [|apply HA2]. apply wp_modify. unfold entry. simpl.
        apply wp_bind, wp_modify. unfold entry. simpl. apply saveLast_spec; [done|].
        destruct s2 as [? e]; simpl. ev_solve.
Qed.

(** ** The whole step *)

Lemma body_spec s w tr : At quiet s tr →
  wp (body rawGasLimit owner (loggedJournal J) (loggedTransport T) (loggedEvidence V) (loggedOptions O))
    (λ _ L, Base Good (trace L)) (mkLocal s false (w, tr)).
Proof.
  intros HA. unfold body. apply wp_bind.
  assert (∀ o L, Base quiet (trace L) →
    match o : outcome unit with Ok _ => wp (gets snap) (λ _ L, Base Good (trace L)) L
    | Throw e => Base Good (trace L) end) as Hearly.
  { intros o L [H1 H2]. assert (Base Good (trace L)) by (split; [done|by left]). destruct o; done. }
  eapply steps_cons; [apply stayFailed_spec|done|done|done|]. clear HA. intros s1 f1 w1 tr1 HA HF.
  eapply steps_cons; [apply expirePreparation_spec|done..|]. clear HA HF. intros s2 f2 w2 tr2 HA HF.
  eapply steps_cons; [apply storeEvidence_spec|done..|]. clear HA HF. intros s3 f3 w3 tr3 HA HF.
  eapply steps_cons; [apply notApproved_spec|done..|]. clear HA HF. intros s4 f4 w4 tr4 HA HF.
  eapply steps_cons; [apply retryReverted_spec|done..|]. clear HA HF. intros s5 f5 w5 tr5 HA HF.
  eapply steps_cons; [apply sign_spec|done..|]. clear HA HF. intros s6 f6 w6 tr6 HA HF.
  eapply steps_cons; [apply reserveAgain_spec|done..|]. clear HA HF. intros s7 f7 w7 tr7 HA HF.
  simpl. apply wp_bind. eapply wp_mono; [by apply deliver_spec|].
  intros [r|e] [s8 f8 [w8 tr8]] [HB HA8]; [|done]. specialize (HA8 eq_refl). simpl in *.
  eapply wp_mono; [by apply confirm_spec|]. intros [[]|e] L HB'; [|done]. exact HB'.
Qed.

Lemma recover_spec id err s f w tr : Base Good tr →
  wp (recover owner (loggedJournal J) id err) (λ _ L, Base Good (trace L)) (mkLocal s f (w, tr)).
Proof.
  intros HB. unfold recover. destruct (isKnownError err); [by apply wp_throw|].
  apply wp_bind, wp_logging. intros o w1.
  assert (Base Good (EvGet o :: tr)) as HB1 by (apply Base_cons; try done; apply Good_cons).
  destruct o as [[c|]|e]; [|done..]. apply wp_bind, wp_gets. cbv beta iota.
  destruct (_ && _); [|done]. apply wp_bind, wp_logging. intros o w2.
  assert (Base Good (EvSave {| js_revision := js_revision c;
      js_entry := set_lastError (Some "DEPENDENCY_UNAVAILABLE") (js_entry c) |} o :: EvGet (Ok (Some c)) :: tr)) as HB2.
  { eapply (Base_save Good); [apply Good_cons|done|done|apply lastError_evolves|done]. }
  by destruct o.
Qed.

Lemma advance_Base id w :
  Base Good (advanceIssuance rawGasLimit owner (loggedJournal J) (loggedTransport T) (loggedEvidence V)
    (loggedOptions O) id (w, [])).2.2.
Proof.
  unfold advanceIssuance. simpl. unfold logging. simpl. destruct (j_acquire J id owner w) as [[s|e] w1]; simpl.
  2:{ split; [done|]. left. by constructor. }
  assert (At quiet s [EvAcquire (Ok s)]) as HA by (split; [split; [done|by constructor]|done]).
  assert (wp (tryFinally
     (tryCatch (body rawGasLimit owner (loggedJournal J) (loggedTransport T) (loggedEvidence V) (loggedOptions O))
        (recover owner (loggedJournal J) id))
     (tryCatch (call (j_release (loggedJournal J) id owner)) (λ _, ret tt)))
     (λ _ L, Base Good (trace L)) (mkLocal s false (w1, [EvAcquire (Ok s)]))) as Hwp.
  { apply wp_tryFinally, wp_tryCatch. eapply wp_mono; [by apply body_spec|].
    assert (∀ (o : outcome JournalSnapshot) L, Base Good (trace L) →
      wp (tryCatch (call (j_release (loggedJournal J) id owner)) (λ _, ret tt))
        (λ r L', Base Good (trace L')) L) as Hrel.
    { intros o [s' f' [w' tr']] HB. apply wp_tryCatch, wp_quietly. by intros [[]|?] w''. }
    intros [s'|err] L HB.
    - eapply wp_mono; [by apply (Hrel (Ok s'))|]. by intros [[]|] ? ?.
    - destruct L as [s' f' [w' tr']]. eapply wp_mono; [by apply recover_spec|]. intros o L' HB'.
      eapply wp_mono; [by apply (Hrel o)|]. by intros [[]|] ? ?. }
  unfold wp in Hwp. simpl in *. unfold trace in Hwp.
  destruct (tryFinally _ _ _) as [o L]. exact Hwp.
Qed.

Lemma quiet_split post1 t1 r1 pre1 post2 t2 r2 pre2 :
  quiet post1 → quiet pre1 → post1 ++ EvBroadcast t1 r1 :: pre1 = post2 ++ EvBroadcast t2 r2 :: pre2 →
  post1 = post2 ∧ t1 = t2 ∧ r1 = r2 ∧ pre1 = pre2.
Proof.
  revert post2. induction post1 as [|ev post1 IH]; intros [|ev2 post2] H1 H2 Heq; simplify_eq/=; try done.
  - unfold quiet in H2. rewrite Forall_app, Forall_cons in H2. by destruct H2 as (_ & ? & _).
  - by inversion H1.
  - unfold quiet in H1. apply Forall_cons in H1 as [_ H1]. destruct (IH post2) as (-> & -> & -> & ->); done.
Qed.

Lemma Good_split tr post t r pre : Good tr → tr = post ++ EvBroadcast t r :: pre →
  quiet post ∧ quiet pre ∧ announced t pre.
Proof.
  intros [Hq|(post' & t' & r' & pre' & Heq & Hpo & Hpr & Ha)] ->.
  - unfold quiet in Hq. rewrite Forall_app, Forall_cons in Hq. by destruct Hq as (_ & ? & _).
  - destruct (quiet_split _ _ _ _ _ _ _ _ Hpo Hpr (eq_sym Heq)) as (-> & -> & -> & ->). done.
Qed.

Lemma SavesOk_split tr post s r pre : SavesOk retry tr → tr = post ++ EvSave s r :: pre →
  ∃ d, durable pre = Some d ∧ js_revision s = js_revision d ∧ evolves retry (js_entry d) (js_entry s).
Proof.
  intros H ->. induction post as [|ev post IH]; simpl in H; [apply H|]. apply IH, H.
Qed.
End discipline.

(** ** Recording the calls changes nothing else *)

Section erasure.
Context {W : Type} (rawGasLimit : string → option Z) (owner : string).
Context (J : IssuanceJournal W) (T : IssuanceTransport W) (V : IssuanceEvidenceSink W) (O : Options W).

Definition erase (L : Local (W := Traced (W := W))) : Local (W := W) :=
  mkLocal (snap L) (budgetReservedThisPass L) (world L).1.
Definition erases {A} (m' : M (Local (W := Traced (W := W))) A) (m : M (Local (W := W)) A) : Prop :=
  ∀ L, (m' L).1 = (m (erase L)).1 ∧ erase (m' L).2 = (m (erase L)).2.

Lemma erases_ret {A} (a : A) : erases (ret a) (ret a).
Proof. done. Qed.
Lemma erases_throw {A} e : erases (throw e : M _ A) (throw e).
Proof. done. Qed.
Lemma erases_bind {A B} m' m (k' : A → M _ B) k : erases m' m → (∀ a, erases (k' a) (k a)) →
  erases (bind m' k') (bind m k).
Proof.
  intros Hm Hk L. destruct (Hm L) as [H1 H2]. unfold bind. destruct (m' L) as [[a|e] L'], (m (erase L)) as [o L2];
    simpl in *; subst; [apply Hk|done].
Qed.
Lemma erases_gets {A} (f' : Local (W := Traced (W := W)) → A) (f : Local (W := W) → A) :
  (∀ L, f' L = f (erase L)) → erases (gets f') (gets f).
Proof. intros H L. unfold gets; simpl. by rewrite H. Qed.
Lemma erases_modify (f' : Local (W := Traced (W := W)) → _) (f : Local (W := W) → _) :
  (∀ L, erase (f' L) = f (erase L)) → erases (modify f') (modify f).
Proof. intros H L. unfold modify; simpl. by rewrite H. Qed.
Lemma erases_lift_out {A} (o : outcome A) : erases (lift_out o) (lift_out o).
Proof. done. Qed.
Lemma erases_require b e : erases (require b e) (require b e).
Proof. by destruct b. Qed.
Lemma erases_when b m' m : erases m' m → erases (when b m') (when b m).
Proof. by destruct b. Qed.
Lemma erases_tryCatch {A} (m' : M _ A) m h' h : erases m' m → (∀ e, erases (h' e) (h e)) →
  erases (tryCatch m' h') (tryCatch m h).
Proof.
  intros Hm Hk L. destruct (Hm L) as [H1 H2]. unfold tryCatch. destruct (m' L) as [[a|e] L'], (m (erase L)) as [o L2];
    simpl in *; subst; [done|apply Hk].
Qed.
Lemma erases_tryFinally {A} (m' : M _ A) m f' f : erases m' m → erases f' f →
  erases (tryFinally m' f') (tryFinally m f).
Proof.
  intros Hm Hf L. destruct (Hm L) as [H1 H2]. unfold tryFinally.
  destruct (m' L) as [o L'], (m (erase L)) as [o2 L2]; simpl in *; subst. destruct (Hf L') as [H3 H4].
  destruct (f' L') as [[]L3], (f (erase L')) as [? L4]; simpl in *; by subst.
Qed.
Lemma erases_quietly {A} (m : M W A) : erases (call (quietly m)) (call m).
Proof. intros [s f [w tr]]. unfold call, zoom, quietly, erase; simpl. by destruct (m w). Qed.
Lemma erases_logging {A} (m : M W A) ev : erases (call (logging ev m)) (call m).
Proof. intros [s f [w tr]]. unfold call, zoom, logging, erase; simpl. by destruct (m w). Qed.

Ltac erases_go := repeat first
  [ apply erases_ret | apply erases_throw | apply erases_quietly | apply erases_logging
  | apply erases_lift_out | apply erases_require
  | apply erases_bind; [|intros ?] | apply erases_gets; intros []; reflexivity
  | apply erases_modify; intros []; reflexivity
  | apply erases_when | apply erases_tryCatch; [|intros ?] | apply erases_tryFinally
  | match goal with |- erases (if ?b then _ else _) _ => destruct b end
  | match goal with |- erases (match ?b with _ => _ end) _ => destruct b end ].

Lemma erases_save : erases (save owner (loggedJournal J)) (save owner J).
Proof. unfold save, setSnap. erases_go. Qed.
Lemma erases_setEntry f : erases (setEntry f) (setEntry f).
Proof. unfold setEntry. erases_go. Qed.
Lemma erases_failWith err : erases (failWith owner (loggedJournal J) err) (failWith owner J err).
Proof. unfold failWith. apply erases_bind; [apply erases_setEntry|intros _; apply erases_save]. Qed.
Lemma erases_reserve b t : erases (reserve rawGasLimit (loggedBudget b) t) (reserve rawGasLimit b t).
Proof. unfold reserve. erases_go. Qed.

Ltac erases_all := repeat first
  [ apply erases_save | apply erases_setEntry | apply erases_failWith | apply erases_reserve | progress erases_go ].

Lemma erases_body :
  erases (body rawGasLimit owner (loggedJournal J) (loggedTransport T) (loggedEvidence V) (loggedOptions O))
         (body rawGasLimit owner J T V O).
Proof.
  unfold body, steps, stayFailed, expirePreparation, storeEvidence, notApproved, retryReverted, sign, reserveAgain,
    deliver, send, confirm, reconcile, mayRetry. simpl.
  destruct (budget O) as [b|]; simpl; erases_all.
Qed.

Lemma erases_recover id err :
  erases (recover owner (loggedJournal J) id err) (recover owner J id err).
Proof. unfold recover, setSnap. erases_all. Qed.

(** The logged step returns what the plain step returns, and leaves the same world. *)
Lemma advance_erases id w tr :
  let p := advanceIssuance rawGasLimit owner (loggedJournal J) (loggedTransport T) (loggedEvidence V)
             (loggedOptions O) id (w, tr) in
  (p.1, p.2.1) = advanceIssuance rawGasLimit owner J T V O id w.
Proof.
  unfold advanceIssuance. simpl. unfold logging. simpl. destruct (j_acquire J id owner w) as [[s|e] w1]; simpl; [|done].
  assert (erases
    (tryFinally
      (tryCatch (body rawGasLimit owner (loggedJournal J) (loggedTransport T) (loggedEvidence V) (loggedOptions O))
        (recover owner (loggedJournal J) id))
      (tryCatch (call (j_release (loggedJournal J) id owner)) (λ _, ret tt)))
    (tryFinally (tryCatch (body rawGasLimit owner J T V O) (recover owner J id))
      (tryCatch (call (j_release J id owner)) (λ _, ret tt)))) as H.
  { apply erases_tryFinally; [apply erases_tryCatch; [apply erases_body|intros; apply erases_recover]|]. erases_all. }
  destruct (H (mkLocal s false (w1, EvAcquire (Ok s) :: tr))) as [H1 H2]. unfold erase in H1, H2. simpl in H1, H2.
  destruct (tryFinally _ _ _) as [o L], (tryFinally _ _ _) as [o2 L2]. simpl in *. by subst.
Qed.
End erasure.

(** C23. Whatever a journal with the laws of its interface, the transport, the
    evidence sink and the budget do or throw, one step of the delivery broadcasts at
    most once; the transaction broadcast is the one the journal durably holds, saved as
    submitted by the last save before it for an approved request whose evidence is
    stored, the evidence sink allowed it after that save, and with a budget configured
    its gas was reserved before; recording the calls changes no result. *)
Theorem write_ahead {W} (rawGasLimit : string → option Z) (owner : string) (J : IssuanceJournal W)
    `{!JournalLaws J} (T : IssuanceTransport W) (V : IssuanceEvidenceSink W) (O : Options W)
    (id : string) (w : W) :
  let p := advanceIssuance rawGasLimit owner (loggedJournal J) (loggedTransport T) (loggedEvidence V)
             (loggedOptions O) id (w, []) in
  (p.1, p.2.1) = advanceIssuance rawGasLimit owner J T V O id w ∧
  ∀ post t r pre, p.2.2 = post ++ EvBroadcast t r :: pre →
    quiet post ∧ quiet pre ∧
    ∃ s s' pre', pre = EvMay (js_entry s') (Ok tt) :: EvSave s (Ok s') :: pre'
      ∧ js_entry s' = js_entry s ∧ phase (js_entry s) = submitted
      ∧ transaction (js_entry s) = Some t ∧ io_status (outcome_ (js_entry s)) = ISSUED
      ∧ evidenceStored (js_entry s) = true
      ∧ ∀ b, budget O = Some b → ∃ g, gasLimitOf rawGasLimit t = Ok g
          ∧ EvReserve (si_hash t) (t_issuer (target (js_entry s))) g (Ok tt) ∈ pre'.
Proof.
  intros p. split; [apply advance_erases|]. intros post t r pre Heq.
  destruct (advance_Base rawGasLimit owner J T V O id w) as [_ HG].
  destruct (Good_split _ _ _ _ _ _ _ HG Heq) as (H1 & H2 & s & s' & pre' & ? & ? & ? & Ht & ? & ? & Hr).
  split; [done|]. split; [done|]. exists s, s', pre'. split_and!; try done. intros b Hb. by apply (Hr b t).
Qed.

(** Every entry a step saves is made from the snapshot the journal last
    answered with, at its revision: the request, wallet, consent, policies, target,
    approved outcome and evidence record are unchanged, stored evidence stays stored,
    recorded reverted transactions are only appended to, and a journaled transaction is
    kept, unless it is recorded as reverted by the source and the caller asked for a
    retry. *)
Theorem journal_evolution {W} (rawGasLimit : string → option Z) (owner : string) (J : IssuanceJournal W)
    `{!JournalLaws J} (T : IssuanceTransport W) (V : IssuanceEvidenceSink W) (O : Options W)
    (id : string) (w : W) post s r pre :
  (advanceIssuance rawGasLimit owner (loggedJournal J) (loggedTransport T) (loggedEvidence V)
     (loggedOptions O) id (w, [])).2.2 = post ++ EvSave s r :: pre →
  ∃ d, durable pre = Some d ∧ js_revision s = js_revision d ∧ frozen (js_entry d) (js_entry s) ∧
    (evidenceStored (js_entry d) = true → evidenceStored (js_entry s) = true) ∧
    (∃ l, revertedTransactions (js_entry s) = revertedTransactions (js_entry d) ++ l) ∧
    ∀ t, transaction (js_entry d) = Some t →
      transaction (js_entry s) = Some t ∨ dropped (retryFailed O) (js_entry d) (js_entry s) t.
Proof.
  intros Heq. destruct (advance_Base rawGasLimit owner J T V O id w) as [HS _].
  destruct (SavesOk_split _ _ _ _ _ _ HS Heq) as (d & Hd & Hr & Hf & He & Hl & Ht). exists d. by split_and!.
Qed.

(** ** The Redis journal keeps the promise *)

Definition redisJournal (encrypt : string → string → string → string) (decrypt : string → string → option string)
    (stringify : IssuanceEntry → string) (parse : string → option IssuanceEntry) (digest : string → string)
    (iv : string) (numberText : Z → string) : IssuanceJournal Server := {|
  j_get := JournalClient.get encrypt decrypt stringify parse digest iv numberText;
  j_acquire := JournalClient.acquire encrypt decrypt stringify parse digest iv numberText;
  j_save := JournalClient.save encrypt decrypt stringify parse digest iv numberText;
  j_release := JournalClient.release encrypt stringify digest iv numberText |}.

Lemma redisJournal_laws encrypt decrypt stringify parse digest iv numberText :
  (∀ iv aad p, decrypt aad (encrypt iv aad p) = Some p) → (∀ e, parse (stringify e) = Some e) →
  JournalLaws (redisJournal encrypt decrypt stringify parse digest iv numberText).
Proof.
  intros Hd Hj s o w s' w' Hs.
  destruct (save_roundtrip encrypt decrypt stringify parse digest iv numberText Hd s s' o w w' (Hj _) Hs) as (H1 & H2 & _).
  done.
Qed.

(** ** An approved request with its evidence stored, delivered by collaborators that all succeed *)

Definition exSigned : SignedIssuance := {|
  si_hash := "0xh"; si_raw := "0xraw"; si_nonce := 7; si_chainId := 11155111; si_source := "0xSrc"; si_issuer := "0xIss";
  si_gasLimit := Some "210000" |}.
Definition exJournal : IssuanceJournal JournalSnapshot := {|
  j_get _ := gets Some; j_acquire _ _ := getS;
  j_save s _ := let s' := {| js_revision := js_revision s + 1; js_entry := js_entry s |} in putS s' ;;; ret s';
  j_release _ _ := ret tt |}.
#[export] Instance exJournal_laws : JournalLaws exJournal.
Proof. intros s o w s' w' H. simpl in H. injection H as <- _. done. Qed.
Definition exTransport : IssuanceTransport JournalSnapshot := {|
  assertTarget _ := ret tt; processed _ := ret false; prepare _ := ret exSigned; broadcast _ := ret tt;
  receipt _ := ret RPending; materialized _ _ := ret false |}.
Definition exEvidence : IssuanceEvidenceSink JournalSnapshot := {|
  ev_put _ := ret tt; ev_assertMayBroadcast _ := ret tt; ev_sourceConfirmed _ _ := ret tt; ev_materialized _ := ret tt |}.
Definition exOptions : Options JournalSnapshot := {|
  retryFailed := false; now := ret 2000;
  budget := Some {| bd_reserve _ _ _ := ret tt; bd_reconcile _ _ _ := ret tt |} |}.
Definition exStart : JournalSnapshot := {| js_revision := 1; js_entry := exEntry |}.
Definition exDelivery :=
  advanceIssuance (λ _, None) "w1" (loggedJournal exJournal) (loggedTransport exTransport) (loggedEvidence exEvidence)
    (loggedOptions exOptions) exId (exStart, []).
(** The trace: the last save and the reads after the broadcast; what came before it. *)
Definition exPost : list Event := Eval vm_compute in take 1 exDelivery.2.2.
Definition exPre : list Event := Eval vm_compute in drop 2 exDelivery.2.2.
Definition exLast : JournalSnapshot :=
  Eval vm_compute in match exPost with EvSave s _ :: _ => s | _ => exStart end.
Definition exAnswer : outcome JournalSnapshot :=
  Eval vm_compute in match exPost with EvSave _ r :: _ => r | _ => Throw EStoreWrite end.
Lemma exDelivery_trace :
  (advanceIssuance (λ _, None) "w1" (loggedJournal exJournal) (loggedTransport exTransport) (loggedEvidence exEvidence)
    (loggedOptions exOptions) exId (exStart, [])).2.2 = exPost ++ EvBroadcast exSigned (Ok tt) :: exPre.
Proof. vm_compute. reflexivity. Qed.
Lemma exDelivery_saved :
  (advanceIssuance (λ _, None) "w1" (loggedJournal exJournal) (loggedTransport exTransport) (loggedEvidence exEvidence)
    (loggedOptions exOptions) exId (exStart, [])).2.2
  = [] ++ EvSave exLast exAnswer :: EvBroadcast exSigned (Ok tt) :: exPre.
Proof. vm_compute. reflexivity. Qed.

Lemma write_ahead_witness :
  quiet exPost ∧ quiet exPre ∧ ∃ s s' pre', exPre = EvMay (js_entry s') (Ok tt) :: EvSave s (Ok s') :: pre'
    ∧ transaction (js_entry s) = Some exSigned.
Proof.
  destruct (proj2 (write_ahead (λ _, None) "w1" exJournal exTransport exEvidence exOptions exId exStart)
    exPost exSigned (Ok tt) exPre exDelivery_trace) as (H1 & H2 & s & s' & pre' & H3 & _ & _ & H4 & _).
  split; [exact H1|]. split; [exact H2|]. exists s, s', pre'. split; [exact H3|exact H4].
Defined.

Lemma journal_evolution_witness :
  ∃ d, durable (EvBroadcast exSigned (Ok tt) :: exPre) = Some d ∧ js_revision exLast = js_revision d
    ∧ transaction (js_entry exLast) = Some exSigned.
Proof.
  destruct (journal_evolution (λ _, None) "w1" exJournal exTransport exEvidence exOptions exId exStart [] exLast exAnswer
    (EvBroadcast exSigned (Ok tt) :: exPre) exDelivery_saved) as (d & Hd & Hr & _).
  exists d. split; [exact Hd|]. split; [exact Hr|]. reflexivity.
Defined.
End Delivery.
