(* ===== verification/Attrs.v ===== *)
(** The packed attributes of a mark and the checks on credentials and policies built on them:
    [src/pipeline/attrs.ts] (Module Attrs), [methods.ts] (Module Methods) and [policy.ts] (Module
    Policy).  Packing and unpacking are inverse to each other, bit for bit, exactly on the values
    in range; a valid credential is determined by its fields. *)

From Stdlib Require Import ZArith Lia Ascii String.
From stdpp Require Import base decidable option list strings pretty.
From S2P Require Import Prelude JS Roster.
Local Open Scope string_scope.
Local Open Scope list_scope.
Local Open Scope Z_scope.

(** * 32-bit operators of JavaScript *)

Definition int32 (n : Z) : Z := let m := n mod 2 ^ 32 in if m <? 2 ^ 31 then m else m - 2 ^ 32.
Definition jsAnd (a b : Z) : Z := int32 (Z.land (a mod 2 ^ 32) (b mod 2 ^ 32)).
Definition jsOr (a b : Z) : Z := int32 (Z.lor (a mod 2 ^ 32) (b mod 2 ^ 32)).
Definition jsNot (a : Z) : Z := - int32 a - 1.
Definition jsShl (a n : Z) : Z := int32 (Z.shiftl (a mod 2 ^ 32) n).

(** * Hexadecimal numbers: [BigInt('0x…')] *)

Definition hexNibble (c : ascii) : Z :=
  let n := Z.of_nat (nat_of_ascii (lower_ascii c)) in if n <? 58 then n - 48 else n - 87.
Fixpoint hexFrom (acc : Z) (s : string) : Z :=
  match s with EmptyString => acc | String c s => hexFrom (16 * acc + hexNibble c) s end.
Definition hexValue (s : string) : Z := hexFrom 0 (Roster.hexBody s).

Lemma hexFrom_app acc s t : hexFrom acc (s +:+ t) = hexFrom (hexFrom acc s) t.
Proof. revert acc. induction s as [|c s IH]; intros acc; [done|apply IH]. Qed.

Lemma hexNibble_digit n : 0 ≤ n < 16 → hexNibble (Roster.hexDigit n) = n.
Proof.
  intros Hn. assert (∃ k : nat, (k < 16)%nat ∧ n = Z.of_nat k) as (k & Hk & ->) by (exists (Z.to_nat n); lia).
  do 16 (destruct k as [|k]; [reflexivity|]). lia.
Qed.

Lemma hexFrom_digits k acc n : 0 ≤ n < 16 ^ Z.of_nat k → hexFrom acc (Roster.hexDigits k n) = acc * 16 ^ Z.of_nat k + n.
Proof.
  revert acc n. induction k as [|k IH]; intros acc n Hn; [cbn in *; lia|].
  rewrite Nat2Z.inj_succ, Z.pow_succ_r in * by lia. cbn [Roster.hexDigits]. rewrite hexFrom_app. cbn [hexFrom].
  pose proof (Z.div_mod n 16). pose proof (Z.mod_pos_bound n 16).
  rewrite IH by (split; [apply Z.div_pos; lia|apply Z.div_lt_upper_bound; lia]).
  rewrite hexNibble_digit by lia. lia.
Qed.

Lemma hexNibble_range c : isHex c = true → 0 ≤ hexNibble c < 16.
Proof. destruct c as [[] [] [] [] [] [] [] []]; vm_compute; intuition congruence. Qed.
Lemma hexDigit_nibble c : isHex c = true → Roster.hexDigit (hexNibble c) = lower_ascii c.
Proof. destruct c as [[] [] [] [] [] [] [] []]; vm_compute; congruence. Qed.

(** Hexadecimal characters are the digits of the number they denote. *)
Lemma hexDigits_snoc k n d : 0 ≤ d < 16 → Roster.hexDigits (S k) (16 * n + d) = Roster.hexDigits k n +:+ String (Roster.hexDigit d) "".
Proof.
  intros Hd. cbn [Roster.hexDigits]. rewrite (Z.add_comm (16 * n)), (Z.mul_comm 16), Z.div_add, Z.mod_add by lia.
  rewrite Z.div_small, Z.mod_small by lia. done.
Qed.
Lemma app_str_nil_r s : s +:+ "" = s.
Proof. induction s as [|c s IH]; [done|]. change (String c (s +:+ "") = String c s). by rewrite IH. Qed.
Lemma hex_app_assoc (a b c : string) : (a +:+ b) +:+ c = a +:+ (b +:+ c).
Proof. induction a as [|x a IH]; [done|]. change (String x ((a +:+ b) +:+ c) = String x (a +:+ (b +:+ c))). by rewrite IH. Qed.
Lemma hexDigits_from s k n : allChars isHex s = true →
  Roster.hexDigits (k + String.length s) (hexFrom n s) = Roster.hexDigits k n +:+ toLowerCase s.
Proof.
  revert k n. induction s as [|c s IH]; intros k n; cbn [allChars hexFrom String.length toLowerCase].
  - intros _. by rewrite Nat.add_0_r, app_str_nil_r.
  - intros [Hc Hs]%andb_true_iff. rewrite <-Nat.add_succ_comm, IH by done.
    rewrite hexDigits_snoc by by apply hexNibble_range. rewrite hexDigit_nibble by done.
    by rewrite hex_app_assoc.
Qed.
Lemma hexFrom_bound s n : allChars isHex s = true → 0 ≤ n →
  n * 16 ^ Z.of_nat (String.length s) ≤ hexFrom n s < (n + 1) * 16 ^ Z.of_nat (String.length s).
Proof.
  revert n. induction s as [|c s IH]; intros n; cbn [allChars hexFrom String.length]; [cbn; lia|].
  intros [Hc Hs]%andb_true_iff Hn. pose proof (hexNibble_range c Hc).
  rewrite Nat2Z.inj_succ, Z.pow_succ_r by lia. specialize (IH (16 * n + hexNibble c) Hs ltac:(lia)).
  pose proof (Z.pow_pos_nonneg 16 (Z.of_nat (String.length s))). nia.
Qed.

Lemma isBytes32_body s : isBytes32 s = true →
  s = "0x" +:+ Roster.hexBody s ∧ String.length (Roster.hexBody s) = 64%nat ∧ allChars isHex (Roster.hexBody s) = true.
Proof.
  unfold isBytes32, hexString. repeat (case_match; try done). intros [Hl%Nat.eqb_eq Hh]%andb_true_iff. done.
Qed.
Lemma hexValue_bound s : isBytes32 s = true → 0 ≤ hexValue s < 2 ^ 256.
Proof.
  intros (_ & Hl & Hh)%isBytes32_body. pose proof (hexFrom_bound (Roster.hexBody s) 0 Hh ltac:(lia)) as H.
  rewrite Hl in H. unfold hexValue. change (16 ^ Z.of_nat 64) with (2 ^ 256) in H. lia.
Qed.
Lemma hexDigits_from0 s : allChars isHex s = true →
  Roster.hexDigits (String.length s) (hexFrom 0 s) = toLowerCase s.
Proof. intros Hs. exact (hexDigits_from s 0 0 Hs). Qed.
Lemma lower_0x s : toLowerCase ("0x" +:+ s) = "0x" +:+ toLowerCase s.
Proof. reflexivity. Qed.
Lemma hexValue_word s : isBytes32 s = true → "0x" +:+ Roster.hexDigits 64 (hexValue s) = toLowerCase s.
Proof.
  intros (Hs & Hl & Hh)%isBytes32_body. unfold hexValue. rewrite Hs at 2. rewrite lower_0x.
  f_equal. rewrite <-Hl at 1. by apply hexDigits_from0.
Qed.
Lemma hexDigit_lower n : 0 ≤ n < 16 → isLowerHex (Roster.hexDigit n) = true.
Proof.
  intros Hn. assert (∃ k : nat, (k < 16)%nat ∧ n = Z.of_nat k) as (k & Hk & ->) by (exists (Z.to_nat n); lia).
  do 16 (destruct k as [|k]; [reflexivity|]). lia.
Qed.
Lemma hexDigits_hex k n : 0 ≤ n → allChars isLowerHex (Roster.hexDigits k n) = true.
Proof.
  revert n. induction k as [|k IH]; intros n Hn; [done|]. cbn [Roster.hexDigits]. rewrite allChars_app.
  rewrite IH by (apply Z.div_pos; lia). cbn [allChars]. pose proof (Z.mod_pos_bound n 16).
  by rewrite hexDigit_lower by lia.
Qed.
Lemma word_isLowerBytes32 n : 0 ≤ n → isLowerBytes32 ("0x" +:+ Roster.hexDigits 64 n) = true.
Proof.
  intros Hn. unfold isLowerBytes32. change (hexString isLowerHex 64 ("0x" +:+ Roster.hexDigits 64 n))
    with (Nat.eqb (String.length (Roster.hexDigits 64 n)) 64 && allChars isLowerHex (Roster.hexDigits 64 n)).
  by rewrite hexDigits_hex, Roster.hexDigits_length.
Qed.
Lemma allChars_mono (p q : ascii → bool) s : (∀ c, p c = true → q c = true) → allChars p s = true → allChars q s = true.
Proof.
  intros Hpq. induction s as [|c s IH]; cbn [allChars]; [done|]. rewrite !andb_true_iff. intros [? ?]. auto.
Qed.
Lemma lowerHex_hex c : isLowerHex c = true → isHex c = true.
Proof. destruct c as [[] [] [] [] [] [] [] []]; vm_compute; congruence. Qed.
Lemma lowerBytes32_bytes32 s : isLowerBytes32 s = true → isBytes32 s = true.
Proof.
  unfold isBytes32, isLowerBytes32, hexString. repeat (case_match; try done). rewrite !andb_true_iff.
  intros [? ?]. split; [done|]. eapply allChars_mono; [|done]. apply lowerHex_hex.
Qed.
Lemma hexValue_of_word n : 0 ≤ n < 2 ^ 256 → hexValue ("0x" +:+ Roster.hexDigits 64 n) = n.
Proof.
  intros Hn. unfold hexValue. change (Roster.hexBody ("0x" +:+ Roster.hexDigits 64 n)) with (Roster.hexDigits 64 n).
  rewrite hexFrom_digits; [lia|]. change (16 ^ Z.of_nat 64) with (2 ^ 256). done.
Qed.

(** * Packed attributes *)

Module Attrs.

Record MarkAttrsInput := mkAttrs {
  kind : Z; assurance : Z; regime : Z; jurisdiction : Z; methods : Z; issuedAt : Z; expiry : Z; epoch : Z }.
#[export] Instance MarkAttrsInput_eq_dec : EqDecision MarkAttrsInput.
Proof. solve_decision. Defined.

(** The entries of [LIMITS], in the order of the literal, with the field each one reads. *)
Definition LIMITS : list (string * (MarkAttrsInput → Z) * Z) :=
  [("kind", kind, 0xff); ("assurance", assurance, 0xff); ("regime", regime, 0xffff);
   ("jurisdiction", jurisdiction, 0xffff); ("methods", methods, 0xffffffff);
   ("issuedAt", issuedAt, 0xffffffffff); ("expiry", expiry, 0xffffffffff); ("epoch", epoch, 0xffffffff)].

Definition ATTRS_SCHEMA_VERSION : Z := 0.
Definition SUPPORTED_METHODS : Z := 0x001f07ff.

Fixpoint checkLimits (a : MarkAttrsInput) (l : list (string * (MarkAttrsInput → Z) * Z)) : outcome unit :=
  match l with
  | [] => Ok tt
  | (k, field, max) :: l =>
      let? _ := orequire (isSafeInteger (field a)) (EError ("packAttrs: " +:+ k +:+ " must be a safe integer")) in
      let? _ := orequire ((0 <=? field a) && (field a <=? max))
        (EError ("packAttrs: " +:+ k +:+ "=" +:+ pretty (field a) +:+ " is out of range (max " +:+ pretty max +:+ ")")) in
      checkLimits a l
  end.

Definition packValue (a : MarkAttrsInput) : Z :=
  Z.lor (Z.lor (Z.lor (Z.lor (Z.lor (Z.lor (Z.lor
    (Z.shiftl (kind a) 248) (Z.shiftl (assurance a) 240)) (Z.shiftl (regime a) 224))
    (Z.shiftl (jurisdiction a) 208)) (Z.shiftl (methods a) 176)) (Z.shiftl (issuedAt a) 136))
    (Z.shiftl (expiry a) 96)) (Z.shiftl (epoch a) 64).

(** [zeroPadValue(toBeHex(v), 32)]: the 64 lower-case digits of [v]. *)
Definition packAttrs (a : MarkAttrsInput) : outcome string :=
  let? _ := checkLimits a LIMITS in Ok ("0x" +:+ Roster.hexDigits 64 (packValue a)).

Definition at_ (v shift mask : Z) : Z := Z.land (Z.shiftr v shift) mask.
Definition unpackValue (v : Z) : MarkAttrsInput :=
  mkAttrs (at_ v 248 0xff) (at_ v 240 0xff) (at_ v 224 0xffff) (at_ v 208 0xffff) (at_ v 176 0xffffffff)
    (at_ v 136 0xffffffffff) (at_ v 96 0xffffffffff) (at_ v 64 0xffffffff).
Definition unpackAttrs (attrs : string) : outcome MarkAttrsInput :=
  let? _ := orequire (isBytes32 attrs) (EError "unpackAttrs: expected exactly bytes32") in
  Ok (unpackValue (hexValue attrs)).

Definition validCredentialAttrs (attrs : string) (now : option Z) : bool :=
  if negb (isBytes32 attrs) then false
  else
    let a := unpackValue (hexValue attrs) in
    (Z.land (hexValue attrs) 0xffffffffffffffff =? 0)
    && ((kind a =? 1) || (kind a =? 2)) && (1 <=? assurance a) && (assurance a <=? 5)
    && ((regime a =? 1) || (regime a =? 2)) && (1 <=? jurisdiction a) && (jurisdiction a <=? 999)
    && (jsAnd (methods a) (jsNot SUPPORTED_METHODS) =? 0) && (0 <? issuedAt a) && (issuedAt a <? expiry a)
    && match now with
       | None => true
       | Some now => isSafeInteger now && (0 <=? now) && (issuedAt a <=? now) && (now <? expiry a)
       end.

(** ** Bits *)

(** The fields: where each starts and how wide it is. *)
Definition inRange (a : MarkAttrsInput) : Prop :=
  0 ≤ kind a < 2 ^ 8 ∧ 0 ≤ assurance a < 2 ^ 8 ∧ 0 ≤ regime a < 2 ^ 16 ∧ 0 ≤ jurisdiction a < 2 ^ 16
  ∧ 0 ≤ methods a < 2 ^ 32 ∧ 0 ≤ issuedAt a < 2 ^ 40 ∧ 0 ≤ expiry a < 2 ^ 40 ∧ 0 ≤ epoch a < 2 ^ 32.

Lemma checkLimits_ok a : checkLimits a LIMITS = Ok tt ↔ inRange a.
Proof.
  unfold inRange. assert (∀ k field max l, max ≤ MAX_SAFE_INTEGER →
    checkLimits a ((k, field, max) :: l) = Ok tt ↔ (0 ≤ field a ≤ max) ∧ checkLimits a l = Ok tt) as Hstep.
  { intros k field max l Hmax. cbn [checkLimits].
    destruct (isSafeInteger (field a)) eqn:Hs; cbn [orequire obind].
    - destruct (_ && _) eqn:Hb; cbn [orequire obind].
      + apply andb_true_iff in Hb as [?%Z.leb_le ?%Z.leb_le]. naive_solver lia.
      + split; [done|]. intros [[H1 H2] _]. apply andb_false_iff in Hb as [?%Z.leb_gt|?%Z.leb_gt]; lia.
    - split; [done|]. intros [[H1 H2] _].
      assert (isSafeInteger (field a) = true); [|congruence]. apply isSafeInteger_spec. unfold MAX_SAFE_INTEGER in *. lia. }
  unfold LIMITS. rewrite !Hstep by (unfold MAX_SAFE_INTEGER; lia). cbn [checkLimits].
  change (2 ^ 8) with (0xff + 1). change (2 ^ 16) with (0xffff + 1). change (2 ^ 32) with (0xffffffff + 1).
  change (2 ^ 40) with (0xffffffffff + 1). intuition lia.
Qed.

(** A field read at its own place, above another, and below another. *)
Lemma at_lor x y s m : at_ (Z.lor x y) s m = Z.lor (at_ x s m) (at_ y s m).
Proof. unfold at_. by rewrite Z.shiftr_lor, Z.land_lor_distr_l. Qed.
Lemma at_same x s w : 0 ≤ s → 0 ≤ w → 0 ≤ x < 2 ^ w → at_ (Z.shiftl x s) s (Z.ones w) = x.
Proof.
  intros Hs Hw Hx. unfold at_. rewrite Z.shiftr_shiftl_l, Z.sub_diag, Z.shiftl_0_r by lia.
  rewrite Z.land_ones, Z.mod_small by lia. done.
Qed.
Lemma at_above x t s w : 0 ≤ s → 0 ≤ w → s + w ≤ t → at_ (Z.shiftl x t) s (Z.ones w) = 0.
Proof.
  intros Hs Hw Ht. unfold at_. rewrite Z.shiftr_shiftl_l by lia. rewrite Z.land_ones by lia.
  rewrite Z.shiftl_mul_pow2 by lia. replace (t - s) with ((t - s - w) + w) by lia.
  rewrite Z.pow_add_r by lia. rewrite Z.mul_assoc. apply Z.mod_mul. pose proof (Z.pow_pos_nonneg 2 w). lia.
Qed.
Lemma at_below x t u s m : 0 ≤ t → 0 ≤ u → 0 ≤ x < 2 ^ u → t + u ≤ s → at_ (Z.shiftl x t) s m = 0.
Proof.
  intros Ht Hu Hx Hs. unfold at_. rewrite Z.shiftr_shiftl_r by lia.
  rewrite Z.shiftr_div_pow2 by lia. rewrite Z.div_small; [apply Z.land_0_l|].
  split; [lia|]. eapply Z.lt_le_trans; [apply Hx|]. apply Z.pow_le_mono_r; lia.
Qed.

Lemma unpack_pack a : inRange a → unpackValue (packValue a) = a.
Proof.
  intros (H1 & H2 & H3 & H4 & H5 & H6 & H7 & H8). destruct a as [a1 a2 a3 a4 a5 a6 a7 a8]. simpl in *.
  unfold unpackValue, packValue. cbn [kind assurance regime jurisdiction methods issuedAt expiry epoch].
  change 0xff with (Z.ones 8). change 0xffff with (Z.ones 16). change 0xffffffff with (Z.ones 32).
  change 0xffffffffff with (Z.ones 40). rewrite !at_lor.
  f_equal;
    repeat first [rewrite at_same by lia | rewrite at_above by lia
      | rewrite (at_below a1 _ 8) by lia | rewrite (at_below a2 _ 8) by lia | rewrite (at_below a3 _ 16) by lia
      | rewrite (at_below a4 _ 16) by lia | rewrite (at_below a5 _ 32) by lia | rewrite (at_below a6 _ 40) by lia
      | rewrite (at_below a7 _ 40) by lia | rewrite (at_below a8 _ 32) by lia ];
    by rewrite ?Z.lor_0_l, ?Z.lor_0_r.
Qed.

Lemma testbit_field v s w i : 0 ≤ s → 0 ≤ w → 0 ≤ i →
  Z.testbit (Z.shiftl (at_ v s (Z.ones w)) s) i = (s <=? i) && (i <? s + w) && Z.testbit v i.
Proof.
  intros Hs Hw Hi. rewrite Z.shiftl_spec by done. destruct (Z.leb_spec s i) as [Hsi|Hsi]; cbn [andb].
  - unfold at_. rewrite Z.land_spec, Z.shiftr_spec, Z.testbit_ones_nonneg by lia.
    replace (i - s + s) with i by lia. rewrite andb_comm. f_equal.
    destruct (Z.ltb_spec (i - s) w), (Z.ltb_spec i (s + w)); lia || done.
  - by rewrite Z.testbit_neg_r by lia.
Qed.

Lemma pack_unpack v : 0 ≤ v < 2 ^ 256 → Z.land v 0xffffffffffffffff = 0 → packValue (unpackValue v) = v.
Proof.
  intros Hv Hz. unfold packValue, unpackValue. cbn [kind assurance regime jurisdiction methods issuedAt expiry epoch].
  change 0xff with (Z.ones 8). change 0xffff with (Z.ones 16). change 0xffffffff with (Z.ones 32).
  change 0xffffffffff with (Z.ones 40). apply Z.bits_inj'. intros i Hi. rewrite !Z.lor_spec, !testbit_field by lia.
  destruct (Z_lt_le_dec i 64) as [H1|H1].
  - assert (Z.testbit v i = false) as ->; [|by rewrite !andb_false_r].
    pose proof (f_equal (λ x, Z.testbit x i) Hz) as H. change 0xffffffffffffffff with (Z.ones 64) in H.
    cbv beta in H. rewrite Z.land_spec, Z.testbit_ones_nonneg, Z.testbit_0_l in H by lia.
    by rewrite (proj2 (Z.ltb_lt i 64)), andb_true_r in H by done.
  - destruct (Z_lt_le_dec i 256) as [H2|H2].
    + destruct (Z.testbit v i); [|by rewrite !andb_false_r]. rewrite !andb_true_r.
      rewrite !orb_true_iff, !andb_true_iff, !Z.leb_le, !Z.ltb_lt. lia.
    + assert (Z.testbit v i = false) as ->; [|by rewrite !andb_false_r].
      rewrite <-(Z.mod_small v (2 ^ 256)) by done. apply Z.mod_pow2_bits_high. lia.
Qed.

Lemma unpack_inRange v : inRange (unpackValue v).
Proof.
  unfold inRange, unpackValue, at_. cbn [kind assurance regime jurisdiction methods issuedAt expiry epoch].
  change 0xff with (Z.ones 8). change 0xffff with (Z.ones 16). change 0xffffffff with (Z.ones 32).
  change 0xffffffffff with (Z.ones 40). rewrite !Z.land_ones by lia.
  split_and!; apply Z.mod_pos_bound; lia.
Qed.

Lemma packValue_bound a : inRange a → 0 ≤ packValue a < 2 ^ 256.
Proof.
  intros (H1 & H2 & H3 & H4 & H5 & H6 & H7 & H8). unfold packValue.
  assert (∀ x s w, 0 ≤ s → 0 ≤ w → s + w ≤ 256 → 0 ≤ x < 2 ^ w → 0 ≤ Z.shiftl x s < 2 ^ 256) as Hs.
  { intros x s w ? ? ? ?. rewrite Z.shiftl_mul_pow2 by done. pose proof (Z.pow_pos_nonneg 2 s).
    split; [nia|]. apply Z.lt_le_trans with (2 ^ w * 2 ^ s); [nia|]. rewrite <-Z.pow_add_r by lia.
    apply Z.pow_le_mono_r; lia. }
  assert (∀ x y, 0 ≤ x < 2 ^ 256 → 0 ≤ y < 2 ^ 256 → 0 ≤ Z.lor x y < 2 ^ 256) as Hl.
  { intros x y Hx Hy. split; [apply Z.lor_nonneg; lia|].
    destruct (Z.eq_dec (Z.lor x y) 0) as [->|Hne]; [lia|]. apply Z.log2_lt_pow2; [pose proof (proj2 (Z.lor_nonneg x y)); lia|].
    rewrite Z.log2_lor by lia. apply Z.max_lub_lt; (destruct (Z.eq_dec x 0), (Z.eq_dec y 0); subst;
      try (cbn; lia)); apply Z.log2_lt_pow2; lia. }
  repeat apply Hl; (eapply Hs; [| | |eassumption]; lia).
Qed.

Lemma packAttrs_ok a s : packAttrs a = Ok s ↔ inRange a ∧ s = "0x" +:+ Roster.hexDigits 64 (packValue a).
Proof.
  unfold packAttrs. destruct (checkLimits a LIMITS) as [[]|e] eqn:E; cbn [obind].
  - pose proof (proj1 (checkLimits_ok a) E). split; [by intros [= <-]|by intros [_ ->]].
  - split; [done|]. intros [H _]. apply checkLimits_ok in H. congruence.
Qed.

Lemma unpackAttrs_pack a s : packAttrs a = Ok s → isLowerBytes32 s = true ∧ unpackAttrs s = Ok a.
Proof.
  intros (Ha & ->)%packAttrs_ok. pose proof (packValue_bound a Ha) as Hb.
  pose proof (word_isLowerBytes32 (packValue a) ltac:(lia)) as Hw. split; [done|]. unfold unpackAttrs.
  rewrite (lowerBytes32_bytes32 _ Hw). cbn [orequire obind]. by rewrite hexValue_of_word, unpack_pack.
Qed.

Lemma packAttrs_unpack s a : unpackAttrs s = Ok a → Z.land (hexValue s) 0xffffffffffffffff = 0 →
  packAttrs a = Ok (toLowerCase s).
Proof.
  unfold unpackAttrs. destruct (isBytes32 s) eqn:Hs; [|done]. cbn [orequire obind].
  intros Ha Hz. apply (f_equal (ok_or (mkAttrs 0 0 0 0 0 0 0 0))) in Ha. cbn [ok_or] in Ha. subst a.
  apply packAttrs_ok. split; [apply unpack_inRange|]. rewrite pack_unpack by (done || by apply hexValue_bound).
  symmetry. by apply hexValue_word.
Qed.

(** The 32-bit guard on the methods is the inclusion of their bits. *)
Lemma jsAnd_zero m s : 0 ≤ m < 2 ^ 32 → 0 ≤ s < 2 ^ 31 →
  jsAnd m (jsNot s) = 0 → ∀ i, Z.testbit m i = true → Z.testbit s i = true.
Proof.
  intros Hm Hs H i Hi. unfold jsAnd, jsNot in H.
  assert (int32 s = s) as Hss.
  { unfold int32. rewrite Z.mod_small by lia. by rewrite (proj2 (Z.ltb_lt _ _)) by lia. }
  rewrite Hss in H. replace (- s - 1) with (Z.lnot s) in H by (unfold Z.lnot; lia).
  rewrite (Z.mod_small m) in H by lia. rewrite <-(Z.land_ones (Z.lnot s) 32) in H by lia.
  assert (0 ≤ i) as Hi0 by (destruct (Z_lt_le_dec i 0); [by rewrite Z.testbit_neg_r in Hi by lia|done]).
  assert (i < 32) as Hi32.
  { destruct (Z_lt_le_dec i 32); [done|]. rewrite <-(Z.mod_small m (2 ^ 32)), Z.mod_pow2_bits_high in Hi by lia. done. }
  set (x := Z.land m (Z.land (Z.lnot s) (Z.ones 32))) in *.
  assert (Z.testbit x i = negb (Z.testbit s i)) as Hx.
  { unfold x. rewrite !Z.land_spec, Z.lnot_spec, Z.testbit_ones_nonneg, Hi, (proj2 (Z.ltb_lt i 32)) by lia.
    by rewrite andb_true_r. }
  assert (x = 0) as Hx0.
  { assert (x mod 2 ^ 32 = x) as Hxm.
    { rewrite <-Z.land_ones by lia. unfold x. by rewrite <-!Z.land_assoc, Z.land_diag. }
    revert H. unfold int32. rewrite Hxm. pose proof (Z.mod_pos_bound x (2 ^ 32)). destruct (x <? 2 ^ 31); lia. }
  rewrite Hx0, Z.testbit_0_l in Hx. by destruct (Z.testbit s i).
Qed.

Lemma valid_spec s now : validCredentialAttrs s now = true →
  ∃ a, unpackAttrs s = Ok a ∧ packAttrs a = Ok (toLowerCase s) ∧ (kind a = 1 ∨ kind a = 2)
    ∧ 1 ≤ assurance a ≤ 5 ∧ (regime a = 1 ∨ regime a = 2) ∧ 1 ≤ jurisdiction a ≤ 999
    ∧ (∀ i, Z.testbit (methods a) i = true → Z.testbit SUPPORTED_METHODS i = true)
    ∧ 0 < issuedAt a < expiry a ∧ ∀ t, now = Some t → issuedAt a ≤ t < expiry a.
Proof.
  unfold validCredentialAttrs. destruct (isBytes32 s) eqn:Hs; [|done]. cbn [negb]. cbv zeta.
  assert (unpackAttrs s = Ok (unpackValue (hexValue s))) as Hu by (unfold unpackAttrs; by rewrite Hs).
  pose proof (unpack_inRange (hexValue s)) as HR.
  generalize dependent (unpackValue (hexValue s)). intros a Hu HR.
  rewrite !andb_true_iff, !orb_true_iff, !Z.leb_le, !Z.ltb_lt, !Z.eqb_eq.
  intros ((((((((((Hz & Hk) & Ha1) & Ha2) & Hr) & Hj1) & Hj2) & Hm) & Hi) & He) & Hn).
  exists a. split_and!; try done.
  - by apply packAttrs_unpack.
  - destruct HR as (_&_&_&_&?&_). apply (jsAnd_zero _ SUPPORTED_METHODS); [lia|unfold SUPPORTED_METHODS; lia|done].
  - intros t ->. rewrite !andb_true_iff, Z.leb_le, Z.leb_le, Z.ltb_lt in Hn. lia.
Qed.

(** C38. Packing succeeds exactly on fields within their bit widths, gives a lower-
    case 32-byte word, and unpacking that word gives the fields back; a word whose
    reserved bits are zero packs back to itself in lower case; a word accepted by the
    wire check unpacks to fields that pack to it, with an allowed kind, assurance,
    regime and jurisdiction, no unsupported method bit, and a validity window that
    contains the given time. *)
Theorem attrs_roundtrip (a : MarkAttrsInput) (s : string) (now : option Z) :
  (packAttrs a = Ok s → isLowerBytes32 s = true ∧ unpackAttrs s = Ok a) ∧
  (inRange a ↔ is_ok (packAttrs a) = true) ∧
  (unpackAttrs s = Ok a → Z.land (hexValue s) 0xffffffffffffffff = 0 → packAttrs a = Ok (toLowerCase s)) ∧
  (validCredentialAttrs s now = true →
   ∃ a, unpackAttrs s = Ok a ∧ packAttrs a = Ok (toLowerCase s) ∧ (kind a = 1 ∨ kind a = 2)
     ∧ 1 ≤ assurance a ≤ 5 ∧ (regime a = 1 ∨ regime a = 2) ∧ 1 ≤ jurisdiction a ≤ 999
     ∧ (∀ i, Z.testbit (methods a) i = true → Z.testbit SUPPORTED_METHODS i = true)
     ∧ 0 < issuedAt a < expiry a ∧ ∀ t, now = Some t → issuedAt a ≤ t < expiry a).
Proof.
  split_and!.
  - apply unpackAttrs_pack.
  - unfold packAttrs. rewrite <-checkLimits_ok. by destruct (checkLimits a LIMITS) as [[]|].
  - apply packAttrs_unpack.
  - apply valid_spec.
Qed.

(** An individual with three checks. *)
Definition exAttrs : MarkAttrsInput := mkAttrs 1 3 1 410 65541 1770000000 1801536000 0.
Definition exWord : string := ok_or "" (packAttrs exAttrs).
Lemma exWord_ok : packAttrs exAttrs = Ok exWord.
Proof. vm_compute. reflexivity. Qed.
Lemma attrs_roundtrip_witness : unpackAttrs exWord = Ok exAttrs ∧ validCredentialAttrs exWord (Some 1780000000) = true
  ∧ ∃ a, unpackAttrs exWord = Ok a ∧ 1 ≤ assurance a ≤ 5.
Proof.
  split; [apply (proj2 (proj1 (attrs_roundtrip exAttrs exWord None) exWord_ok))|].
  assert (validCredentialAttrs exWord (Some 1780000000) = true) as Hv by (vm_compute; reflexivity).
  split; [exact Hv|].
  destruct (proj2 (proj2 (proj2 (attrs_roundtrip exAttrs exWord (Some 1780000000)))) Hv) as (a & H1 & _ & _ & H2 & _).
  exists a. split; [exact H1|exact H2].
Defined.
End Attrs.

(** * The bitmap of checks *)

Module Methods.

Definition WALLET_CONTROL : Z := jsShl 1 0.
Definition ID_DOC_IMAGE : Z := jsShl 1 1.
Definition ID_DOC_AUTHENTICITY : Z := jsShl 1 2.
Definition FACE_MATCH : Z := jsShl 1 3.
Definition LIVENESS : Z := jsShl 1 4.
Definition BANK_ACCOUNT : Z := jsShl 1 5.
Definition MOBILE_CARRIER : Z := jsShl 1 6.
Definition VIDEO_CALL : Z := jsShl 1 7.
Definition IN_PERSON : Z := jsShl 1 8.
Definition EPASSPORT_NFC : Z := jsShl 1 9.
Definition GOV_EID : Z := jsShl 1 10.
Definition SANCTIONS_SCREENED : Z := jsShl 1 16.
Definition PEP_SCREENED : Z := jsShl 1 17.
Definition ADVERSE_MEDIA : Z := jsShl 1 18.
Definition JURISDICTION_CHECK : Z := jsShl 1 19.
Definition ONCHAIN_EXPOSURE : Z := jsShl 1 20.

Definition Methods : list (string * Z) :=
  [("WALLET_CONTROL", WALLET_CONTROL); ("ID_DOC_IMAGE", ID_DOC_IMAGE); ("ID_DOC_AUTHENTICITY", ID_DOC_AUTHENTICITY);
   ("FACE_MATCH", FACE_MATCH); ("LIVENESS", LIVENESS); ("BANK_ACCOUNT", BANK_ACCOUNT); ("MOBILE_CARRIER", MOBILE_CARRIER);
   ("VIDEO_CALL", VIDEO_CALL); ("IN_PERSON", IN_PERSON); ("EPASSPORT_NFC", EPASSPORT_NFC); ("GOV_EID", GOV_EID);
   ("SANCTIONS_SCREENED", SANCTIONS_SCREENED); ("PEP_SCREENED", PEP_SCREENED); ("ADVERSE_MEDIA", ADVERSE_MEDIA);
   ("JURISDICTION_CHECK", JURISDICTION_CHECK); ("ONCHAIN_EXPOSURE", ONCHAIN_EXPOSURE)].

Definition describeMethods (mask : Z) : list string :=
  map fst (filter (λ kv, negb (jsAnd mask kv.2 =? 0) = true) Methods).

(** The supported bits are exactly the bits with a name. *)
Lemma supported_named : Attrs.SUPPORTED_METHODS = foldr (λ kv acc, Z.lor kv.2 acc) 0 Methods.
Proof. vm_compute. reflexivity. Qed.
End Methods.

(** * Policies *)

Module Policy.
Import Methods.

Definition POLICY_SCHEMA_VERSION : Z := 2.

Record PolicyInput := {
  requireAll : Z; minAssurance : Z; maxAge : Z; requiredRegime : Z;
  requiredJurisdiction : Z; trustedIssuer : string; requireRoster : bool }.

Section policy.
(** [ethers.isAddress], and the two schema versions of a deployed registry. *)
Context (isAddress : string → bool).

(** [catch(() => null)] over both reads. *)
Definition requirePolicySchema (readAttrs readPolicy : outcome Z) : outcome unit :=
  match readAttrs, readPolicy with
  | Ok a, Ok p =>
      orequire ((a =? 0) && (p =? 2))
        (EError "unsupported or unconfirmed credential/policy schema; migrate before typed-policy integration")
  | _, _ => Throw (EError "unsupported or unconfirmed credential/policy schema; migrate before typed-policy integration")
  end.

Definition validatePolicy (p : PolicyInput) (kind : Z) : outcome unit :=
  let ranges := [(requireAll p, 0xffffffff); (minAssurance p, 5); (maxAge p, 0xffffffffff);
                 (requiredRegime p, 2); (requiredJurisdiction p, 999)] in
  if (negb (kind =? 1) && negb (kind =? 2))
     || existsb (λ r, negb (isSafeInteger r.1) || (r.1 <? 0) || (r.2 <? r.1)) ranges
     || negb (jsAnd (requireAll p) (jsNot Attrs.SUPPORTED_METHODS) =? 0) || negb (isAddress (trustedIssuer p))
  then Throw (EError "invalid policy schema") else Ok tt.

Definition ZERO_ADDRESS : string := "0x0000000000000000000000000000000000000000".

Definition policyWarnings (p : PolicyInput) (kind : Z) : outcome (list string) :=
  let? _ := validatePolicy p kind in
  Ok (filter (λ w, negb (String.eqb w "") = true)
    [ if requireAll p =? 0 then "No method is required." else "";
      if minAssurance p =? 0 then "No assurance minimum beyond schema validity." else "";
      if negb (jsAnd (requireAll p) ONCHAIN_EXPOSURE =? 0)
      then "The built-in AML engine does not perform graph/exposure analysis and cannot satisfy ONCHAIN_EXPOSURE; exact wallet-list lookup is not equivalent."
      else "";
      if maxAge p =? 0 then "No age ceiling; mark expiry still applies." else "";
      if requiredRegime p =? 0 then "Any supported regime, including sandbox, is accepted." else "";
      if requiredJurisdiction p =? 0 then "Any supported numeric jurisdiction is accepted." else "";
      if String.eqb (toLowerCase (trustedIssuer p)) ZERO_ADDRESS
      then "Any issuer accepted by the underlying credential path can satisfy this policy." else "";
      if negb (requireRoster p)
      then "Direct proof does not establish continued revocation freshness and cannot back new GatedRwaNote deployments."
      else "Roster inclusion still trusts issuer approval and publisher completeness; storage-only consumers need a current cached roster witness."]).

Lemma validatePolicy_ok p kind : validatePolicy p kind = Ok tt →
  (kind = 1 ∨ kind = 2) ∧ 0 ≤ requireAll p < 2 ^ 32 ∧ 0 ≤ minAssurance p ≤ 5 ∧ 0 ≤ maxAge p < 2 ^ 40
  ∧ 0 ≤ requiredRegime p ≤ 2 ∧ 0 ≤ requiredJurisdiction p ≤ 999 ∧ isAddress (trustedIssuer p) = true
  ∧ ∀ i, Z.testbit (requireAll p) i = true → Z.testbit Attrs.SUPPORTED_METHODS i = true.
Proof.
  unfold validatePolicy. destruct (_ || _) eqn:E; [done|]. intros _. cbn [existsb fst snd] in E.
  rewrite !orb_false_iff, andb_false_iff, !negb_false_iff, !Z.eqb_eq, !Z.ltb_ge in E.
  destruct E as (((Hk & Hr) & Hm) & Ha). assert (0 ≤ requireAll p < 2 ^ 32) by lia.
  split_and!; try lia; [done|]. apply Attrs.jsAnd_zero; [lia|unfold Attrs.SUPPORTED_METHODS; lia|done].
Qed.
End policy.
End Policy.
