(* ===== verification/Evm.v ===== *)
(** The two transports of an issuance to the source chain, [src/pipeline/issuance-evm.ts]: the
    direct one ([EvmIssuanceTransport], Module Direct) and the one of a stable issuer contract
    ([RotatingIssuerEvmTransport], Module Rotating), with the calldata checks of
    [src/pipeline/issuer-key.ts] (Module IssuerKey).  The chains, the wallet, transaction and log
    decoding and ABI encoding are parameters.  What a transport signs, counts as a success or as
    materialized is bound to every immutable field of the journal entry. *)

From Stdlib Require Import ZArith Lia Ascii String.
From stdpp Require Import base decidable option list strings pretty.
From S2P Require Import Prelude JS Roster Journal Delivery Attrs.
Import JournalClient Delivery.
Local Open Scope string_scope.
Local Open Scope list_scope.
Local Open Scope Z_scope.
Local Open Scope js_scope.

Definition same (a b : string) : bool := String.eqb (toLowerCase a) (toLowerCase b).
Definition ZeroAddress : string := "0x0000000000000000000000000000000000000000".
Definition ZeroHash : string := "0x0000000000000000000000000000000000000000000000000000000000000000".

(** [Number(n)] of a natural number: the nearest double, ties to even. *)
Definition numberOfBig (n : Z) : Z :=
  if n <? 2 ^ 53 then n
  else
    let p := 2 ^ (Z.log2 n - 52) in
    let q := n / p in let r := 2 * (n mod p) in
    (if (p <? r) || ((r =? p) && Z.odd q) then q + 1 else q) * p.

(** * What the chains and the wallet offer *)

Record Tx := {
  tx_signed : bool; tx_hash : option string; tx_nonce : Z; tx_chainId : Z; tx_to : option string;
  tx_from : option string; tx_value : Z; tx_data : string; tx_gasLimit : Z }.
Record TxRequest := { rq_to : string; rq_data : string; rq_nonce : Z; rq_gasLimit : Z }.
Record Log := { lg_address : string; lg_topics : list string; lg_data : string }.
Record TxReceipt := {
  rc_hash : string; rc_from : string; rc_to : option string; rc_blockNumber : Z; rc_blockHash : string;
  rc_index : Z; rc_gasUsed : Z; rc_status : Z; rc_logs : list Log }.
Record Decoded := {
  d_name : string; d_subject : string; d_attrs : string; d_issuer : string; d_issuerKeyEpoch : Z;
  d_claimsRoot : string; d_evidenceHash : string }.
Record Mark := {
  mk_0 : Z; mk_1 : Z; mk_attrs : Attrs.MarkAttrsInput; mk_claimsRoot : string; mk_evidenceHash : string;
  mk_issuer : string }.

Record SourceChain (W : Type) := {
  s_chainId : M W Z;
  s_code : string → M W string;
  s_processedRequest : string → string → M W bool;
  s_isIssuer : string → string → M W bool;
  s_broadcast : string → M W string;
  s_receipt : string → M W (option TxReceipt);
  s_confirmations : TxReceipt → M W Z;
  s_blockHash : Z → M W (option string);
  s_stableSource : string → M W string;
  s_operatingKey : string → M W string;
  s_keyEpoch : string → M W Z;
  s_suspended : string → M W bool }.
Record HubChain (W : Type) := {
  h_chainId : M W Z;
  h_sourceContract : string → M W string;
  h_expectedChainKey : string → M W Z;
  h_blockNumber : M W Z;
  h_getMark : string → string → Z → M W Mark;
  h_tombstone : string → string → Z → M W bool;
  h_lastAppliedHeight : string → string → Z → M W Z;
  h_lastAppliedTxIndex : string → string → Z → M W Z;
  h_markIssuerKeyEpoch : string → string → Z → M W Z;
  h_isMarkIssuerUsable : string → string → Z → M W bool }.
Record Wallet (W : Type) := {
  w_address : string;
  w_populate : string → string → M W TxRequest;
  w_sign : TxRequest → M W string;
  w_now : M W Z }.
Arguments s_chainId {W} _.
Arguments s_code {W} _ _.
Arguments s_processedRequest {W} _ _ _.
Arguments s_isIssuer {W} _ _ _.
Arguments s_broadcast {W} _ _.
Arguments s_receipt {W} _ _.
Arguments s_confirmations {W} _ _.
Arguments s_blockHash {W} _ _.
Arguments s_stableSource {W} _ _.
Arguments s_operatingKey {W} _ _.
Arguments s_keyEpoch {W} _ _.
Arguments s_suspended {W} _ _.
Arguments h_chainId {W} _.
Arguments h_sourceContract {W} _ _.
Arguments h_expectedChainKey {W} _ _.
Arguments h_blockNumber {W} _.
Arguments h_getMark {W} _ _ _ _.
Arguments h_tombstone {W} _ _ _ _.
Arguments h_lastAppliedHeight {W} _ _ _ _.
Arguments h_lastAppliedTxIndex {W} _ _ _ _.
Arguments h_markIssuerKeyEpoch {W} _ _ _ _.
Arguments h_isMarkIssuerUsable {W} _ _ _ _.
Arguments w_address {W} _.
Arguments w_populate {W} _ _ _.
Arguments w_sign {W} _ _.
Arguments w_now {W} _.

(** * Calldata of a stable issuer contract *)

Module IssuerKey.
Section issuerKey.
(** [ethers.isAddress], [ethers.isHexString(v, 32)], [isHexString(v, 65)] and the ABI encoders. *)
Context (isAddress : string → bool) (isHex32 isHex65 : string → bool).
Context (encodeIssue : Z → string → string → string → string → string → string).
Context (encodeCompromise : string → Z → string).
Context (serializedSignature : string → outcome string).

Definition checkedEpoch (epoch : Z) : outcome unit :=
  orequire ((0 <? epoch) && (epoch <=? 0xffffffffffffffff)) (EError "invalid issuer key epoch").

(** The EIP-712 domain and message, with their digest. *)
Record IssuerApproval := {
  ia_name : string; ia_version : string; ia_chainId : Z; ia_verifyingContract : string;
  ia_sourceDigest : string; ia_keyEpoch : Z; ia_digest : string }.
Definition issuerApprovalData (typedHash : string → string → Z → string → string → Z → string)
    (getAddress : string → string) (chainId : Z) (issuer sourceDigest : string) (keyEpoch : Z)
    : outcome IssuerApproval :=
  let? _ := checkedEpoch keyEpoch in
  let? _ := orequire ((0 <? chainId) && isAddress issuer && negb (String.eqb issuer ZeroAddress)
                      && isHex32 sourceDigest && negb (String.eqb sourceDigest ZeroHash))
              (EError "invalid issuer approval domain/digest") in
  Ok {| ia_name := "ProofmarkIssuer"; ia_version := "1"; ia_chainId := chainId;
        ia_verifyingContract := getAddress issuer; ia_sourceDigest := sourceDigest; ia_keyEpoch := keyEpoch;
        ia_digest := typedHash "ProofmarkIssuer" "1" chainId (getAddress issuer) sourceDigest keyEpoch |}.

Definition encodeIssuerSignature (keyEpoch : Z) (signature : string) : outcome string :=
  let? _ := checkedEpoch keyEpoch in
  let? _ := orequire (isHex65 signature) (EError "65-byte issuer signature required") in
  let? canonical := serializedSignature signature in
  Ok ("0x" +:+ Roster.hexDigits 16 keyEpoch +:+ Roster.hexBody canonical).

Definition encodeIssuerIssue (keyEpoch : Z) (requestId subject attrs claimsRoot evidenceHash : string)
    : outcome string :=
  let? _ := checkedEpoch keyEpoch in
  let? _ := orequire (isAddress subject && negb (String.eqb subject ZeroAddress)
                      && isHex32 requestId && isHex32 attrs && isHex32 claimsRoot && isHex32 evidenceHash)
              (EError "invalid issuer issuance payload") in
  Ok (encodeIssue keyEpoch requestId subject attrs claimsRoot evidenceHash).

Definition encodeIssuerCompromise (reasonHash : string) (lastTrustedBlock : Z) : outcome string :=
  let? _ := orequire (isHex32 reasonHash && negb (String.eqb reasonHash ZeroHash)
                      && (0 <=? lastTrustedBlock) && (lastTrustedBlock <=? 0xffffffffffffffff))
              (EError "invalid issuer compromise boundary") in
  Ok (encodeCompromise reasonHash lastTrustedBlock).
End issuerKey.
End IssuerKey.

(** * Parts both transports share *)

Section shared.
Context {W : Type}.
Context (source : SourceChain W) (hub : HubChain W).
Context (keccak256 : string → string).

Definition processedRequest (e : IssuanceEntry) : M W bool :=
  s_processedRequest source (t_source (target e)) (requestId e).
Definition broadcastSigned (t : SignedIssuance) : M W unit :=
  let! hash := s_broadcast source (si_raw t) in
  require (String.eqb hash (si_hash t)) (EError "broadcast returned a different hash").

(** The comparison of a decoded transaction with the stored one and the entry: recipient and
    sender are those of the transport. *)
Definition checkSigned (tx : Tx) (signed : SignedIssuance) (e : IssuanceEntry) (to_ from_ : string)
    (data : outcome string) (mismatch : exn) : outcome unit :=
  if negb (tx_signed tx) || negb (bool_decide (tx_hash tx = Some (si_hash signed)))
     || negb (tx_nonce tx =? si_nonce signed) || negb (tx_chainId tx =? t_chainId (target e))
  then Throw mismatch
  else
    match tx_to tx with
    | None => Throw mismatch
    | Some to' =>
        if negb (same to' to_) then Throw mismatch
        else
          match tx_from tx with
          | None => Throw (EError "TypeError")
          | Some from' =>
              if negb (same from' from_) || negb (tx_value tx =? 0) then Throw mismatch
              else
                let? data := data in
                if negb (String.eqb (tx_data tx) data)
                   || match si_gasLimit signed with
                      | Some g => negb (String.eqb (pretty (tx_gasLimit tx)) g) | None => false end
                   || negb (si_chainId signed =? t_chainId (target e))
                   || negb (same (si_source signed) (t_source (target e)))
                   || negb (same (si_issuer signed) (t_issuer (target e)))
                then Throw mismatch else Ok tt
          end
    end.

Lemma checkSigned_ok tx signed e to_ from_ data mismatch : checkSigned tx signed e to_ from_ data mismatch = Ok tt →
  tx_signed tx = true ∧ tx_hash tx = Some (si_hash signed) ∧ tx_nonce tx = si_nonce signed
  ∧ tx_chainId tx = t_chainId (target e) ∧ (∃ t, tx_to tx = Some t ∧ same t to_ = true)
  ∧ (∃ f, tx_from tx = Some f ∧ same f from_ = true) ∧ tx_value tx = 0 ∧ data = Ok (tx_data tx)
  ∧ (∀ g, si_gasLimit signed = Some g → g = pretty (tx_gasLimit tx)).
Proof.
  unfold checkSigned. destruct (_ || _) eqn:E1; [done|].
  rewrite !orb_false_iff, !negb_false_iff, !Z.eqb_eq in E1. destruct E1 as (((Hs & Hh) & Hn) & Hc).
  apply bool_decide_eq_true in Hh. destruct (tx_to tx) as [t|] eqn:Ht; [|done].
  destruct (same t to_) eqn:Hst; [|done]. cbn [negb]. destruct (tx_from tx) as [f|] eqn:Hf; [|done].
  destruct (negb (same f from_) || _) eqn:E2; [done|].
  rewrite orb_false_iff, !negb_false_iff, Z.eqb_eq in E2. destruct E2 as [Hsf Hv].
  destruct data as [d|]; [|done]. cbn [obind]. destruct (_ || _) eqn:E3; [done|]. intros _.
  rewrite !orb_false_iff, !negb_false_iff, String.eqb_eq in E3. destruct E3 as ((((Hd & Hg) & _) & _) & _).
  split_and!; try done; [by exists t|by exists f|by rewrite Hd|].
  intros g Hg'. rewrite Hg' in Hg. apply negb_false_iff, String.eqb_eq in Hg. done.
Qed.

(** The receipt, once confirmed on the canonical chain. *)
Definition confirmedReceipt (confirmations : Z) (hash : string) : M W (option TxReceipt) :=
  let! r := s_receipt source hash in
  match r with
  | None => ret None
  | Some r =>
      let! n := s_confirmations source r in
      if n <? confirmations then ret None
      else
        let! block := s_blockHash source (rc_blockNumber r) in
        ret (if bool_decide (block = Some (rc_blockHash r)) then Some r else None)
  end.

Definition confirmation (r : TxReceipt) (at_ : Z) : SourceConfirmation := {|
  sc_blockNumber := rc_blockNumber r; sc_blockHash := rc_blockHash r; sc_transactionIndex := rc_index r;
  sc_confirmedAt := at_; sc_gasUsed := Some (pretty (rc_gasUsed r)) |}.

(** The stored mark against the outcome: the attributes are packed again. *)
Definition sameMark (m : Mark) (e : IssuanceEntry) : outcome bool :=
  let? attrs := Attrs.packAttrs (mk_attrs m) in
  Ok (same attrs (io_attrs (outcome_ e)) && same (mk_claimsRoot m) (io_claimsRoot (outcome_ e))
      && same (mk_evidenceHash m) (io_evidenceHash (outcome_ e)) && same (mk_issuer m) (t_issuer (target e))).

Definition isIssued (e : IssuanceEntry) : bool := bool_decide (io_status (outcome_ e) = ISSUED).
End shared.

(** * The direct transport *)

Module Direct.
Section direct.
Context {W : Type}.
Context (source : SourceChain W) (hub : HubChain W) (signer : Wallet W).
Context (confirmations : Z) (allowedTarget : option Target).
Context (keccak256 : string → string) (parseTx : string → option Tx) (parseLog : Log → option Decoded).
Context (encodeIssueOnce : string → string → string → string → string → outcome string).

Definition construct : outcome unit :=
  orequire (isSafeInteger confirmations && (1 <=? confirmations)) (EError "invalid source confirmation count").

Definition issuanceCalldata (e : IssuanceEntry) : outcome string :=
  let? _ := orequire (isIssued e) (EError "issuance was not approved") in
  encodeIssueOnce (requestId e) (wallet e) (io_attrs (outcome_ e)) (io_claimsRoot (outcome_ e))
    (io_evidenceHash (outcome_ e)).

Definition validateSignedIssuance (e : IssuanceEntry) (signed : SignedIssuance) : outcome unit :=
  match parseTx (si_raw signed) with
  | None => Throw (EError "INVALID_TRANSACTION")
  | Some tx => checkSigned tx signed e (t_source (target e)) (t_issuer (target e)) (issuanceCalldata e)
                 (EError "signed transaction does not match immutable issuance")
  end.

Definition sameDeployment (t a : Target) : bool :=
  (t_chainId t =? t_chainId a) && (t_hubChainId t =? t_hubChainId a) && same (t_source t) (t_source a)
  && same (t_asc t) (t_asc a) && same (t_issuer t) (t_issuer a).

Definition assertTarget (e : IssuanceEntry) : M W unit :=
  let t := target e in
  require (match t_issuerMode t with None => true | Some m => String.eqb m "" || String.eqb m "direct" end)
    (EError "direct transport cannot use a rotating issuer target") ;;;
  require (match allowedTarget with None => true | Some a => sameDeployment t a end)
    (EError "journal targets a different configured deployment") ;;;
  let! sourceNetwork := s_chainId source in
  let! hubNetwork := h_chainId hub in
  let! sourceCode := s_code source (t_source t) in
  require ((t_chainId t =? 11155111) && (t_hubChainId t =? 102031) && (sourceNetwork =? t_chainId t)
           && (hubNetwork =? t_hubChainId t) && negb (String.eqb sourceCode "0x")
           && same (w_address signer) (t_issuer t)) (EError "issuance deployment or signer mismatch") ;;;
  let! src := h_sourceContract hub (t_asc t) in
  let! chainKey := h_expectedChainKey hub (t_asc t) in
  require (same src (t_source t) && (chainKey =? 1)) (EError "ASC source binding mismatch").

Definition prepare (e : IssuanceEntry) : M W SignedIssuance :=
  let! authorized := s_isIssuer source (t_source (target e)) (t_issuer (target e)) in
  require authorized (EError "signer is not an authorized issuer") ;;;
  let! data := lift_out (issuanceCalldata e) in
  let! request := w_populate signer (t_source (target e)) data in
  let! raw := w_sign signer request in
  let result := {| si_hash := keccak256 raw; si_raw := raw; si_nonce := rq_nonce request;
    si_chainId := t_chainId (target e); si_source := t_source (target e); si_issuer := t_issuer (target e);
    si_gasLimit := Some (pretty (rq_gasLimit request)) |} in
  lift_out (validateSignedIssuance e result) ;;;
  ret result.

(** A log of the source contract that announces this mark; decoding errors do not match. *)
Definition matches (e : IssuanceEntry) (l : Log) : bool :=
  same (lg_address l) (t_source (target e)) &&
  match parseLog l with
  | Some d => String.eqb (d_name d) "MarkIssued" && isIssued e && same (d_subject d) (wallet e)
      && same (d_issuer d) (t_issuer (target e)) && same (d_attrs d) (io_attrs (outcome_ e))
      && same (d_claimsRoot d) (io_claimsRoot (outcome_ e)) && same (d_evidenceHash d) (io_evidenceHash (outcome_ e))
  | None => false
  end.

Definition receipt (e : IssuanceEntry) : M W IssuanceReceipt :=
  match transaction e with
  | None => throw (EError "TypeError")
  | Some signed =>
      lift_out (validateSignedIssuance e signed) ;;;
      let! found := confirmedReceipt source confirmations (si_hash signed) in
      match found with
      | None => ret RPending
      | Some r =>
          require (same (rc_from r) (t_issuer (target e))
                   && match rc_to r with Some t => same t (t_source (target e)) | None => false end
                   && String.eqb (rc_hash r) (si_hash signed)) (EError "source receipt binding mismatch") ;;;
          let! at_ := w_now signer in
          if negb (rc_status r =? 1) then ret (RReverted (confirmation r at_))
          else
            require (length (filter (λ l, matches e l = true) (rc_logs r)) =? 1)%nat
              (EError "source issuance event or request consumption missing") ;;;
            let! used := processedRequest source e in
            require used (EError "source issuance event or request consumption missing") ;;;
            ret (RSuccess (confirmation r at_))
      end
  end.

Definition materialized (e : IssuanceEntry) (c : SourceConfirmation) : M W bool :=
  if negb (isIssued e) then ret false
  else
    let asc := t_asc (target e) in
    let! tag := h_blockNumber hub in
    let! mark := h_getMark hub asc (wallet e) tag in
    let! tombstone := h_tombstone hub asc (wallet e) tag in
    let! height := h_lastAppliedHeight hub asc (wallet e) tag in
    let! index := h_lastAppliedTxIndex hub asc (wallet e) tag in
    if tombstone || negb (mk_0 mark =? 1) || negb (mk_1 mark =? 1)
       || negb (numberOfBig height =? sc_blockNumber c) || negb (numberOfBig index =? sc_transactionIndex c)
    then ret false
    else lift_out (sameMark mark e).

Definition transport : IssuanceTransport W := {|
  Delivery.assertTarget := assertTarget; Delivery.processed := processedRequest source;
  Delivery.prepare := prepare; Delivery.broadcast := broadcastSigned source;
  Delivery.receipt := receipt; Delivery.materialized := materialized |}.
End direct.
End Direct.

(** * The transport of a stable issuer contract *)

Module Rotating.
Section rotating.
Context {W : Type}.
Context (source : SourceChain W) (hub : HubChain W) (signer : Wallet W).
Context (confirmations : Z) (allowedTarget : option Target).
Context (keccak256 : string → string) (parseTx : string → option Tx) (parseLog : Log → option Decoded).
Context (isAddress : string → bool) (getAddress : string → string) (isHex32 : string → bool).
Context (encodeIssue : Z → string → string → string → string → string → string).

(** The target with a checksummed operating key and a key epoch. *)
Record RotatingTarget := { rt_target : Target; rt_operatingKey : string; rt_issuerKeyEpoch : Z }.

Definition checkedRotatingTarget (t : Target) : outcome RotatingTarget :=
  let bad := EError "invalid rotating issuer journal target" in
  match t_issuerMode t, t_operatingKey t, t_issuerKeyEpoch t with
  | Some mode, Some key, Some epoch =>
      if String.eqb mode "rotating" && isAddress key && negb (String.eqb key ZeroAddress)
         && isSafeInteger epoch && (1 <=? epoch)
      then Ok {| rt_target := t; rt_operatingKey := getAddress key; rt_issuerKeyEpoch := epoch |}
      else Throw bad
  | _, _, _ => Throw bad
  end.

Definition rotatingCalldata (t : RotatingTarget) (e : IssuanceEntry) : outcome string :=
  IssuerKey.encodeIssuerIssue isAddress isHex32 encodeIssue (rt_issuerKeyEpoch t) (requestId e) (wallet e)
    (io_attrs (outcome_ e)) (io_claimsRoot (outcome_ e)) (io_evidenceHash (outcome_ e)).

Definition validateRotatingSignedIssuance (e : IssuanceEntry) (signed : SignedIssuance) : outcome unit :=
  let? t := checkedRotatingTarget (target e) in
  let? _ := orequire (isIssued e) (EError "issuance was not approved") in
  match parseTx (si_raw signed) with
  | None => Throw (EError "INVALID_TRANSACTION")
  | Some tx =>
      let? data := rotatingCalldata t e in
      checkSigned tx signed e (t_issuer (target e)) (rt_operatingKey t) (Ok data)
        (EError "signed transaction does not match immutable rotating issuance")
  end.

Definition sameRotating (t a : RotatingTarget) : bool :=
  let x := rt_target t in let y := rt_target a in
  (t_chainId x =? t_chainId y) && (t_hubChainId x =? t_hubChainId y) && same (t_source x) (t_source y)
  && same (t_asc x) (t_asc y) && same (t_issuer x) (t_issuer y)
  && same (rt_operatingKey t) (rt_operatingKey a) && (rt_issuerKeyEpoch t =? rt_issuerKeyEpoch a).

Definition assertTarget (e : IssuanceEntry) : M W unit :=
  let! t := lift_out (checkedRotatingTarget (target e)) in
  match allowedTarget with
  | None => ret tt
  | Some a =>
      let! allowed := lift_out (checkedRotatingTarget a) in
      require (sameRotating t allowed) (EError "journal targets a different configured deployment")
  end ;;;
  let x := target e in
  let! sourceNetwork := s_chainId source in
  let! hubNetwork := h_chainId hub in
  let! sourceCode := s_code source (t_source x) in
  let! issuerCode := s_code source (t_issuer x) in
  require ((t_chainId x =? 11155111) && (t_hubChainId x =? 102031) && (sourceNetwork =? t_chainId x)
           && (hubNetwork =? t_hubChainId x) && negb (String.eqb sourceCode "0x")
           && negb (String.eqb issuerCode "0x") && same (w_address signer) (rt_operatingKey t))
    (EError "issuance deployment or signer mismatch") ;;;
  let! boundSource := h_sourceContract hub (t_asc x) in
  let! chainKey := h_expectedChainKey hub (t_asc x) in
  let! stableSource := s_stableSource source (t_issuer x) in
  let! currentKey := s_operatingKey source (t_issuer x) in
  let! epoch := s_keyEpoch source (t_issuer x) in
  let! suspended := s_suspended source (t_issuer x) in
  let! stableRole := s_isIssuer source (t_source x) (t_issuer x) in
  let! directRole := s_isIssuer source (t_source x) (rt_operatingKey t) in
  require (same boundSource (t_source x) && (chainKey =? 1) && same stableSource (t_source x)
           && same currentKey (rt_operatingKey t) && (epoch =? rt_issuerKeyEpoch t) && negb suspended
           && stableRole && negb directRole) (EError "rotating issuer binding, epoch or role mismatch").

Definition prepare (e : IssuanceEntry) : M W SignedIssuance :=
  assertTarget e ;;;
  let! t := lift_out (checkedRotatingTarget (target e)) in
  require (isIssued e) (EError "issuance was not approved") ;;;
  let! data := lift_out (rotatingCalldata t e) in
  let! request := w_populate signer (t_issuer (target e)) data in
  let! raw := w_sign signer request in
  let result := {| si_hash := keccak256 raw; si_raw := raw; si_nonce := rq_nonce request;
    si_chainId := t_chainId (target e); si_source := t_source (target e); si_issuer := t_issuer (target e);
    si_gasLimit := Some (pretty (rq_gasLimit request)) |} in
  lift_out (validateRotatingSignedIssuance e result) ;;;
  ret result.

Definition matches (t : RotatingTarget) (e : IssuanceEntry) (l : Log) : bool :=
  same (lg_address l) (t_source (target e)) &&
  match parseLog l with
  | Some d => String.eqb (d_name d) "KeyedMarkIssued" && isIssued e && same (d_subject d) (wallet e)
      && same (d_issuer d) (t_issuer (target e)) && (numberOfBig (d_issuerKeyEpoch d) =? rt_issuerKeyEpoch t)
      && same (d_attrs d) (io_attrs (outcome_ e))
      && same (d_claimsRoot d) (io_claimsRoot (outcome_ e)) && same (d_evidenceHash d) (io_evidenceHash (outcome_ e))
  | None => false
  end.

Definition receipt (e : IssuanceEntry) : M W IssuanceReceipt :=
  let! t := lift_out (checkedRotatingTarget (target e)) in
  match transaction e with
  | None => throw (EError "TypeError")
  | Some signed =>
      lift_out (validateRotatingSignedIssuance e signed) ;;;
      let! found := confirmedReceipt source confirmations (si_hash signed) in
      match found with
      | None => ret RPending
      | Some r =>
          require (same (rc_from r) (rt_operatingKey t)
                   && match rc_to r with Some to' => same to' (t_issuer (target e)) | None => false end
                   && String.eqb (rc_hash r) (si_hash signed)) (EError "rotating source receipt binding mismatch") ;;;
          let! at_ := w_now signer in
          if negb (rc_status r =? 1) then ret (RReverted (confirmation r at_))
          else
            require (length (filter (λ l, matches t e l = true) (rc_logs r)) =? 1)%nat
              (EError "keyed source issuance event or request consumption missing") ;;;
            let! used := processedRequest source e in
            require used (EError "keyed source issuance event or request consumption missing") ;;;
            ret (RSuccess (confirmation r at_))
      end
  end.

Definition materialized (e : IssuanceEntry) (c : SourceConfirmation) : M W bool :=
  if negb (isIssued e) then ret false
  else
    let! t := lift_out (checkedRotatingTarget (target e)) in
    let asc := t_asc (target e) in
    let! tag := h_blockNumber hub in
    let! mark := h_getMark hub asc (wallet e) tag in
    let! tombstone := h_tombstone hub asc (wallet e) tag in
    let! height := h_lastAppliedHeight hub asc (wallet e) tag in
    let! index := h_lastAppliedTxIndex hub asc (wallet e) tag in
    let! keyEpoch := h_markIssuerKeyEpoch hub asc (wallet e) tag in
    let! usable := h_isMarkIssuerUsable hub asc (wallet e) tag in
    if tombstone || negb usable || negb (numberOfBig keyEpoch =? rt_issuerKeyEpoch t)
       || negb (mk_0 mark =? 1) || negb (mk_1 mark =? 1)
       || negb (numberOfBig height =? sc_blockNumber c) || negb (numberOfBig index =? sc_transactionIndex c)
    then ret false
    else lift_out (sameMark mark e).

Definition transport : IssuanceTransport W := {|
  Delivery.assertTarget := assertTarget; Delivery.processed := processedRequest source;
  Delivery.prepare := prepare; Delivery.broadcast := broadcastSigned source;
  Delivery.receipt := receipt; Delivery.materialized := materialized |}.
End rotating.
End Rotating.

(** * What the transports accept is bound to the entry *)

Module EvmProofs.

(** The transaction bytes carry the entry's chain, parties, calldata and no value. *)
Definition Bound (tx : Tx) (signed : SignedIssuance) (e : IssuanceEntry) (to_ from_ : string)
    (data : outcome string) : Prop :=
  tx_signed tx = true ∧ tx_hash tx = Some (si_hash signed) ∧ tx_nonce tx = si_nonce signed
  ∧ tx_chainId tx = t_chainId (target e) ∧ (∃ t, tx_to tx = Some t ∧ same t to_ = true)
  ∧ (∃ f, tx_from tx = Some f ∧ same f from_ = true) ∧ tx_value tx = 0 ∧ data = Ok (tx_data tx)
  ∧ (∀ g, si_gasLimit signed = Some g → g = pretty (tx_gasLimit tx)).

(** A receipt of that very transaction, successful, with exactly one event that announces the mark. *)
Definition Succeeded (r : TxReceipt) (signed : SignedIssuance) (to_ from_ : string) (matches : Log → bool)
    (c : SourceConfirmation) : Prop :=
  rc_hash r = si_hash signed ∧ same (rc_from r) from_ = true ∧ (∃ t, rc_to r = Some t ∧ same t to_ = true)
  ∧ rc_status r = 1 ∧ length (filter (λ l, matches l = true) (rc_logs r)) = 1%nat
  ∧ ∃ at_, c = confirmation r at_.

(** The stored mark is the one approved: its fields are the unpacked attributes of the outcome. *)
Definition StoredMark (m : Mark) (e : IssuanceEntry) : Prop :=
  mk_0 m = 1 ∧ mk_1 m = 1 ∧ Attrs.unpackAttrs (io_attrs (outcome_ e)) = Ok (mk_attrs m)
  ∧ same (mk_claimsRoot m) (io_claimsRoot (outcome_ e)) = true
  ∧ same (mk_evidenceHash m) (io_evidenceHash (outcome_ e)) = true
  ∧ same (mk_issuer m) (t_issuer (target e)) = true.

Lemma hexNibble_lower c : hexNibble (lower_ascii c) = hexNibble c.
Proof. unfold hexNibble. by rewrite lower_ascii_idem. Qed.
Lemma hexFrom_lower acc s : hexFrom acc (toLowerCase s) = hexFrom acc s.
Proof. revert acc. induction s as [|c s IH]; intros acc; [done|]. cbn [toLowerCase hexFrom]. by rewrite hexNibble_lower, IH. Qed.
Lemma sameMark_ok m e : isBytes32 (io_attrs (outcome_ e)) = true → sameMark m e = Ok true →
  Attrs.unpackAttrs (io_attrs (outcome_ e)) = Ok (mk_attrs m)
  ∧ same (mk_claimsRoot m) (io_claimsRoot (outcome_ e)) = true
  ∧ same (mk_evidenceHash m) (io_evidenceHash (outcome_ e)) = true
  ∧ same (mk_issuer m) (t_issuer (target e)) = true.
Proof.
  intros Hb. unfold sameMark. destruct (Attrs.packAttrs (mk_attrs m)) as [s|] eqn:Hp; [|done]. cbn [obind].
  intros [= Hs]. rewrite !andb_true_iff in Hs. destruct Hs as (((Ha & Hc) & Hev) & Hi). split_and!; try done.
  destruct (Attrs.unpackAttrs_pack _ _ Hp) as [Hl Hu].
  apply String.eqb_eq in Ha. rewrite (hexString_lower_fix _ _ Hl) in Ha.
  unfold Attrs.unpackAttrs in *. rewrite Hb. rewrite (lowerBytes32_bytes32 _ Hl) in Hu. cbn [orequire obind] in *.
  rewrite <-Hu. do 2 f_equal. rewrite Ha. unfold hexValue.
  destruct (isBytes32_body _ Hb) as (-> & _ & _). rewrite lower_0x.
  change (hexFrom 0 (Roster.hexBody (io_attrs (outcome_ e))) = hexFrom 0 (toLowerCase (Roster.hexBody (io_attrs (outcome_ e))))).
  by rewrite hexFrom_lower.
Qed.

Section binding.
Context {W : Type} (source : SourceChain W) (hub : HubChain W) (signer : Wallet W).
Context (confirmations : Z) (allowedTarget : option Target).
Context (keccak256 : string → string) (parseTx : string → option Tx) (parseLog : Log → option Decoded).

(** Whatever reads return, [wp_any] continues with any outcome. *)
Lemma wp_any {S A} (m : M S A) (Q : outcome A → S → Prop) s : (∀ o s', Q o s') → wp m Q s.
Proof. intros H. unfold wp. apply H. Qed.

(** *** Direct *)

Section direct.
Context (encodeIssueOnce : string → string → string → string → string → outcome string).
Abbreviation validate := (Direct.validateSignedIssuance parseTx encodeIssueOnce).
Abbreviation calldata := (Direct.issuanceCalldata encodeIssueOnce).
Abbreviation isMatch := (Direct.matches parseLog).

Lemma direct_prepare e w :
  wp (Direct.prepare source signer keccak256 parseTx encodeIssueOnce e)
    (λ o _, ∀ t, o = Ok t → validate e t = Ok tt ∧ si_hash t = keccak256 (si_raw t)) w.
Proof.
  unfold Direct.prepare. apply wp_bind, wp_any. intros [auth|] w1; [|done].
  apply wp_bind, wp_require; intros _; [|done]. apply wp_bind, wp_lift_out.
  destruct (Direct.issuanceCalldata _ e) as [data|]; [|done]. apply wp_bind, wp_any. intros [rq|] w2; [|done].
  apply wp_bind, wp_any. intros [raw|] w3; [|done]. apply wp_bind, wp_lift_out.
  destruct (Direct.validateSignedIssuance _ _ _ _) as [[]|] eqn:Hv; [|done]. apply wp_ret. by intros t [= <-].
Qed.

Lemma direct_bound e signed : validate e signed = Ok tt →
  ∃ tx, parseTx (si_raw signed) = Some tx ∧ Bound tx signed e (t_source (target e)) (t_issuer (target e)) (calldata e).
Proof.
  unfold Direct.validateSignedIssuance. destruct (parseTx _) as [tx|]; [|done]. intros H%checkSigned_ok. by exists tx.
Qed.

Lemma direct_receipt e w :
  wp (Direct.receipt source signer confirmations parseTx parseLog encodeIssueOnce e)
    (λ o _, ∀ c, o = Ok (RSuccess c) → ∃ signed r, transaction e = Some signed ∧ validate e signed = Ok tt
       ∧ Succeeded r signed (t_source (target e)) (t_issuer (target e)) (isMatch e) c) w.
Proof.
  unfold Direct.receipt. destruct (transaction e) as [signed|] eqn:Ht; [|by apply wp_throw].
  apply wp_bind, wp_lift_out. destruct (Direct.validateSignedIssuance _ _ _ _) as [[]|] eqn:Hv; [|done].
  apply wp_bind, wp_any. intros [[r|]|] w1; [|by apply wp_ret|done].
  apply wp_bind, wp_require; intros Hb; [|done]. apply wp_bind, wp_any. intros [at_|] w2; [|done].
  destruct (rc_status r =? 1) eqn:Hst; cbn [negb]; [|by apply wp_ret].
  apply wp_bind, wp_require; intros Hm; [|done]. apply wp_bind, wp_any. intros [used|] w3; [|done].
  apply wp_bind, wp_require; intros Hu; [|done]. apply wp_ret. intros c [= <-].
  rewrite !andb_true_iff, String.eqb_eq in Hb. destruct Hb as [[Hf Hto] Hh].
  exists signed, r. split_and!; try done. unfold Succeeded. split_and!; try done.
  - destruct (rc_to r) as [t|]; [by exists t|done].
  - by apply Z.eqb_eq.
  - by apply Nat.eqb_eq.
  - by exists at_.
Qed.

Lemma direct_materialized e c w : isBytes32 (io_attrs (outcome_ e)) = true →
  wp (Direct.materialized hub e c)
    (λ o _, o = Ok true → ∃ m height index, StoredMark m e ∧ numberOfBig height = sc_blockNumber c
       ∧ numberOfBig index = sc_transactionIndex c) w.
Proof.
  intros Hb. unfold Direct.materialized. destruct (isIssued e); cbn [negb]; [|by apply wp_ret].
  apply wp_bind, wp_any. intros [tag|] w1; [|done]. apply wp_bind, wp_any. intros [m|] w2; [|done].
  apply wp_bind, wp_any. intros [tomb|] w3; [|done]. apply wp_bind, wp_any. intros [height|] w4; [|done].
  apply wp_bind, wp_any. intros [index|] w5; [|done]. destruct (_ || _) eqn:E; [by apply wp_ret|].
  rewrite !orb_false_iff, !negb_false_iff, !Z.eqb_eq in E. destruct E as ((((_ & H0) & H1) & Hh) & Hi).
  apply wp_lift_out. intros H%sameMark_ok; [|done]. exists m, height, index. by split.
Qed.
End direct.

(** *** Rotating *)

Section rotating.
Context (isAddress : string → bool) (getAddress : string → string) (isHex32 : string → bool).
Context (encodeIssue : Z → string → string → string → string → string → string).
Abbreviation validateR := (Rotating.validateRotatingSignedIssuance parseTx isAddress getAddress isHex32 encodeIssue).
Abbreviation targetR := (Rotating.checkedRotatingTarget isAddress getAddress).
Abbreviation calldataR := (Rotating.rotatingCalldata isAddress isHex32 encodeIssue).

Lemma rotating_prepare e w :
  wp (Rotating.prepare source hub signer allowedTarget keccak256 parseTx isAddress getAddress isHex32 encodeIssue e)
    (λ o _, ∀ t, o = Ok t → validateR e t = Ok tt ∧ si_hash t = keccak256 (si_raw t)) w.
Proof.
  unfold Rotating.prepare. apply wp_bind, wp_any. intros [[]|] w0; [|done].
  apply wp_bind, wp_lift_out. destruct (Rotating.checkedRotatingTarget _ _ _) as [t|]; [|done].
  apply wp_bind, wp_require; intros _; [|done]. apply wp_bind, wp_lift_out.
  destruct (Rotating.rotatingCalldata _ _ _ t e) as [data|]; [|done]. apply wp_bind, wp_any. intros [rq|] w2; [|done].
  apply wp_bind, wp_any. intros [raw|] w3; [|done]. apply wp_bind, wp_lift_out.
  destruct (Rotating.validateRotatingSignedIssuance _ _ _ _ _ _ _) as [[]|] eqn:Hv; [|done]. apply wp_ret. by intros s [= <-].
Qed.

Lemma rotating_bound e signed : validateR e signed = Ok tt →
  ∃ t tx, targetR (target e) = Ok t ∧ parseTx (si_raw signed) = Some tx
    ∧ Bound tx signed e (t_issuer (target e)) (Rotating.rt_operatingKey t) (calldataR t e).
Proof.
  unfold Rotating.validateRotatingSignedIssuance. destruct (Rotating.checkedRotatingTarget _ _ _) as [t|]; [|done].
  cbn [obind]. destruct (isIssued e); [|done]. cbn [orequire obind].
  destruct (parseTx _) as [tx|]; [|done]. destruct (Rotating.rotatingCalldata _ _ _ t e) as [d|] eqn:Hd; [|done].
  cbn [obind]. intros H%checkSigned_ok. exists t, tx. unfold Bound. by rewrite Hd.
Qed.

Lemma rotating_receipt e w :
  wp (Rotating.receipt source signer confirmations parseTx parseLog isAddress getAddress isHex32 encodeIssue e)
    (λ o _, ∀ c, o = Ok (RSuccess c) → ∃ t signed r, targetR (target e) = Ok t ∧ transaction e = Some signed
       ∧ validateR e signed = Ok tt
       ∧ Succeeded r signed (t_issuer (target e)) (Rotating.rt_operatingKey t) (Rotating.matches parseLog t e) c) w.
Proof.
  unfold Rotating.receipt. apply wp_bind, wp_lift_out.
  destruct (Rotating.checkedRotatingTarget _ _ _) as [t|] eqn:Htg; [|done].
  destruct (transaction e) as [signed|] eqn:Ht; [|by apply wp_throw].
  apply wp_bind, wp_lift_out. destruct (Rotating.validateRotatingSignedIssuance _ _ _ _ _ _ _) as [[]|] eqn:Hv; [|done].
  apply wp_bind, wp_any. intros [[r|]|] w1; [|by apply wp_ret|done].
  apply wp_bind, wp_require; intros Hb; [|done]. apply wp_bind, wp_any. intros [at_|] w2; [|done].
  destruct (rc_status r =? 1) eqn:Hst; cbn [negb]; [|by apply wp_ret].
  apply wp_bind, wp_require; intros Hm; [|done]. apply wp_bind, wp_any. intros [used|] w3; [|done].
  apply wp_bind, wp_require; intros Hu; [|done]. apply wp_ret. intros c [= <-].
  rewrite !andb_true_iff, String.eqb_eq in Hb. destruct Hb as [[Hf Hto] Hh].
  exists t, signed, r. split_and!; try done. unfold Succeeded. split_and!; try done.
  - destruct (rc_to r) as [t'|]; [by exists t'|done].
  - by apply Z.eqb_eq.
  - by apply Nat.eqb_eq.
  - by exists at_.
Qed.

Lemma rotating_materialized e c w : isBytes32 (io_attrs (outcome_ e)) = true →
  wp (Rotating.materialized hub isAddress getAddress e c)
    (λ o _, o = Ok true → ∃ t m height index epoch, targetR (target e) = Ok t ∧ StoredMark m e
       ∧ numberOfBig height = sc_blockNumber c ∧ numberOfBig index = sc_transactionIndex c
       ∧ numberOfBig epoch = Rotating.rt_issuerKeyEpoch t) w.
Proof.
  intros Hb. unfold Rotating.materialized. destruct (isIssued e); cbn [negb]; [|by apply wp_ret].
  apply wp_bind, wp_lift_out. destruct (Rotating.checkedRotatingTarget _ _ _) as [t|] eqn:Htg; [|done].
  apply wp_bind, wp_any. intros [tag|] w1; [|done]. apply wp_bind, wp_any. intros [m|] w2; [|done].
  apply wp_bind, wp_any. intros [tomb|] w3; [|done]. apply wp_bind, wp_any. intros [height|] w4; [|done].
  apply wp_bind, wp_any. intros [index|] w5; [|done]. apply wp_bind, wp_any. intros [epoch|] w6; [|done].
  apply wp_bind, wp_any. intros [usable|] w7; [|done]. destruct (_ || _) eqn:E; [by apply wp_ret|].
  rewrite !orb_false_iff, !negb_false_iff, !Z.eqb_eq in E. destruct E as ((((((_ & _) & He) & H0) & H1) & Hh) & Hi).
  apply wp_lift_out. intros H%sameMark_ok; [|done]. exists t, m, height, index, epoch. by split_and!.
Qed.
End rotating.
End binding.

(** Whatever the chains and the wallet answer: the transaction either transport
    prepares, and the one whose receipt it counts as a success, carries the chain,
    sender, recipient, calldata and zero value fixed by the journal entry; a success has
    a confirmed successful receipt of that very transaction with exactly one event
    announcing the approved mark; and a mark counted as materialized has, field by
    field, the attributes, roots and issuer that were approved, at the confirmed height
    and index. *)
Theorem transports_bind {W} (source : SourceChain W) (hub : HubChain W) (signer : Wallet W) (confirmations : Z)
    (allowedTarget : option Target) (keccak256 : string → string) (parseTx : string → option Tx)
    (parseLog : Log → option Decoded) (encodeIssueOnce : string → string → string → string → string → outcome string)
    (isAddress : string → bool) (getAddress : string → string) (isHex32 : string → bool)
    (encodeIssue : Z → string → string → string → string → string → string) (e : IssuanceEntry) (w w' : W)
    (c : SourceConfirmation) (t : SignedIssuance) :
  (Direct.prepare source signer keccak256 parseTx encodeIssueOnce e w = (Ok t, w') →
     si_hash t = keccak256 (si_raw t) ∧ ∃ tx, parseTx (si_raw t) = Some tx
       ∧ Bound tx t e (t_source (target e)) (t_issuer (target e)) (Direct.issuanceCalldata encodeIssueOnce e)) ∧
  (Direct.receipt source signer confirmations parseTx parseLog encodeIssueOnce e w = (Ok (RSuccess c), w') →
     ∃ signed tx r, transaction e = Some signed ∧ parseTx (si_raw signed) = Some tx
       ∧ Bound tx signed e (t_source (target e)) (t_issuer (target e)) (Direct.issuanceCalldata encodeIssueOnce e)
       ∧ Succeeded r signed (t_source (target e)) (t_issuer (target e)) (Direct.matches parseLog e) c) ∧
  (isBytes32 (io_attrs (outcome_ e)) = true → Direct.materialized hub e c w = (Ok true, w') →
     ∃ m height index, StoredMark m e ∧ numberOfBig height = sc_blockNumber c
       ∧ numberOfBig index = sc_transactionIndex c) ∧
  (Rotating.prepare source hub signer allowedTarget keccak256 parseTx isAddress getAddress isHex32 encodeIssue e w
     = (Ok t, w') →
     si_hash t = keccak256 (si_raw t) ∧
     ∃ rt tx, Rotating.checkedRotatingTarget isAddress getAddress (target e) = Ok rt ∧ parseTx (si_raw t) = Some tx
       ∧ Bound tx t e (t_issuer (target e)) (Rotating.rt_operatingKey rt)
           (Rotating.rotatingCalldata isAddress isHex32 encodeIssue rt e)) ∧
  (Rotating.receipt source signer confirmations parseTx parseLog isAddress getAddress isHex32 encodeIssue e w
     = (Ok (RSuccess c), w') →
     ∃ rt signed tx r, Rotating.checkedRotatingTarget isAddress getAddress (target e) = Ok rt
       ∧ transaction e = Some signed ∧ parseTx (si_raw signed) = Some tx
       ∧ Bound tx signed e (t_issuer (target e)) (Rotating.rt_operatingKey rt)
           (Rotating.rotatingCalldata isAddress isHex32 encodeIssue rt e)
       ∧ Succeeded r signed (t_issuer (target e)) (Rotating.rt_operatingKey rt) (Rotating.matches parseLog rt e) c) ∧
  (isBytes32 (io_attrs (outcome_ e)) = true → Rotating.materialized hub isAddress getAddress e c w = (Ok true, w') →
     ∃ rt m height index epoch, Rotating.checkedRotatingTarget isAddress getAddress (target e) = Ok rt ∧ StoredMark m e
       ∧ numberOfBig height = sc_blockNumber c ∧ numberOfBig index = sc_transactionIndex c
       ∧ numberOfBig epoch = Rotating.rt_issuerKeyEpoch rt).
Proof.
  split_and!.
  - intros H. destruct (wp_run _ _ _ _ _ (direct_prepare source signer keccak256 parseTx encodeIssueOnce e w) H t eq_refl)
      as [Hv Hh]. split; [done|by apply direct_bound].
  - intros H. destruct (wp_run _ _ _ _ _ (direct_receipt source signer confirmations parseTx parseLog encodeIssueOnce e w)
      H c eq_refl) as (signed & r & Ht & Hv & Hs).
    destruct (direct_bound parseTx encodeIssueOnce e signed Hv) as (tx & Hp & Hb). by exists signed, tx, r.
  - intros Hb H. exact (wp_run _ _ _ _ _ (direct_materialized hub e c w Hb) H eq_refl).
  - intros H. destruct (wp_run _ _ _ _ _ (rotating_prepare source hub signer allowedTarget keccak256 parseTx isAddress
      getAddress isHex32 encodeIssue e w) H t eq_refl) as [Hv Hh]. split; [done|by apply rotating_bound].
  - intros H. destruct (wp_run _ _ _ _ _ (rotating_receipt source signer confirmations parseTx parseLog isAddress
      getAddress isHex32 encodeIssue e w) H c eq_refl) as (rt & signed & r & Hrt & Ht & Hv & Hs).
    destruct (rotating_bound parseTx isAddress getAddress isHex32 encodeIssue e signed Hv) as (rt' & tx & Hrt' & Hp & Hb).
    assert (rt' = rt) as -> by congruence. by exists rt, signed, tx, r.
  - intros Hb H. exact (wp_run _ _ _ _ _ (rotating_materialized hub isAddress getAddress e c w Hb) H eq_refl).
Qed.

(** ** A mark found on the hub *)

Definition exTarget : Target := {|
  t_chainId := 11155111; t_source := "0xSrc"; t_issuer := "0xIss"; t_hubChainId := 102031; t_asc := "0xAsc";
  t_issuerMode := None; t_operatingKey := None; t_issuerKeyEpoch := None |}.
Definition exApproved : IssuanceEntry := mkEntry 1 exId "0xwallet" "fp" "v1" None None 1000 9000000 sourceConfirmed exTarget
  {| io_status := ISSUED; io_attrs := Attrs.exWord; io_claimsRoot := "0xroot"; io_evidenceHash := "0xev";
     io_expiry := 1801536000; io_rest := "{}" |} 3 None true (Some exSigned) [] None None None None.
Definition exMark : Mark := {|
  mk_0 := 1; mk_1 := 1; mk_attrs := Attrs.exAttrs; mk_claimsRoot := "0xROOT"; mk_evidenceHash := "0xev"; mk_issuer := "0xiss" |}.
Definition exHub : HubChain unit := {|
  h_chainId := ret 102031; h_sourceContract _ := ret "0xSrc"; h_expectedChainKey _ := ret 1; h_blockNumber := ret 500;
  h_getMark _ _ _ := ret exMark; h_tombstone _ _ _ := ret false; h_lastAppliedHeight _ _ _ := ret 77;
  h_lastAppliedTxIndex _ _ _ := ret 4; h_markIssuerKeyEpoch _ _ _ := ret 1; h_isMarkIssuerUsable _ _ _ := ret true |}.
Definition exConfirmation : SourceConfirmation := {|
  sc_blockNumber := 77; sc_blockHash := "0xb"; sc_transactionIndex := 4; sc_confirmedAt := 2000; sc_gasUsed := None |}.
Definition exSource : SourceChain unit := {|
  s_chainId := ret 11155111; s_code _ := ret "0x60"; s_processedRequest _ _ := ret true; s_isIssuer _ _ := ret true;
  s_broadcast h := ret h; s_receipt _ := ret None; s_confirmations _ := ret 0; s_blockHash _ := ret None;
  s_stableSource _ := ret ""; s_operatingKey _ := ret ""; s_keyEpoch _ := ret 0; s_suspended _ := ret false |}.
Definition exWallet : Wallet unit := {|
  w_address := "0xIss"; w_populate to_ d := ret {| rq_to := to_; rq_data := d; rq_nonce := 7; rq_gasLimit := 210000 |};
  w_sign _ := ret "0xraw"; w_now := ret 2000 |}.

Lemma transports_bind_witness :
  ∃ m, StoredMark m exApproved ∧ Attrs.unpackAttrs Attrs.exWord = Ok (mk_attrs m).
Proof.
  destruct (proj1 (proj2 (proj2 (transports_bind exSource exHub exWallet 6 None (λ s, s) (λ _, None) (λ _, None)
    (λ _ _ _ _ _, Ok "") (λ _, true) (λ s, s) (λ _, true) (λ _ _ _ _ _ _, "") exApproved tt tt exConfirmation exSigned)))
    ltac:(vm_compute; reflexivity) ltac:(vm_compute; reflexivity)) as (m & _ & _ & Hm & _).
  exists m. split; [exact Hm|]. exact (proj1 (proj2 (proj2 Hm))).
Defined.
End EvmProofs.
