(* ===== verification/Edit.v ===== *)
(** Bounded edit retrieval of the screening engine, [src/aml/edit-distance.ts].  The table
    computed by [boundedEditDistance] is the optimal-string-alignment distance, capped; and the two
    indexes used to find candidates lose nothing: tokens within one edit share a deletion key and
    tokens within two edits share a boundary bigram.  A string is the list of its code points and
    Unicode recomposition is a parameter. *)

From Stdlib Require Import ZArith Lia.
From stdpp Require Import base decidable option list sets.
From S2P Require Import Prelude JS.
Local Open Scope nat_scope.
Local Open Scope list_scope.

(** A string as its code points. *)
Abbreviation text := (list Z).

(** [new Set(l)]: the distinct elements, in order of first occurrence. *)
Definition unique {A} `{EqDecision A} (l : list A) : list A :=
  fold_left (λ acc x, if decide (x ∈ acc) then acc else acc ++ [x]) l [].

Lemma elem_of_unique {A} `{EqDecision A} (l : list A) x : x ∈ unique l ↔ x ∈ l.
Proof.
  unfold unique. assert (∀ acc, x ∈ fold_left (λ acc x, if decide (x ∈ acc) then acc else acc ++ [x]) l acc
    ↔ x ∈ acc ∨ x ∈ l) as H; [|rewrite H; set_solver].
  induction l as [|y l IH]; intros acc; simpl; [set_solver|]. rewrite IH. destruct (decide (y ∈ acc)); set_solver.
Qed.

Lemma NoDup_unique {A} `{EqDecision A} (l : list A) : NoDup (unique l).
Proof.
  unfold unique. assert (∀ acc, NoDup acc → NoDup (fold_left (λ acc x, if decide (x ∈ acc) then acc else acc ++ [x]) l acc)) as H;
    [|by apply H, NoDup_nil_2].
  induction l as [|y l IH]; intros acc Hacc; simpl; [done|]. apply IH. destruct (decide (y ∈ acc)); [done|].
  apply NoDup_app. split; [done|]. split; [set_solver|apply NoDup_singleton].
Qed.

Module Edit.

Definition MIN_EDIT_TOKEN : nat := 4.
Definition MIN_TWO_EDIT_TOKEN : nat := 6.
Definition MAX_EDIT_TOKEN : nat := 64.

(** The table: [rows[i][j]], read and written in range. *)
Abbreviation Rows := (list (list nat)).

Section edit.
(** [String.prototype.normalize('NFC')], as code points. *)
Context (nfc : text → text).

Definition codePoints (token : text) : text := nfc token.

Definition deletionKeys (token : text) : list text :=
  let chars := codePoints token in
  if (length chars <? MIN_EDIT_TOKEN) || (MAX_EDIT_TOKEN <? length chars) then []
  else unique (chars :: imap (λ i _, take i chars ++ drop (S i) chars) chars).

Definition supportedEditLimit (token : text) : nat :=
  let n := length (codePoints token) in
  if (n <? MIN_EDIT_TOKEN) || (MAX_EDIT_TOKEN <? n) then 0 else if n <? MIN_TWO_EDIT_TOKEN then 1 else 2.

Definition get (rows : Rows) (i j : nat) : nat := match rows !! i with Some r => default 0 (r !! j) | None => 0 end.
Definition set_ (rows : Rows) (i j v : nat) : Rows := alter (λ r, <[j := v]> r) i rows.

Definition initRows (la lb : nat) : Rows :=
  let rows := replicate (S la) (replicate (S lb) 0) in
  let rows := fold_left (λ rows i, set_ rows i 0 i) (seq 0 (S la)) rows in
  fold_left (λ rows j, set_ rows 0 j j) (seq 0 (S lb)) rows.

Definition charsEq (a b : text) (i j : nat) : bool := bool_decide (a !! i = b !! j).

(** One cell of the inner loop. *)
Definition fillCell (a b : text) (rows : Rows) (i j : nat) : Rows :=
  let substitution := get rows (i - 1) (j - 1) + (if charsEq a b (i - 1) (j - 1) then 0 else 1) in
  let rows := set_ rows i j (min (min (get rows (i - 1) j + 1) (get rows i (j - 1) + 1)) substitution) in
  if (1 <? i) && (1 <? j) && charsEq a b (i - 1) (j - 2) && charsEq a b (i - 2) (j - 1)
  then set_ rows i j (min (get rows i j) (get rows (i - 2) (j - 2) + 1))
  else rows.

Definition fillRow (a b : text) (maxDistance i : nat) (rows : Rows) : Rows * nat :=
  fold_left (λ st j,
    let rows := fillCell a b st.1 i j in
    (rows, if (i - j) + (j - i) <=? maxDistance then min st.2 (get rows i j) else st.2))
    (seq 1 (length b)) (rows, S maxDistance).

(** The outer loop; [inl] is the early return. *)
Fixpoint fillRows (a b : text) (maxDistance : nat) (rest : list nat) (rows : Rows) : nat + Rows :=
  match rest with
  | [] => inr rows
  | i :: rest =>
      let '(rows, rowMin) := fillRow a b maxDistance i rows in
      if (maxDistance <? rowMin) && (length b + maxDistance <? i) then inl (S maxDistance)
      else fillRows a b maxDistance rest rows
  end.

(** The bound is a natural number here: the source throws on any other. *)
Definition boundedEditDistance (left right : text) (maxDistance : nat) : nat :=
  let a := codePoints left in let b := codePoints right in
  if maxDistance <? (length a - length b) + (length b - length a) then S maxDistance
  else
    match fillRows a b maxDistance (seq 1 (length a)) (initRows (length a) (length b)) with
    | inl r => r
    | inr rows => min (get rows (length a) (length b)) (S maxDistance)
    end.

Definition caret : Z := 94%Z.
Definition dollar : Z := 36%Z.
Fixpoint bigrams (l : text) : list text :=
  match l with x :: ((y :: _) as l') => [x; y] :: bigrams l' | _ => [] end.
Definition editGrams (token : text) : list text :=
  if supportedEditLimit token <? 2 then []
  else unique (bigrams (caret :: codePoints token ++ [dollar])).

Definition withinOneEdit (left right : text) : bool :=
  bool_decide (nfc left = nfc right)
  || ((1 <=? supportedEditLimit left) && (1 <=? supportedEditLimit right)
      && (boundedEditDistance left right 1 <=? 1)).

Definition withinSupportedEdits (left right : text) : bool :=
  bool_decide (nfc left = nfc right)
  || (let limit := min (supportedEditLimit left) (supportedEditLimit right) in
      (0 <? limit) && (boundedEditDistance left right limit <=? limit)).
End edit.

(** * Optimal string alignment *)

(** Copy, delete, insert, substitute, or swap two adjacent characters that are not touched again. *)
Inductive Align : text → text → nat → Prop :=
  | al_nil : Align [] [] 0
  | al_keep x a b n : Align a b n → Align (x :: a) (x :: b) n
  | al_del x a b n : Align a b n → Align (x :: a) b (S n)
  | al_ins y a b n : Align a b n → Align a (y :: b) (S n)
  | al_sub x y a b n : Align a b n → Align (x :: a) (y :: b) (S n)
  | al_swap x y a b n : Align a b n → Align (x :: y :: a) (y :: x :: b) (S n).

Definition Distance (a b : text) (d : nat) : Prop := Align a b d ∧ ∀ n, Align a b n → d ≤ n.

Lemma Align_app a b n a' b' m : Align a b n → Align a' b' m → Align (a ++ a') (b ++ b') (n + m).
Proof. intros H H'. induction H; simpl; try by constructor. done. Qed.

Lemma Align_rev a b n : Align a b n → Align (rev a) (rev b) n.
Proof.
  assert (∀ a b n c d k m, Align a b n → Align c d k → n + k = m → Align (a ++ c) (b ++ d) m) as Happ.
  { intros a' b' n' c d k m H1 H2 <-. by apply Align_app. }
  induction 1; simpl; [constructor|..].
  - eapply Happ; [done|apply (al_keep x [] [] 0), al_nil|lia].
  - rewrite <-(app_nil_r (rev b)). eapply Happ; [done|apply (al_del x [] [] 0), al_nil|lia].
  - rewrite <-(app_nil_r (rev a)). eapply Happ; [done|apply (al_ins y [] [] 0), al_nil|lia].
  - eapply Happ; [done|apply (al_sub x y [] [] 0), al_nil|lia].
  - rewrite <-!app_assoc. simpl. eapply Happ; [done|apply (al_swap y x [] [] 0), al_nil|lia].
Qed.

Lemma Distance_rev a b d : Distance (rev a) (rev b) d → Distance a b d.
Proof.
  intros [H1 H2]. split.
  - rewrite <-(rev_involutive a), <-(rev_involutive b). by apply Align_rev.
  - intros n Hn. apply H2. by apply Align_rev.
Qed.

Lemma Align_nil_l b n : Align [] b n → n = length b.
Proof. remember [] as a. induction 1; simplify_eq/=; auto. Qed.
Lemma Align_nil_r a n : Align a [] n → n = length a.
Proof. remember [] as b. induction 1; simplify_eq/=; auto. Qed.
Lemma Align_ins_all b : Align [] b (length b).
Proof. induction b; simpl; by constructor. Qed.
Lemma Align_del_all a : Align a [] (length a).
Proof. induction a; simpl; by constructor. Qed.
Lemma Distance_nil_l b : Distance [] b (length b).
Proof. split; [apply Align_ins_all|]. by intros n ->%Align_nil_l. Qed.
Lemma Distance_nil_r a : Distance a [] (length a).
Proof. split; [apply Align_del_all|]. by intros n ->%Align_nil_r. Qed.

Lemma Align_length a b n : Align a b n → (length a - length b) + (length b - length a) ≤ n.
Proof. induction 1; simpl in *; lia. Qed.

(** The recurrence of the table. *)
Lemma Distance_step x y a b d1 d2 d3 :
  Distance a (y :: b) d1 → Distance (x :: a) b d2 → Distance a b d3 →
  let s := min (min (d1 + 1) (d2 + 1)) (d3 + (if decide (x = y) then 0 else 1)) in
  (∀ a' b' d4, a = y :: a' → b = x :: b' → Distance a' b' d4 → Distance (x :: a) (y :: b) (min s (d4 + 1))) ∧
  ((∀ a' b', a = y :: a' → b ≠ x :: b') → Distance (x :: a) (y :: b) s).
Proof.
  intros [A1 M1] [A2 M2] [A3 M3] s.
  assert (Align (x :: a) (y :: b) s) as HA.
  { unfold s. destruct (Nat.min_spec (min (d1 + 1) (d2 + 1)) (d3 + (if decide (x = y) then 0 else 1))) as [[_ ->]|[_ ->]].
    - destruct (Nat.min_spec (d1 + 1) (d2 + 1)) as [[_ ->]|[_ ->]]; rewrite Nat.add_1_r; by constructor.
    - destruct (decide (x = y)) as [->|]; [rewrite Nat.add_0_r|rewrite Nat.add_1_r]; by constructor. }
  assert (∀ n, Align (x :: a) (y :: b) n → s ≤ n ∨ ∃ a' b' m, a = y :: a' ∧ b = x :: b' ∧ Align a' b' m ∧ n = S m) as HM.
  { intros n Hn. inversion Hn; subst.
    - left. pose proof (M3 n ltac:(done)). unfold s. destruct (decide (y = y)); [lia|done].
    - left. pose proof (M1 n0 ltac:(done)). unfold s. lia.
    - left. pose proof (M2 n0 ltac:(done)). unfold s. lia.
    - left. pose proof (M3 n0 ltac:(done)). unfold s. destruct (decide (x = y)); lia.
    - right. by do 3 eexists. }
  split.
  - intros a' b' d4 -> -> [A4 M4]. split.
    + destruct (Nat.min_spec s (d4 + 1)) as [[_ ->]|[_ ->]]; [done|]. rewrite Nat.add_1_r. by constructor.
    + intros n [Hs|(a'' & b'' & m & Ea & Eb & Hm & ->)]%HM; [lia|]. simplify_eq. pose proof (M4 m Hm). lia.
  - intros Hno. split; [done|]. intros n [Hs|(a' & b' & m & -> & -> & _)]%HM; [done|]. by destruct (Hno a' b' eq_refl).
Qed.

(** * The table *)

Definition Shape (la lb : nat) (rows : Rows) : Prop := length rows = S la ∧ Forall (λ r, length r = S lb) rows.

Lemma Shape_set la lb rows i j v : Shape la lb rows → Shape la lb (set_ rows i j v).
Proof.
  intros [H1 H2]. split; unfold set_; [by rewrite length_alter|].
  apply Forall_alter; [done|]. intros x Hx. by rewrite length_insert.
Qed.

Lemma get_set la lb rows i j v i' j' : Shape la lb rows → i ≤ la → j ≤ lb →
  get (set_ rows i j v) i' j' = if decide (i' = i ∧ j' = j) then v else get rows i' j'.
Proof.
  intros [Hl Hr] Hi Hj. unfold get, set_. destruct (decide (i' = i)) as [->|Hne].
  - destruct (lookup_lt_is_Some_2 rows i ltac:(lia)) as [r Hlk]. rewrite list_lookup_alter_eq, Hlk. simpl.
    assert (length r = S lb) as Hlen by (by eapply Forall_lookup_1 in Hr).
    destruct (decide (j' = j)) as [->|Hne'].
    + rewrite list_lookup_insert_eq by lia. by rewrite decide_True.
    + rewrite list_lookup_insert_ne by done. by rewrite decide_False by tauto.
  - rewrite list_lookup_alter_ne by done. by rewrite decide_False by tauto.
Qed.

Lemma initRows_spec la lb :
  Shape la lb (initRows la lb) ∧
  (∀ i, i ≤ la → get (initRows la lb) i 0 = i) ∧ (∀ j, j ≤ lb → get (initRows la lb) 0 j = j).
Proof.
  unfold initRows. set (r0 := replicate (S la) (replicate (S lb) 0)).
  assert (Shape la lb r0) as S0.
  { split; [apply length_replicate|]. apply Forall_replicate, length_replicate. }
  assert (∀ n, n ≤ S la → let r := fold_left (λ rows i, set_ rows i 0 i) (seq 0 n) r0 in
    Shape la lb r ∧ ∀ i, i < n → get r i 0 = i) as H1.
  { induction n as [|n IH]; intros Hn; [split; [done|lia]|]. rewrite seq_S, fold_left_app. simpl.
    destruct (IH ltac:(lia)) as [Hs Hg]. split; [by apply Shape_set|]. intros i Hi.
    rewrite (get_set la lb) by (done || lia). destruct (decide _) as [[-> _]|Hne]; [done|]. apply Hg. lia. }
  destruct (H1 (S la) ltac:(lia)) as [S1 G1]. cbv zeta in S1, G1.
  set (r1 := fold_left (λ rows i, set_ rows i 0 i) (seq 0 (S la)) r0) in *.
  assert (∀ n, n ≤ S lb → let r := fold_left (λ rows j, set_ rows 0 j j) (seq 0 n) r1 in
    Shape la lb r ∧ (∀ i, i ≤ la → get r i 0 = i) ∧ ∀ j, j < n → get r 0 j = j) as H2.
  { induction n as [|n IH]; intros Hn; [split; [exact S1|split; [intros; apply G1; lia|lia]]|].
    rewrite seq_S, fold_left_app. simpl. destruct (IH ltac:(lia)) as (Hs & Hi & Hj).
    split; [by apply Shape_set|]. split; intros k Hk; rewrite (get_set la lb) by (done || lia);
      destruct (decide _) as [[? ?]|Hne]; auto; try lia. apply Hj. lia. }
  destruct (H2 (S lb) ltac:(lia)) as (S2 & I2 & J2). repeat split; [apply S2..|done|]. intros. apply J2. lia.
Qed.

Section table.
Variables a b : text.

Definition Cell (rows : Rows) (i j : nat) : Prop := Distance (rev (take i a)) (rev (take j b)) (get rows i j).

(** The cells filled before cell [(i, j)] is. *)
Definition Filled (rows : Rows) (i j : nat) : Prop :=
  Shape (length a) (length b) rows ∧
  ∀ i' j', i' ≤ length a → j' ≤ length b → i' = 0 ∨ j' = 0 ∨ i' < i ∨ i' = i ∧ j' < j → Cell rows i' j'.

Lemma rev_take_S {A} (l : list A) i x : l !! i = Some x → rev (take (S i) l) = x :: rev (take i l).
Proof. intros H. by rewrite (take_S_r _ _ x), rev_app_distr. Qed.

Lemma rev_take_cons (l : text) i y l' : i ≤ length l → rev (take i l) = y :: l' →
  ∃ k, i = S k ∧ l !! k = Some y ∧ l' = rev (take k l).
Proof.
  intros Hi. destruct i as [|k]; [done|]. destruct (lookup_lt_is_Some_2 l k ltac:(lia)) as [z Hz].
  rewrite (rev_take_S _ _ z) by done. intros [= -> <-]. eauto.
Qed.

Lemma Filled_set rows i j v : Filled rows i j → i ≤ length a → j ≤ length b → 0 < i → 0 < j →
  Distance (rev (take i a)) (rev (take j b)) v → Filled (set_ rows i j v) i (S j).
Proof.
  intros [Hs Hc] Hi Hj Hi0 Hj0 Hv. split; [by apply Shape_set|]. intros i' j' Hi' Hj' Hcase. unfold Cell.
  rewrite (get_set (length a) (length b)) by done. destruct (decide _) as [[-> ->]|Hne]; [done|].
  apply Hc; [done..|]. lia.
Qed.

Lemma Cell_edge rows i j : Shape (length a) (length b) rows → i ≤ length a → j ≤ length b →
  (∀ i, i ≤ length a → get rows i 0 = i) → (∀ j, j ≤ length b → get rows 0 j = j) →
  i = 0 ∨ j = 0 → Cell rows i j.
Proof.
  intros Hs Hi Hj Gi Gj [-> | ->]; unfold Cell; simpl.
  - rewrite Gj by done. rewrite <-(length_take_le b j Hj) at 2. rewrite <-length_rev. apply Distance_nil_l.
  - rewrite Gi by done. rewrite <-(length_take_le a i Hi) at 2. rewrite <-length_rev. apply Distance_nil_r.
Qed.

Lemma fillCell_filled rows i j : i < length a → j < length b →
  Filled rows (S i) (S j) → Filled (fillCell a b rows (S i) (S j)) (S i) (S (S j)).
Proof.
  intros Hi Hj HF. pose proof HF as [Hs Hc].
  destruct (lookup_lt_is_Some_2 a i Hi) as [x Hx]. destruct (lookup_lt_is_Some_2 b j Hj) as [y Hy].
  assert (Cell rows i (S j)) as D1 by (apply Hc; lia).
  assert (Cell rows (S i) j) as D2 by (apply Hc; lia).
  assert (Cell rows i j) as D3 by (apply Hc; lia).
  unfold Cell in D1, D2, D3. rewrite (rev_take_S b j y Hy) in D1. rewrite (rev_take_S a i x Hx) in D2.
  destruct (Distance_step x y _ _ _ _ _ D1 D2 D3) as [Sswap Splain].
  unfold fillCell. replace (S i - 1) with i by lia. replace (S j - 1) with j by lia.
  assert ((if charsEq a b i j then 0 else 1) = if decide (x = y) then 0 else 1) as ->.
  { unfold charsEq. rewrite Hx, Hy. destruct (decide (x = y)) as [->|Hne]; [by rewrite bool_decide_true|].
    rewrite bool_decide_false; [done|congruence]. }
  set (v := min (min _ _) _) in *. clearbody v.
  assert (get (set_ rows (S i) (S j) v) (S i) (S j) = v) as Gv.
  { rewrite (get_set (length a) (length b)) by (done || lia). by rewrite decide_True. }
  rewrite Gv. destruct ((1 <? S i) && (1 <? S j) && charsEq a b i (S j - 2) && charsEq a b (S i - 2) j) eqn:Ec.
  - rewrite !andb_true_iff, !Nat.ltb_lt in Ec. destruct Ec as [[[Hi1 Hj1] E1] E2].
    apply bool_decide_eq_true in E1, E2.
    destruct i as [|i]; [lia|]. destruct j as [|j]; [lia|].
    replace (S (S i) - 2) with i in * by lia. replace (S (S j) - 2) with j in * by lia.
    assert (Cell rows i j) as D4 by (apply Hc; lia).
    assert (rev (take (S i) a) = y :: rev (take i a)) as Ea by (apply rev_take_S; congruence).
    assert (rev (take (S j) b) = x :: rev (take j b)) as Eb by (apply rev_take_S; congruence).
    rewrite (get_set (length a) (length b)) by (done || lia). rewrite decide_False by lia.
    assert (Distance (rev (take (S (S i)) a)) (rev (take (S (S j)) b)) (min v (get rows i j + 1))) as HD.
    { rewrite (rev_take_S a (S i) x Hx), (rev_take_S b (S j) y Hy). by apply (Sswap _ _ _ Ea Eb). }
    destruct HF as [Hs' Hc']. split; [by apply Shape_set, Shape_set|]. intros i' j' Hi' Hj' Hcase. unfold Cell.
    rewrite !(get_set (length a) (length b)) by (done || (by apply Shape_set) || lia).
    destruct (decide _) as [[-> ->]|Hne]; [done|]. apply Hc; [done..|lia].
  - apply Filled_set; [done|lia..|]. rewrite (rev_take_S a i x Hx), (rev_take_S b j y Hy). apply Splain.
    intros a' b' Ea Eb. destruct (rev_take_cons a i y a' ltac:(lia) Ea) as (k & -> & Hk & _).
    destruct (rev_take_cons b j x b' ltac:(lia) Eb) as (l & -> & Hl & _).
    replace (S (S k) - 2) with k in Ec by lia. replace (S (S l) - 2) with l in Ec by lia.
    unfold charsEq in Ec. rewrite Hx, Hy, Hk, Hl, !bool_decide_true in Ec by done. simpl in Ec. done.
Qed.

Lemma fillRow_filled m i rows : i < length a → Filled rows (S i) 1 →
  Filled (fillRow a b m (S i) rows).1 (S (S i)) 1.
Proof.
  intros Hi HF. unfold fillRow.
  assert (∀ n, n ≤ length b → Filled (fold_left (λ st j,
    let rows := fillCell a b st.1 (S i) j in
    (rows, if (S i - j) + (j - S i) <=? m then min st.2 (get rows (S i) j) else st.2)) (seq 1 n) (rows, S m)).1 (S i) (S n)) as H.
  { induction n as [|n IH]; intros Hn; [done|]. rewrite seq_S, fold_left_app. simpl. apply fillCell_filled; [done|lia|].
    apply IH. lia. }
  destruct (H (length b) ltac:(done)) as [Hs Hc]. split; [done|]. intros i' j' Hi' Hj' Hcase. apply Hc; lia.
Qed.

(** The early return is never taken: the bound on the lengths was checked before. *)
Lemma fillRows_filled m k rows : length a ≤ length b + m → k ≤ length a → Filled rows (S k) 1 →
  ∃ rows', fillRows a b m (seq (S k) (length a - k)) rows = inr rows' ∧ Filled rows' (S (length a)) 1.
Proof.
  intros Hm. remember (length a - k) as n eqn:En. revert k rows En. induction n as [|n IH]; intros k rows En Hk HF; simpl.
  - exists rows. split; [done|]. by replace (length a) with k by lia.
  - destruct (fillRow a b m (S k) rows) as [rows' rm] eqn:Er.
    rewrite (proj2 (Nat.ltb_ge (length b + m) (S k))), andb_false_r by lia. apply IH; [lia..|].
    pose proof (fillRow_filled m k rows ltac:(lia) HF) as H. by rewrite Er in H.
Qed.

Lemma fillRows_distance m : length a ≤ length b + m →
  ∃ rows, fillRows a b m (seq 1 (length a)) (initRows (length a) (length b)) = inr rows ∧
          Distance a b (get rows (length a) (length b)).
Proof.
  intros Hm. destruct (initRows_spec (length a) (length b)) as (Hs & Gi & Gj).
  destruct (fillRows_filled m 0 (initRows (length a) (length b)) Hm ltac:(lia)) as (rows & E & HF).
  { split; [done|]. intros i j Hi Hj Hcase. apply Cell_edge; auto with lia. }
  rewrite Nat.sub_0_r in E. exists rows. split; [done|]. destruct HF as [_ Hc].
  apply Distance_rev. pose proof (Hc (length a) (length b) ltac:(lia) ltac:(lia) ltac:(lia)) as H.
  unfold Cell in H. by rewrite !firstn_all in H.
Qed.
End table.

(** * The indexes *)

Definition Del1 (a k : text) : Prop := ∃ p x s, a = p ++ x :: s ∧ k = p ++ s.
Definition Key (a k : text) : Prop := k = a ∨ Del1 a k.

Lemma Key_cons x a k : Key a k → Key (x :: a) (x :: k).
Proof. intros [-> | (p & y & s & -> & ->)]; [by left|]. right. by exists (x :: p), y, s. Qed.
Lemma Key_tail x a : Key (x :: a) a.
Proof. right. by exists [], x, a. Qed.

Lemma Align_0 a b : Align a b 0 → a = b.
Proof. remember 0 as n. induction 1; naive_solver. Qed.

Lemma Align_1_key a b n : Align a b n → n ≤ 1 → ∃ k, Key a k ∧ Key b k.
Proof.
  induction 1 as [|x a b n H IH|x a b n H IH|y a b n H IH|x y a b n H IH|x y a b n H IH]; intros Hn.
  - exists []. by split; left.
  - destruct (IH Hn) as (k & H1 & H2). exists (x :: k). by split; apply Key_cons.
  - assert (n = 0) as -> by lia. apply Align_0 in H as ->. exists b. split; [apply Key_tail|by left].
  - assert (n = 0) as -> by lia. apply Align_0 in H as ->. exists b. split; [by left|apply Key_tail].
  - assert (n = 0) as -> by lia. apply Align_0 in H as ->. exists b. split; apply Key_tail.
  - assert (n = 0) as -> by lia. apply Align_0 in H as ->. exists (x :: b). split; [|apply Key_tail].
    apply Key_cons, Key_tail.
Qed.

Definition Shared (l l' : text) : Prop := ∃ g, g ∈ bigrams l ∧ g ∈ bigrams l'.

Lemma bigrams_cons x l g : g ∈ bigrams l → g ∈ bigrams (x :: l).
Proof. destruct l as [|y l]; [set_solver|]. simpl. set_solver. Qed.
Lemma Shared_l x l l' : Shared l l' → Shared (x :: l) l'.
Proof. intros (g & H1 & H2). exists g. split; [by apply bigrams_cons|done]. Qed.
Lemma Shared_r x l l' : Shared l l' → Shared l (x :: l').
Proof. intros (g & H1 & H2). exists g. split; [done|by apply bigrams_cons]. Qed.
Lemma Shared_hd c x l l' : Shared (c :: x :: l) (c :: x :: l').
Proof. exists [c; x]. split; simpl; left. Qed.
Create HintDb edit.
#[local] Hint Resolve Shared_l Shared_r Shared_hd : edit.

(** An edit breaks at most three bigrams of the left string. *)
Lemma Align_shared a b n e : Align a b n →
  (Shared (a ++ [e]) (b ++ [e]) ∨ length a ≤ 3 * n) ∧
  (∀ c, Shared (c :: a ++ [e]) (c :: b ++ [e]) ∨ length a + 1 ≤ 3 * n).
Proof.
  induction 1 as [|x a b n H [IH1 IH2]|x a b n H [IH1 IH2]|y a b n H [IH1 IH2]|x y a b n H [IH1 IH2]|x y a b n H [IH1 IH2]];
    simpl; (split; [|intros c]); auto with edit;
    try (destruct IH1 as [IH1|IH1]; [left; by auto 8 with edit|right; lia]).
  destruct (IH2 x) as [|]; [by left|right; lia].
Qed.

Section retrieval.
Variable nfc : text → text.

Lemma boundedEditDistance_spec left right m : ∃ d,
  Distance (nfc left) (nfc right) d ∧ boundedEditDistance nfc left right m = min d (S m).
Proof.
  unfold boundedEditDistance, codePoints. set (a := nfc left). set (b := nfc right).
  destruct (m <? (length a - length b) + (length b - length a)) eqn:El.
  - destruct (fillRows_distance a b (length a) ltac:(lia)) as (rows & _ & HD). eexists. split; [exact HD|].
    destruct HD as [HA _]. apply Align_length in HA. apply Nat.ltb_lt in El. lia.
  - apply Nat.ltb_ge in El. destruct (fillRows_distance a b m ltac:(lia)) as (rows & -> & HD). by eexists.
Qed.

Lemma deletionKeys_Key token k : MIN_EDIT_TOKEN ≤ length (nfc token) ≤ MAX_EDIT_TOKEN →
  Key (nfc token) k → k ∈ deletionKeys nfc token.
Proof.
  intros [H1 H2] HK. unfold deletionKeys, codePoints.
  rewrite (proj2 (Nat.ltb_ge _ _) H1), (proj2 (Nat.ltb_ge _ _) H2). simpl. apply elem_of_unique, elem_of_cons.
  destruct HK as [->|(p & x & s & E & ->)]; [by left|right]. apply elem_of_lookup_imap. exists (length p), x. rewrite E.
  split; [|by apply list_lookup_middle]. rewrite take_app_length. f_equal.
  rewrite cons_middle, app_assoc, drop_app_length'; [done|rewrite length_app; simpl; lia].
Qed.

Lemma supportedEditLimit_cases token :
  (supportedEditLimit nfc token = 0) ∨
  (MIN_EDIT_TOKEN ≤ length (nfc token) ≤ MAX_EDIT_TOKEN ∧
   supportedEditLimit nfc token = if length (nfc token) <? MIN_TWO_EDIT_TOKEN then 1 else 2).
Proof.
  unfold supportedEditLimit, codePoints.
  destruct (Nat.ltb_spec (length (nfc token)) MIN_EDIT_TOKEN), (Nat.ltb_spec MAX_EDIT_TOKEN (length (nfc token))); simpl; auto.
Qed.

Lemma editGrams_shared left right :
  2 ≤ supportedEditLimit nfc left → 2 ≤ supportedEditLimit nfc right →
  Shared (caret :: nfc left ++ [dollar]) (caret :: nfc right ++ [dollar]) →
  ∃ g, g ∈ editGrams nfc left ∧ g ∈ editGrams nfc right.
Proof.
  intros Hl Hr (g & H1 & H2). exists g. unfold editGrams.
  rewrite (proj2 (Nat.ltb_ge _ _) Hl), (proj2 (Nat.ltb_ge _ _) Hr). by rewrite !elem_of_unique.
Qed.

(** An accepted pair is retrieved: through a deletion key if it is one edit apart, through a
    boundary bigram otherwise. *)
Lemma retrieval_cases left right : withinSupportedEdits nfc left right = true → nfc left ≠ nfc right →
  (withinOneEdit nfc left right = true ∧ ∃ k, k ∈ deletionKeys nfc left ∧ k ∈ deletionKeys nfc right) ∨
  (∃ g, g ∈ editGrams nfc left ∧ g ∈ editGrams nfc right).
Proof.
  unfold withinSupportedEdits. intros H Hne. rewrite bool_decide_false in H by done. rewrite orb_false_l in H.
  set (limit := min _ _) in H. apply andb_true_iff in H as [H1%Nat.ltb_lt H2%Nat.leb_le].
  destruct (boundedEditDistance_spec left right limit) as (d & [HA HM] & E). rewrite E in H2. clear E.
  assert (d ≤ limit) as Hd by lia.
  destruct (supportedEditLimit_cases left) as [El|[Rl El]]; [unfold limit in H1; lia|].
  destruct (supportedEditLimit_cases right) as [Er|[Rr Er]]; [unfold limit in H1; lia|].
  destruct (decide (d ≤ 1)) as [Hd1|Hd1].
  - left. destruct (Align_1_key _ _ _ HA Hd1) as (k & Ka & Kb).
    split; [|exists k; split; by apply deletionKeys_Key].
    unfold withinOneEdit. rewrite bool_decide_false by done. rewrite orb_false_l, !andb_true_iff, !Nat.leb_le.
    destruct (boundedEditDistance_spec left right 1) as (d' & [HA' HM'] & ->). pose proof (HM' _ HA).
    unfold limit in H1. lia.
  - right. assert (2 ≤ limit) as Hlim by lia. unfold limit in Hlim. apply editGrams_shared; [lia..|].
    destruct (Align_shared _ _ _ dollar HA) as [_ HS]. destruct (HS caret) as [|Hlen]; [done|]. exfalso. unfold limit in Hd.
    rewrite El in Hlim, Hd. destruct (Nat.ltb_spec (length (nfc left)) MIN_TWO_EDIT_TOKEN); [lia|].
    unfold MIN_TWO_EDIT_TOKEN in *. lia.
Qed.

(** C20. The table computed for two tokens holds their optimal-string-alignment
    distance, so the bounded distance is that distance capped at one above the bound;
    two tokens that the verifier accepts within their supported edits are equal after
    recomposition, or one edit apart with a common deletion key, or have a common
    boundary bigram, so retrieving candidates by these keys misses no accepted pair; and
    one edit is within the supported edits. *)
Theorem edit_retrieval_complete left right :
  (∀ m, ∃ d, Distance (nfc left) (nfc right) d ∧ boundedEditDistance nfc left right m = min d (S m)) ∧
  (withinSupportedEdits nfc left right = true → nfc left ≠ nfc right →
   (withinOneEdit nfc left right = true ∧ ∃ k, k ∈ deletionKeys nfc left ∧ k ∈ deletionKeys nfc right) ∨
   (∃ g, g ∈ editGrams nfc left ∧ g ∈ editGrams nfc right)) ∧
  (withinOneEdit nfc left right = true → withinSupportedEdits nfc left right = true).
Proof.
  split; [intros m; apply boundedEditDistance_spec|]. split; [apply retrieval_cases|].
  unfold withinOneEdit, withinSupportedEdits. destruct (bool_decide (nfc left = nfc right)); [done|]. rewrite !orb_false_l.
  rewrite !andb_true_iff, !Nat.leb_le. cbv zeta. intros [[Hl Hr] Hd].
  set (limit := min (supportedEditLimit nfc left) (supportedEditLimit nfc right)).
  assert (1 ≤ limit) as Hlim by (unfold limit; lia). split; [by apply Nat.ltb_lt|].
  destruct (boundedEditDistance_spec left right 1) as (d & HD & E).
  destruct (boundedEditDistance_spec left right limit) as (d' & HD' & ->).
  destruct HD as [HA HM], HD' as [HA' HM']. pose proof (HM _ HA'). pose proof (HM' _ HA). clearbody limit. rewrite E in Hd. lia.
Qed.
End retrieval.
End Edit.
