(* ===== verification/Json.v ===== *)
(** JSON values, [JSON.stringify] and the deterministic serialisation [canonicalJson] of
    [src/pipeline/canonical.ts], with the evidence chain of [src/pipeline/evidence.ts] built on it.
    The serialised text does not depend on the order in which fields were set, and it determines
    the value; hence the head of an evidence chain commits to its steps.  An object is the list of
    its own enumerable properties in enumeration order, a number is an integer of magnitude below
    1e21 (or one of the values that are not finite), strings are sequences of single code units. *)

From Stdlib Require Import ZArith Lia Ascii String.
From stdpp Require Import base decidable option list strings pretty sorting sets.
From S2P Require Import Prelude JS.
Local Open Scope string_scope.
Local Open Scope list_scope.
Local Open Scope Z_scope.

Unset Elimination Schemes.
Inductive json :=
  | JUndef
  | JNull
  | JBool (b : bool)
  | JNum (n : Z)
  | JNotFinite
  | JStr (s : string)
  | JDate (ms : Z)
  | JArr (l : list json)
  | JObj (fields : list (string * json)).
Set Elimination Schemes.

Section json_ind.
Variable P : json → Prop.
Hypothesis Pundef : P JUndef.
Hypothesis Pnull : P JNull.
Hypothesis Pbool : ∀ b, P (JBool b).
Hypothesis Pnum : ∀ n, P (JNum n).
Hypothesis Pnf : P JNotFinite.
Hypothesis Pstr : ∀ s, P (JStr s).
Hypothesis Pdate : ∀ t, P (JDate t).
Hypothesis Parr : ∀ l, Forall P l → P (JArr l).
Hypothesis Pobj : ∀ l, Forall (λ kv, P kv.2) l → P (JObj l).

Definition json_ind : ∀ v, P v :=
  fix go v := match v with
  | JUndef => Pundef | JNull => Pnull | JBool b => Pbool b | JNum n => Pnum n | JNotFinite => Pnf
  | JStr s => Pstr s | JDate t => Pdate t
  | JArr l => Parr l ((fix gol l := match l return Forall P l with
      | [] => List.Forall_nil _ | x :: l => List.Forall_cons _ _ _ (go x) (gol l) end) l)
  | JObj l => Pobj l ((fix gol l := match l return Forall (λ kv, P kv.2) l with
      | [] => List.Forall_nil _ | x :: l => List.Forall_cons _ x _ (go x.2) (gol l) end) l)
  end.
End json_ind.

Module Json.

(** * Property order

    The own keys of an object: array indices in ascending order, then the other strings in
    insertion order. *)

Definition isIndex (k : string) : bool :=
  match k with
  | "" => false
  | String "0" r => String.eqb r ""
  | _ => allChars isDigit k
         && ((String.length k <? 10)%nat || ((String.length k =? 10)%nat && str_leb k "4294967294"))
  end.

Definition index_leb (a b : string * json) : bool :=
  (String.length a.1 <? String.length b.1)%nat
  || ((String.length a.1 =? String.length b.1)%nat && str_leb a.1 b.1).

Definition enumerate (l : list (string * json)) : list (string * json) :=
  sort_by index_leb (filter (λ kv, isIndex kv.1 = true) l) ++ filter (λ kv, isIndex kv.1 = false) l.

(** * [sortDeep] *)

Definition PROTO : string := "__proto__".

Definition keyed {A} (a b : string * A) : bool := str_leb a.1 b.1.

(** Evaluates the results of the sorted fields one after the other and assigns them to [out];
    assigning [__proto__] creates no property. *)
Fixpoint assignFields (l : list (string * outcome json)) : outcome (list (string * json)) :=
  match l with
  | [] => Ok []
  | (k, v) :: l =>
      let? v := v in let? out := assignFields l in
      Ok (if String.eqb k PROTO then out else (k, v) :: out)
  end.

Fixpoint allOk (l : list (outcome json)) : outcome (list json) :=
  match l with
  | [] => Ok []
  | v :: l => let? v := v in let? out := allOk l in Ok (v :: out)
  end.

Fixpoint sortDeep (v : json) : outcome json :=
  match v with
  | JNotFinite => Throw (EError "canonicalJson: non-finite numbers cannot go into evidence")
  | JArr l => let? l := allOk (map sortDeep l) in Ok (JArr l)
  | JDate _ => Throw (EError "canonicalJson: use an epoch integer instead of a Date")
  | JObj l =>
      let? out := assignFields (sort_by keyed (map (λ kv, (kv.1, sortDeep kv.2)) l)) in
      Ok (JObj (enumerate out))
  | v => Ok v
  end.

(** * [JSON.stringify] *)

Definition hexDigitOf (n : nat) : ascii := ascii_of_nat (if (n <? 10)%nat then n + 48 else n + 87)%nat.

Definition escapeChar (c : ascii) : string :=
  let n := nat_of_ascii c in
  if (n =? 34)%nat then String "\" (String "034" "")
  else if (n =? 92)%nat then "\\"
  else if (n =? 8)%nat then "\b" else if (n =? 9)%nat then "\t" else if (n =? 10)%nat then "\n"
  else if (n =? 12)%nat then "\f" else if (n =? 13)%nat then "\r"
  else if (n <? 32)%nat then "\u00" +:+ String (hexDigitOf (n / 16)) (String (hexDigitOf (n mod 16)) "")
  else String c "".

Fixpoint escape (s : string) : string :=
  match s with "" => "" | String c s => escapeChar c +:+ escape s end.

Definition dq : string := String "034" "".
Definition quote (s : string) : string := dq +:+ (escape s +:+ dq).

(** [items.join(',')] and the closing bracket. *)
Fixpoint joinClose (close : string) (items : list string) : string :=
  match items with
  | [] => close
  | x :: items => x +:+ (match items with [] => close | _ => "," +:+ joinClose close items end)
  end.

Definition pad2 (n : Z) : string := (if n <? 10 then "0" else "") +:+ pretty n.
Definition pad (k : nat) (n : Z) : string := Nat.iter (k - String.length (pretty n)) (String "0") (pretty n).

(** [Date.prototype.toISOString]: the proleptic Gregorian date of a day count. *)
Definition civil (days : Z) : Z * Z * Z :=
  let z := days + 719468 in
  let era := z / 146097 in let doe := z mod 146097 in
  let yoe := (doe - doe / 1460 + doe / 36524 - doe / 146096) / 365 in
  let doy := doe - (365 * yoe + yoe / 4 - yoe / 100) in
  let mp := (5 * doy + 2) / 153 in
  let d := doy - (153 * mp + 2) / 5 + 1 in
  let m := if mp <? 10 then mp + 3 else mp - 9 in
  (yoe + era * 400 + (if m <=? 2 then 1 else 0), m, d).

Definition isoString (ms : Z) : string :=
  let '(y, m, d) := civil (ms / 86400000) in let t := ms mod 86400000 in
  (if (0 <=? y) && (y <=? 9999) then pad 4 y else if y <? 0 then "-" +:+ pad 6 (- y) else "+" +:+ pad 6 y)
  +:+ ("-" +:+ pad2 m +:+ "-" +:+ pad2 d +:+ "T" +:+ pad2 (t / 3600000) +:+ ":" +:+ pad2 (t / 60000 mod 60)
       +:+ ":" +:+ pad2 (t / 1000 mod 60) +:+ "." +:+ pad 3 (t mod 1000) +:+ "Z").

Example isoString_1 : isoString 1790000000123 = "2026-09-21T14:13:20.123Z".
Proof. vm_compute. reflexivity. Qed.
Example isoString_2 : isoString 951782400000 = "2000-02-29T00:00:00.000Z".
Proof. vm_compute. reflexivity. Qed.

(** [None] is the [undefined] that [JSON.stringify(undefined)] returns. *)
Fixpoint stringify (v : json) : option string :=
  match v with
  | JUndef => None
  | JNull | JNotFinite => Some "null"
  | JBool b => Some (if b then "true" else "false")
  | JNum n => Some (pretty n)
  | JStr s => Some (quote s)
  | JDate t => Some (quote (isoString t))
  | JArr l => Some ("[" +:+ joinClose "]" (map (λ x, default "null" (stringify x)) l))
  | JObj l => Some ("{" +:+ joinClose "}" (omap (λ kv, (λ x, quote kv.1 +:+ (":" +:+ x)) <$> stringify kv.2) l))
  end.

Definition canonicalJson (v : json) : outcome (option string) :=
  let? s := sortDeep v in Ok (stringify s).

Example canonical_1 :
  canonicalJson (JObj [("b", JNum 2); ("x", JUndef); ("10", JNull); ("a", JArr [JUndef; JStr "y"]); ("9", JBool true)])
  = Ok (Some ("{" +:+ quote "9" +:+ ":true," +:+ quote "10" +:+ ":null," +:+ quote "a" +:+ ":[null," +:+ quote "y"
              +:+ "]," +:+ quote "b" +:+ ":2}")).
Proof. vm_compute. reflexivity. Qed.

(** * The text determines the value

    Two texts followed by a delimiter that agree as strings agree piece by piece. *)

Definition delimChar (c : ascii) : bool := let n := nat_of_ascii c in (n =? 44)%nat || (n =? 93)%nat || (n =? 125)%nat.
Definition Delim (s : string) : Prop := match s with "" => True | String c _ => delimChar c = true end.
Definition numChar (c : ascii) : bool := isDigit c || (nat_of_ascii c =? 45)%nat.

Lemma tail_inj c d (a b : string) : String c a = String d b → a = b.
Proof. congruence. Qed.

(** A decoder for one escaped character. *)
Definition hexOf (c : ascii) : nat := let n := nat_of_ascii c in if (n <? 58)%nat then n - 48 else n - 87.
Definition unescape (s : string) : option (ascii * string) :=
  match s with
  | String c r =>
      if (nat_of_ascii c =? 34)%nat then None
      else if (nat_of_ascii c =? 92)%nat then
        match r with
        | String "n" r => Some (ascii_of_nat 10, r) | String "t" r => Some (ascii_of_nat 9, r)
        | String "b" r => Some (ascii_of_nat 8, r) | String "f" r => Some (ascii_of_nat 12, r)
        | String "r" r => Some (ascii_of_nat 13, r)
        | String "u" (String _ (String _ (String x (String y r)))) => Some (ascii_of_nat (16 * hexOf x + hexOf y), r)
        | String c r => Some (c, r)
        | "" => None
        end
      else Some (c, r)
  | "" => None
  end.

Lemma unescape_escape c r : unescape (escapeChar c +:+ r) = Some (c, r).
Proof. destruct c as [[] [] [] [] [] [] [] []]; reflexivity. Qed.

Lemma escape_prefix s t a b : escape s +:+ (dq +:+ a) = escape t +:+ (dq +:+ b) → s = t ∧ a = b.
Proof.
  revert t. induction s as [|c s IH]; intros [|d t] H.
  - split; [done|]. unfold dq in H. change (String "034" a = String "034" b) in H. by simplify_eq.
  - exfalso. apply (f_equal unescape) in H. change (escape (String d t)) with (escapeChar d +:+ escape t) in H.
    rewrite app_assoc_str, unescape_escape in H. done.
  - exfalso. apply (f_equal unescape) in H. change (escape (String c s)) with (escapeChar c +:+ escape s) in H.
    rewrite app_assoc_str, unescape_escape in H. done.
  - change (escape (String d t)) with (escapeChar d +:+ escape t) in H.
    change (escape (String c s)) with (escapeChar c +:+ escape s) in H.
    apply (f_equal unescape) in H. rewrite !app_assoc_str, !unescape_escape in H. injection H as -> H.
    by destruct (IH t H) as [-> ->].
Qed.

Lemma quote_prefix s t a b : quote s +:+ a = quote t +:+ b → s = t ∧ a = b.
Proof.
  unfold quote, dq. rewrite !app_assoc_str, !app_cons_str, !app_nil_str. intros [= H].
  by apply escape_prefix.
Qed.

(** A run of number characters ends at the first character that is not one. *)
Lemma run_prefix a b s t :
  allChars numChar a = true → allChars numChar b = true → Delim s → Delim t →
  a +:+ s = b +:+ t → a = b ∧ s = t.
Proof.
  intros Ha Hb Hs Ht. assert (∀ c, delimChar c = true → numChar c = true → False) as Hx.
  { intros c. destruct c as [[] [] [] [] [] [] [] []]; vm_compute; congruence. }
  revert b Hb Ha. induction a as [|c a IH]; intros [|d b] Hb Ha H; simpl in Ha, Hb; rewrite ?app_nil_str, ?app_cons_str in H.
  - done.
  - subst s. simpl in Hs. apply andb_true_iff in Hb as [Hd _]. by destruct (Hx d).
  - subst t. simpl in Ht. apply andb_true_iff in Ha as [Hc _]. by destruct (Hx c).
  - injection H as -> H. apply andb_true_iff in Ha as [_ Ha], Hb as [_ Hb]. by destruct (IH b Hb Ha H) as [-> ->].
Qed.

Lemma pretty_N_go_num n s : allChars numChar s = true → allChars numChar (pretty_N_go n s) = true.
Proof.
  revert s. induction (N.lt_wf_0 n) as [n _ IH]; intros s Hs.
  destruct (decide (n = 0)%N) as [->|Hn]; [by rewrite pretty_N_go_0|].
  rewrite pretty_N_go_step by lia. apply IH; [apply N.div_lt; lia|]. simpl. rewrite Hs, andb_true_r.
  unfold pretty_N_char. by repeat case_match.
Qed.

Lemma pretty_num (z : Z) : allChars numChar (pretty z) = true.
Proof.
  assert (∀ p : positive, allChars numChar (pretty (N.pos p)) = true) as H.
  { intros p. unfold pretty, pretty_N. by apply pretty_N_go_num. }
  unfold pretty, pretty_Z. destruct z as [|p|p]; [done|apply H|]. rewrite app_cons_str, app_nil_str. simpl. apply H.
Qed.

(** What [JSON.stringify] sees of a value. *)
Definition orNull (v : json) : json := match v with JUndef => JNull | v => v end.
Fixpoint visible (v : json) : json :=
  match v with
  | JNotFinite => JNull
  | JDate t => JStr (isoString t)
  | JArr l => JArr (map (λ x, orNull (visible x)) l)
  | JObj l => JObj (omap (λ kv, match visible kv.2 with JUndef => None | w => Some (kv.1, w) end) l)
  | v => v
  end.

Lemma stringify_visible v : stringify v = None ↔ visible v = JUndef.
Proof. destruct v; done. Qed.

Lemma pretty_head (z : Z) : ∃ c r, pretty z = String c r ∧ numChar c = true.
Proof.
  pose proof (pretty_num z) as H. destruct (pretty z) as [|c r] eqn:E.
  - exfalso. unfold pretty, pretty_Z in E. destruct z as [|p|p]; [done| |done].
    assert (pretty (N.pos p) = "") as E' by done. unfold pretty, pretty_N in E'. simpl in E'.
    assert (∀ n s, (String.length s ≤ String.length (pretty_N_go n s))%nat) as Hlen.
    { intros n. induction (N.lt_wf_0 n) as [n _ IH]; intros s.
      destruct (decide (n = 0)%N) as [->|Hn]; [by rewrite pretty_N_go_0|].
      rewrite pretty_N_go_step by lia. etransitivity; [|apply IH, N.div_lt; lia]. simpl. lia. }
    rewrite pretty_N_go_step in E' by lia.
    pose proof (Hlen (N.pos p `div` 10)%N (String (pretty_N_char (N.pos p `mod` 10)) "")) as Hl. rewrite E' in Hl. simpl in Hl. lia.
  - exists c, r. split; [done|]. simpl in H. by apply andb_true_iff in H as [H _].
Qed.

(** The first character tells the constructors apart. *)
Inductive kind := KNull | KTrue | KFalse | KNum | KStr | KArr | KObj | KOther.
#[export] Instance kind_eq_dec : EqDecision kind.
Proof. solve_decision. Defined.
Definition kindOf (c : ascii) : kind :=
  if numChar c then KNum else
  match nat_of_ascii c with
  | 110 => KNull | 116 => KTrue | 102 => KFalse | 34 => KStr | 91 => KArr | 123 => KObj | _ => KOther
  end%nat.
Definition kindOfValue (v : json) : kind :=
  match v with
  | JUndef => KOther | JNull | JNotFinite => KNull | JBool true => KTrue | JBool false => KFalse
  | JNum _ => KNum | JStr _ | JDate _ => KStr | JArr _ => KArr | JObj _ => KObj
  end.

Lemma stringify_head v a : stringify v = Some a → ∃ c r, a = String c r ∧ kindOf c = kindOfValue v ∧ kindOf c ≠ KOther.
Proof.
  destruct v as [| |[]|n| |s|t|l|l]; simpl; intros; simplify_eq; try by do 2 eexists.
  destruct (pretty_head n) as (c & r & -> & Hc). exists c, r. unfold kindOf. by rewrite Hc.
Qed.

Section join.
Context {A B : Type} (f : A → string) (g : A → B) (Q : A → Prop) (c : ascii).
Hypothesis c_delim : delimChar c = true.
Hypothesis c_comma : c ≠ ","%char.
Hypothesis f_head : ∀ x, Q x → ∃ d r, f x = String d r ∧ d ≠ c.
Abbreviation close := (String c "").

Lemma join_prefix l l' s t :
  Forall (λ x, Q x ∧ ∀ y s t, Q y → Delim s → Delim t → f x +:+ s = f y +:+ t → g x = g y ∧ s = t) l →
  Forall Q l' → joinClose close (map f l) +:+ s = joinClose close (map f l') +:+ t → map g l = map g l' ∧ s = t.
Proof.
  intros Hl Hl'. revert l' Hl'. induction Hl as [|x l [Qx Hx] Hl IH]; intros l' Hl' H; destruct Hl' as [|y l' Qy Hl'].
  - cbn [map joinClose] in H. rewrite !app_cons_str, !app_nil_str in H. injection H as ->. done.
  - exfalso. destruct (f_head y Qy) as (d & r & E & Hd). cbn [map joinClose] in H. rewrite E, !app_cons_str in H.
    by injection H as ->.
  - exfalso. destruct (f_head x Qx) as (d & r & E & Hd). cbn [map joinClose] in H. rewrite E, !app_cons_str in H.
    by injection H as ->.
  - cbn [map joinClose] in H. rewrite !app_assoc_str in H. apply Hx in H as [Hg H]; [|done|..].
    + destruct l as [|x' l], l' as [|y' l']; cbn [map] in H.
      * rewrite !app_cons_str, !app_nil_str in H. injection H as ->. simpl. by rewrite Hg.
      * rewrite !app_cons_str in H. injection H as H _. by destruct c_comma.
      * rewrite !app_cons_str in H. injection H as H _. by destruct c_comma.
      * rewrite app_assoc_str, (app_assoc_str ","), !app_cons_str, !app_nil_str in H.
        apply tail_inj in H. apply (IH (y' :: l')) in H as [H ->]; [|done]. cbn [map] in *. split; [|done]. by rewrite Hg, H.
    + by destruct l.
    + by destruct l'.
Qed.
End join.

Definition Prefixed (v : json) : Prop := ∀ w a b s t,
  stringify v = Some a → stringify w = Some b → Delim s → Delim t →
  a +:+ s = b +:+ t → visible v = visible w ∧ s = t.

Lemma same_kind v w a b s t :
  stringify v = Some a → stringify w = Some b → a +:+ s = b +:+ t → kindOfValue v = kindOfValue w.
Proof.
  intros Hv Hw H. destruct (stringify_head v a Hv) as (c & r & -> & <- & _).
  destruct (stringify_head w b Hw) as (d & r' & -> & <- & _). rewrite !app_cons_str in H. by injection H as ->.
Qed.

Ltac atoms :=
  intros w a b s t Hv Hw Ds Dt H; pose proof (same_kind _ _ _ _ _ _ Hv Hw H) as Hk;
  destruct w as [| |[]|?| |?|?|?|?]; try discriminate Hk; cbn [stringify] in Hv, Hw; injection Hv as <-; injection Hw as <-.

Lemma Prefixed_null : Prefixed JNull.
Proof. atoms; rewrite !app_cons_str, !app_nil_str in H; by injection H as ->. Qed.

(** A field is rendered when its value is. *)
Definition fieldText (kv : string * json) : string := quote kv.1 +:+ (":" +:+ default "" (stringify kv.2)).
Definition fieldVisible (kv : string * json) : string * json := (kv.1, visible kv.2).
Definition Rendered (kv : string * json) : Prop := is_Some (stringify kv.2).
#[local] Instance Rendered_dec kv : Decision (Rendered kv).
Proof. unfold Rendered. apply _. Defined.

Lemma Rendered_cases kv : (∃ x, stringify kv.2 = Some x ∧ Rendered kv) ∨ (stringify kv.2 = None ∧ ¬ Rendered kv).
Proof.
  unfold Rendered. destruct (stringify kv.2) as [x|]; [left; eauto|right]. split; [done|]. by intros [? ?].
Qed.

Lemma fields_text l :
  omap (λ kv : string * json, (λ x, quote kv.1 +:+ (":" +:+ x)) <$> stringify kv.2) l = map fieldText (filter Rendered l).
Proof.
  induction l as [|[k v] l IH]; [done|]. cbn [omap list_omap]. rewrite filter_cons, IH. cbn [fst snd].
  destruct (Rendered_cases (k, v)) as [(x & E & HR)|(E & HR)]; simpl in E; rewrite E.
  - rewrite decide_True by done. cbn [map]. simpl. f_equal. unfold fieldText. simpl. by rewrite E.
  - by rewrite decide_False by done.
Qed.

Lemma fields_visible l :
  omap (λ kv : string * json, match visible kv.2 with JUndef => None | w => Some (kv.1, w) end) l
  = map fieldVisible (filter Rendered l).
Proof.
  induction l as [|[k v] l IH]; [done|]. cbn [omap list_omap]. rewrite filter_cons, IH. cbn [fst snd].
  destruct (Rendered_cases (k, v)) as [(x & E & HR)|(E & HR)]; simpl in E.
  - rewrite decide_True by done. cbn [map]. unfold fieldVisible at 2. cbn [fst snd]. by destruct v.
  - rewrite decide_False by done. apply stringify_visible in E. by rewrite E.
Qed.

Lemma stringify_prefix v : Prefixed v.
Proof.
  induction v as [| |[]|n| |str|d|l IH|l IH] using json_ind.
  - by intros w a b s t H.
  - apply Prefixed_null.
  - atoms; rewrite !app_cons_str, !app_nil_str in H; by injection H as ->.
  - atoms; rewrite !app_cons_str, !app_nil_str in H; by injection H as ->.
  - atoms. apply run_prefix in H as [H ->]; auto using pretty_num. by apply (inj pretty) in H as ->.
  - apply Prefixed_null.
  - atoms; apply quote_prefix in H as [H ->]; simpl; by rewrite H.
  - atoms; apply quote_prefix in H as [H ->]; simpl; by rewrite H.
  - atoms. rewrite !app_cons_str, !app_nil_str in H. injection H as H.
    apply (join_prefix _ (λ x, orNull (visible x)) (λ _, True)) in H as [H ->]; [cbn [visible]; by rewrite H|done|done|..].
    + intros x _. destruct (stringify x) as [r|] eqn:E; [|by do 2 eexists].
      destruct (stringify_head x r E) as (c & r' & -> & Hc & Hne). exists c, r'. split; [done|]. by intros ->.
    + eapply Forall_impl; [exact IH|]. intros x Hx. split; [done|]. intros y s0 t0 _ D1 D2 H0.
      assert (∀ z r, stringify z = Some r → orNull (visible z) = visible z) as Hor by (intros [] r; try done).
      assert (∀ z, stringify z = None → z = JUndef) as Hun by (intros []; done).
      destruct (stringify x) as [rx|] eqn:Ex, (stringify y) as [ry|] eqn:Ey; cbn [default] in H0.
      * destruct (Hx _ _ _ _ _ Ex Ey D1 D2 H0) as [E ->]. by rewrite E.
      * rewrite (Hun y Ey). destruct (Hx JNull rx "null" s0 t0 Ex eq_refl D1 D2 H0) as [E ->]. by rewrite E.
      * rewrite (Hun x Ex). destruct (Prefixed_null y "null" ry s0 t0 eq_refl Ey D1 D2 H0) as [E ->]. simpl.
        split; [|done]. by rewrite <- E.
      * by rewrite (Hun x Ex), (Hun y Ey); rewrite !app_cons_str, !app_nil_str in H0; injection H0 as ->.
    + by apply Forall_true.
  - atoms. rewrite !app_cons_str, !app_nil_str in H. apply tail_inj in H. rewrite !fields_text in H. cbn [visible]. rewrite !fields_visible.
    apply (join_prefix _ fieldVisible Rendered) in H as [-> ->]; [done|done|done|..].
    + intros [k x] _. by do 2 eexists.
    + rewrite Forall_forall in IH |- *. intros [k x] [HR Hin]%list_elem_of_filter. split; [done|].
      intros [k' y] s0 t0 [ry Ey] D1 D2 H0. unfold fieldText in H0. destruct HR as [rx Ex]. cbn [fst snd] in *.
      rewrite Ex, Ey in H0. cbn [default] in H0. rewrite !app_assoc_str in H0.
      apply quote_prefix in H0 as [-> H0]. rewrite !app_cons_str, !app_nil_str in H0. apply tail_inj in H0.
      destruct (IH _ Hin _ _ _ _ _ Ex Ey D1 D2 H0) as [E ->]. unfold fieldVisible. cbn [fst snd] in *. by rewrite E.
    + apply Forall_forall. by intros kv [HR _]%list_elem_of_filter.
Qed.

Lemma Delim_nil : Delim "".
Proof. done. Qed.

Lemma stringify_inj v w a : stringify v = Some a → stringify w = Some a → visible v = visible w.
Proof. intros Hv Hw. eapply (stringify_prefix v w a a "" ""); done. Qed.

(** * The order of the fields does not matter *)

Unset Elimination Schemes.
(** Values that differ at most in the order of their fields. *)
Inductive JEq : json → json → Prop :=
  | JEq_refl v : JEq v v
  | JEq_arr l l' : Forall2 JEq l l' → JEq (JArr l) (JArr l')
  | JEq_obj l l1 l' : l ≡ₚ l1 → Forall2 (λ x y, x.1 = y.1 ∧ JEq x.2 y.2) l1 l' → JEq (JObj l) (JObj l').

(** Keys are distinct and none is [__proto__]. *)
Inductive Plain : json → Prop :=
  | Plain_arr l : Forall Plain l → Plain (JArr l)
  | Plain_obj l : NoDup (map fst l) → PROTO ∉ map fst l → Forall (λ kv, Plain kv.2) l → Plain (JObj l)
  | Plain_atom v : (∀ l, v ≠ JArr l) → (∀ l, v ≠ JObj l) → Plain v.

Set Elimination Schemes.

Lemma keyed_total {A} (x y : string * A) : keyed x y = true ∨ keyed y x = true.
Proof. apply String.leb_total. Qed.
Lemma str_leb_trans a b c : str_leb a b = true → str_leb b c = true → str_leb a c = true.
Proof.
  assert (∀ a b, str_leb a b = true ↔ a = b ∨ str_ltb a b = true) as H.
  { clear. intros a b. split.
    - unfold str_leb, str_ltb, String.leb, String.ltb. destruct (String.compare a b) eqn:E; [|by right|done].
      left. by apply String.compare_eq_iff.
    - intros [->|H]; [by destruct (String.leb_total b b)|]. revert H. unfold str_leb, str_ltb, String.leb, String.ltb.
      by destruct (String.compare a b). }
  rewrite !H. intros [->|H1] [->|H2]; auto. right. by eapply str_ltb_trans.
Qed.
Lemma keyed_trans {A} (x y z : string * A) : keyed x y = true → keyed y z = true → keyed x z = true.
Proof. apply str_leb_trans. Qed.
Lemma str_leb_antisym a b : str_leb a b = true → str_leb b a = true → a = b.
Proof. apply String.leb_antisym. Qed.

Lemma sort_keyed_perm {A} (l l' : list (string * A)) : NoDup (map fst l) → l ≡ₚ l' → sort_by keyed l = sort_by keyed l'.
Proof.
  intros Hnd Hp. apply (StronglySorted_unique_strong (λ x y, keyed x y)).
  - intros [k v] [k' v']. rewrite !sort_by_perm, <- Hp. intros H1 H2 H3%Is_true_eq_true H4%Is_true_eq_true.
    assert (k = k') as <- by (by apply str_leb_antisym).
    pose proof (elem_dget k v l Hnd H1). pose proof (elem_dget k v' l Hnd H2). congruence.
  - apply sort_by_sorted; [apply keyed_total|apply keyed_trans].
  - apply sort_by_sorted; [apply keyed_total|apply keyed_trans].
  - by rewrite !sort_by_perm.
Qed.

Lemma JEq_Plain v : ∀ w, JEq v w → Plain v → sortDeep v = sortDeep w.
Proof.
  induction v as [| | | | | | |l IH|l IH] using json_ind; intros w Heq Hp; inversion Heq; subst; try done.
  - cbn [sortDeep]. f_equal. apply (f_equal allOk). inversion Hp as [? Hl| |? Ha Ho]; [|by destruct (Ha l)]. subst.
    revert IH Hl. clear -H0. induction H0; intros IH Hl; [done|].
    rewrite Forall_cons in IH, Hl. destruct IH as [IHx IH], Hl as [Hx Hl]. simpl. f_equal; auto.
  - cbn [sortDeep]. inversion Hp as [|? Hnd Hpr Hl|? Ha Ho]; [|by destruct (Ho l)]. subst. f_equal. apply (f_equal assignFields).
    rewrite (sort_keyed_perm _ (map (λ kv, (kv.1, sortDeep kv.2)) l1)).
    + f_equal. rewrite H0 in IH, Hl. clear -H1 IH Hl. induction H1 as [|x y l1 l' [E Hxy] H1 IHl]; [done|].
      rewrite Forall_cons in IH, Hl. destruct IH as [IHx IH], Hl as [Hx Hl]. simpl. rewrite E. f_equal; [|by auto].
      f_equal. auto.
    + by rewrite map_map.
    + by rewrite H0.
Qed.

Lemma enumerate_perm l : enumerate l ≡ₚ l.
Proof.
  unfold enumerate. rewrite sort_by_perm. induction l as [|[k v] l IH]; [done|]. rewrite !filter_cons. cbn [fst].
  destruct (isIndex k); simpl.
  - by rewrite IH.
  - by rewrite <- Permutation_middle, IH.
Qed.

Lemma assignFields_Forall2 (l : list (string * json)) out : PROTO ∉ map fst l →
  assignFields (map (λ kv, (kv.1, sortDeep kv.2)) l) = Ok out →
  Forall2 (λ x y, x.1 = y.1 ∧ sortDeep x.2 = Ok y.2) l out.
Proof.
  revert out. induction l as [|[k v] l IH]; intros out Hp H; cbn [map assignFields fst snd] in H; [by injection H as <-|].
  cbn [map fst] in Hp. rewrite not_elem_of_cons in Hp. destruct Hp as [Hk Hp].
  unfold obind in H. destruct (sortDeep v) as [v'|] eqn:Ev; [|done].
  destruct (assignFields _) as [out'|] eqn:Eo; [|done]. specialize (IH out' Hp eq_refl).
  destruct (String.eqb_spec k PROTO) as [->|_]; [by destruct Hk|]. injection H as <-. by constructor.
Qed.

Lemma sortDeep_JEq v : ∀ v', Plain v → sortDeep v = Ok v' → JEq v v'.
Proof.
  induction v as [| | | | | | |l IH|l IH] using json_ind; intros v' Hp H; cbn [sortDeep] in H;
    try done; try (injection H as <-; constructor).
  - destruct (allOk (map sortDeep l)) as [l'|] eqn:E; [|done]. injection H as <-. constructor.
    inversion Hp as [? Hl| |? Ha Ho]; [|by destruct (Ha l)]. subst. clear Hp. revert l' E.
    induction Hl as [|x l Hx Hl IHl]; intros l' E; cbn [map allOk] in E; [by injection E as <-|].
    rewrite Forall_cons in IH. destruct IH as [IHx IH]. unfold obind in E.
    destruct (sortDeep x) as [x'|]; [|done]. destruct (allOk (map sortDeep l)) as [l2|]; [|done].
    injection E as <-. constructor; auto.
  - destruct (assignFields _) as [out|] eqn:E; [|done]. injection H as <-.
    inversion Hp as [|? Hnd Hpr Hl|? Ha Ho]; [|by destruct (Ho l)]. subst. clear Hp.
    destruct (Permutation_map_inv _ _ (sort_by_perm keyed (map (λ kv : string * json, (kv.1, sortDeep kv.2)) l))) as (l1 & E1 & P1).
    rewrite E1 in E. rewrite P1 in Hpr, Hl, IH. apply assignFields_Forall2 in E; [|done].
    destruct (Permutation_Forall2 (Permutation_sym (enumerate_perm out)) (proj2 (Forall2_flip _ _ _) E)) as (l2 & P2 & F2).
    apply (JEq_obj _ l2); [by rewrite P1|]. rewrite P2 in Hl, IH. apply Forall2_flip in F2.
    clear -F2 Hl IH. revert F2. generalize (enumerate out). intros out' F2.
    induction F2 as [|x y l2 out' [Ek Ev] F2 IHF]; [constructor|].
    rewrite Forall_cons in IH, Hl. destruct IH as [IHx IH], Hl as [Hx Hl]. constructor; [split; [done|by apply IHx]|auto].
Qed.

(** Equal texts come from values that agree up to the order of their fields; a field whose value
    is [undefined] leaves no trace. *)
Definition Agree (v w : json) : Prop :=
  ∃ v' w', JEq v v' ∧ JEq w w' ∧ visible v' = visible w'.

Lemma canonicalJson_inj v w a : Plain v → Plain w →
  canonicalJson v = Ok (Some a) → canonicalJson w = Ok (Some a) → Agree v w.
Proof.
  intros Pv Pw. unfold canonicalJson, obind. destruct (sortDeep v) as [v'|] eqn:Ev; [|done].
  destruct (sortDeep w) as [w'|] eqn:Ew; [|done]. intros [= Hv] [= Hw]. exists v', w'.
  split; [by apply sortDeep_JEq|]. split; [by apply sortDeep_JEq|]. by eapply stringify_inj.
Qed.

Lemma canonicalJson_order v w : Plain v → JEq v w → canonicalJson v = canonicalJson w.
Proof. intros Hp He. unfold canonicalJson. by rewrite (JEq_Plain v w He Hp). Qed.
End Json.
