(* ===== verification/Evidence.v ===== *)
(** The evidence chain of the issuance pipeline, [src/pipeline/evidence.ts]: every step is
    serialised by [canonicalJson] and hashed onto the head.  The head the class keeps is the one an
    auditor recomputes from the exported steps, and two evidence files with the same head hold the
    same steps, up to the order of the fields of their payloads. *)

From Stdlib Require Import ZArith Lia Ascii String.
From stdpp Require Import base decidable option list strings sets.
From S2P Require Import Prelude JS Roster Merkle Json.
Import Merkle.Merkle Json.
Local Open Scope string_scope.
Local Open Scope list_scope.
Local Open Scope Z_scope.
Local Open Scope js_scope.

Module Evidence.

Record EvidenceStep := mkStep { ev_step : string; ev_at : Z; ev_payload : json }.

(** The private fields of the class. *)
Record EvidenceChain := mkChain { steps : list EvidenceStep; head : string }.
Definition newChain : EvidenceChain := mkChain [] ZeroHash.

Definition stepJson (s : EvidenceStep) : json :=
  JObj [("step", JStr (ev_step s)); ("at", JNum (ev_at s)); ("payload", ev_payload s)].

Section evidence.
Context (keccak256 : string → string).
(** [ethers.toUtf8Bytes], as hexadecimal data. *)
Context (toUtf8Bytes : string → string).

(** [keccak256(concat([head, toUtf8Bytes(canonicalJson(step))]))]. *)
Definition nextHead (head : string) (s : EvidenceStep) : outcome string :=
  let? text := canonicalJson (stepJson s) in
  match text with
  | None => Throw (EError "INVALID_ARGUMENT")
  | Some text => let? p := concatHex head (toUtf8Bytes text) in Ok (keccak256 p)
  end.

(** The step is pushed before it is hashed. *)
Definition append (s : EvidenceStep) : M EvidenceChain string :=
  modify (λ c, mkChain (steps c ++ [s]) (head c)) ;;;
  let! c := getS in
  let! h := lift_out (nextHead (head c) s) in
  putS (mkChain (steps c) h) ;;;
  ret h.

Definition hash (c : EvidenceChain) : string := head c.
Definition export (c : EvidenceChain) : list EvidenceStep := steps c.

Fixpoint recomputeFrom (head : string) (l : list EvidenceStep) : outcome string :=
  match l with
  | [] => Ok head
  | s :: l => let? h := nextHead head s in recomputeFrom h l
  end.
Definition recompute (l : list EvidenceStep) : outcome string := recomputeFrom ZeroHash l.

(** A run of the pipeline appends some steps in turn. *)
Fixpoint appendAll (l : list EvidenceStep) : M EvidenceChain unit :=
  match l with [] => ret tt | s :: l => append s ;;; appendAll l end.

(** The invariant of the class: the head is the recomputed one. *)
Definition Consistent (c : EvidenceChain) : Prop := recompute (steps c) = Ok (head c).

Lemma newChain_consistent : Consistent newChain.
Proof. done. Qed.

Lemma recomputeFrom_app h l l' :
  recomputeFrom h (l ++ l') = (let? h' := recomputeFrom h l in recomputeFrom h' l').
Proof.
  revert h. induction l as [|s l IH]; intros h; [done|]. cbn [recomputeFrom app]. unfold obind at 1 3.
  destruct (nextHead h s); [apply IH|done].
Qed.

Lemma append_cases s c :
  (∃ h, nextHead (head c) s = Ok h ∧ append s c = (Ok h, mkChain (steps c ++ [s]) h)) ∨
  (∃ e, nextHead (head c) s = Throw e ∧ append s c = (Throw e, mkChain (steps c ++ [s]) (head c))).
Proof.
  unfold append, bind, modify, getS, lift_out, putS, ret. cbn [head steps].
  destruct (nextHead (head c) s) as [h|e]; [left|right]; eauto.
Qed.

Lemma append_consistent s c o c' : Consistent c → append s c = (Ok o, c') → Consistent c' ∧ o = hash c' ∧ export c' = export c ++ [s].
Proof.
  intros Hc Ha. destruct (append_cases s c) as [(h & Hn & E)|(e & _ & E)]; rewrite E in Ha; [|done].
  injection Ha as <- <-. split; [|done]. unfold Consistent, recompute. cbn [steps head].
  rewrite recomputeFrom_app. unfold Consistent, recompute in Hc. rewrite Hc. simpl. by rewrite Hn.
Qed.

Lemma appendAll_consistent l c c' : Consistent c → appendAll l c = (Ok tt, c') → Consistent c' ∧ export c' = export c ++ l.
Proof.
  revert c. induction l as [|s l IH]; intros c Hc H; cbn [appendAll] in H.
  - injection H as <-. by rewrite app_nil_r.
  - unfold bind in H. destruct (append s c) as [[h|e] c1] eqn:Ha; [|done].
    apply append_consistent in Ha as (Hc1 & _ & E); [|done]. apply IH in H as [H1 H2]; [|done].
    split; [done|]. by rewrite H2, E, <- app_assoc.
Qed.

(** * Binding *)

Hypothesis keccak_word : ∀ x, isLowerBytes32 (keccak256 x) = true.
Hypothesis utf8_hex : ∀ s, isHexData (toUtf8Bytes s) = true ∧ toLowerCase (toUtf8Bytes s) = toUtf8Bytes s.
Hypothesis utf8_inj : ∀ s t, toUtf8Bytes s = toUtf8Bytes t → s = t.

Definition textOf (s : EvidenceStep) : string := match canonicalJson (stepJson s) with Ok (Some t) => t | _ => "" end.
Definition packOf (head : string) (s : EvidenceStep) : string :=
  "0x" +:+ Roster.hexBody head +:+ Roster.hexBody (toUtf8Bytes (textOf s)).

(** The preimages hashed while recomputing a head. *)
Fixpoint chainPacks (head : string) (l : list EvidenceStep) : list string :=
  match l with [] => [] | s :: l => packOf head s :: chainPacks (keccak256 (packOf head s)) l end.

Lemma stepJson_text s v : canonicalJson (stepJson s) = Ok v → ∃ t, v = Some t.
Proof.
  unfold canonicalJson, obind. destruct (sortDeep (stepJson s)) as [w|] eqn:E; [|done]. intros [= <-].
  unfold stepJson in E. cbn [sortDeep] in E. destruct (assignFields _); [|done]. injection E as <-. by eexists.
Qed.

Lemma nextHead_ok h s h' : isLowerBytes32 h = true → nextHead h s = Ok h' →
  canonicalJson (stepJson s) = Ok (Some (textOf s)) ∧ h' = keccak256 (packOf h s).
Proof.
  intros Hw H. unfold nextHead, textOf, packOf, obind in *. destruct (canonicalJson (stepJson s)) as [v|] eqn:E; [|done].
  destruct (stepJson_text s v E) as [t ->]. destruct (utf8_hex t) as [Hx Hl]. unfold concatHex, textOf in *.
  rewrite (word_hexData h Hw), Hx, (hexString_lower_fix 64 _ Hw), Hl in H. simpl in H. rewrite E.
  by injection H as <-.
Qed.

Lemma hexBody_inj a b : isHexData a = true → isHexData b = true → Roster.hexBody a = Roster.hexBody b → a = b.
Proof.
  unfold isHexData. destruct a as [|c a]; [done|]. destruct b as [|d b]; [by destruct c as [[] [] [] [] [] [] [] []]|].
  intros Ha Hb. repeat case_match; try done; simplify_eq. simpl. by intros ->.
Qed.

Lemma packOf_inj h h' s s' : isLowerBytes32 h = true → isLowerBytes32 h' = true →
  packOf h s = packOf h' s' → h = h' ∧ textOf s = textOf s'.
Proof.
  intros Hh Hh' E. unfold packOf in E. apply Json.tail_inj, Json.tail_inj in E.
  destruct (Roster.lower_body h Hh) as [_ L], (Roster.lower_body h' Hh') as [_ L'].
  apply app_str_inj in E as [E1 E2]; [|congruence].
  split; [|by apply utf8_inj, hexBody_inj; [apply utf8_hex..|]].
  apply hexBody_inj; [by apply word_hexData..|done].
Qed.

Lemma chainPacks_app h l l' h' : isLowerBytes32 h = true → recomputeFrom h l = Ok h' →
  chainPacks h (l ++ l') = chainPacks h l ++ chainPacks h' l'.
Proof.
  revert h. induction l as [|s l IH]; intros h Hw H; cbn [recomputeFrom app chainPacks] in *; [by injection H as ->|].
  unfold obind in H. destruct (nextHead h s) as [h1|] eqn:E; [|done].
  apply nextHead_ok in E as [_ ->]; [|done]. by rewrite IH.
Qed.

Lemma recomputeFrom_word h l h' : isLowerBytes32 h = true → recomputeFrom h l = Ok h' → isLowerBytes32 h' = true.
Proof.
  revert h. induction l as [|s l IH]; intros h Hw H; cbn [recomputeFrom] in H; [by injection H as <-|].
  unfold obind in H. destruct (nextHead h s) as [h1|] eqn:E; [|done].
  apply nextHead_ok in E as [_ ->]; [|done]. by eapply IH, H.
Qed.

Lemma zero_word : isLowerBytes32 ZeroHash = true.
Proof. by vm_compute. Qed.

(** The last step of a chain that is not empty. *)
Lemma recompute_snoc l s h : recompute (l ++ [s]) = Ok h →
  ∃ h0, recompute l = Ok h0 ∧ isLowerBytes32 h0 = true ∧
        canonicalJson (stepJson s) = Ok (Some (textOf s)) ∧ h = keccak256 (packOf h0 s) ∧
        chainPacks ZeroHash (l ++ [s]) = chainPacks ZeroHash l ++ [packOf h0 s].
Proof.
  unfold recompute. rewrite recomputeFrom_app. intros H. unfold obind in H.
  destruct (recomputeFrom ZeroHash l) as [h0|] eqn:E; [|done]. exists h0.
  pose proof (recomputeFrom_word _ _ _ zero_word E) as Hw. cbn [recomputeFrom] in H. unfold obind in H.
  destruct (nextHead h0 s) as [h1|] eqn:En; [|done]. injection H as <-. apply nextHead_ok in En as [Et ->]; [|done].
  by rewrite (chainPacks_app _ _ _ h0 zero_word E).
Qed.

Definition SameText (s s' : EvidenceStep) : Prop :=
  ∃ t, canonicalJson (stepJson s) = Ok (Some t) ∧ canonicalJson (stepJson s') = Ok (Some t).

Lemma chain_texts l l' h :
  recompute l = Ok h → recompute l' = Ok h →
  Roster.NoCollision keccak256 (chainPacks ZeroHash l ++ chainPacks ZeroHash l') →
  (∀ p, p ∈ chainPacks ZeroHash l ++ chainPacks ZeroHash l' → keccak256 p ≠ ZeroHash) →
  Forall2 SameText l l'.
Proof.
  revert l' h. induction l as [|s l IH] using rev_ind; intros l' h H H' HN HZ.
  - destruct l' as [|s' l' _] using rev_ind; [constructor|]. exfalso. injection H as <-.
    apply recompute_snoc in H' as (h0 & _ & _ & _ & E & Ep). eapply HZ; [|symmetry; exact E]. rewrite Ep. set_solver.
  - destruct l' as [|s' l' _] using rev_ind.
    { exfalso. injection H' as <-. apply recompute_snoc in H as (h0 & _ & _ & _ & E & Ep).
      eapply HZ; [|symmetry; exact E]. rewrite Ep. set_solver. }
    apply recompute_snoc in H as (h0 & H & W & T & -> & Ep). apply recompute_snoc in H' as (h1 & H' & W' & T' & E & Ep').
    rewrite Ep, Ep' in HN, HZ. apply HN in E; [|set_solver..]. apply packOf_inj in E as [-> Et]; [|done..].
    apply Forall2_app; [|constructor; [|constructor]].
    + eapply IH; [exact H|exact H'| |]; [eapply Roster.NoCollision_sub; [exact HN|set_solver]|].
      intros p Hp. apply HZ. set_solver.
    + exists (textOf s). split; [done|]. by rewrite Et.
Qed.

Definition SameStep (s s' : EvidenceStep) : Prop :=
  ev_step s = ev_step s' ∧ ev_at s = ev_at s' ∧ Agree (ev_payload s) (ev_payload s').

Lemma stepJson_visible s t : canonicalJson (stepJson s) = Ok (Some t) →
  ∃ p, sortDeep (ev_payload s) = Ok p ∧
       stringify (JObj [("at", JNum (ev_at s)); ("payload", p); ("step", JStr (ev_step s))]) = Some t.
Proof.
  unfold canonicalJson, stepJson. intros H. cbn [sortDeep map fst snd] in H.
  assert (∀ (a b c : outcome json), sort_by keyed [("step", a); ("at", b); ("payload", c)] = [("at", b); ("payload", c); ("step", a)]) as Es.
  { intros. reflexivity. }
  rewrite Es in H. cbn [assignFields obind] in H. destruct (sortDeep (ev_payload s)) as [p|]; [|done]. exists p. split; [done|].
  cbn [obind] in H. injection H as <-. reflexivity.
Qed.

Lemma SameText_step s s' : Plain (ev_payload s) → Plain (ev_payload s') → SameText s s' → SameStep s s'.
Proof.
  intros P P' (t & (p & E & H)%stepJson_visible & (p' & E' & H')%stepJson_visible).
  pose proof (stringify_inj _ _ _ H H') as Hv. cbn [visible omap list_omap fst snd] in Hv.
  assert (∀ v w, visible v = visible w → sortDeep (ev_payload s) = Ok v → sortDeep (ev_payload s') = Ok w →
    Agree (ev_payload s) (ev_payload s')) as HA.
  { intros v w Hvw Hv0 Hw0. exists v, w. split; [by apply sortDeep_JEq|]. split; [by apply sortDeep_JEq|done]. }
  unfold SameStep. destruct (visible p) as [] eqn:Ep, (visible p') as [] eqn:Ep'; simplify_eq/=;
    (split; [congruence|split; [congruence|eapply HA; [|exact E|exact E']; congruence]]).
Qed.

(** C17. After any run of appends that did not throw, the chain exports exactly the
    appended steps and its head is the one an auditor recomputes from them; and any
    other evidence file that recomputes to the same head, absent a hash collision or a
    preimage of the zero hash among the texts hashed, has the same steps in the same
    order, with payloads that differ at most in the order of their fields and in fields
    that are undefined. *)
Theorem evidence_chain_binding (l l' : list EvidenceStep) (c : EvidenceChain) :
  appendAll l newChain = (Ok tt, c) →
  export c = l ∧ recompute (export c) = Ok (hash c) ∧
  (recompute l' = Ok (hash c) →
   Forall (λ s, Plain (ev_payload s)) l → Forall (λ s, Plain (ev_payload s)) l' →
   Roster.NoCollision keccak256 (chainPacks ZeroHash l ++ chainPacks ZeroHash l') →
   (∀ p, p ∈ chainPacks ZeroHash l ++ chainPacks ZeroHash l' → keccak256 p ≠ ZeroHash) →
   Forall2 SameStep l l').
Proof.
  intros H. apply appendAll_consistent in H as [Hc E]; [|apply newChain_consistent]. simpl in E.
  split; [done|]. split; [exact Hc|]. unfold Consistent in Hc. rewrite <- E. intros Hl' Pl Pl' HN HZ.
  pose proof (chain_texts _ _ _ Hc Hl' HN HZ) as HF. unfold export in *. clear -HF Pl Pl'.
  induction HF as [|s s' l l' Hs HF IH]; [constructor|]. rewrite Forall_cons in Pl, Pl'.
  destruct Pl, Pl'. constructor; [by apply SameText_step|auto].
Qed.
End evidence.
End Evidence.

Module EvidenceExample.
Import Evidence.

(** UTF-8 on ASCII text, two digits a byte. *)
Fixpoint exBytes (s : string) : string :=
  match s with "" => "" | String c s => Roster.hexDigits 2 (Z.of_N (N_of_ascii c)) +:+ exBytes s end.
Definition exUtf8 (s : string) : string := "0x" +:+ exBytes s.

Lemma exByte_hex c : let d := Roster.hexDigits 2 (Z.of_N (N_of_ascii c)) in
  String.length d = 2%nat ∧ allChars isHex d = true ∧ toLowerCase d = d.
Proof. destruct c as [[] [] [] [] [] [] [] []]; by vm_compute. Qed.

Lemma exUtf8_hex s : isHexData (exUtf8 s) = true ∧ toLowerCase (exUtf8 s) = exUtf8 s.
Proof.
  unfold exUtf8. change (Nat.even (String.length (exBytes s)) && allChars isHex (exBytes s) = true ∧
    String "0" (String "x" (toLowerCase (exBytes s))) = String "0" (String "x" (exBytes s))).
  rewrite andb_true_iff. assert (∀ a b, allChars isHex (a +:+ b) = allChars isHex a && allChars isHex b) as Ha.
  { intros a b. induction a as [|c a IHa]; [done|].
    change (isHex c && allChars isHex (a +:+ b) = isHex c && allChars isHex a && allChars isHex b). by rewrite IHa, andb_assoc. }
  assert (∀ a b, toLowerCase (a +:+ b) = toLowerCase a +:+ toLowerCase b) as Ht.
  { intros a b. induction a as [|c a IHa]; [done|].
    change (String (lower_ascii c) (toLowerCase (a +:+ b)) = String (lower_ascii c) (toLowerCase a +:+ toLowerCase b)). by rewrite IHa. }
  induction s as [|c s IH]; [done|]. destruct IH as [[E1 E2] E3]. destruct (exByte_hex c) as (L & H & T).
  change (exBytes (String c s)) with (Roster.hexDigits 2 (Z.of_N (N_of_ascii c)) +:+ exBytes s).
  rewrite length_app_str, Ha, Ht, L, H, E2, T. split; [split; [exact E1|done]|]. by injection E3 as ->.
Qed.

Lemma exUtf8_inj s t : exUtf8 s = exUtf8 t → s = t.
Proof.
  intros H. apply Json.tail_inj, Json.tail_inj in H. revert t H. induction s as [|c s IH]; intros [|d t] H; [done|..].
  - exfalso. apply (f_equal String.length) in H. change (exBytes (String d t)) with (Roster.hexDigits 2 (Z.of_N (N_of_ascii d)) +:+ exBytes t) in H.
    rewrite length_app_str, Roster.hexDigits_length in H. done.
  - exfalso. apply (f_equal String.length) in H. change (exBytes (String c s)) with (Roster.hexDigits 2 (Z.of_N (N_of_ascii c)) +:+ exBytes s) in H.
    rewrite length_app_str, Roster.hexDigits_length in H. done.
  - change (Roster.hexDigits 2 (Z.of_N (N_of_ascii c)) +:+ exBytes s = Roster.hexDigits 2 (Z.of_N (N_of_ascii d)) +:+ exBytes t) in H.
    apply app_str_inj in H as [E H]; [|by rewrite !Roster.hexDigits_length]. apply IH in H as ->. f_equal.
    assert (∀ c, Z.of_N (N_of_ascii c) < 16 ^ Z.of_nat 2) as Hb by (intros [[] [] [] [] [] [] [] []]; by vm_compute).
    apply Roster.hexDigits_inj in E; [|split; [lia|apply Hb]..]. apply N2Z.inj in E.
    by rewrite <- (ascii_N_embedding c), <- (ascii_N_embedding d), E.
Qed.

(** Two evidence files that differ in the order of the fields of a payload. *)
Definition exSteps : list EvidenceStep := [
  mkStep "wallet_control" 5 (JObj [("wallet", JStr "0xab"); ("proven", JBool true)]);
  mkStep "aml" 5 (JObj [("riskBand", JNum 2); ("reviewReason", JUndef)]) ].
Definition exSteps' : list EvidenceStep := [
  mkStep "wallet_control" 5 (JObj [("proven", JBool true); ("wallet", JStr "0xab")]);
  mkStep "aml" 5 (JObj [("riskBand", JNum 2)]) ].
Definition exChain : EvidenceChain := Eval vm_compute in (appendAll RosterProofs.toyHash exUtf8 exSteps newChain).2.

Definition distinctHashes (k : string → string) (ps : list string) : bool :=
  forallb (λ x, forallb (λ y, negb (String.eqb (k x) (k y)) || String.eqb x y) ps) ps.
Lemma distinctHashes_spec k ps : distinctHashes k ps = true → Roster.NoCollision k ps.
Proof.
  unfold distinctHashes. rewrite forallb_forall. intros H x y Hx Hy E.
  apply list_elem_of_In in Hx, Hy. specialize (H x Hx). rewrite forallb_forall in H. specialize (H y Hy). simpl in H.
  rewrite E, String.eqb_refl in H. by apply String.eqb_eq in H.
Qed.
Definition noZero (k : string → string) (ps : list string) : bool := forallb (λ x, negb (String.eqb (k x) ZeroHash)) ps.
Lemma noZero_spec k ps : noZero k ps = true → ∀ p, p ∈ ps → k p ≠ ZeroHash.
Proof.
  unfold noZero. rewrite forallb_forall. intros H p Hp E. apply list_elem_of_In in Hp. specialize (H p Hp). simpl in H.
  by rewrite E, String.eqb_refl in H.
Qed.

Lemma exPlain (l : list (string * json)) : bool_decide (NoDup (map fst l)) = true → bool_decide (PROTO ∉ map fst l) = true →
  forallb (λ kv, match kv.2 with JArr _ | JObj _ => false | _ => true end) l = true → Plain (JObj l).
Proof.
  intros H1%bool_decide_eq_true H2%bool_decide_eq_true H3. apply Plain_obj; [done..|]. rewrite forallb_forall in H3.
  apply Forall_forall. intros kv Hin%list_elem_of_In. specialize (H3 kv Hin). simpl in H3. apply Plain_atom; destruct kv.2; done.
Qed.

Lemma evidence_chain_binding_witness : Forall2 SameStep exSteps exSteps'.
Proof.
  apply (evidence_chain_binding RosterProofs.toyHash exUtf8 RosterProofs.toyHash_word exUtf8_hex exUtf8_inj exSteps exSteps' exChain).
  - by vm_compute.
  - by vm_compute.
  - constructor; [by apply exPlain|constructor; [by apply exPlain|constructor]].
  - constructor; [by apply exPlain|constructor; [by apply exPlain|constructor]].
  - apply distinctHashes_spec. by vm_compute.
  - apply noZero_spec. by vm_compute.
Defined.
End EvidenceExample.
