(* ===== verification/Identity.v ===== *)
(** Customer identity policies, [src/pipeline/identity-policy.ts]: [defineIdentityPolicy] validates
    and snapshots a policy, [evaluateIdentityPolicy] turns the bitmap of performed checks into a
    verdict and a policy-local assurance level.  The verdict is characterised, and the level is the
    highest one all of whose requirements, and those of every lower level, were performed. *)

From Stdlib Require Import ZArith Lia Ascii String.
From stdpp Require Import base decidable option list strings pretty sets sorting.
From S2P Require Import Prelude JS Roster Attrs.
Local Open Scope string_scope.
Local Open Scope list_scope.
Local Open Scope Z_scope.
Local Open Scope js_scope.

(** * Strings *)

Definition upper_ascii (c : ascii) : ascii :=
  let n := nat_of_ascii c in if (97 <=? n)%nat && (n <=? 122)%nat then ascii_of_nat (n - 32) else c.
Fixpoint toUpperCase (s : string) : string :=
  match s with "" => "" | String c s => String (upper_ascii c) (toUpperCase s) end.

Definition isSpace (c : ascii) : bool :=
  let n := nat_of_ascii c in ((9 <=? n)%nat && (n <=? 13)%nat) || (n =? 32)%nat || (n =? 160)%nat.
Fixpoint trimStart (s : string) : string :=
  match s with "" => "" | String c r => if isSpace c then trimStart r else s end.
Fixpoint trimEnd (s : string) : string :=
  match s with
  | "" => ""
  | String c r => let r := trimEnd r in if String.eqb r "" && isSpace c then "" else String c r
  end.
Definition trim (s : string) : string := trimEnd (trimStart s).

Definition isAlnum (c : ascii) : bool :=
  let n := nat_of_ascii c in isDigit c || ((65 <=? n)%nat && (n <=? 90)%nat) || ((97 <=? n)%nat && (n <=? 122)%nat).
Definition isOneOf (chars : string) (c : ascii) : bool := existsb (Ascii.eqb c) (list_ascii_of_string chars).

(** [^[A-Za-z0-9][A-Za-z0-9<extra>]{2,max}$]. *)
Definition opaqueId (extra : string) (max : nat) (s : string) : bool :=
  match s with
  | "" => false
  | String c r => isAlnum c && (2 <=? String.length r)%nat && (String.length r <=? max)%nat
                  && allChars (λ c, isAlnum c || isOneOf extra c) r
  end.

Module Identity.

Definition IDENTITY_POLICY_SCHEMA : string := "proofmark-identity-policy-v1".
Definition WALLET_CONTROL : string := "wallet_control".
Definition DOCUMENT_AUTHENTICITY : string := "document_authenticity".
Definition ACCOUNT_CONTROL : string := "account_control".
Definition FACE_MATCH : string := "face_match".
Definition LIVENESS : string := "liveness".
Definition AUTHORIZED_REPRESENTATIVE : string := "authorized_representative".
Definition BENEFICIAL_OWNER_IDENTITY : string := "beneficial_owner_identity".

Record IdentityAssuranceBandV1 := mkBand { b_level : Z; b_required : list string; b_basis : string }.

Inductive BiometricPolicyV1 :=
  | prohibited
  | authorized (checks : list string) (necessityRef legalBasisRef approvalRef : string).

#[export] Instance BiometricPolicyV1_eq_dec : EqDecision BiometricPolicyV1.
Proof. solve_decision. Defined.

Record IdentityPolicyV1 := mkPolicy {
  p_schema : string;
  policyId : string;
  customerRiskId : string;
  p_status : string;
  p_approvalRef : option string;
  subjectKind : string;
  p_required : list string;
  assuranceBands : list IdentityAssuranceBandV1;
  p_biometrics : BiometricPolicyV1 }.

Inductive Outcome := Pass | Missing | NotRequired | Unsupported.
#[export] Instance Outcome_eq_dec : EqDecision Outcome.
Proof. solve_decision. Defined.

Record IdentityRequirementResultV1 := mkResult {
  r_requirement : string; r_method : option string; r_required : bool; r_performed : bool; r_outcome : Outcome }.

Record IdentityPolicyEvaluationV1 := mkEvaluation {
  e_policyId : string; e_customerRiskId : string; e_policyStatus : string; e_approvalRef : option string;
  e_subjectKind : string; e_assurance : Z; e_assuranceBasis : option string; e_passed : bool;
  e_missing : list string; e_violations : list string; e_requirements : list IdentityRequirementResultV1;
  e_mode : string; e_authorizedChecks : list string }.

Definition REQUIREMENTS : list string :=
  [WALLET_CONTROL; DOCUMENT_AUTHENTICITY; ACCOUNT_CONTROL; FACE_MATCH; LIVENESS; AUTHORIZED_REPRESENTATIVE;
   BENEFICIAL_OWNER_IDENTITY].
Definition BIOMETRICS : list string := [FACE_MATCH; LIVENESS].
Definition METHOD_BY_REQUIREMENT (r : string) : option string :=
  if String.eqb r WALLET_CONTROL then Some "WALLET_CONTROL"
  else if String.eqb r DOCUMENT_AUTHENTICITY then Some "ID_DOC_AUTHENTICITY"
  else if String.eqb r ACCOUNT_CONTROL then Some "BANK_ACCOUNT"
  else if String.eqb r FACE_MATCH then Some "FACE_MATCH"
  else if String.eqb r LIVENESS then Some "LIVENESS"
  else None.

(** [l.includes(x)], [new Set(l).has(x)]. *)
Definition includes (l : list string) (x : string) : bool := existsb (String.eqb x) l.

Definition IDENTIFIER : string → bool := opaqueId "._:/-" 127.
Definition REFERENCE : string → bool := opaqueId "._:/#-" 255.

Definition uniqueRequirements (value : list string) (field : string) : outcome (list string) :=
  let? _ := orequire (forallb (includes REQUIREMENTS) value) (EError (field +:+ " contains an unknown identity requirement")) in
  let? _ := orequire (bool_decide (NoDup value)) (EError (field +:+ " contains duplicate identity requirements")) in
  Ok value.

(** The callback of [map] over the bands, with the set of levels seen. *)
Fixpoint snapshotBands (index : Z) (levels : list Z) (bands : list IdentityAssuranceBandV1) : outcome (list IdentityAssuranceBandV1) :=
  match bands with
  | [] => Ok []
  | band :: bands =>
      let? _ := orequire ((1 <=? b_level band) && (b_level band <=? 5) && negb (existsb (Z.eqb (b_level band)) levels))
                  (EError "identity assurance levels must be unique integers from 1 to 5") in
      let? requirements := uniqueRequirements (b_required band) ("identity assuranceBands[" +:+ pretty index +:+ "].required") in
      let? _ := orequire (includes requirements WALLET_CONTROL)
                  (EError "each identity assurance band must require wallet_control") in
      let? _ := orequire (negb (String.eqb (trim (b_basis band)) "") && (String.length (b_basis band) <=? 240)%nat)
                  (EError "each identity assurance band needs a bounded basis") in
      let? rest := snapshotBands (index + 1) (b_level band :: levels) bands in
      Ok (mkBand (b_level band) requirements (trim (b_basis band)) :: rest)
  end.

Definition band_leb (a b : IdentityAssuranceBandV1) : bool := b_level a <=? b_level b.

Fixpoint preservesLower (bands : list IdentityAssuranceBandV1) : bool :=
  match bands with
  | a :: ((b :: _) as rest) => forallb (includes (b_required b)) (b_required a) && preservesLower rest
  | _ => true
  end.

Definition biometricRef (name value : string) : outcome unit :=
  orequire (REFERENCE value) (EError ("identity biometric " +:+ name +:+ " must be a prior decision reference")).

Definition snapshotBiometrics (b : BiometricPolicyV1) : outcome BiometricPolicyV1 :=
  match b with
  | prohibited => Ok prohibited
  | authorized checks n l a =>
      let? checks := uniqueRequirements checks "identity biometrics.checks" in
      let? _ := orequire (negb (length checks =? 0)%nat && forallb (includes BIOMETRICS) checks)
                  (EError "authorized biometrics must name face_match and/or liveness") in
      let? _ := biometricRef "necessityRef" n in
      let? _ := biometricRef "legalBasisRef" l in
      let? _ := biometricRef "approvalRef" a in
      Ok (authorized checks n l a)
  end.

Definition defineIdentityPolicy (input : IdentityPolicyV1) : outcome IdentityPolicyV1 :=
  let? _ := orequire (String.eqb (p_schema input) IDENTITY_POLICY_SCHEMA) (EError "unsupported identity policy schema") in
  let? _ := orequire (IDENTIFIER (policyId input)) (EError "identity policyId must be a stable opaque identifier") in
  let? _ := orequire (IDENTIFIER (customerRiskId input)) (EError "identity customerRiskId must be a stable opaque identifier") in
  let? _ := orequire (includes ["synthetic"; "approved"] (p_status input)) (EError "identity policy status must be synthetic or approved") in
  let? _ := orequire (negb (String.eqb (p_status input) "approved"
                            && negb (truthy (p_approvalRef input) && REFERENCE (default "" (p_approvalRef input)))))
              (EError "approved identity policy requires an opaque approvalRef") in
  let? _ := orequire (negb (String.eqb (p_status input) "synthetic" && bool_decide (p_approvalRef input ≠ None)))
              (EError "synthetic identity policy cannot claim approval") in
  let? _ := orequire (includes ["individual"; "organization"] (subjectKind input)) (EError "unsupported identity subjectKind") in
  let? required := uniqueRequirements (p_required input) "identity required" in
  let? _ := orequire (negb (length (assuranceBands input) =? 0)%nat) (EError "identity assuranceBands are required") in
  let? bands := snapshotBands 0 [] (assuranceBands input) in
  let assuranceBands := sort_by band_leb bands in
  let? _ := orequire (preservesLower assuranceBands)
              (EError "higher identity assurance bands must preserve every lower-band requirement") in
  let? biometrics := snapshotBiometrics (p_biometrics input) in
  Ok (mkPolicy (p_schema input) (policyId input) (customerRiskId input) (p_status input) (p_approvalRef input)
        (subjectKind input) required assuranceBands biometrics).

Definition methodBit (name : string) : Z := default 0 (dget name Methods.Methods).

Definition performed (requirement : string) (methods : Z) : bool :=
  match METHOD_BY_REQUIREMENT requirement with
  | Some method => jsAnd methods (methodBit method) =? methodBit method
  | None => false
  end.

Definition evaluateRequirement (required : list string) (methods : Z) (requirement : string) : IdentityRequirementResultV1 :=
  let method := METHOD_BY_REQUIREMENT requirement in
  let isRequired := includes required requirement in
  let didRun := performed requirement methods in
  mkResult requirement method isRequired didRun
    (if negb isRequired then NotRequired else if bool_decide (method = None) then Unsupported
     else if didRun then Pass else Missing).

Definition earnedBand (bands : list IdentityAssuranceBandV1) (methods : Z) : option IdentityAssuranceBandV1 :=
  last (filter (λ band, forallb (λ r, performed r methods) (b_required band) = true) bands).

Definition evaluateIdentityPolicy (input : IdentityPolicyV1) (methods kind : Z) : outcome IdentityPolicyEvaluationV1 :=
  let? policy := defineIdentityPolicy input in
  let requirements := map (evaluateRequirement (p_required policy) methods) REQUIREMENTS in
  let missing := map r_requirement (filter (λ i, r_required i && bool_decide (r_outcome i ≠ Pass) = true) requirements) in
  let authorizedChecks := match p_biometrics policy with authorized checks _ _ _ => checks | prohibited => [] end in
  let biometricReferenced :=
    filter (λ i, includes BIOMETRICS i = true) (p_required policy)
    ++ filter (λ i, includes BIOMETRICS i = true) (concat (map b_required (assuranceBands policy))) in
  let violations :=
    (if negb ((if String.eqb (subjectKind policy) "individual" then 1 else 2) =? kind) then ["SUBJECT_KIND_MISMATCH"] else [])
    ++ (if negb (length biometricReferenced =? 0)%nat && bool_decide (p_biometrics policy = prohibited) then ["BIOMETRIC_AUTHORIZATION_MISSING"] else [])
    ++ map (λ r, "UNAUTHORIZED_" +:+ toUpperCase r)
         (filter (λ r, performed r methods && negb (includes authorizedChecks r) = true) BIOMETRICS) in
  let earned := earnedBand (assuranceBands policy) methods in
  Ok (mkEvaluation (policyId policy) (customerRiskId policy) (p_status policy) (p_approvalRef policy) (subjectKind policy)
        (match earned with Some b => b_level b | None => 0 end) (b_basis <$> earned)
        ((length missing =? 0)%nat && (length violations =? 0)%nat && bool_decide (is_Some earned))
        missing violations requirements
        (match p_biometrics policy with authorized _ _ _ _ => "authorized" | prohibited => "prohibited" end) authorizedChecks).

(** The policies the repository ships. *)
Definition nonfaceInput : IdentityPolicyV1 :=
  mkPolicy IDENTITY_POLICY_SCHEMA "proofmark-synthetic-individual-nonface-v1" "synthetic-demo-only" "synthetic" None "individual"
    [WALLET_CONTROL; DOCUMENT_AUTHENTICITY; ACCOUNT_CONTROL]
    [mkBand 1 [WALLET_CONTROL] "wallet challenge only";
     mkBand 2 [WALLET_CONTROL; DOCUMENT_AUTHENTICITY] "wallet challenge and document authenticity";
     mkBand 3 [WALLET_CONTROL; DOCUMENT_AUTHENTICITY; ACCOUNT_CONTROL] "wallet challenge, document authenticity, and account control"]
    prohibited.
Definition SYNTHETIC_INDIVIDUAL_NONFACE_POLICY : outcome IdentityPolicyV1 := defineIdentityPolicy nonfaceInput.

Definition SYNTHETIC_SCREENING_ONLY_POLICY : outcome IdentityPolicyV1 := defineIdentityPolicy
  (mkPolicy IDENTITY_POLICY_SCHEMA "proofmark-synthetic-screening-only-v1" "synthetic-screening-only" "synthetic" None "individual"
    [WALLET_CONTROL] [mkBand 1 [WALLET_CONTROL] "wallet challenge only; no human identity claim"] prohibited).

Example shipped_policies : is_ok SYNTHETIC_INDIVIDUAL_NONFACE_POLICY = true ∧ is_ok SYNTHETIC_SCREENING_ONLY_POLICY = true.
Proof. by vm_compute. Qed.

(** * What a validated policy guarantees *)

Lemma uniqueRequirements_ok v f w : uniqueRequirements v f = Ok w →
  w = v ∧ NoDup v ∧ Forall (λ r, r ∈ REQUIREMENTS) v.
Proof.
  unfold uniqueRequirements, orequire, obind. destruct (forallb _ _) eqn:E1; [|done]. destruct (bool_decide _) eqn:E2; [|done].
  intros [= <-]. apply bool_decide_eq_true in E2. split; [done|]. split; [done|].
  apply Forall_forall. intros r Hr%list_elem_of_In. rewrite forallb_forall in E1. specialize (E1 r Hr).
  apply existsb_exists in E1 as (x & Hx%list_elem_of_In & ->%String.eqb_eq). done.
Qed.

Lemma includes_elem l x : includes l x = true ↔ x ∈ l.
Proof.
  unfold includes. rewrite existsb_exists. split.
  - by intros (y & Hy%list_elem_of_In & ->%String.eqb_eq).
  - intros Hx. exists x. split; [by apply list_elem_of_In|apply String.eqb_refl].
Qed.

Definition sameBand (a b : IdentityAssuranceBandV1) : Prop :=
  b_level b = b_level a ∧ b_required b = b_required a ∧ 1 ≤ b_level b ≤ 5 ∧ WALLET_CONTROL ∈ b_required b.

Lemma snapshotBands_ok i levels bands out : snapshotBands i levels bands = Ok out →
  Forall2 sameBand bands out ∧ NoDup (map b_level out) ∧ Forall (λ l, l ∉ levels) (map b_level out).
Proof.
  revert i levels out. induction bands as [|b bands IH]; intros i levels out H; cbn [snapshotBands] in H.
  - injection H as <-. split; [constructor|]. split; [constructor|constructor].
  - unfold orequire, obind in H. destruct (_ && _ && _) eqn:E1; [|done].
    destruct (uniqueRequirements _ _) as [rs|] eqn:E2; [|done]. apply uniqueRequirements_ok in E2 as (-> & _ & _).
    destruct (includes _ _) eqn:E3; [|done]. destruct (_ && _) eqn:E4 in H; [|done].
    destruct (snapshotBands _ _ _) as [rest|] eqn:E5; [|done]. injection H as <-. apply IH in E5 as (F & Hnd & Hl).
    rewrite !andb_true_iff, !Z.leb_le, negb_true_iff in E1. destruct E1 as [E1 Hseen]. apply includes_elem in E3.
    split; [constructor; [by split|done]|]. cbn [map b_level]. split.
    + apply NoDup_cons. split; [|done]. rewrite Forall_forall in Hl. intros Hin. apply (Hl _ Hin). left.
    + constructor.
      * intros Hin. enough (existsb (Z.eqb (b_level b)) levels = true) by congruence. apply existsb_exists.
        exists (b_level b). split; [by apply list_elem_of_In|apply Z.eqb_refl].
      * eapply Forall_impl; [exact Hl|]. intros x Hx Hin. apply Hx. by right.
Qed.

Lemma band_leb_total a b : band_leb a b = true ∨ band_leb b a = true.
Proof. unfold band_leb. rewrite !Z.leb_le. lia. Qed.
Lemma band_leb_trans a b c : band_leb a b = true → band_leb b c = true → band_leb a c = true.
Proof. unfold band_leb. rewrite !Z.leb_le. lia. Qed.

(** A sorted snapshot: requirements grow with the level. *)
Lemma preservesLower_mono bands : preservesLower bands = true →
  ∀ i j a b, bands !! i = Some a → bands !! j = Some b → (i ≤ j)%nat → b_required a ⊆ b_required b.
Proof.
  induction bands as [|x bands IH]; intros H i j a b Ha Hb Hij; [done|].
  destruct i as [|i].
  - cbn in Ha. simplify_eq. revert j b Hb Hij. induction j as [|j IHj]; intros b Hb _; cbn in Hb; [by simplify_eq|].
    destruct bands as [|y bands]; [done|]. cbn [preservesLower] in H. apply andb_true_iff in H as [Hxy H].
    assert (b_required a ⊆ b_required y) as Hy.
    { intros r Hr%list_elem_of_In. rewrite forallb_forall in Hxy. by apply includes_elem, Hxy. }
    etransitivity; [exact Hy|]. apply (IH H 0%nat j y b); [done|done|lia].
  - destruct j as [|j]; [lia|]. cbn in Ha, Hb. destruct bands as [|y bands]; [done|]. cbn [preservesLower] in H.
    apply andb_true_iff in H as [_ H]. by apply (IH H i j a b); [..|lia].
Qed.

(** The bands of a defined policy are those of the input, in order of level. *)
Record Defined_ (input policy : IdentityPolicyV1) : Prop := {
  d_kind : subjectKind policy = subjectKind input;
  d_kinds : subjectKind input = "individual" ∨ subjectKind input = "organization";
  d_required : p_required policy = p_required input;
  d_biometrics : p_biometrics policy = p_biometrics input;
  d_bands : ∃ bands, Forall2 sameBand (assuranceBands input) bands ∧ assuranceBands policy ≡ₚ bands;
  d_levels : NoDup (map b_level (assuranceBands policy));
  d_sorted : StronglySorted band_leb (assuranceBands policy);
  d_mono : ∀ i j a b, assuranceBands policy !! i = Some a → assuranceBands policy !! j = Some b → (i ≤ j)%nat →
    b_required a ⊆ b_required b;
  d_known : Forall (λ r, r ∈ REQUIREMENTS) (p_required input) }.

Lemma snapshotBiometrics_ok b b' : snapshotBiometrics b = Ok b' → b' = b.
Proof.
  destruct b as [|checks n l a]; simpl; [by intros [= <-]|]. unfold obind.
  destruct (uniqueRequirements checks _) as [cs|] eqn:E; [|done]. apply uniqueRequirements_ok in E as (-> & _).
  unfold biometricRef, orequire. repeat (case_match; try done). congruence.
Qed.

Lemma defineIdentityPolicy_ok input policy : defineIdentityPolicy input = Ok policy → Defined_ input policy.
Proof.
  unfold defineIdentityPolicy, orequire, obind. intros H. do 6 (case_match; [|done]).
  destruct (includes ["individual"; "organization"] _) eqn:Hk; [|done].
  destruct (uniqueRequirements (p_required input) _) as [rs|] eqn:Hr; [|done]. apply uniqueRequirements_ok in Hr as (-> & _ & Hr).
  destruct (negb (length (assuranceBands input) =? 0)%nat); [|done].
  destruct (snapshotBands 0 [] (assuranceBands input)) as [bands|] eqn:Hb; [|done].
  apply snapshotBands_ok in Hb as (HF & Hnd & _).
  destruct (preservesLower _) eqn:Hp; [|done]. destruct (snapshotBiometrics _) as [bio|] eqn:Hbio; [|done].
  apply snapshotBiometrics_ok in Hbio as ->. injection H as <-. split; cbn [subjectKind p_required p_biometrics assuranceBands]; try done.
  - apply includes_elem in Hk. set_solver.
  - exists bands. split; [done|apply sort_by_perm].
  - by rewrite sort_by_perm.
  - apply sort_by_sorted; [apply band_leb_total|apply band_leb_trans].
  - by apply preservesLower_mono.
Qed.

(** * The verdict *)

Definition Satisfied (b : IdentityAssuranceBandV1) (methods : Z) : Prop :=
  ∀ r, r ∈ b_required b → performed r methods = true.
Definition authorizedOf (b : BiometricPolicyV1) : list string :=
  match b with authorized checks _ _ _ => checks | prohibited => [] end.
Definition refersBiometrics (input : IdentityPolicyV1) : Prop :=
  ∃ r, r ∈ BIOMETRICS ∧ (r ∈ p_required input ∨ ∃ b, b ∈ assuranceBands input ∧ r ∈ b_required b).

Lemma satisfied_bool b m : forallb (λ r, performed r m) (b_required b) = true ↔ Satisfied b m.
Proof.
  rewrite forallb_forall. unfold Satisfied. split; intros H r Hr; apply H; by apply list_elem_of_In.
Qed.

Lemma last_filter {A} (P : A → Prop) `{!∀ x, Decision (P x)} l b : last (filter P l) = Some b →
  ∃ i, l !! i = Some b ∧ P b ∧ ∀ j b', l !! j = Some b' → P b' → (j ≤ i)%nat.
Proof.
  induction l as [|x l IH] using rev_ind; [done|]. rewrite filter_app, filter_cons, filter_nil.
  destruct (decide (P x)) as [Px|Px].
  - rewrite last_snoc. intros [= <-]. exists (length l). split; [by apply list_lookup_middle|]. split; [done|].
    intros j b' Hj _. apply lookup_lt_Some in Hj. rewrite length_app in Hj. simpl in Hj. lia.
  - rewrite app_nil_r. intros (i & Hi & Pb & Hmax)%IH. exists i. split; [by apply lookup_app_l_Some|]. split; [done|].
    intros j b' Hj Pb'. destruct (decide (j < length l)%nat) as [Hlt|Hge].
    + rewrite lookup_app_l in Hj by done. eauto.
    + rewrite lookup_app_r in Hj by lia. destruct (j - length l)%nat; [|done]. simpl in Hj. by simplify_eq.
Qed.

Lemma sorted_lookup {A} (R : relation A) l i j a b : StronglySorted R l → l !! i = Some a → l !! j = Some b → (i < j)%nat → R a b.
Proof.
  intros Hs. revert i j. induction Hs as [|x l Hs IH Hx]; intros i j Ha Hb Hij; [done|].
  destruct j as [|j]; [lia|]. destruct i as [|i]; cbn in Ha, Hb.
  - simplify_eq. rewrite Forall_forall in Hx. apply Hx. by eapply list_elem_of_lookup_2.
  - apply (IH i j); [done..|lia].
Qed.

Lemma sorted_levels l i j a b : StronglySorted band_leb l → l !! i = Some a → l !! j = Some b → (i < j)%nat →
  b_level a ≤ b_level b.
Proof. intros Hs Ha Hb Hij. apply Z.leb_le, Is_true_eq_true. exact (sorted_lookup _ _ _ _ _ _ Hs Ha Hb Hij). Qed.

Section verdict.
Variables (input policy : IdentityPolicyV1) (methods : Z).
Hypothesis HD : Defined_ input policy.

Lemma band_policy b : b ∈ assuranceBands input → ∃ b', b' ∈ assuranceBands policy ∧ sameBand b b'.
Proof.
  destruct HD as [_ _ _ _ (bands & HF & Hp) _ _ _ _]. intros Hb. setoid_rewrite Hp.
  apply list_elem_of_lookup in Hb as [i Hi]. destruct (Forall2_lookup_l _ _ _ _ _ HF Hi) as (b' & Hb' & HS).
  exists b'. split; [by eapply list_elem_of_lookup_2|done].
Qed.
Lemma band_input b' : b' ∈ assuranceBands policy → ∃ b, b ∈ assuranceBands input ∧ sameBand b b'.
Proof.
  destruct HD as [_ _ _ _ (bands & HF & Hp) _ _ _ _]. rewrite Hp. intros Hb.
  apply list_elem_of_lookup in Hb as [i Hi]. destruct (Forall2_lookup_r _ _ _ _ _ HF Hi) as (b & Hb' & HS).
  exists b. split; [by eapply list_elem_of_lookup_2|done].
Qed.

Lemma sameBand_satisfied b b' : sameBand b b' → Satisfied b methods ↔ Satisfied b' methods.
Proof. intros (_ & E & _). unfold Satisfied. by rewrite E. Qed.

(** The band that is earned is the highest satisfied one, and everything below it is satisfied. *)
Lemma earned_some e : earnedBand (assuranceBands policy) methods = Some e →
  e ∈ assuranceBands policy ∧ Satisfied e methods ∧
  ∀ b, b ∈ assuranceBands policy → (Satisfied b methods ↔ b_level b ≤ b_level e).
Proof.
  intros (i & Hi & Pe & Hmax)%last_filter. apply satisfied_bool in Pe. split; [by eapply list_elem_of_lookup_2|]. split; [done|].
  intros b Hb. apply list_elem_of_lookup in Hb as [j Hj]. destruct HD as [_ _ _ _ _ Hl Hs Hm _]. split.
  - intros Hb. apply satisfied_bool in Hb. pose proof (Hmax j b Hj Hb) as Hji. destruct (decide (j = i)) as [->|Hne]; [by simplify_eq|].
    by eapply (sorted_levels _ j i); [exact Hs|..|lia].
  - intros Hle. destruct (decide (j ≤ i)%nat) as [Hji|Hji].
    + intros r Hr. apply Pe. exact (Hm j i b e Hj Hi Hji r Hr).
    + assert (b_level e ≤ b_level b) as Hge by (eapply (sorted_levels _ i j); [exact Hs|done|done|lia]).
      assert (i = j) as ->; [|lia]. eapply (NoDup_lookup (map b_level (assuranceBands policy))); [exact Hl|..].
      * rewrite list_lookup_fmap, Hi. done.
      * rewrite list_lookup_fmap, Hj. simpl. f_equal. lia.
Qed.

Lemma earned_none : earnedBand (assuranceBands policy) methods = None →
  ∀ b, b ∈ assuranceBands policy → ¬ Satisfied b methods.
Proof.
  unfold earnedBand. intros H b Hb HS. apply last_None in H. apply satisfied_bool in HS.
  assert (b ∈ filter (λ band, forallb (λ r, performed r methods) (b_required band) = true) (assuranceBands policy)) as Hin.
  { by apply list_elem_of_filter. }
  rewrite H in Hin. by apply elem_of_nil in Hin.
Qed.
End verdict.

Lemma length_zero {A} (l : list A) : (length l =? 0)%nat = true ↔ l = [].
Proof. rewrite Nat.eqb_eq. by destruct l. Qed.

Lemma missing_none req methods : Forall (λ r, r ∈ REQUIREMENTS) req →
  (length (map r_requirement (filter (λ i, r_required i && bool_decide (r_outcome i ≠ Pass) = true)
     (map (evaluateRequirement req methods) REQUIREMENTS))) =? 0)%nat = true ↔ ∀ r, r ∈ req → performed r methods = true.
Proof.
  intros Hk. rewrite length_zero. split.
  - intros H%fmap_nil_inv r Hr. rewrite Forall_forall in Hk. pose proof (Hk r Hr) as Hin.
    assert (evaluateRequirement req methods r ∈ map (evaluateRequirement req methods) REQUIREMENTS) as Hin'.
    { apply list_elem_of_fmap. by exists r. }
    destruct (performed r methods) eqn:E; [done|]. exfalso.
    apply (not_elem_of_nil (evaluateRequirement req methods r)). rewrite <- H. apply list_elem_of_filter. split; [|done].
    unfold evaluateRequirement. cbn [r_required r_outcome]. rewrite (proj2 (includes_elem req r) Hr), E. simpl.
    apply bool_decide_eq_true. by destruct (bool_decide _).
  - intros H. apply (f_equal (map r_requirement) (y := [])), elem_of_nil_inv. intros i [Hp Hi]%list_elem_of_filter. revert Hp.
    apply list_elem_of_fmap in Hi as (r & -> & _). unfold evaluateRequirement. cbn [r_required r_outcome].
    destruct (includes req r) eqn:E; [|done]. apply includes_elem, H in E. rewrite E. simpl.
    assert (METHOD_BY_REQUIREMENT r ≠ None) as Hm by (unfold performed in E; by destruct (METHOD_BY_REQUIREMENT r)).
    rewrite (bool_decide_false _ Hm). by rewrite bool_decide_false by tauto.
Qed.

Lemma app_nil_iff {A} (l k : list A) : l ++ k = [] ↔ l = [] ∧ k = [].
Proof. split; [apply app_eq_nil|by intros [-> ->]]. Qed.

Lemma filter_nil_iff {A} (P : A → Prop) `{!∀ x, Decision (P x)} (l : list A) : filter P l = [] ↔ ∀ x, x ∈ l → ¬ P x.
Proof.
  split.
  - intros Hn x Hx Px. apply (not_elem_of_nil x). rewrite <- Hn. by apply list_elem_of_filter.
  - intros Hn. apply elem_of_nil_inv. intros x [Px Hx]%list_elem_of_filter. by apply (Hn x).
Qed.

Lemma unauthorized_none l methods :
  map (λ r, "UNAUTHORIZED_" +:+ toUpperCase r) (filter (λ r, performed r methods && negb (includes l r) = true) BIOMETRICS) = []
  ↔ ∀ r, r ∈ BIOMETRICS → performed r methods = true → r ∈ l.
Proof.
  assert (∀ (f : string → string) k, map f k = [] ↔ k = []) as Hm by (intros f [|]; done).
  rewrite Hm, filter_nil_iff. split; intros H r Hr.
  - intros Hp. specialize (H r Hr). rewrite Hp in H. destruct (includes l r) eqn:E; [by apply includes_elem|by destruct H].
  - intros [Hp Hn]%andb_true_iff. apply (H r Hr), includes_elem in Hp. by rewrite Hp in Hn.
Qed.

Lemma if_nil_iff (b : bool) (x : string) : (if b then [x] else []) = [] ↔ b = false.
Proof. by destruct b. Qed.

Lemma referenced_none input policy : Defined_ input policy →
  filter (λ i, includes BIOMETRICS i = true) (p_required policy)
  ++ filter (λ i, includes BIOMETRICS i = true) (concat (map b_required (assuranceBands policy))) = []
  ↔ ¬ refersBiometrics input.
Proof.
  intros HD. pose proof HD as [_ _ Er _ _ _ _ _ _]. rewrite app_nil_iff, !filter_nil_iff, Er. split.
  - intros [H1 H2] (r & Hr & Hwhere). apply includes_elem in Hr. destruct Hwhere as [Hin|(b & Hb & Hin)].
    + by apply (H1 r).
    + destruct (band_policy _ _ HD b Hb) as (b' & Hb' & _ & E & _). apply (H2 r); [|done].
      apply list_elem_of_In, in_concat. exists (b_required b'). rewrite E. split; [|by apply list_elem_of_In].
      apply in_map_iff. exists b'. split; [done|by apply list_elem_of_In].
  - intros H. split; intros r Hr HB; apply includes_elem in HB; apply H; exists r; (split; [done|]).
    + by left.
    + right. apply list_elem_of_In, in_concat in Hr as (l & Hl & Hr). apply in_map_iff in Hl as (b' & <- & Hb').
      apply list_elem_of_In in Hb', Hr. destruct (band_input _ _ HD b' Hb') as (b & Hb & _ & E & _). exists b. by rewrite <- E.
Qed.

Lemma passed_required input methods kind e : evaluateIdentityPolicy input methods kind = Ok e → e_passed e = true →
  ∀ r, r ∈ p_required input → performed r methods = true.
Proof.
  unfold evaluateIdentityPolicy, obind. destruct (defineIdentityPolicy input) as [policy|] eqn:HD; [|done].
  apply defineIdentityPolicy_ok in HD as [_ _ Er _ _ _ _ _ Hk]. intros He%Ok_inj. subst e. cbn [e_passed].
  rewrite <- Er in Hk |- *. intros [[Hm _]%andb_true_iff _]%andb_true_iff. by apply missing_none.
Qed.

(** C19. An evaluation passes exactly when every required check was performed, the
    subject kind matches, biometric requirements come with an authorization, no
    biometric check ran without one, and some band is satisfied; a band of the policy is
    satisfied exactly when its level is at most the assurance reported; and that
    assurance is zero or the level of a band. *)
Theorem identity_evaluation (input : IdentityPolicyV1) (methods kind : Z) (e : IdentityPolicyEvaluationV1) :
  evaluateIdentityPolicy input methods kind = Ok e →
  (e_passed e = true ↔
    (∀ r, r ∈ p_required input → performed r methods = true) ∧
    kind = (if String.eqb (subjectKind input) "individual" then 1 else 2) ∧
    (refersBiometrics input → p_biometrics input ≠ prohibited) ∧
    (∀ r, r ∈ BIOMETRICS → performed r methods = true → r ∈ authorizedOf (p_biometrics input)) ∧
    (∃ b, b ∈ assuranceBands input ∧ Satisfied b methods)) ∧
  (∀ b, b ∈ assuranceBands input → (Satisfied b methods ↔ b_level b ≤ e_assurance e)) ∧
  (e_assurance e = 0 ∨ ∃ b, b ∈ assuranceBands input ∧ b_level b = e_assurance e).
Proof.
  unfold evaluateIdentityPolicy, obind. destruct (defineIdentityPolicy input) as [policy|] eqn:HD; [|done].
  apply defineIdentityPolicy_ok in HD. intros He%Ok_inj. subst e. cbn [e_passed e_assurance].
  assert (∀ b, b ∈ assuranceBands input → (Satisfied b methods ↔
    b_level b ≤ match earnedBand (assuranceBands policy) methods with Some b => b_level b | None => 0 end)) as Hlev.
  { intros b Hb. destruct (band_policy _ _ HD b Hb) as (b' & Hb' & HS). rewrite (sameBand_satisfied _ _ _ HS).
    destruct HS as (El & _ & Hr & _). destruct (earnedBand _ _) as [x|] eqn:Ee.
    - destruct (earned_some _ _ _ HD x Ee) as (_ & _ & Hx). rewrite (Hx b' Hb'). by rewrite El.
    - split; [intros Hs; by destruct (earned_none _ _ Ee b' Hb')|lia]. }
  split; [|split; [exact Hlev|]].
  - pose proof HD as [Ek _ Er Eb _ _ _ _ Hk]. rewrite <- Er in Hk.
    rewrite !andb_true_iff, missing_none, length_zero, !app_nil_iff, bool_decide_eq_true by done.
    rewrite unauthorized_none, !if_nil_iff, negb_false_iff, andb_false_iff, negb_false_iff, length_zero, bool_decide_eq_false.
    rewrite (referenced_none _ _ HD), Z.eqb_eq, Ek, Er, Eb.
    assert (is_Some (earnedBand (assuranceBands policy) methods) ↔ ∃ b, b ∈ assuranceBands input ∧ Satisfied b methods) as ->.
    { split.
      - intros [x Ee]. destruct (earned_some _ _ _ HD x Ee) as (Hx & HS & _). destruct (band_input _ _ HD x Hx) as (b & Hb & Hsame).
        exists b. split; [done|]. by apply (sameBand_satisfied _ _ _ Hsame).
      - intros (b & Hb & HS). destruct (band_policy _ _ HD b Hb) as (b' & Hb' & Hsame).
        apply (sameBand_satisfied _ _ _ Hsame) in HS. destruct (earnedBand _ _) as [x|] eqn:Ee; [by eexists|].
        by destruct (earned_none _ _ Ee b' Hb'). }
    fold (authorizedOf (p_biometrics input)).
    destruct (decide (p_biometrics input = prohibited)); intuition (done || congruence || auto).
  - destruct (earnedBand _ _) as [x|] eqn:Ee; [|by left]. right.
    destruct (earned_some _ _ _ HD x Ee) as (Hx & _ & _). destruct (band_input _ _ HD x Hx) as (b & Hb & El & _). eauto.
Qed.

(** Wallet, document and account checks earn level 3 under the shipped policy. *)
Definition exEvaluation : IdentityPolicyEvaluationV1 := Eval vm_compute in
  match evaluateIdentityPolicy nonfaceInput 39 1 with Ok e => e
  | Throw _ => mkEvaluation "" "" "" None "" 0 None false [] [] [] "" [] end.
Lemma exEvaluation_ok : evaluateIdentityPolicy nonfaceInput 39 1 = Ok exEvaluation.
Proof. by vm_compute. Qed.

Lemma identity_evaluation_witness :
  e_assurance exEvaluation = 3 ∧ ∀ b, b ∈ assuranceBands nonfaceInput → (Satisfied b 39 ↔ b_level b ≤ e_assurance exEvaluation).
Proof.
  split; [reflexivity|]. exact (proj1 (proj2 (identity_evaluation nonfaceInput 39 1 exEvaluation exEvaluation_ok))).
Defined.
End Identity.
