(* ===== verification/Kr.v ===== *)
(** The Korean jurisdiction adapter, [src/pipeline/adapters/kr.ts] (Module Kr), and the
    reconciliation of names, [src/pipeline/reconcile.ts] (Module Reconcile).  A bit of the bitmap is
    set exactly when a vendor result says the check ran and passed, on real rails or under the demo
    switch; the live regime is claimed only for results that are all live.  Vendors are parameters. *)

From Stdlib Require Import ZArith Lia Ascii String.
From stdpp Require Import base decidable option list strings.
From S2P Require Import Prelude JS Attrs Json Identity.
Import Json.
Local Open Scope string_scope.
Local Open Scope list_scope.
Local Open Scope Z_scope.
Local Open Scope js_scope.

(** [s.replace(/…/g, '')]: drop the characters of a class. *)
Fixpoint removeChars (p : ascii → bool) (s : string) : string :=
  match s with "" => "" | String c s => if p c then removeChars p s else String c (removeChars p s) end.

Definition digits (n : nat) (s : string) : bool := (String.length s =? n)%nat && allChars isDigit s.
(** [s.slice(a, b)] for indices that are not negative. *)
Definition slice (a b : nat) (s : string) : string := substring a (b - a) s.
Definition sliceFrom (a : nat) (s : string) : string := substring a (String.length s - a) s.

(** ** 32-bit words, bit by bit *)

Lemma int32_bit n k : 0 ≤ k < 32 → Z.testbit (int32 n) k = Z.testbit n k.
Proof.
  intros Hk. rewrite <- (Z.mod_pow2_bits_low (int32 n) 32), <- (Z.mod_pow2_bits_low n 32) by lia. f_equal.
  unfold int32. destruct (_ <? _); [by rewrite Z.mod_mod by lia|].
  rewrite Zminus_mod, Z.mod_same, Z.sub_0_r, !Z.mod_mod by lia. done.
Qed.
Lemma jsOr_bit a b k : 0 ≤ k < 32 → Z.testbit (jsOr a b) k = Z.testbit a k || Z.testbit b k.
Proof. intros Hk. unfold jsOr. by rewrite int32_bit, Z.lor_spec, !Z.mod_pow2_bits_low by lia. Qed.
Lemma jsAnd_bit m k : 0 ≤ k < 31 → (jsAnd m (2 ^ k) =? 2 ^ k) = Z.testbit m k.
Proof.
  intros Hk. destruct (Z.testbit m k) eqn:E.
  - apply Z.eqb_eq, Z.bits_inj'. intros i Hi. pose proof (Z.pow_lt_mono_r 2 k 31 ltac:(lia) ltac:(lia) ltac:(lia)) as Hlt.
    assert (Z.land (m mod 2 ^ 32) (2 ^ k mod 2 ^ 32) = 2 ^ k) as Hand.
    { apply Z.bits_inj'. intros j Hj. rewrite Z.land_spec, (Z.mod_small (2 ^ k)), Z.pow2_bits_eqb by lia.
      destruct (Z.eqb_spec k j) as [->|]; [|by rewrite andb_false_r]. by rewrite Z.mod_pow2_bits_low, E by lia. }
    unfold jsAnd. rewrite Hand. unfold int32. rewrite Z.mod_small, (proj2 (Z.ltb_lt _ _)) by lia. done.
  - apply Z.eqb_neq. intros H. apply (f_equal (λ z, Z.testbit z k)) in H. unfold jsAnd in H.
    rewrite int32_bit, Z.land_spec, !Z.mod_pow2_bits_low, E, Z.pow2_bits_true in H by lia. done.
Qed.

Module Reconcile.

Inductive Axis := match_ | mismatch | unavailable.
#[export] Instance Axis_eq_dec : EqDecision Axis.
Proof. solve_decision. Defined.
Definition axisText (a : Axis) : string :=
  match a with match_ => "match" | mismatch => "mismatch" | unavailable => "unavailable" end.

Record ReconcileInput := mkInput {
  declaredName : string; declaredDob : string;
  idDocument : option (string * string);     (* full name, date of birth *)
  bankAccount : option string }.             (* holder name *)

Record ReconcileResult := mkResult {
  passed : bool; declaredVsIdDoc : Axis; declaredVsBank : Axis; idDocVsBank : Axis;
  d_declaredName : string; d_idDocName : option string; d_bankHolderName : option string; d_dobMatch : bool }.

Section reconcile.
Context (keccak256 toUtf8Bytes : string → string).
(** [String.prototype.normalize('NFKC')]. *)
Context (nfkc : string → string).

Definition nameNoise (c : ascii) : bool := isSpace c || isOneOf ".,'`-" c.
Definition normalizeName (s : string) : string := toUpperCase (removeChars nameNoise (nfkc s)).

Definition digest (s : string) : string := keccak256 (toUtf8Bytes s).

Definition cmp (a b : option string) : Axis :=
  match a, b with
  | Some a, Some b => if String.eqb a b then match_ else mismatch
  | _, _ => unavailable
  end.

(** [s ? digest(s) : undefined]. *)
Definition digestIf (s : option string) : option string := if truthy s then digest <$> s else None.

Definition reconcile (input : ReconcileInput) : ReconcileResult :=
  let dn := normalizeName (declaredName input) in
  let idn := (λ d, normalizeName d.1) <$> idDocument input in
  let bn := normalizeName <$> bankAccount input in
  let a1 := cmp (Some dn) idn in let a2 := cmp (Some dn) bn in let a3 := cmp idn bn in
  let dobMatch := match idDocument input with Some d => String.eqb (declaredDob input) d.2 | None => false end in
  let passed := forallb (λ a, negb (bool_decide (a = mismatch))) [a1; a2; a3]
                && match idDocument input with Some _ => dobMatch | None => true end in
  mkResult passed a1 a2 a3 (digest dn) (digestIf idn) (digestIf bn) dobMatch.

Lemma reconcile_passed input : passed (reconcile input) = true ↔
  (∀ d, idDocument input = Some d →
     normalizeName d.1 = normalizeName (declaredName input) ∧ d.2 = declaredDob input) ∧
  (∀ b, bankAccount input = Some b → normalizeName b = normalizeName (declaredName input)).
Proof.
  unfold reconcile. cbn [passed]. destruct (idDocument input) as [d|], (bankAccount input) as [b|];
    cbn [fmap option_fmap option_map cmp forallb];
    repeat (match goal with |- context [String.eqb ?x ?y] => destruct (String.eqb_spec x y) end);
    cbn; naive_solver congruence.
Qed.
End reconcile.
End Reconcile.

Module Kr.
Import Identity.

Definition KR_FSC_NONFACE : Z := 1.
Definition KR_FSC_NONFACE_SANDBOX : Z := 2.

Definition KR_BANKS : list (string * string) := [
  ("004", "KB Kookmin Bank"); ("088", "Shinhan Bank"); ("020", "Woori Bank"); ("081", "Hana Bank");
  ("011", "NH NongHyup Bank"); ("003", "IBK Industrial Bank of Korea"); ("023", "SC First Bank Korea");
  ("027", "Citibank Korea"); ("090", "KakaoBank"); ("089", "K Bank"); ("092", "Toss Bank");
  ("002", "Korea Development Bank"); ("007", "Suhyup Bank"); ("031", "iM Bank"); ("032", "Busan Bank");
  ("034", "Kwangju Bank"); ("035", "Jeju Bank"); ("037", "Jeonbuk Bank"); ("039", "Kyongnam Bank");
  ("045", "Korean Federation of Community Credit Cooperatives"); ("048", "National Credit Union Federation of Korea");
  ("050", "Korea Federation of Savings Banks"); ("064", "National Forestry Cooperative Federation"); ("071", "Korea Post")].
Definition isKrBankCode (code : string) : bool := existsb (λ b, String.eqb b.1 code) KR_BANKS.

(** [VendorError]. *)
Definition VendorError (code : string) : exn := EClass "VendorError" code.

(** The additional step an authority asks for, and the customer's answer to it. *)
Record TwoWayChallenge := mkChallenge {
  tc_method : string; tc_jobIndex : Z; tc_threadIndex : Z; tc_jti : string; tc_twoWayTimestamp : Z;
  tc_imageBase64 : option string; tc_message : option string }.
Record TwoWayContinuation := mkContinuation {
  tw_jobIndex : Z; tw_threadIndex : Z; tw_jti : string; tw_twoWayTimestamp : Z;
  tw_secureNo : option string; tw_simpleAuth : option string }.

Record OcrFields := mkOcr {
  ocr_docType : string; ocr_fullName : option string; ocr_birthDate : option string; ocr_rrn : option string;
  ocr_issueDate : option string; ocr_licenseNumber : option string; ocr_serialNo : option string }.

Record IdDocumentInput := mkIdInput {
  i_docType : string; i_image : string; i_fullName : string; i_birthDate : string;
  i_rrn : option string; i_issueDate : option string; i_licenseNumber : option string; i_serialNo : option string;
  i_twoWay : option TwoWayContinuation }.

Record IdDocumentResult := mkIdResult {
  docType : string; fullName : string; dateOfBirth : string; docHash : string;
  authenticityChecked : bool; authentic : bool; faceMatched : bool; livenessPassed : bool;
  id_vendor : string; id_live : bool; id_ref : option string; id_code : option string }.

Inductive IdDocumentOutcome := verified (r : IdDocumentResult) | two_way (c : TwoWayChallenge).

Record BankAccountResult := mkBankResult {
  bankCode : string; holderName : string; holderVerified : bool; oneWonVerified : bool;
  bk_vendor : string; bk_live : bool; bk_ref : option string }.

Record KrAdapterInput := mkKrInput {
  walletControlProven : bool; in_idDocument : option IdDocumentResult; in_bankAccount : option BankAccountResult }.

Record KrAdapterResult := mkKrResult {
  kr_regime : Z; kr_methods : Z; kr_rejected : option string;
  kr_idDocument : option (string * string * string);   (* full name, date of birth, document hash *)
  kr_bankAccount : option string;
  kr_evidence : json }.

Definition jref (r : option string) : json := match r with Some r => JStr r | None => JNull end.
Definition skipped (reason : string) : json := JObj [("skipped", JBool true); ("reason", JStr reason)].

Record IdDocumentVendor := mkIdVendor {
  idv_name : string;
  idv_live : bool;
  biometricChecks : option (list string);        (* [None]: not an array *)
  ocr : option (string → string → outcome OcrFields);
  verify : IdDocumentInput → outcome IdDocumentOutcome }.

Record BankAccountVendor := mkBankVendor {
  bkv_name : string;
  bkv_live : bool;
  v_holderName : string → string → string → string → outcome (option string * option string);  (* bank, account, birth date, declared name *)
  v_oneWonTransfer : string → string → string → outcome (string * option string) }.            (* bank, account, holder *)

Record KrAdapter := mkAdapter {
  idVendor : option IdDocumentVendor;
  bankVendor : option BankAccountVendor;
  sandboxBits : bool;
  biometrics : option BiometricPolicyV1 }.

(** The constructor. *)
Definition construct (idVendor : option IdDocumentVendor) (bankVendor : option BankAccountVendor)
  (sandboxBits : bool) (biometrics : option BiometricPolicyV1) : outcome KrAdapter :=
  let? _ := match biometrics with
    | Some (authorized checks n l a) =>
        orequire (negb (length checks =? 0)%nat && forallb REFERENCE [n; l; a]) (VendorError "BIOMETRIC_POLICY_INVALID")
    | _ => Ok tt
    end in
  Ok (mkAdapter idVendor bankVendor sandboxBits biometrics).

Section adapter.
Context (this : KrAdapter).

Definition connected : bool := bool_decide (is_Some (idVendor this)) && bool_decide (is_Some (bankVendor this)).
Definition live : bool :=
  connected && (match idVendor this with Some v => idv_live v | None => false end)
            && (match bankVendor this with Some v => bkv_live v | None => false end).
Definition regime : Z := if live then KR_FSC_NONFACE else KR_FSC_NONFACE_SANDBOX.

Definition validateIdInput (i : IdDocumentInput) : outcome unit :=
  let bad := VendorError "BAD_INPUT" in
  let? _ := orequire (negb (String.length (i_image i) =? 0)%nat) bad in
  let? _ := orequire (negb (String.eqb (trim (i_fullName i)) "")) bad in
  let? _ := orequire (digits 8 (i_birthDate i)) bad in
  if String.eqb (i_docType i) "RRC" then
    let? _ := orequire (digits 13 (default "" (i_rrn i))) bad in
    let? _ := orequire (digits 8 (default "" (i_issueDate i))) bad in
    orequire (String.eqb (slice 0 6 (default "" (i_rrn i))) (sliceFrom 2 (i_birthDate i))) bad
  else if String.eqb (i_docType i) "DL" then
    let? _ := orequire (digits 12 (default "" (i_licenseNumber i))) bad in
    let serial := default "" (i_serialNo i) in
    orequire ((5 <=? String.length serial)%nat && (String.length serial <=? 6)%nat && allChars isAlnum serial) bad
  else Throw bad.

Definition authorization : BiometricPolicyV1 := default prohibited (biometrics this).

Definition verifyIdDocument (input : IdDocumentInput) : outcome IdDocumentOutcome :=
  match idVendor this with
  | None => Throw (VendorError "NO_VENDOR")
  | Some v =>
      match biometricChecks v with
      | None => Throw (VendorError "BIOMETRIC_POLICY_REQUIRED")
      | Some declared =>
          let? _ := orequire (forallb (includes BIOMETRICS) declared) (VendorError "BIOMETRIC_POLICY_INVALID") in
          let? _ := match declared, authorization with
            | [], _ => Ok tt
            | _, authorized checks n l a =>
                orequire (forallb (includes checks) declared
                          && negb (String.eqb n "") && negb (String.eqb l "") && negb (String.eqb a ""))
                  (VendorError "BIOMETRIC_NOT_AUTHORIZED")
            | _, prohibited => Throw (VendorError "BIOMETRIC_NOT_AUTHORIZED")
            end in
          let? _ := validateIdInput input in
          verify v input
      end
  end.

Definition readIdDocument (image docType : string) : outcome OcrFields :=
  match idVendor this ≫= ocr with Some ocr => ocr image docType | None => Throw (VendorError "NO_OCR") end.

Context (nfkc : string → string).

Definition digitsOf (s : string) : string := removeChars (λ c, negb (isDigit c)) s.

(** Holder name, whether it matches, vendor reference. *)
Definition lookupHolder (bankCode accountNumber birthDate declaredName : string) : outcome (string * bool * option string) :=
  match bankVendor this with
  | None => Throw (VendorError "NO_VENDOR")
  | Some v =>
      let? _ := orequire (isKrBankCode bankCode) (VendorError "BAD_BANK") in
      let? _ := orequire (digits 6 birthDate) (VendorError "BAD_INPUT") in
      let account := digitsOf accountNumber in
      let? _ := orequire ((8 <=? String.length account)%nat && (String.length account <=? 16)%nat) (VendorError "BAD_INPUT") in
      let? r := v_holderName v bankCode account birthDate declaredName in
      if truthy r.1
      then let h := default "" r.1 in
           Ok (h, String.eqb (Reconcile.normalizeName nfkc h) (Reconcile.normalizeName nfkc declaredName), r.2)
      else Throw (VendorError "NO_HOLDER")
  end.

Definition sendOneWon (bankCode accountNumber holderName : string) : outcome (string * option string) :=
  match bankVendor this with
  | None => Throw (VendorError "NO_VENDOR")
  | Some v =>
      let? r := v_oneWonTransfer v bankCode (digitsOf accountNumber) holderName in
      if String.eqb r.1 "" then Throw (VendorError "NO_CODE") else Ok r
  end.
End adapter.

Section run.
Context (this : KrAdapter).

Definition realResults (input : KrAdapterInput) : bool :=
  match in_idDocument input, in_bankAccount input with
  | Some id, Some bank =>
      id_live id && authenticityChecked id && authentic id && bk_live bank && holderVerified bank && oneWonVerified bank
  | _, _ => false
  end.

Definition counts (live : bool) : bool := live || sandboxBits this.
Definition biometricAllowed (check : string) : bool :=
  match biometrics this with Some (authorized checks _ _ _) => includes checks check | _ => false end.

(** [if (b) methods |= bit]. *)
Definition orIf (b : bool) (bit methods : Z) : Z := if b then jsOr methods bit else methods.

Definition idMethods (id : IdDocumentResult) (methods : Z) : Z :=
  let methods := jsOr methods Methods.ID_DOC_IMAGE in
  let methods := orIf (counts (id_live id) && authenticityChecked id && authentic id) Methods.ID_DOC_AUTHENTICITY methods in
  let methods := orIf (counts (id_live id) && faceMatched id && biometricAllowed FACE_MATCH) Methods.FACE_MATCH methods in
  orIf (counts (id_live id) && livenessPassed id && biometricAllowed LIVENESS) Methods.LIVENESS methods.

(** The last failing check names the reason. *)
Definition idRejected (id : IdDocumentResult) : option string :=
  if livenessPassed id && negb (biometricAllowed LIVENESS) then Some "liveness result was not authorized before biometric processing"
  else if faceMatched id && negb (biometricAllowed FACE_MATCH) then Some "face match result was not authorized before biometric processing"
  else if authenticityChecked id && negb (authentic id) then Some "the issuing authority did not confirm the document"
  else None.

Definition idEvidence (id : IdDocumentResult) : json :=
  JObj [("docType", JStr (docType id)); ("docHash", JStr (docHash id)); ("vendor", JStr (id_vendor id));
        ("live", JBool (id_live id)); ("ref", jref (id_ref id)); ("code", jref (id_code id));
        ("authenticityChecked", JBool (authenticityChecked id)); ("authentic", JBool (authentic id));
        ("faceMatched", JBool (faceMatched id)); ("livenessPassed", JBool (livenessPassed id))].
Definition bankEvidence (bank : BankAccountResult) : json :=
  JObj [("bankCode", JStr (bankCode bank)); ("vendor", JStr (bk_vendor bank)); ("live", JBool (bk_live bank));
        ("ref", jref (bk_ref bank)); ("holderVerified", JBool (holderVerified bank));
        ("oneWonVerified", JBool (oneWonVerified bank))].

Definition runRegime (input : KrAdapterInput) : Z :=
  if live this && negb (sandboxBits this) && realResults input then KR_FSC_NONFACE else KR_FSC_NONFACE_SANDBOX.

Definition run (input : KrAdapterInput) : KrAdapterResult :=
  let methods := orIf (walletControlProven input) Methods.WALLET_CONTROL 0 in
  let methods := match in_idDocument input with Some id => idMethods id methods | None => methods end in
  let rejected := in_idDocument input ≫= idRejected in
  let methods := match in_bankAccount input with
    | Some bank => orIf (counts (bk_live bank) && holderVerified bank && oneWonVerified bank) Methods.BANK_ACCOUNT methods
    | None => methods
    end in
  mkKrResult (runRegime input) methods rejected
    ((λ id, (fullName id, dateOfBirth id, docHash id)) <$> in_idDocument input)
    (holderName <$> in_bankAccount input)
    (JObj [("regime", JNum (runRegime input)); ("configuredRegime", JNum (regime this)); ("regimeRule", JStr "kr-results-v2");
           ("vendorsConnected", JBool (connected this)); ("sandboxBits", JBool (sandboxBits this));
           ("liveResultsComplete", JBool (realResults input));
           ("idDocument", match in_idDocument input with Some id => idEvidence id
              | None => skipped (if bool_decide (is_Some (idVendor this)) then "no document verified" else "no vendor connected") end);
           ("bankAccount", match in_bankAccount input with Some bank => bankEvidence bank
              | None => skipped (if bool_decide (is_Some (bankVendor this)) then "no account verified" else "no vendor connected") end)]).

(** * The bitmap *)

(** The checks, as the vendor results report them. *)
Definition didWallet (input : KrAdapterInput) : bool := walletControlProven input.
Definition didImage (input : KrAdapterInput) : bool := bool_decide (is_Some (in_idDocument input)).
Definition onId (f : IdDocumentResult → bool) (input : KrAdapterInput) : bool :=
  match in_idDocument input with Some id => counts (id_live id) && f id | None => false end.
Definition didDocument : KrAdapterInput → bool := onId (λ id, authenticityChecked id && authentic id).
Definition didFace : KrAdapterInput → bool := onId (λ id, faceMatched id && biometricAllowed FACE_MATCH).
Definition didLiveness : KrAdapterInput → bool := onId (λ id, livenessPassed id && biometricAllowed LIVENESS).
Definition didBank (input : KrAdapterInput) : bool :=
  match in_bankAccount input with Some b => counts (bk_live b) && holderVerified b && oneWonVerified b | None => false end.

(** A bitmap from its six flags. *)
Definition bitmap (w i d f l b : bool) : Z :=
  Z.b2z w + 2 * Z.b2z i + 4 * Z.b2z d + 8 * Z.b2z f + 16 * Z.b2z l + 32 * Z.b2z b.

Lemma run_methods input : kr_methods (run input) =
  bitmap (didWallet input) (didImage input) (didDocument input) (didFace input) (didLiveness input) (didBank input).
Proof.
  unfold run, didWallet, didImage, didDocument, didFace, didLiveness, didBank, onId, idMethods. cbn [kr_methods].
  assert (∀ id : IdDocumentResult, bool_decide (is_Some (Some id)) = true) as Ht by done.
  assert (bool_decide (is_Some (None : option IdDocumentResult)) = false) as Hf by done.
  destruct (in_idDocument input) as [id|], (in_bankAccount input) as [bk|]; rewrite ?Ht, ?Hf, <- ?andb_assoc;
    repeat match goal with |- context [orIf ?b _ _] => lazymatch b with true => fail | false => fail | _ => destruct b end end;
    reflexivity.
Qed.

(** The bit a requirement is decided by. *)
Lemma performed_bit r m : performed r m =
  if String.eqb r WALLET_CONTROL then Z.testbit m 0 else if String.eqb r DOCUMENT_AUTHENTICITY then Z.testbit m 2
  else if String.eqb r ACCOUNT_CONTROL then Z.testbit m 5 else if String.eqb r FACE_MATCH then Z.testbit m 3
  else if String.eqb r LIVENESS then Z.testbit m 4 else false.
Proof.
  unfold performed, METHOD_BY_REQUIREMENT.
  repeat (match goal with |- context [String.eqb r ?x] => destruct (String.eqb r x) end); try done;
    [apply (jsAnd_bit m 0)|apply (jsAnd_bit m 2)|apply (jsAnd_bit m 5)|apply (jsAnd_bit m 3)|apply (jsAnd_bit m 4)]; lia.
Qed.

Lemma performed_or r a b : performed r (jsOr a b) = performed r a || performed r b.
Proof.
  rewrite !performed_bit. repeat (match goal with |- context [String.eqb r ?x] => destruct (String.eqb r x) end); try done;
    apply jsOr_bit; lia.
Qed.

(** What a requirement asks of the vendor results. *)
Definition didRequirement (input : KrAdapterInput) (r : string) : bool :=
  if String.eqb r WALLET_CONTROL then didWallet input else if String.eqb r DOCUMENT_AUTHENTICITY then didDocument input
  else if String.eqb r ACCOUNT_CONTROL then didBank input else if String.eqb r FACE_MATCH then didFace input
  else if String.eqb r LIVENESS then didLiveness input else false.

Lemma run_performed input r : performed r (kr_methods (run input)) = didRequirement input r.
Proof.
  rewrite performed_bit, run_methods. unfold didRequirement.
  repeat (match goal with |- context [String.eqb r ?x] => destruct (String.eqb r x) end); try done;
    destruct (didWallet input), (didImage input), (didDocument input), (didFace input), (didLiveness input), (didBank input);
    reflexivity.
Qed.

Lemma run_range input : 0 ≤ kr_methods (run input) < 64.
Proof.
  rewrite run_methods. unfold bitmap.
  destruct (didWallet input), (didImage input), (didDocument input), (didFace input), (didLiveness input), (didBank input); cbn; lia.
Qed.

Lemma run_rejected input : kr_rejected (run input) = None ↔
  ∀ id, in_idDocument input = Some id →
    (authenticityChecked id = true → authentic id = true) ∧
    (faceMatched id = true → biometricAllowed FACE_MATCH = true) ∧
    (livenessPassed id = true → biometricAllowed LIVENESS = true).
Proof.
  unfold run. cbn [kr_rejected]. destruct (in_idDocument input) as [id|]; [|naive_solver].
  change (Some id ≫= idRejected) with (idRejected id). unfold idRejected.
  destruct (livenessPassed id) eqn:E1, (biometricAllowed LIVENESS) eqn:E2, (faceMatched id) eqn:E3,
    (biometricAllowed FACE_MATCH) eqn:E4, (authenticityChecked id) eqn:E5, (authentic id) eqn:E6; cbn [andb negb];
    (split; [intros Hn; try discriminate Hn; intros id' [= <-]; split_and!; congruence
            |intros H; destruct (H id eq_refl) as (H1 & H2 & H3); intuition congruence]).
Qed.

Lemma run_regime input : kr_regime (run input) = KR_FSC_NONFACE ↔
  live this = true ∧ sandboxBits this = false ∧ realResults input = true.
Proof.
  unfold run, runRegime. cbn [kr_regime]. destruct (live this), (sandboxBits this), (realResults input); naive_solver.
Qed.

End run.

(** * What the results must say *)

(** A decision reference: three to 256 characters, a letter or digit first. *)
Definition Reference (s : string) : Prop := ∃ c r, s = String c r ∧ isAlnum c = true ∧ (2 ≤ String.length r ≤ 255)%nat ∧
  ∀ d, d ∈ list_ascii_of_string r → isAlnum d = true ∨ d ∈ list_ascii_of_string "._:/#-".

(** The policy names the biometric check and the three decisions taken before it. *)
Definition Authorized (policy : option BiometricPolicyV1) (check : string) : Prop :=
  ∃ checks n l a, policy = Some (authorized checks n l a) ∧ check ∈ checks ∧ Reference n ∧ Reference l ∧ Reference a.

(** The result of a document, of a bank account: it came from real rails, or the demo switch is on. *)
Definition IdResult (sandbox : bool) (input : KrAdapterInput) (P : IdDocumentResult → Prop) : Prop :=
  ∃ id, in_idDocument input = Some id ∧ P id ∧ (id_live id = true ∨ sandbox = true).
Definition BankConfirmed (bank : BankAccountResult) : Prop := holderVerified bank = true ∧ oneWonVerified bank = true.

(** The checks that ran and passed, per requirement. *)
Inductive Did (sandbox : bool) (policy : option BiometricPolicyV1) (input : KrAdapterInput) : string → Prop :=
  | did_wallet : walletControlProven input = true → Did sandbox policy input "wallet_control"
  | did_document : IdResult sandbox input (λ id, authenticityChecked id = true ∧ authentic id = true) →
      Did sandbox policy input "document_authenticity"
  | did_face : IdResult sandbox input (λ id, faceMatched id = true ∧ Authorized policy "face_match") → Did sandbox policy input "face_match"
  | did_liveness : IdResult sandbox input (λ id, livenessPassed id = true ∧ Authorized policy "liveness") → Did sandbox policy input "liveness"
  | did_bank bank : in_bankAccount input = Some bank → BankConfirmed bank → bk_live bank = true ∨ sandbox = true →
      Did sandbox policy input "account_control".

(** Why an input is rejected. *)
Inductive Rejects (policy : option BiometricPolicyV1) (id : IdDocumentResult) : Prop :=
  | rejects_document : authenticityChecked id = true → authentic id = false → Rejects policy id
  | rejects_face : faceMatched id = true → ¬ Authorized policy "face_match" → Rejects policy id
  | rejects_liveness : livenessPassed id = true → ¬ Authorized policy "liveness" → Rejects policy id.

(** Live vendors and live results of both checks, all passed. *)
Definition AllLive (idv : option IdDocumentVendor) (bkv : option BankAccountVendor) (input : KrAdapterInput) : Prop :=
  ∃ v w id bank, idv = Some v ∧ idv_live v = true ∧ bkv = Some w ∧ bkv_live w = true ∧
    in_idDocument input = Some id ∧ id_live id = true ∧ authenticityChecked id = true ∧ authentic id = true ∧
    in_bankAccount input = Some bank ∧ bk_live bank = true ∧ BankConfirmed bank.

Lemma reference_spec s : REFERENCE s = true → Reference s.
Proof.
  destruct s as [|c r]; [done|]. unfold REFERENCE, opaqueId. rewrite !andb_true_iff, !Nat.leb_le. intros [[[Hc H1] H2] Hr].
  exists c, r. split_and!; [done|done|lia|lia|]. clear H1 H2. induction r as [|d r IH]; [intros d Hd; by apply elem_of_nil in Hd|].
  cbn [allChars] in Hr. apply andb_true_iff in Hr as [Hd Hr]. intros x [->|Hx]%elem_of_cons; [|by apply IH].
  apply orb_true_iff in Hd as [|Hd]; [by left|right]. unfold isOneOf in Hd. apply existsb_exists in Hd as (y & Hy & ->%Ascii.eqb_eq).
  by apply list_elem_of_In.
Qed.

(** What the constructor checked. *)
Lemma construct_ok idv bkv sandbox policy this : construct idv bkv sandbox policy = Ok this →
  this = mkAdapter idv bkv sandbox policy ∧ ∀ check, biometricAllowed this check = true ↔ Authorized policy check.
Proof.
  unfold construct. destruct policy as [[|checks n l a]|]; [| |]; intros H; apply obind_ok in H as (u & Hu & [= <-]); split; try done;
    intros check; unfold biometricAllowed; cbn.
  - split; [done|]. by intros (? & ? & ? & ? & ? & _).
  - apply orequire_ok in Hu. cbn [forallb] in Hu. rewrite !andb_true_iff in Hu. destruct Hu as (_ & Hn & Hl & Ha & _). rewrite includes_elem. split.
    + intros Hc. exists checks, n, l, a. split_and!; [done|done|by apply reference_spec..].
    + by intros (? & ? & ? & ? & [= <- <- <- <-] & Hc & _).
  - split; [done|]. by intros (? & ? & ? & ? & ? & _).
Qed.

Lemma onId_spec this f P input : (∀ id, f id = true ↔ P id) → onId this f input = true ↔ IdResult (sandboxBits this) input P.
Proof.
  intros Hf. unfold onId, IdResult, counts. destruct (in_idDocument input) as [id|]; [|naive_solver].
  rewrite andb_true_iff, orb_true_iff, Hf. naive_solver.
Qed.

Section honest.
Context (idv : option IdDocumentVendor) (bkv : option BankAccountVendor) (sandbox : bool) (policy : option BiometricPolicyV1).
Context (this : KrAdapter) (Hthis : construct idv bkv sandbox policy = Ok this) (input : KrAdapterInput).

Lemma didRequirement_spec r : didRequirement this input r = true ↔ Did sandbox policy input r.
Proof using Hthis.
  destruct (construct_ok _ _ _ _ _ Hthis) as [Ht Hb]. assert (sandboxBits this = sandbox) as Hs by by rewrite Ht. clear Ht.
  unfold didRequirement, WALLET_CONTROL, DOCUMENT_AUTHENTICITY, ACCOUNT_CONTROL, FACE_MATCH, LIVENESS.
  destruct (String.eqb_spec r "wallet_control") as [->|]; [split; [by constructor|by inversion 1]|].
  destruct (String.eqb_spec r "document_authenticity") as [->|].
  { unfold didDocument. rewrite (onId_spec this _ (λ id, authenticityChecked id = true ∧ authentic id = true)), Hs by (intros; apply andb_true_iff).
    split; [by constructor|by inversion 1]. }
  destruct (String.eqb_spec r "account_control") as [->|].
  { unfold didBank, counts. rewrite Hs. split.
    - destruct (in_bankAccount input) as [b|] eqn:E; [|done]. rewrite !andb_true_iff, orb_true_iff. intros [[H1 H2] H3].
      by apply (did_bank _ _ _ b).
    - inversion 1 as [| | | |b E [H2 H3] H1]; subst. rewrite E, H2, H3, !andb_true_r. by apply orb_true_iff. }
  destruct (String.eqb_spec r "face_match") as [->|].
  { unfold didFace. rewrite (onId_spec this _ (λ id, faceMatched id = true ∧ Authorized policy "face_match")), Hs
      by (intros; rewrite andb_true_iff, <- Hb; done). split; [by constructor|by inversion 1]. }
  destruct (String.eqb_spec r "liveness") as [->|].
  { unfold didLiveness. rewrite (onId_spec this _ (λ id, livenessPassed id = true ∧ Authorized policy "liveness")), Hs
      by (intros; rewrite andb_true_iff, <- Hb; done). split; [by constructor|by inversion 1]. }
  split; [done|]. by inversion 1.
Qed.

Lemma rejects_spec : kr_rejected (run this input) ≠ None ↔ ∃ id, in_idDocument input = Some id ∧ Rejects policy id.
Proof using Hthis.
  destruct (construct_ok _ _ _ _ _ Hthis) as [_ Hb]. pose proof (run_rejected this input) as Hr. split.
  - intros Hne. destruct (in_idDocument input) as [id|] eqn:E; [|destruct Hne; apply Hr; done]. exists id. split; [done|].
    destruct (authenticityChecked id) eqn:E1, (authentic id) eqn:E2; try (by apply rejects_document);
      (destruct (faceMatched id) eqn:E3; [destruct (biometricAllowed this FACE_MATCH) eqn:E4;
         [|apply rejects_face; [done|]; rewrite <- Hb; unfold FACE_MATCH in E4; congruence]|]);
      (destruct (livenessPassed id) eqn:E5; [destruct (biometricAllowed this LIVENESS) eqn:E6;
         [|apply rejects_liveness; [done|]; rewrite <- Hb; unfold LIVENESS in E6; congruence]|]);
      destruct Hne; apply Hr; intros ? [= <-]; split_and!; congruence.
  - intros (id & E & Hrej) Hn. destruct (proj1 Hr Hn id E) as (H1 & H2 & H3).
    destruct Hrej as [Ha Hb'|Ha Hb'|Ha Hb']; [by rewrite H1 in Hb'|..]; apply Hb', Hb; [by apply H2|by apply H3].
Qed.

Lemma regime_spec : kr_regime (run this input) = KR_FSC_NONFACE ↔ sandbox = false ∧ AllLive idv bkv input.
Proof using Hthis.
  destruct (construct_ok _ _ _ _ _ Hthis) as [-> _]. rewrite run_regime. unfold live, connected, realResults, AllLive, BankConfirmed. cbn. split.
  - intros (H1 & H2 & H3). split; [done|]. destruct idv as [v|]; [|done]. destruct bkv as [w|]; [|done].
    destruct (in_idDocument input) as [id|]; [|done]. destruct (in_bankAccount input) as [bank|]; [|done].
    rewrite !andb_true_iff in H1. rewrite !andb_true_iff in H3. exists v, w, id, bank. tauto.
  - intros (H2 & v & w & id & bank & -> & H3 & -> & H4 & -> & -> & -> & -> & -> & -> & -> & ->). cbn. by rewrite H3, H4.
Qed.
End honest.

(** A document is sent to a vendor only when every biometric check the vendor declares was authorized before. *)
Lemma verify_authorized idv bkv sandbox policy this i answer : construct idv bkv sandbox policy = Ok this → verifyIdDocument this i = Ok answer →
  ∃ v declared, idv = Some v ∧ biometricChecks v = Some declared ∧ verify v i = Ok answer ∧ ∀ check, check ∈ declared → Authorized policy check.
Proof.
  intros Hthis. destruct (construct_ok _ _ _ _ _ Hthis) as [-> Hb]. unfold verifyIdDocument. cbn [idVendor].
  destruct idv as [v|]; [|done]. destruct (biometricChecks v) as [declared|] eqn:Hd; [|done].
  intros (? & _ & (? & Hauth & (? & _ & Hv)%obind_ok)%obind_ok)%obind_ok. exists v, declared. split_and!; [done..|].
  intros check Hin. apply Hb. unfold biometricAllowed, authorization in *. cbn in *.
  destruct declared as [|d declared]; [by apply elem_of_nil in Hin|]. destruct policy as [[|checks n l a]|]; try done. cbn in Hauth.
  apply orequire_ok in Hauth. rewrite !andb_true_iff in Hauth. destruct Hauth as [[[Hall _] _] _].
  apply list_elem_of_In in Hin. by apply (proj1 (forallb_forall (includes checks) (d :: declared)) (proj2 (andb_true_iff _ _) Hall)).
Qed.

(** C18. For an adapter the constructor accepted: a document goes to a vendor only
    when every biometric check the vendor declares was authorized by a policy with three
    well-formed decision references; a requirement is performed in the bitmap exactly
    when the vendor's result says the check ran and passed, on real rails or under the
    demo switch, and for face match and liveness when that policy authorizes the check;
    an input is rejected exactly when a checked document is not authentic or a biometric
    result was not authorized; and the live regime is reported exactly when the demo
    switch is off, both vendors are live, and both results are live, the document
    checked and authentic and the account holder and one-won transfer verified. *)
Theorem kr_run_honest (idv : option IdDocumentVendor) (bkv : option BankAccountVendor) (sandbox : bool) (policy : option BiometricPolicyV1)
    (this : KrAdapter) (i : IdDocumentInput) (answer : IdDocumentOutcome) (input : KrAdapterInput) (r : string) :
  construct idv bkv sandbox policy = Ok this →
  (verifyIdDocument this i = Ok answer → ∃ v declared, idv = Some v ∧ biometricChecks v = Some declared ∧ verify v i = Ok answer ∧
     ∀ check, check ∈ declared → Authorized policy check) ∧
  (performed r (kr_methods (run this input)) = true ↔ Did sandbox policy input r) ∧
  (Z.testbit (kr_methods (run this input)) 1 = true ↔ ∃ id, in_idDocument input = Some id) ∧
  0 ≤ kr_methods (run this input) < 64 ∧
  (kr_rejected (run this input) ≠ None ↔ ∃ id, in_idDocument input = Some id ∧ Rejects policy id) ∧
  (kr_regime (run this input) = KR_FSC_NONFACE ↔ sandbox = false ∧ AllLive idv bkv input) ∧
  (kr_regime (run this input) = KR_FSC_NONFACE ∨ kr_regime (run this input) = KR_FSC_NONFACE_SANDBOX).
Proof.
  intros Hthis. split_and!; try apply run_range.
  - by eapply verify_authorized.
  - rewrite run_performed. by eapply didRequirement_spec.
  - rewrite run_methods. transitivity (didImage input = true).
    + destruct (didWallet input), (didImage input), (didDocument this input), (didFace this input), (didLiveness this input), (didBank this input); done.
    + unfold didImage. rewrite bool_decide_eq_true. done.
  - by eapply rejects_spec.
  - by eapply regime_spec.
  - unfold run, runRegime. cbn [kr_regime]. destruct (_ && _); auto.
Qed.

(** A live document vendor, face matching authorized, and an account on real rails. *)
Definition exIdResult : IdDocumentResult := mkIdResult "RRC" "HONG GILDONG" "1990-01-02" "0xd0" true true true false "codef" true None None.
Definition exIdVendor : IdDocumentVendor := mkIdVendor "codef" true (Some ["face_match"]) None (λ _, Ok (verified exIdResult)).
Definition exBankVendor : BankAccountVendor := mkBankVendor "openbanking" true (λ _ _ _ _, Ok (Some "HONG GILDONG", None)) (λ _ _ _, Ok ("1234", None)).
Definition exPolicy : option BiometricPolicyV1 := Some (authorized ["face_match"] "DPIA-1" "LEGAL-1" "APPROVAL-1").
Definition exAdapter : KrAdapter := mkAdapter (Some exIdVendor) (Some exBankVendor) false exPolicy.
Definition exIdInput : IdDocumentInput := mkIdInput "RRC" "x" "HONG GILDONG" "19900102" (Some "9001021234567") (Some "20200101") None None None.
Definition exInput : KrAdapterInput := mkKrInput true (Some exIdResult) (Some (mkBankResult "004" "HONG GILDONG" true true "openbanking" true None)).

Lemma kr_run_honest_witness : (∃ v declared, Some exIdVendor = Some v ∧ biometricChecks v = Some declared ∧ verify v exIdInput = Ok (verified exIdResult) ∧
    ∀ check, check ∈ declared → Authorized exPolicy check) ∧ Did false exPolicy exInput "face_match" ∧ AllLive (Some exIdVendor) (Some exBankVendor) exInput.
Proof.
  destruct (kr_run_honest (Some exIdVendor) (Some exBankVendor) false exPolicy exAdapter exIdInput (verified exIdResult) exInput "face_match"
    ltac:(by vm_compute)) as (Hv & Hp & _ & _ & _ & Hr & _).
  split; [apply Hv; by vm_compute|]. split; [apply Hp; by vm_compute|apply Hr; by vm_compute].
Defined.
End Kr.
