(* ===== verification/Issue.v ===== *)
(** Issuance orchestration, [runIssuance] of [src/pipeline/issue.ts]: wallet control, jurisdiction
    adapter, reconciliation, screening, identity policy, claim commitment and attribute packing, each
    step appended to the evidence chain.  A mark is issued only when every step passed, its packed
    attributes say what was checked, and the evidence hash recomputes from the returned evidence.
    The screening engine, the salts, claim encoding, hashing and Unicode normalisation are
    parameters; policies attached to a request are the records the source spreads. *)

From Stdlib Require Import ZArith Lia Ascii String.
From stdpp Require Import base decidable option list strings pretty.
From S2P Require Import Prelude JS Roster Merkle Attrs Json Evidence Identity Kr.
Import Json Evidence.
Local Open Scope string_scope.
Local Open Scope list_scope.
Local Open Scope Z_scope.
Local Open Scope js_scope.

Module Issue.

Inductive Decision := ALLOW | BLOCK | REVIEW.
#[export] Instance Decision_eq_dec : EqDecision Decision.
Proof. solve_decision. Defined.
Definition decisionText (d : Decision) : string :=
  match d with ALLOW => "ALLOW" | BLOCK => "BLOCK" | REVIEW => "REVIEW" end.

Inductive RiskBand := Band1 | Band2 | Band3 | Band4 | Band5.
Definition bandNumber (b : RiskBand) : Z :=
  match b with Band1 => 1 | Band2 => 2 | Band3 => 3 | Band4 => 4 | Band5 => 5 end.
Definition EXPIRY_DAYS_BY_BAND (b : RiskBand) : Z :=
  match b with Band1 => 365 | Band2 => 180 | Band3 => 90 | Band4 => 60 | Band5 => 30 end.

Record ScreeningSubject := mkSubject {
  su_fullName : string; su_romanizedName : option string; su_dateOfBirth : string; su_nationality : string; su_residence : string; su_walletAddress : string }.

(** A screening result, with hits of any type: of them only their number is used here. *)
Record ScreeningResult {Hit : Type} := mkScreening {
  decision : Decision; reviewReason : option string; riskBand : RiskBand; hits : list Hit;
  methodsApplied : Z; listVersions : json; engineVersion : string; screenedAt : Z; s_evidence : json }.
Arguments ScreeningResult : clear implicits.
Arguments mkScreening {Hit}.

Record ProcessingPolicyEvidenceV1 := mkProcessing {
  pp_schema : string; pp_policyId : string; pp_customerId : string; pp_operatingModel : string; pp_noticeVersion : string;
  pp_approvalRef : option string; pp_legalReviewRef : option string; pp_fingerprint : string; pp_consentStatementHash : string }.
Record RetentionPolicyBindingV1 := mkRetention {
  rp_schema : string; rp_policyId : string; rp_customerId : string; rp_jurisdiction : string; rp_fingerprint : string }.

Record IssueRequest := mkRequest {
  wallet : string;
  d_fullName : string; d_dateOfBirth : string; d_nationality : string; d_residence : string;
  r_idDocument : option Kr.IdDocumentResult;
  r_bankAccount : option Kr.BankAccountResult;
  walletControlProven : bool;
  jurisdiction : Z;
  r_kind : option Z;
  r_assurance : option Z;
  identityPolicy : Identity.IdentityPolicyV1;
  processingPolicy : option ProcessingPolicyEvidenceV1;
  consentStatementHash : option string;
  retentionPolicy : option RetentionPolicyBindingV1 }.

Inductive IssueStatus := DENIED | S_REVIEW | REJECTED.

Record Issued := mkIssued {
  o_attrs : string; o_claimsRoot : string; o_evidenceHash : string; o_methods : Z; o_methodNames : list string;
  o_expiry : Z; o_regime : Z; o_claims : list Claims.Claim; o_evidence : list EvidenceStep; o_screeningSnapshotId : option json }.
Inductive IssueOutcome :=
  | ISSUED (o : Issued)
  | NotIssued (status : IssueStatus) (reason evidenceHash : string) (evidence : list EvidenceStep).

(** [value.field], on a JSON object. *)
Definition jfield (k : string) (v : json) : option json := match v with JObj l => dget k l | _ => None end.

Definition optStr (s : option string) : json := match s with Some s => JStr s | None => JUndef end.

Section issue.
Context {Hit : Type}.
Context (keccak256 toUtf8Bytes : string → string).
Context (abiEncodeClaim : string → string → string → outcome string).
Context (nfkc : string → string).
(** The [n]-th call of [newSalt]. *)
Context (newSalt : nat → string).
(** [ethers.getAddress]. *)
Context (getAddress : string → outcome string).
Context (adapter : Kr.KrAdapter).
(** [aml.screen]. *)
Context (screen : ScreeningSubject → outcome (ScreeningResult Hit)).

(** [chain.append({step, at, payload})]. *)
Definition log (at_ : Z) (step : string) (payload : json) : M EvidenceChain string :=
  append keccak256 toUtf8Bytes (mkStep step at_ payload).

(** [if (policy) chain.append(…)]. *)
Definition logIf (at_ : Z) (step : string) (payload : option json) : M EvidenceChain unit :=
  match payload with Some p => log at_ step p ;;; ret tt | None => ret tt end.

Definition walletPayload (req : IssueRequest) : json :=
  JObj [("wallet", JStr (toLowerCase (wallet req))); ("proven", JBool (walletControlProven req))].
Definition processingPayload (req : IssueRequest) (p : ProcessingPolicyEvidenceV1) : json :=
  JObj [("schema", JStr (pp_schema p)); ("policyId", JStr (pp_policyId p)); ("customerId", JStr (pp_customerId p));
        ("operatingModel", JStr (pp_operatingModel p)); ("noticeVersion", JStr (pp_noticeVersion p));
        ("approvalRef", Kr.jref (pp_approvalRef p)); ("legalReviewRef", Kr.jref (pp_legalReviewRef p));
        ("fingerprint", JStr (pp_fingerprint p));
        ("consentStatementHash", JStr (default (pp_consentStatementHash p) (consentStatementHash req)))].
Definition retentionPayload (p : RetentionPolicyBindingV1) : json :=
  JObj [("schema", JStr (rp_schema p)); ("policyId", JStr (rp_policyId p)); ("customerId", JStr (rp_customerId p));
        ("jurisdiction", JStr (rp_jurisdiction p)); ("fingerprint", JStr (rp_fingerprint p))].

Definition axesJson (r : Reconcile.ReconcileResult) : json :=
  JObj [("declaredVsIdDoc", JStr (Reconcile.axisText (Reconcile.declaredVsIdDoc r)));
        ("declaredVsBank", JStr (Reconcile.axisText (Reconcile.declaredVsBank r)));
        ("idDocVsBank", JStr (Reconcile.axisText (Reconcile.idDocVsBank r)))].
Definition reconcilePayload (r : Reconcile.ReconcileResult) : json :=
  JObj [("axes", axesJson r);
        ("digests", JObj [("declaredName", JStr (Reconcile.d_declaredName r)); ("idDocName", optStr (Reconcile.d_idDocName r));
                          ("bankHolderName", optStr (Reconcile.d_bankHolderName r)); ("dobMatch", JBool (Reconcile.d_dobMatch r))]);
        ("passed", JBool (Reconcile.passed r))].

Definition amlPayload (s : ScreeningResult Hit) : json :=
  JObj [("decision", JStr (decisionText (decision s))); ("riskBand", JNum (bandNumber (riskBand s)));
        ("hitCount", JNum (Z.of_nat (length (hits s)))); ("listVersions", listVersions s);
        ("engineVersion", JStr (engineVersion s)); ("reviewReason", optStr (reviewReason s));
        ("methodsApplied", JNum (methodsApplied s)); ("evidence", s_evidence s)].

Definition outcomeText (o : Identity.Outcome) : string :=
  match o with Identity.Pass => "pass" | Identity.Missing => "missing" | Identity.NotRequired => "not-required"
  | Identity.Unsupported => "unsupported" end.
Definition requirementJson (r : Identity.IdentityRequirementResultV1) : json :=
  JObj [("requirement", JStr (Identity.r_requirement r)); ("method", Kr.jref (Identity.r_method r));
        ("required", JBool (Identity.r_required r)); ("performed", JBool (Identity.r_performed r));
        ("outcome", JStr (outcomeText (Identity.r_outcome r)))].
Definition identityPayload (e : Identity.IdentityPolicyEvaluationV1) : json :=
  JObj [("schema", JStr "proofmark-identity-evaluation-v1"); ("policyId", JStr (Identity.e_policyId e));
        ("customerRiskId", JStr (Identity.e_customerRiskId e)); ("policyStatus", JStr (Identity.e_policyStatus e));
        ("approvalRef", Kr.jref (Identity.e_approvalRef e)); ("subjectKind", JStr (Identity.e_subjectKind e));
        ("assurance", JNum (Identity.e_assurance e)); ("assuranceScale", JStr "policy-local");
        ("assuranceBasis", Kr.jref (Identity.e_assuranceBasis e)); ("passed", JBool (Identity.e_passed e));
        ("missing", JArr (map JStr (Identity.e_missing e))); ("violations", JArr (map JStr (Identity.e_violations e)));
        ("requirements", JArr (map requirementJson (Identity.e_requirements e)));
        ("biometrics", JObj [("mode", JStr (Identity.e_mode e)); ("authorizedChecks", JArr (map JStr (Identity.e_authorizedChecks e)))])].

(** The early returns. *)
Definition refuse (status : IssueStatus) (reason : string) : M EvidenceChain IssueOutcome :=
  gets (λ c, NotIssued status reason (hash c) (export c)).

Definition mkClaim (k v : string) (n : nat) : Claims.Claim :=
  {| Claims.c_key := k; Claims.c_value := v; Claims.c_salt := newSalt n |}.
Definition issueClaims (req : IssueRequest) (a : Kr.KrAdapterResult) : list Claims.Claim :=
  [mkClaim "fullName" (d_fullName req) 0; mkClaim "dateOfBirth" (d_dateOfBirth req) 1;
   mkClaim "nationality" (d_nationality req) 2; mkClaim "residence" (d_residence req) 3]
  ++ (match Kr.kr_idDocument a with Some (_, _, docHash) => [mkClaim "idDocHash" docHash 4] | None => [] end)
  ++ (match Kr.kr_bankAccount a with
      | Some holder => [mkClaim "accountHolder" holder (if bool_decide (is_Some (Kr.kr_idDocument a)) then 5 else 4)]
      | None => [] end).

Definition adapterInput (req : IssueRequest) : Kr.KrAdapterInput :=
  Kr.mkKrInput (walletControlProven req) (r_idDocument req) (r_bankAccount req).
Definition reconcileInput (req : IssueRequest) (a : Kr.KrAdapterResult) : Reconcile.ReconcileInput :=
  Reconcile.mkInput (d_fullName req) (d_dateOfBirth req) ((λ d, (d.1.1, d.1.2)) <$> Kr.kr_idDocument a) (Kr.kr_bankAccount a).
Definition issueSubject (req : IssueRequest) : ScreeningSubject :=
  mkSubject (d_fullName req) None (d_dateOfBirth req) (d_nationality req) (d_residence req) (wallet req).

(** Steps 5 and 6: commitment, packing, the last evidence step. *)
Definition commitAndPack (req : IssueRequest) (at_ : Z) (a : Kr.KrAdapterResult) (screening : ScreeningResult Hit)
  (methods assurance : Z) : M EvidenceChain IssueOutcome :=
  let claims := issueClaims req a in
  let! root := lift_out (Claims.claimsRoot keccak256 abiEncodeClaim claims) in
  log at_ "commitment" (JObj [("claimsRoot", JStr root); ("claimCount", JNum (Z.of_nat (length claims)))]) ;;;
  let issuedAt := at_ / 1000 in
  let expiry := issuedAt + EXPIRY_DAYS_BY_BAND (riskBand screening) * 86400 in
  let! attrs := lift_out (Attrs.packAttrs (Attrs.mkAttrs (default 1 (r_kind req)) assurance (Kr.kr_regime a)
                            (jurisdiction req) methods issuedAt expiry 0)) in
  require (Attrs.validCredentialAttrs attrs (Some issuedAt)) (EError "unsupported credential schema") ;;;
  let! evidenceHash := log at_ "issue" (JObj [("attrs", JStr attrs); ("claimsRoot", JStr root)]) in
  gets (λ c, ISSUED (mkIssued attrs root evidenceHash methods (Methods.describeMethods methods) expiry (Kr.kr_regime a)
               claims (export c) (jfield "sourceSnapshot" (s_evidence screening) ≫= jfield "snapshotId"))).

Definition identityStep (req : IssueRequest) (at_ : Z) (a : Kr.KrAdapterResult) (screening : ScreeningResult Hit) : M EvidenceChain IssueOutcome :=
  let methods := jsOr (Kr.kr_methods a) (methodsApplied screening) in
  let! identity := lift_out (Identity.evaluateIdentityPolicy (identityPolicy req) methods (default 1 (r_kind req))) in
  log at_ "identity_policy" (identityPayload identity) ;;;
  if negb (Identity.e_passed identity) then
    refuse REJECTED ("identity policy requirements not met: "
                     +:+ String.concat "," (Identity.e_missing identity ++ Identity.e_violations identity))
  else if match r_assurance req with Some x => negb (x =? Identity.e_assurance identity) | None => false end then
    refuse REJECTED ("assurance does not match policy-local performed-check basis: expected " +:+ pretty (Identity.e_assurance identity))
  else commitAndPack req at_ a screening methods (Identity.e_assurance identity).

Definition screeningStep (req : IssueRequest) (at_ : Z) (a : Kr.KrAdapterResult) : M EvidenceChain IssueOutcome :=
  let! screening := lift_out (screen (issueSubject req)) in
  log at_ "aml" (amlPayload screening) ;;;
  match decision screening with
  | BLOCK => refuse DENIED ("sanctions or high-risk decision (band " +:+ pretty (bandNumber (riskBand screening)) +:+ ")")
  | REVIEW => refuse S_REVIEW (default "MANUAL_FLAG" (reviewReason screening))
  | ALLOW => identityStep req at_ a screening
  end.

Definition reconcileStep (req : IssueRequest) (at_ : Z) (a : Kr.KrAdapterResult) : M EvidenceChain IssueOutcome :=
  let rec_ := Reconcile.reconcile keccak256 toUtf8Bytes nfkc (reconcileInput req a) in
  log at_ "reconcile" (reconcilePayload rec_) ;;;
  if negb (Reconcile.passed rec_) then
    refuse REJECTED ("reconciliation failed: " +:+ default "" (stringify (axesJson rec_)))
  else screeningStep req at_ a.

Definition issueM (req : IssueRequest) (now : Z) : M EvidenceChain IssueOutcome :=
  log now "wallet_control" (walletPayload req) ;;;
  if negb (walletControlProven req) then refuse REJECTED "wallet control not proven"
  else
    logIf now "processing_policy" (processingPayload req <$> processingPolicy req) ;;;
    logIf now "retention_policy" (retentionPayload <$> retentionPolicy req) ;;;
    let a := Kr.run adapter (adapterInput req) in
    log now "jurisdiction_adapter" (Kr.kr_evidence a) ;;;
    match Kr.kr_rejected a with
    | Some reason => refuse REJECTED reason
    | None => reconcileStep req now a
    end.

Definition runIssuance (req : IssueRequest) (now : Z) : outcome IssueOutcome := (issueM req now newChain).1.

(** [toIssueCall]. *)
Record IssueCall := mkCall { c_subject : string; c_attrs : string; c_claimsRoot : string; c_evidenceHash : string }.
Definition toIssueCall (wallet : string) (out : Issued) : outcome IssueCall :=
  let? subject := getAddress wallet in
  Ok (mkCall subject (o_attrs out) (o_claimsRoot out) (o_evidenceHash out)).

(** * What an outcome guarantees *)

Abbreviation consistent := (Consistent keccak256 toUtf8Bytes).

(** The facts an issued mark stands for. *)
Record Sound (req : IssueRequest) (now : Z) (o : Issued) (a : Kr.KrAdapterResult) (s : ScreeningResult Hit)
  (e : Identity.IdentityPolicyEvaluationV1) : Prop := {
  so_wallet : walletControlProven req = true;
  so_adapter : a = Kr.run adapter (adapterInput req) ∧ Kr.kr_rejected a = None;
  so_reconciled : Reconcile.passed (Reconcile.reconcile keccak256 toUtf8Bytes nfkc (reconcileInput req a)) = true;
  so_screened : screen (issueSubject req) = Ok s ∧ decision s = ALLOW;
  so_methods : o_methods o = jsOr (Kr.kr_methods a) (methodsApplied s);
  so_identity : Identity.evaluateIdentityPolicy (identityPolicy req) (o_methods o) (default 1 (r_kind req)) = Ok e
                ∧ Identity.e_passed e = true ∧ ∀ x, r_assurance req = Some x → x = Identity.e_assurance e;
  so_attrs : Attrs.unpackAttrs (o_attrs o) = Ok (Attrs.mkAttrs (default 1 (r_kind req)) (Identity.e_assurance e) (Kr.kr_regime a)
               (jurisdiction req) (o_methods o) (now / 1000) (o_expiry o) 0);
  so_valid : Attrs.validCredentialAttrs (o_attrs o) (Some (now / 1000)) = true;
  so_expiry : o_expiry o = now / 1000 + EXPIRY_DAYS_BY_BAND (riskBand s) * 86400;
  so_claims : o_claims o = issueClaims req a ∧ Claims.claimsRoot keccak256 abiEncodeClaim (o_claims o) = Ok (o_claimsRoot o);
  so_evidence : ∃ before, o_evidence o = before ++
      [mkStep "commitment" now (JObj [("claimsRoot", JStr (o_claimsRoot o)); ("claimCount", JNum (Z.of_nat (length (o_claims o))))]);
       mkStep "issue" now (JObj [("attrs", JStr (o_attrs o)); ("claimsRoot", JStr (o_claimsRoot o))])] }.

Definition Good (req : IssueRequest) (now : Z) (out : outcome IssueOutcome) (c : EvidenceChain) : Prop :=
  match out with
  | Ok (ISSUED o) => recompute keccak256 toUtf8Bytes (o_evidence o) = Ok (o_evidenceHash o) ∧ ∃ a s e, Sound req now o a s e
  | Ok (NotIssued status _ h ev) => recompute keccak256 toUtf8Bytes ev = Ok h ∧
      (status = DENIED → ∃ s, screen (issueSubject req) = Ok s ∧ decision s = BLOCK) ∧
      (status = S_REVIEW → ∃ s, screen (issueSubject req) = Ok s ∧ decision s = REVIEW)
  | Throw _ => True
  end.

Lemma wp_log {A} at_ step p (k : M EvidenceChain A) Q c : consistent c →
  (∀ c', consistent c' → steps c' = steps c ++ [mkStep step at_ p] → wp k Q c') →
  (∀ e c', Q (Throw e) c') → wp (log at_ step p ;;; k) Q c.
Proof.
  intros Hc Hk HQ. unfold log. apply wp_bind. unfold wp.
  destruct (append keccak256 toUtf8Bytes (mkStep step at_ p) c) as [[h|e] c'] eqn:E; [|apply HQ].
  apply append_consistent in E as (Hc' & _ & Es); [|done]. by apply Hk.
Qed.

Lemma refuse_good req now status reason c : consistent c →
  (status = DENIED → ∃ s, screen (issueSubject req) = Ok s ∧ decision s = BLOCK) →
  (status = S_REVIEW → ∃ s, screen (issueSubject req) = Ok s ∧ decision s = REVIEW) →
  wp (refuse status reason) (Good req now) c.
Proof. intros Hc H1 H2. apply wp_gets. split; [exact Hc|]. by split. Qed.

Lemma commit_good req now a s e methods c :
  consistent c → walletControlProven req = true → a = Kr.run adapter (adapterInput req) → Kr.kr_rejected a = None →
  Reconcile.passed (Reconcile.reconcile keccak256 toUtf8Bytes nfkc (reconcileInput req a)) = true →
  screen (issueSubject req) = Ok s → decision s = ALLOW → methods = jsOr (Kr.kr_methods a) (methodsApplied s) →
  Identity.evaluateIdentityPolicy (identityPolicy req) methods (default 1 (r_kind req)) = Ok e → Identity.e_passed e = true →
  (∀ x, r_assurance req = Some x → x = Identity.e_assurance e) →
  wp (commitAndPack req now a s methods (Identity.e_assurance e)) (Good req now) c.
Proof.
  intros Hc Hw Ha Hr Hp Hs Hd Hm He Hep Hx. unfold commitAndPack. apply wp_bind, wp_lift_out.
  destruct (Claims.claimsRoot _ _ _) as [root|] eqn:Eroot; [|done].
  apply wp_log; [done| |done]. intros c1 Hc1 E1. apply wp_bind, wp_lift_out.
  destruct (Attrs.packAttrs _) as [attrs|] eqn:Ep; [|done].
  apply wp_bind, wp_require; [intros Ev|done].
  apply wp_bind. unfold wp at 1. unfold log. destruct (append _ _ _ c1) as [[h|x] c2] eqn:E2; [|done].
  apply append_consistent in E2 as (Hc2 & -> & E2); [|done]. apply wp_gets.
  split; [exact Hc2|]. exists a, s, e. split; cbn; try done.
  - by apply Attrs.unpackAttrs_pack in Ep as [_ Hu].
  - exists (export c). change (export c2) with (steps c2) in *. unfold export in *. by rewrite E2, E1, <- app_assoc.
Qed.

Lemma wp_logIf {A} at_ step p (k : M EvidenceChain A) Q c : consistent c →
  (∀ c', consistent c' → wp k Q c') → (∀ e c', Q (Throw e) c') → wp (logIf at_ step p ;;; k) Q c.
Proof.
  intros Hc Hk HQ. apply wp_bind. destruct p as [p|]; cbn [logIf]; [|apply wp_ret; by apply Hk].
  apply wp_log; [done| |done]. intros c' Hc' _. apply wp_ret. by apply Hk.
Qed.

Lemma issue_good req now : wp (issueM req now) (Good req now) newChain.
Proof.
  unfold issueM. apply wp_log; [apply newChain_consistent| |done]. intros c1 Hc1 _.
  destruct (walletControlProven req) eqn:Hw; cbn [negb]; [|by apply refuse_good].
  apply wp_logIf; [done| |done]. intros c2 Hc2. apply wp_logIf; [done| |done]. intros c3 Hc3.
  set (a := Kr.run adapter (adapterInput req)). apply wp_log; [done| |done]. intros c4 Hc4 _.
  destruct (Kr.kr_rejected a) eqn:Hr; [by apply refuse_good|].
  unfold reconcileStep. apply wp_log; [done| |done]. intros c5 Hc5 _.
  destruct (Reconcile.passed _) eqn:Hp; cbn [negb]; [|by apply refuse_good].
  unfold screeningStep. apply wp_bind, wp_lift_out. destruct (screen (issueSubject req)) as [s|] eqn:Hs; [|done].
  apply wp_log; [done| |done]. intros c6 Hc6 _.
  destruct (decision s) eqn:Hd; [|apply refuse_good; eauto; done|apply refuse_good; eauto; done].
  unfold identityStep. apply wp_bind, wp_lift_out.
  destruct (Identity.evaluateIdentityPolicy _ _ _) as [e|] eqn:He; [|done].
  apply wp_log; [done| |done]. intros c7 Hc7 _.
  destruct (Identity.e_passed e) eqn:Hep; cbn [negb]; [|by apply refuse_good].
  destruct (match r_assurance req with Some x => negb (x =? Identity.e_assurance e) | None => false end) eqn:Hx; [by apply refuse_good|].
  apply commit_good; try done. intros x Ex. rewrite Ex in Hx. apply negb_false_iff in Hx. by apply Z.eqb_eq.
Qed.

(** C2. An issued mark means that wallet control was proven, the adapter did not
    reject, names and date of birth reconcile with every document and account given,
    screening answered ALLOW, and the identity policy passed with each required check
    performed by the adapter or by the screening; its packed attributes unpack to
    exactly the kind, assurance, regime, jurisdiction, performed checks, issue time and
    band-dependent expiry, its claims commit to its root, its evidence ends in the
    commitment and the issue step, and its evidence hash is recomputed from that
    evidence. A refusal carries a recomputable hash too, DENIED only on a BLOCK and
    REVIEW only on a REVIEW decision. *)
Theorem issuance_sound (req : IssueRequest) (now : Z) (out : IssueOutcome) :
  runIssuance req now = Ok out →
  match out with
  | ISSUED o =>
      recompute keccak256 toUtf8Bytes (o_evidence o) = Ok (o_evidenceHash o) ∧
      (∃ a s e, Sound req now o a s e ∧
        (∀ r, r ∈ Identity.p_required (identityPolicy req) →
           Kr.didRequirement adapter (adapterInput req) r = true ∨ Identity.performed r (methodsApplied s) = true) ∧
        (∀ d, r_idDocument req = Some d →
           Reconcile.normalizeName nfkc (Kr.fullName d) = Reconcile.normalizeName nfkc (d_fullName req) ∧
           Kr.dateOfBirth d = d_dateOfBirth req ∧ (Kr.authenticityChecked d = true → Kr.authentic d = true)) ∧
        (∀ b, r_bankAccount req = Some b →
           Reconcile.normalizeName nfkc (Kr.holderName b) = Reconcile.normalizeName nfkc (d_fullName req)))
  | NotIssued status _ h evidence =>
      recompute keccak256 toUtf8Bytes evidence = Ok h ∧
      (status = DENIED → ∃ s, screen (issueSubject req) = Ok s ∧ decision s = BLOCK) ∧
      (status = S_REVIEW → ∃ s, screen (issueSubject req) = Ok s ∧ decision s = REVIEW)
  end.
Proof.
  intros H. pose proof (issue_good req now) as HG. unfold wp, runIssuance in *. unfold runIssuance in H. rewrite H in HG.
  destruct out as [o|]; [|exact HG]. destruct HG as [Hr (a & s & e & HS)]. split; [done|]. exists a, s, e. split; [done|].
  destruct HS as [_ [-> Hrej] Hrec _ Hm (He & Hep & _) _ _ _ _ _]. split_and!.
  - intros r Hreq. pose proof (Identity.passed_required _ _ _ _ He Hep r Hreq) as Hp.
    rewrite Hm, Kr.performed_or, Kr.run_performed in Hp. by apply orb_true_iff.
  - intros d Hd. apply Reconcile.reconcile_passed in Hrec as [Hi _]. rewrite Kr.run_rejected in Hrej.
    destruct (Hrej d Hd) as (Ha & _). destruct (Hi (Kr.fullName d, Kr.dateOfBirth d)) as [E1 E2]; [|done].
    cbn. by rewrite Hd.
  - intros b Hb. apply Reconcile.reconcile_passed in Hrec as [_ Hi]. apply Hi. cbn. by rewrite Hb.
Qed.
End issue.
End Issue.

Module IssueExample.
Import Issue.

(** A short checksum in the place of keccak. *)
Definition exHash (s : string) : string :=
  "0x" +:+ Roster.hexDigits 64 (fold_left (λ acc c, (acc * 31 + Z.of_N (N_of_ascii c)) mod 2 ^ 32) (list_ascii_of_string s) 7).

Definition exUnused {A} : outcome A := Throw (EError "not called").
Definition exAdapter : Kr.KrAdapter :=
  Kr.mkAdapter (Some (Kr.mkIdVendor "registry" true (Some []) None (λ _, exUnused)))
    (Some (Kr.mkBankVendor "bank" true (λ _ _ _ _, exUnused) (λ _ _ _, exUnused))) false None.
Definition exDocument : Kr.IdDocumentResult :=
  Kr.mkIdResult "DL" "Hong, Gil-dong" "1990-01-02" "0xd0c5" true true false false "registry" true (Some "r-1") None.
Definition exAccount : Kr.BankAccountResult := Kr.mkBankResult "088" "HONG GILDONG" true true "bank" true None.
Definition exRequest : IssueRequest :=
  mkRequest "0xAB" "hong gil dong" "1990-01-02" "KR" "KR" (Some exDocument) (Some exAccount) true 410 None (Some 3)
    Identity.nonfaceInput None None None.
Definition exScreening : ScreeningResult json :=
  mkScreening ALLOW None Band2 [] (jsOr Methods.SANCTIONS_SCREENED Methods.JURISDICTION_CHECK) (JObj [("OFAC_SDN", JNum 7)])
    "1.0.0" 1790000000000 (JObj [("sourceSnapshot", JObj [("snapshotId", JStr "snap-1")])]).

Definition exSalt (n : nat) : string := "0x0" +:+ pretty n.
Definition exNfkc (s : string) : string := s.
Definition exScreen (_ : ScreeningSubject) : outcome (ScreeningResult json) := Ok exScreening.
Definition exNow : Z := 1790000000000.
Definition exNone : Issued := mkIssued "" "" "" 0 [] 0 0 [] [] None.
Definition exIssued : Issued := Eval vm_compute in
  match runIssuance exHash EvidenceExample.exUtf8 ClaimsExample.exEncode exNfkc exSalt exAdapter exScreen exRequest exNow with
  | Ok (ISSUED o) => o | _ => exNone end.
Lemma exRun_ok :
  runIssuance exHash EvidenceExample.exUtf8 ClaimsExample.exEncode exNfkc exSalt exAdapter exScreen exRequest exNow = Ok (ISSUED exIssued).
Proof. by vm_compute. Qed.

(** The run issues a mark in the live regime; its evidence recomputes. *)
Lemma issuance_sound_witness : o_regime exIssued = 1 ∧
  recompute exHash EvidenceExample.exUtf8 (o_evidence exIssued) = Ok (o_evidenceHash exIssued).
Proof.
  split; [reflexivity|].
  exact (proj1 (issuance_sound exHash EvidenceExample.exUtf8 ClaimsExample.exEncode exNfkc exSalt exAdapter exScreen exRequest exNow
    (ISSUED exIssued) exRun_ok)).
Defined.
End IssueExample.
