(* ===== verification/Float.v ===== *)
(** IEEE 754 binary64 arithmetic, as JavaScript numbers use it, on the executable specification
    floats of the Standard Library; with [Math.max] and [toFixed(3)]. *)

From Stdlib Require Import ZArith Lia Ascii String SpecFloat.
From stdpp Require Import base decidable option list strings pretty.
From S2P Require Import Prelude JS Json.
Local Open Scope string_scope.
Local Open Scope list_scope.
Local Open Scope Z_scope.

Abbreviation f64 := spec_float.

Definition fadd : f64 → f64 → f64 := SFadd 53 1024.
Definition fsub : f64 → f64 → f64 := SFsub 53 1024.
Definition fmul : f64 → f64 → f64 := SFmul 53 1024.
Definition fdiv : f64 → f64 → f64 := SFdiv 53 1024.
Definition fltb : f64 → f64 → bool := SFltb.
Definition fleb : f64 → f64 → bool := SFleb.
Definition fgtb (a b : f64) : bool := SFltb b a.
Definition fgeb (a b : f64) : bool := SFleb b a.

Definition fofZ (z : Z) : f64 := binary_normalize 53 1024 z 0 false.
Definition fofNat (n : nat) : f64 := fofZ (Z.of_nat n).
(** The decimal literal [n / d]; division rounds correctly. *)
Definition fdec (n d : Z) : f64 := fdiv (fofZ n) (fofZ d).

Definition f0 : f64 := S754_zero false.
Definition f1 : f64 := fofZ 1.

Definition fmax (a b : f64) : f64 :=
  match a, b with
  | S754_nan, _ | _, S754_nan => S754_nan
  | _, _ => if fltb a b then b else if fltb b a then a else match a with S754_zero true => b | _ => a end
  end.

(** The integer nearest to [1000 m 2^e], the larger one of two. *)
Definition thousandths (m : positive) (e : Z) : Z :=
  if 0 <=? e then Zpos m * 2 ^ e * 1000 else (Zpos m * 2000 + 2 ^ (- e)) / (2 * 2 ^ (- e)).

(** [Number(x.toFixed(3))] for |x| < 1e21. *)
Definition roundFixed3 (x : f64) : f64 :=
  match x with
  | S754_finite s m e =>
      match thousandths m e with
      | Zpos n => fdiv (S754_finite s n 0) (fofZ 1000)
      | _ => S754_zero s
      end
  | x => x
  end.

(** [x.toFixed(3)] for |x| < 1e21. *)
Definition toFixed3 (x : f64) : string :=
  let show s n := (if (s : bool) then "-" else "") +:+ pretty (n / 1000) +:+ "." +:+ Json.pad 3 (n mod 1000) in
  match x with
  | S754_nan => "NaN"
  | S754_infinity s => if s then "-Infinity" else "Infinity"
  | S754_zero _ => "0.000"
  | S754_finite s m e => show s (thousandths m e)
  end.

Example toFixed3_1 : toFixed3 (fdec 2 3) = "0.667" ∧ toFixed3 f1 = "1.000" ∧ toFixed3 (fdec 82 100) = "0.820".
Proof. by vm_compute. Qed.
Example fixed_1 : roundFixed3 (fdec 2 3) = fdec 667 1000 ∧ roundFixed3 f1 = f1.
Proof. by vm_compute. Qed.
Example fadd_1 : fadd (fdec 1 10) (fdec 2 10) = S754_finite false 5404319552844596 (-54).
Proof. by vm_compute. Qed.
