(* ===== verification/Names.v ===== *)
(** The text layer of the screening engine: name normalisation ([src/aml/normalize.ts], Module
    Normalize), Hangul romanisation ([romanize.ts], Module Romanize), comparison of identity
    descriptors ([identity.ts], Module Compare) and the jurisdiction table ([jurisdiction.ts],
    Module Jurisdiction).  A name is the list of its code points; case mapping, canonical
    decomposition and the letter and number categories of Unicode are parameters. *)

From Stdlib Require Import ZArith Lia Ascii String.
From stdpp Require Import base decidable option list strings pretty.
From S2P Require Import Prelude JS Roster Merkle Attrs Json Identity Kr Edit.
Import Json.
Local Open Scope string_scope.
Local Open Scope list_scope.
Local Open Scope Z_scope.
Local Open Scope js_scope.

(** The code points of a string. *)
Definition textOf (s : string) : text := map (λ c, Z.of_nat (nat_of_ascii c)) (list_ascii_of_string s).

Module Normalize.

Definition ENGINE_VERSION : string := "aml-1.4.0".

Definition inRange (lo hi c : Z) : bool := (lo <=? c) && (c <=? hi).
Definition INVISIBLE (c : Z) : bool :=
  inRange 0x200b 0x200f c || inRange 0x202a 0x202e c || inRange 0x2060 0x2064 c || (c =? 0xfeff) || (c =? 0xad) || (c =? 0x34f).

Definition HOMOGLYPH : list (Z * Z) := [
  (1072, 97); (1074, 98); (1089, 99); (1077, 101); (1085, 104); (1082, 107); (1084, 109); (1086, 111); (1088, 112);
  (1090, 116); (1093, 120); (1091, 121); (1110, 105); (1112, 106); (1109, 115);
  (1040, 97); (1042, 98); (1057, 99); (1045, 101); (1053, 104); (1050, 107); (1052, 109); (1054, 111); (1056, 112);
  (1058, 116); (1061, 120); (1059, 121); (1030, 105); (1032, 106); (1029, 115);
  (945, 97); (946, 98); (949, 101); (953, 105); (954, 107); (957, 118); (959, 111); (961, 112); (964, 116); (965, 117);
  (967, 120); (913, 97); (914, 98); (917, 101); (921, 105);
  (922, 107); (924, 109); (925, 110); (927, 111); (929, 112); (932, 116); (933, 121); (935, 120); (918, 122); (919, 104)].

Definition toHalfWidth (s : text) : text :=
  map (λ c, if c =? 0x3000 then 32 else c) (map (λ c, if inRange 0xff01 0xff5e c then c - 0xfee0 else c) s).

Definition mapHomoglyph (c : Z) : Z :=
  match find (λ p, p.1 =? c) HOMOGLYPH with Some p => p.2 | None => c end.
Definition mapHomoglyphs (s : text) : text := map mapHomoglyph s.

(** [\s] of JavaScript patterns. *)
Definition isWhite (c : Z) : bool :=
  inRange 9 13 c || (c =? 32) || (c =? 0xa0) || (c =? 0x1680) || inRange 0x2000 0x200a c || (c =? 0x2028) || (c =? 0x2029)
  || (c =? 0x202f) || (c =? 0x205f) || (c =? 0x3000) || (c =? 0xfeff).

Definition apostrophe : Z := 39.
Definition hyphen : Z := 45.
Definition quoteLike (c : Z) : bool := (c =? 39) || (c =? 0x60) || (c =? 0xb4) || (c =? 0x2bb) || (c =? 0x2bc).

(** [s.replace(/\s+/g, ' ')]; [prev] tells whether the previous character was white. *)
Fixpoint collapseFrom (prev : bool) (s : text) : text :=
  match s with
  | [] => []
  | c :: s => if isWhite c then (if prev then collapseFrom true s else 32 :: collapseFrom true s) else c :: collapseFrom false s
  end.
Fixpoint dropWhite (s : text) : text :=
  match s with c :: r => if isWhite c then dropWhite r else s | [] => [] end.
Definition trimText (s : text) : text := rev (dropWhite (rev (dropWhite s))).

(** [s.split(/<class>+/)] without the empty pieces. *)
Fixpoint splitOn (sep : Z → bool) (cur s : text) : list text :=
  match s with
  | [] => if bool_decide (cur = []) then [] else [rev cur]
  | c :: s => if sep c then (if bool_decide (cur = []) then splitOn sep [] s else rev cur :: splitOn sep [] s)
              else splitOn sep (c :: cur) s
  end.

Section normalize.
Context (toLower nfd : text → text) (isLetterOrNumber : Z → bool).

Definition normalizeName (raw : text) : text :=
  let s := filter (λ c, INVISIBLE c = false) raw in
  let s := toHalfWidth s in
  let s := toLower s in
  let s := mapHomoglyphs s in
  let s := filter (λ c, inRange 0x300 0x36f c = false) (nfd s) in
  let s := map (λ c, if quoteLike c then apostrophe else c) s in
  let s := map (λ c, if isLetterOrNumber c || isWhite c || (c =? apostrophe) || (c =? hyphen) then c else 32) s in
  trimText (collapseFrom false s).
End normalize.

Definition tokenize (normalized : text) : list text :=
  splitOn (λ c, isWhite c || (c =? apostrophe) || (c =? hyphen)) [] normalized.

Definition TITLES : list text := map textOf
  ["mr"; "mrs"; "ms"; "dr"; "prof"; "sheikh"; "haji"; "al"; "el"; "bin"; "ibn"; "abu"; "von"; "van"; "de"; "del"; "della";
   "di"; "da"; "dos"; "das"; "la"; "le"].
Definition contentTokens (tokens : list text) : list text :=
  let kept := filter (λ t, t ∉ TITLES) tokens in
  if bool_decide (kept = []) then tokens else kept.

Definition normalizeCountry (v : string) : string := slice 0 2 (toUpperCase (trim v)).

(** ** Dates of birth *)

Definition months : list string := ["jan"; "feb"; "mar"; "apr"; "may"; "jun"; "jul"; "aug"; "sep"; "oct"; "nov"; "dec"].

(** [^(\d{4})-(\d{2})-(\d{2})$]. *)
Definition isoDate (s : string) : bool :=
  (String.length s =? 10)%nat && allChars isDigit (slice 0 4 s) && String.eqb (slice 4 5 s) "-"
  && allChars isDigit (slice 5 7 s) && String.eqb (slice 7 8 s) "-" && allChars isDigit (slice 8 10 s).

Fixpoint takeWhile (p : ascii → bool) (s : string) : string * string :=
  match s with
  | "" => ("", "")
  | String c r => if p c then let '(a, b) := takeWhile p r in (String c a, b) else ("", s)
  end.

Definition isAlpha (c : ascii) : bool := isAlnum c && negb (isDigit c).

(** [^(\d{1,2})\s+([A-Za-z]{3})\s+(\d{4})$]: day, month name, year. *)
Definition longDate (s : string) : option (string * string * string) :=
  let '(d, r) := takeWhile isDigit s in
  let '(w1, r) := takeWhile isSpace r in
  let '(m, r) := takeWhile isAlpha r in
  let '(w2, y) := takeWhile isSpace r in
  if (1 <=? String.length d)%nat && (String.length d <=? 2)%nat && negb (String.eqb w1 "") && (String.length m =? 3)%nat
     && negb (String.eqb w2 "") && (String.length y =? 4)%nat && allChars isDigit y
  then Some (d, m, y) else None.

(** [s.match(/(\d{4})/)]: the first four digits in a row. *)
Fixpoint firstYear (s : string) : option string :=
  match s with
  | "" => None
  | String _ r => if (String.length (slice 0 4 s) =? 4)%nat && allChars isDigit (slice 0 4 s) then Some (slice 0 4 s) else firstYear r
  end.

Definition padStart2 (s : string) : string := if (String.length s <? 2)%nat then Nat.iter (2 - String.length s) (String "0") s else s.

Definition normalizeDob (raw : string) : option string :=
  if String.eqb raw "" then None
  else
    let s := trim raw in
    if isoDate s then Some s
    else
      match longDate s with
      | Some (d, m, y) =>
          let mo := Merkle.Merkle.indexOf (toLowerCase m) months in
          if 0 <=? mo then Some (y +:+ "-" +:+ padStart2 (pretty (mo + 1)) +:+ "-" +:+ padStart2 d) else firstYear s
      | None => firstYear s
      end.

Example dob_1 : normalizeDob "12 Jan 1970" = Some "1970-01-12" ∧ normalizeDob "circa 1965" = Some "1965"
  ∧ normalizeDob " 1990-02-03 " = Some "1990-02-03" ∧ normalizeDob "unknown" = None.
Proof. by vm_compute. Qed.
End Normalize.

Module Romanize.
Import Normalize.

Definition CHO : list string := ["g";"kk";"n";"d";"tt";"r";"m";"b";"pp";"s";"ss";"";"j";"jj";"ch";"k";"t";"p";"h"].
Definition JUNG : list string := ["a";"ae";"ya";"yae";"eo";"e";"yeo";"ye";"o";"wa";"wae";"oe";"yo";"u";"wo";"we";"wi";"yu";"eu";"ui";"i"].
Definition JONG : list string := ["";"k";"k";"k";"n";"n";"n";"t";"l";"l";"l";"l";"l";"l";"l";"l";"m";"p";"p";"t";"t";"ng";"t";"t";"k";"t";"p";"t"].

Definition SURNAME_VARIANTS : list (Z * list string) := [
  (0xAE40, ["kim";"gim"]); (0xC774, ["lee";"yi";"rhee";"ri";"i"]); (0xBC15, ["park";"pak";"bak"]); (0xCD5C, ["choi";"choe";"chwe"]);
  (0xC815, ["jung";"jeong";"chung";"jong"]); (0xAC15, ["kang";"gang"]); (0xC870, ["cho";"jo"]); (0xC724, ["yoon";"yun"]);
  (0xC7A5, ["jang";"chang"]); (0xC784, ["lim";"im";"rim"]); (0xD55C, ["han"]); (0xC624, ["oh";"o"]);
  (0xC11C, ["seo";"suh";"so"]); (0xC2E0, ["shin";"sin"]); (0xAD8C, ["kwon";"gwon"]); (0xD669, ["hwang"]);
  (0xC548, ["ahn";"an"]); (0xC1A1, ["song"]); (0xC804, ["jeon";"jun";"chun"]); (0xD64D, ["hong"]);
  (0xC720, ["yoo";"yu";"ryu"]); (0xACE0, ["ko";"go"]); (0xBB38, ["moon";"mun"]); (0xC591, ["yang"]);
  (0xC190, ["son";"sohn"]); (0xBC30, ["bae";"pae"]); (0xBC31, ["baek";"paek";"back"]); (0xB178, ["noh";"no";"roh"]);
  (0xD5C8, ["heo";"hur";"huh"]); (0xC2EC, ["shim";"sim"])].

Definition DPRK_VARIANTS : list (Z * list string) := [
  (0xAE40, ["kim"]); (0xB9AC, ["ri";"li";"lee"]); (0xBC15, ["pak"]); (0xCD5C, ["choe"]);
  (0xC815, ["jong";"jung"]); (0xC8FC, ["ju";"chu"]); (0xC740, ["un";"eun"]); (0xC77C, ["il"]);
  (0xC131, ["song";"sung"]); (0xCCA0, ["chol";"cheol"]); (0xC601, ["yong";"young"]); (0xB0A8, ["nam"])].

Definition variantsOf (table : list (Z * list string)) (c : Z) : list string :=
  match find (λ p, p.1 =? c) table with Some p => p.2 | None => [] end.

(** [charCodeAt(0)] of a code point: a surrogate for those beyond the basic plane. *)
Definition isHangulSyllable (c : Z) : bool := inRange 0xac00 0xd7a3 c.

Definition syllableRR (ch : Z) : string :=
  let c := ch - 0xac00 in
  nth (Z.to_nat (c / (21 * 28))) CHO "" +:+ nth (Z.to_nat ((c mod (21 * 28)) / 28)) JUNG ""
  +:+ nth (Z.to_nat (c mod 28)) JONG "".

Definition hasHangul (s : text) : bool := existsb isHangulSyllable s.

Definition cartesian (arrs : list (list string)) : list (list string) :=
  match arrs with
  | [] => [[]]
  | _ => fold_left (λ acc cur, flat_map (λ a, map (λ c, a ++ [c]) cur) acc) (take 4 arrs) [[]]
  end.

Definition romanizeVariants (name : text) : list string :=
  let chars := filter (λ c, isHangulSyllable c = true) (filter (λ c, isWhite c = false) name) in
  match chars with
  | [] => []
  | surname :: given =>
      let surnameForms := unique (syllableRR surname :: variantsOf SURNAME_VARIANTS surname ++ variantsOf DPRK_VARIANTS surname) in
      let rr := map syllableRR given in
      let joins l := [String.concat "" l; String.concat " " l; String.concat "-" l] in
      let givenForms :=
        if bool_decide (given = []) then []
        else unique (joins rr ++ flat_map joins (cartesian (map (λ g, syllableRR g :: variantsOf DPRK_VARIANTS g) given))) in
      unique (flat_map (λ s, if bool_decide (givenForms = []) then [s]
                             else flat_map (λ g, [s +:+ " " +:+ g; g +:+ " " +:+ s]) givenForms) surnameForms
              ++ [String.concat "" (map syllableRR chars)])
  end.

Example roman_1 : take 4 (romanizeVariants [0xAE40; 0xC815; 0xC740]) = ["gim jeongeun"; "jeongeun gim"; "gim jeong eun"; "jeong eun gim"]
  ∧ "kim jong un" ∈ romanizeVariants [0xAE40; 0xC815; 0xC740].
Proof. split; [by vm_compute|]. apply list_elem_of_In. vm_compute. tauto. Qed.
End Romanize.

Module Compare.

Inductive DobComparison := DobMatch | DobYearMatch | DobConflict | DobMissing | DobInvalid.
Inductive CountryComparison := CMatch | CConflict | CMissing | CInvalid.
#[export] Instance DobComparison_eq_dec : EqDecision DobComparison.
Proof. solve_decision. Defined.
#[export] Instance CountryComparison_eq_dec : EqDecision CountryComparison.
Proof. solve_decision. Defined.
Record IdentityComparison := mkComparison { c_dob : DobComparison; c_nationality : CountryComparison }.

Inductive Precision := Day | Year.
#[export] Instance Precision_eq_dec : EqDecision Precision.
Proof. solve_decision. Defined.

Definition number (s : string) : Z :=
  fold_left (λ acc c, acc * 10 + (Z.of_nat (nat_of_ascii c) - 48)) (list_ascii_of_string s) 0.

(** The day count of a date whose month may lie outside the year, as [Date.UTC] takes it. *)
Definition makeDay (year month day : Z) : Z :=
  let y := year + month / 12 in let m := month mod 12 + 1 in
  let y' := if m <=? 2 then y - 1 else y in
  let era := y' / 400 in let yoe := y' mod 400 in
  let doy := (153 * (if m <=? 2 then m + 9 else m - 3) + 2) / 5 in
  era * 146097 + yoe * 365 + yoe / 4 - yoe / 100 + doy - 719468 + (day - 1).

Definition leadingYear (value : string) : bool :=
  match value with String c _ => isDigit c && negb (Ascii.eqb c "0") | "" => false end.

Definition precision (value : string) : option Precision :=
  if leadingYear value && digits 4 value then Some Year
  else if leadingYear value && Normalize.isoDate value then
    let year := number (slice 0 4 value) in let month := number (slice 5 7 value) in let day := number (slice 8 10 value) in
    if bool_decide (civil (makeDay year (month - 1) day) = (year, month, day)) then Some Day else None
  else None.

Example precision_1 : precision "2000-02-29" = Some Day ∧ precision "1900-02-29" = None ∧ precision "1990-13-01" = None
  ∧ precision "1990" = Some Year ∧ precision "0990" = None.
Proof. by vm_compute. Qed.

Definition compareDob (subject : option string) (listed : list string) : DobComparison :=
  if negb (truthy subject) then DobMissing
  else
    let subject := default "" subject in
    match precision subject with
    | None => DobInvalid
    | Some p =>
        if bool_decide (listed = []) then DobMissing
        else
          let valid := filter (λ v, precision v ≠ None) listed in
          if bool_decide (valid = []) then DobInvalid
          else if bool_decide (p = Day) && existsb (λ v, bool_decide (precision v = Some Day) && String.eqb v subject) valid then DobMatch
          else if existsb (λ v, String.eqb (slice 0 4 v) (slice 0 4 subject)
                                && (bool_decide (p = Year) || bool_decide (precision v = Some Year))) valid then DobYearMatch
          else DobConflict
    end.

Definition isIso2 (s : string) : bool :=
  (String.length s =? 2)%nat && allChars (λ c, isAlnum c && negb (isDigit c) && Ascii.eqb (upper_ascii c) c) s.

Definition compareIdentity (dob : option string) (nationality : string) (listedDobs listedCountries : list string) : IdentityComparison :=
  mkComparison (compareDob dob listedDobs)
    (if String.eqb nationality "" || bool_decide (listedCountries = []) then CMissing
     else if negb (isIso2 nationality) || negb (existsb isIso2 listedCountries) then CInvalid
     else if Identity.includes listedCountries nationality then CMatch else CConflict).

Definition identityConflicts (c : IdentityComparison) : bool :=
  bool_decide (c_dob c = DobConflict) || bool_decide (c_nationality c = CConflict).
Definition identityUnusable (c : IdentityComparison) : bool :=
  bool_decide (c_dob c = DobInvalid) || bool_decide (c_nationality c = CInvalid).
End Compare.

Module Jurisdiction.
Import Compare.

Record JurisdictionTable := mkTable {
  j_v : Z; snapshotId : string; source : string; callForActionUrl : string; increasedMonitoringUrl : string;
  asOf : string; verifiedAt : string; j_verified : bool; callForAction : list string; increasedMonitoring : list string }.

Definition callUrl : string := "https://www.fatf-gafi.org/en/publications/High-risk-and-other-monitored-jurisdictions/call-for-action-june-2026.html".
Definition monitorUrl : string := "https://www.fatf-gafi.org/en/publications/High-risk-and-other-monitored-jurisdictions/increased-monitoring-june-2026.html".

Definition body (id : string) : JurisdictionTable :=
  mkTable 1 id monitorUrl callUrl monitorUrl "2026-06-19" "2026-09-07T15:00:00.000Z" true ["KP"; "IR"; "MM"]
    ["AO";"BO";"BA";"BG";"CM";"CI";"CD";"HT";"IQ";"KE";"KW";"LA";"LB";"MC";"NP";"PG";"SS";"SY";"VE";"VN";"VG";"YE"].

(** [JSON.stringify(canonical(content))]: the fields in the order [localeCompare] gives. *)
Definition tableText (t : JurisdictionTable) : string :=
  default "" (stringify (JObj [("asOf", JStr (asOf t)); ("callForAction", JArr (map JStr (callForAction t)));
    ("increasedMonitoring", JArr (map JStr (increasedMonitoring t))); ("source", JStr (source t));
    ("sources", JObj [("callForAction", JStr (callForActionUrl t)); ("increasedMonitoring", JStr (increasedMonitoringUrl t))]);
    ("v", JNum (j_v t)); ("verified", JBool (j_verified t)); ("verifiedAt", JStr (verifiedAt t))])).

(** The instant a canonical UTC text denotes: every other text fails the round trip below. *)
Definition parseInstant (s : string) : Z :=
  makeDay (number (slice 0 4 s)) (number (slice 5 7 s) - 1) (number (slice 8 10 s)) * 86400000
  + number (slice 11 13 s) * 3600000 + number (slice 14 16 s) * 60000 + number (slice 17 19 s) * 1000 + number (slice 20 23 s).

Example parseInstant_1 : parseInstant "2026-09-07T15:00:00.000Z" = 1788793200000 ∧ isoString 1788793200000 = "2026-09-07T15:00:00.000Z".
Proof. by vm_compute. Qed.

Section jurisdiction.
(** SHA-256 of a text, in hexadecimal. *)
Context (sha256 : string → string).

Definition jurisdictionTableId (t : JurisdictionTable) : string := sha256 (tableText t).
Definition FATF : JurisdictionTable := body (jurisdictionTableId (body "")).

Definition MAX_FATF_AGE_DAYS : Z := 180.

(** [now] and [maxAgeDays] are finite numbers here, the latter a whole number of days. *)
Definition assertJurisdictionTable (value : JurisdictionTable) (now maxAgeDays : Z) : outcome unit :=
  let observed := parseInstant (verifiedAt value) in
  let iso codes := negb (bool_decide (codes = [])) && forallb isIso2 codes in
  orequire
    ((0 <? maxAgeDays) && (maxAgeDays <=? MAX_FATF_AGE_DAYS) && (j_v value =? 1) && j_verified value
     && String.eqb (snapshotId value) (jurisdictionTableId value) && String.eqb (asOf value) "2026-06-19"
     && String.eqb (isoString observed) (verifiedAt value) && (observed <=? now)
     && (now - observed <=? maxAgeDays * 86400000)
     && String.eqb (callForActionUrl value) callUrl && String.eqb (increasedMonitoringUrl value) monitorUrl
     && String.eqb (source value) (increasedMonitoringUrl value) && iso (callForAction value) && iso (increasedMonitoring value)
     && bool_decide (NoDup (callForAction value)) && bool_decide (NoDup (increasedMonitoring value))
     && negb (existsb (Identity.includes (increasedMonitoring value)) (callForAction value)))
    (EError "FATF_JURISDICTION_TABLE_INVALID_OR_STALE").

Definition jurisdictionRisk (now maxAgeDays : Z) (iso2 : string) : outcome (Z * string) :=
  let? _ := assertJurisdictionTable FATF now maxAgeDays in
  let c := toUpperCase iso2 in
  if Identity.includes (callForAction FATF) c then Ok (2, "FATF call-for-action jurisdiction")
  else if Identity.includes (increasedMonitoring FATF) c then Ok (1, "FATF increased-monitoring jurisdiction")
  else Ok (0, "").
End jurisdiction.
End Jurisdiction.
