(* ===== verification/Match.v ===== *)
(** The matcher of the screening engine: scores over token lists (Module Scores: [nameScore] of
    [src/aml/match.ts], [editNameScore] and [missingTokenNameScore] of [edit-distance.ts]) and the
    blocking index with its queries (Module Match: [match.ts]).  Every name with a token the edit
    verifier accepts is scored, and every listed wallet is found.  Maps and sets keep insertion
    order; the hits a map shares with the result list are indices into it; Unicode functions are
    parameters. *)

From Stdlib Require Import ZArith Lia Ascii String.
From stdpp Require Import base decidable option list strings pretty sets.
From S2P Require Import Prelude JS Json Identity Edit Float Names.
Local Open Scope string_scope.
Local Open Scope list_scope.
Local Open Scope Z_scope.
Local Open Scope js_scope.

(** * Ordered maps and sets with any keys *)

Section omap.
Context {K V : Type} `{EqDecision K}.

Fixpoint mget (k : K) (m : list (K * V)) : option V :=
  match m with [] => None | (k', v) :: m => if decide (k = k') then Some v else mget k m end.
Fixpoint mset (k : K) (v : V) (m : list (K * V)) : list (K * V) :=
  match m with
  | [] => [(k, v)]
  | (k', v') :: m => if decide (k = k') then (k', v) :: m else (k', v') :: mset k v m
  end.

Lemma mget_mset k k' v m : mget k (mset k' v m) = if decide (k = k') then Some v else mget k m.
Proof.
  induction m as [|[k0 v0] m IH]; simpl; [done|].
  destruct (decide (k' = k0)) as [->|Hne]; simpl; [by destruct (decide (k = k0))|].
  rewrite IH. destruct (decide (k = k0)) as [->|]; [|done]. by rewrite decide_False.
Qed.
End omap.

Definition setAdd {A} `{EqDecision A} (x : A) (s : list A) : list A := if decide (x ∈ s) then s else s ++ [x].

Lemma elem_of_setAdd {A} `{EqDecision A} (x y : A) s : x ∈ setAdd y s ↔ x = y ∨ x ∈ s.
Proof. unfold setAdd. destruct (decide (y ∈ s)); set_solver. Qed.

(** [let l = m.get(k); if (!l) { l = []; m.set(k, l); } l.push(v)]. *)
Definition mpush {K V} `{EqDecision K} (k : K) (v : V) (m : list (K * list V)) : list (K * list V) :=
  mset k (default [] (mget k m) ++ [v]) m.

Module Scores.
Import Edit.

(** UTF-16 code units, which strings are compared by. *)
Definition utf16 (s : text) : list Z :=
  flat_map (λ c, if c <? 0x10000 then [c] else [0xd800 + (c - 0x10000) / 1024; 0xdc00 + (c - 0x10000) mod 1024]) s.
Fixpoint lexZ (a b : list Z) : comparison :=
  match a, b with
  | [], [] => Eq | [], _ => Lt | _, [] => Gt
  | x :: a, y :: b => match (x ?= y) with Eq => lexZ a b | c => c end
  end.
Definition compareText (a b : text) : comparison := lexZ (utf16 a) (utf16 b).

Section scores.
Context (nfc : text → text).

Record Pair := mkPair { p_i : nat; p_j : nat; p_score : f64 }.

(** The order of [pairs.sort]. *)
Definition pair_leb (a b : list text) (x y : Pair) : bool :=
  let d := fsub (p_score y) (p_score x) in
  if fltb d f0 then true else if fltb f0 d then false
  else match compareText (nth (p_i x) a []) (nth (p_i y) a []) with
       | Lt => true | Gt => false
       | Eq => match compareText (nth (p_j x) b []) (nth (p_j y) b []) with Gt => false | _ => true end
       end.

Definition indexOfText (x : text) (l : list text) : option nat := fst <$> list_find (λ y, y = x) l.

Definition tokenScore (x y : text) : f64 :=
  fsub f1 (fdiv (fofNat (boundedEditDistance nfc x y 2)) (fofNat (max (length (codePoints nfc x)) (length (codePoints nfc y))))).

(** Exact pairs: the used indices on both sides and the score. *)
Definition exactPairs (a b : list text) : list nat * list nat * f64 :=
  fold_left (λ '(usedA, usedB, score) i,
    match indexOfText (nth i a []) b with
    | Some j => (setAdd i usedA, setAdd j usedB, fadd score f1)
    | None => (usedA, usedB, score)
    end) (seq 0 (length a)) ([], [], f0).

Definition editPairs (a b : list text) (usedA usedB : list nat) : list Pair :=
  flat_map (λ i, if decide (i ∈ usedA) then [] else
    flat_map (λ j, if decide (j ∈ usedB) then [] else
      if withinSupportedEdits nfc (nth i a []) (nth j b []) then [mkPair i j (tokenScore (nth i a []) (nth j b []))] else [])
      (seq 0 (length b))) (seq 0 (length a)).

Fixpoint greedy (pairs : list Pair) (usedA usedB : list nat) (score : f64) : f64 :=
  match pairs with
  | [] => score
  | p :: pairs =>
      if decide (p_i p ∈ usedA) then greedy pairs usedA usedB score
      else if decide (p_j p ∈ usedB) then greedy pairs usedA usedB score
      else greedy pairs (setAdd (p_i p) usedA) (setAdd (p_j p) usedB) (fadd score (p_score p))
  end.

Definition editNameScore (left right : list text) : f64 :=
  let a := unique left in let b := unique right in
  if (length a =? 0)%nat || (length b =? 0)%nat then f0
  else
    let '(usedA, usedB, score) := exactPairs a b in
    let pairs := sort_by (pair_leb a b) (editPairs a b usedA usedB) in
    fdiv (greedy pairs usedA usedB score) (fofNat (max (length a) (length b))).

(** The best unused token of [large], and its score. *)
Definition bestUnused (token : text) (large : list text) (used : list nat) : option (nat * f64) :=
  fold_left (λ best j,
    if decide (j ∈ used) then best
    else if withinSupportedEdits nfc token (nth j large []) then
      let score := tokenScore token (nth j large []) in
      if fltb (match best with Some (_, s) => s | None => fofZ (-1) end) score then Some (j, score) else best
    else best) (seq 0 (length large)) None.

Fixpoint missingFrom (small large : list text) (used : list nat) (similarity : f64) : option f64 :=
  match small with
  | [] => Some similarity
  | token :: small =>
      match bestUnused token large used with
      | None => None
      | Some (best, score) => missingFrom small large (setAdd best used) (fadd similarity score)
      end
  end.

Definition missingTokenNameScore (left right : list text) : f64 :=
  let a := unique left in let b := unique right in
  if negb ((length a - length b) + (length b - length a) =? 1)%nat || (min (length a) (length b) <? 2)%nat then f0
  else
    let small := if (length a <? length b)%nat then a else b in
    let large := if (length a <? length b)%nat then b else a in
    match missingFrom small large [] f0 with
    | None => f0
    | Some similarity => fmul (fdec 82 100) (fdiv similarity (fofNat (length small)))
    end.
End scores.

Definition nameScore (a b : list text) : f64 :=
  let A := unique a in let B := unique b in
  let inter := length (filter (λ t, t ∈ B) A) in
  if (inter =? 0)%nat then f0
  else
    let jac := fdiv (fofNat inter) (fofNat (length A + length B - inter)) in
    let small := min (length A) (length B) in
    if (small <? 3)%nat then jac
    else
      let contain := fmul (fdiv (fofNat inter) (fofNat small)) (fdec 95 100) in
      let ratio := fdiv (fofNat small) (fofNat (max (length A) (length B))) in
      fmax jac (fmul contain (fadd (fdec 6 10) (fmul (fdec 4 10) ratio))).

Example scores_1 :
  nameScore [textOf "kim"; textOf "jong"; textOf "un"] [textOf "un"; textOf "kim"; textOf "jong"] = f1
  ∧ editNameScore (λ s, s) [textOf "smith"; textOf "john"] [textOf "john"; textOf "smyth"] = fdec 9 10
  ∧ missingTokenNameScore (λ s, s) [textOf "john"; textOf "smith"] [textOf "john"; textOf "allen"; textOf "smith"] = fdec 82 100.
Proof. by vm_compute. Qed.
End Scores.

Module Match.
Import Edit Scores Compare.

Definition AmlMatchCapacityError (boundary : string) : exn := EAmlCapacity boundary.

Record MatchLimits := mkLimits {
  maxIndexNames : Z; maxIndexTokenPostings : Z; maxIndexGramPostings : Z; maxQueryTokens : Z;
  maxQueryTokenPostings : Z; maxVocabularyCandidates : Z; maxCandidateNames : Z }.
Definition DEFAULT_MATCH_LIMITS : MatchLimits := mkLimits 250000 1500000 3000000 64 300000 100000 100000.

(** The overrides by name, later than the defaults. *)
Definition limitsOf (overrides : list (string * Z)) : outcome MatchLimits :=
  let over k d := default d (dget k overrides) in
  let D := DEFAULT_MATCH_LIMITS in
  let l := mkLimits (over "maxIndexNames" (maxIndexNames D)) (over "maxIndexTokenPostings" (maxIndexTokenPostings D))
    (over "maxIndexGramPostings" (maxIndexGramPostings D)) (over "maxQueryTokens" (maxQueryTokens D))
    (over "maxQueryTokenPostings" (maxQueryTokenPostings D)) (over "maxVocabularyCandidates" (maxVocabularyCandidates D))
    (over "maxCandidateNames" (maxCandidateNames D)) in
  let bad k v := if isSafeInteger v && (1 <=? v) then Ok tt else Throw (EError ("invalid AML match limit: " +:+ k)) in
  let? _ := bad "maxIndexNames" (maxIndexNames l) in
  let? _ := bad "maxIndexTokenPostings" (maxIndexTokenPostings l) in
  let? _ := bad "maxIndexGramPostings" (maxIndexGramPostings l) in
  let? _ := bad "maxQueryTokens" (maxQueryTokens l) in
  let? _ := bad "maxQueryTokenPostings" (maxQueryTokenPostings l) in
  let? _ := bad "maxVocabularyCandidates" (maxVocabularyCandidates l) in
  let? _ := bad "maxCandidateNames" (maxCandidateNames l) in
  Ok l.

Record SanctionEntry := mkEntry {
  listId : string; entryId : string; primaryName : text; names : list text; dobs : list string; countries : list string;
  programs : list string; cryptoAddresses : list string; e_type : string }.

Record IndexedName := mkName { entryIdx : nat; norm : text; tokens : list text; isAlias : bool }.

Record Corpus := mkCorpus {
  entries : list SanctionEntry; c_names : list IndexedName; byToken : list (text * list nat);
  byDeletion : list (text * list text); byGram : list (text * list text); limits : MatchLimits;
  byWallet : list (string * nat) }.

Inductive MatchType := Exact | Fuzzy | Alias | Romanized | Wallet.
#[export] Instance MatchType_eq_dec : EqDecision MatchType.
Proof. solve_decision. Defined.

Record Candidate := mkCandidate { cd_entry : nat; cd_matchedName : text; cd_score : f64; cd_type : MatchType }.

(** [throw new AmlMatchCapacityError(what)] when the count exceeds the limit. *)
Definition capacity (n : nat) (max : Z) (what : string) : outcome unit :=
  orequire (Z.of_nat n <=? max) (AmlMatchCapacityError what).

Section match_.
Context (nfc nfd toLower : text → text) (isLetterOrNumber : Z → bool).

Definition normalizeName : text → text := Normalize.normalizeName toLower nfd isLetterOrNumber.
Definition nameTokens (raw : text) : list text := Normalize.contentTokens (Normalize.tokenize (normalizeName raw)).

(** ** The index *)

Record Building := mkBuilding { b_names : list IndexedName; b_byToken : list (text * list nat); b_postings : nat }.

Fixpoint postTokens (max : Z) (idx : nat) (toks : list text) (b : Building) : outcome Building :=
  match toks with
  | [] => Ok b
  | t :: toks =>
      let b := mkBuilding (b_names b) (mpush t idx (b_byToken b)) (S (b_postings b)) in
      let? _ := capacity (b_postings b) max "index token postings" in
      postTokens max idx toks b
  end.

Definition indexName (l : MatchLimits) (ei ni : nat) (raw : text) (b : Building) : outcome Building :=
  let norm := normalizeName raw in
  let toks := Normalize.contentTokens (Normalize.tokenize norm) in
  if bool_decide (norm = []) || bool_decide (toks = []) then Ok b
  else
    let idx := length (b_names b) in
    let b := mkBuilding (b_names b ++ [mkName ei norm toks (0 <? ni)%nat]) (b_byToken b) (b_postings b) in
    let? _ := capacity (length (b_names b)) (maxIndexNames l) "index names" in
    postTokens (maxIndexTokenPostings l) idx (unique toks) b.

Fixpoint indexNames (l : MatchLimits) (ei ni : nat) (raws : list text) (b : Building) : outcome Building :=
  match raws with
  | [] => Ok b
  | raw :: raws => let? b := indexName l ei ni raw b in indexNames l ei (S ni) raws b
  end.

Definition indexWallets (ei : nat) (addresses : list string) (w : list (string * nat)) : list (string * nat) :=
  fold_left (λ w a, if isAddress20 a then dset (toLowerCase a) ei w else w) addresses w.

Fixpoint indexEntries (l : MatchLimits) (ei : nat) (es : list SanctionEntry) (w : list (string * nat)) (b : Building)
  : outcome (list (string * nat) * Building) :=
  match es with
  | [] => Ok (w, b)
  | e :: es =>
      let? b := indexNames l ei 0 (names e) b in
      indexEntries l (S ei) es (indexWallets ei (cryptoAddresses e) w) b
  end.

(** [for (token of tokens) for (key of keysOf(token)) push(key, token)]. *)
Definition invertIndex (keysOf : text → list text) (toks : list text) : list (text * list text) :=
  fold_left (λ m token, fold_left (λ m key, mpush key token m) (keysOf token) m) toks [].

Definition buildCorpus (es : list SanctionEntry) (overrides : list (string * Z)) : outcome Corpus :=
  let? l := limitsOf overrides in
  let? wb := indexEntries l 0 es [] (mkBuilding [] [] 0) in
  let w := wb.1 in let b := wb.2 in
  let toks := map fst (b_byToken b) in
  let? _ := capacity (length (concat (map (editGrams nfc) toks))) (maxIndexGramPostings l) "index gram postings" in
  Ok (mkCorpus es (b_names b) (b_byToken b) (invertIndex (deletionKeys nfc) toks) (invertIndex (editGrams nfc) toks) l w).

(** ** Queries *)

Section query.
Context (corpus : Corpus).

(** Tokens within one edit, by a common deletion key: the visits so far and the matching tokens. *)
Fixpoint visitNear (token : text) (nears : list text) (st : nat * list text) : outcome (nat * list text) :=
  match nears with
  | [] => Ok st
  | near :: nears =>
      let? _ := capacity (S st.1) (maxQueryTokenPostings (limits corpus)) "query token postings" in
      visitNear token nears (S st.1, if withinOneEdit nfc token near then setAdd near st.2 else st.2)
  end.
Fixpoint visitKeys (token : text) (keys : list text) (st : nat * list text) : outcome (nat * list text) :=
  match keys with
  | [] => Ok st
  | key :: keys => let? st := visitNear token (default [] (mget key (byDeletion corpus))) st in visitKeys token keys st
  end.

(** The vocabulary of a common bigram. *)
Fixpoint visitGram (nears : list text) (st : nat * list text) : outcome (nat * list text) :=
  match nears with
  | [] => Ok st
  | near :: nears =>
      let? _ := capacity (S st.1) (maxQueryTokenPostings (limits corpus)) "query token postings" in
      let vocabulary := setAdd near st.2 in
      let? _ := capacity (length vocabulary) (maxVocabularyCandidates (limits corpus)) "query vocabulary candidates" in
      visitGram nears (S st.1, vocabulary)
  end.
Fixpoint visitGrams (grams : list text) (st : nat * list text) : outcome (nat * list text) :=
  match grams with
  | [] => Ok st
  | gram :: grams => let? st := visitGram (default [] (mget gram (byGram corpus))) st in visitGrams grams st
  end.

Definition expandToken (token : text) (st : nat * list text) : outcome (nat * list text) :=
  let? st := visitKeys token (deletionKeys nfc token) st in
  let? v := visitGrams (editGrams nfc token) (st.1, []) in
  Ok (v.1, fold_left (λ m near, if withinSupportedEdits nfc token near then setAdd near m else m) v.2 st.2).

Fixpoint expandTokens (toks : list text) (st : nat * list text) : outcome (nat * list text) :=
  match toks with
  | [] => Ok st
  | t :: toks => let? st := expandToken t st in expandTokens toks st
  end.

Fixpoint addNames (l : list nat) (cands : list nat) : outcome (list nat) :=
  match l with
  | [] => Ok cands
  | ni :: l =>
      let cands := setAdd ni cands in
      let? _ := capacity (length cands) (maxCandidateNames (limits corpus)) "query candidate names" in
      addNames l cands
  end.
Fixpoint collectNames (toks : list text) (visits : nat) (cands : list nat) : outcome (list nat) :=
  match toks with
  | [] => Ok cands
  | t :: toks =>
      match mget t (byToken corpus) with
      | None => collectNames toks visits cands
      | Some l =>
          let visits := (visits + length l)%nat in
          let? _ := capacity visits (maxQueryTokenPostings (limits corpus)) "query token postings" in
          let? cands := addNames l cands in
          collectNames toks visits cands
      end
  end.

(** The names that will be scored. *)
Definition candidateNames (toks : list text) (type : MatchType) : outcome (list nat) :=
  let? _ := capacity (length toks) (maxQueryTokens (limits corpus)) "query tokens" in
  let? st := (if decide (type = Romanized) then Ok (0%nat, unique toks) else expandTokens (unique toks) (0%nat, unique toks)) in
  collectNames st.2 st.1 [].

Definition scoreName (toks : list text) (type : MatchType) (n : IndexedName) : f64 :=
  fmax (fmax (nameScore toks (tokens n)) (if decide (type = Romanized) then f0 else editNameScore nfc toks (tokens n)))
       (if decide (type = Romanized) then f0 else missingTokenNameScore nfc toks (tokens n)).

Definition scoreCandidate (toks : list text) (type : MatchType) (minScore : f64) (best : list (nat * Candidate)) (ni : nat)
  : list (nat * Candidate) :=
  match c_names corpus !! ni with
  | None => best
  | Some n =>
      let s := scoreName toks type n in
      if fltb s minScore then best
      else
        let fresh := mset (entryIdx n)
          (mkCandidate (entryIdx n) (norm n) s (if isAlias n && bool_decide (type = Fuzzy) then Alias else type)) best in
        match mget (entryIdx n) best with
        | Some prev => if fgtb s (cd_score prev) then fresh else best
        | None => fresh
        end
  end.

(** [x.score] before [y.score]. *)
Definition score_leb (x y : f64) : bool := negb (fltb f0 (fsub y x)).

Definition candidatesFor (toks : list text) (type : MatchType) (minScore : f64) : outcome (list Candidate) :=
  let? cands := candidateNames toks type in
  Ok (sort_by (λ x y, score_leb (cd_score x) (cd_score y))
        (map snd (fold_left (scoreCandidate toks type minScore) cands []))).
End query.

(** ** Screening a subject *)

Record ScreeningHit := mkHit {
  h_listId : string; h_listVersion : Z; h_entryId : string; h_matchedName : text; h_score : f64; h_matchType : MatchType;
  h_corroborated : bool; h_corroboration : list string; h_identity : option Compare.IdentityComparison;
  h_direct : option f64; h_inferred : option f64 }.

Record MatchInput := mkMatchInput {
  m_fullName : text; m_romanizedName : option text; m_dob : option string; m_nationality : string; m_wallet : string }.

(** The hits, and the map from entry keys to them. *)
Record Hits := mkHits { hits : list ScreeningHit; byEntry : list (string * nat) }.

Definition entryKey (e : SanctionEntry) : string := listId e +:+ ":" +:+ entryId e.

Definition corroborationOf (c : Compare.IdentityComparison) : list string :=
  (if bool_decide (Compare.c_dob c = Compare.DobMatch) || bool_decide (Compare.c_dob c = Compare.DobYearMatch) then ["dob"] else [])
  ++ (if bool_decide (Compare.c_nationality c = Compare.CMatch) then ["nationality"] else []).

(** [Math.max(x ?? 0, s)]. *)
Definition maxWith (x : option f64) (s : f64) : option f64 := Some (fmax (default f0 x) s).

Definition raiseHit (prev : ScreeningHit) (c : Candidate) (type : MatchType) : ScreeningHit :=
  if decide (h_matchType prev = Wallet) then prev
  else
    let direct := if decide (type = Romanized) then h_direct prev else maxWith (h_direct prev) (cd_score c) in
    let inferred := if decide (type = Romanized) then maxWith (h_inferred prev) (cd_score c) else h_inferred prev in
    let up := fgtb (cd_score c) (h_score prev) in
    mkHit (h_listId prev) (h_listVersion prev) (h_entryId prev) (if up then cd_matchedName c else h_matchedName prev)
      (if up then cd_score c else h_score prev) (if up then type else h_matchType prev)
      (h_corroborated prev) (h_corroboration prev) (h_identity prev) direct inferred.

Section screen.
Context (corpus : Corpus) (input : MatchInput).

Definition push (c : Candidate) (type : MatchType) (h : Hits) : Hits :=
  match entries corpus !! cd_entry c with
  | None => h
  | Some e =>
      let cmp := Compare.compareIdentity (m_dob input) (m_nationality input) (dobs e) (countries e) in
      let corro := corroborationOf cmp in
      let corroborated := negb (bool_decide (corro = [])) && negb (Compare.identityConflicts cmp) && negb (Compare.identityUnusable cmp) in
      match dget (entryKey e) (byEntry h) with
      | Some i => mkHits (alter (λ prev, raiseHit prev c type) i (hits h)) (byEntry h)
      | None =>
          mkHits (hits h ++ [mkHit (listId e) 0 (entryId e) (cd_matchedName c) (roundFixed3 (cd_score c)) type corroborated corro (Some cmp)
                               (if decide (type = Romanized) then None else Some (cd_score c))
                               (if decide (type = Romanized) then Some (cd_score c) else None)])
            (dset (entryKey e) (length (hits h)) (byEntry h))
      end
  end.

(** 1. The wallet. *)
Definition isLowerAddress (s : string) : bool := hexString isLowerHex 40 s.
Definition walletHits : Hits :=
  let w := toLowerCase (m_wallet input) in
  if isLowerAddress w then
    match dget w (byWallet corpus) with
    | Some ei =>
        match entries corpus !! ei with
        | Some e => mkHits [mkHit (listId e) 0 (entryId e) (primaryName e) f1 Wallet true ["wallet"] None None None]
                      (dset (entryKey e +:+ ":wallet") 0%nat [])
        | None => mkHits [] []
        end
    | None => mkHits [] []
    end
  else mkHits [] [].

Definition pushAll (typeOf : Candidate → MatchType) (cands : list Candidate) (h : Hits) : Hits :=
  fold_left (λ h c, push c (typeOf c) h) cands h.

Definition directType (c : Candidate) : MatchType := if fgeb (cd_score c) (fdec 999 1000) then Exact else cd_type c.

(** 2. The name as written, and the romanisation supplied with it. *)
Fixpoint directHits (supplied : list text) (h : Hits) : outcome Hits :=
  match supplied with
  | [] => Ok h
  | s :: supplied =>
      let toks := nameTokens s in
      if bool_decide (toks = []) then directHits supplied h
      else let? cands := candidatesFor corpus toks Fuzzy (fdec 72 100) in directHits supplied (pushAll directType cands h)
  end.

(** 3. The romanisations inferred from a Hangul name. *)
Fixpoint inferredHits (variants : list text) (h : Hits) : outcome Hits :=
  match variants with
  | [] => Ok h
  | v :: variants =>
      let toks := nameTokens v in
      if bool_decide (toks = []) then inferredHits variants h
      else let? cands := candidatesFor corpus toks Romanized (fdec 85 100) in inferredHits variants (pushAll (λ _, Romanized) cands h)
  end.

Definition suppliedNames : list text :=
  unique (filter (λ t, t ≠ []) (m_fullName input :: match m_romanizedName input with Some r => [r] | None => [] end)).

Definition screenNames : outcome (list ScreeningHit) :=
  let? h := directHits suppliedNames walletHits in
  let? h := (if Romanize.hasHangul (m_fullName input) then inferredHits (map textOf (Romanize.romanizeVariants (m_fullName input))) h
             else Ok h) in
  Ok (sort_by (λ x y, score_leb (h_score x) (h_score y)) (hits h)).
End screen.

(** * The index is complete *)

Section complete.

(** [v] is among the values posted under [k]. *)
Definition Posted {K V} `{EqDecision K} (k : K) (v : V) (m : list (K * list V)) : Prop := ∃ l, mget k m = Some l ∧ v ∈ l.

Lemma mpush_Posted {K V} `{EqDecision K} (k k' : K) (v v' : V) m : Posted k v m ∨ (k = k' ∧ v = v') → Posted k v (mpush k' v' m).
Proof.
  unfold Posted, mpush. rewrite mget_mset. intros [(l & Hl & Hv)|[-> ->]].
  - destruct (decide (k = k')) as [->|]; [|by exists l]. exists (l ++ [v']). rewrite Hl. split; [done|set_solver].
  - rewrite decide_True by done. eexists. split; [done|set_solver].
Qed.

Lemma mget_elem {K V} `{EqDecision K} (k : K) (v : V) m : mget k m = Some v → k ∈ map fst m.
Proof.
  induction m as [|[k' v'] m IH]; simpl; [done|]. destruct (decide (k = k')) as [->|]; [left|right; auto].
Qed.

Lemma inner_Posted (keysOf : text → list text) toks (m : list (text * list text)) key near :
  Posted key near m ∨ (near ∈ toks ∧ key ∈ keysOf near) →
  Posted key near (fold_left (λ m token, fold_left (λ m k, mpush k token m) (keysOf token) m) toks m).
Proof.
  revert m. induction toks as [|t toks IH]; intros m H; simpl.
  - destruct H as [|[H _]]; [done|]. by apply elem_of_nil in H.
  - apply IH. assert (∀ ks m, Posted key near m ∨ (t = near ∧ key ∈ ks) → Posted key near (fold_left (λ m k, mpush k t m) ks m)) as Hin.
    { clear. induction ks as [|k ks IH]; intros m H; simpl.
      - destruct H as [|[_ H]]; [done|]. by apply elem_of_nil in H.
      - apply IH. destruct H as [H|[-> H]]; [left; apply mpush_Posted; by left|].
        apply elem_of_cons in H as [->|H]; [left; apply mpush_Posted; by right|by right]. }
    destruct H as [H|[H Hk]]; [left; apply Hin; by left|]. apply elem_of_cons in H as [->|H]; [left; apply Hin; by right|by right].
Qed.

Lemma invertIndex_complete (keysOf : text → list text) toks key near : near ∈ toks → key ∈ keysOf near → Posted key near (invertIndex keysOf toks).
Proof. intros H Hk. apply inner_Posted. by right. Qed.

(** Every token of an indexed name is posted with the name. *)
Definition Indexed (b : Building) : Prop :=
  ∀ ni n t, b_names b !! ni = Some n → t ∈ tokens n → Posted t ni (b_byToken b).

Lemma postTokens_Posted max idx toks b b' : postTokens max idx toks b = Ok b' →
  b_names b' = b_names b ∧ ∀ t ni, Posted t ni (b_byToken b) ∨ (ni = idx ∧ t ∈ toks) → Posted t ni (b_byToken b').
Proof.
  revert b. induction toks as [|t toks IH]; intros b H; cbn [postTokens] in H.
  - injection H as <-. split; [done|]. intros t ni [|[_ H]]; [done|]. by apply elem_of_nil in H.
  - apply obind_ok in H as (? & _ & H). apply IH in H as [En HP]. split; [exact En|]. intros t' ni Ht. apply HP. cbn [b_byToken].
    destruct Ht as [Ht|[-> Ht]]; [left; apply mpush_Posted; by left|].
    apply elem_of_cons in Ht as [->|Ht]; [left; apply mpush_Posted; by right|by right].
Qed.

Lemma indexName_Indexed l ei ni raw b b' : Indexed b → indexName l ei ni raw b = Ok b' → Indexed b'.
Proof.
  intros HI. unfold indexName. destruct (_ || _); [by intros [= <-]|]. intros (? & _ & H)%obind_ok.
  apply postTokens_Posted in H as [En HP]. cbn [b_names b_byToken] in *. intros ni' n t Hn Ht. rewrite En in Hn. apply HP.
  destruct (decide (ni' < length (b_names b))%nat) as [Hlt|Hge].
  - left. rewrite lookup_app_l in Hn by done. by eapply HI.
  - right. rewrite lookup_app_r in Hn by lia. destruct (ni' - length (b_names b))%nat eqn:E; [|done]. injection Hn as <-.
    split; [lia|]. by apply elem_of_unique.
Qed.

Lemma indexNames_Indexed l ei ni raws b b' : Indexed b → indexNames l ei ni raws b = Ok b' → Indexed b'.
Proof.
  revert ni b. induction raws as [|raw raws IH]; intros ni b HI H; cbn [indexNames] in H; [by injection H as <-|].
  apply obind_ok in H as (b1 & H1 & H). eapply IH; [|exact H]. by eapply indexName_Indexed.
Qed.

Lemma indexEntries_Indexed l ei es w b wb : Indexed b → indexEntries l ei es w b = Ok wb → Indexed wb.2.
Proof.
  revert ei w b. induction es as [|e es IH]; intros ei w b HI H; cbn [indexEntries] in H; [by injection H as <-|].
  apply obind_ok in H as (b1 & H1 & H). eapply IH; [|exact H]. by eapply indexNames_Indexed.
Qed.

(** The names that are indexed, from the entries: each with the number of its entry, in order. *)
Definition nameOf (ei ni : nat) (raw : text) : list IndexedName :=
  if bool_decide (normalizeName raw = []) || bool_decide (nameTokens raw = []) then []
  else [mkName ei (normalizeName raw) (nameTokens raw) (0 <? ni)%nat].
Fixpoint namesOf (ei ni : nat) (raws : list text) : list IndexedName :=
  match raws with [] => [] | raw :: raws => nameOf ei ni raw ++ namesOf ei (S ni) raws end.
Fixpoint namesOfEntries (ei : nat) (es : list SanctionEntry) : list IndexedName :=
  match es with [] => [] | e :: es => namesOf ei 0 (names e) ++ namesOfEntries (S ei) es end.

Lemma postTokens_names max idx toks b b' : postTokens max idx toks b = Ok b' → b_names b' = b_names b.
Proof. intros H. by apply postTokens_Posted in H as [? _]. Qed.
Lemma indexName_names l ei ni raw b b' : indexName l ei ni raw b = Ok b' → b_names b' = b_names b ++ nameOf ei ni raw.
Proof.
  unfold indexName, nameOf, nameTokens. destruct (_ || _); [intros [= <-]; by rewrite app_nil_r|].
  intros (? & _ & H%postTokens_names)%obind_ok. exact H.
Qed.
Lemma indexNames_names l ei ni raws b b' : indexNames l ei ni raws b = Ok b' → b_names b' = b_names b ++ namesOf ei ni raws.
Proof.
  revert ni b. induction raws as [|raw raws IH]; intros ni b; cbn [indexNames namesOf]; [intros [= <-]; by rewrite app_nil_r|].
  intros (b1 & H1%indexName_names & H%IH)%obind_ok. by rewrite H, H1, app_assoc.
Qed.
Lemma indexEntries_names l ei es w b wb : indexEntries l ei es w b = Ok wb → b_names wb.2 = b_names b ++ namesOfEntries ei es.
Proof.
  revert ei w b. induction es as [|e es IH]; intros ei w b; cbn [indexEntries namesOfEntries]; [intros [= <-]; by rewrite app_nil_r|].
  intros (b1 & H1%indexNames_names & H%IH)%obind_ok. by rewrite H, H1, app_assoc.
Qed.

Lemma namesOf_elem ei ni raws k raw : raws !! k = Some raw → normalizeName raw ≠ [] → nameTokens raw ≠ [] →
  mkName ei (normalizeName raw) (nameTokens raw) (0 <? ni + k)%nat ∈ namesOf ei ni raws.
Proof.
  intros Hk Hn Ht. revert ni k Hk. induction raws as [|r raws IH]; intros ni [|k]; cbn [namesOf lookup]; [done|done| |].
  - intros [= ->]. apply elem_of_app. left. unfold nameOf. rewrite !bool_decide_eq_false_2, Nat.add_0_r by done. by left.
  - intros Hk. apply elem_of_app. right. rewrite Nat.add_succ_r. by apply (IH (S ni)).
Qed.
Lemma namesOfEntries_elem ei es i e k raw : es !! i = Some e → names e !! k = Some raw → normalizeName raw ≠ [] → nameTokens raw ≠ [] →
  mkName (ei + i) (normalizeName raw) (nameTokens raw) (0 <? k)%nat ∈ namesOfEntries ei es.
Proof.
  intros Hi Hk Hn Ht. revert ei i Hi. induction es as [|e0 es IH]; intros ei [|i]; cbn [namesOfEntries lookup]; [done|done| |].
  - intros [= ->]. apply elem_of_app. left. rewrite Nat.add_0_r. by apply (namesOf_elem ei 0).
  - intros Hi. apply elem_of_app. right. rewrite Nat.add_succ_r. by apply (IH (S ei)).
Qed.

(** A listed wallet leads to the last entry that lists it. *)
Definition Lists (es : list SanctionEntry) (i : nat) (k : string) : Prop :=
  ∃ e a, es !! i = Some e ∧ a ∈ cryptoAddresses e ∧ isAddress20 a = true ∧ toLowerCase a = k.
Definition WalletsIn (es : list SanctionEntry) (w : list (string * nat)) : Prop := ∀ k i, dget k w = Some i → Lists es i k.

Lemma indexWallets_spec es ei e addresses w : es !! ei = Some e → (∀ a, a ∈ addresses → a ∈ cryptoAddresses e) → WalletsIn es w →
  WalletsIn es (indexWallets ei addresses w) ∧
  (∀ k i, dget k w = Some i → (i ≤ ei)%nat → ∃ i', dget k (indexWallets ei addresses w) = Some i' ∧ (i ≤ i' ≤ ei)%nat) ∧
  (∀ a, a ∈ addresses → isAddress20 a = true → dget (toLowerCase a) (indexWallets ei addresses w) = Some ei).
Proof.
  intros He. unfold indexWallets. revert w. induction addresses as [|a addresses IH]; intros w Hin HW; simpl.
  - split; [done|]. split; [intros k i Hi Hle; exists i; split; [done|lia]|]. by intros a Ha%elem_of_nil.
  - destruct (isAddress20 a) eqn:Ea.
    + destruct (IH (dset (toLowerCase a) ei w)) as (H1 & H2 & H3); [intros a' Ha'; apply Hin; by right| |].
      { intros k i. rewrite dget_dset. destruct (String.eqb_spec k (toLowerCase a)) as [->|]; [|apply HW]. intros [= <-].
        exists e, a. split_and!; [done|apply Hin; by left|done|done]. }
      assert (dget (toLowerCase a) (dset (toLowerCase a) ei w) = Some ei) as Ea' by (rewrite dget_dset; by rewrite String.eqb_refl).
      split; [done|]. split.
      * intros k i Hi Hle. destruct (String.eqb_spec k (toLowerCase a)) as [->|Hne].
        -- destruct (H2 _ _ Ea' ltac:(lia)) as (i' & Hi' & Hle'). exists i'. split; [done|lia].
        -- apply H2; [|done]. rewrite dget_dset. by apply String.eqb_neq in Hne as ->.
      * intros a' [->|Ha']%elem_of_cons HA; [|by apply H3]. destruct (H2 _ _ Ea' ltac:(lia)) as (i' & Hi' & Hle').
        by assert (i' = ei) as -> by lia.
    + destruct (IH w) as (H1 & H2 & H3); [intros a' Ha'; apply Hin; by right|done|]. split; [done|]. split; [done|].
      intros a' [->|Ha']%elem_of_cons HA; [congruence|by apply H3].
Qed.

Lemma indexEntries_wallets es0 l ei es w b wb : es = drop ei es0 → WalletsIn es0 w →
  (∀ j k, (j < ei)%nat → Lists es0 j k → ∃ i, dget k w = Some i ∧ (j ≤ i < ei)%nat) →
  indexEntries l ei es w b = Ok wb →
  WalletsIn es0 wb.1 ∧ ∀ j k, Lists es0 j k → ∃ i, dget k wb.1 = Some i ∧ (j ≤ i)%nat.
Proof.
  revert ei w b. induction es as [|e es IH]; intros ei w b Hd HW HP H; cbn [indexEntries] in H.
  - injection H as <-. split; [done|]. intros j k Hj. assert (j < ei)%nat as Hlt.
    { destruct Hj as (e & a & He & _). apply lookup_lt_Some in He. symmetry in Hd. apply (f_equal length) in Hd.
      rewrite length_drop in Hd. simpl in Hd. lia. }
    destruct (HP j k Hlt Hj) as (i & Hi & Hle). exists i. split; [done|lia].
  - apply obind_ok in H as (b1 & _ & H). assert (es0 !! ei = Some e) as He.
    { assert (drop ei es0 !! 0%nat = Some e) as E by by rewrite <- Hd. by rewrite lookup_drop, Nat.add_0_r in E. }
    destruct (indexWallets_spec es0 ei e (cryptoAddresses e) w He ltac:(done) HW) as (H1 & H2 & H3).
    eapply (IH (S ei)); [|exact H1| |exact H].
    + apply (f_equal tail) in Hd. simpl in Hd. rewrite Hd. apply list_eq. intros n. by rewrite lookup_tail, !lookup_drop, Nat.add_succ_comm.
    + intros j k Hj HL. destruct (decide (j = ei)) as [->|Hne].
      * destruct HL as (e' & a & He' & Ha & HA & <-). assert (e' = e) as -> by congruence. exists ei. split; [by apply H3|lia].
      * destruct (HP j k ltac:(lia) HL) as (i & Hi & Hle). destruct (H2 k i Hi ltac:(lia)) as (i' & Hi' & Hle'). exists i'. split; [done|lia].
Qed.

(** What [buildCorpus] promises to the queries. *)
Record Complete (es : list SanctionEntry) (c : Corpus) : Prop := {
  co_entries : entries c = es;
  co_names : c_names c = namesOfEntries 0 es;
  co_token : ∀ ni n t, c_names c !! ni = Some n → t ∈ tokens n → Posted t ni (byToken c);
  co_deletion : ∀ t l key, mget t (byToken c) = Some l → key ∈ deletionKeys nfc t → Posted key t (byDeletion c);
  co_gram : ∀ t l key, mget t (byToken c) = Some l → key ∈ editGrams nfc t → Posted key t (byGram c);
  co_wallet : ∀ j k, Lists es j k → ∃ i, dget k (byWallet c) = Some i ∧ (j ≤ i)%nat ∧ Lists es i k }.

Lemma buildCorpus_complete es overrides c : buildCorpus es overrides = Ok c → Complete es c.
Proof.
  unfold buildCorpus. intros (l & _ & (wb & H & (? & _ & E)%obind_ok)%obind_ok)%obind_ok. injection E as <-.
  assert (Indexed wb.2) as HI.
  { eapply indexEntries_Indexed; [|exact H]. by intros ni n t Hn. }
  destruct (indexEntries_wallets es l 0 es [] _ wb eq_refl ltac:(by intros k i) ltac:(intros; lia) H) as [HW HP].
  apply indexEntries_names in H. split; cbn [entries c_names byToken byDeletion byGram byWallet].
  - done.
  - exact H.
  - exact HI.
  - intros t l0 key Ht%mget_elem Hk. by apply invertIndex_complete.
  - intros t l0 key Ht%mget_elem Hk. by apply invertIndex_complete.
  - intros j k HL. destruct (HP j k HL) as (i & Hi & Hle). exists i. split_and!; [done|done|by apply HW].
Qed.

(** * Queries miss no name *)

Section retrieval.
Variables (es : list SanctionEntry) (corpus : Corpus).
Hypothesis HC : Complete es corpus.

Lemma visitNear_spec token nears st st' : visitNear corpus token nears st = Ok st' →
  ∀ x, x ∈ st.2 ∨ (x ∈ nears ∧ withinOneEdit nfc token x = true) → x ∈ st'.2.
Proof.
  revert st. induction nears as [|near nears IH]; intros st H; cbn [visitNear] in H.
  - injection H as <-. intros x [|[Hx _]]; [done|]. by apply elem_of_nil in Hx.
  - apply obind_ok in H as ([] & _ & H). intros x Hx. apply (IH _ H). cbn [snd].
    destruct Hx as [Hx|[Hx Hw]].
    + left. destruct (withinOneEdit nfc token near); [|done]. apply elem_of_setAdd. by right.
    + apply elem_of_cons in Hx as [->|Hx]; [left; rewrite Hw; apply elem_of_setAdd; by left|by right].
Qed.

Lemma visitKeys_spec token keys st st' : visitKeys corpus token keys st = Ok st' →
  ∀ x, x ∈ st.2 ∨ (∃ k, k ∈ keys ∧ Posted k x (byDeletion corpus) ∧ withinOneEdit nfc token x = true) → x ∈ st'.2.
Proof.
  revert st. induction keys as [|key keys IH]; intros st H; cbn [visitKeys] in H.
  - injection H as <-. intros x [|(k & Hk & _)]; [done|]. by apply elem_of_nil in Hk.
  - apply obind_ok in H as (st1 & H1 & H). intros x Hx. apply (IH _ H).
    destruct Hx as [Hx|(k & Hk & HP & Hw)]; [left; eapply visitNear_spec; eauto|].
    apply elem_of_cons in Hk as [->|Hk]; [|right; eauto]. left. eapply visitNear_spec; [exact H1|]. right.
    destruct HP as (l & -> & Hl). done.
Qed.

Lemma visitGram_spec nears st st' : visitGram corpus nears st = Ok st' → ∀ x, x ∈ st.2 ∨ x ∈ nears → x ∈ st'.2.
Proof.
  revert st. induction nears as [|near nears IH]; intros st H; cbn [visitGram] in H.
  - injection H as <-. intros x [|Hx]; [done|]. by apply elem_of_nil in Hx.
  - apply obind_ok in H as ([] & _ & ([] & _ & H)%obind_ok). intros x Hx. apply (IH _ H). cbn [snd].
    rewrite elem_of_setAdd. rewrite elem_of_cons in Hx. tauto.
Qed.

Lemma visitGrams_spec grams st st' : visitGrams corpus grams st = Ok st' →
  ∀ x, x ∈ st.2 ∨ (∃ g, g ∈ grams ∧ Posted g x (byGram corpus)) → x ∈ st'.2.
Proof.
  revert st. induction grams as [|gram grams IH]; intros st H; cbn [visitGrams] in H.
  - injection H as <-. intros x [|(k & Hk & _)]; [done|]. by apply elem_of_nil in Hk.
  - apply obind_ok in H as (st1 & H1 & H). intros x Hx. apply (IH _ H).
    destruct Hx as [Hx|(g & Hg & HP)]; [left; eapply visitGram_spec; eauto|].
    apply elem_of_cons in Hg as [->|Hg]; [|right; eauto]. left. eapply visitGram_spec; [exact H1|]. right.
    by destruct HP as (l & -> & Hl).
Qed.

Lemma addVerified_spec (p : text → bool) l m x : x ∈ m ∨ (x ∈ l ∧ p x = true) →
  x ∈ fold_left (λ m near, if p near then setAdd near m else m) l m.
Proof.
  revert m. induction l as [|y l IH]; intros m H; simpl.
  - destruct H as [|[H _]]; [done|]. by apply elem_of_nil in H.
  - apply IH. destruct H as [H|[H Hp]].
    + left. destruct (p y); [|done]. apply elem_of_setAdd. by right.
    + apply elem_of_cons in H as [->|H]; [left; rewrite Hp; apply elem_of_setAdd; by left|by right].
Qed.

(** A token of the index that the verifier accepts for [token]. *)
Definition Accepted (token near : text) : Prop :=
  token = near ∨ (nfc token ≠ nfc near ∧ withinSupportedEdits nfc token near = true).

Lemma expandToken_spec token st st' l near : expandToken corpus token st = Ok st' →
  (∀ x, x ∈ st.2 → x ∈ st'.2) ∧
  (mget near (byToken corpus) = Some l → nfc token ≠ nfc near → withinSupportedEdits nfc token near = true → near ∈ st'.2).
Proof.
  unfold expandToken. intros (st1 & H1 & (v & Hv & E)%obind_ok)%obind_ok. injection E as <-. cbn [snd]. split.
  - intros x Hx. apply addVerified_spec. left. eapply visitKeys_spec; eauto.
  - intros Hl Hne Hw. apply addVerified_spec. destruct (retrieval_cases nfc token near Hw Hne) as [[H2 (k & Ka & Kb)]|(g & Ga & Gb)].
    + left. eapply visitKeys_spec; [exact H1|]. right. exists k. split; [done|]. split; [|done]. by eapply co_deletion.
    + right. split; [|done]. eapply visitGrams_spec; [exact Hv|]. right. exists g. split; [done|]. by eapply co_gram.
Qed.

Lemma expandTokens_spec toks st st' : expandTokens corpus toks st = Ok st' →
  (∀ x, x ∈ st.2 → x ∈ st'.2) ∧
  ∀ token near l, token ∈ toks → mget near (byToken corpus) = Some l → nfc token ≠ nfc near →
    withinSupportedEdits nfc token near = true → near ∈ st'.2.
Proof.
  revert st. induction toks as [|t toks IH]; intros st H; cbn [expandTokens] in H.
  - injection H as <-. split; [done|]. intros token near l Ht. by apply elem_of_nil in Ht.
  - apply obind_ok in H as (st1 & H1 & H). destruct (IH _ H) as [Hm Hf]. split.
    + intros x Hx. apply Hm. by eapply (expandToken_spec t st st1 [] []).
    + intros token near l Ht Hl Hne Hw. apply elem_of_cons in Ht as [->|Ht]; [|by eapply Hf].
      apply Hm. by eapply (expandToken_spec t st st1 l near).
Qed.

Lemma addNames_spec l cands cands' : addNames corpus l cands = Ok cands' → ∀ x, x ∈ cands ∨ x ∈ l → x ∈ cands'.
Proof.
  revert cands. induction l as [|ni l IH]; intros cands H; cbn [addNames] in H.
  - injection H as <-. intros x [|Hx]; [done|]. by apply elem_of_nil in Hx.
  - apply obind_ok in H as ([] & _ & H). intros x Hx. apply (IH _ H). rewrite elem_of_setAdd. rewrite elem_of_cons in Hx. tauto.
Qed.

Lemma collectNames_spec toks visits cands cands' : collectNames corpus toks visits cands = Ok cands' →
  ∀ x, x ∈ cands ∨ (∃ t, t ∈ toks ∧ Posted t x (byToken corpus)) → x ∈ cands'.
Proof.
  revert visits cands. induction toks as [|t toks IH]; intros visits cands H; cbn [collectNames] in H.
  - injection H as <-. intros x [|(t & Ht & _)]; [done|]. by apply elem_of_nil in Ht.
  - intros x Hx. destruct (mget t (byToken corpus)) as [l|] eqn:El.
    + apply obind_ok in H as ([] & _ & (cands1 & H1 & H)%obind_ok). apply (IH _ _ H).
      destruct Hx as [Hx|(t' & Ht' & HP)]; [left; eapply addNames_spec; eauto|].
      apply elem_of_cons in Ht' as [->|Ht']; [|right; eauto]. left. eapply addNames_spec; [exact H1|]. right.
      destruct HP as (l' & E & Hl'). congruence.
    + apply (IH _ _ H). destruct Hx as [Hx|(t' & Ht' & HP)]; [by left|]. apply elem_of_cons in Ht' as [->|Ht']; [|right; eauto].
      destruct HP as (l' & E & _). congruence.
Qed.

(** Every name with a token accepted for a token of the query is scored. *)
Lemma candidateNames_complete toks type cands ni n t t' : candidateNames corpus toks type = Ok cands →
  c_names corpus !! ni = Some n → t ∈ toks → t' ∈ tokens n → t = t' ∨ (type ≠ Romanized ∧ Accepted t t') → ni ∈ cands.
Proof.
  unfold candidateNames. intros ([] & _ & (st & Hst & H)%obind_ok)%obind_ok Hn Ht Ht' Ha.
  pose proof (co_token _ _ HC _ _ _ Hn Ht') as HP. eapply collectNames_spec; [exact H|]. right. exists t'. split; [|done].
  assert (∀ x, x ∈ toks → x ∈ st.2) as Hin.
  { intros x Hx%elem_of_unique. destruct (decide (type = Romanized)); [injection Hst as <-; done|].
    destruct (expandTokens_spec _ _ _ Hst) as [Hm _]. by apply Hm. }
  destruct Ha as [->|[Hty [->|[Hne Hw]]]]; [by apply Hin..|]. destruct (decide (type = Romanized)); [done|].
  destruct HP as (l & Hl & _). destruct (expandTokens_spec _ _ _ Hst) as [_ Hf]. eapply Hf; [by apply elem_of_unique|exact Hl|done|done].
Qed.

(** A scored name is represented by its entry, unless its score is below the threshold. *)
Definition Represented (ei : nat) (best : list (nat * Candidate)) : Prop := ∃ c, mget ei best = Some c ∧ cd_entry c = ei.

Lemma Represented_mset ei k c best : cd_entry c = k → Represented ei best ∨ ei = k → Represented ei (mset k c best).
Proof.
  unfold Represented. intros Ec H. rewrite mget_mset. destruct (decide (ei = k)) as [->|]; [eauto|]. destruct H as [H|H]; [exact H|done].
Qed.

Lemma scoreCandidate_keeps toks type minScore best ni ei : Represented ei best → Represented ei (scoreCandidate corpus toks type minScore best ni).
Proof.
  unfold scoreCandidate. intros H. destruct (c_names corpus !! ni) as [n|]; [|done].
  destruct (fltb _ minScore); [done|]. destruct (mget (entryIdx n) best) as [prev|]; [destruct (fgtb _ _); [|done]|];
    apply Represented_mset; auto.
Qed.

Lemma scoreCandidate_adds toks type minScore best ni n : c_names corpus !! ni = Some n →
  fltb (scoreName toks type n) minScore = false →
  (∀ c, mget (entryIdx n) best = Some c → cd_entry c = entryIdx n) →
  Represented (entryIdx n) (scoreCandidate corpus toks type minScore best ni).
Proof.
  intros Hn Hs Hb. unfold scoreCandidate. rewrite Hn, Hs.
  destruct (mget (entryIdx n) best) as [prev|] eqn:Ep; [destruct (fgtb _ _)|]; try by (apply Represented_mset; auto).
  exists prev. split; [done|by apply Hb].
Qed.

Definition OwnEntries (best : list (nat * Candidate)) : Prop := ∀ ei c, mget ei best = Some c → cd_entry c = ei.
Lemma scoreCandidate_own toks type minScore best ni : OwnEntries best → OwnEntries (scoreCandidate corpus toks type minScore best ni).
Proof.
  unfold scoreCandidate, OwnEntries. intros HO. destruct (c_names corpus !! ni) as [n|]; [|done].
  destruct (fltb _ minScore); [done|]. intros ei c.
  destruct (mget (entryIdx n) best) as [prev|]; [destruct (fgtb _ _); [|apply HO]|];
    rewrite mget_mset; destruct (decide (ei = entryIdx n)) as [->|]; auto; by intros [= <-].
Qed.

Lemma scored_represented toks type minScore cands best ni n : OwnEntries best → c_names corpus !! ni = Some n →
  fltb (scoreName toks type n) minScore = false → ni ∈ cands ∨ Represented (entryIdx n) best →
  Represented (entryIdx n) (fold_left (scoreCandidate corpus toks type minScore) cands best).
Proof.
  intros HO Hn Hs. revert best HO. induction cands as [|x cands IH]; intros best HO H; simpl.
  - destruct H as [H|]; [by apply elem_of_nil in H|done].
  - apply IH; [by apply scoreCandidate_own|]. destruct H as [H|H]; [|right; by apply scoreCandidate_keeps].
    apply elem_of_cons in H as [<-|H]; [right; apply scoreCandidate_adds; auto|by left].
Qed.

Lemma candidatesFor_complete toks type minScore cs ni n t t' : candidatesFor corpus toks type minScore = Ok cs →
  c_names corpus !! ni = Some n → t ∈ toks → t' ∈ tokens n → t = t' ∨ (type ≠ Romanized ∧ Accepted t t') →
  fltb (scoreName toks type n) minScore = true ∨ ∃ c, c ∈ cs ∧ cd_entry c = entryIdx n.
Proof.
  unfold candidatesFor. intros (cands & Hc & E)%obind_ok Hn Ht Ht' Ha. injection E as <-.
  destruct (fltb (scoreName toks type n) minScore) eqn:Es; [by left|right].
  pose proof (candidateNames_complete _ _ _ _ _ _ _ Hc Hn Ht Ht' Ha) as Hin.
  destruct (scored_represented toks type minScore cands [] ni n ltac:(done) Hn Es (or_introl Hin)) as (c & Hb & Ec).
  exists c. split; [|done]. rewrite sort_by_perm. apply list_elem_of_fmap. exists (entryIdx n, c). split; [done|].
  clear -Hb. revert Hb. generalize (fold_left (scoreCandidate corpus toks type minScore) cands []). intros m.
  induction m as [|[k v] m IH]; simpl; [done|]. destruct (decide (entryIdx n = k)) as [<-|]; [intros [= <-]; left|right; auto].
Qed.
End retrieval.

(** * A listed wallet is a hit *)

Definition HasWallet (l : list ScreeningHit) : Prop := ∃ x, x ∈ l ∧ h_matchType x = Wallet.

Lemma walletHits_listed es corpus input e a : Complete es corpus → e ∈ es → a ∈ cryptoAddresses e → isAddress20 a = true →
  toLowerCase (m_wallet input) = toLowerCase a → HasWallet (hits (walletHits corpus input)).
Proof.
  intros HC He Ha HA E. apply list_elem_of_lookup in He as [j Hj].
  destruct (co_wallet _ _ HC j (toLowerCase a)) as (i & Hi & _ & e' & a' & He' & _); [by exists e, a|].
  unfold walletHits, isLowerAddress. rewrite E, hexString_toLower, Hi by done. rewrite (co_entries _ _ HC), He'.
  eexists. split; [by left|done].
Qed.

Lemma raiseHit_wallet prev c type : h_matchType prev = Wallet → raiseHit prev c type = prev.
Proof. intros H. unfold raiseHit. by rewrite decide_True. Qed.

Lemma push_wallet corpus input c type h : HasWallet (hits h) → HasWallet (hits (push corpus input c type h)).
Proof.
  intros (x & Hx & Hw). unfold push. destruct (entries corpus !! cd_entry c) as [e|]; [|by exists x].
  destruct (dget (entryKey e) (byEntry h)) as [i|]; cbn [hits]; exists x; (split; [|done]).
  - apply list_elem_of_lookup in Hx as [j Hj]. apply list_elem_of_lookup. exists j.
    destruct (decide (i = j)) as [->|Hne]; [|by rewrite list_lookup_alter_ne].
    by rewrite list_lookup_alter_eq, Hj; cbn; rewrite raiseHit_wallet.
  - apply elem_of_app. by left.
Qed.

(** What every hit that is pushed keeps, a screening keeps. *)
Section kept.
Context (corpus : Corpus) (input : MatchInput) (P : Hits → Prop).
Context (Hpush : ∀ c type h, P h → P (push corpus input c type h)).

Lemma pushAll_keeps typeOf cands h : P h → P (pushAll corpus input typeOf cands h).
Proof using Hpush. unfold pushAll. revert h. induction cands as [|c cands IH]; intros h H; simpl; [done|]. by apply IH, Hpush. Qed.
Lemma directHits_keeps supplied h h' : directHits corpus input supplied h = Ok h' → P h → P h'.
Proof using Hpush.
  revert h. induction supplied as [|s supplied IH]; intros h H HW; cbn [directHits] in H; [by injection H as <-|].
  destruct (bool_decide _); [by eapply IH|]. apply obind_ok in H as (cands & _ & H). eapply IH; [exact H|]. by apply pushAll_keeps.
Qed.
Lemma inferredHits_keeps variants h h' : inferredHits corpus input variants h = Ok h' → P h → P h'.
Proof using Hpush.
  revert h. induction variants as [|s variants IH]; intros h H HW; cbn [inferredHits] in H; [by injection H as <-|].
  destruct (bool_decide _); [by eapply IH|]. apply obind_ok in H as (cands & _ & H). eapply IH; [exact H|]. by apply pushAll_keeps.
Qed.
Lemma screenNames_keeps l : screenNames corpus input = Ok l → P (walletHits corpus input) → ∃ h, P h ∧ l ≡ₚ hits h.
Proof using Hpush.
  unfold screenNames. intros (h1 & H1 & (h2 & H2 & El)%obind_ok)%obind_ok HP. injection El as <-. exists h2. split; [|apply sort_by_perm].
  apply directHits_keeps in H1; [|done]. destruct (Romanize.hasHangul _); [by eapply inferredHits_keeps|by injection H2 as <-].
Qed.
End kept.

Lemma screenNames_listed es corpus input e a l : Complete es corpus → e ∈ es → a ∈ cryptoAddresses e → isAddress20 a = true →
  toLowerCase (m_wallet input) = toLowerCase a → screenNames corpus input = Ok l → HasWallet l.
Proof.
  intros HC He Ha HA E Hl. eapply (screenNames_keeps _ _ (λ h, HasWallet (hits h))) in Hl as (h & (x & Hx & Hw) & Hp).
  - exists x. by rewrite Hp.
  - intros c type h. apply push_wallet.
  - by eapply walletHits_listed.
Qed.

(** A hit is of an entry, and its identity comparison is the one with that entry. *)
Definition OfEntry (corpus : Corpus) (input : MatchInput) (h : ScreeningHit) : Prop :=
  ∃ e, e ∈ entries corpus ∧ h_listId h = listId e ∧ h_entryId h = entryId e
    ∧ ∀ c, h_identity h = Some c → c = compareIdentity (m_dob input) (m_nationality input) (dobs e) (countries e).

Lemma raiseHit_OfEntry corpus input prev c type : OfEntry corpus input prev → OfEntry corpus input (raiseHit prev c type).
Proof. unfold raiseHit, OfEntry. by destruct (decide _). Qed.
Lemma push_OfEntry corpus input c type h : Forall (OfEntry corpus input) (hits h) → Forall (OfEntry corpus input) (hits (push corpus input c type h)).
Proof.
  intros H. unfold push. destruct (entries corpus !! cd_entry c) as [e|] eqn:He; [|done].
  destruct (dget (entryKey e) (byEntry h)) as [i|]; cbn [hits].
  - apply Forall_alter; [done|]. intros x _. apply raiseHit_OfEntry.
  - apply Forall_app. split; [done|]. apply Forall_singleton. exists e. split_and!; [by eapply list_elem_of_lookup_2|done|done|].
    cbn [h_identity]. by intros c' [= <-].
Qed.
Lemma screenNames_OfEntry corpus input l : screenNames corpus input = Ok l → Forall (OfEntry corpus input) l.
Proof.
  intros Hl. eapply (screenNames_keeps _ _ (λ h, Forall (OfEntry corpus input) (hits h))) in Hl as (h & H & Hp).
  - by rewrite Hp.
  - intros c type h. apply push_OfEntry.
  - unfold walletHits. destruct (isLowerAddress _); [|constructor]. destruct (dget _ _) as [i|]; [|constructor].
    destruct (entries corpus !! i) as [e|] eqn:He; [|constructor]. apply Forall_singleton. exists e.
    split_and!; [by eapply list_elem_of_lookup_2|done|done|done].
Qed.

(** A full match of dates: the subject's date names a day, and the entry lists it. *)
Lemma compareDob_match subject listed : compareDob subject listed = DobMatch →
  ∃ d, subject = Some d ∧ precision d = Some Day ∧ d ∈ listed.
Proof.
  unfold compareDob. destruct subject as [d|]; simpl; [|done]. destruct (negb _); [done|].
  destruct (precision d) as [p|] eqn:Ep; [|done]. destruct (bool_decide (listed = [])); [done|].
  destruct (bool_decide (filter _ listed = [])); [done|].
  destruct (bool_decide (p = Day) && _) eqn:E; [|by case_match]. intros _.
  apply andb_true_iff in E as [->%bool_decide_eq_true (v & Hv & E)%existsb_exists]. apply andb_true_iff in E as [_ ->%String.eqb_eq].
  exists d. split_and!; [done|done|]. apply list_elem_of_In, list_elem_of_filter in Hv. by destruct Hv.
Qed.

(** C21. Over a corpus that was built from a list of entries, a query that is
    answered reports the entry of every name of every entry, aliases included, that
    shares a token with the query or, for a name as written, has a token the edit
    verifier accepts for one of its tokens, unless the score of that name is below the
    threshold: the index and its blocking lose no such name. And every EVM address of an
    entry is found in the wallet index, at that entry or a later one that lists the same
    address. *)
Theorem match_retrieval_complete (es : list SanctionEntry) (overrides : list (string * Z)) (corpus : Corpus)
  (toks : list text) (type : MatchType) (minScore : f64) (cs : list Candidate) :
  buildCorpus es overrides = Ok corpus → candidatesFor corpus toks type minScore = Ok cs →
  (∀ ei e k raw t t', es !! ei = Some e → names e !! k = Some raw → normalizeName raw ≠ [] → t ∈ toks → t' ∈ nameTokens raw →
     t = t' ∨ (type ≠ Romanized ∧ nfc t ≠ nfc t' ∧ withinSupportedEdits nfc t t' = true) →
     fltb (scoreName toks type (mkName ei (normalizeName raw) (nameTokens raw) (0 <? k)%nat)) minScore = true
     ∨ ∃ c, c ∈ cs ∧ cd_entry c = ei) ∧
  (∀ j e a, es !! j = Some e → a ∈ cryptoAddresses e → isAddress20 a = true →
     ∃ i e' a', dget (toLowerCase a) (byWallet corpus) = Some i ∧ (j ≤ i)%nat ∧ es !! i = Some e' ∧ a' ∈ cryptoAddresses e'
       ∧ toLowerCase a' = toLowerCase a) ∧
  entries corpus = es.
Proof.
  intros HC%buildCorpus_complete Hcs. split_and!.
  - intros ei e k raw t t' He Hk Hn Ht Ht' Ha. assert (nameTokens raw ≠ []) as Htk by (intros E; rewrite E in Ht'; by apply elem_of_nil in Ht').
    pose proof (namesOfEntries_elem 0 es ei e k raw He Hk Hn Htk) as Hin. rewrite <- (co_names _ _ HC) in Hin.
    apply list_elem_of_lookup in Hin as [ni Hni]. simpl in Hni.
    eapply (candidatesFor_complete es corpus HC) in Hcs as [Hlow|Hc]; [by left|by right|exact Hni|exact Ht|exact Ht'|].
    destruct Ha as [|(? & ? & ?)]; [by left|]. right. split; [done|by right].
  - intros j e a He Ha HA. destruct (co_wallet _ _ HC j (toLowerCase a)) as (i & Hi & Hle & e' & a' & He' & Ha' & _ & E'); [by exists e, a|].
    exists i, e', a'. done.
  - apply (co_entries _ _ HC).
Qed.
End complete.
End match_.
End Match.

Module MatchExample.
Import Scores Match.

(** The Unicode functions on ASCII. *)
Definition exNormal (s : text) : text := s.
Definition exLower (s : text) : text := map (λ c, if (65 <=? c) && (c <=? 90) then c + 32 else c) s.
Definition exAlnum (c : Z) : bool := ((48 <=? c) && (c <=? 57)) || ((65 <=? c) && (c <=? 90)) || ((97 <=? c) && (c <=? 122)).

Definition exWallet : string := "0xAbCdef0123456789abcdef0123456789abcdef01".
Definition exEntries : list SanctionEntry := [
  mkEntry "OFAC_SDN" "7" (textOf "John Smith") [textOf "John Smith"; textOf "Jonathan Q. Smyth"] ["1970-01-02"] ["US"] [] [exWallet] "individual";
  mkEntry "UN_CONSOLIDATED" "8" (textOf "Acme Trading") [textOf "Acme Trading"] [] [] [] [] "entity";
  mkEntry "EU_FSF" "9" (textOf "Smith") [textOf "Maria Smith"] [] ["ES"] [] [] "individual"].

Definition exEmpty : Corpus := mkCorpus [] [] [] [] [] DEFAULT_MATCH_LIMITS [].
Definition exCorpus : Corpus := Eval vm_compute in ok_or exEmpty (buildCorpus exNormal exNormal exLower exAlnum exEntries []).
Lemma exCorpus_ok : buildCorpus exNormal exNormal exLower exAlnum exEntries [] = Ok exCorpus.
Proof. by vm_compute. Qed.

Definition exQuery : list text := [textOf "smithe"; textOf "john"].
Definition exCandidates : list Candidate := Eval vm_compute in ok_or [] (candidatesFor exNormal exCorpus exQuery Fuzzy (fdec 72 100)).
Lemma exCandidates_ok : candidatesFor exNormal exCorpus exQuery Fuzzy (fdec 72 100) = Ok exCandidates.
Proof. by vm_compute. Qed.

Definition exName : IndexedName := mkName 0 (normalizeName exNormal exLower exAlnum (textOf "John Smith"))
  (nameTokens exNormal exLower exAlnum (textOf "John Smith")) (0 <? 0)%nat.
Lemma exNear : exNormal (textOf "smithe") ≠ exNormal (textOf "smith") ∧
  Edit.withinSupportedEdits exNormal (textOf "smithe") (textOf "smith") = true.
Proof. split; [discriminate|]. by vm_compute. Qed.
Lemma exScore : fltb (scoreName exNormal exQuery Fuzzy exName) (fdec 72 100) = false.
Proof. by vm_compute. Qed.
Lemma exToken : textOf "smith" ∈ nameTokens exNormal exLower exAlnum (textOf "John Smith").
Proof. apply (list_elem_of_lookup_2 _ 1). by vm_compute. Qed.
Lemma exNormalised : normalizeName exNormal exLower exAlnum (textOf "John Smith") ≠ [].
Proof. by vm_compute. Qed.

(** A misspelt name is scored by the entry it is near to, and reported. *)
Lemma match_retrieval_complete_witness : (∃ c, c ∈ exCandidates ∧ cd_entry c = 0%nat) ∧
  ∃ i, dget (toLowerCase exWallet) (byWallet exCorpus) = Some i.
Proof.
  pose proof (match_retrieval_complete exNormal exNormal exLower exAlnum exEntries [] exCorpus exQuery Fuzzy (fdec 72 100) exCandidates
    exCorpus_ok exCandidates_ok) as (HN & HW & _). split.
  - assert (textOf "smithe" ∈ exQuery) as Hq by (apply elem_of_cons; left; reflexivity).
    assert (Fuzzy ≠ Romanized) as Hf by discriminate.
    specialize (HN 0%nat _ 0%nat (textOf "John Smith") (textOf "smithe") (textOf "smith") eq_refl eq_refl exNormalised Hq exToken
      (or_intror (conj Hf exNear))).
    fold exName in HN. rewrite exScore in HN. destruct HN as [HN|HN]; [discriminate HN|exact HN].
  - destruct (HW 0%nat _ exWallet eq_refl ltac:(left) eq_refl) as (i & e' & a' & Hi & _). exists i. exact Hi.
Defined.
End MatchExample.
