(* ===== verification/Screen.v ===== *)
(** The list-backed screening engine: provenance of the lists ([src/aml/provenance.ts], Module
    Provenance) and [ListBackedAmlEngine] ([src/aml/engine.ts], Module Engine).  The decision is
    characterised; a listed wallet is always blocked, so no mark is ever issued to one; and a
    result is never produced from stale lists.  SHA-256, HMAC, URL parsing and Unicode functions are
    parameters; the clock is read once per call. *)

From Stdlib Require Import ZArith Lia Ascii String.
From stdpp Require Import base decidable option list strings pretty sets.
From S2P Require Import Prelude JS Roster Merkle Attrs Json Evidence Identity Kr Issue Edit Float Names Match.
Import Json.
Local Open Scope string_scope.
Local Open Scope list_scope.
Local Open Scope Z_scope.
Local Open Scope js_scope.

Module Provenance.
Import Jurisdiction.

Definition LIST_IDS : list string := ["OFAC_SDN"; "UN_CONSOLIDATED"; "EU_FSF"].
Definition PARSER_VERSION : string := "proofmark-lists-2".
Definition MAX_AGE_HOURS : Z := 168.

(** [SOURCES[id].url]. *)
Definition SOURCES : list (string * string) := [
  ("OFAC_SDN", "https://www.treasury.gov/ofac/downloads/sdn.xml");
  ("UN_CONSOLIDATED", "https://scsanctions.un.org/resources/xml/en/consolidated.xml");
  ("EU_FSF", "https://webgate.ec.europa.eu/fsd/fsf/public/files/xmlFullSanctionsList_1_1/content?token=dG9rZW4tMjAxNw")].

(** [publishedAt] is always null. *)
Record SourceEvidence := mkSource {
  s_sourceUrl : string; s_effectiveUrl : string; s_effectiveUrlSha256 : string; s_fetchedAt : string; s_checkedAt : string;
  s_httpLastModified : option string; s_sha256 : string; s_bytes : Z; s_entryCount : Z }.
Record ListProvenance := mkProvenance {
  pv_v : Z; pv_parserVersion : string; pv_createdAt : string; pv_sources : list (string * SourceEvidence); pv_snapshotId : string }.

(** An https URL, parsed: protocol, host, origin and path. *)
Record Url := mkUrl { u_protocol : string; u_hostname : string; u_origin : string; u_pathname : string }.

Section provenance.
Context (sha256 : string → string).
(** [new URL(value)]; [None] when it throws. *)
Context (parseUrl : string → option Url).

Definition controlChar (c : ascii) : bool := let n := nat_of_ascii c in (n <=? 32)%nat || (n =? 127)%nat.
Definition publicEffectiveUrl (value : string) : outcome string :=
  let invalid := EError "invalid sanctions transport URL" in
  let? _ := orequire ((Z.of_nat (String.length value) <=? 16384) && allChars (λ c, negb (controlChar c)) value) invalid in
  match parseUrl value with
  | Some url => if String.eqb (u_protocol url) "https:" && negb (String.eqb (u_hostname url) "")
                then Ok (u_origin url +:+ u_pathname url) else Throw invalid
  | None => Throw invalid
  end.

(** The fields of an object in the order of their names. *)
Definition sourceJson (s : SourceEvidence) : json :=
  JObj [("bytes", JNum (s_bytes s)); ("checkedAt", JStr (s_checkedAt s)); ("effectiveUrl", JStr (s_effectiveUrl s));
        ("effectiveUrlSha256", JStr (s_effectiveUrlSha256 s)); ("entryCount", JNum (s_entryCount s));
        ("fetchedAt", JStr (s_fetchedAt s)); ("httpLastModified", Kr.jref (s_httpLastModified s)); ("publishedAt", JNull);
        ("sha256", JStr (s_sha256 s)); ("sourceUrl", JStr (s_sourceUrl s))].
Definition sourcesJson (p : ListProvenance) : json :=
  JObj (sort_by keyed (map (λ kv, (kv.1, sourceJson kv.2)) (pv_sources p))).
Definition snapshotId (p : ListProvenance) : string :=
  sha256 (default "" (stringify (JObj [("createdAt", JStr (pv_createdAt p)); ("parserVersion", JStr (pv_parserVersion p));
                                      ("sources", sourcesJson p); ("v", JNum (pv_v p))]))).

Definition timestamp (value : string) : outcome Z :=
  let ms := parseInstant value in
  let? _ := orequire (String.eqb (isoString ms) value) (EError "sanctions timestamp must be a canonical UTC instant") in
  Ok ms.

Definition isSha256 (s : string) : bool := (String.length s =? 64)%nat && allChars isLowerHex s.

Definition assertSource (now maxAgeHours created : Z) (list : string) (s : SourceEvidence) : outcome unit :=
  let bad := EError ("invalid sanctions source " +:+ list) in
  let? _ := orequire (bool_decide (dget list SOURCES = Some (s_sourceUrl s))) bad in
  let? url := publicEffectiveUrl (s_effectiveUrl s) in
  let? _ := orequire (String.eqb url (s_effectiveUrl s) && isSha256 (s_effectiveUrlSha256 s) && isSha256 (s_sha256 s)
                      && isSafeInteger (s_bytes s) && (0 <? s_bytes s) && isSafeInteger (s_entryCount s) && (0 <? s_entryCount s)) bad in
  let? fetched := timestamp (s_fetchedAt s) in
  let? checked := timestamp (s_checkedAt s) in
  let? _ := orequire ((fetched =? checked) && (checked <=? created) && (checked <=? now))
              (EError ("invalid sanctions chronology " +:+ list)) in
  orequire (now - checked <=? maxAgeHours * 3600000) (EError ("sanctions source is stale: " +:+ list)).

Fixpoint assertSources (now maxAgeHours created : Z) (p : ListProvenance) (lists : list string) : outcome unit :=
  match lists with
  | [] => Ok tt
  | list :: lists =>
      let? s := match dget list (pv_sources p) with Some s => Ok s | None => Throw (EError ("invalid sanctions source " +:+ list)) end in
      let? _ := assertSource now maxAgeHours created list s in
      assertSources now maxAgeHours created p lists
  end.

(** [Object.keys(a).sort().join() === [...b].sort().join()]. *)
Definition sameKeys (a b : list string) : bool :=
  String.eqb (String.concat "," (sort_by str_leb a)) (String.concat "," (sort_by str_leb b)).

(** [now] and [maxAgeHours] are finite, the latter a whole number of hours. *)
Definition assertProvenance (value : ListProvenance) (now maxAgeHours : Z) : outcome unit :=
  let? _ := orequire ((0 <? maxAgeHours) && (maxAgeHours <=? MAX_AGE_HOURS)) (EError "invalid sanctions freshness policy") in
  let? _ := orequire ((pv_v value =? 2) && String.eqb (pv_parserVersion value) PARSER_VERSION
                      && sameKeys (dkeys (pv_sources value)) LIST_IDS)
              (EError "unsupported or incomplete sanctions provenance") in
  let? _ := orequire (String.eqb (pv_snapshotId value) (snapshotId value)) (EError "sanctions manifest hash mismatch") in
  let? created := timestamp (pv_createdAt value) in
  let? _ := orequire (created <=? now) (EError "sanctions snapshot is from the future") in
  assertSources now maxAgeHours created value LIST_IDS.

(** [parseInt(sha256.slice(0, 8), 16)]. *)
Definition listVersionsOf (p : ListProvenance) : list (string * Z) :=
  map (λ id, (id, hexFrom 0 (slice 0 8 (match dget id (pv_sources p) with Some s => s_sha256 s | None => "" end)))) LIST_IDS.

Definition FreshSource (now hours : Z) (p : ListProvenance) (list : string) : Prop :=
  ∃ s checked, dget list (pv_sources p) = Some s ∧ timestamp (s_checkedAt s) = Ok checked ∧ checked ≤ now ≤ checked + hours * 3600000.

Lemma assertSource_fresh now hours created list s u : assertSource now hours created list s = Ok u →
  ∃ checked, timestamp (s_checkedAt s) = Ok checked ∧ checked ≤ now ≤ checked + hours * 3600000.
Proof.
  unfold assertSource. intros (? & _ & (? & _ & (? & _ & (fetched & _ & (checked & Hc & (? & H1%orequire_ok & H2%orequire_ok)%obind_ok)%obind_ok)%obind_ok)%obind_ok)%obind_ok)%obind_ok.
  exists checked. split; [exact Hc|]. rewrite !andb_true_iff, !Z.leb_le in H1. apply Z.leb_le in H2. lia.
Qed.

Lemma assertSources_fresh now hours created p lists u : assertSources now hours created p lists = Ok u →
  Forall (FreshSource now hours p) lists.
Proof.
  revert u. induction lists as [|list lists IH]; intros u H; [constructor|]. cbn [assertSources] in H.
  apply obind_ok in H as (s & Hs & (? & Ha & H)%obind_ok). constructor; [|by eapply IH].
  apply assertSource_fresh in Ha as (checked & Hc & Hle). exists s, checked.
  destruct (dget list (pv_sources p)) as [s'|]; [|done]. injection Hs as ->. done.
Qed.

Lemma assertProvenance_fresh p now hours u : assertProvenance p now hours = Ok u → Forall (FreshSource now hours p) LIST_IDS.
Proof.
  unfold assertProvenance.
  intros (? & _ & (? & _ & (? & _ & (created & _ & (? & _ & H)%obind_ok)%obind_ok)%obind_ok)%obind_ok)%obind_ok.
  by eapply assertSources_fresh.
Qed.
End provenance.
End Provenance.

Module Engine.
Import Compare Match Provenance.

Record ScreeningSubject := mkSubject {
  su_fullName : text; su_romanizedName : option text; su_dateOfBirth : string; su_nationality : string;
  su_residence : string; su_walletAddress : string }.

Definition ScreeningResult : Type := Issue.ScreeningResult ScreeningHit.

(** The private fields of the engine. *)
Record EngineState := mkEngine {
  en_corpus : Corpus; en_versions : list (string * Z); evidenceKey : string; keyId : option string;
  provenance : option ListProvenance; maxAgeHours : Z }.

Section engine.
Context (nfc nfd toLower : text → text) (isLetterOrNumber : Z → bool).
Context (sha256 : string → string) (parseUrl : string → option Url).
(** [createHmac('sha256', key).update(text).digest('hex')]. *)
Context (hmacSha256 : string → text → string).
(** The configured age limit of the jurisdiction table, in days. *)
Context (fatfDays : Z).

(** The constructor, at the time [now]; the corpus is built from a copy of the entries. *)
Definition construct (es : list SanctionEntry) (listVersions : list (string * Z)) (evidenceKey : string) (keyId : option string)
  (hasPepData hasAdverseMedia : bool) (prov : option ListProvenance) (maxAgeHours now : Z) : outcome EngineState :=
  let? _ := orequire (negb (String.eqb evidenceKey ""))
    (EError "evidenceKey is required. It is the HMAC key that keeps names out of the evidence.") in
  let? _ := orequire (negb (hasPepData || hasAdverseMedia))
    (EError "PEP/adverse-media screening is not implemented; data flags cannot enable it") in
  let? _ := match prov with
    | None => Ok tt
    | Some p =>
        let? _ := assertProvenance sha256 parseUrl p now maxAgeHours in
        let versions := listVersionsOf p in
        orequire (sameKeys (dkeys listVersions) LIST_IDS
                  && forallb (λ id, bool_decide (dget id versions = dget id listVersions)
                       && match dget id (pv_sources p) with
                          | Some s => Z.of_nat (length (filter (λ e, listId e = id) es)) =? s_entryCount s | None => false end) LIST_IDS
                  && forallb (λ e, Identity.includes LIST_IDS (listId e)) es)
          (EError "engine corpus/provenance mismatch")
    end in
  let? corpus := buildCorpus nfc nfd toLower isLetterOrNumber es [] in
  Ok (mkEngine corpus listVersions evidenceKey keyId prov maxAgeHours).

Section screen.
Context (this : EngineState).

Definition assertFresh (now : Z) : outcome unit :=
  match provenance this with Some p => assertProvenance sha256 parseUrl p now (maxAgeHours this) | None => Ok tt end.

(** [listVersions()]. *)
Definition listVersions (now : Z) : outcome (list (string * Z)) := let? _ := assertFresh now in Ok (en_versions this).

Definition isBlocking (h : ScreeningHit) : bool :=
  bool_decide (h_matchType h = Wallet)
  || (h_corroborated h && fgeb (h_score h) (fdec 88 100)
      && match h_identity h with Some c => bool_decide (c_dob c = DobMatch) | None => false end).
Definition drivesDecision (h : ScreeningHit) : bool :=
  negb (bool_decide (h_matchType h = Romanized)) || fgeb (default f0 (h_direct h)) (fdec 82 100) || h_corroborated h
  || negb (bool_decide (h_corroboration h = [])).
Definition isSuspicious (h : ScreeningHit) : bool := negb (isBlocking h) && fgeb (h_score h) (fdec 82 100) && drivesDecision h.

Definition hasConflict (h : ScreeningHit) : bool :=
  match h_identity h with Some c => identityConflicts c | None => false end.

(** The decision rules, in order. *)
Definition decide_ (hits : list ScreeningHit) (nameAvailable nameApplied jurisdictionApplied : bool) (level : Z) (dob : option string)
  : Issue.Decision * option string * Issue.RiskBand :=
  let suspicious := filter (λ h, isSuspicious h = true) hits in
  if existsb isBlocking hits then (Issue.BLOCK, None, Issue.Band5)
  else if existsb isSuspicious hits then
    (Issue.REVIEW, Some (if existsb hasConflict suspicious then "IDENTITY_CONFLICT" else "NAME_SIMILARITY"), Issue.Band4)
  else if negb nameAvailable then (Issue.REVIEW, Some "SCREENING_UNAVAILABLE", Issue.Band4)
  else if negb nameApplied || negb jurisdictionApplied then (Issue.REVIEW, Some "SCREENING_INPUT_INVALID", Issue.Band4)
  else if level =? 2 then (Issue.REVIEW, Some "HIGH_RISK_JURISDICTION", Issue.Band4)
  else if negb (truthy dob) then (Issue.REVIEW, Some "DOB_MISSING", Issue.Band3)
  else if level =? 1 then (Issue.ALLOW, None, Issue.Band3)
  else (Issue.ALLOW, None, if bool_decide (hits = []) then Issue.Band1 else Issue.Band2).

Definition hmac (v : text) : string := "0x" +:+ slice 0 32 (hmacSha256 (evidenceKey this) (nfc v)).

Definition dobText (c : option IdentityComparison) : string :=
  match c with
  | None => "na"
  | Some c => match c_dob c with DobMatch => "match" | DobYearMatch => "year-match" | DobConflict => "conflict"
              | DobMissing => "missing" | DobInvalid => "invalid" end
  end.
Definition nationalityText (c : option IdentityComparison) : string :=
  match c with
  | None => "na"
  | Some c => match c_nationality c with CMatch => "match" | CConflict => "conflict" | CMissing => "missing" | CInvalid => "invalid" end
  end.
Definition typeText (t : MatchType) : string :=
  match t with Exact => "exact" | Fuzzy => "fuzzy" | Alias => "alias" | Romanized => "romanized" | Wallet => "wallet" end.
Definition hitDigest (h : ScreeningHit) : string :=
  h_listId h +:+ ":" +:+ h_entryId h +:+ ":" +:+ typeText (h_matchType h) +:+ ":" +:+ toFixed3 (h_score h) +:+ ":"
  +:+ (if h_corroborated h then "c" else "u") +:+ ":dob=" +:+ dobText (h_identity h) +:+ ":nationality="
  +:+ nationalityText (h_identity h) +:+ ":direct=" +:+ default "na" (toFixed3 <$> h_direct h)
  +:+ ":inferred=" +:+ default "na" (toFixed3 <$> h_inferred h).

Definition check (id : string) (applied passed : bool) (rest : list (string * json)) : json :=
  JObj ([("id", JStr id); ("applied", JBool applied); ("passed", JBool passed)] ++ rest).

(** [Array.prototype.sort] on code points, as UTF-16 code units compare. *)
Definition sortTexts (l : list text) : list text :=
  sort_by (λ a b, match Scores.compareText a b with Gt => false | _ => true end) l.

Definition versionsJson (v : list (string * Z)) : json := JObj (map (λ kv, (kv.1, JNum kv.2)) v).
Definition provenanceJson (p : ListProvenance) : json :=
  JObj [("v", JNum (pv_v p)); ("parserVersion", JStr (pv_parserVersion p)); ("createdAt", JStr (pv_createdAt p));
        ("sources", sourcesJson p); ("snapshotId", JStr (pv_snapshotId p))].

Definition screeningEvidence (subject : ScreeningSubject) (hits : list ScreeningHit) (nameAvailable nameApplied walletApplied jurisdictionApplied : bool)
  (jr : Z * string) (dob : option string) : json :=
  let normalize := normalizeName nfd toLower isLetterOrNumber in
  let toks := nameTokens nfd toLower isLetterOrNumber (su_fullName subject) in
  let variants := sortTexts (unique (
    (if Romanize.hasHangul (su_fullName subject) then map textOf (Romanize.romanizeVariants (su_fullName subject)) else [])
    ++ match su_romanizedName subject with Some r => if bool_decide (r = []) then [] else [normalize r] | None => [] end)) in
  let provider := ("provider", JStr "proofmark:local-lists") in
  let version := ("version", JStr Normalize.ENGINE_VERSION) in
  let suspicious := filter (λ h, isSuspicious h = true) hits in
  let nameHits := filter (λ h, h_matchType h ≠ Wallet) hits in
  JObj ((match provenance this with Some p => [("sourceSnapshot", provenanceJson p)] | None => [] end)
    ++ [("engineVersion", JStr Normalize.ENGINE_VERSION); ("listVersions", versionsJson (en_versions this));
        ("keyId", JStr (default "default" (keyId this))); ("nameDigest", JStr (hmac (normalize (su_fullName subject))));
        ("tokenDigests", JArr (map (λ t, JStr (hmac t)) toks)); ("variantDigests", JArr (map (λ t, JStr (hmac t)) variants));
        ("checks", JArr [
          check "sanctions.name" nameApplied
            (nameApplied && negb (existsb (λ h, isBlocking h && negb (bool_decide (h_matchType h = Wallet))) hits) && (length suspicious =? 0)%nat)
            [("status", JStr (if negb nameAvailable then "unavailable" else if nameApplied then "completed" else "skipped")); provider; version;
             ("note", JStr (pretty (length nameHits) +:+ " name candidate hit(s); " +:+ pretty (length suspicious)
                            +:+ " require review; list editions are recorded separately"))];
          check "sanctions.wallet" walletApplied (walletApplied && negb (existsb (λ h, bool_decide (h_matchType h = Wallet)) hits))
            [("status", JStr (if walletApplied then "completed" else if bool_decide (byWallet (en_corpus this) = []) then "unavailable" else "skipped"));
             provider; version;
             ("note", JStr "exact listed EVM address lookup only; no transaction graph/exposure analysis and no bit 20")];
          check "jurisdiction.fatf" jurisdictionApplied (jurisdictionApplied && (jr.1 =? 0))
            [("status", JStr (if jurisdictionApplied then "completed" else "skipped")); ("provider", JStr "fatf-gafi.org");
             ("version", JStr (Jurisdiction.snapshotId (Jurisdiction.FATF sha256)));
             ("note", JStr (trim ("self-declared nationality/residence, not identity verification; statement "
                                  +:+ Jurisdiction.asOf (Jurisdiction.FATF sha256) +:+ "; " +:+ jr.2)))];
          check "identity.dob" true (truthy dob) [];
          check "pep" false false [("status", JStr "unavailable"); ("note", JStr "screening not implemented, bit left unset")];
          check "adverseMedia" false false [("status", JStr "unavailable"); ("note", JStr "screening not implemented, bit left unset")];
          check "onchain.exposure" false false [("status", JStr "unavailable"); ("note", JStr "graph/exposure screening not implemented, bit left unset")]]);
        ("hitDigests", JArr (map JStr (sort_by str_leb (map hitDigest hits))))]).

Definition priority (h : ScreeningHit) : Z := if isBlocking h then 2 else if isSuspicious h then 1 else 0.
(** Decision-driving hits first. *)
Definition orderHits (hits : list ScreeningHit) : list ScreeningHit :=
  sort_by (λ x y, if priority y =? priority x then score_leb (h_score x) (h_score y) else priority y <? priority x) hits.

(** The higher of the two risks; the first one on a tie. *)
Definition higherRisk (a b : Z * string) : Z * string := if a.1 <? b.1 then b else a.

Definition withVersion (h : ScreeningHit) : ScreeningHit :=
  mkHit (h_listId h) (default 0 (dget (h_listId h) (en_versions this))) (h_entryId h) (h_matchedName h) (h_score h) (h_matchType h)
    (h_corroborated h) (h_corroboration h) (h_identity h) (h_direct h) (h_inferred h).

Definition screen (now : Z) (subject : ScreeningSubject) : outcome ScreeningResult :=
  let? _ := assertFresh now in
  let? _ := Jurisdiction.assertJurisdictionTable sha256 (Jurisdiction.FATF sha256) now fatfDays in
  let dob := Normalize.normalizeDob (su_dateOfBirth subject) in
  let nat_ := Normalize.normalizeCountry (su_nationality subject) in
  let res := Normalize.normalizeCountry (su_residence subject) in
  let nameAvailable := negb (bool_decide (c_names (en_corpus this) = [])) in
  let nameApplied := nameAvailable && negb (bool_decide (nameTokens nfd toLower isLetterOrNumber (su_fullName subject) = [])) in
  let walletApplied := negb (bool_decide (byWallet (en_corpus this) = [])) && isAddress20 (su_walletAddress subject) in
  let jurisdictionApplied := isIso2 nat_ && isIso2 res in
  let? found := screenNames nfc nfd toLower isLetterOrNumber (en_corpus this)
    (mkMatchInput (su_fullName subject) (su_romanizedName subject) dob nat_ (su_walletAddress subject)) in
  let hits := map withVersion found in
  let? risk := Jurisdiction.jurisdictionRisk sha256 now fatfDays nat_ in
  let? risk' := Jurisdiction.jurisdictionRisk sha256 now fatfDays res in
  let jr := higherRisk risk risk' in
  let '(decision, reason, band) := decide_ hits nameAvailable nameApplied jurisdictionApplied jr.1 dob in
  let methodsApplied := jsOr (if nameApplied then Methods.SANCTIONS_SCREENED else 0) (if jurisdictionApplied then Methods.JURISDICTION_CHECK else 0) in
  Ok (Issue.mkScreening decision reason band (orderHits hits) methodsApplied (versionsJson (en_versions this)) Normalize.ENGINE_VERSION
        (now / 1000) (screeningEvidence subject hits nameAvailable nameApplied walletApplied jurisdictionApplied jr dob)).

(** * What a result says *)

(** The fields of the decision computed from the result: the screenings that ran. *)
Definition nameScreened (subject : ScreeningSubject) : bool :=
  negb (bool_decide (c_names (en_corpus this) = []))
  && negb (bool_decide (nameTokens nfd toLower isLetterOrNumber (su_fullName subject) = [])).
Definition jurisdictionScreened (subject : ScreeningSubject) : bool :=
  isIso2 (Normalize.normalizeCountry (su_nationality subject)) && isIso2 (Normalize.normalizeCountry (su_residence subject)).
(** The code, as [jurisdictionRisk] looks it up, is on the call-for-action list. *)
Definition callForAction (code : string) : bool :=
  Identity.includes (Jurisdiction.callForAction (Jurisdiction.FATF sha256)) (toUpperCase (Normalize.normalizeCountry code)).

Lemma jurisdictionRisk_level now c risk : Jurisdiction.jurisdictionRisk sha256 now fatfDays (Normalize.normalizeCountry c) = Ok risk →
  0 ≤ risk.1 ≤ 2 ∧ (risk.1 =? 2) = callForAction c.
Proof.
  unfold Jurisdiction.jurisdictionRisk. intros (? & _ & H)%obind_ok. unfold callForAction.
  destruct (Identity.includes (Jurisdiction.callForAction _) _); [by injection H as <-|].
  destruct (Identity.includes _ _); by injection H as <-.
Qed.

Lemma higherRisk_level a b : a.1 ≤ 2 → b.1 ≤ 2 → ((higherRisk a b).1 =? 2) = (a.1 =? 2) || (b.1 =? 2).
Proof.
  intros Ha Hb. unfold higherRisk. destruct (Z.ltb_spec a.1 b.1); destruct (Z.eqb_spec a.1 2), (Z.eqb_spec b.1 2); simpl;
    try lia; try done; apply Z.eqb_neq; lia || apply Z.eqb_eq; lia.
Qed.

Lemma decide_spec hits nameAvailable nameApplied jurisdictionApplied level dob :
  let d := (decide_ hits nameAvailable nameApplied jurisdictionApplied level dob).1.1 in
  (d = Issue.BLOCK ↔ existsb isBlocking hits = true) ∧
  (d = Issue.ALLOW ↔ existsb isBlocking hits = false ∧ existsb isSuspicious hits = false ∧ nameAvailable = true ∧ nameApplied = true
     ∧ jurisdictionApplied = true ∧ (level =? 2) = false ∧ truthy dob = true) ∧
  (d = Issue.BLOCK → (decide_ hits nameAvailable nameApplied jurisdictionApplied level dob).2 = Issue.Band5).
Proof.
  unfold decide_. destruct (existsb isBlocking hits); [naive_solver|]. destruct (existsb isSuspicious hits); [naive_solver|].
  destruct nameAvailable; [|split_and!; [done|split; [done|by intros (_ & _ & ? & _)]|done]].
  destruct nameApplied; [|split_and!; [done|split; [done|by intros (_ & _ & _ & ? & _)]|done]].
  destruct jurisdictionApplied; [|split_and!; [done|split; [done|by intros (_ & _ & _ & _ & ? & _)]|done]]. cbn [negb orb].
  destruct (level =? 2); [split_and!; [done|split; [done|by intros (_ & _ & _ & _ & _ & ? & _)]|done]|].
  destruct (truthy dob); [|split_and!; [done|split; [done|by intros (_ & _ & _ & _ & _ & _ & ?)]|done]].
  cbn [negb]. by destruct (level =? 1).
Qed.

Lemma existsb_spec {A} (p : A → bool) l : existsb p l = true ↔ ∃ x, x ∈ l ∧ p x = true.
Proof. rewrite existsb_exists. by setoid_rewrite list_elem_of_In. Qed.
Lemma existsb_false {A} (p : A → bool) l : existsb p l = false ↔ ∀ x, x ∈ l → p x = false.
Proof.
  rewrite <- not_true_iff_false, existsb_spec. split.
  - intros H x Hx. apply not_true_iff_false. intros Hp. eauto.
  - intros H (x & Hx & Hp). rewrite H in Hp; [done|exact Hx].
Qed.

(** Every result comes from one run over the corpus. *)
Record Screened (now : Z) (subject : ScreeningSubject) (r : ScreeningResult) : Prop := {
  sc_fresh : ∃ u, assertFresh now = Ok u;
  sc_hits : ∃ found, screenNames nfc nfd toLower isLetterOrNumber (en_corpus this)
      (mkMatchInput (su_fullName subject) (su_romanizedName subject) (Normalize.normalizeDob (su_dateOfBirth subject))
         (Normalize.normalizeCountry (su_nationality subject)) (su_walletAddress subject)) = Ok found
      ∧ Issue.hits r ≡ₚ map withVersion found;
  sc_block : (Issue.decision r = Issue.BLOCK ↔ ∃ h, h ∈ Issue.hits r ∧ isBlocking h = true)
             ∧ (Issue.decision r = Issue.BLOCK → Issue.riskBand r = Issue.Band5);
  sc_allow : Issue.decision r = Issue.ALLOW ↔
      (∀ h, h ∈ Issue.hits r → isBlocking h = false ∧ isSuspicious h = false) ∧ nameScreened subject = true ∧ jurisdictionScreened subject = true
      ∧ callForAction (su_nationality subject) = false ∧ callForAction (su_residence subject) = false
      ∧ truthy (Normalize.normalizeDob (su_dateOfBirth subject)) = true;
  sc_methods : Issue.methodsApplied r = jsOr (if nameScreened subject then Methods.SANCTIONS_SCREENED else 0)
                                           (if jurisdictionScreened subject then Methods.JURISDICTION_CHECK else 0) }.

Lemma screen_screened now subject r : screen now subject = Ok r → Screened now subject r.
Proof.
  unfold screen. intros (u & Hu & (? & _ & (found & Hf & (risk & Hr & (risk' & Hr' & H)%obind_ok)%obind_ok)%obind_ok)%obind_ok)%obind_ok.
  destruct (jurisdictionRisk_level _ _ _ Hr) as [Hl E], (jurisdictionRisk_level _ _ _ Hr') as [Hl' E'].
  pose proof (higherRisk_level risk risk' ltac:(lia) ltac:(lia)) as Eh. rewrite E, E' in Eh.
  set (hits := map withVersion found) in *. set (na := negb (bool_decide (c_names _ = []))) in *.
  pose proof (decide_spec hits na (nameScreened subject) (jurisdictionScreened subject)
    (higherRisk risk risk').1 (Normalize.normalizeDob (su_dateOfBirth subject))) as (HB & HA & H5).
  fold (nameScreened subject) (jurisdictionScreened subject) in H.
  change (na && negb (bool_decide (nameTokens nfd toLower isLetterOrNumber (su_fullName subject) = []))) with (nameScreened subject) in H.
  destruct (decide_ _ _ _ _ _ _) as [[d reason] band] eqn:Ed. cbn [fst snd] in *. injection H as <-.
  assert (orderHits hits ≡ₚ hits) as Hp by apply sort_by_perm.
  split; cbn [Issue.hits Issue.decision Issue.riskBand Issue.methodsApplied].
  - eauto.
  - eauto.
  - split; [|exact H5]. rewrite HB, existsb_spec. by setoid_rewrite Hp.
  - rewrite HA, Eh, !existsb_false, orb_false_iff. setoid_rewrite Hp. split.
    + intros (H1 & H2 & _ & H3 & H4 & [H6 H7] & H8). split_and!; auto.
    + intros (H1 & H3 & H4 & H6 & H7 & H8). split_and!; try done; [intros h Hh; by apply H1..|].
      unfold nameScreened in H3. by apply andb_true_iff in H3 as [? _].
  - done.
Qed.

(** A result is produced from sources that are fresh at the time of the call only. *)
Lemma screened_fresh now subject r p : Screened now subject r → provenance this = Some p →
  Forall (FreshSource now (maxAgeHours this) p) LIST_IDS.
Proof.
  intros [[u Hu] _ _ _ _] Hp. unfold assertFresh in Hu. rewrite Hp in Hu. by eapply assertProvenance_fresh.
Qed.

Lemma screened_bits now subject r k : Screened now subject r → 0 ≤ k < 32 →
  Z.testbit (Issue.methodsApplied r) k = ((k =? 16) && nameScreened subject) || ((k =? 19) && jurisdictionScreened subject).
Proof.
  intros [_ _ _ _ ->] Hk. rewrite jsOr_bit by done. f_equal.
  - destruct (nameScreened subject); [|by rewrite Z.bits_0, andb_false_r]. change Methods.SANCTIONS_SCREENED with (2 ^ 16).
    rewrite Z.pow2_bits_eqb, Z.eqb_sym, andb_true_r by lia. done.
  - destruct (jurisdictionScreened subject); [|by rewrite Z.bits_0, andb_false_r]. change Methods.JURISDICTION_CHECK with (2 ^ 19).
    rewrite Z.pow2_bits_eqb, Z.eqb_sym, andb_true_r by lia. done.
Qed.

(** The hits that block: a listed wallet, or a corroborated name scored 0.88 or more whose full date of
    birth matches. *)
Definition Blocking (h : ScreeningHit) : Prop :=
  h_matchType h = Wallet
  ∨ h_corroborated h = true ∧ fgeb (h_score h) (fdec 88 100) = true ∧ ∃ c, h_identity h = Some c ∧ c_dob c = DobMatch.
(** The others that a human must look at: scored 0.82 or more, and not merely an inferred romanisation
    without anything else. *)
Definition NeedsReview (h : ScreeningHit) : Prop :=
  ¬ Blocking h ∧ fgeb (h_score h) (fdec 82 100) = true
  ∧ (h_matchType h ≠ Romanized ∨ (∃ d, h_direct h = Some d ∧ fgeb d (fdec 82 100) = true) ∨ h_corroborated h = true ∨ h_corroboration h ≠ []).

Lemma isBlocking_spec h : isBlocking h = true ↔ Blocking h.
Proof.
  unfold isBlocking, Blocking. rewrite orb_true_iff, !andb_true_iff, bool_decide_eq_true. destruct (h_identity h) as [c|].
  - rewrite bool_decide_eq_true. naive_solver.
  - naive_solver.
Qed.
Lemma isSuspicious_spec h : isSuspicious h = true ↔ NeedsReview h.
Proof.
  unfold isSuspicious, drivesDecision, NeedsReview. rewrite !andb_true_iff, !orb_true_iff, !negb_true_iff, !bool_decide_eq_false.
  rewrite <- isBlocking_spec, not_true_iff_false. assert (fgeb (default f0 (h_direct h)) (fdec 82 100) = true ↔
    ∃ d, h_direct h = Some d ∧ fgeb d (fdec 82 100) = true) as ->; [|tauto].
  destruct (h_direct h) as [d|]; simpl; [naive_solver|]. split; [by vm_compute|by intros (? & ? & _)].
Qed.
Lemma quiet_spec h : isBlocking h = false ∧ isSuspicious h = false ↔ ¬ Blocking h ∧ ¬ NeedsReview h.
Proof. by rewrite <- isBlocking_spec, <- isSuspicious_spec, !not_true_iff_false. Qed.

(** A hit is of an entry of the corpus; if it claims the same full date of birth, the entry lists the
    subject's. *)
Definition Grounded (subject : ScreeningSubject) (h : ScreeningHit) : Prop :=
  ∃ e, e ∈ entries (en_corpus this) ∧ h_listId h = listId e ∧ h_entryId h = entryId e
    ∧ ∀ c, h_identity h = Some c → c_dob c = DobMatch →
        ∃ d, Normalize.normalizeDob (su_dateOfBirth subject) = Some d ∧ precision d = Some Day ∧ d ∈ dobs e.
Lemma screened_grounded now subject r : Screened now subject r → Forall (Grounded subject) (Issue.hits r).
Proof.
  intros H. destruct (sc_hits _ _ _ H) as (found & Hf & Hp). rewrite Hp. apply Forall_fmap. eapply Forall_impl; [by eapply screenNames_OfEntry|].
  intros h (e & He & El & Ei & Hc). exists e. split_and!; [done|done|done|]. intros c Hid Hm. specialize (Hc c Hid).
  rewrite Hc in Hm. by apply compareDob_match.
Qed.

(** C4. A screening result is computed only while every list of the provenance is
    fresh; it is BLOCK exactly when some hit is a listed wallet or a corroborated name
    scored 0.88 or more with the same full date of birth; it is ALLOW exactly when no
    hit blocks and none needs review (scored 0.82 or more and more than an
    uncorroborated inferred romanisation), the name and both jurisdictions were
    screened, neither country is under a call for action, and a date of birth was given;
    every hit is of an entry of the corpus, and one that claims the same full date of
    birth is of an entry that lists the subject's; and the method bits are exactly those
    of the screenings that ran. *)
Theorem screening_decision (now : Z) (subject : ScreeningSubject) (r : ScreeningResult) : screen now subject = Ok r →
  (∀ p, provenance this = Some p → Forall (FreshSource now (maxAgeHours this) p) LIST_IDS) ∧
  (Issue.decision r = Issue.BLOCK ↔ ∃ h, h ∈ Issue.hits r ∧ Blocking h) ∧
  (Issue.decision r = Issue.ALLOW ↔
     (∀ h, h ∈ Issue.hits r → ¬ Blocking h ∧ ¬ NeedsReview h) ∧ nameScreened subject = true ∧ jurisdictionScreened subject = true
     ∧ callForAction (su_nationality subject) = false ∧ callForAction (su_residence subject) = false
     ∧ truthy (Normalize.normalizeDob (su_dateOfBirth subject)) = true) ∧
  Forall (Grounded subject) (Issue.hits r) ∧
  (∀ k, 0 ≤ k < 32 → Z.testbit (Issue.methodsApplied r) k =
     ((k =? 16) && nameScreened subject) || ((k =? 19) && jurisdictionScreened subject)).
Proof.
  intros H%screen_screened. split_and!.
  - intros p. by eapply screened_fresh.
  - setoid_rewrite <- isBlocking_spec. apply (sc_block _ _ _ H).
  - setoid_rewrite <- quiet_spec. apply (sc_allow _ _ _ H).
  - by eapply screened_grounded.
  - intros k. by apply (screened_bits now subject r k).
Qed.
End screen.

(** * A listed wallet is never issued to *)

Lemma construct_complete es versions key kid pep adverse prov age now this :
  construct es versions key kid pep adverse prov age now = Ok this → Complete nfc nfd toLower isLetterOrNumber es (en_corpus this).
Proof.
  unfold construct. intros (? & _ & (? & _ & (? & _ & (corpus & Hc & H)%obind_ok)%obind_ok)%obind_ok)%obind_ok.
  injection H as <-. by eapply buildCorpus_complete.
Qed.

Lemma listed_blocks es this e a now subject r : Complete nfc nfd toLower isLetterOrNumber es (en_corpus this) → e ∈ es → a ∈ cryptoAddresses e → isAddress20 a = true →
  toLowerCase (su_walletAddress subject) = toLowerCase a → screen this now subject = Ok r → Issue.decision r = Issue.BLOCK.
Proof.
  intros HC He Ha HA E H%screen_screened. apply (sc_block _ _ _ _ H). destruct (sc_hits _ _ _ _ H) as (found & Hf & Hp).
  eapply screenNames_listed in Hf as (x & Hx & Hw); [|exact HC|exact He|exact Ha|exact HA|exact E].
  exists (withVersion this x). rewrite Hp. split; [by apply list_elem_of_fmap_2|]. unfold isBlocking, withVersion. cbn [h_matchType].
  by rewrite Hw.
Qed.

(** The engine as the screening of an issuance; the texts of a request are those of its strings. *)
Definition subjectOf (s : Issue.ScreeningSubject) : ScreeningSubject :=
  mkSubject (textOf (Issue.su_fullName s)) (textOf <$> Issue.su_romanizedName s) (Issue.su_dateOfBirth s) (Issue.su_nationality s)
    (Issue.su_residence s) (Issue.su_walletAddress s).
Definition amlScreen (this : EngineState) (now : Z) (s : Issue.ScreeningSubject) : outcome ScreeningResult := screen this now (subjectOf s).

(** An issuance whose screening can only block is neither issued nor left to a reviewer. *)
Lemma blocked_never_issued (this : EngineState) (keccak256 toUtf8Bytes : _) abiEncodeClaim nfkc newSalt adapter req now out :
  (∀ s, amlScreen this now (Issue.issueSubject req) = Ok s → Issue.decision s = Issue.BLOCK) →
  Issue.runIssuance keccak256 toUtf8Bytes abiEncodeClaim nfkc newSalt adapter (amlScreen this now) req now = Ok out →
  match out with Issue.ISSUED _ => False | Issue.NotIssued status _ _ _ => status ≠ Issue.S_REVIEW end.
Proof.
  intros HB H. pose proof (Issue.issue_good keccak256 toUtf8Bytes abiEncodeClaim nfkc newSalt adapter (amlScreen this now) req now) as HG.
  unfold wp in HG. unfold Issue.runIssuance in H. rewrite H in HG. destruct out as [o|status reason h ev].
  - destruct HG as (_ & a' & s & e' & [_ _ _ [Hs Hd] _ _ _ _ _ _ _]). specialize (HB s Hs). congruence.
  - destruct HG as (_ & _ & Hrev). intros Es. destruct (Hrev Es) as (s & Hs & Hd). specialize (HB s Hs). congruence.
Qed.

(** The holder of an EVM address on a list the engine was built from, in any
    letter case, is blocked by every screening that returns, whatever name is given, and
    an issuance run over that engine never issues a mark to the address nor leaves it to
    a reviewer. *)
Theorem listed_wallet_never_issued (es : list SanctionEntry) (versions : list (string * Z)) (key : string) (kid : option string)
  (prov : option ListProvenance) (age t0 : Z) (this : EngineState) (e : SanctionEntry) (a : string) :
  construct es versions key kid false false prov age t0 = Ok this → e ∈ es → a ∈ cryptoAddresses e → isAddress20 a = true →
  (∀ now subject r, toLowerCase (su_walletAddress subject) = toLowerCase a → screen this now subject = Ok r →
     Issue.decision r = Issue.BLOCK) ∧
  (∀ keccak256 toUtf8Bytes abiEncodeClaim nfkc newSalt adapter req now out, toLowerCase (Issue.wallet req) = toLowerCase a →
     Issue.runIssuance keccak256 toUtf8Bytes abiEncodeClaim nfkc newSalt adapter (amlScreen this now) req now = Ok out →
     match out with Issue.ISSUED _ => False | Issue.NotIssued status _ _ _ => status ≠ Issue.S_REVIEW end).
Proof.
  intros HC%construct_complete He Ha HA. split; [intros now subject r; by eapply listed_blocks|].
  intros keccak256 toUtf8Bytes abiEncodeClaim nfkc newSalt adapter req now out E.
  apply blocked_never_issued. intros s. by eapply listed_blocks.
Qed.
End engine.
End Engine.

Module EngineExample.
Import Match MatchExample Provenance Engine.

(** A checksum in the place of SHA-256, and URLs taken apart after the protocol. *)
Definition exSha (s : string) : string :=
  Roster.hexDigits 64 (fold_left (λ acc c, (acc * 31 + Z.of_N (N_of_ascii c)) mod 2 ^ 30) (list_ascii_of_string s) 7).
Definition exParse (s : string) : option Url :=
  if String.eqb (slice 0 8 s) "https://" then Some (mkUrl "https:" (Kr.sliceFrom 8 s) s "") else None.
Definition exMac (key : string) (s : text) : string := exSha (key +:+ pretty (length s)).

Definition exAt : string := "2026-09-20T00:00:00.000Z".
Definition exSource (list url : string) : string * SourceEvidence :=
  (list, mkSource url "https://lists.example/file" (exSha url) exAt exAt None (exSha list) 4096 1).
Definition exManifest : ListProvenance := mkProvenance 2 PARSER_VERSION exAt (map (λ s, exSource s.1 s.2) SOURCES) "".
Definition exProvenance : ListProvenance :=
  mkProvenance 2 PARSER_VERSION exAt (pv_sources exManifest) (snapshotId exSha exManifest).
Definition exNow : Z := 1790000000000.

Definition exNoEngine : EngineState := mkEngine exEmpty [] "" None None 0.
Definition exEngine : EngineState := Eval vm_compute in
  ok_or exNoEngine (construct exNormal exNormal exLower exAlnum exSha exParse exEntries (listVersionsOf exProvenance) "key" None false false
    (Some exProvenance) 168 exNow).
Lemma exEngine_ok :
  construct exNormal exNormal exLower exAlnum exSha exParse exEntries (listVersionsOf exProvenance) "key" None false false
    (Some exProvenance) 168 exNow = Ok exEngine.
Proof. by vm_compute. Qed.

(** Somebody else, and the holder of the listed wallet. *)
Definition exSubject : ScreeningSubject := mkSubject (textOf "Ana Torres") None "1990-01-02" "PT" "ES" "0x00".
Definition exListed : ScreeningSubject := mkSubject (textOf "Ana Torres") None "1990-01-02" "PT" "ES" (toLowerCase exWallet).
Definition exDummy : ScreeningResult := Issue.mkScreening Issue.REVIEW None Issue.Band1 [] 0 JNull "" 0 JNull.
Definition exRun (subject : ScreeningSubject) : outcome ScreeningResult :=
  screen exNormal exNormal exLower exAlnum exSha exParse exMac 180 exEngine exNow subject.
Definition exResult : ScreeningResult := Eval vm_compute in ok_or exDummy (exRun exSubject).
Lemma exResult_ok : screen exNormal exNormal exLower exAlnum exSha exParse exMac 180 exEngine exNow exSubject = Ok exResult.
Proof. by vm_compute. Qed.
Definition exBlocked : ScreeningResult := Eval vm_compute in ok_or exDummy (exRun exListed).
Lemma exBlocked_ok : screen exNormal exNormal exLower exAlnum exSha exParse exMac 180 exEngine exNow exListed = Ok exBlocked.
Proof. by vm_compute. Qed.

Lemma exNamed : nameScreened exNormal exLower exAlnum exEngine exSubject = true.
Proof. by vm_compute. Qed.
Lemma exListed_same : toLowerCase (su_walletAddress exListed) = toLowerCase exWallet.
Proof. by vm_compute. Qed.
Lemma exListed_in : ∃ e, e ∈ exEntries ∧ exWallet ∈ cryptoAddresses e ∧ isAddress20 exWallet = true.
Proof. eexists. split_and!; [left|left|reflexivity]. Qed.

Lemma screening_decision_witness : Issue.decision exResult = Issue.ALLOW ∧ Z.testbit (Issue.methodsApplied exResult) 16 = true.
Proof.
  split; [reflexivity|].
  destruct (screening_decision exNormal exNormal exLower exAlnum exSha exParse exMac 180 exEngine exNow exSubject exResult
    exResult_ok) as (_ & _ & _ & _ & Hbits).
  assert (0 ≤ 16 < 32) as Hr by lia. specialize (Hbits 16 Hr).
  change ((16 =? 16) && nameScreened exNormal exLower exAlnum exEngine exSubject) with
    (nameScreened exNormal exLower exAlnum exEngine exSubject) in Hbits.
  rewrite exNamed in Hbits. exact Hbits.
Defined.

Lemma listed_wallet_never_issued_witness : Issue.decision exBlocked = Issue.BLOCK.
Proof.
  destruct exListed_in as (e & He & Ha & HA).
  destruct (listed_wallet_never_issued exNormal exNormal exLower exAlnum exSha exParse exMac 180 exEntries (listVersionsOf exProvenance)
    "key" None (Some exProvenance) 168 exNow exEngine e exWallet exEngine_ok He Ha HA) as [HB _].
  exact (HB exNow exListed exBlocked exListed_same exBlocked_ok).
Defined.
End EngineExample.
