(* ===== verification/Bank.v ===== *)
(** State of the one-won account verification, [src/pipeline/bank-state.ts]: the script that runs
    atomically in one Redis slot (Module BankScript), the client around it and the in-memory store of
    the demo (Module BankStores).  Whatever the interleaving of calls, a challenge admits few guesses
    and the start budgets bound them per account, wallet and flow; the demo store answers like the
    Redis one. *)

From Stdlib Require Import ZArith Lia Ascii String.
From stdpp Require Import base decidable option list gmap strings sorting.
From S2P Require Import Prelude JS Budget.
Local Open Scope string_scope.
Local Open Scope list_scope.
Local Open Scope Z_scope.
Local Open Scope js_scope.

Module BankScript.

(** [BANK_LIMITS]. *)
Definition attempts : Z := 5.
Definition flowStarts : Z := 3.
Definition accountStarts : Z := 3.
Definition walletStarts : Z := 5.
Definition globalStarts : Z := 1000.
Definition lifetimeMs : Z := 600000.
Definition budgetMs : Z := 86400000.

Record BankReservation := mkReservation {
  requestKey : string; flowKey : string; accountKey : string; walletKey : string; fingerprint : string; challengeId : string }.
#[export] Instance BankReservation_eq_dec : EqDecision BankReservation.
Proof. solve_decision. Defined.

(** The budget hashes [KEYS[2]] to [KEYS[5]]; the texts of the keys differ after the common prefix. *)
Inductive BudgetKey := KFlow (id : string) | KAccount (id : string) | KWallet (id : string) | KGlobal.
#[export] Instance BudgetKey_eq_dec : EqDecision BudgetKey.
Proof. solve_decision. Defined.
#[export] Instance BudgetKey_countable : Countable BudgetKey.
Proof.
  refine (inj_countable'
    (λ k, match k with KFlow i => inl (inl i) | KAccount i => inl (inr i) | KWallet i => inr (inl i) | KGlobal => inr (inr tt) end)
    (λ s, match s with inl (inl i) => KFlow i | inl (inr i) => KAccount i | inr (inl i) => KWallet i | inr (inr _) => KGlobal end) _).
  by intros [].
Defined.

Definition limitOf (k : BudgetKey) : Z :=
  match k with KFlow _ => flowStarts | KAccount _ => accountStarts | KWallet _ => walletStarts | KGlobal => globalStarts end.
Definition budgetKeys (input : BankReservation) : list BudgetKey :=
  [KFlow (flowKey input); KAccount (accountKey input); KWallet (walletKey input); KGlobal].

Inductive ChallengeState := Pending | Ready | Locked | Consumed.
#[export] Instance ChallengeState_eq_dec : EqDecision ChallengeState.
Proof. solve_decision. Defined.

(** A challenge is the hash [KEYS[1]] of a request; both kinds of keys expire. *)
Record Challenge := mkChallenge {
  c_state : ChallengeState; c_id : string; c_fingerprint : string; c_expires : Z; c_attempts : Z; c_response : option string;
  c_expireAt : Z }.
Record Budget := mkBudget { b_count : Z; b_current : option string; b_expireAt : Z }.
Record Redis := mkRedis { challenges : gmap string Challenge; budgets : gmap BudgetKey Budget }.

Inductive Reply :=
  | Reserved (expiresAt : Z) | Cached (response : string) | Activated | Verified | Mismatch (remaining : Z) | Code (code : string).

(** Keys past their expiry do not exist. *)
Definition expireKeys (now : Z) (db : Redis) : Redis :=
  mkRedis (filter (λ kv, now ≤ c_expireAt kv.2) (challenges db)) (filter (λ kv, now ≤ b_expireAt kv.2) (budgets db)).

Definition countOf (m : gmap BudgetKey Budget) (k : BudgetKey) : Z := default 0 (b_count <$> m !! k).
Definition currentOf (m : gmap BudgetKey Budget) (k : BudgetKey) : option string := m !! k ≫= b_current.

(** [HINCRBY count 1], and [PEXPIRE] on the first one. *)
Definition charge (now : Z) (m : gmap BudgetKey Budget) (k : BudgetKey) : gmap BudgetKey Budget :=
  let count := countOf m k + 1 in
  <[k := mkBudget count (currentOf m k) (if count =? 1 then now + budgetMs else default 0 (b_expireAt <$> m !! k))]> m.

(** [HSET current id]. *)
Definition setCurrent (k : BudgetKey) (id : string) (m : gmap BudgetKey Budget) : gmap BudgetKey Budget :=
  alter (λ b, mkBudget (b_count b) (Some id) (b_expireAt b)) k m.

Definition reserve (now : Z) (input : BankReservation) (db : Redis) : Reply * Redis :=
  match challenges db !! requestKey input with
  | Some c =>
      if negb (String.eqb (c_fingerprint c) (fingerprint input)) then (Code "CONFLICT", db)
      else if bool_decide (c_state c = Ready) && bool_decide (currentOf (budgets db) (KFlow (flowKey input)) = Some (c_id c))
              && (now <? c_expires c)
      then (Cached (default "" (c_response c)), db)
      else (Code (if bool_decide (c_state c = Pending) then "START_PENDING" else "CHALLENGE_UNAVAILABLE"), db)
  | None =>
      if existsb (λ k, limitOf k <=? countOf (budgets db) k) (budgetKeys input) then (Code "START_BUDGET_EXCEEDED", db)
      else
        (Reserved (now + lifetimeMs),
         mkRedis (<[requestKey input := mkChallenge Pending (challengeId input) (fingerprint input) (now + lifetimeMs) 0 None (now + budgetMs)]>
                    (challenges db))
           (setCurrent (KFlow (flowKey input)) (challengeId input) (fold_left (charge now) (budgetKeys input) (budgets db))))
  end.

(** What [activate] and [verify] check first. *)
Definition current (now : Z) (request flow id : string) (db : Redis) : Challenge + string :=
  match challenges db !! request with
  | Some c =>
      if negb (String.eqb (c_id c) id) || negb (bool_decide (currentOf (budgets db) (KFlow flow) = Some id)) then inr "CHALLENGE_UNAVAILABLE"
      else if c_expires c <=? now then inr "CHALLENGE_EXPIRED" else inl c
  | None => inr "CHALLENGE_UNAVAILABLE"
  end.

Definition put (request : string) (c : Challenge) (db : Redis) : Redis := mkRedis (<[request := c]> (challenges db)) (budgets db).
Definition withState (s : ChallengeState) (response : option string) (c : Challenge) : Challenge :=
  mkChallenge s (c_id c) (c_fingerprint c) (c_expires c) (c_attempts c) response (c_expireAt c).
Definition withAttempts (n : Z) (c : Challenge) : Challenge :=
  mkChallenge (c_state c) (c_id c) (c_fingerprint c) (c_expires c) n (c_response c) (c_expireAt c).

Definition activate (now : Z) (request flow id response : string) (db : Redis) : Reply * Redis :=
  match current now request flow id db with
  | inr code => (Code code, db)
  | inl c =>
      if bool_decide (c_state c = Pending) then (Activated, put request (withState Ready (Some response) c) db)
      else (Code "CHALLENGE_UNAVAILABLE", db)
  end.

Definition verify (now : Z) (request flow id : string) (matches : bool) (db : Redis) : Reply * Redis :=
  match current now request flow id db with
  | inr code => (Code code, db)
  | inl c =>
      if bool_decide (c_state c = Locked) then (Code "TOO_MANY_ATTEMPTS", db)
      else if negb (bool_decide (c_state c = Ready)) then (Code "CHALLENGE_UNAVAILABLE", db)
      else if matches then (Verified, put request (withState Consumed None c) db)
      else
        let c := withAttempts (c_attempts c + 1) c in
        if attempts <=? c_attempts c then (Code "TOO_MANY_ATTEMPTS", put request (withState Locked None c) db)
        else (Mismatch (attempts - c_attempts c), put request c db)
  end.

Inductive Op :=
  | OpReserve (input : BankReservation)
  | OpActivate (request flow id response : string)
  | OpVerify (request flow id : string) (matches : bool).

(** The whole script, at the time of the server. *)
Definition script (now : Z) (op : Op) (db0 : Redis) : Reply * Redis :=
  let db := expireKeys now db0 in
  match op with
  | OpReserve input => reserve now input db
  | OpActivate request flow id response => activate now request flow id response db
  | OpVerify request flow id matches => verify now request flow id matches db
  end.

(** The call compares the code with the answer: its challenge is ready. *)
Definition compared (now : Z) (op : Op) (db : Redis) : bool :=
  match op with
  | OpVerify request flow id _ =>
      match current now request flow id (expireKeys now db) with inl c => bool_decide (c_state c = Ready) | inr _ => false end
  | _ => false
  end.
Definition requestOf (op : Op) : string :=
  match op with OpReserve input => requestKey input | OpActivate request _ _ _ | OpVerify request _ _ _ => request end.
Definition isReserved (r : Reply) : bool := match r with Reserved _ => true | _ => false end.
Definition isVerified (r : Reply) : bool := match r with Verified => true | _ => false end.

(** A sequence of calls, by any clients, with the times of the server; each with its state. *)
Definition Call : Type := Z * Op.
Record Event := mkEvent { e_at : Z; e_op : Op; e_reply : Reply; e_compared : bool }.
Fixpoint trace (calls : list Call) (db : Redis) : list Event :=
  match calls with
  | [] => []
  | (now, op) :: calls => let r := script now op db in mkEvent now op r.1 (compared now op db) :: trace calls r.2
  end.
Definition empty : Redis := mkRedis ∅ ∅.

Definition count (p : Event → bool) (l : list Event) : Z := Z.of_nat (length (filter (λ e, p e = true) l)).
Lemma count_cons p e l : count p (e :: l) = (if p e then 1 else 0) + count p l.
Proof. unfold count. rewrite filter_cons. destruct (p e); simpl; lia. Qed.

(** * One step on a challenge *)

Definition WfChallenge (c : Challenge) : Prop :=
  0 ≤ c_attempts c ≤ attempts ∧ (c_state c = Pending ∨ c_state c = Ready → c_attempts c < attempts).
Definition Wf (db : Redis) : Prop := ∀ k c, challenges db !! k = Some c → WfChallenge c.

(** What a call that compares a code or not makes of a challenge. *)
Definition Put (r : Reply) (cmp : bool) (c c' : Challenge) : Prop :=
  cmp = false ∧ isVerified r = false ∧ c_state c = Pending ∧ c' = withState Ready (c_response c') c
  ∨ cmp = true ∧ c_state c = Ready ∧
    (isVerified r = true ∧ c' = withState Consumed None c
     ∨ isVerified r = false ∧ c_attempts c' = c_attempts c + 1 ∧
       (c_state c' = Ready ∧ c_attempts c' < attempts ∨ c_state c' = Locked ∧ c_attempts c' = attempts)).

(** What a call does to the challenge of its request. *)
Inductive Change (now : Z) (op : Op) (db : Redis) : Reply → Redis → Prop :=
  | ChNone r : (isReserved r = false) → isVerified r = false → compared now op db = false → Change now op db r (expireKeys now db)
  | ChStart input db' : op = OpReserve input → challenges (expireKeys now db) !! requestKey input = None →
      challenges db' = <[requestKey input := mkChallenge Pending (challengeId input) (fingerprint input) (now + lifetimeMs) 0 None (now + budgetMs)]>
                         (challenges (expireKeys now db)) →
      Change now op db (Reserved (now + lifetimeMs)) db'
  | ChPut c c' r : challenges (expireKeys now db) !! requestOf op = Some c → c_expires c' = c_expires c → now < c_expires c →
      isReserved r = false →
      Put r (compared now op db) c c' →
      Change now op db r (put (requestOf op) c' (expireKeys now db)).

Lemma current_inl now request flow id db c : current now request flow id db = inl c →
  challenges db !! request = Some c ∧ c_id c = id ∧ currentOf (budgets db) (KFlow flow) = Some id ∧ now < c_expires c.
Proof.
  unfold current. destruct (challenges db !! request) as [c0|]; [|done].
  destruct (String.eqb_spec (c_id c0) id); [|done]. destruct (bool_decide_reflect (currentOf (budgets db) (KFlow flow) = Some id)); [|done].
  cbn [negb orb]. destruct (Z.leb_spec (c_expires c0) now); [done|]. by intros [= <-].
Qed.

Lemma expireKeys_Wf now db : Wf db → Wf (expireKeys now db).
Proof. intros H k c [Hk _]%map_lookup_filter_Some. by eapply H. Qed.

Lemma script_change now op db : Wf db → Change now op db (script now op db).1 (script now op db).2.
Proof.
  intros HW%(expireKeys_Wf now). unfold script. destruct op as [input|request flow id response|request flow id matches].
  - unfold reserve. destruct (challenges _ !! _) as [c|] eqn:Ec.
    + destruct (negb _); [by apply ChNone|]. destruct (_ && _); by apply ChNone.
    + destruct (existsb _ _); [by apply ChNone|]. by eapply ChStart.
  - unfold activate. destruct (current _ _ _ _ _) as [c|code] eqn:Ec; [|by apply ChNone].
    destruct (bool_decide_reflect (c_state c = Pending)); [|by apply ChNone].
    apply current_inl in Ec as (Ec & _ & _ & Hn). by eapply (ChPut now (OpActivate request flow id response)); [exact Ec|done|done|done|left].
  - unfold verify. destruct (current _ _ _ _ _) as [c|code] eqn:Ec.
    2: { apply ChNone; [done|done|]. cbn. by rewrite Ec. }
    assert (compared now (OpVerify request flow id matches) db = bool_decide (c_state c = Ready)) as Ecmp by (cbn; by rewrite Ec).
    destruct (bool_decide_reflect (c_state c = Locked)) as [El|]; [apply ChNone; [done|done|by rewrite Ecmp, El]|].
    destruct (bool_decide_reflect (c_state c = Ready)) as [Er|]; cbn [negb]; [|by apply ChNone].
    apply current_inl in Ec as (Ec & _ & _ & Hn). destruct (HW _ _ Ec) as [Ha Hlt]. specialize (Hlt (or_intror Er)).
    destruct matches; [by eapply (ChPut now (OpVerify request flow id true)); [exact Ec|done|done|done|right; split; [done|split; [done|by left]]]|].
    cbn zeta. cbn [c_attempts withAttempts].
    destruct (Z.leb_spec attempts (c_attempts c + 1)); eapply (ChPut now (OpVerify request flow id false));
      [exact Ec|done|done|done| |exact Ec|done|done|done|]; right; (split; [done|]); (split; [done|]); right; (split; [done|]); (split; [done|]).
    + right. cbn. split; [done|lia].
    + left. split; [exact Er|cbn; lia].
Qed.

Lemma Change_Wf now op db r db' : Wf db → Change now op db r db' → Wf db'.
Proof.
  intros HW%(expireKeys_Wf now) H. destruct H as [r _ _ _|input db' _ _ E|c c' r Hc _ _ _ H]; [done| |].
  - intros k c. rewrite E, lookup_insert_Some. intros [[<- <-]|[_ Hk]]; [|by eapply HW]. split; [done|]. cbn. unfold attempts. lia.
  - intros k c0. cbn [put challenges]. rewrite lookup_insert_Some. intros [[<- <-]|[_ Hk]]; [|by eapply HW].
    destruct (HW _ _ Hc) as [Ha Hl]. unfold WfChallenge. destruct H as [(_ & _ & Es & ->)|(_ & Es & [(_ & ->)|(_ & Ea & [[E1 E2]|[E1 E2]])])]; cbn.
    + split; [done|]. intros _. apply Hl. by left.
    + split; [done|]. by intros [|].
    + split; [lia|done].
    + split; [lia|]. rewrite E1. by intros [|].
Qed.

(** * Counting what starts allow *)

Section potential.
Context (S : string → bool) (lo : Z).
(** What a challenge still allows, and what a call uses of it. *)
Context (weight : Challenge → Z) (w0 : Z) (used : Event → bool).
Hypothesis weight_pos : ∀ c, WfChallenge c → 0 ≤ weight c.
Hypothesis weight_new : ∀ id f e x, weight (mkChallenge Pending id f e 0 None x) = w0.
Hypothesis used_none : ∀ now op r, isVerified r = false → used (mkEvent now op r false) = false.
Hypothesis used_put : ∀ now op r cmp c c', WfChallenge c → Put r cmp c c' →
  weight c' + (if used (mkEvent now op r cmp) then 1 else 0) ≤ weight c.

Definition gained (c : Challenge) : Z := if lo <? c_expires c then weight c else 0.
Definition potential (m : gmap string Challenge) : Z := sumMap gained (filter (λ kv, S kv.1 = true) m).

(** Uses from [lo] on, and the starts whose challenges may live then. *)
Definition usedFrom (e : Event) : bool := used e && S (requestOf (e_op e)) && (lo <=? e_at e).
Definition startedFrom (e : Event) : bool := isReserved (e_reply e) && S (requestOf (e_op e)) && (lo - lifetimeMs <? e_at e).

Lemma gained_pos c : WfChallenge c → 0 ≤ gained c.
Proof. intros H%weight_pos. unfold gained. destruct (_ <? _); lia. Qed.

Lemma potential_insert m k c : m !! k = None → potential (<[k := c]> m) = (if S k then gained c else 0) + potential m.
Proof.
  intros Hk. unfold potential. destruct (S k) eqn:Es.
  - rewrite map_filter_insert_True by done. apply sumMap_fresh. apply map_lookup_filter_None. by left.
  - rewrite map_filter_insert_not' by (intros; simpl in *; congruence). lia.
Qed.

Lemma potential_update m k c c' : m !! k = Some c → potential (<[k := c']> m) = (if S k then gained c' - gained c else 0) + potential m.
Proof.
  intros Hk. unfold potential. destruct (S k) eqn:Es.
  - rewrite map_filter_insert_True by done. apply sumMap_update. by apply map_lookup_filter_Some.
  - rewrite map_filter_insert_not' by (intros; simpl in *; congruence). lia.
Qed.

Lemma potential_expire now db : Wf db → 0 ≤ potential (challenges (expireKeys now db)) ≤ potential (challenges db).
Proof.
  intros HW. unfold potential. cbn [expireKeys challenges].
  assert (∀ k c, filter (λ kv, S kv.1 = true) (challenges db) !! k = Some c → 0 ≤ gained c) as Hg.
  { intros k c [Hk _]%map_lookup_filter_Some. by eapply gained_pos, HW. }
  pose proof (sumMap_filter gained (filter (λ kv, S kv.1 = true) (challenges db)) (λ kv, now ≤ c_expireAt kv.2) Hg) as H.
  rewrite map_filter_comm in H. exact H.
Qed.

Lemma potential_step now op db r db' : Wf db → Change now op db r db' →
  let e := mkEvent now op r (compared now op db) in
  potential (challenges db') + (if usedFrom e then 1 else 0) ≤ potential (challenges db) + (if startedFrom e then w0 else 0).
Proof.
  intros HW H e. pose proof (potential_expire now db HW) as Hx. pose proof (expireKeys_Wf now db HW) as HW'.
  unfold usedFrom, startedFrom, e in *. cbn [e_op e_at e_reply] in *.
  destruct H as [r Hr Hv Hc|input db' -> Hn E|c c' r Hc He Hn Hr H].
  - rewrite Hr, Hc, used_none by done. cbn [andb]. lia.
  - rewrite E, potential_insert by done. cbn [isReserved requestOf compared].
    rewrite used_none by done. cbn [andb]. unfold gained. cbn [c_expires]. rewrite weight_new.
    destruct (S (requestKey input)); cbn [andb]; [|lia].
    destruct (Z.ltb_spec lo (now + lifetimeMs)), (Z.ltb_spec (lo - lifetimeMs) now); lia.
  - cbn [put challenges]. rewrite (potential_update _ _ c c') by done. rewrite Hr. cbn [andb].
    pose proof (used_put now op r (compared now op db) c c' (HW' _ _ Hc) H) as Hu.
    destruct (S (requestOf op)); [|rewrite andb_false_r; cbn [andb]; lia]. rewrite andb_true_r.
    unfold gained. rewrite He. destruct (used _); cbn [andb]; destruct (Z.ltb_spec lo (c_expires c)), (Z.leb_spec lo now); lia.
Qed.

Lemma potential_bound calls db : Wf db →
  count usedFrom (trace calls db) ≤ potential (challenges db) + w0 * count startedFrom (trace calls db).
Proof.
  revert db. induction calls as [|[now op] calls IH]; intros db HW; cbn [trace].
  - unfold count. simpl. pose proof (potential_expire 0 db HW). lia.
  - pose proof (script_change now op db HW) as HC. specialize (IH _ (Change_Wf _ _ _ _ _ HW HC)).
    pose proof (potential_step _ _ _ _ _ HW HC) as Hs. cbv zeta in Hs. rewrite !count_cons.
    destruct (usedFrom _), (startedFrom _); lia.
Qed.
End potential.

(** * Start budgets *)

Lemma charge_lookup now m k k' : charge now m k !! k' =
  if decide (k = k') then Some (mkBudget (countOf m k + 1) (currentOf m k)
      (if countOf m k + 1 =? 1 then now + budgetMs else default 0 (b_expireAt <$> m !! k))) else m !! k'.
Proof. unfold charge. destruct (decide (k = k')) as [->|]; [by rewrite lookup_insert_eq|by rewrite lookup_insert_ne]. Qed.

Lemma charges_lookup now ks m k : NoDup ks → fold_left (charge now) ks m !! k = if decide (k ∈ ks) then charge now m k !! k else m !! k.
Proof.
  revert m. induction ks as [|k0 ks IH]; intros m Hd; cbn [fold_left]; [by rewrite decide_False by set_solver|].
  apply NoDup_cons in Hd as [Hk Hd]. rewrite IH by done. destruct (decide (k0 = k)) as [->|Hne].
  - rewrite decide_False by done. by rewrite decide_True by set_solver.
  - assert (charge now m k0 !! k = m !! k) as Em by (rewrite charge_lookup; by rewrite decide_False).
    rewrite Em, (charge_lookup now (charge now m k0)). unfold countOf, currentOf. rewrite !Em, charge_lookup.
    destruct (decide (k ∈ ks)); [rewrite !decide_True by set_solver; done|by rewrite decide_False by set_solver].
Qed.

Lemma budgetKeys_NoDup input : NoDup (budgetKeys input).
Proof. unfold budgetKeys. repeat (apply NoDup_cons; split; [set_solver|]). constructor. Qed.

Lemma setCurrent_lookup k id m k' : ∃ f, (∀ b, b_count (f b) = b_count b ∧ b_expireAt (f b) = b_expireAt b) ∧
  setCurrent k id m !! k' = f <$> m !! k'.
Proof.
  unfold setCurrent. destruct (decide (k = k')) as [->|Hne].
  - exists (λ b, mkBudget (b_count b) (Some id) (b_expireAt b)). split; [done|]. by rewrite lookup_alter_eq.
  - exists (λ b, b). split; [done|]. rewrite lookup_alter_ne by done. by rewrite option_fmap_id.
Qed.

(** The count of a key and the end of its window, as one call leaves them. *)
Definition windowOf (k : BudgetKey) (db : Redis) : option (Z * Z) := (λ b, (b_count b, b_expireAt b)) <$> budgets db !! k.

Lemma script_window now op db k :
  let w := windowOf k (expireKeys now db) in let n := default 0 (fst <$> w) in
  windowOf k (script now op db).2 = w ∧ (∀ input, op = OpReserve input → isReserved (script now op db).1 = true → k ∉ budgetKeys input)
  ∨ ∃ input, op = OpReserve input ∧ k ∈ budgetKeys input ∧ isReserved (script now op db).1 = true ∧ n < limitOf k
      ∧ windowOf k (script now op db).2 = Some (n + 1, if n + 1 =? 1 then now + budgetMs else default 0 (snd <$> w)).
Proof.
  intros w n. unfold script. destruct op as [input|request flow id response|request flow id matches].
  - unfold reserve. destruct (challenges _ !! _) as [c|].
    { left. destruct (negb _); [done|]. by destruct (_ && _). }
    destruct (existsb _ _) eqn:Ex; [by left|]. cbn [fst snd isReserved].
    destruct (decide (k ∈ budgetKeys input)) as [Hk|Hk].
    + right. exists input. assert (countOf (budgets (expireKeys now db)) k = n) as En.
      { unfold n, w, windowOf, countOf. by destruct (budgets (expireKeys now db) !! k). }
      split_and!; try done.
      * rewrite <- En. apply not_true_iff_false in Ex. apply Z.nle_gt. intros Hle. apply Ex, existsb_exists. exists k.
        split; [by apply list_elem_of_In|by apply Z.leb_le].
      * unfold windowOf. cbn [budgets]. destruct (setCurrent_lookup (KFlow (flowKey input)) (challengeId input)
          (fold_left (charge now) (budgetKeys input) (budgets (expireKeys now db))) k) as (f & Hf & ->).
        rewrite charges_lookup by apply budgetKeys_NoDup. rewrite decide_True, charge_lookup, decide_True by done.
        cbn [fmap option_fmap option_map]. destruct (Hf (mkBudget (countOf (budgets (expireKeys now db)) k + 1)
          (currentOf (budgets (expireKeys now db)) k) (if countOf (budgets (expireKeys now db)) k + 1 =? 1 then now + budgetMs
            else default 0 (b_expireAt <$> budgets (expireKeys now db) !! k)))) as [-> ->]. cbn [b_count b_expireAt]. rewrite En.
        do 3 f_equal. unfold w, windowOf. by destruct (budgets (expireKeys now db) !! k).
    + left. split; [|by intros ? [= <-]]. unfold windowOf. cbn [budgets].
      destruct (setCurrent_lookup (KFlow (flowKey input)) (challengeId input)
          (fold_left (charge now) (budgetKeys input) (budgets (expireKeys now db))) k) as (f & Hf & ->).
      rewrite charges_lookup by apply budgetKeys_NoDup. rewrite decide_False by done. unfold w, windowOf.
      destruct (budgets (expireKeys now db) !! k) as [b|]; [|done]. cbn. by destruct (Hf b) as [-> ->].
  - left. split; [|done]. unfold activate. destruct (current _ _ _ _ _) as [c|]; [|done]. by destruct (bool_decide _).
  - left. split; [|done]. unfold verify. destruct (current _ _ _ _ _) as [c|]; [|done].
    destruct (bool_decide _); [done|]. destruct (negb _); [done|]. destruct matches; [done|]. cbn zeta. by destruct (_ <=? _).
Qed.

Section window.
(** The starts charged to [k] in the budget window from [u] on. *)
Context (k : BudgetKey) (u : Z).
Definition chargesKey (op : Op) : bool := match op with OpReserve input => bool_decide (k ∈ budgetKeys input) | _ => false end.
Definition startOf (e : Event) : bool := isReserved (e_reply e) && chargesKey (e_op e) && (u <? e_at e).

(** After [s] starts, the last of them, if any, at [t]. *)
Record Window (t s : Z) (w : option (Z * Z)) : Prop := {
  wi_count : ∀ n x, w = Some (n, x) → 1 ≤ n ≤ limitOf k;
  wi_starts : s ≤ match w with Some (n, x) => if x <=? u + budgetMs then n else limitOf k + n | None => limitOf k end;
  wi_late : t ≤ u → s ≤ 0 }.

Lemma limit_pos : 0 < limitOf k.
Proof. by destruct k. Qed.

Lemma window_expire t s now db : t ≤ now ≤ u + budgetMs → Window t s (windowOf k db) → Window now s (windowOf k (expireKeys now db)).
Proof.
  intros Hn [H1 H2 H3]. pose proof limit_pos. unfold windowOf, expireKeys in *. cbn [budgets] in *.
  destruct (filter (λ kv, now ≤ b_expireAt kv.2) (budgets db) !! k) as [b|] eqn:E; cbn.
  - apply map_lookup_filter_Some in E as [E _]. rewrite E in *. cbn in *. split; [exact H1|exact H2|]. intros. apply H3. lia.
  - apply map_lookup_filter_None in E as [E|E].
    + rewrite E in *. cbn in *. split; [done|done|]. intros. apply H3. lia.
    + split; [done| |intros; apply H3; lia]. destruct (budgets db !! k) as [b|]; [|exact H2]. cbn in *.
      specialize (E b eq_refl). cbn in E. destruct (Z.leb_spec (b_expireAt b) (u + budgetMs)); [|lia]. destruct (H1 _ _ eq_refl). lia.
Qed.

Lemma window_step t s now op db : t ≤ now ≤ u + budgetMs → Window t s (windowOf k db) →
  let e := mkEvent now op (script now op db).1 (compared now op db) in
  Window now (s + if startOf e then 1 else 0) (windowOf k (script now op db).2).
Proof.
  intros Hn HI%(window_expire _ _ now); [|done]. cbv zeta. pose proof limit_pos.
  destruct (script_window now op db k) as [[-> Hno]|(input & -> & Hk & Hr & Hlt & ->)].
  - replace (startOf _) with false; [by rewrite Z.add_0_r|]. unfold startOf. cbn. destruct (isReserved _) eqn:Er; [|done].
    destruct op as [input| |]; try done. cbn. by rewrite bool_decide_eq_false_2 by (by apply Hno).
  - unfold startOf. cbn [e_reply e_op e_at chargesKey]. rewrite Hr, bool_decide_eq_true_2 by done. cbn [andb].
    destruct HI as [H1 H2 H3]. destruct (windowOf k (expireKeys now db)) as [[n x]|]; cbn in *.
    + destruct (H1 _ _ eq_refl) as [Hn1 Hn2]. replace (n + 1 =? 1) with false by (symmetry; apply Z.eqb_neq; lia).
      split.
      * intros ? ? [= <- <-]. lia.
      * destruct (x <=? u + budgetMs), (u <? now); lia.
      * intros Hu. destruct (Z.ltb_spec u now); [lia|]. specialize (H3 Hu). lia.
    + cbn. split.
      * intros ? ? [= <- <-]. lia.
      * change (0 + 1 =? 1) with true. cbn match. destruct (Z.leb_spec (now + budgetMs) (u + budgetMs)), (Z.ltb_spec u now); lia.
      * intros Hu. destruct (Z.ltb_spec u now); [lia|]. specialize (H3 Hu). lia.
Qed.

Fixpoint Ordered (t : Z) (calls : list Call) : Prop :=
  match calls with [] => True | c :: calls => t ≤ c.1 ∧ Ordered c.1 calls end.

Lemma window_starts calls t s db : Window t s (windowOf k db) → Ordered t calls → Forall (λ c, c.1 ≤ u + budgetMs) calls →
  s + count startOf (trace calls db) ≤ 2 * limitOf k.
Proof.
  revert t s db. induction calls as [|[now op] calls IH]; intros t s db HI HO HF; cbn [trace].
  - unfold count. simpl. destruct HI as [H1 H2 _]. pose proof limit_pos. destruct (windowOf k db) as [[n x]|]; [|lia].
    destruct (H1 _ _ eq_refl). destruct (_ <=? _); lia.
  - destruct HO as [Ht HO]. apply Forall_cons in HF as [Hu HF]. cbn in Ht, Hu.
    pose proof (window_step t s now op db (conj Ht Hu) HI) as HI'. cbv zeta in HI'.
    specialize (IH _ _ _ HI' HO HF). rewrite count_cons. lia.
Qed.
End window.

(** * The bounds *)

Definition remaining (c : Challenge) : Z :=
  match c_state c with Pending | Ready => attempts - c_attempts c | _ => 0 end.
Definition open (c : Challenge) : Z := match c_state c with Pending | Ready => 1 | _ => 0 end.
Definition verifiedEvent (e : Event) : bool := isVerified (e_reply e).

Lemma remaining_pos c : WfChallenge c → 0 ≤ remaining c.
Proof. intros [Ha _]. unfold remaining. destruct (c_state c); lia. Qed.
Lemma open_pos c : WfChallenge c → 0 ≤ open c.
Proof. intros _. unfold open. destruct (c_state c); lia. Qed.

(** The codes compared, and the codes accepted, for the requests [S] from [lo] on. *)
Definition guess (S : string → bool) (lo : Z) (e : Event) : bool := e_compared e && S (requestOf (e_op e)) && (lo <=? e_at e).
Definition accept (S : string → bool) (lo : Z) (e : Event) : bool := isVerified (e_reply e) && S (requestOf (e_op e)) && (lo <=? e_at e).

Lemma empty_Wf : Wf empty.
Proof. intros k c Hk. cbn [empty challenges] in Hk. by apply lookup_empty_Some in Hk. Qed.

Lemma guesses_starts S lo calls : count (guess S lo) (trace calls empty) ≤ attempts * count (startedFrom S lo) (trace calls empty).
Proof.
  assert (∀ now op r cmp c c', WfChallenge c → Put r cmp c c' →
    remaining c' + (if e_compared (mkEvent now op r cmp) then 1 else 0) ≤ remaining c) as Hput.
  { intros now op r cmp c c' [Ha Hl] Hp. unfold remaining.
    destruct Hp as [(-> & _ & Es & ->)|(-> & Es & [(_ & ->)|(_ & Ea & [[E1 E2]|[E1 E2]])])]; rewrite Es in *; cbn; [lia| |rewrite E1; lia..].
    specialize (Hl (or_intror eq_refl)). lia. }
  exact (potential_bound S lo remaining attempts e_compared remaining_pos ltac:(done) ltac:(done) Hput calls empty empty_Wf).
Qed.

Lemma accepts_starts S lo calls : count (accept S lo) (trace calls empty) ≤ count (startedFrom S lo) (trace calls empty).
Proof.
  assert (∀ now op r cmp c c', WfChallenge c → Put r cmp c c' → open c' + (if isVerified (e_reply (mkEvent now op r cmp)) then 1 else 0) ≤ open c) as Hput.
  { intros now op r cmp c c' _ Hp. unfold open. cbn [e_reply].
    destruct Hp as [(-> & -> & Es & ->)|(-> & Es & [(-> & ->)|(-> & Ea & [[E1 E2]|[E1 E2]])])]; rewrite Es; cbn; [lia|lia|rewrite E1; lia..]. }
  pose proof (potential_bound S lo open 1 (λ e, isVerified (e_reply e)) open_pos ltac:(done) ltac:(done) Hput calls empty empty_Wf) as H.
  rewrite Z.mul_1_l in H. exact H.
Qed.

Lemma count_mono p q l : (∀ e, e ∈ l → p e = true → q e = true) → count p l ≤ count q l.
Proof.
  induction l as [|e l IH]; intros H; [done|]. rewrite !count_cons.
  assert (count p l ≤ count q l) by (apply IH; intros e' He'; apply H; by right).
  pose proof (H e ltac:(left)) as He. destruct (p e), (q e); lia.
Qed.

Lemma trace_calls calls db e : Wf db → e ∈ trace calls db →
  (e_at e, e_op e) ∈ calls ∧ (isReserved (e_reply e) = true → ∃ input, e_op e = OpReserve input).
Proof.
  revert db. induction calls as [|[now op] calls IH]; intros db HW; cbn [trace]; [by intros ?%elem_of_nil|].
  pose proof (script_change now op db HW) as HC. intros [->|He]%elem_of_cons.
  - split; [left|]. cbn. intros Hr. destruct HC as [r Hr' _ _|input db' -> _ _|c c' r _ _ _ Hr' _]; [congruence|eauto|congruence].
  - destruct (IH _ (Change_Wf _ _ _ _ _ HW HC) He) as [H1 H2]. split; [by right|exact H2].
Qed.

Lemma starts_bound calls S k t lo : Ordered t calls → Forall (λ c, c.1 ≤ lo - lifetimeMs + budgetMs) calls →
  (∀ now input, (now, OpReserve input) ∈ calls → S (requestKey input) = true → k ∈ budgetKeys input) →
  count (startedFrom S lo) (trace calls empty) ≤ 2 * limitOf k.
Proof.
  intros HO HF Hk. pose proof (limit_pos k) as Hpos.
  assert (Window k (lo - lifetimeMs) t 0 (windowOf k empty)) as HI by (split; [done|exact (Z.lt_le_incl _ _ Hpos)|done]).
  pose proof (window_starts k (lo - lifetimeMs) calls t 0 empty HI HO HF) as H. rewrite Z.add_0_l in H.
  etrans; [|exact H]. apply count_mono. intros e [He Hop]%trace_calls; [|exact empty_Wf]. unfold startedFrom, startOf.
  rewrite !andb_true_iff. intros [[Hr HS] Ht]. destruct (Hop Hr) as [input Ei]. rewrite Ei in *. split_and!; [done| |done].
  cbn in *. apply bool_decide_eq_true. by eapply Hk.
Qed.

(** C25. Whatever the clients call, in any order: among the requests whose starts
    are charged to a budget key, in any interval as long as a budget window less the
    life of a challenge, at most five codes for each of twice the start limit of that
    key are compared, and at most twice that limit are accepted; and codes are accepted
    at most once for each start whose challenge may live in that interval. *)
Theorem bank_guesses_bounded (calls : list Call) (S : string → bool) (k : BudgetKey) (t lo : Z) :
  Ordered t calls → Forall (λ c, c.1 ≤ lo - lifetimeMs + budgetMs) calls →
  (∀ now input, (now, OpReserve input) ∈ calls → S (requestKey input) = true → k ∈ budgetKeys input) →
  count (guess S lo) (trace calls empty) ≤ attempts * (2 * limitOf k) ∧
  count (accept S lo) (trace calls empty) ≤ 2 * limitOf k ∧
  count (accept S lo) (trace calls empty) ≤ count (startedFrom S lo) (trace calls empty).
Proof.
  intros HO HF Hk. pose proof (starts_bound calls S k t lo HO HF Hk) as H. pose proof (guesses_starts S lo calls).
  pose proof (accepts_starts S lo calls). unfold attempts in *. split_and!; lia.
Qed.
End BankScript.

Module BankStores.
Import BankScript.

Inductive BankResult :=
  | RReserved (expiresAt : Z) | RCached (response : string) | RActivated | RVerified | RMismatch (remaining : Z).

Definition BankStateError (code : string) : exn := EClass "BankStateError" code.

(** [BankStateStore]: the three operations, of a store with a clock. *)
Class BankStateStore (St : Type) := call : Z → Op → St → outcome BankResult * St.

(** ** The Redis client *)

Definition isIdChar (c : ascii) : bool :=
  let n := nat_of_ascii (lower_ascii c) in
  isDigit c || ((97 <=? n)%nat && (n <=? 122)%nat) || (n =? 95)%nat || (n =? 45)%nat.
Definition isIdentifier (value : string) : bool :=
  (16 <=? String.length value)%nat && (String.length value <=? 128)%nat && allChars isIdChar value.
Definition identifier (value : string) : outcome string :=
  if isIdentifier value then Ok value else Throw (BankStateError "INVALID_STATE_ID").

(** The identifiers in the keys and the challenge, and the value sent, in the order they are checked. *)
Definition identifiersOf (op : Op) : list string :=
  match op with
  | OpReserve i => [requestKey i; flowKey i; accountKey i; walletKey i; challengeId i]
  | OpActivate request flow id _ | OpVerify request flow id _ => [request; flow; flow; flow; id]
  end.
Definition valueOf (op : Op) : string := match op with OpActivate _ _ _ response => response | _ => "" end.

Definition validate (op : Op) : outcome unit :=
  let? _ := omap_out identifier (identifiersOf op) in
  orequire (Z.of_nat (String.length (valueOf op)) <=? 32768) (BankStateError "STATE_PAYLOAD_TOO_LARGE").

(** The first element of a reply. *)
Definition statusText (r : Reply) : string :=
  match r with
  | Reserved _ => "reserved" | Cached _ => "cached" | Activated => "activated" | Verified => "verified" | Mismatch _ => "mismatch"
  | Code code => code
  end.
Definition refused (r : Reply) : outcome BankResult :=
  Throw (BankStateError (if String.eqb (statusText r) "" then "STATE_UNAVAILABLE" else statusText r)).
(** [Number(value)] of a number that Lua printed. *)
Definition shown (n : Z) : Z := BudgetClient.numberOf (BudgetScript.Shown n).

Definition decode (op : Op) (r : Reply) : outcome BankResult :=
  match op, r with
  | OpReserve _, Reserved n => if isSafeInteger (shown n) then Ok (RReserved (shown n)) else refused r
  | OpReserve _, Cached value => if String.eqb value "" then refused r else Ok (RCached value)
  | OpActivate _ _ _ _, Activated => Ok RActivated
  | OpVerify _ _ _ _, Verified => Ok RVerified
  | OpVerify _ _ _ _, Mismatch n => if (0 <? shown n) && (shown n <? attempts) then Ok (RMismatch (shown n)) else refused r
  | _, _ => refused r
  end.

(** A call that reaches the server and is answered; a call that is not answered may still have run. *)
Inductive Net := NetOk | NetLost | NetDown.
Definition redisCall (net : Net) (now : Z) (op : Op) (db : Redis) : outcome BankResult * Redis :=
  match validate op with
  | Throw e => (Throw e, db)
  | Ok _ =>
      let r := script now op db in
      match net with
      | NetOk => (decode op r.1, r.2)
      | NetLost => (Throw (BankStateError "STATE_UNAVAILABLE"), r.2)
      | NetDown => (Throw (BankStateError "STATE_UNAVAILABLE"), db)
      end
  end.
#[export] Instance RedisBankStateStore : BankStateStore Redis := redisCall NetOk.

(** ** The demo store *)

Record DemoRecord := mkDemo {
  input : BankReservation; d_state : ChallengeState; d_expiresAt : Z; d_deleteAt : Z; d_attempts : Z; d_response : option string }.
Record Demo := mkDemoStore { records : gmap string DemoRecord; d_budgets : gmap BudgetKey Budget }.

(** The two loops that delete. *)
Definition sweep (now : Z) (d : Demo) : Demo :=
  mkDemoStore (filter (λ kv, ¬ d_deleteAt kv.2 ≤ now) (records d)) (filter (λ kv, ¬ b_expireAt kv.2 ≤ now) (d_budgets d)).

Definition chargeDemo (now : Z) (m : gmap BudgetKey Budget) (k : BudgetKey) : gmap BudgetKey Budget :=
  let prior := default (mkBudget 0 None (now + budgetMs)) (m !! k) in
  <[k := mkBudget (b_count prior + 1) (b_current prior) (b_expireAt prior)]> m.

Definition demoReserve (now : Z) (i : BankReservation) (d0 : Demo) : outcome BankResult * Demo :=
  let d := sweep now d0 in
  match records d !! requestKey i with
  | Some old =>
      if negb (String.eqb (fingerprint (input old)) (fingerprint i)) then (Throw (BankStateError "CONFLICT"), d)
      else if bool_decide (d_state old = Ready) && (now <? d_expiresAt old)
              && bool_decide (currentOf (d_budgets d) (KFlow (flowKey i)) = Some (challengeId (input old)))
      then (Ok (RCached (default "" (d_response old))), d)
      else (Throw (BankStateError (if bool_decide (d_state old = Pending) then "START_PENDING" else "CHALLENGE_UNAVAILABLE")), d)
  | None =>
      if existsb (λ k, limitOf k <=? countOf (d_budgets d) k) (budgetKeys i) then (Throw (BankStateError "START_BUDGET_EXCEEDED"), d)
      else
        (Ok (RReserved (now + lifetimeMs)),
         mkDemoStore (<[requestKey i := mkDemo i Pending (now + lifetimeMs) (now + budgetMs) 0 None]> (records d))
           (setCurrent (KFlow (flowKey i)) (challengeId i) (fold_left (chargeDemo now) (budgetKeys i) (d_budgets d))))
  end.

(** [current]. *)
Definition demoCurrent (now : Z) (request flow id : string) (d : Demo) : outcome DemoRecord :=
  match records d !! request with
  | Some r =>
      if negb (String.eqb (challengeId (input r)) id) || negb (bool_decide (currentOf (d_budgets d) (KFlow flow) = Some id))
      then Throw (BankStateError "CHALLENGE_UNAVAILABLE")
      else if d_expiresAt r <=? now then Throw (BankStateError "CHALLENGE_EXPIRED") else Ok r
  | None => Throw (BankStateError "CHALLENGE_UNAVAILABLE")
  end.

Definition demoPut (request : string) (r : DemoRecord) (d : Demo) : Demo := mkDemoStore (<[request := r]> (records d)) (d_budgets d).
Definition demoState (s : ChallengeState) (n : Z) (response : option string) (r : DemoRecord) : DemoRecord :=
  mkDemo (input r) s (d_expiresAt r) (d_deleteAt r) n response.

Definition demoActivate (now : Z) (request flow id response : string) (d : Demo) : outcome BankResult * Demo :=
  match demoCurrent now request flow id d with
  | Throw e => (Throw e, d)
  | Ok r =>
      if negb (bool_decide (d_state r = Pending)) then (Throw (BankStateError "CHALLENGE_UNAVAILABLE"), d)
      else (Ok RActivated, demoPut request (demoState Ready (d_attempts r) (Some response) r) d)
  end.

Definition demoVerify (now : Z) (request flow id : string) (matches : bool) (d : Demo) : outcome BankResult * Demo :=
  match demoCurrent now request flow id d with
  | Throw e => (Throw e, d)
  | Ok r =>
      if bool_decide (d_state r = Locked) then (Throw (BankStateError "TOO_MANY_ATTEMPTS"), d)
      else if negb (bool_decide (d_state r = Ready)) then (Throw (BankStateError "CHALLENGE_UNAVAILABLE"), d)
      else if matches then (Ok RVerified, demoPut request (demoState Consumed (d_attempts r) None r) d)
      else
        let n := d_attempts r + 1 in
        if attempts <=? n then (Throw (BankStateError "TOO_MANY_ATTEMPTS"), demoPut request (demoState Locked n None r) d)
        else (Ok (RMismatch (attempts - n)), demoPut request (demoState (d_state r) n (d_response r) r) d)
  end.

#[export] Instance DemoBankStateStore : BankStateStore Demo := λ now op d,
  match op with
  | OpReserve i => demoReserve now i d
  | OpActivate request flow id response => demoActivate now request flow id response d
  | OpVerify request flow id matches => demoVerify now request flow id matches d
  end.

(** The answers of a store to a sequence of calls. *)
Fixpoint answers {St} `{BankStateStore St} (calls : list Call) (st : St) : list (outcome BankResult) :=
  match calls with
  | [] => []
  | (now, op) :: calls => let r := call now op st in r.1 :: answers calls r.2
  end.
Definition emptyDemo : Demo := mkDemoStore ∅ ∅.

(** The answers of the demo store when the calls that the client refuses never reach it. *)
Fixpoint checkedAnswers (calls : list Call) (d : Demo) : list (outcome BankResult) :=
  match calls with
  | [] => []
  | (now, op) :: calls =>
      match validate op with
      | Throw e => Throw e :: checkedAnswers calls d
      | Ok _ => let r := call now op d in r.1 :: checkedAnswers calls r.2
      end
  end.

(** What the client lets pass: identifiers of 16 to 128 letters, digits, _ and -, and responses of at most 32 KiB. *)
Definition Identifier (s : string) : Prop := (16 ≤ String.length s ≤ 128)%nat ∧ ∀ c, c ∈ list_ascii_of_string s →
  c ∈ list_ascii_of_string "ABCDEFGHIJKLMNOPQRSTUVWXYZabcdefghijklmnopqrstuvwxyz0123456789_-".
Definition Acceptable (op : Op) : Prop :=
  Forall Identifier (identifiersOf op) ∧ ∀ request flow id response, op = OpActivate request flow id response → Z.of_nat (String.length response) ≤ 32768.

Lemma isIdChar_spec c : isIdChar c = true ↔ c ∈ list_ascii_of_string "ABCDEFGHIJKLMNOPQRSTUVWXYZabcdefghijklmnopqrstuvwxyz0123456789_-".
Proof.
  rewrite <- (bool_decide_eq_true (c ∈ _)). apply eq_iff_eq_true. by destruct c as [[] [] [] [] [] [] [] []]; vm_compute.
Qed.

Lemma isIdentifier_spec s : isIdentifier s = true ↔ Identifier s.
Proof.
  unfold isIdentifier, Identifier. rewrite !andb_true_iff, !Nat.leb_le.
  assert (allChars isIdChar s = true ↔ ∀ c, c ∈ list_ascii_of_string s → isIdChar c = true) as ->.
  { induction s as [|c s IH]; cbn; [split; [intros _ c Hc; by apply elem_of_nil in Hc|done]|].
    rewrite andb_true_iff, IH. setoid_rewrite elem_of_cons. naive_solver. }
  setoid_rewrite isIdChar_spec. tauto.
Qed.
#[export] Instance Identifier_dec s : Decision (Identifier s).
Proof. refine (cast_if (decide (isIdentifier s = true))); by rewrite <- isIdentifier_spec. Defined.

Lemma identifiers_spec l : match omap_out identifier l with
  | Ok _ => Forall Identifier l | Throw e => ¬ Forall Identifier l ∧ e = BankStateError "INVALID_STATE_ID" end.
Proof.
  induction l as [|s l IH]; cbn; [done|]. pose proof (Forall_cons Identifier s l) as HC. pose proof (isIdentifier_spec s) as Hs.
  unfold identifier at 1. destruct (isIdentifier s); cbn.
  - destruct (omap_out identifier l); cbn; tauto.
  - split; [|done]. rewrite HC, <- Hs. by intros [? _].
Qed.

Lemma validate_spec op : match validate op with
  | Ok _ => Acceptable op
  | Throw e => ¬ Acceptable op ∧ e = BankStateError (if decide (Forall Identifier (identifiersOf op)) then "STATE_PAYLOAD_TOO_LARGE" else "INVALID_STATE_ID") end.
Proof.
  unfold validate, Acceptable. pose proof (identifiers_spec (identifiersOf op)) as H. destruct (omap_out identifier (identifiersOf op)) as [x|e]; cbn.
  - unfold orequire. destruct (Z.leb_spec (Z.of_nat (String.length (valueOf op))) 32768) as [Hl|Hl]; cbn.
    + split; [done|]. intros request flow id response ->. exact Hl.
    + rewrite decide_True by done. split; [|done]. intros [_ Hr]. destruct op; cbn [valueOf String.length] in Hl; [lia| |lia].
      specialize (Hr _ _ _ _ eq_refl). lia.
  - destruct H as [H ->]. rewrite decide_False by done. split; [|done]. tauto.
Qed.

Lemma checkedAnswers_all calls d : Forall (λ c, Acceptable c.2) calls → checkedAnswers calls d = answers (St := Demo) calls d.
Proof.
  revert d. induction calls as [|[now op] calls IH]; intros d; [done|]. intros [Ha HF]%Forall_cons. cbn [checkedAnswers answers].
  pose proof (validate_spec op) as Hv. destruct (validate op) as [[]|]; [|by destruct Hv]. f_equal. by apply IH.
Qed.

(** * The two stores answer alike *)

Definition toChallenge (r : DemoRecord) : Challenge :=
  mkChallenge (d_state r) (challengeId (input r)) (fingerprint (input r)) (d_expiresAt r) (d_attempts r) (d_response r) (d_deleteAt r).
Definition toRedis (d : Demo) : Redis := mkRedis (toChallenge <$> records d) (d_budgets d).

Section window.
(** No key expires within the first [budgetMs] milliseconds after [t0]. *)
Context (t0 : Z).

Record InWindow (d : Demo) : Prop := {
  iw_records : ∀ k r, records d !! k = Some r → t0 + budgetMs ≤ d_deleteAt r ∧
    (d_state r = Ready → 0 ≤ d_attempts r < attempts ∧ ∃ s, d_response r = Some s ∧ s ≠ "") ∧ (d_state r = Pending → d_attempts r = 0);
  iw_budgets : ∀ k b, d_budgets d !! k = Some b → t0 + budgetMs ≤ b_expireAt b ∧ 1 ≤ b_count b }.

(** A call within the window, at a time whose digits Lua prints, and with a response if it is an activation. *)
Definition InTime (c : Call) : Prop :=
  t0 ≤ c.1 < t0 + budgetMs ∧ 0 ≤ c.1 < 10 ^ 14 - lifetimeMs ∧
  (∀ request flow id response, c.2 = OpActivate request flow id response → response ≠ "").
(** A call in time that the client passes on. *)
Definition Sendable (c : Call) : Prop := InTime c ∧ validate c.2 = Ok tt.

Lemma sweep_id now d : InWindow d → now < t0 + budgetMs → sweep now d = d.
Proof.
  intros [HR HB] Hn. destruct d as [rs bs]. unfold sweep. cbn in *. f_equal; apply map_filter_id; intros k x Hx; cbn.
  - destruct (HR _ _ Hx). lia.
  - destruct (HB _ _ Hx). lia.
Qed.

Lemma expire_id now d : InWindow d → now < t0 + budgetMs → expireKeys now (toRedis d) = toRedis d.
Proof.
  intros [HR HB] Hn. unfold expireKeys, toRedis. cbn. f_equal; apply map_filter_id; intros k x Hx; cbn.
  - apply lookup_fmap_Some in Hx as (r & <- & Hr). destruct (HR _ _ Hr). cbn. lia.
  - destruct (HB _ _ Hx). lia.
Qed.

Lemma chargeDemo_charge now m k : (∀ b, m !! k = Some b → 1 ≤ b_count b) → chargeDemo now m k = charge now m k.
Proof.
  intros Hb. unfold chargeDemo, charge, countOf, currentOf. destruct (m !! k) as [b|]; cbn; [|done].
  specialize (Hb b eq_refl). by replace (b_count b + 1 =? 1) with false by (symmetry; apply Z.eqb_neq; lia).
Qed.

Lemma charge_pos now m k : t0 ≤ now → (∀ k b, m !! k = Some b → t0 + budgetMs ≤ b_expireAt b ∧ 1 ≤ b_count b) →
  ∀ k' b, charge now m k !! k' = Some b → t0 + budgetMs ≤ b_expireAt b ∧ 1 ≤ b_count b.
Proof.
  intros Hn Hm k' b. rewrite charge_lookup. destruct (decide (k = k')); [|apply Hm]. intros [= <-]. cbn. unfold countOf.
  destruct (m !! k) as [b|] eqn:E; cbn; [|change (0 + 1 =? 1) with true; cbn match; lia]. destruct (Hm _ _ E). replace (b_count b + 1 =? 1) with false by (symmetry; apply Z.eqb_neq; lia). lia.
Qed.

Lemma charges_demo now ks m : t0 ≤ now → (∀ k b, m !! k = Some b → t0 + budgetMs ≤ b_expireAt b ∧ 1 ≤ b_count b) →
  fold_left (chargeDemo now) ks m = fold_left (charge now) ks m ∧
  ∀ k b, fold_left (charge now) ks m !! k = Some b → t0 + budgetMs ≤ b_expireAt b ∧ 1 ≤ b_count b.
Proof.
  intros Hn. revert m. induction ks as [|k ks IH]; intros m Hm; cbn [fold_left]; [done|].
  rewrite chargeDemo_charge by (intros b Hb; by destruct (Hm _ _ Hb)). apply IH. by apply charge_pos.
Qed.

Lemma demoCurrent_current now request flow id d :
  current now request flow id (toRedis d) =
    match demoCurrent now request flow id d with
    | Ok r => inl (toChallenge r)
    | Throw (EClass _ code) => inr code
    | Throw _ => inr "" end ∧
  (∀ r, demoCurrent now request flow id d = Ok r → records d !! request = Some r) ∧
  (∀ e, demoCurrent now request flow id d = Throw e → ∃ code, e = BankStateError code ∧ code ≠ "").
Proof.
  unfold current, demoCurrent, toRedis. cbn. rewrite lookup_fmap. destruct (records d !! request) as [r|]; cbn; [|by split_and!; [..|intros e [= <-]; eexists]].
  destruct (_ || _); [by split_and!; [..|intros e [= <-]; eexists]|]. destruct (_ <=? _); [by split_and!; [..|intros e [= <-]; eexists]|].
  split_and!; [done| |done]. by intros ? [= <-].
Qed.

Lemma put_toRedis request r d : put request (toChallenge r) (toRedis d) = toRedis (demoPut request r d).
Proof. unfold put, toRedis, demoPut. cbn. by rewrite fmap_insert. Qed.

Lemma demoPut_InWindow request r r' d : InWindow d → records d !! request = Some r → d_deleteAt r' = d_deleteAt r →
  (d_state r' = Ready → 0 ≤ d_attempts r' < attempts ∧ ∃ s, d_response r' = Some s ∧ s ≠ "") → (d_state r' = Pending → d_attempts r' = 0) →
  InWindow (demoPut request r' d).
Proof.
  intros [HR HB] Hr Hd H1 H2. split; [|done]. cbn. intros k x. rewrite lookup_insert_Some. intros [[<- <-]|[_ Hk]]; [|by eapply HR].
  rewrite Hd. split; [by apply (HR _ _ Hr)|done].
Qed.

(** One call. *)
Definition Same (now : Z) (op : Op) (d : Demo) : Prop :=
  call now op (toRedis d) = ((call now op d).1, toRedis (call now op d).2) ∧ InWindow (call now op d).2.

Lemma shown_small n : Z.abs n < 10 ^ 14 → shown n = n.
Proof. intros Hn. unfold shown. cbn. by rewrite (proj2 (Z.ltb_lt _ _) Hn). Qed.

Lemma refused_code code : code ≠ "" → refused (Code code) = Throw (BankStateError code).
Proof. intros H. unfold refused. cbn. by destruct (String.eqb_spec code ""). Qed.

Lemma redis_call now op db : validate op = Ok tt → call now op db = (decode op (script now op db).1, (script now op db).2).
Proof. intros H. unfold call, RedisBankStateStore, redisCall. by rewrite H. Qed.

Lemma same_reserve now i d : InWindow d → Sendable (now, OpReserve i) → Same now (OpReserve i) d.
Proof.
  intros HI ((Hn & Hp & _) & Hv). cbn [fst snd] in Hn, Hp, Hv. unfold Same. rewrite redis_call by done. unfold script. rewrite expire_id by (done || lia).
  change (call now (OpReserve i) d) with (demoReserve now i d). unfold demoReserve, reserve. rewrite sweep_id by (done || lia).
  cbn [toRedis challenges budgets]. rewrite lookup_fmap. destruct (records d !! requestKey i) as [old|] eqn:Eo; cbn [fmap option_fmap option_map].
  - cbn [toChallenge c_fingerprint c_state c_id c_expires c_response]. destruct (negb _); [done|].
    rewrite <- andb_assoc, (andb_comm (bool_decide (currentOf _ _ = _))), andb_assoc.
    destruct (bool_decide_reflect (d_state old = Ready)) as [Er|]; cbn [andb].
    + destruct (_ && _); [|by destruct (bool_decide _)]. destruct (iw_records d HI _ _ Eo) as (_ & Hready & _).
      destruct (Hready Er) as (_ & s & Es & Hs). rewrite Es. cbn. by destruct (String.eqb_spec s "").
    + by destruct (bool_decide _).
  - destruct (existsb _ _); [done|]. destruct (charges_demo now (budgetKeys i) (d_budgets d) (proj1 Hn) (iw_budgets d HI)) as [-> Hb].
    cbn [fst snd decode]. unfold lifetimeMs, budgetMs in *. rewrite shown_small by lia. rewrite (proj2 (isSafeInteger_spec _)) by (unfold MAX_SAFE_INTEGER; lia).
    unfold toRedis. cbn [records d_budgets]. rewrite fmap_insert. split; [done|]. split; cbn [records d_budgets].
    + intros k r. rewrite lookup_insert_Some. intros [[<- <-]|[_ Hk]]; [|by eapply iw_records]. cbn. unfold budgetMs. split; [lia|]. by split.
    + intros k b. destruct (setCurrent_lookup (KFlow (flowKey i)) (challengeId i) (fold_left (charge now) (budgetKeys i) (d_budgets d)) k) as (f & Hf & ->).
      intros (b0 & Hb0 & ->)%fmap_Some. destruct (Hf b0) as [-> ->]. by eapply Hb.
Qed.

Lemma same_activate now request flow id response d : InWindow d → Sendable (now, OpActivate request flow id response) →
  Same now (OpActivate request flow id response) d.
Proof.
  intros HI ((Hn & Hp & Hr) & Hv). cbn [fst snd] in Hn, Hp, Hv. unfold Same. rewrite redis_call by done. unfold script. rewrite expire_id by (done || lia).
  change (call now (OpActivate request flow id response) d) with (demoActivate now request flow id response d). unfold demoActivate, activate.
  destruct (demoCurrent_current now request flow id d) as (-> & Hok & Hthrow).
  destruct (demoCurrent now request flow id d) as [r|e]; [|destruct (Hthrow e eq_refl) as (code & -> & Hc); cbn; by rewrite refused_code].
  specialize (Hok r eq_refl). cbn [toChallenge c_state]. destruct (bool_decide_reflect (d_state r = Pending)) as [Es|]; [|done].
  cbn [negb fst snd decode].
  change (withState Ready (Some response) (toChallenge r)) with (toChallenge (demoState Ready (d_attempts r) (Some response) r)).
  rewrite put_toRedis. split; [done|]. eapply demoPut_InWindow; [done|exact Hok|done| |done]. cbn. intros _.
  destruct (iw_records d HI _ _ Hok) as (_ & _ & Hp0). rewrite (Hp0 Es). split; [done|]. eauto.
Qed.

Lemma same_verify now request flow id matches d : InWindow d → Sendable (now, OpVerify request flow id matches) →
  Same now (OpVerify request flow id matches) d.
Proof.
  intros HI ((Hn & Hp & _) & Hv). cbn [fst snd] in Hn, Hp, Hv. unfold Same. rewrite redis_call by done. unfold script. rewrite expire_id by (done || lia).
  change (call now (OpVerify request flow id matches) d) with (demoVerify now request flow id matches d). unfold demoVerify, verify.
  destruct (demoCurrent_current now request flow id d) as (-> & Hok & Hthrow).
  destruct (demoCurrent now request flow id d) as [r|e]; [|destruct (Hthrow e eq_refl) as (code & -> & Hc); cbn; by rewrite refused_code].
  specialize (Hok r eq_refl). cbn [toChallenge c_state]. destruct (bool_decide (d_state r = Locked)); [done|].
  destruct (bool_decide_reflect (d_state r = Ready)) as [Er|]; [|done]. cbn [negb].
  destruct (iw_records d HI _ _ Hok) as (_ & Hready & _). destruct (Hready Er) as [Ha Hs]. destruct matches.
  - cbn [fst snd decode]. change (withState Consumed None (toChallenge r)) with (toChallenge (demoState Consumed (d_attempts r) None r)).
    rewrite put_toRedis. split; [done|]. by eapply demoPut_InWindow.
  - cbn zeta. change (withAttempts (c_attempts (toChallenge r) + 1) (toChallenge r)) with
      (toChallenge (demoState (d_state r) (d_attempts r + 1) (d_response r) r)).
    cbn [c_attempts toChallenge d_attempts demoState]. destruct (Z.leb_spec attempts (d_attempts r + 1)).
    + change (withState Locked None (toChallenge (demoState (d_state r) (d_attempts r + 1) (d_response r) r))) with
        (toChallenge (demoState Locked (d_attempts r + 1) None r)).
      rewrite put_toRedis. split; [done|]. by eapply demoPut_InWindow.
    + cbn [fst snd decode]. unfold attempts in *. rewrite shown_small by lia.
      rewrite (proj2 (Z.ltb_lt 0 _)), (proj2 (Z.ltb_lt _ 5)) by lia. cbn [andb]. rewrite put_toRedis. split; [done|].
      eapply demoPut_InWindow; [done|exact Hok|done| |]; cbn; intros E; [split; [unfold attempts; lia|done]|congruence].
Qed.

Lemma same_call now op d : InWindow d → Sendable (now, op) → Same now op d.
Proof. destruct op; [apply same_reserve|apply same_activate|apply same_verify]. Qed.

Lemma same_answers calls d : InWindow d → Forall InTime calls → answers calls (toRedis d) = checkedAnswers calls d.
Proof.
  revert d. induction calls as [|[now op] calls IH]; intros d HI HF; [done|]. apply Forall_cons in HF as [Hc HF]. cbn [answers checkedAnswers].
  destruct (validate op) as [[]|e] eqn:Hv.
  - destruct (same_call now op d HI) as [-> HI']; [by split|]. cbn [fst snd]. f_equal. by apply IH.
  - change (call now op (toRedis d)) with (redisCall NetOk now op (toRedis d)). unfold redisCall. rewrite Hv. cbn [fst snd]. f_equal. by apply IH.
Qed.
End window.

(** C26. For every sequence of calls whose clocks lie in one budget window of 24
    hours and whose activations carry a response that is not empty: the client of the
    Redis script gives the answers, refusals and their codes included, that the in-
    memory demo store gives when the calls the client refuses never reach it; the client
    refuses exactly the calls with an identifier that is not 16 to 128 letters, digits,
    underscores and hyphens (INVALID_STATE_ID) or with a response longer than 32768
    (STATE_PAYLOAD_TOO_LARGE), which the demo store takes; so on sequences without such
    calls the two stores answer alike. *)
Theorem demo_store_refines_redis (t0 : Z) (calls : list Call) : Forall (InTime t0) calls →
  answers (St := Redis) calls empty = checkedAnswers calls emptyDemo ∧
  (∀ op, match validate op with
         | Ok _ => Acceptable op
         | Throw e => ¬ Acceptable op ∧ e = BankStateError (if decide (Forall Identifier (identifiersOf op))
                                                             then "STATE_PAYLOAD_TOO_LARGE" else "INVALID_STATE_ID") end) ∧
  (Forall (λ c, Acceptable c.2) calls → answers (St := Redis) calls empty = answers (St := Demo) calls emptyDemo).
Proof.
  intros H. assert (answers (St := Redis) calls empty = checkedAnswers calls emptyDemo) as E.
  { change empty with (toRedis emptyDemo). apply (same_answers t0); [|done].
    split; intros k x Hx; cbn [emptyDemo records d_budgets] in Hx; by apply lookup_empty_Some in Hx. }
  split; [done|]. split; [apply validate_spec|]. rewrite E. apply checkedAnswers_all.
Qed.
End BankStores.

Module BankExample.
Import BankScript BankStores.

Definition exStart (request : string) : BankReservation :=
  mkReservation request "flow-0000000000001" "account-000000001" "wallet-0000000001" "fingerprint" "challenge-0000001".
Definition exT : Z := 1790000000000.
(** Two wrong codes, the right one, and the right one again. *)
Definition exCalls : list Call :=
  let r := "request-000000001" in let f := "flow-0000000000001" in let c := "challenge-0000001" in
  [(exT, OpReserve (exStart r)); (exT + 10, OpActivate r f c "token"); (exT + 20, OpVerify r f c false);
   (exT + 30, OpVerify r f c false); (exT + 40, OpVerify r f c true); (exT + 50, OpVerify r f c true)].
Definition exAll (_ : string) : bool := true.

Lemma exOrdered : Ordered exT exCalls.
Proof. cbn. unfold exT. lia. Qed.
Lemma exInside : Forall (λ c, c.1 ≤ exT - lifetimeMs + budgetMs) exCalls.
Proof. unfold exCalls, exT, lifetimeMs, budgetMs. repeat constructor; cbn; lia. Qed.
Lemma exCharges now input : (now, OpReserve input) ∈ exCalls → exAll (requestKey input) = true → KAccount "account-000000001" ∈ budgetKeys input.
Proof. intros H _. unfold exCalls in H. repeat ((apply elem_of_cons in H as [[= -> ->]|H]; [set_solver|]) || apply elem_of_cons in H as [[=]|H]). by apply elem_of_nil in H. Qed.

Lemma bank_guesses_bounded_witness :
  count (guess exAll exT) (trace exCalls empty) = 3 ∧ count (guess exAll exT) (trace exCalls empty) ≤ 30.
Proof.
  split; [vm_compute; reflexivity|].
  exact (proj1 (bank_guesses_bounded exCalls exAll (KAccount "account-000000001") exT exT exOrdered exInside exCharges)).
Defined.

Lemma exInTime : Forall (InTime exT) exCalls.
Proof.
  unfold exCalls, InTime, exT, lifetimeMs, budgetMs.
  repeat (constructor; [split_and!; [cbn; lia|cbn; lia|cbn; lia|cbn; lia|(intros ? ? ? ?; by intros [= _ _ _ <-]) || done]|]).
  constructor.
Qed.
Lemma exAcceptable : Forall (λ c, Acceptable c.2) exCalls.
Proof.
  apply Forall_forall. intros c Hc. pose proof (validate_spec c.2) as H.
  assert (Forall (λ c, validate c.2 = Ok tt) exCalls) as HF by (repeat (constructor; [by vm_compute|]); constructor).
  by rewrite (proj1 (Forall_forall _ _) HF c Hc) in H.
Qed.

(** The client refuses an identifier that the demo store takes. *)
Example exRefused : let c := (exT, OpReserve (exStart "request")) in
  answers (St := Redis) [c] empty = [Throw (BankStateError "INVALID_STATE_ID")] ∧
  answers (St := Demo) [c] emptyDemo = [Ok (RReserved (exT + lifetimeMs))].
Proof. by vm_compute. Qed.

Lemma demo_store_refines_redis_witness : answers (St := Redis) exCalls empty = answers (St := Demo) exCalls emptyDemo.
Proof. exact (proj2 (proj2 (demo_store_refines_redis exT exCalls exInTime)) exAcceptable). Defined.

(** The challenge of a flow is lost when the budget window of the flow ends, though it has not expired:
    both are fields of one Redis hash.  The demo store, which deletes only when a challenge starts, accepts it. *)
Definition exLate : list Call :=
  let f := "flow-0000000000001" in let c := "challenge-0000001" in let r := "request-000000002" in
  [(exT, OpReserve (exStart "request-000000001")); (exT + budgetMs - 10, OpReserve (exStart r));
   (exT + budgetMs - 5, OpActivate r f c "token"); (exT + budgetMs + 1, OpVerify r f c true)].
Example late_challenge_lost :
  last (answers (St := Redis) exLate empty) = Some (Throw (BankStateError "CHALLENGE_UNAVAILABLE")) ∧
  last (answers (St := Demo) exLate emptyDemo) = Some (Ok RVerified).
Proof. by vm_compute. Qed.
End BankExample.
