(* ===== verification/Publication.v ===== *)
(** Epoch publication: the encrypted journal of [src/pipeline/epoch-publication-journal.ts] (Module
    PublicationJournal), kept by one process in one file, and one recovery step over it,
    [advancePublication] of [epoch-publication-delivery.ts] (Module PublicationDelivery).  Whatever
    faults the file system has, entries are only completed, never replaced; signed bytes leave only
    after the file holds them, at most once per step.  Encryption, hashing and transaction parsing are
    parameters. *)

From Stdlib Require Import ZArith Lia Ascii String.
From stdpp Require Import base decidable option list strings sets.
From S2P Require Import Prelude JS Store Merkle Json.
Import Json.
Local Open Scope string_scope.
Local Open Scope list_scope.
Local Open Scope Z_scope.
Local Open Scope js_scope.

Module PublicationJournal.

Record PublicationScope := mkScope { chainId : Z; source : string; publisher : string }.
#[export] Instance PublicationScope_eq_dec : EqDecision PublicationScope.
Proof. solve_decision. Defined.

Record Availability := mkAvailability { a_version : Z; seedHash : string; replicaCount : Z }.
#[export] Instance Availability_eq_dec : EqDecision Availability.
Proof. solve_decision. Defined.

Record PublicationIntent := mkIntent {
  calldata : string; cutoffNumber : Z; cutoffHash : string; availability : option Availability; createdAt : Z }.
#[export] Instance PublicationIntent_eq_dec : EqDecision PublicationIntent.
Proof. solve_decision. Defined.

Record PublicationConfirmation := mkConfirmation {
  transactionHash : string; blockNumber : Z; blockHash : string; status : Z; confirmations : Z; observedAt : Z }.
#[export] Instance PublicationConfirmation_eq_dec : EqDecision PublicationConfirmation.
Proof. solve_decision. Defined.

Record Transaction := mkTransaction { raw : string; hash : string; nonce : Z }.
#[export] Instance Transaction_eq_dec : EqDecision Transaction.
Proof. solve_decision. Defined.

Record Abandonment := mkAbandonment { at_ : Z; reason : string }.
#[export] Instance Abandonment_eq_dec : EqDecision Abandonment.
Proof. solve_decision. Defined.

Record PublicationEntry := mkEntry {
  id : string; intent : PublicationIntent; transaction : option Transaction; confirmation : option PublicationConfirmation;
  abandonment : option Abandonment }.
#[export] Instance PublicationEntry_eq_dec : EqDecision PublicationEntry.
Proof. solve_decision. Defined.

Record State := mkState { version : Z; s_scope : PublicationScope; entries : list PublicationEntry }.

Definition MAX_BYTES : Z := 8 * 1024 * 1024.
Definition PublicationError (code : string) : exn := EPublication code.
Definition fail {A} (code : string) : outcome A := Throw (PublicationError code).
Definition demand (b : bool) (code : string) : outcome unit := orequire b (PublicationError code).

Definition integer (n min : Z) : bool := isSafeInteger n && (min <=? n).
Definition isHash (s : string) : bool := isLowerBytes32 s.
(** [/^0x(?:[0-9a-f]{2})+$/]. *)
Definition isCalldata (s : string) : bool :=
  hexString isLowerHex (String.length s - 2) s && Nat.even (String.length s) && (2 <? String.length s)%nat.
Definition ZERO_ADDRESS : string := "0x0000000000000000000000000000000000000000".

(** A transaction as [ethers.Transaction.from] parses it. *)
Record ParsedTx := mkParsed {
  isSigned : bool; p_hash : option string; p_from : option string; p_chainId : Z; p_to : option string; p_value : Z; p_data : string;
  p_nonce : Z; serialized : string }.

Section journal.
(** [ethers.getAddress], [keccak256] of a text, [Transaction.from], and the name and the re-encoding of
    a parsed call; [None] when one throws. *)
Context (getAddress : string → option string) (keccak256 : string → string).
Context (parseTx : string → option ParsedTx) (parseCall : string → option (string * string)).
(** The envelope of a state under a secret, for a scope text and an initialisation vector, its size,
    and its content under a secret and a scope text. *)
Context {Envelope : Type} (seal : string → string → string → State → Envelope) (sizeOf : Envelope → Z).
Context (unseal : string → string → Envelope → option State).

Definition address (value : string) : outcome string :=
  match getAddress value with
  | Some a => if String.eqb (toLowerCase a) ZERO_ADDRESS then fail "PUBLICATION_SCOPE_INVALID" else Ok (toLowerCase a)
  | None => fail "PUBLICATION_SCOPE_INVALID"
  end.
Definition scopeValue (value : PublicationScope) : outcome PublicationScope :=
  let? _ := demand (integer (chainId value) 1) "PUBLICATION_SCOPE_INVALID" in
  let? s := address (source value) in
  let? p := address (publisher value) in
  Ok (mkScope (chainId value) s p).

Definition isSeedHash (s : string) : bool := (String.length s =? 64)%nat && allChars isLowerHex s.

(** The copy holds the fields that the value has. *)
Definition intentValue (value : PublicationIntent) : outcome PublicationIntent :=
  let bad := "PUBLICATION_INTENT_INVALID" in
  let? _ := demand (isCalldata (calldata value) && (Z.of_nat (String.length (calldata value)) <=? 512 * 1024 + 2) && integer (createdAt value) 0
    && integer (cutoffNumber value) 1 && isHash (cutoffHash value)
    && match availability value with
       | Some a => (a_version a =? 1) && isSeedHash (seedHash a) && integer (replicaCount a) 2
       | None => true end) bad in
  match parseCall (calldata value) with
  | Some (name, encoded) =>
      let? _ := demand ((String.eqb name "publishEpoch" || String.eqb name "publishEpochForIssuers")
                        && String.eqb (toLowerCase encoded) (calldata value)) bad in Ok value
  | None => fail bad
  end.

Definition scopeJson (s : PublicationScope) : json :=
  JObj [("chainId", JNum (chainId s)); ("source", JStr (source s)); ("publisher", JStr (publisher s))].
Definition nul : string := String Ascii.zero "".
(** [this.aad]. *)
Definition aad (s : PublicationScope) : string := "proofmark-epoch-publication-v1" +:+ nul +:+ default "" (stringify (scopeJson s)).
Definition intentJson (i : PublicationIntent) : json :=
  JObj ([("calldata", JStr (calldata i)); ("sourceCutoff", JObj [("blockNumber", JNum (cutoffNumber i)); ("blockHash", JStr (cutoffHash i))])]
    ++ match availability i with
       | Some a => [("availability", JObj [("version", JNum (a_version a)); ("seedHash", JStr (seedHash a)); ("replicaCount", JNum (replicaCount a))])]
       | None => [] end
    ++ [("createdAt", JNum (createdAt i))]).

Section scope.
Context (scope : PublicationScope).

(** [this.id(intent)]. *)
Definition idOf (i : PublicationIntent) : string := keccak256 (aad scope +:+ default "" (stringify (intentJson i))).

Definition boundTransaction (bytes : string) (i : PublicationIntent) : outcome Transaction :=
  let bad := "PUBLICATION_TRANSACTION_MISMATCH" in
  let? _ := demand (Z.of_nat (String.length bytes) <=? 520 * 1024) bad in
  match parseTx bytes with
  | None => fail bad
  | Some tx =>
      let? _ := demand (isSigned tx && truthy (p_hash tx) && truthy (p_from tx) && (p_chainId tx =? chainId scope)
        && bool_decide (toLowerCase <$> p_from tx = Some (publisher scope)) && bool_decide (toLowerCase <$> p_to tx = Some (source scope))
        && (p_value tx =? 0) && String.eqb (p_data tx) (calldata i) && integer (p_nonce tx) 0) bad in
      Ok (mkTransaction (serialized tx) (default "" (p_hash tx)) (p_nonce tx))
  end.

(** The parts of an entry, once its intent and identifier are checked; [last] when no entry follows. *)
Definition validateRest (i : PublicationIntent) (last : bool) (e : PublicationEntry) : outcome unit :=
  match abandonment e with
  | Some a =>
      demand (negb (bool_decide (is_Some (transaction e))) && negb (bool_decide (is_Some (confirmation e)))
              && String.eqb (reason a) "UNSIGNED_PLAN_CANCELLED" && integer (at_ a) (createdAt i)) "PUBLICATION_ABANDONMENT_INVALID"
  | None =>
      let? _ := match transaction e with
        | Some t => let? b := boundTransaction (raw t) i in demand (bool_decide (t = b)) "PUBLICATION_TRANSACTION_MISMATCH"
        | None => Ok tt end in
      match confirmation e with
      | None => demand last "PUBLICATION_JOURNAL_UNAVAILABLE"
      | Some c =>
          demand (bool_decide (Some (transactionHash c) = hash <$> transaction e) && integer (blockNumber c) 1 && isHash (blockHash c)
                  && ((status c =? 0) || (status c =? 1)) && integer (confirmations c) 1 && integer (observedAt c) (createdAt i))
            "PUBLICATION_CONFIRMATION_INVALID"
      end
  end.

Fixpoint validateEntries (ids : list string) (l : list PublicationEntry) : outcome unit :=
  match l with
  | [] => Ok tt
  | e :: rest =>
      let? i := intentValue (intent e) in
      let? _ := demand (String.eqb (id e) (idOf i) && negb (bool_decide (id e ∈ ids))) "PUBLICATION_JOURNAL_UNAVAILABLE" in
      let? _ := validateRest i (bool_decide (rest = [])) e in
      validateEntries (id e :: ids) rest
  end.
Definition validate (s : State) : outcome unit :=
  let? _ := demand ((version s =? 1) && bool_decide (s_scope s = scope) && (length (entries s) <=? 1000)%nat) "PUBLICATION_JOURNAL_UNAVAILABLE" in
  validateEntries [] (entries s).
End scope.

(** ** The object and the file it owns *)

Record Disk := mkDisk { locked : bool; file : option Envelope }.

(** Of the key only the secret it is derived from. *)
Record Journal := mkJournal {
  scope : PublicationScope; secret : string; state : State; closed : bool; poisoned : bool; disk : Disk;
  writes : list (string * Store.FsFault) }.   (* what the next saves meet *)

Definition setState (s : State) (j : Journal) : Journal :=
  mkJournal (scope j) (secret j) s (closed j) (poisoned j) (disk j) (writes j).
Definition setFile (e : Envelope) (j : Journal) : Journal :=
  mkJournal (scope j) (secret j) (state j) (closed j) (poisoned j) (mkDisk (locked (disk j)) (Some e)) (writes j).
Definition poison (j : Journal) : Journal := mkJournal (scope j) (secret j) (state j) (closed j) true (disk j) (writes j).
Definition setWrites (l : list (string * Store.FsFault)) (j : Journal) : Journal :=
  mkJournal (scope j) (secret j) (state j) (closed j) (poisoned j) (disk j) l.

Definition failM {A} (code : string) : M Journal A := throw (PublicationError code).
Definition demandM (b : bool) (code : string) : M Journal unit := require b (PublicationError code).

Definition assertOpen : M Journal unit :=
  let! j := getS in
  if closed j then failM "PUBLICATION_JOURNAL_CLOSED"
  else if poisoned j then failM "PUBLICATION_WRITE_UNCONFIRMED" else ret tt.

(** [writeVaultEnvelope], with its catch. *)
Definition write (e : Envelope) (f : Store.FsFault) : M Journal unit :=
  match f with
  | Store.FsOk => modify (setFile e)
  | Store.FsBeforeRename => modify poison ;;; failM "PUBLICATION_WRITE_UNCONFIRMED"
  | Store.FsAfterRename => modify (setFile e) ;;; modify poison ;;; failM "PUBLICATION_WRITE_UNCONFIRMED"
  end.

Definition nextWrite (j : Journal) : string * Store.FsFault := default ("", Store.FsOk) (head (writes j)).

Definition save (next : State) : M Journal unit :=
  assertOpen ;;;
  let! j := getS in
  lift_out (validate (scope j) next) ;;;
  let w := nextWrite j in
  modify (setWrites (tail (writes j))) ;;;
  let envelope := seal (secret j) (aad (scope j)) w.1 next in
  demandM (sizeOf envelope <=? MAX_BYTES) "PUBLICATION_JOURNAL_CAPACITY" ;;;
  write envelope w.2 ;;;
  modify (setState next).

Definition snapshot : M Journal (list PublicationEntry) := assertOpen ;;; gets (λ j, entries (state j)).

Definition findEntry (i : string) (l : list PublicationEntry) : option PublicationEntry := find (λ e, String.eqb (id e) i) l.
(** The change of the entry that [find] returns. *)
Fixpoint updateEntry (i : string) (e' : PublicationEntry) (l : list PublicationEntry) : list PublicationEntry :=
  match l with
  | [] => []
  | e :: l => if String.eqb (id e) i then e' :: l else e :: updateEntry i e' l
  end.
Definition withEntries (l : list PublicationEntry) (s : State) : State := mkState (version s) (s_scope s) l.

Definition unfinished (e : PublicationEntry) : bool :=
  negb (bool_decide (is_Some (confirmation e))) && negb (bool_decide (is_Some (abandonment e))).

Definition begin (value : PublicationIntent) : M Journal PublicationEntry :=
  assertOpen ;;;
  let! j := getS in
  let! i := lift_out (intentValue value) in
  let s := state j in
  match findEntry (idOf (scope j) i) (entries s) with
  | Some e => ret e
  | None =>
      demandM (negb (existsb unfinished (entries s))) "PUBLICATION_PENDING" ;;;
      demandM (length (entries s) <? 1000)%nat "PUBLICATION_JOURNAL_CAPACITY" ;;;
      let e := mkEntry (idOf (scope j) i) i None None None in
      save (withEntries (entries s ++ [e]) s) ;;; ret e
  end.

(** [next.entries.find(e => e.id === id)], or the refusal. *)
Definition entryOf (i : string) : M Journal PublicationEntry :=
  let! j := getS in
  match findEntry i (entries (state j)) with Some e => ret e | None => failM "PUBLICATION_NOT_FOUND" end.
Definition saveEntry (e : PublicationEntry) : M Journal PublicationEntry :=
  let! j := getS in
  save (withEntries (updateEntry (id e) e (entries (state j))) (state j)) ;;; ret e.

Definition prepare (i bytes : string) : M Journal PublicationEntry :=
  assertOpen ;;;
  let! e := entryOf i in
  demandM (negb (bool_decide (is_Some (abandonment e)))) "PUBLICATION_ABANDONED" ;;;
  let! j := getS in
  let! t := lift_out (boundTransaction (scope j) bytes (intent e)) in
  match transaction e with
  | Some old => demandM (String.eqb (raw old) (raw t)) "PUBLICATION_REPLACEMENT_FORBIDDEN" ;;; ret e
  | None =>
      demandM (negb (existsb (λ e, bool_decide (nonce <$> transaction e = Some (nonce t))) (entries (state j)))) "PUBLICATION_NONCE_REUSED" ;;;
      saveEntry (mkEntry (id e) (intent e) (Some t) (confirmation e) (abandonment e))
  end.

Definition confirm (i : string) (value : PublicationConfirmation) : M Journal PublicationEntry :=
  assertOpen ;;;
  let! e := entryOf i in
  match confirmation e with
  | Some c => demandM (bool_decide (c = value)) "PUBLICATION_CONFIRMATION_CONFLICT" ;;; ret e
  | None => saveEntry (mkEntry (id e) (intent e) (transaction e) (Some value) (abandonment e))
  end.

Definition abandonUnsigned (i : string) (time : Z) : M Journal PublicationEntry :=
  assertOpen ;;;
  let! e := entryOf i in
  demandM (negb (bool_decide (is_Some (transaction e))) && negb (bool_decide (is_Some (confirmation e)))) "PUBLICATION_SIGNED_CANNOT_ABANDON" ;;;
  match abandonment e with
  | Some _ => ret e
  | None => saveEntry (mkEntry (id e) (intent e) (transaction e) (confirmation e) (Some (mkAbandonment time "UNSIGNED_PLAN_CANCELLED")))
  end.

(** What closing meets: [closeSync] or [unlinkSync] may throw. *)
Inductive CloseFault := CloseOk | CloseFails | UnlinkFails.
Definition setClosed (j : Journal) : Journal := mkJournal (scope j) (secret j) (state j) true (poisoned j) (disk j) (writes j).
Definition unlock (j : Journal) : Journal :=
  mkJournal (scope j) (secret j) (state j) (closed j) (poisoned j) (mkDisk false (file (disk j))) (writes j).

Definition close (f : CloseFault) : M Journal unit :=
  let! j := getS in
  if closed j then ret tt
  else
    modify setClosed ;;;
    match f with
    | CloseFails => modify poison ;;; failM "PUBLICATION_WRITE_UNCONFIRMED"
    | f =>
        if poisoned j then ret tt
        else match f with
             | UnlinkFails => modify poison ;;; failM "PUBLICATION_WRITE_UNCONFIRMED"
             | _ => modify unlock
             end
    end.

(** The constructor, on the files at the path. *)
Definition open (path sec : string) (sc : PublicationScope) (d : Disk) (ws : list (string * Store.FsFault)) (f : CloseFault)
  : outcome Journal * Disk :=
  match scopeValue sc with
  | Throw e => (Throw e, d)
  | Ok sc =>
      if String.eqb path "" || String.eqb sec "" || (String.length sec <? 32)%nat then (fail "PUBLICATION_JOURNAL_CONFIG", d)
      else if locked d then (fail "PUBLICATION_JOURNAL_BUSY", d)
      else
        let j := mkJournal sc sec (mkState 1 sc []) false false (mkDisk true (file d)) ws in
        let unavailable := (let r := close f j in
          (match r.1 with Ok _ => fail "PUBLICATION_JOURNAL_UNAVAILABLE" | Throw e => Throw e end, disk r.2)) in
        match file d with
        | None => (Ok j, disk j)
        | Some envelope =>
            if MAX_BYTES <? sizeOf envelope then unavailable
            else match unseal sec (aad sc) envelope with
                 | Some s => match validate sc s with Ok _ => (Ok (setState s j), disk j) | Throw _ => unavailable end
                 | None => unavailable
                 end
        end
  end.

(** * Entries are only completed *)

Definition keeps {A} (a b : option A) : Prop := ∀ x, a = Some x → b = Some x.
#[local] Instance keeps_preorder {A} : PreOrder (@keeps A).
Proof using Type. split; [by intros a x|]. intros a b c H1 H2 x Hx. by apply H2, H1. Qed.

Record Completes (e e' : PublicationEntry) : Prop := {
  cp_id : id e' = id e;
  cp_intent : intent e' = intent e;
  cp_transaction : keeps (transaction e) (transaction e');
  cp_confirmation : keeps (confirmation e) (confirmation e');
  cp_abandonment : keeps (abandonment e) (abandonment e') }.
#[local] Instance Completes_preorder : PreOrder Completes.
Proof using Type.
  split; [by intros e; split|]. intros a b c [] []. split; try congruence; by etrans.
Qed.

(** Entries may be completed and added at the end, never removed or replaced. *)
Definition Grows (l l' : list PublicationEntry) : Prop := ∃ l1 l2, l' = l1 ++ l2 ∧ Forall2 Completes l l1.
#[local] Instance Grows_preorder : PreOrder Grows.
Proof using Type.
  split.
  - intros l. exists l, []. split; [by rewrite app_nil_r|]. by apply Forall_Forall2_diag, Forall_true.
  - intros a b c (b1 & b2 & -> & H1) (c1 & c2 & -> & H2). apply Forall2_app_inv_l in H2 as (d1 & d2 & Hd1 & Hd2 & ->).
    exists d1, (d2 ++ c2). split; [by rewrite app_assoc|]. clear -H1 Hd1. revert d1 Hd1.
    induction H1 as [|x y a b1 Hxy _ IH]; intros d1 Hd; [by apply Forall2_nil_inv_l in Hd as ->|].
    apply Forall2_cons_inv_l in Hd as (z & d & Hyz & Hd & ->). constructor; [by etrans|by apply IH].
Qed.

Lemma Grows_app l e : Grows l (l ++ [e]).
Proof using Type. exists l, [e]. split; [done|]. by apply Forall_Forall2_diag, Forall_true. Qed.

Lemma Grows_elem l l' e : Grows l l' → e ∈ l → ∃ e', e' ∈ l' ∧ Completes e e'.
Proof using Type.
  intros (l1 & l2 & -> & H) He. apply list_elem_of_lookup in He as [k Hk]. eapply Forall2_lookup_l in H as (e' & Hk' & He'); [|exact Hk].
  exists e'. split; [|done]. apply elem_of_app. left. by eapply list_elem_of_lookup_2.
Qed.

Lemma findEntry_Some i l e : findEntry i l = Some e → e ∈ l ∧ id e = i.
Proof using Type. intros [H E%String.eqb_eq]%find_some. by apply list_elem_of_In in H. Qed.

Lemma updateEntry_Grows i l e e' : findEntry i l = Some e → Completes e e' → Grows l (updateEntry i e' l).
Proof using Type.
  intros Hf Hc. exists (updateEntry i e' l), []. split; [by rewrite app_nil_r|]. revert Hf.
  induction l as [|x l IH]; cbn; [done|]. destruct (String.eqb (id x) i).
  - intros [= ->]. constructor; [done|]. by apply Forall_Forall2_diag, Forall_true.
  - intros Hf. constructor; [done|by apply IH].
Qed.

Lemma updateEntry_elem i l e e' : findEntry i l = Some e → e' ∈ updateEntry i e' l.
Proof using Type.
  induction l as [|x l IH]; cbn; [done|]. destruct (String.eqb (id x) i); [intros; by left|]. intros Hf. right. by apply IH.
Qed.

Definition nonces (l : list PublicationEntry) : list Z := omap (λ e, nonce <$> transaction e) l.

Lemma nonces_app l l' : nonces (l ++ l') = nonces l ++ nonces l'.
Proof using Type. apply omap_app. Qed.

Lemma updateEntry_nonces i l e e' : findEntry i l = Some e → transaction e' = transaction e → nonces (updateEntry i e' l) = nonces l.
Proof using Type.
  intros Hf Ht. revert Hf. induction l as [|x l IH]; cbn; [done|]. destruct (String.eqb (id x) i).
  - intros [= ->]. unfold nonces. cbn. by rewrite Ht.
  - intros Hf. unfold nonces in *. cbn. by rewrite IH.
Qed.

Lemma updateEntry_nonce i l e e' t : findEntry i l = Some e → transaction e = None → transaction e' = Some t →
  nonces (updateEntry i e' l) ≡ₚ nonce t :: nonces l.
Proof using Type.
  intros Hf Hn Ht. revert Hf. induction l as [|x l IH]; cbn; [done|]. destruct (String.eqb (id x) i).
  - intros [= ->]. unfold nonces. cbn. by rewrite Ht, Hn.
  - intros Hf. unfold nonces in *. cbn. specialize (IH Hf). destruct (nonce <$> transaction x) as [n|]; [|done].
    rewrite IH. by constructor.
Qed.

(** * What validation says *)

Record SoundEntry (sc : PublicationScope) (e : PublicationEntry) : Prop := {
  se_id : id e = idOf sc (intent e);
  se_bound : ∀ t, abandonment e = None → transaction e = Some t → boundTransaction sc (raw t) (intent e) = Ok t;
  se_confirmed : ∀ c, abandonment e = None → confirmation e = Some c → ∃ t, transaction e = Some t ∧ transactionHash c = hash t ∧ (status c = 0 ∨ status c = 1);
  se_abandoned : is_Some (abandonment e) → transaction e = None ∧ confirmation e = None }.

Record Sound (sc : PublicationScope) (l : list PublicationEntry) : Prop := {
  so_entries : ∀ e, e ∈ l → SoundEntry sc e;
  so_ids : NoDup (map id l);
  so_pending : ∀ l1 e l2, l = l1 ++ e :: l2 → l2 ≠ [] → unfinished e = false }.

Lemma demand_ok b code u : demand b code = Ok u → b = true.
Proof using Type. apply orequire_ok. Qed.

Lemma intentValue_ok v i : intentValue v = Ok i → i = v.
Proof using Type.
  unfold intentValue. intros (? & _ & H)%obind_ok. destruct (parseCall _) as [[name encoded]|]; [|done].
  apply obind_ok in H as (? & _ & H). by injection H.
Qed.

Lemma validateRest_sound sc last e u : id e = idOf sc (intent e) → validateRest sc (intent e) last e = Ok u →
  SoundEntry sc e ∧ (last = false → unfinished e = false).
Proof using Type.
  intros Hid. unfold validateRest, unfinished. destruct (abandonment e) as [a|] eqn:Ea.
  - intros H%demand_ok. rewrite !andb_true_iff, !negb_true_iff, !bool_decide_eq_false in H. destruct H as [[[H1 H2] _] _].
    apply eq_None_not_Some in H1, H2. split; [|by rewrite andb_false_r]. split; [done|by rewrite Ea..|done].
  - intros (? & Ht & H)%obind_ok. assert (∀ t, transaction e = Some t → boundTransaction sc (raw t) (intent e) = Ok t) as Hb.
    { intros t Et. rewrite Et in Ht. apply obind_ok in Ht as (b & Hb & Hd%demand_ok). apply bool_decide_eq_true in Hd. congruence. }
    destruct (confirmation e) as [c|] eqn:Ec.
    + apply demand_ok in H. rewrite !andb_true_iff, bool_decide_eq_true, orb_true_iff, !Z.eqb_eq in H. destruct H as [[[[[H1 _] _] H2] _] _].
      split; [|done]. split; [done|auto| |by rewrite Ea; intros []]. intros c' _ E. rewrite Ec in E. injection E as <-.
      destruct (transaction e) as [t|]; [|done]. injection H1 as ->. eauto.
    + apply demand_ok in H as ->. split; [|done]. split; [done|auto|by rewrite Ec|by rewrite Ea; intros []].
Qed.

Lemma validateEntries_sound sc ids l : validateEntries sc ids l = Ok tt → Sound sc l ∧ ∀ x, x ∈ map id l → x ∉ ids.
Proof using Type.
  revert ids. induction l as [|e l IH]; intros ids; cbn [validateEntries].
  - intros _. split; [|by intros x ?%elem_of_nil]. split; [by intros e ?%elem_of_nil|constructor|by intros [|] ? ?].
  - intros (i & ->%intentValue_ok & (? & Hd%demand_ok & (? & Hr & H)%obind_ok)%obind_ok)%obind_ok.
    rewrite andb_true_iff, String.eqb_eq, negb_true_iff, bool_decide_eq_false in Hd. destruct Hd as [Hid Hnew].
    apply validateRest_sound in Hr as [He Hlast]; [|done]. destruct (IH _ H) as [[H1 H2 H3] Hids].
    assert (id e ∉ map id l) as Hni by (intros Hin; apply (Hids _ Hin); by left).
    split; [split|].
    + intros e' [->|He']%elem_of_cons; auto.
    + cbn. by constructor.
    + intros [|y l1] e' l2 [= -> ->] Hne; [|by eapply H3]. apply Hlast, bool_decide_eq_false. done.
    + cbn. intros y [->|Hy]%elem_of_cons; [done|]. intros Hy'. apply (Hids _ Hy). by right.
Qed.

Lemma validate_sound sc s : validate sc s = Ok tt → Sound sc (entries s) ∧ s_scope s = sc ∧ version s = 1.
Proof using Type.
  unfold validate. intros (? & Hd%demand_ok & H)%obind_ok. rewrite !andb_true_iff, Z.eqb_eq, bool_decide_eq_true in Hd.
  destruct Hd as [[Hv Hs] _]. by apply validateEntries_sound in H as [H _].
Qed.

(** * The journal and its file *)

Section durability.
(** Opening an envelope with the secret and the scope it was sealed for gives its content. *)
Hypothesis unseal_seal : ∀ k a iv s, unseal k a (seal k a iv s) = Some s.

Definition blank (sc : PublicationScope) : State := mkState 1 sc [].
(** What the next process will read. *)
Definition durable (j : Journal) : option State :=
  match file (disk j) with Some e => unseal (secret j) (aad (scope j)) e | None => Some (blank (scope j)) end.

Definition GoodState (sc : PublicationScope) (s : State) : Prop := validate sc s = Ok tt ∧ NoDup (nonces (entries s)).
Record Good (j : Journal) : Prop := {
  gd_state : GoodState (scope j) (state j);
  gd_durable : ∃ s, durable j = Some s ∧ GoodState (scope j) s ∧ Grows (entries (state j)) (entries s) ∧ (poisoned j = false → s = state j) }.

(** What any operation does to memory and file. *)
Record Ext (j j' : Journal) : Prop := {
  ex_same : scope j' = scope j ∧ secret j' = secret j;
  ex_memory : Grows (entries (state j)) (entries (state j'));
  ex_file : ∀ s, durable j = Some s → ∃ s', durable j' = Some s' ∧ Grows (entries s) (entries s') }.
#[local] Instance Ext_preorder : PreOrder Ext.
Proof.
  split.
  - intros j. split; [done|done|]. intros s Hs. exists s. split; [done|reflexivity].
  - intros a b c [[H1 H2] H3 H4] [[K1 K2] K3 K4]. split; [split; congruence|by etrans|].
    intros s (s' & Hs' & Hg)%H4. apply K4 in Hs' as (s'' & Hs'' & Hg'). exists s''. split; [done|]. by etrans.
Qed.

(** An operation keeps the invariant and only extends. *)
Definition Post {A} (j : Journal) (R : A → Journal → Prop) (o : outcome A) (j' : Journal) : Prop :=
  Good j' ∧ Ext j j' ∧ match o with Ok a => R a j' | Throw _ => True end.

Lemma Post_throw {A} j e (R : A → Journal → Prop) : Good j → Post j R (Throw e) j.
Proof. intros H. split_and!; [done|reflexivity|done]. Qed.
Lemma Post_ok {A} j a (R : A → Journal → Prop) : Good j → R a j → Post j R (Ok a) j.
Proof. intros H HR. split_and!; [done|reflexivity|done]. Qed.

Lemma wp_assertOpen {A} (k : M Journal A) Q j : (∀ e, Q (Throw e) j) →
  (closed j = false → poisoned j = false → wp k Q j) → wp (assertOpen ;;; k) Q j.
Proof.
  intros He Hk. unfold wp, bind, assertOpen, getS, bind, failM, throw in *. cbn. destruct (closed j); [apply He|].
  destruct (poisoned j); [apply He|]. by apply Hk.
Qed.

Lemma Good_setWrites l j : Good j → Good (setWrites l j).
Proof. intros [H1 H2]. by split. Qed.
Lemma Ext_setWrites l j : Ext j (setWrites l j).
Proof. split; [done|reflexivity|]. intros s Hs. exists s. split; [exact Hs|reflexivity]. Qed.

(** A save that completes entries: the file holds the old or the new entries, and memory the old ones
    unless the save returned. *)
Lemma save_spec next j : Good j → Grows (entries (state j)) (entries next) → NoDup (nonces (entries next)) →
  wp (save next) (Post j (λ _ j', state j' = next ∧ closed j' = false ∧ poisoned j' = false)) j.
Proof.
  intros HG Hgrow Hn. unfold save. apply wp_assertOpen; [intros; by apply Post_throw|]. intros Hc Hp.
  apply wp_bind, wp_getS, wp_bind, wp_lift_out. destruct (validate (scope j) next) as [[]|e] eqn:Hv; [|by apply Post_throw].
  apply wp_bind, wp_modify. set (j1 := setWrites (tail (writes j)) j). set (env := seal _ _ _ _).
  assert (Good j1 ∧ Ext j j1) as [HG1 HE1] by (split; [by apply Good_setWrites|by apply Ext_setWrites]).
  apply wp_bind. unfold demandM. apply wp_require; intros _; [|by split_and!]. apply wp_bind.
  destruct HG as [Hst (s & Hs & Hgs & Hg & Heq)]. specialize (Heq Hp). subst s.
  assert (GoodState (scope j) next) as Hnext by done.
  assert (durable (setFile env j1) = Some next) as Hd by apply unseal_seal.
  assert (Ext j (poison (setFile env j1))) as Hpe.
  { split; [done|reflexivity|]. intros s' Hs'. exists next. split; [exact Hd|]. by rewrite Hs in Hs'; injection Hs' as <-. }
  destruct (nextWrite j).2; cbn [write].
  - apply wp_modify, wp_modify. split_and!; [split; [done|]| |done|done|done].
    + exists next. split_and!; [exact Hd|done|reflexivity|done].
    + split; [done|exact Hgrow|]. intros s' Hs'. exists next. split; [exact Hd|]. by rewrite Hs in Hs'; injection Hs' as <-.
  - apply wp_bind, wp_modify, wp_throw. split_and!; [|etrans; [exact HE1|]|done].
    + split; [done|]. exists (state j). split_and!; [exact Hs|done|reflexivity|done].
    + split; [done|reflexivity|]. intros s' Hs'. exists s'. split; [exact Hs'|reflexivity].
  - apply wp_bind, wp_modify, wp_bind, wp_modify, wp_throw. split_and!; [split; [done|]|exact Hpe|done].
    exists next. split_and!; [exact Hd|done|exact Hgrow|done].
Qed.

(** What an operation on an entry returns: the entry as memory and file hold it. *)
Definition Held (i : string) (e : PublicationEntry) (j' : Journal) : Prop :=
  id e = i ∧ e ∈ entries (state j') ∧ closed j' = false ∧ poisoned j' = false.

Lemma saveEntry_spec e e' j : Good j → findEntry (id e') (entries (state j)) = Some e → Completes e e' →
  (transaction e' = transaction e ∨ ∃ t, transaction e = None ∧ transaction e' = Some t ∧ nonce t ∉ nonces (entries (state j))) →
  wp (saveEntry e') (Post j (λ r j', r = e' ∧ Held (id e') r j')) j.
Proof.
  intros HG Hf Hc Ht. unfold saveEntry. apply wp_bind, wp_getS, wp_bind. eapply wp_mono.
  - apply (save_spec (withEntries (updateEntry (id e') e' (entries (state j))) (state j))); [done|by eapply updateEntry_Grows|].
    cbn [entries withEntries]. pose proof (proj2 (gd_state _ HG)) as Hn. destruct Ht as [Ht|(t & H1 & H2 & H3)].
    + by erewrite updateEntry_nonces.
    + rewrite (updateEntry_nonce _ _ _ _ t) by done. by constructor.
  - intros [[]|x] j' (HG' & HE & HR); [|by split_and!]. destruct HR as (Es & Hcl & Hpo). apply wp_ret. split_and!; try done.
    unfold Held. rewrite Es. split_and!; [done|by eapply updateEntry_elem|done|done].
Qed.

Lemma wp_entryOf {A} i (k : PublicationEntry → M Journal A) Q j : (∀ e, Q (Throw e) j) →
  (∀ e, findEntry i (entries (state j)) = Some e → wp (k e) Q j) → wp (bind (entryOf i) k) Q j.
Proof.
  intros He Hk. unfold wp, bind, entryOf, getS, bind. cbn. destruct (findEntry i (entries (state j))); [by apply Hk|apply He].
Qed.

Lemma Post_bind {A B} (m : M Journal A) (k : A → M Journal B) R R' j :
  wp m (Post j R) j → (∀ a j', Good j' → Ext j j' → R a j' → wp (k a) (Post j R') j') → wp (bind m k) (Post j R') j.
Proof.
  intros Hm Hk. apply wp_bind. eapply wp_mono; [exact Hm|]. intros [a|e] j' (HG & HE & HR); [by apply Hk|by split_and!].
Qed.

Lemma begin_spec value j : Good j → wp (begin value) (Post j (λ e j', Held (idOf (scope j) value) e j')) j.
Proof.
  intros HG. unfold begin. apply wp_assertOpen; [intros; by apply Post_throw|]. intros Hc Hp.
  apply wp_bind, wp_getS, wp_bind, wp_lift_out. destruct (intentValue value) as [v|] eqn:Hv; [|by apply Post_throw].
  apply intentValue_ok in Hv as ->. destruct (findEntry _ _) as [e|] eqn:Hf.
  - apply wp_ret, Post_ok; [done|]. apply findEntry_Some in Hf as [He Hi]. by split_and!.
  - apply wp_bind. unfold demandM. apply wp_require; intros _; [|by apply Post_throw].
    apply wp_bind, wp_require; intros _; [|by apply Post_throw]. eapply Post_bind.
    + apply save_spec; [done|apply Grows_app|]. cbn. rewrite nonces_app. cbn. rewrite app_nil_r. apply (gd_state _ HG).
    + intros [] j' HG' HE (Es & Hcl & Hpo). apply wp_ret. split_and!; [done|done|]. unfold Held. rewrite Es. cbn.
      split_and!; [done|set_solver|done|done].
Qed.

Lemma prepare_spec i bytes j : Good j →
  wp (prepare i bytes) (Post j (λ e j', Held i e j' ∧ abandonment e = None ∧ is_Some (transaction e)
    ∧ ∀ e0, findEntry i (entries (state j)) = Some e0 → confirmation e = confirmation e0)) j.
Proof.
  intros HG. unfold prepare. apply wp_assertOpen; [intros; by apply Post_throw|]. intros Hc Hp.
  apply wp_entryOf; [intros; by apply Post_throw|]. intros e Hf. pose proof Hf as [He Hi]%findEntry_Some.
  apply wp_bind. unfold demandM. apply wp_require; intros Ha; [|by apply Post_throw].
  apply negb_true_iff, bool_decide_eq_false, eq_None_not_Some in Ha.
  apply wp_bind, wp_getS, wp_bind, wp_lift_out. destruct (boundTransaction _ _ _) as [t|] eqn:Hb; [|by apply Post_throw].
  destruct (transaction e) as [old|] eqn:Et.
  - apply wp_bind, wp_require; intros Hr; [|by apply Post_throw]. apply wp_ret, Post_ok; [done|]. rewrite Et, Hf. split_and!; [by split_and!|done|done|by intros ? [= ->]].
  - apply wp_bind, wp_require; intros Hn; [|by apply Post_throw]. apply negb_true_iff in Hn.
    subst i. eapply wp_mono.
    + eapply (saveEntry_spec e (mkEntry (id e) (intent e) (Some t) (confirmation e) (abandonment e))); [done|exact Hf| |].
      * by split; cbn; [done|done|rewrite Et|..].
      * right. exists t. split_and!; [done|done|]. intros (e0 & He0 & H0)%list_elem_of_omap.
        apply not_true_iff_false in Hn. apply Hn, existsb_exists. exists e0. split; [by apply list_elem_of_In|by apply bool_decide_eq_true].
    + intros [r|x] j' (HG' & HE & HR); [|by split_and!]. destruct HR as [-> HH]. cbn in HH. split_and!; [done|done|exact HH|exact Ha|by eexists|]. intros e0. rewrite Hf. by intros [= ->].
Qed.

Lemma confirm_entry_spec i value j : Good j →
  wp (confirm i value) (Post j (λ e j', Held i e j' ∧ confirmation e = Some value)) j.
Proof.
  intros HG. unfold confirm. apply wp_assertOpen; [intros; by apply Post_throw|]. intros Hc Hp.
  apply wp_entryOf; [intros; by apply Post_throw|]. intros e Hf. pose proof Hf as [He Hi]%findEntry_Some.
  destruct (confirmation e) as [c|] eqn:Ec.
  - apply wp_bind, wp_require; intros Hr; [|by apply Post_throw]. apply bool_decide_eq_true in Hr as ->.
    apply wp_ret, Post_ok; [done|]. by split_and!.
  - subst i. eapply wp_mono.
    + eapply (saveEntry_spec e (mkEntry (id e) (intent e) (transaction e) (Some value) (abandonment e))); [done|exact Hf| |by left].
      by split; cbn; [done|done|done|rewrite Ec|].
    + intros [r|x] j' (HG' & HE & HR); [|by split_and!]. destruct HR as [-> HH]. cbn in HH. by split_and!.
Qed.

Lemma abandon_spec i time j : Good j →
  wp (abandonUnsigned i time) (Post j (λ e j', Held i e j' ∧ transaction e = None ∧ is_Some (abandonment e))) j.
Proof.
  intros HG. unfold abandonUnsigned. apply wp_assertOpen; [intros; by apply Post_throw|]. intros Hc Hp.
  apply wp_entryOf; [intros; by apply Post_throw|]. intros e Hf. pose proof Hf as [He Hi]%findEntry_Some.
  apply wp_bind. unfold demandM. apply wp_require; intros Ht; [|by apply Post_throw].
  rewrite andb_true_iff, !negb_true_iff, !bool_decide_eq_false in Ht. destruct Ht as [Ht%eq_None_not_Some _].
  destruct (abandonment e) as [a|] eqn:Ea.
  - apply wp_ret, Post_ok; [done|]. rewrite Ea. by split_and!.
  - subst i. eapply wp_mono.
    + eapply (saveEntry_spec e (mkEntry (id e) (intent e) (transaction e) (confirmation e) (Some (mkAbandonment time "UNSIGNED_PLAN_CANCELLED"))));
        [done|exact Hf| |by left]. by split; cbn; [done|done|done|done|rewrite Ea].
    + intros [r|x] j' (HG' & HE & HR); [|by split_and!]. destruct HR as [-> HH]. cbn in HH. by split_and!.
Qed.

Lemma snapshot_spec j : Good j →
  wp snapshot (Post j (λ l j', l = entries (state j') ∧ closed j' = false ∧ poisoned j' = false)) j.
Proof.
  intros HG. unfold snapshot. apply wp_assertOpen; [intros; by apply Post_throw|]. intros Hc Hp. by apply wp_gets, Post_ok.
Qed.

(** Entries, secret, scope and file content are those of before; the object may be poisoned by it. *)
Lemma close_spec f j : Good j → wp (close f) (λ _ j', Good j' ∧ Ext j j' ∧ state j' = state j ∧ file (disk j') = file (disk j)) j.
Proof.
  intros HG. assert (∀ j', scope j' = scope j → secret j' = secret j → state j' = state j → file (disk j') = file (disk j) →
    (poisoned j' = false → poisoned j = false) → Good j' ∧ Ext j j' ∧ state j' = state j ∧ file (disk j') = file (disk j)) as H.
  { intros j' E1 E2 E3 E4 E5. assert (durable j' = durable j) as Ed by (unfold durable; by rewrite E1, E2, E4).
    destruct HG as [H1 (s & Hs & Hgs & Hg & He)]. split_and!; [split; rewrite E1, E3| split; rewrite ?E3|done|done].
    - done.
    - exists s. rewrite Ed. split_and!; auto.
    - done.
    - done.
    - intros s' Hs'. exists s'. rewrite Ed. split; [done|reflexivity]. }
  unfold close, wp, bind, getS, modify, failM, throw, ret. cbn. destruct (closed j); [by apply H|].
  destruct f; cbn; [destruct (poisoned j) eqn:Ep| |destruct (poisoned j) eqn:Ep]; cbn;
    first [apply (H (setClosed j))|apply (H (poison (setClosed j)))|apply (H (unlock (setClosed j)))]; cbn; congruence.
Qed.

(** ** Processes over one file *)

Inductive Op :=
  | OpSnapshot | OpBegin (value : PublicationIntent) | OpPrepare (i bytes : string) | OpConfirm (i : string) (value : PublicationConfirmation)
  | OpAbandon (i : string) (time : Z) | OpClose (f : CloseFault).
Definition runOp (op : Op) : M Journal unit :=
  match op with
  | OpSnapshot => snapshot ;;; ret tt
  | OpBegin value => begin value ;;; ret tt
  | OpPrepare i bytes => prepare i bytes ;;; ret tt
  | OpConfirm i value => confirm i value ;;; ret tt
  | OpAbandon i time => abandonUnsigned i time ;;; ret tt
  | OpClose f => close f
  end.

(** Journals over a file that did not exist at first: opened, used, and opened again by a later process
    with the same secret for the same scope, after a close or a crash. *)
Inductive Reachable : Journal → Prop :=
  | R_new path sec sc ws f j d : open path sec sc (mkDisk false None) ws f = (Ok j, d) → Reachable j
  | R_op j op : Reachable j → Reachable (runOp op j).2
  | R_again j path sc lock ws f j' d : Reachable j → scopeValue sc = Ok (scope j) →
      open path (secret j) sc (mkDisk lock (file (disk j))) ws f = (Ok j', d) → Reachable j'.

Lemma wp_forget {A} (m : M Journal A) R j : wp m (Post j R) j → wp (m ;;; ret tt) (Post j (λ _ _, True)) j.
Proof. intros H. eapply Post_bind; [exact H|]. intros a j' HG HE _. apply wp_ret. by split_and!. Qed.

Lemma runOp_spec op j : Good j → wp (runOp op) (Post j (λ _ _, True)) j.
Proof.
  intros HG. destruct op; cbn [runOp].
  - by eapply wp_forget, snapshot_spec.
  - by eapply wp_forget, begin_spec.
  - by eapply wp_forget, prepare_spec.
  - by eapply wp_forget, confirm_entry_spec.
  - by eapply wp_forget, abandon_spec.
  - eapply wp_mono; [by apply close_spec|]. intros o j' (HG' & HE & _). split_and!; [done|done|by destruct o].
Qed.

Lemma blank_good sc : GoodState sc (blank sc).
Proof. split; [|constructor]. unfold validate. cbn. by rewrite bool_decide_eq_true_2. Qed.

(** An opened journal has the content of its file. *)
Lemma open_spec path sec sc d ws f j d' : open path sec sc d ws f = (Ok j, d') →
  locked d = false ∧ scopeValue sc = Ok (scope j) ∧ secret j = sec ∧ poisoned j = false ∧ closed j = false ∧ disk j = mkDisk true (file d) ∧
  match file d with
  | Some e => unseal sec (aad (scope j)) e = Some (state j) ∧ validate (scope j) (state j) = Ok tt
  | None => state j = blank (scope j)
  end.
Proof.
  unfold open. destruct (scopeValue sc) as [s|]; [|done]. destruct (_ || _); [done|]. destruct (locked d) eqn:El; [done|].
  destruct (file d) as [e|] eqn:Ef; [|by intros [= <- <-]].
  set (un := (_, _)). assert (un = (Ok j, d') → False) as Hun.
  { unfold un. destruct (close _ _) as [[|] ?]; cbn; [intros H; injection H as H _; by unfold fail in H|]. intros H. injection H as H _. discriminate H. }
  destruct (_ <? _); [intros H; by apply Hun in H|]. destruct (unseal _ _ _) as [st|] eqn:Eu; [|intros H; by apply Hun in H].
  destruct (validate s st) as [[]|] eqn:Ev; [|intros H; by apply Hun in H]. intros [= <- <-]. by split_and!.
Qed.

Lemma Reachable_Good j : Reachable j → Good j.
Proof.
  induction 1 as [path sec sc ws f j d H|j op _ IH|j path sc lock ws f j' d _ IH Esc H].
  - apply open_spec in H as (_ & _ & _ & _ & _ & Ed & Es). cbn in Es. pose proof (blank_good (scope j)) as Hb. rewrite <- Es in Hb.
    split; [done|]. exists (state j). unfold durable. rewrite Ed. cbn [file]. rewrite <- Es. split_and!; [done|done|reflexivity|done].
  - pose proof (runOp_spec op j IH) as H. apply H.
  - apply open_spec in H as (_ & Esc' & Esec & Ep & _ & Ed & Es). cbn [file] in *. assert (scope j' = scope j) as E by congruence.
    destruct IH as [_ (s & Hs & Hgs & _ & _)]. unfold durable in Hs.
    assert (state j' = s ∧ durable j' = Some s) as [E1 E2].
    { unfold durable. rewrite Ed. cbn [file]. destruct (file (disk j)) as [e|]; rewrite E, ?Esec in *; [|split; congruence].
      destruct Es as [Eu _]. split; congruence. }
    split; rewrite E, E1; [done|]. exists s. split_and!; [done|done|reflexivity|done].
Qed.

(** C27. For every journal reached over a file by any operations, faults, crashes
    and reopenings, and every next operation: the state is valid and no two of its
    transactions have one nonce; entries are only completed and appended, in memory and
    in the file; what an object that is not poisoned holds is what its file holds. An
    existence test is taken to answer truly. *)
Theorem publication_journal_invariant (j : Journal) (op : Op) : Reachable j →
  Sound (scope j) (entries (state j)) ∧ NoDup (nonces (entries (state j))) ∧
  (∃ s, durable j = Some s ∧ Sound (scope j) (entries s) ∧ NoDup (nonces (entries s)) ∧ Grows (entries (state j)) (entries s)
        ∧ (poisoned j = false → s = state j)) ∧
  (let j' := (runOp op j).2 in
   Grows (entries (state j)) (entries (state j')) ∧
   ∀ s, durable j = Some s → ∃ s', durable j' = Some s' ∧ Grows (entries s) (entries s')).
Proof.
  intros HG%Reachable_Good. pose proof (runOp_spec op j HG) as (_ & [_ H1 H2] & _).
  destruct HG as [[Hv Hn] (s & Hs & [Hv' Hn'] & Hg & He)]. apply validate_sound in Hv as [HS _], Hv' as [HS' _].
  split; [done|]. split; [done|]. split; [|by split]. exists s. by split_and!.
Qed.
End durability.
End journal.
End PublicationJournal.

Module PublicationDelivery.
Import PublicationJournal.

Inductive PublicationObservation := OAbsent | OConfirming | OConfirmed (c : PublicationConfirmation).

Definition isAbsent (o : PublicationObservation) : bool := match o with OAbsent => true | _ => false end.

Section delivery.
Context (getAddress : string → option string) (keccak256 : string → string).
Context (parseTx : string → option ParsedTx) (parseCall : string → option (string * string)).
Context {Envelope : Type} (seal : string → string → string → State → Envelope) (sizeOf : Envelope → Z).
Context (unseal : string → string → Envelope → option State).
Context {W : Type}.
Abbreviation Journal := (PublicationJournal.Journal (Envelope := Envelope)).

(** The operations may do anything to the world, and may throw. *)
Record PublicationTransport := mkTransport {
  observe : PublicationEntry → M W PublicationObservation;
  assertReady : PublicationEntry → M W unit;
  t_prepare : PublicationEntry → M W string;
  broadcast : PublicationEntry → M W unit }.

(** Other tasks of the process may close the journal during an [await], as the world tells. *)
Context (closes : W → option CloseFault).

(** The world, the journal, and a history variable: the journal at each broadcast so far, with the entry. *)
Record Run := mkRun { world : W; journal : Journal; sent : list (PublicationEntry * Journal) }.

Definition interfere (w : W) (j : Journal) : Journal :=
  match closes w with Some f => (close f j).2 | None => j end.
Definition call {A} (m : M W A) : M Run A := λ r,
  let p := m (world r) in (p.1, mkRun p.2 (interfere p.2 (journal r)) (sent r)).
Definition onJournal {A} (m : M Journal A) : M Run A := λ r,
  let p := m (journal r) in (p.1, mkRun (world r) p.2 (sent r)).
Definition callBroadcast (T : PublicationTransport) (e : PublicationEntry) : M Run unit :=
  modify (λ r, mkRun (world r) (journal r) ((e, journal r) :: sent r)) ;;; call (broadcast T e).

Definition sameConfirmation (a b : PublicationConfirmation) : bool :=
  String.eqb (transactionHash a) (transactionHash b) && String.eqb (blockHash a) (blockHash b)
  && (blockNumber a =? blockNumber b) && (status a =? status b).

Section advance.
Context (T : PublicationTransport).

(** [reobservePublication]. *)
Definition reobservePublication (entry : PublicationEntry) (expected : PublicationConfirmation) : M Run PublicationConfirmation :=
  let changed := PublicationError "PUBLICATION_CONFIRMATION_CHANGED" in
  require (negb (bool_decide (is_Some (abandonment entry))) && bool_decide (hash <$> transaction entry = Some (transactionHash expected))
           && (status expected =? 1)) changed ;;;
  let! o := call (observe T entry) in
  match o with
  | OConfirmed c =>
      require ((status c =? 1) && String.eqb (transactionHash c) (transactionHash expected) && (blockNumber c =? blockNumber expected)
               && String.eqb (blockHash c) (blockHash expected)) changed ;;; ret c
  | _ => throw changed
  end.

(** The local [finish]. *)
Definition finish (id : string) (entry : PublicationEntry) (o : PublicationObservation) : M Run PublicationObservation :=
  match confirmation entry with
  | Some c =>
      require (match o with OConfirmed c' => sameConfirmation c' c | _ => false end) (PublicationError "PUBLICATION_CONFIRMATION_CHANGED")
  | None =>
      match o with
      | OConfirmed c => onJournal (confirm keccak256 parseTx parseCall seal sizeOf id c) ;;; ret tt
      | _ => ret tt end
  end ;;; ret o.

Definition advancePublication (id : string) : M Run PublicationObservation :=
  let! l := onJournal snapshot in
  match findEntry id l with
  | None => throw (PublicationError "PUBLICATION_NOT_FOUND")
  | Some entry =>
      require (negb (bool_decide (is_Some (abandonment entry)))) (PublicationError "PUBLICATION_ABANDONED") ;;;
      let! o := call (observe T entry) in
      if bool_decide (is_Some (confirmation entry)) || negb (isAbsent o) then finish id entry o
      else
        call (assertReady T entry) ;;;
        onJournal snapshot ;;;
        let! entry := match transaction entry with
          | None => let! bytes := call (t_prepare T entry) in onJournal (prepare keccak256 parseTx parseCall seal sizeOf id bytes)
          | Some _ => ret entry end in
        call (assertReady T entry) ;;;
        let! o := call (observe T entry) in
        if negb (isAbsent o) then finish id entry o
        else
          onJournal snapshot ;;;
          tryCatch (callBroadcast T entry) (λ _, ret tt) ;;;
          let! o := call (observe T entry) in
          finish id entry o
  end.

(** * Signed bytes leave only from the file *)

Hypothesis unseal_seal : ∀ k a iv s, unseal k a (seal k a iv s) = Some s.
Abbreviation GoodJ := (Good keccak256 parseTx parseCall unseal).
Abbreviation ExtJ := (Ext unseal).
Abbreviation durableJ := (durable unseal).

(** The journal [j] holds [e] in the file, signed, unconfirmed and not abandoned, and may still write. *)
Definition Ready (e : PublicationEntry) (j : Journal) : Prop :=
  closed j = false ∧ poisoned j = false ∧ (∃ s, durableJ j = Some s ∧ e ∈ entries s) ∧
  confirmation e = None ∧ abandonment e = None ∧
  ∃ t, transaction e = Some t ∧ boundTransaction parseTx (scope j) (raw t) (intent e) = Ok t.

(** From [r0]: the journal is extended, [q] more broadcasts were made, all of ready entries. *)
Record Step (r0 : Run) (n : nat) (r : Run) : Prop := {
  st_good : GoodJ (journal r);
  st_ext : ExtJ (journal r0) (journal r);
  st_sent : ∃ new, sent r = new ++ sent r0 ∧ (length new ≤ n)%nat ∧ Forall (λ p, Ready p.1 p.2 ∧ ExtJ p.2 (journal r)) new }.

Lemma close_ext f j : GoodJ j → GoodJ (close f j).2 ∧ ExtJ j (close f j).2 ∧ state (close f j).2 = state j.
Proof. intros HG. pose proof (close_spec keccak256 parseTx parseCall unseal f j HG) as (H1 & H2 & H3 & _). done. Qed.

Lemma interfere_ext w j : GoodJ j → GoodJ (interfere w j) ∧ ExtJ j (interfere w j) ∧ state (interfere w j) = state j.
Proof.
  intros HG. unfold interfere. destruct (closes w) as [f|]; [by apply close_ext|]. split_and!; [done|by apply Ext_preorder|done].
Qed.

Lemma Ext_trans a b c : ExtJ a b → ExtJ b c → ExtJ a c.
Proof. apply Ext_preorder. Qed.

Lemma Step_ext r0 n r w j : Step r0 n r → GoodJ j → ExtJ (journal r) j → Step r0 n (mkRun w j (sent r)).
Proof.
  intros [H1 H2 (new & H3 & H4 & H5)] HG HE. split; [done|by eapply Ext_trans|]. exists new. split_and!; [done|done|].
  eapply Forall_impl; [exact H5|]. intros p [Hp He]. split; [done|]. by eapply Ext_trans.
Qed.

(** A call of the transport leaves the entries as they are. *)
Lemma wp_call {A} (m : M W A) (Q : outcome A → Run → Prop) r0 n r : Step r0 n r →
  (∀ o r', Step r0 n r' → state (journal r') = state (journal r) → Q o r') → wp (call m) Q r.
Proof.
  intros HS HQ. unfold wp, call. cbn. destruct (interfere_ext (m (world r)).2 (journal r) (st_good _ _ _ HS)) as (HG & HE & Es).
  apply HQ; [by apply Step_ext|done].
Qed.

Lemma wp_onJournal {A} (m : M Journal A) R (Q : outcome A → Run → Prop) r0 n r : Step r0 n r →
  wp m (Post keccak256 parseTx parseCall unseal (journal r) R) (journal r) →
  (∀ e r', Step r0 n r' → Q (Throw e) r') → (∀ a r', Step r0 n r' → R a (journal r') → Q (Ok a) r') → wp (onJournal m) Q r.
Proof.
  intros HS Hm He Ho. unfold wp, onJournal in *. cbn. destruct (m (journal r)) as [[a|e] j']; destruct Hm as (HG & HE & HR).
  - apply Ho; [by apply Step_ext|done].
  - apply He. by apply Step_ext.
Qed.

Lemma wp_snapshot (Q : outcome (list PublicationEntry) → Run → Prop) r0 n r : Step r0 n r →
  (∀ e, Q (Throw e) r) → (closed (journal r) = false → poisoned (journal r) = false → Q (Ok (entries (state (journal r)))) r) →
  wp (onJournal snapshot) Q r.
Proof.
  intros HS He Ho. unfold wp, onJournal, snapshot, assertOpen, bind, getS, gets, failM, throw. destruct r as [w j l]. cbn in *.
  destruct (closed j); [apply He|]. destruct (poisoned j); [apply He|by apply Ho].
Qed.

(** What the file says of a confirmation that was answered. *)
Definition Recorded (i : string) (o : PublicationObservation) (j : Journal) : Prop :=
  match o with
  | OConfirmed c => ∃ s e c', durableJ j = Some s ∧ e ∈ entries s ∧ id e = i ∧ confirmation e = Some c' ∧ sameConfirmation c c' = true
  | _ => True
  end.
Definition Answer (i : string) (r0 : Run) (o : outcome PublicationObservation) (r : Run) : Prop :=
  Step r0 1 r ∧ match o with Ok o => Recorded i o (journal r) | Throw _ => True end.

Lemma Step_mono r0 r : Step r0 0 r → Step r0 1 r.
Proof. intros [H1 H2 (new & H3 & H4 & H5)]. split; [done|done|]. exists new. split_and!; [done|lia|done]. Qed.

Lemma in_file j e : GoodJ j → e ∈ entries (state j) → ∃ s e', durableJ j = Some s ∧ e' ∈ entries s ∧ Completes e e'.
Proof.
  intros [_ (s & Hs & _ & Hg & _)] He. destruct (Grows_elem _ _ _ Hg He) as (e' & He' & Hc). by exists s, e'.
Qed.

Lemma sameConfirmation_refl c : sameConfirmation c c = true.
Proof. unfold sameConfirmation. by rewrite !String.eqb_refl, !Z.eqb_refl. Qed.

Lemma finish_spec i e o r0 r : Step r0 1 r → e ∈ entries (state (journal r)) → id e = i → wp (finish i e o) (Answer i r0) r.
Proof.
  intros HS He Hi. unfold finish. apply wp_bind. destruct (confirmation e) as [c|] eqn:Ec.
  - apply wp_require; intros H; [|by split]. apply wp_ret. split; [done|]. destruct o as [| |c']; [done..|].
    destruct (in_file _ _ (st_good _ _ _ HS) He) as (s & e' & Hs & He' & Hc). exists s, e', c. split_and!; [done|done| |by apply Hc|done].
    by rewrite (cp_id _ _ Hc).
  - destruct o as [| |c]; [by apply wp_ret|by apply wp_ret|]. apply wp_bind. eapply wp_onJournal; [done| |by split|].
    + by apply confirm_entry_spec, (st_good _ _ _ HS).
    + intros e1 r1 HS1 [(Hi1 & Hin & _ & _) Ec1]. apply wp_ret, wp_ret. split; [done|].
      destruct (in_file _ _ (st_good _ _ _ HS1) Hin) as (s & e' & Hs & He' & Hc). exists s, e', c.
      split_and!; [done|done| |by apply Hc|apply sameConfirmation_refl]. by rewrite (cp_id _ _ Hc).
Qed.

Lemma broadcast_spec e r0 r (Q : outcome unit → Run → Prop) : Step r0 0 r → Ready e (journal r) →
  (∀ o r', Step r0 1 r' → state (journal r') = state (journal r) → Q o r') → wp (callBroadcast T e) Q r.
Proof.
  intros [H1 H2 (new & H3 & H4 & H5)] HR HQ. unfold callBroadcast. apply wp_bind, wp_modify.
  eapply wp_call; [|exact HQ]. split; [done|done|]. exists ((e, journal r) :: new). cbn. split_and!; [by rewrite H3|lia|].
  constructor; [|done]. split; [done|]. by apply Ext_preorder.
Qed.

Lemma wp_throwAnswer i r0 r e : Step r0 0 r → Answer i r0 (Throw e) r.
Proof. intros HS. split; [by apply Step_mono|done]. Qed.

(** From the second part on, with the signed entry. *)
Lemma send_rest_spec i e r0 r : Step r0 0 r → e ∈ entries (state (journal r)) → id e = i → confirmation e = None → abandonment e = None →
  is_Some (transaction e) →
  wp (call (assertReady T e) ;;;
      let! o := call (observe T e) in
      if negb (isAbsent o) then finish i e o
      else onJournal snapshot ;;; tryCatch (callBroadcast T e) (λ _, ret tt) ;;; let! o := call (observe T e) in finish i e o)
    (Answer i r0) r.
Proof.
  intros HS He Hi Hc Ha [t Ht]. apply wp_bind. eapply wp_call; [done|]. intros [[]|x] r1 HS1 E1; [|by apply wp_throwAnswer].
  apply wp_bind. eapply wp_call; [done|]. intros [o|x] r2 HS2 E2; [|by apply wp_throwAnswer].
  assert (e ∈ entries (state (journal r2))) as He2 by congruence.
  destruct (negb (isAbsent o)); [apply finish_spec; [by apply Step_mono|done..]|].
  apply wp_bind. eapply wp_snapshot; [done|intros; by apply wp_throwAnswer|]. intros Hcl Hpo.
  apply wp_bind, wp_tryCatch. eapply broadcast_spec; [done| |].
  - destruct (st_good _ _ _ HS2) as [[Hv _] (s & Hs & _ & _ & Heq)]. apply validate_sound in Hv as [HSd _].
    split_and!; [done|done| |done|done|].
    + exists s. split; [done|]. by rewrite (Heq Hpo).
    + exists t. split; [done|]. by apply (se_bound _ _ _ _ (so_entries _ _ _ _ HSd e He2)).
  - intros o' r3 HS3 E3. assert (e ∈ entries (state (journal r3))) as He3 by congruence.
    assert (wp (let! o := call (observe T e) in finish i e o) (Answer i r0) r3) as Hfin.
    { apply wp_bind. eapply wp_call; [done|]. intros [o3|x] r4 HS4 E4; [|by split]. apply finish_spec; [done|congruence|done]. }
    destruct o' as [[]|x]; exact Hfin.
Qed.

Lemma advance_spec i r0 : GoodJ (journal r0) → wp (advancePublication i) (Answer i r0) r0.
Proof.
  intros HG. assert (Step r0 0 r0) as HS by (split; [done|by apply Ext_preorder|by exists []]).
  unfold advancePublication. apply wp_bind. eapply wp_snapshot; [done|intros; by apply wp_throwAnswer|]. intros Hcl Hpo.
  destruct (findEntry i _) as [e|] eqn:Hf; [|by apply wp_throwAnswer]. pose proof Hf as [He Hi]%findEntry_Some.
  apply wp_bind, wp_require; intros Ha; [|by apply wp_throwAnswer]. apply negb_true_iff, bool_decide_eq_false, eq_None_not_Some in Ha.
  apply wp_bind. eapply wp_call; [done|]. intros [o|x] r1 HS1 E1; [|by apply wp_throwAnswer].
  assert (e ∈ entries (state (journal r1))) as He1 by congruence.
  destruct (bool_decide_reflect (is_Some (confirmation e))) as [|Hc%eq_None_not_Some]; cbn [orb]; [apply finish_spec; [by apply Step_mono|done..]|].
  destruct (negb (isAbsent o)); [apply finish_spec; [by apply Step_mono|done..]|].
  apply wp_bind. eapply wp_call; [done|]. intros [[]|x] r2 HS2 E2; [|by apply wp_throwAnswer].
  apply wp_bind. eapply wp_snapshot; [done|intros; by apply wp_throwAnswer|]. intros _ _.
  apply wp_bind. destruct (transaction e) as [t|] eqn:Et.
  - apply wp_ret. apply send_rest_spec; [done|congruence|done|done|done|by rewrite Et].
  - apply wp_bind. eapply wp_call; [done|]. intros [bytes|x] r3 HS3 E3; [|by apply wp_throwAnswer].
    eapply wp_onJournal; [done| |intros; by apply wp_throwAnswer|].
    + by apply (prepare_spec keccak256 parseTx parseCall seal sizeOf unseal unseal_seal i bytes), (st_good _ _ _ HS3).
    + intros e4 r4 HS4 ((Hi4 & Hin4 & _ & _) & Ha4 & Ht4 & Hc4). apply send_rest_spec; try done. rewrite (Hc4 e); [done|congruence].
Qed.

(** C28. One recovery step, over any transport that may fail and with other tasks
    that may close the journal at any await, broadcasts at most once, and only an entry
    that is neither confirmed nor abandoned and whose signed bytes, bound to the scope
    and the intent, the file holds at that moment; a confirmation it answers is in the
    file; entries are only completed. *)
Theorem publication_write_ahead (i : string) (r0 : Run) : Reachable getAddress keccak256 parseTx parseCall seal sizeOf unseal (journal r0) →
  let r := advancePublication i r0 in
  (∃ new, sent r.2 = new ++ sent r0 ∧ (length new ≤ 1)%nat ∧ ∀ e j, (e, j) ∈ new → Ready e j) ∧
  (∀ o, r.1 = Ok o → Recorded i o (journal r.2)) ∧
  Grows (entries (state (journal r0))) (entries (state (journal r.2))) ∧
  (∀ s, durableJ (journal r0) = Some s → ∃ s', durableJ (journal r.2) = Some s' ∧ Grows (entries s) (entries s')).
Proof.
  intros HG%Reachable_Good r; [|done]. pose proof (advance_spec i r0 HG) as [[_ [_ H1 H2] (new & H3 & H4 & H5)] H6]. fold r in H1, H2, H3, H6.
  split_and!; [|by intros o Ho; rewrite Ho in H6|done|done]. exists new. split_and!; [done|done|].
  intros e j Hej. rewrite Forall_forall in H5. by apply (H5 (e, j)).
Qed.
End advance.
End delivery.
End PublicationDelivery.

Module PublicationExample.
Import PublicationJournal PublicationDelivery.

Definition exPublisher : string := "0x00000000000000000000000000000000000000aa".
Definition exSource : string := "0x00000000000000000000000000000000000000bb".
Definition exWord : string := "0x1111111111111111111111111111111111111111111111111111111111111111".
Definition exIntent : PublicationIntent := mkIntent "0x00ab" 100 exWord None 1790000000000.

Definition exAddress (s : string) : option string := Some s.
Definition exKeccak (s : string) : string := s.
Definition exParse (s : string) : option ParsedTx :=
  Some (mkParsed true (Some exWord) (Some exPublisher) 11155111 (Some exSource) 0 "0x00ab" 7 s).
Definition exCall (s : string) : option (string * string) := Some ("publishEpoch", s).
Definition exEnvelope : Type := string * string * State.
Definition exSeal (k a iv : string) (s : State) : exEnvelope := (k, a, s).
Definition exSize (e : exEnvelope) : Z := 1000.
Definition exUnseal (k a : string) (e : exEnvelope) : option State :=
  if String.eqb e.1.1 k && String.eqb e.1.2 a then Some e.2 else None.
Lemma exUnseal_seal k a iv s : exUnseal k a (exSeal k a iv s) = Some s.
Proof. unfold exUnseal. cbn. by rewrite !String.eqb_refl. Qed.

Definition exScope : PublicationScope := mkScope 11155111 exSource exPublisher.
Definition exSecret : string := "0123456789abcdef0123456789abcdef".
Abbreviation exOpen := (open exAddress exKeccak exParse exCall exSize exUnseal "journal" exSecret exScope (mkDisk false None) [] CloseOk).
Definition exFresh : Journal := Eval vm_compute in
  match exOpen.1 with Ok j => j | Throw _ => mkJournal exScope "" (mkState 0 exScope []) true true (mkDisk false (Some ("", "", mkState 0 exScope []))) [] end.
Lemma exFresh_ok : exOpen = (Ok exFresh, disk exFresh).
Proof. by vm_compute. Qed.
Abbreviation exReachable := (Reachable exAddress exKeccak exParse exCall exSeal exSize exUnseal).
Lemma exFresh_reachable : exReachable exFresh.
Proof. eapply R_new. exact exFresh_ok. Qed.
Definition exBegun : Journal := Eval vm_compute in (runOp exKeccak exParse exCall exSeal exSize (OpBegin exIntent) exFresh).2.
Lemma exBegun_ok : exBegun = (runOp exKeccak exParse exCall exSeal exSize (OpBegin exIntent) exFresh).2.
Proof. by vm_compute. Qed.
Lemma exBegun_reachable : exReachable exBegun.
Proof. rewrite exBegun_ok. by apply R_op, exFresh_reachable. Qed.
Definition exId : string := Eval vm_compute in idOf exKeccak exScope exIntent.

Lemma publication_journal_invariant_witness : length (entries (state exBegun)) = 1%nat ∧ NoDup (nonces (entries (state exBegun))).
Proof.
  split; [reflexivity|].
  exact (proj1 (proj2 (publication_journal_invariant exAddress exKeccak exParse exCall exSeal exSize exUnseal exUnseal_seal exBegun
    (OpPrepare exId "0x02") exBegun_reachable))).
Defined.

(** A chain that confirms at the third look, and counts the looks. *)
Definition exConfirmation : PublicationConfirmation := mkConfirmation exWord 120 exWord 1 12 1790000001000.
Definition exTransport : PublicationTransport (W := nat) := mkTransport
  (λ _ n, (Ok (if (n <? 2)%nat then OAbsent else OConfirmed exConfirmation), S n)) (λ _, ret tt) (λ _, ret "0x02") (λ _, ret tt).
Definition exRun : Run (Envelope := exEnvelope) (W := nat) := mkRun 0%nat exBegun [].
Abbreviation exAdvance := (advancePublication exKeccak exParse exCall exSeal exSize (λ _, None) exTransport exId exRun).
Definition exDone : outcome PublicationObservation * Run (Envelope := exEnvelope) (W := nat) := Eval vm_compute in exAdvance.
Lemma exDone_ok : exAdvance = exDone.
Proof. by vm_compute. Qed.

(** The transaction was sent once, after the file held it, and the confirmation is in the file. *)
Lemma publication_write_ahead_witness : length (sent exDone.2) = 1%nat ∧
  Recorded exUnseal exId (OConfirmed exConfirmation) (journal exDone.2).
Proof.
  split; [reflexivity|].
  destruct (publication_write_ahead exAddress exKeccak exParse exCall exSeal exSize exUnseal (λ _, None) exTransport exUnseal_seal exId exRun
    exBegun_reachable) as (_ & HR & _).
  rewrite exDone_ok in HR. exact (HR (OConfirmed exConfirmation) eq_refl).
Defined.
End PublicationExample.
