(* ===== verification/Revocation.v ===== *)
(** Revocations as they are observed: the recorded observation and its normalisation,
    [src/pipeline/revocation-observation.ts] (Module Observation), the job of the vault's outbox
    ([RevocationJob] of [vault.ts]) and the reconciliation of a job with both chains,
    [src/pipeline/revocation-check.ts] (Module RevocationCheck).  The two chains are parameters that may
    change between any two reads.  A check reports ENFORCED only for the exact receipt coordinates; its
    result is accepted by the normalisation, which computes the state again and agrees. *)

From Stdlib Require Import ZArith Lia Ascii String.
From stdpp Require Import base decidable option list strings pretty.
From S2P Require Import Prelude JS Delivery Evm.
Local Open Scope string_scope.
Local Open Scope list_scope.
Local Open Scope Z_scope.
Local Open Scope js_scope.

Module Observation.

Record RevocationCheckConfig := mkConfig {
  source : string; asc : string; registry : string; expectedRevoker : string;
  sourceCodeHash : string; ascCodeHash : string; registryCodeHash : string;
  policyIds : list Z; confirmations : Z }.
#[export] Instance RevocationCheckConfig_eq_dec : EqDecision RevocationCheckConfig.
Proof. solve_decision. Defined.

Inductive ObservationState := ENFORCED | SUPERSEDED | INCONSISTENT | AWAITING_HUB.
#[export] Instance ObservationState_eq_dec : EqDecision ObservationState.
Proof. solve_decision. Defined.

Record Head := mkHead { blockNumber : Z; blockHash : string; timestamp : Z }.
#[export] Instance Head_eq_dec : EqDecision Head.
Proof. solve_decision. Defined.

Record SourceObservation := mkSource {
  transactionHash : string; s_blockNumber : Z; s_blockHash : string; transactionIndex : Z; receiptLogIndex : Z; s_confirmations : Z; head : Head }.
#[export] Instance SourceObservation_eq_dec : EqDecision SourceObservation.
Proof. solve_decision. Defined.

Record Cursor := mkCursor { c_height : string; c_transactionIndex : string; c_receiptLogIndex : string }.
#[export] Instance Cursor_eq_dec : EqDecision Cursor.
Proof. solve_decision. Defined.

Record HubObservation := mkHub { h_head : Head; tombstone : bool; cursor : Cursor; policies : list (Z * bool) }.
#[export] Instance HubObservation_eq_dec : EqDecision HubObservation.
Proof. solve_decision. Defined.

Record RevocationObservation := mkObservation {
  version : Z; operator : string; observedAt : Z; config : RevocationCheckConfig; state : ObservationState;
  o_source : SourceObservation; o_hub : HubObservation }.
#[export] Instance RevocationObservation_eq_dec : EqDecision RevocationObservation.
Proof. solve_decision. Defined.

Definition RevocationObservationError (code : string) : exn := EClass "RevocationObservationError" code.
Definition requireThat (b : bool) : outcome unit := orequire b (RevocationObservationError "INVALID_REVOCATION_OBSERVATION").

Definition isAlnum (c : ascii) : bool :=
  let n := nat_of_ascii c in isDigit c || ((65 <=? n)%nat && (n <=? 90)%nat) || ((97 <=? n)%nat && (n <=? 122)%nat).
Definition isRefChar (c : ascii) : bool :=
  isAlnum c || bool_decide (nat_of_ascii c ∈ [95; 46; 58; 45]%nat).   (* _ . : - *)
(** [/^[A-Za-z0-9][A-Za-z0-9_.:-]{0,127}$/]. *)
Definition isReference (s : string) : bool :=
  match s with String c r => isAlnum c && allChars isRefChar r && (String.length r <=? 127)%nat | EmptyString => false end.

Definition hash (value : string) : outcome string := let? _ := requireThat (isBytes32 value) in Ok (toLowerCase value).
(** [/^(0|[1-9]\d{0,77})$/]. *)
Definition isCoordinate (s : string) : bool :=
  String.eqb s "0" || match s with
                      | String c r => isDigit c && negb (nat_of_ascii c =? 48)%nat && allChars isDigit r && (String.length r <=? 77)%nat
                      | EmptyString => false end.
(** [BigInt] of a text the pattern accepts. *)
Definition BigInt (s : string) : Z := default 0 (Delivery.decimal s).
Definition coordinate (value : string) (bits : Z) : outcome string :=
  let? _ := requireThat (isCoordinate value && (BigInt value <? 2 ^ bits)) in Ok value.

(** The first position where the lists differ, [findIndex]. *)
Fixpoint firstDifference (a b : list Z) : option (Z * Z) :=
  match a, b with
  | x :: a, y :: b => if x =? y then firstDifference a b else Some (x, y)
  | _, _ => None
  end.

Fixpoint samePolicies (l : list (Z * bool)) (ids : list Z) : bool :=
  match l, ids with
  | [], _ => true
  | p :: l, i :: ids => (p.1 =? i) && samePolicies l ids
  | _ :: _, [] => false
  end.

Definition recent (t observedAt : Z) : bool := (0 <? t) && (t <=? observedAt + 30) && (observedAt - t <=? 300).

Definition coordinatesOf (s : SourceObservation) : list Z := [s_blockNumber s; transactionIndex s; receiptLogIndex s].
Definition cursorOf (c : Cursor) : list Z := [BigInt (c_height c); BigInt (c_transactionIndex c); BigInt (c_receiptLogIndex c)].
Definition stateOf (h : HubObservation) (s : SourceObservation) : ObservationState :=
  match firstDifference (cursorOf (cursor h)) (coordinatesOf s) with
  | None => if tombstone h && forallb (λ p, negb p.2) (policies h) then ENFORCED else INCONSISTENT
  | Some (a, b) => if b <? a then SUPERSEDED else AWAITING_HUB
  end.

Section observation.
(** [ethers.isAddress]. *)
Context (isAddress : string → bool).

Definition address (value : string) : outcome string :=
  let? _ := requireThat (isAddress value && negb (String.eqb (toLowerCase value) ZeroAddress)) in Ok (toLowerCase value).

Definition normalizeConfig (c : RevocationCheckConfig) : outcome RevocationCheckConfig :=
  let? a := address (source c) in let? b := address (asc c) in let? r := address (registry c) in let? e := address (expectedRevoker c) in
  let? h1 := hash (sourceCodeHash c) in let? h2 := hash (ascCodeHash c) in let? h3 := hash (registryCodeHash c) in
  Ok (mkConfig a b r e h1 h2 h3 (policyIds c) (confirmations c)).
Definition normalizeHead (h : Head) : outcome Head :=
  let? x := hash (blockHash h) in Ok (mkHead (blockNumber h) x (timestamp h)).
Definition normalizeSource (s : SourceObservation) : outcome SourceObservation :=
  let? t := hash (transactionHash s) in let? b := hash (s_blockHash s) in let? h := normalizeHead (head s) in
  Ok (mkSource t (s_blockNumber s) b (transactionIndex s) (receiptLogIndex s) (s_confirmations s) h).
Definition normalizeCursor (c : Cursor) : outcome Cursor :=
  let? h := coordinate (c_height c) 64 in let? t := coordinate (c_transactionIndex c) 64 in let? l := coordinate (c_receiptLogIndex c) 256 in
  Ok (mkCursor h t l).

Definition normalizeRevocationObservation (value : RevocationObservation) : outcome RevocationObservation :=
  let c := config value in let s := o_source value in let h := o_hub value in
  let? _ := requireThat ((version value =? 1) && isReference (operator value)) in
  let? _ := requireThat (safeNat (observedAt value) && (0 <? observedAt value) && (observedAt value <=? MAX_SAFE_INTEGER / 1000)
    && safeNat (confirmations c) && (0 <? confirmations c)) in
  let? _ := requireThat ((0 <? length (policyIds c))%nat && (length (policyIds c) <=? 16)%nat
    && forallb (λ i, safeNat i && (0 <? i)) (policyIds c) && bool_decide (NoDup (policyIds c))) in
  let? _ := requireThat (forallb safeNat [s_blockNumber s; transactionIndex s; receiptLogIndex s; s_confirmations s; blockNumber (head s);
      timestamp (head s); blockNumber (h_head h); timestamp (h_head h)]
    && (confirmations c <=? s_confirmations s) && recent (timestamp (h_head h)) (observedAt value)) in
  let? _ := requireThat ((s_blockNumber s <=? blockNumber (head s)) && (blockNumber (head s) - s_blockNumber s + 1 =? s_confirmations s)
    && recent (timestamp (head s)) (observedAt value)) in
  let? _ := requireThat (length (policies h) =? length (policyIds c))%nat in
  let? _ := requireThat (samePolicies (policies h) (policyIds c)) in
  let? cursor := normalizeCursor (cursor h) in
  let h' := mkHub (h_head h) (tombstone h) cursor (policies h) in
  let? _ := requireThat (bool_decide (state value = stateOf h' s)) in
  let? c' := normalizeConfig c in
  let? s' := normalizeSource s in
  let? head' := normalizeHead (h_head h) in
  Ok (mkObservation 1 (operator value) (observedAt value) c' (stateOf h' s) s' (mkHub head' (tombstone h) cursor (policies h))).
End observation.
End Observation.

(** * The outbox job of a revocation ([RevocationJob] of [vault.ts]) *)

Module Job.
Import Observation.

Inductive JobState := j_pending | j_prepared | j_confirmed.
#[export] Instance JobState_eq_dec : EqDecision JobState.
Proof. solve_decision. Defined.

Record Target := mkTarget { t_chainId : Z; t_source : string }.
#[export] Instance Target_eq_dec : EqDecision Target.
Proof. solve_decision. Defined.

Record Transaction := mkTx { hash : string; raw : string; chainId : Z; txSource : string }.
#[export] Instance Transaction_eq_dec : EqDecision Transaction.
Proof. solve_decision. Defined.

Record Recorded := mkRecorded { recordedAt : Z; observation : RevocationObservation }.
#[export] Instance Recorded_eq_dec : EqDecision Recorded.
Proof. solve_decision. Defined.

Record RevocationJob := mkJob {
  id : string; recordId : string; walletAddress : string; createdAt : Z; state : JobState; sourceTarget : option Target;
  transaction : option Transaction; confirmedAt : option Z; lastError : option string; observations : option (list Recorded) }.
#[export] Instance RevocationJob_eq_dec : EqDecision RevocationJob.
Proof. solve_decision. Defined.

(** [assertRevocationTarget] of [rescreen.ts]. *)
Definition assertRevocationTarget (job : RevocationJob) (target : Target) : outcome unit :=
  orequire match sourceTarget job with
           | Some t => (t_chainId t =? t_chainId target) && same (t_source t) (t_source target)
           | None => true
           end (EError "revocation target does not match retained source issuance").
End Job.

(** * The reconciliation with both chains *)

Module RevocationCheck.
Import Observation.

Record Block := mkBlock { b_hash : option string; b_number : Z; b_timestamp : Z }.

(** What is read of the chains; a block is found by number, or is the latest one. *)
Record SourceReads (W : Type) := {
  sr_chainId : M W Z; sr_latest : M W (option Block); sr_block : Z → M W (option Block);
  sr_code : string → Z → M W string; sr_receipt : string → M W (option TxReceipt) }.
Record HubReads (W : Type) := {
  hr_chainId : M W Z; hr_latest : M W (option Block); hr_block : Z → M W (option Block); hr_code : string → Z → M W string;
  sourceContract : string → Z → M W string; expectedChainKey : string → Z → M W Z; processingVersion : string → Z → M W Z;
  tombstoneOf : string → string → Z → M W bool; lastAppliedHeight : string → string → Z → M W Z;
  lastAppliedTxIndex : string → string → Z → M W Z; lastAppliedLogIndex : string → string → Z → M W Z;
  registryAsc : string → Z → M W string; policySchema : string → Z → M W Z; policyOwner : string → Z → Z → M W string;
  policyFrozen : string → Z → Z → M W bool; isVerified : string → string → Z → Z → M W bool }.
Arguments sr_chainId {W} _.
Arguments sr_latest {W} _.
Arguments sr_block {W} _ _.
Arguments sr_code {W} _ _ _.
Arguments sr_receipt {W} _ _.
Arguments hr_chainId {W} _.
Arguments hr_latest {W} _.
Arguments hr_block {W} _ _.
Arguments hr_code {W} _ _ _.
Arguments sourceContract {W} _ _ _.
Arguments expectedChainKey {W} _ _ _.
Arguments processingVersion {W} _ _ _.
Arguments tombstoneOf {W} _ _ _ _.
Arguments lastAppliedHeight {W} _ _ _ _.
Arguments lastAppliedTxIndex {W} _ _ _ _.
Arguments lastAppliedLogIndex {W} _ _ _ _.
Arguments registryAsc {W} _ _ _.
Arguments policySchema {W} _ _ _.
Arguments policyOwner {W} _ _ _ _.
Arguments policyFrozen {W} _ _ _ _.
Arguments isVerified {W} _ _ _ _ _.

Inductive CheckResult :=
  | UNSIGNED
  | SOURCE_PENDING (transactionHash : string)
  | SOURCE_UNCONFIRMED (transactionHash : string) (confirmations : Z)
  | SOURCE_REVERTED (transactionHash : string)
  | Observed (state : ObservationState) (enforced : bool) (source : SourceObservation) (hub : HubObservation) (observedAt : Z).

Definition RevocationCheckError (code : string) : exn := EClass "RevocationCheckError" code.
Definition checkThat (b : bool) (code : string) : outcome unit := orequire b (RevocationCheckError code).

Definition fresh (block : option Block) (now : Z) : outcome Head :=
  let bad := RevocationCheckError "STALE_OR_INVALID_HEAD" in
  match block with
  | Some (mkBlock (Some h) n t) =>
      let? _ := orequire (isBytes32 h && safeNat n && isSafeInteger t && recent t now) bad in Ok (mkHead n h t)
  | _ => Throw bad
  end.

Section check.
Context {W : Type} (sourceRpc : SourceReads W) (hubRpc : HubReads W).
(** [ethers.isAddress], [keccak256], and the decoding of a [MarkRevoked] log to its subject and reason. *)
Context (isAddress : string → bool) (keccak256 : string → string) (parseLog : Log → option (string * Z)).

Definition nonzeroAddress (a : string) : bool := isAddress a && negb (same a ZeroAddress).

Definition checkConfig (job : Job.RevocationJob) (c : RevocationCheckConfig) (now : Z) : outcome unit :=
  let? _ := checkThat (isSafeInteger now && (0 <? now) && isSafeInteger (confirmations c) && (0 <? confirmations c)) "INVALID_CHECK_CONFIG" in
  let? _ := checkThat (forallb nonzeroAddress [source c; asc c; registry c; expectedRevoker c; Job.walletAddress job]) "INVALID_CHECK_ADDRESS" in
  checkThat (forallb isBytes32 [sourceCodeHash c; ascCodeHash c; registryCodeHash c]
    && (0 <? length (policyIds c))%nat && (length (policyIds c) <=? 16)%nat
    && forallb (λ i, isSafeInteger i && (0 <? i)) (policyIds c) && bool_decide (NoDup (policyIds c))) "INVALID_CHECK_CONFIG".

(** A log of the source contract that revokes the wallet, with its position. *)
Definition matching (source wallet : string) (log : Log) : option Z :=
  if same (lg_address log) source then
    match parseLog log with Some (subject, reason) => if same subject wallet then Some reason else None | None => None end
  else None.
Fixpoint matchesFrom (source wallet : string) (i : Z) (logs : list Log) : list (Z * Z * Log) :=
  match logs with
  | [] => []
  | log :: logs =>
      match matching source wallet log with
      | Some reason => (i, reason, log) :: matchesFrom source wallet (i + 1) logs
      | None => matchesFrom source wallet (i + 1) logs
      end
  end.

Definition readPolicy (c : RevocationCheckConfig) (wallet : string) (at_ : Z) (i : Z) : M W (Z * bool) :=
  let! owner := policyOwner hubRpc (registry c) i at_ in
  let! frozen := policyFrozen hubRpc (registry c) i at_ in
  let! verified := isVerified hubRpc (registry c) wallet i at_ in
  lift_out (checkThat (nonzeroAddress owner && frozen) "INVALID_POLICY_OBSERVATION") ;;;
  ret (i, verified).
Fixpoint readPolicies (c : RevocationCheckConfig) (wallet : string) (at_ : Z) (l : list Z) : M W (list (Z * bool)) :=
  match l with
  | [] => ret []
  | i :: l => let! p := readPolicy c wallet at_ i in let! ps := readPolicies c wallet at_ l in ret (p :: ps)
  end.

Definition sameHash (b : option Block) (h : string) : bool :=
  match b with Some b => bool_decide (b_hash b = Some h) | None => false end.

(** From the receipt's only event on: what the hub holds, at its head. *)
Definition observeHub (job : Job.RevocationJob) (c : RevocationCheckConfig) (s : SourceObservation) (hubHead : Head) (now : Z) : M W CheckResult :=
  let wallet := Job.walletAddress job in let at_ := blockNumber hubHead in
  let! boundSource := sourceContract hubRpc (asc c) at_ in
  let! chainKey := expectedChainKey hubRpc (asc c) at_ in
  let! version := processingVersion hubRpc (asc c) at_ in
  let! boundAsc := registryAsc hubRpc (registry c) at_ in
  let! policyVersion := policySchema hubRpc (registry c) at_ in
  let! tomb := tombstoneOf hubRpc (asc c) wallet at_ in
  let! height := lastAppliedHeight hubRpc (asc c) wallet at_ in
  let! index := lastAppliedTxIndex hubRpc (asc c) wallet at_ in
  let! logIndex := lastAppliedLogIndex hubRpc (asc c) wallet at_ in
  let! ps := readPolicies c wallet at_ (policyIds c) in
  lift_out (checkThat (same boundSource (source c) && (chainKey =? 1) && (version =? 2) && same boundAsc (asc c) && (policyVersion =? 2))
    "HUB_BINDING_MISMATCH") ;;;
  let exact := (height =? s_blockNumber s) && (index =? transactionIndex s) && (logIndex =? receiptLogIndex s) in
  let newer := (s_blockNumber s <? height) || ((height =? s_blockNumber s)
    && ((transactionIndex s <? index) || ((index =? transactionIndex s) && (receiptLogIndex s <? logIndex)))) in
  let! sourceAgain := sr_block sourceRpc (s_blockNumber s) in
  let! headAgain := sr_block sourceRpc (blockNumber (head s)) in
  let! hubAgain := hr_block hubRpc at_ in
  lift_out (checkThat (sameHash sourceAgain (s_blockHash s) && sameHash headAgain (blockHash (head s)) && sameHash hubAgain (blockHash hubHead))
    "OBSERVATION_REORG") ;;;
  let enforced := exact && tomb && forallb (λ p, negb p.2) ps in
  ret (Observed (if enforced then ENFORCED else if newer then SUPERSEDED else if exact then INCONSISTENT else AWAITING_HUB) enforced s
    (mkHub hubHead tomb (mkCursor (pretty height) (pretty index) (pretty logIndex)) ps) now).

Definition checkRevocation (job : Job.RevocationJob) (c : RevocationCheckConfig) (now : Z) : M W CheckResult :=
  lift_out (checkConfig job c now) ;;;
  match Job.transaction job with
  | None => ret UNSIGNED
  | Some tx =>
      lift_out (checkThat (isBytes32 (Job.hash tx) && (Job.chainId tx =? 11155111) && same (Job.txSource tx) (source c)) "SOURCE_TARGET_MISMATCH") ;;;
      lift_out (checkThat (is_ok (Job.assertRevocationTarget job (Job.mkTarget 11155111 (source c)))) "SOURCE_TARGET_MISMATCH") ;;;
      let! sourceNetwork := sr_chainId sourceRpc in
      let! hubNetwork := hr_chainId hubRpc in
      lift_out (checkThat ((sourceNetwork =? 11155111) && (hubNetwork =? 102031)) "WRONG_CHAIN") ;;;
      let! sourceLatest := sr_latest sourceRpc in
      let! hubLatest := hr_latest hubRpc in
      let! sourceHead := lift_out (fresh sourceLatest now) in
      let! hubHead := lift_out (fresh hubLatest now) in
      let! sourceCode := sr_code sourceRpc (source c) (blockNumber sourceHead) in
      let! ascCode := hr_code hubRpc (asc c) (blockNumber hubHead) in
      let! registryCode := hr_code hubRpc (registry c) (blockNumber hubHead) in
      lift_out (checkThat (negb (String.eqb sourceCode "0x") && negb (String.eqb ascCode "0x") && negb (String.eqb registryCode "0x")
        && same (keccak256 sourceCode) (sourceCodeHash c) && same (keccak256 ascCode) (ascCodeHash c)
        && same (keccak256 registryCode) (registryCodeHash c)) "RUNTIME_PIN_MISMATCH") ;;;
      let! receipt := sr_receipt sourceRpc (Job.hash tx) in
      match receipt with
      | None => ret (SOURCE_PENDING (Job.hash tx))
      | Some r =>
          lift_out (checkThat (String.eqb (rc_hash r) (Job.hash tx)
            && match rc_to r with Some t => negb (String.eqb t "") && same t (source c) | None => false end && same (rc_from r) (expectedRevoker c)
            && safeNat (rc_blockNumber r) && (rc_blockNumber r <=? blockNumber sourceHead) && safeNat (rc_index r)
            && isBytes32 (rc_blockHash r)) "SOURCE_RECEIPT_MISMATCH") ;;;
          let! sourceBlock := sr_block sourceRpc (rc_blockNumber r) in
          lift_out (checkThat (match sourceBlock with
              | Some b => (b_number b =? rc_blockNumber r) && bool_decide (b_hash b = Some (rc_blockHash r)) | None => false end) "SOURCE_REORG") ;;;
          let depth := blockNumber sourceHead - rc_blockNumber r + 1 in
          if depth <? confirmations c then ret (SOURCE_UNCONFIRMED (Job.hash tx) depth)
          else
            lift_out (checkThat ((rc_status r =? 0) || (rc_status r =? 1)) "SOURCE_RECEIPT_MISMATCH") ;;;
            if rc_status r =? 0 then ret (SOURCE_REVERTED (Job.hash tx))
            else
              let! codeThen := sr_code sourceRpc (source c) (rc_blockNumber r) in
              lift_out (checkThat (same (keccak256 codeThen) (sourceCodeHash c)) "RUNTIME_PIN_MISMATCH") ;;;
              match matchesFrom (source c) (Job.walletAddress job) 0 (rc_logs r) with
              | [(i, reason, log)] =>
                  lift_out (checkThat ((reason =? 2) && (length (lg_topics log) =? 4)%nat && String.eqb (lg_data log) "0x") "SOURCE_EVENT_MISMATCH") ;;;
                  observeHub job c (mkSource (Job.hash tx) (rc_blockNumber r) (rc_blockHash r) (rc_index r) i depth sourceHead) hubHead now
              | _ => throw (RevocationCheckError "SOURCE_EVENT_MISMATCH")
              end
      end
  end.

(** [revocationObservation] of [revocation-observation.ts]. *)
Definition revocationObservation (result : CheckResult) (config : RevocationCheckConfig) (operator : string) : outcome RevocationObservation :=
  match result with
  | Observed state _ s h at_ =>
      let? _ := orequire (negb (at_ =? 0)) (RevocationObservationError "INCOMPLETE_REVOCATION_OBSERVATION") in
      normalizeRevocationObservation isAddress (mkObservation 1 operator at_ config state s h)
  | _ => Throw (RevocationObservationError "INCOMPLETE_REVOCATION_OBSERVATION")
  end.
End check.
End RevocationCheck.

(** ** Decimal texts of natural numbers *)

Section decimals.
Import Observation.

Lemma decimalFrom_app a d t acc v : Delivery.decimalFrom acc d = Some v → a = d +:+ t → Delivery.decimalFrom acc a = Delivery.decimalFrom v t.
Proof.
  intros H ->. revert acc H. induction d as [|c d IH]; intros acc; [cbn; intros [= ->]; by rewrite app_nil_str|]. rewrite app_cons_str. cbn. destruct (isDigit c); [apply IH|done].
Qed.

(** The digits of [n] before [s]. *)
Definition Digits (n : Z) (d : string) : Prop :=
  ∃ c r, d = String c r ∧ isDigit c = true ∧ nat_of_ascii c ≠ 48%nat ∧ allChars isDigit r = true
    ∧ Delivery.decimalFrom 0 d = Some n ∧ 10 ^ Z.of_nat (String.length r) ≤ n.

Lemma digit_char r : 0 ≤ r < 10 → isDigit (pretty_N_char (Z.to_N r)) = true ∧ Z.of_nat (nat_of_ascii (pretty_N_char (Z.to_N r))) = r + 48.
Proof.
  intros H. assert (r = 0 ∨ r = 1 ∨ r = 2 ∨ r = 3 ∨ r = 4 ∨ r = 5 ∨ r = 6 ∨ r = 7 ∨ r = 8 ∨ r = 9) as Hr by lia.
  by repeat destruct Hr as [->|Hr]; [..|subst r].
Qed.

Lemma Digits_snoc q r d : 0 ≤ r < 10 → Digits q d → Digits (10 * q + r) (d +:+ String (pretty_N_char (Z.to_N r)) "").
Proof.
  intros Hr (c & t & -> & Hc & H0 & Ht & Hv & Hl). apply digit_char in Hr as Hd. destruct Hd as [Hd Hn].
  exists c, (t +:+ String (pretty_N_char (Z.to_N r)) ""). split_and!; [done|done|done| | |].
  - rewrite allChars_app. cbn. by rewrite Ht, Hd.
  - rewrite (decimalFrom_app _ _ _ _ _ Hv eq_refl). cbn. rewrite Hd. f_equal. lia.
  - rewrite length_app_str. cbn [String.length]. replace (Z.of_nat (String.length t + 1)) with (Z.of_nat (String.length t) + 1) by lia.
    rewrite Z.pow_add_r by lia. lia.
Qed.

Lemma pretty_go_digits (n : N) : (0 < n)%N → ∀ s, ∃ d, pretty_N_go n s = d +:+ s ∧ Digits (Z.of_N n) d.
Proof.
  induction (N.lt_wf_0 n) as [n _ IH]. intros Hn s. rewrite pretty_N_go_step by done.
  assert (n = 10 * (n `div` 10) + n `mod` 10)%N as E by (apply N.div_mod; lia). assert (n `mod` 10 < 10)%N as Hr by (apply N.mod_lt; lia).
  destruct (decide (n `div` 10 = 0)%N) as [Hq|Hq].
  - rewrite Hq, pretty_N_go_0. exists (String (pretty_N_char (n `mod` 10)) ""). split; [done|].
    destruct (digit_char (Z.of_N (n `mod` 10))) as [Hd Hc]; [lia|]. rewrite N2Z.id in *.
    exists (pretty_N_char (n `mod` 10)), "". split_and!; [done|done|lia|done| |cbn; lia]. cbn. rewrite Hd. f_equal. lia.
  - destruct (IH (n `div` 10)%N) with (s := String (pretty_N_char (n `mod` 10)) s) as (d & Hd & HD); [apply N.div_lt; lia|lia|].
    exists (d +:+ String (pretty_N_char (n `mod` 10)) ""). split; [by rewrite Hd, app_assoc_str|].
    pose proof (Digits_snoc (Z.of_N (n `div` 10)) (Z.of_N (n `mod` 10)) d) as H. rewrite N2Z.id in H.
    replace (Z.of_N n) with (10 * Z.of_N (n `div` 10) + Z.of_N (n `mod` 10)) by lia. apply H; [clear -Hr; split; [apply N2Z.is_nonneg|]; apply (N2Z.inj_lt _ 10); done|done].
Qed.

(** [BigInt(n.toString()) === n], and the text is one that [coordinate] accepts. *)
Lemma pretty_coordinate n : 0 ≤ n < 10 ^ 78 → isCoordinate (pretty n) = true ∧ BigInt (pretty n) = n.
Proof.
  intros Hn. destruct n as [|p|p]; [done| |lia]. destruct (pretty_go_digits (N.pos p)) with (s := "") as (d & Hd & (c & r & -> & H1 & H2 & H3 & H4 & H5)); [lia|].
  assert (pretty (Z.pos p) = String c r) as ->.
  { change (pretty (Z.pos p)) with (pretty_N_go (N.pos p) ""). rewrite Hd. clear. set (s := String c r). induction s as [|x s IH]; [done|]. by rewrite app_cons_str, IH. }
  split.
  - unfold isCoordinate. rewrite H1, H3. apply Nat.eqb_neq in H2. rewrite H2. cbn [negb andb]. apply orb_true_iff. right. apply Nat.leb_le.
    assert (Z.of_nat (String.length r) < 78); [|lia]. apply (Z.pow_lt_mono_r_iff 10); [lia|lia|]. cbn [Z.of_N] in *. lia.
  - unfold BigInt, Delivery.decimal. cbn [String.eqb]. by rewrite H4.
Qed.
End decimals.

(** * What a check that observes rests on *)

Section agrees.
Import Observation RevocationCheck.
Context {W : Type} (sourceRpc : SourceReads W) (hubRpc : HubReads W).
Context (isAddress : string → bool) (keccak256 : string → string) (parseLog : Log → option (string * Z)).

(** The contracts answer integers of their widths; a receipt has fewer logs than an array can hold; block
    numbers are safe integers and not the greatest one. *)
Record InRange (r : HubReads W) (logs : SourceReads W) : Prop := {
  ir_height : ∀ a w n h, answered (lastAppliedHeight r a w n) h → 0 ≤ h < 2 ^ 64;
  ir_index : ∀ a w n h, answered (lastAppliedTxIndex r a w n) h → 0 ≤ h < 2 ^ 64;
  ir_log : ∀ a w n h, answered (lastAppliedLogIndex r a w n) h → 0 ≤ h < 2 ^ 256;
  ir_logs : ∀ h rc, answered (sr_receipt logs h) (Some rc) → Z.of_nat (length (rc_logs rc)) < 2 ^ 32;
  ir_head : ∀ b, answered (sr_latest logs) (Some b) → b_number b < MAX_SAFE_INTEGER }.

Definition Same (a b : string) : Prop := toLowerCase a = toLowerCase b.
Definition Pinned (code pin : string) : Prop := code ≠ "0x" ∧ Same (keccak256 code) pin.
(** A head that was read as the latest block, not older than five minutes nor more than 30 seconds ahead. *)
Definition FreshHead (latest : M W (option Block)) (now : Z) (h : Head) : Prop :=
  answered latest (Some (mkBlock (Some (blockHash h)) (blockNumber h) (timestamp h))) ∧ 0 < timestamp h ≤ now + 30 ∧ now - timestamp h ≤ 300.

(** A log of the source contract that revokes the wallet for a reason. *)
Definition Revokes (c : RevocationCheckConfig) (wallet : string) (log : Log) (reason : Z) : Prop :=
  Same (lg_address log) (source c) ∧ ∃ subject, parseLog log = Some (subject, reason) ∧ Same subject wallet.

(** The signed transaction of the job succeeded in the canonical block, deep enough, with one revocation of the
    wallet, for the reason 2, under the pinned code of the source contract. *)
Record SourceEvidence (job : Job.RevocationJob) (c : RevocationCheckConfig) (s : SourceObservation) (tx : Job.Transaction) (r : TxReceipt) : Prop := {
  se_job : Job.transaction job = Some tx ∧ transactionHash s = Job.hash tx ∧ Job.chainId tx = 11155111 ∧ Same (Job.txSource tx) (source c)
    ∧ ∀ t, Job.sourceTarget job = Some t → Job.t_chainId t = 11155111 ∧ Same (Job.t_source t) (source c);
  se_receipt : answered (sr_receipt sourceRpc (Job.hash tx)) (Some r) ∧ rc_hash r = Job.hash tx ∧ rc_status r = 1
    ∧ (∃ t, rc_to r = Some t ∧ Same t (source c)) ∧ Same (rc_from r) (expectedRevoker c);
  se_coordinates : s_blockNumber s = rc_blockNumber r ∧ s_blockHash s = rc_blockHash r ∧ transactionIndex s = rc_index r;
  se_event : ∃ l1 log l2, rc_logs r = l1 ++ log :: l2 ∧ receiptLogIndex s = Z.of_nat (length l1) ∧ Revokes c (Job.walletAddress job) log 2
    ∧ length (lg_topics log) = 4%nat ∧ lg_data log = "0x" ∧ ∀ log' reason, log' ∈ l1 ++ l2 → ¬ Revokes c (Job.walletAddress job) log' reason;
  se_canonical : ∃ b, answered (sr_block sourceRpc (s_blockNumber s)) (Some b) ∧ b_number b = s_blockNumber s ∧ b_hash b = Some (s_blockHash s);
  se_depth : s_blockNumber s ≤ blockNumber (head s) ∧ s_confirmations s = blockNumber (head s) - s_blockNumber s + 1 ∧ 0 < confirmations c ≤ s_confirmations s;
  se_code : ∃ code then_, answered (sr_code sourceRpc (source c) (blockNumber (head s))) code ∧ Pinned code (sourceCodeHash c)
    ∧ answered (sr_code sourceRpc (source c) (s_blockNumber s)) then_ ∧ Same (keccak256 then_) (sourceCodeHash c) }.

(** What the hub's contracts answered at its head: the pinned codes, that refer to each other, their versions, and
    the tombstone, the cursor and the policies of the wallet. *)
Record HubEvidence (wallet : string) (c : RevocationCheckConfig) (h : HubObservation) (height index logIndex : Z) : Prop := {
  he_code : ∃ ascCode registryCode, answered (hr_code hubRpc (asc c) (blockNumber (h_head h))) ascCode ∧ Pinned ascCode (ascCodeHash c)
    ∧ answered (hr_code hubRpc (registry c) (blockNumber (h_head h))) registryCode ∧ Pinned registryCode (registryCodeHash c);
  he_asc : (∃ a, answered (sourceContract hubRpc (asc c) (blockNumber (h_head h))) a ∧ Same a (source c))
    ∧ answered (expectedChainKey hubRpc (asc c) (blockNumber (h_head h))) 1 ∧ answered (processingVersion hubRpc (asc c) (blockNumber (h_head h))) 2;
  he_registry : (∃ a, answered (registryAsc hubRpc (registry c) (blockNumber (h_head h))) a ∧ Same a (asc c))
    ∧ answered (policySchema hubRpc (registry c) (blockNumber (h_head h))) 2;
  he_tombstone : answered (tombstoneOf hubRpc (asc c) wallet (blockNumber (h_head h))) (tombstone h);
  he_cursor : answered (lastAppliedHeight hubRpc (asc c) wallet (blockNumber (h_head h))) height
    ∧ answered (lastAppliedTxIndex hubRpc (asc c) wallet (blockNumber (h_head h))) index
    ∧ answered (lastAppliedLogIndex hubRpc (asc c) wallet (blockNumber (h_head h))) logIndex
    ∧ cursor h = mkCursor (pretty height) (pretty index) (pretty logIndex);
  he_policies : map fst (policies h) = policyIds c ∧ ∀ i v, (i, v) ∈ policies h →
    answered (isVerified hubRpc (registry c) wallet i (blockNumber (h_head h))) v
    ∧ answered (policyFrozen hubRpc (registry c) i (blockNumber (h_head h))) true
    ∧ ∃ owner, answered (policyOwner hubRpc (registry c) i (blockNumber (h_head h))) owner ∧ isAddress owner = true ∧ ¬ Same owner ZeroAddress }.

(** The last three reads, the first in any world and the last in [w'], found the blocks of the receipt and of both
    heads as they were. *)
Definition StillCanonical (s : SourceObservation) (h : HubObservation) (w' : W) : Prop :=
  ∃ w1 w2 w3 b1 b2 b3, sr_block sourceRpc (s_blockNumber s) w1 = (Ok (Some b1), w2) ∧ b_hash b1 = Some (s_blockHash s)
    ∧ sr_block sourceRpc (blockNumber (head s)) w2 = (Ok (Some b2), w3) ∧ b_hash b2 = Some (blockHash (head s))
    ∧ hr_block hubRpc (blockNumber (h_head h)) w3 = (Ok (Some b3), w') ∧ b_hash b3 = Some (blockHash (h_head h)).

(** The state, from the receipt's coordinates and the hub's cursor. *)
Definition Later (a b : Z * Z * Z) : Prop :=
  let '(h, i, l) := a in let '(h', i', l') := b in h' < h ∨ h = h' ∧ (i' < i ∨ i = i' ∧ l' < l).
Definition Classified (st : ObservationState) (cursor coordinates : Z * Z * Z) (tomb : bool) (ps : list (Z * bool)) : Prop :=
  match st with
  | ENFORCED => cursor = coordinates ∧ tomb = true ∧ ∀ p, p ∈ ps → p.2 = false
  | SUPERSEDED => Later cursor coordinates
  | INCONSISTENT => cursor = coordinates ∧ ¬ (tomb = true ∧ ∀ p, p ∈ ps → p.2 = false)
  | AWAITING_HUB => Later coordinates cursor
  end.

(** What an observation at the moment [now], after which the world is [w'], rests on. *)
Record Evidence (job : Job.RevocationJob) (c : RevocationCheckConfig) (now : Z) (st : ObservationState) (s : SourceObservation)
    (h : HubObservation) (w' : W) : Prop := {
  ev_networks : answered (sr_chainId sourceRpc) 11155111 ∧ answered (hr_chainId hubRpc) 102031;
  ev_heads : FreshHead (sr_latest sourceRpc) now (head s) ∧ FreshHead (hr_latest hubRpc) now (h_head h);
  ev_source : ∃ tx r, SourceEvidence job c s tx r;
  ev_hub : ∃ height index logIndex, HubEvidence (Job.walletAddress job) c h height index logIndex
    ∧ Classified st (height, index, logIndex) (s_blockNumber s, transactionIndex s, receiptLogIndex s) (tombstone h) (policies h);
  ev_again : StillCanonical s h w' }.

Lemma same_Same a b : same a b = true ↔ Same a b.
Proof. apply String.eqb_eq. Qed.

Lemma hash_ok v : isBytes32 v = true → hash v = Ok (toLowerCase v).
Proof. unfold hash, requireThat. by intros ->. Qed.

Lemma address_ok a : nonzeroAddress isAddress a = true → address isAddress a = Ok (toLowerCase a).
Proof.
  unfold nonzeroAddress, address, requireThat, same. intros [H1 H2]%andb_true_iff. change (toLowerCase ZeroAddress) with ZeroAddress in H2.
  by rewrite H1, H2.
Qed.

Lemma normalizeConfig_ok c : forallb (nonzeroAddress isAddress) [source c; asc c; registry c; expectedRevoker c] = true →
  forallb isBytes32 [sourceCodeHash c; ascCodeHash c; registryCodeHash c] = true → is_ok (normalizeConfig isAddress c) = true.
Proof.
  cbn [forallb]. rewrite !andb_true_iff. intros (H1 & H2 & H3 & H4 & _) (H5 & H6 & H7 & _). unfold normalizeConfig.
  by rewrite !address_ok, !hash_ok by done.
Qed.

Lemma coordinate_pretty n bits : 0 ≤ n < 2 ^ bits → bits ≤ 256 → coordinate (pretty n) bits = Ok (pretty n).
Proof.
  intros Hn Hb. assert (2 ^ bits ≤ 2 ^ 256) as Hp by (by apply Z.pow_le_mono_r).
  assert (2 ^ 256 < 10 ^ 78) as Hq by (by vm_compute). destruct (pretty_coordinate n) as [Hc Hv]; [lia|].
  unfold coordinate, requireThat. rewrite Hc, Hv. by destruct (Z.ltb_spec n (2 ^ bits)); [|lia].
Qed.

Lemma samePolicies_ok l ids : map fst l = ids → samePolicies l ids = true ∧ length l = length ids.
Proof. intros <-. rewrite length_map. split; [|done]. induction l as [|p l IH]; cbn; [done|]. by rewrite Z.eqb_refl. Qed.

Lemma matchesFrom_range src w i logs k r l : (k, r, l) ∈ matchesFrom parseLog src w i logs → i ≤ k < i + Z.of_nat (length logs).
Proof.
  revert i. induction logs as [|x logs IH]; intros i; cbn [matchesFrom length]; [by intros ?%elem_of_nil|].
  destruct (matching _ _ _ _); [intros [[= -> -> ->]|H]%elem_of_cons; [lia|]|intros H]; apply IH in H; lia.
Qed.

Lemma matching_spec c w log reason : matching parseLog (source c) w log = Some reason ↔ Revokes c w log reason.
Proof.
  unfold matching, Revokes. rewrite <- same_Same. destruct (same (lg_address log) (source c)); [|naive_solver].
  destruct (parseLog log) as [[subject r]|]; [|naive_solver]. destruct (same subject w) eqn:E; [apply same_Same in E|]; split.
  - intros [= ->]. split; [done|]. by exists subject.
  - by intros (_ & ? & [= -> ->] & _).
  - done.
  - intros (_ & ? & [= -> ->] & Hs%same_Same). congruence.
Qed.
Lemma matchesFrom_none c w i logs : matchesFrom parseLog (source c) w i logs = [] → ∀ log reason, log ∈ logs → ¬ Revokes c w log reason.
Proof.
  revert i. induction logs as [|x logs IH]; intros i; cbn [matchesFrom]; [by intros _ ? ? ?%elem_of_nil|].
  destruct (matching parseLog (source c) w x) eqn:E; [done|]. intros H log reason [->|Hin]%elem_of_cons; [|by eapply IH].
  intros Hr%matching_spec. congruence.
Qed.
Lemma matchesFrom_one c w i logs k reason log : matchesFrom parseLog (source c) w i logs = [(k, reason, log)] →
  ∃ l1 l2, logs = l1 ++ log :: l2 ∧ k = i + Z.of_nat (length l1) ∧ Revokes c w log reason ∧ ∀ log' r', log' ∈ l1 ++ l2 → ¬ Revokes c w log' r'.
Proof.
  revert i. induction logs as [|x logs IH]; intros i; cbn [matchesFrom]; [done|]. destruct (matching parseLog (source c) w x) as [r0|] eqn:E.
  - intros [= -> -> -> Hn]. exists [], logs. split_and!; [done|cbn; lia|by apply matching_spec|]. by eapply matchesFrom_none.
  - intros H. destruct (IH _ H) as (l1 & l2 & -> & -> & Hr & Hn). exists (x :: l1), l2. split_and!; [done|cbn; lia|done|].
    intros log' r' [->|Hin]%elem_of_cons; [|by eapply Hn]. intros Hr'%matching_spec. congruence.
Qed.

Lemma classified (height index logIndex b t l : Z) (tomb : bool) (ps : list (Z * bool)) :
  let exact := (height =? b) && (index =? t) && (logIndex =? l) in
  let newer := (b <? height) || ((height =? b) && ((t <? index) || ((index =? t) && (l <? logIndex)))) in
  let enforced := exact && tomb && forallb (λ p, negb p.2) ps in
  Classified (if enforced then ENFORCED else if newer then SUPERSEDED else if exact then INCONSISTENT else AWAITING_HUB)
    (height, index, logIndex) (b, t, l) tomb ps.
Proof.
  cbv zeta. assert (forallb (λ p : Z * bool, negb p.2) ps = true ↔ ∀ p, p ∈ ps → p.2 = false) as Hf.
  { rewrite forallb_forall. setoid_rewrite <- list_elem_of_In. by setoid_rewrite negb_true_iff. }
  destruct (Z.eqb_spec height b), (Z.eqb_spec index t), (Z.eqb_spec logIndex l), tomb, (forallb (λ p : Z * bool, negb p.2) ps); cbn [andb orb];
    repeat match goal with |- context [?x <? ?y] => destruct (Z.ltb_spec x y); cbn [andb orb] end; cbn; try lia; split; (congruence || tauto || (intros [? ?]; intuition congruence)).
Qed.

(** The state the check computes is the state the normalisation computes from the texts of the cursor. *)
Lemma classify_agrees height index logIndex head_ tomb ps (s : SourceObservation) :
  0 ≤ height < 2 ^ 64 → 0 ≤ index < 2 ^ 64 → 0 ≤ logIndex < 2 ^ 256 →
  let exact := (height =? s_blockNumber s) && (index =? transactionIndex s) && (logIndex =? receiptLogIndex s) in
  let newer := (s_blockNumber s <? height) || ((height =? s_blockNumber s)
    && ((transactionIndex s <? index) || ((index =? transactionIndex s) && (receiptLogIndex s <? logIndex)))) in
  let enforced := exact && tomb && forallb (λ p, negb p.2) ps in
  let st := if enforced then ENFORCED else if newer then SUPERSEDED else if exact then INCONSISTENT else AWAITING_HUB in
  st = stateOf (mkHub head_ tomb (mkCursor (pretty height) (pretty index) (pretty logIndex)) ps) s ∧ (enforced = true ↔ st = ENFORCED).
Proof.
  intros H1 H2 H3. unfold stateOf, cursorOf, coordinatesOf. cbn [cursor tombstone policies c_height c_transactionIndex c_receiptLogIndex].
  destruct (pretty_coordinate height) as [_ ->]; [lia|]. destruct (pretty_coordinate index) as [_ ->]; [lia|].
  destruct (pretty_coordinate logIndex) as [_ ->]; [assert (2 ^ 256 < 10 ^ 78) by (by vm_compute); lia|].
  cbn [firstDifference]. destruct (Z.eqb_spec height (s_blockNumber s)) as [->|Hh], (Z.eqb_spec index (transactionIndex s)) as [->|Hi],
    (Z.eqb_spec logIndex (receiptLogIndex s)) as [->|Hl]; cbn [andb]; rewrite ?Z.ltb_irrefl; cbn [orb andb];
  repeat match goal with |- context [if ?b then _ else _] => destruct b eqn:? end; cbn; rewrite ?orb_true_r, ?orb_false_r in *; split; try done; try congruence.
Qed.

(** What is known of an observed source side: its parts have the shape that the normalisation asks for. *)
Record Shaped (c : RevocationCheckConfig) (now : Z) (s : SourceObservation) (hubHead : Head) : Prop := {
  sh_now : 0 < now ≤ MAX_SAFE_INTEGER / 1000;
  sh_config : is_ok (normalizeConfig isAddress c) = true ∧ safeNat (confirmations c) = true ∧ 0 < confirmations c
    ∧ (0 < length (policyIds c) ≤ 16)%nat ∧ forallb (λ i, safeNat i && (0 <? i)) (policyIds c) = true ∧ NoDup (policyIds c);
  sh_numbers : forallb safeNat [s_blockNumber s; transactionIndex s; receiptLogIndex s; s_confirmations s; blockNumber (head s);
      timestamp (head s); blockNumber hubHead; timestamp hubHead] = true;
  sh_hashes : forallb isBytes32 [transactionHash s; s_blockHash s; blockHash (head s); blockHash hubHead] = true;
  sh_depth : s_blockNumber s ≤ blockNumber (head s) ∧ s_confirmations s = blockNumber (head s) - s_blockNumber s + 1 ∧ confirmations c ≤ s_confirmations s;
  sh_recent : recent (timestamp (head s)) now = true ∧ recent (timestamp hubHead) now = true }.

Lemma normalize_shaped c now s hubHead tomb ps height index logIndex op st : Shaped c now s hubHead → isReference op = true →
  0 ≤ height < 2 ^ 64 → 0 ≤ index < 2 ^ 64 → 0 ≤ logIndex < 2 ^ 256 → map fst ps = policyIds c →
  let h := mkHub hubHead tomb (mkCursor (pretty height) (pretty index) (pretty logIndex)) ps in
  st = stateOf h s →
  ∃ o, normalizeRevocationObservation isAddress (mkObservation 1 op now c st s h) = Ok o ∧ state o = st.
Proof.
  intros [Hnow (Hc & Hn & Hp & [Hl1 Hl2] & Hi & Hd) Hnum Hh (Hd1 & Hd2 & Hd3) [Hr1 Hr2]] Hop H1 H2 H3 Hps h Hst.
  destruct (samePolicies_ok _ _ Hps) as [Hs1 Hs2]. unfold normalizeRevocationObservation.
  cbn [version operator observedAt config state o_source o_hub h_head h cursor tombstone policies requireThat].
  assert (∀ b, b = true → requireThat b = Ok tt) as Hreq by (by intros ? ->).
  assert (normalizeCursor (mkCursor (pretty height) (pretty index) (pretty logIndex)) = Ok (mkCursor (pretty height) (pretty index) (pretty logIndex))) as Hcur.
  { unfold normalizeCursor. cbn [c_height c_transactionIndex c_receiptLogIndex]. by rewrite !coordinate_pretty by lia. }
  destruct (normalizeConfig isAddress c) as [c'|] eqn:Hc'; [|done].
  cbn [forallb] in Hh. rewrite !andb_true_iff in Hh. destruct Hh as (Hh1 & Hh2 & Hh3 & Hh4 & _).
  rewrite (Hreq (_ && isReference op)) by (by rewrite Hop). cbn [obind].
  rewrite (Hreq (safeNat now && _ && _ && _ && _)) by (rewrite Hn, !andb_true_iff, safeNat_spec, Z.ltb_lt, Z.leb_le, Z.ltb_lt; assert (MAX_SAFE_INTEGER / 1000 < MAX_SAFE_INTEGER) by done; split_and!; try done; lia). cbn [obind].
  rewrite (Hreq (_ && _ && _ && bool_decide _)) by (rewrite Hi, !andb_true_iff, Nat.ltb_lt, Nat.leb_le; split_and!; [done|done|done|by apply bool_decide_eq_true_2]). cbn [obind].
  rewrite (Hreq (forallb safeNat _ && _ && _)) by (rewrite Hnum, Hr2, !andb_true_iff, Z.leb_le; split_and!; try done; lia). cbn [obind].
  rewrite (Hreq ((_ <=? _) && _ && recent (timestamp (head s)) now)) by (rewrite Hr1, !andb_true_iff, Z.leb_le, Z.eqb_eq; split_and!; try done; lia). cbn [obind].
  rewrite (Hreq (length ps =? _)%nat) by (by apply Nat.eqb_eq). cbn [obind]. rewrite (Hreq (samePolicies _ _)) by done. cbn [obind].
  rewrite Hcur. cbn [obind]. rewrite (Hreq (bool_decide _)) by (by apply bool_decide_eq_true_2). cbn [obind].
  unfold normalizeSource, normalizeHead. rewrite !hash_ok by done. cbn [obind]. eexists. split; [reflexivity|]. by rewrite Hst.
Qed.

Definition Agrees (job : Job.RevocationJob) (c : RevocationCheckConfig) (now : Z) (op : string) (o : outcome CheckResult) (w' : W) : Prop :=
  match o with
  | Ok (Observed st enforced s h at_) =>
      at_ = now ∧ Evidence job c now st s h w' ∧ (enforced = true ↔ st = ENFORCED)
      ∧ ∃ ob, revocationObservation isAddress (Observed st enforced s h at_) c op = Ok ob ∧ state ob = st
  | _ => True
  end.

Lemma readPolicies_spec c wallet at_ l w :
  wp (readPolicies hubRpc isAddress c wallet at_ l) (λ o _, ∀ ps, o = Ok ps → map fst ps = l ∧ ∀ i v, (i, v) ∈ ps →
    answered (isVerified hubRpc (registry c) wallet i at_) v ∧ answered (policyFrozen hubRpc (registry c) i at_) true
    ∧ ∃ owner, answered (policyOwner hubRpc (registry c) i at_) owner ∧ isAddress owner = true ∧ ¬ Same owner ZeroAddress) w.
Proof.
  revert w. induction l as [|i l IH]; intros w; cbn [readPolicies].
  - apply wp_ret. intros ? [= <-]. split; [done|]. intros ?? H. by apply elem_of_nil in H.
  - apply wp_bind. unfold readPolicy. read_step. read_step. read_step. apply wp_bind, wp_lift_out. destruct (checkThat _ _) as [[]|] eqn:Hck; [|done].
    unfold checkThat in Hck. apply orequire_ok in Hck. apply andb_true_iff in Hck as [[Ha Hz]%andb_true_iff ->].
    apply wp_ret, wp_bind. eapply wp_mono; [apply IH|]. intros [ps|e] w2 H'; [|done]. apply wp_ret. intros ? [= <-].
    destruct (H' ps eq_refl) as [<- Hv]. split; [done|]. intros j v [[= -> ->]|Hj]%elem_of_cons; [|by apply Hv].
    split_and!; [done|done|]. eexists. split_and!; [done|done|]. intros Hs%same_Same. by rewrite Hs in Hz.
Qed.

(** [answered] with the name of the answer and of the fact. *)
Tactic Notation "reads" ident(a) ident(H) := apply wp_bind; apply wp_read; [intros a ? H|by intros].

Lemma checkThat_ok b code : checkThat b code = Ok tt → b = true.
Proof. by destruct b. Qed.

Lemma wp_again {A} (m : M W A) (Q : outcome A → W → Prop) w :
  (∀ a w', m w = (Ok a, w') → Q (Ok a) w') → (∀ e w', Q (Throw e) w') → wp m Q w.
Proof. intros Hok Hth. unfold wp. destruct (m w) as [[a|e] w']; [by apply Hok|apply Hth]. Qed.
Lemma sameHash_ok b h : sameHash b h = true → ∃ x, b = Some x ∧ b_hash x = Some h.
Proof. unfold sameHash. destruct b as [x|]; [|done]. intros H%bool_decide_eq_true. by exists x. Qed.

Lemma observeHub_spec job c s hubHead now op w : InRange hubRpc sourceRpc → Shaped c now s hubHead → isReference op = true →
  (∀ st h w' height index logIndex, h_head h = hubHead →
     (HubEvidence (Job.walletAddress job) c h height index logIndex
       ∧ Classified st (height, index, logIndex) (s_blockNumber s, transactionIndex s, receiptLogIndex s) (tombstone h) (policies h)) →
     StillCanonical s h w' → Evidence job c now st s h w') →
  (∃ ascCode registryCode, answered (hr_code hubRpc (asc c) (blockNumber hubHead)) ascCode ∧ Pinned ascCode (ascCodeHash c)
    ∧ answered (hr_code hubRpc (registry c) (blockNumber hubHead)) registryCode ∧ Pinned registryCode (registryCodeHash c)) →
  wp (observeHub sourceRpc hubRpc isAddress job c s hubHead now) (λ o w', Agrees job c now op o w') w.
Proof.
  intros HR HS Hop HE Hcode. unfold observeHub.
  reads a Ha. reads ck Hck. reads v Hv. reads ba Hba. reads pv Hpv. reads tomb Ht. reads height Hh. reads index Hi. reads logIndex Hl.
  apply wp_bind. eapply wp_mono; [apply readPolicies_spec|]. intros [ps|e] w1 Hps; [|done]. destruct (Hps ps eq_refl) as [Hp1 Hp2].
  apply wp_bind, wp_lift_out. destruct (checkThat (same a _ && _ && _ && _ && _) _) as [[]|] eqn:Hb; [|done]. apply checkThat_ok in Hb.
  rewrite !andb_true_iff, !Z.eqb_eq, !same_Same in Hb. destruct Hb as ((((Hb1 & ->) & ->) & Hb2) & ->).
  apply wp_bind, wp_again; [|done]. intros b1 w2 Hb1'. apply wp_bind, wp_again; [|done]. intros b2 w3 Hb2'. apply wp_bind, wp_again; [|done]. intros b3 w4 Hb3'.
  apply wp_bind, wp_lift_out. destruct (checkThat _ _) as [[]|] eqn:Hre; [|done]. apply checkThat_ok in Hre.
  apply andb_true_iff in Hre as [[Hre1 Hre2]%andb_true_iff Hre3]. apply sameHash_ok in Hre1 as (x1 & -> & Hx1), Hre2 as (x2 & -> & Hx2), Hre3 as (x3 & -> & Hx3).
  apply wp_ret. pose proof (ir_height _ _ HR _ _ _ _ Hh) as Hh'. pose proof (ir_index _ _ HR _ _ _ _ Hi) as Hi'. pose proof (ir_log _ _ HR _ _ _ _ Hl) as Hl'.
  destruct (classify_agrees height index logIndex hubHead tomb ps s Hh' Hi' Hl') as [Hst Hen].
  split_and!; [done| |exact Hen|].
  - apply (HE _ _ _ height index logIndex); [done| |by exists w1, w2, w3, x1, x2, x3]. split; [|apply classified].
    split; cbn [h_head tombstone cursor policies]; try done; [split_and!; [by exists a|done|done]|split; [by exists ba|done]].
  - cbn [revocationObservation]. destruct (Z.eqb_spec now 0) as [->|_]; [destruct (sh_now _ _ _ _ HS); lia|]. cbn [negb orequire obind].
    by eapply normalize_shaped.
Qed.

Lemma fresh_ok b now h : fresh b now = Ok h → b = Some (mkBlock (Some (blockHash h)) (blockNumber h) (timestamp h)) ∧
  0 < timestamp h ≤ now + 30 ∧ now - timestamp h ≤ 300 ∧
  isBytes32 (blockHash h) = true ∧ safeNat (blockNumber h) = true ∧ safeNat (timestamp h) = true ∧ recent (timestamp h) now = true.
Proof.
  unfold fresh. destruct b as [[[x|] n t]|]; [|done..]. intros H. apply obind_ok in H as (u & Hu & [= <-]). apply orequire_ok in Hu.
  rewrite !andb_true_iff in Hu. destruct Hu as [[[H1 H2] H3] H4]. unfold recent in H4. rewrite !andb_true_iff, Z.ltb_lt, !Z.leb_le in H4. cbn [blockHash blockNumber timestamp].
  split_and!; [done|lia|lia|lia|done|done| |unfold recent; rewrite !andb_true_iff, Z.ltb_lt, !Z.leb_le; lia].
  unfold safeNat. rewrite H3. apply Z.leb_le. lia.
Qed.

Lemma checkConfig_ok job c now : checkConfig isAddress job c now = Ok tt →
  0 < now ∧ is_ok (normalizeConfig isAddress c) = true ∧ safeNat (confirmations c) = true ∧ 0 < confirmations c
  ∧ (0 < length (policyIds c) ≤ 16)%nat ∧ forallb (λ i, safeNat i && (0 <? i)) (policyIds c) = true ∧ NoDup (policyIds c).
Proof.
  unfold checkConfig. intros H. apply obind_ok in H as ([] & H1 & H). apply obind_ok in H as ([] & H2 & H3).
  apply checkThat_ok in H1, H2, H3. rewrite !andb_true_iff, !Z.ltb_lt in H1. destruct H1 as (((_ & Hn) & Hs) & Hp).
  rewrite !andb_true_iff, Nat.ltb_lt, Nat.leb_le in H3. destruct H3 as ((((H3 & Hl) & Hu) & Hi) & Hd). apply bool_decide_eq_true in Hd.
  split_and!; [done| | |done|done|done| |done].
  - apply normalizeConfig_ok; [|done]. cbn [forallb] in *. rewrite !andb_true_iff in *. naive_solver.
  - unfold safeNat. rewrite Hs. apply Z.leb_le. lia.
  - apply forallb_forall. intros i Hi'. rewrite forallb_forall in Hi. apply Hi, andb_true_iff in Hi' as [H4 H5]. rewrite H5, andb_true_r.
    unfold safeNat. rewrite H4. apply Z.ltb_lt in H5. apply Z.leb_le. lia.
Qed.

Lemma target_ok job c : is_ok (Job.assertRevocationTarget job (Job.mkTarget 11155111 (source c))) = true →
  ∀ t, Job.sourceTarget job = Some t → Job.t_chainId t = 11155111 ∧ Same (Job.t_source t) (source c).
Proof.
  unfold Job.assertRevocationTarget. intros H t Ht. rewrite Ht in H. cbn in H. destruct (_ && _) eqn:E; [|done].
  apply andb_true_iff in E as [E1%Z.eqb_eq E2%same_Same]. done.
Qed.
Lemma pins_ok code1 code2 code3 c : negb (String.eqb code1 "0x") && negb (String.eqb code2 "0x") && negb (String.eqb code3 "0x")
    && same (keccak256 code1) (sourceCodeHash c) && same (keccak256 code2) (ascCodeHash c) && same (keccak256 code3) (registryCodeHash c) = true →
  Pinned code1 (sourceCodeHash c) ∧ Pinned code2 (ascCodeHash c) ∧ Pinned code3 (registryCodeHash c).
Proof. rewrite !andb_true_iff, !negb_true_iff, !String.eqb_neq, !same_Same. unfold Pinned. tauto. Qed.
Lemma receipt_ok (tx : Job.Transaction) (c : RevocationCheckConfig) (r : TxReceipt) n : String.eqb (rc_hash r) (Job.hash tx)
    && match rc_to r with Some t => negb (String.eqb t "") && same t (source c) | None => false end && same (rc_from r) (expectedRevoker c)
    && safeNat (rc_blockNumber r) && (rc_blockNumber r <=? n) && safeNat (rc_index r) && isBytes32 (rc_blockHash r) = true →
  (rc_hash r = Job.hash tx ∧ (∃ t, rc_to r = Some t ∧ Same t (source c)) ∧ Same (rc_from r) (expectedRevoker c))
  ∧ safeNat (rc_blockNumber r) = true ∧ rc_blockNumber r ≤ n ∧ safeNat (rc_index r) = true ∧ isBytes32 (rc_blockHash r) = true.
Proof.
  rewrite !andb_true_iff, String.eqb_eq, Z.leb_le, same_Same. intros ((((((H1 & H2) & H3) & H4) & H5) & H6) & H7). split_and!; try done.
  destruct (rc_to r) as [t|]; [|done]. apply andb_true_iff in H2 as [_ H2%same_Same]. by exists t.
Qed.

Lemma checkRevocation_spec job c now op w : InRange hubRpc sourceRpc → now ≤ MAX_SAFE_INTEGER / 1000 → isReference op = true →
  wp (checkRevocation sourceRpc hubRpc isAddress keccak256 parseLog job c now) (λ o w', Agrees job c now op o w') w.
Proof.
  intros HR Hmax Hop. unfold checkRevocation. apply wp_bind, wp_lift_out. destruct (checkConfig _ _ _ _) as [[]|] eqn:Hc; [|done].
  apply checkConfig_ok in Hc as [Hnow Hc]. destruct (Job.transaction job) as [tx|] eqn:Htx; [|by apply wp_ret].
  apply wp_bind, wp_lift_out. destruct (checkThat _ _) as [[]|] eqn:Ht; [|done]. apply checkThat_ok in Ht.
  rewrite !andb_true_iff, Z.eqb_eq, same_Same in Ht. destruct Ht as [[Hh Hch] Hts].
  apply wp_bind, wp_lift_out. destruct (checkThat (is_ok _) _) as [[]|] eqn:Htg; [|done]. apply checkThat_ok in Htg. pose proof (target_ok _ _ Htg) as Htarget.
  reads n1 Hn1. reads n2 Hn2.
  apply wp_bind, wp_lift_out. destruct (checkThat (_ && (n2 =? _)) _) as [[]|] eqn:Hnet; [|done]. apply checkThat_ok in Hnet.
  apply andb_true_iff in Hnet as [->%Z.eqb_eq ->%Z.eqb_eq]. reads b1 Hb1. reads b2 Hb2.
  apply wp_bind, wp_lift_out. destruct (fresh b1 now) as [sh|] eqn:Hsh; [|done]. apply wp_bind, wp_lift_out. destruct (fresh b2 now) as [hh|] eqn:Hhh; [|done].
  apply fresh_ok in Hsh as (-> & Hst1 & Hst2 & Hs1 & Hs2 & Hs3 & Hs4), Hhh as (-> & Hht1 & Hht2 & Hh1 & Hh2 & Hh3 & Hh4). reads c1 Hc1. reads c2 Hc2. reads c3 Hc3.
  apply wp_bind, wp_lift_out. destruct (checkThat (_ && _ && _ && _ && _ && same (keccak256 c3) _) _) as [[]|] eqn:Hp; [|done]. apply checkThat_ok, pins_ok in Hp.
  destruct Hp as (Hp1 & Hp2 & Hp3).
  reads r Hr. destruct r as [r|]; [|by apply wp_ret]. apply wp_bind, wp_lift_out. destruct (checkThat _ _) as [[]|] eqn:Hm; [|done].
  apply checkThat_ok, receipt_ok in Hm as (Hrec & Hm1 & Hm2 & Hm3 & Hm4).
  reads sb Hsb. apply wp_bind, wp_lift_out. destruct (checkThat (match sb with Some _ => _ | None => _ end) _) as [[]|] eqn:Hq; [|done]. apply checkThat_ok in Hq.
  destruct sb as [sb|]; [|done]. apply andb_true_iff in Hq as [Hq1%Z.eqb_eq Hq%bool_decide_eq_true]. cbv zeta.
  destruct (Z.ltb_spec (blockNumber sh - rc_blockNumber r + 1) (confirmations c)) as [|Hdepth]; [by apply wp_ret|].
  apply wp_bind, wp_lift_out. destruct (checkThat ((rc_status r =? 0) || _) _) as [[]|] eqn:Hst; [|done]. apply checkThat_ok in Hst.
  destruct (Z.eqb_spec (rc_status r) 0) as [|Hne]; [by apply wp_ret|]. cbn [orb] in Hst. apply Z.eqb_eq in Hst.
  reads c4 Hc4. apply wp_bind, wp_lift_out. destruct (checkThat (same (keccak256 c4) _) _) as [[]|] eqn:Hp4; [|done]. apply checkThat_ok, same_Same in Hp4.
  destruct (matchesFrom parseLog (source c) (Job.walletAddress job) 0 (rc_logs r)) as [|[[i reason] log] [|]] eqn:Hmt; [by apply wp_throw| |by apply wp_throw].
  apply wp_bind, wp_lift_out. destruct (checkThat (_ && _ && String.eqb _ _) _) as [[]|] eqn:Hrs; [|done]. apply checkThat_ok in Hrs.
  rewrite !andb_true_iff, Z.eqb_eq, Nat.eqb_eq, String.eqb_eq in Hrs. destruct Hrs as [[-> Htop] Hdata].
  destruct (matchesFrom_one _ _ _ _ _ _ _ Hmt) as (l1 & l2 & Hlogs & -> & Hrev & Hothers).
  assert (safeNat (0 + Z.of_nat (length l1)) = true) as Hi'.
  { pose proof (ir_logs _ _ HR _ _ Hr) as Hlen. rewrite Hlogs, length_app in Hlen. apply safeNat_spec. unfold MAX_SAFE_INTEGER. cbn in Hlen. lia. }
  apply observeHub_spec; [done| |done| |by exists c2, c3].
  - apply safeNat_spec in Hm1 as Hm1', Hs2 as Hs2'. split; cbn [s_blockNumber head transactionIndex receiptLogIndex s_confirmations transactionHash s_blockHash]; [lia|done| | |lia|done].
    + cbn [forallb]. rewrite Hm1, Hm3, Hi', Hs2, Hs3, Hh2, Hh3. rewrite !andb_true_r, andb_true_l. apply safeNat_spec. destruct Hc as (_ & _ & Hcp & _).
      pose proof (ir_head _ _ HR _ Hb1) as Hhd. cbn in Hhd. lia.
    + cbn [forallb]. by rewrite Hh, Hm4, Hs1, Hh1.
  - intros st h wz height index logIndex Ehead Hhub Hagain. destruct Hrec as (Hrec1 & Hrec2 & Hrec3).
    split; [done|rewrite Ehead; unfold FreshHead; cbn [head]; split_and!; done || lia| |by exists height, index, logIndex|done]. exists tx, r.
    split; cbn [s_blockNumber head transactionIndex receiptLogIndex s_confirmations transactionHash s_blockHash]; try done.
    + exists l1, log, l2. by split_and!.
    + by exists sb.
    + destruct Hc as (_ & _ & Hcp & _). lia.
    + by exists c1, c4.
Qed.

(** C36. Over any RPC nodes that may change between reads, with hub cursors in the
    ranges of their Solidity types, receipts of fewer than 2^32 logs and heads below the
    greatest safe integer: an observation rests on reads of the two configured chains
    with fresh heads; on the pinned code of the source contract at its head and at the
    receipt's block, and of the ASC and the registry at the hub's head; on the
    successful receipt of the job's own transaction, from the revoker to the source, in
    the canonical block and deep enough, with exactly one revocation of the wallet, for
    reason 2; on the ASC's source, chain key and version, the registry's ASC and policy
    version, the wallet's tombstone and cursor, and for each configured policy a nonzero
    owner, frozen, and its verdict, all of the right contract at the hub's head; and its
    last three reads found the receipt's block and both heads unchanged. Its state is
    ENFORCED exactly when cursor and receipt coordinates agree, the tombstone is set and
    no policy verifies the wallet, SUPERSEDED for a later cursor, AWAITING_HUB for an
    earlier one, INCONSISTENT otherwise; and for an operator reference that is well
    formed the validator accepts the observation, with that state. *)
Theorem revocation_check_agrees (job : Job.RevocationJob) (c : RevocationCheckConfig) (now : Z) (op : string) (w : W) :
  InRange hubRpc sourceRpc → now ≤ MAX_SAFE_INTEGER / 1000 → isReference op = true →
  let '(o, w') := checkRevocation sourceRpc hubRpc isAddress keccak256 parseLog job c now w in Agrees job c now op o w'.
Proof.
  intros HR Hn Hop. pose proof (checkRevocation_spec job c now op w HR Hn Hop) as H. unfold wp in H.
  by destruct (checkRevocation sourceRpc hubRpc isAddress keccak256 parseLog job c now w).
Qed.
End agrees.

Module RevocationExample.
Import Observation RevocationCheck.

Definition exWord : string := "0x1111111111111111111111111111111111111111111111111111111111111111".
Definition exCode : string := "0x2222222222222222222222222222222222222222222222222222222222222222".
Definition exSource : string := "0x00000000000000000000000000000000000000b1".
Definition exAsc : string := "0x00000000000000000000000000000000000000b2".
Definition exRegistry : string := "0x00000000000000000000000000000000000000b3".
Definition exRevoker : string := "0x00000000000000000000000000000000000000b4".
Definition exWallet : string := "0x00000000000000000000000000000000000000a1".
Definition exNow : Z := 1790000000.
Definition exConfig : RevocationCheckConfig := mkConfig exSource exAsc exRegistry exRevoker exCode exCode exCode [1; 4] 12.
Definition exJob : Job.RevocationJob :=
  Job.mkJob "r1:revoke:1789999000000" "r1" exWallet 1789999000000 Job.j_prepared None
    (Some (Job.mkTx exWord "0x02" 11155111 exSource)) None None None.
Definition exLog : Log := Build_Log exSource [""; ""; ""; ""] "0x".
Definition exReceipt : TxReceipt := Build_TxReceipt exWord exRevoker (Some exSource) 100 exWord 3 21000 1 [exLog].
Definition exBlock (n : Z) : Block := mkBlock (Some exWord) n (exNow - 20).
Definition exSourceReads : SourceReads unit := Build_SourceReads unit (ret 11155111) (ret (Some (exBlock 120))) (λ n, ret (Some (exBlock n)))
  (λ _ _, ret "0x60") (λ _, ret (Some exReceipt)).
Definition exHubReads : HubReads unit := Build_HubReads unit (ret 102031) (ret (Some (exBlock 50))) (λ n, ret (Some (exBlock n))) (λ _ _, ret "0x60")
  (λ _ _, ret exSource) (λ _ _, ret 1) (λ _ _, ret 2) (λ _ _ _, ret true) (λ _ _ _, ret 100) (λ _ _ _, ret 3) (λ _ _ _, ret 0)
  (λ _ _, ret exAsc) (λ _ _, ret 2) (λ _ _ _, ret exRevoker) (λ _ _ _, ret true) (λ _ _ _ _, ret false).
Definition exKeccak (s : string) : string := exCode.
Definition exParseLog (l : Log) : option (string * Z) := Some (exWallet, 2).
Abbreviation exCheck := (checkRevocation exSourceReads exHubReads isAddress20 exKeccak exParseLog exJob exConfig exNow).
Definition exResult : outcome CheckResult := Eval vm_compute in (exCheck tt).1.
Lemma exObserved_ok : exCheck tt = (exResult, tt).
Proof. by vm_compute. Qed.

Lemma answered_ret {W A} (a b : A) : answered (W := W) (ret a) b → b = a.
Proof. by intros (w & w' & [= ->]). Qed.
Lemma exInRange : InRange exHubReads exSourceReads.
Proof.
  split.
  1-3: by intros a w n h ->%answered_ret.
  - intros h rc [= ->]%answered_ret. by cbn.
  - by intros b [= ->]%answered_ret.
Qed.

(** The revocation is enforced at the receipt's own coordinates, and the recorded observation says so. *)
Lemma revocation_check_agrees_witness :
  ∃ s h, exResult = Ok (Observed ENFORCED true s h exNow) ∧ Evidence exSourceReads exHubReads isAddress20 exKeccak exParseLog exJob exConfig exNow ENFORCED s h tt.
Proof.
  do 2 eexists. split; [reflexivity|].
  pose proof (revocation_check_agrees exSourceReads exHubReads isAddress20 exKeccak exParseLog exJob exConfig exNow "operator:1" tt
    exInRange ltac:(done) ltac:(done)) as H.
  rewrite exObserved_ok in H. exact (proj1 (proj2 H)).
Defined.
End RevocationExample.
