(* ===== verification/Retention.v ===== *)
(** Retention policies, [src/pipeline/retention-policy.ts]: validation of a policy, its fingerprint and
    binding, the schedule of deadlines it derives, the evidence a vault record keeps of it, and the check
    that a retention is complete.  A policy that was defined is well-formed: one rule for each outcome,
    each with every storage layer once, in the shape its layer demands; a completed retention has the
    observation that the schedule requires of each layer.  SHA-256 is a parameter. *)

From Stdlib Require Import ZArith Lia Ascii String.
From stdpp Require Import base decidable option list strings pretty sets.
From S2P Require Import Prelude JS Json Revocation.
Import Json.
Local Open Scope string_scope.
Local Open Scope list_scope.
Local Open Scope Z_scope.
Local Open Scope js_scope.

Module Retention.

Definition RETENTION_POLICY_SCHEMA : string := "proofmark-retention-policy-v1".
Definition RETENTION_LAYERS : list string :=
  ["evidence-vault"; "issuance-journal"; "revocation-outbox"; "backup"; "vendor"; "operational-log"; "client-copy"; "onchain"].
Definition OUTCOMES : list string := ["issued"; "review"; "denied"; "error"].
Definition TRIGGERS : list string := ["collected-at"; "decision-at"; "terminal-at"].
Definition DISPOSITIONS : list string := ["unchanged"; "source-revoked"; "not-issued"].
Definition ACTIONS : list string := ["delete"; "expire"; "external-delete"; "retain-minimized"; "client-controlled"; "irreversible"].
Definition has (l : list string) (s : string) : bool := bool_decide (s ∈ l).

(** The texts of the input, which the validation checks against the sets above. *)
Record RetentionLayerRuleV1 := mkLayer {
  layer : string; action : string; trigger : option string; durationDays : option Z; retentionRef : string }.
#[export] Instance RetentionLayerRuleV1_eq_dec : EqDecision RetentionLayerRuleV1.
Proof. solve_decision. Defined.
Record RetentionRuleV1 := mkRule {
  outcome_ : string; rule_trigger : string; credentialDisposition : string; layers : list RetentionLayerRuleV1 }.
#[export] Instance RetentionRuleV1_eq_dec : EqDecision RetentionRuleV1.
Proof. solve_decision. Defined.
Record RetentionPolicyV1 := mkPolicy {
  schema : string; policyId : string; customerId : string; jurisdiction : string; status : string;
  approvalRef : option string; legalReviewRef : option string; clockRef : string; holdAuthorityRef : string;
  rules : list RetentionRuleV1 }.
#[export] Instance RetentionPolicyV1_eq_dec : EqDecision RetentionPolicyV1.
Proof. solve_decision. Defined.

Record RetentionPolicyBindingV1 := mkBinding {
  b_schema : string; b_policyId : string; b_customerId : string; b_jurisdiction : string; b_fingerprint : string }.
#[export] Instance RetentionPolicyBindingV1_eq_dec : EqDecision RetentionPolicyBindingV1.
Proof. solve_decision. Defined.

Record RetentionPolicyEvidenceV1 := mkEvidence {
  e_policyId : string; e_customerId : string; e_jurisdiction : string; e_fingerprint : string; e_outcome : string; e_trigger : string;
  e_triggerAt : Z; vaultDeleteAt : Z; e_credentialDisposition : string; e_approvalRef : option string; e_legalReviewRef : option string;
  e_clockRef : string; e_holdAuthorityRef : string }.
#[export] Instance RetentionPolicyEvidenceV1_eq_dec : EqDecision RetentionPolicyEvidenceV1.
Proof. solve_decision. Defined.

Record DerivedRetentionLayer := mkDerived {
  d_layer : string; d_action : string; d_trigger : string; deleteAt : option Z; d_retentionRef : string }.
Record DerivedRetentionSchedule := mkSchedule {
  s_policyId : string; s_customerId : string; s_jurisdiction : string; policyFingerprint : string; s_outcome : string; s_trigger : string;
  triggerAt : Z; s_credentialDisposition : string; s_layers : list DerivedRetentionLayer }.

Record LayerObservation := mkObserved { o_layer : string; o_status : string; evidenceRef : string }.
Record RetentionCompletionObservation := mkCompletion {
  o_policyFingerprint : string; checkedAt : Z; activeHolds : list string;
  o_disposition : string; sourceRevoked : bool; hubEnforced : bool; neverIssued : bool; maintained : bool;
  o_layers : list LayerObservation }.

(** [RetentionPolicyError], with its code and message. *)
Definition RetentionPolicyError (code message : string) : exn := EClass ("RetentionPolicyError " +:+ code) message.
Definition check (b : bool) (message : string) : outcome unit := orequire b (EError message).

Definition DAY_MS : Z := 86400000.
Definition charIn (codes : list nat) (c : ascii) : bool := Observation.isAlnum c || bool_decide (nat_of_ascii c ∈ codes).
(** [/^[A-Za-z0-9][A-Za-z0-9._:/-]{2,127}$/] and [/^[A-Za-z0-9][A-Za-z0-9._:/#-]{2,255}$/]. *)
Definition pattern (codes : list nat) (max : nat) (s : string) : bool :=
  match s with
  | String c r => Observation.isAlnum c && allChars (charIn codes) r && (2 <=? String.length r)%nat && (String.length r <=? max)%nat
  | EmptyString => false
  end.
Definition IDENTIFIER : string → bool := pattern [46; 95; 58; 47; 45]%nat 127.
Definition REFERENCE : string → bool := pattern [46; 95; 58; 47; 35; 45]%nat 255.
Definition isUpper (c : ascii) : bool := let n := nat_of_ascii c in (65 <=? n)%nat && (n <=? 90)%nat.
Definition JURISDICTION (s : string) : bool := ((String.length s =? 2)%nat && allChars isUpper s) || String.eqb s "GLOBAL".

Definition identifier (value field : string) : outcome string :=
  let? _ := check (IDENTIFIER value) (field +:+ " must be an opaque identifier") in Ok value.
Definition reference (value field : string) : outcome string :=
  let? _ := check (REFERENCE value) (field +:+ " must be an opaque evidence reference") in Ok value.
Definition optReference (value : option string) (field : string) : outcome (option string) :=
  match value with Some v => let? v := reference v field in Ok (Some v) | None => Ok None end.
Definition timestamp (value : Z) (field : string) : outcome unit :=
  check (safeNat value) (field +:+ " must be a Unix-millisecond timestamp").

Definition isResidual (layer : string) : bool := String.eqb layer "client-copy" || String.eqb layer "onchain".
Definition isNull {A} (o : option A) : bool := match o with None => true | Some _ => false end.
Definition isText (a b : string) : bool := String.eqb a b.

(** The checks of one layer of a rule, in their order; [seen] are the layers before it. *)
Definition defineLayer (ruleIndex layerIndex : nat) (ruleTrigger : string) (seen : list string) (l : RetentionLayerRuleV1)
  : outcome RetentionLayerRuleV1 :=
  let? _ := check (has RETENTION_LAYERS (layer l))
    ("rules[" +:+ pretty ruleIndex +:+ "].layers[" +:+ pretty layerIndex +:+ "] is unsupported") in
  let? _ := check (negb (has seen (layer l))) "retention rule contains a duplicate layer" in
  let? _ := check (has ACTIONS (action l)) ("retention action for " +:+ layer l +:+ " is unsupported") in
  let layerTrigger := default ruleTrigger (trigger l) in
  let? _ := check (has TRIGGERS layerTrigger) ("retention trigger for " +:+ layer l +:+ " is unsupported") in
  let? _ := check (Bool.eqb (isResidual (layer l)) (isNull (durationDays l))) (layer l +:+ " has an invalid deadline shape") in
  let? _ := check (match durationDays l with Some d => safeNat d && (d <=? 36500) | None => true end)
    (layer l +:+ " durationDays must be a bounded non-negative integer") in
  let? _ := check (negb (isText (layer l) "client-copy" && negb (isText (action l) "client-controlled"))) "client copies must be identified as client-controlled" in
  let? _ := check (negb (isText (layer l) "onchain" && negb (isText (action l) "irreversible"))) "onchain effects must be identified as irreversible" in
  let? _ := check (negb (isText (layer l) "vendor" && negb (isText (action l) "external-delete"))) "vendor records require an external deletion action" in
  let? _ := check (negb (isText (layer l) "evidence-vault" && negb (isText (action l) "delete"))) "the evidence vault requires a deletion action" in
  let? _ := check (negb (isText (layer l) "issuance-journal"
      && (negb (isText (action l) "expire") || negb (isText layerTrigger "terminal-at") || negb (bool_decide (durationDays l = Some 1)))))
    "issuance journal currently supports only terminal-at plus one-day expiry" in
  let? ref := reference (retentionRef l) ("retentionRef for " +:+ layer l) in
  Ok (mkLayer (layer l) (action l) (Some layerTrigger) (durationDays l) ref).

Fixpoint defineLayers (ruleIndex layerIndex : nat) (ruleTrigger : string) (seen : list string) (l : list RetentionLayerRuleV1)
  : outcome (list RetentionLayerRuleV1) :=
  match l with
  | [] => Ok []
  | x :: l =>
      let? y := defineLayer ruleIndex layerIndex ruleTrigger seen x in
      let? ys := defineLayers ruleIndex (S layerIndex) ruleTrigger (layer x :: seen) l in
      Ok (y :: ys)
  end.

Definition defineRule (i : nat) (seen : list string) (r : RetentionRuleV1) : outcome RetentionRuleV1 :=
  let at_ := "rules[" +:+ pretty i +:+ "]." in
  let? _ := check (has OUTCOMES (outcome_ r)) (at_ +:+ "outcome is unsupported") in
  let? _ := check (negb (has seen (outcome_ r))) "retention policy contains a duplicate outcome" in
  let? _ := check (has TRIGGERS (rule_trigger r) && negb (isText (rule_trigger r) "terminal-at")) (at_ +:+ "trigger is unsupported") in
  let? _ := check (has DISPOSITIONS (credentialDisposition r)) (at_ +:+ "credentialDisposition is unsupported") in
  let? _ := check (negb (isText (outcome_ r) "issued" && isText (credentialDisposition r) "not-issued")) "issued records cannot use the not-issued disposition" in
  let? _ := check (negb (negb (isText (outcome_ r) "issued") && isText (credentialDisposition r) "source-revoked")) "non-issued outcomes cannot claim source revocation" in
  let? _ := check (length (layers r) =? length RETENTION_LAYERS)%nat "each outcome must cover every storage/effect layer" in
  let? ls := defineLayers i 0 (rule_trigger r) [] (layers r) in
  Ok (mkRule (outcome_ r) (rule_trigger r) (credentialDisposition r) ls).

Fixpoint defineRules (i : nat) (seen : list string) (l : list RetentionRuleV1) : outcome (list RetentionRuleV1) :=
  match l with
  | [] => Ok []
  | x :: l => let? y := defineRule i seen x in let? ys := defineRules (S i) (outcome_ x :: seen) l in Ok (y :: ys)
  end.

(** The body of the [try]. *)
Definition definePolicy (input : RetentionPolicyV1) : outcome RetentionPolicyV1 :=
  let? _ := check (isText (schema input) RETENTION_POLICY_SCHEMA) "unsupported retention policy schema" in
  let? pid := identifier (policyId input) "retention policyId" in
  let? cid := identifier (customerId input) "retention customerId" in
  let? _ := check (JURISDICTION (jurisdiction input)) "retention jurisdiction must be ISO alpha-2 or GLOBAL" in
  let? _ := check (isText (status input) "synthetic" || isText (status input) "approved") "retention policy status must be synthetic or approved" in
  let? approval := optReference (approvalRef input) "retention approvalRef" in
  let? legal := optReference (legalReviewRef input) "retention legalReviewRef" in
  let? _ := check (negb (isText (status input) "approved" && (isNull approval || isNull legal)))
    "approved retention policy requires approval and legal review references" in
  let? _ := check (negb (isText (status input) "synthetic" && (negb (isNull approval) || negb (isNull legal))))
    "synthetic retention policy cannot claim approval or legal review" in
  let? clock := reference (clockRef input) "retention clockRef" in
  let? holder := reference (holdAuthorityRef input) "retention holdAuthorityRef" in
  let? _ := check (length (rules input) =? length OUTCOMES)%nat "retention policy requires one rule for every outcome" in
  let? rs := defineRules 0 [] (rules input) in
  Ok (mkPolicy (schema input) pid cid (jurisdiction input) (status input) approval legal clock holder rs).

Definition defineRetentionPolicy (input : RetentionPolicyV1) : outcome RetentionPolicyV1 :=
  match definePolicy input with
  | Ok p => Ok p
  | Throw (EError message) => Throw (RetentionPolicyError "RETENTION_POLICY_INVALID" message)
  | Throw e => Throw e
  end.

(** ** Fingerprint and binding *)

Definition optJson (o : option string) : json := match o with Some s => JStr s | None => JNull end.
Definition layerJson (l : RetentionLayerRuleV1) : json :=
  JObj [("layer", JStr (layer l)); ("action", JStr (action l)); ("durationDays", match durationDays l with Some d => JNum d | None => JNull end);
        ("retentionRef", JStr (retentionRef l)); ("trigger", match trigger l with Some t => JStr t | None => JUndef end)].
Definition ruleJson (r : RetentionRuleV1) : json :=
  JObj [("outcome", JStr (outcome_ r)); ("trigger", JStr (rule_trigger r)); ("credentialDisposition", JStr (credentialDisposition r));
        ("layers", JArr (map layerJson (layers r)))].
Definition policyJson (p : RetentionPolicyV1) : json :=
  JObj [("schema", JStr (schema p)); ("policyId", JStr (policyId p)); ("customerId", JStr (customerId p)); ("jurisdiction", JStr (jurisdiction p));
        ("status", JStr (status p)); ("approvalRef", optJson (approvalRef p)); ("legalReviewRef", optJson (legalReviewRef p));
        ("clockRef", JStr (clockRef p)); ("holdAuthorityRef", JStr (holdAuthorityRef p)); ("rules", JArr (map ruleJson (rules p)))].

Section policy.
(** SHA-256 of a text, in hexadecimal. *)
Context (sha256 : string → string).

Definition retentionPolicyFingerprint (input : RetentionPolicyV1) : outcome string :=
  let? p := defineRetentionPolicy input in
  let? text := canonicalJson (policyJson p) in
  Ok (sha256 ("proofmark-retention-policy-v1|" +:+ default "undefined" text)).

Definition retentionPolicyBinding (input : RetentionPolicyV1) : outcome RetentionPolicyBindingV1 :=
  let? p := defineRetentionPolicy input in
  let? f := retentionPolicyFingerprint p in
  Ok (mkBinding "proofmark-retention-policy-binding-v1" (policyId p) (customerId p) (jurisdiction p) f).

Record Context_ := mkContext {
  x_customerId : string; x_jurisdiction : string; x_outcome : string; collectedAt : Z; decisionAt : Z; terminalAt : option Z }.

Definition layerTriggerAt (t : string) (x : Context_) : option Z :=
  if isText t "collected-at" then Some (collectedAt x) else if isText t "decision-at" then Some (decisionAt x) else terminalAt x.
Definition deriveLayer (ruleTrigger : string) (x : Context_) (l : RetentionLayerRuleV1) : outcome DerivedRetentionLayer :=
  let t := default ruleTrigger (trigger l) in
  let d := match durationDays l, layerTriggerAt t x with Some days, Some at_ => Some (at_ + days * DAY_MS) | _, _ => None end in
  let? _ := orequire (match d with Some d => isSafeInteger d | None => true end)
    (RetentionPolicyError "RETENTION_POLICY_INVALID" "retention deadline is out of range") in
  Ok (mkDerived (layer l) (action l) t d (retentionRef l)).

Definition deriveRetentionSchedule (input : RetentionPolicyV1) (x : Context_) : outcome DerivedRetentionSchedule :=
  let? p := defineRetentionPolicy input in
  let? _ := timestamp (collectedAt x) "collectedAt" in
  let? _ := timestamp (decisionAt x) "decisionAt" in
  let? _ := match terminalAt x with Some t => timestamp t "terminalAt" | None => Ok tt end in
  let? _ := orequire (collectedAt x <=? decisionAt x) (RetentionPolicyError "RETENTION_POLICY_INVALID" "decisionAt precedes collection") in
  let? _ := orequire (isText (x_customerId x) (customerId p) && isText (x_jurisdiction x) (jurisdiction p))
    (RetentionPolicyError "RETENTION_POLICY_CHANGED" "retention customer or jurisdiction does not match the approved policy") in
  match find (λ r, isText (outcome_ r) (x_outcome x)) (rules p) with
  | None => Throw (RetentionPolicyError "RETENTION_POLICY_INVALID" "retention outcome is not covered")
  | Some rule =>
      let? ls := omap_out (deriveLayer (rule_trigger rule) x) (layers rule) in
      let? f := retentionPolicyFingerprint p in
      Ok (mkSchedule (policyId p) (customerId p) (jurisdiction p) f (x_outcome x) (rule_trigger rule)
            (if isText (rule_trigger rule) "collected-at" then collectedAt x else decisionAt x) (credentialDisposition rule) ls)
  end.

Definition retentionPolicyEvidence (input : RetentionPolicyV1) (x : Context_) : outcome RetentionPolicyEvidenceV1 :=
  let? p := defineRetentionPolicy input in
  let? b := retentionPolicyBinding p in
  let? s := deriveRetentionSchedule p x in
  match find (λ l, isText (d_layer l) "evidence-vault") (s_layers s) ≫= deleteAt with
  | None => Throw (RetentionPolicyError "RETENTION_POLICY_INVALID" "vault deletion deadline is missing")
  | Some at_ => Ok (mkEvidence (b_policyId b) (b_customerId b) (b_jurisdiction b) (b_fingerprint b) (s_outcome s) (s_trigger s) (triggerAt s) at_
                      (s_credentialDisposition s) (approvalRef p) (legalReviewRef p) (clockRef p) (holdAuthorityRef p))
  end.

Definition assertRetentionBinding (input : RetentionPolicyV1) (binding : RetentionPolicyBindingV1) : outcome unit :=
  let? expected := retentionPolicyBinding input in
  orequire (bool_decide (binding = expected))
    (RetentionPolicyError "RETENTION_POLICY_CHANGED" "retention policy changed after wallet consent; start a new flow").
End policy.

(** ** Completion *)

(** What [byLayer] maps: of the observations of one layer the last. *)
Definition byLayer (l : list LayerObservation) : list (string * LayerObservation) :=
  fold_left (λ m o, dset (o_layer o) o m) l [].

Definition when_ (b : bool) (s : string) : list string := if b then [s] else [].
Definition layerBlocker (at_ : Z) (observed : list (string * LayerObservation)) (l : DerivedRetentionLayer) : list string :=
  let named s := [d_layer l +:+ ":" +:+ s] in
  if negb (isText (d_action l) "client-controlled") && negb (isText (d_action l) "irreversible") && isNull (deleteAt l) then named "TRIGGER_MISSING"
  else
    match dget (d_layer l) observed with
    | None => named "EVIDENCE_MISSING"
    | Some o =>
        if negb (REFERENCE (evidenceRef o)) then named "EVIDENCE_MISSING"
        else
          let status_ s := isText (o_status o) s in
          if isText (d_action l) "client-controlled" then (if status_ "client-controlled" then [] else named "CONTROL_NOT_DISCLOSED")
          else if isText (d_action l) "irreversible" then (if status_ "irreversible-residual" then [] else named "RESIDUAL_NOT_DISCLOSED")
          else if match deleteAt l with Some d => d <=? at_ | None => false end then (if status_ "deleted" then [] else named "DELETION_NOT_CONFIRMED")
          else if isText (d_action l) "retain-minimized" then (if status_ "retained-minimized" then [] else named "MINIMIZATION_NOT_CONFIRMED")
          else if status_ "deleted" then [] else named "EARLY_DELETION_NOT_CONFIRMED"
    end.

Definition completionBlockers (s : DerivedRetentionSchedule) (o : RetentionCompletionObservation) : list string :=
  let observed := byLayer (o_layers o) in
  let disposed d := isText (s_credentialDisposition s) d in
  when_ (negb (safeNat (checkedAt o))) "INVALID_CLOCK"
  ++ when_ (negb (isText (o_policyFingerprint o) (policyFingerprint s))) "POLICY_CHANGED"
  ++ when_ (negb (bool_decide (activeHolds o = []))) "ACTIVE_HOLD"
  ++ when_ (negb (isText (o_disposition o) (s_credentialDisposition s))) "CREDENTIAL_DISPOSITION_CHANGED"
  ++ when_ (disposed "source-revoked" && (negb (sourceRevoked o) || negb (hubEnforced o))) "CREDENTIAL_REVOCATION_NOT_ENFORCED"
  ++ when_ (disposed "not-issued" && negb (neverIssued o)) "CREDENTIAL_ISSUANCE_NOT_EXCLUDED"
  ++ when_ (disposed "unchanged" && negb (maintained o)) "CREDENTIAL_MAINTENANCE_NOT_CONFIRMED"
  ++ when_ (negb (length observed =? length (o_layers o))%nat) "DUPLICATE_LAYER_OBSERVATION"
  ++ concat (map (layerBlocker (checkedAt o) observed) (s_layers s))
  ++ concat (map (λ k, when_ (negb (has RETENTION_LAYERS k)) "UNKNOWN_LAYER_OBSERVATION") (dkeys observed)).

(** [[...new Set(l)]]. *)
Fixpoint unique (seen l : list string) : list string :=
  match l with [] => [] | x :: l => if has seen x then unique seen l else x :: unique (x :: seen) l end.
Definition assertRetentionCompletion (s : DerivedRetentionSchedule) (o : RetentionCompletionObservation) : outcome unit :=
  let blockers := completionBlockers s o in
  orequire (bool_decide (blockers = []))
    (RetentionPolicyError "RETENTION_COMPLETION_INCOMPLETE" ("RETENTION_COMPLETION_INCOMPLETE:" +:+ String.concat "," (unique [] blockers))).

(** ** The consent statement and the shipped policy *)

Definition ruleSummary (r : RetentionRuleV1) : string :=
  let days := match find (λ l, isText (layer l) "evidence-vault") (layers r) ≫= durationDays with Some d => pretty d | None => "missing" end in
  outcome_ r +:+ ":" +:+ rule_trigger r +:+ "+" +:+ days +:+ "d/" +:+ credentialDisposition r.
Definition retentionConsentStatement (input : RetentionPolicyV1) : outcome string :=
  let? p := defineRetentionPolicy input in
  Ok ("Proofmark retention policy " +:+ policyId p +:+ "; customer " +:+ customerId p +:+ "; jurisdiction " +:+ jurisdiction p +:+ "; "
      +:+ String.concat "," (map ruleSummary (rules p)) +:+ "; holds " +:+ holdAuthorityRef p
      +:+ "; client copies remain client-controlled and public-chain data is irreversible.").

Definition syntheticLayers (vaultDays : Z) : list RetentionLayerRuleV1 := [
  mkLayer "evidence-vault" "delete" None (Some vaultDays) ("retention:synthetic-vault:" +:+ pretty vaultDays +:+ "d");
  mkLayer "issuance-journal" "expire" (Some "terminal-at") (Some 1) "retention:synthetic-journal:1d";
  mkLayer "revocation-outbox" "retain-minimized" None (Some 30) "retention:synthetic-outbox:30d";
  mkLayer "backup" "expire" None (Some vaultDays) ("retention:synthetic-backup:" +:+ pretty vaultDays +:+ "d");
  mkLayer "vendor" "external-delete" None (Some 0) "retention:synthetic-demo-vendor:0d";
  mkLayer "operational-log" "retain-minimized" None (Some 7) "retention:synthetic-log:7d";
  mkLayer "client-copy" "client-controlled" None None "retention:synthetic-client-control";
  mkLayer "onchain" "irreversible" None None "retention:synthetic-onchain"].
Definition SYNTHETIC_INPUT : RetentionPolicyV1 := mkPolicy RETENTION_POLICY_SCHEMA "proofmark-synthetic-retention-v1" "synthetic-demo-only" "KR"
  "synthetic" None None "clock:synthetic-process-time" "authority:synthetic-test-only" [
  mkRule "issued" "decision-at" "unchanged" (syntheticLayers 30);
  mkRule "review" "decision-at" "not-issued" (syntheticLayers 30);
  mkRule "denied" "decision-at" "not-issued" (syntheticLayers 30);
  mkRule "error" "decision-at" "not-issued" (syntheticLayers 7)].
Definition SYNTHETIC_RETENTION_POLICY : outcome RetentionPolicyV1 := defineRetentionPolicy SYNTHETIC_INPUT.
Example synthetic_defined : is_ok SYNTHETIC_RETENTION_POLICY = true.
Proof. by vm_compute. Qed.

(** * A defined policy is well-formed *)

(** Three to [max + 1] characters: a letter or digit, then letters, digits and those of [extra]. *)
Definition Opaque (extra : string) (max : nat) (s : string) : Prop := ∃ c r, s = String c r ∧ Observation.isAlnum c = true
  ∧ (2 ≤ String.length r ≤ max)%nat ∧ ∀ d, d ∈ list_ascii_of_string r → Observation.isAlnum d = true ∨ d ∈ list_ascii_of_string extra.
Abbreviation Identifier := (Opaque "._:/-" 127).
Abbreviation Reference := (Opaque "._:/#-" 255).
(** Two capital letters, or all countries. *)
Definition Jurisdiction (s : string) : Prop :=
  s = "GLOBAL" ∨ ∃ a b, s = String a (String b "") ∧ a ∈ list_ascii_of_string "ABCDEFGHIJKLMNOPQRSTUVWXYZ" ∧ b ∈ list_ascii_of_string "ABCDEFGHIJKLMNOPQRSTUVWXYZ".

Lemma pattern_spec codes max s extra : (∀ c, charIn codes c = true → Observation.isAlnum c = true ∨ c ∈ list_ascii_of_string extra) →
  pattern codes max s = true → Opaque extra max s.
Proof.
  intros He. destruct s as [|c r]; [done|]. cbn [pattern]. rewrite !andb_true_iff, !Nat.leb_le. intros (((Hc & Hr) & H2) & H3).
  exists c, r. split_and!; [done|done|done|done|]. clear H2 H3. induction r as [|d r IH]; [by intros d ?%elem_of_nil|].
  cbn [allChars] in Hr. apply andb_true_iff in Hr as [Hd Hr]. intros x [->|Hx]%elem_of_cons; [by apply He|by apply IH].
Qed.
Lemma extra_chars codes extra : codes = map nat_of_ascii (list_ascii_of_string extra) →
  ∀ c, charIn codes c = true → Observation.isAlnum c = true ∨ c ∈ list_ascii_of_string extra.
Proof.
  intros -> c [H|H%bool_decide_eq_true]%orb_true_iff; [by left|right]. apply list_elem_of_fmap in H as (d & E & Hd).
  apply (f_equal ascii_of_nat) in E. rewrite !ascii_nat_embedding in E. by subst.
Qed.
Lemma IDENTIFIER_spec s : IDENTIFIER s = true → Identifier s.
Proof. by apply pattern_spec, extra_chars. Qed.
Lemma REFERENCE_spec s : REFERENCE s = true → Reference s.
Proof. by apply pattern_spec, extra_chars. Qed.
Lemma isUpper_spec c : isUpper c = true → c ∈ list_ascii_of_string "ABCDEFGHIJKLMNOPQRSTUVWXYZ".
Proof. intros H. apply (bool_decide_eq_true (c ∈ _)). revert H. by destruct c as [[] [] [] [] [] [] [] []]; vm_compute. Qed.
Lemma JURISDICTION_spec s : JURISDICTION s = true → Jurisdiction s.
Proof.
  unfold JURISDICTION. intros [[Hl%Nat.eqb_eq Hu]%andb_true_iff|E%String.eqb_eq]%orb_true_iff; [right|by left].
  destruct s as [|a [|b [|]]]; try done. cbn in Hu. rewrite !andb_true_iff in Hu. destruct Hu as (Ha & Hb & _).
  exists a, b. split_and!; [done|by apply isUpper_spec..].
Qed.

Record WfLayer (ruleTrigger : string) (l : RetentionLayerRuleV1) : Prop := {
  wl_trigger : ∃ t, trigger l = Some t ∧ t ∈ TRIGGERS;
  wl_action : action l ∈ ACTIONS;
  wl_days : ∀ d, durationDays l = Some d → 0 ≤ d ≤ 36500;
  wl_residual : durationDays l = None ↔ layer l = "client-copy" ∨ layer l = "onchain";
  wl_vault : layer l = "evidence-vault" → action l = "delete";
  wl_vendor : layer l = "vendor" → action l = "external-delete";
  wl_journal : layer l = "issuance-journal" → action l = "expire" ∧ trigger l = Some "terminal-at" ∧ durationDays l = Some 1;
  wl_client : layer l = "client-copy" → action l = "client-controlled";
  wl_onchain : layer l = "onchain" → action l = "irreversible";
  wl_ref : Reference (retentionRef l) }.

Record WfRule (r : RetentionRuleV1) : Prop := {
  wr_trigger : rule_trigger r = "collected-at" ∨ rule_trigger r = "decision-at";
  wr_disposition : credentialDisposition r ∈ DISPOSITIONS;
  wr_issued : outcome_ r = "issued" → credentialDisposition r ≠ "not-issued";
  wr_refused : outcome_ r ≠ "issued" → credentialDisposition r ≠ "source-revoked";
  wr_layers : map layer (layers r) ≡ₚ RETENTION_LAYERS;
  wr_all : Forall (WfLayer (rule_trigger r)) (layers r) }.

Record WfPolicy (p : RetentionPolicyV1) : Prop := {
  wp_schema : schema p = RETENTION_POLICY_SCHEMA;
  wp_ids : Identifier (policyId p) ∧ Identifier (customerId p);
  wp_jurisdiction : Jurisdiction (jurisdiction p);
  wp_refs : Reference (clockRef p) ∧ Reference (holdAuthorityRef p)
    ∧ (∀ a, approvalRef p = Some a → Reference a) ∧ (∀ a, legalReviewRef p = Some a → Reference a);
  wp_approved : status p = "approved" ∧ approvalRef p ≠ None ∧ legalReviewRef p ≠ None
    ∨ status p = "synthetic" ∧ approvalRef p = None ∧ legalReviewRef p = None;
  wp_outcomes : map outcome_ (rules p) ≡ₚ OUTCOMES;
  wp_rules : Forall WfRule (rules p) }.

(** Without the triggers that the validation fills in. *)
Definition filled (t : string) (l : RetentionLayerRuleV1) : RetentionLayerRuleV1 :=
  mkLayer (layer l) (action l) (Some (default t (trigger l))) (durationDays l) (retentionRef l).
Definition filledRule (r : RetentionRuleV1) : RetentionRuleV1 :=
  mkRule (outcome_ r) (rule_trigger r) (credentialDisposition r) (map (filled (rule_trigger r)) (layers r)).
Definition filledPolicy (p : RetentionPolicyV1) : RetentionPolicyV1 :=
  mkPolicy (schema p) (policyId p) (customerId p) (jurisdiction p) (status p) (approvalRef p) (legalReviewRef p) (clockRef p)
    (holdAuthorityRef p) (map filledRule (rules p)).

Lemma check_ok b m u : check b m = Ok u → b = true.
Proof. by destruct b. Qed.
Lemma has_elem l s : has l s = true ↔ s ∈ l.
Proof. apply bool_decide_eq_true. Qed.
Lemma not_has l s : negb (has l s) = true ↔ s ∉ l.
Proof. rewrite negb_true_iff. apply bool_decide_eq_false. Qed.
Lemma isText_eq a b : isText a b = true ↔ a = b.
Proof. apply String.eqb_eq. Qed.
Lemma reference_ok v f r : reference v f = Ok r → r = v ∧ REFERENCE v = true.
Proof. unfold reference. intros H. apply obind_ok in H as (u & H%check_ok & [= <-]). done. Qed.
Lemma optReference_ok v f r : optReference v f = Ok r → r = v ∧ ∀ a, v = Some a → REFERENCE a = true.
Proof.
  unfold optReference. destruct v; [|by intros [= <-]]. intros H. apply obind_ok in H as (u & [-> Hr]%reference_ok & [= <-]). split; [done|]. by intros a [= <-].
Qed.

(** One step of a validation: the check passed, and the rest. *)
Ltac check_step H name := let u := fresh "u" in apply obind_ok in H as (u & name%check_ok & H).
Ltac implies := intros ->; repeat match goal with H : context [isText _ _] |- _ => cbn in H end.

Lemma defineLayer_wf i k t seen l l' : defineLayer i k t seen l = Ok l' →
  l' = filled t l ∧ layer l ∈ RETENTION_LAYERS ∧ (layer l ∉ seen) ∧ WfLayer t (filled t l).
Proof.
  unfold defineLayer. intros H. check_step H H1. check_step H H2. check_step H H3. check_step H H4. check_step H H5. check_step H H6. check_step H H7.
  check_step H H8. check_step H H9. check_step H H10. check_step H H11. apply obind_ok in H as (r & [-> Hr]%reference_ok & [= <-]).
  apply has_elem in H1, H3, H4. apply not_has in H2. split_and!; [done|done|done|].
  split; cbn [filled trigger action durationDays layer retentionRef]; [by eexists|done| | | | | | | |by apply REFERENCE_spec].
  - intros d Hd. rewrite Hd, andb_true_iff, safeNat_spec, Z.leb_le in H6. lia.
  - unfold isResidual in H5. destruct (durationDays l); cbn in H5; [|apply eqb_prop, orb_true_iff in H5; rewrite !String.eqb_eq in H5; done].
    apply eqb_prop in H5. apply orb_false_iff in H5 as [Ha%String.eqb_neq Hb%String.eqb_neq]. naive_solver.
  - intros E. rewrite E in H10. by apply negb_true_iff, negb_false_iff, isText_eq in H10.
  - intros E. rewrite E in H9. by apply negb_true_iff, negb_false_iff, isText_eq in H9.
  - intros E. rewrite E in H11. cbn in H11. rewrite negb_true_iff, !orb_false_iff, !negb_false_iff, !isText_eq in H11.
    destruct H11 as [[Ha Hb] Hc]. apply bool_decide_eq_true in Hc. by rewrite Hb.
  - intros E. rewrite E in H7. by apply negb_true_iff, negb_false_iff, isText_eq in H7.
  - intros E. rewrite E in H8. by apply negb_true_iff, negb_false_iff, isText_eq in H8.
Qed.

Lemma defineLayers_wf i k t seen l ls : defineLayers i k t seen l = Ok ls →
  ls = map (filled t) l ∧ Forall (λ x, layer x ∈ RETENTION_LAYERS) l ∧ NoDup (map layer l)
  ∧ Forall (WfLayer t) (map (filled t) l) ∧ (∀ x, x ∈ map layer l → x ∉ seen).
Proof.
  revert k seen ls. induction l as [|x l IH]; intros k seen ls; cbn [defineLayers].
  - intros [= <-]. split_and!; [done|constructor..|by intros ? ?%elem_of_nil].
  - intros H. apply obind_ok in H as (y & (-> & H1 & H2 & H3)%defineLayer_wf & H). apply obind_ok in H as (ys & (-> & H4 & H5 & H7 & H6)%IH & [= <-]).
    cbn [map]. split_and!; [done|by constructor| |by constructor|].
    + constructor; [|done]. intros Hx. apply (H6 _ Hx). left.
    + intros z [->|Hz]%elem_of_cons; [done|]. intros Hs. apply (H6 _ Hz). by right.
Qed.

(** A list without duplicates of as many names of [u] as [u] has is [u] in some order. *)
Lemma all_of (l u : list string) : NoDup l → (∀ x, x ∈ l → x ∈ u) → length l = length u → l ≡ₚ u.
Proof.
  intros Hd Hi Hl. apply submseteq_length_Permutation; [by apply NoDup_submseteq|lia].
Qed.

Lemma defineRule_wf i seen r r' : defineRule i seen r = Ok r' →
  r' = filledRule r ∧ outcome_ r ∈ OUTCOMES ∧ (outcome_ r ∉ seen) ∧ WfRule (filledRule r).
Proof.
  unfold defineRule. cbv zeta. intros H. check_step H H1. check_step H H2. check_step H H3. check_step H H4. check_step H H5. check_step H H6. check_step H H7.
  apply obind_ok in H as (ls & (-> & H8 & H9 & H10 & _)%defineLayers_wf & [= <-]). apply has_elem in H1, H4. apply not_has in H2. apply Nat.eqb_eq in H7.
  split_and!; [done|done|done|]. apply andb_true_iff in H3 as [H3%has_elem H3']. apply negb_true_iff in H3'.
  split; cbn [filledRule rule_trigger outcome_ credentialDisposition layers]; [|done| | | |done].
  - unfold TRIGGERS in H3. rewrite !elem_of_cons, elem_of_nil in H3. destruct H3 as [E|[E|[E|[]]]]; [by left|by right|]. by rewrite E in H3'.
  - intros E Hd. by rewrite E, Hd in H5.
  - intros E Hd. rewrite Hd in H6. rewrite andb_true_r, negb_involutive, isText_eq in H6. done.
  - rewrite map_map. cbn. apply all_of; [done| |by rewrite length_map]. intros x Hx. apply list_elem_of_fmap in Hx as (y & -> & Hy).
    rewrite Forall_forall in H8. by apply H8.
Qed.

Lemma defineRules_wf i seen l ls : defineRules i seen l = Ok ls →
  ls = map filledRule l ∧ Forall (λ x, outcome_ x ∈ OUTCOMES) l ∧ NoDup (map outcome_ l)
  ∧ Forall WfRule (map filledRule l) ∧ (∀ x, x ∈ map outcome_ l → x ∉ seen).
Proof.
  revert i seen ls. induction l as [|x l IH]; intros i seen ls; cbn [defineRules].
  - intros [= <-]. split_and!; [done|constructor..|by intros ? ?%elem_of_nil].
  - intros H. apply obind_ok in H as (y & (-> & H1 & H2 & H3)%defineRule_wf & H). apply obind_ok in H as (ys & (-> & H4 & H5 & H7 & H6)%IH & [= <-]).
    cbn [map]. split_and!; [done|by constructor| |by constructor|].
    + constructor; [|done]. intros Hx. apply (H6 _ Hx). left.
    + intros z [->|Hz]%elem_of_cons; [done|]. intros Hs. apply (H6 _ Hz). by right.
Qed.

Lemma identifier_ok v f r : identifier v f = Ok r → r = v ∧ IDENTIFIER v = true.
Proof. unfold identifier. intros H. apply obind_ok in H as (u & H%check_ok & [= <-]). done. Qed.

Lemma definePolicy_wf p q : definePolicy p = Ok q → q = filledPolicy p ∧ WfPolicy q.
Proof.
  unfold definePolicy. intros H. check_step H H1. apply obind_ok in H as (pid & [-> H2]%identifier_ok & H). apply obind_ok in H as (cid & [-> H3]%identifier_ok & H).
  check_step H H4. check_step H H5. apply obind_ok in H as (a & [-> Hap]%optReference_ok & H). apply obind_ok in H as (le & [-> Hle]%optReference_ok & H).
  check_step H H6. check_step H H7. apply obind_ok in H as (c & [-> Hcl]%reference_ok & H). apply obind_ok in H as (h & [-> Hho]%reference_ok & H).
  check_step H H8. apply obind_ok in H as (rs & (-> & H9 & H10 & H11 & _)%defineRules_wf & [= <-]). split; [done|]. apply isText_eq in H1. apply Nat.eqb_eq in H8.
  split; cbn [schema policyId customerId jurisdiction status approvalRef legalReviewRef clockRef holdAuthorityRef rules];
    [done|split; by apply IDENTIFIER_spec|by apply JURISDICTION_spec| | | |done].
  - split_and!; [by apply REFERENCE_spec..| |]; intros r Hr; apply REFERENCE_spec; auto.
  - rewrite orb_true_iff, !isText_eq in H5. destruct H5 as [E|E]; rewrite E in H6, H7; [right|left];
      destruct (approvalRef p), (legalReviewRef p); cbn in H6, H7; try done; by split_and!.
  - rewrite map_map. cbn. apply all_of; [done| |by rewrite length_map]. intros x Hx. apply list_elem_of_fmap in Hx as (y & -> & Hy).
    rewrite Forall_forall in H9. by apply H9.
Qed.

Lemma defineRetentionPolicy_ok p q : defineRetentionPolicy p = Ok q ↔ definePolicy p = Ok q.
Proof. unfold defineRetentionPolicy. destruct (definePolicy p) as [x|[]]; naive_solver. Qed.

(** Defining again changes nothing. *)
Lemma defineLayers_filled i k t seen l : defineLayers i k t seen (map (filled t) l) = defineLayers i k t seen l.
Proof.
  revert k seen. induction l as [|x l IH]; intros k seen; [done|]. cbn [map defineLayers].
  assert (defineLayer i k t seen (filled t x) = defineLayer i k t seen x) as -> by done. by rewrite IH.
Qed.
Lemma defineRules_filled i seen l : defineRules i seen (map filledRule l) = defineRules i seen l.
Proof.
  revert i seen. induction l as [|x l IH]; intros i seen; [done|]. cbn [map defineRules].
  assert (defineRule i seen (filledRule x) = defineRule i seen x) as ->; [|by rewrite IH].
  unfold defineRule. cbn [filledRule outcome_ rule_trigger credentialDisposition layers]. by rewrite length_map, defineLayers_filled.
Qed.
Lemma definePolicy_filled p : definePolicy (filledPolicy p) = definePolicy p.
Proof.
  unfold definePolicy. cbn [filledPolicy schema policyId customerId jurisdiction status approvalRef legalReviewRef clockRef holdAuthorityRef rules].
  by rewrite length_map, defineRules_filled.
Qed.

(** C37. A policy that is accepted is well formed: identifiers, the jurisdiction and
    the references of the clock, the hold authority, the approval, the legal review and
    every layer have their patterns, and approval and legal review are there exactly for
    an approved policy; every outcome has one rule and every rule one entry for each
    storage layer; residual layers and only they have no deadline; every action, trigger
    and duration is one its layer allows and the journal expires a day after the end.
    The accepted value is the given one with the layer triggers filled in, and accepting
    it again changes nothing. *)
Theorem retention_policy_typed (p q : RetentionPolicyV1) : defineRetentionPolicy p = Ok q →
  WfPolicy q ∧ q = filledPolicy p ∧ defineRetentionPolicy q = Ok q.
Proof.
  rewrite !defineRetentionPolicy_ok. intros H. pose proof (definePolicy_wf _ _ H) as [-> Hw]. by rewrite definePolicy_filled.
Qed.

(** * A completed retention *)

Lemma dset_length_le {A} k (v : A) m : (length (dset k v m) ≤ S (length m))%nat.
Proof. induction m as [|[k' w] m IH]; cbn; [lia|]. destruct (String.eqb _ _); cbn; lia. Qed.
Lemma dset_length_new {A} k (v : A) m : length (dset k v m) = S (length m) → k ∉ dkeys m.
Proof.
  induction m as [|[k' w] m IH]; cbn; [set_solver|]. destruct (String.eqb_spec k k') as [->|Hk]; cbn; [lia|].
  intros [= H] [E|Hin]%elem_of_cons; [by symmetry in E|by apply IH].
Qed.

Section byLayer.
Abbreviation ins := (fold_left (λ m o, dset (o_layer o) o m)).

Lemma ins_length_le l m : (length (ins l m) ≤ length m + length l)%nat.
Proof.
  revert m. induction l as [|o l IH]; intros m; cbn; [lia|]. etransitivity; [apply IH|]. pose proof (dset_length_le (o_layer o) o m). lia.
Qed.
(** No two observations of one layer: each is found. *)
Lemma ins_distinct l m : length (ins l m) = (length m + length l)%nat →
  NoDup (map o_layer l) ∧ (∀ o, o ∈ l → dget (o_layer o) (ins l m) = Some o) ∧ (∀ k v, dget k m = Some v → dget k (ins l m) = Some v)
  ∧ (∀ k, k ∈ dkeys m → k ∉ map o_layer l) ∧ (∀ k, k ∈ dkeys (ins l m) ↔ k ∈ dkeys m ∨ k ∈ map o_layer l).
Proof.
  revert m. induction l as [|o l IH]; intros m; cbn [map fold_left length].
  - intros _. split_and!; [constructor|by intros ? ?%elem_of_nil|done|by intros ?? ?%elem_of_nil|]. intros k. rewrite elem_of_nil. tauto.
  - intros H. pose proof (dset_length_le (o_layer o) o m) as H1. pose proof (ins_length_le l (dset (o_layer o) o m)) as H2.
    assert (length (dset (o_layer o) o m) = S (length m)) as Hn by lia. apply dset_length_new in Hn as Hm.
    destruct (IH (dset (o_layer o) o m)) as (H3 & H4 & H5 & H6 & H7); [lia|].
    assert (o_layer o ∉ map o_layer l) as Ho. { apply H6, elem_dkeys_dset. by left. }
    split_and!.
    + by constructor.
    + intros x [->|Hx]%elem_of_cons; [|by apply H4]. apply H5, dget_dset_eq.
    + intros k v Hk. apply H5. rewrite dget_dset_ne; [done|]. intros ->. apply Hm. apply dget_elem in Hk. apply list_elem_of_fmap. by exists (o_layer o, v).
    + intros k Hk [->|Hx]%elem_of_cons; [done|]. apply (H6 k); [|done]. apply elem_dkeys_dset. by right.
    + intros k. rewrite H7, elem_dkeys_dset, elem_of_cons. tauto.
Qed.
End byLayer.

(** What the completion of a schedule asks of the observation of one layer. *)
Definition Status (at_ : Z) (l : DerivedRetentionLayer) (status : string) : Prop :=
  if isText (d_action l) "client-controlled" then status = "client-controlled"
  else if isText (d_action l) "irreversible" then status = "irreversible-residual"
  else ∃ d, deleteAt l = Some d
    ∧ status = if (d <=? at_) || negb (isText (d_action l) "retain-minimized") then "deleted" else "retained-minimized".

Record Complete (s : DerivedRetentionSchedule) (o : RetentionCompletionObservation) : Prop := {
  cm_clock : safeNat (checkedAt o) = true;
  cm_policy : o_policyFingerprint o = policyFingerprint s;
  cm_holds : activeHolds o = [];
  cm_disposition : o_disposition o = s_credentialDisposition s;
  cm_revoked : s_credentialDisposition s = "source-revoked" → sourceRevoked o = true ∧ hubEnforced o = true;
  cm_never : s_credentialDisposition s = "not-issued" → neverIssued o = true;
  cm_maintained : s_credentialDisposition s = "unchanged" → maintained o = true;
  cm_distinct : NoDup (map o_layer (o_layers o));
  cm_known : ∀ k, k ∈ map o_layer (o_layers o) → k ∈ RETENTION_LAYERS;
  cm_layers : ∀ l, l ∈ s_layers s → ∃ ob, ob ∈ o_layers o ∧ o_layer ob = d_layer l ∧ REFERENCE (evidenceRef ob) = true
    ∧ Status (checkedAt o) l (o_status ob) }.

Lemma when_nil b s : when_ b s = [] ↔ b = false.
Proof. by destruct b. Qed.
Lemma concat_map_nil {A} (f : A → list string) l : concat (map f l) = [] ↔ ∀ x, x ∈ l → f x = [].
Proof.
  induction l as [|x l IH]; cbn; [split; [intros _ x Hx; by apply elem_of_nil in Hx|done]|]. rewrite app_nil, IH. split.
  - intros [H1 H2] y [->|Hy]%elem_of_cons; [done|by apply H2].
  - intros H. split; [apply H; left|]. intros y Hy. apply H. by right.
Qed.
Lemma implies_iff a b : a && negb b = false ↔ (a = true → b = true).
Proof. destruct a, b; naive_solver. Qed.

Lemma observed_nil (observed : list (string * LayerObservation)) k text (x y z : string) :
  match dget k observed with
  | None => [x]
  | Some ob => if negb (REFERENCE (evidenceRef ob)) then [y] else if isText (o_status ob) text then [] else [z]
  end = [] ↔ ∃ ob, dget k observed = Some ob ∧ REFERENCE (evidenceRef ob) = true ∧ o_status ob = text.
Proof.
  destruct (dget k observed) as [ob|]; [|split; [done|by intros (? & ? & _)]].
  destruct (REFERENCE (evidenceRef ob)) eqn:Hr; cbn [negb]; [|split; [done|intros (? & [= <-] & ? & _); congruence]].
  unfold isText. destruct (String.eqb_spec (o_status ob) text) as [E|E]; [by split; [exists ob|]|]. split; [done|by intros (? & [= <-] & _ & ?)].
Qed.

Lemma layerBlocker_nil at_ observed l : layerBlocker at_ observed l = [] ↔
  ∃ ob, dget (d_layer l) observed = Some ob ∧ REFERENCE (evidenceRef ob) = true ∧ Status at_ l (o_status ob).
Proof.
  unfold layerBlocker, Status. destruct (isText (d_action l) "client-controlled"); cbn [negb andb]; [apply observed_nil|].
  destruct (isText (d_action l) "irreversible"); cbn [negb andb]; [apply observed_nil|].
  destruct (deleteAt l) as [d|]; cbn [isNull]; [|split; [done|by intros (? & _ & _ & ? & ? & _)]].
  transitivity (∃ ob, dget (d_layer l) observed = Some ob ∧ REFERENCE (evidenceRef ob) = true
    ∧ o_status ob = if (d <=? at_) || negb (isText (d_action l) "retain-minimized") then "deleted" else "retained-minimized").
  - destruct (d <=? at_), (isText (d_action l) "retain-minimized"); cbn [orb negb]; apply observed_nil.
  - split; [intros (ob & H1 & H2 & H3); exists ob; split_and!; [done|done|by exists d]|].
    intros (ob & H1 & H2 & d' & [= <-] & H3). by exists ob.
Qed.
Lemma byLayer_facts l : (length (byLayer l) =? length l)%nat = true →
  NoDup (map o_layer l) ∧ (∀ o, o ∈ l → dget (o_layer o) (byLayer l) = Some o) ∧ (∀ k, k ∈ dkeys (byLayer l) ↔ k ∈ map o_layer l).
Proof.
  intros H%Nat.eqb_eq. destruct (ins_distinct l []) as (H1 & H2 & _ & _ & H3); [done|]. split_and!; [done|done|].
  intros k. unfold byLayer. rewrite H3. unfold dkeys. cbn. rewrite elem_of_nil. tauto.
Qed.
Lemma dget_byLayer l k o : (length (byLayer l) =? length l)%nat = true → dget k (byLayer l) = Some o ↔ o ∈ l ∧ o_layer o = k.
Proof.
  intros H. apply byLayer_facts in H as (H1 & H2 & H3). split; [|by intros [Ho <-]; auto].
  intros Hk. assert (k ∈ map o_layer l) as Hin. { apply H3. apply dget_elem in Hk. apply list_elem_of_fmap. by exists (k, o). }
  apply list_elem_of_fmap in Hin as (o' & -> & Ho'). rewrite (H2 _ Ho') in Hk. by injection Hk as ->.
Qed.

Lemma NoDup_byLayer l m : NoDup (map o_layer l) → (∀ k, k ∈ dkeys m → k ∉ map o_layer l) →
  length (fold_left (λ m o, dset (o_layer o) o m) l m) = (length m + length l)%nat.
Proof.
  revert m. induction l as [|o l IH]; intros m; cbn [map fold_left length]; [lia|]. intros [H1 H2]%NoDup_cons Hm.
  assert (o_layer o ∉ dkeys m) as Ho. { intros Ho. apply (Hm _ Ho). left. }
  rewrite IH; [|done|].
  - assert (length (dset (o_layer o) o m) = S (length m)) as ->; [|lia]. pose proof (dkeys_dset (o_layer o) o m) as Hd. unfold dhas in Hd.
    apply dget_None in Ho. rewrite Ho in Hd. apply (f_equal length) in Hd. rewrite length_app in Hd. unfold dkeys in Hd. rewrite !length_map in Hd. cbn in Hd. lia.
  - intros k [->|Hk]%elem_dkeys_dset; [done|]. intros Hx. apply (Hm _ Hk). by right.
Qed.

Lemma completion_iff s o : assertRetentionCompletion s o = Ok tt ↔ Complete s o.
Proof.
  transitivity (completionBlockers s o = []).
  { unfold assertRetentionCompletion. destruct (bool_decide_reflect (completionBlockers s o = [])); [done|]. cbn. split; [done|]. congruence. }
  unfold completionBlockers. rewrite !app_nil, !when_nil, !concat_map_nil, !implies_iff, !isText_eq, !negb_false_iff, bool_decide_eq_true.
  rewrite !isText_eq. split.
  - intros (H1 & H2 & H3 & H4 & H5 & H6 & H7 & H8 & H9 & H10). apply byLayer_facts in H8 as Hb. destruct Hb as (Hb1 & Hb2 & Hb3).
    split; try done.
    + intros E. apply String.eqb_eq in E. unfold isText in H5. rewrite E in H5. cbn [andb] in H5. rewrite orb_false_iff, !negb_false_iff in H5. done.
    + intros k Hk%Hb3. apply H10 in Hk. by apply when_nil, negb_false_iff, has_elem in Hk.
    + intros l Hl%H9. apply layerBlocker_nil in Hl as (ob & Hob & Hr & Hs). apply dget_byLayer in Hob as [Hob Hk]; [|done]. by exists ob.
  - intros [H1 H2 H3 H4 H5 H6 H7 H8 H9 H10]. assert ((length (byLayer (o_layers o)) =? length (o_layers o))%nat = true) as Hb.
    { apply Nat.eqb_eq. unfold byLayer. rewrite NoDup_byLayer; [done|done|]. by intros k ?%elem_of_nil. }
    split_and!; try done.
    + unfold isText. destruct (String.eqb_spec (s_credentialDisposition s) "source-revoked") as [E|]; [|done]. by destruct (H5 E) as [-> ->].
    + intros l Hl. apply layerBlocker_nil. destruct (H10 l Hl) as (ob & Hob & Hk & Hr & Hs). exists ob. split_and!; [|done|done]. by apply dget_byLayer.
    + intros k Hk. apply when_nil, negb_false_iff, has_elem, H9. apply byLayer_facts in Hb as (_ & _ & Hb). by apply Hb.
Qed.

Section schedule.
Context (sha256 : string → string).

(** The deadline of a layer: its days after the moment of its trigger. *)
Definition Deadline (x : Context_) (l : RetentionLayerRuleV1) (d : DerivedRetentionLayer) : Prop :=
  d_layer d = layer l ∧ d_action d = action l ∧ ∃ t, trigger l = Some t ∧ d_trigger d = t
  ∧ deleteAt d = match durationDays l, layerTriggerAt t x with Some days, Some at_ => Some (at_ + days * DAY_MS) | _, _ => None end.

Lemma deriveLayer_ok t x l d : WfLayer t l → deriveLayer t x l = Ok d → Deadline x l d.
Proof.
  intros [(tr & Htr & _) _ _ _ _ _ _ _ _ _]. unfold deriveLayer. rewrite Htr. cbn [default]. intros H. apply obind_ok in H as (u & _ & [= <-]).
  split_and!; [done|done|]. by exists tr.
Qed.

Lemma schedule_ok p x s : deriveRetentionSchedule sha256 p x = Ok s → ∃ q rule, defineRetentionPolicy p = Ok q ∧ WfRule rule ∧ rule ∈ rules q
  ∧ outcome_ rule = x_outcome x ∧ s_credentialDisposition s = credentialDisposition rule ∧ Forall2 (Deadline x) (layers rule) (s_layers s).
Proof.
  unfold deriveRetentionSchedule. intros H. apply obind_ok in H as (q & Hq & H).
  do 5 (apply obind_ok in H as ([] & _ & H)). destruct (find _ _) as [rule|] eqn:Hf; [|done].
  apply obind_ok in H as (ls & Hls & H). apply obind_ok in H as (f & _ & [= <-]). apply find_some in Hf as [Hin Ho%isText_eq].
  apply list_elem_of_In in Hin. exists q, rule. apply defineRetentionPolicy_ok, definePolicy_wf in Hq as Hw. destruct Hw as [_ Hw].
  pose proof (wp_rules _ Hw) as Hr. rewrite Forall_forall in Hr. specialize (Hr _ Hin). split_and!; [by apply defineRetentionPolicy_ok|done..|].
  apply omap_out_Forall2 in Hls. cbn [s_layers]. pose proof (wr_all _ Hr) as Ha. clear -Hls Ha.
  induction Hls as [|l d ls ds Hd _ IH]; [constructor|]. apply Forall_cons in Ha as [Hl Ha]. constructor; [by eapply deriveLayer_ok|by apply IH].
Qed.

Lemma Deadline_layers x ls ds : Forall2 (Deadline x) ls ds → map d_layer ds = map layer ls.
Proof. induction 1 as [|l d ls ds [H _] _ IH]; cbn; [done|]. by rewrite H, IH. Qed.

(** For a schedule derived from a policy: it has one layer per layer of the
    rule of the outcome, each with the deadline its trigger and duration give; a
    retention is accepted as complete exactly when the clock, the policy, the holds, the
    disposition of the credential and every layer have the evidence required of them,
    layer by layer; and a complete one observes each of the eight layers exactly once
    and knows when the issuance ended. *)
Theorem retention_completion (p : RetentionPolicyV1) (x : Context_) (s : DerivedRetentionSchedule) (o : RetentionCompletionObservation) :
  deriveRetentionSchedule sha256 p x = Ok s →
  (∃ q rule, defineRetentionPolicy p = Ok q ∧ rule ∈ rules q ∧ outcome_ rule = x_outcome x
     ∧ s_credentialDisposition s = credentialDisposition rule ∧ Forall2 (Deadline x) (layers rule) (s_layers s)) ∧
  (assertRetentionCompletion s o = Ok tt ↔ Complete s o) ∧
  (assertRetentionCompletion s o = Ok tt → map o_layer (o_layers o) ≡ₚ RETENTION_LAYERS ∧ is_Some (terminalAt x)).
Proof.
  intros H. apply schedule_ok in H as (q & rule & Hq & Hw & Hin & Ho & Hd & HF). split_and!; [by exists q, rule|apply completion_iff|].
  intros Hc%completion_iff. pose proof (wr_layers _ Hw) as Hp. rewrite <- (Deadline_layers _ _ _ HF) in Hp. split.
  - apply NoDup_Permutation; [apply (cm_distinct _ _ Hc)|by apply (bool_decide_unpack _); vm_compute|]. intros k. split; [apply (cm_known _ _ Hc)|].
    rewrite <- Hp. intros (l & -> & Hl)%list_elem_of_fmap. destruct (cm_layers _ _ Hc l Hl) as (ob & Hob & <- & _). apply list_elem_of_fmap. by exists ob.
  - assert ("issuance-journal" ∈ map d_layer (s_layers s)) as (l & Hl & Hin')%list_elem_of_fmap by (rewrite Hp; unfold RETENTION_LAYERS; set_solver).
    apply list_elem_of_lookup_1 in Hin' as [i Hi]. destruct (Forall2_lookup_r _ _ _ _ _ HF Hi) as (r & Hr & Hdl).
    pose proof (wr_all _ Hw) as Ha. rewrite Forall_forall in Ha. specialize (Ha r (list_elem_of_lookup_2 _ _ _ Hr)).
    destruct Hdl as (H1 & H2 & t & H3 & _ & H4). destruct (wl_journal _ _ Ha) as (Ha1 & Ha2 & Ha3); [congruence|].
    destruct (cm_layers _ _ Hc l (list_elem_of_lookup_2 _ _ _ Hi)) as (ob & _ & _ & _ & Hst). unfold Status in Hst. rewrite H2, Ha1 in Hst. cbn in Hst.
    destruct Hst as (d & Hd' & _). rewrite H4, Ha3 in Hd'. rewrite Ha2 in H3. injection H3 as <-. unfold layerTriggerAt in Hd'. cbn in Hd'.
    destruct (terminalAt x); [by eexists|done].
Qed.
End schedule.
End Retention.

Module RetentionExample.
Import Retention.

Definition exSha (s : string) : string := "ab".
Definition exPolicy : RetentionPolicyV1 := Eval vm_compute in ok_or SYNTHETIC_INPUT SYNTHETIC_RETENTION_POLICY.
Lemma exPolicy_ok : defineRetentionPolicy SYNTHETIC_INPUT = Ok exPolicy.
Proof. by vm_compute. Qed.

Lemma retention_policy_typed_witness : length (rules exPolicy) = 4%nat ∧ WfPolicy exPolicy.
Proof. split; [reflexivity|]. exact (proj1 (retention_policy_typed SYNTHETIC_INPUT exPolicy exPolicy_ok)). Defined.

Definition exContext : Context_ := mkContext "synthetic-demo-only" "KR" "issued" 1790000000000 1790000001000 (Some 1790000002000).
Definition exSchedule : DerivedRetentionSchedule := Eval vm_compute in
  match deriveRetentionSchedule exSha SYNTHETIC_INPUT exContext with Ok s => s | Throw _ => mkSchedule "" "" "" "" "" "" 0 "" [] end.
Lemma exSchedule_ok : deriveRetentionSchedule exSha SYNTHETIC_INPUT exContext = Ok exSchedule.
Proof. by vm_compute. Qed.
Definition exStatus (l : DerivedRetentionLayer) : string :=
  if isText (d_action l) "client-controlled" then "client-controlled" else if isText (d_action l) "irreversible" then "irreversible-residual" else "deleted".
Definition exCompletion : RetentionCompletionObservation := mkCompletion (policyFingerprint exSchedule) 1799000000000 [] "unchanged" false false false true
  (map (λ l, mkObserved (d_layer l) (exStatus l) "ref:1") (s_layers exSchedule)).
Lemma exCompletion_ok : assertRetentionCompletion exSchedule exCompletion = Ok tt.
Proof. by vm_compute. Qed.

(** Without the time the issuance ended, no retention completes. *)
Lemma retention_completion_witness : assertRetentionCompletion exSchedule exCompletion = Ok tt ∧ map o_layer (o_layers exCompletion) ≡ₚ RETENTION_LAYERS.
Proof.
  split; [exact exCompletion_ok|].
  exact (proj1 (proj2 (proj2 (retention_completion exSha SYNTHETIC_INPUT exContext exSchedule exCompletion exSchedule_ok)) exCompletion_ok)).
Defined.
End RetentionExample.
