(* ===== verification/Vault.v ===== *)
(** The evidence vault, [src/pipeline/vault.ts]: its records and controls (Module VaultData, the data),
    and the changes of them (Module VaultOps); the object over its encrypted file, under whose lock they
    are made, is in [VaultFile].  A change is computed whole or not at all; a deletion needs an
    expired retention, no open hold, no unreconciled revocation, and a second operator's approval of the
    case as it is; a blocked record has a revocation job.  Encryption, digests and the JSON texts that
    are digested are parameters. *)

From Stdlib Require Import ZArith Lia Ascii String.
From stdpp Require Import base decidable option list strings pretty sorting relations.
From S2P Require Import Prelude JS Store Json Evm Issue Revocation Retention.
Import Observation.
Local Open Scope string_scope.
Local Open Scope list_scope.
Local Open Scope Z_scope.
Local Open Scope js_scope.

#[local] Existing Instance Retention.RetentionPolicyEvidenceV1_eq_dec.
#[local] Existing Instance Job.RevocationJob_eq_dec.
#[local] Existing Instance Job.JobState_eq_dec.

Module VaultData.

Inductive VaultState := pending | active | review | blocked | rejected.
#[export] Instance VaultState_eq_dec : EqDecision VaultState.
Proof. solve_decision. Defined.

Inductive ReviewOutcome := outcome_cleared | outcome_blocked.
#[export] Instance ReviewOutcome_eq_dec : EqDecision ReviewOutcome.
Proof. solve_decision. Defined.
Record ReviewEvent := mkReview { rv_at : Z; rv_operator : string; rv_outcome : ReviewOutcome; rv_reason : string; basedOn : option string }.
#[export] Instance ReviewEvent_eq_dec : EqDecision ReviewEvent.
Proof. solve_decision. Defined.

Record RescreenEvent := mkRescreen { rs_at : Z; decision : Issue.Decision; rs_reason : option string; listVersions : list (string * Z) }.

Record SourceIssuanceObservation := mkIssuance {
  si_transactionHash : string; si_chainId : Z; si_source : string; si_observedAt : Z; hubMaterialized : bool }.
#[export] Instance SourceIssuanceObservation_eq_dec : EqDecision SourceIssuanceObservation.
Proof. solve_decision. Defined.

#[export] Instance Decision_eq_dec : EqDecision Issue.Decision.
Proof. solve_decision. Defined.
#[export] Instance ScreeningSubject_eq_dec : EqDecision Issue.ScreeningSubject.
Proof. solve_decision. Defined.
#[export] Instance ProcessingPolicyEvidence_eq_dec : EqDecision Issue.ProcessingPolicyEvidenceV1.
Proof. solve_decision. Defined.

Record VaultRecord := mkRecord {
  id : string; walletAddress : string; consentVersion : string;
  processingPolicy : option Issue.ProcessingPolicyEvidenceV1; retentionPolicy : option Retention.RetentionPolicyEvidenceV1;
  screeningSubject : Issue.ScreeningSubject; evidenceHash : string; evidence : json;
  attrs : option string; claimsRoot : option string; claims : option json;
  state : VaultState; createdAt : Z; retentionUntil : Z; lastScreenedAt : option Z;
  rescreens : list RescreenEvent; reviews : list ReviewEvent; sourceIssuance : option SourceIssuanceObservation }.

Record Approval := mkApproval { ap_operator : string; ap_at : Z }.
Record DeletionRequest := mkRequest {
  rq_id : string; fingerprint : string; requestedAt : Z; rq_operator : string; policyRef : string; serviceRef : string;
  disposition : string; automatic : bool; approval : option Approval }.
Record Extension := mkExtension { ex_until : Z; ex_operator : string; ex_reference : string; ex_at : Z }.
Record Release := mkRelease { rl_operator : string; rl_reference : string; rl_at : Z }.
Record Hold := mkHold { hd_id : string; hd_operator : string; hd_reference : string; hd_at : Z; release : option Release }.
Record RetentionControls := mkControls {
  minimumUntil : option Z; extensions : list Extension; holds : list Hold; requests : list DeletionRequest }.

Record Erasure := mkErasure { er_recordId : string; er_at : Z; er_reason : string; er_requestId : option string }.
Record Maintenance := mkMaintenance { mt_at : Z; mt_operator : string; previousKeyId : string; nextKeyId : string }.

(** The content of the file.  An absent [revocations] is read as no jobs everywhere. *)
Record VaultData := mkData {
  revision : Z; records : list (string * VaultRecord); erasures : list Erasure;
  revocations : list (string * Job.RevocationJob); retention : list (string * RetentionControls); maintenance : list Maintenance }.

Definition emptyData : VaultData := mkData 0 [] [] [] [] [].

(** ** Changes of single fields *)

Definition set_revision n (d : VaultData) := mkData n (records d) (erasures d) (revocations d) (retention d) (maintenance d).
Definition set_records l (d : VaultData) := mkData (revision d) l (erasures d) (revocations d) (retention d) (maintenance d).
Definition set_erasures l (d : VaultData) := mkData (revision d) (records d) l (revocations d) (retention d) (maintenance d).
Definition set_revocations l (d : VaultData) := mkData (revision d) (records d) (erasures d) l (retention d) (maintenance d).
Definition set_retention l (d : VaultData) := mkData (revision d) (records d) (erasures d) (revocations d) l (maintenance d).
Definition set_maintenance l (d : VaultData) := mkData (revision d) (records d) (erasures d) (revocations d) (retention d) l.

Definition set_state st (r : VaultRecord) : VaultRecord :=
  let '(mkRecord i w cv pp rp ss eh ev at_ cr cl _ ca ru ls rs rv si) := r in mkRecord i w cv pp rp ss eh ev at_ cr cl st ca ru ls rs rv si.
Definition set_lastScreenedAt t (r : VaultRecord) : VaultRecord :=
  let '(mkRecord i w cv pp rp ss eh ev at_ cr cl st ca ru _ rs rv si) := r in mkRecord i w cv pp rp ss eh ev at_ cr cl st ca ru (Some t) rs rv si.
Definition push_rescreen e (r : VaultRecord) : VaultRecord :=
  let '(mkRecord i w cv pp rp ss eh ev at_ cr cl st ca ru ls rs rv si) := r in mkRecord i w cv pp rp ss eh ev at_ cr cl st ca ru ls (rs ++ [e]) rv si.
Definition push_review e (r : VaultRecord) : VaultRecord :=
  let '(mkRecord i w cv pp rp ss eh ev at_ cr cl st ca ru ls rs rv si) := r in mkRecord i w cv pp rp ss eh ev at_ cr cl st ca ru ls rs (rv ++ [e]) si.
Definition set_sourceIssuance si (r : VaultRecord) : VaultRecord :=
  let '(mkRecord i w cv pp rp ss eh ev at_ cr cl st ca ru ls rs rv _) := r in mkRecord i w cv pp rp ss eh ev at_ cr cl st ca ru ls rs rv si.
Definition set_materialized (s : SourceIssuanceObservation) : SourceIssuanceObservation :=
  mkIssuance (si_transactionHash s) (si_chainId s) (si_source s) (si_observedAt s) true.

(** ** Comparisons *)

(** [sameListVersions]: the same keys, with the same versions; the keys of an object are distinct. *)
Definition sameListVersions (left right : list (string * Z)) : bool :=
  bool_decide (sort_by str_leb (dkeys left) = sort_by str_leb (dkeys right))
  && forallb (λ k, bool_decide (dget k left = dget k right)) (dkeys left).

(** [isDeepStrictEqual] of parsed JSON values: the order of properties does not count. *)
Fixpoint deepEqual (a b : json) {struct a} : bool :=
  match a, b with
  | JNull, JNull => true
  | JUndef, JUndef => true
  | JBool x, JBool y => Bool.eqb x y
  | JNum x, JNum y => x =? y
  | JStr x, JStr y => String.eqb x y
  | JArr l, JArr m => (fix go (l m : list json) := match l, m with
      | [], [] => true | x :: l, y :: m => deepEqual x y && go l m | _, _ => false end) l m
  | JObj l, JObj m => (length l =? length m)%nat
      && (fix go (l : list (string * json)) := match l with
          | [] => true | (k, x) :: l => match dget k m with Some y => deepEqual x y | None => false end && go l end) l
  | _, _ => false
  end.

Definition sameRescreen (a b : RescreenEvent) : bool :=
  bool_decide ((rs_at a, decision a, rs_reason a) = (rs_at b, decision b, rs_reason b)) && sameListVersions (listVersions a) (listVersions b).
Fixpoint forallb2 {A} (f : A → A → bool) (l m : list A) : bool :=
  match l, m with [], [] => true | x :: l, y :: m => f x y && forallb2 f l m | _, _ => false end.
Definition sameOption {A} (f : A → A → bool) (a b : option A) : bool :=
  match a, b with Some a, Some b => f a b | None, None => true | _, _ => false end.

(** The fields that equality compares as it is. *)
Definition flat (r : VaultRecord) :=
  (id r, walletAddress r, consentVersion r, processingPolicy r, retentionPolicy r, screeningSubject r, evidenceHash r, attrs r, claimsRoot r,
   state r, createdAt r, retentionUntil r, lastScreenedAt r, reviews r, sourceIssuance r).
(** [isDeepStrictEqual] of two records. *)
Definition sameRecord (a b : VaultRecord) : bool :=
  bool_decide (flat a = flat b) && deepEqual (evidence a) (evidence b) && sameOption deepEqual (claims a) (claims b)
  && forallb2 sameRescreen (rescreens a) (rescreens b).
End VaultData.

(** * The changes made under the writer lock *)

Module VaultOps.
Import VaultData.

(** The values whose JSON text is digested. *)
Inductive View :=
  | VState (d : VaultData)
  | VReview (r : VaultRecord) (jobs : list Job.RevocationJob) (controls : option RetentionControls)
  | VDeletion (r : VaultRecord) (minimumUntil : option Z) (extensions : list Extension) (holds : list Hold) (jobs : list Job.RevocationJob).

Definition err (m : string) : exn := EError m.
Definition demand (b : bool) (m : string) : M VaultData unit := require b (err m).
Definition RescreenConflictError : exn := EClass "RescreenConflictError" "RESCREEN_RECORD_CHANGED".
Definition ReviewConflictError : exn := EClass "ReviewConflictError" "REVIEW_RECORD_CHANGED".

Definition timestamp (value : Z) : M VaultData unit := demand (safeNat value) "invalid retention timestamp".
Definition reference (value : string) : M VaultData unit :=
  demand (isReference value) "use an opaque operator/policy/case reference, not free-text personal data".
Definition isHex64 (s : string) : bool := (String.length s =? 64)%nat && allChars isLowerHex s.

Definition mustGet (i : string) : M VaultData VaultRecord :=
  let! d := getS in
  match dget i (records d) with Some r => ret r | None => throw (err ("unknown vault record " +:+ i)) end.
Definition mustGetJob (i : string) : M VaultData Job.RevocationJob :=
  let! d := getS in match dget i (revocations d) with Some j => ret j | None => throw (err "unknown revocation job") end.
(** A change of the record, or the job, that is stored under the key. *)
Definition storeRecord (i : string) (r : VaultRecord) : M VaultData unit := modify (λ d, set_records (dset i r (records d)) d).
Definition storeJob (i : string) (j : Job.RevocationJob) : M VaultData unit := modify (λ d, set_revocations (dset i j (revocations d)) d).
Definition storeControls (i : string) (c : RetentionControls) : M VaultData unit := modify (λ d, set_retention (dset i c (retention d)) d).

(** [this.data.retention[id] ??= { … }]. *)
Definition controls (i : string) : M VaultData RetentionControls :=
  let! d := getS in
  match dget i (retention d) with
  | Some c => ret c
  | None => let c := mkControls None [] [] [] in storeControls i c ;;; ret c
  end.

Definition jobsOf (d : VaultData) (recordId : string) : list Job.RevocationJob :=
  filter (λ j, Job.recordId j = recordId) (dvalues (revocations d)).
Definition isConfirmed (j : Job.RevocationJob) : bool := bool_decide (Job.state j = Job.j_confirmed).

Definition retentionDeadline (d : VaultData) (r : VaultRecord) : Z :=
  Z.max (retentionUntil r) (default 0 (dget (id r) (retention d) ≫= minimumUntil)).
Definition openHold (h : Hold) : bool := match release h with None => true | Some _ => false end.
Definition holdsOf (d : VaultData) (i : string) : list Hold := from_option holds [] (dget i (retention d)).
Definition when_ (b : bool) (code : string) : list string := if b then [code] else [].

(** [UNKNOWN_STATE] cannot arise: the states are the five of the type. *)
Definition safetyBlockers (d : VaultData) (r : VaultRecord) (now : Z) : list string :=
  let deadline := retentionDeadline d r in
  let jobs := jobsOf d (id r) in
  (if negb (isSafeInteger (retentionUntil r)) || negb (isSafeInteger deadline) || negb (isSafeInteger (createdAt r))
      || (createdAt r <? 0) || (retentionUntil r <? createdAt r) || (deadline <? createdAt r) then ["INVALID_RETENTION"]
   else when_ (now <? deadline) "RETENTION_NOT_EXPIRED")
  ++ when_ (now <? createdAt r) "RECORD_TIME_INVALID"
  ++ when_ (existsb openHold (holdsOf d (id r))) "LEGAL_HOLD"
  ++ when_ (bool_decide (state r = pending)) "ISSUANCE_PENDING"
  ++ when_ (bool_decide (state r = review)) "REVIEW_PENDING"
  ++ when_ (existsb (λ j, negb (isConfirmed j)) jobs) "REVOCATION_PENDING"
  ++ when_ (bool_decide (state r = blocked) && negb (existsb isConfirmed jobs)) "REVOCATION_NOT_RECONCILED".

Definition currentRequest (d : VaultData) (i : string) : option DeletionRequest := dget i (retention d) ≫= λ c, last (requests c).

Section ops.
(** [JSON.stringify] of the digested values, SHA-256 of a prefix and a text in hexadecimal, its keyed
    variant, and [a.localeCompare(b) <= 0]. *)
Context {Text : Type} (stringifyView : View → Text) (sha256 : string → Text → string) (hmacSha256 : string → string → Text → string).
Context (localeLe : string → string → bool).
(** [ethers.isAddress]. *)
Context (isAddress : string → bool).

Definition sortedJobs (d : VaultData) (recordId : string) : list Job.RevocationJob :=
  sort_by (λ a b, localeLe (Job.id a) (Job.id b)) (jobsOf d recordId).
Definition nul : string := String Ascii.zero "".

Definition deletionView (d : VaultData) (r : VaultRecord) : View :=
  let c := dget (id r) (retention d) in
  VDeletion r (c ≫= minimumUntil) (from_option extensions [] c) (from_option holds [] c) (sortedJobs d (id r)).
Definition deletionFingerprint (d : VaultData) (r : VaultRecord) : string :=
  sha256 ("proofmark-vault-deletion-v1" +:+ nul) (stringifyView (deletionView d r)).
Definition reviewRevision (key : string) (d : VaultData) (r : VaultRecord) : string :=
  hmacSha256 key ("proofmark-review-revision-v1" +:+ nul) (stringifyView (VReview r (sortedJobs d (id r)) (dget (id r) (retention d)))).

Definition deletionBlockers (d : VaultData) (r : VaultRecord) (now : Z) : list string :=
  let request := currentRequest d (id r) in
  safetyBlockers d r now
  ++ when_ (negb (bool_decide (is_Some (request ≫= approval)))) "DELETION_NOT_APPROVED"
  ++ when_ (match request with Some q => negb (String.eqb (fingerprint q) (deletionFingerprint d r)) | None => false end) "DELETION_REQUEST_STALE"
  ++ when_ (match request with
            | Some q => match approval q with Some a => (now <? ap_at a) || (ap_at a <? requestedAt q) | None => false end
            | None => false end) "APPROVAL_TIME_INVALID".

(** [put]. *)
Definition put (record : VaultRecord) : M VaultData VaultRecord :=
  demand (negb (String.eqb (id record) "" || String.eqb (walletAddress record) ""
                || String.eqb (Issue.su_fullName (screeningSubject record)) "")) "incomplete vault record" ;;;
  let! d := getS in
  demand (negb (existsb (λ e, String.eqb (er_recordId e) (id record)) (erasures d))) "erased vault record cannot be restored by put" ;;;
  timestamp (createdAt record) ;;; timestamp (retentionUntil record) ;;;
  demand (createdAt record <=? retentionUntil record) "retention precedes creation" ;;;
  demand (match retentionPolicy record with
          | Some p => (Retention.vaultDeleteAt p =? retentionUntil record)
              && match processingPolicy record with Some q => String.eqb (Retention.e_customerId p) (Issue.pp_customerId q) | None => true end
          | None => true end) "vault record does not match its retention policy snapshot" ;;;
  match dget (id record) (records d) with
  | Some existing =>
      demand (String.eqb (evidenceHash existing) (evidenceHash record))
        ("vault record " +:+ id record +:+ " conflicts with existing evidence") ;;;
      ret existing
  | None => storeRecord (id record) record ;;; ret record
  end.

Definition recordMaterialization (i hash : string) : M VaultData unit :=
  let! r := mustGet i in
  demand (String.eqb (evidenceHash r) hash) "materialization evidence does not match retained record" ;;;
  let r := set_sourceIssuance (set_materialized <$> sourceIssuance r) r in
  storeRecord i (if bool_decide (state r = pending) then set_state active r else r).

Definition recordSourceConfirmation (i hash : string) (o : SourceIssuanceObservation) : M VaultData unit :=
  let! r := mustGet i in
  demand (String.eqb (evidenceHash r) hash) "source confirmation evidence does not match retained record" ;;;
  timestamp (si_observedAt o) ;;;
  demand (isSafeInteger (si_chainId o) && (0 <? si_chainId o) && isBytes32 (si_transactionHash o) && isAddress20 (si_source o)
          && (createdAt r <=? si_observedAt o)) "invalid source confirmation observation" ;;;
  let next := mkIssuance (toLowerCase (si_transactionHash o)) (si_chainId o) (toLowerCase (si_source o)) (si_observedAt o) false in
  match sourceIssuance r with
  | Some previous =>
      demand (String.eqb (si_transactionHash previous) (si_transactionHash next) && (si_chainId previous =? si_chainId next)
              && String.eqb (si_source previous) (si_source next)) "source confirmation conflicts with retained issuance"
  | None => storeRecord i (set_sourceIssuance (Some next) r)
  end.

(** [listForRescreen], on the data just loaded. *)
Definition listForRescreen (d : VaultData) (now intervalMs : Z) (currentListVersions : option (list (string * Z))) : list VaultRecord :=
  filter (λ r, (now <? retentionDeadline d r)
    && (bool_decide (state r = active) || bool_decide (state r = review)
        || (bool_decide (state r = pending) && bool_decide (is_Some (sourceIssuance r))))
    && (match lastScreenedAt r with None => true | Some t => (t =? 0) || (intervalMs <=? now - t) end
        || match currentListVersions with
           | None => false
           | Some v => match last (rescreens r) with None => true | Some e => negb (sameListVersions (listVersions e) v) end
           end) = true) (dvalues (records d)).

Definition latestDecisionAt (r : VaultRecord) : Z :=
  fold_left (λ latest e, Z.max latest (rv_at e)) (reviews r) (Z.max (createdAt r) (default 0 (lastScreenedAt r))).
(** What an ALLOW or a clearance leaves the record in. *)
Definition allowedState (r : VaultRecord) : VaultState :=
  if bool_decide (state r = pending) || match sourceIssuance r with Some s => negb (hubMaterialized s) | None => false end then pending else active.

Definition queueRevocation (r : VaultRecord) (at_ : Z) : M VaultData unit :=
  let! d := getS in
  if existsb (λ j, negb (isConfirmed j)) (jobsOf d (id r)) then ret tt
  else
    let i := id r +:+ ":revoke:" +:+ pretty at_ in
    demand (negb (dhas i (revocations d))) "revocation event ID already used" ;;;
    storeJob i (Job.mkJob i (id r) (walletAddress r) at_ Job.j_pending
      ((λ s, Job.mkTarget (si_chainId s) (si_source s)) <$> sourceIssuance r) None None None None).

Definition recordRescreen (i : string) (event : RescreenEvent) (expected : VaultRecord) : M VaultData VaultRecord :=
  let! d := getS in
  match dget i (records d) with
  | None => throw RescreenConflictError
  | Some r =>
      require (String.eqb (id expected) i && sameRecord r expected) RescreenConflictError ;;;
      demand (negb (bool_decide (state r = blocked) || bool_decide (state r = rejected)))
        "terminal compliance state requires explicit review; rescreen cannot clear it" ;;;
      timestamp (rs_at event) ;;;
      demand (latestDecisionAt r <=? rs_at event) "rescreen timestamp precedes retained decision" ;;;
      let st := match decision event with Issue.BLOCK => blocked | Issue.REVIEW => review | Issue.ALLOW => allowedState r end in
      let r := set_state st (push_rescreen event (set_lastScreenedAt (rs_at event) r)) in
      storeRecord i r ;;;
      when (bool_decide (decision event = Issue.BLOCK)) (queueRevocation r (rs_at event)) ;;;
      ret r
  end.

Definition decideReview (key i : string) (event : ReviewEvent) (expectedRevision : string) : M VaultData VaultRecord :=
  let! d := getS in
  match dget i (records d) with
  | None => throw ReviewConflictError
  | Some r =>
      require (isHex64 expectedRevision && String.eqb (reviewRevision key d r) expectedRevision) ReviewConflictError ;;;
      timestamp (rv_at event) ;;; reference (rv_operator event) ;;; reference (rv_reason event) ;;;
      demand (latestDecisionAt r <=? rv_at event) "review timestamp precedes retained decision" ;;;
      let cleared := bool_decide (rv_outcome event = outcome_cleared) in
      demand (negb (cleared && existsb (λ j, negb (isConfirmed j)) (jobsOf d i)))
        "pending revocation must be reconciled before clearance; clearance does not reissue on chain" ;;;
      let st := if cleared then allowedState r else blocked in
      let r := set_state st (push_review (mkReview (rv_at event) (rv_operator event) (rv_outcome event) (rv_reason event) (Some expectedRevision)) r) in
      storeRecord i r ;;;
      when (negb cleared) (queueRevocation r (rv_at event)) ;;;
      ret r
  end.

Definition extendRetention (i : string) (until : Z) (operator ref : string) (at_ : Z) : M VaultData unit :=
  timestamp at_ ;;; timestamp until ;;; reference operator ;;; reference ref ;;;
  let! r := mustGet i in
  let! c := controls i in
  demand (Z.max (retentionUntil r) (default 0 (minimumUntil c)) <? until) "retention can only be extended" ;;;
  storeControls i (mkControls (Some until) (extensions c ++ [mkExtension until operator ref at_]) (holds c) (requests c)).

Definition withHolds (l : list Hold) (c : RetentionControls) : RetentionControls := mkControls (minimumUntil c) (extensions c) l (requests c).
Definition withRequests (l : list DeletionRequest) (c : RetentionControls) : RetentionControls := mkControls (minimumUntil c) (extensions c) (holds c) l.

Definition placeHold (i holdId operator ref : string) (at_ : Z) : M VaultData unit :=
  mustGet i ;;; timestamp at_ ;;; reference holdId ;;; reference operator ;;; reference ref ;;;
  let! c := controls i in
  demand (negb (existsb (λ h, String.eqb (hd_id h) holdId) (holds c))) "hold ID already used" ;;;
  storeControls i (withHolds (holds c ++ [mkHold holdId operator ref at_ None]) c).

(** The first hold of the name gets the release. *)
Fixpoint releaseIn (holdId : string) (rl : Release) (l : list Hold) : list Hold :=
  match l with
  | [] => []
  | h :: l => if String.eqb (hd_id h) holdId then mkHold (hd_id h) (hd_operator h) (hd_reference h) (hd_at h) (Some rl) :: l
              else h :: releaseIn holdId rl l
  end.
Definition releaseHold (i holdId operator ref : string) (at_ : Z) : M VaultData unit :=
  mustGet i ;;; timestamp at_ ;;; reference operator ;;; reference ref ;;;
  let! c := controls i in
  match find (λ h, String.eqb (hd_id h) holdId) (holds c) with
  | None => throw (err "unknown or already released hold")
  | Some h =>
      demand (openHold h) "unknown or already released hold" ;;;
      demand (hd_at h <=? at_) "hold release precedes placement" ;;;
      storeControls i (withHolds (releaseIn holdId (mkRelease operator ref at_) (holds c)) c)
  end.

Record DeletionInput := mkDeletion { in_operator : string; in_policyRef : string; in_serviceRef : string; in_disposition : string; in_automatic : bool }.

Definition otherBlockers (d : VaultData) (r : VaultRecord) (at_ : Z) : list string :=
  filter (λ c, c ≠ "RETENTION_NOT_EXPIRED") (safetyBlockers d r at_).
Definition noBlockers (l : list string) : M VaultData unit :=
  demand (bool_decide (l = [])) ("deletion blocked: " +:+ String.concat "," l).

(** [randomId] are the random bytes of the identifier, in hexadecimal. *)
Definition requestDeletion (i : string) (input : DeletionInput) (at_ : Z) (randomId : string) : M VaultData DeletionRequest :=
  timestamp at_ ;;; reference (in_operator input) ;;; reference (in_policyRef input) ;;; reference (in_serviceRef input) ;;;
  demand (bool_decide (in_disposition input ∈ ["unchanged"; "source-revoked"; "not-issued"])) "invalid deletion decision" ;;;
  let! r := mustGet i in
  demand (match retentionPolicy r with
          | Some p => String.eqb (in_policyRef input) (default (Retention.e_policyId p) (Retention.e_approvalRef p))
                      && String.eqb (in_disposition input) (Retention.e_credentialDisposition p)
          | None => true end) "deletion decision does not match the retained policy snapshot" ;;;
  let! d := getS in
  noBlockers (otherBlockers d r at_) ;;;
  let confirmed := existsb isConfirmed (jobsOf d i) in
  demand (negb ((String.eqb (in_disposition input) "source-revoked" && negb confirmed)
                || (String.eqb (in_disposition input) "not-issued" && negb (bool_decide (state r = rejected)))
                || (bool_decide (state r = blocked) && negb (String.eqb (in_disposition input) "source-revoked"))))
    "service disposition is not supported by local evidence" ;;;
  let request := mkRequest randomId (deletionFingerprint d r) at_ (in_operator input) (in_policyRef input) (in_serviceRef input)
    (in_disposition input) (in_automatic input) None in
  let! c := controls i in
  storeControls i (withRequests (requests c ++ [request]) c) ;;;
  ret request.

Definition approveLast (a : Approval) (l : list DeletionRequest) : list DeletionRequest :=
  match rev l with
  | q :: r => rev r ++ [mkRequest (rq_id q) (fingerprint q) (requestedAt q) (rq_operator q) (policyRef q) (serviceRef q) (disposition q) (automatic q) (Some a)]
  | [] => []
  end.
Definition approveDeletion (i requestId operator : string) (at_ : Z) : M VaultData unit :=
  timestamp at_ ;;; reference operator ;;;
  let! r := mustGet i in
  let! c := controls i in
  match last (requests c) with
  | None => throw (err "deletion request is not current")
  | Some q =>
      demand (String.eqb (rq_id q) requestId) "deletion request is not current" ;;;
      demand (negb (String.eqb (rq_operator q) operator)) "deletion requires a different approver label" ;;;
      demand (negb (bool_decide (is_Some (approval q)))) "deletion request already approved" ;;;
      demand (requestedAt q <=? at_) "approval precedes request" ;;;
      let! d := getS in
      demand (String.eqb (fingerprint q) (deletionFingerprint d r)) "deletion request is stale" ;;;
      noBlockers (otherBlockers d r at_) ;;;
      storeControls i (withRequests (approveLast (mkApproval operator at_) (requests c)) c)
  end.

Definition eraseApproved (r : VaultRecord) (q : DeletionRequest) (at_ : Z) : M VaultData unit :=
  modify (λ d, set_erasures (erasures d ++ [mkErasure (id r) at_ (policyRef q) (Some (rq_id q))]) (set_records (ddel (id r) (records d)) d)).

Definition erase (i requestId : string) (at_ : Z) : M VaultData bool :=
  timestamp at_ ;;;
  let! d := getS in
  match dget i (records d) with
  | None => ret false
  | Some r =>
      let! c := controls i in
      match last (requests c) with
      | None => throw (err "deletion request is not current")
      | Some q =>
          demand (String.eqb (rq_id q) requestId) "deletion request is not current" ;;;
          let! d := getS in
          noBlockers (deletionBlockers d r at_) ;;;
          eraseApproved r q at_ ;;; ret true
      end
  end.

Fixpoint purge (now : Z) (l : list VaultRecord) (count : Z) : M VaultData Z :=
  match l with
  | [] => ret count
  | r :: l =>
      let! d := getS in
      match currentRequest d (id r) with
      | Some q => if negb (automatic q) || negb (bool_decide (deletionBlockers d r now = [])) then purge now l count
                  else eraseApproved r q now ;;; purge now l (count + 1)
      | None => purge now l count
      end
  end.
Definition purgeExpired (now : Z) : M VaultData Z :=
  timestamp now ;;; let! d := getS in purge now (dvalues (records d)) 0.

Record Preview := mkPreview { pv_recordId : string; pv_retentionUntil : Z; pv_requestId : option string; pv_automatic : bool; pv_blockers : list string }.
Definition deletionPreview (d : VaultData) (now : Z) : list Preview :=
  map (λ r, let q := currentRequest d (id r) in
    mkPreview (id r) (retentionDeadline d r) (rq_id <$> q) (from_option automatic false q) (deletionBlockers d r now)) (dvalues (records d)).

Definition stateText (s : VaultState) : string :=
  match s with pending => "pending" | active => "active" | review => "review" | blocked => "blocked" | rejected => "rejected" end.
Definition counts (d : VaultData) : list (string * Z) :=
  fold_left (λ out r, dset (stateText (state r)) (default 0 (dget (stateText (state r)) out) + 1) out) (dvalues (records d))
    [("erased", Z.of_nat (length (erasures d)))].

Definition listPendingRevocations (d : VaultData) : list Job.RevocationJob := filter (λ j, isConfirmed j = false) (dvalues (revocations d)).
Definition getRevocation (d : VaultData) (i : string) : option Job.RevocationJob := dget i (revocations d).
Definition hasJob (d : VaultData) (i : string) : bool := bool_decide (jobsOf d i ≠ []).
Definition listLegacyBlocked (d : VaultData) : list (string * string) :=
  map (λ r, (id r, walletAddress r)) (filter (λ r, state r = blocked ∧ hasJob d (id r) = false) (dvalues (records d))).

Fixpoint recoverAll (now : Z) (l : list VaultRecord) : M VaultData unit :=
  match l with
  | [] => ret tt
  | r :: l => (let! d := getS in when (bool_decide (state r = blocked) && negb (hasJob d (id r))) (queueRevocation r now)) ;;; recoverAll now l
  end.
Definition recoverBlockedRevocations (now : Z) : M VaultData unit := let! d := getS in recoverAll now (dvalues (records d)).

(** ** The outbox *)

Definition set_job (st : Job.JobState) (tx : option Job.Transaction) (confirmedAt : option Z) (lastError : option string) (j : Job.RevocationJob) : Job.RevocationJob :=
  Job.mkJob (Job.id j) (Job.recordId j) (Job.walletAddress j) (Job.createdAt j) st (Job.sourceTarget j) tx confirmedAt lastError (Job.observations j).

Definition prepareRevocation (i : string) (tx : Job.Transaction) : M VaultData Job.RevocationJob :=
  let! j := mustGetJob i in
  demand (negb (isConfirmed j)) "revocation already confirmed" ;;;
  demand (match Job.transaction j with Some t => String.eqb (Job.hash t) (Job.hash tx) | None => true end)
    "revocation already has a different signed transaction" ;;;
  let j := set_job Job.j_prepared (Some tx) (Job.confirmedAt j) (Job.lastError j) j in
  storeJob i j ;;; ret j.

Definition finishRevocation (i : string) (at_ : Z) : M VaultData unit :=
  let! j := mustGetJob i in
  match Job.transaction j with
  | None => throw (err "revocation has no prepared transaction")
  | Some t => storeJob i (set_job Job.j_confirmed (Some (Job.mkTx (Job.hash t) "" (Job.chainId t) (Job.txSource t))) (Some at_) None j)
  end.

Definition failRevocation (i error : string) (minedRevert : bool) : M VaultData unit :=
  let! j := mustGetJob i in
  demand (negb (isConfirmed j)) "cannot fail a confirmed revocation" ;;;
  let e := Some (substring 0 200 error) in
  storeJob i (if minedRevert then set_job Job.j_pending None (Job.confirmedAt j) e j else set_job (Job.state j) (Job.transaction j) (Job.confirmedAt j) e j).

Definition recordRevocationObservation (i : string) (expected : Job.RevocationJob) (input : RevocationObservation) (recordedAt : Z) : M VaultData unit :=
  let refuse code := RevocationObservationError code in
  let! d := getS in
  match dget i (revocations d) with
  | None => throw (refuse "REVOCATION_JOB_CHANGED")
  | Some j =>
      require (String.eqb (Job.id expected) i && bool_decide (j = expected)) (refuse "REVOCATION_JOB_CHANGED") ;;;
      let! o := lift_out (normalizeRevocationObservation isAddress input) in
      timestamp recordedAt ;;;
      require (match Job.transaction j with
               | Some t => (Job.chainId t =? 11155111) && String.eqb (toLowerCase (Job.hash t)) (transactionHash (o_source o))
                           && String.eqb (toLowerCase (Job.txSource t)) (source (config o))
                           && match Job.sourceTarget j with
                              | Some g => (Job.t_chainId g =? 11155111) && String.eqb (toLowerCase (Job.t_source g)) (source (config o))
                              | None => true end
               | None => false end) (refuse "REVOCATION_OBSERVATION_TARGET_MISMATCH") ;;;
      require ((observedAt o * 1000 <=? recordedAt) && (recordedAt - observedAt o * 1000 <=? 300000) && (Job.createdAt j <=? recordedAt)
               && (Job.createdAt j / 1000 <=? observedAt o)) (refuse "STALE_REVOCATION_OBSERVATION") ;;;
      let previous := last (default [] (Job.observations j)) in
      require (match previous with
               | Some p => (observedAt (Job.observation p) <=? observedAt o) && (Job.recordedAt p <=? recordedAt)
               | None => true end) (refuse "BACKDATED_REVOCATION_OBSERVATION") ;;;
      if match previous with Some p => bool_decide (Job.observation p = o) | None => false end then ret tt
      else storeJob i (Job.mkJob (Job.id j) (Job.recordId j) (Job.walletAddress j) (Job.createdAt j) (Job.state j) (Job.sourceTarget j)
             (Job.transaction j) (Job.confirmedAt j) (Job.lastError j) (Some (default [] (Job.observations j) ++ [Job.mkRecorded recordedAt o])))
  end.

(** ** All changes *)

Definition recordRotation (m : Maintenance) : M VaultData unit := modify (λ d, set_maintenance (maintenance d ++ [m]) d).

Inductive VaultOp :=
  | OPut (record : VaultRecord) | OMaterialization (i hash : string) | OSourceConfirmation (i hash : string) (o : SourceIssuanceObservation)
  | ORescreen (i : string) (event : RescreenEvent) (expected : VaultRecord)
  | OReview (key i : string) (event : ReviewEvent) (expectedRevision : string)
  | OExtend (i : string) (until : Z) (operator ref : string) (at_ : Z) | OHold (i holdId operator ref : string) (at_ : Z)
  | ORelease (i holdId operator ref : string) (at_ : Z)
  | ORequest (i : string) (input : DeletionInput) (at_ : Z) (randomId : string) | OApprove (i requestId operator : string) (at_ : Z)
  | OErase (i requestId : string) (at_ : Z) | OPurge (now : Z)
  | ORecover (now : Z) | OPrepare (i : string) (tx : Job.Transaction) | OFinish (i : string) (at_ : Z) | OFail (i error : string) (minedRevert : bool)
  | OObserve (i : string) (expected : Job.RevocationJob) (input : RevocationObservation) (recordedAt : Z) | ORotate (m : Maintenance).

Definition void {A} (m : M VaultData A) : M VaultData unit := m ;;; ret tt.
Definition runOp (op : VaultOp) : M VaultData unit :=
  match op with
  | OPut r => void (put r)
  | OMaterialization i h => recordMaterialization i h
  | OSourceConfirmation i h o => recordSourceConfirmation i h o
  | ORescreen i e x => void (recordRescreen i e x)
  | OReview k i e v => void (decideReview k i e v)
  | OExtend i u o r a => extendRetention i u o r a
  | OHold i h o r a => placeHold i h o r a
  | ORelease i h o r a => releaseHold i h o r a
  | ORequest i n a x => void (requestDeletion i n a x)
  | OApprove i q o a => approveDeletion i q o a
  | OErase i q a => void (erase i q a)
  | OPurge n => void (purgeExpired n)
  | ORecover n => recoverBlockedRevocations n
  | OPrepare i t => void (prepareRevocation i t)
  | OFinish i a => finishRevocation i a
  | OFail i e m => failRevocation i e m
  | OObserve i x o a => recordRevocationObservation i x o a
  | ORotate m => recordRotation m
  end.

(** The content a change that succeeds leaves: with the next revision. *)
Definition commit (op : VaultOp) (d : VaultData) : option VaultData :=
  match runOp op d with (Ok _, d') => Some (set_revision (revision d' + 1) d') | (Throw _, _) => None end.

(** Contents of a vault that was empty at first. *)
Inductive Reach : VaultData → Prop :=
  | Reach_empty : Reach emptyData
  | Reach_commit op d d' : Reach d → commit op d = Some d' → Reach d'.

(** ** What a change may do to the content: edits that remove nothing *)

Definition openJob (j : Job.RevocationJob) : bool := negb (isConfirmed j).

Record RecordEdit (d : VaultData) (r r' : VaultRecord) : Prop := {
  re_id : id r' = id r;
  re_case : walletAddress r' = walletAddress r ∧ evidenceHash r' = evidenceHash r ∧ retentionPolicy r' = retentionPolicy r
    ∧ createdAt r' = createdAt r ∧ retentionUntil r' = retentionUntil r;
  re_rejected : state r' = rejected → state r = rejected;
  re_terminal : state r = blocked ∨ state r = rejected → state r' = state r ∨ ∃ e, reviews r' = reviews r ++ [e];
  re_blocked : state r' = blocked → state r = blocked ∨ hasJob d (id r) = true;
  re_reviews : ∃ l, reviews r' = reviews r ++ l;
  re_rescreens : ∃ l, rescreens r' = rescreens r ++ l }.

(** The shape of a job in each of its states. *)
Definition JobShape (j : Job.RevocationJob) : Prop :=
  match Job.state j with
  | Job.j_pending => Job.transaction j = None
  | Job.j_prepared => is_Some (Job.transaction j)
  | Job.j_confirmed => is_Some (Job.confirmedAt j) ∧ ∃ t, Job.transaction j = Some t ∧ Job.raw t = ""
  end.
(** Whether the change may drop a signed transaction. *)
Section edits.
Context (drops : bool).

Record JobEdit (j j' : Job.RevocationJob) : Prop := {
  je_same : Job.id j' = Job.id j ∧ Job.recordId j' = Job.recordId j ∧ Job.walletAddress j' = Job.walletAddress j
    ∧ Job.createdAt j' = Job.createdAt j ∧ Job.sourceTarget j' = Job.sourceTarget j;
  je_confirmed : Job.state j = Job.j_confirmed → Job.state j' = Job.j_confirmed;
  je_transaction : ∀ t, Job.transaction j = Some t →
    (∃ t', Job.transaction j' = Some t' ∧ Job.hash t' = Job.hash t) ∨ (drops = true ∧ openJob j = true ∧ Job.transaction j' = None);
  je_shape : JobShape j → JobShape j';
  je_observations : ∃ l, default [] (Job.observations j') = default [] (Job.observations j) ++ l }.

Definition HoldEdit (h h' : Hold) : Prop := hd_id h' = hd_id h ∧ (openHold h = false → h' = h).
Definition RequestOk (q : DeletionRequest) : Prop := ∀ a, approval q = Some a → ap_operator a ≠ rq_operator q ∧ requestedAt q ≤ ap_at a.
Definition RequestEdit (q q' : DeletionRequest) : Prop :=
  rq_id q' = rq_id q ∧ fingerprint q' = fingerprint q ∧ rq_operator q' = rq_operator q ∧ requestedAt q' = requestedAt q
  ∧ (RequestOk q → RequestOk q').
(** The request was made for the case as it was in [d]. *)
Definition MadeIn (d : VaultData) (i : string) (q : DeletionRequest) : Prop :=
  ∃ r, dget i (records d) = Some r ∧ fingerprint q = deletionFingerprint d r ∧ otherBlockers d r (requestedAt q) = [] ∧ approval q = None
    ∧ (∀ p, retentionPolicy r = Some p → disposition q = Retention.e_credentialDisposition p)
    ∧ (disposition q = "not-issued" → state r = rejected).
Definition noControls : RetentionControls := mkControls None [] [] [].
Record ControlsEdit (d0 : VaultData) (i : string) (c c' : RetentionControls) : Prop := {
  ce_until : ∀ m, minimumUntil c = Some m → ∃ m', minimumUntil c' = Some m' ∧ m ≤ m';
  ce_extensions : ∃ l, extensions c' = extensions c ++ l ∧ ∀ e, e ∈ l → ∃ m', minimumUntil c' = Some m' ∧ ex_until e ≤ m';
  ce_holds : ∃ l1 l2, holds c' = l1 ++ l2 ∧ Forall2 HoldEdit (holds c) l1;
  ce_requests : ∃ l1 l2, requests c' = l1 ++ l2 ∧ Forall2 RequestEdit (requests c) l1 ∧ Forall (MadeIn d0 i) l2 }.

Definition newJob (r : VaultRecord) (at_ : Z) : Job.RevocationJob :=
  Job.mkJob (id r +:+ ":revoke:" +:+ pretty at_) (id r) (walletAddress r) at_ Job.j_pending
    ((λ s, Job.mkTarget (si_chainId s) (si_source s)) <$> sourceIssuance r) None None None None.

Inductive Edit (d0 : VaultData) (d : VaultData) : VaultData → Prop :=
  | E_insert r : dget (id r) (records d) = None → (∀ e, e ∈ erasures d → er_recordId e ≠ id r) → Edit d0 d (set_records (dset (id r) r (records d)) d)
  | E_record i r r' : dget i (records d) = Some r → RecordEdit d r r' → Edit d0 d (set_records (dset i r' (records d)) d)
  | E_queue r at_ : r ∈ dvalues (records d) → existsb openJob (jobsOf d (id r)) = false → dhas (Job.id (newJob r at_)) (revocations d) = false →
      Edit d0 d (set_revocations (dset (Job.id (newJob r at_)) (newJob r at_) (revocations d)) d)
  | E_job i j j' : dget i (revocations d) = Some j → JobEdit j j' → Edit d0 d (set_revocations (dset i j' (revocations d)) d)
  | E_controls i c' : ControlsEdit d0 i (default noControls (dget i (retention d))) c' → Edit d0 d (set_retention (dset i c' (retention d)) d)
  | E_maintenance m : Edit d0 d (set_maintenance m d).

(** ** Every change but a deletion edits *)

(** If [m] succeeds, the content was edited. *)
Definition Edits {A} (m : M VaultData A) (d : VaultData) : Prop := wp m (λ o d', ∀ a, o = Ok a → rtc (Edit d) d d') d.

Lemma edit_same d0 d d' : d' = d → rtc (Edit d0) d d'.
Proof. intros ->. reflexivity. Qed.
Lemma edit_once d0 d d' : Edit d0 d d' → rtc (Edit d0) d d'.
Proof. apply rtc_once. Qed.

(** Runs the tests before a change, and drops the paths that throw. *)
Ltac guard_step :=
  match goal with
  | |- wp (bind _ _) _ _ => apply wp_bind
  | |- wp getS _ _ => apply wp_getS
  | |- wp (ret _) _ _ => apply wp_ret
  | |- wp (throw _) _ _ => apply wp_throw; let E := fresh in intros ? E; discriminate E
  | |- wp (modify _) _ _ => apply wp_modify
  | |- wp (lift_out _) _ _ => apply wp_lift_out
  | |- wp (require _ _) _ _ => apply wp_require; intros ?; [|let E := fresh in intros ? E; discriminate E]
  | |- wp (match ?o with Some _ => _ | None => _ end) _ _ => destruct o eqn:?
  end; cbv beta iota.
Ltac guards_only :=
  unfold void, noBlockers, timestamp, reference, demand, mustGet, mustGetJob, storeRecord, storeJob, storeControls; cbv zeta;
  repeat guard_step.
Ltac guards := guards_only; try (intros ? _).

Lemma set_records_twice l m d : set_records l (set_records m d) = set_records l d.
Proof. done. Qed.

Lemma put_edits r d : Edits (put r) d.
Proof.
  unfold Edits, put. guards; [by apply edit_same|]. apply edit_once, E_insert; [done|].
  intros e He Hid. match goal with H : negb (existsb _ (erasures d)) = true |- _ => apply negb_true_iff, not_true_iff_false in H; apply H end.
  apply existsb_exists. exists e. split; [by apply list_elem_of_In|]. by apply String.eqb_eq.
Qed.

(** An update that leaves the decisions alone. *)
Lemma record_edit_refl d r r' : id r' = id r → walletAddress r' = walletAddress r → evidenceHash r' = evidenceHash r → retentionPolicy r' = retentionPolicy r →
  createdAt r' = createdAt r → retentionUntil r' = retentionUntil r → reviews r' = reviews r → rescreens r' = rescreens r →
  (state r' = state r ∨ state r = pending ∧ state r' = active) → RecordEdit d r r'.
Proof.
  intros H1 H2 H3 H4 H5 H6 H7 H8 H9. split; [done|done| | | |by exists []; rewrite app_nil_r|by exists []; rewrite app_nil_r].
  - destruct H9 as [->|[_ ->]]; [done|discriminate].
  - destruct H9 as [->|[-> _]]; [by left|by intros [|]].
  - destruct H9 as [->|[_ ->]]; [by left|discriminate].
Qed.

Lemma materialization_edits i h d : Edits (recordMaterialization i h) d.
Proof.
  unfold Edits, recordMaterialization. guards; eapply edit_once, E_record; [done|]; apply record_edit_refl; destruct (bool_decide_reflect (state (set_sourceIssuance (set_materialized <$> sourceIssuance v) v) = pending)); destruct v; cbn in *; auto.
Qed.

Lemma sourceConfirmation_edits i h o d : Edits (recordSourceConfirmation i h o) d.
Proof.
  unfold Edits, recordSourceConfirmation. guards; [by apply edit_same|]. eapply edit_once, E_record; [done|].
  by apply record_edit_refl; destruct v; cbn; [..|left].
Qed.

Lemma controls_ok i d : controls i d = (Ok (default noControls (dget i (retention d))),
  match dget i (retention d) with Some _ => d | None => set_retention (dset i noControls (retention d)) d end).
Proof. unfold controls, bind, getS. by destruct (dget i (retention d)). Qed.

Lemma dset_dset {A} k (v w : A) l : dset k v (dset k w l) = dset k v l.
Proof. induction l as [|[k' x] l IH]; cbn; [by rewrite String.eqb_refl|]. destruct (String.eqb_spec k k') as [->|Hk]; cbn; [by rewrite String.eqb_refl|].
  apply String.eqb_neq in Hk. by rewrite Hk, IH. Qed.

(** Storing controls after they were looked up. *)
Lemma wp_controls i (Q : outcome RetentionControls → VaultData → Prop) d :
  let c := default noControls (dget i (retention d)) in
  (∀ d', records d' = records d → erasures d' = erasures d → revocations d' = revocations d → dget i (retention d') = Some c →
     (∀ c', set_retention (dset i c' (retention d')) d' = set_retention (dset i c' (retention d)) d) → Q (Ok c) d') →
  wp (controls i) Q d.
Proof.
  intros c H. unfold wp. rewrite controls_ok. cbn [fst snd]. apply H; destruct (dget i (retention d)) eqn:E; cbn; try done.
  - by rewrite dget_dset_eq.
  - intros c'. by rewrite dset_dset.
Qed.

Lemma until_refl c : ∀ m, minimumUntil c = Some m → ∃ m', minimumUntil c = Some m' ∧ m ≤ m'.
Proof. intros m Hm. by exists m. Qed.
Lemma extensions_refl c m : ∃ l, extensions c = extensions c ++ l ∧ ∀ e, e ∈ l → ∃ m', m = Some m' ∧ ex_until e ≤ m'.
Proof. exists []. rewrite app_nil_r. split; [done|]. by intros e ?%elem_of_nil. Qed.
Lemma ControlsEdit_same d0 i c c' : minimumUntil c' = minimumUntil c → extensions c' = extensions c → (∃ l1 l2, holds c' = l1 ++ l2 ∧ Forall2 HoldEdit (holds c) l1) →
  requests c' = requests c → ControlsEdit d0 i c c'.
Proof.
  intros H1 He H2 H3. split; [rewrite H1; apply until_refl|rewrite He; apply extensions_refl|done|]. rewrite H3. exists (requests c), []. rewrite app_nil_r. split_and!; [done| |constructor].
  apply Forall2_same_length_lookup_2; [done|]. intros j a b Ha Hb. simplify_eq. by split_and!.
Qed.
Lemma holds_refl l : Forall2 HoldEdit l l.
Proof. apply Forall2_same_length_lookup_2; [done|]. intros j a b Ha Hb. simplify_eq. by split. Qed.
Lemma holds_app l m : ∃ l1 l2, l ++ m = l1 ++ l2 ∧ Forall2 HoldEdit l l1.
Proof. exists l, m. split; [done|apply holds_refl]. Qed.
Lemma requests_refl l : Forall2 RequestEdit l l.
Proof. apply Forall2_same_length_lookup_2; [done|]. intros j a b Ha Hb. simplify_eq. by split_and!. Qed.

Lemma extend_edits i u o r a d : Edits (extendRetention i u o r a) d.
Proof.
  unfold Edits, extendRetention. guards. apply wp_controls. intros d' _ _ _ _ Hset. guards.
  rewrite Hset. eapply edit_once, E_controls. split; cbn.
  - intros m Hm. match goal with H : (_ <? u) = true |- _ => apply Z.ltb_lt in H; rewrite Hm in H; cbn in H end. exists u. split; [done|lia].
  - eexists. split; [done|]. intros e ->%list_elem_of_singleton. by exists u.
  - eexists _, []. rewrite app_nil_r. split; [done|apply holds_refl].
  - eexists _, []. rewrite app_nil_r. split_and!; [done|apply requests_refl|constructor].
Qed.

Lemma hold_edits i h o r a d : Edits (placeHold i h o r a) d.
Proof.
  unfold Edits, placeHold. guards. apply wp_controls. intros d' _ _ _ _ Hset. guards.
  rewrite Hset. eapply edit_once, E_controls. apply ControlsEdit_same; [done|done|apply holds_app|done].
Qed.

Lemma releaseIn_edits h rl l x : find (λ y, String.eqb (hd_id y) h) l = Some x → openHold x = true → Forall2 HoldEdit l (releaseIn h rl l).
Proof.
  induction l as [|y l IH]; cbn; [done|]. destruct (String.eqb (hd_id y) h).
  - intros [= <-] Ho. constructor; [|apply holds_refl]. split; [done|]. congruence.
  - intros Hf Ho. constructor; [by split|by apply IH].
Qed.
Lemma release_edits i h o r a d : Edits (releaseHold i h o r a) d.
Proof.
  unfold Edits, releaseHold. guards. apply wp_controls. intros d' _ _ _ _ Hset. guards.
  rewrite Hset. eapply edit_once, E_controls. apply ControlsEdit_same; [done|done| |done]. eexists _, []. rewrite app_nil_r. split; [done|]. by eapply releaseIn_edits.
Qed.

Lemma elem_jobsOf d i j : j ∈ jobsOf d i ↔ Job.recordId j = i ∧ j ∈ dvalues (revocations d).
Proof. unfold jobsOf. by rewrite list_elem_of_filter. Qed.
Lemma hasJob_spec d i : hasJob d i = true ↔ ∃ j, j ∈ jobsOf d i.
Proof.
  unfold hasJob. rewrite bool_decide_eq_true. destruct (jobsOf d i) as [|j l]; [|split; [intros _; exists j; left|done]].
  split; [done|]. by intros [j ?%elem_of_nil].
Qed.
Lemma hasJob_new d k j : hasJob (set_revocations (dset k j (revocations d)) d) (Job.recordId j) = true.
Proof. apply hasJob_spec. exists j. apply elem_jobsOf. split; [done|]. apply (dget_dvalues k). cbn. apply dget_dset_eq. Qed.
Lemma openJob_hasJob d i : existsb openJob (jobsOf d i) = true → hasJob d i = true.
Proof. intros (j & Hj & _)%existsb_exists. apply hasJob_spec. exists j. by apply list_elem_of_In. Qed.

Lemma queue_spec r at_ d : wp (queueRevocation r at_) (λ o d', ∀ a, o = Ok a →
  existsb openJob (jobsOf d (id r)) = true ∧ d' = d
  ∨ existsb openJob (jobsOf d (id r)) = false ∧ dhas (Job.id (newJob r at_)) (revocations d) = false
    ∧ d' = set_revocations (dset (Job.id (newJob r at_)) (newJob r at_) (revocations d)) d) d.
Proof.
  unfold queueRevocation. apply wp_bind, wp_getS. cbv beta iota. destruct (existsb _ _) eqn:E.
  - apply wp_ret. by left.
  - guards. right. split_and!; [done| |done]. by apply negb_true_iff.
Qed.

(** The record as a decision leaves it, and then a revocation of it. *)
Lemma decide_queue d i r r' at_ (b : bool) : dget i (records d) = Some r → RecordEdit d r (set_state (state r) r') → state r' = (if b then blocked else state r') →
  (state r' = rejected → state r = rejected) → (b = false → state r' ≠ blocked) →
  (state r = blocked ∨ state r = rejected → state r' = state r ∨ ∃ e, reviews r' = reviews r ++ [e]) → sourceIssuance r' = sourceIssuance r →
  let d1 := set_records (dset i r' (records d)) d in
  wp (when b (queueRevocation r' at_)) (λ o d', ∀ a, o = Ok a → rtc (Edit d) d d') d1.
Proof.
  intros Hr [He1 He2 _ _ _ He6 He7] Hb Hrej Hnb Hterm Hs d1.
  assert (∀ dd, (state r' = blocked → hasJob dd (id r) = true) → RecordEdit dd r r') as Hedit.
  { intros dd Hdd. split; [by destruct r'|by destruct r'|done|done|intros ?; right; by apply Hdd|by destruct r'|by destruct r']. }
  assert (id r' = id r) as Hid by (destruct r'; done).
  destruct b; cbn [when].
  - eapply wp_mono; [apply queue_spec|]. intros o d' H a Ho. destruct (H a Ho) as [[Hj ->]|(Hj & Hn & ->)].
    + eapply edit_once, E_record; [done|]. apply Hedit. intros _. rewrite <- Hid. by apply openJob_hasJob.
    + assert (newJob r' at_ = newJob r at_) as Enew by (unfold newJob; destruct He2 as (Hw & _); destruct r'; cbn in *; by rewrite Hid, Hw, Hs).
      change (jobsOf d1 (id r')) with (jobsOf d (id r')) in Hj. change (revocations d1) with (revocations d) in *. rewrite Enew, Hid in *.
      eapply rtc_l; [eapply E_queue; [by eapply dget_dvalues|exact Hj|exact Hn]|].
      set (d2 := set_revocations (dset (Job.id (newJob r at_)) (newJob r at_) (revocations d)) d).
      apply edit_once. refine (E_record d d2 i r r' Hr _). apply Hedit. intros _. exact (hasJob_new d _ (newJob r at_)).
  - apply wp_ret. intros a _. eapply edit_once, E_record; [done|]. apply Hedit. intros Hbl. by destruct (Hnb eq_refl).
Qed.

Lemma allowedState_not r : allowedState r ≠ blocked ∧ allowedState r ≠ rejected ∧ allowedState r ≠ review.
Proof. unfold allowedState. by destruct (_ || _). Qed.

Lemma rescreen_edits i e x d : Edits (recordRescreen i e x) d.
Proof.
  unfold Edits, recordRescreen. guards.
  match goal with H : negb _ = true |- _ => apply negb_true_iff, orb_false_iff in H as [Hb%bool_decide_eq_false Hr%bool_decide_eq_false] end.
  eapply (wp_mono _ (λ (o : outcome unit) d', ∀ a, o = Ok a → rtc (Edit d) d d')); [|intros o d' Hq; destruct o; [apply wp_ret; intros ? _; by eapply Hq|intros ? [=]]].
  destruct (allowedState_not v) as (Ha & Hb' & _). eapply decide_queue; [done|..]; destruct v; cbn in *.
  - apply Build_RecordEdit; cbn; [done|done|done|intros [->| ->]; done|by left|by exists []; rewrite app_nil_r|by eexists].
  - by destruct (decision e).
  - destruct (decision e); done.
  - by destruct (decision e); cbn.
  - intros [->| ->]; done.
  - done.
Qed.

Lemma review_edits k i e v d : Edits (decideReview k i e v) d.
Proof.
  unfold Edits, decideReview. guards. eapply (wp_mono _ (λ (o : outcome unit) d', ∀ a, o = Ok a → rtc (Edit d) d d')); [|intros o d' Hq; destruct o; [apply wp_ret; intros ? _; by eapply Hq|intros ? [=]]].
  destruct (allowedState_not v0) as (Ha & Hb' & _). eapply decide_queue; [done|..]; destruct v0; cbn in *.
  - apply Build_RecordEdit; cbn; [done|done|done|by left|by left|by eexists|by exists []; rewrite app_nil_r].
  - by destruct (bool_decide _).
  - by destruct (bool_decide _).
  - by destruct (bool_decide _); cbn.
  - intros _. right. by eexists.
  - done.
Qed.

Lemma request_edits i n at_ x d : Edits (requestDeletion i n at_ x) d.
Proof.
  unfold Edits, requestDeletion. guards. apply wp_controls. intros d' _ _ _ _ Hset. guards. rewrite Hset.
  eapply edit_once, E_controls. split; cbn; [apply until_refl|apply extensions_refl|eexists _, []; rewrite app_nil_r; split; [done|apply holds_refl]|].
  eexists _, _. split_and!; [done|apply requests_refl|]. apply Forall_singleton. exists v.
  match goal with H : bool_decide (otherBlockers d v at_ = []) = true |- _ => apply bool_decide_eq_true in H end. split_and!; [done|done|done|done|..].
  - intros p Hp. cbn. match goal with H : match retentionPolicy v with Some _ => _ | None => _ end = true |- _ => rewrite Hp in H;
      apply andb_true_iff in H as [_ H]; by apply String.eqb_eq in H end.
  - cbn. intros E. match goal with H : negb (_ || _ || _) = true |- _ => rewrite E in H; cbn in H; apply negb_true_iff in H; rewrite !orb_false_iff in H; destruct H as [H _];
      by apply negb_false_iff, bool_decide_eq_true in H end.
Qed.

Lemma approveLast_edit a l q : last l = Some q → approval q = None → ap_operator a ≠ rq_operator q → requestedAt q ≤ ap_at a →
  Forall2 RequestEdit l (approveLast a l).
Proof.
  intros [l' ->]%last_Some _ Ho Ht. unfold approveLast. rewrite rev_app_distr. cbn. rewrite rev_involutive. apply Forall2_app; [apply requests_refl|].
  constructor; [|constructor]. split_and!; [done..|]. intros _ b. cbn. by intros [= <-].
Qed.

Lemma approve_edits i q o at_ d : Edits (approveDeletion i q o at_) d.
Proof.
  unfold Edits, approveDeletion. guards. apply wp_controls. intros d' _ _ _ _ Hset. guards. rewrite Hset.
  eapply edit_once, E_controls. split; cbn; [apply until_refl|apply extensions_refl|eexists _, []; rewrite app_nil_r; split; [done|apply holds_refl]|].
  eexists _, []. rewrite app_nil_r. split_and!; [done| |constructor]. repeat match goal with
    | H : negb (String.eqb _ _) = true |- _ => apply negb_true_iff, String.eqb_neq in H
    | H : negb (bool_decide _) = true |- _ => apply negb_true_iff, bool_decide_eq_false in H
    | H : (_ <=? at_) = true |- _ => apply Z.leb_le in H end.
  apply (approveLast_edit _ _ d0); [done|by apply eq_None_not_Some|by intros E|done].
Qed.

Lemma recover_edits now d : Edits (recoverBlockedRevocations now) d.
Proof.
  unfold Edits, recoverBlockedRevocations. apply wp_bind, wp_getS. cbv beta iota.
  assert (∀ l d', (∀ r, r ∈ l → r ∈ dvalues (records d)) → records d' = records d → rtc (Edit d) d d' →
    wp (recoverAll now l) (λ o d', ∀ a, o = Ok a → rtc (Edit d) d d') d') as H; [|by apply H].
  induction l as [|r l IH]; intros d' Hl Hr Hrtc; cbn [recoverAll]; [by apply wp_ret|].
  apply wp_bind, wp_bind, wp_getS. cbv beta iota. apply wp_when; intros _; [|apply IH; [|done|done]; intros x Hx; apply Hl; by right].
  eapply wp_mono; [apply queue_spec|]. intros [[]|e] d2 Hq; [|by intros ? [=]].
  apply IH; [intros x Hx; apply Hl; by right| |]; destruct (Hq tt eq_refl) as [[_ ->]|(Hj & Hn & ->)]; [done|done|done|].
  eapply rtc_r; [exact Hrtc|]. apply E_queue; [|done|done]. rewrite Hr. apply Hl. left.
Qed.

Lemma mustGetJob_edit i j j' d : dget i (revocations d) = Some j → JobEdit j j' → rtc (Edit d) d (set_revocations (dset i j' (revocations d)) d).
Proof. intros H1 H2. by eapply edit_once, E_job. Qed.
Lemma observations_same j j' : Job.observations j' = Job.observations j → ∃ l, default [] (Job.observations j') = default [] (Job.observations j) ++ l.
Proof. intros ->. exists []. by rewrite app_nil_r. Qed.
Lemma not_confirmed j : negb (isConfirmed j) = true → Job.state j ≠ Job.j_confirmed.
Proof. unfold isConfirmed. intros H%negb_true_iff. by apply bool_decide_eq_false in H. Qed.

Lemma prepare_edits i tx d : Edits (prepareRevocation i tx) d.
Proof.
  unfold Edits, prepareRevocation. guards. eapply mustGetJob_edit; [done|].
  match goal with H : negb (isConfirmed ?j) = true, H' : match _ with Some _ => _ | None => _ end = true |- _ => rename H into Hc, H' into Ht, j into v end. apply Build_JobEdit; cbn; try done.
  - intros Hs. by apply not_confirmed in Hc.
  - intros t Htr. left. eexists. split; [done|]. rewrite Htr in Ht. symmetry. by apply String.eqb_eq.
  - by apply observations_same.
Qed.

Lemma finish_edits i at_ d : Edits (finishRevocation i at_) d.
Proof.
  unfold Edits, finishRevocation. guards. eapply mustGetJob_edit; [done|]. apply Build_JobEdit; cbn; try done.
  - intros u Hu. left. eexists. split; [done|]. cbn. congruence.
  - intros _. split; [by eexists|]. by eexists.
  - by apply observations_same.
Qed.

Lemma fail_edits i e b d : (b = true → drops = true) → Edits (failRevocation i e b) d.
Proof.
  intros Hd. unfold Edits, failRevocation. guards. eapply mustGetJob_edit; [done|]. match goal with H : negb (isConfirmed ?j) = true |- _ => rename H into Hc, j into v end.
  destruct b; apply Build_JobEdit; cbn; try done; try (by apply observations_same).
  - intros Hs. by apply not_confirmed in Hc.
  - intros t Ht. right. split_and!; [by apply Hd|done|done].
  - intros t Ht. left. by exists t.
Qed.

Lemma observe_edits i x o at_ d : Edits (recordRevocationObservation i x o at_) d.
Proof.
  unfold Edits, recordRevocationObservation. guards_only. destruct (normalizeRevocationObservation isAddress o) as [o'|] eqn:?; [|by intros ? [=]]. guards_only.
  match goal with |- context [if ?b then _ else _] => destruct b end; guards; [reflexivity|].
  eapply mustGetJob_edit; [done|]. apply Build_JobEdit; cbn; try done; [|by eexists]. intros t Ht. left. by exists t.
Qed.

Definition deletes (op : VaultOp) : bool := match op with OErase _ _ _ | OPurge _ => true | _ => false end.
Lemma void_edits {A} (m : M VaultData A) d : Edits m d → Edits (void m) d.
Proof. unfold Edits, void. intros H. apply wp_bind. eapply wp_mono; [exact H|]. intros [a|e] d' Hq; [apply wp_ret; intros ? _; by eapply Hq|by intros ? [=]]. Qed.

Definition reverts (op : VaultOp) : bool := match op with OFail _ _ b => b | _ => false end.
Lemma runOp_edits op d : deletes op = false → (reverts op = true → drops = true) → Edits (runOp op) d.
Proof.
  destruct op; cbn [deletes reverts runOp]; try done; intros _ Hdr; try apply void_edits.
  - apply put_edits. - apply materialization_edits. - apply sourceConfirmation_edits. - apply rescreen_edits. - apply review_edits.
  - apply extend_edits. - apply hold_edits. - apply release_edits. - apply request_edits. - apply approve_edits. - apply recover_edits.
  - apply prepare_edits. - apply finish_edits. - by apply fail_edits. - apply observe_edits.
  - intros ? _. apply edit_once, E_maintenance.
Qed.

(** ** What edits keep *)

(** A record through any number of edits. *)
Record Keeps (r r' : VaultRecord) : Prop := {
  kp_id : id r' = id r;
  kp_case : walletAddress r' = walletAddress r ∧ evidenceHash r' = evidenceHash r ∧ retentionPolicy r' = retentionPolicy r
    ∧ createdAt r' = createdAt r ∧ retentionUntil r' = retentionUntil r;
  kp_rejected : state r' = rejected → state r = rejected;
  kp_terminal : state r = blocked ∨ state r = rejected → state r' = state r ∨ (length (reviews r) < length (reviews r'))%nat;
  kp_reviews : ∃ l, reviews r' = reviews r ++ l }.
#[export] Instance Keeps_preorder : PreOrder Keeps.
Proof.
  split; [intros r; split; try done; [by left|exists []; by rewrite app_nil_r]|].
  intros r1 r2 r3 [A1 A2 A3 A4 [l A5]] [B1 B2 B3 B4 [m B5]]. split; [congruence|naive_solver congruence|auto| |exists (l ++ m); by rewrite B5, A5, (assoc_L (++))].
  intros H. destruct (A4 H) as [E|Hl]; [rewrite <- E in H; destruct (B4 H) as [E2|Hl]; [left; congruence|right]|right]; rewrite ?B5, ?A5, ?length_app in *; lia.
Qed.
Lemma RecordEdit_Keeps d r r' : RecordEdit d r r' → Keeps r r'.
Proof.
  intros [H1 H2 H3 H4 _ H5 _]. split; try done. intros H. destruct (H4 H) as [E|[e E]]; [by left|right]. rewrite E, length_app. cbn. lia.
Qed.

Lemma Edit_record d0 d d' i r : Edit d0 d d' → dget i (records d) = Some r → ∃ r', dget i (records d') = Some r' ∧ Keeps r r'.
Proof.
  intros [r0 Hn He|i0 r0 r1 Hr He|r0 at_ Hr Hj Hn|i0 j j' Hj He|i0 c' He|m] Hi; cbn; try by exists r.
  - rewrite dget_dset_ne; [by exists r|]. intros ->. congruence.
  - destruct (decide (i0 = i)) as [->|Hne]; [|rewrite dget_dset_ne by done; by exists r]. rewrite dget_dset_eq. exists r1. split; [done|].
    replace r with r0 by congruence. by eapply RecordEdit_Keeps.
Qed.
Lemma Edits_record d0 d d' i r : rtc (Edit d0) d d' → dget i (records d) = Some r → ∃ r', dget i (records d') = Some r' ∧ Keeps r r'.
Proof.
  intros H. revert r. induction H as [d|d d1 d2 H1 _ IH]; intros r Hr; [by exists r|].
  destruct (Edit_record _ _ _ _ _ H1 Hr) as (r1 & Hr1 & Hk). destruct (IH _ Hr1) as (r2 & Hr2 & Hk2). exists r2. split; [done|by etransitivity].
Qed.

Lemma Edits_erasures d0 d d' : rtc (Edit d0) d d' → erasures d' = erasures d.
Proof. induction 1 as [|d d1 d2 H1 _ IH]; [done|]. rewrite IH. by destruct H1. Qed.

(** The requests of a record grow only by requests made in the first content. *)
Lemma Edits_requests d0 d d' i : rtc (Edit d0) d d' → from_option requests [] (dget i (retention d)) = [] →
  (∀ q, ¬ MadeIn d0 i q) → from_option requests [] (dget i (retention d')) = [].
Proof.
  intros H Hn Hm. induction H as [d|d d1 d2 H1 _ IH]; [done|]. apply IH. destruct H1 as [| | | |i0 c' He|]; cbn; try done.
  destruct (decide (i0 = i)) as [->|Hne]; [|by rewrite dget_dset_ne]. rewrite dget_dset_eq. cbn.
  destruct (ce_requests _ _ _ _ He) as (l1 & l2 & -> & HF & HM). assert (requests (default noControls (dget i (retention d))) = []) as E by (by destruct (dget i (retention d))).
  rewrite E in HF. apply Forall2_nil_inv_l in HF as ->. destruct l2 as [|q l2]; [done|]. apply Forall_cons in HM as [HM _]. by destruct (Hm q).
Qed.

(** ** Well-formed contents *)

Definition Origin (i : string) (q : DeletionRequest) : Prop :=
  ∃ d0 r0, Reach d0 ∧ dget i (records d0) = Some r0 ∧ fingerprint q = deletionFingerprint d0 r0 ∧ otherBlockers d0 r0 (requestedAt q) = [].

Record WF (d : VaultData) : Prop := {
  wf_keys : ∀ i r, dget i (records d) = Some r → id r = i;
  wf_nodup : NoDup (dkeys (records d));
  wf_jobs : ∀ i j, dget i (revocations d) = Some j → Job.id j = i ∧ JobShape j;
  wf_jobs_nodup : NoDup (dkeys (revocations d));
  wf_open : ∀ i j1 j2, j1 ∈ jobsOf d i → j2 ∈ jobsOf d i → openJob j1 = true → openJob j2 = true → j1 = j2;
  wf_erased : ∀ e, e ∈ erasures d → dget (er_recordId e) (records d) = None;
  wf_requests : ∀ i c q, dget i (retention d) = Some c → q ∈ requests c → RequestOk q ∧ Origin i q;
  wf_extensions : ∀ i c e, dget i (retention d) = Some c → e ∈ extensions c → ∃ m, minimumUntil c = Some m ∧ ex_until e ≤ m }.

Lemma elem_dvalues {A} (v : A) l : NoDup (dkeys l) → v ∈ dvalues l → ∃ k, dget k l = Some v.
Proof. intros Hd (kv & -> & Hkv)%list_elem_of_fmap. exists kv.1. apply elem_dget; [done|]. by destruct kv. Qed.

(** Values of an updated dictionary. *)
Lemma dvalues_dset {A} k (v w : A) l : NoDup (dkeys l) → w ∈ dvalues (dset k v l) → w = v ∨ ∃ k', k' ≠ k ∧ dget k' l = Some w.
Proof.
  intros Hd Hw. destruct (elem_dvalues w (dset k v l)) as [k' Hk]; [by apply dset_NoDup|done|]. destruct (decide (k = k')) as [->|Hne].
  - rewrite dget_dset_eq in Hk. left. congruence.
  - rewrite dget_dset_ne in Hk by done. right. by exists k'.
Qed.

Lemma dget_dset_inv {A} k (v : A) k' w l : dget k' (dset k v l) = Some w → (k' = k ∧ w = v) ∨ (k' ≠ k ∧ dget k' l = Some w).
Proof.
  destruct (decide (k = k')) as [->|Hne]; [rewrite dget_dset_eq; intros [= ->]; by left|].
  rewrite dget_dset_ne by done. intros H. right. split; [congruence|done].
Qed.

Lemma wf_open_set d l : NoDup (dkeys l) →
  (∀ k1 k2 j1 j2, dget k1 l = Some j1 → dget k2 l = Some j2 → Job.recordId j1 = Job.recordId j2 → openJob j1 = true → openJob j2 = true → k1 = k2) →
  ∀ i j1 j2, j1 ∈ jobsOf (set_revocations l d) i → j2 ∈ jobsOf (set_revocations l d) i → openJob j1 = true → openJob j2 = true → j1 = j2.
Proof.
  intros Hd H i j1 j2 [E1 H1]%elem_jobsOf [E2 H2]%elem_jobsOf O1 O2. cbn in *. apply elem_dvalues in H1 as [k1 H1]; [|done]. apply elem_dvalues in H2 as [k2 H2]; [|done].
  pose proof (H k1 k2 j1 j2 H1 H2 ltac:(congruence) O1 O2) as ->. congruence.
Qed.
Lemma open_keys d : WF d → ∀ k1 k2 j1 j2, dget k1 (revocations d) = Some j1 → dget k2 (revocations d) = Some j2 → Job.recordId j1 = Job.recordId j2 →
  openJob j1 = true → openJob j2 = true → k1 = k2.
Proof.
  intros HW k1 k2 j1 j2 H1 H2 E O1 O2. destruct (wf_jobs _ HW _ _ H1) as [<- _], (wf_jobs _ HW _ _ H2) as [<- _]. f_equal.
  apply (wf_open _ HW (Job.recordId j1)); [..|done|done]; apply elem_jobsOf; (split; [done|by eapply dget_dvalues]).
Qed.

Lemma Edit_WF d0 d d' : Reach d0 → Edit d0 d d' → WF d → WF d'.
Proof.
  intros HR He HW. destruct He as [r Hn Hx|i r r' Hr [Hid _ _ _ _ _ _]|r at_ Hr Hj Hn|i j j' Hj [Hs Hc Ht Hsh Ho]|i c' [Hu (le & Ee & He) _ (l1 & l2 & El & HF & HM)]|m].
  - split; cbn; try apply HW; [|by apply dset_NoDup, HW|].
    + intros k x. destruct (decide (id r = k)) as [<-|Hne]; [rewrite dget_dset_eq; by intros [= <-]|rewrite dget_dset_ne by done; apply HW].
    + intros e Hee. rewrite dget_dset_ne; [by apply HW|]. intros E. symmetry in E. by apply (Hx e).
  - split; cbn; try apply HW; [|by apply dset_NoDup, HW|].
    + intros k x. destruct (decide (i = k)) as [<-|Hne]; [rewrite dget_dset_eq; intros [= <-]; rewrite Hid; by apply HW|rewrite dget_dset_ne by done; apply HW].
    + intros e Hee. rewrite dget_dset_ne; [by apply HW|]. intros E. apply (wf_erased _ HW) in Hee. rewrite E in Hee. congruence.
  - split; try apply HW; cbn; [|by apply dset_NoDup, HW|].
    + intros k x. destruct (decide (Job.id (newJob r at_) = k)) as [<-|Hne]; [rewrite dget_dset_eq; by intros [= <-]|rewrite dget_dset_ne by done; apply HW].
    + apply (wf_open_set d); [by apply dset_NoDup, HW|]. assert (∀ k j, dget k (revocations d) = Some j → Job.recordId j = id r → openJob j = true → False) as Hno.
      { intros k j Hk E O. apply not_true_iff_false in Hj. apply Hj, existsb_exists. exists j. split; [|done]. apply list_elem_of_In, elem_jobsOf. split; [done|]. by eapply dget_dvalues. }
      intros k1 k2 j1 j2 H1 H2 E O1 O2. destruct (dget_dset_inv _ _ _ _ _ H1) as [[-> ->]|[N1 H1']], (dget_dset_inv _ _ _ _ _ H2) as [[-> ->]|[N2 H2']].
      * done.
      * cbn in E. by destruct (Hno _ _ H2' (eq_sym E) O2).
      * cbn in E. by destruct (Hno _ _ H1' E O1).
      * by eapply (open_keys d HW).
  - destruct (wf_jobs _ HW _ _ Hj) as [Hji Hjs]. split; try apply HW; cbn; [|by apply dset_NoDup, HW|].
    + intros k x. destruct (decide (i = k)) as [<-|Hne]; [rewrite dget_dset_eq; intros [= <-]; destruct Hs as (-> & _); auto|rewrite dget_dset_ne by done; apply HW].
    + apply (wf_open_set d); [by apply dset_NoDup, HW|]. assert (openJob j' = true → openJob j = true) as Hopen.
      { unfold openJob, isConfirmed. rewrite !negb_true_iff, !bool_decide_eq_false. auto. }
      destruct Hs as (_ & Er & _). intros k1 k2 j1 j2 H1 H2 E O1 O2. destruct (dget_dset_inv _ _ _ _ _ H1) as [[-> ->]|[N1 H1']], (dget_dset_inv _ _ _ _ _ H2) as [[-> ->]|[N2 H2']].
      * done.
      * apply (open_keys d HW i k2 j j2); [done|done|congruence|auto|done].
      * apply (open_keys d HW k1 i j1 j); [done|done|congruence|done|auto].
      * by eapply (open_keys d HW).
  - split; try apply HW; cbn.
    2: { intros k c e. destruct (decide (i = k)) as [<-|Hne]; [|rewrite dget_dset_ne by done; apply HW].
      rewrite dget_dset_eq. intros [= <-]. rewrite Ee. intros [Hi|Hi]%elem_of_app; [|by apply He].
      destruct (dget i (retention d)) as [c0|] eqn:Hc0; [|by apply elem_of_nil in Hi]. cbn in Hi, Hu.
      destruct (wf_extensions _ HW _ _ _ Hc0 Hi) as (m & Hm & Hle). destruct (Hu m Hm) as (m' & Hm' & Hle'). exists m'. split; [done|lia]. }
    intros k c q. destruct (decide (i = k)) as [<-|Hne]; [|rewrite dget_dset_ne by done; apply HW].
    rewrite dget_dset_eq. intros [= <-]. rewrite El. intros [Hq|Hq]%elem_of_app.
    + apply list_elem_of_lookup_1 in Hq as [n Hnq]. destruct (Forall2_lookup_r _ _ _ _ _ HF Hnq) as (q0 & Hq0 & (_ & E1 & _ & E2 & E3)).
      apply list_elem_of_lookup_2 in Hq0. destruct (dget i (retention d)) as [c0|] eqn:Hc0; [|by apply elem_of_nil in Hq0]. cbn in Hq0.
      destruct (wf_requests _ HW _ _ _ Hc0 Hq0) as [Hok (da & ra & Ha1 & Ha2 & Ha3 & Ha4)]. split; [by apply E3|]. exists da, ra. by rewrite E1, E2.
    + rewrite Forall_forall in HM. destruct (HM _ Hq) as (r & Hr & Hf & Hob & Hap & _). split; [intros a Ha; congruence|]. by exists d0, r.
  - by split; apply HW.
Qed.
Lemma Edits_WF d0 d d' : Reach d0 → rtc (Edit d0) d d' → WF d → WF d'.
Proof. intros HR. induction 1 as [|d d1 d2 H1 _ IH]; [done|]. intros HW. by apply IH, (Edit_WF d0 d). Qed.

End edits.

(** ** Deletions *)

(** What a deletion of [r] for the request [q] at [at_] has found in the content. *)
Record Authorised (d : VaultData) (r : VaultRecord) (q : DeletionRequest) (at_ : Z) : Prop := {
  au_request : currentRequest d (id r) = Some q;
  au_approval : ∃ a, approval q = Some a ∧ requestedAt q ≤ ap_at a ≤ at_;
  au_fresh : fingerprint q = deletionFingerprint d r;
  au_deadline : createdAt r ≤ retentionDeadline d r ≤ at_;
  au_holds : ∀ h, h ∈ holdsOf d (id r) → openHold h = false;
  au_state : state r ≠ pending ∧ state r ≠ review;
  au_jobs : ∀ j, j ∈ jobsOf d (id r) → isConfirmed j = true;
  au_blocked : state r = blocked → ∃ j, j ∈ jobsOf d (id r) }.

Lemma code_when_nil b c : when_ b c = [] ↔ b = false.
Proof. by destruct b. Qed.
Lemma existsb_none {A} (f : A → bool) l : existsb f l = false ↔ ∀ x, x ∈ l → f x = false.
Proof.
  rewrite <- not_true_iff_false, existsb_exists. split.
  - intros H x Hx. apply not_true_iff_false. intros Hf. apply H. exists x. by rewrite <- list_elem_of_In.
  - intros H (x & Hx & Hf). rewrite <- list_elem_of_In in Hx. rewrite H in Hf; done.
Qed.

Lemma deletionBlockers_nil d r q at_ : deletionBlockers d r at_ = [] → currentRequest d (id r) = Some q → Authorised d r q at_.
Proof.
  unfold deletionBlockers, safetyBlockers. cbv zeta. intros H Hq. rewrite Hq in H. rewrite !app_nil, !code_when_nil in H.
  destruct H as ((H1 & H2 & H3 & H4 & H5 & H6 & H7) & H8 & H9 & H10). cbn [mbind option_bind] in *.
  apply negb_false_iff, bool_decide_eq_true in H8 as [a Ha]. rewrite Ha in H10. apply orb_false_iff in H10 as [H10 H11].
  apply negb_false_iff, String.eqb_eq in H9. apply bool_decide_eq_false in H4, H5. rewrite existsb_none in H3. rewrite existsb_none in H6.
  split; try done.
  - exists a. split; [done|]. lia.
  - destruct (_ || _) eqn:E; [done|]. apply code_when_nil in H1. rewrite !orb_false_iff in E. lia.
  - intros j Hj. by apply negb_false_iff, H6.
  - intros Hb. rewrite Hb in H7. cbn in H7. apply negb_false_iff, existsb_exists in H7 as (j & Hj & _). exists j. by apply list_elem_of_In.
Qed.

(** Only the controls and the outbox count. *)
Lemma Authorised_ext d d1 r q at_ : retention d1 = retention d → revocations d1 = revocations d → Authorised d1 r q at_ → Authorised d r q at_.
Proof.
  intros E1 E2 [H1 H2 H3 H4 H5 H6 H7 H8].
  split; unfold currentRequest, deletionFingerprint, deletionView, sortedJobs, jobsOf, retentionDeadline, holdsOf in *; rewrite ?E1, ?E2 in *; done.
Qed.

(** From [d] to [d'] records were removed, each for a reason of which [P] holds, and with a tombstone. *)
Record Deletes (P : VaultRecord → DeletionRequest → Prop) (d d' : VaultData) : Prop := {
  dl_retention : retention d' = retention d;
  dl_revocations : revocations d' = revocations d;
  dl_records : ∀ i, dget i (records d') = dget i (records d)
    ∨ dget i (records d') = None ∧ ∃ r q e, dget i (records d) = Some r ∧ P r q ∧ e ∈ erasures d' ∧ er_recordId e = i ∧ er_requestId e = Some (rq_id q);
  dl_nodup : NoDup (dkeys (records d)) → NoDup (dkeys (records d'));
  dl_erasures : ∃ l, erasures d' = erasures d ++ l ∧ ∀ e, e ∈ l → dget (er_recordId e) (records d') = None }.

Lemma Deletes_refl P d : Deletes P d d.
Proof. split; try done; [by left|]. exists []. rewrite app_nil_r. split; [done|]. by intros ? ?%elem_of_nil. Qed.

Lemma Deletes_none P d d' i : Deletes P d d' → dget i (records d) = None → dget i (records d') = None.
Proof. intros H Hn. by destruct (dl_records _ _ _ H i) as [->|[? _]]. Qed.

Lemma Deletes_step (P : VaultRecord → DeletionRequest → Prop) d d1 r q at_ : Deletes P d d1 → dget (id r) (records d) = Some r → P r q →
  wp (eraseApproved r q at_) (λ o d', o = Ok tt ∧ Deletes P d d') d1.
Proof.
  intros [H1 H2 H3 H4 (l & H5 & H6)] Hr HP. apply wp_modify. split; [done|]. set (e := mkErasure (id r) at_ (policyRef q) (Some (rq_id q))).
  split; cbn; [done|done| |intros Hd; by apply ddel_NoDup, H4|].
  - intros i. destruct (decide (id r = i)) as [<-|Hne].
    + right. rewrite dget_ddel_eq. split; [done|]. exists r, q, e. split_and!; [done|done| |done|done]. apply elem_of_app. right. by apply list_elem_of_singleton.
    + rewrite dget_ddel_ne by done. destruct (H3 i) as [E|(E & r0 & q0 & e0 & Hr0 & HP0 & He0 & Hi0 & Hq0)]; [by left|right]. split; [done|].
      exists r0, q0, e0. split_and!; [done|done| |done|done]. apply elem_of_app. by left.
  - exists (l ++ [e]). rewrite H5, (assoc_L (++)). split; [done|]. intros x [Hx|Hx]%elem_of_app.
    + destruct (decide (id r = er_recordId x)) as [<-|Hne]; [by rewrite dget_ddel_eq|]. rewrite dget_ddel_ne by done. by apply H6.
    + apply list_elem_of_singleton in Hx as ->. by rewrite dget_ddel_eq.
Qed.

Lemma Deletes_WF P d d' : Deletes P d d' → WF d → WF d'.
Proof.
  intros H HW. pose proof H as [H1 H2 H3 H4 (l & H5 & H6)]. assert (∀ i, jobsOf d' i = jobsOf d i) as Hj by (intros i; unfold jobsOf; by rewrite H2).
  split.
  - intros i r Hr. destruct (H3 i) as [E|[E _]]; [|congruence]. apply (wf_keys _ HW). congruence.
  - apply H4, HW.
  - rewrite H2. apply HW.
  - rewrite H2. apply HW.
  - intros i. rewrite Hj. apply HW.
  - intros e. rewrite H5. intros [He|He]%elem_of_app; [|by apply H6]. by eapply Deletes_none, wf_erased.
  - rewrite H1. apply HW.
  - rewrite H1. apply HW.
Qed.

Definition ErasedBy (d : VaultData) (op : VaultOp) (r : VaultRecord) (q : DeletionRequest) : Prop :=
  ∃ at_, Authorised d r q at_ ∧ (op = OErase (id r) (rq_id q) at_ ∨ op = OPurge at_ ∧ automatic q = true).

Lemma erase_spec i qid at_ d : WF d → wp (runOp (OErase i qid at_)) (λ o d', o = Ok tt → Deletes (ErasedBy d (OErase i qid at_)) d d') d.
Proof.
  intros HW. cbn [runOp]. unfold void, erase, timestamp, demand. apply wp_bind, wp_bind, wp_require; intros Ht; [|done]. apply wp_bind, wp_getS. cbv beta iota.
  destruct (dget i (records d)) as [r|] eqn:Hr; [|apply wp_ret, wp_ret; intros _; apply Deletes_refl]. apply wp_bind. unfold wp at 1. rewrite controls_ok. cbn [fst snd].
  destruct (dget i (retention d)) as [c|] eqn:Hc; cbn [default from_option Datatypes.id]; [|by apply wp_throw]. destruct (last (requests c)) as [q|] eqn:Hq; [|by apply wp_throw].
  apply wp_bind, wp_require; intros Hid; [|done]. apply wp_bind, wp_getS. apply wp_bind, wp_require; intros Hb; [|done]. apply String.eqb_eq in Hid. apply bool_decide_eq_true in Hb.
  pose proof (wf_keys _ HW _ _ Hr) as Hri. apply wp_bind. eapply wp_mono; [eapply (Deletes_step (ErasedBy d (OErase i qid at_)) d d r q at_)|].
  - apply Deletes_refl.
  - by rewrite Hri.
  - exists at_. split; [|left; congruence]. apply deletionBlockers_nil; [done|]. unfold currentRequest. rewrite Hri, Hc. done.
  - intros o d' [-> HD]. apply wp_ret, wp_ret. done.
Qed.

Lemma purge_spec now l count d d1 : WF d → (∀ r, r ∈ l → r ∈ dvalues (records d)) → Deletes (ErasedBy d (OPurge now)) d d1 →
  wp (purge now l count) (λ o d', ∀ n, o = Ok n → Deletes (ErasedBy d (OPurge now)) d d') d1.
Proof.
  intros HW. revert count d1. induction l as [|r l IH]; intros count d1 Hl HD; cbn [purge]; [by apply wp_ret|].
  apply wp_bind, wp_getS. cbv beta iota. assert (∀ x, x ∈ l → x ∈ dvalues (records d)) as Hl' by (intros x Hx; apply Hl; by right).
  destruct (currentRequest d1 (id r)) as [q|] eqn:Hq; [|by apply IH]. destruct (negb (automatic q) || _) eqn:E; [by apply IH|].
  apply orb_false_iff in E as [Ha%negb_false_iff Hb%negb_false_iff]. apply bool_decide_eq_true in Hb.
  destruct (elem_dvalues r (records d)) as [k Hk]; [apply HW|apply Hl; left|]. pose proof (wf_keys _ HW _ _ Hk) as <-.
  apply wp_bind. eapply wp_mono; [eapply (Deletes_step _ d d1 r q now); [done|done|]|].
  - exists now. split; [|by right]. eapply Authorised_ext; [apply HD|apply HD|]. by apply deletionBlockers_nil.
  - intros o d2 [-> HD2]. by apply IH.
Qed.

Lemma deletes_spec op d : WF d → deletes op = true → wp (runOp op) (λ o d', o = Ok tt → Deletes (ErasedBy d op) d d') d.
Proof.
  intros HW. destruct op; cbn [deletes]; try done; intros _; [by apply erase_spec|]. cbn [runOp]. unfold void, purgeExpired, timestamp, demand.
  apply wp_bind, wp_bind, wp_require; intros Ht; [|done]. apply wp_bind, wp_getS. eapply wp_mono; [apply (purge_spec now (dvalues (records d)) 0 d d HW); [done|apply Deletes_refl]|].
  intros [n|e] d' H; [|done]. apply wp_ret. intros _. by eapply H.
Qed.

(** ** The outbox through a change *)

Record JobKeeps (drops : bool) (j j' : Job.RevocationJob) : Prop := {
  jk_same : Job.id j' = Job.id j ∧ Job.recordId j' = Job.recordId j ∧ Job.walletAddress j' = Job.walletAddress j
    ∧ Job.createdAt j' = Job.createdAt j ∧ Job.sourceTarget j' = Job.sourceTarget j;
  jk_confirmed : Job.state j = Job.j_confirmed → Job.state j' = Job.j_confirmed;
  jk_transaction : drops = false → ∀ t, Job.transaction j = Some t → ∃ t', Job.transaction j' = Some t' ∧ Job.hash t' = Job.hash t;
  jk_observations : ∃ l, default [] (Job.observations j') = default [] (Job.observations j) ++ l }.
#[local] Instance JobKeeps_preorder drops : PreOrder (JobKeeps drops).
Proof.
  split; [intros j; split; try done; [by eexists|by exists []; rewrite app_nil_r]|].
  intros j1 j2 j3 [A1 A2 A3 [l A4]] [B1 B2 B3 [m B4]]. split; [naive_solver congruence|auto| |by exists (l ++ m); rewrite B4, A4, (assoc_L (++))].
  intros Hd t Ht. destruct (A3 Hd t Ht) as (t1 & Ht1 & E1). destruct (B3 Hd t1 Ht1) as (t2 & Ht2 & E2). exists t2. split; [done|congruence].
Qed.
Lemma JobEdit_Keeps drops j j' : JobEdit drops j j' → JobKeeps drops j j'.
Proof.
  intros [H1 H2 H3 _ H4]. split; try done. intros -> t Ht. destruct (H3 t Ht) as [(t' & E1 & E2)|(? & _)]; [by exists t'|done].
Qed.

Lemma Edit_job drops d0 d d' i j : Edit drops d0 d d' → dget i (revocations d) = Some j → ∃ j', dget i (revocations d') = Some j' ∧ JobKeeps drops j j'.
Proof.
  intros [r0 Hn He|i0 r0 r1 Hr He|r0 at_ Hr Hj Hn|i0 j0 j1 Hj He|i0 c' He|m] Hi; cbn; try by exists j.
  - rewrite dget_dset_ne; [by exists j|]. intros E. subst i. unfold dhas in Hn. cbn [newJob Job.id] in Hn. by rewrite Hi in Hn.
  - destruct (decide (i0 = i)) as [->|Hne]; [|rewrite dget_dset_ne by done; by exists j]. rewrite dget_dset_eq. exists j1. split; [done|].
    replace j with j0 by congruence. by apply JobEdit_Keeps.
Qed.
Lemma Edits_job drops d0 d d' i j : rtc (Edit drops d0) d d' → dget i (revocations d) = Some j → ∃ j', dget i (revocations d') = Some j' ∧ JobKeeps drops j j'.
Proof.
  intros H. revert j. induction H as [d|d d1 d2 H1 _ IH]; intros j Hj; [by exists j|].
  destruct (Edit_job _ _ _ _ _ _ H1 Hj) as (j1 & Hj1 & Hk). destruct (IH _ Hj1) as (j2 & Hj2 & Hk2). exists j2. split; [done|by etransitivity].
Qed.

Lemma hasJob_keeps drops d0 d d' i : WF d → rtc (Edit drops d0) d d' → hasJob d i = true → hasJob d' i = true.
Proof.
  intros HW H (j & Hj)%hasJob_spec. apply elem_jobsOf in Hj as [Hi Hj]. apply elem_dvalues in Hj as [k Hk]; [|apply HW].
  destruct (Edits_job _ _ _ _ _ _ H Hk) as (j' & Hk' & HK). apply hasJob_spec. exists j'. apply elem_jobsOf. split; [|by eapply dget_dvalues].
  destruct (jk_same _ _ _ HK) as (_ & E & _). congruence.
Qed.

(** A record that is blocked after the edits has a job, unless it was blocked before, or is new. *)
Lemma Edits_blocked drops d0 d d' : Reach d0 → rtc (Edit drops d0) d d' → WF d → ∀ i r', dget i (records d') = Some r' → state r' = blocked →
  hasJob d' i = true ∨ (∃ r, dget i (records d) = Some r ∧ state r = blocked) ∨ dget i (records d) = None.
Proof.
  intros HR. induction 1 as [d|d d1 d2 H1 H IH]; intros HW i r' Hr Hb; [right; left; by exists r'|]. assert (WF d1) as HW1 by (by eapply Edit_WF).
  destruct (IH HW1 i r' Hr Hb) as [Hj|[(r1 & Hr1 & Hb1)|Hn]]; [by left| |].
  - destruct H1 as [r0 Hn He|i0 r0 r2 Hr0 He|r0 at_ Hr0 Hj Hn|i0 j0 j1 Hj He|i0 c' He|m]; cbn in Hr1; try (right; left; by exists r1).
    + destruct (dget_dset_inv _ _ _ _ _ Hr1) as [[-> ->]|[Hne Hr2]]; [right; by right|right; left; by exists r1].
    + destruct (dget_dset_inv _ _ _ _ _ Hr1) as [[-> ->]|[Hne Hr2]]; [|right; left; by exists r1].
      destruct (re_blocked _ _ _ He Hb1) as [Hb0|Hj]; [right; left; by exists r0|left]. rewrite (wf_keys _ HW _ _ Hr0) in Hj.
      eapply hasJob_keeps; [exact HW1|exact H|exact Hj].
  - right. right. destruct (dget i (records d)) as [r|] eqn:Hd; [|done]. destruct (Edit_record _ _ _ _ _ _ H1 Hd) as (r1 & Hr1 & _). congruence.
Qed.

(** ** All contents of a vault *)

Lemma commit_run op d d' : commit op d = Some d' → ∃ d1, runOp op d = (Ok tt, d1) ∧ d' = set_revision (revision d1 + 1) d1.
Proof. unfold commit. destruct (runOp op d) as [[[]|] d1]; [|done]. intros [= <-]. by exists d1. Qed.

Lemma vault_commit_cases op d d' : WF d → commit op d = Some d' → ∃ d1, d' = set_revision (revision d1 + 1) d1
  ∧ (deletes op = false ∧ rtc (Edit (reverts op) d) d d1 ∨ deletes op = true ∧ Deletes (ErasedBy d op) d d1).
Proof.
  intros HW (d1 & Hr & ->)%commit_run. exists d1. split; [done|]. destruct (deletes op) eqn:Hd.
  - right. split; [done|]. pose proof (deletes_spec op d HW Hd) as H. unfold wp in H. rewrite Hr in H. by apply H.
  - left. split; [done|]. pose proof (runOp_edits (reverts op) op d Hd (λ E, E)) as H. unfold Edits, wp in H. rewrite Hr in H. by eapply H.
Qed.

Lemma set_revision_WF n d : WF d → WF (set_revision n d).
Proof. intros HW. by split; apply HW. Qed.
Lemma Reach_WF d : Reach d → WF d.
Proof.
  induction 1 as [|op d d' HR IH Hc].
  - split; cbn; try done; try apply NoDup_nil_2; intros; by match goal with H : _ ∈ [] |- _ => apply elem_of_nil in H end.
  - destruct (vault_commit_cases _ _ _ IH Hc) as (d1 & -> & [[_ H]|[_ H]]); apply set_revision_WF; [by eapply Edits_WF|by eapply Deletes_WF].
Qed.

(** ** What a deletion was requested for *)

(** The contents of a vault that was empty at first, the last one first. *)
Inductive History : list VaultData → Prop :=
  | History_start : History [emptyData]
  | History_commit op d d' h : History (d :: h) → commit op d = Some d' → History (d' :: d :: h).
Lemma History_Reach d h : History (d :: h) → Reach d.
Proof.
  remember (d :: h) as l eqn:E. intros H. revert d h E. induction H as [|op d0 d' h0 H IH Hc]; intros d h [= <- <-]; [constructor|].
  eapply Reach_commit; [by eapply IH|done].
Qed.

(** The texts that are digested for requests are of these values; their digests differ. *)
Definition views (h : list VaultData) : list View := flat_map (λ d, map (deletionView d) (dvalues (records d))) h.
Definition NoCollision (h : list VaultData) : Prop := ∀ v w, v ∈ views h → w ∈ views h →
  sha256 ("proofmark-vault-deletion-v1" +:+ nul) (stringifyView v) = sha256 ("proofmark-vault-deletion-v1" +:+ nul) (stringifyView w) → v = w.

Definition controlsOf (d : VaultData) (i : string) : RetentionControls := default noControls (dget i (retention d)).
(** All of the case: its record, its retention and holds, its revocation jobs. *)
Record Unchanged (i : string) (d0 d : VaultData) : Prop := {
  un_record : dget i (records d0) = dget i (records d);
  un_until : minimumUntil (controlsOf d0 i) = minimumUntil (controlsOf d i);
  un_extensions : extensions (controlsOf d0 i) = extensions (controlsOf d i);
  un_holds : holds (controlsOf d0 i) = holds (controlsOf d i);
  un_jobs : ∀ j, Job.recordId j = i → j ∈ dvalues (revocations d0) ↔ j ∈ dvalues (revocations d) }.

(** The [n]-th request of a case was made by the change from [d0] to [d0']. *)
Record MadeBetween (h : list VaultData) (i : string) (n : nat) (q : DeletionRequest) (d0 d0' : VaultData) : Prop := {
  mb_history : ∃ h1 h2, h = h1 ++ d0' :: d0 :: h2;
  mb_before : requests (controlsOf d0 i) !! n = None;
  mb_after : ∃ q0, requests (controlsOf d0' i) !! n = Some q0 ∧ rq_id q0 = rq_id q ∧ rq_operator q0 = rq_operator q ∧ requestedAt q0 = requestedAt q }.

Lemma RequestEdit_trans q1 q2 q3 : RequestEdit q1 q2 → RequestEdit q2 q3 → RequestEdit q1 q3.
Proof. intros (A1 & A2 & A3 & A4 & A5) (B1 & B2 & B3 & B4 & B5). split_and!; [congruence..|auto]. Qed.

Lemma Edit_request drops d0 d d' i n q : Edit drops d0 d d' → requests (controlsOf d' i) !! n = Some q →
  (∃ q0, requests (controlsOf d i) !! n = Some q0 ∧ RequestEdit q0 q) ∨ requests (controlsOf d i) !! n = None ∧ MadeIn d0 i q.
Proof.
  assert (requests (controlsOf d i) !! n = Some q → ∃ q0, requests (controlsOf d i) !! n = Some q0 ∧ RequestEdit q0 q) as Hsame.
  { intros Hq. exists q. by split_and!. }
  intros [r Hn Hx|k r r' Hr Hre|r at_ Hr Hj Hn|k j j' Hj Hje|k c' [_ _ _ (l1 & l2 & El & HF & HM)]|m]; try (intros Hq; left; by apply Hsame).
  unfold controlsOf. cbn [retention set_retention]. destruct (decide (k = i)) as [->|Hne]; [|rewrite dget_dset_ne by done; intros Hq; left; by apply Hsame].
  rewrite dget_dset_eq. cbn. rewrite El. intros [Hq|[Hlen Hq]]%lookup_app_Some.
  - destruct (Forall2_lookup_r _ _ _ _ _ HF Hq) as (q0 & Hq0 & He). left. by exists q0.
  - right. apply list_elem_of_lookup_2 in Hq. rewrite Forall_forall in HM. split; [|by apply HM]. apply lookup_ge_None. by rewrite (Forall2_length _ _ _ HF).
Qed.
Lemma Edits_request drops d0 d d' i n q : rtc (Edit drops d0) d d' → requests (controlsOf d' i) !! n = Some q →
  (∃ q0, requests (controlsOf d i) !! n = Some q0 ∧ RequestEdit q0 q)
  ∨ requests (controlsOf d i) !! n = None ∧ ∃ q0, MadeIn d0 i q0 ∧ fingerprint q = fingerprint q0.
Proof.
  intros H. revert q. induction H as [d|d d1 d2 H1 _ IH]; intros q Hq; [left; exists q; by split_and!|].
  destruct (IH q Hq) as [(q1 & Hq1 & He)|(Hn & Hm)].
  - destruct (Edit_request _ _ _ _ _ _ _ H1 Hq1) as [(q0 & Hq0 & He0)|[Hn Hm]].
    + left. exists q0. split; [done|]. by eapply RequestEdit_trans.
    + right. split; [done|]. exists q1. split; [done|]. apply He.
  - right. split; [|done]. destruct (requests (controlsOf d i) !! n) as [q0|] eqn:E; [|done]. exfalso.
    destruct H1 as [| | | |k c' [_ _ _ (l1 & l2 & El & HF & _)]|]; try (by unfold controlsOf in *; cbn in *; congruence).
    unfold controlsOf in Hn, E. cbn [retention set_retention] in Hn. destruct (decide (k = i)) as [->|Hne]; [|rewrite dget_dset_ne in Hn by done; congruence].
    rewrite dget_dset_eq in Hn. cbn in Hn. rewrite El in Hn. apply lookup_ge_None in Hn. rewrite length_app, <- (Forall2_length _ _ _ HF) in Hn.
    apply lookup_lt_Some in E. lia.
Qed.

Lemma History_request d h i n q : History (d :: h) → requests (controlsOf d i) !! n = Some q →
  ∃ d0 d0' r0, MadeBetween (d :: h) i n q d0 d0' ∧ dget i (records d0) = Some r0 ∧ fingerprint q = deletionFingerprint d0 r0.
Proof.
  remember (d :: h) as l eqn:E. intros H. revert d h q E. induction H as [|op d1 d1' h1 H IH Hc]; intros d h q [= <- <-] Hq; [done|].
  assert (∀ q0, requests (controlsOf d1 i) !! n = Some q0 → RequestEdit q0 q → ∃ d0 d0' r0, MadeBetween (d1' :: d1 :: h1) i n q d0 d0'
    ∧ dget i (records d0) = Some r0 ∧ fingerprint q = deletionFingerprint d0 r0) as Hold.
  { intros q0 Hq0 (E1 & E2 & E3 & E4 & _). destruct (IH d1 h1 q0 eq_refl Hq0) as (d0 & d0' & r0 & [(a & b & Hl) Hb (qq & Hqq & F1 & F2 & F3)] & Hr0 & Hf).
    exists d0, d0', r0. split; [|split; [done|congruence]]. split; [exists (d1' :: a), b; by rewrite Hl|done|]. exists qq. split_and!; congruence. }
  pose proof (Reach_WF _ (History_Reach _ _ H)) as HW. destruct (vault_commit_cases _ _ _ HW Hc) as (dx & -> & [[_ He]|[_ He]]).
  - destruct (Edits_request _ _ _ _ i n q He Hq) as [(q0 & Hq0 & Hre)|(Hn & q0 & (r0 & Hr0 & Hf & _) & Ef)]; [by eapply Hold|].
    eexists d1, _, r0. split; [|split; [done|congruence]]. split; [by exists [], h1|done|]. by exists q.
  - apply (Hold q); [|by split_and!]. unfold controlsOf in *. cbn [retention set_revision] in Hq. by rewrite (dl_retention _ _ _ He) in Hq.
Qed.

Lemma sort_elems {A} (le : A → A → bool) (l m : list A) x : sort_by le l = sort_by le m → x ∈ l ↔ x ∈ m.
Proof. intros E. by rewrite <- (sort_by_perm le l), E, sort_by_perm. Qed.

Lemma views_elem h d i r : d ∈ h → dget i (records d) = Some r → deletionView d r ∈ views h.
Proof.
  intros Hd Hr%dget_dvalues. unfold views. apply list_elem_of_In, in_flat_map. exists d. split; [by apply list_elem_of_In|].
  apply list_elem_of_In. by apply list_elem_of_fmap_2.
Qed.
Lemma view_unchanged d0 d r0 r i : dget i (records d0) = Some r0 → dget i (records d) = Some r → id r0 = i → id r = i →
  deletionView d0 r0 = deletionView d r → Unchanged i d0 d.
Proof.
  unfold deletionView, sortedJobs, controlsOf. intros H0 H E0 E. rewrite E0, E. intros [= Er Eu Ee Eh Ej]. split; unfold controlsOf.
  - congruence.
  - revert Eu. by destruct (dget i (retention d0)), (dget i (retention d)).
  - revert Ee. by destruct (dget i (retention d0)), (dget i (retention d)).
  - revert Eh. by destruct (dget i (retention d0)), (dget i (retention d)).
  - intros j Hj. pose proof (sort_elems _ _ _ j Ej) as Hs. rewrite !elem_jobsOf in Hs. tauto.
Qed.

(** The case [r] may be deleted for its request [q] at [at_], after the contents [d :: h]. *)
Record Permitted (d : VaultData) (h : list VaultData) (op : VaultOp) (r : VaultRecord) (q : DeletionRequest) (at_ : Z) : Prop := {
  pm_op : op = OErase (id r) (rq_id q) at_ ∨ op = OPurge at_ ∧ automatic q = true;
  pm_requested : ∃ n d0 d0', requests (controlsOf d (id r)) !! n = Some q ∧ length (requests (controlsOf d (id r))) = S n
    ∧ MadeBetween (d :: h) (id r) n q d0 d0' ∧ Unchanged (id r) d0 d;
  pm_approval : ∃ a, approval q = Some a ∧ ap_operator a ≠ rq_operator q ∧ requestedAt q ≤ ap_at a ≤ at_;
  pm_over : createdAt r ≤ at_ ∧ retentionUntil r ≤ at_ ∧ ∀ e, e ∈ extensions (controlsOf d (id r)) → ex_until e ≤ at_;
  pm_holds : ∀ o, o ∈ holds (controlsOf d (id r)) → release o ≠ None;
  pm_state : state r ≠ pending ∧ state r ≠ review;
  pm_jobs : ∀ j, j ∈ dvalues (revocations d) → Job.recordId j = id r → Job.state j = Job.j_confirmed;
  pm_blocked : state r = blocked → ∃ j, j ∈ dvalues (revocations d) ∧ Job.recordId j = id r }.

Lemma Authorised_Permitted d h op r q : History (d :: h) → NoCollision (d :: h) → dget (id r) (records d) = Some r → ErasedBy d op r q → ∃ at_, Permitted d h op r q at_.
Proof.
  intros HH HN Hr (at_ & [H1 (a & Ha & Hat) H3 H4 H5 H6 H7 H8] & Hop). exists at_. pose proof (Reach_WF _ (History_Reach _ _ HH)) as HW.
  unfold currentRequest in H1. destruct (dget (id r) (retention d)) as [c|] eqn:Hc; [|done]. cbn in H1.
  assert (controlsOf d (id r) = c) as Ec by (unfold controlsOf; by rewrite Hc).
  assert (holdsOf d (id r) = holds c) as Eh by (unfold holdsOf; by rewrite Hc).
  pose proof H1 as [l El]%last_Some.
  assert (q ∈ requests c) as Hq by (rewrite El; apply elem_of_app; right; by apply list_elem_of_singleton).
  destruct (wf_requests _ HW _ _ _ Hc Hq) as [Hok _]. destruct (Hok a Ha) as [Hne _].
  assert (requests (controlsOf d (id r)) !! length l = Some q) as Hlast by (rewrite Ec, El; by apply list_lookup_middle).
  destruct (History_request d h (id r) (length l) q HH Hlast) as (d0 & d0' & r0 & Hm & Hr0 & Hf).
  split; rewrite ?Ec, <- ?Eh; try done.
  - exists (length l), d0, d0'. rewrite Ec in Hlast. split_and!; [done|rewrite El, length_app; cbn; lia|done|].
    destruct (mb_history _ _ _ _ _ _ Hm) as (h1 & h2 & Hh).
    assert (d0 ∈ d :: h) as Hin by (rewrite Hh; apply elem_of_app; right; right; left).
    eapply (view_unchanged _ _ r0 r); [done|done| |done|].
    + assert (Reach d0) as HR0; [|by eapply (wf_keys _ (Reach_WF _ HR0))]. clear -HH Hh. revert h1 h2 Hh. remember (d :: h) as l0 eqn:E0. revert d h E0.
      induction HH as [|op e e' hh H IH Hcm]; intros d h [= <- <-] [|x h1] h2 [= E1 E2].
      * by destruct h1.
      * rewrite <- E2. by eapply History_Reach.
      * by eapply IH.
    + apply HN; [by eapply views_elem|eapply views_elem; [left|done]|]. rewrite Hf in H3. exact H3.
  - by exists a.
  - unfold retentionDeadline in H4. rewrite Hc in H4. cbn in H4. split_and!; [lia|lia|]. intros e He.
    destruct (wf_extensions _ HW _ _ _ Hc He) as (m & Hm' & Hle). rewrite Hm' in H4. cbn in H4. lia.
  - intros o Ho Hrel. specialize (H5 o Ho). unfold openHold in H5. by rewrite Hrel in H5.
  - intros j Hj Hji. assert (j ∈ jobsOf d (id r)) as Hin by by apply elem_jobsOf. specialize (H7 j Hin). unfold isConfirmed in H7. by apply bool_decide_eq_true in H7.
  - intros Hb. destruct (H8 Hb) as (j & [Hj1 Hj2]%elem_jobsOf). by exists j.
Qed.

(** C35. For every history of changes of an empty vault over whose cases the
    deletion digest does not collide, and every next change that succeeds: each record
    is still there, the same case with its policy, times and reviews only extended, or
    it was removed by an erase or a purge of its last request. That request was made by
    a change of the history, at which the record, its retention extensions, its holds
    and its revocation jobs were what they are now; it was approved by another operator,
    after it was made and before the deletion; the record's retention and every recorded
    extension of it are over, no hold is open, no issuance or review is pending, every
    revocation job is confirmed and a blocked record has one. The removal leaves a
    tombstone naming the request, tombstones are never dropped, and no record with a
    tombstone exists. *)
Theorem vault_deletion_authorised (d : VaultData) (h : list VaultData) (op : VaultOp) (d' : VaultData) :
  History (d :: h) → NoCollision (d :: h) → commit op d = Some d' →
  (∀ i r, dget i (records d) = Some r →
     (∃ r', dget i (records d') = Some r' ∧ Keeps r r') ∨
     dget i (records d') = None ∧ id r = i ∧ ∃ q at_ e, Permitted d h op r q at_
       ∧ e ∈ erasures d' ∧ er_recordId e = i ∧ er_requestId e = Some (rq_id q)) ∧
  (∃ l, erasures d' = erasures d ++ l) ∧
  (∀ e, e ∈ erasures d' → dget (er_recordId e) (records d') = None).
Proof.
  intros HH HN Hc. pose proof (History_Reach _ _ HH) as HR. pose proof (Reach_WF _ HR) as HW.
  assert (WF d') as HW' by (apply Reach_WF; by eapply Reach_commit).
  destruct (vault_commit_cases _ _ _ HW Hc) as (d1 & -> & [[_ H]|[_ H]]); cbn; (split; [|split; [|apply HW']]).
  - intros i r Hr. left. by eapply Edits_record.
  - exists []. rewrite app_nil_r. by eapply Edits_erasures.
  - intros i r Hr. destruct (dl_records _ _ _ H i) as [E|(E & r0 & q & e & Hr0 & HE & He & Hi & Hq)]; [left; exists r; split; [congruence|reflexivity]|right].
    replace r0 with r in HE by congruence. pose proof (wf_keys _ HW _ _ Hr) as Hid. split; [done|]. split; [done|].
    destruct (Authorised_Permitted d h op r q HH HN) as (at_ & HP); [by rewrite Hid|done|]. by exists q, at_, e.
  - destruct (dl_erasures _ _ _ H) as (l & E & _). by exists l.
Qed.

(** For every content reached by changes of an empty vault and every next
    change that succeeds: jobs are stored under their ids with the fields of their
    state, a record has at most one open job, no job disappears or changes its record,
    wallet or target, a confirmed one stays confirmed and a signed transaction keeps its
    hash unless a mined revert is reported, observations are only appended; and a record
    becomes blocked only with a job in the outbox. *)
Theorem vault_revocations_invariant (d : VaultData) (op : VaultOp) (d' : VaultData) : Reach d → commit op d = Some d' →
  (∀ i j, dget i (revocations d') = Some j → Job.id j = i ∧ JobShape j) ∧
  (∀ i j1 j2, j1 ∈ jobsOf d' i → j2 ∈ jobsOf d' i → openJob j1 = true → openJob j2 = true → j1 = j2) ∧
  (∀ i j, dget i (revocations d) = Some j → ∃ j', dget i (revocations d') = Some j' ∧ JobKeeps (reverts op) j j') ∧
  (∀ i r', dget i (records d') = Some r' → state r' = blocked →
     hasJob d' i = true ∨ (∃ r, dget i (records d) = Some r ∧ state r = blocked) ∨ dget i (records d) = None).
Proof.
  intros HR Hc. pose proof (Reach_WF _ HR) as HW. assert (WF d') as HW' by (apply Reach_WF; by eapply Reach_commit).
  split; [apply HW'|]. split; [apply HW'|]. destruct (vault_commit_cases _ _ _ HW Hc) as (d1 & -> & [[_ H]|[_ H]]); cbn; split.
  - intros i j Hj. by eapply Edits_job.
  - intros i r' Hr Hb. exact (Edits_blocked _ _ _ _ HR H HW i r' Hr Hb).
  - intros i j Hj. exists j. rewrite (dl_revocations _ _ _ H). split; [done|reflexivity].
  - intros i r' Hr Hb. right. left. destruct (dl_records _ _ _ H i) as [E|[E _]]; [|congruence]. exists r'. split; [congruence|done].
Qed.

(** ** A case the policy calls not issued *)

Definition notIssued (r : VaultRecord) : Prop :=
  (∃ p, retentionPolicy r = Some p ∧ Retention.e_credentialDisposition p = "not-issued") ∧ state r ≠ rejected.
Definition unrequested (d : VaultData) (i : string) : Prop := from_option requests [] (dget i (retention d)) = [].

Lemma notIssued_unmade d i r q : dget i (records d) = Some r → notIssued r → ¬ MadeIn d i q.
Proof. intros Hr [(p & Hp & Ed) Hs] (r0 & Hr0 & _ & _ & _ & H1 & H2). simplify_eq. apply Hs, H2. by rewrite (H1 _ Hp). Qed.

(** A record whose retention policy calls its credential not issued, in any
    state but rejected, and without a deletion request, is never erased: after any
    sequence of changes it is there, with the same policy and deadline. No change moves
    a record into that state. *)
Theorem not_issued_never_erased (d d' : VaultData) (i : string) (r : VaultRecord) : Reach d → dget i (records d) = Some r → notIssued r → unrequested d i →
  rtc (λ d d', ∃ op, commit op d = Some d') d d' →
  ∃ r', dget i (records d') = Some r' ∧ retentionPolicy r' = retentionPolicy r ∧ retentionUntil r' = retentionUntil r.
Proof.
  intros HR Hr Hn Hu H. cut (∃ r', dget i (records d') = Some r' ∧ Keeps r r'); [intros (r' & H1 & [_ (_ & _ & H2 & _ & H3) _ _ _]); by exists r'|].
  revert r HR Hr Hn Hu. induction H as [d|d d1 d2 [op Hc] _ IH]; intros r HR Hr Hn Hu; [by exists r|].
  assert (∃ r1, dget i (records d1) = Some r1 ∧ Keeps r r1 ∧ unrequested d1 i) as (r1 & Hr1 & Hk & Hu1).
  { destruct (vault_commit_cases _ _ _ (Reach_WF _ HR) Hc) as (dx & -> & [[_ H]|[_ H]]); cbn.
    - destruct (Edits_record _ _ _ _ _ _ H Hr) as (r1 & Hr1 & Hk). exists r1. split_and!; [done|done|].
      refine (Edits_requests _ _ _ _ _ H Hu _). intros q. by eapply notIssued_unmade.
    - destruct (dl_records _ _ _ H i) as [E|(_ & r0 & q & e & Hr0 & (at_ & HA & _) & _)].
      + exists r. split_and!; [congruence|reflexivity|]. unfold unrequested. cbn [retention set_revision]. by rewrite (dl_retention _ _ _ H).
      + pose proof (au_request _ _ _ _ HA) as Hcr. unfold currentRequest in Hcr. rewrite (wf_keys _ (Reach_WF _ HR) _ _ Hr0) in Hcr. unfold unrequested in Hu.
        destruct (dget i (retention d)) as [c|]; [|done]. cbn in *. by rewrite Hu in Hcr. }
  destruct (IH r1) as (r2 & Hr2 & Hk2); [by eapply Reach_commit|done| |done|exists r2; split; [done|by etransitivity]].
  destruct Hn as [(p & Hp & Ep) Hs]. split; [exists p; destruct (kp_case _ _ Hk) as (_ & _ & E & _); split; [congruence|done]|]. intros E. by apply Hs, (kp_rejected _ _ Hk).
Qed.
End ops.
End VaultOps.

(** * Concrete vaults *)

Module VaultExample.
Import VaultData VaultOps.

(** A digest that tells cases with different holds, extensions or jobs apart. *)
Definition exSha (prefix : string) (v : View) : string :=
  match v with
  | VDeletion r m e h j => prefix +:+ id r +:+ String.concat "/" (map ex_reference e) +:+ " " +:+ String.concat "/" (map hd_id h) +:+ " " +:+ String.concat "/" (map Job.id j)
  | _ => prefix
  end.
Definition exHmac (key prefix : string) (v : View) : string := prefix.
Definition exLocale (a b : string) : bool := true.
Definition exAddress (a : string) : bool := true.
Abbreviation exRun := (runOp (Text:=View) (λ v, v) exSha exHmac exLocale exAddress).
Abbreviation exCommit := (commit (Text:=View) (λ v, v) exSha exHmac exLocale exAddress).
Abbreviation ExReach := (Reach (Text:=View) (λ v, v) exSha exHmac exLocale exAddress).

Definition exSubject : Issue.ScreeningSubject := Issue.mkSubject "HONG GILDONG" None "1990-01-01" "KR" "KR" "0x01".
Definition exRecord (st : VaultState) (p : option Retention.RetentionPolicyEvidenceV1) : VaultRecord :=
  mkRecord "r1" "0x01" "v1" None p exSubject "0xab" JNull None None None st 10 100 None [] [] None.
Definition exNext (op : VaultOp) (d : VaultData) : VaultData := match exCommit op d with Some d' => d' | None => d end.

(** A request that a longer retention makes stale, a new one, its approval by another operator, and the deletion. *)
Definition exInput : DeletionInput := mkDeletion "op:a" "policy:1" "service:1" "unchanged" false.
Definition d1 : VaultData := Eval vm_compute in exNext (OPut (exRecord active None)) emptyData.
Definition d2 : VaultData := Eval vm_compute in exNext (ORequest "r1" exInput 20 "q1") d1.
Definition d3 : VaultData := Eval vm_compute in exNext (OExtend "r1" 120 "op:a" "case:1" 21) d2.
Definition d4 : VaultData := Eval vm_compute in exNext (ORequest "r1" exInput 22 "q2") d3.
Definition d5 : VaultData := Eval vm_compute in exNext (OApprove "r1" "q2" "op:b" 23) d4.
Definition d6 : VaultData := Eval vm_compute in exNext (OErase "r1" "q2" 150) d5.
Lemma d1_reach : ExReach d1.
Proof. by apply (Reach_commit _ _ _ _ _ (OPut (exRecord active None)) emptyData); [apply Reach_empty|vm_compute]. Qed.
Definition exHistory : list VaultData := [d4; d3; d2; d1; emptyData].
Lemma exHistory_ok : History (Text:=View) (λ v, v) exSha exHmac exLocale exAddress (d5 :: exHistory).
Proof.
  apply (History_commit _ _ _ _ _ (OApprove "r1" "q2" "op:b" 23)); [|by vm_compute]. apply (History_commit _ _ _ _ _ (ORequest "r1" exInput 22 "q2")); [|by vm_compute].
  apply (History_commit _ _ _ _ _ (OExtend "r1" 120 "op:a" "case:1" 21)); [|by vm_compute]. apply (History_commit _ _ _ _ _ (ORequest "r1" exInput 20 "q1")); [|by vm_compute].
  apply (History_commit _ _ _ _ _ (OPut (exRecord active None))); [apply History_start|by vm_compute].
Qed.
Definition exViews : list View := Eval vm_compute in views exLocale (d5 :: exHistory).
Lemma exNoCollision : NoCollision (Text:=View) (λ v, v) exSha exLocale (d5 :: exHistory).
Proof.
  intros v w. change (views exLocale (d5 :: exHistory)) with exViews. unfold exViews. intros Hv Hw.
  in_cases Hv; in_cases Hw; vm_compute; intros E; try reflexivity; discriminate E.
Qed.
Lemma d6_commit : exCommit (OErase "r1" "q2" 150) d5 = Some d6.
Proof. by vm_compute. Qed.
(** The first request cannot be approved after the retention was extended, nor the case deleted before it is over. *)
Example exStale : exCommit (OApprove "r1" "q1" "op:b" 23) d3 = None ∧ exCommit (OErase "r1" "q2" 110) d5 = None.
Proof. by vm_compute. Qed.

Lemma vault_deletion_authorised_witness : records d6 = [] ∧ ∃ q at_, Permitted d5 exHistory (OErase "r1" "q2" 150) (exRecord active None) q at_.
Proof.
  split; [reflexivity|].
  destruct (proj1 (vault_deletion_authorised (λ v, v) exSha exHmac exLocale exAddress d5 exHistory (OErase "r1" "q2" 150) d6 exHistory_ok exNoCollision d6_commit)
    "r1" (exRecord active None) eq_refl) as [(r' & [=] & _)|(_ & _ & q & at_ & e & HP & _)]. by exists q, at_.
Defined.

(** A block found by re-screening queues a revocation. *)
Definition exBlock : VaultOp := ORescreen "r1" (mkRescreen 30 Issue.BLOCK None []) (exRecord active None).
Definition b2 : VaultData := Eval vm_compute in exNext exBlock d1.
Lemma b2_commit : exCommit exBlock d1 = Some b2.
Proof. by vm_compute. Qed.
Lemma vault_revocations_invariant_witness : length (revocations b2) = 1%nat ∧ (∀ i j, dget i (revocations b2) = Some j → Job.id j = i ∧ JobShape j).
Proof.
  split; [reflexivity|].
  exact (proj1 (vault_revocations_invariant (λ v, v) exSha exHmac exLocale exAddress d1 exBlock b2 d1_reach b2_commit)).
Defined.

(** A refused application under a policy whose disposition is [not-issued]. *)
Definition exEvidence : Retention.RetentionPolicyEvidenceV1 :=
  Retention.mkEvidence "policy:1" "demo" "KR" "ab" "denied" "terminal" 10 100 "not-issued" None None "clock:1" "hold:1".
Definition n1 : VaultData := Eval vm_compute in exNext (OPut (exRecord blocked (Some exEvidence))) emptyData.
Definition n2 : VaultData := Eval vm_compute in exNext (OHold "r1" "h1" "op:a" "case:1" 40) n1.
Lemma n1_reach : ExReach n1.
Proof. by apply (Reach_commit _ _ _ _ _ (OPut (exRecord blocked (Some exEvidence))) emptyData); [apply Reach_empty|vm_compute]. Qed.
Lemma n_steps : rtc (λ d d', ∃ op, exCommit op d = Some d') n1 n2.
Proof. apply rtc_once. exists (OHold "r1" "h1" "op:a" "case:1" 40). by vm_compute. Qed.
Lemma n1_case : notIssued (exRecord blocked (Some exEvidence)).
Proof. split; [by exists exEvidence|done]. Qed.
Lemma not_issued_never_erased_witness : is_Some (dget "r1" (retention n2)) ∧
  ∃ r', dget "r1" (records n2) = Some r' ∧ retentionPolicy r' = Some exEvidence ∧ retentionUntil r' = 100.
Proof.
  split; [by eexists|].
  exact (not_issued_never_erased (λ v, v) exSha exHmac exLocale exAddress n1 n2 "r1" (exRecord blocked (Some exEvidence)) n1_reach eq_refl n1_case eq_refl n_steps).
Defined.
End VaultExample.
