(* ===== verification/VaultFile.v ===== *)
(** The evidence vault's file: the write that replaces it ([src/pipeline/vault-atomic.ts], Module Fs),
    and the object of [src/pipeline/vault.ts] over it (Module Vault) - loading and decryption, the writer
    lock, a change under the lock with the faults of every file operation, backup, restore and the
    rotation of the key.  The process may die before any file operation; an operation that fails
    has no effect, except that a write may leave a part of its text; a test whether a file exists then
    answers false, and which tests fail is a parameter.  AES-GCM, digests, base64url and
    the JSON texts are parameters. *)

From Stdlib Require Import ZArith Lia Ascii String.
From stdpp Require Import base decidable option list strings relations.
From S2P Require Import Prelude JS Json Store Evm Issue Revocation Retention Vault.
Local Open Scope string_scope.
Local Open Scope list_scope.
Local Open Scope Z_scope.
Local Open Scope js_scope.
Set Default Proof Using "Type".

(** * Files, handles and the faults to come *)

Module Fs.
Section fs.
(** The texts that are written. *)
Context {Raw : Type}.

(** A file that holds a whole text, or nothing or a part of one. *)
Inductive Content := Full (r : Raw) | Partial.
Inductive Handle := HFile (path : string) | HDirectory (path : string).   (* of a file; of the directory a file is in *)
#[export] Instance Handle_eq_dec : EqDecision Handle.
Proof. solve_decision. Defined.
(** What happens at the next file operation; operations beyond the schedule succeed. *)
Inductive Io := io_ok | io_fail | io_die.
Definition Files := list (string * Content).
Record Fs := mkFs { files : Files; handles : list Handle; schedule : list Io }.

Definition set_files f (s : Fs) := mkFs f (handles s) (schedule s).
Definition set_handles h (s : Fs) := mkFs (files s) h (schedule s).
Definition set_schedule l (s : Fs) := mkFs (files s) (handles s) l.

(** Which tests for a file, in a state of the files, come to an answer. *)
Class Tests := noticed : string → Fs → bool.
(** All do. *)
Class Exact `{!Tests} : Prop := exact path s : noticed path s = true.
Context `{HT : !Tests}.

Definition IoError : exn := EClass "Error" "file system".
Definition EEXIST : exn := EClass "Error" "EEXIST".
(** The end of the process: no handler and no [finally] runs. *)
Definition Death : exn := EClass "process" "died".
Definition VaultWriteError : exn := EClass "VaultWriteError" "VAULT_WRITE_UNCONFIRMED".
Definition died {A} (o : outcome A) : bool := match o with Throw e => bool_decide (e = Death) | Ok _ => false end.

Section handlers.
Context {S : Type}.
(** [try { m } catch (e) { h }]. *)
Definition catch_ {A} (m : M S A) (h : exn → M S A) : M S A := tryCatch m (λ e, if bool_decide (e = Death) then throw e else h e).
(** [try { m } catch {}]. *)
Definition quiet (m : M S unit) : M S unit := catch_ m (λ _, ret tt).
(** [try { m } finally { f }], where [f] may look at how [m] ended. *)
Definition finally_ {A} (m : M S A) (f : outcome A → M S unit) : M S A := λ s,
  let '(o, s1) := m s in
  if died o then (o, s1)
  else match f o s1 with (Ok _, s2) => (o, s2) | (Throw e, s2) => (Throw e, s2) end.

Lemma wp_catch {A} (m : M S A) h Q s :
  wp m (λ o s', match o with Ok a => Q (Ok a) s' | Throw e => (e = Death → Q (Throw Death) s') ∧ (e ≠ Death → wp (h e) Q s') end) s →
  wp (catch_ m h) Q s.
Proof.
  intros H. apply wp_tryCatch. eapply wp_mono; [exact H|]. intros [a|e] s' Hq; [done|]. destruct Hq as [H1 H2].
  destruct (bool_decide_reflect (e = Death)) as [->|Hne]; [by apply wp_throw, H1|by apply H2].
Qed.

Lemma wp_finally {A} (m : M S A) f Q s :
  wp m (λ o s', (o = Throw Death → Q o s') ∧ (o ≠ Throw Death → wp (f o) (λ r s'', match r with Ok _ => Q o s'' | Throw e => Q (Throw e) s'' end) s')) s →
  wp (finally_ m f) Q s.
Proof.
  unfold wp at 1 2 3. unfold finally_. destruct (m s) as [o s'] eqn:E; cbn. intros [H1 H2]. destruct (died o) eqn:Hd.
  - apply H1. destruct o as [|e]; [done|]. by apply bool_decide_eq_true in Hd as ->.
  - unfold wp in H2. destruct (f o s') as [[?|e] s''] eqn:Ef; cbn in *; apply H2; intros ->; unfold died in Hd; by rewrite bool_decide_eq_true_2 in Hd.
Qed.
End handlers.

(** ** File operations *)

(** [broken]: what a failure, or a death in the operation, leaves. *)
Definition prim {A} (act : M Fs A) (broken : Fs → Fs) : M Fs A := λ s,
  let s' := set_schedule (tail (schedule s)) s in
  match schedule s with
  | io_fail :: _ => (Throw IoError, broken s')
  | io_die :: _ => (Throw Death, broken s')
  | _ => act s'
  end.
Definition intact : Fs → Fs := λ s, s.

(** [openSync(path, 'wx')]. *)
Definition openExclusive (path : string) : M Fs unit :=
  prim (let! s := getS in
        require (negb (dhas path (files s))) EEXIST ;;;
        putS (mkFs (dset path Partial (files s)) (handles s ++ [HFile path]) (schedule s))) intact.
(** [writeFileSync(file, text)] through the handle of [path]. *)
Definition writeFile (path : string) (text : Raw) : M Fs unit :=
  prim (modify (λ s, set_files (dset path (Full text) (files s)) s)) (λ s, set_files (dset path Partial (files s)) s).
Definition fsync : M Fs unit := prim (ret tt) intact.
Definition mkdir : M Fs unit := prim (ret tt) intact.
Definition openDirectory (path : string) : M Fs unit := prim (modify (λ s, set_handles (handles s ++ [HDirectory path]) s)) intact.
Definition close_ (h : Handle) : M Fs unit := prim (modify (λ s, set_handles (filter (λ x, x ≠ h) (handles s)) s)) intact.
Definition rename (from to : string) : M Fs unit :=
  prim (let! s := getS in
        match dget from (files s) with
        | Some c => putS (set_files (dset to c (ddel from (files s))) s)
        | None => throw IoError
        end) intact.
(** [linkSync]: refused when the new name exists. *)
Definition link (from to : string) : M Fs unit :=
  prim (let! s := getS in
        match dget from (files s) with
        | Some c => require (negb (dhas to (files s))) EEXIST ;;; putS (set_files (dset to c (files s)) s)
        | None => throw IoError
        end) intact.
Definition unlink (path : string) : M Fs unit :=
  prim (let! s := getS in require (dhas path (files s)) IoError ;;; putS (set_files (ddel path (files s)) s)) intact.
(** [existsSync]: a test that fails answers false, as if the file were not there.  [noticed] says which tests do
    not fail. *)
Definition exists_ (path : string) : M Fs bool := gets (λ s, dhas path (files s) && noticed path s).
Definition readFile (path : string) : M Fs Content :=
  prim (let! s := getS in match dget path (files s) with Some c => ret c | None => throw IoError end) intact.

(** ** [writeVaultEnvelope] and [writeVaultEnvelopeExclusive] *)

Definition tmpName (path random : string) : string := path +:+ "." +:+ random +:+ ".tmp".
Definition closeIfOpen (h : Handle) : M Fs unit := let! s := getS in when (bool_decide (h ∈ handles s)) (quiet (close_ h)).
Definition cleanUp (tmp path : string) : M Fs unit :=
  closeIfOpen (HFile tmp) ;;; closeIfOpen (HDirectory path) ;;;
  quiet (let! e := exists_ tmp in when e (unlink tmp)).
Definition writeTemporary (tmp : string) (envelope : Raw) : M Fs unit :=
  openExclusive tmp ;;; writeFile tmp envelope ;;; fsync ;;; close_ (HFile tmp).
Definition syncDirectory (path : string) : M Fs unit := openDirectory path ;;; fsync ;;; close_ (HDirectory path).

(** A file is replaced through a temporary one; the class of the error is the caller's. *)
Definition replaceFile (failure : exn) (path random : string) (text : Raw) : M Fs unit :=
  let tmp := tmpName path random in
  finally_ (catch_ ((writeTemporary tmp text ;;; rename tmp path) ;;; syncDirectory path) (λ _, throw failure))
    (λ _, cleanUp tmp path).
Definition writeVaultEnvelope (path random : string) (envelope : Raw) : M Fs unit := replaceFile VaultWriteError path random envelope.
Definition writeVaultEnvelopeExclusive (path random : string) (envelope : Raw) : M Fs unit :=
  let tmp := tmpName path random in
  finally_ (catch_ (((writeTemporary tmp envelope ;;; link tmp path) ;;; unlink tmp) ;;; syncDirectory path) (λ _, throw VaultWriteError))
    (λ _, cleanUp tmp path).

(** ** What the operations do to the files *)

Definition at_ (s : Fs) (p : string) : option Content := dget p (files s).

(** An operation succeeds with [good], or throws an error that is not a death, or dies, with the
    files of [bad] in both cases. *)
Lemma wp_prim {A} (act : M Fs A) broken Q s :
  (∀ s', files s' = files s → handles s' = handles s → wp act Q s') →
  (∀ s', files s' = files s → handles s' = handles s → Q (Throw IoError) (broken s') ∧ Q (Throw Death) (broken s')) →
  wp (prim act broken) Q s.
Proof.
  intros H1 H2. unfold wp, prim. destruct (schedule s) as [|[] l]; cbn.
  - by apply H1. - by apply H1. - by apply (H2 (set_schedule l s)). - by apply (H2 (set_schedule l s)).
Qed.

(** The other files are as before. *)
Definition Same (tmp : string) (s s' : Fs) : Prop := ∀ p, p ≠ tmp → at_ s' p = at_ s p.
#[export] Instance Same_preorder tmp : PreOrder (Same tmp).
Proof. split; [by intros s p|]. intros s1 s2 s3 H1 H2 p Hp. rewrite H2, H1; done. Qed.
Lemma Same_files tmp s s' : files s' = files s → Same tmp s s'.
Proof. intros E p _. unfold at_. by rewrite E. Qed.
Lemma Same_dset tmp c s s' : files s' = dset tmp c (files s) → Same tmp s s'.
Proof. intros E p Hp. unfold at_. by rewrite E, dget_dset_ne. Qed.
Lemma Same_ddel tmp s s' : files s' = ddel tmp (files s) → Same tmp s s'.
Proof. intros E p Hp. unfold at_. by rewrite E, dget_ddel_ne by done. Qed.

(** An operation that concerns one file only. *)
Lemma wp_one {A} tmp (m : M Fs A) (P : A → Fs → Prop) s :
  wp m (λ o s', Same tmp s s' ∧ ∀ a, o = Ok a → P a s') s → ∀ Q,
  (∀ a s', Same tmp s s' → P a s' → Q (Ok a) s') → (∀ e s', Same tmp s s' → Q (Throw e) s') → wp m Q s.
Proof. intros H Q H1 H2. eapply wp_mono; [exact H|]. intros [a|e] s' [HS HP]; auto. Qed.

Ltac prim_go := apply wp_prim; [intros ?s Hf Hh|intros ?s Hf Hh; split].

Lemma openExclusive_spec p s : wp (openExclusive p) (λ o s', Same p s s' ∧ ∀ a, o = Ok a → at_ s p = None) s.
Proof.
  prim_go; [|split; [by apply Same_files|done]..]. wp_go.
  - split; [apply (Same_dset _ Partial); cbn; congruence|]. intros _ _. unfold at_. rewrite <- Hf. unfold dhas in *. by destruct (dget p (files _)).
  - split; [by apply Same_files|done].
Qed.
Lemma writeFile_spec p t s : wp (writeFile p t) (λ o s', Same p s s' ∧ ∀ a, o = Ok a → at_ s' p = Some (Full t)) s.
Proof.
  prim_go; [|split; [apply (Same_dset _ Partial); cbn; by rewrite Hf|done]..]. apply wp_modify. split; [apply (Same_dset _ (Full t)); cbn; congruence|].
  intros _ _. apply dget_dset_eq.
Qed.
Lemma unlink_spec p s : wp (unlink p) (λ o s', Same p s s' ∧ ∀ a, o = Ok a → at_ s' p = None) s.
Proof.
  prim_go; [|split; [by apply Same_files|done]..]. wp_go; [split; [apply Same_ddel; cbn; congruence|]|split; [by apply Same_files|done]].
  intros _ _. apply dget_ddel_eq.
Qed.
(** Operations on handles and directories change no file. *)
Lemma still_prim {A} (act : M Fs A) s : (∀ s', (act s').2 = s' ∨ files (act s').2 = files s') → wp (prim act intact) (λ _ s', files s' = files s) s.
Proof. intros H. prim_go; [|done..]. unfold wp. destruct (H s0) as [E|E]; rewrite E; done. Qed.
Lemma fsync_still s : wp fsync (λ _ s', files s' = files s) s.
Proof. apply still_prim. by left. Qed.
Lemma mkdir_still s : wp mkdir (λ _ s', files s' = files s) s.
Proof. apply still_prim. by left. Qed.
Lemma openDirectory_still p s : wp (openDirectory p) (λ _ s', files s' = files s) s.
Proof. apply still_prim. by right. Qed.
Lemma close_still h s : wp (close_ h) (λ _ s', files s' = files s) s.
Proof. apply still_prim. by right. Qed.
Lemma readFile_still p s : wp (readFile p) (λ o s', files s' = files s ∧ ∀ c, o = Ok c → at_ s p = Some c) s.
Proof.
  prim_go; [|done..]. wp_go; (split; [done|]); [|done]. intros c0 [= <-]. unfold at_. congruence.
Qed.

Lemma still_quiet m s : wp m (λ _ s', files s' = files s) s → wp (quiet m) (λ o s', (o = Ok tt ∨ o = Throw Death) ∧ files s' = files s) s.
Proof.
  intros H. apply wp_catch. eapply wp_mono; [exact H|]. intros [[]|e] s' Hs; [by split; [left|]|]. split; [intros ->; by split; [right|]|].
  intros _. apply wp_ret. by split; [left|].
Qed.
Lemma closeIfOpen_still h s : wp (closeIfOpen h) (λ o s', (o = Ok tt ∨ o = Throw Death) ∧ files s' = files s) s.
Proof. unfold closeIfOpen. wp_step. wp_step. wp_step; [|by split; [left|]]. apply still_quiet, close_still. Qed.

Lemma cleanUp_spec tmp path s : wp (cleanUp tmp path) (λ o s', (o = Ok tt ∨ o = Throw Death) ∧ Same tmp s s') s.
Proof.
  unfold cleanUp. apply wp_bind. eapply wp_mono; [apply closeIfOpen_still|]. intros o s1 [[E|E] H1]; rewrite E; clear E; [|by split; [right|apply Same_files]].
  apply wp_bind. eapply wp_mono; [apply closeIfOpen_still|]. intros o2 s2 [[E|E] H2]; rewrite E; clear E; [|split; [by right|apply Same_files; congruence]].
  assert (Same tmp s s2) as HS by (apply Same_files; congruence). apply wp_catch. apply wp_bind, wp_gets. apply wp_when; intros _; [|by split; [left|]].
  apply (wp_one tmp _ _ _ (unlink_spec tmp s2)).
  - intros [] s3 H3 _. split; [by left|by etransitivity].
  - intros e s3 H3. split; [intros ->; split; [by right|by etransitivity]|]. intros _. apply wp_ret. split; [by left|by etransitivity].
Qed.

Lemma writeTemporary_spec tmp t s : wp (writeTemporary tmp t) (λ o s', Same tmp s s' ∧ ∀ a, o = Ok a → at_ s' tmp = Some (Full t)) s.
Proof.
  unfold writeTemporary. apply wp_bind, (wp_one tmp _ _ _ (openExclusive_spec tmp s)); [|done]. intros [] s1 H1 _.
  apply wp_bind, (wp_one tmp _ _ _ (writeFile_spec tmp t s1)); [|intros e s2 H2; split; [by etransitivity|done]]. intros [] s2 H2 Ht.
  assert (Same tmp s s2) as HS by (by etransitivity). apply wp_bind. eapply wp_mono; [apply fsync_still|]. intros o s3 H3.
  assert (Same tmp s s3) as HS3 by (etransitivity; [exact HS|by apply Same_files]). destruct o; [|done].
  eapply wp_mono; [apply close_still|]. intros o s4 H4. split; [etransitivity; [exact HS3|by apply Same_files]|]. intros _ _. unfold at_ in *. congruence.
Qed.
Lemma syncDirectory_still p s : wp (syncDirectory p) (λ _ s', files s' = files s) s.
Proof.
  unfold syncDirectory. apply wp_bind. eapply wp_mono; [apply openDirectory_still|]. intros [?|] s1 H1; [|done].
  apply wp_bind. eapply wp_mono; [apply fsync_still|]. intros [?|] s2 H2; [|congruence]. eapply wp_mono; [apply close_still|]. intros o s3 H3. congruence.
Qed.

(** The new file is there or the old one, whole; only the temporary file may be left behind. *)
Record Replaced (failure : exn) (exclusive : bool) (path tmp : string) (t : Raw) (s : Fs) (o : outcome unit) (s' : Fs) : Prop := {
  rp_frame : ∀ p, p ≠ tmp → p ≠ path → at_ s' p = at_ s p;
  rp_file : at_ s' path = at_ s path ∨ at_ s' path = Some (Full t) ∧ (exclusive = true → at_ s path = None);
  rp_done : o = Ok tt → at_ s' path = Some (Full t) ∧ (exclusive = true → at_ s path = None);
  rp_error : o = Ok tt ∨ o = Throw failure ∨ o = Throw Death }.

Lemma tmpName_ne path random : tmpName path random ≠ path.
Proof.
  intros H. apply (f_equal String.length) in H. unfold tmpName in H. rewrite !length_app_str in H. cbn in H. lia.
Qed.

Lemma Replaced_same e x path tmp t s o s1 s2 : tmp ≠ path → Replaced e x path tmp t s o s1 → Same tmp s1 s2 →
  Replaced e x path tmp t s o s2 ∧ Replaced e x path tmp t s (Throw Death) s2.
Proof.
  intros Hne [H1 H2 H3 H4] HS. assert (at_ s2 path = at_ s1 path) as Ep by by apply HS.
  split; split; rewrite ?Ep; try done; [intros p Hp ?; by rewrite HS, H1|intros p Hp ?; by rewrite HS, H1|right; by right].
Qed.

(** A body that puts the file in its place, followed by the directory's flush and the cleaning up. *)
Lemma replace_shape (failure : exn) (x : bool) path random t (m : M Fs unit) s : let tmp := tmpName path random in
  wp m (λ o s', (∀ p, p ≠ tmp → p ≠ path → at_ s' p = at_ s p) ∧ (at_ s' path = at_ s path ∨ at_ s' path = Some (Full t) ∧ (x = true → at_ s path = None))
    ∧ (o = Ok tt → at_ s' path = Some (Full t) ∧ (x = true → at_ s path = None))) s →
  wp (finally_ (catch_ (m ;;; syncDirectory path) (λ _, throw failure)) (λ _, cleanUp tmp path)) (Replaced failure x path tmp t s) s.
Proof.
  intros tmp Hm. assert (tmp ≠ path) as Hne by apply tmpName_ne. apply wp_finally. apply wp_catch, wp_bind. eapply wp_mono; [exact Hm|].
  assert (∀ o s', Replaced failure x path tmp t s o s' → (o = Throw Death → Replaced failure x path tmp t s o s') ∧ (o ≠ Throw Death →
    wp (cleanUp tmp path) (λ r s'', match r with Ok _ => Replaced failure x path tmp t s o s'' | Throw e => Replaced failure x path tmp t s (Throw e) s'' end) s')) as Hclean.
  { intros o s' HR. split; [done|]. intros _. eapply wp_mono; [apply cleanUp_spec|]. intros r s'' [Hr HS].
    destruct (Replaced_same _ _ _ _ _ _ _ _ _ Hne HR HS). destruct Hr as [E|E]; by rewrite E. }
  assert (∀ s', (∀ p, p ≠ tmp → p ≠ path → at_ s' p = at_ s p) → (at_ s' path = at_ s path ∨ at_ s' path = Some (Full t) ∧ (x = true → at_ s path = None)) →
    ∀ e, e = Death ∨ e = failure → Replaced failure x path tmp t s (Throw e) s') as Herr.
  { intros s' H1 H2 e He. split; try done. right. destruct He as [E|E]; rewrite E; auto. }
  intros [[]|e] s1 (H1 & H2 & H3).
  - destruct H3 as [H3 H4]; [done|]. eapply wp_mono; [apply syncDirectory_still|]. intros o s2 Hf.
    assert (∀ p, at_ s2 p = at_ s1 p) as E by (intros p; unfold at_; by rewrite Hf). destruct o as [[]|e].
    + apply Hclean. split; try done; [intros p ? ?; rewrite E; auto|rewrite E; by right|by rewrite E|by left].
    + split; intros He; [|apply wp_throw]; apply Hclean, Herr; try (intros p ? ?; rewrite E; auto); try (rewrite E; by auto); auto.
  - split; intros He; [|apply wp_throw]; apply Hclean, Herr; auto.
Qed.

(** A file that is there takes the other's place, or nothing changes. *)
Lemma rename_spec from to c s : from ≠ to → at_ s from = Some c → wp (rename from to) (λ o s', match o with
  | Ok _ => at_ s' to = Some c ∧ ∀ p, p ≠ from → p ≠ to → at_ s' p = at_ s p
  | Throw _ => files s' = files s end) s.
Proof.
  intros Hne Hc. prim_go; [|done..]. unfold at_ in *. wp_go; rewrite ?Hf in *; [|done]. cbn. rewrite dget_dset_eq. split; [congruence|].
  intros p H1 H2. by rewrite dget_dset_ne, dget_ddel_ne by done.
Qed.

Lemma replaceFile_spec failure path random t s : wp (replaceFile failure path random t) (Replaced failure false path (tmpName path random) t s) s.
Proof.
  assert (tmpName path random ≠ path) as Hne by apply tmpName_ne. apply replace_shape. set (tmp := tmpName path random) in *.
  apply wp_bind. apply (wp_one tmp _ _ _ (writeTemporary_spec tmp t s)); [|intros e s1 H1; split_and!; [auto|left; auto|done]].
  intros [] s1 H1 Ht. eapply wp_mono; [by apply (rename_spec _ _ (Full t))|]. intros [[]|e] s2.
  - intros [Hp Hf]. split_and!; [|by right|done]. intros p ? ?. rewrite Hf by done. by apply H1.
  - intros Hf. assert (Same tmp s s2) as HS by (etransitivity; [exact H1|by apply Same_files]). split_and!; [auto|left; by apply HS|done].
Qed.

Lemma writeVaultEnvelope_spec path random t s : wp (writeVaultEnvelope path random t) (Replaced VaultWriteError false path (tmpName path random) t s) s.
Proof. apply replaceFile_spec. Qed.

Lemma writeVaultEnvelopeExclusive_spec path random t s :
  wp (writeVaultEnvelopeExclusive path random t) (Replaced VaultWriteError true path (tmpName path random) t s) s.
Proof.
  assert (tmpName path random ≠ path) as Hne by apply tmpName_ne. apply replace_shape. set (tmp := tmpName path random) in *.
  apply wp_bind, wp_bind. apply (wp_one tmp _ _ _ (writeTemporary_spec tmp t s)); [|intros e s1 H1; split_and!; [auto|left; auto|done]].
  intros [] s1 H1 Ht. assert (∀ s0, files s0 = files s1 → Same tmp s s0) as HS0 by (intros s0 E; etransitivity; [exact H1|by apply Same_files]).
  assert (∀ s0, files s0 = files s1 → at_ s0 path = at_ s path) as HP by (intros s0 E; by apply HS0).
  prim_go; [|split_and!; [intros p Hp _; by apply HS0|left; by apply HP|done]..]. wp_go.
  - unfold at_ in Ht. rewrite Hf in *. assert (at_ s path = None) as Hn.
    { rewrite <- (H1 path) by done. unfold at_, dhas in *. by destruct (dget path (files s1)). }
    set (s2 := set_files _ _). assert (at_ s2 path = Some (Full t)) as E2 by (unfold at_; cbn; rewrite dget_dset_eq; congruence).
    apply (wp_one tmp _ _ _ (unlink_spec tmp s2)).
    + intros [] s3 H3 _. assert (at_ s3 path = Some (Full t)) as E3 by (by rewrite H3). split_and!; [|right; done|done].
      intros p Hp Hpp. rewrite H3 by done. unfold at_. cbn. rewrite dget_dset_ne by done. by apply H1.
    + intros e s3 H3. split_and!; [|right; by rewrite H3|done]. intros p Hp Hpp. rewrite H3 by done. unfold at_. cbn. rewrite dget_dset_ne by done. by apply H1.
  - split_and!; [intros p Hp _; by apply HS0|left; by apply HP|done].
  - split_and!; [intros p Hp _; by apply HS0|left; by apply HP|done].
Qed.
End fs.
End Fs.

(** * The vault over its file *)

Module Vault.
Import VaultData VaultOps Fs.

Record BackupManifest := mkManifest {
  bk_version : Z; backupId : string; bk_createdAt : Z; bk_revision : Z; bk_stateCommitment : string; ciphertextHash : string; bk_keyId : string;
  deleteBy : option (option Z) }.   (* absent, null or a moment *)
#[export] Instance BackupManifest_eq_dec : EqDecision BackupManifest.
Proof. solve_decision. Defined.

Record VaultCommitmentObservation := mkCommitment {
  cm_recordId : string; cm_walletAddress : string; cm_evidenceHash : string; cm_claimsRoot : option string; sourceTransactionHash : option string }.
Record VaultRestoreRequirements := mkRequirements {
  expectedBackupId : string; expectedStateCommitment : string; minimumRevision : Z;
  commitments : list VaultCommitmentObservation; erasedRecordIds : list string }.

(** The decrypted JSON value: [None] where it has not the shape that is used. *)
Record Plain := mkPlain {
  pl_version : Z; pl_revision : option (option Z); pl_records : list (string * VaultRecord); pl_erasures : list Erasure;
  pl_revocations : list (string * Job.RevocationJob); pl_retention : option (list (string * RetentionControls));
  pl_maintenance : option (option (list Maintenance)) }.
Definition plainOf (d : VaultData) : Plain :=
  mkPlain 2 (Some (Some (revision d))) (records d) (erasures d) (revocations d) (Some (retention d)) (Some (Some (maintenance d))).

Record Envelope (B64 : Type) := mkEnvelope { env_version : Z; iv : B64; tag : B64; ciphertext : B64 }.
Arguments mkEnvelope {B64}.
Arguments env_version {B64}.
Arguments iv {B64}.
Arguments tag {B64}.
Arguments ciphertext {B64}.

Record Vault := mkVault { data : VaultData; key : string; writeUnconfirmed : bool }.
Definition set_data d (v : Vault) := mkVault d (key v) (writeUnconfirmed v).
Definition set_key k (v : Vault) := mkVault (data v) k (writeUnconfirmed v).
Definition set_unconfirmed (v : Vault) := mkVault (data v) (key v) true.

(** The file system and one instance of the class. *)
Record St (Raw : Type) := mkSt { fs : @Fs Raw; self : Vault }.
Arguments mkSt {Raw}.
Arguments fs {Raw}.
Arguments self {Raw}.
#[export] Instance Lens_fs Raw : Lens (St Raw) (@Fs Raw).
Proof. refine {| lens_get := fs; lens_set := λ f s, mkSt f (self s) |}; intros; by repeat match goal with s : St _ |- _ => destruct s end. Defined.
#[export] Instance Lens_data Raw : Lens (St Raw) VaultData.
Proof. refine {| lens_get := λ s, data (self s); lens_set := λ d s, mkSt (fs s) (set_data d (self s)) |}; intros; by repeat match goal with s : St _ |- _ => destruct s as [? []] end. Defined.

Definition VaultBusyError : exn := EClass "VaultBusyError" "VAULT_WRITER_BUSY".
Definition VaultBackupError (m : string) : exn := EClass "VaultBackupError" m.
Definition VaultRestoreError (m : string) : exn := EClass "VaultRestoreError" m.
Definition AuthenticationFailed : exn := EError "evidence vault authentication failed (wrong key or corrupt file)".

Definition lockOf (path : string) : string := path +:+ ".lock".
Definition isWriteError {A} (o : outcome A) : bool := match o with Throw e => bool_decide (e = VaultWriteError) | Ok _ => false end.
Definition bump (d : VaultData) : VaultData := set_revision (revision d + 1) d.
Definition hexOf (n : nat) (s : string) : bool := (String.length s =? n)%nat && allChars isLowerHex s.
Definition sameHex (left right : string) : bool := String.eqb (toLowerCase left) (toLowerCase right).

Section vault.
(** JSON texts, octets, their base64url text, and the text of a file. *)
Context {Text Bytes B64 Raw : Type}.
Context (stringifyView : View → Text) (parsePlain : Text → option Plain).
Context (sha256 : string → Text → string) (hmacSha256 : string → string → Text → string) (localeLe : string → string → bool).
Context (isAddress : string → bool).
(** AES-256-GCM: the ciphertext with its tag. *)
Context (aesSeal : string → Bytes → Text → Bytes * Bytes) (aesOpen : string → Bytes → Bytes → Bytes → option Text).
Context (toBase64url : Bytes → B64) (fromBase64url : B64 → Bytes).
Context (stringifyEnvelope : Envelope B64 → Raw) (parseEnvelope : Raw → option (Envelope B64)).
(** The files of a backup: its unsigned part and the whole, with the authentication; a text that is
    not JSON, or not an object of these fields. *)
Context (stringifyUnsigned : BackupManifest → Raw → Text) (stringifyBackup : BackupManifest → Raw → string → Raw).
Context (parseBackup : Raw → option (option (BackupManifest * Raw * option string))).
Context (sha256String : string → string) (hmacString : string → string → string) (sha256Raw : Raw → string) (lockText : Raw).
(** [path.resolve]. *)
Context (resolve : string → string).
(** The tests for files; the theorems on the history ask that they do not fail. *)
Context `{HT : !Tests (Raw:=Raw)}.

(** ** Keys, commitments and decryption *)

Definition deriveVaultKey (secret : string) : outcome string :=
  let? _ := orequire (32 <=? Z.of_nat (String.length secret)) (EError "EVIDENCE_VAULT_KEY must be at least 32 characters") in
  Ok (sha256String (secret +:+ "|proofmark-evidence-vault-v1")).
Definition keyIdentifier (key : string) : string := hmacString key "proofmark-vault-key-id-v1".
Definition stateCommitment (d : VaultData) : string := sha256 ("proofmark-vault-state-v1" +:+ nul) (stringifyView (VState d)).

Definition plainData (p : Plain) : option VaultData :=
  if negb (pl_version p =? 1) && negb (pl_version p =? 2) then None
  else
    let maint := match pl_maintenance p with Some (Some l) => l | _ => [] end in
    if pl_version p =? 1 then Some (mkData 0 (pl_records p) (pl_erasures p) (pl_revocations p) [] maint)
    else
      match pl_retention p with
      | None => None
      | Some ret =>
          if match pl_revision p with Some (Some n) => safeNat n | Some None => false | None => true end
             && match pl_maintenance p with Some None => false | _ => true end
          then Some (mkData (match pl_revision p with Some (Some n) => n | _ => 0 end) (pl_records p) (pl_erasures p) (pl_revocations p) ret maint)
          else None
      end.
Definition openEnvelope (key : string) (e : Envelope B64) : option VaultData :=
  match aesOpen key (fromBase64url (iv e)) (fromBase64url (tag e)) (fromBase64url (ciphertext e)) with
  | Some text => match parsePlain text with Some p => plainData p | None => None end
  | None => None
  end.
Definition decryptVaultData (raw : Raw) (key : string) : outcome VaultData :=
  match parseEnvelope raw with
  | None => Throw (EClass "SyntaxError" "JSON")
  | Some e =>
      let? _ := orequire (env_version e =? 1) (EError "unsupported evidence vault version") in
      match openEnvelope key e with Some d => Ok d | None => Throw AuthenticationFailed end
  end.
Definition decryptContent (c : @Content Raw) (key : string) : outcome VaultData :=
  match c with Full raw => decryptVaultData raw key | Partial => Throw (EClass "SyntaxError" "JSON") end.

(** [flush]'s text: [iv] are the random octets. *)
Definition seal (key : string) (iv : Bytes) (d : VaultData) : Raw :=
  let '(ct, tg) := aesSeal key iv (stringifyView (VState d)) in
  stringifyEnvelope (mkEnvelope 1 (toBase64url iv) (toBase64url tg) (toBase64url ct)).

(** ** The lock, loading and writing *)

Definition load (path key : string) : M (@Fs Raw) VaultData :=
  let! e := exists_ path in
  if e then let! c := readFile path in lift_out (decryptContent c key) else ret emptyData.

(** [others]: what other processes do to the files while this one waits, once for each wait that
    the deadline leaves room for. *)
Fixpoint acquireLock (lockPath : string) (others : list (@Files Raw → @Files Raw)) : M (@Fs Raw) unit :=
  catch_ (openExclusive lockPath) (λ e,
    if bool_decide (e = EEXIST) then
      match others with
      | [] => throw VaultBusyError
      | w :: others => modify (λ s, set_files (w (files s)) s) ;;; acquireLock lockPath others
      end
    else throw e).

Section instance.
Context (path : string).
#[local] Abbreviation lockPath := (lockOf path).

Definition assertWritable : M (St Raw) unit :=
  let! s := getS in let! e := zoom (exists_ lockPath) in require (negb (writeUnconfirmed (self s) || e)) VaultWriteError.

Definition unconfirmed : M (St Raw) unit := modify (λ s, mkSt (fs s) (set_unconfirmed (self s))).
Definition reload : M (St Raw) unit := let! s := getS in let! d := zoom (load path (key (self s))) in zoom (putS d).
Definition flush (random : string) (iv : Bytes) (k : string) : M (St Raw) unit :=
  let! s := getS in zoom (writeVaultEnvelope path random (seal k iv (data (self s)))).

Definition orUnconfirmed (m : M (@Fs Raw) unit) : M (St Raw) unit := catch_ (zoom m) (λ _, unconfirmed ;;; throw VaultWriteError).
Definition releaseLock (retain : bool) : M (St Raw) unit :=
  orUnconfirmed (close_ (HFile lockPath)) ;;; when (negb retain) (orUnconfirmed (unlink lockPath)).

(** What a call finds by chance and by time. *)
Record Chance := mkChance { random : string; callIv : Bytes; others : list (@Files Raw → @Files Raw) }.

(** The change under the lock. *)
Definition changed {A} (c : Chance) (operation : M VaultData A) (writeKey : option string) : M (St Raw) A :=
  catch_ (zoom (writeFile lockPath lockText)) (λ _, throw VaultWriteError) ;;;
  reload ;;;
  let! result := zoom operation in
  zoom (modify bump) ;;;
  let! s := getS in
  flush (random c) (callIv c) (default (key (self s)) writeKey) ;;;
  ret result.
Definition locked {A} (c : Chance) (operation : M VaultData A) (writeKey : option string) : M (St Raw) A :=
  finally_ (catch_ (changed c operation writeKey)
              (λ e, when (isWriteError (Throw (A:=A) e)) unconfirmed ;;; quiet reload ;;; throw e))
    (λ o, releaseLock (isWriteError o)).
Definition mutate {A} (c : Chance) (operation : M VaultData A) (writeKey : option string) : M (St Raw) A :=
  let! s := getS in
  require (negb (writeUnconfirmed (self s))) VaultWriteError ;;;
  zoom mkdir ;;;
  zoom (acquireLock lockPath (others c)) ;;;
  locked c operation writeKey.

Definition rotateKey (c : Chance) (newSecret operator : string) (at_ : Z) : M (St Raw) (Z * string * string * string) :=
  require (safeNat at_) (EError "invalid retention timestamp") ;;;
  require (Observation.isReference operator) (EError "use an opaque operator/policy/case reference, not free-text personal data") ;;;
  let! nextKey := lift_out (deriveVaultKey newSecret) in
  let! s := getS in
  let previousKeyId := keyIdentifier (key (self s)) in
  let nextKeyId := keyIdentifier nextKey in
  require (negb (String.eqb previousKeyId nextKeyId)) (EError "vault rotation requires a different key") ;;;
  mutate c (recordRotation (mkMaintenance at_ operator previousKeyId nextKeyId)) (Some nextKey) ;;;
  modify (λ s, mkSt (fs s) (set_key nextKey (self s))) ;;;
  let! s := getS in
  ret (revision (data (self s)), stateCommitment (data (self s)), previousKeyId, nextKeyId).

Definition recoveryState : M (St Raw) (Z * string * string) :=
  reload ;;; let! s := getS in
  ret (revision (data (self s)), stateCommitment (data (self s)), keyIdentifier (key (self s))).

Definition policyDeadlines (d : VaultData) : list Z :=
  map (retentionDeadline d) (filter (λ r, bool_decide (is_Some (retentionPolicy r)) = true) (dvalues (records d))).
Definition earliest (l : list Z) : option Z := match l with [] => None | x :: l => Some (fold_left Z.min l x) end.

(** [randomId]: the random octets of the identifier in hexadecimal. *)
Definition createBackup (c : Chance) (backupPath : string) (at_ : Z) (randomId : string) : M (St Raw) BackupManifest :=
  require (safeNat at_) (EError "invalid retention timestamp") ;;;
  require (negb (String.eqb (resolve backupPath) (resolve path))) (VaultBackupError "VAULT_BACKUP_PATH_INVALID") ;;;
  let! e := zoom (exists_ path) in
  require e (VaultBackupError "VAULT_BACKUP_SOURCE_MISSING") ;;;
  zoom mkdir ;;;
  zoom (acquireLock lockPath (others c)) ;;;
  finally_ (
      orUnconfirmed (writeFile lockPath lockText) ;;;
      let! content := zoom (readFile path) in
      let! s := getS in
      let! d := lift_out (decryptContent content (key (self s))) in
      zoom (putS d) ;;;
      match content with
      | Partial => throw (EClass "SyntaxError" "JSON")
      | Full raw =>
          let manifest := mkManifest 1 randomId at_ (revision d) (stateCommitment d) (sha256Raw raw) (keyIdentifier (key (self s)))
                            (Some (earliest (policyDeadlines d))) in
          let file := stringifyBackup manifest raw
                        (hmacSha256 (key (self s)) ("proofmark-vault-backup-v1" +:+ nul) (stringifyUnsigned manifest raw)) in
          catch_ (zoom (writeVaultEnvelopeExclusive backupPath (random c) file)) (λ _, throw (VaultBackupError "VAULT_BACKUP_UNCONFIRMED")) ;;;
          ret manifest
      end)
    (* the lock stays when its text was not written: the only [VaultWriteError] of the body *)
    (λ o, releaseLock (isWriteError o)).
End instance.

(** ** Restoring *)

Definition UnreadableBackup := VaultRestoreError "VAULT_BACKUP_UNREADABLE".
Definition BackupAuthenticationFailed := VaultRestoreError "VAULT_BACKUP_AUTHENTICATION_FAILED".
Definition RequirementsMismatch := VaultRestoreError "VAULT_RESTORE_REQUIREMENTS_MISMATCH".
Definition CommitmentMismatch := VaultRestoreError "VAULT_ONCHAIN_COMMITMENT_MISMATCH".
Definition NotEmpty := VaultRestoreError "VAULT_RESTORE_DESTINATION_NOT_EMPTY".
Definition WriteUnconfirmed := VaultRestoreError "VAULT_RESTORE_WRITE_UNCONFIRMED".
Definition VerifyFailed := VaultRestoreError "VAULT_RESTORE_VERIFY_FAILED".

Definition manifestOk (key : string) (m : BackupManifest) (raw : Raw) (auth : option string) : bool :=
  (bk_version m =? 1) && hexOf 32 (backupId m) && safeNat (bk_createdAt m) && safeNat (bk_revision m)
  && hexOf 64 (bk_stateCommitment m) && hexOf 64 (ciphertextHash m) && hexOf 64 (bk_keyId m)
  && match deleteBy m with Some (Some t) => isSafeInteger t && (bk_createdAt m <=? t) | _ => true end
  && match auth with
     | Some a => hexOf 64 a && String.eqb a (hmacSha256 key ("proofmark-vault-backup-v1" +:+ nul) (stringifyUnsigned m raw))
     | None => false end
  && String.eqb (bk_keyId m) (keyIdentifier key) && String.eqb (sha256Raw raw) (ciphertextHash m).

Definition requirementsOk (q : VaultRestoreRequirements) (m : BackupManifest) (d : VaultData) : bool :=
  String.eqb (expectedBackupId q) (backupId m) && String.eqb (expectedStateCommitment q) (bk_stateCommitment m)
  && safeNat (minimumRevision q) && (minimumRevision q <=? bk_revision m) && String.eqb (stateCommitment d) (bk_stateCommitment m)
  && (revision d =? bk_revision m)
  && forallb (λ i, negb (String.eqb i "") && (Z.of_nat (String.length i) <=? 256)) (erasedRecordIds q)
  && bool_decide (NoDup (erasedRecordIds q)).

Definition commitmentOk (d : VaultData) (o : VaultCommitmentObservation) : bool :=
  negb (String.eqb (cm_recordId o) "")
  && match dget (cm_recordId o) (records d) with
     | None => false
     | Some r =>
         sameHex (walletAddress r) (cm_walletAddress o) && sameHex (evidenceHash r) (cm_evidenceHash o)
         && match cm_claimsRoot o with
            | Some x => match claimsRoot r with Some y => negb (String.eqb y "") && sameHex y x | None => false end
            | None => true end
         && match sourceTransactionHash o with
            | Some x => match sourceIssuance r with Some y => sameHex (si_transactionHash y) x | None => false end
            | None => true end
     end.

(** What is checked of a backup before anything is written. *)
Definition checkBackup (key : string) (parsed : option (option (BackupManifest * Raw * option string))) (q : VaultRestoreRequirements) (now : Z)
    : outcome (BackupManifest * Raw) :=
  match parsed with
  | None => Throw UnreadableBackup
  | Some None => Throw BackupAuthenticationFailed
  | Some (Some (m, raw, auth)) =>
      let? _ := orequire (manifestOk key m raw auth) BackupAuthenticationFailed in
      match decryptVaultData raw key with
      | Throw _ => Throw BackupAuthenticationFailed
      | Ok d =>
          let? _ := orequire (requirementsOk q m d) RequirementsMismatch in
          let? _ := orequire (match deleteBy m with Some (Some t) => now <? t | _ => true end) (VaultRestoreError "VAULT_BACKUP_EXPIRED") in
          let? _ := orequire (negb (existsb (λ i, dhas i (records d)) (erasedRecordIds q))) (VaultRestoreError "VAULT_ERASURE_FLOOR_VIOLATION") in
          let? _ := orequire (forallb (commitmentOk d) (commitments q)) CommitmentMismatch in
          Ok (m, raw)
      end
  end.

Definition retainsRestore {A} (o : outcome A) : bool := match o with Throw e => bool_decide (e = WriteUnconfirmed ∨ e = VerifyFailed) | Ok _ => false end.
Definition releaseRestore (lockPath : string) (retain : bool) : M (@Fs Raw) unit :=
  let attempt (m : M (@Fs Raw) unit) := catch_ (m ;;; ret true) (λ _, ret false) in
  let! closed := attempt (close_ (HFile lockPath)) in
  let! unlinked := if retain || negb closed then ret false else attempt (unlink lockPath) in
  when (negb unlinked) (throw WriteUnconfirmed).

Definition parseContent (c : @Content Raw) : option (option (BackupManifest * Raw * option string)) :=
  match c with Full raw => parseBackup raw | Partial => None end.
Definition restoreBackup (c : Chance) (backupPath destinationPath secret : string) (q : VaultRestoreRequirements) (now : Z) : M (@Fs Raw) (BackupManifest * Z) :=
  let! e := exists_ destinationPath in
  require (negb (String.eqb (resolve backupPath) (resolve destinationPath) || e)) NotEmpty ;;;
  let! key := lift_out (deriveVaultKey secret) in
  let! content := catch_ (readFile backupPath) (λ _, throw UnreadableBackup) in
  let! (m, raw) := lift_out (checkBackup key (parseContent content) q now) in
  mkdir ;;;
  load destinationPath key ;;;                                            (* the constructor of the destination *)
  acquireLock (lockOf destinationPath) (others c) ;;;
  finally_ (
      writeFile (lockOf destinationPath) lockText ;;;
      let! e := exists_ destinationPath in
      require (negb e) NotEmpty ;;;
      catch_ (writeVaultEnvelopeExclusive destinationPath (random c) raw) (λ _, throw WriteUnconfirmed) ;;;
      let! content := readFile destinationPath in
      let! restored := lift_out (decryptContent content key) in
      require (String.eqb (stateCommitment restored) (bk_stateCommitment m)) VerifyFailed)
    (λ o, releaseRestore (lockOf destinationPath) (retainsRestore o)) ;;;
  ret (m, Z.of_nat (length (commitments q))).

(** ** The change under the lock, whatever fails *)

Definition contentsOf (k : string) (c : option (@Content Raw)) : outcome VaultData :=
  match c with None => Ok emptyData | Some c => decryptContent c k end.
(** What a load takes the file for: its content, or an empty vault when the test for it may fail. *)
Definition Read (path k : string) (c : option (@Content Raw)) (d : VaultData) : Prop :=
  contentsOf k c = Ok d ∨ d = emptyData ∧ ∃ s, noticed path s = false.
Lemma Read_exact `{HE : !Exact (Raw:=Raw)} path k c d : Read path k c d → contentsOf k c = Ok d.
Proof. intros [Hc|[_ [s Hs]]]; [done|]. by rewrite exact in Hs. Qed.
(** The files after what other processes did. *)
Definition after (ws : list (@Files Raw → @Files Raw)) (F : @Files Raw) : @Files Raw := fold_left (λ F w, w F) ws F.

Lemma load_spec path k (s : @Fs Raw) : wp (load path k) (λ o s', files s' = files s ∧ ∀ d, o = Ok d → Read path k (at_ s path) d) s.
Proof.
  unfold load. apply wp_bind, wp_gets. cbv beta iota. destruct (dhas path (files s) && noticed path s) eqn:E.
  - apply wp_bind. eapply wp_mono; [apply readFile_still|]. intros [c|e] s' [Hf Hc]; [|by split]. apply wp_lift_out. split; [done|].
    intros d Hd. left. by rewrite (Hc c eq_refl).
  - apply wp_ret. split; [done|]. intros d [= <-]. apply andb_false_iff in E as [E|E]; [left|right; eauto].
    unfold at_, dhas in *. by destruct (dget path (files s)).
Qed.

Lemma openExclusive_exact p (s : @Fs Raw) : wp (openExclusive p) (λ o s', match o with
  | Ok _ => dhas p (files s) = false ∧ files s' = dset p Partial (files s)
  | Throw e => files s' = files s ∧ (e = EEXIST ∨ e = IoError ∨ e = Death) end) s.
Proof.
  apply wp_prim; [|intros s' Hf _; split; (split; [done|]); auto]. intros s' Hf _. wp_go; [|by split; [|left]]. cbn. rewrite Hf in *. split; [|done].
  by apply negb_true_iff.
Qed.

Lemma acquireLock_spec lp ws (s : @Fs Raw) : wp (acquireLock lp ws) (λ o s', ∃ n, let F := after (take n ws) (files s) in
  match o with
  | Ok _ => dhas lp F = false ∧ files s' = dset lp Partial F
  | Throw e => files s' = F ∧ (e = VaultBusyError ∨ e = IoError ∨ e = Death) end) s.
Proof.
  revert s. induction ws as [|w ws IH]; intros s; cbn [acquireLock]; apply wp_catch; (eapply wp_mono; [apply openExclusive_exact|]).
  - intros [[]|e] s' H; [exists O; by rewrite take_0|]. destruct H as [Hf He]. split; [intros ->; exists O; auto|]. intros Hne.
    destruct (bool_decide_reflect (e = EEXIST)) as [->|Hx]; apply wp_throw; exists O; (split; [done|]); [by left|]. destruct He as [?|[?|?]]; [congruence|auto|auto].
  - intros [[]|e] s' H; [exists O; by rewrite take_0|]. destruct H as [Hf He]. split; [intros ->; exists O; auto|]. intros Hne.
    destruct (bool_decide_reflect (e = EEXIST)) as [->|Hx]; [|apply wp_throw; exists O; split; [done|]; destruct He as [?|[?|?]]; [congruence|auto|auto]].
    apply wp_bind, wp_modify. eapply wp_mono; [apply IH|]. intros o s'' [n Hn]. exists (S n). cbn [take after fold_left]. cbn in Hn. rewrite Hf in Hn. exact Hn.
Qed.

Section change.
Context (path : string) (c : Chance) {A : Type} (operation : M VaultData A) (writeKey : option string).
Abbreviation lp := (lockOf path).
Abbreviation tmp := (tmpName path (random c)).

(** The content that was read, the result, and the content that was written. *)
Definition Committed (F : @Files Raw) (k : string) (a : A) (s' : St Raw) : Prop :=
  ∃ d d1, Read path k (dget path F) d ∧ operation d = (Ok a, d1)
    ∧ dget path (files (fs s')) = Some (Full (seal (default k writeKey) (callIv c) (bump d1))).
Definition Untouched (F : @Files Raw) (s' : St Raw) : Prop := dget path (files (fs s')) = dget path F.
Definition Frame (F : @Files Raw) (s' : St Raw) : Prop := ∀ p, p ≠ lp → p ≠ tmp → p ≠ path → dget p (files (fs s')) = dget p F.

(** How a call ended that had the lock, which it took with the files [F]. *)
Definition Ended (F : @Files Raw) (k : string) (o : outcome A) (s' : St Raw) : Prop :=
  Frame F s' ∧
  match o with
  | Ok a => Committed F k a s' ∧ dhas lp (files (fs s')) = false
  | Throw e =>
      if bool_decide (e = Death ∨ e = VaultWriteError) then
        (Untouched F s' ∨ ∃ a, Committed F k a s') ∧ dhas lp (files (fs s')) = true ∧ (e = VaultWriteError → writeUnconfirmed (self s') = true)
      else Untouched F s' ∧ dhas lp (files (fs s')) = false
  end.

Lemma lock_ne_path : lp ≠ path.
Proof. intros H. apply (f_equal String.length) in H. unfold lockOf in H. rewrite length_app_str in H. cbn in H. lia. Qed.
Lemma tmp_ne_lock : tmp ≠ lp.
Proof.
  unfold tmpName, lockOf. intros H. apply (inj (String.append path)) in H. destruct (random c) as [|x r]; [done|]. apply (f_equal String.length) in H.
  rewrite !length_app_str in H. cbn [String.length] in H. lia.
Qed.

(** The lock is held and the vault's file is as it was. *)
Record Held (k : string) (F : @Files Raw) (s' : St Raw) : Prop := {
  hl_frame : Frame F s';
  hl_lock : dhas lp (files (fs s')) = true;
  hl_untouched : Untouched F s';
  hl_key : key (self s') = k }.
Lemma Held_files k F s1 s2 : files (fs s2) = files (fs s1) → key (self s2) = key (self s1) → Held k F s1 → Held k F s2.
Proof. intros Hf Hk [H1 H2 H3 H4]. split; unfold Frame, Untouched in *; rewrite ?Hf, ?Hk; done. Qed.
Lemma Held_taken F s : dhas lp F = false → files (fs s) = dset lp Partial F → Held (key (self s)) F s.
Proof.
  intros Hn Hf. split; unfold Frame, Untouched; rewrite ?Hf; [|by unfold dhas; rewrite dget_dset_eq| |done].
  - intros p H1 _ _. by rewrite dget_dset_ne.
  - rewrite dget_dset_ne; [done|]. intros E. by apply lock_ne_path.
Qed.

Lemma wp_conj {S B} (m : M S B) (P Q : outcome B → S → Prop) s : wp m P s → wp m Q s → wp m (λ o s', P o s' ∧ Q o s') s.
Proof. done. Qed.
Lemma wp_fs {B} (m : M (@Fs Raw) B) Q (s : St Raw) : wp m (λ o f, Q o (mkSt f (self s))) (fs s) → wp (zoom m) Q s.
Proof. intros H. by apply (wp_zoom m Q s). Qed.
Lemma wp_data {B} (m : M VaultData B) Q (s : St Raw) : wp m (λ o d, Q o (mkSt (fs s) (set_data d (self s)))) (data (self s)) → wp (zoom m) Q s.
Proof. intros H. by apply (wp_zoom m Q s). Qed.

Lemma writeFile_has p t (s : @Fs Raw) : wp (writeFile p t) (λ o s', dhas p (files s') = true ∧ (is_ok o = false → o = Throw IoError ∨ o = Throw Death)) s.
Proof.
  apply wp_prim; [|intros; split; (split; [|auto]); cbn; unfold dhas; by rewrite dget_dset_eq].
  intros. apply wp_modify. split; [|done]. unfold dhas. cbn. by rewrite dget_dset_eq.
Qed.
(** Writing the lock's text. *)
Lemma writeLock_spec k F s : Held k F s → wp (zoom (writeFile lp lockText)) (λ o s', Held k F s' ∧ (is_ok o = false → o = Throw IoError ∨ o = Throw Death)) s.
Proof.
  intros HH. apply wp_fs. eapply wp_mono; [apply wp_conj; [apply writeFile_spec|apply writeFile_has]|]. intros o f [[HS _] [Hl Ho]]. split; [|done].
  destruct HH as [H1 H2 H3 H4]. split; unfold Frame, Untouched; cbn; [|done| |done].
  - intros p Hp ? ?. rewrite <- (H1 p) by done. by apply HS.
  - rewrite <- H3. apply HS. intros E. by apply lock_ne_path.
Qed.

Lemma reload_spec k F s : Held k F s → wp (reload path) (λ o s', Held k F s' ∧ (o = Ok tt → Read path k (dget path F) (data (self s')))) s.
Proof.
  intros HH. unfold reload. apply wp_bind, wp_getS, wp_bind, wp_fs. eapply wp_mono; [apply load_spec|]. intros o f [Hf Hd].
  assert (Held k F (mkSt f (self s))) as HH' by (by apply (Held_files _ _ s)). destruct o as [d|e]; [|by split].
  apply wp_data, wp_putS. split; [by apply (Held_files _ _ (mkSt f (self s)))|]. intros _. cbn.
  destruct HH as [_ _ H3 H4]. unfold Untouched, at_ in *. rewrite <- H3, <- H4. by apply Hd.
Qed.

Lemma changed_spec k F s : Held k F s → wp (changed path c operation writeKey) (λ o s',
  Frame F s' ∧ dhas lp (files (fs s')) = true ∧
  match o with Ok a => Committed F k a s' | Throw e => Untouched F s' ∨ (e = VaultWriteError ∨ e = Death) ∧ ∃ a, Committed F k a s' end) s.
Proof.
  intros HH. unfold changed. apply wp_bind, wp_catch. eapply wp_mono; [by apply writeLock_spec|]. intros o s1 [H1 Ho].
  assert (∀ s', Held k F s' → Frame F s' ∧ dhas lp (files (fs s')) = true ∧ Untouched F s') as Hh by (by intros s' []).
  destruct o as [u|e]; [|destruct (Hh _ H1) as (A1 & A2 & A3); split; intros; [|apply wp_throw]; split_and!; auto].
  apply wp_bind. eapply wp_mono; [by apply reload_spec|]. intros o s2 [H2 Hd]. destruct o as [[]|e]; [|destruct (Hh _ H2) as (A1 & A2 & A3); auto].
  specialize (Hd eq_refl). apply wp_bind, wp_data. unfold wp at 1. destruct (operation (data (self s2))) as [o d1] eqn:Ho1. cbn [fst snd].
  assert (Held k F (mkSt (fs s2) (set_data d1 (self s2)))) as H3 by (by apply (Held_files _ _ s2)).
  destruct o as [a|e]; [|destruct (Hh _ H3) as (A1 & A2 & A3); auto].
  apply wp_bind, wp_data, wp_modify, wp_bind, wp_getS. cbv beta iota. cbn [fs self data set_data]. apply wp_bind.
  unfold flush. apply wp_bind, wp_getS, wp_fs. cbn [fs self data set_data key].
  destruct H2 as [F1 F2 F3 F4]. rewrite F4. eapply wp_mono; [apply writeVaultEnvelope_spec|]. intros o f [R1 R2 R3 R4].
  assert (∀ s', fs s' = f → Frame F s' ∧ dhas lp (files (fs s')) = true) as HF.
  { intros s' Es. subst f. split.
    - intros p Hp Ht Hpp. rewrite <- (F1 p) by done. by apply R1.
    - assert (at_ (fs s') lp = at_ (fs s2) lp) as E by (apply R1; [intros E; by apply tmp_ne_lock|apply lock_ne_path]). unfold at_ in E. unfold dhas in *. by rewrite E. }
  assert (∀ s', fs s' = f → at_ f path = Some (Full (seal (default k writeKey) (callIv c) (bump d1))) → Committed F k a s') as HC.
  { intros s' Es E. subst f. exists (data (self s2)), d1. by split_and!. }
  set (s4 := mkSt f _). destruct (HF s4 eq_refl) as [G1 G2]. destruct o as [[]|e].
  - destruct R3 as [R3 _]; [done|]. apply wp_ret. split_and!; auto.
  - split_and!; [done|done|]. destruct R2 as [R2|[R2 _]].
    + left. unfold Untouched, at_ in *. cbn. congruence.
    + right. split; [destruct R4 as [?|[R4|R4]]; [done|left|right]; congruence|exists a; auto].
Qed.

(** Letting the lock go. *)
Lemma orUnconfirmed_spec (m : M (@Fs Raw) unit) (P : bool → @Fs Raw → Prop) s :
  wp m (λ o f, P (is_ok o) f) (fs s) →
  wp (orUnconfirmed m) (λ o s', P (is_ok o) (fs s')
    ∧ (o = Ok tt ∧ self s' = self s ∨ o = Throw Death ∨ o = Throw VaultWriteError ∧ writeUnconfirmed (self s') = true)) s.
Proof.
  intros H. apply wp_catch, wp_fs. eapply wp_mono; [exact H|]. intros [[]|e] f HP; [split; auto|].
  split; [intros ->; auto|]. intros _. apply wp_bind, wp_modify, wp_throw. auto.
Qed.
Lemma unlink_exact p (s : @Fs Raw) : wp (unlink p) (λ o s', match o with Ok _ => files s' = ddel p (files s) | Throw _ => files s' = files s end) s.
Proof. apply wp_prim; [|by intros s' Hf _]. intros s' Hf _. wp_go; cbn; congruence. Qed.

(** Where the body of [locked] ends, before the lock is let go. *)
Definition Closing (k : string) (F : @Files Raw) (o : outcome A) (s' : St Raw) : Prop :=
  Frame F s' ∧ dhas lp (files (fs s')) = true ∧
  match o with
  | Ok a => Committed F k a s'
  | Throw e => (Untouched F s' ∨ (e = VaultWriteError ∨ e = Death) ∧ ∃ a, Committed F k a s') ∧ (e = VaultWriteError → writeUnconfirmed (self s') = true)
  end.

Lemma reload_still (s : St Raw) : wp (reload path) (λ o s', files (fs s') = files (fs s) ∧ writeUnconfirmed (self s') = writeUnconfirmed (self s)) s.
Proof.
  unfold reload. apply wp_bind, wp_getS, wp_bind, wp_fs. eapply wp_mono; [apply load_spec|]. intros [d|e] f [Hf _]; [|done]. by apply wp_data, wp_putS.
Qed.

Lemma mutate_body_spec k F s : Held k F s → wp (catch_ (changed path c operation writeKey)
  (λ e, when (isWriteError (Throw (A:=A) e)) unconfirmed ;;; quiet (reload path) ;;; throw e)) (Closing k F) s.
Proof.
  intros HH. apply wp_catch. eapply wp_mono; [by apply changed_spec|]. intros [a|e] s1 (H1 & H2 & H3); [by split_and!|]. split.
  { intros ->. split_and!; try done. }
  intros Hne. apply wp_bind. assert (wp (when (isWriteError (Throw (A:=A) e)) unconfirmed)
    (λ o s2, o = Ok tt ∧ fs s2 = fs s1 ∧ (e = VaultWriteError → writeUnconfirmed (self s2) = true)) s1) as Hw.
  { apply wp_when; unfold isWriteError; intros Hb; [by apply wp_modify|]. apply bool_decide_eq_false in Hb. by split_and!. }
  eapply wp_mono; [exact Hw|]. intros o s2 (-> & Ef & Hu). apply wp_bind, wp_catch. eapply wp_mono; [apply reload_still|]. intros o s3 [Ef3 Hu3].
  assert (∀ e', e' = e ∨ e' = Death → Closing k F (Throw e') s3) as HC.
  { intros e' He. unfold Closing, Frame, Untouched, Committed in *. rewrite Ef3, Ef. split_and!; [done|done|destruct H3 as [H3|[H3 H4]]; [by left|right]|].
    - split; [destruct He; subst; auto|done].
    - rewrite Hu3. intros ->. destruct He; [auto|done]. }
  destruct o as [[]|e']; [by apply wp_throw, HC; left|]. split; [intros ->; apply HC; by right|]. intros _. apply wp_ret, wp_throw, HC. by left.
Qed.

Lemma locked_spec F s : dhas lp F = false → files (fs s) = dset lp Partial F →
  wp (locked path c operation writeKey) (Ended F (key (self s))) s.
Proof.
  intros Hn Hf. apply wp_finally. eapply wp_mono; [apply mutate_body_spec; by apply Held_taken|]. set (k := key (self s)). intros o s1 HC. split.
  { intros ->. destruct HC as (H1 & H2 & [H3|[H3 H4]] & H5); (split; [done|]); rewrite bool_decide_true by auto; split_and!; auto. }
  intros Hnd. destruct HC as (H1 & H2 & H3).
  assert (∀ s2 : St Raw, files (fs s2) = files (fs s1) → ∀ e, (e = VaultWriteError ∨ e = Death) → (e = VaultWriteError → writeUnconfirmed (self s2) = true) →
    Ended F k (Throw e) s2) as Hbad.
  { intros s2 E2 e He Hu. unfold Ended. rewrite bool_decide_true by (destruct He; auto). unfold Frame, Untouched, Committed in *. rewrite E2. split_and!; try done.
    destruct o as [a|e0]; [right; by exists a|]. destruct H3 as [[H3|[_ H3]] _]; auto. }
  unfold releaseLock. apply wp_bind. eapply wp_mono; [apply (orUnconfirmed_spec _ (λ _ f', files f' = files (fs s1))); apply close_still|].
  intros r s2 (E2 & [[-> Hself]|[->|[-> Hu]]]); [|apply Hbad; first [assumption|by left|by right|by intros ?]..].
  apply wp_when; unfold isWriteError; intros Hb.
  - eapply wp_mono; [apply (orUnconfirmed_spec _ (λ b f', files f' = if b then ddel lp (files (fs s2)) else files (fs s2)))|].
    { eapply wp_mono; [apply unlink_exact|]. by intros [|]. }
    intros r s3 (E3 & [[-> _]|[->|[-> Hu]]]); cbn in E3; [|apply Hbad; first [congruence|by left|by right|by intros ?]..].
    rewrite E2 in E3. assert (∀ p, p ≠ lp → dget p (files (fs s3)) = dget p (files (fs s1))) as E by (intros p Hp; rewrite E3, dget_ddel_ne; done).
    assert (dhas lp (files (fs s3)) = false) as Hl by (unfold dhas; by rewrite E3, dget_ddel_eq).
    pose proof lock_ne_path as Hlp. split; [intros p ? ? ?; rewrite E by done; by apply H1|].
    unfold Untouched, Committed in *. rewrite E by done. destruct o as [a|e]; [done|].
    apply negb_true_iff, bool_decide_eq_false in Hb. rewrite bool_decide_false by (intros [?|?]; [congruence|done]). destruct H3 as [[H3|[[?|?] _]] _]; [done|congruence|congruence].
  - apply negb_false_iff in Hb. destruct o as [a|e]; [done|]. apply bool_decide_eq_true in Hb as ->. apply Hbad; [done|auto|]. intros _. rewrite Hself. by apply H3.
Qed.

Lemma mutate_spec s : wp (mutate path c operation writeKey) (λ o s', ∃ n, let F := after (take n (others c)) (files (fs s)) in
  (files (fs s') = F ∧ is_ok o = false) ∨ (dhas lp F = false ∧ Ended F (key (self s)) o s')) s.
Proof.
  unfold mutate. apply wp_bind, wp_getS. cbv beta iota. apply wp_bind, wp_require; intros _; [|exists O; by left].
  apply wp_bind, wp_fs. eapply wp_mono; [apply mkdir_still|]. intros [?|e] f Hf; [|exists O; by left].
  apply wp_bind, wp_fs. eapply wp_mono; [apply acquireLock_spec|]. intros o f' [n Hn]. cbn in Hn. rewrite Hf in Hn. cbn [self].
  destruct o as [?|e]; [|exists n; left; split; [apply Hn|done]]. destruct Hn as [Hn Hf'].
  eapply wp_mono; [by apply (locked_spec (after (take n (others c)) (files (fs s))))|]. intros o s' HE. exists n. right. done.
Qed.
End change.

(** C33. Any change of a vault, whatever other processes did while it waited and
    whichever file operation fails or is the last before the process dies: it did not
    get the lock and changed no file; or it did, no file but the vault, its lock and its
    own temporary file differ, and either it answers, the vault is the sealed result of
    the change on the content read under the lock and the lock is free, or it failed,
    the vault is as it was and the lock is free, or the outcome is unknown - the vault
    is as it was or whole and new - and then the lock stays and the instance is marked.
    The content read is the decrypted file, or the empty vault where the test for the
    file fails, which answers as if there were none. *)
Theorem vault_change_atomic {A} (path : string) (c : Chance) (operation : M VaultData A) (writeKey : option string) (s : St Raw) :
  let '(o, s') := mutate path c operation writeKey s in
  ∃ n, let F := after (take n (others c)) (files (fs s)) in
    (files (fs s') = F ∧ is_ok o = false) ∨
    (dhas (lockOf path) F = false ∧
     (∀ p, p ≠ lockOf path → p ≠ tmpName path (random c) → p ≠ path → dget p (files (fs s')) = dget p F) ∧
     match o with
     | Ok a => Committed path c operation writeKey F (key (self s)) a s' ∧ dhas (lockOf path) (files (fs s')) = false
     | Throw e =>
         if bool_decide (e = Death ∨ e = VaultWriteError) then
           (dget path (files (fs s')) = dget path F ∨ ∃ a, Committed path c operation writeKey F (key (self s)) a s')
           ∧ dhas (lockOf path) (files (fs s')) = true ∧ (e = VaultWriteError → writeUnconfirmed (self s') = true)
         else dget path (files (fs s')) = dget path F ∧ dhas (lockOf path) (files (fs s')) = false
     end).
Proof.
  pose proof (mutate_spec path c operation writeKey s) as H. unfold wp in H. destruct (mutate path c operation writeKey s) as [o s']. exact H.
Qed.

(** ** A history of calls *)

Unset Default Proof Using.
Section laws.
Context (aes_law : ∀ k i t, aesOpen k i (aesSeal k i t).2 (aesSeal k i t).1 = Some t).
Context (base64_law : ∀ b, fromBase64url (toBase64url b) = b).
Context (envelope_law : ∀ e, parseEnvelope (stringifyEnvelope e) = Some e).
Context (json_law : ∀ d, parsePlain (stringifyView (VState d)) = Some (plainOf d)).
(** No test for a file fails. *)
Context `{HExact : !Exact (Raw:=Raw)}.

Lemma decrypt_seal k i d : safeNat (revision d) = true → decryptVaultData (seal k i d) k = Ok d.
Proof.
  intros Hs. unfold decryptVaultData, seal, openEnvelope. pose proof (aes_law k i (stringifyView (VState d))) as H.
  destruct (aesSeal k i (stringifyView (VState d))) as [ct tg]. cbn in H. rewrite envelope_law. cbn. rewrite !base64_law, H, json_law. cbn.
  rewrite Hs. by destruct d.
Qed.

Context (path : string) (k : string).
Abbreviation run := (runOp stringifyView sha256 hmacSha256 localeLe isAddress).

(** The changes in order, from an empty vault. *)
Fixpoint replay (ops : list VaultOp) (d : VaultData) : option VaultData :=
  match ops with
  | [] => Some d
  | op :: ops => match commit stringifyView sha256 hmacSha256 localeLe isAddress op d with Some d => replay ops d | None => None end
  end.

(** The files after calls of any instances with the key, each with its faults, and the changes that
    were acknowledged.  The calls of other processes are steps of the history. *)
Inductive History : @Files Raw → list VaultOp → Prop :=
  | History_start F : dget path F = None → dhas (lockOf path) F = false → History F []
  | History_call F acknowledged v op c h io o s' : History F acknowledged → key v = k → others c = [] →
      mutate path c (run op) None (mkSt (mkFs F h io) v) = (o, s') →
      History (files (fs s')) (if is_ok o then acknowledged ++ [op] else acknowledged).

Lemma keeps_revision_modify n (f : VaultData → VaultData) : (∀ d, revision (f d) = revision d) → keeps (λ d, revision d = n) (modify f).
Proof. intros H. apply keeps_modify. intros d <-. apply H. Qed.
Ltac revision_go := keeps_go; try (by apply keeps_revision_modify).

Lemma queueRevocation_revision n r t : keeps (λ d, revision d = n) (queueRevocation r t).
Proof. unfold queueRevocation, storeJob, demand. revision_go. Qed.
Lemma mustGet_revision n i : keeps (λ d, revision d = n) (mustGet i).
Proof. unfold mustGet. revision_go. Qed.
Lemma mustGetJob_revision n i : keeps (λ d, revision d = n) (mustGetJob i).
Proof. unfold mustGetJob. revision_go. Qed.
Lemma controls_revision n i : keeps (λ d, revision d = n) (controls i).
Proof. unfold controls, storeControls. revision_go. Qed.
#[local] Hint Resolve queueRevocation_revision mustGet_revision mustGetJob_revision controls_revision : keeps.
Lemma purge_revision n t l count : keeps (λ d, revision d = n) (purge stringifyView sha256 localeLe t l count).
Proof. revert count. induction l as [|r l IH]; intros count; cbn [purge]; [apply keeps_ret|]. unfold eraseApproved. revision_go; by apply IH. Qed.
Lemma recoverAll_revision n t l : keeps (λ d, revision d = n) (recoverAll t l).
Proof. induction l as [|r l IH]; cbn [recoverAll]; [apply keeps_ret|]. revision_go. Qed.
#[local] Hint Resolve purge_revision recoverAll_revision : keeps.

Lemma run_revision op d : revision (run op d).2 = revision d.
Proof.
  assert (keeps (λ d', revision d' = revision d) (run op)) as H; [|by apply H].
  destruct op; cbn [runOp]; unfold void, put, recordMaterialization, recordSourceConfirmation, recordRescreen, decideReview, extendRetention, placeHold,
    releaseHold, requestDeletion, approveDeletion, erase, purgeExpired, recoverBlockedRevocations, prepareRevocation, finishRevocation, failRevocation,
    recordRevocationObservation, recordRotation, timestamp, reference, demand, noBlockers, storeRecord, storeJob, storeControls, eraseApproved; revision_go.
Qed.

Lemma replay_app ops ops' d d' : replay ops d = Some d' → replay (ops ++ ops') d = replay ops' d'.
Proof. revert d. induction ops as [|op ops IH]; intros d; cbn; [congruence|]. destruct (commit _ _ _ _ _ op d); [apply IH|done]. Qed.

(** The file is the replay of the acknowledged changes, and of at most one more, after which the lock
    is held for ever. *)
Definition Durable (F : @Files Raw) (acknowledged : list VaultOp) : Prop := ∃ ops d,
  replay ops emptyData = Some d ∧ contentsOf k (dget path F) = Ok d ∧ revision d = Z.of_nat (length ops)
  ∧ (ops = acknowledged ∨ (∃ op, ops = acknowledged ++ [op]) ∧ dhas (lockOf path) F = true).

Lemma history_durable F acknowledged : History F acknowledged → Z.of_nat (length acknowledged) < MAX_SAFE_INTEGER → Durable F acknowledged.
Proof.
  induction 1 as [F Hp Hl|F acks v op c h io o s' HH IH Hk Ho Hm]; intros Hlen.
  { exists [], emptyData. rewrite Hp. split_and!; auto. }
  destruct IH as (ops & d & Hr & Hc & Hn & Hops); [destruct (is_ok o); rewrite ?length_app in Hlen; cbn in Hlen; lia|].
  pose proof (mutate_spec path c (run op) None (mkSt (mkFs F h io) v)) as Hs. unfold wp in Hs. rewrite Hm in Hs. cbn [fst snd fs files self] in Hs.
  destruct Hs as [n Hs]. rewrite Ho, take_nil in Hs. cbn [after fold_left] in Hs. rewrite Hk in Hs. destruct Hs as [[Hf Hok]|[Hl [_ HE]]].
  { rewrite Hf, Hok. by exists ops, d. }
  destruct Hops as [->|[_ Hlock]]; [|congruence].
  assert (∀ a, Committed path c (run op) None F k a s' → Z.of_nat (length acks) < MAX_SAFE_INTEGER → ∃ d', replay (acks ++ [op]) emptyData = Some d'
    ∧ contentsOf k (dget path (files (fs s'))) = Ok d' ∧ revision d' = Z.of_nat (length (acks ++ [op]))) as HC.
  { intros a (d0 & d1 & E0%Read_exact & E1 & E2) Hb. assert (d0 = d) as -> by congruence. exists (bump d1). pose proof (run_revision op d) as Hrev. rewrite E1 in Hrev. cbn in Hrev.
    split_and!.
    - rewrite (replay_app _ _ _ _ Hr). cbn. unfold commit. by rewrite E1.
    - rewrite E2. cbn. apply decrypt_seal. apply safeNat_spec. unfold MAX_SAFE_INTEGER in *. cbn. lia.
    - rewrite length_app. cbn. lia. }
  destruct o as [a|e]; cbn [is_ok] in *.
  - rewrite length_app in Hlen. cbn in Hlen. destruct HE as [Hcm _]. destruct (HC a Hcm) as (d' & E1 & E2 & E3); [lia|]. exists (acks ++ [op]), d'. auto.
  - destruct (bool_decide _).
    + destruct HE as ([E|[a Ha]] & Hlk & _); [exists acks, d; rewrite E; auto|]. destruct (HC a Ha Hlen) as (d' & E1 & E2 & E3). exists (acks ++ [op]), d'.
      split_and!; eauto.
    + destruct HE as [E _]. exists acks, d. rewrite E. auto.
Qed.

(** C34. Whatever instances with the key call, with any faults of reads, writes and
    the other file operations and any deaths, as long as no test for the existence of a
    file fails, the file of the vault decrypts to the replay of changes in order from
    the empty vault: exactly the acknowledged ones, or these and one more, and then the
    lock is held, so that no later change is made. That tests for files answer truly,
    and the laws of encryption and of JSON, are hypotheses. *)
Theorem vault_history_durable (F : @Files Raw) (acknowledged : list VaultOp) :
  History F acknowledged → Z.of_nat (length acknowledged) < MAX_SAFE_INTEGER →
  ∃ ops d, replay ops emptyData = Some d ∧ contentsOf k (dget path F) = Ok d ∧ revision d = Z.of_nat (length ops)
    ∧ (ops = acknowledged ∨ (∃ op, ops = acknowledged ++ [op]) ∧ dhas (lockOf path) F = true).
Proof. apply history_durable. Qed.
End laws.

(** ** Restoring *)

Set Default Proof Using "Type".
(** What a backup that passes is worth. *)
Record Sound (key : string) (m : BackupManifest) (raw : Raw) (q : VaultRestoreRequirements) (now : Z) (d : VaultData) : Prop := {
  so_decrypts : decryptVaultData raw key = Ok d;
  so_identity : expectedBackupId q = backupId m ∧ expectedStateCommitment q = bk_stateCommitment m ∧ stateCommitment d = bk_stateCommitment m;
  so_revision : revision d = bk_revision m ∧ minimumRevision q ≤ revision d;
  so_fresh : ∀ t, deleteBy m = Some (Some t) → now < t;
  so_erased : ∀ i, i ∈ erasedRecordIds q → dget i (records d) = None;
  so_commitments : ∀ o, o ∈ commitments q → commitmentOk d o = true }.

Lemma checkBackup_sound key parsed q now m raw : checkBackup key parsed q now = Ok (m, raw) → ∃ d, Sound key m raw q now d.
Proof.
  unfold checkBackup. destruct parsed as [[[[m0 raw0] auth]|]|]; try done. intros (u & _ & H)%obind_ok. destruct (decryptVaultData raw0 key) as [d|] eqn:Hd; [|done].
  apply obind_ok in H as (? & H1%orequire_ok & H). apply obind_ok in H as (? & H2%orequire_ok & H). apply obind_ok in H as (? & H3%orequire_ok & H).
  apply obind_ok in H as (? & H4%orequire_ok & [= -> ->]). exists d. unfold requirementsOk in H1. rewrite !andb_true_iff, !String.eqb_eq in H1.
  destruct H1 as (((((((A1 & A2) & A3) & A4) & A5) & A6) & A7) & A8). apply negb_true_iff in H3. rewrite forallb_forall in H4.
  split; [done|done|lia| | |].
  - intros t Ht. rewrite Ht in H2. lia.
  - intros i Hi. rewrite existsb_none in H3. specialize (H3 i Hi). unfold dhas in H3. by destruct (dget i (records d)).
  - intros o Ho. apply H4. by apply list_elem_of_In.
Qed.

(** How a restore lets the lock go. *)
Definition Released (lp : string) (retain : bool) (s : @Fs Raw) (o : outcome unit) (s' : @Fs Raw) : Prop :=
  Same lp s s' ∧ (o = Ok tt ∧ retain = false ∧ at_ s' lp = None ∨ o = Throw WriteUnconfirmed ∨ o = Throw Death).

Lemma releaseRestore_spec lp retain s : wp (releaseRestore lp retain) (Released lp retain s) s.
Proof.
  unfold releaseRestore. apply wp_bind.
  assert (wp (catch_ (close_ (HFile lp) ;;; ret true) (λ _, ret false)) (λ o s1, files s1 = files s ∧ ((∃ b, o = Ok b) ∨ o = Throw Death)) s) as Hc.
  { apply wp_catch, wp_bind. eapply wp_mono; [apply close_still|]. intros [[]|e] s1 H1; [by split; [|left; eexists]|].
    split; [intros ->; split; auto|]. intros _. split; [done|]. left. by eexists. }
  eapply wp_mono; [exact Hc|]. intros o s1 [H1 [[b E]|E]]; rewrite E; clear E; [|split; [by apply Same_files|auto]]. apply wp_bind.
  assert (Same lp s s1) as HS by (by apply Same_files). destruct (retain || negb b) eqn:E; [apply wp_ret; cbn; split; auto|].
  apply orb_false_iff in E as [-> _]. apply wp_catch, wp_bind. apply (wp_one lp _ _ _ (unlink_spec lp s1)).
  - intros [] s2 H2 Hn. cbn. split; [by etransitivity|auto].
  - intros e s2 H2. assert (Same lp s s2) by (by etransitivity). split; [intros ->; split; auto|]. intros _. cbn. split; auto.
Qed.

(** What a restore leaves at its destination. *)
Definition Restored (c : Chance) (backupPath dest : string) (key : string) (q : VaultRestoreRequirements) (now : Z) (s : @Fs Raw)
    (o : outcome (BackupManifest * Z)) (s' : @Fs Raw) : Prop :=
  (∃ n, files s' = after (take n (others c)) (files s) ∧ is_ok o = false) ∨
  ∃ n m raw d, let F := after (take n (others c)) (files s) in
    Sound key m raw q now d ∧ (∃ content, at_ s backupPath = Some content ∧ checkBackup key (parseContent content) q now = Ok (m, raw))
    ∧ dhas (lockOf dest) F = false
    ∧ (dget dest (files s') = dget dest F ∧ is_ok o = false ∨ dget dest F = None ∧ dget dest (files s') = Some (Full raw))
    ∧ (is_ok o = true → o = Ok (m, Z.of_nat (length (commitments q))) ∧ dget dest (files s') = Some (Full raw) ∧ dhas (lockOf dest) (files s') = false).

(** The part of a restore that holds the lock. *)
Lemma restore_body_spec c dest key m raw F s : dhas (lockOf dest) F = false → files s = dset (lockOf dest) Partial F →
  wp (writeFile (lockOf dest) lockText ;;;
      let! e := exists_ dest in require (negb e) NotEmpty ;;;
      catch_ (writeVaultEnvelopeExclusive dest (random c) raw) (λ _, throw WriteUnconfirmed) ;;;
      let! content := readFile dest in let! restored := lift_out (decryptContent content key) in
      require (String.eqb (stateCommitment restored) (bk_stateCommitment m)) VerifyFailed)
    (λ o s', (at_ s' dest = dget dest F ∧ is_ok o = false ∨ dget dest F = None ∧ at_ s' dest = Some (Full raw))) s.
Proof.
  intros Hl Hf. pose proof (lock_ne_path dest) as Hld. assert (at_ s dest = dget dest F) as Es by (unfold at_; rewrite Hf, dget_dset_ne; congruence).
  assert (∀ s' : @Fs Raw, Same (lockOf dest) s s' → at_ s' dest = dget dest F) as HS by (intros s' H; rewrite H; congruence).
  apply wp_bind. apply (wp_one _ _ _ _ (writeFile_spec (lockOf dest) lockText s)); [|intros e s1 H1; left; split; [by apply HS|done]].
  intros [] s1 H1%HS _. apply wp_bind, wp_gets. apply wp_bind, wp_require; intros _; [|by left]. apply wp_bind, wp_catch.
  eapply wp_mono; [apply writeVaultEnvelopeExclusive_spec|]. intros o s2 [R1 R2 R3 R4].
  assert (at_ s2 dest = dget dest F ∨ dget dest F = None ∧ at_ s2 dest = Some (Full raw)) as R2' by (rewrite <- H1; destruct R2 as [?|[? ?]]; auto).
  destruct o as [[]|e]; [|split; intros _; [|apply wp_throw]; destruct R2'; auto]. destruct (R3 eq_refl) as [R5 R6].
  assert (dget dest F = None) as En by (rewrite <- H1; by apply R6).
  apply wp_bind. eapply wp_mono; [apply readFile_still|]. intros o s3 [H3 _]. assert (at_ s3 dest = Some (Full raw)) as E3 by (unfold at_ in *; congruence).
  destruct o as [content|e]; [|by right]. apply wp_bind, wp_lift_out. destruct (decryptContent content key); [|by right]. apply wp_require; intros _; by right.
Qed.

Lemma restoreBackup_spec c backupPath dest secret q now s : wp (restoreBackup c backupPath dest secret q now)
  (λ o s', files s' = files s ∧ is_ok o = false ∨ ∃ key, deriveVaultKey secret = Ok key ∧ Restored c backupPath dest key q now s o s') s.
Proof.
  unfold restoreBackup. apply wp_bind, wp_gets. apply wp_bind, wp_require; intros _; [|by left]. apply wp_bind, wp_lift_out.
  destruct (deriveVaultKey secret) as [key|] eqn:Hkey; [|by left]. apply wp_bind, wp_catch. eapply wp_mono; [apply readFile_still|].
  intros [content|e] s1 [H1 Hct]; [|split; intros _; [|apply wp_throw]; by left]. apply wp_bind, wp_lift_out.
  destruct (checkBackup key _ q now) as [[m raw]|] eqn:Hck; [|by left]. pose proof Hck as [d Hd]%checkBackup_sound.
  specialize (Hct content eq_refl).
  apply wp_bind. eapply wp_mono; [apply mkdir_still|]. intros [?|] s2 H2; [|left; split; [congruence|done]].
  apply wp_bind. eapply wp_mono; [apply load_spec|]. intros [?|] s3 [H3 _]; [|left; split; [congruence|done]].
  apply wp_bind. eapply wp_mono; [apply acquireLock_spec|]. intros o s4 [n H4]. assert (files s3 = files s) as E3 by congruence. rewrite E3 in H4.
  destruct o as [?|e]; [|right; exists key; split; [done|]; left; exists n; destruct H4; done]. destruct H4 as [Hl H4].
  set (F := after _ _) in *. right. exists key. split; [done|]. right. exists n, m, raw, d. cbv zeta. fold F.
  pose proof (lock_ne_path dest) as Hld. apply wp_bind. apply wp_finally.
  assert (wp (writeFile (lockOf dest) lockText ;;;
      let! e := exists_ dest in require (negb e) NotEmpty ;;;
      catch_ (writeVaultEnvelopeExclusive dest (random c) raw) (λ _, throw WriteUnconfirmed) ;;;
      let! content := readFile dest in let! restored := lift_out (decryptContent content key) in
      require (String.eqb (stateCommitment restored) (bk_stateCommitment m)) VerifyFailed)
    (λ o s', (at_ s' dest = dget dest F ∧ is_ok o = false ∨ dget dest F = None ∧ at_ s' dest = Some (Full raw))) s4) as Hb; [by apply restore_body_spec|].
  eapply wp_mono; [exact Hb|]. clear Hb. intros o s5 H5. cbv beta in H5.
  assert (∀ (o' : outcome unit) (s' : @Fs Raw), Same (lockOf dest) s5 s' → (is_ok o' = true → is_ok o = true) →
    dget dest (files s') = dget dest F ∧ is_ok o' = false ∨ dget dest F = None ∧ dget dest (files s') = Some (Full raw)) as Hkeep.
  { intros o' s' HS Ho. assert (at_ s' dest = at_ s5 dest) as E by (apply HS; congruence). unfold at_ in *. rewrite E. destruct H5 as [[H5 Ho']|H5]; [left|by right].
    split; [done|]. rewrite Ho' in Ho. destruct (is_ok o'); [by specialize (Ho eq_refl)|done]. }
  split; [intros ->; split_and!; [done|by exists content|done| |done]; by apply (Hkeep (Throw Death)); [reflexivity|]|]. intros _.
  eapply wp_mono; [apply releaseRestore_spec|]. intros r s6 [HS Hr].
  destruct r as [[]|e]; [|split_and!; [done|by exists content|done| |done]; by apply (Hkeep (Throw e))].
  destruct Hr as [(_ & _ & Hn)|[?|?]]; [|done..]. destruct o as [?|e]; [|split_and!; [done|by exists content|done| |done]; by apply (Hkeep (Throw e))].
  apply wp_ret. assert (dget dest F = None ∧ dget dest (files s6) = Some (Full raw)) as [E1 E2] by (destruct (Hkeep (Ok tt) s6 HS) as [[_ ?]|?]; done).
  split_and!; [done|by exists content|done|by right|]. intros _. split_and!; auto. unfold dhas, at_ in *. by rewrite Hn.
Qed.

(** Whatever fails during a restore: the destination is as it was, or it was
    absent and now holds the envelope of the backup, which decrypts with the key to a
    content that has the expected identity, commitment and at least the required
    revision, is before its deletion deadline, holds none of the records known to be
    erased and matches every on-chain commitment given; and a restore that answers has
    released its lock. *)
Theorem vault_restore_checked (c : Chance) (backupPath dest secret : string) (q : VaultRestoreRequirements) (now : Z) (s : @Fs Raw) :
  let '(o, s') := restoreBackup c backupPath dest secret q now s in
  ∃ n, let F := after (take n (others c)) (files s) in
    (dget dest (files s') = dget dest F ∧ is_ok o = false) ∨
    ∃ key m raw d, deriveVaultKey secret = Ok key
      ∧ dget dest F = None ∧ dget dest (files s') = Some (Full raw) ∧ decryptVaultData raw key = Ok d
      ∧ expectedBackupId q = backupId m ∧ stateCommitment d = expectedStateCommitment q
      ∧ revision d = bk_revision m ∧ minimumRevision q ≤ revision d ∧ (∀ t, deleteBy m = Some (Some t) → now < t)
      ∧ (∀ i, i ∈ erasedRecordIds q → dget i (records d) = None)
      ∧ (∀ o, o ∈ commitments q → ∃ r, dget (cm_recordId o) (records d) = Some r
           ∧ sameHex (walletAddress r) (cm_walletAddress o) = true ∧ sameHex (evidenceHash r) (cm_evidenceHash o) = true)
      ∧ (is_ok o = true → o = Ok (m, Z.of_nat (length (commitments q))) ∧ dhas (lockOf dest) (files s') = false).
Proof.
  pose proof (restoreBackup_spec c backupPath dest secret q now s) as H. unfold wp in H. destruct (restoreBackup c backupPath dest secret q now s) as [o s'].
  cbn [fst snd] in H. destruct H as [[E Ho]|(key & Hk & [(n & E & Ho)|(n & m & raw & d & Hd & _ & Hl & [[E Ho]|[E1 E2]] & Hok)])].
  - exists O. left. by rewrite take_0, E.
  - exists n. left. by rewrite E.
  - exists n. by left.
  - exists n. right. exists key, m, raw, d. destruct Hd as [H1 (H2 & H3 & H4) [H5 H6] H7 H8 H9]. split_and!; try done; [congruence| |intros Ho; by destruct (Hok Ho) as (? & ? & ?)].
    intros x Hx. specialize (H9 x Hx). unfold commitmentOk in H9. destruct (dget (cm_recordId x) (records d)) as [r|]; [|by rewrite andb_false_r in H9].
    exists r. rewrite !andb_true_iff in H9. by destruct H9 as (_ & ((H91 & H92) & _) & _).
Qed.

(** *** A backup that was just made *)

Definition backupFile (k : string) (m : BackupManifest) (raw : Raw) : Raw :=
  stringifyBackup m raw (hmacSha256 k ("proofmark-vault-backup-v1" +:+ nul) (stringifyUnsigned m raw)).
Definition manifestOf (k : string) (at_ : Z) (randomId : string) (raw : Raw) (d : VaultData) : BackupManifest :=
  mkManifest 1 randomId at_ (revision d) (stateCommitment d) (sha256Raw raw) (keyIdentifier k) (Some (earliest (policyDeadlines d))).

Lemma releaseLock_same path retain (s : St Raw) : wp (releaseLock path retain) (λ _ s', Same (lockOf path) (fs s) (fs s')) s.
Proof.
  unfold releaseLock. apply wp_bind. eapply wp_mono; [apply (orUnconfirmed_spec _ (λ _ f, Same (lockOf path) (fs s) f)); eapply wp_mono; [apply close_still|]|].
  { intros o f Hf. by apply Same_files. }
  intros [[]|e] s1 [H1 _]; [|done]. apply wp_when; intros _; [|done].
  eapply wp_mono; [apply (orUnconfirmed_spec _ (λ _ f, Same (lockOf path) (fs s) f))|by intros o s2 [H2 _]].
  eapply wp_mono; [apply unlink_spec|]. intros o f [H2 _]. by etransitivity.
Qed.
Lemma releaseLock_error {B} path retain (P : B → St Raw → Prop) e (s : St Raw) :
  wp (releaseLock path retain) (λ r s'', match r with Ok _ => ∀ m, Throw (A:=B) e = Ok m → P m s'' | Throw e => ∀ m, Throw (A:=B) e = Ok m → P m s'' end) s.
Proof. unfold wp. by destruct (releaseLock path retain s).1. Qed.

Lemma createBackup_spec path c b time randomId s : wp (createBackup path c b time randomId) (λ o s', ∀ m, o = Ok m → ∃ n raw d,
  dget path (after (take n (others c)) (files (fs s))) = Some (Full raw) ∧ decryptVaultData raw (key (self s)) = Ok d ∧ safeNat time = true
  ∧ m = manifestOf (key (self s)) time randomId raw d ∧ dget b (files (fs s')) = Some (Full (backupFile (key (self s)) m raw))) s.
Proof.
  unfold createBackup. apply wp_bind, wp_require; intros Ht; [|done]. apply wp_bind, wp_require; intros _; [|done].
  apply wp_bind, wp_fs, wp_gets. apply wp_bind, wp_require; intros _; [|done]. apply wp_bind, wp_fs. eapply wp_mono; [apply mkdir_still|].
  intros [?|] f1 H1; [|done]. apply wp_bind, wp_fs. eapply wp_mono; [apply acquireLock_spec|]. cbn [fs self]. intros [?|] f2 [n H2]; [|done].
  rewrite H1 in H2. set (F := after _ _) in *. destruct H2 as [Hl H2]. set (s2 := mkSt f2 (self s)). pose proof (lock_ne_path path) as Hlp.
  assert (at_ (fs s2) path = dget path F) as E2 by (unfold at_; cbn; rewrite H2, dget_dset_ne; congruence).
  apply wp_finally. apply wp_bind.
  eapply wp_mono; [apply (orUnconfirmed_spec _ (λ _ f, at_ f path = dget path F ∧ dhas (lockOf path) (files f) = true));
    eapply wp_mono; [apply wp_conj; [apply (writeFile_spec (lockOf path) lockText (fs s2))|apply writeFile_has]|]; intros o f [[HS _] [Hh _]]; split; [rewrite HS; congruence|done]|].
  intros [[]|e] s3 [[E3 Hlk] Hs3]; [|by split; [|intros _; apply releaseLock_error]].
  assert (key (self s3) = key (self s)) as Hk3 by (by destruct Hs3 as [[_ ->]|[?|[? _]]]).
  apply wp_bind, wp_fs. eapply wp_mono; [apply readFile_still|]. intros [content|e] f4 [H4 Hc]; [|by split; [|intros _; apply releaseLock_error]].
  apply wp_bind, wp_getS. cbv beta iota. apply wp_bind, wp_lift_out. cbn [self]. rewrite Hk3.
  destruct (decryptContent content (key (self s))) as [d|] eqn:Hd; [|by split; [|intros _; apply releaseLock_error]].
  apply wp_bind, wp_data, wp_putS. destruct content as [raw|]; [|done]. rewrite (Hc _ eq_refl) in E3. cbn [fs self].
  fold (manifestOf (key (self s)) time randomId raw d). set (m := manifestOf _ _ _ _ _). fold (backupFile (key (self s)) m raw).
  apply wp_bind, wp_catch, wp_fs. cbn [fs self]. eapply wp_mono; [apply writeVaultEnvelopeExclusive_spec|]. intros o f5 [_ _ R _].
  destruct o as [[]|e]; [|split; intros _; [|apply wp_throw; split; [|intros _; apply releaseLock_error]]; done].
  destruct (R eq_refl) as [R1 R2]. apply wp_ret. split; [done|]. intros _.
  assert (b ≠ lockOf path) as Hb by (intros ->; specialize (R2 eq_refl); unfold at_, dhas in *; rewrite H4 in R2; by rewrite R2 in Hlk).
  eapply wp_mono; [apply releaseLock_same|]. intros [[]|e] s6 HS; [|done]. intros m' [= <-]. exists n, raw, d. split_and!; try done.
  change (at_ (fs s6) b = Some (Full (backupFile (key (self s)) m raw))). by rewrite HS.
Qed.

(** *** Without faults *)

Definition clean (F : @Files Raw) (h : list Handle) : @Fs Raw := mkFs F h [].

Lemma openExclusive_run p F h : dhas p F = false → openExclusive p (clean F h) = (Ok tt, clean (dset p Partial F) (h ++ [HFile p])).
Proof. intros H. unfold openExclusive, prim, bind, getS, require. cbn. by rewrite H. Qed.
Lemma link_run a b F h c : dget a F = Some c → dhas b F = false → link a b (clean F h) = (Ok tt, clean (dset b c F) h).
Proof. intros H1 H2. unfold link, prim, bind, getS, require. cbn. by rewrite H1, H2. Qed.
Lemma unlink_run p F h : dhas p F = true → unlink p (clean F h) = (Ok tt, clean (ddel p F) h).
Proof. intros H. unfold unlink, prim, bind, getS, require. cbn. by rewrite H. Qed.
Lemma readFile_run p F h c : dget p F = Some c → readFile p (clean F h) = (Ok c, clean F h).
Proof. intros H. unfold readFile, prim, bind, getS. cbn. by rewrite H. Qed.
Lemma closeIfOpen_run x F h : ∃ h', closeIfOpen x (clean F h) = (Ok tt, clean F h').
Proof. unfold closeIfOpen, bind, getS, when. cbn. destruct (bool_decide _); [|by exists h]. by eexists. Qed.
Lemma acquireLock_run lp F h : dhas lp F = false → acquireLock lp [] (clean F h) = (Ok tt, clean (dset lp Partial F) (h ++ [HFile lp])).
Proof. intros H. cbn [acquireLock]. unfold catch_, tryCatch. by rewrite openExclusive_run. Qed.

Lemma writeTemporary_run tmp t F h : dhas tmp F = false → ∃ h', writeTemporary tmp t (clean F h) = (Ok tt, clean (dset tmp (Full t) (dset tmp Partial F)) h').
Proof. intros H. unfold writeTemporary, bind. rewrite openExclusive_run by done. by eexists. Qed.
Lemma writeExclusive_run p r t F h : dhas (tmpName p r) F = false → dhas p F = false →
  ∃ F' h', writeVaultEnvelopeExclusive p r t (clean F h) = (Ok tt, clean F' h') ∧ dget p F' = Some (Full t) ∧ ∀ x, x ≠ p → x ≠ tmpName p r → dget x F' = dget x F.
Proof.
  intros Ht Hp. pose proof (tmpName_ne p r) as Hne. set (tmp := tmpName p r) in *. set (F1 := dset tmp (Full t) (dset tmp Partial F)).
  assert (dget tmp F1 = Some (Full t)) as E1 by apply dget_dset_eq.
  assert (dhas p F1 = false) as E2 by (unfold F1, dhas; rewrite !dget_dset_ne by congruence; exact Hp).
  set (F2 := ddel tmp (dset p (Full t) F1)). assert (dhas tmp (dset p (Full t) F1) = true) as E3 by (unfold dhas; rewrite dget_dset_ne by done; by rewrite E1).
  assert (∃ h2, catch_ (((writeTemporary tmp t ;;; link tmp p) ;;; unlink tmp) ;;; syncDirectory p) (λ _, throw VaultWriteError) (clean F h) = (Ok tt, clean F2 h2)) as [h2 E].
  { destruct (writeTemporary_run tmp t F h Ht) as [h1 E0]. unfold catch_, tryCatch, bind. rewrite E0, (link_run _ _ _ _ _ E1 E2), (unlink_run _ _ _ E3).
    by eexists. }
  destruct (closeIfOpen_run (HFile tmp) F2 h2) as [h3 E4]. destruct (closeIfOpen_run (HDirectory p) F2 h3) as [h4 E5].
  assert (dget tmp F2 = None) as E6 by apply dget_ddel_eq.
  exists F2, h4. split_and!.
  - unfold writeVaultEnvelopeExclusive, finally_. fold tmp. rewrite E. cbn. unfold cleanUp, bind. rewrite E4, E5.
    unfold quiet, catch_, tryCatch, bind, exists_, gets, when. cbn. unfold dhas. by rewrite E6.
  - unfold F2. rewrite dget_ddel_ne by done. apply dget_dset_eq.
  - intros x Hx Hxt. unfold F2, F1. rewrite dget_ddel_ne, !dget_dset_ne by done. done.
Qed.

Unset Default Proof Using.
Section roundtrip.
Context (backup_law : ∀ m raw a, parseBackup (stringifyBackup m raw a) = Some (Some (m, raw, Some a))).
(** A digest is 32 octets in lower-case hexadecimal. *)
Context (sha_hex : ∀ p t, hexOf 64 (sha256 p t) = true) (hmac_hex : ∀ k p t, hexOf 64 (hmacSha256 k p t) = true).
Context (raw_hex : ∀ r, hexOf 64 (sha256Raw r) = true) (string_hex : ∀ k t, hexOf 64 (hmacString k t) = true).

(** Requirements that a backup made at [time] of the content [d] meets at [now]. *)
Record Meets (time : Z) (randomId : string) (d : VaultData) (q : VaultRestoreRequirements) (now : Z) : Prop := {
  me_identity : expectedBackupId q = randomId ∧ expectedStateCommitment q = stateCommitment d;
  me_revision : safeNat (minimumRevision q) = true ∧ minimumRevision q ≤ revision d;
  me_deadline : ∀ t, earliest (policyDeadlines d) = Some t → isSafeInteger t = true ∧ time ≤ t ∧ now < t;
  me_erased : NoDup (erasedRecordIds q)
    ∧ ∀ i, i ∈ erasedRecordIds q → i ≠ "" ∧ Z.of_nat (String.length i) ≤ 256 ∧ dhas i (records d) = false;
  me_commitments : ∀ o, o ∈ commitments q → commitmentOk d o = true }.

Lemma decrypt_safe raw k d : decryptVaultData raw k = Ok d → safeNat (revision d) = true.
Proof.
  unfold decryptVaultData. destruct (parseEnvelope raw) as [e|]; [|done]. intros (u & _ & H)%obind_ok. unfold openEnvelope in H.
  destruct (aesOpen _ _ _ _) as [t|]; [|done]. destruct (parsePlain t) as [p|]; [|done]. unfold plainData in H.
  destruct (negb _ && negb _); [done|]. destruct (pl_version p =? 1); [by injection H as <-|]. destruct (pl_retention p); [|done].
  destruct (match pl_revision p with Some (Some n) => safeNat n | Some None => false | None => true end) eqn:E; [|done].
  destruct (match pl_maintenance p with Some None => false | _ => true end); [|done]. injection H as <-. cbn. by destruct (pl_revision p) as [[n|]|].
Qed.

Lemma checkBackup_accepts k time randomId raw d q now : decryptVaultData raw k = Ok d → safeNat time = true → hexOf 32 randomId = true →
  Meets time randomId d q now →
  checkBackup k (parseBackup (backupFile k (manifestOf k time randomId raw d) raw)) q now = Ok (manifestOf k time randomId raw d, raw).
Proof.
  intros Hd Ht Hid [[M1 M2] [M3 M4] M5 [M6 M7] M8]. unfold backupFile. rewrite backup_law. cbn [checkBackup]. set (m := manifestOf k time randomId raw d).
  assert (manifestOk k m raw (Some (hmacSha256 k ("proofmark-vault-backup-v1" +:+ nul) (stringifyUnsigned m raw))) = true) as Hm.
  { unfold manifestOk, m, manifestOf. cbn [bk_version backupId bk_createdAt bk_revision bk_stateCommitment ciphertextHash bk_keyId deleteBy].
    unfold stateCommitment, keyIdentifier. rewrite Hid, Ht, (decrypt_safe _ _ _ Hd), !sha_hex, raw_hex, hmac_hex, !string_hex, !String.eqb_refl. cbn.
    destruct (earliest (policyDeadlines d)) as [t|] eqn:E; [|done]. destruct (M5 t eq_refl) as (H1 & H2 & _). rewrite H1. cbn. rewrite !andb_true_r. lia. }
  rewrite Hm. cbn [orequire obind]. rewrite Hd.
  assert (requirementsOk q m d = true) as Hq.
  { unfold requirementsOk, m, manifestOf. cbn [backupId bk_revision bk_stateCommitment]. rewrite M1, M2, M3, !String.eqb_refl, Z.eqb_refl.
    rewrite (bool_decide_eq_true_2 _ M6). replace (minimumRevision q <=? revision d) with true by lia. cbn. rewrite andb_true_r. apply forallb_forall.
    intros i Hi%list_elem_of_In. destruct (M7 i Hi) as (Hn & Hl & _). apply String.eqb_neq in Hn. rewrite Hn. cbn. lia. }
  rewrite Hq. cbn [orequire obind]. unfold m at 1, manifestOf at 1. cbn [deleteBy].
  assert (match earliest (policyDeadlines d) with Some t => now <? t | None => true end = true) as He.
  { destruct (earliest (policyDeadlines d)) as [t|] eqn:E; [|done]. destruct (M5 t eq_refl) as (_ & _ & H). lia. }
  rewrite He. cbn [orequire obind]. assert (existsb (λ i, dhas i (records d)) (erasedRecordIds q) = false) as -> by (apply existsb_none; intros i Hi; by apply M7).
  cbn. assert (forallb (commitmentOk d) (commitments q) = true) as -> by (apply forallb_forall; intros o Ho; apply M8; by apply list_elem_of_In). done.
Qed.

Lemma restoreBackup_run c b dest secret key m raw q now F h d : others c = [] → dhas dest F = false → dhas (lockOf dest) F = false →
  dhas (tmpName dest (random c)) F = false → resolve b ≠ resolve dest → deriveVaultKey secret = Ok key →
  (∃ file, dget b F = Some (Full file) ∧ checkBackup key (parseBackup file) q now = Ok (m, raw)) → decryptVaultData raw key = Ok d →
  stateCommitment d = bk_stateCommitment m →
  ∃ s, restoreBackup c b dest secret q now (clean F h) = (Ok (m, Z.of_nat (length (commitments q))), s) ∧ dget dest (files s) = Some (Full raw).
Proof.
  intros Ho Hd Hl Ht Hr Hk (file & Hf & Hc) Hraw Hsc. pose proof (lock_ne_path dest) as Hlp. pose proof (tmpName_ne dest (random c)) as Htp.
  assert (tmpName dest (random c) ≠ lockOf dest) as Htl by (apply (tmp_ne_lock dest c)).
  set (F1 := dset (lockOf dest) (Full lockText) (dset (lockOf dest) Partial F)).
  assert (∀ x, x ≠ lockOf dest → dget x F1 = dget x F) as E1 by (intros x Hx; unfold F1; by rewrite !dget_dset_ne).
  destruct (writeExclusive_run dest (random c) raw F1 (h ++ [HFile (lockOf dest)])) as (F2 & h2 & E2 & Hraw2 & Hother).
  { unfold dhas in *. by rewrite E1. }
  { unfold dhas in *. by rewrite E1. }
  assert (dhas (lockOf dest) F2 = true) as El2.
  { unfold dhas. rewrite Hother by congruence. unfold F1. by rewrite dget_dset_eq. }
  set (F3 := ddel (lockOf dest) F2). set (h3 := filter (λ x, x ≠ HFile (lockOf dest)) h2).
  exists (clean F3 h3). split; [|cbn; unfold F3; by rewrite dget_ddel_ne].
  unfold restoreBackup. apply String.eqb_neq in Hr.
  assert (∀ p (G : @Files Raw) g, dhas p G = false → exists_ p (clean G g) = (Ok false, clean G g)) as Hex
    by (intros p G g Hp; unfold exists_, gets; cbn; by rewrite Hp).
  run_step (Hex dest F h Hd). rewrite Hr. run_pure. assert (lift_out (deriveVaultKey secret) (clean F h) = (Ok key, clean F h)) as Hkey by (by rewrite Hk).
  run_step Hkey. assert (catch_ (readFile b) (λ _, throw UnreadableBackup) (clean F h) = (Ok (Full file), clean F h)) as Hrd
    by (unfold catch_, tryCatch; by rewrite (readFile_run _ _ _ _ Hf)).
  run_step Hrd. cbn [parseContent]. rewrite Hc. run_pure. run_pure.
  assert (load dest key (clean F h) = (Ok emptyData, clean F h)) as Hld by (unfold load, bind; by rewrite Hex).
  run_step Hld. rewrite Ho. run_step (acquireLock_run _ _ h Hl).
  assert (finally_ (writeFile (lockOf dest) lockText ;;;
      let! e := exists_ dest in require (negb e) NotEmpty ;;;
      catch_ (writeVaultEnvelopeExclusive dest (random c) raw) (λ _, throw WriteUnconfirmed) ;;;
      let! content := readFile dest in let! restored := lift_out (decryptContent content key) in
      require (String.eqb (stateCommitment restored) (bk_stateCommitment m)) VerifyFailed)
    (λ o, releaseRestore (lockOf dest) (retainsRestore o)) (clean (dset (lockOf dest) Partial F) (h ++ [HFile (lockOf dest)])) = (Ok tt, clean F3 h3)) as Hfin.
  { unfold finally_.
    assert ((writeFile (lockOf dest) lockText ;;;
      let! e := exists_ dest in require (negb e) NotEmpty ;;;
      catch_ (writeVaultEnvelopeExclusive dest (random c) raw) (λ _, throw WriteUnconfirmed) ;;;
      let! content := readFile dest in let! restored := lift_out (decryptContent content key) in
      require (String.eqb (stateCommitment restored) (bk_stateCommitment m)) VerifyFailed) (clean (dset (lockOf dest) Partial F) (h ++ [HFile (lockOf dest)]))
      = (Ok tt, clean F2 h2)) as ->.
    - run_pure. fold (clean F1 (h ++ [HFile (lockOf dest)])). assert (dhas dest F1 = false) as Hd1 by (unfold dhas in *; by rewrite E1).
      run_step (Hex dest F1 (h ++ [HFile (lockOf dest)]) Hd1). run_pure.
      assert (catch_ (writeVaultEnvelopeExclusive dest (random c) raw) (λ _, throw WriteUnconfirmed) (clean F1 (h ++ [HFile (lockOf dest)])) = (Ok tt, clean F2 h2)) as Hw
        by (unfold catch_, tryCatch; by rewrite E2).
      run_step Hw. run_step (readFile_run _ _ h2 _ Hraw2). cbn [decryptContent]. rewrite Hraw. run_pure. rewrite Hsc, String.eqb_refl. done.
    - cbn [died retainsRestore]. unfold releaseRestore.
      assert (catch_ (close_ (HFile (lockOf dest)) ;;; ret true) (λ _, ret false) (clean F2 h2) = (Ok true, clean F2 h3)) as Hcl by done.
      assert (catch_ (unlink (lockOf dest) ;;; ret true) (λ _, ret false) (clean F2 h3) = (Ok true, clean F3 h3)) as Hul
        by (unfold catch_, tryCatch, bind; by rewrite (unlink_run _ _ _ El2)).
      unfold bind at 1. rewrite Hcl. cbn [orb negb]. unfold bind at 1. rewrite Hul. done. }
  run_step Hfin. done.
Qed.

(** A backup that createBackup answered is of the content the vault had, and
    restores: wherever its file is put, with requirements its content meets before the
    earliest policy deadline and a destination that is free, and no fault, the restore
    succeeds and the destination holds the very envelope that was backed up. The shape
    of digests and the law of the backup text are hypotheses. *)
Theorem vault_backup_restores (path : string) (c : Chance) (b : string) (time : Z) (randomId : string) (s : St Raw) (m : BackupManifest) (s1 : St Raw)
    (secret : string) :
  createBackup path c b time randomId s = (Ok m, s1) → hexOf 32 randomId = true → deriveVaultKey secret = Ok (key (self s)) →
  ∃ n raw d, dget path (after (take n (others c)) (files (fs s))) = Some (Full raw) ∧ decryptVaultData raw (key (self s)) = Ok d ∧
    ∀ q now c2 b2 dest F h, Meets time randomId d q now → others c2 = [] → dget b2 F = dget b (files (fs s1)) →
      dhas dest F = false → dhas (lockOf dest) F = false → dhas (tmpName dest (random c2)) F = false → resolve b2 ≠ resolve dest →
      ∃ s2, restoreBackup c2 b2 dest secret q now (mkFs F h []) = (Ok (m, Z.of_nat (length (commitments q))), s2)
        ∧ dget dest (files s2) = Some (Full raw).
Proof.
  intros Hb Hid Hk. pose proof (createBackup_spec path c b time randomId s) as H. unfold wp in H. rewrite Hb in H.
  destruct (H m eq_refl) as (n & raw & d & H1 & H2 & Ht & -> & H3). exists n, raw, d. split_and!; [done|done|].
  intros q now c2 b2 dest F h Hm Ho E Hd Hl Htmp Hr. eapply restoreBackup_run; try done. eexists. split; [rewrite E; exact H3|]. by apply checkBackup_accepts.
Qed.
End roundtrip.
End vault.
End Vault.

(** * Concrete files *)

Module VaultFileExample.
Import VaultData VaultOps VaultExample Fs Vault.

Abbreviation Octets := (list (string * View)).
Inductive ExRaw := XEnvelope (e : Envelope Octets) | XBackup (m : BackupManifest) (raw : ExRaw) (auth : string) | XLock.
#[export] Instance exTests : Tests (Raw:=ExRaw) := λ _ _, true.
#[export] Instance exTests_exact : Exact (Raw:=ExRaw).
Proof. done. Qed.
Definition exPlain (v : View) : option Plain := match v with VState d => Some (plainOf d) | _ => None end.
Definition exSeal (k : string) (i : Octets) (t : View) : Octets * Octets := ([(k, t)], []).
Definition exOpen (k : string) (i tg ct : Octets) : option View := match ct with [(k', t)] => if String.eqb k k' then Some t else None | _ => None end.
Definition exParse (r : ExRaw) : option (Envelope Octets) := match r with XEnvelope e => Some e | _ => None end.
Definition exParseBackup (r : ExRaw) : option (option (BackupManifest * ExRaw * option string)) :=
  match r with XBackup m raw a => Some (Some (m, raw, Some a)) | XEnvelope _ => Some None | XLock => None end.
Definition hex64 : string := "0123456789abcdef0123456789abcdef0123456789abcdef0123456789abcdef".
Definition exSha64 (p : string) (v : View) : string := hex64.
Definition exHmac64 (k p : string) (v : View) : string := hex64.
Definition exUnsigned (m : BackupManifest) (raw : ExRaw) : View := VState emptyData.

Lemma ex_aes k i t : exOpen k i (exSeal k i t).2 (exSeal k i t).1 = Some t.
Proof. cbn. by rewrite String.eqb_refl. Qed.

Abbreviation exMutate := (mutate (Text:=View) (λ v, v) exPlain exSeal exOpen (λ b, b) (λ b, b) XEnvelope exParse XLock "vault").
Abbreviation exRun64 := (runOp (Text:=View) (λ v, v) exSha64 exHmac64 exLocale exAddress).
Abbreviation ExHistory := (History (λ v, v) exPlain exSha64 exHmac64 exLocale exAddress exSeal exOpen (λ b, b) (λ b, b) XEnvelope exParse XLock "vault" "key").

Definition exChance : Chance := mkChance "00" ([] : Octets) ([] : list (@Files ExRaw → @Files ExRaw)).
Definition exVault : Vault := mkVault emptyData "key" false.
Definition exPut : VaultOp := OPut (exRecord active None).
Definition exHold : VaultOp := OHold "r1" "h1" "op:a" "case:1" 40.
Definition s1 : St ExRaw := Eval vm_compute in (exMutate exChance (exRun64 exPut) None (mkSt (mkFs [] [] []) exVault)).2.
Definition F1 : @Files ExRaw := files (fs s1).
(** The process dies when the file has been replaced and its directory not yet flushed. *)
Definition exDeath : list Io := repeat io_ok 9 ++ [io_die].
Definition s2 : St ExRaw := Eval vm_compute in (exMutate exChance (exRun64 exHold) None (mkSt (mkFs F1 [] exDeath) exVault)).2.

(** A change that starts with a test for the file that fails: it takes the vault for empty, and the history is
    replaced by the change. *)
Definition exOther : VaultRecord :=
  mkRecord "r2" "0x01" "v1" None None exSubject "0xab" JNull None None None active 10 100 None [] [] None.
Definition exLost := Eval vm_compute in
  mutate (Text:=View) (HT:=λ _ _, false) (λ v, v) exPlain exSeal exOpen (λ b, b) (λ b, b) XEnvelope exParse XLock "vault"
    exChance (exRun64 (OPut exOther)) None (mkSt (mkFs F1 [] []) exVault).
Lemma failed_test_loses_history : is_ok exLost.1 = true ∧
  (∃ d, contentsOf exPlain exOpen (λ b, b) exParse "key" (dget "vault" F1) = Ok d ∧ map fst (records d) = ["r1"] ∧ revision d = 1) ∧
  ∃ d, contentsOf exPlain exOpen (λ b, b) exParse "key" (dget "vault" (files (fs exLost.2))) = Ok d ∧ map fst (records d) = ["r2"] ∧ revision d = 1.
Proof. split_and!; [reflexivity|eexists; split_and!; reflexivity..]. Qed.

Lemma F1_history : ExHistory F1 [exPut].
Proof.
  refine (History_call _ _ _ _ _ _ _ _ _ _ _ _ _ "vault" "key" [] [] exVault exPut exChance [] [] (Ok tt) s1 _ eq_refl eq_refl _); [by apply History_start|].
  by vm_compute.
Qed.
Lemma F2_history : ExHistory (files (fs s2)) [exPut].
Proof.
  refine (History_call _ _ _ _ _ _ _ _ _ _ _ _ _ "vault" "key" F1 [exPut] exVault exHold exChance [] exDeath (Throw Death) s2 F1_history eq_refl eq_refl _).
  by vm_compute.
Qed.

Lemma vault_history_durable_witness : dhas "vault.lock" (files (fs s2)) = true ∧
  ∃ ops d, replay (λ v, v) exSha64 exHmac64 exLocale exAddress ops emptyData = Some d
    ∧ contentsOf exPlain exOpen (λ b, b) exParse "key" (dget "vault" (files (fs s2))) = Ok d ∧ revision d = Z.of_nat (length ops)
    ∧ (ops = [exPut] ∨ (∃ op, ops = [exPut] ++ [op]) ∧ dhas (lockOf "vault") (files (fs s2)) = true).
Proof.
  split; [reflexivity|].
  exact (vault_history_durable (λ v, v) exPlain exSha64 exHmac64 exLocale exAddress exSeal exOpen (λ b, b) (λ b, b) XEnvelope exParse XLock
    ex_aes (λ _, eq_refl) (λ _, eq_refl) (λ _, eq_refl) "vault" "key" (files (fs s2)) [exPut] F2_history ltac:(done)).
Defined.

(** A backup of the first content, restored elsewhere. *)
Abbreviation exBackup := (createBackup (Text:=View) (λ v, v) exPlain exSha64 exHmac64 exOpen (λ b, b) exParse exUnsigned XBackup (λ _ _, hex64) (λ _, hex64) XLock (λ p, p) "vault").
Definition exId : string := "0123456789abcdef0123456789abcdef".
Definition exSecret : string := "0123456789abcdef0123456789abcdef-".
Definition exKeyed : Vault := mkVault emptyData hex64 false.
Definition G1 : @Files ExRaw := Eval vm_compute in files (fs (exMutate exChance (exRun64 exPut) None (mkSt (mkFs [] [] []) exKeyed)).2).
Definition exMade := Eval vm_compute in exBackup exChance "backup" 50 exId (mkSt (mkFs G1 [] []) exKeyed).
Definition exManifest : BackupManifest := Eval vm_compute in ok_or (mkManifest 0 "" 0 0 "" "" "" None) exMade.1.
Lemma exMade_ok : exBackup exChance "backup" 50 exId (mkSt (mkFs G1 [] []) exKeyed) = (Ok exManifest, exMade.2).
Proof. by vm_compute. Qed.

Definition exRequirements : VaultRestoreRequirements := mkRequirements exId hex64 1 [mkCommitment "r1" "0x01" "0xAB" None None] ["r2"].
Lemma vault_backup_restores_witness : backupId exManifest = exId ∧ ∃ n raw d,
  dget "vault" (after (take n (others exChance)) G1) = Some (Full raw) ∧ decryptVaultData exPlain exOpen (λ b, b) exParse raw hex64 = Ok d.
Proof.
  split; [reflexivity|].
  destruct (vault_backup_restores (λ v, v) exPlain exSha64 exHmac64 exOpen (λ b, b) exParse exUnsigned XBackup exParseBackup (λ _, hex64) (λ _ _, hex64) (λ _, hex64) XLock (λ p, p)
    (λ _ _ _, eq_refl) (λ _ _, eq_refl) (λ _ _ _, eq_refl) (λ _, eq_refl) (λ _ _, eq_refl) "vault" exChance "backup" 50 exId (mkSt (mkFs G1 [] []) exKeyed) exManifest exMade.2
    exSecret exMade_ok eq_refl eq_refl) as (n & raw & d & H1 & H2 & _). by exists n, raw, d.
Defined.
End VaultFileExample.
