(* ===== verification/Monitor.v ===== *)
(** Reports for operators: the backlog of the vault ([src/pipeline/vault-monitor.ts] with
    [monitoringSnapshot] of [vault.ts], Module VaultMonitor) and the state of the re-screening runs
    ([src/pipeline/rescreen-schedule.ts], Module RescreenSchedule).  The report counts what the
    commands that work the backlog would select; the state of a run survives its file. *)

From Stdlib Require Import ZArith Lia Ascii String.
From stdpp Require Import base decidable option list strings sorting sets.
From S2P Require Import Prelude JS Json Store Evm Issue Revocation Retention Vault VaultFile.
Local Open Scope string_scope.
Local Open Scope list_scope.
Local Open Scope Z_scope.
Local Open Scope js_scope.

#[local] Existing Instance Job.JobState_eq_dec.
#[local] Existing Instance Observation.ObservationState_eq_dec.

Module VaultMonitor.
Import VaultData VaultOps.

Record SnapshotRecord := mkSnapRecord {
  sr_id : string; sr_state : VaultState; sr_createdAt : Z; sr_retentionUntil : Z; sr_lastScreenedAt : option Z; sourceObserved : bool }.
Record SnapshotJob := mkSnapJob {
  sj_id : string; sj_recordId : string; sj_state : Job.JobState; sj_createdAt : Z; sj_confirmedAt : option Z; hasError : bool;
  latestObservation : option (Observation.ObservationState * Z) }.
Record VaultMonitorSnapshot := mkSnapshot { s_records : list SnapshotRecord; s_revocations : list SnapshotJob }.
Record VaultMonitorLimits := mkLimits {
  screeningIntervalMs : Z; pendingIssuanceMs : Z; reviewRecordAgeMs : Z; revocationMs : Z; observationMaxAgeMs : Z }.

(** [monitoringSnapshot], of the content that was read. *)
Definition snapshotJob (j : Job.RevocationJob) : SnapshotJob :=
  mkSnapJob (Job.id j) (Job.recordId j) (Job.state j) (Job.createdAt j) (Job.confirmedAt j)
    (match Job.lastError j with Some e => negb (String.eqb e "") | None => false end)
    ((λ o, (Observation.state (Job.observation o), Observation.observedAt (Job.observation o))) <$> last (default [] (Job.observations j))).
Definition snapshotRecord (d : VaultData) (r : VaultRecord) : SnapshotRecord :=
  mkSnapRecord (id r) (state r) (createdAt r) (retentionDeadline d r) (lastScreenedAt r) (bool_decide (is_Some (sourceIssuance r))).
Definition monitoringSnapshot (d : VaultData) : VaultMonitorSnapshot :=
  mkSnapshot (map (snapshotRecord d) (dvalues (records d))) (map snapshotJob (dvalues (revocations d))).

Inductive Kind := k_record | k_revocation.
Record Finding := mkFinding { caseDigest : string; kind : Kind; code : string; ageMs : option Z }.
(** What the loops accumulate. *)
Record Acc := mkAcc {
  findings : list Finding; counts_ : list (string * Z); findingCount : Z; recordStates : list (string * Z); revocationStates : list (string * Z) }.
Record Report := mkReport {
  observedAt : Z; attention : bool; totals : nat * nat; found : Acc; findingsTruncated : bool }.

Definition demandM (b : bool) : M Acc unit := require b (EError "INVALID_MONITOR_STATE_OR_LIMITS").
Definition increase (k : string) (l : list (string * Z)) : list (string * Z) := dset k (default 0 (dget k l) + 1) l.
Definition jobStateText (s : Job.JobState) : string :=
  match s with Job.j_pending => "pending" | Job.j_prepared => "prepared" | Job.j_confirmed => "confirmed" end.
Definition observationText (s : Observation.ObservationState) : string :=
  match s with
  | Observation.ENFORCED => "ENFORCED" | Observation.SUPERSEDED => "SUPERSEDED"
  | Observation.INCONSISTENT => "INCONSISTENT" | Observation.AWAITING_HUB => "AWAITING_HUB" end.

Section monitor.
(** [ethers.id]. *)
Context (digest : string → string).

Definition add (id : string) (k : Kind) (c : string) (age : option Z) : M Acc unit :=
  modify (λ a, mkAcc (if (length (findings a) <? 100)%nat then findings a ++ [mkFinding (digest id) k c age] else findings a)
    (increase c (counts_ a)) (findingCount a + 1) (recordStates a) (revocationStates a)).

Definition inState (r : SnapshotRecord) (s : VaultState) : bool := bool_decide (sr_state r = s).
Definition checkRecord (limits : VaultMonitorLimits) (now : Z) (jobsByRecord : list string) (r : SnapshotRecord) : M Acc unit :=
  demandM (negb (String.eqb (sr_id r) "") && safeNat (sr_createdAt r) && (sr_createdAt r <=? now)
    && safeNat (sr_retentionUntil r) && (sr_createdAt r <=? sr_retentionUntil r)
    && match sr_lastScreenedAt r with Some t => safeNat t && (t <=? now) && (sr_createdAt r <=? t) | None => true end) ;;;
  modify (λ a, mkAcc (findings a) (counts_ a) (findingCount a) (increase (stateText (sr_state r)) (recordStates a)) (revocationStates a)) ;;;
  let age := now - sr_createdAt r in
  when (inState r pending && (pendingIssuanceMs limits <=? age))
    (add (sr_id r) k_record (if sourceObserved r then "HUB_MATERIALIZATION_PENDING" else "ISSUANCE_UNRECONCILED") (Some age)) ;;;
  when (inState r review && (reviewRecordAgeMs limits <=? age)) (add (sr_id r) k_record "REVIEW_RECORD_AGE" (Some age)) ;;;
  (if (inState r active || inState r review || inState r pending) && (sr_retentionUntil r <=? now) then
     add (sr_id r) k_record "RETAINED_RECORD_OUTSIDE_SCREENING" (Some (now - sr_retentionUntil r))
   else
     when (inState r active || inState r review || (inState r pending && sourceObserved r))
       (when (match sr_lastScreenedAt r with None => true | Some t => screeningIntervalMs limits <=? now - t end)
          (add (sr_id r) k_record "SCREENING_DUE" (Some (match sr_lastScreenedAt r with None => age | Some t => now - t end))))) ;;;
  when (inState r blocked && negb (bool_decide (sr_id r ∈ jobsByRecord))) (add (sr_id r) k_record "BLOCK_WITHOUT_REVOCATION" (Some age)).

Definition confirmedJob (j : SnapshotJob) : bool := bool_decide (sj_state j = Job.j_confirmed).
Definition checkJob (limits : VaultMonitorLimits) (now : Z) (j : SnapshotJob) : M Acc unit :=
  demandM (negb (String.eqb (sj_id j) "") && safeNat (sj_createdAt j) && (sj_createdAt j <=? now)) ;;;
  modify (λ a, mkAcc (findings a) (counts_ a) (findingCount a) (recordStates a) (increase (jobStateText (sj_state j)) (revocationStates a))) ;;;
  (if negb (confirmedJob j) then
     when (revocationMs limits <=? now - sj_createdAt j) (add (sj_id j) k_revocation "REVOCATION_OVERDUE" (Some (now - sj_createdAt j))) ;;;
     when (hasError j) (add (sj_id j) k_revocation "REVOCATION_ERROR" None)
   else
     demandM (match sj_confirmedAt j with Some t => safeNat t && (sj_createdAt j <=? t) && (t <=? now) | None => false end) ;;;
     let since := now - default 0 (sj_confirmedAt j) in
     when (negb (bool_decide (is_Some (latestObservation j))) && (observationMaxAgeMs limits <=? since))
       (add (sj_id j) k_revocation "HUB_OBSERVATION_MISSING" (Some since))) ;;;
  match latestObservation j with
  | None => ret tt
  | Some (st, at_) =>
      demandM (safeNat at_ && (at_ <=? MAX_SAFE_INTEGER / 1000) && (at_ * 1000 <=? now)) ;;;
      when (negb (bool_decide (st = Observation.ENFORCED))) (add (sj_id j) k_revocation ("LAST_OBSERVATION_" +:+ observationText st) None) ;;;
      when (observationMaxAgeMs limits <=? now - at_ * 1000) (add (sj_id j) k_revocation "HUB_OBSERVATION_STALE" (Some (now - at_ * 1000)))
  end.

Definition emptyAcc : Acc := mkAcc [] [] 0 [] [].
Definition monitorVault (snapshot : VaultMonitorSnapshot) (limits : VaultMonitorLimits) (now : Z) : outcome Report :=
  let positive n := safeNat n && (0 <? n) in
  let run : M Acc unit :=
    demandM (safeNat now) ;;;
    demandM (forallb positive [screeningIntervalMs limits; pendingIssuanceMs limits; reviewRecordAgeMs limits; revocationMs limits; observationMaxAgeMs limits]) ;;;
    forM (s_records snapshot) (checkRecord limits now (map sj_recordId (s_revocations snapshot))) ;;;
    forM (s_revocations snapshot) (checkJob limits now) in
  match run emptyAcc with
  | (Ok _, a) => Ok (mkReport now (0 <? findingCount a) (length (s_records snapshot), length (s_revocations snapshot)) a (100 <? findingCount a))
  | (Throw e, _) => Throw e
  end.

(** ** What is counted *)

Definition count (c : string) (l : list (string * Z)) : Z := default 0 (dget c l).
Lemma count_increase c k l : count c (increase k l) = count c l + (if String.eqb c k then 1 else 0).
Proof. unfold count, increase. rewrite dget_dset. destruct (String.eqb_spec c k) as [->|]; cbn; lia. Qed.

(** [m], when it succeeds, adds [n] to the count of the code [c] and [ns], [nj] to the counts of the states
    [s], [j]; the list of findings is of all, or of the first hundred. *)
Record Adds (c s j : string) (n ns nj : Z) (a a' : Acc) : Prop := {
  ad_code : count c (counts_ a') = count c (counts_ a) + n;
  ad_record : count s (recordStates a') = count s (recordStates a) + ns;
  ad_job : count j (revocationStates a') = count j (revocationStates a) + nj;
  ad_total : count c (counts_ a) ≤ findingCount a → count c (counts_ a') ≤ findingCount a';
  ad_list : Z.of_nat (length (findings a)) = Z.min 100 (findingCount a) → 0 ≤ findingCount a →
    Z.of_nat (length (findings a')) = Z.min 100 (findingCount a') ∧ 0 ≤ findingCount a' }.
Definition Tally (c s j : string) (n ns nj : Z) (m : M Acc unit) : Prop := ∀ a, wp m (λ o a', o = Ok tt → Adds c s j n ns nj a a') a.

Section tally.
Context (c s j : string).
Abbreviation T := (Tally c s j).

Lemma Tally_ret : T 0 0 0 (ret tt : M Acc unit).
Proof. intros a. apply wp_ret. intros _. split; lia. Qed.
Lemma Tally_bind n ns nj n' ns' nj' (m k : M Acc unit) : T n ns nj m → T n' ns' nj' k → T (n + n') (ns + ns') (nj + nj') (m ;;; k).
Proof.
  intros Hm Hk a. apply wp_bind. eapply wp_mono; [apply Hm|]. intros [[]|e] a1 H1; [|done]. eapply wp_mono; [apply Hk|].
  intros o a2 H2 Ho. destruct (H1 eq_refl) as [A1 A2 A3 A4 A5], (H2 Ho) as [B1 B2 B3 B4 B5]. split; [lia|lia|lia|auto|]. intros X Y. destruct (A5 X Y). auto.
Qed.
Lemma Tally_demand b : T 0 0 0 (demandM b).
Proof. intros a. apply wp_require; intros _; [intros _; split; lia|done]. Qed.
Lemma Tally_demand_bind b n ns nj (m : M Acc unit) : (b = true → T n ns nj m) → T n ns nj (demandM b ;;; m).
Proof. intros Hm a. apply wp_bind, wp_require; intros Hb; [by apply Hm|done]. Qed.
Lemma Tally_when (b : bool) n m : T n 0 0 m → T (if b then n else 0) 0 0 (when b m).
Proof. intros Hm. destruct b; [exact Hm|exact Tally_ret]. Qed.
Lemma Tally_if (b : bool) n n' m m' : T n 0 0 m → T n' 0 0 m' → T (if b then n else n') 0 0 (if b then m else m').
Proof. by destruct b. Qed.
Lemma Tally_add i k c' age : T (if String.eqb c c' then 1 else 0) 0 0 (add i k c' age).
Proof.
  intros a. apply wp_modify. intros _. split; cbn [findings counts_ findingCount recordStates revocationStates]; [apply count_increase|lia|lia| |].
  - rewrite count_increase. destruct (String.eqb c c'); lia.
  - intros H ?. destruct (Nat.ltb_spec (length (findings a)) 100); rewrite ?length_app; cbn [length]; lia.
Qed.
Lemma Tally_recordState t : T 0 (if String.eqb s t then 1 else 0) 0
  (modify (λ a, mkAcc (findings a) (counts_ a) (findingCount a) (increase t (recordStates a)) (revocationStates a))).
Proof. intros a. apply wp_modify. intros _. split; cbn [findings counts_ findingCount recordStates revocationStates]; [lia|apply count_increase|lia|lia|lia]. Qed.
Lemma Tally_jobState t : T 0 0 (if String.eqb j t then 1 else 0)
  (modify (λ a, mkAcc (findings a) (counts_ a) (findingCount a) (recordStates a) (increase t (revocationStates a)))).
Proof. intros a. apply wp_modify. intros _. split; cbn [findings counts_ findingCount recordStates revocationStates]; [lia|lia|apply count_increase|lia|lia]. Qed.

Definition total {A} (f : A → Z) (l : list A) : Z := foldr (λ (x : A) (n : Z), f x + n) 0 l.
Lemma Tally_forM {A B} (f g h : A → Z) (k : A → B) (m : B → M Acc unit) l : (∀ x, T (f x) (g x) (h x) (m (k x))) →
  T (total f l) (total g l) (total h l) (forM (map k l) m).
Proof. intros Hm. induction l as [|x l IH]; [exact Tally_ret|]. by apply Tally_bind. Qed.
Lemma Tally_eq n ns nj n' ns' nj' m : T n ns nj m → n = n' → ns = ns' → nj = nj' → T n' ns' nj' m.
Proof. by intros ? -> -> ->. Qed.
End tally.

Lemma total_filter {A} (P : A → Prop) `{∀ x, Decision (P x)} (f : A → Z) l : (∀ x, f x = if bool_decide (P x) then 1 else 0) →
  total f l = Z.of_nat (length (filter P l)).
Proof.
  intros Hf. induction l as [|x l IH]; [done|]. change (total f (x :: l)) with (f x + total f l).
  rewrite Hf, filter_cons, IH. case_bool_decide; case_decide; try done. cbn [length]. lia.
Qed.
Lemma total_zero {A} (l : list A) : total (λ _, 0) l = 0.
Proof. by induction l. Qed.
Lemma total_plus {A} (f g : A → Z) l : total f l + total g l = total (λ x, f x + g x) l.
Proof. induction l as [|x l IH]; [done|]. cbn [total foldr] in *. unfold total in *. lia. Qed.

Ltac tally_step :=
  match goal with
  | |- Tally _ _ _ _ _ _ (demandM _ ;;; _) => apply Tally_demand_bind; intros _
  | |- Tally _ _ _ _ _ _ (bind _ _) => eapply Tally_bind
  | |- Tally _ _ _ _ _ _ (when _ _) => apply Tally_when
  | |- Tally _ _ _ _ _ _ (add _ _ _ _) => apply Tally_add
  | |- Tally _ _ _ _ _ _ (demandM _) => apply Tally_demand
  | |- Tally _ _ _ _ _ _ (ret _) => apply Tally_ret
  | |- Tally _ _ _ _ _ _ (if _ then _ else _) => apply Tally_if
  | |- Tally _ _ _ _ _ _ (modify (λ a, mkAcc _ _ _ (increase _ _) _)) => apply Tally_recordState
  | |- Tally _ _ _ _ _ _ (modify (λ a, mkAcc _ _ _ _ (increase _ _))) => apply Tally_jobState
  end.

(** What one record adds. *)
Definition dueRecord (interval now : Z) (r : SnapshotRecord) : bool :=
  (now <? sr_retentionUntil r) && (inState r active || inState r review || (inState r pending && sourceObserved r))
  && match sr_lastScreenedAt r with None => true | Some t => interval <=? now - t end.
Definition unrevoked (jobs : list string) (r : SnapshotRecord) : bool := inState r blocked && negb (bool_decide (sr_id r ∈ jobs)).

Lemma checkRecord_due (s j : string) limits now jobs r :
  Tally "SCREENING_DUE" s j (if dueRecord (screeningIntervalMs limits) now r then 1 else 0) (if String.eqb s (stateText (sr_state r)) then 1 else 0) 0
    (checkRecord limits now jobs r).
Proof.
  unfold checkRecord. cbv zeta. eapply Tally_eq; [repeat tally_step| |lia|lia]. unfold dueRecord. rewrite Z.ltb_antisym. unfold inState.
  destruct (sr_state r), (sourceObserved r), (sr_retentionUntil r <=? now), (pendingIssuanceMs limits <=? now - sr_createdAt r),
    (reviewRecordAgeMs limits <=? now - sr_createdAt r), (bool_decide (sr_id r ∈ jobs)), (sr_lastScreenedAt r) as [t|];
    try destruct (screeningIntervalMs limits <=? now - t); reflexivity.
Qed.
Lemma checkRecord_block (s j : string) limits now jobs r :
  Tally "BLOCK_WITHOUT_REVOCATION" s j (if unrevoked jobs r then 1 else 0) (if String.eqb s (stateText (sr_state r)) then 1 else 0) 0
    (checkRecord limits now jobs r).
Proof.
  unfold checkRecord. cbv zeta. eapply Tally_eq; [repeat tally_step| |lia|lia]. unfold unrevoked, inState.
  destruct (sr_state r), (sourceObserved r), (sr_retentionUntil r <=? now), (pendingIssuanceMs limits <=? now - sr_createdAt r),
    (reviewRecordAgeMs limits <=? now - sr_createdAt r), (bool_decide (sr_id r ∈ jobs)), (sr_lastScreenedAt r) as [t|];
    try destruct (screeningIntervalMs limits <=? now - t); reflexivity.
Qed.

Lemma Tally_case (c s j : string) (b : bool) (m m' : M Acc unit) : Tally c s j 0 0 0 m → Tally c s j 0 0 0 m' → Tally c s j 0 0 0 (if b then m else m').
Proof. by destruct b. Qed.
Lemma checkJob_tally c s j limits now x : (c = "SCREENING_DUE" ∨ c = "BLOCK_WITHOUT_REVOCATION") →
  Tally c s j 0 0 (if String.eqb j (jobStateText (sj_state x)) then 1 else 0) (checkJob limits now x).
Proof.
  intros Hc. unfold checkJob. apply Tally_demand_bind; intros _.
  assert (∀ k, (k ∈ ["REVOCATION_OVERDUE"; "REVOCATION_ERROR"; "HUB_OBSERVATION_MISSING"; "HUB_OBSERVATION_STALE"] ∨ ∃ o, k = "LAST_OBSERVATION_" +:+ observationText o) →
    ∀ b i age, Tally c s j 0 0 0 (when b (add i k_revocation k age))) as Hadd.
  { intros k Hk b i age. eapply Tally_eq; [apply Tally_when, Tally_add| |done|done]. assert (String.eqb c k = false) as ->; [|by destruct b].
    apply String.eqb_neq. intros ->. destruct Hk as [Hk|[o Hk]]; [|destruct o; destruct Hc as [E|E]; rewrite E in Hk; discriminate].
    destruct Hc as [-> | ->]; repeat (apply elem_of_cons in Hk as [?|Hk]; [discriminate|]); by apply elem_of_nil in Hk. }
  replace (if String.eqb j (jobStateText (sj_state x)) then 1 else 0) with ((if String.eqb j (jobStateText (sj_state x)) then 1 else 0) + (0 + 0)) by lia.
  apply (Tally_bind c s j 0 0 _ (0 + 0) (0 + 0) (0 + 0)); [apply Tally_jobState|]. apply Tally_bind; [apply Tally_case|].
  - apply (Tally_bind c s j 0 0 0 0 0 0); apply Hadd; left; set_solver.
  - apply Tally_demand_bind; intros _. cbv zeta. apply Hadd. left; set_solver.
  - destruct (latestObservation x) as [[st at_]|]; [|apply Tally_ret]. apply Tally_demand_bind; intros _.
    apply (Tally_bind c s j 0 0 0 0 0 0); apply Hadd; [right; by eexists|left; set_solver].
Qed.

(** The whole report, over a content of the vault. *)
Lemma report_tally c s j d limits now rep (n : VaultRecord → Z) : (c = "SCREENING_DUE" ∨ c = "BLOCK_WITHOUT_REVOCATION") →
  (∀ r, Tally c s j (n r) (if String.eqb s (stateText (state r)) then 1 else 0) 0
     (checkRecord limits now (map Job.recordId (dvalues (revocations d))) (snapshotRecord d r))) →
  monitorVault (monitoringSnapshot d) limits now = Ok rep →
  count c (counts_ (found rep)) = total n (dvalues (records d))
  ∧ count s (recordStates (found rep)) = total (λ r, if String.eqb s (stateText (state r)) then 1 else 0) (dvalues (records d))
  ∧ count j (revocationStates (found rep)) = total (λ x, if String.eqb j (jobStateText (Job.state x)) then 1 else 0) (dvalues (revocations d))
  ∧ count c (counts_ (found rep)) ≤ findingCount (found rep)
  ∧ Z.of_nat (length (findings (found rep))) = Z.min 100 (findingCount (found rep)) ∧ attention rep = (0 <? findingCount (found rep)).
Proof.
  intros Hc Hn. unfold monitorVault. cbv zeta. set (m := bind _ _).
  assert (Tally c s j (total n (dvalues (records d))) (total (λ r, if String.eqb s (stateText (state r)) then 1 else 0) (dvalues (records d)))
    (total (λ x, if String.eqb j (jobStateText (Job.state x)) then 1 else 0) (dvalues (revocations d))) m) as HT.
  { unfold m. apply Tally_demand_bind; intros _. apply Tally_demand_bind; intros _.
    eapply Tally_eq; [apply Tally_bind; [apply Tally_forM; intros r; cbn; rewrite map_map; apply Hn|apply Tally_forM; intros x; by apply checkJob_tally]| | |];
      rewrite ?total_zero, ?Z.add_0_r, ?Z.add_0_l; reflexivity. }
  specialize (HT emptyAcc). unfold wp in HT. destruct (m emptyAcc) as [[[]|e] a]; [|done]. intros [= <-]. destruct (HT eq_refl) as [H1 H2 H3 H4 H5].
  cbn [found attention]. cbn [counts_ recordStates revocationStates findings findingCount emptyAcc] in *. unfold count in H1, H2, H3. cbn [dget default] in *.
  split_and!; try done; [apply H4; done|by apply H5].
Qed.

Lemma due_listed d now interval r : interval ≤ now →
  dueRecord interval now (snapshotRecord d r)
  = (now <? retentionDeadline d r)
    && (bool_decide (state r = active) || bool_decide (state r = review) || (bool_decide (state r = pending) && bool_decide (is_Some (sourceIssuance r))))
    && (match lastScreenedAt r with None => true | Some t => (t =? 0) || (interval <=? now - t) end || false).
Proof.
  intros Hi. unfold dueRecord, inState. cbn. f_equal. destruct (lastScreenedAt r) as [t|]; [|done]. rewrite orb_false_r.
  destruct (Z.eqb_spec t 0) as [->|]; [|done]. rewrite Z.sub_0_r. by apply Z.leb_le.
Qed.
Lemma filter_total {A} (f : A → bool) l : total (λ x, if f x then 1 else 0) l = Z.of_nat (length (filter (λ x, f x = true) l)).
Proof. apply total_filter. intros x. by destruct (f x). Qed.
Lemma length_filter_iff {A} (P Q : A → Prop) `{∀ x, Decision (P x), ∀ x, Decision (Q x)} l : (∀ x, P x ↔ Q x) → length (filter P l) = length (filter Q l).
Proof. intros HPQ. f_equal. apply list_filter_iff. apply HPQ. Qed.
Lemma hasJob_ids d i : hasJob d i = bool_decide (i ∈ map Job.recordId (dvalues (revocations d))).
Proof.
  unfold hasJob, jobsOf. apply bool_decide_ext. split.
  - intros H. destruct (filter _ _) as [|j l] eqn:E; [done|]. assert (j ∈ filter (λ j, Job.recordId j = i) (dvalues (revocations d))) as Hj by (rewrite E; left).
    apply list_elem_of_filter in Hj as [<- Hj]. by apply list_elem_of_fmap_2.
  - intros (j & -> & Hj)%list_elem_of_fmap H. assert (j ∈ filter (λ x, Job.recordId x = Job.recordId j) (dvalues (revocations d))) as Hf by (by apply list_elem_of_filter).
    rewrite H in Hf. by apply elem_of_nil in Hf.
Qed.
Lemma counts_total s d : count (stateText s) (counts d) = total (λ r, if String.eqb (stateText s) (stateText (state r)) then 1 else 0) (dvalues (records d)).
Proof.
  unfold counts. assert (∀ l out, count (stateText s) (fold_left (λ out r, dset (stateText (state r)) (default 0 (dget (stateText (state r)) out) + 1) out) l out)
    = count (stateText s) out + total (λ r, if String.eqb (stateText s) (stateText (state r)) then 1 else 0) l) as H.
  { induction l as [|r l IH]; intros out; cbn [fold_left total foldr]; [lia|]. rewrite IH. change (dset _ _ out) with (increase (stateText (state r)) out).
    rewrite count_increase. unfold total. lia. }
  rewrite H. by destruct s.
Qed.

(** A report of the vault counts what the commands that work the backlog would
    select from the same content: the cases due for screening, the blocked cases without
    a revocation, the revocations not confirmed, the records by state; a report without
    a finding means the first two are none, and the findings listed are all or the first
    hundred. *)
Theorem monitor_counts_backlog (d : VaultData) (limits : VaultMonitorLimits) (now : Z) (rep : Report) :
  monitorVault (monitoringSnapshot d) limits now = Ok rep → screeningIntervalMs limits ≤ now →
  let a := found rep in
  count "SCREENING_DUE" (counts_ a) = Z.of_nat (length (listForRescreen d now (screeningIntervalMs limits) None))
  ∧ count "BLOCK_WITHOUT_REVOCATION" (counts_ a) = Z.of_nat (length (listLegacyBlocked d))
  ∧ count "pending" (revocationStates a) + count "prepared" (revocationStates a) = Z.of_nat (length (listPendingRevocations d))
  ∧ (∀ s, count (stateText s) (recordStates a) = count (stateText s) (counts d))
  ∧ (attention rep = false → listForRescreen d now (screeningIntervalMs limits) None = [] ∧ listLegacyBlocked d = [])
  ∧ Z.of_nat (length (findings a)) = Z.min 100 (findingCount a).
Proof.
  intros Hr Hi a.
  assert (count "SCREENING_DUE" (counts_ a) = Z.of_nat (length (listForRescreen d now (screeningIntervalMs limits) None)) ∧
    count "SCREENING_DUE" (counts_ a) ≤ findingCount a) as [H1 H1'].
  { destruct (report_tally "SCREENING_DUE" "" "" d limits now rep (λ r, if dueRecord (screeningIntervalMs limits) now (snapshotRecord d r) then 1 else 0)
      (or_introl eq_refl) (λ r, checkRecord_due "" "" limits now _ _) Hr) as (E & _ & _ & L & _). split; [|done]. unfold a. rewrite E, filter_total. f_equal.
    apply length_filter_iff. intros r. by rewrite due_listed. }
  assert (count "BLOCK_WITHOUT_REVOCATION" (counts_ a) = Z.of_nat (length (listLegacyBlocked d)) ∧
    count "BLOCK_WITHOUT_REVOCATION" (counts_ a) ≤ findingCount a) as [H2 H2'].
  { destruct (report_tally "BLOCK_WITHOUT_REVOCATION" "" "" d limits now rep (λ r, if unrevoked (map Job.recordId (dvalues (revocations d))) (snapshotRecord d r) then 1 else 0)
      (or_intror eq_refl) (λ r, checkRecord_block "" "" limits now _ _) Hr) as (E & _ & _ & L & _). split; [|done]. unfold a. rewrite E, filter_total.
    unfold listLegacyBlocked. rewrite length_map. f_equal. apply length_filter_iff. intros r. unfold unrevoked, inState. cbn. rewrite <- hasJob_ids.
    by rewrite andb_true_iff, bool_decide_eq_true, negb_true_iff. }
  assert (∀ s j, count s (recordStates a) = total (λ r, if String.eqb s (stateText (state r)) then 1 else 0) (dvalues (records d))
    ∧ count j (revocationStates a) = total (λ x, if String.eqb j (jobStateText (Job.state x)) then 1 else 0) (dvalues (revocations d))
    ∧ Z.of_nat (length (findings a)) = Z.min 100 (findingCount a) ∧ attention rep = (0 <? findingCount a)) as H.
  { intros s j. destruct (report_tally "SCREENING_DUE" s j d limits now rep (λ r, if dueRecord (screeningIntervalMs limits) now (snapshotRecord d r) then 1 else 0)
      (or_introl eq_refl) (λ r, checkRecord_due s j limits now _ _) Hr) as (_ & E1 & E2 & _ & E3 & E4). done. }
  split_and!; [done|done| |intros s; rewrite counts_total; apply (H (stateText s) "")| |apply (H "" "")].
  - rewrite (proj1 (proj2 (H "" "pending"))), (proj1 (proj2 (H "" "prepared"))). rewrite total_plus. unfold listPendingRevocations. apply total_filter. intros x.
    unfold isConfirmed. destruct (Job.state x); reflexivity.
  - intros Ha. destruct (H "" "") as (_ & _ & _ & E). rewrite Ha in E. split; apply length_zero_iff_nil; lia.
Qed.
End monitor.
End VaultMonitor.

(** * The runs of the re-screening *)

Module RescreenSchedule.
Import Fs.

Inductive Phase :=
  | running
  | succeeded (completedAt due blocked sourceConfirmed pending : Z)
  | failed (completedAt : Z).
Record RescreenRunState := mkRun { scheduleId : string; sanctionsSnapshotId : string; scheduleIntervalMs : Z; startedAt : Z; phase : Phase }.
Record RescreenScheduleLimits := mkLimits { l_scheduleId : string; l_sanctionsSnapshotId : string; l_scheduleIntervalMs : Z; maxRunMs : Z }.

Definition RESCREEN_RUN_STATE_MAX_BYTES : Z := 64 * 1024.
Definition InvalidRunState : exn := EError "INVALID_RESCREEN_RUN_STATE".
Definition demand (b : bool) : outcome unit := orequire b InvalidRunState.
Definition isScheduleId : string → bool := Observation.isReference.
Definition isSnapshotId (s : string) : bool := (String.length s =? 64)%nat && allChars isLowerHex s.

(** The fields of an object of which the types are tested. *)
Definition text (k : string) (o : list (string * json)) : option string := match dget k o with Some (JStr s) => Some s | _ => None end.
Definition integer (k : string) (o : list (string * json)) : option Z :=
  match dget k o with Some (JNum n) => if safeNat n then Some n else None | _ => None end.
Definition need {A} (o : option A) : outcome A := match o with Some a => Ok a | None => Throw InvalidRunState end.
Definition common : list string := ["phase"; "sanctionsSnapshotId"; "scheduleId"; "scheduleIntervalMs"; "startedAt"; "version"].
Definition exactly (o : list (string * json)) (keys : list string) : bool := bool_decide (sort_by str_leb (dkeys o) = sort_by str_leb keys).

Definition validate (value : json) : outcome RescreenRunState :=
  match value with
  | JObj o =>
      let? _ := demand (bool_decide (integer "version" o = Some 2)) in
      let? sid := need (text "scheduleId" o) in let? _ := demand (isScheduleId sid) in
      let? snap := need (text "sanctionsSnapshotId" o) in let? _ := demand (isSnapshotId snap) in
      let? interval := need (integer "scheduleIntervalMs" o) in let? _ := demand (0 <? interval) in
      let? started := need (integer "startedAt" o) in
      let state := mkRun sid snap interval started in
      let? ph := need (text "phase" o) in
      if String.eqb ph "running" then let? _ := demand (exactly o common) in Ok (state running)
      else if String.eqb ph "failed" then
          let? completed := need (integer "completedAt" o) in let? _ := demand (started <=? completed) in
          let? _ := demand (exactly o (common ++ ["completedAt"])) in Ok (state (failed completed))
      else if String.eqb ph "succeeded" then
          let? completed := need (integer "completedAt" o) in let? _ := demand (started <=? completed) in
          let? due := need (integer "due" o) in let? blocked := need (integer "blocked" o) in let? _ := demand (blocked <=? due) in
          let? confirmed := need (integer "sourceConfirmed" o) in let? pending := need (integer "pending" o) in
          let? _ := demand (exactly o (common ++ ["completedAt"; "due"; "blocked"; "sourceConfirmed"; "pending"])) in
          Ok (state (succeeded completed due blocked confirmed pending))
      else Throw InvalidRunState
  | _ => Throw InvalidRunState
  end.

(** The object of a state, as the runner writes it. *)
Definition toJson (s : RescreenRunState) : json :=
  let head p := [("version", JNum 2); ("scheduleId", JStr (scheduleId s)); ("sanctionsSnapshotId", JStr (sanctionsSnapshotId s)); ("phase", JStr p);
    ("scheduleIntervalMs", JNum (scheduleIntervalMs s)); ("startedAt", JNum (startedAt s))] in
  JObj (match phase s with
    | running => head "running"
    | succeeded t d b c p => head "succeeded" ++ [("completedAt", JNum t); ("due", JNum d); ("blocked", JNum b); ("sourceConfirmed", JNum c); ("pending", JNum p)]
    | failed t => head "failed" ++ [("completedAt", JNum t)]
    end).

Record Valid (s : RescreenRunState) : Prop := {
  va_ids : isScheduleId (scheduleId s) = true ∧ isSnapshotId (sanctionsSnapshotId s) = true;
  va_interval : safeNat (scheduleIntervalMs s) = true ∧ 0 < scheduleIntervalMs s;
  va_started : safeNat (startedAt s) = true;
  va_phase : match phase s with
    | running => True
    | succeeded t d b c p => Forall (λ n, safeNat n = true) [t; d; b; c; p] ∧ startedAt s ≤ t ∧ b ≤ d
    | failed t => safeNat t = true ∧ startedAt s ≤ t
    end }.

Lemma validate_toJson s : Valid s → validate (toJson s) = Ok s.
Proof.
  intros [[H1 H2] [H3 H4] H5 H6]. apply Z.ltb_lt in H4.
  destruct s as [sid snap interval started ph]; cbn [scheduleId sanctionsSnapshotId scheduleIntervalMs startedAt phase] in *.
  destruct ph as [|t d b c p|t]; unfold validate, toJson; cbn -[isScheduleId isSnapshotId safeNat exactly Z.leb]; unfold integer; cbn -[isScheduleId isSnapshotId safeNat exactly Z.leb].
  - rewrite H1, H2, H3. cbn -[safeNat exactly]. rewrite H4. cbn -[safeNat exactly]. rewrite H5. reflexivity.
  - destruct H6 as (H6 & H7%Z.leb_le & H8%Z.leb_le). rewrite !Forall_cons in H6. destruct H6 as (A1 & A2 & A3 & A4 & A5 & _).
    rewrite H1, H2, H3. cbn -[safeNat exactly Z.leb]. rewrite H4. cbn -[safeNat exactly Z.leb]. rewrite H5, A1. cbn -[safeNat exactly Z.leb].
    rewrite H7. cbn -[safeNat exactly Z.leb]. rewrite A2, A3. cbn -[safeNat exactly Z.leb]. rewrite H8. cbn -[safeNat exactly Z.leb]. by rewrite A4, A5.
  - destruct H6 as [H6 H7%Z.leb_le]. rewrite H1, H2, H3. cbn -[safeNat exactly Z.leb]. rewrite H4. cbn -[safeNat exactly Z.leb]. rewrite H5, H6. cbn -[safeNat exactly Z.leb].
    by rewrite H7.
Qed.

Lemma need_ok {A} (o : option A) a : need o = Ok a → o = Some a.
Proof. destruct o; [by intros [= ->]|done]. Qed.
Lemma integer_ok k o n : integer k o = Some n → safeNat n = true.
Proof. unfold integer. destruct (dget k o) as [[]|]; try done. destruct (safeNat _) eqn:E; [by intros [= <-]|done]. Qed.
Ltac validated H :=
  repeat match type of H with obind _ _ = Ok _ => let a := fresh "a" in let E := fresh "E" in apply obind_ok in H as (a & E & H);
    try (apply orequire_ok in E); try (apply need_ok in E) end.
Lemma validate_valid v s : validate v = Ok s → Valid s.
Proof.
  unfold validate, demand. destruct v as [| | | | | | | |o]; try done. intros H. validated H.
  repeat match goal with E : integer _ _ = Some _ |- _ => apply integer_ok in E end.
  assert (∀ p, (match p with running => True | succeeded t d b c p => Forall (λ n, safeNat n = true) [t; d; b; c; p] ∧ a6 ≤ t ∧ b ≤ d
     | failed t => safeNat t = true ∧ a6 ≤ t end) → Valid (mkRun a0 a2 a4 a6 p)) as HV by (intros p Hp; split; cbn; try done; split; [done|lia]).
  destruct (String.eqb a7 "running"); [validated H; injection H as <-; by apply HV|].
  destruct (String.eqb a7 "failed"); [validated H; injection H as <-; apply HV; split; [by eapply integer_ok|lia]|].
  destruct (String.eqb a7 "succeeded"); [|done]. validated H. injection H as <-. apply HV.
  repeat match goal with E : integer _ _ = Some _ |- _ => apply integer_ok in E end. rewrite !Forall_cons. split_and!; try done; lia.
Qed.

(** The text of a state determines it. *)
Lemma toJson_inj s s' : validate (toJson s) = Ok s' → s' = s.
Proof.
  intros H. pose proof (validate_valid _ _ H) as HV. unfold validate, demand in H.
  destruct s as [sid snap interval started ph], ph as [|t d b c p|t]; cbn -[isScheduleId isSnapshotId safeNat exactly Z.leb orequire] in H;
    validated H; unfold integer in *; cbn -[safeNat] in *; repeat match goal with E : context [safeNat ?n] |- _ => destruct (safeNat n); [|discriminate] end; simplify_eq; done.
Qed.

(** ** The file of the last run *)

Section file.
Context {Raw : Type}.
(** The text of a value with a line feed, what a text parses to, and its length in octets. *)
Context (stringifyLine : json → Raw) (parseBytes : Raw → option json) (byteLength : Raw → Z) `{HT : !Tests (Raw:=Raw)}.

Definition readRescreenRunState (path : string) : M (@Fs Raw) RescreenRunState :=
  let! content := readFile path in
  match content with
  | Partial => throw InvalidRunState
  | Full bytes =>
      lift_out (demand ((0 <? byteLength bytes) && (byteLength bytes <=? RESCREEN_RUN_STATE_MAX_BYTES))) ;;;
      lift_out (match parseBytes bytes with Some v => validate v | None => Throw (EClass "SyntaxError" "JSON") end)
  end.

Definition WriteUnconfirmed : exn := EError "RESCREEN_RUN_STATE_WRITE_UNCONFIRMED".
Definition writeRescreenRunState (path random : string) (value : RescreenRunState) : M (@Fs Raw) unit :=
  let! state := lift_out (validate (toJson value)) in
  let bytes := stringifyLine (toJson state) in
  lift_out (demand (byteLength bytes <=? RESCREEN_RUN_STATE_MAX_BYTES)) ;;;
  mkdir ;;;
  replaceFile WriteUnconfirmed path random bytes.
End file.

Record ScheduleReport := mkScheduleReport {
  r_observedAt : Z; r_scheduleId : string; r_sanctionsSnapshotId : string; runnerState : Phase; r_attention : bool; lastStartedAt : Z;
  lastCompletedAt : option Z; r_findingCount : Z; r_counts : list (string * Z) }.
Definition completedAt (p : Phase) : option Z := match p with running => None | succeeded t _ _ _ _ => Some t | failed t => Some t end.
Definition codes (s : RescreenRunState) (limits : RescreenScheduleLimits) (now : Z) : list string :=
  match phase s with
  | running => if maxRunMs limits <=? now - startedAt s then ["RUN_STALLED"] else []
  | failed _ => ["LAST_RUN_FAILED"]
  | succeeded _ _ _ _ pending => (if 0 <? pending then ["LAST_RUN_PENDING"] else [])
      ++ (if l_scheduleIntervalMs limits <=? now - startedAt s then ["RUN_MISSED"] else [])
  end.
Definition monitorRescreenSchedule (value : json) (limits : RescreenScheduleLimits) (now : Z) : outcome ScheduleReport :=
  let positive n := safeNat n && (0 <? n) in
  let? _ := demand (safeNat now && isScheduleId (l_scheduleId limits) && isSnapshotId (l_sanctionsSnapshotId limits)
              && positive (l_scheduleIntervalMs limits) && positive (maxRunMs limits)) in
  let? s := validate value in
  let? _ := demand (String.eqb (scheduleId s) (l_scheduleId limits) && String.eqb (sanctionsSnapshotId s) (l_sanctionsSnapshotId limits)
              && (scheduleIntervalMs s =? l_scheduleIntervalMs limits) && (startedAt s <=? now)) in
  let? _ := demand (match completedAt (phase s) with Some t => t <=? now | None => true end) in
  let cs := codes s limits now in
  Ok (mkScheduleReport now (scheduleId s) (sanctionsSnapshotId s) (phase s) (negb (bool_decide (cs = []))) (startedAt s) (completedAt (phase s))
        (Z.of_nat (length cs)) (map (λ c, (c, 1)) cs)).

(** The last run is in order: it goes on in its time, or it succeeded with nothing left and the next is not late. *)
Definition InOrder (s : RescreenRunState) (limits : RescreenScheduleLimits) (now : Z) : Prop :=
  match phase s with
  | running => now - startedAt s < maxRunMs limits
  | failed _ => False
  | succeeded _ _ _ _ pending => pending = 0 ∧ now - startedAt s < l_scheduleIntervalMs limits
  end.
Lemma codes_nil s limits now : Valid s → codes s limits now = [] ↔ InOrder s limits now.
Proof.
  intros HV. unfold codes, InOrder. destruct (phase s) as [|t d b c p|t] eqn:E.
  - destruct (maxRunMs limits <=? now - startedAt s) eqn:?; split; try done; lia.
  - pose proof (va_phase _ HV) as H. rewrite E, !Forall_cons in H. destruct H as ((_ & _ & _ & _ & Hp & _) & _). apply safeNat_spec in Hp.
    destruct (0 <? p) eqn:?, (l_scheduleIntervalMs limits <=? now - startedAt s) eqn:?; split; try done; lia.
  - done.
Qed.

Section reported.
Context {Raw : Type} (stringifyLine : json → Raw) (parseBytes : Raw → option json) (byteLength : Raw → Z) `{HT : !Tests (Raw:=Raw)}.
Context (json_law : ∀ v, parseBytes (stringifyLine v) = Some v ∧ 0 < byteLength (stringifyLine v)).
Abbreviation write := (writeRescreenRunState stringifyLine byteLength).
Abbreviation read := (readRescreenRunState parseBytes byteLength).

Lemma write_spec path random s (w : @Fs Raw) : wp (write path random s) (λ o w', (∀ p, p ≠ tmpName path random → p ≠ path → at_ w' p = at_ w p)
  ∧ (at_ w' path = at_ w path ∧ o ≠ Ok tt ∨ Valid s ∧ at_ w' path = Some (Full (stringifyLine (toJson s)))
     ∧ byteLength (stringifyLine (toJson s)) ≤ RESCREEN_RUN_STATE_MAX_BYTES)) w.
Proof.
  unfold writeRescreenRunState. apply wp_bind, wp_lift_out. destruct (validate (toJson s)) as [s'|] eqn:E; [|split; auto].
  assert (Valid s ∧ s' = s) as [HV ->].
  { pose proof (validate_valid _ _ E) as HV. assert (s' = s) as ->; [|done]. by apply toJson_inj. }
  apply wp_bind, wp_lift_out. destruct (demand _) as [[]|] eqn:Ed; [|split; auto]. apply orequire_ok, Z.leb_le in Ed.
  apply wp_bind. eapply wp_mono; [apply mkdir_still|]. intros o w1 H1. assert (∀ p, at_ w1 p = at_ w p) as Ew by (intros p; unfold at_; by rewrite H1).
  destruct o as [[]|e]; [|split; [intros; apply Ew|left; rewrite Ew; done]]. eapply wp_mono; [apply replaceFile_spec|]. intros o w2 [R1 R2 R3 R4].
  split; [intros p ? ?; rewrite R1 by done; apply Ew|]. destruct R2 as [R2|[R2 _]]; [|right; by rewrite R2].
  destruct o as [[]|e]; [right; destruct (R3 eq_refl) as [-> _]; done|left; by rewrite R2, Ew].
Qed.

(** Whatever fails while the state of a run is written: other files are as
    before, and the state file is as it was or whole and new; when new, a later read
    answers exactly the state, and a report on it asks for attention unless the run is
    within its time, or succeeded with nothing pending and the next is not late. The law
    of JSON texts is a hypothesis. *)
Theorem rescreen_run_reported (path random : string) (s : RescreenRunState) (w : @Fs Raw) :
  let '(o, w') := write path random s w in
  (∀ p, p ≠ tmpName path random → p ≠ path → dget p (files w') = dget p (files w)) ∧
  (dget path (files w') = dget path (files w) ∧ o ≠ Ok tt ∨
   Valid s ∧ (read path (mkFs (files w') [] [])).1 = Ok s ∧
   ∀ limits now rep, monitorRescreenSchedule (toJson s) limits now = Ok rep → (r_attention rep = false ↔ InOrder s limits now)).
Proof.
  pose proof (write_spec path random s w) as H. unfold wp in H. destruct (write path random s w) as [o w']. destruct H as [H1 [H2|(HV & H2 & H3)]]; (split; [exact H1|]).
  { by left. }
  right. cbn in H2. split_and!; [done| |].
  - unfold readRescreenRunState. unfold bind. cbn [fst]. unfold readFile, prim, bind, getS. cbn. unfold at_ in H2. rewrite H2. cbn.
    destruct (json_law (toJson s)) as [E1 E2]. unfold demand. replace ((0 <? byteLength (stringifyLine (toJson s))) && _) with true by lia. cbn.
    rewrite E1. by apply validate_toJson.
  - intros limits now rep Hm. unfold monitorRescreenSchedule in Hm. validated Hm. rewrite validate_toJson in E0 by done. injection E0 as <-.
    injection Hm as <-. cbn [r_attention]. rewrite <- codes_nil by done. destruct (bool_decide_reflect (codes s limits now = [])); done.
Qed.
End reported.
End RescreenSchedule.

(** * Concrete reports *)

Module MonitorExample.
Import VaultExample.

Definition exLimits : VaultMonitor.VaultMonitorLimits := VaultMonitor.mkLimits 50 50 50 50 50.
Definition exReport : VaultMonitor.Report := Eval vm_compute in
  ok_or (VaultMonitor.mkReport 0 false (0%nat, 0%nat) VaultMonitor.emptyAcc false)
    (VaultMonitor.monitorVault (λ i, i) (VaultMonitor.monitoringSnapshot d1) exLimits 70).
Lemma exReport_ok : VaultMonitor.monitorVault (λ i, i) (VaultMonitor.monitoringSnapshot d1) exLimits 70 = Ok exReport.
Proof. by vm_compute. Qed.
Lemma monitor_counts_backlog_witness :
  VaultMonitor.count "SCREENING_DUE" (VaultMonitor.counts_ (VaultMonitor.found exReport)) = 1
  ∧ VaultMonitor.count "SCREENING_DUE" (VaultMonitor.counts_ (VaultMonitor.found exReport)) = Z.of_nat (length (VaultOps.listForRescreen d1 70 50 None)).
Proof.
  split; [reflexivity|]. exact (proj1 (VaultMonitor.monitor_counts_backlog (λ i, i) d1 exLimits 70 exReport exReport_ok ltac:(vm_compute; done))).
Defined.

#[local] Instance exJsonTests : Fs.Tests (Raw:=json) := λ _ _, true.
Definition exSnapshotId : string := "0123456789abcdef0123456789abcdef0123456789abcdef0123456789abcdef".
Definition exState : RescreenSchedule.RescreenRunState := RescreenSchedule.mkRun "daily" exSnapshotId 86400000 1000 (RescreenSchedule.succeeded 2000 3 1 1 0).
Definition exWritten : @Fs.Fs json := Eval vm_compute in
  (RescreenSchedule.writeRescreenRunState (λ v, v) (λ _, 100) "state" "00" exState (Fs.mkFs [] [] [])).2.
Lemma exWritten_ok : RescreenSchedule.writeRescreenRunState (λ v, v) (λ _, 100) "state" "00" exState (Fs.mkFs [] [] []) = (Ok tt, exWritten).
Proof. by vm_compute. Qed.
Lemma rescreen_run_reported_witness :
  RescreenSchedule.writeRescreenRunState (λ v, v) (λ _, 100) "state" "00" exState (Fs.mkFs [] [] []) = (Ok tt, exWritten) ∧
  (RescreenSchedule.readRescreenRunState (λ v, Some v) (λ _, 100) "state" (Fs.mkFs (Fs.files exWritten) [] [])).1 = Ok exState.
Proof.
  split; [exact exWritten_ok|].
  pose proof (RescreenSchedule.rescreen_run_reported (λ v, v) (λ v, Some v) (λ _, 100) (λ v, conj eq_refl eq_refl) "state" "00" exState (Fs.mkFs [] [] [])) as H.
  rewrite exWritten_ok in H. destruct H as [_ [[_ H]|(_ & H & _)]]; [by destruct H|exact H].
Defined.
End MonitorExample.
