(* ===== verification/Rescreen.v ===== *)
(** Re-screening of retained cases and the delivery of their revocations: the runner of
    [src/pipeline/rescreen.ts] (Module Rescreen) against an interface of the vault (Module
    VaultClient) that the object over its file implements (Module VaultProcess).  What the chain
    and the screening engine answer, what other processes do to the vault's file while the runner
    waits, faults and deaths are arbitrary; only, the other processes are not runners. *)

From Stdlib Require Import ZArith Lia Ascii String.
From stdpp Require Import base decidable option list strings relations sorting.
From S2P Require Import Prelude JS Json Store Evm Issue Revocation Retention Vault VaultFile.
Local Open Scope string_scope.
Local Open Scope list_scope.
Local Open Scope Z_scope.
Local Open Scope js_scope.
Set Default Proof Using "Type".

(** * The vault, as the runner uses it *)

Module VaultClient.
Import VaultData VaultOps.
#[local] Existing Instance JobKeeps_preorder.

(** The operations of an [EvidenceVault] object, and what happens to its state while a promise is
    awaited. *)
Class VaultHandle (S : Type) := {
  assertWritable : M S unit;
  listPending : M S (list Job.RevocationJob);
  listDue : Z → Z → option (list (string * Z)) → M S (list VaultRecord);
  mutate : ∀ {A}, M VaultData A → M S A;
  meanwhile : S → S }.

Section laws.
Context {Text : Type} (stringifyView : View → Text) (sha256 : string → Text → string) (hmacSha256 : string → string → Text → string).
Context (localeLe : string → string → bool) (isAddress : string → bool).
Abbreviation commit := (commit stringifyView sha256 hmacSha256 localeLe isAddress).
Abbreviation Reach := (Reach stringifyView sha256 hmacSha256 localeLe isAddress).

(** A change by a process that is not a runner: it reports no revert. *)
Definition Other (d d' : VaultData) : Prop := ∃ op, reverts op = false ∧ commit op d = Some d'.
Abbreviation Others := (rtc Other).

(** What the object promises: it is over a file whose content [Holds] says. *)
Class VaultLaws (S : Type) `{VaultHandle S} := {
  Holds : S → VaultData → Prop;
  restarts : S → S → Prop;
  law_assertWritable s d : Holds s d → wp assertWritable (λ _ s', Holds s' d) s;
  law_listPending s d : Holds s d → wp listPending (λ o s', Holds s' d ∧ ∀ l, o = Ok l → l = listPendingRevocations d) s;
  law_listDue now interval versions s d : Holds s d →
    wp (listDue now interval versions) (λ o s', Holds s' d ∧ ∀ l, o = Ok l → l = listForRescreen d now interval versions) s;
  (* the change is applied to the content under the lock, whole, or not at all *)
  law_mutate {A} (m : M VaultData A) s d : Holds s d → wp (mutate m) (λ o s', ∃ d1, Others d d1 ∧
    (Holds s' d1 ∧ is_ok o = false ∨ ∃ a d2, m d1 = (Ok a, d2) ∧ Holds s' (Vault.bump d2) ∧ ∀ a', o = Ok a' → a' = a)) s;
  law_meanwhile s d : Holds s d → ∃ d1, Others d d1 ∧ Holds (meanwhile s) d1;
  law_restarts s s' d : Holds s d → restarts s s' → ∃ d1, Others d d1 ∧ Holds s' d1 }.

(** ** What changes leave of the outbox *)

Lemma Others_Reach d d' : Others d d' → Reach d → Reach d'.
Proof. induction 1 as [|d d1 d2 (op & _ & H) _ IH]; [done|]. intros HR. apply IH. by eapply Reach_commit. Qed.
Lemma Others_job d d' i j : Others d d' → Reach d → dget i (revocations d) = Some j → ∃ j', dget i (revocations d') = Some j' ∧ JobKeeps false j j'.
Proof.
  intros H. revert j. induction H as [|d d1 d2 (op & Hop & H) _ IH]; intros j HR Hj; [exists j; split; [done|reflexivity]|].
  assert (∃ j1, dget i (revocations d1) = Some j1 ∧ JobKeeps false j j1) as (j1 & Hj1 & K1).
  { destruct (vault_commit_cases _ _ _ _ _ _ _ _ (Reach_WF _ _ _ _ _ _ HR) H) as (dm & -> & [[_ He]|[_ He]]); cbn.
    - rewrite Hop in He. by eapply Edits_job.
    - exists j. rewrite (dl_revocations _ _ _ He). split; [done|reflexivity]. }
  destruct (IH j1) as (j2 & Hj2 & K2); [by eapply Reach_commit|done|]. exists j2. split; [done|by etransitivity].
Qed.

(** The job [i] is in the outbox with a transaction of the hash [h]. *)
Definition Stored (d : VaultData) (i h : string) : Prop := ∃ j t, dget i (revocations d) = Some j ∧ Job.transaction j = Some t ∧ Job.hash t = h.
Lemma Others_Stored d d' i h : Others d d' → Reach d → Stored d i h → Stored d' i h.
Proof.
  intros H HR (j & t & Hj & Ht & Hh). destruct (Others_job _ _ _ _ H HR Hj) as (j' & Hj' & [_ _ K _]). destruct (K eq_refl t Ht) as (t' & Ht' & E).
  exists j', t'. split_and!; [done|done|congruence].
Qed.
Lemma Stored_inj d i h h' : Stored d i h → Stored d i h' → h = h'.
Proof. intros (j & t & ? & ? & ?) (j' & t' & ? & ? & ?). congruence. Qed.

(** A change of the runner concerns one job. *)
Record Touched (i : string) (d d' : VaultData) : Prop := {
  to_others : ∀ i', i' ≠ i → dget i' (revocations d') = dget i' (revocations d);
  to_job : is_Some (dget i (revocations d')) }.
Lemma Touched_store i j d : Touched i d (set_revocations (dset i j (revocations d)) d).
Proof. split; cbn; [intros i' Hi; by apply dget_dset_ne|]. rewrite dget_dset_eq. by eexists. Qed.
Lemma Touched_Stored i d d' i' h : Touched i d d' → i' ≠ i → Stored d i' h → Stored (Vault.bump d') i' h.
Proof. intros [H _] Hi (j & t & Hj & E). exists j, t. cbn. by rewrite H. Qed.

Lemma commit_of (op : VaultOp) {A} (m : M VaultData A) d a d' :
  runOp stringifyView sha256 hmacSha256 localeLe isAddress op d = (m ;;; ret tt) d → m d = (Ok a, d') → commit op d = Some (Vault.bump d').
Proof. intros E H. unfold VaultOps.commit. rewrite E. unfold bind. by rewrite H. Qed.

Lemma commit_unit (op : VaultOp) d u d' : runOp stringifyView sha256 hmacSha256 localeLe isAddress op d = (Ok u, d') → commit op d = Some (Vault.bump d').
Proof. unfold VaultOps.commit. by intros ->. Qed.

Lemma prepare_run i tx d j' d' : prepareRevocation i tx d = (Ok j', d') → Reach d →
  Reach (Vault.bump d') ∧ Touched i d d' ∧ Stored (Vault.bump d') i (Job.hash tx) ∧ Job.transaction j' = Some tx
  ∧ ∃ j, dget i (revocations d) = Some j ∧ Job.id j' = Job.id j.
Proof.
  intros H HR. split; [by eapply Reach_commit, (commit_of (OPrepare i tx)), H|]. revert H. unfold prepareRevocation, mustGetJob, demand, storeJob, bind, getS, require.
  destruct (dget i (revocations d)) as [j|]; [|done]. cbn. destruct (negb (isConfirmed j)); [|done]. cbn. destruct (match Job.transaction j with Some t => _ | None => true end); [|done].
  cbn. intros [= <- <-]. split_and!; [apply Touched_store| |done|by exists j]. exists (set_job Job.j_prepared (Some tx) (Job.confirmedAt j) (Job.lastError j) j), tx.
  cbn. by rewrite dget_dset_eq.
Qed.
Lemma finish_run i t d u d' : finishRevocation i t d = (Ok u, d') → Reach d →
  Reach (Vault.bump d') ∧ Touched i d d' ∧ ∀ h, Stored d i h → Stored (Vault.bump d') i h.
Proof.
  intros H HR. split; [by eapply Reach_commit, (commit_unit (OFinish i t)), H|]. revert H. unfold finishRevocation, mustGetJob, storeJob, bind, getS.
  destruct (dget i (revocations d)) as [j|] eqn:Ej; [|done]. cbn. destruct (Job.transaction j) as [tx|] eqn:Et; [|done]. intros [= <- <-].
  split; [apply Touched_store|]. intros h (j0 & t0 & ? & ? & ?). simplify_eq. eexists _, _. cbn. by rewrite dget_dset_eq.
Qed.
Lemma fail_run i e b d u d' : failRevocation i e b d = (Ok u, d') → Reach d →
  Reach (Vault.bump d') ∧ Touched i d d' ∧ (b = false → ∀ h, Stored d i h → Stored (Vault.bump d') i h).
Proof.
  intros H HR. split; [by eapply Reach_commit, (commit_unit (OFail i e b)), H|]. revert H. unfold failRevocation, mustGetJob, demand, storeJob, bind, getS, require.
  destruct (dget i (revocations d)) as [j|] eqn:Ej; [|done]. cbn. destruct (negb (isConfirmed j)); [|done]. intros [= <- <-].
  split; [apply Touched_store|]. intros -> h (j0 & t0 & ? & ? & ?). simplify_eq. eexists _, _. cbn. by rewrite dget_dset_eq.
Qed.
End laws.
Arguments Holds {Text stringifyView sha256 hmacSha256 localeLe isAddress S H VaultLaws}.
Arguments restarts {Text stringifyView sha256 hmacSha256 localeLe isAddress S H VaultLaws}.
Arguments law_assertWritable {Text stringifyView sha256 hmacSha256 localeLe isAddress S H VaultLaws}.
Arguments law_listPending {Text stringifyView sha256 hmacSha256 localeLe isAddress S H VaultLaws}.
Arguments law_listDue {Text stringifyView sha256 hmacSha256 localeLe isAddress S H VaultLaws}.
Arguments law_meanwhile {Text stringifyView sha256 hmacSha256 localeLe isAddress S H VaultLaws}.
Arguments law_restarts {Text stringifyView sha256 hmacSha256 localeLe isAddress S H VaultLaws}.
Arguments law_mutate {Text stringifyView sha256 hmacSha256 localeLe isAddress S H VaultLaws} {A}.
End VaultClient.

(** * The delivery of revocations *)

Module Rescreen.
Import VaultData VaultOps VaultClient Fs.

Inductive Status := success | reverted.
#[export] Instance Status_eq_dec : EqDecision Status.
Proof. solve_decision. Defined.

Record RevocationTransport (W : Type) := mkTransport {
  assertJob : Job.RevocationJob → Job.Transaction → outcome unit;
  prepare : Job.RevocationJob → M W Job.Transaction;
  receipt : Job.Transaction → M W (option Status);
  broadcast : Job.Transaction → M W unit;
  wait : Job.Transaction → M W (option Status) }.
Arguments mkTransport {W}.
Arguments assertJob {W}.
Arguments prepare {W}.
Arguments receipt {W}.
Arguments broadcast {W}.
Arguments wait {W}.

(** What the runner asked of the transport, with the answers. *)
Inductive Event :=
  | e_start
  | e_sign (i : string) (o : outcome Job.Transaction)
  | e_broadcast (job : Job.RevocationJob) (tx : Job.Transaction) (o : outcome unit)
  | e_result (i : string) (tx : Job.Transaction) (o : outcome (option Status)).

Record Run (W S : Type) := mkRun { world : W; vault : S; trace : list Event }.
Arguments mkRun {W S}.
Arguments world {W S}.
Arguments vault {W S}.
Arguments trace {W S}.

Inductive Delivery := delivered | undelivered (stop : bool).

Section runner.
Context {W S : Type} `{VaultHandle S}.

Definition onVault {A} (m : M S A) : M (Run W S) A := λ r, let '(o, v) := m (vault r) in (o, mkRun (world r) v (trace r)).
Definition onWorld {A} (m : M W A) : M (Run W S) A := λ r, let '(o, w) := m (world r) in (o, mkRun w (vault r) (trace r)).
(** [await] of a call of the transport: it is noted, and other processes act meanwhile. *)
Definition ask {A} (ev : outcome A → Event) (m : M W A) : M (Run W S) A := λ r,
  let '(o, w) := m (world r) in (o, mkRun w (meanwhile (vault r)) (trace r ++ [ev o])).

Context (transport : RevocationTransport W) (now : M W Z).

(** Sign and durably prepare, unless the job has its transaction. *)
Definition signed (job : Job.RevocationJob) : M (Run W S) Job.RevocationJob :=
  match Job.transaction job with
  | Some _ => ret job
  | None =>
      let! tx := ask (e_sign (Job.id job)) (prepare transport job) in
      onVault (mutate (prepareRevocation (Job.id job) tx))
  end.
(** Broadcast, when there is no receipt, and wait. *)
Definition sent (job : Job.RevocationJob) (tx : Job.Transaction) (r : option Status) : M (Run W S) (option Status) :=
  match r with
  | Some _ => ret r
  | None =>
      onVault assertWritable ;;;
      quiet (ask (e_broadcast job tx) (broadcast transport tx)) ;;;
      ask (e_result (Job.id job) tx) (wait transport tx)
  end.
Definition settled (job : Job.RevocationJob) (r : option Status) : M (Run W S) Delivery :=
  if bool_decide (r = Some success) then
    let! at_ := onWorld now in
    onVault (mutate (finishRevocation (Job.id job) at_)) ;;;
    ret delivered
  else
    onVault (mutate (failRevocation (Job.id job)
      (if bool_decide (r = Some reverted) then "source transaction reverted" else "source confirmation pending") (bool_decide (r = Some reverted)))) ;;;
    ret (undelivered (bool_decide (r = None))).
Definition deliverJob (job : Job.RevocationJob) : M (Run W S) Delivery :=
  catch_ (
      let! job := signed job in
      match Job.transaction job with
      | None => throw (EClass "TypeError" "undefined")
      | Some tx =>
          lift_out (assertJob transport job tx) ;;;
          let! r := ask (e_result (Job.id job) tx) (receipt transport tx) in
          let! r := sent job tx r in
          settled job r
      end)
    (λ _, onVault (mutate (failRevocation (Job.id job) "transport or persistence failure; reconcile by stored transaction hash" false)) ;;;
          ret (undelivered true)).
Fixpoint deliver (jobs : list Job.RevocationJob) (confirmed failed : Z) : M (Run W S) (Z * Z) :=
  match jobs with
  | [] => ret (confirmed, failed)
  | job :: jobs =>
      let! d := deliverJob job in
      match d with
      | delivered => deliver jobs (confirmed + 1) failed
      | undelivered false => deliver jobs confirmed (failed + 1)
      | undelivered true => ret (confirmed, failed + 1)
      end
  end.
(** Answers the jobs confirmed, failed and pending. *)
Definition deliverRevocations : M (Run W S) (Z * Z * Z) :=
  onVault assertWritable ;;;
  let! jobs := onVault listPending in
  let! (confirmed, failed) := deliver jobs 0 0 in
  let! rest := onVault listPending in
  ret (confirmed, failed, Z.of_nat (length rest)).
End runner.

(** ** A watch over the events *)

(** The transactions that were broadcast and not reported reverted, by job; and whether the fate of
    the last one is open. *)
Record Watch := mkWatch { broadcasts : list (string * string); unknown : bool }.
Definition agrees (w : Watch) (i h : string) : bool := match dget i (broadcasts w) with Some h' => String.eqb h' h | None => true end.
Definition watch (e : Event) (w : Watch) : option Watch :=
  match e with
  | e_start => Some (mkWatch (broadcasts w) false)
  | e_sign i _ => if negb (unknown w) && negb (dhas i (broadcasts w)) then Some w else None
  | e_broadcast job tx _ =>
      if negb (unknown w) && agrees w (Job.id job) (Job.hash tx) then Some (mkWatch (dset (Job.id job) (Job.hash tx) (broadcasts w)) true) else None
  | e_result i tx o =>
      if agrees w i (Job.hash tx) then
        match o with
        | Ok (Some success) => Some (mkWatch (broadcasts w) false)
        | Ok (Some reverted) => Some (mkWatch (ddel i (broadcasts w)) false)
        | _ => Some w
        end
      else None
  end.
Fixpoint watchAll (l : list Event) (w : Watch) : option Watch :=
  match l with [] => Some w | e :: l => match watch e w with Some w => watchAll l w | None => None end end.

Lemma watchAll_app l l' w : watchAll (l ++ l') w = match watchAll l w with Some w => watchAll l' w | None => None end.
Proof. revert w. induction l as [|e l IH]; intros w; [done|]. cbn. destruct (watch e w); [apply IH|done]. Qed.
Lemma watch_snoc l e w w1 : watchAll l w = Some w1 → watchAll (l ++ [e]) w = watch e w1.
Proof. intros H. rewrite watchAll_app, H. cbn. by destruct (watch e w1). Qed.

(** The report of a revert for the job. *)
Definition revertOf (i : string) (e : Event) : bool :=
  match e with e_result i' _ (Ok (Some reverted)) => String.eqb i' i | _ => false end.
(** A report that settles the fate of a transaction, or the start of a run. *)
Definition settles (e : Event) : bool := match e with e_start => true | e_result _ _ (Ok (Some _)) => true | _ => false end.
Lemma watch_keeps l w w' i h : watchAll l w = Some w' → existsb (revertOf i) l = false → dget i (broadcasts w) = Some h → dget i (broadcasts w') = Some h.
Proof.
  revert w. induction l as [|e l IH]; intros w; cbn [watchAll existsb]; [by intros [= ->]|]. destruct (watch e w) as [w1|] eqn:E; [|done].
  intros Hw [He Hl]%orb_false_iff Hi. apply (IH w1); [done|done|]. destruct e as [|i' o|job tx o|i' tx o]; cbn [watch] in E.
  - by injection E as <-.
  - destruct (_ && _); [|done]. by injection E as <-.
  - destruct (_ && _) eqn:Ha; [|done]. injection E as <-. cbn. rewrite dget_dset. destruct (String.eqb_spec i (Job.id job)) as [->|]; [|done].
    unfold agrees in Ha. rewrite Hi in Ha. apply andb_true_iff in Ha as [_ ->%String.eqb_eq]. done.
  - destruct (agrees _ _ _); [|done]. destruct o as [[[]|]|]; injection E as <-; try done. cbn. cbn in He. apply String.eqb_neq in He. by rewrite dget_ddel_ne.
Qed.
Lemma watch_unknown l w w' : watchAll l w = Some w' → existsb settles l = false → unknown w = true → unknown w' = true.
Proof.
  revert w. induction l as [|e l IH]; intros w; cbn [watchAll existsb]; [by intros [= ->]|]. destruct (watch e w) as [w1|] eqn:E; [|done].
  intros Hw [He Hl]%orb_false_iff Hi. apply (IH w1); [done|done|]. destruct e as [|i' o|job tx o|i' tx o]; cbn [watch] in E.
  - done.
  - rewrite Hi in E. done.
  - rewrite Hi in E. done.
  - destruct (agrees _ _ _); [|done]. destruct o as [[[]|]|]; try done; by injection E as <-.
Qed.

(** ** A run of the runner *)

Section run.
Context {Text : Type} (stringifyView : View → Text) (sha256 : string → Text → string) (hmacSha256 : string → string → Text → string).
Context (localeLe : string → string → bool) (isAddress : string → bool).
Context {W S : Type} `{HL : VaultLaws Text stringifyView sha256 hmacSha256 localeLe isAddress S}.
Context (transport : RevocationTransport W) (now : M W Z).
Abbreviation Reach := (Reach stringifyView sha256 hmacSha256 localeLe isAddress).
Abbreviation Others := (rtc (Other stringifyView sha256 hmacSha256 localeLe isAddress)).

(** A job of the list that is still to be worked: it is in the outbox, with the transaction it had. *)
Definition Listed (w : Watch) (d : VaultData) (job : Job.RevocationJob) : Prop :=
  match Job.transaction job with Some t => Stored d (Job.id job) (Job.hash t) | None => dhas (Job.id job) (broadcasts w) = false end.
(** What is broadcast is in the file. *)
Definition Ahead (w : Watch) (d : VaultData) : Prop := ∀ i h, dget i (broadcasts w) = Some h → Stored d i h.

Context (w0 : Watch).
Definition Inv (w : Watch) (jobs : list Job.RevocationJob) (r : Run W S) : Prop :=
  watchAll (trace r) w0 = Some w ∧ ∃ d, Holds (vault r) d ∧ Reach d ∧ Ahead w d ∧ Forall (Listed w d) jobs.

Lemma Inv_sub w jobs jobs' r : Inv w jobs r → (∀ j, j ∈ jobs' → j ∈ jobs) → Inv w jobs' r.
Proof. intros (H1 & d & H2 & H3 & H4 & H5) Hs. split; [done|]. exists d. split_and!; try done. rewrite Forall_forall in *. auto. Qed.
Lemma Listed_others w d d' job : Others d d' → Reach d → Listed w d job → Listed w d' job.
Proof. unfold Listed. intros HO HR. destruct (Job.transaction job); [by eapply Others_Stored|done]. Qed.
Lemma Inv_others w jobs (r : Run W S) v d1 d : watchAll (trace r) w0 = Some w → Reach d → Ahead w d → Forall (Listed w d) jobs → Others d d1 → Holds v d1 →
  Inv w jobs (mkRun (world r) v (trace r)).
Proof.
  intros H1 H2 H3 H4 HO HH. split; [done|]. exists d1. split_and!; [done|by eapply Others_Reach| |].
  - intros i h Hi. eapply Others_Stored; [done|done|by apply H3].
  - eapply Forall_impl; [exact H4|]. intros j. by apply Listed_others.
Qed.

(** Awaiting the transport: the watch takes the event. *)
Lemma ask_inv {A} (ev : outcome A → Event) (m : M W A) w jobs r (Q : outcome A → Run W S → Prop) : Inv w jobs r →
  (∀ o, ∃ w', watch (ev o) w = Some w' ∧ (∀ i h, dget i (broadcasts w') = Some h → dget i (broadcasts w) = Some h ∨ ∀ d, Forall (Listed w d) jobs → Stored d i h)
     ∧ (∀ d, Forall (Listed w d) jobs → Forall (Listed w' d) jobs) ∧ ∀ r', Inv w' jobs r' → Q o r') → wp (ask ev m) Q r.
Proof.
  intros (H1 & d & H2 & H3 & H4 & H5) HQ. unfold wp, ask. destruct (m (world r)) as [o wd]. cbn. destruct (HQ o) as (w' & Hw & Hb & Hl & Hk). apply Hk.
  destruct (law_meanwhile (vault r) d H2) as (d1 & HO & HH). split; [cbn; by rewrite (watch_snoc _ _ _ _ H1)|]. exists d1. split_and!; [done|by eapply Others_Reach| |].
  - intros i h Hi. eapply Others_Stored; [done|done|]. destruct (Hb i h Hi) as [E|E]; [by apply H4|by apply E].
  - eapply Forall_impl; [apply Hl, H5|]. intros j. by apply Listed_others.
Qed.

Lemma onVault_wp {A} (m : M S A) (Q : outcome A → Run W S → Prop) r : wp m (λ o v, Q o (mkRun (world r) v (trace r))) (vault r) → wp (onVault m) Q r.
Proof. unfold wp, onVault. by destruct (m (vault r)). Qed.
Lemma onWorld_wp {A} (m : M W A) (Q : outcome A → Run W S → Prop) w jobs r : Inv w jobs r → (∀ o r', Inv w jobs r' → Q o r') → wp (onWorld m) Q r.
Proof. intros HI HQ. unfold wp, onWorld. destruct (m (world r)) as [o wd]. by apply HQ. Qed.
Lemma assertWritable_inv w jobs r (Q : outcome unit → Run W S → Prop) : Inv w jobs r → (∀ o r', Inv w jobs r' → Q o r') → wp (onVault assertWritable) Q r.
Proof.
  intros (H1 & d & H2 & H3) HQ. apply onVault_wp. eapply wp_mono; [by apply (law_assertWritable _ d)|]. intros o v Hv. apply HQ. split; [done|]. by exists d.
Qed.

(** A change of the runner to the job [i] leaves the other jobs of the list. *)
Definition Change {A} (i : string) (m : M VaultData A) (w : Watch) (P : VaultData → A → VaultData → Prop) : Prop := ∀ d a d', Reach d → Ahead w d → m d = (Ok a, d') →
  Reach (Vault.bump d') ∧ Touched i d d' ∧ (∀ h, dget i (broadcasts w) = Some h → Stored d i h → Stored (Vault.bump d') i h) ∧ P d a (Vault.bump d').
Lemma mutate_inv {A} i (m : M VaultData A) w jobs r P (Q : outcome A → Run W S → Prop) : Inv w jobs r → i ∉ map Job.id jobs → Change i m w P →
  (∀ o r', Inv w jobs r' → (∀ a, o = Ok a → watchAll (trace r') w0 = Some w ∧ ∃ d d', Holds (vault r') d' ∧ Reach d' ∧ Ahead w d' ∧ Forall (Listed w d') jobs ∧ P d a d') → Q o r') →
  wp (onVault (mutate m)) Q r.
Proof.
  intros (H1 & d & H2 & H3 & H4 & H6) Hn Hc HQ. apply onVault_wp. eapply wp_mono; [by apply (law_mutate m _ d)|].
  intros o v (d1 & HO & HR). pose proof (Others_Reach _ _ _ _ _ _ _ HO H3) as R1.
  assert (Ahead w d1) as A1 by (intros i' h Hi'; eapply Others_Stored; [done|done|by apply H4]).
  assert (Forall (Listed w d1) jobs) as L1 by (eapply Forall_impl; [exact H6|]; intros j; by apply Listed_others).
  destruct HR as [[HH Ho]|(a & d2 & Em & HH & Ho)].
  { apply HQ; [split; [done|by exists d1]|]. intros a ->. done. }
  destruct (Hc d1 a d2 R1 A1 Em) as (R2 & Ht & Hb & HP).
  assert (Ahead w (Vault.bump d2)) as A2.
  { intros i' h Hi'. destruct (decide (i' = i)) as [->|Hne]; [by apply Hb, A1|]. eapply Touched_Stored; [done|done|by apply A1]. }
  assert (Forall (Listed w (Vault.bump d2)) jobs) as L2.
  { rewrite Forall_forall in *. intros j Hj. specialize (L1 j Hj). unfold Listed in *. destruct (Job.transaction j) as [t|]; [|done].
    eapply Touched_Stored; [done| |done]. intros E. apply Hn. rewrite <- E. by apply list_elem_of_fmap_2. }
  apply HQ; [split; [done|by exists (Vault.bump d2)]|]. intros a' Ha'. rewrite (Ho a' Ha'). split; [done|]. by exists d1, (Vault.bump d2).
Qed.

Lemma fail_inv i e (b : bool) w jobs r (Q : outcome unit → Run W S → Prop) : Inv w jobs r → i ∉ map Job.id jobs →
  (b = true → dget i (broadcasts w) = None) → (∀ o r', Inv w jobs r' → Q o r') → wp (onVault (mutate (failRevocation i e b))) Q r.
Proof.
  intros HI Hn Hb HQ. apply (mutate_inv i _ w jobs r (λ _ _ _, True) _ HI Hn); [|by auto]. intros d u d' HR HA Hm.
  destruct (fail_run _ _ _ _ _ _ _ _ _ _ _ Hm HR) as (R & T & K). split_and!; try done. intros h Hh Hs. apply K; [|done]. destruct b; [|done]. by rewrite Hb in Hh.
Qed.
Lemma finish_inv i at_ w jobs r (Q : outcome unit → Run W S → Prop) : Inv w jobs r → i ∉ map Job.id jobs →
  (∀ o r', Inv w jobs r' → Q o r') → wp (onVault (mutate (finishRevocation i at_))) Q r.
Proof.
  intros HI Hn HQ. apply (mutate_inv i _ w jobs r (λ _ _ _, True) _ HI Hn); [|by auto]. intros d u d' HR HA Hm.
  destruct (finish_run _ _ _ _ _ _ _ _ _ _ Hm HR) as (R & T & K). split_and!; auto.
Qed.
Lemma prepare_inv i tx w jobs r (Q : outcome Job.RevocationJob → Run W S → Prop) : Inv w jobs r → i ∉ map Job.id jobs → dget i (broadcasts w) = None →
  (∀ o r', Inv w jobs r' → (∀ j, o = Ok j → Job.id j = i ∧ Job.transaction j = Some tx ∧ Inv w (j :: jobs) r') → Q o r') →
  wp (onVault (mutate (prepareRevocation i tx))) Q r.
Proof.
  intros HI Hn Hb HQ.
  apply (mutate_inv i _ w jobs r (λ d (j : Job.RevocationJob) d', Job.id j = i ∧ Job.transaction j = Some tx ∧ Stored d' i (Job.hash tx)) _ HI Hn).
  - intros d j d' HR HA Hm. destruct (prepare_run _ _ _ _ _ _ _ _ _ _ Hm HR) as (R & T & K & E & j0 & E0 & E1).
    destruct (wf_jobs _ _ _ _ _ _ (Reach_WF _ _ _ _ _ _ HR) _ _ E0) as [E2 _]. split_and!; try done; [intros h Hh; congruence|congruence].
  - intros o r' HI' HP. apply HQ; [done|]. intros j Hj. destruct (HP j Hj) as (H1 & d & d' & H2 & H3 & H4 & H5 & H6 & H7 & H8). split; [done|]. split; [done|]. split; [done|].
    exists d'. split; [done|]. split; [done|]. split; [done|]. apply Forall_cons. split; [|done]. unfold Listed. rewrite H7. by rewrite H6.
Qed.

(** *** The stages of a delivery *)

Section stages.
Context (job : Job.RevocationJob) (jobs : list Job.RevocationJob).
Abbreviation i := (Job.id job).

Lemma Inv_job w r tx : Inv w (job :: jobs) r → Job.transaction job = Some tx → agrees w i (Job.hash tx) = true.
Proof.
  intros (_ & d & _ & _ & HA & [HL' _]%Forall_cons) E. unfold agrees. destruct (dget i (broadcasts w)) as [h|] eqn:Eh; [|done].
  unfold Listed in HL'. rewrite E in HL'. apply String.eqb_eq. eapply Stored_inj; [by apply HA|done].
Qed.

Lemma signed_inv w r : i ∉ map Job.id jobs → Inv w (job :: jobs) r → unknown w = false → wp (signed transport job) (λ o r', Inv w jobs r' ∧
  ∀ j, o = Ok j → Job.id j = i ∧ is_Some (Job.transaction j) ∧ Inv w (j :: jobs) r') r.
Proof.
  intros Hn HI Hu. unfold signed. destruct (Job.transaction job) as [tx|] eqn:E.
  { apply wp_ret. split; [eapply Inv_sub; [done|]; by right|]. intros j [= <-]. rewrite E. eauto. }
  assert (dhas i (broadcasts w) = false) as Hb.
  { destruct HI as (_ & d & _ & _ & _ & [HL' _]%Forall_cons). unfold Listed in HL'. by rewrite E in HL'. }
  apply wp_bind. eapply (ask_inv _ _ w jobs); [eapply Inv_sub; [done|]; by right|]. intros o. exists w. cbn [watch]. rewrite Hu, Hb. split_and!; auto. intros r' HI'.
  destruct o as [tx|e]; [|by split]. apply (prepare_inv _ _ w jobs); [done|done| |].
  - unfold dhas in Hb. by destruct (dget i (broadcasts w)).
  - intros o r2 HI2 HP. split; [done|]. intros j Hj. destruct (HP j Hj) as (? & -> & ?). eauto.
Qed.

Lemma Inv_rest w j r : Inv w (j :: jobs) r → Inv w jobs r.
Proof. intros HI. eapply Inv_sub; [done|]. by right. Qed.

(** What is known when the chain has answered. *)
Definition Answered (w : Watch) (o : outcome (option Status)) (w' : Watch) : Prop :=
  (unknown w = false ∨ (∃ s, o = Ok (Some s)) → unknown w' = false) ∧ (o = Ok (Some reverted) → dget i (broadcasts w') = None).
Lemma result_inv (m : M W (option Status)) tx w r : i ∉ map Job.id jobs → Job.transaction job = Some tx → Inv w (job :: jobs) r →
  wp (ask (e_result i tx) m) (λ o r', ∃ w', Inv w' (job :: jobs) r' ∧ Answered w o w') r.
Proof.
  intros Hn E HI. pose proof (Inv_job _ _ _ HI E) as Ha. eapply ask_inv; [exact HI|]. intros o. unfold watch. rewrite Ha. unfold Answered.
  destruct o as [[[]|]|e].
  - eexists. split; [done|]. cbn. split_and!; [auto|auto|]. intros r' HI'. eexists. split; [exact HI'|]. by split.
  - eexists. split; [done|]. cbn. split_and!.
    + intros i0 h Hh. left. rewrite dget_ddel in Hh. by destruct (String.eqb _ _).
    + intros d Hd. eapply Forall_impl; [exact Hd|]. intros j. unfold Listed. destruct (Job.transaction j); [done|]. cbn. unfold dhas. rewrite dget_ddel.
      by destruct (String.eqb _ _).
    + intros r' HI'. eexists. split; [exact HI'|]. split; [done|]. intros _. cbn. apply dget_ddel_eq.
  - exists w. split_and!; auto. intros r' HI'. exists w. split; [done|]. split; [|done]. by intros [?|[? ?]].
  - exists w. split_and!; auto. intros r' HI'. exists w. split; [done|]. split; [|done]. by intros [?|[? ?]].
Qed.

Lemma broadcast_inv tx w r : i ∉ map Job.id jobs → Job.transaction job = Some tx → Inv w (job :: jobs) r → unknown w = false →
  wp (quiet (ask (e_broadcast job tx) (broadcast transport tx))) (λ o r', ∃ w', Inv w' (job :: jobs) r') r.
Proof.
  intros Hn E HI Hu. pose proof (Inv_job _ _ _ HI E) as Ha. apply wp_catch. eapply ask_inv; [exact HI|]. intros o. cbn [watch]. rewrite Ha, Hu. cbn [negb andb].
  eexists. split; [done|]. cbn. split_and!.
  - intros i0 h Hh. rewrite dget_dset in Hh. destruct (String.eqb_spec i0 i) as [->|]; [|by left]. right. injection Hh as <-. intros d [Hl _]%Forall_cons.
    unfold Listed in Hl. by rewrite E in Hl.
  - intros d Hd. rewrite Forall_forall in *. intros j Hj. specialize (Hd j Hj). unfold Listed in *. destruct (Job.transaction j) eqn:Ej; [done|]. cbn.
    apply elem_of_cons in Hj as [->|Hj]; [congruence|]. unfold dhas. rewrite dget_dset_ne; [exact Hd|]. intros E'. apply Hn. rewrite <- E'. by apply list_elem_of_fmap_2.
  - intros r' HI'. destruct o as [u|e]; [by eexists|]. split; intros _; [by eexists|]. apply wp_ret. by eexists.
Qed.

Lemma sent_inv tx x w r : i ∉ map Job.id jobs → Job.transaction job = Some tx → Inv w (job :: jobs) r → unknown w = false →
  (x = Some reverted → dget i (broadcasts w) = None) →
  wp (sent transport job tx x) (λ o r', ∃ w', Inv w' (job :: jobs) r' ∧
    ((∃ s, o = Ok (Some s)) → unknown w' = false) ∧ (o = Ok (Some reverted) → dget i (broadcasts w') = None)) r.
Proof.
  intros Hn E HI Hu Hx. unfold sent. destruct x as [s|]; [apply wp_ret; exists w; split_and!; [done|done|]; intros [= ->]; by apply Hx|].
  apply wp_bind, (assertWritable_inv w (job :: jobs)); [done|]. intros o r1 H1. destruct o as [u|e]; [|exists w; split_and!; [done|by intros [? ?]|done]].
  apply wp_bind. eapply wp_mono; [by apply (broadcast_inv tx w)|]. intros o r2 [w2 H2]. destruct o as [u2|e]; [|exists w2; split_and!; [done|by intros [? ?]|done]].
  eapply wp_mono; [by apply (result_inv _ tx w2)|]. intros o r3 (w3 & H3 & H4 & H5). exists w3. split_and!; auto.
Qed.

Definition Settled (o : outcome Delivery) (r' : Run W S) : Prop := ∃ w', Inv w' jobs r' ∧ ∀ dl, o = Ok dl → dl ≠ undelivered true → unknown w' = false.
Lemma settled_inv x w r : i ∉ map Job.id jobs → Inv w jobs r → (is_Some x → unknown w = false) → (x = Some reverted → dget i (broadcasts w) = None) →
  wp (settled now job x) Settled r.
Proof.
  intros Hn HI Hu Hx. unfold settled, Settled. case_bool_decide as Hs.
  - apply wp_bind, (onWorld_wp _ _ w jobs); [done|]. intros [at_|e] r1 H1; [|by exists w]. apply wp_bind, (finish_inv _ _ w jobs); [done|done|]. intros [u|e] r2 H2; [|by exists w].
    apply wp_ret. exists w. split; [done|]. intros _ _ _. apply Hu. rewrite Hs. by eexists.
  - apply wp_bind, (fail_inv _ _ _ w jobs); [done|done| |].
    + intros Hb%bool_decide_eq_true. by apply Hx.
    + intros [u|e] r2 H2; [|by exists w]. apply wp_ret. exists w. split; [done|]. intros dl [= <-] Hd. apply Hu. destruct x; [by eexists|]. by destruct Hd.
Qed.

End stages.

Lemma deliverJob_inv job jobs w r : Job.id job ∉ map Job.id jobs → Inv w (job :: jobs) r → unknown w = false → wp (deliverJob transport now job) (Settled jobs) r.
Proof.
  intros Hn HI Hu. assert (∀ e r' w', Inv w' jobs r' → (e = Death → Settled jobs (Throw Death) r') ∧ (e ≠ Death →
    wp (onVault (mutate (failRevocation (Job.id job) "transport or persistence failure; reconcile by stored transaction hash" false)) ;;; ret (undelivered true)) (Settled jobs) r')) as Hexit.
  { intros e r' w' HI'. split; intros _; [by exists w'|]. apply wp_bind, (fail_inv _ _ _ w' jobs); [done|done|done|]. intros [u|e'] r2 H2; [|by exists w'].
    apply wp_ret. exists w'. split; [done|]. by intros dl [= <-]. }
  apply wp_catch. apply wp_bind. eapply wp_mono; [by apply (signed_inv job jobs w)|]. intros [job'|e] r1 [H1 H2]; [|by apply (Hexit _ _ w)].
  destruct (H2 job' eq_refl) as (Hid & [tx E] & H3). rewrite E. rewrite <- Hid in Hn. apply wp_bind, wp_lift_out. destruct (assertJob transport job' tx); [|by apply (Hexit _ _ w)].
  apply wp_bind. eapply wp_mono; [by apply (result_inv job' jobs _ tx w)|]. intros [x|e] r2 (w2 & I2 & A1 & A2); [|apply (Hexit _ _ w2); by eapply Inv_rest].
  apply wp_bind. eapply wp_mono; [apply (sent_inv job' jobs tx x w2); [done|done|done|by apply A1; left|intros ->; by apply A2]|].
  intros [y|e] r3 (w3 & I3 & B1 & B2); [|apply (Hexit _ _ w3); by eapply Inv_rest].
  eapply wp_mono; [apply (settled_inv job' jobs y w3); [done|by eapply Inv_rest|intros [s ->]; apply B1; by eexists|intros ->; by apply B2]|].
  intros [dl|e] r4 H4; [done|]. destruct H4 as (w4 & I4 & _). by apply (Hexit _ _ w4).
Qed.

Lemma deliver_inv jobs confirmed failed w r : NoDup (map Job.id jobs) → Inv w jobs r → unknown w = false →
  wp (deliver transport now jobs confirmed failed) (λ _ r', ∃ w', Inv w' [] r') r.
Proof.
  revert confirmed failed w r. induction jobs as [|job jobs IH]; intros confirmed failed w r Hd HI Hu; cbn [deliver map] in *; [apply wp_ret; by exists w|].
  apply NoDup_cons in Hd as [Hn Hd]. apply wp_bind. eapply wp_mono; [by apply (deliverJob_inv _ jobs w)|]. intros o r' (w' & HI' & Hs).
  assert (Inv w' [] r') as Hnil by (eapply Inv_sub; [exact HI'|]; by intros ? ?%elem_of_nil).
  destruct o as [[|[]]|e]; [apply (IH _ _ w'); [done|done|by eapply Hs]|apply wp_ret; by exists w'|apply (IH _ _ w'); [done|done|by eapply Hs]|by exists w'].
Qed.

Lemma listed_start w d : Reach d → Ahead w d → NoDup (map Job.id (listPendingRevocations d)) ∧ Forall (Listed w d) (listPendingRevocations d).
Proof.
  intros HR HA. pose proof (Reach_WF _ _ _ _ _ _ HR) as HW. destruct HW as [_ _ Hj Hd _ _ _]. unfold listPendingRevocations. split.
  - assert (∀ l : list (string * Job.RevocationJob), NoDup (dkeys l) → (∀ k v, (k, v) ∈ l → Job.id v = k) → NoDup (map Job.id (filter (λ j, isConfirmed j = false) (dvalues l)))) as H0.
    { induction l as [|[k v] l IH]; intros Hk Hv; [apply NoDup_nil_2|]. apply NoDup_cons in Hk as [Hk1 Hk2].
      assert (NoDup (map Job.id (filter (λ j, isConfirmed j = false) (dvalues l)))) as IH' by (apply IH; [done|intros; apply Hv; by right]).
      change (dvalues ((k, v) :: l)) with (v :: dvalues l). rewrite filter_cons. case_decide; [|done]. cbn [map]. apply NoDup_cons. split; [|done]. intros (v' & E & Hv')%list_elem_of_fmap.
      apply list_elem_of_filter in Hv' as [_ ([k' v''] & -> & Hv')%list_elem_of_fmap]. cbn in E. rewrite (Hv k v) in E by (by left). rewrite (Hv k' v'') in E by (by right). subst k'.
      apply Hk1. by apply list_elem_of_fmap_2 with (f := fst) in Hv'. }
    apply H0; [done|]. intros k v Hkv. apply (Hj k). by apply elem_dget.
  - apply Forall_forall. intros j [_ Hv]%list_elem_of_filter. apply elem_dvalues in Hv as [k Hk]; [|done]. unfold Listed.
    destruct (Hj _ _ Hk) as [-> _]. destruct (Job.transaction j) as [t|] eqn:Et; [by exists j, t|]. unfold dhas. destruct (dget k (broadcasts w)) as [h|] eqn:E; [|done].
    destruct (HA _ _ E) as (j' & t & ? & ? & _). congruence.
Qed.

Lemma deliverRevocations_inv w r : Inv w [] r → unknown w = false → wp (deliverRevocations transport now) (λ _ r', ∃ w', Inv w' [] r') r.
Proof.
  intros HI Hu. unfold deliverRevocations. apply wp_bind, (assertWritable_inv w []); [done|]. intros [u|e] r1 (H1 & d & H2 & H3 & H4 & H5); [|exists w; split; [done|by exists d]].
  apply wp_bind, onVault_wp. eapply wp_mono; [by apply (law_listPending _ d)|]. intros [l|e] v [Hv Hl]; [|exists w; split; [done|by exists d]].
  rewrite (Hl l eq_refl). destruct (listed_start w d H3 H4) as [Hd Hf]. apply wp_bind.
  eapply wp_mono; [apply (deliver_inv _ 0 0 w); [done|split; [done|by exists d]|done]|]. intros [[c f]|e] r2 [w2 HI2]; [|by exists w2].
  apply wp_bind, onVault_wp. destruct HI2 as (G1 & d2 & G2 & G3 & G4 & G5). eapply wp_mono; [by apply (law_listPending _ d2)|]. intros o v2 [Hv2 _].
  assert (∃ w', Inv w' [] (mkRun (world r2) v2 (trace r2))) as HI2 by (exists w2; split; [done|by exists d2]). destruct o; [by apply wp_ret|done].
Qed.
End run.

(** ** Every broadcast was checked against its job *)

Section asserted.
Context {W S : Type} `{VaultHandle S} (transport : RevocationTransport W) (now : M W Z).
Definition Asserted (r : Run W S) : Prop := ∀ job tx o, e_broadcast job tx o ∈ trace r → assertJob transport job tx = Ok tt.

Lemma onVault_asserted {A} (m : M S A) : keeps Asserted (onVault (W:=W) m).
Proof. intros r Hr. unfold onVault. by destruct (m (vault r)). Qed.
Lemma onWorld_asserted {A} (m : M W A) : keeps Asserted (onWorld (S:=S) m).
Proof. intros r Hr. unfold onWorld. by destruct (m (world r)). Qed.
Lemma ask_asserted {A} (ev : outcome A → Event) (m : M W A) : (∀ o job tx x, ev o = e_broadcast job tx x → assertJob transport job tx = Ok tt) → keeps Asserted (ask (S:=S) ev m).
Proof.
  intros He r Hr. unfold ask. destruct (m (world r)) as [o w]. cbn. intros job tx x [Hx|Hx%list_elem_of_singleton]%elem_of_app; [by eapply Hr|]. eapply He. by symmetry.
Qed.
Lemma catch_asserted {A} (m : M (Run W S) A) h : keeps Asserted m → (∀ e, keeps Asserted (h e)) → keeps Asserted (catch_ m h).
Proof. intros Hm Hh. apply keeps_tryCatch; [done|]. intros e. destruct (bool_decide _); [apply keeps_throw|apply Hh]. Qed.
#[local] Hint Resolve onVault_asserted onWorld_asserted : keeps.

Lemma deliverJob_asserted job : keeps Asserted (deliverJob transport now job).
Proof.
  apply catch_asserted; [|intros e; keeps_go]. apply keeps_bind.
  { unfold signed. destruct (Job.transaction job); [apply keeps_ret|]. apply keeps_bind; [by apply ask_asserted|]. intros tx. apply onVault_asserted. }
  intros job'. destruct (Job.transaction job') as [tx|]; [|apply keeps_throw]. intros r Hr. unfold bind at 1, lift_out. destruct (assertJob transport job' tx) as [[]|e] eqn:Ea; [|done].
  revert r Hr. fold (keeps Asserted (A:=Delivery)). apply keeps_bind; [by apply ask_asserted|]. intros x. apply keeps_bind.
  - unfold sent. destruct x; [apply keeps_ret|]. apply keeps_bind; [apply onVault_asserted|]. intros _. apply keeps_bind; [|intros _; by apply ask_asserted].
    apply catch_asserted; [|intros e; apply keeps_ret]. apply ask_asserted. intros o j t x [= <- <- <-]. done.
  - intros y. unfold settled. destruct (bool_decide (y = Some success)); keeps_go.
Qed.
Lemma deliver_asserted jobs confirmed failed : keeps Asserted (deliver transport now jobs confirmed failed).
Proof.
  revert confirmed failed. induction jobs as [|job jobs IH]; intros confirmed failed; cbn [deliver]; [apply keeps_ret|]. apply keeps_bind; [apply deliverJob_asserted|].
  intros [|[]]; [apply IH|apply keeps_ret|apply IH].
Qed.
Lemma deliverRevocations_asserted : keeps Asserted (deliverRevocations transport now).
Proof. unfold deliverRevocations. keeps_go. apply deliver_asserted. Qed.
End asserted.

(** ** Any number of runs *)

Section history.
Context {Text : Type} (stringifyView : View → Text) (sha256 : string → Text → string) (hmacSha256 : string → string → Text → string).
Context (localeLe : string → string → bool) (isAddress : string → bool).
Context {W S : Type} `{HL : VaultLaws Text stringifyView sha256 hmacSha256 localeLe isAddress S}.
Context (transport : RevocationTransport W) (now : M W Z).
Abbreviation Reach := (Reach stringifyView sha256 hmacSha256 localeLe isAddress).

(** Runs one after the other, each with what its process finds, to its end or its death; and all that
    was asked of the transport. *)
Inductive Runs : S → list Event → Prop :=
  | Runs_start s d : Holds s d → Reach d → Runs s []
  | Runs_run s tr s1 w o r : Runs s tr → restarts s s1 → deliverRevocations transport now (mkRun w s1 [e_start]) = (o, r) → Runs (vault r) (tr ++ trace r).

Lemma Runs_inv s tr : Runs s tr → (∃ w, watchAll tr (mkWatch [] false) = Some w ∧ ∃ d, Holds s d ∧ Reach d ∧ Ahead w d) ∧
  ∀ job tx o, e_broadcast job tx o ∈ tr → assertJob transport job tx = Ok tt.
Proof.
  induction 1 as [s d HH HR|s tr s1 w o r _ [(w0 & Hw & d & HH & HR & HA) IH2] Hrs Hrun].
  { split; [|by intros ? ? ? ?%elem_of_nil]. exists (mkWatch [] false). split; [done|]. exists d. split_and!; [done|done|]. by intros i h. }
  destruct (law_restarts _ _ d HH Hrs) as (d1 & HO & HH1). split.
  - pose proof (deliverRevocations_inv stringifyView sha256 hmacSha256 localeLe isAddress transport now w0 (mkWatch (broadcasts w0) false) (mkRun w s1 [e_start])) as H1.
    unfold wp in H1. rewrite Hrun in H1. destruct H1 as (w' & H1 & d2 & H2 & H3 & H4 & _).
    { split; [done|]. exists d1. split_and!; [done|by eapply Others_Reach| |done]. intros i h Hi. eapply Others_Stored; [done|done|by apply HA]. }
    { done. }
    exists w'. rewrite watchAll_app, Hw. split; [exact H1|]. by exists d2.
  - intros job tx x [Hx|Hx]%elem_of_app; [by eapply IH2|].
    pose proof (deliverRevocations_asserted transport now (mkRun w s1 [e_start])) as H1. rewrite Hrun in H1. eapply H1; [|exact Hx].
    intros job' tx' o' [=]%list_elem_of_singleton.
Qed.

(** C31. Over any number of runs of the runner, each to its end or the death of its
    process, whatever fails, the chain answers and other processes write meanwhile: a
    transaction is broadcast only after its check against the job and when the vault
    file holds the job with its hash; until a revert of it is reported no other
    transaction is signed or broadcast for the job and the file keeps the hash; and in a
    run nothing is signed or broadcast behind a transaction whose fate is open. The
    other processes are not runners: they report no revert. *)
Theorem revocations_signed_once (s : S) (tr a b : list Event) (job : Job.RevocationJob) (tx : Job.Transaction) (o : outcome unit) :
  Runs s tr → tr = a ++ e_broadcast job tx o :: b →
  assertJob transport job tx = Ok tt ∧
  (existsb (revertOf (Job.id job)) b = false →
     (∃ d j t, Holds s d ∧ dget (Job.id job) (revocations d) = Some j ∧ Job.transaction j = Some t ∧ Job.hash t = Job.hash tx) ∧
     (∀ i x, e_sign i x ∈ b → i ≠ Job.id job) ∧
     (∀ job' tx' x, e_broadcast job' tx' x ∈ b → Job.id job' = Job.id job → Job.hash tx' = Job.hash tx)) ∧
  (∀ c e b', b = c ++ e :: b' → match e with e_sign _ _ | e_broadcast _ _ _ => True | _ => False end → existsb settles c = true).
Proof.
  intros HR ->. destruct (Runs_inv _ _ HR) as [(w & Hw & d & HH & _ & HA) Hok]. split.
  { eapply Hok. apply elem_of_app. right. by left. }
  rewrite watchAll_app in Hw. destruct (watchAll a _) as [w1|]; [|done]. cbn [watchAll] in Hw. destruct (watch _ w1) as [w2|] eqn:E; [|done].
  cbn [watch] in E. destruct (_ && _) eqn:Eb; [|done]. injection E as E. split.
  - intros Hb. assert (dget (Job.id job) (broadcasts w2) = Some (Job.hash tx)) as H2 by (rewrite <- E; apply dget_dset_eq).
    split; [destruct (HA _ _ (watch_keeps _ _ _ _ _ Hw Hb H2)) as (j & t & ? & ? & ?); by exists d, j, t|].
    assert (∀ e c c', b = c ++ e :: c' → ∃ w3, dget (Job.id job) (broadcasts w3) = Some (Job.hash tx) ∧ is_Some (watch e w3)) as Hat.
    { intros e c c' ->. rewrite existsb_app in Hb. apply orb_false_iff in Hb as [Hc _]. rewrite watchAll_app in Hw. destruct (watchAll c w2) as [w3|] eqn:E3; [|done].
      exists w3. split; [by eapply watch_keeps|]. cbn in Hw. destruct (watch e w3); [by eexists|done]. }
    split.
    + intros i x (c & c' & Hc)%list_elem_of_split ->. destruct (Hat _ _ _ Hc) as (w3 & H3 & [w4 H4]). cbn in H4. unfold dhas in H4. rewrite H3, andb_false_r in H4. done.
    + intros job' tx' x (c & c' & Hc)%list_elem_of_split Hi. destruct (Hat _ _ _ Hc) as (w3 & H3 & [w4 H4]). cbn in H4. unfold agrees in H4. rewrite Hi, H3 in H4.
      destruct (String.eqb_spec (Job.hash tx) (Job.hash tx')) as [->|]; [done|]. by rewrite andb_false_r in H4.
  - intros c e b' -> He. rewrite watchAll_app in Hw. destruct (watchAll c w2) as [w3|] eqn:E3; [|done]. cbn in Hw. destruct (watch e w3) as [w4|] eqn:E4; [|done].
    destruct (existsb settles c) eqn:Es; [done|]. assert (unknown w3 = true) as Hu by (eapply watch_unknown; [done|done|by rewrite <- E]).
    destruct e; try done; cbn in E4; by rewrite Hu in E4.
Qed.
End history.
End Rescreen.

(** * The vault's file behind the interface *)

Module VaultProcess.
Import VaultData VaultOps VaultClient Fs Vault.

(** A process that has the object: what it finds at its changes, and what other processes do to the
    files while it awaits; each is used once. *)
Record Process (Bytes Raw : Type) := mkProcess {
  st : St Raw; chances : nat → @Chance Bytes Raw; awaits : nat → @Files Raw → @Files Raw }.
Arguments mkProcess {Bytes Raw}.
Arguments st {Bytes Raw}.
Arguments chances {Bytes Raw}.
Arguments awaits {Bytes Raw}.

Section process.
Context {Text Bytes B64 Raw : Type}.
Context (stringifyView : View → Text) (parsePlain : Text → option Plain).
Context (sha256 : string → Text → string) (hmacSha256 : string → string → Text → string) (localeLe : string → string → bool).
Context (isAddress : string → bool).
Context (aesSeal : string → Bytes → Text → Bytes * Bytes) (aesOpen : string → Bytes → Bytes → Bytes → option Text).
Context (toBase64url : Bytes → B64) (fromBase64url : B64 → Bytes).
Context (stringifyEnvelope : Envelope B64 → Raw) (parseEnvelope : Raw → option (Envelope B64)).
Context (lockText : Raw) (path : string).
Context `{HT : !Tests (Raw:=Raw)}.
Abbreviation vmutate := (Vault.mutate stringifyView parsePlain aesSeal aesOpen toBase64url fromBase64url stringifyEnvelope parseEnvelope lockText path).
Abbreviation vreload := (reload parsePlain aesOpen fromBase64url parseEnvelope path).
Abbreviation contents := (contentsOf parsePlain aesOpen fromBase64url parseEnvelope).
Abbreviation Others := (rtc (Other stringifyView sha256 hmacSha256 localeLe isAddress)).

Definition onFile {A} (m : M (St Raw) A) : M (Process Bytes Raw) A := λ p, let '(o, s) := m (st p) in (o, mkProcess s (chances p) (awaits p)).
Definition change {A} (m : M VaultData A) : M (Process Bytes Raw) A := λ p,
  let '(o, s) := vmutate (chances p O) m None (st p) in (o, mkProcess s (λ n, chances p (S n)) (awaits p)).
Definition waited (p : Process Bytes Raw) : Process Bytes Raw :=
  let s := st p in mkProcess (mkSt (set_files (awaits p O (files (fs s))) (fs s)) (self s)) (chances p) (λ n, awaits p (S n)).
(** What a read answers, of the content that was just loaded. *)
Definition reading {A} (f : VaultData → A) : M (Process Bytes Raw) A := onFile (vreload ;;; gets (λ s, f (data (self s)))).

#[export] Instance process_handle : VaultHandle (Process Bytes Raw) := {|
  VaultClient.assertWritable := onFile (Vault.assertWritable path);
  listPending := reading listPendingRevocations;
  listDue now interval versions := reading (λ d, listForRescreen d now interval versions);
  VaultClient.mutate := @change;
  meanwhile := waited |}.

(** ** The key stays *)

Section key.
Context (k : string).
Abbreviation Keyed := (λ s : St Raw, key (self s) = k).

Lemma keyed_zoom_fs {A} (m : M (@Fs Raw) A) : keeps Keyed (zoom m).
Proof. intros s Hs. unfold zoom. by destruct (m (lens_get s)). Qed.
Lemma keyed_zoom_data {A} (m : M VaultData A) : keeps Keyed (zoom m).
Proof. intros s Hs. unfold zoom. by destruct (m (lens_get s)). Qed.
Lemma keeps_catch {A} (m : M (St Raw) A) h : keeps Keyed m → (∀ e, keeps Keyed (h e)) → keeps Keyed (catch_ m h).
Proof. intros Hm Hh. apply keeps_tryCatch; [done|]. intros e. destruct (bool_decide _); [apply keeps_throw|apply Hh]. Qed.
Lemma keeps_finally {A} (m : M (St Raw) A) f : keeps Keyed m → (∀ o, keeps Keyed (f o)) → keeps Keyed (finally_ m f).
Proof.
  intros Hm Hf s Hs. unfold finally_. specialize (Hm s Hs). destruct (m s) as [o s1]. destruct (died o); [done|]. specialize (Hf o s1 Hm).
  destruct (f o s1) as [[|] s2]; done.
Qed.
Lemma keyed_unconfirmed : keeps Keyed unconfirmed.
Proof. by apply keeps_modify. Qed.
Lemma keyed_reload : keeps Keyed vreload.
Proof. unfold reload. keeps_go; first [apply keyed_zoom_fs|apply keyed_zoom_data]. Qed.
Lemma keyed_release retain : keeps Keyed (releaseLock path retain).
Proof.
  unfold releaseLock, orUnconfirmed. keeps_go; apply keeps_catch; try apply keyed_zoom_fs; intros e; apply keeps_bind; try apply keyed_unconfirmed; intros; apply keeps_throw.
Qed.
Lemma keyed_mutate {A} c (m : M VaultData A) : keeps Keyed (vmutate c m None).
Proof.
  unfold Vault.mutate, locked, changed, flush. keeps_go; try apply keyed_zoom_fs. apply keeps_finally; [|intros; apply keyed_release]. apply keeps_catch.
  - keeps_go; try apply keyed_zoom_fs; try apply keyed_zoom_data; [|apply keyed_reload]. apply keeps_catch; [apply keyed_zoom_fs|intros; apply keeps_throw].
  - intros e. keeps_go. apply keeps_catch; [apply keyed_reload|intros; apply keeps_ret].
Qed.
End key.

(** ** What the file holds *)

Unset Default Proof Using.
Section laws.
Context (aes_law : ∀ k i t, aesOpen k i (aesSeal k i t).2 (aesSeal k i t).1 = Some t).
Context (base64_law : ∀ b, fromBase64url (toBase64url b) = b).
Context (envelope_law : ∀ e, parseEnvelope (stringifyEnvelope e) = Some e).
Context (json_law : ∀ d, parsePlain (stringifyView (VState d)) = Some (plainOf d)).
(** No test for a file fails. *)
Context `{HExact : !Exact (Raw:=Raw)}.
Context (k : string).

Definition FileHolds (F : @Files Raw) (d : VaultData) : Prop :=
  (dget path F = None ∧ d = emptyData) ∨ ∃ iv, dget path F = Some (Full (seal stringifyView aesSeal toBase64url stringifyEnvelope k iv d)).

Lemma seal_inv i d d' : decryptVaultData parsePlain aesOpen fromBase64url parseEnvelope (seal stringifyView aesSeal toBase64url stringifyEnvelope k i d) k = Ok d' → d' = d.
Proof.
  unfold decryptVaultData, seal, openEnvelope. pose proof (aes_law k i (stringifyView (VState d))) as E. destruct (aesSeal k i (stringifyView (VState d))) as [ct tg]. cbn in E.
  rewrite envelope_law. cbn. rewrite !base64_law, E, json_law. cbn. destruct (safeNat (revision d) && true); [|done]. intros [= <-]. by destruct d.
Qed.
Lemma FileHolds_contents F d d' : FileHolds F d → contents k (dget path F) = Ok d' → d' = d.
Proof. intros [[-> ->]|[iv ->]]; cbn; [congruence|apply seal_inv]. Qed.

(** What another process may do: changes that report no revert. *)
Definition polite (w : @Files Raw → @Files Raw) : Prop := ∀ F d, FileHolds F d → ∃ d', Others d d' ∧ FileHolds (w F) d'.
Lemma polite_after ws F d : Forall polite ws → FileHolds F d → ∃ d', Others d d' ∧ FileHolds (after ws F) d'.
Proof.
  intros Hw. revert F d. induction Hw as [|w ws Hp _ IH]; intros F d HF; [by exists d|]. destruct (Hp _ _ HF) as (d1 & H1 & HF1). destruct (IH _ _ HF1) as (d2 & H2 & HF2).
  exists d2. split; [by etransitivity|done].
Qed.
Record Polite (p : Process Bytes Raw) : Prop := {
  po_key : key (self (st p)) = k;
  po_chances : ∀ n, Forall polite (others (chances p n));
  po_awaits : ∀ n, polite (awaits p n) }.
Definition ProcessHolds (p : Process Bytes Raw) (d : VaultData) : Prop := FileHolds (files (fs (st p))) d ∧ Polite p.
(** A new process, perhaps after others wrote. *)
Definition renewed (p p' : Process Bytes Raw) : Prop := Polite p' ∧ ∃ ws, Forall polite ws ∧ files (fs (st p')) = after ws (files (fs (st p))).

Lemma onFile_wp {A} (m : M (St Raw) A) (Q : outcome A → Process Bytes Raw → Prop) p : wp m (λ o s, Q o (mkProcess s (chances p) (awaits p))) (st p) → wp (onFile m) Q p.
Proof. unfold wp, onFile. by destruct (m (st p)). Qed.
Lemma reload_reads (s : St Raw) : wp vreload (λ o s', files (fs s') = files (fs s) ∧ key (self s') = key (self s) ∧
  (o = Ok tt → contents (key (self s)) (dget path (files (fs s))) = Ok (data (self s')))) s.
Proof.
  unfold reload. apply wp_bind, wp_getS, wp_bind, wp_fs. eapply wp_mono; [apply load_spec|]. intros [d|e] f [Hf Hd]; [|by split_and!].
  apply wp_data, wp_putS. split_and!; [done|done|]. intros _. cbn. by eapply Read_exact, Hd.
Qed.
Lemma reading_holds {A} (f : VaultData → A) p d : ProcessHolds p d → wp (reading f) (λ o p', ProcessHolds p' d ∧ ∀ a, o = Ok a → a = f d) p.
Proof.
  intros [HF [H1 H2 H3]]. apply onFile_wp, wp_bind. eapply wp_mono; [apply reload_reads|]. intros o s (Hf & Hk & Hd).
  assert (ProcessHolds (mkProcess s (chances p) (awaits p)) d) as HH by (split; cbn; [by rewrite Hf|split; cbn; [congruence|done|done]]).
  destruct o as [[]|e]; [|by split]. apply wp_gets. split; [done|]. intros a [= <-]. f_equal. eapply FileHolds_contents; [done|]. rewrite <- H1. by apply Hd.
Qed.
Lemma change_holds {A} (m : M VaultData A) p d : ProcessHolds p d → wp (change m) (λ o p', ∃ d1, Others d d1 ∧
  (ProcessHolds p' d1 ∧ is_ok o = false ∨ ∃ a d2, m d1 = (Ok a, d2) ∧ ProcessHolds p' (bump d2) ∧ ∀ a', o = Ok a' → a' = a)) p.
Proof.
  intros [HF HP]. pose proof (keyed_mutate k (chances p O) m (st p) (po_key _ HP)) as Hk. unfold wp, change.
  pose proof (mutate_spec stringifyView parsePlain aesSeal aesOpen toBase64url fromBase64url stringifyEnvelope parseEnvelope lockText path (chances p O) m None (st p)) as H.
  unfold wp in H. destruct (vmutate (chances p O) m None (st p)) as [o s]. cbn [fst snd] in *. destruct H as [n H].
  destruct (polite_after (take n (others (chances p O))) (files (fs (st p))) d) as (d1 & HO & HF1); [by apply Forall_take, HP|done|].
  exists d1. split; [done|]. set (p' := mkProcess s _ _). assert (Polite p') as HP' by (split; cbn; [done|intros; apply HP|apply HP]).
  assert (∀ d', FileHolds (files (fs s)) d' → ProcessHolds p' d') as HH by (by split). destruct H as [[Hf Ho]|[_ [_ HE]]]; [left; split; [apply HH; by rewrite Hf|done]|].
  rewrite (po_key _ HP) in HE. set (F := after _ _) in *.
  assert (∀ a, Committed stringifyView parsePlain aesSeal aesOpen toBase64url fromBase64url stringifyEnvelope parseEnvelope path (chances p O) m None F k a s →
    ∃ d2, m d1 = (Ok a, d2) ∧ FileHolds (files (fs s)) (bump d2)) as HC.
  { intros a (d0 & d2 & E0 & E1 & E2). assert (contents k (dget path F) = Ok d0) as E0' by by eapply Read_exact. assert (d0 = d1) as -> by by eapply FileHolds_contents. exists d2. split; [done|]. right. by eexists. }
  assert (Untouched path F s → FileHolds (files (fs s)) d1) as HU by (unfold Untouched, FileHolds; by intros ->).
  destruct o as [a|e]; [destruct HE as [HE _]; destruct (HC a HE) as (d2 & E1 & E2); right; exists a, d2; split_and!; [done|by apply HH|by intros a' [= ->]]|].
  destruct (bool_decide _); [destruct HE as ([E|[a E]] & _)|destruct HE as [E _]]; [left; auto| |left; auto].
  destruct (HC a E) as (d2 & E1 & E2). right. exists a, d2. split_and!; [done|by apply HH|done].
Qed.

#[export] Instance process_laws : VaultLaws stringifyView sha256 hmacSha256 localeLe isAddress (Process Bytes Raw).
Proof.
  refine {| Holds := ProcessHolds; restarts := renewed |}.
  - intros p d [HF [H1 H2 H3]]. apply onFile_wp. unfold Vault.assertWritable. apply wp_bind, wp_getS, wp_bind, wp_fs, wp_gets, wp_require; intros _; (split; [done|by split]).
  - intros p d. apply reading_holds.
  - intros now interval versions p d. apply (reading_holds (λ d, listForRescreen d now interval versions)).
  - intros A m p d. apply change_holds.
  - intros p d [HF HP]. destruct (po_awaits _ HP O _ _ HF) as (d1 & HO & HF1). exists d1. split; [done|]. split; [done|]. split; cbn; [apply HP..|intros; apply HP].
  - intros p p' d [HF _] [HP (ws & Hw & E)]. destruct (polite_after ws _ _ Hw HF) as (d1 & HO & HF1). exists d1. split; [done|]. split; [by rewrite E|done].
Defined.
End laws.
End process.
Set Default Proof Using "Type".
End VaultProcess.

(** * Screening what is due *)

Module Screening.
Import VaultData VaultOps VaultClient Rescreen.

(** The engine: its list versions, and a screening of a subject. *)
Record AmlEngine (W Hit : Type) := mkEngine {
  e_listVersions : M W (list (string * Z));
  e_screen : Issue.ScreeningSubject → M W (Issue.ScreeningResult Hit) }.
Arguments mkEngine {W Hit}.
Arguments e_listVersions {W Hit}.
Arguments e_screen {W Hit}.

Record Answer := mkAnswer { an_recordId : string; an_walletAddress : string; an_decision : Issue.Decision; an_riskBand : Issue.RiskBand }.

Definition InvalidVersions : exn := EError "INVALID_SCREENING_LIST_VERSIONS".
Definition VersionsChanged : exn := EError "SCREENING_LIST_VERSIONS_CHANGED".
(** The versions of a result, when they are the current ones. *)
Definition checkVersions (result : json) (current : list (string * Z)) : outcome (list (string * Z)) :=
  match result with
  | JObj o =>
      let? _ := orequire (bool_decide (sort_by str_leb (dkeys o) = sort_by str_leb (dkeys current))
                  && forallb (λ k, match dget k o, dget k current with Some (JNum a), Some b => a =? b | _, _ => false end) (dkeys o)) VersionsChanged in
      Ok (omap (λ kv, match kv.2 with JNum n => Some (kv.1, n) | _ => None end) o)
  | _ => Throw (EClass "TypeError" "Object.keys")
  end.

Section screen.
Context {W S Hit : Type} `{VaultHandle S} (engine : AmlEngine W Hit).

(** [await] of the engine: other processes act meanwhile. *)
Definition consult {A} (m : M W A) : M (Run W S) A := λ r, let '(o, w) := m (world r) in (o, mkRun w (meanwhile (vault r)) (trace r)).

(** The records by id: those that were selected first stay as they were read then. *)
Definition select (first second : list VaultRecord) : list (string * VaultRecord) :=
  fold_left (λ sel r, if dhas (id r) sel then sel else dset (id r) r sel) second (fold_left (λ sel r, dset (id r) r sel) first []).

Definition screenOne (now : Z) (persist : bool) (versions : list (string * Z)) (record : VaultRecord) : M (Run W S) Answer :=
  let! result := consult (e_screen engine (screeningSubject record)) in
  let! resultVersions := lift_out (checkVersions (Issue.listVersions result) versions) in
  when persist (onVault (mutate (recordRescreen (id record) (mkRescreen now (Issue.decision result) (Issue.reviewReason result) resultVersions) record ;;; ret tt))) ;;;
  ret (mkAnswer (id record) (walletAddress record) (Issue.decision result) (Issue.riskBand result)).
Fixpoint screenEach (now : Z) (persist : bool) (versions : list (string * Z)) (l : list VaultRecord) : M (Run W S) (list Answer) :=
  match l with
  | [] => ret []
  | record :: l =>
      let! a := screenOne now persist versions record in
      let! rest := screenEach now persist versions l in
      ret (a :: rest)
  end.
Definition screenDue (now intervalMs : Z) (persist : bool) : M (Run W S) (list Answer) :=
  let! first := onVault (listDue now intervalMs None) in
  let! versions := consult (e_listVersions engine) in
  require (forallb (λ kv, negb (String.eqb kv.1 "") && safeNat kv.2) versions) InvalidVersions ;;;
  let! second := onVault (listDue now intervalMs (Some versions)) in
  screenEach now persist versions (dvalues (select first second)).
End screen.

(** ** Lists and dictionaries *)

Lemma filter_congr {A} (P Q : A → Prop) `{!∀ x, Decision (P x), !∀ x, Decision (Q x)} (l : list A) : (∀ x, x ∈ l → P x ↔ Q x) → filter P l = filter Q l.
Proof.
  induction l as [|x l IH]; intros HPQ; [done|]. rewrite !filter_cons, IH by (intros; apply HPQ; by right).
  assert (P x ↔ Q x) by (apply HPQ; by left). repeat case_decide; tauto || done.
Qed.
Lemma dset_new {A} k (v : A) (l : list (string * A)) : k ∉ dkeys l → dset k v l = l ++ [(k, v)].
Proof.
  induction l as [|[k' v'] l IH]; [done|]. intros [Hne Hk]%not_elem_of_cons. cbn [dset]. cbn in Hne.
  rewrite (proj2 (String.eqb_neq _ _) Hne). cbn [app]. by rewrite IH.
Qed.
Lemma dhas_dkeys {A} k (l : list (string * A)) : dhas k l = true ↔ k ∈ dkeys l.
Proof. unfold dhas. destruct (dget k l) eqn:E; [apply dget_elem in E; split; [intros _; by apply (list_elem_of_fmap_2 fst) in E|done]|by apply dget_None in E]. Qed.

(** ** What is recorded *)

Section recorded.
Context {Text : Type} (stringifyView : View → Text) (sha256 : string → Text → string) (hmacSha256 : string → string → Text → string).
Context (localeLe : string → string → bool) (isAddress : string → bool).
Context {W S Hit : Type} `{HL : VaultLaws Text stringifyView sha256 hmacSha256 localeLe isAddress S}.
Context (engine : AmlEngine W Hit) (now intervalMs : Z).
Abbreviation Others := (rtc (Other stringifyView sha256 hmacSha256 localeLe isAddress)).
Abbreviation Reach := (Reach stringifyView sha256 hmacSha256 localeLe isAddress).

(** The same lists at the same versions, as dictionaries. *)
Definition SameVersions (a b : list (string * Z)) : Prop := dkeys a ≡ₚ dkeys b ∧ ∀ k, dget k a = dget k b.

Lemma sameListVersions_spec a b : sameListVersions a b = true ↔ SameVersions a b.
Proof.
  unfold sameListVersions, SameVersions. rewrite andb_true_iff, bool_decide_eq_true, forallb_forall. split.
  - intros [Hs Hall]. assert (dkeys a ≡ₚ dkeys b) as Hp by by rewrite <- (sort_by_perm str_leb (dkeys a)), Hs, sort_by_perm.
    split; [done|]. intros k. destruct (decide (k ∈ dkeys a)) as [Hk|Hk].
    + apply list_elem_of_In in Hk. by apply Hall, bool_decide_eq_true in Hk.
    + assert (k ∉ dkeys b) as Hk' by by rewrite <- Hp. by rewrite (proj2 (dget_None _ _) Hk), (proj2 (dget_None _ _) Hk').
  - intros [Hp Hall]. split; [|intros k _; by apply bool_decide_eq_true]. apply (StronglySorted_unique_strong (λ x y, str_leb x y)).
    + intros x y _ _ H1%Is_true_eq_true H2%Is_true_eq_true. by apply Json.str_leb_antisym.
    + apply sort_by_sorted; [apply String.leb_total|apply Json.str_leb_trans].
    + apply sort_by_sorted; [apply String.leb_total|apply Json.str_leb_trans].
    + by rewrite !sort_by_perm.
Qed.

(** Field by field the same case, as two JSON texts may say it: the order of properties does not count. *)
Record SameCase (a b : VaultRecord) : Prop := {
  sc_fields : (id a, walletAddress a, consentVersion a, processingPolicy a, retentionPolicy a, screeningSubject a, evidenceHash a, attrs a, claimsRoot a)
    = (id b, walletAddress b, consentVersion b, processingPolicy b, retentionPolicy b, screeningSubject b, evidenceHash b, attrs b, claimsRoot b);
  sc_lifecycle : (state a, createdAt a, retentionUntil a, lastScreenedAt a, reviews a, sourceIssuance a)
    = (state b, createdAt b, retentionUntil b, lastScreenedAt b, reviews b, sourceIssuance b);
  sc_rescreens : Forall2 (λ x y, (rs_at x, decision x, rs_reason x) = (rs_at y, decision y, rs_reason y)
    ∧ SameVersions (listVersions x) (listVersions y)) (rescreens a) (rescreens b);
  sc_json : deepEqual (evidence a) (evidence b) = true
    ∧ match claims a, claims b with Some x, Some y => deepEqual x y = true | None, None => True | _, _ => False end }.
Lemma sameRecord_case a b : sameRecord a b = true → SameCase a b.
Proof.
  unfold sameRecord. rewrite !andb_true_iff, bool_decide_eq_true. intros [[[Hf He] Hc] Hr]. unfold flat in Hf. split.
  - congruence.
  - congruence.
  - revert Hr. generalize (rescreens b). induction (rescreens a) as [|x l IH]; intros [|y m] Hr; try done. revert Hr. cbn [forallb2].
    rewrite andb_true_iff. intros [Hx Hl]. constructor; [|by apply IH]. unfold sameRescreen in Hx. apply andb_true_iff in Hx as [Hx%bool_decide_eq_true Hv].
    split; [done|]. by apply sameListVersions_spec.
  - split; [done|]. by destruct (claims a), (claims b).
Qed.

(** A case of the content [d] that is to be screened: it is kept, may be on chain, and was not screened within the
    interval, or, when the versions of the lists are known, last with other versions. *)
Record Due (d : VaultData) (versions : option (list (string * Z))) (r : VaultRecord) : Prop := {
  due_record : dget (id r) (records d) = Some r;
  due_kept : now < Z.max (retentionUntil r) (match dget (id r) (retention d) with Some c => default 0 (minimumUntil c) | None => 0 end);
  due_state : state r = active ∨ state r = review ∨ state r = pending ∧ sourceIssuance r ≠ None;
  due_reason : (∀ t, lastScreenedAt r = Some t → t = 0 ∨ intervalMs ≤ now - t)
    ∨ ∃ v, versions = Some v ∧ ∀ e, last (rescreens r) = Some e → ¬ SameVersions (listVersions e) v }.

(** The cases of one run: those due in [d], as they are there, then those that are due in [d1] with the versions and
    were not in [d]. *)
Record Selected (d d1 : VaultData) (versions : list (string * Z)) (sel : list VaultRecord) : Prop := {
  se_exactly rec : rec ∈ sel ↔ Due d None rec ∨ Due d1 (Some versions) rec ∧ ¬ ∃ rec0, Due d None rec0 ∧ id rec0 = id rec;
  se_once : NoDup (map id sel) }.

(** The engine's answer on the subject of a case, on the versions the run asked for. *)
Definition Judged (versions : list (string * Z)) (r : VaultRecord) (a : Answer) : Prop :=
  ∃ result o, answered (e_screen engine (screeningSubject r)) result ∧ Issue.listVersions result = JObj o
    ∧ (∀ k, dget k o = JNum <$> dget k versions)
    ∧ a = mkAnswer (id r) (walletAddress r) (Issue.decision result) (Issue.riskBand result).

(** One decision that was recorded: the content [d] it was applied to, which it makes [d']. *)
Record Decided (versions : list (string * Z)) (r : VaultRecord) (a : Answer) (d d' : VaultData) : Prop := {
  de_answer : Judged versions r a;
  de_recorded : ∃ cur r' e, dget (id r) (records d) = Some cur ∧ SameCase cur r ∧ state cur ≠ blocked ∧ state cur ≠ rejected ∧ latestDecisionAt cur ≤ now
    ∧ dget (id r) (records d') = Some r' ∧ rescreens r' = rescreens cur ++ [e] ∧ rs_at e = now ∧ decision e = an_decision a
    ∧ (∀ k, dget k (listVersions e) = dget k versions) ∧ lastScreenedAt r' = Some now
    ∧ state r' = match an_decision a with Issue.BLOCK => blocked | Issue.REVIEW => review | Issue.ALLOW => allowedState cur end;
  de_outbox : an_decision a = Issue.BLOCK → hasJob d' (id r) = true;
  de_others : ∀ i, i ≠ id r → dget i (records d') = dget i (records d) }.

(** *** The listing *)

Lemma listed_due d versions r : Reach d → r ∈ listForRescreen d now intervalMs versions ↔ Due d versions r.
Proof.
  intros HR. destruct (Reach_WF _ _ _ _ _ _ HR) as [Hk Hn _ _ _ _ _]. unfold listForRescreen. rewrite list_elem_of_filter.
  assert (r ∈ dvalues (records d) ↔ dget (id r) (records d) = Some r) as ->.
  { split; [|intros Hr%dget_elem; by apply (list_elem_of_fmap_2 snd) in Hr]. intros [k Hr]%elem_dvalues; [|done]. by rewrite (Hk _ _ Hr). }
  rewrite !andb_true_iff, !orb_true_iff, andb_true_iff, !bool_decide_eq_true, Z.ltb_lt.
  assert (retentionDeadline d r = Z.max (retentionUntil r) (match dget (id r) (retention d) with Some c => default 0 (minimumUntil c) | None => 0 end)) as ->.
  { unfold retentionDeadline. by destruct (dget (id r) (retention d)). }
  assert ((match lastScreenedAt r with None => true | Some t => (t =? 0) || (intervalMs <=? now - t) end) = true ↔
    ∀ t, lastScreenedAt r = Some t → t = 0 ∨ intervalMs ≤ now - t) as ->.
  { destruct (lastScreenedAt r) as [t|]; [|naive_solver]. rewrite orb_true_iff, Z.eqb_eq, Z.leb_le. naive_solver. }
  assert ((match versions with None => false
    | Some v => match last (rescreens r) with None => true | Some e => negb (sameListVersions (listVersions e) v) end end) = true ↔
    ∃ v, versions = Some v ∧ ∀ e, last (rescreens r) = Some e → ¬ SameVersions (listVersions e) v) as ->.
  { destruct versions as [v|]; [|naive_solver]. destruct (last (rescreens r)) as [e|]; [|naive_solver].
    rewrite negb_true_iff, <- not_true_iff_false, sameListVersions_spec. naive_solver. }
  rewrite <- not_eq_None_Some. split; [intros (((H1 & H2) & H3) & H4); split; tauto|intros [H1 H2 H3 H4]; tauto].
Qed.

Lemma listed_once d versions : Reach d → NoDup (map id (listForRescreen d now intervalMs versions)).
Proof.
  intros HR. destruct (Reach_WF _ _ _ _ _ _ HR) as [Hk Hn _ _ _ _ _]. eapply (sublist_NoDup _ (map id (dvalues (records d)))).
  - replace (map id (dvalues (records d))) with (dkeys (records d)); [done|]. unfold dkeys, dvalues. rewrite map_map. apply map_ext_in.
    intros [k v] Hkv%list_elem_of_In. cbn. symmetry. by apply Hk, elem_dget.
  - apply fmap_sublist, sublist_filter.
Qed.

Lemma rescreen_run r e d r' d' : recordRescreen (id r) e r d = (Ok r', d') → ∃ cur, dget (id r) (records d) = Some cur ∧ sameRecord cur r = true
  ∧ state cur ≠ blocked ∧ state cur ≠ rejected ∧ latestDecisionAt cur ≤ rs_at e
  ∧ r' = set_state (match decision e with Issue.BLOCK => blocked | Issue.REVIEW => review | Issue.ALLOW => allowedState cur end)
           (push_rescreen e (set_lastScreenedAt (rs_at e) cur))
  ∧ records d' = dset (id r) r' (records d) ∧ (decision e = Issue.BLOCK → hasJob d' (id r) = true).
Proof.
  intros Hrun. assert (wp (recordRescreen (id r) e r) (λ o d', ∀ r', o = Ok r' → ∃ cur, dget (id r) (records d) = Some cur ∧ sameRecord cur r = true
    ∧ state cur ≠ blocked ∧ state cur ≠ rejected ∧ latestDecisionAt cur ≤ rs_at e
    ∧ r' = set_state (match decision e with Issue.BLOCK => blocked | Issue.REVIEW => review | Issue.ALLOW => allowedState cur end)
             (push_rescreen e (set_lastScreenedAt (rs_at e) cur))
    ∧ records d' = dset (id r) r' (records d) ∧ (decision e = Issue.BLOCK → hasJob d' (id r) = true)) d) as Hwp.
  2: { unfold wp in Hwp. rewrite Hrun in Hwp. by apply Hwp. }
  clear Hrun r' d'. unfold recordRescreen. apply wp_bind, wp_getS. cbv beta iota. destruct (dget (id r) (records d)) as [cur|] eqn:Ed; [|by apply wp_throw].
  apply wp_bind, wp_require; intros H1; [|done]. apply wp_bind, wp_require; intros H2; [|done]. apply wp_bind, wp_require; intros _; [|done]. apply wp_bind, wp_require; intros H3; [|done].
  apply andb_true_iff in H1 as [_ H1]. apply negb_true_iff, orb_false_iff in H2 as [Hb%bool_decide_eq_false Hj%bool_decide_eq_false]. apply Z.leb_le in H3.
  set (st := match decision e with Issue.BLOCK => _ | _ => _ end). set (r1 := set_state st _). apply wp_bind, wp_modify, wp_bind.
  assert (id r1 = id r) as Hid.
  { pose proof H1 as Hf. unfold sameRecord in Hf. rewrite !andb_true_iff in Hf. destruct Hf as [[[Hf%bool_decide_eq_true _] _] _]. unfold flat in Hf.
    injection Hf. intros. transitivity (id cur); [by destruct cur|done]. }
  apply wp_when; intros Hk; [apply bool_decide_eq_true in Hk|apply bool_decide_eq_false in Hk].
  - eapply wp_mono; [apply queue_spec|]. intros o d' Hq. destruct o as [u|x]; [|done]. apply wp_ret. intros r' [= <-]. exists cur. rewrite <- Hid.
    destruct (Hq u eq_refl) as [[Hq1 ->]|(_ & _ & ->)].
    + split_and!; try done; [by rewrite Hid|]. intros _. by apply openJob_hasJob.
    + split_and!; try done; [by rewrite Hid|]. intros _. exact (hasJob_new _ _ (newJob r1 (rs_at e))).
  - apply wp_ret. intros r' [= <-]. exists cur. by split_and!.
Qed.

(** The contents while the cases of a run are recorded, in their order, each with its answer. *)
Inductive Screened (versions : list (string * Z)) : VaultData → list VaultRecord → list Answer → VaultData → Prop :=
  | S_done d sel d' : Others d d' → Screened versions d sel [] d'
  | S_step d d1 d2 r a sel l d' : Others d d1 → Decided versions r a d1 d2 → Screened versions (Vault.bump d2) sel l d' →
      Screened versions d (r :: sel) (a :: l) d'.

Lemma Screened_others versions d d1 sel l d' : Others d d1 → Screened versions d1 sel l d' → Screened versions d sel l d'.
Proof. intros H1 H2. destruct H2 as [d1 sel d2 H2|d1 d3 d4 r a sel l d2 H2 H3 H4]; [apply S_done; by etransitivity|eapply S_step; [by etransitivity|done|done]]. Qed.

Lemma consult_wp {A} (m : M W A) (Q : outcome A → Run W S → Prop) r d : Holds (vault r) d →
  (∀ o r' d1, Holds (vault r') d1 → Others d d1 → (∀ a, o = Ok a → answered m a) → Q o r') → wp (consult m) Q r.
Proof.
  intros HH HQ. unfold wp, consult. destruct (m (world r)) as [o w] eqn:E. destruct (law_meanwhile (vault r) d HH) as (d1 & HO & H1). cbn.
  apply (HQ o _ d1); [done|done|]. intros a ->. by exists (world r), w.
Qed.

Lemma checkVersions_ok result versions vs : checkVersions result versions = Ok vs →
  ∃ o, result = JObj o ∧ (∀ k, dget k o = JNum <$> dget k versions) ∧ ∀ k, dget k vs = dget k versions.
Proof.
  destruct result as [| | | | | | | |o]; try done. cbn [checkVersions]. intros (u & Hc%orequire_ok & [= <-])%obind_ok.
  apply andb_true_iff in Hc as [Hs%bool_decide_eq_true Hall]. rewrite forallb_forall in Hall.
  assert (∀ k, dget k o = JNum <$> dget k versions) as Ho.
  { intros k. destruct (decide (k ∈ dkeys o)) as [Hk|Hk].
    - apply list_elem_of_In, Hall in Hk. destruct (dget k o) as [[]|]; try done. destruct (dget k versions) as [b|]; [|done].
      by apply Z.eqb_eq in Hk as ->.
    - assert (k ∉ dkeys versions) as Hk' by (by rewrite <- (sort_by_perm str_leb (dkeys versions)), <- Hs, sort_by_perm).
      by rewrite (proj2 (dget_None _ _) Hk), (proj2 (dget_None _ _) Hk'). }
  exists o. split_and!; [done|done|]. intros k. specialize (Ho k). clear -Ho. revert Ho. induction o as [|[k' v] o IH]; cbn; [by destruct (dget k versions)|].
  destruct (String.eqb_spec k k') as [->|Hne].
  - destruct (dget k' versions) as [b|]; [|done]. intros [= ->]. cbn. by rewrite String.eqb_refl.
  - intros Ho. destruct v; cbn; rewrite ?(proj2 (String.eqb_neq _ _) Hne); by apply IH.
Qed.

Lemma screenOne_spec persist versions rec r d : Holds (vault r) d → wp (screenOne engine now persist versions rec) (λ o r', ∃ steps d',
  (∀ sel, Screened versions d (rec :: sel) steps d') ∧ Holds (vault r') d' ∧ (persist = false → steps = []) ∧
  ∀ a, o = Ok a → Judged versions rec a ∧ (persist = true → steps = [a]) ∧
    ∀ sel l d2, Screened versions d' sel l d2 → Screened versions d (if persist then rec :: sel else sel) (steps ++ l) d2) r.
Proof.
  intros HH. unfold screenOne. apply wp_bind, (consult_wp _ _ _ d); [done|]. intros o r1 d1 H1 HO Ha.
  assert (∀ sel, Screened versions d sel [] d1) as HS by (intros; by apply S_done). destruct o as [result|e]; [|by exists [], d1].
  apply wp_bind, wp_lift_out. destruct (checkVersions _ _) as [vs|e] eqn:Ev; [|by exists [], d1].
  destruct (checkVersions_ok _ _ _ Ev) as (o & Eo & Ho & Hvs).
  set (a := mkAnswer (id rec) (walletAddress rec) (Issue.decision result) (Issue.riskBand result)).
  assert (Judged versions rec a) as HJ by (exists result, o; split_and!; [by apply Ha|done..]).
  apply wp_bind, wp_when; intros Hp; subst persist.
  - apply onVault_wp. eapply wp_mono; [by apply (law_mutate _ _ d1)|]. intros o' v (d2 & HO2 & [[H2 Ho']|(u & d3 & Em & H3 & Ho')]).
    { destruct o'; [done|]. exists [], d2. split_and!; [intros; by eapply Screened_others, S_done|done|done|done]. }
    unfold bind in Em. destruct (recordRescreen _ _ _ d2) as [[r'|x] d4] eqn:Er; [|done]. injection Em as _ Em. subst d4.
    destruct (rescreen_run _ _ _ _ _ Er) as (cur & E1 & E2 & E3 & E4 & E5 & -> & E6 & E7). cbn [rs_at decision] in *.
    assert (Decided versions rec a d2 d3) as HD.
    { split; cbn [an_decision]; [done| |exact E7|].
      - eexists cur, _, (mkRescreen now (Issue.decision result) (Issue.reviewReason result) vs). rewrite E6, dget_dset_eq.
        split_and!; try done; try by apply sameRecord_case. all: destruct cur; cbn; done || by destruct (Issue.decision result).
      - intros i Hi. by rewrite E6, dget_dset_ne. }
    assert (∀ sel l d5, Screened versions (Vault.bump d3) sel l d5 → Screened versions d (rec :: sel) (a :: l) d5) as HS3.
    { intros sel l d5 H5. eapply S_step; [by etransitivity|exact HD|done]. }
    assert (∀ sel, Screened versions d (rec :: sel) [a] (Vault.bump d3)) as HS4 by (intros; by apply HS3, S_done).
    destruct o' as [u'|e]; [apply wp_ret|]; exists [a], (Vault.bump d3); (split; [done|split; [done|split; [done|]]]); [intros x [= <-]; by split_and!|done].
  - apply wp_ret. exists [], d1. split_and!; [done|done|done|]. intros x [= <-]. split_and!; [done|done|]. intros sel l d2 H2. by eapply Screened_others.
Qed.

Lemma screenEach_spec persist versions l r d : Holds (vault r) d → wp (screenEach engine now persist versions l) (λ o r', ∃ steps d',
  Screened versions d l steps d' ∧ Holds (vault r') d' ∧ (persist = false → steps = []) ∧
  ∀ res, o = Ok res → Forall2 (Judged versions) l res ∧ (persist = true → steps = res)) r.
Proof.
  revert r d. induction l as [|rec l IH]; intros r d HH; cbn [screenEach].
  { apply wp_ret. exists [], d. split_and!; [by apply S_done|done|done|]. intros res [= <-]. by split. }
  apply wp_bind. eapply wp_mono; [by apply screenOne_spec|]. intros o r1 (s1 & d1 & S1 & H1 & P1 & R1).
  destruct o as [a|e]; [|by exists s1, d1]. destruct (R1 a eq_refl) as (Ha & Hs & Happ). apply wp_bind. eapply wp_mono; [by apply (IH r1 d1)|].
  intros o r2 (s2 & d2 & S2 & H2 & P2 & R2). specialize (Happ _ _ _ S2).
  assert (Screened versions d (rec :: l) (s1 ++ s2) d2) as S12.
  { destruct persist; [done|]. rewrite P1, P2 in * by done. inversion Happ; subst. by apply S_done. }
  assert (persist = false → s1 ++ s2 = []) as P12 by (intros Hp; by rewrite P1, P2).
  destruct o as [res|e]; [apply wp_ret|by exists (s1 ++ s2), d2]. exists (s1 ++ s2), d2. split_and!; [done|done|done|]. intros x [= <-].
  destruct (R2 res eq_refl) as [R3 R4]. split; [by constructor|]. intros Hp. by rewrite Hs, R4.
Qed.

(** The selection: the first list, then the new ones of the second. *)
Lemma select_lists first second : NoDup (map id first) → NoDup (map id second) →
  dvalues (select first second) = first ++ filter (λ r, id r ∉ map id first) second.
Proof.
  intros N1 N2. unfold select. set (pair := λ r : VaultRecord, (id r, r)).
  assert (∀ l, dkeys (map pair l) = map id l) as Hkeys by (intros l; unfold dkeys; by rewrite map_map).
  assert (∀ l sel, NoDup (map id (sel ++ l)) → fold_left (λ sel r, dset (id r) r sel) l (map pair sel) = map pair (sel ++ l)) as Hf.
  { induction l as [|x l IH]; intros sel HN; cbn [fold_left]; [by rewrite app_nil_r|].
    assert (id x ∉ dkeys (map pair sel)) as Hx.
    { rewrite Hkeys. rewrite map_app in HN. apply NoDup_app in HN as (_ & HN & _). intros Hx. apply (HN _ Hx). by left. }
    rewrite dset_new by done. change [(id x, x)] with (map pair [x]). rewrite <- map_app, IH; [|by rewrite <- app_assoc]. by rewrite <- app_assoc. }
  assert (∀ l sel, NoDup (map id l) → fold_left (λ sel r, if dhas (id r) sel then sel else dset (id r) r sel) l (map pair sel)
    = map pair (sel ++ filter (λ r, id r ∉ map id sel) l)) as Hs.
  { induction l as [|x l IH]; intros sel HN; cbn [fold_left]; [by rewrite app_nil_r|]. cbn [map] in HN. apply NoDup_cons in HN as [Hx HN].
    rewrite filter_cons. destruct (dhas (id x) (map pair sel)) eqn:Eh.
    - rewrite decide_False; [by apply IH|]. intros Hn. apply Hn. rewrite <- Hkeys. by apply dhas_dkeys.
    - assert (id x ∉ map id sel) as Hn by (rewrite <- Hkeys; intros Hd%dhas_dkeys; congruence).
      rewrite decide_True by done. rewrite dset_new by by rewrite Hkeys. change [(id x, x)] with (map pair [x]). rewrite <- map_app, IH by done.
      rewrite <- app_assoc. cbn [app]. do 3 f_equal. apply filter_congr. intros y Hy. rewrite map_app, not_elem_of_app. split; [tauto|].
      intros Hy'. split; [done|]. intros [E|[]%elem_of_nil]%elem_of_cons. apply Hx. rewrite <- E. by apply list_elem_of_fmap_2. }
  change (@nil (string * VaultRecord)) with (map pair []). rewrite Hf by done. rewrite Hs by done. cbn [app]. unfold dvalues. rewrite map_map. apply map_id.
Qed.

Lemma selected d d1 versions : Reach d → Reach d1 →
  Selected d d1 versions (dvalues (select (listForRescreen d now intervalMs None) (listForRescreen d1 now intervalMs (Some versions)))).
Proof.
  intros HR HR1. pose proof (listed_once d None HR) as N1. pose proof (listed_once d1 (Some versions) HR1) as N2. rewrite select_lists by done. split.
  - intros rec. rewrite elem_of_app, list_elem_of_filter, !listed_due, list_elem_of_fmap by done. setoid_rewrite listed_due; [|done]. naive_solver.
  - rewrite map_app. apply NoDup_app. split_and!; [done| |].
    + intros x Hx (y & -> & [Hy _]%list_elem_of_filter)%list_elem_of_fmap. done.
    + eapply sublist_NoDup; [exact N2|]. apply fmap_sublist, sublist_filter.
Qed.

Lemma screenDue_spec persist r d : Holds (vault r) d → Reach d → wp (screenDue engine now intervalMs persist) (λ o r', ∃ d1 d' steps,
  Others d d1 ∧ Holds (vault r') d' ∧ (persist = false → steps = []) ∧
  (is_ok o = false ∧ steps = [] ∧ Others d1 d' ∨
   ∃ versions sel, answered (e_listVersions engine) versions ∧ Selected d d1 versions sel ∧ Screened versions d1 sel steps d' ∧
     ∀ res, o = Ok res → Forall2 (Judged versions) sel res ∧ (persist = true → steps = res))) r.
Proof.
  intros HH HR. unfold screenDue. apply wp_bind, onVault_wp. eapply wp_mono; [by apply (law_listDue _ _ _ _ d)|]. intros o v [Hv Hl].
  destruct o as [first|e]; [|exists d, d, []; split_and!; [done..|by left]]. specialize (Hl first eq_refl).
  apply wp_bind, (consult_wp _ _ _ d); [done|]. intros o r1 d1 H1 HO Hans. pose proof (Others_Reach _ _ _ _ _ _ _ HO HR) as HR1.
  destruct o as [versions|e]; [|exists d1, d1, []; split_and!; [done..|by left]].
  apply wp_bind, wp_require; intros _; [|exists d1, d1, []; split_and!; [done..|by left]].
  apply wp_bind, onVault_wp. eapply wp_mono; [by apply (law_listDue _ _ _ _ d1)|]. intros o v2 [Hv2 Hl2].
  destruct o as [second|e]; [|exists d1, d1, []; split_and!; [done..|by left]]. specialize (Hl2 second eq_refl). subst first second.
  eapply wp_mono; [by apply (screenEach_spec _ _ _ _ d1)|]. intros o r3 (steps & d3 & S3 & H3 & P3 & R3). exists d1, d3, steps.
  split_and!; [done|done|done|]. right. eexists versions, _. split_and!; [by apply Hans|by apply selected|exact S3|done].
Qed.

(** C32. Whatever fails and other processes write while the engine screens a vault
    with a reachable content: the content changes only by their changes and by recorded
    decisions. The run screens exactly the cases due by the interval in the content it
    read first, as they were there, and the cases due in the content it read after the
    engine named the list versions, whose last screening used other versions, each case
    once; decisions are recorded for the first of them in order, each the engine's
    answer with those very versions, on the case field for field as it was read, at the
    time of the run, with the state the decision demands, and a block with a revocation
    in the outbox. A preview records nothing; a run that answers has one answer for each
    of those cases and, if it records, recorded exactly its answers; a run that fails
    before the engine named its versions recorded nothing. *)
Theorem screening_fenced (persist : bool) (r : Run W S) (d : VaultData) : Holds (vault r) d → Reach d →
  let '(o, r') := screenDue engine now intervalMs persist r in
  ∃ d1 d' steps, Others d d1 ∧ Holds (vault r') d' ∧ (persist = false → steps = []) ∧
    (is_ok o = false ∧ steps = [] ∧ Others d1 d' ∨
     ∃ versions sel, answered (e_listVersions engine) versions ∧ Selected d d1 versions sel ∧ Screened versions d1 sel steps d' ∧
       ∀ res, o = Ok res → Forall2 (Judged versions) sel res ∧ (persist = true → steps = res)).
Proof.
  intros HH HR. pose proof (screenDue_spec persist r d HH HR) as H1. unfold wp in H1. destruct (screenDue engine now intervalMs persist r) as [o r']. exact H1.
Qed.
End recorded.
End Screening.

(** * Two runs, the first of which leaves its transaction pending *)

Module RescreenExample.
Import VaultData VaultOps VaultExample VaultFileExample VaultClient Fs Vault Rescreen VaultProcess Screening.

Abbreviation ExProcess := (Process Octets ExRaw).
#[local] Instance exHandle : VaultHandle ExProcess :=
  process_handle (Text:=View) (λ v, v) exPlain exSeal exOpen (λ b, b) (λ b, b) XEnvelope exParse XLock "vault".
#[local] Instance exLaws : VaultLaws (λ v, v) exSha exHmac exLocale exAddress ExProcess :=
  process_laws (λ v, v) exPlain exSha exHmac exLocale exAddress exSeal exOpen (λ b, b) (λ b, b) XEnvelope exParse XLock "vault" ex_aes (λ _, eq_refl) (λ _, eq_refl) (λ _, eq_refl) "key".

Definition exTx : Job.Transaction := Job.mkTx "0xaa" "0xraw" 11155111 "0x01".
(** The world: whether the transaction was mined. *)
Definition exTransport : RevocationTransport bool :=
  mkTransport (λ _ _, Ok tt) (λ _, ret exTx) (λ _ (w : bool), (Ok (if w then Some success else None), w)) (λ _, ret tt) (λ _, ret None).
Definition exClock : M bool Z := ret 60.
Definition exFile (d : VaultData) : @Files ExRaw := [("vault", Full (seal (λ v, v) exSeal (λ b, b) XEnvelope "key" [] d))].
Definition exProcess (F : @Files ExRaw) : ExProcess := mkProcess (mkSt (mkFs F [] []) exVault) (λ _, exChance) (λ _ F, F).

Abbreviation ExRun := (Run bool ExProcess).
Definition exStart (mined : bool) (F : @Files ExRaw) : ExRun := mkRun mined (exProcess F) [e_start].
Definition exFirst : outcome (Z * Z * Z) * ExRun := Eval vm_compute in deliverRevocations exTransport exClock (exStart false (exFile b2)).
Definition exBetween : @Files ExRaw := Eval vm_compute in files (fs (st (vault exFirst.2))).
Definition exSecond : outcome (Z * Z * Z) * ExRun := Eval vm_compute in deliverRevocations exTransport exClock (exStart true exBetween).
Lemma exFirst_ok : deliverRevocations exTransport exClock (exStart false (exFile b2)) = (exFirst.1, exFirst.2).
Proof. by vm_compute. Qed.
Lemma exSecond_ok : deliverRevocations exTransport exClock (exStart true exBetween) = (exSecond.1, exSecond.2).
Proof. by vm_compute. Qed.
Definition exJob : Job.RevocationJob := Eval vm_compute in
  match trace exFirst.2 with [_; _; _; e_broadcast j _ _; _] => j | _ => Job.mkJob "" "" "" 0 Job.j_pending None None None None None end.
Definition exTrace : list Event :=
  [e_start; e_sign "r1:revoke:30" (Ok exTx); e_result "r1:revoke:30" exTx (Ok None)] ++
  e_broadcast exJob exTx (Ok tt) :: [e_result "r1:revoke:30" exTx (Ok None); e_start; e_result "r1:revoke:30" exTx (Ok (Some success))].
Lemma exTrace_ok : ([] ++ trace exFirst.2) ++ trace exSecond.2 = exTrace.
Proof. by vm_compute. Qed.

Lemma ex_polite F : Polite (Text:=View) (λ v, v) exSha exHmac exLocale exAddress exSeal (λ b, b) XEnvelope "vault" "key" (exProcess F).
Proof. split; [done|intros n; apply Forall_nil_2|]. intros n F' d HF. by exists d. Qed.
Lemma b2_reach : Reach (λ v, v) exSha exHmac exLocale exAddress b2.
Proof. eapply Reach_commit; [apply d1_reach|apply b2_commit]. Qed.
Abbreviation ExRuns := (Runs (λ v, v) exSha exHmac exLocale exAddress exTransport exClock).
Lemma exSecond_runs : ExRuns (vault exSecond.2) exTrace.
Proof.
  rewrite <- exTrace_ok.
  refine (Runs_run _ _ _ _ _ _ _ (vault exFirst.2) _ (exProcess exBetween) true exSecond.1 exSecond.2 _ _ exSecond_ok).
  - refine (Runs_run _ _ _ _ _ _ _ (exProcess (exFile b2)) [] (exProcess (exFile b2)) false exFirst.1 exFirst.2 _ _ exFirst_ok).
    + apply (Runs_start _ _ _ _ _ _ _ _ b2); [|apply b2_reach]. split; [right; by exists []|apply ex_polite].
    + split; [apply ex_polite|]. by exists [].
  - split; [apply ex_polite|]. by exists [].
Qed.
Lemma revocations_signed_once_witness : exSecond.1 = Ok (1, 0, 0) ∧ ∃ d j t, Holds (vault exSecond.2) d ∧ dget (Job.id exJob) (revocations d) = Some j
  ∧ Job.transaction j = Some t ∧ Job.hash t = Job.hash exTx.
Proof.
  split; [by vm_compute|].
  exact (proj1 (proj1 (proj2 (revocations_signed_once (λ v, v) exSha exHmac exLocale exAddress exTransport exClock (vault exSecond.2) exTrace
    [e_start; e_sign "r1:revoke:30" (Ok exTx); e_result "r1:revoke:30" exTx (Ok None)]
    [e_result "r1:revoke:30" exTx (Ok None); e_start; e_result "r1:revoke:30" exTx (Ok (Some success))] exJob exTx (Ok tt) exSecond_runs eq_refl)) eq_refl)).
Defined.

(** A screening that blocks the only case that is due. *)
Definition exResult : Issue.ScreeningResult unit := Issue.mkScreening Issue.BLOCK None Issue.Band5 [] 0 (JObj [("OFAC", JNum 7)]) "" 0 JNull.
Definition exEngine : AmlEngine bool unit := mkEngine (ret [("OFAC", 7)]) (λ _, ret exResult).
Definition exBefore : ExRun := mkRun false (exProcess (exFile d1)) [].
Definition exScreened : outcome (list Answer) * ExRun := Eval vm_compute in screenDue exEngine 50 10 true exBefore.
Lemma exScreened_ok : screenDue exEngine 50 10 true exBefore = (exScreened.1, exScreened.2).
Proof. by vm_compute. Qed.
Lemma exBefore_holds : Holds (VaultLaws:=exLaws) (vault exBefore) d1.
Proof. split; [right; by exists []|apply ex_polite]. Qed.
Definition exAnswer : Answer := mkAnswer "r1" "0x01" Issue.BLOCK Issue.Band5.
Lemma screening_fenced_witness : exScreened.1 = Ok [exAnswer] ∧ ∃ d', Holds (vault exScreened.2) d' ∧ ∃ e1 d2, Screened (λ v, v) exSha exHmac exLocale exAddress exEngine 50
  [("OFAC", 7)] d2 e1 [exAnswer] d'.
Proof.
  split; [by vm_compute|].
  pose proof (screening_fenced (λ v, v) exSha exHmac exLocale exAddress exEngine 50 10 true exBefore d1 exBefore_holds d1_reach) as H. rewrite exScreened_ok in H.
  destruct H as (d2 & d' & steps & _ & HH & _ & [[[=] _]|(versions & sel & (w & w' & [= <- <-]) & _ & HS & Hres)]). exists d'. split; [done|].
  destruct (Hres [exAnswer] eq_refl) as [_ Hs]. specialize (Hs eq_refl). subst steps. by exists sel, d2.
Defined.
End RescreenExample.
