(* ===== verification/RescreenEvm.v ===== *)
(** The transport of revocations to the source chain, [src/pipeline/rescreen-evm.ts].  The JSON-RPC
    provider, the wallet, transaction decoding and the ABI are parameters.  A transaction passes only
    when it is the signer's, to the source contract, and revokes exactly the job's wallet; a success
    is a canonical receipt with exactly one matching event. *)

From Stdlib Require Import ZArith Lia Ascii String.
From stdpp Require Import base decidable option list strings.
From S2P Require Import Prelude JS Evm Revocation Vault VaultFile Rescreen.
Local Open Scope string_scope.
Local Open Scope list_scope.
Local Open Scope Z_scope.
Local Open Scope js_scope.
Set Default Proof Using "Type".

Module RescreenEvm.
Import Rescreen.

(** A decoded call and a decoded event of [RESCREEN_SOURCE_ABI]. *)
Record Call := mkCall { c_name : string; c_subjects : list string; c_reasonCodes : list Z; c_epoch : Z }.
Record MarkRevoked := mkRevoked { ev_name : string; ev_subject : string; ev_reasonCode : Z; ev_epoch : Z }.
Record Config := mkConfig { g_chainId : Z; g_source : string; g_confirmations : Z; g_epoch : option Z }.
Record TransactionRequest := mkRequest { q_to : string; q_value : Z; q_data : string }.

Record Provider (W : Type) := mkProvider {
  p_chainId : M W Z; p_code : string → M W string;
  p_receipt : string → M W (option TxReceipt); p_blockNumber : M W Z; p_block : Z → M W (option string);   (* the hash of a block *)
  p_broadcast : string → M W string; p_wait : string → Z → M W unit }.
Arguments mkProvider {W}.
Arguments p_chainId {W}.
Arguments p_code {W}.
Arguments p_receipt {W}.
Arguments p_blockNumber {W}.
Arguments p_block {W}.
Arguments p_broadcast {W}.
Arguments p_wait {W}.

Definition uint32 (n : Z) : bool := (0 <? n) && (n <=? 0xffffffff).

Section transport.
Context {W Populated : Type}.
Context (getAddress : string → outcome string) (decode : string → outcome Tx) (keccak256 : string → string).
Context (parseTransaction : string → outcome (option Call)) (parseLog : Log → outcome (option MarkRevoked)).
Context (encodeRevokeBatch : string → Z → Z → outcome string).   (* of one subject, reason code and epoch *)
Context (provider : Provider W).
(** The wallet: its address, whether it is connected to [provider], population and signature. *)
Context (signerAddress : string) (sameProvider : bool) (populate : TransactionRequest → M W Populated) (sign : Populated → M W string).
Context (config : Config).

Section source.
Context (source : string).   (* the checksummed address of the source contract *)

Definition BindingMismatch : exn := EError "outbox signed transaction binding mismatch".
Definition validate (t : Job.Transaction) : outcome (string * Z) :=
  let? _ := orequire ((Job.chainId t =? g_chainId config) && same (Job.txSource t) source) (EError "outbox belongs to another source deployment") in
  let? signed := decode (Job.raw t) in
  let? _ := orequire (tx_signed signed && bool_decide (tx_hash signed = Some (Job.hash t)) && (tx_chainId signed =? g_chainId config)
              && match tx_to signed with Some to => same to source | None => false end) BindingMismatch in
  match tx_from signed with
  | None => Throw (EClass "TypeError" "toLowerCase")
  | Some from =>
      let? _ := orequire (same from signerAddress && (tx_value signed =? 0)) BindingMismatch in
      let? call := parseTransaction (tx_data signed) in
      match call with
      | Some (mkCall "revokeBatch" [subject] [2] epoch) =>
          let? _ := orequire (negb (epoch =? 0) && negb (same subject ZeroAddress)) (EError "outbox revocation payload mismatch") in
          Ok (subject, epoch)
      | _ => Throw (EError "outbox revocation payload mismatch")
      end
  end.

(** The logs that are the event of the transaction. *)
Definition isEvent (intent : string * Z) (log : Log) : bool :=
  same (lg_address log) source
  && match parseLog log with
     | Ok (Some (mkRevoked name subject reason epoch)) =>
         String.eqb name "MarkRevoked" && same subject intent.1 && (reason =? 2) && (epoch =? intent.2)
         && (length (lg_topics log) =? 4)%nat && String.eqb (lg_data log) "0x"
     | _ => false
     end.

Definition sameBlock (b : option string) (r : TxReceipt) : bool := bool_decide (b = Some (rc_blockHash r)).
Definition getReceipt (t : Job.Transaction) : M W (option Status) :=
  let! intent := lift_out (validate t) in
  let! result := p_receipt provider (Job.hash t) in
  match result with
  | None => ret None
  | Some r =>
      require (String.eqb (rc_hash r) (Job.hash t) && match rc_to r with Some to => same to source | None => false end && same (rc_from r) signerAddress)
        (EError "source receipt binding mismatch") ;;;
      let! head := p_blockNumber provider in
      let! block := p_block provider (rc_blockNumber r) in
      if negb (sameBlock block r) || (head - rc_blockNumber r + 1 <? g_confirmations config) then ret None
      else if rc_status r =? 0 then
        let! again := p_block provider (rc_blockNumber r) in
        ret (if sameBlock again r then Some reverted else None)
      else
        require (rc_status r =? 1) (EError "invalid source receipt status") ;;;
        require (length (filter (λ l, isEvent intent l = true) (rc_logs r)) =? 1)%nat (EError "source revocation event mismatch") ;;;
        let! again := p_block provider (rc_blockNumber r) in
        ret (if sameBlock again r then Some success else None)
  end.

Definition checkJob (job : Job.RevocationJob) (t : Job.Transaction) : outcome unit :=
  let? _ := Job.assertRevocationTarget job (Job.mkTarget (g_chainId config) source) in
  let? intent := validate t in
  orequire (same intent.1 (Job.walletAddress job)) (EError "outbox signed subject does not match revocation job").

Definition prepareJob (job : Job.RevocationJob) : M W Job.Transaction :=
  lift_out (Job.assertRevocationTarget job (Job.mkTarget (g_chainId config) source)) ;;;
  let epoch := default (Job.createdAt job / 1000) (g_epoch config) in
  require (isSafeInteger epoch && uint32 epoch) (EError "rescreen epoch must fit uint32") ;;;
  let! data := lift_out (encodeRevokeBatch (Job.walletAddress job) 2 epoch) in
  let! populated := populate (mkRequest source 0 data) in
  let! raw := sign populated in
  let t := Job.mkTx (keccak256 raw) raw (g_chainId config) source in
  lift_out (validate t) ;;;
  ret t.

Definition broadcastTx (t : Job.Transaction) : M W unit :=
  lift_out (validate t) ;;;
  let! hash := p_broadcast provider (Job.raw t) in
  require (String.eqb hash (Job.hash t)) (EError "broadcast hash mismatch").
Definition waitTx (t : Job.Transaction) : M W (option Status) :=
  lift_out (validate t) ;;;
  p_wait provider (Job.hash t) (g_confirmations config) ;;;
  getReceipt t.

Definition transport : RevocationTransport W := mkTransport checkJob prepareJob getReceipt broadcastTx waitTx.
End source.

Definition createEvmRevocationTransport : M W (RevocationTransport W) :=
  require (isSafeInteger (g_chainId config) && (0 <? g_chainId config)) (EError "source chain ID mismatch") ;;;
  let! chain := p_chainId provider in
  require (chain =? g_chainId config) (EError "source chain ID mismatch") ;;;
  let! source := lift_out (getAddress (g_source config)) in
  require (negb (String.eqb source ZeroAddress)) (EError "source contract has no code") ;;;
  let! code := p_code provider source in
  require (negb (String.eqb code "0x")) (EError "source contract has no code") ;;;
  require (isSafeInteger (g_confirmations config) && (1 <=? g_confirmations config)) (EError "invalid source confirmation count") ;;;
  require sameProvider (EError "rescreen signer provider mismatch") ;;;
  require match g_epoch config with Some e => uint32 e | None => true end (EError "rescreen epoch must fit uint32") ;;;
  ret (transport source).

(** ** What passes *)

(** The transaction is the signer's, to the source, of no value, and revokes the one subject. *)
Record Bound (source : string) (t : Job.Transaction) (subject : string) (epoch : Z) : Prop := {
  bd_deployment : Job.chainId t = g_chainId config ∧ same (Job.txSource t) source = true;
  bd_signed : ∃ s to from, decode (Job.raw t) = Ok s ∧ tx_signed s = true ∧ tx_hash s = Some (Job.hash t) ∧ tx_chainId s = g_chainId config
    ∧ tx_to s = Some to ∧ same to source = true ∧ tx_from s = Some from ∧ same from signerAddress = true ∧ tx_value s = 0
    ∧ parseTransaction (tx_data s) = Ok (Some (mkCall "revokeBatch" [subject] [2] epoch));
  bd_payload : epoch ≠ 0 ∧ same subject ZeroAddress = false }.

Lemma validate_bound source t i : validate source t = Ok i → Bound source t i.1 i.2.
Proof.
  unfold validate. intros (u & H1 & H)%obind_ok. apply orequire_ok, andb_true_iff in H1 as [H1%Z.eqb_eq H1'].
  apply obind_ok in H as (s & Hs & H). apply obind_ok in H as (u' & H2 & H). apply orequire_ok in H2. rewrite !andb_true_iff in H2.
  destruct H2 as [[[H2 H3%bool_decide_eq_true] H4%Z.eqb_eq] H5]. destruct (tx_to s) as [to|] eqn:Eto; [|done]. destruct (tx_from s) as [from|] eqn:Ef; [|done].
  apply obind_ok in H as (u'' & H6 & H). apply orequire_ok, andb_true_iff in H6 as [H6 H7%Z.eqb_eq]. apply obind_ok in H as (c & Hc & H).
  destruct c as [[name subjects reasons epoch]|]; [|done].
  destruct (decide (name = "revokeBatch")) as [->|Hn]; [|exfalso; revert H; repeat case_match; simplify_eq; done].
  destruct subjects as [|subject [|]]; try done. destruct (decide (reasons = [2])) as [->|Hr]; [|exfalso; revert H; repeat case_match; simplify_eq; done].
  apply obind_ok in H as (u3 & H8 & [= <-]). apply orequire_ok, andb_true_iff in H8 as [H8%negb_true_iff%Z.eqb_neq H9%negb_true_iff].
  split; [done| |done]. by exists s, to, from.
Qed.

Lemma checkJob_bound source job t : checkJob source job t = Ok tt → ∃ subject epoch, Bound source t subject epoch ∧ same subject (Job.walletAddress job) = true
  ∧ ∀ g, Job.sourceTarget job = Some g → Job.t_chainId g = g_chainId config ∧ same (Job.t_source g) source = true.
Proof.
  unfold checkJob, Job.assertRevocationTarget. intros (u & H1 & H)%obind_ok. apply orequire_ok in H1. apply obind_ok in H as (i & Hi & H). apply orequire_ok in H.
  exists i.1, i.2. split_and!; [by apply validate_bound|done|]. intros g Hg. rewrite Hg in H1. cbn in H1. apply andb_true_iff in H1 as [H1%Z.eqb_eq H2]. done.
Qed.

(** A success was read from the chain as a canonical receipt with the one event. *)
Record Mined (source : string) (t : Job.Transaction) (i : string * Z) (r : TxReceipt) : Prop := {
  mi_intent : validate source t = Ok i;
  mi_receipt : answered (p_receipt provider (Job.hash t)) (Some r) ∧ rc_hash r = Job.hash t ∧ rc_status r = 1;
  mi_parties : (∃ to, rc_to r = Some to ∧ same to source = true) ∧ same (rc_from r) signerAddress = true;
  mi_canonical : answered (p_block provider (rc_blockNumber r)) (Some (rc_blockHash r));
  mi_deep : ∃ head, answered (p_blockNumber provider) head ∧ g_confirmations config ≤ head - rc_blockNumber r + 1;
  mi_event : ∃ l, filter (λ l, isEvent source i l = true) (rc_logs r) = [l] }.

Lemma getReceipt_spec source t w : wp (getReceipt source t) (λ o _, o = Ok (Some success) → ∃ i r, Mined source t i r) w.
Proof.
  unfold getReceipt. apply wp_bind, wp_lift_out. destruct (validate source t) as [i|] eqn:Ei; [|done]. apply wp_bind, wp_read; [|done]. intros [r|] w1 Hr; [|by apply wp_ret].
  apply wp_bind, wp_require; intros Hb; [|done]. rewrite !andb_true_iff in Hb. destruct Hb as [[H1%String.eqb_eq H2] H3]. destruct (rc_to r) as [to|] eqn:Eto; [|done].
  apply wp_bind, wp_read; [|done]. intros head w2 Hh. apply wp_bind, wp_read; [|done]. intros block w3 Hblk. destruct (_ || _) eqn:Eb; [by apply wp_ret|].
  apply orb_false_iff in Eb as [Eb%negb_false_iff%bool_decide_eq_true Ed%Z.ltb_ge]. subst block. destruct (rc_status r =? 0).
  { apply wp_bind, wp_read; [|done]. intros b w4 _. apply wp_ret. by destruct (sameBlock b r). }
  apply wp_bind, wp_require; intros Hs; [|done]. apply Z.eqb_eq in Hs. apply wp_bind, wp_require; intros Hl; [|done]. apply Nat.eqb_eq in Hl.
  apply wp_bind, wp_read; [|done]. intros b w4 _. apply wp_ret. intros _. exists i, r. split; try done; [by split; [exists to|]|by exists head|].
  destruct (filter _ _) as [|l [|]]; try done. by exists l.
Qed.
Lemma getReceipt_mined source t : answered (getReceipt source t) (Some success) → ∃ i r, Mined source t i r.
Proof. intros (w & w' & E). pose proof (getReceipt_spec source t w) as H. unfold wp in H. rewrite E in H. by apply H. Qed.

Unset Default Proof Using.
(** What the wallet and the ABI do with a request. *)
Context (wallet_law : ∀ q p raw s, answered (populate q) p → answered (sign p) raw → decode raw = Ok s → tx_data s = q_data q).
Context (abi_law : ∀ a n e data, encodeRevokeBatch a n e = Ok data → ∃ a', parseTransaction data = Ok (Some (mkCall "revokeBatch" [a'] [n] e)) ∧ same a' a = true).

Lemma prepareJob_spec source job w : wp (prepareJob source job) (λ o _, ∀ t, o = Ok t → checkJob source job t = Ok tt ∧ Job.hash t = keccak256 (Job.raw t)) w.
Proof.
  unfold prepareJob. apply wp_bind, wp_lift_out. destruct (Job.assertRevocationTarget job _) as [u|] eqn:Ea; [|done]. apply wp_bind, wp_require; intros _; [|done].
  apply wp_bind, wp_lift_out. destruct (encodeRevokeBatch _ _ _) as [data|] eqn:Ed; [|done]. apply wp_bind, wp_read; [|done]. intros pop w1 Hp.
  apply wp_bind, wp_read; [|done]. intros raw w2 Hraw. cbv zeta. set (t := Job.mkTx _ _ _ _). apply wp_bind, wp_lift_out. destruct (validate source t) as [i|] eqn:Ei; [|done].
  apply wp_ret. intros t' [= <-]. split; [|done]. unfold checkJob. rewrite Ea. cbn [obind]. rewrite Ei. cbn [obind].
  destruct (validate_bound _ _ _ Ei) as [_ (s & to & from & Hs & _ & _ & _ & _ & _ & _ & _ & _ & Hc) _]. pose proof (wallet_law _ _ _ _ Hp Hraw Hs) as Hd. cbn in Hd.
  destruct (abi_law _ _ _ _ Ed) as (a' & Ha & Hsame). rewrite Hd, Ha in Hc. injection Hc as E _. rewrite <- E. by rewrite Hsame.
Qed.

(** Every transport that is created is for a source contract on the configured
    chain; what its check accepts for a job is a transaction signed by the runner's
    wallet, of that chain, to that contract, of no value, that revokes exactly the job's
    wallet, and the job has no other target; what it prepares passes the check; and a
    success it reports was read as a receipt of the transaction in the canonical block,
    deep enough, with exactly one matching event. Laws of the wallet and the ABI are
    hypotheses. *)
Theorem evm_revocations_bound (T : RevocationTransport W) : answered createEvmRevocationTransport T → ∃ source,
  getAddress (g_source config) = Ok source ∧ source ≠ ZeroAddress ∧ answered (p_chainId provider) (g_chainId config) ∧
  (∀ job t, assertJob T job t = Ok tt → ∃ subject epoch, Bound source t subject epoch ∧ same subject (Job.walletAddress job) = true
     ∧ ∀ g, Job.sourceTarget job = Some g → Job.t_chainId g = g_chainId config ∧ same (Job.t_source g) source = true) ∧
  (∀ job t, answered (prepare T job) t → assertJob T job t = Ok tt ∧ Job.hash t = keccak256 (Job.raw t)) ∧
  (∀ t, answered (receipt T t) (Some success) → ∃ i r, Mined source t i r).
Proof.
  intros (w & w' & E). assert (wp createEvmRevocationTransport (λ o _, ∀ T, o = Ok T → ∃ source, getAddress (g_source config) = Ok source ∧ source ≠ ZeroAddress
    ∧ answered (p_chainId provider) (g_chainId config) ∧ T = transport source) w) as H.
  { unfold createEvmRevocationTransport. apply wp_bind, wp_require; intros _; [|done]. apply wp_bind, wp_read; [|done]. intros chain w1 Hc.
    apply wp_bind, wp_require; intros He; [|done]. apply Z.eqb_eq in He as ->. apply wp_bind, wp_lift_out. destruct (getAddress _) as [source|]; [|done].
    apply wp_bind, wp_require; intros Hz; [|done]. apply negb_true_iff, String.eqb_neq in Hz. apply wp_bind, wp_read; [|done]. intros code w2 _.
    apply wp_bind, wp_require; intros _; [|done]. apply wp_bind, wp_require; intros _; [|done]. apply wp_bind, wp_require; intros _; [|done]. apply wp_bind, wp_require; intros _; [|done].
    apply wp_ret. intros T' [= <-]. by exists source. }
  unfold wp in H. rewrite E in H. destruct (H T eq_refl) as (source & H1 & H2 & H3 & ->). exists source. split_and!; try done.
  - intros job t. apply checkJob_bound.
  - intros job t (w1 & w2 & E1). pose proof (prepareJob_spec source job w1) as HP. unfold wp in HP. change (prepareJob source job w1 = (Ok t, w2)) in E1. rewrite E1 in HP. by apply HP.
  - intros t. apply getReceipt_mined.
Qed.
End transport.
Set Default Proof Using "Type".

(** ** A transport over a toy chain *)

Definition exConfig : Config := mkConfig 11155111 "0x0b" 1 None.
Definition exDecoded (raw : string) : outcome Tx := Ok {|
  tx_signed := true; tx_hash := Some raw; tx_nonce := 0; tx_chainId := 11155111; tx_to := Some "0x0b"; tx_from := Some "0x0c"; tx_value := 0; tx_data := raw; tx_gasLimit := 0 |}.
Definition exParse (data : string) : outcome (option Call) := Ok (Some (mkCall "revokeBatch" [data] [2] 5)).
Definition exEncode (a : string) (n e : Z) : outcome string := if (n =? 2) && (e =? 5) then Ok a else Throw (EError "ABI").
Definition exEvent (l : Log) : outcome (option MarkRevoked) := Ok (Some (mkRevoked "MarkRevoked" (lg_address l) 2 5)).
Definition exProvider : Provider unit := mkProvider (ret 11155111) (λ _, ret "0x60") (λ _, ret None) (ret 1) (λ _, ret None) (λ h, ret h) (λ _ _, ret tt).
Definition exJob : Job.RevocationJob := Job.mkJob "r1:revoke:5000" "r1" "0xa1" 5000 Job.j_pending None None None None None.
Definition exCreated := createEvmRevocationTransport (λ a, Ok a) exDecoded (λ r, r) exParse exEvent exEncode exProvider "0x0c" true
  (λ q, ret (q_data q)) (λ p, ret p) exConfig.
Definition exTransport : RevocationTransport unit :=
  transport exDecoded (λ r, r) exParse exEvent exEncode exProvider "0x0c" (λ q, ret (q_data q)) (λ p, ret p) exConfig "0x0b".
Definition exSigned : Job.Transaction := Job.mkTx "0xa1" "0xa1" 11155111 "0x0b".
Lemma evm_revocations_bound_witness : answered exCreated exTransport ∧ assertJob exTransport exJob exSigned = Ok tt ∧ Job.hash exSigned = Job.raw exSigned.
Proof.
  assert (answered exCreated exTransport) as H by (exists tt, tt; reflexivity). split; [exact H|].
  destruct (evm_revocations_bound (λ a, Ok a) exDecoded (λ r, r) exParse exEvent exEncode exProvider "0x0c" true (λ q, ret (q_data q)) (λ p, ret p) exConfig) with (T := exTransport)
    as (source & _ & _ & _ & _ & H1 & _).
  - intros q p raw s (w & w' & [= <- _]) (w1 & w2 & [= <- _]) [= <-]. done.
  - intros a n e data. unfold exEncode. destruct (Z.eqb_spec n 2) as [->|]; [|done]. destruct (Z.eqb_spec e 5) as [->|]; [|done]. intros [= <-]. exists a. split; [done|].
    unfold same. by rewrite String.eqb_refl.
  - exact H.
  - apply (H1 exJob exSigned). exists tt, tt. reflexivity.
Defined.
End RescreenEvm.
