(* ===== verification/ReceiptTrie.v ===== *)
(** The receipt trie of [src/pipeline/roster-source.ts]: the hexadecimal-prefix paths, the nodes and the
    root of the Merkle-Patricia trie over the receipts of a block.  The root commits to what the
    receipts say, so that receipts whose root is that of an independently observed header are the
    receipts of that header's block. *)

From Stdlib Require Import ZArith Lia Ascii String List.
From stdpp Require Import base decidable option list strings sets list_numbers.
From S2P Require Import Prelude JS Roster.
Local Open Scope string_scope.
Local Open Scope list_scope.
Local Open Scope Z_scope.

(** * The part of the ethers library the replay uses

    [RlpNode] is the source's recursive type; the operations are the library's and [EthersLaws] states
    what its documentation promises of them. *)

Unset Elimination Schemes.
Inductive RlpNode :=
  | RStr (s : string)
  | RList (l : list RlpNode).
Set Elimination Schemes.

Section rlp_ind.
Variable P : RlpNode → Prop.
Hypothesis Pstr : ∀ s, P (RStr s).
Hypothesis Plist : ∀ l, Forall P l → P (RList l).
Definition RlpNode_ind : ∀ n, P n :=
  fix go n := match n with
  | RStr s => Pstr s
  | RList l => Plist l ((fix gol l := match l return Forall P l with
      | [] => List.Forall_nil _ | x :: l => List.Forall_cons _ _ _ (go x) (gol l) end) l)
  end.
End rlp_ind.

Class Ethers := {
  keccak256 : string → string;
  encodeRlp : RlpNode → outcome string;
  dataLength : string → Z;
  toBeHex : Z → string;
  toBeHexWidth : Z → Z → string;
  stripZerosLeft : string → string;
  getBytes : string → list Z;
  hexlify : list Z → string;
  concat_ : list string → string }.

(** Hexadecimal data is written in lower case by the library, which reads it in any case. *)
Fixpoint lowerNode (n : RlpNode) : RlpNode :=
  match n with
  | RStr s => RStr (toLowerCase s)
  | RList l => RList (map lowerNode l)
  end.

Definition isByte (b : Z) : Prop := 0 ≤ b < 256.

Class EthersLaws (E : Ethers) : Prop := {
  keccak_word s : isLowerBytes32 (keccak256 s) = true;
  (** RLP is uniquely decodable. *)
  rlp_inj a b x : encodeRlp a = Ok x → encodeRlp b = Ok x → lowerNode a = lowerNode b;
  rlp_lower a x : encodeRlp a = Ok x → toLowerCase x = x;
  rlp_error a e : encodeRlp a = Throw e → e ≠ EError "out of fuel";
  rlp_nonempty a x : encodeRlp a = Ok x → x ≠ "0x";
  (** The shortest big-endian bytes of a positive integer. *)
  min_inj a b : 0 < a → 0 < b → stripZerosLeft (toBeHex a) = stripZerosLeft (toBeHex b) → a = b;
  min_nonempty a : 0 < a → stripZerosLeft (toBeHex a) ≠ "0x";
  min_lower a : 0 < a → toLowerCase (stripZerosLeft (toBeHex a)) = stripZerosLeft (toBeHex a);
  (** Hexadecimal data and its bytes determine each other. *)
  bytes_inj a b x y : encodeRlp a = Ok x → encodeRlp b = Ok y → getBytes x = getBytes y → x = y;
  bytes_range a x : encodeRlp a = Ok x → Forall isByte (getBytes x);
  hexlify_inj a b : Forall isByte a → Forall isByte b → hexlify a = hexlify b → a = b;
  hexlify_lower a : toLowerCase (hexlify a) = hexlify a;
  (** A type byte below 0x80 in front of an RLP list, whose first byte is at least 0xc0. *)
  typed_inj t u l m x y : 0 ≤ t ≤ 127 → 0 ≤ u ≤ 127 →
    encodeRlp (RList l) = Ok x → encodeRlp (RList m) = Ok y →
    concat_ [toBeHexWidth t 1; x] = concat_ [toBeHexWidth u 1; y] → t = u ∧ x = y;
  typed_not_list t l m x y : 0 ≤ t ≤ 127 →
    encodeRlp (RList l) = Ok x → encodeRlp (RList m) = Ok y → concat_ [toBeHexWidth t 1; x] ≠ y;
  typed_lower t l x : encodeRlp (RList l) = Ok x →
    toLowerCase (concat_ [toBeHexWidth t 1; x]) = concat_ [toBeHexWidth t 1; x];
  typed_nonempty t l x : encodeRlp (RList l) = Ok x → concat_ [toBeHexWidth t 1; x] ≠ "0x" }.

Module ReceiptTrie.

(** * Receipts and logs *)

Record SnapshotLog := {
  l_address : string; l_blockNumber : Z; l_blockHash : string; l_transactionHash : string;
  l_transactionIndex : Z; l_index : Z; l_topics : list string; l_data : string; l_removed : option bool }.

Record SnapshotReceipt := {
  r_hash : string; r_blockNumber : Z; r_blockHash : string; r_index : Z; r_status : option Z;
  r_contractAddress : option string; r_logs : list SnapshotLog; r_cumulativeGasUsed : Z;
  r_logsBloom : string; r_type : Z; r_root : option string }.

(** What [normalizedLog] returns. *)
Record NormLog := {
  address : string; blockNumber : Z; blockHash : string; transactionHash : string;
  transactionIndex : Z; index : Z; topics : list string; data : string }.

Definition integer (value min : Z) : bool := isSafeInteger value && (min <=? value).
(** [ethers.isHexString(value, true)]: whole bytes. *)
Definition isHexData (s : string) : bool :=
  match s with
  | String "0" (String "x" s) => allChars isHex s && Nat.even (String.length s)
  | _ => false
  end.
Definition isHash : string → bool := isBytes32.

Definition normalizedLog (isAddress : string → bool) (log : SnapshotLog) (fromReceipt : bool) : outcome NormLog :=
  let? _ := orequire (isAddress (l_address log) && isHash (l_blockHash log) && isHash (l_transactionHash log)
                      && integer (l_blockNumber log) 0 && integer (l_transactionIndex log) 0 && integer (l_index log) 0
                      && (match l_removed log with Some removed => negb removed | None => fromReceipt end)
                      && forallb isHash (l_topics log) && isHexData (l_data log))
              (EError "invalid source snapshot log") in
  Ok {| address := toLowerCase (l_address log); blockNumber := l_blockNumber log;
        blockHash := toLowerCase (l_blockHash log); transactionHash := toLowerCase (l_transactionHash log);
        transactionIndex := l_transactionIndex log; index := l_index log;
        topics := map toLowerCase (l_topics log); data := toLowerCase (l_data log) |}.

(** * The trie *)

Record Item := { key : list Z; value : string }.
Add Printing Constructor Item.

Section trie.
Context `{E : Ethers}.

Definition EMPTY_TRIE_ROOT : outcome string := let? e := encodeRlp (RStr "0x") in Ok (keccak256 e).

Definition minimalInteger (n : Z) : outcome string :=
  let? _ := orequire (0 <=? n) (EError "negative receipt integer") in
  Ok (if n =? 0 then "0x" else stripZerosLeft (toBeHex n)).

Definition nibblesOf (bytes : list Z) : list Z :=
  concat (map (λ byte, [Z.shiftr byte 4; Z.land byte 15]) bytes).
Definition nibbles (value : string) : list Z := nibblesOf (getBytes value).

(** [(packed[i * 2] << 4) | packed[i * 2 + 1]] for every pair. *)
Fixpoint bytesOf (packed : list Z) : list Z :=
  match packed with
  | a :: b :: packed => Z.lor (Z.shiftl a 4) b :: bytesOf packed
  | _ => []
  end.

Definition compactPath (path : list Z) (leaf : bool) : string :=
  let odd := Nat.odd (length path) in
  let packed := if odd then (if leaf then 3 else 1) :: path else (if leaf then 2 else 0) :: 0 :: path in
  hexlify (bytesOf packed).

Definition nodeRef (node : list RlpNode) : outcome RlpNode :=
  let? encoded := encodeRlp (RList node) in
  Ok (if dataLength encoded <? 32 then RList node else RStr (keccak256 encoded)).

(** The [while] loop: every item is longer than [common] and agrees with the first one there.  It ends
    at the first item's end at the latest, so the length of that key is fuel enough. *)
Definition agree (first : list Z) (items : list Item) (common : nat) : bool :=
  forallb (λ item, (common <? length (key item))%nat && bool_decide (key item !! common = first !! common)) items.
Fixpoint commonFrom (fuel : nat) (first : list Z) (items : list Item) (common : nat) : nat :=
  match fuel with
  | O => common
  | S fuel => if agree first items common then commonFrom fuel first items (S common) else common
  end.

Definition dropKey (n : nat) (item : Item) : Item := {| key := drop n (key item); value := value item |}.
Definition group (nibble : Z) (items : list Item) : list Item :=
  map (dropKey 1) (filter (λ item, head (key item) = Some nibble) items).
Definition terminal (items : list Item) : option Item := List.find (λ item, bool_decide (key item = [])) items.
Definition sixteen : list Z := [0; 1; 2; 3; 4; 5; 6; 7; 8; 9; 10; 11; 12; 13; 14; 15].

(** One entry of a branch: [build] is the recursive call. *)
Definition branchRef (build : list Item → outcome (list RlpNode)) (items : list Item) : outcome RlpNode :=
  match items with
  | [] => Ok (RStr "0x")
  | _ => let? node := build items in nodeRef node
  end.

(** Every call shortens the keys. *)
Fixpoint trieNode (fuel : nat) (items : list Item) : outcome (list RlpNode) :=
  match fuel with
  | O => Throw (EError "out of fuel")
  | S fuel =>
      match items with
      | [] => Throw (EError "out of fuel")
      | [item] => Ok [RStr (compactPath (key item) true); RStr (value item)]
      | first :: _ =>
          let common := commonFrom (length (key first)) (key first) items 0 in
          if (0 <? common)%nat then
            let? node := trieNode fuel (map (dropKey common) items) in
            let? ref := nodeRef node in
            Ok [RStr (compactPath (take common (key first)) false); ref]
          else
            let? branch := omap_out (λ nibble, branchRef (trieNode fuel) (group nibble items)) sixteen in
            Ok (branch ++ [RStr (from_option value "0x" (terminal items))])
      end
  end.

(** Longer than every key. *)
Definition depth (items : list Item) : nat := S (max_list (map (λ item, length (key item)) items)).

Definition logNode (log : NormLog) : RlpNode :=
  RList [RStr (address log); RList (map RStr (topics log)); RStr (data log)].

Definition encodedReceipt (receipt : SnapshotReceipt) (logs : list NormLog) : outcome string :=
  let? _ := orequire (integer (r_type receipt) 0 && (r_type receipt <=? 0x7f) && (0 <=? r_cumulativeGasUsed receipt)
                      && hexString isHex 512 (r_logsBloom receipt)
                      && bool_decide (default (-1) (r_status receipt) ∈ [0; 1])
                      && bool_decide (r_root receipt = None))
              (EError "receipt fields unavailable for cryptographic receipt root verification") in
  let? status := minimalInteger (default (-1) (r_status receipt)) in
  let? gas := minimalInteger (r_cumulativeGasUsed receipt) in
  let? payload := encodeRlp (RList [RStr status; RStr gas; RStr (r_logsBloom receipt); RList (map logNode logs)]) in
  Ok (if r_type receipt =? 0 then payload else concat_ [toBeHexWidth (r_type receipt) 1; payload]).

Definition receiptItem (r : Z * SnapshotReceipt * list NormLog) : outcome Item :=
  let '(index, receipt, logs) := r in
  let? n := minimalInteger index in
  let? k := encodeRlp (RStr n) in
  let? v := encodedReceipt receipt logs in
  Ok {| key := nibbles k; value := v |}.

Definition computeReceiptsRoot (receipts : list (Z * SnapshotReceipt * list NormLog)) : outcome string :=
  match receipts with
  | [] => EMPTY_TRIE_ROOT
  | _ =>
      let? items := omap_out receiptItem receipts in
      let? node := trieNode (depth items) items in
      let? encoded := encodeRlp (RList node) in
      Ok (keccak256 encoded)
  end.

(** * Paths and references are unambiguous *)

Definition isNibble (n : Z) : Prop := 0 ≤ n < 16.

Lemma Forall_two {A} (P : A → Prop) a b l : Forall P (a :: b :: l) ↔ P a ∧ P b ∧ Forall P l.
Proof. by rewrite !Forall_cons. Qed.

Lemma byte_split b : isByte b → isNibble (Z.shiftr b 4) ∧ isNibble (Z.land b 15)
  ∧ b = 16 * Z.shiftr b 4 + Z.land b 15.
Proof.
  intros [H0 H1]. change 15 with (Z.ones 4). rewrite Z.land_ones, Z.shiftr_div_pow2 by lia.
  change (2 ^ 4) with 16. unfold isNibble. pose proof (Z.mod_pos_bound b 16 ltac:(lia)).
  assert (0 ≤ b / 16 < 16) by (split; [apply Z.div_pos|apply Z.div_lt_upper_bound]; lia).
  pose proof (Z.div_mod b 16). split_and!; lia.
Qed.

Lemma nibblesOf_range bs : Forall isByte bs → Forall isNibble (nibblesOf bs).
Proof.
  induction 1 as [|b bs Hb _ IH]; [constructor|]. destruct (byte_split b Hb) as (? & ? & _).
  change (nibblesOf (b :: bs)) with (Z.shiftr b 4 :: Z.land b 15 :: nibblesOf bs). by apply Forall_two.
Qed.

Lemma nibblesOf_inj a b : Forall isByte a → Forall isByte b → nibblesOf a = nibblesOf b → a = b.
Proof.
  intros Ha. revert b. induction Ha as [|x a Hx _ IH]; intros b Hb; destruct Hb as [|y b Hy Hb]; [done|done|done|].
  intros [= H1 H2 H3]. f_equal; [|by apply IH].
  destruct (byte_split x Hx) as (_ & _ & ->), (byte_split y Hy) as (_ & _ & ->). lia.
Qed.

Lemma pack_pair a b : isNibble a → isNibble b → Z.lor (Z.shiftl a 4) b = 16 * a + b.
Proof.
  intros Ha [Hb0 Hb1]. rewrite Z.shiftl_mul_pow2 by lia. change (2 ^ 4) with 16.
  pose proof (Z.add_lor_land (a * 16) b) as Hs. enough (Z.land (a * 16) b = 0) by lia.
  apply Z.bits_inj'. intros n Hn. rewrite Z.land_spec, Z.bits_0. change 16 with (2 ^ 4).
  destruct (Z.lt_ge_cases n 4); [by rewrite Z.mul_pow2_bits_low|].
  assert (Z.testbit b n = false) as ->; [|by rewrite andb_false_r].
  apply Z.testbit_false; [done|]. rewrite Z.div_small; [done|]. split; [done|].
  eapply Z.lt_le_trans; [done|]. change 16 with (2 ^ 4). by apply Z.pow_le_mono_r.
Qed.

Lemma even_pair_ind {A} (P : list A → Prop) :
  P [] → (∀ a b l, Nat.even (length l) = true → P l → P (a :: b :: l)) → ∀ l, Nat.even (length l) = true → P l.
Proof.
  intros H0 H2. refine (fix go l := match l with [] => λ _, H0 | [_] => λ H, ltac:(discriminate H) | a :: b :: l => λ H, _ end).
  apply H2; [exact H|]. apply go. exact H.
Qed.

Lemma bytesOf_range l : Nat.even (length l) = true → Forall isNibble l → Forall isByte (bytesOf l).
Proof.
  revert l. apply (even_pair_ind (λ l, Forall isNibble l → Forall isByte (bytesOf l))); [by intros _; constructor|].
  intros a b l _ IH (Ha & Hb & Hl)%Forall_two.
  simpl. constructor; [|by apply IH]. rewrite pack_pair by done. unfold isNibble, isByte in *. lia.
Qed.

Lemma bytesOf_inj a b : Nat.even (length a) = true → Nat.even (length b) = true →
  Forall isNibble a → Forall isNibble b → bytesOf a = bytesOf b → a = b.
Proof.
  intros Ha. revert a Ha b. apply (even_pair_ind (λ a, ∀ b, _ → Forall isNibble a → Forall isNibble b → bytesOf a = bytesOf b → a = b)).
  - intros [|? [|? ?]]; done.
  - intros x y a _ IH [|x' [|y' b]] Hb; [done|done|].
    intros (Hx & Hy & Ha)%Forall_two.
    intros (Hx' & Hy' & Hb')%Forall_two.
    cbn [bytesOf]. rewrite !pack_pair by done. intros [= H1 H2]. unfold isNibble in *.
    assert (x = x' ∧ y = y') as [-> ->] by lia. do 2 f_equal. by apply IH.
Qed.

(** * The shape of a node *)

(** The encodings of the nodes of a trie, which are what its references hash. *)
Definition textOf (node : outcome (list RlpNode)) : list string :=
  match node with
  | Ok n => match encodeRlp (RList n) with Ok e => [e] | Throw _ => [] end
  | Throw _ => []
  end.
Fixpoint nodeTexts (fuel : nat) (items : list Item) : list string :=
  match fuel with
  | O => []
  | S fuel =>
      textOf (trieNode (S fuel) items) ++
      match items with
      | [] | [_] => []
      | first :: _ =>
          let common := commonFrom (length (key first)) (key first) items 0 in
          if (0 <? common)%nat then nodeTexts fuel (map (dropKey common) items)
          else concat (map (λ nibble, nodeTexts fuel (group nibble items)) sixteen)
      end
  end.

Definition prepend (p : list Z) (item : Item) : Item := {| key := p ++ key item; value := value item |}.

Inductive Node (fuel : nat) (items : list Item) : list RlpNode → Prop :=
  | Leaf item : items = [item] → Node fuel items [RStr (compactPath (key item) true); RStr (value item)]
  | Extension p node ref :
      p ≠ [] → items ≠ [] → (∀ item, item ∈ items → ∃ k, key item = p ++ k) →
      trieNode fuel (map (dropKey (length p)) items) = Ok node → nodeRef node = Ok ref →
      nodeTexts fuel (map (dropKey (length p)) items) ⊆ nodeTexts (S fuel) items →
      Node fuel items [RStr (compactPath p false); ref]
  | Branch branch :
      Forall2 (λ nibble ref, branchRef (trieNode fuel) (group nibble items) = Ok ref) sixteen branch →
      (∀ nibble, nibble ∈ sixteen → nodeTexts fuel (group nibble items) ⊆ nodeTexts (S fuel) items) →
      Node fuel items (branch ++ [RStr (from_option value "0x" (terminal items))]).

Lemma agree_spec first items c : agree first items c = true →
  ∀ item, item ∈ items → (c < length (key item))%nat ∧ key item !! c = first !! c.
Proof.
  unfold agree. intros H item Hin%list_elem_of_In. pose proof (proj1 (forallb_forall _ _) H item Hin) as [H1 H2]%andb_true_iff.
  apply Nat.ltb_lt in H1. by apply bool_decide_eq_true in H2.
Qed.

Lemma commonFrom_spec fuel first items c :
  (∀ item, item ∈ items → (c ≤ length (key item))%nat ∧ take c (key item) = take c first) →
  ∀ item, item ∈ items → (commonFrom fuel first items c ≤ length (key item))%nat
    ∧ take (commonFrom fuel first items c) (key item) = take (commonFrom fuel first items c) first.
Proof.
  revert c. induction fuel as [|fuel IH]; intros c Hc; simpl; [done|].
  destruct (agree first items c) eqn:Ha; [|done]. apply IH. intros item Hin.
  destruct (agree_spec _ _ _ Ha item Hin) as [Hl Hk]. destruct (Hc item Hin) as [_ Ht]. split; [lia|].
  destruct (lookup_lt_is_Some_2 _ _ Hl) as [x Hx]. rewrite Hx in Hk.
  by rewrite (take_S_r _ _ x), (take_S_r first _ x), Ht.
Qed.

Lemma node_shape fuel items n : trieNode (S fuel) items = Ok n → Node fuel items n.
Proof.
  intros H. destruct items as [|first [|second rest]]; [done|injection H as <-; by constructor|].
  set (items := first :: second :: rest) in *.
  set (common := commonFrom (length (key first)) (key first) items 0) in *.
  assert (∀ item, item ∈ items → (common ≤ length (key item))%nat ∧ take common (key item) = take common (key first)) as Hc.
  { apply commonFrom_spec. intros item _. by split; [lia|]. }
  change (trieNode (S fuel) items) with
    (if (0 <? common)%nat then let? node := trieNode fuel (map (dropKey common) items) in
       let? ref := nodeRef node in Ok [RStr (compactPath (take common (key first)) false); ref]
     else let? branch := omap_out (λ nibble, branchRef (trieNode fuel) (group nibble items)) sixteen in
          Ok (branch ++ [RStr (from_option value "0x" (terminal items))])) in H.
  assert (nodeTexts (S fuel) items = textOf (trieNode (S fuel) items) ++
    if (0 <? common)%nat then nodeTexts fuel (map (dropKey common) items)
    else concat (map (λ nibble, nodeTexts fuel (group nibble items)) sixteen)) as Ht by done.
  destruct (Nat.ltb_spec 0 common) as [Hpos|Hz].
  - apply obind_ok in H as (node & Hn & (ref & Hr & [= <-])%obind_ok).
    assert (first ∈ items) as Hf by left. destruct (Hc first Hf) as [Hl _].
    assert (length (take common (key first)) = common) as Hlen by (rewrite length_take; lia).
    eapply Extension; [| | |rewrite Hlen; exact Hn|exact Hr|rewrite Hlen, Ht; by apply list_subseteq_app_r].
    + intros Hnil. rewrite Hnil in Hlen. simpl in Hlen. lia.
    + done.
    + intros item Hin. destruct (Hc item Hin) as [_ <-]. exists (drop common (key item)). by rewrite take_drop.
  - apply obind_ok in H as (branch & Hb & [= <-]). constructor; [by apply omap_out_Forall2|].
    intros nibble Hnib. rewrite Ht. apply list_subseteq_app_r. intros x Hx. apply list_elem_of_In, in_concat.
    eexists. split; apply list_elem_of_In; [|exact Hx]. by eapply (list_elem_of_fmap_2 (λ nibble, nodeTexts fuel (group nibble items))).
Qed.
End trie.

(** * The trie determines its items *)

Section injective.
Context `{E : Ethers} `{L : !EthersLaws E}.

Lemma compactPath_packed path leaf : ∃ packed,
  compactPath path leaf = hexlify (bytesOf packed) ∧ Nat.even (length packed) = true
  ∧ (Forall isNibble path → Forall isNibble packed)
  ∧ packed = if Nat.odd (length path) then (if leaf then 3 else 1) :: path else (if leaf then 2 else 0) :: 0 :: path.
Proof.
  eexists. split; [done|]. split_and!; [| |done].
  - destruct (Nat.odd (length path)) eqn:Ho; cbn [length].
    + by rewrite Nat.even_succ.
    + change (Nat.even (length path) = true). unfold Nat.odd in Ho. by destruct (Nat.even (length path)).
  - intros Hp. unfold isNibble. destruct (Nat.odd (length path)), leaf; repeat (apply Forall_cons; split; [lia|]); done.
Qed.

Lemma compactPath_inj p q b c : Forall isNibble p → Forall isNibble q → compactPath p b = compactPath q c → p = q ∧ b = c.
Proof.
  destruct (compactPath_packed p b) as (pp & -> & He & Hn & Hp).
  destruct (compactPath_packed q c) as (qq & -> & He' & Hn' & Hq). intros Hpn Hqn Heq.
  apply hexlify_inj in Heq; [|apply bytesOf_range; auto|apply bytesOf_range; auto].
  apply bytesOf_inj in Heq; [|done|done|auto|auto]. rewrite Hp, Hq in Heq.
  destruct (Nat.odd (length p)), (Nat.odd (length q)), b, c; by simplify_eq.
Qed.

Definition lowerNodes (n : list RlpNode) : Prop := map lowerNode n = n.

Lemma nodeRef_inv n r : nodeRef n = Ok r → ∃ e, encodeRlp (RList n) = Ok e ∧ (r = RList n ∨ r = RStr (keccak256 e)).
Proof.
  intros (e & He & [= <-])%obind_ok. exists e. split; [done|]. destruct (_ <? _); auto.
Qed.

Lemma nodeRef_nonempty n : nodeRef n ≠ Ok (RStr "0x").
Proof.
  intros (e & _ & [[=]|[= Hk]])%nodeRef_inv. pose proof (keccak_word e) as Hw. by rewrite <- Hk in Hw.
Qed.

Lemma nodeRef_lower n r : lowerNodes n → nodeRef n = Ok r → lowerNode r = r.
Proof.
  intros Hn (e & _ & [->| ->])%nodeRef_inv; simpl; [by rewrite Hn|].
  f_equal. exact (hexString_lower_fix 64 _ (keccak_word e)).
Qed.

Lemma textOf_own fuel items n : trieNode fuel items = Ok n → textOf (trieNode fuel items) ⊆ nodeTexts fuel items.
Proof. destruct fuel as [|fuel]; [done|]. intros _. apply list_subseteq_app_l. done. Qed.

(** Equal references to nodes whose encodings do not collide are references to the same node. *)
Lemma nodeRef_inj ps n m r : Roster.NoCollision keccak256 ps → lowerNodes n → lowerNodes m →
  textOf (Ok n) ⊆ ps → textOf (Ok m) ⊆ ps → nodeRef n = Ok r → nodeRef m = Ok r → n = m.
Proof.
  intros HN Hn Hm Hpn Hpm (e & He & Hr)%nodeRef_inv (e' & He' & Hr')%nodeRef_inv. unfold textOf in *. rewrite He in Hpn. rewrite He' in Hpm.
  destruct Hr as [->| ->], Hr' as [Hr|Hr]; simplify_eq; [done|].
  apply HN in Hr as ->; [|apply Hpn; by left|apply Hpm; by left].
  pose proof (rlp_inj _ _ _ He He') as Heq. cbn [lowerNode] in Heq. rewrite Hn, Hm in Heq. by injection Heq.
Qed.

(** Keys are nibbles and belong to one item each; values are nonempty lower-case data. *)
Record Wf (items : list Item) : Prop := {
  wf_fun : ∀ i j, i ∈ items → j ∈ items → key i = key j → i = j;
  wf_item : ∀ i, i ∈ items → Forall isNibble (key i) ∧ toLowerCase (value i) = value i ∧ value i ≠ "0x" }.

Lemma prepend_inj p i j : prepend p i = prepend p j → i = j.
Proof. destruct i, j. unfold prepend. simpl. intros [= H ->]. by apply app_inv_head in H as ->. Qed.

Lemma elem_group h i items : i ∈ group h items ↔ prepend [h] i ∈ items.
Proof.
  unfold group. rewrite list_elem_of_fmap. split.
  - intros ([k v] & -> & [Hh Hin]%list_elem_of_filter). unfold prepend, dropKey. simpl in *.
    destruct k as [|x k]; [done|]. by injection Hh as ->.
  - intros Hin. exists (prepend [h] i). split; [by destruct i|]. by apply list_elem_of_filter.
Qed.

Lemma elem_drop p i items : (∀ item, item ∈ items → ∃ k, key item = p ++ k) →
  i ∈ map (dropKey (length p)) items ↔ prepend p i ∈ items.
Proof.
  intros Hp. rewrite list_elem_of_fmap. split.
  - intros ([k v] & -> & Hin). destruct (Hp _ Hin) as [k' Hk]. simpl in Hk. subst k. unfold prepend, dropKey. simpl.
    by rewrite drop_app_length.
  - intros Hin. exists (prepend p i). split; [|done]. destruct i. unfold prepend, dropKey. simpl. by rewrite drop_app_length.
Qed.

Lemma Wf_sub p items items' : (∀ i, i ∈ items' → prepend p i ∈ items) → Wf items → Wf items'.
Proof.
  intros Hs [Hf Hi]. split.
  - intros i j Hii Hj Hk. apply (prepend_inj p), Hf; [by apply Hs|by apply Hs|]. simpl. by rewrite Hk.
  - intros i Hii. destruct (Hi _ (Hs i Hii)) as (Hn & Hl & Hv). split_and!; [|done|done].
    simpl in Hn. by apply Forall_app in Hn as [_ ?].
Qed.

Lemma Wf_group h items : Wf items → Wf (group h items).
Proof. apply (Wf_sub [h]). intros i. apply elem_group. Qed.
Lemma Wf_drop p items : (∀ item, item ∈ items → ∃ k, key item = p ++ k) → Wf items → Wf (map (dropKey (length p)) items).
Proof. intros Hp. apply (Wf_sub p). intros i. by apply elem_drop. Qed.

Lemma terminal_in items item : terminal items = Some item → item ∈ items ∧ key item = [].
Proof. unfold terminal. intros [H1 H2%bool_decide_eq_true]%find_some. by split; [apply list_elem_of_In|]. Qed.
Lemma terminal_of items item : Wf items → item ∈ items → key item = [] → terminal items = Some item.
Proof.
  intros HW Hin Hk. destruct (terminal items) as [item'|] eqn:Ht.
  - destruct (terminal_in _ _ Ht) as [Hin' Hk']. f_equal. apply (wf_fun _ HW); congruence.
  - unfold terminal in Ht. pose proof (find_none _ _ Ht item (proj1 (list_elem_of_In _ _) Hin)) as Hf.
    by apply bool_decide_eq_false in Hf.
Qed.

Lemma hexlify_path p b : toLowerCase (compactPath p b) = compactPath p b.
Proof. apply hexlify_lower. Qed.

Lemma trie_lower fuel items n : Wf items → trieNode fuel items = Ok n → lowerNodes n.
Proof.
  revert items n. induction fuel as [|fuel IH]; [done|]. intros items n HW Hn.
  apply node_shape in Hn as [item ->|p node ref _ _ Hp Hn Hr _|branch Hb _]; unfold lowerNodes; simpl.
  - rewrite hexlify_path. destruct (wf_item _ HW item ltac:(by left)) as (_ & -> & _). done.
  - rewrite hexlify_path, (nodeRef_lower node); [done| |done]. eapply IH; [|exact Hn]. by apply Wf_drop.
  - rewrite map_app. simpl. f_equal.
    + clear -IH HW Hb L. induction Hb as [|h r hs rs Hr _ IHb]; [done|]. simpl. rewrite IHb. f_equal.
      unfold branchRef in Hr. destruct (group h items) eqn:Hg; [by injection Hr as <-|].
      apply obind_ok in Hr as (node & Hn & Hr). eapply nodeRef_lower; [|exact Hr].
      eapply IH; [|exact Hn]. rewrite <- Hg. by apply Wf_group.
    + destruct (terminal items) as [item|] eqn:Ht; [|done]. simpl.
      apply terminal_in in Ht as [Hin _]. by destruct (wf_item _ HW item Hin) as (_ & -> & _).
Qed.

Lemma prepend_one x k v : prepend [x] {| key := k; value := v |} = {| key := x :: k; value := v |}.
Proof. done. Qed.
Lemma nibble_sixteen x : isNibble x → x ∈ sixteen.
Proof.
  intros [H0 H1]. assert (x = 0 ∨ x = 1 ∨ x = 2 ∨ x = 3 ∨ x = 4 ∨ x = 5 ∨ x = 6 ∨ x = 7 ∨ x = 8 ∨ x = 9 ∨ x = 10
    ∨ x = 11 ∨ x = 12 ∨ x = 13 ∨ x = 14 ∨ x = 15) as Hx by lia. unfold sixteen. rewrite !elem_of_cons. tauto.
Qed.

Lemma prefix_nibbles p items : Wf items → items ≠ [] → (∀ item, item ∈ items → ∃ k, key item = p ++ k) → Forall isNibble p.
Proof.
  intros HW Hne Hp. destruct items as [|i items]; [done|]. destruct (Hp i ltac:(by left)) as [k Hk].
  destruct (wf_item _ HW i ltac:(by left)) as (Hi & _). rewrite Hk in Hi. by apply Forall_app in Hi as [? _].
Qed.

Section subset.
Context (ps : list string) (HN : Roster.NoCollision keccak256 ps).

(** Two subtries behind the same reference, given the claim for the node itself. *)
Lemma branch_inj fuel fuel' items items' r :
  (∀ n, Wf items → Wf items' → trieNode fuel items = Ok n → trieNode fuel' items' = Ok n →
        nodeTexts fuel items ⊆ ps → nodeTexts fuel' items' ⊆ ps → items ⊆ items') →
  Wf items → Wf items' → branchRef (trieNode fuel) items = Ok r → branchRef (trieNode fuel') items' = Ok r →
  nodeTexts fuel items ⊆ ps → nodeTexts fuel' items' ⊆ ps → items ⊆ items'.
Proof.
  intros IH HW HW' Hr Hr' Hp Hp'. destruct items as [|i items]; [by intros ? ?%elem_of_nil|].
  apply obind_ok in Hr as (n & Hn & Hr). destruct items' as [|i' items'].
  { injection Hr' as <-. by apply nodeRef_nonempty in Hr. }
  apply obind_ok in Hr' as (n' & Hn' & Hr').
  pose proof (textOf_own _ _ _ Hn) as Ht. pose proof (textOf_own _ _ _ Hn') as Ht'. rewrite Hn in Ht. rewrite Hn' in Ht'.
  assert (n = n') as <-; [|exact (IH n HW HW' Hn Hn' Hp Hp')].
  eapply nodeRef_inj; [exact HN|exact (trie_lower _ _ _ HW Hn)|exact (trie_lower _ _ _ HW' Hn')| | |exact Hr|exact Hr'].
  - by etrans. - by etrans.
Qed.

Lemma branchRef_ok (build : list Item → outcome (list RlpNode)) items node ref :
  items ≠ [] → build items = Ok node → nodeRef node = Ok ref → branchRef build items = Ok ref.
Proof. intros Hne Hb Hr. destruct items; [done|]. unfold branchRef. by rewrite Hb. Qed.

Lemma trie_sub fuel : ∀ fuel' items items' n, Wf items → Wf items' →
  trieNode fuel items = Ok n → trieNode fuel' items' = Ok n →
  nodeTexts fuel items ⊆ ps → nodeTexts fuel' items' ⊆ ps → items ⊆ items'.
Proof.
  induction fuel as [|fuel IH]; [done|]. intros [|fuel'] items items' n HW HW' Hn Hn' Hps Hps'; [done|].
  apply node_shape in Hn, Hn'. remember n as n' eqn:Heq in Hn'. symmetry in Heq.
  destruct Hn as [i ->|p node ref Hp0 Hne Hp Hn Hr Hs|branch Hb Hs];
    destruct Hn' as [j ->|p' node' ref' Hp0' Hne' Hp' Hn' Hr' Hs'|branch' Hb' Hs'];
    try (apply Forall2_length in Hb || apply Forall2_length in Hb'; apply (f_equal length) in Heq;
         rewrite ?length_app in Heq; (rewrite <- Hb in Heq || rewrite <- Hb' in Heq); done).
  - destruct (wf_item _ HW i ltac:(by left)) as (Hi & _). destruct (wf_item _ HW' j ltac:(by left)) as (Hj & _).
    injection Heq as Hc Hv. apply compactPath_inj in Hc as [Hk _]; [|done|done]. destruct i, j; simpl in *; by subst.
  - injection Heq as Hc _. destruct (wf_item _ HW i ltac:(by left)) as (Hi & _).
    by apply compactPath_inj in Hc as [_ ?]; [|exact Hi|exact (prefix_nibbles _ _ HW' Hne' Hp')].
  - injection Heq as Hc _. destruct (wf_item _ HW' j ltac:(by left)) as (Hj & _).
    by apply compactPath_inj in Hc as [_ ?]; [|exact (prefix_nibbles _ _ HW Hne Hp)|exact Hj].
  - injection Heq as Hc <-. apply compactPath_inj in Hc as [<- _];
      [|exact (prefix_nibbles _ _ HW Hne Hp)|exact (prefix_nibbles _ _ HW' Hne' Hp')].
    intros i Hi. destruct (Hp i Hi) as [k Hk].
    assert (prepend p {| key := k; value := value i |} = i) as Hi' by (unfold prepend; destruct i; simpl in *; by subst).
    rewrite <- Hi' in *. apply elem_drop in Hi; [|done]. apply elem_drop; [done|]. revert Hi.
    generalize {| key := k; value := value i |}. clear Hi' Hk k i.
    refine (branch_inj fuel fuel' _ _ ref (λ n, IH fuel' _ _ n) (Wf_drop _ _ Hp HW) (Wf_drop _ _ Hp' HW') _ _ _ _).
    + by apply (branchRef_ok _ _ node); [destruct items| |].
    + by apply (branchRef_ok _ _ node'); [destruct items'| |].
    + by etrans.
    + by etrans.
  - apply app_inj_2 in Heq as [<- Heq]; [|done]. injection Heq as Hterm. intros i Hi. destruct (key i) as [|h k] eqn:Hk.
    + destruct (terminal items') as [j|] eqn:Hj; rewrite (terminal_of items i HW Hi Hk) in Hterm; simpl in Hterm.
      * destruct (terminal_in _ _ Hj) as [Hin Hkj]. destruct i, j. simpl in *. by subst.
      * destruct (wf_item _ HW i Hi) as (_ & _ & Hv). done.
    + destruct (wf_item _ HW i Hi) as (Hn & _). rewrite Hk in Hn. apply Forall_cons in Hn as [Hh _].
      apply nibble_sixteen, list_elem_of_lookup in Hh as [x Hx].
      destruct (Forall2_lookup_l _ _ _ x h Hb Hx) as (r & Hr & Hgr).
      pose proof (Forall2_lookup_lr _ _ _ x h r Hb' Hx Hr) as Hgr'. apply list_elem_of_lookup_2 in Hx.
      assert (prepend [h] {| key := k; value := value i |} = i) as Hi' by (destruct i; simpl in *; by subst).
      rewrite <- Hi' in *. apply elem_group in Hi. apply elem_group. revert Hi.
      generalize {| key := k; value := value i |}. clear Hi' Hk k i.
      refine (branch_inj fuel fuel' _ _ r (λ n, IH fuel' _ _ n) (Wf_group _ _ HW) (Wf_group _ _ HW') Hgr Hgr' _ _).
      * etrans; [by apply Hs|done].
      * etrans; [by apply Hs'|done].
Qed.
End subset.

(** * Termination *)

Lemma nodeRef_error n e : nodeRef n = Throw e → e ≠ EError "out of fuel".
Proof. intros [H|(x & _ & H)]%obind_throw; [by eapply rlp_error|done]. Qed.

Lemma dropKey_length n i : length (key (dropKey n i)) = (length (key i) - n)%nat.
Proof. apply length_drop. Qed.

Lemma trie_fuel fuel items : items ≠ [] → (∀ i, i ∈ items → (length (key i) < fuel)%nat) →
  trieNode fuel items ≠ Throw (EError "out of fuel").
Proof.
  revert items. induction fuel as [|fuel IH]; intros items Hne Hl.
  { destruct items as [|i items]; [done|]. specialize (Hl i ltac:(by left)). lia. }
  destruct items as [|first [|second rest]]; [done|done|].
  set (items := first :: second :: rest) in *.
  set (common := commonFrom (length (key first)) (key first) items 0).
  change (trieNode (S fuel) items) with
    (if (0 <? common)%nat then let? node := trieNode fuel (map (dropKey common) items) in
       let? ref := nodeRef node in Ok [RStr (compactPath (take common (key first)) false); ref]
     else let? branch := omap_out (λ nibble, branchRef (trieNode fuel) (group nibble items)) sixteen in
          Ok (branch ++ [RStr (from_option value "0x" (terminal items))])).
  destruct (Nat.ltb_spec 0 common) as [Hpos|Hz].
  - intros [H|(node & _ & [H|(r & _ & H)]%obind_throw)]%obind_throw; [|by eapply nodeRef_error in H|done].
    eapply IH; [| |exact H]; [done|]. intros i (j & -> & Hj)%list_elem_of_fmap. rewrite dropKey_length.
    specialize (Hl j Hj). assert (common ≤ length (key j))%nat; [|lia].
    eapply (commonFrom_spec _ (key first) items 0); [|done]. intros; split; [lia|done].
  - intros [(h & _ & H)%omap_out_throw|(r & _ & H)]%obind_throw; [|done].
    unfold branchRef in H. destruct (group h items) as [|g gs] eqn:Hg; [done|].
    apply obind_throw in H as [H|(r & _ & H)]; [|by eapply nodeRef_error in H].
    eapply IH; [| |exact H]; [done|]. rewrite <- Hg. intros i Hi%elem_group. specialize (Hl _ Hi). simpl in Hl. lia.
Qed.

Lemma depth_enough items i : i ∈ items → (length (key i) < depth items)%nat.
Proof.
  intros Hi. unfold depth. apply Nat.lt_succ_r, max_list_elem_of_le.
  by apply (list_elem_of_fmap_2 (λ item, length (key item))).
Qed.

(** * The root commits to the receipts *)

(** What a receipt trie says of one receipt; hexadecimal data in lower case. *)
Record Committed := {
  c_type : Z; c_status : option Z; c_gas : Z; c_bloom : string; c_logs : list (string * list string * string) }.
Definition committed (receipt : SnapshotReceipt) (logs : list NormLog) : Committed := {|
  c_type := r_type receipt; c_status := r_status receipt; c_gas := r_cumulativeGasUsed receipt;
  c_bloom := toLowerCase (r_logsBloom receipt);
  c_logs := map (λ log, (toLowerCase (address log), map toLowerCase (topics log), toLowerCase (data log))) logs |}.

Lemma minimalInteger_inv n s : minimalInteger n = Ok s → 0 ≤ n ∧ s = if n =? 0 then "0x" else stripZerosLeft (toBeHex n).
Proof. intros (u & H%orequire_ok & [= <-])%obind_ok. apply Z.leb_le in H. done. Qed.

Lemma minimalInteger_inj n m s : minimalInteger n = Ok s → minimalInteger m = Ok s → n = m.
Proof.
  intros [Hn ->]%minimalInteger_inv [Hm Heq]%minimalInteger_inv.
  destruct (Z.eqb_spec n 0), (Z.eqb_spec m 0); [congruence| | |apply min_inj; [lia|lia|done]].
  - by destruct (min_nonempty m ltac:(lia)).
  - by destruct (min_nonempty n ltac:(lia)).
Qed.

Lemma minimalInteger_lower n s : minimalInteger n = Ok s → toLowerCase s = s.
Proof. intros [Hn ->]%minimalInteger_inv. destruct (Z.eqb_spec n 0); [done|]. apply min_lower. lia. Qed.

Definition payloadOf (receipt : SnapshotReceipt) (logs : list NormLog) (status gas : string) : list RlpNode :=
  [RStr status; RStr gas; RStr (r_logsBloom receipt); RList (map logNode logs)].

Lemma encodedReceipt_inv receipt logs v : encodedReceipt receipt logs = Ok v → ∃ status gas payload st,
  0 ≤ r_type receipt ≤ 127 ∧ r_status receipt = Some st ∧ minimalInteger st = Ok status
  ∧ minimalInteger (r_cumulativeGasUsed receipt) = Ok gas
  ∧ encodeRlp (RList (payloadOf receipt logs status gas)) = Ok payload
  ∧ v = if r_type receipt =? 0 then payload else concat_ [toBeHexWidth (r_type receipt) 1; payload].
Proof.
  intros (u & H%orequire_ok & (status & Hs & (gas & Hg & (payload & Hp & [= <-])%obind_ok)%obind_ok)%obind_ok)%obind_ok.
  rewrite !andb_true_iff in H. destruct H as (((((H1 & H2) & _) & _) & H3) & _).
  unfold integer in H1. apply andb_true_iff in H1 as [_ H1]. apply Z.leb_le in H1, H2. apply bool_decide_eq_true in H3.
  destruct (r_status receipt) as [st|]; [|by apply elem_of_cons in H3 as [?|[?|?%elem_of_nil]%elem_of_cons]].
  simpl in Hs.
  exists status, gas, payload, st. done.
Qed.

Lemma lower_logNode l : lowerNode (logNode l) =
  RList [RStr (toLowerCase (address l)); RList (map (λ t, RStr (toLowerCase t)) (topics l)); RStr (toLowerCase (data l))].
Proof. unfold logNode. cbn [lowerNode map]. by rewrite map_map. Qed.

Lemma encodedReceipt_lower receipt logs v : encodedReceipt receipt logs = Ok v → toLowerCase v = v ∧ v ≠ "0x".
Proof.
  intros (status & gas & payload & st & _ & _ & _ & _ & Hp & ->)%encodedReceipt_inv. destruct (_ =? 0).
  - split; [by eapply rlp_lower|by eapply rlp_nonempty].
  - split; [by eapply typed_lower|by eapply typed_nonempty].
Qed.

Lemma RStr_map_inj (l m : list string) : map RStr l = map RStr m → l = m.
Proof. revert m. induction l as [|x l IH]; intros [|y m]; [done..|]. intros [= -> H]. by rewrite (IH m). Qed.

Lemma logNodes_inj logs logs' : map lowerNode (map logNode logs) = map lowerNode (map logNode logs') →
  map (λ log, (toLowerCase (address log), map toLowerCase (topics log), toLowerCase (data log))) logs
  = map (λ log, (toLowerCase (address log), map toLowerCase (topics log), toLowerCase (data log))) logs'.
Proof.
  revert logs'. induction logs as [|l logs IH]; intros [|l' logs']; [done..|]. cbn [map].
  rewrite !lower_logNode. intros [= Ha Ht Hd H]. rewrite Ha, Hd, (IH logs' H).
  assert (map toLowerCase (topics l) = map toLowerCase (topics l')) as ->; [|done].
  apply RStr_map_inj. by rewrite !map_map.
Qed.

Lemma encodedReceipt_inj r logs r' logs' v :
  encodedReceipt r logs = Ok v → encodedReceipt r' logs' = Ok v → committed r logs = committed r' logs'.
Proof.
  intros (status & gas & payload & st & Ht & Hst & Hs & Hg & Hp & ->)%encodedReceipt_inv.
  intros (status' & gas' & payload' & st' & Ht' & Hst' & Hs' & Hg' & Hp' & Heq)%encodedReceipt_inv.
  assert (r_type r = r_type r' ∧ payload = payload') as [Hty <-].
  { destruct (Z.eqb_spec (r_type r) 0) as [E1|E1], (Z.eqb_spec (r_type r') 0) as [E2|E2].
    - split; [congruence|done].
    - symmetry in Heq. by eapply typed_not_list in Heq.
    - by eapply typed_not_list in Heq.
    - eapply typed_inj in Heq; done. }
  pose proof (rlp_inj _ _ _ Hp Hp') as Hl. cbn [lowerNode payloadOf map] in Hl. injection Hl as Hl1 Hl2 Hl3 Hl4.
  rewrite (minimalInteger_lower _ _ Hs), (minimalInteger_lower _ _ Hs') in Hl1.
  rewrite (minimalInteger_lower _ _ Hg), (minimalInteger_lower _ _ Hg') in Hl2. subst.
  unfold committed. rewrite Hst, Hst', Hty, Hl3, (minimalInteger_inj _ _ _ Hs Hs'), (minimalInteger_inj _ _ _ Hg Hg').
  by rewrite (logNodes_inj _ _ Hl4).
Qed.

(** The receipts of a block with their positions. *)
Definition indexed (rs : list (SnapshotReceipt * list NormLog)) : list (Z * SnapshotReceipt * list NormLog) :=
  imap (λ i r, (Z.of_nat i, r.1, r.2)) rs.
(** The data hashed on the way to the root. *)
Definition rootTexts (receipts : list (Z * SnapshotReceipt * list NormLog)) : list string :=
  match receipts with
  | [] => match encodeRlp (RStr "0x") with Ok e => [e] | Throw _ => [] end
  | _ => match omap_out receiptItem receipts with Ok items => nodeTexts (depth items) items | Throw _ => [] end
  end.

Lemma receiptItem_inv i r logs it : receiptItem (i, r, logs) = Ok it → ∃ n k v,
  minimalInteger i = Ok n ∧ encodeRlp (RStr n) = Ok k ∧ encodedReceipt r logs = Ok v
  ∧ it = {| key := nibbles k; value := v |}.
Proof. intros (n & Hn & (k & Hk & (v & Hv & [= <-])%obind_ok)%obind_ok)%obind_ok. by exists n, k, v. Qed.

Lemma receiptItem_key_inj i r logs it i' r' logs' it' :
  receiptItem (i, r, logs) = Ok it → receiptItem (i', r', logs') = Ok it' → key it = key it' → i = i'.
Proof.
  intros (n & k & v & Hn & Hk & _ & ->)%receiptItem_inv (n' & k' & v' & Hn' & Hk' & _ & ->)%receiptItem_inv Heq.
  apply nibblesOf_inj in Heq; [|by eapply bytes_range|by eapply bytes_range].
  apply (bytes_inj _ _ _ _ Hk Hk') in Heq as <-. pose proof (rlp_inj _ _ _ Hk Hk') as Hl. cbn [lowerNode] in Hl.
  rewrite (minimalInteger_lower _ _ Hn), (minimalInteger_lower _ _ Hn') in Hl. injection Hl as <-.
  by eapply minimalInteger_inj.
Qed.

(** The items of a block, by position. *)
Record ItemsOf (rs : list (SnapshotReceipt * list NormLog)) (items : list Item) : Prop := {
  io_item i r logs : rs !! i = Some (r, logs) → ∃ it, it ∈ items ∧ receiptItem (Z.of_nat i, r, logs) = Ok it;
  io_source it : it ∈ items → ∃ i r logs, rs !! i = Some (r, logs) ∧ receiptItem (Z.of_nat i, r, logs) = Ok it }.

Lemma itemsOf rs items : omap_out receiptItem (indexed rs) = Ok items → ItemsOf rs items.
Proof.
  intros H%omap_out_Forall2. split.
  - intros i r logs Hi. assert (indexed rs !! i = Some (Z.of_nat i, r, logs)) as Hx.
    { unfold indexed. by rewrite list_lookup_imap, Hi. }
    destruct (Forall2_lookup_l _ _ _ _ _ H Hx) as (it & Hit & Hr). exists it. split; [by eapply list_elem_of_lookup_2|done].
  - intros it [i Hi]%list_elem_of_lookup. destruct (Forall2_lookup_r _ _ _ _ _ H Hi) as (x & Hx & Hr).
    unfold indexed in Hx. rewrite list_lookup_imap in Hx. destruct (rs !! i) as [[r logs]|] eqn:Hrs; [|done].
    injection Hx as <-. by exists i, r, logs.
Qed.

Lemma itemsOf_Wf rs items : ItemsOf rs items → Wf items.
Proof.
  intros HI. split.
  - intros it it' (i & r & logs & Hi & Hr)%(io_source _ _ HI) (i' & r' & logs' & Hi' & Hr')%(io_source _ _ HI) Hk.
    pose proof (receiptItem_key_inj _ _ _ _ _ _ _ _ Hr Hr' Hk) as Heq%Nat2Z.inj. subst i'. congruence.
  - intros it (i & r & logs & Hi & Hr)%(io_source _ _ HI).
    apply receiptItem_inv in Hr as (n & k & v & _ & Hk & Hv & ->). simpl.
    split; [apply nibblesOf_range; by eapply bytes_range|by eapply encodedReceipt_lower].
Qed.

Lemma committed_sub rs rs' items items' : ItemsOf rs items → ItemsOf rs' items' → items ⊆ items' →
  ∀ i r logs, rs !! i = Some (r, logs) → ∃ r' logs', rs' !! i = Some (r', logs') ∧ committed r logs = committed r' logs'.
Proof.
  intros HI HI' Hs i r logs Hi. destruct (io_item _ _ HI i r logs Hi) as (it & Hit & Hr).
  apply Hs, (io_source _ _ HI') in Hit as (i' & r' & logs' & Hi' & Hr').
  pose proof (receiptItem_key_inj _ _ _ _ _ _ _ _ Hr Hr' eq_refl) as Heq%Nat2Z.inj. subst i'.
  exists r', logs'. split; [done|].
  apply receiptItem_inv in Hr as (n & k & v & _ & _ & Hv & ->), Hr' as (n' & k' & v' & _ & _ & Hv' & Hit).
  injection Hit as _ <-. by eapply encodedReceipt_inj.
Qed.

Lemma root_nonempty rs root : rs ≠ [] → computeReceiptsRoot (indexed rs) = Ok root → ∃ items node e,
  ItemsOf rs items ∧ trieNode (depth items) items = Ok node ∧ encodeRlp (RList node) = Ok e ∧ root = keccak256 e
  ∧ rootTexts (indexed rs) = nodeTexts (depth items) items ∧ e ∈ rootTexts (indexed rs).
Proof.
  intros Hne H. destruct rs as [|r rs]; [done|]. set (rs' := r :: rs) in *.
  change (computeReceiptsRoot (indexed rs')) with
    (let? items := omap_out receiptItem (indexed rs') in let? node := trieNode (depth items) items in
     let? encoded := encodeRlp (RList node) in Ok (keccak256 encoded)) in H.
  apply obind_ok in H as (items & Hit & (node & Hn & (e & He & [= <-])%obind_ok)%obind_ok).
  exists items, node, e. assert (rootTexts (indexed rs') = nodeTexts (depth items) items) as Ht.
  { change (rootTexts (indexed rs')) with
      (match omap_out receiptItem (indexed rs') with Ok items => nodeTexts (depth items) items | Throw _ => [] end). by rewrite Hit. }
  split_and!; [by apply itemsOf|done|done|done|done|]. rewrite Ht. apply (textOf_own _ _ _ Hn). rewrite Hn. simpl. rewrite He. by left.
Qed.

(** Equal roots over receipts whose encodings do not collide: each position of one block is a position
    of the other and holds what the same. *)
Lemma root_sub rs rs' root : computeReceiptsRoot (indexed rs) = Ok root → computeReceiptsRoot (indexed rs') = Ok root →
  Roster.NoCollision keccak256 (rootTexts (indexed rs) ++ rootTexts (indexed rs')) →
  ∀ i r logs, rs !! i = Some (r, logs) → ∃ r' logs', rs' !! i = Some (r', logs') ∧ committed r logs = committed r' logs'.
Proof.
  intros H H' HN. destruct (decide (rs = [])) as [->|Hne]; [done|].
  destruct (root_nonempty rs root Hne H) as (items & node & e & HI & Hn & He & -> & Ht & Hte).
  destruct (decide (rs' = [])) as [->|Hne'].
  { change (computeReceiptsRoot (indexed [])) with EMPTY_TRIE_ROOT in H'. apply obind_ok in H' as (e' & He' & [= Hk]).
    apply HN in Hk as ->; [by pose proof (rlp_inj _ _ _ He' He)| |by apply elem_of_app; left].
    apply elem_of_app. right. simpl. rewrite He'. by left. }
  destruct (root_nonempty rs' _ Hne' H') as (items' & node' & e' & HI' & Hn' & He' & Hk & Ht' & Hte').
  apply HN in Hk as <-; [|by apply elem_of_app; left|by apply elem_of_app; right].
  pose proof (itemsOf_Wf _ _ HI) as HW. pose proof (itemsOf_Wf _ _ HI') as HW'.
  pose proof (rlp_inj _ _ _ He He') as Hl. cbn [lowerNode] in Hl.
  rewrite (trie_lower _ _ _ HW Hn), (trie_lower _ _ _ HW' Hn') in Hl. injection Hl as <-.
  apply (committed_sub rs rs' items items' HI HI').
  apply (trie_sub _ HN _ _ _ _ node HW HW' Hn Hn'); rewrite <- ?Ht, <- ?Ht'; set_solver.
Qed.

Lemma root_committed rs rs' root : computeReceiptsRoot (indexed rs) = Ok root → computeReceiptsRoot (indexed rs') = Ok root →
  Roster.NoCollision keccak256 (rootTexts (indexed rs) ++ rootTexts (indexed rs')) →
  map (λ r, committed r.1 r.2) rs = map (λ r, committed r.1 r.2) rs'.
Proof.
  intros H H' HN. apply list_eq. intros i. rewrite !list_lookup_fmap.
  destruct (rs !! i) as [[r logs]|] eqn:Hi.
  - destruct (root_sub rs rs' root H H' HN i r logs Hi) as (r' & logs' & -> & Hc). simpl. by rewrite Hc.
  - destruct (rs' !! i) as [[r' logs']|] eqn:Hi'; [|done].
    assert (Roster.NoCollision keccak256 (rootTexts (indexed rs') ++ rootTexts (indexed rs))) as HN'
      by (intros x y Hx Hy; apply HN; set_solver).
    destruct (root_sub rs' rs root H' H HN' i r' logs' Hi') as (r & logs & Hr & _). congruence.
Qed.

Lemma receiptItem_error x e : receiptItem x = Throw e → e ≠ EError "out of fuel".
Proof.
  assert (∀ n e, minimalInteger n = Throw e → e ≠ EError "out of fuel") as Hmin.
  { unfold minimalInteger, orequire. intros n e'. destruct (0 <=? n); by intros [= <-]. }
  destruct x as [[i r] logs]. intros [H|(n & _ & [H|(k & _ & [H|(v & _ & H)]%obind_throw)]%obind_throw)]%obind_throw;
    [by eapply Hmin|by eapply rlp_error| |done].
  apply obind_throw in H as [H|(u & _ & [H|(s & _ & [H|(g & _ & [H|(p & _ & H)]%obind_throw)]%obind_throw)]%obind_throw)];
    [|by eapply Hmin|by eapply Hmin|by eapply rlp_error|done].
  unfold orequire in H. case_match; by simplify_eq.
Qed.

Lemma root_fuel rs : computeReceiptsRoot rs ≠ Throw (EError "out of fuel").
Proof.
  destruct rs as [|r rs]; [intros [H|(e & _ & H)]%obind_throw; [by eapply rlp_error in H|done]|].
  intros [(x & _ & H)%omap_out_throw|(items & Hi & [H|(n & _ & [H|(e & _ & H)]%obind_throw)]%obind_throw)]%obind_throw;
    [by eapply receiptItem_error in H| |by eapply rlp_error in H|done].
  eapply trie_fuel; [| |exact H]; [|apply depth_enough]. apply omap_out_Forall2 in Hi.
  by intros ->; apply Forall2_nil_inv_r in Hi.
Qed.
End injective.
End ReceiptTrie.

(** * A library that satisfies the laws *)

Module ToyEthers.
Import ReceiptTrie.

(** Every byte is escaped, strings and lists are bracketed. *)
Definition digitOf (n : Z) : ascii := ascii_of_N (Z.to_N (if n <? 10 then 48 + n else 87 + n)).
Definition byteText (b : Z) : string := String (digitOf (b / 16 mod 16)) (String (digitOf (b mod 16)) "").
Fixpoint bytesText (bs : list Z) : string := match bs with [] => "" | b :: bs => byteText b +:+ bytesText bs end.
Definition hexlify (bs : list Z) : string := "0x" +:+ bytesText bs.
Definition nibbleOf (c : ascii) : option Z :=
  let n := Z.of_N (N_of_ascii c) in
  if (48 <=? n) && (n <=? 57) then Some (n - 48)
  else if (97 <=? n) && (n <=? 102) then Some (n - 87)
  else if (65 <=? n) && (n <=? 70) then Some (n - 55) else None.
Fixpoint unhexChars (s : string) : option (list Z) :=
  match s with
  | "" => Some []
  | String a (String b s) =>
      match nibbleOf a, nibbleOf b with Some x, Some y => cons (16 * x + y) <$> unhexChars s | _, _ => None end
  | _ => None
  end.
Definition unhex (s : string) : option (list Z) := match s with String "0" (String "x" s) => unhexChars s | _ => None end.
Fixpoint ser (n : RlpNode) : option (list Z) :=
  match n with
  | RStr s => (λ bs, concat (map (λ b, [1; b]) bs) ++ [0]) <$> unhex s
  | RList l => (λ parts, 200 :: concat parts ++ [201]) <$> mapM ser l
  end.

Fixpoint bits (p : positive) : list Z := match p with xH => [1] | xO p => 0 :: bits p | xI p => 1 :: bits p end.

#[export] Instance toyEthers : Ethers := {
  keccak256 := RosterProofs.toyHash;
  encodeRlp n := match ser n with Some bs => Ok (hexlify bs) | None => Throw (EError "invalid BytesLike value") end;
  dataLength s := (Z.of_nat (String.length s) - 2) / 2;
  toBeHex n := hexlify (match n with Zpos p => bits p | _ => [] end);
  toBeHexWidth n _ := hexlify [n];
  stripZerosLeft s := s;
  getBytes s := default [] (unhex s);
  ReceiptTrie.hexlify := hexlify;
  concat_ l := match l with [a; b] => "0x" +:+ (Roster.hexBody a +:+ Roster.hexBody b) | _ => "" end }.

Lemma sixteen_cases x : 0 ≤ x < 16 → x = 0 ∨ x = 1 ∨ x = 2 ∨ x = 3 ∨ x = 4 ∨ x = 5 ∨ x = 6 ∨ x = 7 ∨ x = 8 ∨ x = 9 ∨ x = 10
  ∨ x = 11 ∨ x = 12 ∨ x = 13 ∨ x = 14 ∨ x = 15.
Proof. lia. Qed.
Lemma digit_hex x : 0 ≤ x < 16 → nibbleOf (digitOf x) = Some x ∧ lower_ascii (digitOf x) = digitOf x.
Proof. intros Hx%sixteen_cases. by destruct_or! Hx; subst. Qed.
Lemma hex_char c x : nibbleOf c = Some x → digitOf x = lower_ascii c ∧ 0 ≤ x < 16.
Proof. destruct c as [[] [] [] [] [] [] [] []]; intros H; vm_compute in H; (done || (injection H as <-; split; [done|vm_compute; split; done])). Qed.
Lemma byteText_nibbles a b : 0 ≤ a < 16 → 0 ≤ b < 16 → byteText (16 * a + b) = String (digitOf a) (String (digitOf b) "").
Proof.
  intros Ha Hb. unfold byteText.
  replace ((16 * a + b) mod 16) with b by (rewrite Z.add_comm, Z.mul_comm, Z.mod_add, Z.mod_small; lia).
  replace ((16 * a + b) / 16) with a by (rewrite Z.add_comm, Z.mul_comm, Z.div_add, Z.div_small; lia).
  by rewrite (Z.mod_small a 16) by lia.
Qed.
Lemma byte_digits b : isByte b → ∃ x y, b = 16 * x + y ∧ 0 ≤ x < 16 ∧ 0 ≤ y < 16.
Proof.
  intros [H0 H1]. pose proof (Z.mod_pos_bound b 16 ltac:(lia)). exists (b / 16), (b mod 16).
  split_and!; try lia; [apply Z.div_mod; lia|apply Z.div_pos; lia|apply Z.div_lt_upper_bound; lia].
Qed.

Lemma byteText_length b : String.length (byteText b) = 2%nat.
Proof. done. Qed.
Lemma bytesText_lower bs : toLowerCase (bytesText bs) = bytesText bs.
Proof.
  induction bs as [|b bs IH]; [done|]. cbn [bytesText]. unfold byteText. rewrite !app_cons_str, app_nil_str. cbn [toLowerCase].
  destruct (digit_hex (b / 16 mod 16)) as [_ ->]; [apply Z.mod_pos_bound; lia|].
  destruct (digit_hex (b mod 16)) as [_ ->]; [apply Z.mod_pos_bound; lia|]. by rewrite IH.
Qed.
Lemma toy_hexlify_lower bs : toLowerCase (hexlify bs) = hexlify bs.
Proof. unfold hexlify. change (String "0" (String "x" (toLowerCase (bytesText bs))) = String "0" (String "x" (bytesText bs))). by rewrite bytesText_lower. Qed.
Lemma byteText_inj a b : isByte a → isByte b → byteText a = byteText b → a = b.
Proof.
  intros (x & y & -> & Hx & Hy)%byte_digits (x' & y' & -> & Hx' & Hy')%byte_digits. rewrite !byteText_nibbles by done. intros [= H1 H2].
  apply (f_equal nibbleOf) in H1, H2. destruct (digit_hex x Hx) as [E1 _], (digit_hex x' Hx') as [E2 _], (digit_hex y Hy) as [E3 _],
    (digit_hex y' Hy') as [E4 _]. rewrite E1, E2 in H1. rewrite E3, E4 in H2. congruence.
Qed.
Lemma toy_hexlify_inj a b : Forall isByte a → Forall isByte b → hexlify a = hexlify b → a = b.
Proof.
  intros Ha Hb [_ H]%app_str_inj; [|done]. revert b Hb H. induction Ha as [|x a Hx _ IH]; intros b Hb; destruct Hb as [|y b Hy Hb]; [done|done|done|].
  cbn [bytesText]. intros [H1 H2]%app_str_inj; [|done]. f_equal; [by apply byteText_inj|by apply IH].
Qed.
Lemma hexlify_nonempty b bs : hexlify (b :: bs) ≠ "0x".
Proof.
  intros H%(f_equal String.length). unfold hexlify in H. cbn [bytesText] in H. by rewrite !length_app_str, byteText_length in H.
Qed.

Lemma unhexChars_spec : ∀ n s bs, (String.length s ≤ n)%nat → unhexChars s = Some bs →
  toLowerCase s = bytesText bs ∧ Forall isByte bs.
Proof.
  induction n as [|n IH]; intros s bs Hn H.
  { destruct s; [|simpl in Hn; lia]. by injection H as <-. }
  destruct s as [|a [|b s]]; [by injection H as <-|done|]. cbn [unhexChars] in H.
  destruct (nibbleOf a) as [x|] eqn:Ha; [|done]. destruct (nibbleOf b) as [y|] eqn:Hb; [|done].
  destruct (unhexChars s) as [bs'|] eqn:Hs; [|done]. injection H as <-. simpl in Hn.
  destruct (IH s bs' ltac:(lia) Hs) as [Hl Hf]. destruct (hex_char a x Ha) as [Ea Ra], (hex_char b y Hb) as [Eb Rb]. split.
  - cbn [bytesText toLowerCase]. by rewrite byteText_nibbles, Ea, Eb, Hl by done.
  - constructor; [unfold isByte; lia|done].
Qed.
Lemma unhex_spec s bs : unhex s = Some bs → toLowerCase s = hexlify bs ∧ Forall isByte bs.
Proof.
  unfold unhex. repeat (case_match; try done). intros Hs. destruct (unhexChars_spec _ _ _ (le_n _) Hs) as [Hl Hf].
  split; [|done]. unfold hexlify. cbn [toLowerCase]. by rewrite Hl.
Qed.

Lemma unhex_hexlify bs : Forall isByte bs → unhex (hexlify bs) = Some bs.
Proof.
  intros H. change (unhexChars (bytesText bs) = Some bs). induction H as [|b bs Hb _ IH]; [done|].
  destruct (byte_digits b Hb) as (x & y & -> & Hx & Hy). cbn [bytesText]. rewrite byteText_nibbles by done.
  rewrite !app_cons_str, app_nil_str. cbn [unhexChars]. destruct (digit_hex x Hx) as [-> _], (digit_hex y Hy) as [-> _].
  by rewrite IH.
Qed.

Lemma ser_range n bs : ser n = Some bs → Forall isByte bs ∧ ∃ b rest, bs = b :: rest ∧ (b = 0 ∨ b = 1 ∨ b = 200)
  ∧ (∀ l, n = RList l → b = 200).
Proof.
  revert bs. induction n as [s|l IH] using RlpNode_ind; intros bs H; simpl in H.
  - destruct (unhex s) as [cs|] eqn:Hs; [|done]. injection H as <-. apply unhex_spec in Hs as [_ Hf]. split.
    + apply Forall_app. split; [|by repeat constructor]. clear -Hf. induction Hf as [|c cs Hc _ IH]; [constructor|].
      simpl. apply Forall_two. split_and!; [done|done|done].
    + destruct cs as [|c cs]; simpl; eexists _, _; (split; [done|]); (split; [auto|done]).
  - destruct (mapM ser l) as [parts|] eqn:Hp; [|done]. injection H as <-. apply mapM_Some_1 in Hp. split.
    + constructor; [done|]. apply Forall_app. split; [|by repeat constructor]. apply Forall_concat.
      clear -IH Hp. induction Hp as [|x p l ps Hx _ IHp]; [constructor|]. apply Forall_cons in IH as [H1 H2].
      constructor; [by apply H1|by apply IHp].
    + eexists _, _. split; [done|]. by split; [auto|].
Qed.

Definition Prefixed (n : RlpNode) : Prop := ∀ m x y r r', ser n = Some x → ser m = Some y → x ++ r = y ++ r' →
  lowerNode n = lowerNode m ∧ r = r'.

Lemma esc_prefix a b r r' : concat (map (λ c, [1; c]) a) ++ [0] ++ r = concat (map (λ c, [1; c]) b) ++ [0] ++ r' → a = b ∧ r = r'.
Proof.
  revert b. induction a as [|x a IH]; intros [|y b]; simpl; [by intros [= ->]|done|done|].
  intros [= -> H]. by destruct (IH b H) as [-> ->].
Qed.

Lemma list_prefix l parts r : Forall Prefixed l → Forall2 (λ n p, ser n = Some p) l parts → ∀ m parts' r',
  Forall2 (λ n p, ser n = Some p) m parts' → concat parts ++ 201 :: r = concat parts' ++ 201 :: r' →
  map lowerNode l = map lowerNode m ∧ r = r'.
Proof.
  intros HP Hl. induction Hl as [|n p l parts Hn Hl IH]; intros m parts' r' Hm; destruct Hm as [|n' p' m parts' Hn' Hm]; simpl.
  - by intros [= ->].
  - destruct (ser_range n' p' Hn') as (_ & b & rest & -> & Hb & _). simpl. intros [= <- _]. by destruct_or! Hb.
  - destruct (ser_range n p Hn) as (_ & b & rest & -> & Hb & _). simpl. intros [= -> _]. by destruct_or! Hb.
  - apply Forall_cons in HP as [HPn HP]. rewrite <- !app_assoc. intros H.
    destruct (HPn _ _ _ _ _ Hn Hn' H) as [-> H']. by destruct (IH HP _ _ _ Hm H') as [-> ->].
Qed.

Lemma ser_prefix n : Prefixed n.
Proof.
  induction n as [s|l IH] using RlpNode_ind; intros m x y r r' Hx Hy Heq.
  - destruct m as [s'|l']; [|exfalso].
    + simpl in Hx, Hy. destruct (unhex s) as [a|] eqn:Ha; [|done]. destruct (unhex s') as [b|] eqn:Hb; [|done].
      injection Hx as <-. injection Hy as <-. rewrite <- !app_assoc in Heq. apply esc_prefix in Heq as [-> ->]. simpl.
      apply unhex_spec in Ha as [-> _], Hb as [-> _]. done.
    + simpl in Hx, Hy. destruct (unhex s) as [a|]; [|done]. destruct (mapM ser l'); [|done]. injection Hx as <-. injection Hy as <-.
      by destruct a.
  - destruct m as [s'|l']; [exfalso|].
    + simpl in Hx, Hy. destruct (unhex s') as [a|]; [|done]. destruct (mapM ser l); [|done]. injection Hx as <-. injection Hy as <-.
      by destruct a.
    + simpl in Hx, Hy. destruct (mapM ser l) as [ps|] eqn:Hp; [|done]. destruct (mapM ser l') as [ps'|] eqn:Hp'; [|done].
      injection Hx as <-. injection Hy as <-. apply mapM_Some_1 in Hp, Hp'. rewrite <- !app_comm_cons, <- !app_assoc in Heq.
      injection Heq as Heq. destruct (list_prefix _ _ _ IH Hp _ _ _ Hp' Heq) as [H1 ->]. simpl. by rewrite H1.
Qed.

Lemma encode_inv n x : encodeRlp n = Ok x → ∃ bs, ser n = Some bs ∧ x = hexlify bs.
Proof. simpl. destruct (ser n) as [bs|]; [|done]. intros [= <-]. by exists bs. Qed.

Lemma getBytes_hexlify bs : Forall isByte bs → getBytes (hexlify bs) = bs.
Proof. intros H. change (default [] (unhex (hexlify bs)) = bs). by rewrite unhex_hexlify. Qed.

Lemma concat_hexlify t bs : concat_ [toBeHexWidth t 1; hexlify bs] = hexlify (t :: bs).
Proof. done. Qed.

Lemma bits_bytes p : Forall isByte (bits p) ∧ bits p ≠ [].
Proof. induction p as [p [IH _]|p [IH _]|]; (split; [repeat constructor; done|done]). Qed.
Lemma bits_inj p q : bits p = bits q → p = q.
Proof.
  revert q. induction p as [p IH|p IH|]; intros [q|q|]; simpl; intros H; try done.
  - injection H as H. by rewrite (IH q H).
  - injection H as H. by destruct (bits_bytes p).
  - injection H as H. by rewrite (IH q H).
  - injection H as H. by destruct (bits_bytes q).
Qed.

#[export] Instance toyLaws : EthersLaws toyEthers.
Proof.
  split.
  - exact RosterProofs.toyHash_word.
  - intros a b x (bs & Ha & ->)%encode_inv (bs' & Hb & Heq)%encode_inv.
    apply toy_hexlify_inj in Heq as <-; [|by eapply ser_range|by eapply ser_range].
    by apply (ser_prefix a b bs bs [] []).
  - intros a x (bs & _ & ->)%encode_inv. apply toy_hexlify_lower.
  - simpl. intros a e. destruct (ser a); [done|]. by intros [= <-].
  - intros a x (bs & Hs & ->)%encode_inv. destruct (ser_range _ _ Hs) as (_ & b & rest & -> & _). apply hexlify_nonempty.
  - intros [|a|] [|b|] Ha Hb; try lia. simpl. intros H%toy_hexlify_inj; [|apply bits_bytes|apply bits_bytes]. by apply bits_inj in H as ->.
  - intros [|a|] Ha; try lia. simpl. destruct (bits_bytes a) as [_ Hne].
    destruct (bits a); [done|apply hexlify_nonempty].
  - intros a _. apply toy_hexlify_lower.
  - intros a b x y (bs & Ha & ->)%encode_inv (bs' & Hb & ->)%encode_inv.
    rewrite !getBytes_hexlify by (by eapply ser_range). by intros ->.
  - intros a x (bs & Ha & ->)%encode_inv. rewrite getBytes_hexlify by (by eapply ser_range). by eapply ser_range.
  - exact toy_hexlify_inj.
  - exact toy_hexlify_lower.
  - intros t u l m x y Ht Hu (bs & Ha & ->)%encode_inv (bs' & Hb & ->)%encode_inv. rewrite !concat_hexlify.
    intros [= -> ->]%toy_hexlify_inj; [done|constructor; [unfold isByte; lia|by eapply ser_range]..].
  - intros t l m x y Ht (bs & Ha & ->)%encode_inv (bs' & Hb & ->)%encode_inv. rewrite concat_hexlify.
    intros H%toy_hexlify_inj; [|constructor; [unfold isByte; lia|by eapply ser_range]|by eapply ser_range].
    destruct (ser_range _ _ Hb) as (_ & b & rest & -> & _ & Hl). rewrite (Hl m eq_refl) in H. injection H as -> _. lia.
  - intros t l x (bs & Ha & ->)%encode_inv. rewrite concat_hexlify. apply toy_hexlify_lower.
  - intros t l x (bs & Ha & ->)%encode_inv. rewrite concat_hexlify. apply hexlify_nonempty.
Qed.
End ToyEthers.

Module ReceiptTrieProofs.
Import ReceiptTrie.

(** C11. The root that [computeReceiptsRoot] computes is always reached, the
    recursion on ever shorter keys included, and it commits to the receipts of the
    block: two blocks with the same root, over data that does not collide under the
    hash, have the same number of receipts, and position by position the same type,
    status, gas, bloom and the same logs with their addresses, topics and data in the
    same order. *)
Theorem receipts_root_commits `{E : Ethers} `{L : !EthersLaws E} (rs rs' : list (SnapshotReceipt * list NormLog)) :
  computeReceiptsRoot (indexed rs) ≠ Throw (EError "out of fuel") ∧
  ∀ root, computeReceiptsRoot (indexed rs) = Ok root → computeReceiptsRoot (indexed rs') = Ok root →
    Roster.NoCollision keccak256 (rootTexts (indexed rs) ++ rootTexts (indexed rs')) →
    map (λ r, committed r.1 r.2) rs = map (λ r, committed r.1 r.2) rs'.
Proof. split; [apply root_fuel|]. intros root. apply root_committed. Qed.

(** ** Two receipts *)

Import ToyEthers.
Fixpoint times (n : nat) (s : string) : string := match n with O => "" | S n => s +:+ times n s end.
Definition exReceipt (bloom : string) (status gas : Z) (type : Z) : SnapshotReceipt := {|
  r_hash := ""; r_blockNumber := 7; r_blockHash := ""; r_index := 0; r_status := Some status; r_contractAddress := None;
  r_logs := []; r_cumulativeGasUsed := gas; r_logsBloom := bloom; r_type := type; r_root := None |}.
Definition exLog (topic data_ : string) : NormLog := {|
  address := "0x" +:+ times 20 "1a"; blockNumber := 7; blockHash := ""; transactionHash := ""; transactionIndex := 0; index := 0;
  topics := ["0x" +:+ times 32 topic]; data := data_ |}.
Definition exReceipts (digit : string) : list (SnapshotReceipt * list NormLog) :=
  [(exReceipt ("0x" +:+ times 256 ("0" +:+ digit)) 1 5 2, [exLog "b0" "0xc1"]); (exReceipt ("0x" +:+ times 256 "00") 0 9 0, [])].
Definition exRoot : string := Eval vm_compute in ok_or "" (computeReceiptsRoot (indexed (exReceipts "a"))).
Lemma exRoots : computeReceiptsRoot (indexed (exReceipts "a")) = Ok exRoot ∧ computeReceiptsRoot (indexed (exReceipts "A")) = Ok exRoot.
Proof. split; by vm_compute. Qed.

(** The bloom filter of the first receipt is written in the other case. *)
Lemma receipts_root_commits_witness :
  map (λ r, committed r.1 r.2) (exReceipts "a") = map (λ r, committed r.1 r.2) (exReceipts "A").
Proof.
  apply (proj2 (receipts_root_commits (exReceipts "a") (exReceipts "A")) exRoot (proj1 exRoots) (proj2 exRoots)).
  apply RosterProofs.NoCollision_decide. refine (bool_decide_eq_true_1 (NoDup _) _). vm_compute. reflexivity.
Defined.
End ReceiptTrieProofs.
