(* ===== verification/RosterSource.v ===== *)
(** The cold replay of the roster, [src/pipeline/roster-source.ts]: the lifecycle events of the source
    contract are read from transaction receipts whose trie root must be the one of an independently
    observed header, replayed into the state of every subject, and the subjects in good standing at the
    cutoff become the roster. *)

From Stdlib Require Import ZArith Lia Ascii String.
From stdpp Require Import base decidable option list strings pretty sets list_numbers.
From S2P Require Import Prelude JS Json Roster Attrs ReceiptTrie.
Local Open Scope string_scope.
Local Open Scope list_scope.
Local Open Scope Z_scope.

Module RosterSource.
Import ReceiptTrie.

(** * Data *)

Record SnapshotBlock := {
  b_number : Z; b_hash : option string; b_parentHash : string; b_timestamp : Z; b_transactions : list string;
  b_receiptsRoot : option string }.
(** [SnapshotBlock & { hash: string }], as [checkedBlock] returns it; its receipts root is set too. *)
Record Block := {
  number : Z; hash : string; parentHash : string; timestamp : Z; transactions : list string; receiptsRoot : string }.

Inductive BlockTag := Height (n : Z) | Finalized.

Record SnapshotHeaderReader (W : Type) := {
  h_getNetwork : M W Z; h_getBlockNumber : M W Z; h_getBlock : BlockTag → M W (option SnapshotBlock) }.
Arguments h_getNetwork {W} _. Arguments h_getBlockNumber {W} _. Arguments h_getBlock {W} _ _.
Record SnapshotReader (W : Type) := {
  getNetwork : M W Z; getBlockNumber : M W Z; getBlock : BlockTag → M W (option SnapshotBlock);
  getTransactionReceipt : string → M W (option SnapshotReceipt);
  getLogs : string → Z → Z → M W (list SnapshotLog) }.
Arguments getNetwork {W} _. Arguments getBlockNumber {W} _. Arguments getBlock {W} _ _.
Arguments getTransactionReceipt {W} _ _. Arguments getLogs {W} _ _ _ _.

(** The events of [ROSTER_LIFECYCLE_ABI], decoded.  A uint64 or uint256 argument is the integer itself:
    [Number] rounds only integers that the checks on the result reject. *)
Inductive LifecycleEvent :=
  | MarkIssued (subject attrs issuer claimsRoot evidenceHash : string)
  | KeyedMarkIssued (subject attrs issuer : string) (issuerKeyEpoch : Z) (claimsRoot evidenceHash : string)
  | MarkRevoked (subject : string) (reasonCode epoch : Z)
  | SanctionDenied (subject : string) (listVersion epoch : Z)
  | SanctionDenialCorrected (subject : string) (denialRevision correctionId : Z) (reasonHash proposer approver : string)
  | IssuerKeyCompromised (issuer : string) (issuerKeyEpoch lastTrustedBlock : Z) (reasonHash : string).

Record LifecycleState := {
  denied : bool; revoked : bool; entry : option Roster.RosterEntry; issuerKeyEpoch : option Z; issueBlock : option Z }.

Record SourceReplayCheckpoint := {
  c_version : Z; c_chainId : string; c_source : string; c_deploymentTx : string; c_deploymentBlock : Z;
  c_blockNumber : Z; c_blockHash : string; c_blockTimestamp : Z; c_receiptsRoot : string;
  c_receipts : Z; c_sourceLogs : Z; c_headersDigest : string; c_blocksDigest : string; c_logsDigest : string;
  c_states : list (string * LifecycleState); c_compromiseCutoffs : list (string * Z) }.

Record SourceSnapshotManifest := {
  m_chainId : string; m_source : string; m_deploymentTx : string; m_deploymentBlock : Z; m_deploymentBlockHash : string;
  m_cutoffBlock : Z; m_cutoffBlockHash : string; m_cutoffTimestamp : Z; m_confirmations : Z; m_blocks : Z;
  m_receipts : Z; m_sourceLogs : Z; m_headersDigest : string; m_blocksDigest : string; m_logsDigest : string;
  m_entriesDigest : string; m_root : string }.

Record SourceRosterSnapshot := {
  tree : Roster.RosterTree; excluded : list (string * string); manifest : SourceSnapshotManifest }.

Record SourceSnapshotOptions (W : Type) := {
  o_source : string; o_chainId : Z; o_deploymentTx : string; o_confirmations : Z;
  o_headerReader : option (SnapshotHeaderReader W);
  o_sameReader : bool;   (* options.headerReader === reader *)
  o_checkpoint : option SourceReplayCheckpoint;
  o_checkpointSink : option (SourceReplayCheckpoint → M W unit);
  o_cutoffBlock : option Z; o_expectedCutoffHash : option string;
  o_maxBlocks : option Z; o_maxReceipts : option Z; o_logChunk : option Z }.
Arguments o_source {W} _. Arguments o_chainId {W} _. Arguments o_deploymentTx {W} _. Arguments o_confirmations {W} _.
Arguments o_headerReader {W} _. Arguments o_sameReader {W} _. Arguments o_checkpoint {W} _. Arguments o_checkpointSink {W} _.
Arguments o_cutoffBlock {W} _. Arguments o_expectedCutoffHash {W} _. Arguments o_maxBlocks {W} _.
Arguments o_maxReceipts {W} _. Arguments o_logChunk {W} _.

Definition ZeroAddress : string := "0x0000000000000000000000000000000000000000".
Definition ZeroHash : string := "0x0000000000000000000000000000000000000000000000000000000000000000".
Definition same (a b : string) : bool := String.eqb (toLowerCase a) (toLowerCase b).

(** * Validation of what was read *)

Definition checkedBlock (value : option SnapshotBlock) (height : option Z) : outcome Block :=
  match value with
  | Some {| b_number := n; b_hash := Some h; b_parentHash := p; b_timestamp := t; b_transactions := txs; b_receiptsRoot := Some r |} =>
      let? _ := orequire (integer n 0 && (match height with Some height => n =? height | None => true end)
                          && isHash h && isHash p && isHash r && integer t 1 && forallb isHash txs && bool_decide (NoDup txs))
                  (EError "invalid source snapshot block") in
      Ok {| number := n; hash := h; parentHash := p; timestamp := t; transactions := txs; receiptsRoot := r |}
  | _ => Throw (EError "invalid source snapshot block")
  end.

Definition jsonText (v : json) : string := default "undefined" (Json.stringify v).
Definition strings (l : list string) : json := JArr (map JStr l).

Definition assertMatchingHeader (primary header : Block) : outcome unit :=
  orequire ((number primary =? number header) && same (hash primary) (hash header)
            && same (parentHash primary) (parentHash header) && (timestamp primary =? timestamp header)
            && same (receiptsRoot primary) (receiptsRoot header)
            && String.eqb (jsonText (strings (map toLowerCase (transactions primary))))
                          (jsonText (strings (map toLowerCase (transactions header)))))
    (EError "independent source header/block body disagrees with roster RPC").

(** [/^0x[0-9a-f]{40}\|[1-9][0-9]*$/] *)
Definition cutoffKey (key : string) : bool :=
  isAddress20 (substring 0 42 key) && isLower (substring 0 42 key) && String.eqb (substring 42 1 key) "|"
  && match substring 43 (String.length key) key with
     | String c r => isDigit c && negb (Ascii.eqb c "0") && allChars isDigit r
     | "" => false
     end.

Definition logJson (l : NormLog) : json := JObj
  [("address", JStr (address l)); ("blockNumber", JNum (blockNumber l)); ("blockHash", JStr (blockHash l));
   ("transactionHash", JStr (transactionHash l)); ("transactionIndex", JNum (transactionIndex l));
   ("index", JNum (index l)); ("topics", strings (topics l)); ("data", JStr (data l))].
Definition entryJson (e : Roster.RosterEntry) : json := JObj
  [("subject", JStr (Roster.subject e)); ("attrs", JStr (Roster.attrs e)); ("claimsRoot", JStr (Roster.claimsRoot e));
   ("evidenceHash", JStr (Roster.evidenceHash e)); ("issuer", JStr (Roster.issuer e))].

(** * Lifecycle *)

Record Lifecycle := { states : list (string * LifecycleState); compromiseCutoffs : list (string * Z) }.
Definition freshState : LifecycleState :=
  {| denied := false; revoked := false; entry := None; issuerKeyEpoch := None; issueBlock := None |}.
Definition compromiseKey (issuer : string) (epoch : Z) : string := toLowerCase issuer +:+ ("|" +:+ pretty epoch).

Definition NO_LOGS_DIGEST_TAG : json := JArr [JStr "source-logs-v2"].

(** The mutable locals of the scan that the log loop changes. *)
Record LogSt := {
  nextLogIndex : Z; receiptLogs : list NormLog; sourceLogCount : Z; logsDigest : string; lifecycle : Lifecycle }.
(** Those of the transaction loop. *)
Record TxSt := {
  t_log : LogSt; t_scannedReceipts : Z; t_receipts : Z; receiptDigests : list string;
  blockReceipts : list (Z * SnapshotReceipt * list NormLog) }.
(** Those that live across blocks. *)
Record Scan := {
  s_parentHash : string; s_previousTimestamp : Z; s_headersDigest : string; s_blocksDigest : string;
  s_receipts : Z; s_scannedReceipts : Z; s_log : LogSt }.

Section source.
Context `{E : Ethers}.
Context (isAddress : string → bool) (getAddress : string → outcome string).
Context (toUtf8Bytes : string → string).
Context (abiEncodeKey : string → string → string) (abiEncodeMark : string → string → string → string → outcome string).
(** The lifecycle interface: which topics are watched, decoding (null when the event is not known) and
    the canonical encoding. *)
Context (watched : string → bool) (parseLog : list string → string → outcome (option LifecycleEvent)).
Context (encodeEventLog : LifecycleEvent → outcome (list string * string)).
(** [a.localeCompare(b) <= 0] *)
Context (localeLe : string → string → bool).

Definition digest (value : json) : string := keccak256 (toUtf8Bytes (jsonText value)).

Definition subjectOf (ev : LifecycleEvent) : string :=
  match ev with
  | MarkIssued s _ _ _ _ | KeyedMarkIssued s _ _ _ _ _ | MarkRevoked s _ _ | SanctionDenied s _ _
  | SanctionDenialCorrected s _ _ _ _ _ => s
  | IssuerKeyCompromised _ _ _ _ => ""
  end.

(** The assignments of an issuance. *)
Definition issued (subject attrs issuer claimsRoot evidenceHash : string) (keyed : bool) (epoch height now : Z)
    (state : LifecycleState) : outcome LifecycleState :=
  let? _ := orequire (Attrs.validCredentialAttrs attrs (Some now) && negb (String.eqb issuer ZeroAddress))
              (EError "invalid source issuance attributes/issuer") in
  let? issuer := getAddress issuer in
  let? _ := orequire (integer epoch (if keyed then 1 else 0)) (EError "invalid issuance key epoch") in
  Ok {| denied := denied state; revoked := false;
        entry := Some {| Roster.subject := subject; Roster.attrs := toLowerCase attrs; Roster.claimsRoot := toLowerCase claimsRoot;
                         Roster.evidenceHash := toLowerCase evidenceHash; Roster.issuer := issuer |};
        issuerKeyEpoch := Some epoch; issueBlock := Some height |}.

Definition nextState (subject : string) (height now : Z) (ev : LifecycleEvent) (state : LifecycleState) : outcome LifecycleState :=
  match ev with
  | SanctionDenied _ _ _ =>
      Ok {| denied := true; revoked := revoked state; entry := entry state;
            issuerKeyEpoch := issuerKeyEpoch state; issueBlock := issueBlock state |}
  | SanctionDenialCorrected _ denialRevision correctionId reasonHash proposer approver =>
      let? _ := orequire (integer denialRevision 1 && negb (correctionId =? 0) && isHash reasonHash
                          && negb (String.eqb reasonHash ZeroHash) && isAddress proposer && isAddress approver
                          && negb (String.eqb proposer ZeroAddress) && negb (String.eqb approver ZeroAddress)
                          && negb (same proposer approver))
                  (EError "invalid denial correction provenance") in
      Ok {| denied := false; revoked := true; entry := None; issuerKeyEpoch := None; issueBlock := None |}
  | MarkRevoked _ _ _ =>
      Ok {| denied := denied state; revoked := true; entry := entry state;
            issuerKeyEpoch := issuerKeyEpoch state; issueBlock := issueBlock state |}
  | MarkIssued _ attrs issuer claimsRoot evidenceHash =>
      issued subject attrs issuer claimsRoot evidenceHash false 0 height now state
  | KeyedMarkIssued _ attrs issuer epoch claimsRoot evidenceHash =>
      issued subject attrs issuer claimsRoot evidenceHash true epoch height now state
  | IssuerKeyCompromised _ _ _ _ => Ok state
  end.

(** One decoded event of the block at [height], whose timestamp is [now]. *)
Definition applyEvent (height now : Z) (ev : LifecycleEvent) (l : Lifecycle) : outcome Lifecycle :=
  match ev with
  | IssuerKeyCompromised issuer epoch lastTrustedBlock reasonHash =>
      let? issuer := getAddress issuer in
      let? _ := orequire (negb (String.eqb issuer ZeroAddress) && integer epoch 1 && integer lastTrustedBlock 0
                          && (lastTrustedBlock <? height) && isHash reasonHash && negb (String.eqb reasonHash ZeroHash))
                  (EError "invalid issuer compromise provenance") in
      let key := compromiseKey issuer epoch in
      let cutoff := match dget key (compromiseCutoffs l) with
                    | None => lastTrustedBlock | Some previous => Z.min previous lastTrustedBlock end in
      Ok {| states := states l; compromiseCutoffs := dset key cutoff (compromiseCutoffs l) |}
  | _ =>
      let? subject := getAddress (subjectOf ev) in
      let? _ := orequire (negb (String.eqb subject ZeroAddress)) (EError "zero source lifecycle subject") in
      let? state := nextState subject height now ev (default freshState (dget subject (states l))) in
      Ok {| states := dset subject state (states l); compromiseCutoffs := compromiseCutoffs l |}
  end.

(** A log of the source contract: [None] when its topic is not watched. *)
Definition lifecycleEvent (topics : list string) (data : string) : outcome (option LifecycleEvent) :=
  match topics with
  | topic :: _ =>
      if watched topic then
        let? event := parseLog topics data in
        match event with
        | None => Throw (EError "invalid source lifecycle log")
        | Some ev =>
            let? canonical := encodeEventLog ev in
            let? _ := orequire (String.eqb (toLowerCase canonical.2) data
                                && String.eqb (jsonText (strings (map toLowerCase canonical.1))) (jsonText (strings topics)))
                        (EError "noncanonical source lifecycle log") in
            Ok (Some ev)
        end
      else Ok None
  | [] => Ok None
  end.

Definition replayLog (height now : Z) (topics : list string) (data : string) (l : Lifecycle) : outcome Lifecycle :=
  let? event := lifecycleEvent topics data in
  match event with None => Ok l | Some ev => applyEvent height now ev l end.

(** * The scan *)

Definition scanLog (source : string) (block : Block) (height transactionIndex : Z) (txHash : string) (log : NormLog) (st : LogSt)
    : outcome LogSt :=
  let? _ := orequire ((blockNumber log =? height) && String.eqb (blockHash log) (toLowerCase (hash block))
                      && String.eqb (transactionHash log) (toLowerCase txHash) && (ReceiptTrie.transactionIndex log =? transactionIndex)
                      && (index log =? nextLogIndex st))
              (EError "source receipt log coordinates/gap inconsistent") in
  if negb (String.eqb (address log) (toLowerCase source)) then
    Ok {| nextLogIndex := nextLogIndex st + 1; receiptLogs := receiptLogs st; sourceLogCount := sourceLogCount st;
          logsDigest := logsDigest st; lifecycle := lifecycle st |}
  else
    let? l := replayLog height (timestamp block) (topics log) (data log) (lifecycle st) in
    Ok {| nextLogIndex := nextLogIndex st + 1; receiptLogs := receiptLogs st ++ [log]; sourceLogCount := sourceLogCount st + 1;
          logsDigest := digest (JArr [JStr (logsDigest st); logJson log]); lifecycle := l |}.

Section scan.
Context {W : Type}.
Context (reader : SnapshotReader W) (headers : SnapshotHeaderReader W) (options : SourceSnapshotOptions W).

(** [Promise.all] of the same block from both sides, checked and compared. *)
Definition readBlocks (height : Z) : M W (Block * Block) :=
  let! blockValue := getBlock reader (Height height) in
  let! headerValue := h_getBlock headers (Height height) in
  let! block := lift_out (checkedBlock blockValue (Some height)) in
  let! header := lift_out (checkedBlock headerValue (Some height)) in
  ret (block, header).

Definition scanTransaction (source : string) (maxReceipts : Z) (block : Block) (height : Z) (tx : Z * string) (st : TxSt) : M W TxSt :=
  let '(transactionIndex, txHash) := tx in
  require (t_scannedReceipts st + 1 <=? maxReceipts) (EError "source snapshot exceeds receipt budget; no partial roster allowed") ;;;
  let! value := getTransactionReceipt reader txHash in
  match value with
  | None => throw (EError "missing/inconsistent source transaction receipt")
  | Some receipt =>
      require (same (r_hash receipt) txHash && (r_index receipt =? transactionIndex) && (r_blockNumber receipt =? height)
               && String.eqb (r_blockHash receipt) (hash block) && bool_decide (default (-1) (r_status receipt) ∈ [0; 1])
               && negb (bool_decide (r_status receipt = Some 0) && negb (length (r_logs receipt) =? 0)%nat))
        (EError "missing/inconsistent source transaction receipt") ;;;
      let! logs := lift_out (omap_out (λ log, normalizedLog isAddress log true) (r_logs receipt)) in
      let! l := lift_out (ofold (scanLog source block height transactionIndex txHash) logs (t_log st)) in
      ret {| t_log := l; t_scannedReceipts := t_scannedReceipts st + 1; t_receipts := t_receipts st + 1;
             receiptDigests := receiptDigests st ++
               [digest (JArr [JStr (toLowerCase txHash); match r_status receipt with Some n => JNum n | None => JNull end;
                              JArr (map logJson logs)])];
             blockReceipts := blockReceipts st ++ [(transactionIndex, receipt, logs)] |}
  end.

(** [block.transactions.entries()] *)
Definition entriesOf {A} (l : list A) : list (Z * A) := imap (λ i x, (Z.of_nat i, x)) l.

Definition scanBlock (source : string) (creation : SnapshotReceipt) (cutoff : Block) (maxReceipts : Z) (height : Z) (st : Scan) : M W Scan :=
  let! bs := readBlocks height in
  let '(block, headerBlock) := bs in
  lift_out (assertMatchingHeader block headerBlock) ;;;
  require (String.eqb (parentHash block) (s_parentHash st) && (s_previousTimestamp st <=? timestamp block)
           && (timestamp block <=? timestamp cutoff)
           && negb ((height =? r_blockNumber creation) && negb (String.eqb (hash block) (r_blockHash creation)))
           && negb ((height =? number cutoff) && negb (String.eqb (hash block) (hash cutoff))))
    (EError "source snapshot block chain changed") ;;;
  let l := s_log st in
  let! t := foldM (scanTransaction source maxReceipts block height) (entriesOf (transactions block))
    {| t_log := {| nextLogIndex := 0; receiptLogs := receiptLogs l; sourceLogCount := sourceLogCount l;
                   logsDigest := logsDigest l; lifecycle := lifecycle l |};
       t_scannedReceipts := s_scannedReceipts st; t_receipts := s_receipts st; receiptDigests := []; blockReceipts := [] |} in
  let! root := lift_out (computeReceiptsRoot (blockReceipts t)) in
  require (same root (receiptsRoot block)) (EError "source block receipt root mismatch; omitted or altered transaction receipt") ;;;
  require (negb (height =? r_blockNumber creation)
           || match transactions block !! Z.to_nat (r_index creation) with
              | Some tx => (0 <=? r_index creation) && same tx (o_deploymentTx options) | None => false end)
    (EError "deployment transaction missing from source block") ;;;
  let header := [JNum height; JStr (hash block); JStr (parentHash block); JNum (timestamp block); JStr (receiptsRoot block)] in
  ret {| s_parentHash := hash block; s_previousTimestamp := timestamp block;
         s_headersDigest := digest (JArr (JStr (s_headersDigest st) :: header));
         s_blocksDigest := digest (JArr (JStr (s_blocksDigest st) :: header ++ [strings (receiptDigests t)]));
         s_receipts := t_receipts t; s_scannedReceipts := t_scannedReceipts t; s_log := t_log t |}.

(** The comparator of the indexed logs. *)
Definition logLe (a b : NormLog) : bool :=
  if blockNumber a - blockNumber b =? 0 then index a - index b <=? 0 else blockNumber a - blockNumber b <=? 0.

Definition heights (from to_ : Z) : list Z := seqZ from (to_ - from + 1).

Definition scanChunk (source : string) (creation : SnapshotReceipt) (cutoff : Block) (maxReceipts : Z) (range : Z * Z) (st : Scan)
    : M W Scan :=
  let '(from, to_) := range in
  let l := s_log st in
  let! st' := foldM (scanBlock source creation cutoff maxReceipts) (heights from to_)
    {| s_parentHash := s_parentHash st; s_previousTimestamp := s_previousTimestamp st; s_headersDigest := s_headersDigest st;
       s_blocksDigest := s_blocksDigest st; s_receipts := s_receipts st; s_scannedReceipts := s_scannedReceipts st;
       s_log := {| nextLogIndex := nextLogIndex l; receiptLogs := []; sourceLogCount := sourceLogCount l;
                   logsDigest := logsDigest l; lifecycle := lifecycle l |} |} in
  let! raw := getLogs reader source from to_ in
  let! logs := lift_out (omap_out (λ log, normalizedLog isAddress log false) raw) in
  require (String.eqb (jsonText (JArr (map logJson (sort_by logLe logs)))) (jsonText (JArr (map logJson (receiptLogs (s_log st'))))))
    (EError "source getLogs/receipts disagree; missing/duplicate/foreign logs prohibit publication") ;;;
  ret st'.

(** [for (let from = anchor + 1; from <= cutoff; from += chunk)]: at most as many rounds as heights. *)
Fixpoint chunks (fuel : nat) (from cutoffHeight chunk : Z) : list (Z * Z) :=
  match fuel with
  | O => []
  | S fuel =>
      if from <=? cutoffHeight
      then (from, Z.min (from + chunk - 1) cutoffHeight) :: chunks fuel (from + chunk) cutoffHeight chunk
      else []
  end.

(** * Checkpoints *)

Definition stateOk (deploymentBlock : Z) (pair : string * LifecycleState) : bool :=
  let '(subject, state) := pair in
  isAddress subject
  && match entry state with
     | None => true
     | Some e =>
         isAddress (Roster.subject e)
         && match getAddress (Roster.subject e), getAddress subject with Ok a, Ok b => String.eqb a b | _, _ => false end
         && isAddress (Roster.issuer e) && isHash (Roster.attrs e) && isHash (Roster.claimsRoot e) && isHash (Roster.evidenceHash e)
     end
  && match issuerKeyEpoch state with None => true | Some epoch => integer epoch 0 end
  && match issueBlock state with None => true | Some b => integer b deploymentBlock end.

Definition checkedCheckpoint (value : SourceReplayCheckpoint) (source : string) (deploymentBlock cutoffHeight : Z)
    : outcome SourceReplayCheckpoint :=
  let? _ := orequire ((c_version value =? 1) && String.eqb (c_chainId value) (pretty (o_chainId options))
                      && String.eqb (c_source value) source && String.eqb (c_deploymentTx value) (toLowerCase (o_deploymentTx options))
                      && (c_deploymentBlock value =? deploymentBlock) && integer (c_blockNumber value) deploymentBlock
                      && (c_blockNumber value <=? cutoffHeight) && isHash (c_blockHash value) && integer (c_blockTimestamp value) 1
                      && isHash (c_receiptsRoot value) && integer (c_receipts value) 0 && integer (c_sourceLogs value) 0
                      && isHash (c_headersDigest value) && isHash (c_blocksDigest value) && isHash (c_logsDigest value)
                      && forallb (stateOk deploymentBlock) (c_states value)
                      && bool_decide (NoDup (map (λ s, toLowerCase s.1) (c_states value)))
                      && forallb (λ pair, cutoffKey pair.1 && integer pair.2 0) (c_compromiseCutoffs value)
                      && bool_decide (NoDup (map fst (c_compromiseCutoffs value))))
              (EError "invalid or inapplicable authenticated source checkpoint") in
  Ok value.

(** * The result *)

Definition byAddress {A} (a b : string * A) : bool := localeLe a.1 b.1.

(** Why a subject is not in the roster; [None] when it is. *)
Definition exclusion (cutoffs : list (string * Z)) (now : Z) (state : LifecycleState) : option string :=
  let compromiseCutoff :=
    match entry state, issuerKeyEpoch state with
    | Some e, Some epoch => if epoch =? 0 then None else dget (compromiseKey (Roster.issuer e) epoch) cutoffs
    | _, _ => None
    end in
  if denied state then Some "permanent source denial at/before cutoff"
  else if revoked state then Some "latest ordinary source event is revoke"
  else match entry state with
       | None => Some "no issuance at/before cutoff"
       | Some e =>
           if match compromiseCutoff, issueBlock state with Some c, Some b => c <? b | _, _ => false end
           then Some "issuance is after approved issuer-key compromise cutoff"
           else if negb (Attrs.validCredentialAttrs (Roster.attrs e) (Some now)) then Some "credential expired at source cutoff"
           else None
       end.

Definition rosterEntries (l : Lifecycle) (now : Z) : list Roster.RosterEntry :=
  omap (λ s, match exclusion (compromiseCutoffs l) now s.2 with None => entry s.2 | Some _ => None end)
    (sort_by byAddress (states l)).
Definition excludedSubjects (l : Lifecycle) (now : Z) : list (string * string) :=
  omap (λ s, (λ reason, (s.1, reason)) <$> exclusion (compromiseCutoffs l) now s.2) (sort_by byAddress (states l)).

(** * [buildSourceRoster] *)

(** The first reads: both networks, both heads and both finalized blocks; the cutoff height and the
    receipt of the deployment. *)
Definition openSnapshot (source : string) : M W (Z * SnapshotReceipt) :=
  let! network := getNetwork reader in
  let! head := getBlockNumber reader in
  let! finalValue := getBlock reader Finalized in
  let! creation := getTransactionReceipt reader (o_deploymentTx options) in
  let! headerNetwork := h_getNetwork headers in
  let! headerHead := h_getBlockNumber headers in
  let! headerFinalValue := h_getBlock headers Finalized in
  let! finalized := lift_out (checkedBlock finalValue None) in
  let! headerFinalized := lift_out (checkedBlock headerFinalValue None) in
  require ((network =? o_chainId options) && (headerNetwork =? o_chainId options) && integer head 0 && integer headerHead 0
           && (number finalized <=? head) && (number headerFinalized <=? headerHead))
    (EError "source chain/finality unavailable") ;;;
  let ceiling := Z.min (Z.min (number finalized) (head - o_confirmations options))
                       (Z.min (number headerFinalized) (headerHead - o_confirmations options)) in
  let cutoffHeight := default ceiling (o_cutoffBlock options) in
  require (integer cutoffHeight 1 && (cutoffHeight <=? ceiling)) (EError "source cutoff is not finalized and confirmed") ;;;
  match creation with
  | None => throw (EError "verified source deployment receipt required")
  | Some creation =>
      require (bool_decide (r_status creation = Some 1) && same (r_hash creation) (o_deploymentTx options)
               && match r_contractAddress creation with Some a => same a source | None => false end
               && integer (r_blockNumber creation) 1 && (r_blockNumber creation <=? cutoffHeight) && isHash (r_blockHash creation))
        (EError "verified source deployment receipt required") ;;;
      ret (cutoffHeight, creation)
  end.

(** Both ends of the range again, and the finality of the cutoff. *)
Definition confirmSnapshot (cutoffHeight : Z) (cutoff anchor : Block) : M W unit :=
  let! endAgain := getBlock reader (Height cutoffHeight) in
  let! anchorAgain := getBlock reader (Height (number anchor)) in
  let! finalAgain := getBlock reader Finalized in
  let! headAgain := getBlockNumber reader in
  let! headerEndAgain := h_getBlock headers (Height cutoffHeight) in
  let! headerAnchorAgain := h_getBlock headers (Height (number anchor)) in
  let! headerFinalAgain := h_getBlock headers Finalized in
  let! headerHeadAgain := h_getBlockNumber headers in
  let! checkedEndAgain := lift_out (checkedBlock endAgain (Some cutoffHeight)) in
  let! checkedAnchorAgain := lift_out (checkedBlock anchorAgain (Some (number anchor))) in
  let! checkedHeaderEndAgain := lift_out (checkedBlock headerEndAgain (Some cutoffHeight)) in
  let! checkedHeaderAnchorAgain := lift_out (checkedBlock headerAnchorAgain (Some (number anchor))) in
  lift_out (assertMatchingHeader checkedEndAgain checkedHeaderEndAgain) ;;;
  lift_out (assertMatchingHeader checkedAnchorAgain checkedHeaderAnchorAgain) ;;;
  let changed := throw (EError "source snapshot changed or finality regressed") in
  if negb (String.eqb (hash checkedEndAgain) (hash cutoff)) || negb (String.eqb (hash checkedAnchorAgain) (hash anchor)) then changed
  else
    let! final := lift_out (checkedBlock finalAgain None) in
    if (number final <? cutoffHeight) || negb (integer headAgain 0) || (headAgain - o_confirmations options <? cutoffHeight)
       || (headAgain <? number final) then changed
    else
      let! headerFinal := lift_out (checkedBlock headerFinalAgain None) in
      if (number headerFinal <? cutoffHeight) || negb (integer headerHeadAgain 0)
         || (headerHeadAgain - o_confirmations options <? cutoffHeight) || (headerHeadAgain <? number headerFinal) then changed
      else ret tt.

(** The locals before the scan: those of the checkpoint, or those of a cold start. *)
Definition initialScan (source : string) (anchor : Block) (checkpoint : option SourceReplayCheckpoint) : Scan :=
  let logs count digest_ l := {| nextLogIndex := 0; receiptLogs := []; sourceLogCount := count; logsDigest := digest_; lifecycle := l |} in
  match checkpoint with
  | Some c => {|
      s_parentHash := hash anchor; s_previousTimestamp := timestamp anchor;
      s_headersDigest := c_headersDigest c; s_blocksDigest := c_blocksDigest c;
      s_receipts := c_receipts c; s_scannedReceipts := 0;
      s_log := logs (c_sourceLogs c) (c_logsDigest c) {| states := c_states c; compromiseCutoffs := c_compromiseCutoffs c |} |}
  | None => {|
      s_parentHash := hash anchor; s_previousTimestamp := timestamp anchor;
      s_headersDigest := digest (JArr [JStr "source-headers-v2"; JStr (pretty (o_chainId options)); JNum (number anchor);
                                       JStr (hash anchor); JStr (receiptsRoot anchor)]);
      s_blocksDigest := digest (JArr [JStr "source-snapshot-v2"; JStr (pretty (o_chainId options)); JStr source;
                                      JStr (toLowerCase (o_deploymentTx options)); JStr (hash anchor)]);
      s_receipts := 0; s_scannedReceipts := 0;
      s_log := logs 0 (digest NO_LOGS_DIGEST_TAG) {| states := []; compromiseCutoffs := [] |} |}
  end.

Definition manifestOf (source : string) (creation : SnapshotReceipt) (cutoffHeight : Z) (cutoff : Block) (st : Scan)
    (tree : Roster.RosterTree) : SourceSnapshotManifest := {|
  m_chainId := pretty (o_chainId options); m_source := source; m_deploymentTx := toLowerCase (o_deploymentTx options);
  m_deploymentBlock := r_blockNumber creation; m_deploymentBlockHash := r_blockHash creation;
  m_cutoffBlock := cutoffHeight; m_cutoffBlockHash := hash cutoff; m_cutoffTimestamp := timestamp cutoff;
  m_confirmations := o_confirmations options; m_blocks := cutoffHeight - r_blockNumber creation + 1;
  m_receipts := s_receipts st; m_sourceLogs := sourceLogCount (s_log st);
  m_headersDigest := s_headersDigest st; m_blocksDigest := s_blocksDigest st; m_logsDigest := logsDigest (s_log st);
  m_entriesDigest := digest (JArr (map entryJson (Roster.entries tree))); m_root := Roster.root tree |}.

Definition nextCheckpoint (source : string) (creation : SnapshotReceipt) (cutoffHeight : Z) (cutoff : Block) (st : Scan)
    : SourceReplayCheckpoint := {|
  c_version := 1; c_chainId := pretty (o_chainId options); c_source := source;
  c_deploymentTx := toLowerCase (o_deploymentTx options); c_deploymentBlock := r_blockNumber creation;
  c_blockNumber := cutoffHeight; c_blockHash := hash cutoff; c_blockTimestamp := timestamp cutoff;
  c_receiptsRoot := receiptsRoot cutoff; c_receipts := s_receipts st; c_sourceLogs := sourceLogCount (s_log st);
  c_headersDigest := s_headersDigest st; c_blocksDigest := s_blocksDigest st; c_logsDigest := logsDigest (s_log st);
  c_states := sort_by byAddress (states (lifecycle (s_log st)));
  c_compromiseCutoffs := sort_by byAddress (compromiseCutoffs (lifecycle (s_log st))) |}.

(** The manifest as an object, its constant fields included. *)
Definition manifestFields (m : SourceSnapshotManifest) : list (string * json) :=
  [("version", JNum 2); ("method", JStr "receipt-trie-verified-independent-headers-and-getLogs");
   ("trust", JStr "independent-finalized-header-rpc-plus-cryptographic-receipts-root");
   ("chainId", JStr (m_chainId m)); ("source", JStr (m_source m)); ("deploymentTx", JStr (m_deploymentTx m));
   ("deploymentBlock", JNum (m_deploymentBlock m)); ("deploymentBlockHash", JStr (m_deploymentBlockHash m));
   ("cutoffBlock", JNum (m_cutoffBlock m)); ("cutoffBlockHash", JStr (m_cutoffBlockHash m));
   ("cutoffTimestamp", JNum (m_cutoffTimestamp m)); ("confirmations", JNum (m_confirmations m)); ("blocks", JNum (m_blocks m));
   ("receipts", JNum (m_receipts m)); ("sourceLogs", JNum (m_sourceLogs m)); ("headersDigest", JStr (m_headersDigest m));
   ("blocksDigest", JStr (m_blocksDigest m)); ("logsDigest", JStr (m_logsDigest m)); ("entriesDigest", JStr (m_entriesDigest m));
   ("root", JStr (m_root m))].
(** [===] between a field of an arbitrary object and a number or a string. *)
Definition strictEq (a : option json) (b : json) : bool :=
  match a, b with
  | Some (JStr x), JStr y => String.eqb x y
  | Some (JNum x), JNum y => x =? y
  | _, _ => false
  end.
Definition assertSourceSnapshot (expected : json) (actual : SourceSnapshotManifest) : outcome unit :=
  orequire (match expected with
            | JObj fields => forallb (λ kv, strictEq (dget kv.1 fields) kv.2) (manifestFields actual)
            | _ => false
            end) (EError "source snapshot manifest drift; rebuild and review the plan").

(** The end of the function: the tree, its manifest and the checkpoint handed to the sink. *)
Definition finish (source : string) (creation : SnapshotReceipt) (cutoffHeight : Z) (cutoff : Block) (st : Scan)
    : M W SourceRosterSnapshot :=
  let l := lifecycle (s_log st) in
  let! tree := lift_out (Roster.buildRoster keccak256 getAddress abiEncodeKey abiEncodeMark (rosterEntries l (timestamp cutoff))
                           Roster.EVM_NAMESPACE) in
  match o_checkpointSink options with
  | None => ret tt
  | Some sink => sink (nextCheckpoint source creation cutoffHeight cutoff st)
  end ;;;
  ret {| tree := tree; excluded := excludedSubjects l (timestamp cutoff);
         manifest := manifestOf source creation cutoffHeight cutoff st tree |}.

Definition replayFrom (source : string) (maxBlocks maxReceipts chunk : Z) (cutoffHeight : Z) (creation : SnapshotReceipt) (cutoff : Block)
    (checkpoint : option SourceReplayCheckpoint) : M W SourceRosterSnapshot :=
  let anchorHeight := match checkpoint with Some c => c_blockNumber c | None => r_blockNumber creation - 1 end in
  let! anchors := readBlocks anchorHeight in
  let '(anchor, headerAnchor) := anchors in
  lift_out (assertMatchingHeader anchor headerAnchor) ;;;
  require (match checkpoint with
           | Some c => same (hash anchor) (c_blockHash c) && (timestamp anchor =? c_blockTimestamp c)
                       && same (receiptsRoot anchor) (c_receiptsRoot c)
           | None => true end) (EError "authenticated source checkpoint anchor changed") ;;;
  require (cutoffHeight - anchorHeight <=? maxBlocks) (EError "source snapshot exceeds scan block budget; no partial roster allowed") ;;;
  let! st := foldM (scanChunk source creation cutoff maxReceipts)
    (chunks (Z.to_nat (cutoffHeight - anchorHeight)) (anchorHeight + 1) cutoffHeight chunk)
    (initialScan source anchor checkpoint) in
  confirmSnapshot cutoffHeight cutoff anchor ;;;
  finish source creation cutoffHeight cutoff st.

Definition snapshotWith (source : string) (maxBlocks maxReceipts chunk : Z) : M W SourceRosterSnapshot :=
  let! opened := openSnapshot source in
  let '(cutoffHeight, creation) := opened in
  let! cutoffs := readBlocks cutoffHeight in
  let '(cutoff, headerCutoff) := cutoffs in
  lift_out (assertMatchingHeader cutoff headerCutoff) ;;;
  require (match o_expectedCutoffHash options with
           | Some h => String.eqb h "" || same (hash cutoff) h | None => true end) (EError "approved source cutoff hash changed") ;;;
  let! checkpoint := match o_checkpoint options with
                     | Some c => let! c := lift_out (checkedCheckpoint c source (r_blockNumber creation) cutoffHeight) in ret (Some c)
                     | None => ret None
                     end in
  replayFrom source maxBlocks maxReceipts chunk cutoffHeight creation cutoff checkpoint.
End scan.

Definition buildSourceRoster {W} (reader : SnapshotReader W) (options : SourceSnapshotOptions W) : M W SourceRosterSnapshot :=
  let! source := lift_out (getAddress (o_source options)) in
  let maxBlocks := default 20000 (o_maxBlocks options) in
  let maxReceipts := default 200000 (o_maxReceipts options) in
  let chunk := default 100 (o_logChunk options) in
  require (negb (String.eqb source ZeroAddress) && isHash (o_deploymentTx options) && (0 <? o_chainId options)
           && integer (o_confirmations options) 1 && integer maxBlocks 1 && integer maxReceipts 1 && integer chunk 1 && (chunk <=? 1000)
           && match o_expectedCutoffHash options with Some h => isHash h | None => true end)
    (EError "invalid source snapshot settings") ;;;
  match o_headerReader options with
  | None => throw (EError "independent source header reader required")
  | Some headers =>
      if o_sameReader options then throw (EError "independent source header reader required")
      else snapshotWith reader headers options source maxBlocks maxReceipts chunk
  end.
End source.
End RosterSource.
