(* ===== verification/RosterReplay.v ===== *)
(** What the roster replay of [src/pipeline/roster-source.ts] guarantees: the subjects it lists are exactly
    those whose last lifecycle event before the cutoff leaves them in good standing, whatever the roster
    RPC answers, as long as the independent header source is honest; and a replay continued from a
    checkpoint means the same as one from the deployment. *)

From Stdlib Require Import ZArith Lia Ascii String List.
From stdpp Require Import base decidable option list strings pretty sets list_numbers.
From S2P Require Import Prelude JS Json Roster Attrs ReceiptTrie RosterSource.
Local Open Scope string_scope.
Local Open Scope list_scope.
Local Open Scope Z_scope.

Module RosterReplay.
Import ReceiptTrie RosterSource.

(** * A reference for good standing

    [Since P Q h]: some event with [P] happened after which none with [Q] did. *)

Section since.
Context {A : Type} (P Q : A → Prop).
Definition Since (h : list A) : Prop := ∃ pre x post, h = pre ++ x :: post ∧ P x ∧ Forall (λ y, ¬ Q y) post.

Lemma Since_nil : ¬ Since [].
Proof. by intros ([|? ?] & ? & ? & ? & _). Qed.
Lemma Since_snoc h x : Since (h ++ [x]) ↔ P x ∨ (Since h ∧ ¬ Q x).
Proof.
  split.
  - intros (pre & y & post & Heq & Hy & Hpost). destruct post as [|z post' _] using rev_ind.
    + apply app_inj_tail in Heq as [_ ->]. by left.
    + right. rewrite app_comm_cons, app_assoc in Heq. apply app_inj_tail in Heq as [-> ->].
      apply Forall_app in Hpost as [Hp Hq]. split; [by exists pre, y, post'|]. by apply Forall_cons in Hq as [? _].
  - intros [Hx|[(pre & y & post & -> & Hy & Hp) Hx]].
    + by exists h, x, [].
    + exists pre, y, (post ++ [x]). split_and!; [by rewrite <- app_assoc|done|]. apply Forall_app. by repeat constructor.
Qed.
Lemma Since_some h : Since h → ∃ x, x ∈ h ∧ P x.
Proof. intros (pre & x & post & -> & Hx & _). exists x. split; [set_solver|done]. Qed.
End since.

(** ** Events about a subject *)

(** An event of the source contract with the height of its block. *)
Abbreviation Event := (Z * LifecycleEvent)%type.

Section events.
Context (getAddress : string → outcome string).

Definition about (s : string) (x : Event) : Prop :=
  match x.2 with IssuerKeyCompromised _ _ _ _ => False | ev => getAddress (subjectOf ev) = Ok s end.
Definition isDenial (s : string) (x : Event) : Prop :=
  match x.2 with SanctionDenied a _ _ => getAddress a = Ok s | _ => False end.
Definition isCorrection (s : string) (x : Event) : Prop :=
  match x.2 with SanctionDenialCorrected a _ _ _ _ _ => getAddress a = Ok s | _ => False end.
Definition isRevocation (s : string) (x : Event) : Prop :=
  match x.2 with MarkRevoked a _ _ => getAddress a = Ok s | _ => False end.
Definition isIssuance (s : string) (x : Event) : Prop :=
  match x.2 with MarkIssued a _ _ _ _ | KeyedMarkIssued a _ _ _ _ _ => getAddress a = Ok s | _ => False end.
(** Later events that supersede an issuance. *)
Definition ends (s : string) (x : Event) : Prop := isIssuance s x ∨ isRevocation s x ∨ isCorrection s x.

Definition markEntry (s attrs issuer claimsRoot evidenceHash : string) : Roster.RosterEntry :=
  {| Roster.subject := s; Roster.attrs := toLowerCase attrs; Roster.claimsRoot := toLowerCase claimsRoot;
     Roster.evidenceHash := toLowerCase evidenceHash; Roster.issuer := issuer |}.
(** The event issues entry [e] for subject [s] under key epoch [k] in block [b]. *)
Definition issues (s : string) (e : Roster.RosterEntry) (k b : Z) (x : Event) : Prop :=
  x.1 = b ∧
  match x.2 with
  | MarkIssued a attrs issuer claimsRoot evidenceHash =>
      k = 0 ∧ getAddress a = Ok s ∧ ∃ i, getAddress issuer = Ok i ∧ e = markEntry s attrs i claimsRoot evidenceHash
  | KeyedMarkIssued a attrs issuer epoch claimsRoot evidenceHash =>
      k = epoch ∧ getAddress a = Ok s ∧ ∃ i, getAddress issuer = Ok i ∧ e = markEntry s attrs i claimsRoot evidenceHash
  | _ => False
  end.
(** The event reports that keys of [issuer] in [epoch] cannot be trusted after block [cut]. *)
Definition compromises (issuer : string) (epoch cut : Z) (x : Event) : Prop :=
  ∃ a reason i, x.2 = IssuerKeyCompromised a epoch cut reason ∧ getAddress a = Ok i ∧ toLowerCase i = toLowerCase issuer.

(** A subject in good standing at [now] after the events [hist]: it is issued, nothing later revoked,
    corrected or replaced the issuance, no denial stands uncorrected, the key that issued it was not
    reported compromised from an earlier block on, and the credential is valid at [now]. *)
Record GoodStanding (hist : list Event) (now : Z) (e : Roster.RosterEntry) : Prop := {
  gs_issued : ∃ k b, Since (issues (Roster.subject e) e k b) (ends (Roster.subject e)) hist
                ∧ (k ≠ 0 → ∀ x cut, x ∈ hist → compromises (Roster.issuer e) k cut x → b ≤ cut);
  gs_denied : ¬ Since (isDenial (Roster.subject e)) (isCorrection (Roster.subject e)) hist;
  gs_valid : Attrs.validCredentialAttrs (Roster.attrs e) (Some now) = true }.

(** * The replay computes it *)

Record StateOf (s : string) (hist : list Event) (st : LifecycleState) : Prop := {
  so_denied : denied st = true ↔ Since (isDenial s) (isCorrection s) hist;
  so_standing e k b : (revoked st = false ∧ entry st = Some e ∧ issuerKeyEpoch st = Some k ∧ issueBlock st = Some b)
                        ↔ Since (issues s e k b) (ends s) hist;
  so_shape e : entry st = Some e → (∃ k, issuerKeyEpoch st = Some k) ∧ (∃ b, issueBlock st = Some b) ∧ Roster.subject e = s }.

(** A compromise recorded under [key], of trust that ended before block [b]. *)
Definition hitsKey (key : string) (b : Z) (x : Event) : Prop :=
  ∃ a k c reason i, x.2 = IssuerKeyCompromised a k c reason ∧ getAddress a = Ok i ∧ key = compromiseKey i k ∧ c < b.

Record Summarises (l : Lifecycle) (hist : list Event) : Prop := {
  su_nodup : NoDup (dkeys (states l));
  su_known s : is_Some (dget s (states l)) ↔ ∃ x, x ∈ hist ∧ about s x;
  su_state s : StateOf s hist (default freshState (dget s (states l)));
  su_cutoff_nodup : NoDup (dkeys (compromiseCutoffs l));
  su_cutoff key b : (∃ c, dget key (compromiseCutoffs l) = Some c ∧ c < b)
    ↔ ∃ x, x ∈ hist ∧ hitsKey key b x }.

Lemma about_unique s s' x : about s x → about s' x → s' = s.
Proof. destruct x as [h []]; unfold about; simpl; intros H H'; congruence || done. Qed.

Lemma issues_ends s e k b x : issues s e k b x → ends s x.
Proof. destruct x as [h []]; unfold issues, ends, isIssuance; simpl; intros [_ ?]; try done; left; naive_solver. Qed.

Lemma StateOf_fresh s : StateOf s [] freshState.
Proof.
  split; [|intros e k b|done].
  - split; [done|by intros ?%Since_nil].
  - split; [by intros (? & ? & _)|by intros ?%Since_nil].
Qed.

Lemma StateOf_other s hist st x : ¬ about s x → StateOf s hist st → StateOf s (hist ++ [x]) st.
Proof.
  intros Hx HS.
  assert (¬ isDenial s x ∧ ¬ isCorrection s x ∧ ¬ ends s x ∧ ∀ e k b, ¬ issues s e k b x) as (H1 & H2 & H3 & H4).
  { destruct x as [h []]; unfold about, isDenial, isCorrection, ends, isIssuance, isRevocation, isCorrection, issues in *; simpl in *;
      naive_solver. }
  split; [|intros e k b|apply HS]; rewrite Since_snoc.
  - rewrite (so_denied _ _ _ HS). tauto.
  - rewrite (so_standing _ _ _ HS e k b). specialize (H4 e k b). tauto.
Qed.
End events.

Section lifecycle.
Context (isAddress : string → bool) (getAddress : string → outcome string).
Abbreviation nextState := (nextState isAddress getAddress).
Abbreviation applyEvent := (applyEvent isAddress getAddress).
Abbreviation StateOf := (StateOf getAddress).
Abbreviation Summarises := (Summarises getAddress).

Lemma issued_inv s attrs issuer cr eh keyed epoch h now st st' :
  issued getAddress s attrs issuer cr eh keyed epoch h now st = Ok st' → ∃ i, getAddress issuer = Ok i
  ∧ st' = {| denied := denied st; revoked := false; entry := Some (markEntry s attrs i cr eh);
             issuerKeyEpoch := Some epoch; issueBlock := Some h |}.
Proof. intros (u & _ & (i & Hi & (u' & _ & [= <-])%obind_ok)%obind_ok)%obind_ok. by exists i. Qed.

(** A state set by an issuance of block [h] under key epoch [k]. *)
Lemma StateOf_issued s hist st ev e k h : StateOf s hist st → isIssuance getAddress s (h, ev) →
  (∀ e' k' b', issues getAddress s e' k' b' (h, ev) ↔ e' = e ∧ k' = k ∧ b' = h) → Roster.subject e = s →
  StateOf s (hist ++ [(h, ev)])
    {| denied := denied st; revoked := false; entry := Some e; issuerKeyEpoch := Some k; issueBlock := Some h |}.
Proof.
  intros HS Hiss Hi Hs.
  assert (¬ isDenial getAddress s (h, ev) ∧ ¬ isCorrection getAddress s (h, ev) ∧ ends getAddress s (h, ev)) as (H1 & H2 & H3).
  { split_and!; [| |by left]; destruct ev; unfold isIssuance, isDenial, isCorrection in *; simpl in *; tauto. }
  split; [|intros e' k' b'|intros e' [= <-]; split_and!; eauto]; rewrite Since_snoc; simpl.
  - rewrite (so_denied _ _ _ _ HS). tauto.
  - rewrite Hi. split; [intros (_ & [= <-] & [= <-] & [= <-]); by left|]. intros [(-> & -> & ->)|[_ []]]; done.
Qed.

Lemma nextState_about s hist st st' h now ev : about getAddress s (h, ev) → StateOf s hist st →
  nextState s h now ev st = Ok st' → StateOf s (hist ++ [(h, ev)]) st'.
Proof.
  intros Ha HS Hn. destruct ev as [a attrs issuer cr eh|a attrs issuer ep cr eh|a rc ep|a lv ep|a dr ci rh p q|? ? ? ?];
    unfold about in Ha; cbn [fst snd subjectOf] in Ha; cbn [RosterSource.nextState] in Hn.
  - apply issued_inv in Hn as (i & Hi & ->). apply StateOf_issued; [done|done| |done].
    intros e' k' b'. unfold issues. simpl. split.
    + intros (-> & -> & _ & i' & Hi' & ->). by assert (i' = i) as -> by congruence.
    + intros (-> & -> & ->). split_and!; [done|done|done|]. by exists i.
  - apply issued_inv in Hn as (i & Hi & ->). apply StateOf_issued; [done|done| |done].
    intros e' k' b'. unfold issues. simpl. split.
    + intros (-> & -> & _ & i' & Hi' & ->). by assert (i' = i) as -> by congruence.
    + intros (-> & -> & ->). split_and!; [done|done|done|]. by exists i.
  - injection Hn as <-. split; [|intros e' k' b'|apply HS]; rewrite Since_snoc; simpl.
    + rewrite (so_denied _ _ _ _ HS). unfold isDenial, isCorrection. simpl. tauto.
    + unfold issues, ends, isRevocation. simpl. naive_solver.
  - injection Hn as <-. split; [|intros e' k' b'|apply HS]; rewrite Since_snoc; simpl.
    + unfold isDenial. simpl. tauto.
    + rewrite (so_standing _ _ _ _ HS e' k' b').
      unfold issues, ends, isIssuance, isRevocation, isCorrection. simpl. tauto.
  - apply obind_ok in Hn as (u & _ & [= <-]). split; [|intros e' k' b'|done]; rewrite Since_snoc; simpl.
    + unfold isDenial, isCorrection. simpl. naive_solver.
    + unfold issues, ends, isCorrection. simpl. naive_solver.
  - done.
Qed.

Lemma applyEvent_summarises h now ev l l' hist : applyEvent h now ev l = Ok l' →
  Summarises l hist → Summarises l' (hist ++ [(h, ev)]).
Proof.
  intros Ha HS.
  assert ((∃ a k c reason, ev = IssuerKeyCompromised a k c reason) ∨
    (∀ key b, ¬ hitsKey getAddress key b (h, ev)) ∧ ∃ s st, about getAddress s (h, ev)
      ∧ nextState s h now ev (default freshState (dget s (states l))) = Ok st
      ∧ l' = {| states := dset s st (states l); compromiseCutoffs := compromiseCutoffs l |})
    as [(a & k & c & reason & ->)|(Hk & s & st & Hab & Hn & ->)].
  { destruct ev as [| | | | |a k c reason]; [right..|left; by exists a, k, c, reason];
      (split; [by intros key b (? & ? & ? & ? & ? & ? & _)|]);
      apply obind_ok in Ha as (s & Hs & (u & _ & (st & Hst & [= <-])%obind_ok)%obind_ok); by exists s, st. }
  - apply obind_ok in Ha as (i & Hi & (u & _ & [= <-])%obind_ok).
    assert (∀ s, ¬ about getAddress s (h, IssuerKeyCompromised a k c reason)) as Hna by by intros s [].
    split; simpl; [apply HS| |intros s; apply StateOf_other; [apply Hna|apply HS]|apply dset_NoDup, HS|].
    + intros s. rewrite (su_known _ _ _ HS s). split.
      * intros (x & Hx & Hab). exists x. split; [apply elem_of_app; by left|done].
      * intros (x & [Hx| ->%list_elem_of_singleton]%elem_of_app & Hab); [by exists x|by apply Hna in Hab].
    + intros key b. rewrite dget_dset.
      assert ((∃ x, x ∈ hist ++ [(h, IssuerKeyCompromised a k c reason)] ∧ hitsKey getAddress key b x)
        ↔ (∃ x, x ∈ hist ∧ hitsKey getAddress key b x) ∨ (key = compromiseKey i k ∧ c < b)) as ->.
      { split.
        - intros (x & [Hx| ->%list_elem_of_singleton]%elem_of_app & Hh); [left; by exists x|right].
          destruct Hh as (a' & k' & c' & r' & i' & [= <- <- <- <-] & Hi' & -> & Hlt). by assert (i' = i) as -> by congruence.
        - intros [(x & Hx & Hh)|[-> Hlt]]; [exists x; split; [apply elem_of_app; by left|done]|].
          exists (h, IssuerKeyCompromised a k c reason). split; [apply elem_of_app; right; by left|]. by exists a, k, c, reason, i. }
      rewrite <- (su_cutoff _ _ _ HS key b). destruct (String.eqb_spec key (compromiseKey i k)) as [->|Hne].
      * destruct (dget (compromiseKey i k) (compromiseCutoffs l)) as [prev|]; split.
        -- intros (m & [= <-] & Hm). destruct (Z.min_spec prev c) as [[_ E]|[_ E]]; rewrite E in Hm; [left; by exists prev|by right].
        -- intros [(m & [= <-] & Hm)|[_ Hc]]; (eexists; split; [done|lia]).
        -- intros (m & [= <-] & Hm). by right.
        -- intros [(m & Hm & _)|[_ Hc]]; [done|by exists c].
      * split; [by left|]. intros [?|[? _]]; done.
  - split; simpl; [apply dset_NoDup, HS| | |apply HS|].
    + intros s'. rewrite dget_dset. destruct (String.eqb_spec s' s) as [->|Hne].
      * split; [|done]. intros _. exists (h, ev). split; [apply elem_of_app; right; by left|done].
      * rewrite (su_known _ _ _ HS s'). split.
        -- intros (x & Hx & Hab'). exists x. split; [apply elem_of_app; by left|done].
        -- intros (x & [Hx| ->%list_elem_of_singleton]%elem_of_app & Hab'); [by exists x|].
           by destruct Hne; eapply about_unique.
    + intros s'. rewrite dget_dset. destruct (String.eqb_spec s' s) as [->|Hne].
      * eapply nextState_about; [done|apply HS|done].
      * apply StateOf_other; [|apply HS]. intros Hab'. by destruct Hne; eapply about_unique.
    + intros key b. rewrite (su_cutoff _ _ _ HS key b). split.
      * intros (x & Hx & Hh). exists x. split; [apply elem_of_app; by left|done].
      * intros (x & [Hx| ->%list_elem_of_singleton]%elem_of_app & Hh); [by exists x|by apply Hk in Hh].
Qed.

(** ** From logs to events *)

Section logs.
Context (watched : string → bool) (parseLog : list string → string → outcome (option LifecycleEvent)).
Context (encodeEventLog : LifecycleEvent → outcome (list string * string)).
Abbreviation lifecycleEvent := (lifecycleEvent watched parseLog encodeEventLog).
Abbreviation replayLog := (replayLog isAddress getAddress watched parseLog encodeEventLog).

(** The events among the source's logs of the block at height [h]. *)
Definition eventsOf (h : Z) (logs : list (list string * string)) : list Event :=
  omap (λ log, match lifecycleEvent log.1 log.2 with Ok (Some ev) => Some (h, ev) | _ => None end) logs.

Lemma eventsOf_cons h log logs : eventsOf h (log :: logs) =
  match lifecycleEvent log.1 log.2 with Ok (Some ev) => (h, ev) :: eventsOf h logs | _ => eventsOf h logs end.
Proof. unfold eventsOf. simpl. by destruct (lifecycleEvent log.1 log.2) as [[ev|]|]. Qed.

Lemma replay_summarises h now logs l l' hist :
  ofold (λ log, replayLog h now log.1 log.2) logs l = Ok l' → Summarises l hist → Summarises l' (hist ++ eventsOf h logs).
Proof.
  revert l hist. induction logs as [|log logs IH]; intros l hist.
  - intros [= <-]. unfold eventsOf. simpl. by rewrite app_nil_r.
  - intros (l1 & H1 & H)%obind_ok HS. rewrite eventsOf_cons. unfold RosterSource.replayLog in H1.
    destruct (lifecycleEvent log.1 log.2) as [[ev|]|]; [| |done].
    + change ((h, ev) :: eventsOf h logs) with ([(h, ev)] ++ eventsOf h logs). rewrite app_assoc.
      eapply IH; [done|]. by eapply applyEvent_summarises.
    + injection H1 as <-. by eapply IH.
Qed.
End logs.

(** ** From the state to the roster *)

Context (isAddress20_of : ∀ a x, getAddress a = Ok x → isAddress20 x = true).

Lemma compromiseKey_inj a i b j k k' : getAddress a = Ok i → getAddress b = Ok j →
  compromiseKey i k = compromiseKey j k' → toLowerCase i = toLowerCase j ∧ k = k'.
Proof.
  intros Hi%isAddress20_of Hj%isAddress20_of. unfold compromiseKey.
  assert (∀ x, isAddress20 x = true → String.length x = 42%nat) as Hl.
  { intros x. unfold isAddress20, hexString. repeat (case_match; try done). intros [Hn _]%andb_true_iff.
    apply Nat.eqb_eq in Hn. subst. simpl. by rewrite Hn. }
  intros [H1 H2]%app_str_inj; [|by rewrite !toLowerCase_length, !Hl].
  split; [done|]. rewrite !app_cons_str, !app_nil_str in H2. injection H2 as H2. by apply (inj pretty) in H2.
Qed.

Lemma exclusion_none l hist now s st : Summarises l hist → dget s (states l) = Some st →
  exclusion (compromiseCutoffs l) now st = None ↔ ∃ e, entry st = Some e ∧ Roster.subject e = s ∧ GoodStanding getAddress hist now e.
Proof.
  intros HS Hst. pose proof (su_state _ _ _ HS s) as HT. rewrite Hst in HT. simpl in HT. unfold exclusion. split.
  - destruct (denied st) eqn:Hd; [done|]. destruct (revoked st) eqn:Hr; [done|]. destruct (entry st) as [e|] eqn:He; [|done].
    destruct (so_shape _ _ _ _ HT e He) as ((k & Hk) & (b & Hb) & Hs). rewrite Hk, Hb.
    destruct (match _ with Some _ => _ | None => _ end) eqn:Hc; [done|].
    destruct (Attrs.validCredentialAttrs _ _) eqn:Hv; [intros _|done]. exists e. split_and!; [done|done|]. rewrite <- Hs in *.
    split; [|by rewrite <- (so_denied _ _ _ _ HT), Hd|done]. exists k, b.
    split; [by apply (so_standing _ _ _ _ HT)|]. intros Hk0 x cut Hx (a & reason & i & Hev & Hi & Hl).
    destruct (Z.le_gt_cases b cut) as [|Hlt]; [done|]. apply Z.eqb_neq in Hk0. rewrite Hk0 in Hc.
    destruct (proj2 (su_cutoff _ _ _ HS (compromiseKey (Roster.issuer e) k) b)) as (c & Hc' & Hcb).
    { exists x. split; [done|]. exists a, k, cut, reason, i. split_and!; [done|done| |done].
      unfold compromiseKey. by rewrite Hl. }
    rewrite Hc' in Hc. apply Z.ltb_ge in Hc. lia.
  - intros (e & He & <- & HG). destruct (gs_issued _ _ _ _ HG) as (k & b & Hi & Hcut).
    destruct (proj2 (so_standing _ _ _ _ HT e k b) Hi) as (Hr & _ & Hk & Hb).
    destruct (denied st) eqn:Hd; [by apply (so_denied _ _ _ _ HT), (gs_denied _ _ _ _ HG) in Hd|].
    rewrite Hr, He, Hk, Hb, (gs_valid _ _ _ _ HG). simpl.
    destruct (Z.eqb_spec k 0) as [|Hk0]; [done|].
    destruct (dget (compromiseKey (Roster.issuer e) k) (compromiseCutoffs l)) as [c|] eqn:Hc; [|done].
    destruct (Z.ltb_spec c b) as [Hlt|]; [exfalso|done].
    destruct (proj1 (su_cutoff _ _ _ HS (compromiseKey (Roster.issuer e) k) b)) as (x & Hx & a & k' & c' & r & i & Hev & Hi' & Hkey & Hcb);
      [by exists c|].
    apply Since_some in Hi as ([h ev] & _ & Hiss). assert (∃ j, getAddress j = Ok (Roster.issuer e)) as (j & Hj).
    { destruct ev; unfold issues in Hiss; simpl in Hiss; destruct Hiss as [_ Hiss]; try done;
        destruct Hiss as (_ & _ & j & Hj & ->); by exists issuer. }
    destruct (compromiseKey_inj _ _ _ _ _ _ Hj Hi' Hkey) as [Hl <-].
    assert (b ≤ c'); [|lia]. apply (Hcut Hk0 x c' Hx). by exists a, r, i.
Qed.

Lemma dget_perm {V} (d d' : list (string * V)) : NoDup (dkeys d) → d ≡ₚ d' → ∀ k, dget k d = dget k d'.
Proof.
  intros Hnd Hp k. assert (NoDup (dkeys d')) as Hnd' by (unfold dkeys; by rewrite <- Hp).
  destruct (dget k d) as [v|] eqn:Hk.
  - symmetry. apply elem_dget; [done|]. rewrite <- Hp. by apply dget_elem.
  - symmetry. apply dget_None. rewrite dget_None in Hk. unfold dkeys in *. by rewrite <- Hp.
Qed.

Lemma dget_sort {V} (le : string * V → string * V → bool) (d : list (string * V)) k :
  NoDup (dkeys d) → dget k (sort_by le d) = dget k d.
Proof. intros Hnd. symmetry. apply dget_perm; [done|]. symmetry. apply sort_by_perm. Qed.

(** A checkpoint lists the states and cutoffs in the order of their keys. *)
Lemma Summarises_sorted {le le'} l hist : Summarises l hist →
  Summarises {| states := sort_by le (states l); compromiseCutoffs := sort_by le' (compromiseCutoffs l) |} hist.
Proof.
  intros HS. pose proof (su_nodup _ _ _ HS) as H1. pose proof (su_cutoff_nodup _ _ _ HS) as H2.
  split; simpl; [unfold dkeys; by rewrite sort_by_perm|..].
  - intros s. rewrite dget_sort by done. apply HS.
  - intros s. rewrite dget_sort by done. apply HS.
  - unfold dkeys. by rewrite sort_by_perm.
  - intros key b. rewrite dget_sort by done. apply HS.
Qed.

Context (localeLe : string → string → bool).

Lemma rosterEntries_spec l hist now e : Summarises l hist →
  e ∈ rosterEntries localeLe l now ↔ GoodStanding getAddress hist now e.
Proof.
  intros HS. unfold rosterEntries. rewrite list_elem_of_omap. split.
  - intros ([s st] & Hin & He). rewrite sort_by_perm in Hin. simpl in He.
    pose proof (elem_dget _ _ _ (su_nodup _ _ _ HS) Hin) as Hst.
    destruct (exclusion _ now st) eqn:Hx; [done|]. apply (exclusion_none l hist now s st HS Hst) in Hx as (e' & He' & _ & HG).
    by simplify_eq.
  - intros HG. destruct (gs_issued _ _ _ _ HG) as (k & b & Hi & _).
    destruct (proj2 (so_standing _ _ _ _ (su_state _ _ _ HS (Roster.subject e)) e k b) Hi) as (_ & He & _).
    destruct (dget (Roster.subject e) (states l)) as [st|] eqn:Hst; [|done]. simpl in He.
    exists (Roster.subject e, st). rewrite sort_by_perm. split; [by apply dget_elem|]. simpl.
    rewrite (proj2 (exclusion_none l hist now _ st HS Hst)); [done|]. by exists e.
Qed.

Lemma excludedSubjects_spec l hist now s : Summarises l hist →
  (∃ reason, (s, reason) ∈ excludedSubjects localeLe l now) ↔
  (∃ x, x ∈ hist ∧ about getAddress s x) ∧ ∀ e, GoodStanding getAddress hist now e → Roster.subject e ≠ s.
Proof.
  intros HS. rewrite <- (su_known _ _ _ HS s). unfold excludedSubjects. setoid_rewrite list_elem_of_omap. split.
  - intros (reason & [s' st] & Hin & He). rewrite sort_by_perm in Hin. simpl in He.
    pose proof (elem_dget _ _ _ (su_nodup _ _ _ HS) Hin) as Hst.
    destruct (exclusion _ now st) eqn:Hx; [|done]. injection He as <- <-. split; [by exists st|].
    intros e HG Hs. destruct (gs_issued _ _ _ _ HG) as (k & b & Hi & _). rewrite Hs in Hi.
    pose proof (su_state _ _ _ HS s') as HT. rewrite Hst in HT.
    destruct (proj2 (so_standing _ _ _ _ HT e k b) Hi) as (_ & He & _).
    rewrite (proj2 (exclusion_none l hist now s' st HS Hst)) in Hx; [done|]. by exists e.
  - intros ((st & Hst) & Hno). destruct (exclusion (compromiseCutoffs l) now st) as [reason|] eqn:Hx.
    + exists reason, (s, st). rewrite sort_by_perm. split; [by apply dget_elem|]. simpl. by rewrite Hx.
    + apply (exclusion_none l hist now s st HS Hst) in Hx as (e & _ & Hs & HG). by apply Hno in HG.
Qed.
End lifecycle.

(** * The scan reads what the header commits to *)

(** The chain as the independent header source sees it. *)
Record TrueBlock := {
  tb_timestamp : Z; tb_transactions : list string; tb_receipts : list (SnapshotReceipt * list NormLog) }.

(** The topics and data of the logs of one contract, in receipt order. *)
Definition logsOf (source : string) (receipts : list Committed) : list (list string * string) :=
  concat (map (λ r, omap (λ log, if String.eqb log.1.1 (toLowerCase source) then Some (log.1.2, log.2) else None) (c_logs r)) receipts).
Definition commitments (rs : list (SnapshotReceipt * list NormLog)) : list Committed := map (λ r, committed r.1 r.2) rs.

Section scan.
Context `{E : Ethers} `{L : !EthersLaws E}.
Context (isAddress : string → bool) (getAddress_ : string → outcome string) (toUtf8Bytes : string → string).
Context (watched : string → bool) (parseLog : list string → string → outcome (option LifecycleEvent)).
Context (encodeEventLog : LifecycleEvent → outcome (list string * string)).
Context {W : Type} (reader : SnapshotReader W) (headers : SnapshotHeaderReader W) (options : SourceSnapshotOptions W).
Context (truth : Z → TrueBlock).

Abbreviation replayLog := (replayLog isAddress getAddress_ watched parseLog encodeEventLog).
Abbreviation replayLogs h now := (ofold (λ log : list string * string, replayLog h now log.1 log.2)).

(** A header that tells the truth about its height: its transactions, and the root of its receipts. *)
Definition Agrees (b : Block) (t : TrueBlock) : Prop :=
  timestamp b = tb_timestamp t ∧ map toLowerCase (transactions b) = tb_transactions t
  ∧ ∃ root, computeReceiptsRoot (indexed (tb_receipts t)) = Ok root ∧ same root (receiptsRoot b) = true.
Definition HonestHeaders : Prop := ∀ h value b,
  answered (h_getBlock headers (Height h)) value → checkedBlock value (Some h) = Ok b → Agrees b (truth h).

(** Receipts the roster RPC may answer for the transactions of a block. *)
Definition Candidate (t : TrueBlock) (rs : list (SnapshotReceipt * list NormLog)) : Prop :=
  Forall2 (λ tx r, ∃ tx', toLowerCase tx' = tx ∧ answered (getTransactionReceipt reader tx') (Some r.1)
                          ∧ omap_out (λ log, normalizedLog isAddress log true) (r_logs r.1) = Ok r.2) (tb_transactions t) rs.
Definition NoForgery : Prop := ∀ h rs, Candidate (truth h) rs →
  Roster.NoCollision keccak256 (rootTexts (indexed rs) ++ rootTexts (indexed (tb_receipts (truth h)))).

Lemma normalizedLog_lower log fromReceipt n : normalizedLog isAddress log fromReceipt = Ok n →
  toLowerCase (address n) = address n ∧ map toLowerCase (topics n) = topics n ∧ toLowerCase (data n) = data n.
Proof.
  intros (u & _ & [= <-])%obind_ok. simpl. rewrite !toLowerCase_idem, map_map. split_and!; [done| |done].
  apply map_ext. intros. apply toLowerCase_idem.
Qed.

(** The logs of one receipt: only those of the source are replayed. *)
Lemma scanLogs_replay source block h i tx logs st st' :
  Forall (λ n, toLowerCase (address n) = address n ∧ map toLowerCase (topics n) = topics n ∧ toLowerCase (data n) = data n) logs →
  ofold (scanLog isAddress getAddress_ toUtf8Bytes watched parseLog encodeEventLog source block h i tx) logs st = Ok st' →
  ∀ r, replayLogs h (timestamp block) (logsOf source [committed r logs]) (lifecycle st) = Ok (lifecycle st').
Proof.
  intros Hl H r. unfold logsOf. simpl. rewrite app_nil_r. revert st H.
  induction Hl as [|log logs (Ha & Ht & Hd) _ IH]; intros st; [by intros [= <-]|].
  intros (st1 & H1 & H)%obind_ok. apply IH in H. cbn [map omap list_omap fst snd]. rewrite Ha, Ht, Hd.
  apply obind_ok in H1 as (u & _ & H1). destruct (String.eqb (address log) (toLowerCase source)); cbn [negb] in H1.
  - apply obind_ok in H1 as (l & Hr & [= <-]). simpl in *. by rewrite Hr.
  - by injection H1 as <-.
Qed.

Lemma logsOf_app source a b : logsOf source (a ++ b) = logsOf source a ++ logsOf source b.
Proof. unfold logsOf. by rewrite map_app, concat_app. Qed.

Lemma commitments_snoc rs r : commitments (rs ++ [r]) = commitments rs ++ [committed r.1 r.2].
Proof. unfold commitments. by rewrite map_app. Qed.

Lemma indexed_app rs r : indexed (rs ++ [r]) = indexed rs ++ [(Z.of_nat (length rs), r.1, r.2)].
Proof. unfold indexed. by rewrite imap_app; simpl; rewrite Nat.add_0_r. Qed.

(** The transactions of one block. *)
Record Scanned (source : string) (block : Block) (h : Z) (l0 : Lifecycle) (visited : list (Z * string)) (t : TxSt)
    (rs : list (SnapshotReceipt * list NormLog)) : Prop := {
  sd_receipts : blockReceipts t = indexed rs;
  sd_read : Forall2 (λ tx r, answered (getTransactionReceipt reader tx.2) (Some r.1)
                             ∧ omap_out (λ log, normalizedLog isAddress log true) (r_logs r.1) = Ok r.2) visited rs;
  sd_replay : replayLogs h (timestamp block) (logsOf source (commitments rs)) l0 = Ok (lifecycle (t_log t)) }.

Lemma entriesOf_at {A} (txs : list A) visited x rest : entriesOf txs = visited ++ x :: rest → x.1 = Z.of_nat (length visited).
Proof.
  intros H. assert (entriesOf txs !! length visited = Some x) as Hx by (rewrite H; by apply list_lookup_middle).
  unfold entriesOf in Hx. rewrite list_lookup_imap in Hx. destruct (txs !! length visited); [|done]. by injection Hx as <-.
Qed.

Lemma scanTransactions_spec source maxReceipts block h t0 w :
  blockReceipts t0 = [] →
  wp (foldM (scanTransaction isAddress getAddress_ toUtf8Bytes watched parseLog encodeEventLog reader source maxReceipts block h)
       (entriesOf (transactions block)) t0)
    (λ o _, ∀ t, o = Ok t → ∃ rs, Scanned source block h (lifecycle (t_log t0)) (entriesOf (transactions block)) t rs) w.
Proof.
  intros H0. apply (wp_foldM (λ visited t, ∃ rs, Scanned source block h (lifecycle (t_log t0)) visited t rs)).
  - exists []. by split.
  - intros visited [i tx] rest t w' Hall [rs HS]. unfold scanTransaction.
    apply wp_bind, wp_require; intros _; [|done]. apply wp_bind, wp_read; [|done]. intros [receipt|] w1 Hr; [|by apply wp_throw].
    apply wp_bind, wp_require; intros _; [|done].
    apply wp_bind, wp_lift_out. destruct (omap_out _ (r_logs receipt)) as [logs|] eqn:Hlogs; [|done].
    apply wp_bind, wp_lift_out. destruct (ofold _ logs (t_log t)) as [l|] eqn:Hl; [|done]. apply wp_ret.
    exists (rs ++ [(receipt, logs)]). pose proof (Forall2_length _ _ _ (sd_read _ _ _ _ _ _ _ HS)) as Hlen.
    apply entriesOf_at in Hall. simpl in Hall. split; simpl.
    + by rewrite (sd_receipts _ _ _ _ _ _ _ HS), indexed_app, Hall, Hlen.
    + apply Forall2_app; [apply HS|]. by repeat constructor.
    + rewrite commitments_snoc, logsOf_app, ofold_app, (sd_replay _ _ _ _ _ _ _ HS). simpl.
      eapply scanLogs_replay; [|exact Hl]. apply omap_out_Forall2 in Hlogs.
      clear -Hlogs. induction Hlogs as [|a b la lb Hab _ IH]; constructor; [by eapply normalizedLog_lower|done].
  - intros t w' HS t' [= <-]. done.
Qed.

Lemma strings_inj l m : jsonText (strings l) = jsonText (strings m) → l = m.
Proof.
  unfold jsonText. intros H. assert (∀ l, Json.visible (strings l) = strings l) as Hv.
  { intros k. unfold strings. simpl. f_equal. rewrite map_map. by apply map_ext. }
  assert (Json.stringify (strings l) = Json.stringify (strings m)) as Heq by (cbn in *; congruence).
  destruct (Json.stringify (strings l)) as [a|] eqn:Ha; [|done]. symmetry in Heq.
  pose proof (Json.stringify_inj _ _ _ Ha Heq) as Hvis. rewrite !Hv in Hvis. injection Hvis as Hm.
  clear -Hm. revert m Hm. induction l as [|x l IH]; intros [|y m]; [done..|]. intros [= -> H]. f_equal. by apply IH.
Qed.

Lemma same_trans a b c : same a b = true → same b c = true → same a c = true.
Proof. unfold same. rewrite !String.eqb_eq. congruence. Qed.

Lemma matching_agrees u b hb t : assertMatchingHeader b hb = Ok u → Agrees hb t → Agrees b t.
Proof.
  intros H%orequire_ok (Ht & Htx & root & Hroot & Hs). rewrite !andb_true_iff in H.
  destruct H as (((((_ & _) & _) & H1) & H2) & H3). apply Z.eqb_eq in H1. apply String.eqb_eq, strings_inj in H3.
  split_and!; [congruence|congruence|]. exists root. split; [done|]. eapply same_trans; [exact Hs|].
  unfold same in *. rewrite String.eqb_eq in *. done.
Qed.

Context (honest : HonestHeaders) (noForgery : NoForgery).

(** Reading a height on both sides and comparing the answers. *)
Lemma readBlocks_agree {A} h (k : Block → M W A) (Q : outcome A → W → Prop) w :
  (∀ b w', Agrees b (truth h) → number b = h → wp (k b) Q w') → (∀ e w', Q (Throw e) w') →
  wp (let! bs := readBlocks reader headers h in
      let '(block, header) := bs in lift_out (assertMatchingHeader block header) ;;; k block) Q w.
Proof.
  intros Hk Hth. apply wp_bind. unfold readBlocks.
  apply wp_bind, wp_read; [|done]. intros value w1 _. apply wp_bind, wp_read; [|done]. intros hvalue w2 Hh.
  apply wp_bind, wp_lift_out. destruct (checkedBlock value (Some h)) as [b|] eqn:Hb; [|done].
  apply wp_bind, wp_lift_out. destruct (checkedBlock hvalue (Some h)) as [hb|] eqn:Hhb; [|done].
  apply wp_ret, wp_bind, wp_lift_out. destruct (assertMatchingHeader b hb) as [u|] eqn:Hm; [|done].
  apply Hk; [by eapply matching_agrees; [|by eapply honest]|].
  destruct value as [[n [hs|] p ts txs [rr|]]|]; try done. apply obind_ok in Hb as (u' & Hc%orequire_ok & [= <-]).
  rewrite !andb_true_iff in Hc. destruct Hc as (((((((_ & Hn) & _) & _) & _) & _) & _) & _). by apply Z.eqb_eq in Hn.
Qed.

Lemma root_word rs root : computeReceiptsRoot rs = Ok root → toLowerCase root = root.
Proof.
  assert (∀ e, toLowerCase (keccak256 e) = keccak256 e) as Hk by (intros e; exact (hexString_lower_fix 64 _ (keccak_word e))).
  destruct rs as [|r rs]; [intros (e & _ & [= <-])%obind_ok; apply Hk|].
  intros (items & _ & (node & _ & (e & _ & [= <-])%obind_ok)%obind_ok)%obind_ok. apply Hk.
Qed.

(** What the header source says the source contract logged at height [h], replayed. *)
Definition truthLogs (source : string) (h : Z) : list (list string * string) := logsOf source (commitments (tb_receipts (truth h))).
Definition replayHeights (source : string) (hs : list Z) : Lifecycle → outcome Lifecycle :=
  ofold (λ h, replayLogs h (tb_timestamp (truth h)) (truthLogs source h)) hs.

Lemma entriesOf_snd {A} (l : list A) : map snd (entriesOf l) = l.
Proof.
  unfold entriesOf. apply list_eq. intros i. rewrite list_lookup_fmap, list_lookup_imap. by destruct (l !! i).
Qed.

(** The transaction of the deployment is one of the chain's, at the height [h]. *)
Definition DeployedAt (tx : string) (h : Z) : Prop := toLowerCase tx ∈ tb_transactions (truth h).
Definition Replayed (source : string) (creation : SnapshotReceipt) (hs : list Z) (st st' : Scan) : Prop :=
  replayHeights source hs (lifecycle (s_log st)) = Ok (lifecycle (s_log st'))
  ∧ (r_blockNumber creation ∈ hs → DeployedAt (o_deploymentTx options) (r_blockNumber creation)).

Lemma Replayed_app source creation a b st st1 st2 : Replayed source creation a st st1 → Replayed source creation b st1 st2 →
  Replayed source creation (a ++ b) st st2.
Proof.
  intros [H1 D1] [H2 D2]. split; [|by intros [?|?]%elem_of_app; auto]. unfold replayHeights in *. rewrite ofold_app, H1. exact H2.
Qed.
Lemma Replayed_nil source creation st : Replayed source creation [] st st.
Proof. split; [done|]. by intros ?%elem_of_nil. Qed.

Lemma scanBlock_spec source creation cutoff maxReceipts h st w :
  wp (scanBlock isAddress getAddress_ toUtf8Bytes watched parseLog encodeEventLog reader headers options source creation cutoff maxReceipts h st)
    (λ o _, ∀ st', o = Ok st' → Replayed source creation [h] st st') w.
Proof.
  unfold scanBlock. apply readBlocks_agree; [|done]. intros block w1 (Hts & Htx & root & Hroot & Hs) _.
  apply wp_bind, wp_require; intros _; [|done]. apply wp_bind.
  eapply wp_mono; [by apply scanTransactions_spec|]. intros [t|e] w2 HS; [|done]. destruct (HS t eq_refl) as [rs HR]. clear HS.
  apply wp_bind, wp_lift_out. destruct (computeReceiptsRoot (blockReceipts t)) as [root'|] eqn:Hroot'; [|done].
  apply wp_bind, wp_require; intros Hs'; [|done]. apply wp_bind, wp_require; intros Hdep; [|done]. apply wp_ret.
  intros st' [= <-]. split; cycle 1.
  { intros E1%list_elem_of_singleton. rewrite E1, Z.eqb_refl in *. simpl in Hdep. unfold DeployedAt. rewrite <- Htx.
    destruct (transactions block !! Z.to_nat (r_index creation)) as [tx|] eqn:Hat; [|done]. apply andb_true_iff in Hdep as [_ Hsame].
    apply String.eqb_eq in Hsame. rewrite <- Hsame. apply list_elem_of_fmap_2. by eapply list_elem_of_lookup_2. }
  simpl. rewrite (sd_receipts _ _ _ _ _ _ _ HR) in Hroot'.
  assert (root' = root) as ->.
  { rewrite <- (root_word _ _ Hroot), <- (root_word _ _ Hroot'). unfold same in *. rewrite String.eqb_eq in *. congruence. }
  assert (commitments rs = commitments (tb_receipts (truth h))) as Heq.
  { apply (root_committed rs _ root Hroot' Hroot), noForgery. unfold Candidate. rewrite <- Htx, <- (entriesOf_snd (transactions block)).
    apply Forall2_fmap_l, Forall2_fmap_l. eapply Forall2_impl; [apply (sd_read _ _ _ _ _ _ _ HR)|].
    intros [i tx] r [Hr Hn]. by exists tx. }
  pose proof (sd_replay _ _ _ _ _ _ _ HR) as Hrep. rewrite Heq, Hts in Hrep. simpl in Hrep.
  unfold replayHeights, truthLogs. simpl. by rewrite Hrep.
Qed.

Lemma scanHeights_spec source creation cutoff maxReceipts hs st w :
  wp (foldM (scanBlock isAddress getAddress_ toUtf8Bytes watched parseLog encodeEventLog reader headers options source creation cutoff maxReceipts) hs st)
    (λ o _, ∀ st', o = Ok st' → Replayed source creation hs st st') w.
Proof.
  apply (wp_foldM (λ visited st', Replayed source creation visited st st')).
  - apply Replayed_nil.
  - intros visited h rest st1 w1 _ Hv. eapply wp_mono; [apply scanBlock_spec|]. intros [st2|e] w2 Hb; [|done].
    eapply Replayed_app; [exact Hv|by apply Hb].
  - intros st1 w1 Hst st2 [= <-]. done.
Qed.

Lemma scanChunks_spec source creation cutoff maxReceipts ranges st w :
  wp (foldM (scanChunk isAddress getAddress_ toUtf8Bytes watched parseLog encodeEventLog reader headers options source creation cutoff maxReceipts) ranges st)
    (λ o _, ∀ st', o = Ok st' → Replayed source creation (concat (map (λ r, heights r.1 r.2) ranges)) st st') w.
Proof.
  apply (wp_foldM (λ visited st', Replayed source creation (concat (map (λ r, heights r.1 r.2) visited)) st st')).
  - apply Replayed_nil.
  - intros visited [from to_] rest st1 w1 _ Hv. unfold scanChunk. apply wp_bind.
    eapply wp_mono; [apply scanHeights_spec|]. intros [st2|e] w2 Hb; [|done].
    apply wp_bind, wp_read; [|done]. intros raw w3 _.
    apply wp_bind, wp_lift_out. destruct (omap_out _ raw) as [logs|]; [|done].
    apply wp_bind, wp_require; intros _; [|done]. apply wp_ret.
    rewrite map_app, concat_app. eapply Replayed_app; [exact Hv|]. simpl. rewrite app_nil_r. by apply Hb.
  - intros st1 w1 Hst st2 [= <-]. done.
Qed.

Lemma heights_split from mid to_ : from ≤ mid + 1 → mid ≤ to_ → heights from to_ = heights from mid ++ heights (mid + 1) to_.
Proof.
  intros H1 H2. unfold heights. replace (to_ - from + 1) with ((mid - from + 1) + (to_ - (mid + 1) + 1)) by lia.
  rewrite seqZ_app by lia. do 2 f_equal. lia.
Qed.

(** The chunks cover the range: the number of heights is fuel enough. *)
Lemma chunks_cover fuel from cutoffHeight chunk : 1 ≤ chunk → cutoffHeight - from + 1 ≤ Z.of_nat fuel →
  concat (map (λ r, heights r.1 r.2) (chunks fuel from cutoffHeight chunk)) = heights from cutoffHeight.
Proof.
  intros Hc. revert from. induction fuel as [|fuel IH]; intros from Hf; simpl.
  - unfold heights. by rewrite (seqZ_nil from) by lia.
  - destruct (Z.leb_spec from cutoffHeight) as [Hle|Hlt]; [|unfold heights; by rewrite (seqZ_nil from) by lia].
    simpl. rewrite IH by lia. destruct (Z.min_spec (from + chunk - 1) cutoffHeight) as [[Hm ->]|[Hm ->]].
    + rewrite (heights_split from (from + chunk - 1) cutoffHeight) by lia. do 2 f_equal. lia.
    + unfold heights. rewrite (seqZ_nil (from + chunk)) by lia. by rewrite app_nil_r.
Qed.

(** The lifecycle events of the source contract in the blocks of a range. *)
Definition history (source : string) (from to_ : Z) : list Event :=
  concat (map (λ h, eventsOf watched parseLog encodeEventLog h (truthLogs source h)) (heights from to_)).

Lemma replayHeights_summarises source hs l l' hist : replayHeights source hs l = Ok l' → Summarises getAddress_ l hist →
  Summarises getAddress_ l' (hist ++ concat (map (λ h, eventsOf watched parseLog encodeEventLog h (truthLogs source h)) hs)).
Proof.
  revert l hist. induction hs as [|h hs IH]; intros l hist; [intros [= <-]; simpl; by rewrite app_nil_r|].
  intros (l1 & H1 & H)%obind_ok HS. simpl. rewrite app_assoc. eapply IH; [exact H|]. by eapply replay_summarises.
Qed.

Lemma history_split source from mid to_ : from ≤ mid + 1 → mid ≤ to_ →
  history source from to_ = history source from mid ++ history source (mid + 1) to_.
Proof. intros H1 H2. unfold history. by rewrite (heights_split from mid to_), map_app, concat_app by done. Qed.

Lemma Summarises_nil : Summarises getAddress_ {| states := []; compromiseCutoffs := [] |} [].
Proof.
  split; simpl; [constructor| |intros s; apply StateOf_fresh|constructor|].
  - intros s. split; [by intros [? ?]|by intros (x & ?%elem_of_nil & _)].
  - intros key b. split; [by intros (? & ? & _)|by intros (x & ?%elem_of_nil & _)].
Qed.

(** A checkpoint whose states are those after the events up to its block, from the block of the deployment. *)
Definition Faithful (c : SourceReplayCheckpoint) : Prop :=
  DeployedAt (c_deploymentTx c) (c_deploymentBlock c) ∧ Summarises getAddress_ {| states := c_states c; compromiseCutoffs := c_compromiseCutoffs c |}
    (history (c_source c) (c_deploymentBlock c) (c_blockNumber c)).

Context (abiEncodeKey : string → string → string) (abiEncodeMark : string → string → string → string → outcome string).
Context (localeLe : string → string → bool).
Context (isAddress20_of : ∀ a x, getAddress_ a = Ok x → isAddress20 x = true).

(** What a snapshot says of the chain. *)
Record Correct (s : SourceRosterSnapshot) (w' : W) : Prop := {
  (** The chain has the deployment's transaction in the block the history starts with, and the RPC has a
      receipt that says that it succeeded there and created the source contract. *)
  cor_deployed : DeployedAt (o_deploymentTx options) (m_deploymentBlock (manifest s))
    ∧ m_deploymentBlock (manifest s) ≤ m_cutoffBlock (manifest s);
  cor_receipt : ∃ r a, answered (getTransactionReceipt reader (o_deploymentTx options)) (Some r) ∧ r_status r = Some 1
    ∧ toLowerCase (r_hash r) = toLowerCase (o_deploymentTx options) ∧ r_contractAddress r = Some a
    ∧ toLowerCase a = toLowerCase (m_source (manifest s)) ∧ r_blockNumber r = m_deploymentBlock (manifest s)
    ∧ r_blockHash r = m_deploymentBlockHash (manifest s);
  cor_time : m_cutoffTimestamp (manifest s) = tb_timestamp (truth (m_cutoffBlock (manifest s)));
  cor_entries e : e ∈ Roster.entries (tree s) ↔
    GoodStanding getAddress_ (history (m_source (manifest s)) (m_deploymentBlock (manifest s)) (m_cutoffBlock (manifest s)))
      (m_cutoffTimestamp (manifest s)) e;
  cor_excluded subject : (∃ reason, (subject, reason) ∈ excluded s) ↔
    (∃ x, x ∈ history (m_source (manifest s)) (m_deploymentBlock (manifest s)) (m_cutoffBlock (manifest s))
          ∧ about getAddress_ subject x)
    ∧ ∀ e, GoodStanding getAddress_ (history (m_source (manifest s)) (m_deploymentBlock (manifest s)) (m_cutoffBlock (manifest s)))
             (m_cutoffTimestamp (manifest s)) e → Roster.subject e ≠ subject;
  cor_root : m_root (manifest s) = Roster.root (tree s);
  (** The last effect is the sink's, if there is one, on a faithful checkpoint of the cutoff block. *)
  cor_sink sink : o_checkpointSink options = Some sink → ∃ c w, sink c w = (Ok tt, w') ∧ Faithful c
    ∧ c_blockNumber c = m_cutoffBlock (manifest s) ∧ c_deploymentBlock c = m_deploymentBlock (manifest s)
    ∧ c_source c = m_source (manifest s) }.

(** What the RPC said of the deployment. *)
Definition Creation (source : string) (r : SnapshotReceipt) : Prop :=
  answered (getTransactionReceipt reader (o_deploymentTx options)) (Some r) ∧ r_status r = Some 1
  ∧ toLowerCase (r_hash r) = toLowerCase (o_deploymentTx options)
  ∧ ∃ a, r_contractAddress r = Some a ∧ toLowerCase a = toLowerCase source.

Lemma snapshot_finish_spec source creation cutoffHeight cutoff st w :
  Summarises getAddress_ (lifecycle (s_log st)) (history source (r_blockNumber creation) cutoffHeight) →
  timestamp cutoff = tb_timestamp (truth cutoffHeight) →
  Creation source creation → DeployedAt (o_deploymentTx options) (r_blockNumber creation) → r_blockNumber creation ≤ cutoffHeight →
  wp (finish getAddress_ toUtf8Bytes abiEncodeKey abiEncodeMark localeLe options source creation cutoffHeight cutoff st)
    (λ o w', ∀ s, o = Ok s → Correct s w') w.
Proof.
  intros HS Ht (Hans & Hst & Hhash & a & Ha & Hsrc) Hdep Hle. unfold finish. apply wp_bind, wp_lift_out.
  destruct (Roster.buildRoster _ _ _ _ _ _) as [t|] eqn:Hb; [|done].
  destruct (Roster.buildRoster_inv _ _ _ _ keccak_word _ _ _ Hb) as [_ Hp].
  set (c := nextCheckpoint localeLe options source creation cutoffHeight cutoff st).
  assert (∀ w', (∀ sink, o_checkpointSink options = Some sink → ∃ w, sink c w = (Ok tt, w')) →
    Correct {| tree := t; excluded := excludedSubjects localeLe (lifecycle (s_log st)) (timestamp cutoff);
               manifest := manifestOf toUtf8Bytes options source creation cutoffHeight cutoff st t |} w') as Hcor.
  { intros w' Hsink. split; simpl; [done|by exists creation, a|done| | |done|].
    - intros e. rewrite Hp. by apply rosterEntries_spec.
    - intros subject. by apply excludedSubjects_spec.
    - intros sink Hk. destruct (Hsink sink Hk) as [w1 Hw]. exists c, w1. split; [done|]. split_and!; [|done|done|done].
      unfold Faithful, c. simpl. split; [|by apply Summarises_sorted]. unfold DeployedAt in *. by rewrite toLowerCase_idem. }
  destruct (o_checkpointSink options) as [sink|].
  - apply wp_bind. unfold wp at 1. destruct (sink c w) as [[[]|e] w'] eqn:Hrun; [|done]. apply wp_ret. intros s [= <-]. simpl.
    apply Hcor. intros sink' [= <-]. by exists w.
  - apply wp_bind, wp_ret, wp_ret. intros s [= <-]. by apply Hcor.
Qed.

Lemma replayFrom_spec source maxBlocks maxReceipts chunk cutoffHeight creation cutoff checkpoint w :
  1 ≤ chunk → r_blockNumber creation ≤ cutoffHeight → timestamp cutoff = tb_timestamp (truth cutoffHeight) → Creation source creation →
  (∀ c, checkpoint = Some c → Faithful c ∧ c_source c = source ∧ c_deploymentBlock c = r_blockNumber creation
        ∧ c_deploymentTx c = toLowerCase (o_deploymentTx options)
        ∧ r_blockNumber creation ≤ c_blockNumber c ≤ cutoffHeight) →
  wp (replayFrom isAddress getAddress_ toUtf8Bytes abiEncodeKey abiEncodeMark watched parseLog encodeEventLog localeLe
        reader headers options source maxBlocks maxReceipts chunk cutoffHeight creation cutoff checkpoint)
    (λ o w', ∀ s, o = Ok s → Correct s w') w.
Proof.
  intros Hchunk Hcr Ht Hcreation Hck. unfold replayFrom. apply readBlocks_agree; [|done]. intros anchor w1 _ _.
  apply wp_bind, wp_require; intros _; [|done]. apply wp_bind, wp_require; intros _; [|done].
  set (anchorHeight := match checkpoint with Some c => c_blockNumber c | None => r_blockNumber creation - 1 end).
  apply wp_bind. eapply wp_mono; [apply scanChunks_spec|]. intros [st|e] w2 Hst; [|done]. destruct (Hst st eq_refl) as [Hrep Hdep].
  clear Hst. rewrite chunks_cover in Hrep, Hdep by lia. assert (DeployedAt (o_deploymentTx options) (r_blockNumber creation)) as Hdeployed.
  { destruct checkpoint as [c|]; simpl in anchorHeight.
    - destruct (Hck c eq_refl) as ([HD _] & _ & <- & Etx & _). unfold DeployedAt in *. rewrite Etx in HD. by rewrite toLowerCase_idem in HD.
    - apply Hdep. unfold heights. apply elem_of_seqZ. unfold anchorHeight. lia. }
  apply wp_bind, wp_read; [|done]. intros [] w3 _. apply snapshot_finish_spec; [|done|done|done|done].
  assert (∃ hist, Summarises getAddress_ (lifecycle (s_log (initialScan toUtf8Bytes options source anchor checkpoint))) hist
    ∧ history source (r_blockNumber creation) cutoffHeight = hist ++ history source (anchorHeight + 1) cutoffHeight)
    as (hist & HS & ->); [|by eapply replayHeights_summarises].
  destruct checkpoint as [c|]; simpl in anchorHeight.
  - destruct (Hck c eq_refl) as ([_ HF] & Hs & Hd & _ & Hb & Hb'). eexists. split; [exact HF|]. rewrite Hs, Hd.
    apply history_split; unfold anchorHeight; lia.
  - exists []. split; [apply Summarises_nil|]. unfold anchorHeight. simpl. f_equal. lia.
Qed.

Lemma checkedCheckpoint_inv value source d cutoffHeight c :
  checkedCheckpoint isAddress getAddress_ options value source d cutoffHeight = Ok c →
  c = value ∧ c_source c = source ∧ c_deploymentBlock c = d ∧ c_deploymentTx c = toLowerCase (o_deploymentTx options)
  ∧ d ≤ c_blockNumber c ≤ cutoffHeight.
Proof.
  intros (u & H%orequire_ok & [= <-])%obind_ok. rewrite !andb_true_iff in H.
  destruct H as ((((((((((((((((((_ & _) & H1) & H5) & H2) & H3) & H4) & _) & _) & _) & _) & _) & _) & _) & _) & _) & _) & _) & _).
  apply String.eqb_eq in H1, H5. apply Z.eqb_eq in H2. unfold integer in H3. apply andb_true_iff in H3 as [_ H3].
  apply Z.leb_le in H3, H4. done.
Qed.

Lemma openSnapshot_spec source (Q : outcome (Z * SnapshotReceipt) → W → Prop) w :
  (∀ cutoffHeight creation w', r_blockNumber creation ≤ cutoffHeight → Creation source creation → Q (Ok (cutoffHeight, creation)) w') →
  (∀ e w', Q (Throw e) w') → wp (openSnapshot reader headers options source) Q w.
Proof.
  intros HQ Hth. unfold openSnapshot. do 3 (apply wp_bind, wp_read; [intros ? ? _|done]).
  apply wp_bind, wp_read; [intros receipt ? Hans|done]. do 3 (apply wp_bind, wp_read; [intros ? ? _|done]).
  do 2 (apply wp_bind, wp_lift_out; match goal with |- match ?o with _ => _ end => destruct o; [|done] end).
  do 2 (apply wp_bind, wp_require; intros _; [|done]).
  destruct receipt as [creation|]; [|by apply wp_throw].
  apply wp_bind, wp_require; intros Hc; [|done]. rewrite !andb_true_iff in Hc. destruct Hc as (((((H1 & H2) & H3) & _) & Hc) & _).
  apply Z.leb_le in Hc. apply wp_ret, HQ; [done|]. apply bool_decide_eq_true in H1. apply String.eqb_eq in H2.
  destruct (r_contractAddress creation) as [ca|] eqn:Hca; [|done]. apply String.eqb_eq in H3. split_and!; [done..|]. by exists ca.
Qed.

Lemma snapshotWith_spec source maxBlocks maxReceipts chunk w : 1 ≤ chunk →
  (∀ c, o_checkpoint options = Some c → Faithful c) →
  wp (snapshotWith isAddress getAddress_ toUtf8Bytes abiEncodeKey abiEncodeMark watched parseLog encodeEventLog localeLe
        reader headers options source maxBlocks maxReceipts chunk) (λ o w', ∀ s, o = Ok s → Correct s w') w.
Proof.
  intros Hchunk HF. unfold snapshotWith. apply wp_bind, openSnapshot_spec; [|done]. intros cutoffHeight creation w1 Hcr Hcreation.
  apply readBlocks_agree; [|done]. intros cutoff w2 (Ht & _) _. apply wp_bind, wp_require; intros _; [|done]. apply wp_bind.
  destruct (o_checkpoint options) as [value|].
  - apply wp_bind, wp_lift_out. destruct (checkedCheckpoint _ _ _ _ _ _ _) as [c|] eqn:Hc; [|done]. apply wp_ret.
    apply checkedCheckpoint_inv in Hc as (-> & Hs & Hd & Htx & Hb). apply replayFrom_spec; [done|done|done|done|].
    intros c [= <-]. split_and!; [by apply HF|done|done|done|lia|lia].
  - apply wp_ret. by apply replayFrom_spec.
Qed.
End scan.
End RosterReplay.

Module RosterReplayProofs.
Import ReceiptTrie RosterSource RosterReplay.

(** C10. A roster built from the source chain is the roster of the chain, whatever
    the roster RPC answers: as long as the independent headers are those of the chain
    and receipts that the RPC could answer do not collide with the chain's under the
    hash, every snapshot that is returned starts at a block of the chain that holds the
    deployment's transaction, for which the RPC has a receipt of success that creates
    the source contract there; it lists exactly the subjects in good standing after all
    lifecycle events from that block to the cutoff block, at that block's time, excludes
    every other subject that occurs in an event, and hands the sink a checkpoint that
    summarises those events; from such a checkpoint a later replay is as good as one
    from the deployment. *)
Theorem source_roster_correct `{E : Ethers} `{L : !EthersLaws E}
    (isAddress : string → bool) (getAddress : string → outcome string) (toUtf8Bytes : string → string)
    (abiEncodeKey : string → string → string) (abiEncodeMark : string → string → string → string → outcome string)
    (watched : string → bool) (parseLog : list string → string → outcome (option LifecycleEvent))
    (encodeEventLog : LifecycleEvent → outcome (list string * string)) (localeLe : string → string → bool)
    {W : Type} (reader : SnapshotReader W) (headers : SnapshotHeaderReader W) (options : SourceSnapshotOptions W)
    (truth : Z → TrueBlock) (s : SourceRosterSnapshot) (w w' : W) :
  (∀ a x, getAddress a = Ok x → isAddress20 x = true) →
  o_headerReader options = Some headers → HonestHeaders headers truth → NoForgery isAddress reader truth →
  (∀ c, o_checkpoint options = Some c → Faithful getAddress watched parseLog encodeEventLog truth c) →
  buildSourceRoster isAddress getAddress toUtf8Bytes abiEncodeKey abiEncodeMark watched parseLog encodeEventLog localeLe
    reader options w = (Ok s, w') →
  Correct getAddress watched parseLog encodeEventLog reader options truth s w'.
Proof.
  intros Haddr Hh Hhon Hnf HF Hrun. eapply (wp_run _ (λ o w', ∀ s, o = Ok s → Correct getAddress watched parseLog encodeEventLog reader options truth s w'));
    [|exact Hrun|done].
  unfold buildSourceRoster. apply wp_bind, wp_lift_out. destruct (getAddress (o_source options)) as [source|]; [|done].
  apply wp_bind, wp_require; intros Hset; [|done]. rewrite Hh. destruct (o_sameReader options); [by apply wp_throw|].
  rewrite !andb_true_iff in Hset. destruct Hset as (((_ & Hchunk) & _) & _). unfold integer in Hchunk.
  apply andb_true_iff in Hchunk as [_ Hchunk%Z.leb_le]. by apply snapshotWith_spec.
Qed.

(** ** Two snapshots of a small chain, the second from the first one's checkpoint *)

Import ToyEthers ReceiptTrieProofs.

Definition exWord (digits : string) : string := "0x" +:+ times 32 digits.
Definition exAddr (digits : string) : string := "0x" +:+ times 20 digits.
Definition exSource : string := exAddr "50".
Definition exAttrs : string := Eval vm_compute in Attrs.exWord.
Definition exTime : Z := 1780000000.
Definition exTopic : string := exWord "70".

(** Alice is issued, Bob is issued with a key that was compromised before, Carol is issued later. *)
Definition exDecode (data : string) : option LifecycleEvent :=
  if String.eqb data "0xa1" then Some (MarkIssued (exAddr "a1") exAttrs (exAddr "91") (exWord "c1") (exWord "e1"))
  else if String.eqb data "0xb1" then Some (KeyedMarkIssued (exAddr "b1") exAttrs (exAddr "92") 1 (exWord "c2") (exWord "e2"))
  else if String.eqb data "0xb2" then Some (IssuerKeyCompromised (exAddr "92") 1 2 (exWord "f1"))
  else if String.eqb data "0xc1" then Some (MarkIssued (exAddr "c1") exAttrs (exAddr "91") (exWord "c3") (exWord "e3"))
  else None.
Definition exData (ev : LifecycleEvent) : string :=
  match ev with
  | MarkIssued a _ _ _ _ => if String.eqb a (exAddr "a1") then "0xa1" else "0xc1"
  | KeyedMarkIssued _ _ _ _ _ _ => "0xb1"
  | _ => "0xb2"
  end.

Definition exRawLog (block : Z) (hash tx : string) (i : Z) (data : string) (removed : option bool) : SnapshotLog := {|
  l_address := exSource; l_blockNumber := block; l_blockHash := hash; l_transactionHash := tx; l_transactionIndex := 0;
  l_index := i; l_topics := [exTopic]; l_data := data; l_removed := removed |}.
Definition exBlockHash (h : Z) : string := exWord (if h =? 1 then "b1" else if h =? 2 then "b2" else if h =? 3 then "b3" else "b4").
Definition exTx (h : Z) : string := exWord (if h =? 2 then "d2" else if h =? 3 then "d3" else "d4").
Definition exLogs (h : Z) (removed : option bool) : list SnapshotLog :=
  let l := exRawLog h (exBlockHash h) (exTx h) in
  if h =? 3 then [l 0 "0xa1" removed; l 1 "0xb1" removed; l 2 "0xb2" removed] else if h =? 4 then [l 0 "0xc1" removed] else [].
Definition exBloom : string := Eval vm_compute in "0x" +:+ times 256 "00".
Definition exTxReceipt (h : Z) : SnapshotReceipt := {|
  r_hash := exTx h; r_blockNumber := h; r_blockHash := exBlockHash h; r_index := 0; r_status := Some 1;
  r_contractAddress := if h =? 2 then Some exSource else None; r_logs := exLogs h None; r_cumulativeGasUsed := 21000;
  r_logsBloom := exBloom; r_type := 2; r_root := None |}.
Definition exNormLogs (h : Z) : list NormLog :=
  ok_or [] (omap_out (λ log, normalizedLog isAddress20 log true) (exLogs h None)).
Definition hasTx (h : Z) : bool := (h =? 2) || (h =? 3) || (h =? 4).
Definition exTruth (h : Z) : TrueBlock := {|
  tb_timestamp := exTime + h; tb_transactions := if hasTx h then [exTx h] else [];
  tb_receipts := if hasTx h then [(exTxReceipt h, exNormLogs h)] else [] |}.
Definition exReceiptsRoot (h : Z) : string := ok_or "" (computeReceiptsRoot (indexed (tb_receipts (exTruth h)))).
Definition exBlock (h : Z) (root : string) : SnapshotBlock := {|
  b_number := h; b_hash := Some (exBlockHash h); b_parentHash := exBlockHash (h - 1); b_timestamp := exTime + h;
  b_transactions := tb_transactions (exTruth h); b_receiptsRoot := Some root |}.
Definition exRoot1 : string := Eval vm_compute in exReceiptsRoot 1.
Definition exRoot2 : string := Eval vm_compute in exReceiptsRoot 2.
Definition exRoot3 : string := Eval vm_compute in exReceiptsRoot 3.
Definition exRoot4 : string := Eval vm_compute in exReceiptsRoot 4.
Definition exBlockAt (h : Z) : option SnapshotBlock :=
  if h =? 1 then Some (exBlock 1 exRoot1) else if h =? 2 then Some (exBlock 2 exRoot2)
  else if h =? 3 then Some (exBlock 3 exRoot3) else if h =? 4 then Some (exBlock 4 exRoot4) else None.
Definition exTag (t : BlockTag) : option SnapshotBlock := match t with Height h => exBlockAt h | Finalized => exBlockAt 4 end.
Definition exReceiptAt (tx : string) : option SnapshotReceipt :=
  if same tx (exTx 2) then Some (exTxReceipt 2) else if same tx (exTx 3) then Some (exTxReceipt 3)
  else if same tx (exTx 4) then Some (exTxReceipt 4) else None.

(** The world is the list of the checkpoints the sink was given. *)
Abbreviation World := (list SourceReplayCheckpoint).
Definition exHeaders : SnapshotHeaderReader World :=
  {| h_getNetwork := ret 11; h_getBlockNumber := ret 5; h_getBlock t := ret (exTag t) |}.
Definition exReader : SnapshotReader World := {|
  RosterSource.getNetwork := ret 11; RosterSource.getBlockNumber := ret 5; RosterSource.getBlock t := ret (exTag t);
  getTransactionReceipt tx := ret (exReceiptAt tx);
  getLogs _ from to_ := ret (concat (map (λ h, exLogs h (Some false)) (heights from to_))) |}.
Definition exOptions (cutoff : Z) (checkpoint : option SourceReplayCheckpoint) : SourceSnapshotOptions World := {|
  o_source := exSource; o_chainId := 11; o_deploymentTx := exTx 2; o_confirmations := 1; o_headerReader := Some exHeaders;
  o_sameReader := false; o_checkpoint := checkpoint; o_checkpointSink := Some (λ c, modify (λ w, w ++ [c]));
  o_cutoffBlock := Some cutoff; o_expectedCutoffHash := None; o_maxBlocks := None; o_maxReceipts := None; o_logChunk := Some 1 |}.
Definition exGetAddress (a : string) : outcome string := if isAddress20 a then Ok a else Throw (EError "invalid address").

Abbreviation exBuild := (buildSourceRoster isAddress20 exGetAddress (λ s, s) (λ ns a, ns +:+ a) (λ a c e i, Ok (a +:+ c +:+ e +:+ i))
  (String.eqb exTopic) (λ _ data, Ok (exDecode data)) (λ ev, Ok ([exTopic], exData ev)) str_leb exReader).
Definition exSnapshot0 : SourceRosterSnapshot := {| tree := RosterProofs.emptyTree; excluded := []; manifest := {|
  m_chainId := ""; m_source := ""; m_deploymentTx := ""; m_deploymentBlock := 0; m_deploymentBlockHash := ""; m_cutoffBlock := 0;
  m_cutoffBlockHash := ""; m_cutoffTimestamp := 0; m_confirmations := 0; m_blocks := 0; m_receipts := 0; m_sourceLogs := 0;
  m_headersDigest := ""; m_blocksDigest := ""; m_logsDigest := ""; m_entriesDigest := ""; m_root := "" |} |}.
Definition exFirst : SourceRosterSnapshot * World := Eval vm_compute in
  let r := exBuild (exOptions 3 None) [] in (ok_or exSnapshot0 r.1, r.2).
Lemma exFirst_run : exBuild (exOptions 3 None) [] = (Ok exFirst.1, exFirst.2).
Proof. by vm_compute. Qed.
Definition exSecond : SourceRosterSnapshot * World := Eval vm_compute in
  let r := exBuild (exOptions 4 (head exFirst.2)) [] in (ok_or exSnapshot0 r.1, r.2).
Lemma exSecond_run : exBuild (exOptions 4 (head exFirst.2)) [] = (Ok exSecond.1, exSecond.2).
Proof. by vm_compute. Qed.
Example exSecond_subjects : map Roster.subject (Roster.entries (tree exSecond.1)) ≡ₚ [exAddr "a1"; exAddr "c1"]
  ∧ map fst (excluded exSecond.1) = [exAddr "b1"].
Proof. split; [|by vm_compute]. refine (bool_decide_eq_true_1 (_ ≡ₚ _) _). by vm_compute. Qed.

Lemma exGetAddress_form a x : exGetAddress a = Ok x → isAddress20 x = true.
Proof. unfold exGetAddress. destruct (isAddress20 a) eqn:Ha; [|done]. by intros [= <-]. Qed.

Lemma answered_ret_eq {V} (v v' : V) : answered (ret v : M World V) v' → v' = v.
Proof. by intros (w & w' & [= <- _]). Qed.

Lemma exTruth_agrees h root : In (h, root) [(1, exRoot1); (2, exRoot2); (3, exRoot3); (4, exRoot4)] → ∀ b,
  checkedBlock (Some (exBlock h root)) (Some h) = Ok b → Agrees b (exTruth h).
Proof.
  intros Hin b (u & _ & [= <-])%obind_ok.
  assert (∀ h root, In (h, root) [(1, exRoot1); (2, exRoot2); (3, exRoot3); (4, exRoot4)] →
    computeReceiptsRoot (indexed (tb_receipts (exTruth h))) = Ok root) as Hroot.
  { intros h' r'. simpl. intros [[= <- <-]|[[= <- <-]|[[= <- <-]|[[= <- <-]|[]]]]]; by vm_compute. }
  split_and!; [done| |].
  - simpl. destruct (hasTx h); [|done]. unfold exTx. by repeat case_match.
  - exists root. split; [by apply Hroot|]. unfold same. apply String.eqb_refl.
Qed.

Lemma exHonest : HonestHeaders exHeaders exTruth.
Proof.
  intros h value b ->%answered_ret_eq Hb. cbn [exTag] in Hb. unfold exBlockAt in Hb.
  destruct (Z.eqb_spec h 1) as [->|]; [eapply exTruth_agrees, Hb; simpl; tauto|].
  destruct (Z.eqb_spec h 2) as [->|]; [eapply exTruth_agrees, Hb; simpl; tauto|].
  destruct (Z.eqb_spec h 3) as [->|]; [eapply exTruth_agrees, Hb; simpl; tauto|].
  destruct (Z.eqb_spec h 4) as [->|]; [eapply exTruth_agrees, Hb; simpl; tauto|]. done.
Qed.

(** The only receipts the RPC has for a block are the block's. *)
Lemma exCandidate h rs : Candidate isAddress20 exReader (exTruth h) rs → rs = tb_receipts (exTruth h).
Proof.
  unfold Candidate, exTruth. simpl. destruct (hasTx h) eqn:Hh; [|by intros ?%Forall2_nil_inv_l].
  intros ([r logs] & rest & (tx' & Htx & Hr%answered_ret_eq & Hl) & Hrest%Forall2_nil_inv_l & ->)%Forall2_cons_inv_l. subst rest. f_equal.
  simpl in Hr, Hl.
  assert (Some r = Some (exTxReceipt h)) as [= ->].
  { rewrite Hr. unfold exReceiptAt, same. rewrite Htx. unfold hasTx in Hh. apply orb_true_iff in Hh as [[Hh|Hh]%orb_true_iff|Hh];
      apply Z.eqb_eq in Hh; subst h; by vm_compute. }
  f_equal. unfold exNormLogs. simpl in Hl. by rewrite Hl.
Qed.

Lemma exNoForgery : NoForgery isAddress20 exReader exTruth.
Proof.
  intros h rs ->%exCandidate. unfold exTruth. simpl.
  assert (∀ h, In h [1; 2; 3; 4] → Roster.NoCollision keccak256
    (rootTexts (indexed (tb_receipts (exTruth h))) ++ rootTexts (indexed (tb_receipts (exTruth h))))) as Hall.
  { intros h' Hin. apply RosterProofs.NoCollision_decide. refine (bool_decide_eq_true_1 (NoDup _) _).
    simpl in Hin. by destruct_or! Hin; subst; vm_compute. }
  destruct (hasTx h) eqn:Hh; [|exact (Hall 1 ltac:(simpl; tauto))].
  unfold hasTx in Hh. apply orb_true_iff in Hh as [[Hh|Hh]%orb_true_iff|Hh]; apply Z.eqb_eq in Hh; subst h.
  - exact (Hall 2 ltac:(simpl; tauto)).
  - exact (Hall 3 ltac:(simpl; tauto)).
  - exact (Hall 4 ltac:(simpl; tauto)).
Qed.

(** The second snapshot is correct because the first one's checkpoint is faithful. *)
Lemma source_roster_correct_witness :
  Correct exGetAddress (String.eqb exTopic) (λ _ data, Ok (exDecode data)) (λ ev, Ok ([exTopic], exData ev)) exReader
    (exOptions 4 (head exFirst.2)) exTruth exSecond.1 exSecond.2.
Proof.
  apply (source_roster_correct isAddress20 exGetAddress (λ s, s) (λ ns a, ns +:+ a) (λ a c e i, Ok (a +:+ c +:+ e +:+ i))
    (String.eqb exTopic) (λ _ data, Ok (exDecode data)) (λ ev, Ok ([exTopic], exData ev)) str_leb exReader exHeaders
    (exOptions 4 (head exFirst.2)) exTruth exSecond.1 [] exSecond.2 exGetAddress_form eq_refl exHonest exNoForgery); [|exact exSecond_run].
  intros c Hc.
  pose proof (source_roster_correct isAddress20 exGetAddress (λ s, s) (λ ns a, ns +:+ a) (λ a c e i, Ok (a +:+ c +:+ e +:+ i))
    (String.eqb exTopic) (λ _ data, Ok (exDecode data)) (λ ev, Ok ([exTopic], exData ev)) str_leb exReader exHeaders
    (exOptions 3 None) exTruth exFirst.1 [] exFirst.2 exGetAddress_form eq_refl exHonest exNoForgery ltac:(done) exFirst_run) as HC.
  destruct (cor_sink _ _ _ _ _ _ _ _ _ HC _ eq_refl) as (c' & w & [= Hw] & HF & _).
  simpl in Hc. injection Hc as <-. simpl in Hw. 
  destruct w as [|? [|? ?]]; simpl in Hw; [|done..]. injection Hw as ->. exact HF.
Defined.
End RosterReplayProofs.
