(* ===== verification/RosterBundle.v ===== *)
(** Distributable roster bundles, [src/pipeline/roster-bundle.ts]: a bundle is checked field by field,
    exported in a canonical order under a content pin, and loaded into an immutable tree that answers
    inclusion and non-inclusion proofs. *)

From Stdlib Require Import ZArith Lia Ascii String List.
From stdpp Require Import base decidable option list strings pretty sets sorting.
From S2P Require Import Prelude JS Json Roster Legacy Attrs.
Local Open Scope string_scope.
Local Open Scope list_scope.
Local Open Scope Z_scope.

Module RosterBundle.
Import Roster.

Definition MAX_BUNDLE_BYTES : Z := 64 * 1024 * 1024.
Definition MAX_BUNDLE_ENTRIES : Z := 100000.
Definition ZeroAddress : string := "0x0000000000000000000000000000000000000000".
Definition ZeroHash : string := "0x0000000000000000000000000000000000000000000000000000000000000000".

Record RosterScope := {
  sourceChainId : Z; sourceChainKey : Z; hubChainId : Z; source : string; asc : string; registry : string }.
(** A bundle that passed [checkedBundle]; its version fields are then the constants 1, 2, 2 and 1. *)
Record RosterBundle := {
  scope : RosterScope; epoch : Z; b_root : string; listVersion : Z; sourceCutoff : Z; publishedAt : Z; validUntil : Z;
  snapshotId : string; approvedIssuers : list string; b_entries : list RosterEntry }.
(** The argument of [exportRosterBundle]. *)
Record EpochRecord := {
  rosterFormatVersion : Z; epochSchemaVersion : Z; rosterAuthVersion : Z; er_bundle : RosterBundle }.

(** * Reading an object *)

(** The own enumerable properties of what [typeof] calls an object; an array has its indices. *)
Definition objectFields (v : json) : option (list (string * json)) :=
  match v with
  | JObj fields => Some fields
  | JArr l => Some (imap (λ i x, (pretty (Z.of_nat i), x)) l)
  | _ => None
  end.
Definition num (k : string) (fields : list (string * json)) : option Z :=
  match dget k fields with Some (JNum n) => Some n | _ => None end.
Definition str (v : option json) : option string := match v with Some (JStr s) => Some s | _ => None end.
Definition exactKeys (fields : list (string * json)) (keys : list string) : outcome unit :=
  orequire (forallb (λ kv, bool_decide (kv.1 ∈ keys)) fields)
    (EError "unexpected roster bundle field; do not distribute raw evidence or PII").
Definition uint (n : option Z) (max min : Z) : bool :=
  match n with Some n => isSafeInteger n && (min <=? n) && (n <=? max) | None => false end.
Definition digest (value : option string) : bool :=
  match value with Some s => isBytes32 s && negb (String.eqb s ZeroHash) | None => false end.
(** A string field that passed its check. *)
Definition text (v : option json) : string := default "" (str v).

Definition BUNDLE_KEYS : list string :=
  ["bundleVersion"; "rosterFormatVersion"; "epochSchemaVersion"; "rosterAuthVersion"; "scope"; "epoch"; "root";
   "listVersion"; "sourceCutoff"; "publishedAt"; "validUntil"; "snapshotId"; "approvedIssuers"; "entries"].
Definition SCOPE_KEYS : list string := ["sourceChainId"; "sourceChainKey"; "hubChainId"; "source"; "asc"; "registry"].
Definition ENTRY_KEYS : list string := ["subject"; "attrs"; "claimsRoot"; "evidenceHash"; "issuer"].

(** [JSON.stringify] of a bundle in the order of the literal of [exportRosterBundle]. *)
Definition entryJson (e : RosterEntry) : json := JObj
  [("subject", JStr (subject e)); ("attrs", JStr (attrs e)); ("claimsRoot", JStr (claimsRoot e));
   ("evidenceHash", JStr (evidenceHash e)); ("issuer", JStr (issuer e))].
Definition scopeJson (s : RosterScope) : json := JObj
  [("sourceChainId", JNum (sourceChainId s)); ("sourceChainKey", JNum (sourceChainKey s)); ("hubChainId", JNum (hubChainId s));
   ("source", JStr (source s)); ("asc", JStr (asc s)); ("registry", JStr (registry s))].
Definition bundleFields (formatV epochV authV : Z) (b : RosterBundle) : json := JObj
  [("bundleVersion", JNum 1); ("rosterFormatVersion", JNum formatV); ("epochSchemaVersion", JNum epochV);
   ("rosterAuthVersion", JNum authV); ("scope", scopeJson (scope b)); ("epoch", JNum (epoch b)); ("root", JStr (b_root b));
   ("listVersion", JNum (listVersion b)); ("sourceCutoff", JNum (sourceCutoff b)); ("publishedAt", JNum (publishedAt b));
   ("validUntil", JNum (validUntil b)); ("snapshotId", JStr (snapshotId b));
   ("approvedIssuers", JArr (map JStr (approvedIssuers b))); ("entries", JArr (map entryJson (b_entries b)))].
Definition bundleJson : RosterBundle → json := bundleFields 2 2 1.

(** * What a loaded bundle answers *)

Record Metadata := {
  md_contentHash : string; md_scope : RosterScope; md_epoch : Z; md_root : string; md_sourceCutoff : Z; md_publishedAt : Z;
  md_validUntil : Z; md_snapshotId : string; md_listVersion : Z; md_entryCount : Z }.
Record Mark := { mk_attrs : string; mk_claimsRoot : string; mk_evidenceHash : string; mk_issuer : string }.
Record Transaction := { tx_chainId : Z; tx_to : string; tx_data : string }.
Inductive ProofAnswer :=
  | NonInclusion (m : Metadata) (subject : string) (proof : NonInclusionProof)
  | Inclusion (m : Metadata) (subject : string) (mark : Mark) (proof : InclusionProof) (transaction : Transaction).
Record Loaded := { contentHash : string; bundle : RosterBundle; tree : RosterTree }.

Section bundle.
Context (keccak256 : string → string) (isAddress : string → bool) (getAddress : string → outcome string).
Context (abiEncodeKey : string → string → string) (abiEncodeMark : string → string → string → string → outcome string).
(** UTF-8, SHA-256 in hexadecimal, [JSON.parse], and the encoding of [cacheRosterWitness]. *)
Context {Bytes : Type} (utf8Encode : string → Bytes) (utf8Decode : Bytes → outcome string) (byteLength : Bytes → Z).
Context (sha256 : Bytes → string) (parse : string → outcome json).
Context (encodeWitness : string → Mark → InclusionProof → string).

Abbreviation buildRoster := (buildRoster keccak256 getAddress abiEncodeKey abiEncodeMark).
Abbreviation subjectKey := (subjectKey keccak256 getAddress abiEncodeKey).

Definition address (value : option string) : bool :=
  match value with Some s => isAddress s && negb (String.eqb s ZeroAddress) | None => false end.

Definition checkedScope (v : option json) : outcome RosterScope :=
  match v ≫= objectFields with
  | None => Throw (EError "invalid bundle version/scope")
  | Some f =>
      let? _ := exactKeys f SCOPE_KEYS in
      let? _ := orequire (uint (num "sourceChainId" f) MAX_SAFE_INTEGER 1 && uint (num "hubChainId" f) MAX_SAFE_INTEGER 1
                          && uint (num "sourceChainKey" f) MAX_SAFE_INTEGER 1 && address (str (dget "source" f))
                          && address (str (dget "asc" f)) && address (str (dget "registry" f)))
                  (EError "invalid roster bundle scope/epoch/provenance/limits") in
      Ok {| sourceChainId := default 0 (num "sourceChainId" f); sourceChainKey := default 0 (num "sourceChainKey" f);
            hubChainId := default 0 (num "hubChainId" f); source := text (dget "source" f); asc := text (dget "asc" f);
            registry := text (dget "registry" f) |}
  end.

Definition checkedEntry (cutoff : Z) (approved : list string) (v : json) : outcome RosterEntry :=
  match v with
  | JObj f =>
      let? _ := exactKeys f ENTRY_KEYS in
      let e := {| subject := text (dget "subject" f); attrs := text (dget "attrs" f); claimsRoot := text (dget "claimsRoot" f);
                  evidenceHash := text (dget "evidenceHash" f); issuer := text (dget "issuer" f) |} in
      let? _ := orequire (address (str (dget "subject" f)) && address (str (dget "issuer" f))
                          && Attrs.validCredentialAttrs (attrs e) (Some cutoff) && isBytes32 (claimsRoot e) && isBytes32 (evidenceHash e)
                          && bool_decide (toLowerCase (issuer e) ∈ approved))
                  (EError "invalid/unapproved bundle entry") in
      Ok e
  | _ => Throw (EError "invalid bundle entry")
  end.

Definition checkedBundle (value : json) : outcome RosterBundle :=
  match value with
  | JObj b =>
      let? _ := Legacy.assertRosterRecordVersion {| Legacy.rosterFormatVersion := num "rosterFormatVersion" b;
                  Legacy.epochSchemaVersion := num "epochSchemaVersion" b; Legacy.rosterAuthVersion := num "rosterAuthVersion" b |} in
      let? _ := exactKeys b BUNDLE_KEYS in
      let? _ := orequire (bool_decide (num "bundleVersion" b = Some 1)) (EError "invalid bundle version/scope") in
      let? s := checkedScope (dget "scope" b) in
      let limits := EError "invalid roster bundle scope/epoch/provenance/limits" in
      let? _ := orequire (uint (num "epoch" b) 0xffffffff 1 && uint (num "listVersion" b) 0xffffffff 0
                          && digest (str (dget "root" b)) && digest (str (dget "snapshotId" b))
                          && uint (num "sourceCutoff" b) 0xffffffffff 1 && uint (num "publishedAt" b) 0xffffffffff 1
                          && uint (num "validUntil" b) 0xffffffffff 1) limits in
      let cutoff := default 0 (num "sourceCutoff" b) in
      let published := default 0 (num "publishedAt" b) in
      let until := default 0 (num "validUntil" b) in
      let? _ := orequire ((cutoff <=? published) && (published <=? cutoff + 3600) && (published <? until) && (until <=? cutoff + 86400)) limits in
      match dget "entries" b, dget "approvedIssuers" b with
      | Some (JArr entries), Some (JArr issuers) =>
          let? _ := orequire ((Z.of_nat (length entries) <=? MAX_BUNDLE_ENTRIES) && (1 <=? Z.of_nat (length issuers))
                              && (Z.of_nat (length issuers) <=? 16) && forallb (λ v, address (str (Some v))) issuers) limits in
          let approved := map (λ v, toLowerCase (text (Some v))) issuers in
          let? _ := orequire (bool_decide (NoDup approved)) (EError "duplicate bundle issuer") in
          let? entries := omap_out (checkedEntry cutoff approved) entries in
          Ok {| scope := s; epoch := default 0 (num "epoch" b); b_root := text (dget "root" b);
                listVersion := default 0 (num "listVersion" b); sourceCutoff := cutoff; publishedAt := published; validUntil := until;
                snapshotId := text (dget "snapshotId" b); approvedIssuers := map (λ v, text (Some v)) issuers; b_entries := entries |}
      | _, _ => Throw limits
      end
  | _ => Throw (EError "invalid roster bundle")
  end.

(** [BigInt(a) < BigInt(b)] *)
Definition numberLt (a b : string) : bool := Attrs.hexValue a <? Attrs.hexValue b.

Definition canonicalEntry (e : RosterEntry) : outcome RosterEntry :=
  let? s := getAddress (subject e) in
  let? i := getAddress (issuer e) in
  Ok {| subject := s; attrs := toLowerCase (attrs e); claimsRoot := toLowerCase (claimsRoot e);
        evidenceHash := toLowerCase (evidenceHash e); issuer := i |}.

Definition canonicalBundle (b : RosterBundle) (s : RosterScope) : outcome RosterBundle :=
  let? src := getAddress (source s) in
  let? a := getAddress (asc s) in
  let? r := getAddress (registry s) in
  let? issuers := omap_out getAddress (approvedIssuers b) in
  let? entries := omap_out canonicalEntry (b_entries b) in
  Ok {| scope := {| sourceChainId := sourceChainId s; sourceChainKey := sourceChainKey s; hubChainId := hubChainId s;
                    source := src; asc := a; registry := r |};
        epoch := epoch b; b_root := toLowerCase (b_root b); listVersion := listVersion b; sourceCutoff := sourceCutoff b;
        publishedAt := publishedAt b; validUntil := validUntil b; snapshotId := toLowerCase (snapshotId b);
        approvedIssuers := sort_by numberLt issuers; b_entries := entries |}.

Definition withEntries (b : RosterBundle) (es : list RosterEntry) : RosterBundle :=
  {| scope := scope b; epoch := epoch b; b_root := b_root b; listVersion := listVersion b; sourceCutoff := sourceCutoff b;
     publishedAt := publishedAt b; validUntil := validUntil b; snapshotId := snapshotId b; approvedIssuers := approvedIssuers b;
     b_entries := es |}.

Definition bundleText (b : RosterBundle) : string := default "undefined" (Json.stringify (bundleJson b)) +:+ String "010" "".

(** The object [exportRosterBundle] prints: checked, its entries in the order of the tree. *)
Definition exportedBundle (record : EpochRecord) (s : RosterScope) : outcome RosterBundle :=
  let? c := canonicalBundle (er_bundle record) s in
  let? b := checkedBundle (bundleFields (rosterFormatVersion record) (epochSchemaVersion record) (rosterAuthVersion record) c) in
  let? t := buildRoster (b_entries b) EVM_NAMESPACE in
  let? _ := orequire (String.eqb (root t) (b_root b)) (EError "bundle entries do not reproduce root") in
  Ok (withEntries b (entries t)).

Definition exportRosterBundle (record : EpochRecord) (s : RosterScope) : outcome (Bytes * string) :=
  let? b := exportedBundle record s in
  let bytes := utf8Encode (bundleText b) in
  let? _ := orequire (byteLength bytes <=? MAX_BUNDLE_BYTES) (EError "roster bundle exceeds byte budget") in
  Ok (bytes, sha256 bytes).

Definition loadRosterBundle (bytes : Bytes) (expectedContentHash : string) : outcome Loaded :=
  let? _ := orequire (Nat.eqb (String.length expectedContentHash) 64 && allChars isLowerHex expectedContentHash
                      && negb (byteLength bytes =? 0) && (byteLength bytes <=? MAX_BUNDLE_BYTES)
                      && String.eqb (sha256 bytes) expectedContentHash)
              (EError "roster bundle size/content pin mismatch") in
  let? source := utf8Decode bytes in
  let? value := parse source in
  let? b := checkedBundle value in
  let? t := buildRoster (b_entries b) EVM_NAMESPACE in
  let? _ := orequire (String.eqb (toLowerCase (root t)) (toLowerCase (b_root b))) (EError "bundle root mismatch") in
  Ok {| contentHash := expectedContentHash; bundle := b; tree := t |}.

Definition metadata (l : Loaded) : Metadata := {|
  md_contentHash := contentHash l; md_scope := scope (bundle l); md_epoch := epoch (bundle l); md_root := root (tree l);
  md_sourceCutoff := sourceCutoff (bundle l); md_publishedAt := publishedAt (bundle l); md_validUntil := validUntil (bundle l);
  md_snapshotId := snapshotId (bundle l); md_listVersion := listVersion (bundle l);
  md_entryCount := Z.of_nat (length (entries (tree l))) |}.

(** The binary search over the sorted keys; every round halves the range, so their number is fuel enough. *)
Fixpoint search (fuel : nat) (ks : list string) (key : string) (lo hi : Z) : Z :=
  match fuel with
  | O => lo
  | S fuel =>
      if lo <? hi then
        let mid := (lo + hi) / 2 in
        if str_ltb (default "" (at_ ks mid)) key then search fuel ks key (mid + 1) hi else search fuel ks key lo mid
      else lo
  end.

Definition proof (l : Loaded) (subject_ : string) : outcome ProofAnswer :=
  let? _ := orequire (address (Some subject_)) (EError "invalid proof subject") in
  let? normalized := getAddress subject_ in
  let? key := subjectKey normalized EVM_NAMESPACE in
  let t := tree l in
  let lo := search (length (keys t)) (keys t) key 1 (Z.of_nat (length (keys t)) - 1) in
  if negb (bool_decide (at_ (keys t) lo = Some key)) then
    let? left_ := inclusionProof t (lo - 1) in
    let? right_ := inclusionProof t lo in
    Ok (NonInclusion (metadata l) normalized
      {| left := left_; leftKey := default "" (at_ (keys t) (lo - 1)); leftMark := default "" (at_ (marks t) (lo - 1));
         right := right_; rightKey := default "" (at_ (keys t) lo); rightMark := default "" (at_ (marks t) lo) |})
  else
    let? inclusion := inclusionProof t (leafIndexOf (lo - 1)) in
    match (if lo - 1 <? 0 then None else entries t !! Z.to_nat (lo - 1)) with
    | None => Throw (EError "TypeError")
    | Some e =>
        let mark := {| mk_attrs := attrs e; mk_claimsRoot := claimsRoot e; mk_evidenceHash := evidenceHash e; mk_issuer := issuer e |} in
        Ok (Inclusion (metadata l) normalized mark inclusion
          {| tx_chainId := hubChainId (scope (bundle l)); tx_to := registry (scope (bundle l));
             tx_data := encodeWitness normalized mark inclusion |})
    end.

(** * The search finds the position of a key *)

Lemma at_Some (ks : list string) i x : at_ ks i = Some x ↔ 0 ≤ i ∧ ks !! Z.to_nat i = Some x.
Proof. unfold at_. destruct (Z.ltb_spec i 0); split; [done| |by split|]; intros [? ?]; [lia|done]. Qed.

Lemma at_is_Some (ks : list string) i : 0 ≤ i < Z.of_nat (length ks) → ∃ x, at_ ks i = Some x.
Proof.
  intros Hi. destruct (lookup_lt_is_Some_2 ks (Z.to_nat i) ltac:(lia)) as [x Hx]. exists x. apply at_Some. split; [lia|done].
Qed.

Lemma key_lookup_lt l i j a b : StronglySorted (λ a b, str_ltb a b = true) l →
  l !! i = Some a → l !! j = Some b → (i < j)%nat → str_ltb a b = true.
Proof.
  intros Hs. revert i j. induction Hs as [|x l Hs IH Hx]; intros i j Ha Hb Hij; [done|].
  destruct j as [|j]; [lia|]. destruct i as [|i]; simpl in *; [|apply (IH i j); [done|done|lia]].
  injection Ha as ->. rewrite Forall_forall in Hx. by eapply Hx, list_elem_of_lookup_2.
Qed.
Lemma sorted_at ks i j a b : StronglySorted (λ a b, str_ltb a b = true) ks →
  at_ ks i = Some a → at_ ks j = Some b → i < j → str_ltb a b = true.
Proof. intros Hs [Hi Ha]%at_Some [Hj Hb]%at_Some Hij. apply (key_lookup_lt ks (Z.to_nat i) (Z.to_nat j)); [done|done|done|lia]. Qed.

Lemma search_spec (key : string) ks fuel : StronglySorted (λ a b, str_ltb a b = true) ks →
  ∀ lo hi, 0 ≤ lo ≤ hi → hi < Z.of_nat (length ks) → hi - lo ≤ Z.of_nat fuel →
  (∀ j x, j < lo → at_ ks j = Some x → str_ltb x key = true) →
  (∀ x, at_ ks hi = Some x → str_ltb x key = false) →
  ∃ r x, search fuel ks key lo hi = r ∧ lo ≤ r ≤ hi ∧ at_ ks r = Some x ∧ str_ltb x key = false
    ∧ ∀ j y, j < r → at_ ks j = Some y → str_ltb y key = true.
Proof.
  intros Hs. induction fuel as [|fuel IH]; intros lo hi Hlo Hhi Hf Hbelow Habove.
  - assert (hi = lo) as -> by lia. destruct (at_is_Some ks lo) as [x Hx]; [lia|]. exists lo, x. split_and!; auto; lia.
  - cbn [search]. destruct (Z.ltb_spec lo hi) as [Hlt|Hge]; cycle 1.
    { assert (hi = lo) as -> by lia. destruct (at_is_Some ks lo) as [x Hx]; [lia|]. exists lo, x. split_and!; auto; lia. }
    assert (lo ≤ (lo + hi) / 2 < hi) as Hmid by (split; [apply Z.div_le_lower_bound|apply Z.div_lt_upper_bound]; lia).
    cbv zeta. set (mid := (lo + hi) / 2) in *. destruct (at_is_Some ks mid) as [m Hm]; [lia|]. rewrite Hm. cbn [from_option id].
    destruct (str_ltb m key) eqn:Hc.
    + destruct (IH (mid + 1) hi) as (r & x & ? & ? & ? & ? & ?); [lia|lia|lia| |done|exists r, x; split_and!; auto; lia].
      intros j y Hj Hy. destruct (decide (j = mid)) as [->|Hne]; [congruence|].
      eapply str_ltb_trans; [|exact Hc]. eapply (sorted_at ks j mid); [done|done|done|lia].
    + destruct (IH lo mid) as (r & x & ? & ? & ? & ? & ?); [lia|lia|lia|done|congruence|exists r, x; split_and!; auto; lia].
Qed.

(** * What is checked *)

(** What a checked bundle promises its consumer. *)
Record Distributable (b : RosterBundle) : Prop := {
  db_publication : sourceCutoff b ≤ publishedAt b ≤ sourceCutoff b + 3600;
  db_validity : publishedAt b < validUntil b ≤ sourceCutoff b + 86400 ∧ validUntil b < 2 ^ 40;
  db_issuers : 1 ≤ Z.of_nat (length (approvedIssuers b)) ≤ 16 ∧ NoDup (map toLowerCase (approvedIssuers b));
  db_size : Z.of_nat (length (b_entries b)) ≤ MAX_BUNDLE_ENTRIES;
  db_entries e : e ∈ b_entries b → toLowerCase (issuer e) ∈ map toLowerCase (approvedIssuers b)
    ∧ Attrs.validCredentialAttrs (attrs e) (Some (sourceCutoff b)) = true }.

Lemma checkedEntry_inv cutoff approved v e : checkedEntry cutoff approved v = Ok e →
  toLowerCase (issuer e) ∈ approved ∧ Attrs.validCredentialAttrs (attrs e) (Some cutoff) = true.
Proof.
  destruct v; try done. intros (u & _ & (u' & H%orequire_ok & [= <-])%obind_ok)%obind_ok. rewrite !andb_true_iff in H.
  destruct H as (((((_ & _) & Hv) & _) & _) & Hi). by apply bool_decide_eq_true in Hi.
Qed.

Lemma uint_range n max min : uint (Some n) max min = true → min ≤ n ≤ max.
Proof. unfold uint. rewrite !andb_true_iff, !Z.leb_le. tauto. Qed.

Lemma checkedBundle_inv v b : checkedBundle v = Ok b → Distributable b.
Proof.
  destruct v as [| | | | | | | |f]; try done. unfold checkedBundle.
  intros (u1 & _ & (u2 & _ & (u3 & _ & (s & _ & (u4 & H4%orequire_ok & (u5 & H5%orequire_ok & H)%obind_ok)%obind_ok)%obind_ok)%obind_ok)%obind_ok)%obind_ok.
  destruct (dget "entries" f) as [[]|]; try done. destruct (dget "approvedIssuers" f) as [[]|]; try done.
  apply obind_ok in H as (u6 & H6%orequire_ok & (u7 & H7%orequire_ok & (es & Hes & [= <-])%obind_ok)%obind_ok).
  rewrite !andb_true_iff, !Z.leb_le in H5. rewrite !Z.ltb_lt in H5. rewrite !andb_true_iff, !Z.leb_le in H6. apply bool_decide_eq_true in H7.
  rewrite !andb_true_iff in H4. destruct H4 as (_ & H4). destruct (num "validUntil" f) as [until|] eqn:Hu; [|done]. apply uint_range in H4.
  assert (map toLowerCase (map (λ v, text (Some v)) l0) = map (λ v, toLowerCase (text (Some v))) l0) as Hl by by rewrite map_map.
  apply omap_out_Forall2 in Hes. split; simpl; rewrite ?length_map, ?Hl; [lia|change (default 0 (Some until)) with until in *; change (2 ^ 40) with 1099511627776; lia|split; [lia|done]|rewrite <- (Forall2_length _ _ _ Hes); lia|].
  intros e (i & Hi)%list_elem_of_lookup. destruct (Forall2_lookup_r _ _ _ _ _ Hes Hi) as (v & _ & Hv). by eapply checkedEntry_inv.
Qed.

Lemma load_inv bytes h l : loadRosterBundle bytes h = Ok l →
  sha256 bytes = h ∧ contentHash l = h ∧ Distributable (bundle l)
  ∧ buildRoster (b_entries (bundle l)) EVM_NAMESPACE = Ok (tree l) ∧ toLowerCase (root (tree l)) = toLowerCase (b_root (bundle l)).
Proof.
  intros (u & H%orequire_ok & (src & _ & (v & _ & (b & Hb & (t & Ht & (u' & Hr%orequire_ok & [= <-])%obind_ok)%obind_ok)%obind_ok)%obind_ok)%obind_ok)%obind_ok.
  rewrite !andb_true_iff in H. destruct H as (_ & H). apply String.eqb_eq in H, Hr. split_and!; [done|done| |done|done].
  by eapply checkedBundle_inv.
Qed.

(** * Every answer is accepted under the bundle's root *)

Context (keccak_word : ∀ s, isLowerBytes32 (keccak256 s) = true).
Abbreviation verifyInclusion := (verifyInclusion keccak256).
Abbreviation verifyNonInclusion := (verifyNonInclusion keccak256 getAddress abiEncodeKey).
Abbreviation rosterLeaf := (rosterLeaf keccak256 getAddress abiEncodeKey abiEncodeMark).
Abbreviation Built := (Built keccak256 getAddress abiEncodeKey abiEncodeMark EVM_NAMESPACE).

Lemma verifyInclusion_case r r' leaf p : toLowerCase r = toLowerCase r' → verifyInclusion r leaf p = verifyInclusion r' leaf p.
Proof. intros H. unfold Roster.verifyInclusion. by rewrite H. Qed.
Lemma verifyNonInclusion_case r r' target p ns : toLowerCase r = toLowerCase r' →
  verifyNonInclusion r target p ns = verifyNonInclusion r' target p ns.
Proof. intros H. unfold Roster.verifyNonInclusion, Roster.verifyInclusion. by rewrite H. Qed.

(** The key of a subject in the tree is at the place of its entry. *)
Lemma built_entry t r key : Built t → at_ (keys t) r = Some key → key ≠ MIN_KEY → key ≠ MAX_KEY →
  0 ≤ r - 1 ∧ ∃ e leaf, entries t !! Z.to_nat (r - 1) = Some e ∧ subjectKey (subject e) EVM_NAMESPACE = Ok key
    ∧ rosterLeaf e EVM_NAMESPACE = Ok leaf ∧ leaves t !! Z.to_nat r = Some leaf.
Proof.
  intros HB [Hr0 Hr]%at_Some Hmin Hmax. destruct (b_keys _ _ _ _ _ _ HB) as (ks & Hks & Hk).
  destruct (b_marks _ _ _ _ _ _ HB) as (ms & Hms & Hm). rewrite Hks in Hr.
  destruct (Z.to_nat r) as [|i] eqn:Hi; [by injection Hr as <-|]. simpl in Hr.
  assert (ks !! i = Some key) as Hki.
  { apply lookup_app_Some in Hr as [|[_ Hr]]; [done|]. destruct (i - length ks)%nat; [by injection Hr as <-|done]. }
  destruct (Forall2_lookup_r _ _ _ _ _ Hk Hki) as (e & He & Hke). destruct (Forall2_lookup_l _ _ _ _ _ Hm He) as (m & Hmi & Hme).
  destruct (built_leaf keccak256 getAddress abiEncodeKey abiEncodeMark EVM_NAMESPACE t (S i) key m HB) as (leaf & Hleaf & Hl).
  { rewrite Hks. simpl. by apply lookup_app_l_Some. }
  { rewrite Hms. simpl. by apply lookup_app_l_Some. }
  split; [lia|]. exists e, leaf. replace (Z.to_nat (r - 1)) with i by lia. split_and!; [done|done| |done].
  unfold Roster.rosterLeaf. rewrite Hke. simpl. by rewrite Hme.
Qed.

(** Where the search ends. *)
Lemma search_built t target key : Built t → subjectKey target EVM_NAMESPACE = Ok key → key ≠ MIN_KEY → key ≠ MAX_KEY →
  ∃ r x, search (length (keys t)) (keys t) key 1 (Z.of_nat (length (keys t)) - 1) = r ∧ 1 ≤ r < Z.of_nat (length (keys t))
    ∧ at_ (keys t) r = Some x ∧ str_ltb x key = false ∧ ∀ j y, j < r → at_ (keys t) j = Some y → str_ltb y key = true.
Proof.
  intros HB Hkey Hmin Hmax.
  pose proof (subjectKey_word keccak256 getAddress abiEncodeKey keccak_word _ _ _ Hkey) as Hw.
  destruct (key_between key Hw Hmin Hmax) as [Hlo Hhi]. destruct (b_keys _ _ _ _ _ _ HB) as (ks & Hks & _).
  assert (length (keys t) = (2 + length ks)%nat) as Hlen by (rewrite Hks; simpl; rewrite length_app; simpl; lia).
  assert (∀ x, at_ (keys t) (Z.of_nat (length (keys t)) - 1) = Some x → x = MAX_KEY) as Hlast.
  { intros x [_ Hx]%at_Some. rewrite Hlen in Hx. replace (Z.to_nat (Z.of_nat (2 + length ks) - 1)) with (S (length ks)) in Hx by lia.
    rewrite Hks in Hx. simpl in Hx. rewrite list_lookup_middle in Hx by done. by injection Hx as <-. }
  destruct (search_spec key (keys t) (length (keys t)) (b_sorted _ _ _ _ _ _ HB) 1 (Z.of_nat (length (keys t)) - 1))
    as (r & x & Hr & Hb & Hx & Hge & Hlt); [lia|lia|lia| | |exists r, x; split_and!; [done|lia|lia|done|done|done]].
  - intros j x Hj [Hj0 Hx]%at_Some. replace (Z.to_nat j) with 0%nat in Hx by lia. rewrite Hks in Hx. injection Hx as <-. done.
  - intros x ->%Hlast. by apply str_ltb_asym.
Qed.

Definition transactionOf (l : Loaded) (target : string) (m : Mark) (p : InclusionProof) : Transaction :=
  {| tx_chainId := hubChainId (scope (bundle l)); tx_to := registry (scope (bundle l)); tx_data := encodeWitness target m p |}.
Definition markOf (e : RosterEntry) : Mark :=
  {| mk_attrs := attrs e; mk_claimsRoot := claimsRoot e; mk_evidenceHash := evidenceHash e; mk_issuer := issuer e |}.

(** The first key above an absent one is where the non-inclusion proof has its right neighbour. *)
Lemma absent_proof t target key r x : Built t → subjectKey target EVM_NAMESPACE = Ok key →
  at_ (keys t) r = Some x → str_ltb x key = false → x ≠ key → (∀ j y, j < r → at_ (keys t) j = Some y → str_ltb y key = true) →
  ∃ l p, inclusionProof t (r - 1) = Ok l ∧ inclusionProof t r = Ok p ∧
    verifyNonInclusion (root t) target
      {| left := l; leftKey := default "" (at_ (keys t) (r - 1)); leftMark := default "" (at_ (marks t) (r - 1));
         right := p; rightKey := default "" (at_ (keys t) r); rightMark := default "" (at_ (marks t) r) |} EVM_NAMESPACE = Ok true.
Proof.
  intros HB Hkey Hx Hge Hne Hbelow. pose proof (b_sorted _ _ _ _ _ _ HB) as Hs.
  assert (str_ltb key x = true) as Hlt by (destruct (str_ltb_total key x) as [|H]; [congruence|done|congruence]).
  assert (key ∉ keys t) as Hnin.
  { intros (i & Hi)%list_elem_of_lookup. assert (at_ (keys t) (Z.of_nat i) = Some key) as Hat by by rewrite at_lookup.
    destruct (Z.lt_trichotomy (Z.of_nat i) r) as [Hlt'|[Heq|Hgt]].
    - apply (Hbelow _ _ Hlt') in Hat. by rewrite str_ltb_irrefl in Hat.
    - congruence.
    - pose proof (sorted_at _ _ _ _ _ Hs Hx Hat Hgt) as H. congruence. }
  destruct (nonInclusion_ok keccak256 getAddress abiEncodeKey abiEncodeMark keccak_word EVM_NAMESPACE t target key HB Hkey Hnin) as (p & Hp & Hv).
  unfold nonInclusionProof in Hp. rewrite Hkey in Hp. cbn [obind] in Hp. rewrite bool_decide_eq_false_2 in Hp by done. cbn [negb orequire obind] in Hp.
  assert (findIndex (λ k, str_ltb key k) (keys t) = r) as Hfi.
  { destruct (findIndex_spec (λ k, str_ltb key k) (keys t)) as [[_ Hall]|(i & y & -> & Hy & Hky & Hbefore)].
    - apply at_Some in Hx as [_ Hx]. rewrite (Hall x (list_elem_of_lookup_2 _ _ _ Hx)) in Hlt. done.
    - apply at_Some in Hx as [Hr0 Hx]. destruct (Z.lt_trichotomy (Z.of_nat i) r) as [Hlt'|[Heq|Hgt]]; [|done|].
      + assert (at_ (keys t) (Z.of_nat i) = Some y) as Hat by by rewrite at_lookup.
        apply (Hbelow _ _ Hlt'), str_ltb_asym in Hat. congruence.
      + specialize (Hbefore (Z.to_nat r) x ltac:(lia) Hx). congruence. }
  rewrite Hfi in Hp. apply obind_ok in Hp as (u & _ & (l & Hl & (p' & Hp' & [= <-])%obind_ok)%obind_ok). by exists l, p'.
Qed.

Lemma proof_spec bytes h l target normalized key : loadRosterBundle bytes h = Ok l →
  address (Some target) = true → getAddress target = Ok normalized → subjectKey normalized EVM_NAMESPACE = Ok key →
  key ≠ MIN_KEY → key ≠ MAX_KEY →
  (∀ e, e ∈ b_entries (bundle l) → subjectKey (subject e) EVM_NAMESPACE = Ok key → ∃ p leaf,
     proof l target = Ok (Inclusion (metadata l) normalized (markOf e) p (transactionOf l normalized (markOf e) p))
     ∧ rosterLeaf e EVM_NAMESPACE = Ok leaf ∧ verifyInclusion (b_root (bundle l)) leaf p = Ok true) ∧
  ((∀ e, e ∈ b_entries (bundle l) → subjectKey (subject e) EVM_NAMESPACE ≠ Ok key) → ∃ p,
     proof l target = Ok (NonInclusion (metadata l) normalized p)
     ∧ verifyNonInclusion (b_root (bundle l)) normalized p EVM_NAMESPACE = Ok true).
Proof.
  intros (_ & _ & _ & Ht & Hroot)%load_inv Ha Hn Hkey Hmin Hmax.
  destruct (buildRoster_inv _ _ _ _ keccak_word _ _ _ Ht) as [HB Hperm].
  destruct (search_built _ _ _ HB Hkey Hmin Hmax) as (r & x & Hsr & Hr & Hx & Hge & Hbelow).
  assert (proof l target = proof l target) as Hproof by done. unfold proof at 2 in Hproof. rewrite Ha, Hn in Hproof. cbn [orequire obind] in Hproof. rewrite Hkey in Hproof.
  cbn [obind] in Hproof. cbv zeta in Hproof. rewrite Hsr, Hx in Hproof. split.
  - intros e He Hke. rewrite <- Hperm in He. apply list_elem_of_lookup in He as (i & Hi).
    destruct (b_keys _ _ _ _ _ _ HB) as (ks & Hks & Hk). destruct (Forall2_lookup_l _ _ _ _ _ Hk Hi) as (k & Hki & Hke').
    assert (k = key) as -> by congruence.
    assert (at_ (keys (tree l)) (Z.of_nat (S i)) = Some key) as Hat.
    { rewrite at_lookup, Hks. simpl. by apply lookup_app_l_Some. }
    assert (r = Z.of_nat (S i)) as ->.
    { destruct (Z.lt_trichotomy (Z.of_nat (S i)) r) as [Hlt'|[Heq|Hgt]]; [|done|].
      - apply (Hbelow _ _ Hlt') in Hat. by rewrite str_ltb_irrefl in Hat.
      - pose proof (sorted_at _ _ _ _ _ (b_sorted _ _ _ _ _ _ HB) Hx Hat Hgt). congruence. }
    assert (x = key) as -> by congruence.
    rewrite bool_decide_eq_true_2 in Hproof by done. cbn [negb] in Hproof.
    destruct (built_entry _ _ _ HB Hx Hmin Hmax) as (Hr0 & e' & leaf & He' & _ & Hleaf & Hl).
    replace (Z.to_nat (Z.of_nat (S i) - 1)) with i in * by lia. assert (e' = e) as -> by congruence.
    rewrite Nat2Z.id in Hl.
    destruct (inclusion_ok keccak256 getAddress abiEncodeKey abiEncodeMark keccak_word EVM_NAMESPACE (tree l) (S i) leaf HB Hl) as [Hip Hv].
    unfold leafIndexOf in Hproof. replace (Z.of_nat (S i) - 1 + 1) with (Z.of_nat (S i)) in Hproof by lia.
    rewrite Hip, (proj2 (Z.ltb_ge (Z.of_nat (S i) - 1) 0) Hr0), Hi in Hproof. cbn [obind] in Hproof.
    eexists _, leaf. split; [exact Hproof|]. split; [done|]. by rewrite (verifyInclusion_case _ _ _ _ (eq_sym Hroot)).
  - intros Hno. assert (x ≠ key) as Hne.
    { intros ->. destruct (built_entry _ _ _ HB Hx Hmin Hmax) as (_ & e & _ & He & Hke & _). apply (Hno e); [|done].
      rewrite <- Hperm. by eapply list_elem_of_lookup_2. }
    rewrite bool_decide_eq_false_2 in Hproof by congruence. cbn [negb] in Hproof.
    destruct (absent_proof _ _ _ _ _ HB Hkey Hx Hge Hne Hbelow) as (lp & rp & Hlp & Hrp & Hv).
    rewrite Hlp, Hrp in Hproof. cbn [obind] in Hproof. eexists. split; [exact Hproof|].
    rewrite (verifyNonInclusion_case _ _ _ _ _ (eq_sym Hroot)). by rewrite Hx in Hv.
Qed.

(** * Exported bundles load *)

Lemma Forall2_perm {A B} (P : A → B → Prop) l l' : l ≡ₚ l' → ∀ ys, Forall2 P l ys → ∃ ys', Forall2 P l' ys' ∧ ys ≡ₚ ys'.
Proof.
  induction 1 as [|x l l' _ IH|x y l|l1 l2 l3 _ IH1 _ IH2]; intros ys.
  - intros ->%Forall2_nil_inv_l. by exists [].
  - intros (y & ys1 & Hy & H1 & ->)%Forall2_cons_inv_l. destruct (IH ys1 H1) as (ys' & H' & Hp).
    exists (y :: ys'). by split; constructor.
  - intros (b & ys1 & Hb & (a & ys2 & Ha & H2 & ->)%Forall2_cons_inv_l & ->)%Forall2_cons_inv_l.
    exists (a :: b :: ys2). split; [by repeat constructor|by constructor].
  - intros H1. destruct (IH1 ys H1) as (ys' & H' & Hp). destruct (IH2 ys' H') as (ys'' & H'' & Hp'). exists ys''. split; [done|]. by etrans.
Qed.
Lemma omap_out_perm {A B} (f : A → outcome B) l l' ys : l ≡ₚ l' → omap_out f l = Ok ys → ∃ ys', omap_out f l' = Ok ys' ∧ ys ≡ₚ ys'.
Proof.
  intros Hp H%omap_out_Forall2. destruct (Forall2_perm _ _ _ Hp _ H) as (ys' & H' & Hy). exists ys'. by split; [apply omap_out_Forall2|].
Qed.

(** The tree does not depend on the order of the entries. *)
Lemma buildRoster_perm es es' t : es ≡ₚ es' → buildRoster es EVM_NAMESPACE = Ok t → buildRoster es' EVM_NAMESPACE = Ok t.
Proof.
  intros Hp. unfold Roster.buildRoster. intros (u & Hu & H)%obind_ok.
  destruct (omap_out_perm _ _ _ _ Hp Hu) as (u' & Hu' & Hpu). rewrite Hu'. cbn [obind].
  enough (sort_by keyLe u' = sort_by keyLe u) as -> by exact H.
  assert (StronglySorted keyLe (sort_by keyLe u)) as Hs by (apply sort_by_sorted; [apply keyLe_total|apply keyLe_trans]).
  assert (NoDup (map snd u)) as Hnd.
  { apply obind_ok in H as ([] & Hd & _). pose proof (strict_keys _ Hs Hd) as Hk.
    assert (NoDup (map snd (sort_by keyLe u))) as Hn.
    { clear -Hk. induction Hk as [|x l _ IH Hx]; constructor; [|done]. intros Hin. rewrite Forall_forall in Hx.
      apply Hx in Hin. by rewrite str_ltb_irrefl in Hin. }
    by rewrite sort_by_perm in Hn. }
  symmetry. apply (StronglySorted_unique_strong (λ x y, keyLe x y)).
  - intros [e k] [e' k']. rewrite !sort_by_perm, <- Hpu. intros H1 H2 H3%Is_true_eq_true%keyLe_spec H4%Is_true_eq_true%keyLe_spec.
    simpl in H3, H4. assert (k = k') as <-.
    { destruct H3 as [|H3], H4 as [|H4]; [done..|]. apply str_ltb_asym in H3. congruence. }
    f_equal. apply list_elem_of_lookup in H1 as (i & Hi), H2 as (j & Hj).
    assert (i = j) as ->; [|congruence]. apply (NoDup_lookup (map snd u) i j k Hnd); rewrite list_lookup_fmap; [by rewrite Hi|by rewrite Hj].
  - done.
  - apply sort_by_sorted; [apply keyLe_total|apply keyLe_trans].
  - by rewrite !sort_by_perm.
Qed.

Lemma checkedEntry_json cutoff approved e e' : checkedEntry cutoff approved (entryJson e) = Ok e' → e' = e.
Proof. destruct e. intros (u & _ & (u' & _ & [= <-])%obind_ok)%obind_ok. done. Qed.

(** The checks on the object of [exportRosterBundle], with its fields read. *)
Definition typedCheck (f1 f2 f3 : Z) (c : RosterBundle) : outcome RosterBundle :=
  let limits := EError "invalid roster bundle scope/epoch/provenance/limits" in
  let? _ := Legacy.assertRosterRecordVersion {| Legacy.rosterFormatVersion := Some f1;
              Legacy.epochSchemaVersion := Some f2; Legacy.rosterAuthVersion := Some f3 |} in
  let? s := checkedScope (Some (scopeJson (scope c))) in
  let? _ := orequire (uint (Some (epoch c)) 0xffffffff 1 && uint (Some (listVersion c)) 0xffffffff 0
                      && digest (Some (b_root c)) && digest (Some (snapshotId c))
                      && uint (Some (sourceCutoff c)) 0xffffffffff 1 && uint (Some (publishedAt c)) 0xffffffffff 1
                      && uint (Some (validUntil c)) 0xffffffffff 1) limits in
  let? _ := orequire ((sourceCutoff c <=? publishedAt c) && (publishedAt c <=? sourceCutoff c + 3600)
                      && (publishedAt c <? validUntil c) && (validUntil c <=? sourceCutoff c + 86400)) limits in
  let issuers := map JStr (approvedIssuers c) in
  let? _ := orequire ((Z.of_nat (length (map entryJson (b_entries c))) <=? MAX_BUNDLE_ENTRIES) && (1 <=? Z.of_nat (length issuers))
                      && (Z.of_nat (length issuers) <=? 16) && forallb (λ v, address (str (Some v))) issuers) limits in
  let approved := map (λ v, toLowerCase (text (Some v))) issuers in
  let? _ := orequire (bool_decide (NoDup approved)) (EError "duplicate bundle issuer") in
  let? entries := omap_out (checkedEntry (sourceCutoff c) approved) (map entryJson (b_entries c)) in
  Ok {| scope := s; epoch := epoch c; b_root := b_root c; listVersion := listVersion c; sourceCutoff := sourceCutoff c;
        publishedAt := publishedAt c; validUntil := validUntil c; snapshotId := snapshotId c;
        approvedIssuers := map (λ v, text (Some v)) issuers; b_entries := entries |}.

Lemma typedCheck_eq f1 f2 f3 c : checkedBundle (bundleFields f1 f2 f3 c) = typedCheck f1 f2 f3 c.
Proof. reflexivity. Qed.

Lemma checkedScope_json s s' : checkedScope (Some (scopeJson s)) = Ok s' → s' = s.
Proof. destruct s. intros (u & _ & (u' & _ & [= <-])%obind_ok)%obind_ok. done. Qed.

Lemma checkedEntries_json cutoff approved es es' : omap_out (checkedEntry cutoff approved) (map entryJson es) = Ok es' → es' = es.
Proof.
  intros H%omap_out_Forall2. apply Forall2_fmap_l in H. induction H as [|e e' es es' He _ IH]; [done|].
  apply checkedEntry_json in He as ->. by rewrite IH.
Qed.

(** The checks of a bundle object do not depend on the order of its entries. *)
Lemma checkedBundle_fields f1 f2 f3 c b : checkedBundle (bundleFields f1 f2 f3 c) = Ok b → b = c
  ∧ bundleFields f1 f2 f3 = bundleJson ∧ ∀ es, es ≡ₚ b_entries c → checkedBundle (bundleJson (withEntries c es)) = Ok (withEntries c es).
Proof.
  rewrite typedCheck_eq. unfold bundleJson. unfold typedCheck at 1. cbv zeta.
  intros (u1 & H1 & (s & Hs & (u2 & H2 & (u3 & H3 & (u4 & H4 & (u5 & H5 & (es' & He & [= <-])%obind_ok)%obind_ok)%obind_ok)%obind_ok)%obind_ok)%obind_ok)%obind_ok.
  pose proof (checkedScope_json _ _ Hs) as ->. pose proof (checkedEntries_json _ _ _ _ He) as ->.
  assert (map (λ v, text (Some v)) (map JStr (approvedIssuers c)) = approvedIssuers c) as Hiss by (rewrite map_map; apply map_id).
  rewrite Hiss. split; [by destruct c|].
  apply orequire_ok in H1. rewrite !andb_true_iff, !bool_decide_eq_true in H1. destruct H1 as [[E1 E2] E3]. injection E1 as E1. injection E2 as E2. injection E3 as E3. subst.
  split; [done|]. intros es Hp. rewrite typedCheck_eq. unfold typedCheck. cbv zeta. change (scope (withEntries c es)) with (scope c). rewrite Hs. cbn [obind].
  apply orequire_ok in H2, H3, H4, H5.
  assert (length (map entryJson es) = length (map entryJson (b_entries c))) as Hlen by by rewrite !length_map, Hp.
  cbn [scope epoch b_root listVersion sourceCutoff publishedAt validUntil snapshotId approvedIssuers b_entries withEntries].
  rewrite H2, H3, Hlen, H4, H5, Hiss. cbn [orequire obind].
  assert (omap_out (checkedEntry (sourceCutoff c) (map (λ v, toLowerCase (text (Some v))) (map JStr (approvedIssuers c)))) (map entryJson es) = Ok es) as ->.
  { destruct (omap_out_perm _ _ (map entryJson es) _ ltac:(by rewrite Hp) He) as (es' & He' & _).
    by rewrite He', (checkedEntries_json _ _ _ _ He'). }
  reflexivity.
Qed.

Lemma exported_inv record s b : exportedBundle record s = Ok b → ∃ c t,
  canonicalBundle (er_bundle record) s = Ok c ∧ b = withEntries c (entries t) ∧ buildRoster (b_entries c) EVM_NAMESPACE = Ok t
  ∧ root t = b_root c ∧ entries t ≡ₚ b_entries c ∧ checkedBundle (bundleJson b) = Ok b.
Proof.
  intros (c & Hc & (b' & Hb & (t & Ht & (u & Hr%orequire_ok & [= <-])%obind_ok)%obind_ok)%obind_ok)%obind_ok.
  apply checkedBundle_fields in Hb as (-> & _ & Hperm). apply String.eqb_eq in Hr.
  destruct (buildRoster_inv _ _ _ _ keccak_word _ _ _ Ht) as [_ Hp]. exists c, t. by split_and!; [..|apply Hperm].
Qed.

(** The exported bytes load, under the digest returned with them. *)
Lemma export_loads record s b bytes h : exportedBundle record s = Ok b → exportRosterBundle record s = Ok (bytes, h) →
  utf8Decode (utf8Encode (bundleText b)) = Ok (bundleText b) → parse (bundleText b) = Ok (bundleJson b) →
  byteLength bytes ≠ 0 → String.length h = 64%nat → allChars isLowerHex h = true →
  ∃ t, loadRosterBundle bytes h = Ok {| contentHash := h; bundle := b; tree := t |}
    ∧ entries t = b_entries b ∧ root t = b_root b.
Proof.
  intros Hb He Hutf Hparse Hlen H64 Hhex. unfold exportRosterBundle in He. rewrite Hb in He. cbn [obind] in He.
  apply obind_ok in He as (u & Hsize%orequire_ok & [= <- <-]).
  destruct (exported_inv _ _ _ Hb) as (c & t & Hc & -> & Ht & Hr & Hp & Hcheck). exists t. split; [|done].
  unfold loadRosterBundle. apply Z.eqb_neq in Hlen. rewrite H64, Hhex, Hlen, Hsize, String.eqb_refl. cbn [Nat.eqb negb andb orequire obind].
  rewrite Hutf. cbn [obind]. rewrite Hparse. cbn [obind]. rewrite Hcheck. cbn [obind].
  replace (buildRoster _ _) with (Ok t) by (symmetry; by apply (buildRoster_perm _ _ _ (symmetry Hp))). cbn [obind].
  change (b_root (withEntries c (entries t))) with (b_root c). by rewrite Hr, String.eqb_refl.
Qed.

Definition withRecord (r : EpochRecord) (es : list RosterEntry) : EpochRecord :=
  {| rosterFormatVersion := rosterFormatVersion r; epochSchemaVersion := epochSchemaVersion r;
     rosterAuthVersion := rosterAuthVersion r; er_bundle := withEntries (er_bundle r) es |}.

(** The exported object does not depend on the order of the entries of the record. *)
Lemma exported_perm record s es b : es ≡ₚ b_entries (er_bundle record) →
  exportedBundle record s = Ok b → exportedBundle (withRecord record es) s = Ok b.
Proof.
  intros Hp Hb. unfold exportedBundle in Hb. apply obind_ok in Hb as (c & Hc & (b' & Hb' & Hrest)%obind_ok).
  unfold canonicalBundle in Hc. apply obind_ok in Hc as (a1 & H1 & (a2 & H2 & (a3 & H3 & (is_ & H4 & (ces & H5 & [= <-])%obind_ok)%obind_ok)%obind_ok)%obind_ok).
  destruct (omap_out_perm _ _ es _ (symmetry Hp) H5) as (ces' & H5' & Hpc).
  apply checkedBundle_fields in Hb' as (-> & Hf & Hperm). specialize (Hperm ces' (symmetry Hpc)).
  unfold exportedBundle, canonicalBundle. cbn [withRecord er_bundle withEntries approvedIssuers b_entries].
  rewrite H1. cbn [obind]. rewrite H2. cbn [obind]. rewrite H3. cbn [obind]. rewrite H4. cbn [obind]. rewrite H5'. cbn [obind].
  etrans; [|exact Hrest]. cbn [rosterFormatVersion epochSchemaVersion rosterAuthVersion withRecord]. rewrite Hf.
  unfold withEntries in *. cbn [scope epoch b_root listVersion sourceCutoff publishedAt validUntil snapshotId approvedIssuers b_entries] in *.
  rewrite Hperm. cbn [obind]. apply obind_ok in Hrest as (t & Ht & (u & Hr & [= <-])%obind_ok). rewrite Ht. cbn [obind].
  cbn [b_entries b_root] in *. rewrite (buildRoster_perm _ _ _ Hpc Ht). cbn [obind]. by rewrite Hr.
Qed.
End bundle.
End RosterBundle.

Module RosterBundleProofs.
Import Roster RosterBundle.

(** A published epoch record survives its distribution: what
    [exportRosterBundle] writes, [loadRosterBundle] accepts under the digest returned
    with it, given that decoding and parsing that text give the object back; the loaded
    bundle is the exported one, a checked bundle of the record's canonical fields, whose
    entries are those of the record in the order of the tree; and the bytes are
    reproducible, any order of the record's entries giving the same. *)
Theorem bundle_roundtrip (keccak256 : string → string) (isAddress : string → bool) (getAddress : string → outcome string)
    (abiEncodeKey : string → string → string) (abiEncodeMark : string → string → string → string → outcome string)
    {Bytes : Type} (utf8Encode : string → Bytes) (utf8Decode : Bytes → outcome string) (byteLength : Bytes → Z)
    (sha256 : Bytes → string) (parse : string → outcome json) (record : EpochRecord) (s : RosterScope)
    (b : RosterBundle) (bytes : Bytes) (h : string)
    (keccak_word : ∀ x, isLowerBytes32 (keccak256 x) = true)
    (sha256_hex : ∀ x, String.length (sha256 x) = 64%nat ∧ allChars isLowerHex (sha256 x) = true)
    (utf8_text : utf8Decode (utf8Encode (bundleText b)) = Ok (bundleText b) ∧ byteLength (utf8Encode (bundleText b)) ≠ 0)
    (parse_text : parse (bundleText b) = Ok (bundleJson b)) :
  let exported := exportedBundle keccak256 isAddress getAddress abiEncodeKey abiEncodeMark in
  let export := exportRosterBundle keccak256 isAddress getAddress abiEncodeKey abiEncodeMark utf8Encode byteLength sha256 in
  exported record s = Ok b → export record s = Ok (bytes, h) →
  (∃ t, loadRosterBundle keccak256 isAddress getAddress abiEncodeKey abiEncodeMark utf8Decode byteLength sha256 parse bytes h
        = Ok {| contentHash := h; bundle := b; tree := t |} ∧ entries t = b_entries b ∧ root t = b_root b) ∧
  (∃ c, canonicalBundle getAddress (er_bundle record) s = Ok c ∧ b_entries b ≡ₚ b_entries c ∧ b = withEntries c (b_entries b)
     ∧ Distributable b) ∧
  ∀ es, es ≡ₚ b_entries (er_bundle record) → export (withRecord record es) s = Ok (bytes, h).
Proof.
  intros exported export Hb He. pose proof He as He'. unfold export, exportRosterBundle in He'. unfold exported in Hb. rewrite Hb in He'. cbn [obind] in He'.
  apply obind_ok in He' as (u & Hsize & [= Hbytes Hh]). split_and!.
  - apply (export_loads keccak256 isAddress getAddress abiEncodeKey abiEncodeMark utf8Encode utf8Decode byteLength sha256 parse keccak_word record s);
      [done|done|apply utf8_text|done|rewrite <- Hbytes; apply utf8_text|rewrite <- Hh; apply sha256_hex..].
  - destruct (exported_inv _ _ _ _ _ keccak_word _ _ _ Hb) as (c & t & Hc & -> & _ & _ & Hp & Hcheck). exists c.
    split_and!; [done|done|done|]. by eapply checkedBundle_inv.
  - intros es Hp. unfold export, exportRosterBundle.
    rewrite (exported_perm keccak256 isAddress getAddress abiEncodeKey abiEncodeMark record s es b Hp Hb). cbn [obind].
    rewrite Hsize. cbn [obind]. by rewrite Hh, Hbytes.
Qed.

(** C12. A loaded bundle has the digest it is pinned to and passed the consumer's
    checks (its times, its approved issuers, its size, the attributes of its entries at
    the source cutoff), and it answers every subject whose key is not a sentinel: a
    subject with an entry by the mark of that entry and an inclusion proof that the root
    published in the bundle accepts, any other subject by a non-inclusion proof accepted
    under that root. *)
Theorem bundle_answers (keccak256 : string → string) (isAddress : string → bool) (getAddress : string → outcome string)
    (abiEncodeKey : string → string → string) (abiEncodeMark : string → string → string → string → outcome string)
    {Bytes : Type} (utf8Decode : Bytes → outcome string) (byteLength : Bytes → Z)
    (sha256 : Bytes → string) (parse : string → outcome json) (encodeWitness : string → Mark → InclusionProof → string)
    (bytes : Bytes) (h : string) (l : Loaded) (keccak_word : ∀ x, isLowerBytes32 (keccak256 x) = true) :
  loadRosterBundle keccak256 isAddress getAddress abiEncodeKey abiEncodeMark utf8Decode byteLength sha256 parse bytes h = Ok l →
  sha256 bytes = h ∧ Distributable (bundle l) ∧
  ∀ target normalized key, address isAddress (Some target) = true → getAddress target = Ok normalized →
    subjectKey keccak256 getAddress abiEncodeKey normalized EVM_NAMESPACE = Ok key → key ≠ MIN_KEY → key ≠ MAX_KEY →
    let answer := proof keccak256 isAddress getAddress abiEncodeKey encodeWitness l target in
    (∀ e, e ∈ b_entries (bundle l) → subjectKey keccak256 getAddress abiEncodeKey (subject e) EVM_NAMESPACE = Ok key → ∃ p leaf,
       answer = Ok (Inclusion (metadata l) normalized (markOf e) p (transactionOf encodeWitness l normalized (markOf e) p))
       ∧ rosterLeaf keccak256 getAddress abiEncodeKey abiEncodeMark e EVM_NAMESPACE = Ok leaf
       ∧ verifyInclusion keccak256 (b_root (bundle l)) leaf p = Ok true) ∧
    ((∀ e, e ∈ b_entries (bundle l) → subjectKey keccak256 getAddress abiEncodeKey (subject e) EVM_NAMESPACE ≠ Ok key) → ∃ p,
       answer = Ok (NonInclusion (metadata l) normalized p)
       ∧ verifyNonInclusion keccak256 getAddress abiEncodeKey (b_root (bundle l)) normalized p EVM_NAMESPACE = Ok true).
Proof.
  intros Hl. pose proof (load_inv _ _ _ _ _ _ _ _ _ _ _ _ Hl) as (Hh & _ & Hd & _). split; [done|]. split; [done|].
  intros target normalized key Ha Hn Hk Hmin Hmax. by eapply proof_spec.
Qed.

(** ** A bundle of three subjects *)

Import RosterProofs.
Definition address_ (last : string) : string := "0x00000000000000000000000000000000000000" +:+ last.
Definition exSubject (last : string) : RosterEntry := {|
  subject := address_ last; attrs := Attrs.exWord; claimsRoot := toyHash last; evidenceHash := toyHash "evidence"; issuer := address_ "AA" |}.
Definition exSubjects : list RosterEntry := [exSubject "03"; exSubject "01"; exSubject "02"].
Definition exScope : RosterScope := {|
  sourceChainId := 11155111; sourceChainKey := 1; hubChainId := 102033; source := address_ "b1"; asc := address_ "b2"; registry := address_ "b3" |}.
Definition exRoot : string := Eval vm_compute in
  root (ok_or emptyTree (buildRoster toyHash Ok exKey exMark exSubjects EVM_NAMESPACE)).
Definition exRecord : EpochRecord := {| rosterFormatVersion := 2; epochSchemaVersion := 2; rosterAuthVersion := 1; er_bundle := {|
  scope := exScope; epoch := 1; b_root := exRoot; listVersion := 4; sourceCutoff := 1780000000; publishedAt := 1780000900;
  validUntil := 1780086400; snapshotId := toyHash "snapshot"; approvedIssuers := [address_ "AA"; address_ "0b"]; b_entries := exSubjects |} |}.
Definition toySha (s : string) : string := hexDigits 64 (Z.of_nat (String.length s)).
Definition toyLength (s : string) : Z := Z.of_nat (String.length s).
Definition exBundle : RosterBundle := Eval vm_compute in
  ok_or (er_bundle exRecord) (exportedBundle toyHash isAddress20 Ok exKey exMark exRecord exScope).
Definition exBytes : string := Eval vm_compute in bundleText exBundle.
Definition exDigest : string := Eval vm_compute in toySha exBytes.
Definition toyParse (s : string) : outcome json := if String.eqb s exBytes then Ok (bundleJson exBundle) else Throw (EError "SyntaxError").
Definition exLoaded : Loaded := Eval vm_compute in
  ok_or {| contentHash := ""; bundle := exBundle; tree := emptyTree |}
    (loadRosterBundle toyHash isAddress20 Ok exKey exMark Ok toyLength toySha toyParse exBytes exDigest).

Lemma exExported : exportedBundle toyHash isAddress20 Ok exKey exMark exRecord exScope = Ok exBundle.
Proof. by vm_compute. Qed.
Lemma exExport : exportRosterBundle toyHash isAddress20 Ok exKey exMark id toyLength toySha exRecord exScope = Ok (exBytes, exDigest).
Proof. by vm_compute. Qed.
Lemma exText : bundleText exBundle = exBytes.
Proof. by vm_compute. Qed.
Lemma exLoad : loadRosterBundle toyHash isAddress20 Ok exKey exMark Ok toyLength toySha toyParse exBytes exDigest = Ok exLoaded.
Proof. by vm_compute. Qed.
Lemma toySha_hex s : String.length (toySha s) = 64%nat ∧ allChars isLowerHex (toySha s) = true.
Proof. split; [apply hexDigits_length|apply hexDigits_chars]. Qed.
Lemma toyText : (Ok (bundleText exBundle) : outcome string) = Ok (bundleText exBundle) ∧ toyLength (bundleText exBundle) ≠ 0.
Proof. split; [done|]. by vm_compute. Qed.
Lemma toyParsed : toyParse (bundleText exBundle) = Ok (bundleJson exBundle).
Proof. rewrite exText. unfold toyParse. by rewrite String.eqb_refl. Qed.

(** The bytes are those of the record with its entries in another order. *)
Lemma bundle_roundtrip_witness :
  exportRosterBundle toyHash isAddress20 Ok exKey exMark id toyLength toySha (withRecord exRecord (rev exSubjects)) exScope = Ok (exBytes, exDigest).
Proof.
  apply (bundle_roundtrip toyHash isAddress20 Ok exKey exMark id Ok toyLength toySha toyParse exRecord exScope exBundle exBytes exDigest
    toyHash_word toySha_hex toyText toyParsed exExported exExport). symmetry. apply Permutation_rev.
Defined.

(** The first subject of the record, and an address without an entry. *)
Lemma bundle_answers_witness :
  (∃ p leaf, proof toyHash isAddress20 Ok exKey (λ _ _ _, "0x") exLoaded (address_ "03")
     = Ok (Inclusion (metadata exLoaded) (address_ "03") (markOf (exSubject "03")) p
             (transactionOf (λ _ _ _, "0x") exLoaded (address_ "03") (markOf (exSubject "03")) p))
     ∧ verifyInclusion toyHash exRoot leaf p = Ok true) ∧
  ∃ p, proof toyHash isAddress20 Ok exKey (λ _ _ _, "0x") exLoaded (address_ "04") = Ok (NonInclusion (metadata exLoaded) (address_ "04") p).
Proof.
  split.
  - destruct (bundle_answers toyHash isAddress20 Ok exKey exMark Ok toyLength toySha toyParse (λ _ _ _, "0x") exBytes exDigest exLoaded
      toyHash_word exLoad) as (_ & _ & H).
    destruct (proj1 (H (address_ "03") (address_ "03") (toyHash (exKey EVM_NAMESPACE (address_ "03"))) eq_refl eq_refl eq_refl
      ltac:(by vm_compute) ltac:(by vm_compute)) (exSubject "03")) as (p & leaf & Hp & _ & Hv).
    + apply (list_elem_of_lookup_2 _ 2). by vm_compute.
    + by vm_compute.
    + exists p, leaf. split; [exact Hp|exact Hv].
  - destruct (bundle_answers toyHash isAddress20 Ok exKey exMark Ok toyLength toySha toyParse (λ _ _ _, "0x") exBytes exDigest exLoaded
      toyHash_word exLoad) as (_ & _ & H).
    destruct (proj2 (H (address_ "04") (address_ "04") (toyHash (exKey EVM_NAMESPACE (address_ "04"))) eq_refl eq_refl eq_refl
      ltac:(by vm_compute) ltac:(by vm_compute))) as (p & Hp & _).
    + apply Forall_forall. repeat constructor; by vm_compute.
    + exists p. exact Hp.
Defined.
End RosterBundleProofs.
