(* ===== verification/External.v ===== *)
(** Credentials of an external provider, [src/pipeline/external-credential.ts]: a strict profile of signed
    tokens.  A token is authenticated (its exact text, signature, audience, wallet and times), normalised into
    the fields of a mark by the tables of a reviewed configuration, checked against the provider's status
    service and claimed in a replay store. *)

From Stdlib Require Import ZArith Lia Ascii String List.
From stdpp Require Import base decidable option list strings pretty gmap.
From S2P Require Import Prelude JS Json Roster Attrs.
Local Open Scope string_scope.
Local Open Scope list_scope.
Local Open Scope Z_scope.

(** * base64url without padding *)

Module Base64Url.

Definition charOf (n : Z) : ascii :=
  let k := Z.to_nat n in
  ascii_of_nat (if (k <? 26)%nat then 65 + k else if (k <? 52)%nat then 71 + k else if (k <? 62)%nat then k - 4
                else if (k =? 62)%nat then 45 else 95)%nat.
(** [/[A-Za-z0-9_-]/] and the value of such a character. *)
Definition isUrlChar (c : ascii) : bool :=
  let n := nat_of_ascii c in
  isDigit c || ((65 <=? n) && (n <=? 90))%nat || ((97 <=? n) && (n <=? 122))%nat || (n =? 45)%nat || (n =? 95)%nat.
Definition sextetOf (c : ascii) : Z :=
  let n := nat_of_ascii c in
  Z.of_nat (if (n =? 45)%nat then 62 else if (n =? 95)%nat then 63 else if (n <? 58)%nat then n + 4
            else if (n <? 91)%nat then n - 65 else n - 71)%nat.

(** [Buffer.from(s, 'base64url')]: a group of one character gives no byte, and the unused bits of the last
    group are dropped. *)
Fixpoint bytesOf (l : list Z) : list Z :=
  match l with
  | a :: b :: c :: d :: l => (4 * a + b / 16) :: (16 * (b mod 16) + c / 4) :: (64 * (c mod 4) + d) :: bytesOf l
  | [a; b; c] => [4 * a + b / 16; 16 * (b mod 16) + c / 4]
  | [a; b] => [4 * a + b / 16]
  | _ => []
  end.
(** [bytes.toString('base64url')] *)
Fixpoint sextets (bs : list Z) : list Z :=
  match bs with
  | a :: b :: c :: bs => (a / 4) :: (16 * (a mod 4) + b / 16) :: (4 * (b mod 16) + c / 64) :: (c mod 64) :: sextets bs
  | [a; b] => [a / 4; 16 * (a mod 4) + b / 16; 4 * (b mod 16)]
  | [a] => [a / 4; 16 * (a mod 4)]
  | [] => []
  end.
Definition decode (s : string) : list Z := bytesOf (map sextetOf (list_ascii_of_string s)).
Definition encode (bs : list Z) : string := string_of_list_ascii (map charOf (sextets bs)).

Definition isByte (b : Z) : Prop := 0 ≤ b < 256.

(** Induction by groups of three bytes. *)
Lemma bytes_ind (P : list Z → Prop) :
  P [] → (∀ a, P [a]) → (∀ a b, P [a; b]) → (∀ a b c l, P l → P (a :: b :: c :: l)) → ∀ l, P l.
Proof.
  intros H0 H1 H2 H3. enough (∀ l, P l ∧ (∀ a, P (a :: l)) ∧ (∀ a b, P (a :: b :: l))) as H by (intros l; apply H).
  induction l as [|x l IH]; [done|]. destruct IH as (IH1 & IH2 & IH3). split_and!; auto.
Qed.

Lemma bytesOf_sextets bs : Forall isByte bs → bytesOf (sextets bs) = bs.
Proof.
  induction bs as [|a|a b|a b c l IH] using bytes_ind; intros H; rewrite ?Forall_cons in H; unfold isByte in H; [done|..].
  - simpl. f_equal. Z.to_euclidean_division_equations. lia.
  - simpl. f_equal; [|f_equal]; Z.to_euclidean_division_equations; lia.
  - change (bytesOf (sextets (a :: b :: c :: l))) with
      ((4 * (a / 4) + (16 * (a mod 4) + b / 16) / 16) :: (16 * ((16 * (a mod 4) + b / 16) mod 16) + (4 * (b mod 16) + c / 64) / 4)
       :: (64 * ((4 * (b mod 16) + c / 64) mod 4) + c mod 64) :: bytesOf (sextets l)).
    rewrite IH by tauto. f_equal; [|f_equal; [|f_equal]]; Z.to_euclidean_division_equations; lia.
Qed.

Lemma sextets_range bs : Forall isByte bs → Forall (λ n, 0 ≤ n < 64) (sextets bs).
Proof.
  induction bs as [|a|a b|a b c l IH] using bytes_ind; intros H; rewrite ?Forall_cons in H; unfold isByte in H; cbn [sextets]; [done|..];
    rewrite ?Forall_cons; split_and!; try (apply IH; tauto); try done; Z.to_euclidean_division_equations; lia.
Qed.

Lemma sextetOf_charOf n : 0 ≤ n < 64 → sextetOf (charOf n) = n ∧ isUrlChar (charOf n) = true.
Proof.
  intros Hn. assert (∃ k : nat, (k < 64)%nat ∧ n = Z.of_nat k) as (k & Hk & ->) by (exists (Z.to_nat n); lia).
  do 64 (destruct k as [|k]; [by split|]). lia.
Qed.

(** Bytes are recovered from their text, and the text is made of the characters of the alphabet. *)
Lemma decode_encode bs : Forall isByte bs → decode (encode bs) = bs ∧ allChars isUrlChar (encode bs) = true.
Proof.
  intros H. pose proof (sextets_range bs H) as Hr. unfold decode, encode. rewrite list_ascii_of_string_of_list_ascii, map_map.
  assert (map (λ x, sextetOf (charOf x)) (sextets bs) = sextets bs) as ->.
  { clear H. induction Hr as [|n l Hn _ IH]; simpl; [done|]. by rewrite IH, (proj1 (sextetOf_charOf n Hn)). }
  split; [by apply bytesOf_sextets|]. clear H. induction Hr as [|n l Hn _ IH]; simpl; [done|].
  by rewrite (proj2 (sextetOf_charOf n Hn)).
Qed.
End Base64Url.

Module External.
Import Base64Url.

Definition EXTERNAL_CREDENTIAL_SCHEMA : string := "proofmark-external-jwt-v1".
Definition ZeroAddress : string := "0x0000000000000000000000000000000000000000".
Definition ZeroHash : string := "0x0000000000000000000000000000000000000000000000000000000000000000".
Definition fail_ (code : string) : exn := EClass "ExternalCredentialError" code.

(** * Data *)

Record Proofmark := {
  schema : string; provider : string; p_product : string; p_environment : string; p_assurance : string; p_regime : string;
  p_jurisdiction : string; checks : list string; evidenceDigest : string }.
(** [ExternalCredentialEnvelopeV1] *)
Record Envelope := {
  iss : string; aud : string; sub : string; jti : string; iat : Z; exp : Z; proofmark : Proofmark; credentialDigest : string }.
Record Publication := { model : string; sourceIssuer : string }.
(** [ExternalCredentialAdapterConfig]; the tables are the own properties of plain objects. *)
Record Config := {
  id_ : string; issuerId : string; issuerAddress : string; keyId : string; audience : string; product : string;
  environment : string; publication : Publication; c_assurance : list (string * Z); c_regimes : list (string * Z);
  c_jurisdictions : list (string * Z); c_methods : list (string * Z); requiredChecks : list string;
  maxCredentialAgeSeconds : Z; credentialIdHmacKey : string }.
(** [NormalizedExternalCredentialV1]; its schema field is a constant. *)
Record Normalized := {
  n_subject : string; n_issuer : string; n_methods : Z; n_assurance : Z; n_regime : Z; n_jurisdiction : Z; n_issuedAt : Z;
  n_expiry : Z; providerCredentialIdHash : string; n_evidenceHash : string; requestId : string; n_attrs : string; n_claimsRoot : string }.
(** What [consume] returns. *)
Inductive Consumed :=
  | Active (replay : string) (request : string) (credential : Normalized)
  | Revoked (request subject credentialIdHash evidence : string).

(** * Helpers *)

Definition object (v : json) : option (list (string * json)) := match v with JObj f => Some f | _ => None end.
(** [exactKeys]: the sorted keys are the sorted expected ones. *)
Definition exactKeys (f : list (string * json)) (keys : list string) : bool :=
  bool_decide (sort_by str_leb (dkeys f) = sort_by str_leb keys).
Definition controlChar (c : ascii) : bool := let n := nat_of_ascii c in (n <? 32)%nat || (n =? 127)%nat.
Definition safeString (s : string) (max : Z) : bool :=
  negb (String.eqb s "") && (Z.of_nat (String.length s) <=? max) && allChars (λ c, negb (controlChar c)) s.
Definition jsonString (v : option json) (max : Z) : bool := match v with Some (JStr s) => safeString s max | _ => false end.
Definition same (a b : string) : bool := String.eqb (toLowerCase a) (toLowerCase b).
Definition text (v : option json) : string := match v with Some (JStr s) => s | _ => "" end.
Definition num (v : option json) : option Z := match v with Some (JNum n) => Some n | _ => None end.
Definition isStr (v : option json) (s : string) : bool := match v with Some (JStr t) => String.eqb t s | _ => false end.
(** [ethers.isHexString(v, 32)] of any value. *)
Definition isHash (v : option json) : bool := match v with Some (JStr s) => isBytes32 s | _ => false end.
Definition safeNum (v : option json) : bool := match num v with Some n => isSafeInteger n | None => false end.
(** [/^[A-Z]{2}$/] *)
Definition isUpperLetter (c : ascii) : bool := let n := nat_of_ascii c in (65 <=? n)%nat && (n <=? 90)%nat.
Definition isCountry (s : string) : bool := Nat.eqb (String.length s) 2 && allChars isUpperLetter s.
(** [s.split('.')] *)
Fixpoint split_dots (s : string) : list string :=
  match s with
  | "" => [""]
  | String c s =>
      match split_dots s with
      | w :: ws => if Ascii.eqb c "." then "" :: w :: ws else String c w :: ws
      | [] => []
      end
  end.
Definition hexOf (bs : list Z) : string := "0x" +:+ fold_right (λ b acc, Roster.hexDigits 2 b +:+ acc) "" bs.
Definition hexConcat (a b : string) : string := "0x" +:+ (Roster.hexBody a +:+ Roster.hexBody b).

(** * The configuration *)

Definition validMethod (value : Z) : bool :=
  isSafeInteger value && (1 <=? value) && (Attrs.jsAnd value (value - 1) =? 0)
  && (Attrs.jsAnd value (Attrs.jsNot Attrs.SUPPORTED_METHODS) =? 0).

(** * [InMemoryCredentialReplayStore] *)

Abbreviation Claims := (gmap string string).
Definition claim_ (requestId credentialDigest : string) : M Claims string :=
  let! claims := getS in
  match claims !! requestId with
  | None => putS (<[requestId := credentialDigest]> claims) ;;; ret "fresh"
  | Some existing => ret (if String.eqb existing credentialDigest then "duplicate" else "conflict")
  end.

(** The store only grows; an answer other than a conflict means that it holds this claim. *)
Lemma claim_spec id digest m :
  (claim_ id digest m = (Ok "fresh", <[id := digest]> m) ∧ m !! id = None)
  ∨ (claim_ id digest m = (Ok "duplicate", m) ∧ m !! id = Some digest)
  ∨ (claim_ id digest m = (Ok "conflict", m) ∧ ∃ other, m !! id = Some other ∧ other ≠ digest).
Proof.
  unfold claim_, bind, getS, putS, ret. destruct (m !! id) as [other|] eqn:Hm; [|by left].
  destruct (String.eqb_spec other digest) as [<-|Hne]; [by right; left|]. right; right. split; [done|]. by exists other.
Qed.
Lemma claim_grows id digest m : m ⊆ (claim_ id digest m).2.
Proof.
  destruct (claim_spec id digest m) as [[-> Hm]|[[-> _]|[-> _]]]; simpl; [|done..]. by apply insert_subseteq.
Qed.

Section adapter.
(** [ethers.keccak256] of hexadecimal data, [ethers.hexlify(ethers.toUtf8Bytes(s))], [ethers.sha256] of such
    data, and the recovery of an address from a digest, r, s and the parity of y, which may throw. *)
Context (keccak256 : string → string) (toUtf8Bytes : string → string) (sha256 : string → string).
Context (recoverAddress : string → string → string → Z → outcome string).
Context (isAddress : string → bool) (getAddress : string → outcome string).
(** [createHmac('sha256', key).update(text).digest('hex')], the fatal UTF-8 decoder and [JSON.parse]. *)
Context (hmac : string → string → string) (utf8Decode : list Z → outcome string) (parse : string → outcome json).

Definition validateConfig (c : Config) : outcome unit :=
  orequire (safeString (id_ c) 80 && safeString (issuerId c) 200 && safeString (keyId c) 160 && safeString (audience c) 200
    && safeString (product c) 120 && isAddress (issuerAddress c) && negb (same (issuerAddress c) ZeroAddress)
    && isAddress (sourceIssuer (publication c)) && negb (same (sourceIssuer (publication c)) ZeroAddress)
    && bool_decide (model (publication c) ∈ ["provider"; "adapter"])
    && negb (String.eqb (model (publication c)) "provider" && negb (same (sourceIssuer (publication c)) (issuerAddress c)))
    && bool_decide (environment c ∈ ["production"; "sandbox"])
    && isSafeInteger (maxCredentialAgeSeconds c) && (1 <=? maxCredentialAgeSeconds c) && (maxCredentialAgeSeconds c <=? 31536000)
    && (32 <=? Z.of_nat (String.length (credentialIdHmacKey c)))
    && forallb (λ kv, isSafeInteger kv.2 && (1 <=? kv.2) && (kv.2 <=? 5)) (c_assurance c)
    && forallb (λ kv, isSafeInteger kv.2 && ((kv.2 =? 1) || (kv.2 =? 2))) (c_regimes c)
    && forallb (λ kv, isCountry kv.1 && isSafeInteger kv.2 && (1 <=? kv.2) && (kv.2 <=? 999)) (c_jurisdictions c)
    && forallb (λ kv, safeString kv.1 100 && validMethod kv.2) (c_methods c)
    && negb (bool_decide (c_assurance c = [])) && negb (bool_decide (c_regimes c = [])) && negb (bool_decide (c_jurisdictions c = []))
    && negb (bool_decide (c_methods c = [])) && negb (bool_decide (requiredChecks c = []))
    && bool_decide (NoDup (requiredChecks c))
    && forallb (λ check, safeString check 100 && dhas check (c_methods c)) (requiredChecks c)
    && forallb (λ kv, safeString kv.1 100 && (if String.eqb (environment c) "production" then kv.2 =? 1 else kv.2 =? 2)) (c_regimes c))
    (fail_ "EXTERNAL_CONFIG_INVALID").

(** * Reading a token *)

Definition decodeBase64Url (value : string) (maxBytes : Z) : outcome (list Z) :=
  let? _ := orequire (negb (String.eqb value "") && allChars isUrlChar value) (fail_ "EXTERNAL_TOKEN_INVALID") in
  let decoded := decode value in
  let? _ := orequire ((1 <=? Z.of_nat (length decoded)) && (Z.of_nat (length decoded) <=? maxBytes) && String.eqb (encode decoded) value)
              (fail_ "EXTERNAL_TOKEN_INVALID") in
  Ok decoded.

(** Whatever fails, the token is invalid. *)
Definition parseJsonSegment (value : string) (maxBytes : Z) : outcome (list (string * json)) :=
  match (let? bytes := decodeBase64Url value maxBytes in let? text := utf8Decode bytes in parse text) with
  | Ok v => match object v with Some f => Ok f | None => Throw (fail_ "EXTERNAL_TOKEN_INVALID") end
  | Throw _ => Throw (fail_ "EXTERNAL_TOKEN_INVALID")
  end.

(** The two addresses of a signature.  The source joins them with a comma and splits them again, which
    gives them back: an address has no comma. *)
Definition recoverSigner (input signatureSegment : string) : outcome (list string) :=
  let? bytes := decodeBase64Url signatureSegment 64 in
  let? _ := orequire (Z.of_nat (length bytes) =? 64) (fail_ "EXTERNAL_SIGNATURE_INVALID") in
  let r := hexOf (take 32 bytes) in
  let s := hexOf (drop 32 bytes) in
  let digest := sha256 (toUtf8Bytes input) in
  match omap_out (λ yParity, let? a := recoverAddress digest r s yParity in Ok (toLowerCase a)) [0; 1] with
  | Throw _ => Throw (fail_ "EXTERNAL_SIGNATURE_INVALID")
  | Ok recovered =>
      let? _ := orequire (Z.of_nat (length (remove_dups recovered)) =? 2) (fail_ "EXTERNAL_SIGNATURE_INVALID") in
      Ok recovered
  end.

Definition HEADER_KEYS : list string := ["alg"; "typ"; "kid"].
Definition PAYLOAD_KEYS : list string := ["iss"; "aud"; "sub"; "jti"; "iat"; "exp"; "proofmark"].
Definition PROOF_KEYS : list string :=
  ["schema"; "provider"; "product"; "environment"; "assurance"; "regime"; "jurisdiction"; "checks"; "evidenceDigest"].
Definition strings (l : list json) : list string := map (λ v, text (Some v)) l.

Definition validProof (c : Config) (p : list (string * json)) : bool :=
  isStr (dget "schema" p) EXTERNAL_CREDENTIAL_SCHEMA && isStr (dget "provider" p) (id_ c) && isStr (dget "product" p) (product c)
  && jsonString (dget "assurance" p) 100 && jsonString (dget "regime" p) 100
  && match dget "jurisdiction" p with Some (JStr s) => isCountry s | _ => false end
  && match dget "checks" p with
     | Some (JArr l) => (Z.of_nat (length l) <=? 64) && forallb (λ v, jsonString (Some v) 100) l && bool_decide (NoDup (strings l))
     | _ => false
     end
  && isHash (dget "evidenceDigest" p) && negb (same (text (dget "evidenceDigest" p)) ZeroHash).

(** [authenticate] up to the clock: the signed claims, if the token is one of the configured issuer for the wallet. *)
Definition authenticClaims (c : Config) (rawCredential : json) (wallet : string) : outcome (string * list (string * json) * list (string * json)) :=
  match rawCredential with
  | JStr token =>
      let? _ := orequire ((16 <=? Z.of_nat (String.length token)) && (Z.of_nat (String.length token) <=? 32768)
                          && isAddress wallet && negb (same wallet ZeroAddress)) (fail_ "EXTERNAL_TOKEN_INVALID") in
      match split_dots token with
      | [s0; s1; s2] =>
          let? header := parseJsonSegment s0 2048 in
          let? _ := orequire (exactKeys header HEADER_KEYS && isStr (dget "alg" header) "ES256K" && isStr (dget "typ" header) "JWT"
                              && isStr (dget "kid" header) (keyId c)) (fail_ "EXTERNAL_HEADER_INVALID") in
          let? recovered := recoverSigner (s0 +:+ String "." s1) s2 in
          let? _ := orequire (existsb (λ a, same a (issuerAddress c)) recovered) (fail_ "EXTERNAL_SIGNATURE_INVALID") in
          let? value := parseJsonSegment s1 16384 in
          match (if exactKeys value PAYLOAD_KEYS then dget "proofmark" value else None) with
          | Some (JObj p) =>
              let? _ := orequire (exactKeys p PROOF_KEYS) (fail_ "EXTERNAL_PAYLOAD_INVALID") in
              let? _ := orequire (isStr (dget "iss" value) (issuerId c)) (fail_ "EXTERNAL_ISSUER_MISMATCH") in
              let? _ := orequire (isStr (dget "aud" value) (audience c)) (fail_ "EXTERNAL_AUDIENCE_MISMATCH") in
              let? _ := orequire (match dget "sub" value with Some (JStr s) => isAddress s && same s wallet | _ => false end)
                          (fail_ "EXTERNAL_SUBJECT_MISMATCH") in
              let? _ := orequire (isHash (dget "jti" value) && negb (same (text (dget "jti" value)) ZeroHash))
                          (fail_ "EXTERNAL_CREDENTIAL_ID_INVALID") in
              let? _ := orequire (safeNum (dget "iat" value) && (1 <=? default 0 (num (dget "iat" value))) && safeNum (dget "exp" value)
                                  && (default 0 (num (dget "iat" value)) <? default 0 (num (dget "exp" value)))) (fail_ "EXTERNAL_TIME_INVALID") in
              Ok (token, value, p)
          | _ => Throw (fail_ "EXTERNAL_PAYLOAD_INVALID")
          end
      | _ => Throw (fail_ "EXTERNAL_TOKEN_INVALID")
      end
  | _ => Throw (fail_ "EXTERNAL_TOKEN_INVALID")
  end.

(** The rest of [authenticate], with the time that the clock gave. *)
Definition envelopeAt (c : Config) (observed : Z) (claims : string * list (string * json) * list (string * json)) : outcome Envelope :=
  let '(token, value, p) := claims in
  let issued := default 0 (num (dget "iat" value)) in
  let expires := default 0 (num (dget "exp" value)) in
  let? _ := orequire (isSafeInteger observed && (1 <=? observed)) (fail_ "EXTERNAL_CLOCK_INVALID") in
  let? _ := orequire (issued <=? observed) (fail_ "EXTERNAL_ISSUED_IN_FUTURE") in
  let? _ := orequire ((observed <? expires) && (observed <? issued + maxCredentialAgeSeconds c)) (fail_ "EXTERNAL_CREDENTIAL_EXPIRED") in
  let? _ := orequire (validProof c p) (fail_ "EXTERNAL_PAYLOAD_INVALID") in
  let? _ := orequire (isStr (dget "environment" p) (environment c)) (fail_ "EXTERNAL_ENVIRONMENT_MISMATCH") in
  let? subject := getAddress (text (dget "sub" value)) in
  Ok {| iss := text (dget "iss" value); aud := text (dget "aud" value); sub := subject; jti := text (dget "jti" value);
        iat := issued; exp := expires;
        proofmark := {| schema := EXTERNAL_CREDENTIAL_SCHEMA; provider := text (dget "provider" p); p_product := text (dget "product" p);
          p_environment := text (dget "environment" p); p_assurance := text (dget "assurance" p); p_regime := text (dget "regime" p);
          p_jurisdiction := text (dget "jurisdiction" p);
          checks := match dget "checks" p with Some (JArr l) => strings l | _ => [] end;
          evidenceDigest := text (dget "evidenceDigest" p) |};
        credentialDigest := keccak256 (toUtf8Bytes token) |}.

(** * Normalisation *)

Definition tableValue (k : string) (t : list (string * Z)) (code : string) : outcome Z :=
  match dget k t with Some v => Ok v | None => Throw (fail_ code) end.
Definition methodMask (c : Config) (names : list string) : Z :=
  fold_left (λ mask check, Attrs.jsOr mask (match dget check (c_methods c) with Some v => v | None => 0 end)) names 0.
Definition credentialIdHash (c : Config) (jti : string) : string :=
  "0x" +:+ hmac (credentialIdHmacKey c) (id_ c +:+ String "000" jti).
Definition requestIdOf (c : Config) (idHash : string) : string :=
  keccak256 (hexConcat idHash (keccak256 (toUtf8Bytes (sourceIssuer (publication c))))).

Definition normalized (c : Config) (e : Envelope) : outcome Normalized :=
  let p := proofmark e in
  let? assurance := tableValue (p_assurance p) (c_assurance c) "EXTERNAL_ASSURANCE_UNSUPPORTED" in
  let? regime := tableValue (p_regime p) (c_regimes c) "EXTERNAL_REGIME_UNSUPPORTED" in
  let? jurisdiction := tableValue (p_jurisdiction p) (c_jurisdictions c) "EXTERNAL_JURISDICTION_UNSUPPORTED" in
  let? _ := orequire (forallb (λ required, bool_decide (required ∈ checks p)) (requiredChecks c)) (fail_ "EXTERNAL_REQUIRED_CHECK_MISSING") in
  let methods := methodMask c (checks p) in
  let expiry := Z.min (exp e) (iat e + maxCredentialAgeSeconds c) in
  let idHash := credentialIdHash c (jti e) in
  let request := requestIdOf c idHash in
  let? attrs := Attrs.packAttrs (Attrs.mkAttrs 1 assurance regime jurisdiction methods (iat e) expiry 0) in
  let? issuer := getAddress (sourceIssuer (publication c)) in
  Ok {| n_subject := sub e; n_issuer := issuer; n_methods := methods; n_assurance := assurance; n_regime := regime;
        n_jurisdiction := jurisdiction; n_issuedAt := iat e; n_expiry := expiry; providerCredentialIdHash := idHash;
        n_evidenceHash := credentialDigest e; requestId := request; n_attrs := attrs; n_claimsRoot := ZeroHash |}.

(** * The adapter

    The envelopes are objects: an adapter remembers which ones it made, by reference, and their holder may
    change their fields.  The clock, the status service and the replay store are operations on a world that
    other tasks share. *)
Context {W : Type} (c : Config) (now : M W Z) (statusOf : string → M W string) (claim : string → string → M W string).

Record State := { world : W; heap : list Envelope; authenticated : list nat }.

#[export] Instance world_lens : Lens State W.
Proof.
  refine {| lens_get := world; lens_set := λ w s, {| world := w; heap := heap s; authenticated := authenticated s |} |}; try done.
  by intros [].
Defined.

Definition newEnvelope (e : Envelope) : M State nat := λ s,
  (Ok (length (heap s)), {| world := world s; heap := heap s ++ [e]; authenticated := length (heap s) :: authenticated s |}).

Definition authenticate (rawCredential : json) (wallet : string) : M State nat :=
  let! claims := lift_out (authenticClaims c rawCredential wallet) in
  let! observed := zoom now in
  let! e := lift_out (envelopeAt c observed claims) in
  newEnvelope e.

Definition normalize (ref : nat) : M State Normalized :=
  let! s := getS in
  match heap s !! ref with
  | Some e =>
      require (bool_decide (ref ∈ authenticated s)) (fail_ "EXTERNAL_ENVELOPE_UNAUTHENTICATED") ;;;
      lift_out (normalized c e)
  | None => throw (fail_ "EXTERNAL_ENVELOPE_UNAUTHENTICATED")
  end.

Definition isExternalError (e : exn) : bool :=
  match e with EClass cls _ => String.eqb cls "ExternalCredentialError" | _ => false end.

Definition status (credentialId : string) : M State string :=
  require (isBytes32 credentialId && negb (same credentialId ZeroHash)) (fail_ "EXTERNAL_CREDENTIAL_ID_INVALID") ;;;
  tryCatch
    (let! answer := zoom (statusOf credentialId) in
     require (bool_decide (answer ∈ ["active"; "revoked"; "expired"; "unknown"])) (fail_ "EXTERNAL_PROVIDER_RESPONSE_INVALID") ;;;
     ret answer)
    (λ e, if isExternalError e then throw e else throw (fail_ "EXTERNAL_PROVIDER_UNAVAILABLE")).

Definition consume (rawCredential : json) (wallet : string) : M State Consumed :=
  let! envelope := authenticate rawCredential wallet in
  let! credential := normalize envelope in
  let! s := getS in
  let! current := status (match heap s !! envelope with Some e => jti e | None => "" end) in
  require (negb (String.eqb current "unknown")) (fail_ "EXTERNAL_STATUS_UNKNOWN") ;;;
  if String.eqb current "revoked" || String.eqb current "expired" then
    ret (Revoked (requestId credential) (n_subject credential) (providerCredentialIdHash credential) (n_evidenceHash credential))
  else
    let! observed := zoom now in
    require (observed <? n_expiry credential) (fail_ "EXTERNAL_CREDENTIAL_EXPIRED") ;;;
    let! replay := tryCatch (zoom (claim (requestId credential) (n_evidenceHash credential)))
      (λ e, if isExternalError e then throw e else throw (fail_ "EXTERNAL_REPLAY_UNAVAILABLE")) in
    require (bool_decide (replay ∈ ["fresh"; "duplicate"; "conflict"])) (fail_ "EXTERNAL_REPLAY_STORE_INVALID") ;;;
    require (negb (String.eqb replay "conflict")) (fail_ "EXTERNAL_REPLAY_CONFLICT") ;;;
    ret (Active replay (requestId credential) credential).

(** * What an accepted token says *)

Lemma split_dots_join s s0 s1 s2 : split_dots s = [s0; s1; s2] → s = s0 +:+ String "." (s1 +:+ String "." s2).
Proof.
  assert (∀ s, ∃ w ws, split_dots s = w :: ws ∧ s = w +:+ fold_right (λ w acc, String "." (w +:+ acc)) "" ws) as H.
  { clear s s0 s1 s2. induction s as [|a s (w & ws & Hs & IH)]; [by exists "", []|]. cbn [split_dots]. rewrite Hs.
    destruct (Ascii.eqb_spec a ".") as [->|Ha]; [exists "", (w :: ws)|exists (String a w), ws]; (split; [done|]); by rewrite IH at 1. }
  destruct (H s) as (w & ws & Hs & Hj). rewrite Hs. intros [= -> ->]. rewrite Hj. simpl. by rewrite app_str_nil_r.
Qed.

Lemma isStr_eq v s : isStr v s = true → v = Some (JStr s).
Proof. destruct v as [[]|]; try done. intros ->%String.eqb_eq. done. Qed.

(** [e] is what the text of a token says at time [t]: signed by the configured key, for this consumer and
    this wallet, and within its times. *)
Record Authentic (token wallet : string) (t : Z) (e : Envelope) : Prop := {
  a_signed : ∃ s0 s1 s2 bytes y a, token = s0 +:+ String "." (s1 +:+ String "." s2) ∧ decodeBase64Url s2 64 = Ok bytes
    ∧ y ∈ [0; 1] ∧ recoverAddress (sha256 (toUtf8Bytes (s0 +:+ String "." s1))) (hexOf (take 32 bytes)) (hexOf (drop 32 bytes)) y = Ok a
    ∧ same a (issuerAddress c) = true
    ∧ ∃ value p, parseJsonSegment s1 16384 = Ok value ∧ dget "iss" value = Some (JStr (issuerId c)) ∧ dget "aud" value = Some (JStr (audience c))
       ∧ dget "jti" value = Some (JStr (jti e)) ∧ dget "iat" value = Some (JNum (iat e)) ∧ dget "exp" value = Some (JNum (exp e))
       ∧ dget "proofmark" value = Some (JObj p) ∧ dget "assurance" p = Some (JStr (p_assurance (proofmark e)))
       ∧ dget "regime" p = Some (JStr (p_regime (proofmark e))) ∧ dget "jurisdiction" p = Some (JStr (p_jurisdiction (proofmark e)))
       ∧ dget "checks" p = Some (JArr (map JStr (checks (proofmark e)))) ∧ dget "environment" p = Some (JStr (environment c))
       ∧ ∃ s, dget "sub" value = Some (JStr s) ∧ same s wallet = true ∧ getAddress s = Ok (sub e);
  a_time : 1 ≤ iat e ≤ t ∧ t < exp e ∧ t < iat e + maxCredentialAgeSeconds c;
  a_digest : credentialDigest e = keccak256 (toUtf8Bytes token) }.

Lemma parsed_strings l : forallb (λ v, jsonString (Some v) 100) l = true → l = map JStr (strings l).
Proof.
  induction l as [|v l IH]; [done|]. intros [Hv Hl]%andb_true_iff. destruct v; try done. simpl. by rewrite <- IH.
Qed.

Lemma recovered_cases input seg recovered : recoverSigner input seg = Ok recovered → ∃ bytes, decodeBase64Url seg 64 = Ok bytes
  ∧ ∀ x, x ∈ recovered → ∃ y a, y ∈ [0; 1] ∧ x = toLowerCase a
     ∧ recoverAddress (sha256 (toUtf8Bytes input)) (hexOf (take 32 bytes)) (hexOf (drop 32 bytes)) y = Ok a.
Proof.
  intros (bytes & Hb & (u & _ & H)%obind_ok)%obind_ok. exists bytes. split; [done|]. cbv zeta in H.
  destruct (omap_out _ [0; 1]) as [rs|] eqn:Hrs; [|done]. apply obind_ok in H as (u' & _ & [= <-]).
  apply omap_out_Forall2 in Hrs. intros x (i & Hi)%list_elem_of_lookup.
  destruct (Forall2_lookup_r _ _ _ _ _ Hrs Hi) as (y & Hy & (a & Ha & [= <-])%obind_ok).
  exists y, a. split_and!; [by eapply list_elem_of_lookup_2|done|done].
Qed.

Lemma authentic_envelope raw wallet claims t e : authenticClaims c raw wallet = Ok claims → envelopeAt c t claims = Ok e →
  ∃ token, raw = JStr token ∧ Authentic token wallet t e.
Proof.
  destruct raw as [| | | | |token| | |]; try done. unfold authenticClaims. intros (u1 & _ & H)%obind_ok.
  destruct (split_dots token) as [|s0 [|s1 [|s2 [|]]]] eqn:Hs; try done. apply split_dots_join in Hs.
  apply obind_ok in H as (header & _ & (u2 & _ & (recovered & Hrec & (u3 & Hsig%orequire_ok & (value & Hv & H)%obind_ok)%obind_ok)%obind_ok)%obind_ok).
  destruct (exactKeys value PAYLOAD_KEYS); [|done]. destruct (dget "proofmark" value) as [[| | | | | | | |p]|] eqn:Hp; try done.
  apply obind_ok in H as (u4 & _ & (u5 & Hiss%orequire_ok & (u6 & Haud%orequire_ok & (u7 & Hsub%orequire_ok &
    (u8 & Hjti%orequire_ok & (u9 & Htime%orequire_ok & [= <-])%obind_ok)%obind_ok)%obind_ok)%obind_ok)%obind_ok).
  unfold envelopeAt. cbv zeta.
  intros (u10 & _ & (u11 & Hiat%orequire_ok & (u12 & Hexp%orequire_ok & (u13 & Hproof%orequire_ok & (u14 & Henv%orequire_ok & (s & Hget & [= <-])%obind_ok)%obind_ok)%obind_ok)%obind_ok)%obind_ok)%obind_ok.
  exists token. split; [done|]. apply isStr_eq in Hiss, Haud, Henv.
  rewrite !andb_true_iff in Htime. rewrite !andb_true_iff in Hexp. destruct Htime as [[[Hi1 Hi2] He1] He2]. unfold safeNum in Hi1, He1.
  destruct (num (dget "iat" value)) as [i|] eqn:Hi; [|done]. destruct (num (dget "exp" value)) as [x|] eqn:Hx; [|done].
  destruct (dget "iat" value) as [[]|] eqn:Ei; try done. destruct (dget "exp" value) as [[]|] eqn:Ex; try done.
  injection Hi as ->. injection Hx as ->. cbn [from_option default id] in *. apply Z.leb_le in Hi2, Hiat. apply Z.ltb_lt in He2. rewrite !Z.ltb_lt in Hexp.
  destruct (dget "sub" value) as [[]|] eqn:Es; try done. apply andb_true_iff in Hsub as [_ Hsame]. apply andb_true_iff in Hjti as [Hjti _].
  destruct (dget "jti" value) as [[]|] eqn:Ej; try done.
  unfold validProof in Hproof. rewrite !andb_true_iff in Hproof. destruct Hproof as ((((((((_ & _) & _) & Ha) & Hr) & Hj) & Hc) & _) & _).
  destruct (dget "assurance" p) as [[]|] eqn:E1; try done. destruct (dget "regime" p) as [[]|] eqn:E2; try done.
  destruct (dget "jurisdiction" p) as [[]|] eqn:E3; try done. destruct (dget "checks" p) as [[]|] eqn:E4; try done.
  rewrite !andb_true_iff in Hc. destruct Hc as [[_ Hc] _]. apply parsed_strings in Hc.
  apply existsb_exists in Hsig as (x0 & Hin & Hsig). destruct (recovered_cases _ _ _ Hrec) as (bytes & Hb & Hall).
  destruct (Hall x0) as (y & a & Hy & -> & Ha'); [by apply list_elem_of_In|].
  split; cbn [iat exp credentialDigest]; [|lia|done].
  exists s0, s1, s2, bytes, y, a. split_and!; [done|done|done|done| |].
  { unfold same in *. by rewrite toLowerCase_idem in Hsig. }
  exists value, p. cbn [proofmark jti p_assurance p_regime p_jurisdiction checks sub iat exp text]. rewrite E1, E2, E3. rewrite <- Hc. split_and!; try done.
  by eexists.
Qed.

(** * What a configuration allows *)

Lemma int32_id n : 0 ≤ n < 2 ^ 31 → int32 n = n.
Proof. intros Hn. unfold int32. rewrite Z.mod_small by lia. by rewrite (proj2 (Z.ltb_lt _ _)) by lia. Qed.

(** The 32 bits of a valid method are supported; only they count. *)
Lemma validMethod_bits v : validMethod v = true →
  (∀ i, Z.testbit (v mod 2 ^ 32) i = true → Z.testbit Attrs.SUPPORTED_METHODS i = true) ∧ 0 ≤ v mod 2 ^ 32 < 2 ^ 31.
Proof.
  unfold validMethod. rewrite !andb_true_iff, !Z.eqb_eq. intros [_ H]. pose proof (Z.mod_pos_bound v (2 ^ 32)) as Hb.
  assert (∀ i, Z.testbit (v mod 2 ^ 32) i = true → Z.testbit Attrs.SUPPORTED_METHODS i = true) as Hbits.
  { apply (Attrs.jsAnd_zero (v mod 2 ^ 32) Attrs.SUPPORTED_METHODS); [lia|unfold Attrs.SUPPORTED_METHODS; lia|].
    unfold jsAnd in *. by rewrite Z.mod_mod. }
  split; [done|]. split; [lia|]. destruct (Z_lt_le_dec (v mod 2 ^ 32) (2 ^ 31)) as [|Hge]; [done|].
  assert (Z.testbit (v mod 2 ^ 32) 31 = true) as H31.
  { apply Z.testbit_true; [lia|]. rewrite <- (Z.div_unique (v mod 2 ^ 32) (2 ^ 31) 1 (v mod 2 ^ 32 - 2 ^ 31)) by lia. done. }
  by apply Hbits in H31.
Qed.

(** A mask under construction. *)
Definition Supported (m : Z) : Prop := 0 ≤ m < 2 ^ 31 ∧ ∀ i, Z.testbit m i = true → Z.testbit Attrs.SUPPORTED_METHODS i = true.

Lemma lor_bound a b k : 0 ≤ k → 0 ≤ a < 2 ^ k → 0 ≤ b < 2 ^ k → 0 ≤ Z.lor a b < 2 ^ k.
Proof.
  intros Hk Ha Hb. assert (0 ≤ Z.lor a b) as Hn by (apply Z.lor_nonneg; lia). split; [done|]. destruct (Z.eq_dec (Z.lor a b) 0) as [->|Hne]; [lia|].
  assert (∀ x, 0 ≤ x < 2 ^ k → Z.log2 x < k ∨ x = 0) as Hl.
  { intros x Hx. destruct (Z.eq_dec x 0) as [->|]; [by right|]. left. apply Z.log2_lt_pow2; lia. }
  apply Z.log2_lt_pow2; [lia|]. rewrite Z.log2_lor by lia.
  destruct (Hl a Ha) as [| ->], (Hl b Hb) as [| ->]; try done; simpl; rewrite ?Z.max_l, ?Z.max_r by (apply Z.log2_nonneg); lia.
Qed.

Lemma jsOr_supported m v : Supported m → 0 ≤ v mod 2 ^ 32 < 2 ^ 31 →
  (∀ i, Z.testbit (v mod 2 ^ 32) i = true → Z.testbit Attrs.SUPPORTED_METHODS i = true) →
  Supported (jsOr m v) ∧ jsOr m v = Z.lor m (v mod 2 ^ 32).
Proof.
  intros [Hm Hmb] Hv Hvb. pose proof (lor_bound m (v mod 2 ^ 32) 31 ltac:(lia) Hm Hv) as Hb.
  assert (jsOr m v = Z.lor m (v mod 2 ^ 32)) as ->.
  { unfold jsOr. rewrite (Z.mod_small m) by lia. by apply int32_id. }
  split; [|done]. split; [done|]. intros i. rewrite Z.lor_spec, orb_true_iff. intros [|]; auto.
Qed.

(** The bits of the methods table. *)
Definition ValidMethods : Prop := ∀ check v, dget check (c_methods c) = Some v → validMethod v = true.

(** The mask has exactly the bits of the checks that are named. *)
Lemma methodMask_spec names : ValidMethods → Supported (methodMask c names) ∧ ∀ i, 0 ≤ i < 32 →
  (Z.testbit (methodMask c names) i = true ↔ ∃ check v, check ∈ names ∧ dget check (c_methods c) = Some v ∧ Z.testbit v i = true).
Proof.
  intros HV. induction names as [|check names IH] using rev_ind.
  - split; [split; [done|intros i; change (methodMask c []) with 0; by rewrite Z.testbit_0_l]|]. intros i Hi. split; [by rewrite Z.testbit_0_l|]. by intros (? & ? & ?%elem_of_nil & _).
  - destruct IH as [IHs IH]. assert (methodMask c (names ++ [check])
      = jsOr (methodMask c names) (match dget check (c_methods c) with Some v => v | None => 0 end)) as ->.
    { unfold methodMask. by rewrite fold_left_app. }
    destruct (dget check (c_methods c)) as [v|] eqn:Hv.
    + destruct (validMethod_bits v (HV _ _ Hv)) as [Hvb Hvr]. destruct (jsOr_supported _ v IHs Hvr Hvb) as [Hs ->].
      split; [by destruct (jsOr_supported _ v IHs Hvr Hvb) as [? <-]|]. intros i Hi.
      rewrite Z.lor_spec, orb_true_iff, IH, Z.mod_pow2_bits_low by lia. split.
      * intros [(k & w & Hk & Hw & Hb)|Hb]; [exists k, w|exists check, v]; (split; [apply elem_of_app|done]); [by left|right; by left].
      * intros (k & w & [Hk| ->%list_elem_of_singleton]%elem_of_app & Hw & Hb); [left; by exists k, w|right; congruence].
    + assert (jsOr (methodMask c names) 0 = methodMask c names) as ->.
      { destruct (jsOr_supported _ 0 IHs) as [_ ->]; [done|intros i; by rewrite Z.testbit_0_l|]. by rewrite Z.lor_0_r. }
      split; [done|]. intros i Hi. rewrite IH by done. split.
      * intros (k & w & Hk & Hw & Hb). exists k, w. split; [apply elem_of_app; by left|done].
      * intros (k & w & [Hk| ->%list_elem_of_singleton]%elem_of_app & Hw & Hb); [by exists k, w|congruence].
Qed.

Lemma config_methods u : validateConfig c = Ok u → ValidMethods.
Proof.
  clear -isAddress c.
  intros H%orequire_ok. rewrite !andb_true_iff in H. intros check v Hv%dget_elem.
  assert (forallb (λ kv, safeString kv.1 100 && validMethod kv.2) (c_methods c) = true) as Hm by tauto.
  rewrite forallb_forall in Hm. apply list_elem_of_In in Hv. by apply Hm, andb_true_iff in Hv as [_ Hv].
Qed.

Lemma config_tables u k v : validateConfig c = Ok u →
  (dget k (c_assurance c) = Some v → 1 ≤ v ≤ 5) ∧ (dget k (c_jurisdictions c) = Some v → 1 ≤ v ≤ 999) ∧
  (dget k (c_regimes c) = Some v → v = if String.eqb (environment c) "production" then 1 else 2).
Proof.
  clear -isAddress c.
  intros H%orequire_ok. rewrite !andb_true_iff, !forallb_forall in H.
  split_and!; intros Hv%dget_elem%list_elem_of_In.
  - assert (∀ x, In x (c_assurance c) → (isSafeInteger x.2 && (1 <=? x.2) && (x.2 <=? 5)) = true) as Hm by tauto.
    apply Hm in Hv. rewrite !andb_true_iff, !Z.leb_le in Hv. simpl in Hv. tauto.
  - assert (∀ x, In x (c_jurisdictions c) → (isCountry x.1 && isSafeInteger x.2 && (1 <=? x.2) && (x.2 <=? 999)) = true) as Hm by tauto.
    apply Hm in Hv. rewrite !andb_true_iff, !Z.leb_le in Hv. simpl in Hv. tauto.
  - destruct H as [_ H]. apply H in Hv. apply andb_true_iff in Hv as [_ Hv]. simpl in Hv.
    destruct (String.eqb _ _); by apply Z.eqb_eq.
Qed.

(** What the tables make of the claims of an envelope. *)
Record Normal (e : Envelope) (n : Normalized) : Prop := {
  nm_tables : dget (p_assurance (proofmark e)) (c_assurance c) = Some (n_assurance n)
    ∧ dget (p_regime (proofmark e)) (c_regimes c) = Some (n_regime n)
    ∧ dget (p_jurisdiction (proofmark e)) (c_jurisdictions c) = Some (n_jurisdiction n);
  nm_checks check : check ∈ requiredChecks c → check ∈ checks (proofmark e);
  nm_methods : n_methods n = methodMask c (checks (proofmark e));
  nm_subject : n_subject n = sub e ∧ getAddress (sourceIssuer (publication c)) = Ok (n_issuer n);
  nm_times : n_issuedAt n = iat e ∧ n_expiry n = Z.min (exp e) (iat e + maxCredentialAgeSeconds c);
  nm_ids : providerCredentialIdHash n = credentialIdHash c (jti e) ∧ requestId n = requestIdOf c (providerCredentialIdHash n)
    ∧ n_evidenceHash n = credentialDigest e;
  nm_attrs : Attrs.unpackAttrs (n_attrs n)
    = Ok (Attrs.mkAttrs 1 (n_assurance n) (n_regime n) (n_jurisdiction n) (n_methods n) (n_issuedAt n) (n_expiry n) 0) }.

Lemma tableValue_ok k t code v : tableValue k t code = Ok v → dget k t = Some v.
Proof. unfold tableValue. destruct (dget k t); [by intros [= ->]|done]. Qed.

Lemma normalized_inv e n : normalized c e = Ok n → Normal e n.
Proof.
  intros (a & Ha%tableValue_ok & (r & Hr%tableValue_ok & (j & Hj%tableValue_ok & (u & Hreq%orequire_ok & H)%obind_ok)%obind_ok)%obind_ok)%obind_ok.
  cbv zeta in H. apply obind_ok in H as (attrs & Hattrs & (i & Hi & [= <-])%obind_ok). apply Attrs.unpackAttrs_pack in Hattrs as [_ Hattrs].
  split; cbn; [done| |done|done|done|done|done].
  intros check Hc. rewrite forallb_forall in Hreq. apply list_elem_of_In in Hc. by apply Hreq, bool_decide_eq_true in Hc.
Qed.

(** An authenticated envelope is normalised with the fields it has then, whoever set them. *)
Lemma normalize_current ref e s : ref ∈ authenticated s → heap s !! ref = Some e → normalize ref s = (normalized c e, s).
Proof. intros Hin He. unfold normalize, bind, getS. rewrite He. by rewrite bool_decide_eq_true_2. Qed.

(** * What [consume] returns *)

Inductive Consumption (raw : json) (wallet : string) : Consumed → Prop :=
  | consumed_active token t1 t2 e n replay : raw = JStr token → answered now t1 → Authentic token wallet t1 e → Normal e n →
      answered (statusOf (jti e)) "active" → answered now t2 → t2 < n_expiry n →
      answered (claim (requestId n) (n_evidenceHash n)) replay → replay ∈ ["fresh"; "duplicate"] →
      Consumption raw wallet (Active replay (requestId n) n)
  | consumed_revoked token t1 e n answer : raw = JStr token → answered now t1 → Authentic token wallet t1 e → Normal e n →
      answered (statusOf (jti e)) answer → answer ∈ ["revoked"; "expired"] →
      Consumption raw wallet (Revoked (requestId n) (n_subject n) (providerCredentialIdHash n) (n_evidenceHash n)).

Lemma wp_zoom_read {A} (m : M W A) (Q : outcome A → State → Prop) (s : State) :
  (∀ a w', answered m a → m (world s) = (Ok a, w') → Q (Ok a) (lens_set w' s)) →
  (∀ e w', m (world s) = (Throw e, w') → Q (Throw e) (lens_set w' s)) → wp (zoom m) Q s.
Proof.
  intros Hok Hth. apply wp_zoom. unfold wp. change (lens_get s) with (world s). destruct (m (world s)) as [[a|e] w'] eqn:E; simpl.
  - apply Hok; [by exists (world s), w'|done].
  - by apply Hth.
Qed.

(** The calls before the claim keep a property [I] of worlds. *)
Section preserved.
Context (I : W → Prop) (Hnow : ∀ w, I w → I (now w).2) (Hstatus : ∀ id w, I w → I (statusOf id w).2).

Lemma authenticate_wp raw wallet s : I (world s) →
  wp (authenticate raw wallet) (λ o s', I (world s') ∧ ∀ ref, o = Ok ref → ∃ token t e,
    raw = JStr token ∧ answered now t ∧ Authentic token wallet t e ∧ heap s' !! ref = Some e ∧ ref ∈ authenticated s') s.
Proof.
  intros HI. unfold authenticate. apply wp_bind, wp_lift_out. destruct (authenticClaims c raw wallet) as [claims|] eqn:Hcl; [|done].
  apply wp_bind, wp_zoom_read; [intros t w Ht Hw|intros e w Hw]; specialize (Hnow _ HI); rewrite Hw in Hnow; [|done].
  apply wp_bind, wp_lift_out. destruct (envelopeAt c t claims) as [e|] eqn:He; [|done].
  destruct (authentic_envelope _ _ _ _ _ Hcl He) as (token & -> & Hauth). split; [done|]. intros ref [= <-].
  exists token, t, e. split_and!; [done|done|done| |by left]. cbn. by rewrite list_lookup_middle.
Qed.

Lemma normalize_wp ref e s : heap s !! ref = Some e → ref ∈ authenticated s →
  wp (normalize ref) (λ o s', s' = s ∧ ∀ n, o = Ok n → Normal e n) s.
Proof.
  intros He Hin. unfold normalize. apply wp_bind, wp_getS. rewrite He. rewrite bool_decide_eq_true_2 by done.
  apply wp_bind, wp_require; [intros _|done]. apply wp_lift_out. split; [done|]. apply normalized_inv.
Qed.

Lemma status_wp id s : I (world s) →
  wp (status id) (λ o s', I (world s') ∧ heap s' = heap s ∧ ∀ answer, o = Ok answer →
    answered (statusOf id) answer ∧ answer ∈ ["active"; "revoked"; "expired"; "unknown"]) s.
Proof.
  intros HI. unfold status. apply wp_bind, wp_require; intros _; [|done]. apply wp_tryCatch.
  apply wp_bind, wp_zoom_read; [intros answer w Ha Hw|intros e w Hw]; specialize (Hstatus id _ HI); rewrite Hw in Hstatus.
  - apply wp_bind, wp_require; intros Hin; [|done]. apply wp_ret. apply bool_decide_eq_true in Hin. by split_and!; [..|intros ? [= <-]].
  - by destruct (isExternalError e).
Qed.

Lemma claim_wp n s : I (world s) →
  wp (tryCatch (zoom (claim (requestId n) (n_evidenceHash n)))
      (λ e, if isExternalError e then throw e else throw (fail_ "EXTERNAL_REPLAY_UNAVAILABLE")))
    (λ o s', ∃ w r, I w ∧ claim (requestId n) (n_evidenceHash n) w = (r, world s') ∧ ∀ replay, o = Ok replay → r = Ok replay) s.
Proof.
  intros HI. apply wp_tryCatch, wp_zoom_read; [intros replay w Ha Hw|intros e w Hw].
  - exists (world s), (Ok replay). by split_and!.
  - destruct (isExternalError e); exists (world s), (Throw e); by split_and!.
Qed.

Lemma consume_wp raw wallet s : I (world s) →
  wp (consume raw wallet) (λ o s',
    (I (world s') ∨ ∃ w request digest, I w ∧ world s' = (claim request digest w).2) ∧ ∀ r, o = Ok r →
    Consumption raw wallet r ∧ ∀ replay request n, r = Active replay request n →
      ∃ w, I w ∧ claim request (n_evidenceHash n) w = (Ok replay, world s')) s.
Proof.
  intros HI. unfold consume. apply wp_bind. eapply wp_mono; [by apply authenticate_wp|].
  intros [ref|] s1 [HI1 Hs1]; [|by split; [left|]]. destruct (Hs1 ref eq_refl) as (token & t1 & e & -> & Ht1 & Hauth & Hheap & Hin). clear Hs1.
  apply wp_bind. eapply wp_mono; [by apply (normalize_wp ref e)|]. intros [n|] s2 [-> Hn]; [|by split; [left|]]. specialize (Hn n eq_refl).
  apply wp_bind, wp_getS. rewrite Hheap. apply wp_bind. eapply wp_mono; [by apply status_wp|].
  intros [answer|] s2 (HI2 & _ & Hs); [|by split; [left|]]. destruct (Hs answer eq_refl) as [Ha Hans]. clear Hs.
  apply wp_bind, wp_require; intros Hunk; [|by split; [left|]].
  destruct (String.eqb answer "revoked" || String.eqb answer "expired") eqn:Hrev.
  { apply wp_ret. split; [by left|]. intros r [= <-]. split; [|done]. apply (consumed_revoked _ _ token t1 e n answer); try done.
    apply orb_true_iff in Hrev as [->%String.eqb_eq| ->%String.eqb_eq]; [by left|right; by left]. }
  apply orb_false_iff in Hrev as [Hr1 Hr2]. assert (answer = "active") as -> by (by in_cases Hans).
  apply wp_bind, wp_zoom_read; [intros t2 w Ht2 Hw|intros e' w Hw]; pose proof (Hnow _ HI2) as HI3; rewrite Hw in HI3; [|by split; [left|]].
  apply wp_bind, wp_require; intros Hexp; [apply Z.ltb_lt in Hexp|by split; [left|]].
  apply wp_bind. eapply wp_mono; [by apply claim_wp|].
  intros o s3 (w' & r & Hw' & Hcl & Ho). assert (∃ v request digest, I v ∧ world s3 = (claim request digest v).2) as Hclaim.
  { exists w', (requestId n), (n_evidenceHash n). by rewrite Hcl. }
  destruct o as [replay|]; [|by split; [right|]]. specialize (Ho replay eq_refl). subst r.
  apply wp_bind, wp_require; intros Hin3; [|by split; [right|]]. apply wp_bind, wp_require; intros Hcon; [|by split; [right|]].
  apply wp_ret. split; [by right|]. intros r [= <-]. split; [|intros ? ? ? [= <- <- <-]; by exists w'].
  apply (consumed_active _ _ token t1 t2 e n replay); try done; [by exists w', (world s3)|].
  apply bool_decide_eq_true in Hin3. in_cases Hin3; [by left|right; by left|done].
Qed.
End preserved.
End adapter.

(** * Adapters that share a replay store *)

Section shared.
Context (keccak256 toUtf8Bytes sha256 : string → string) (recoverAddress : string → string → string → Z → outcome string).
Context (isAddress : string → bool) (getAddress : string → outcome string) (hmac : string → string → string).
Context (utf8Decode : list Z → outcome string) (parse : string → outcome json).
Context {W : Type} `{L : !Lens W Claims} (now : M W Z) (statusOf : string → M W string).

Definition claimShared (requestId credentialDigest : string) : M W string := zoom (claim_ requestId credentialDigest).

(** A call of [consume] by some adapter, whatever envelopes it made before. *)
Record Call := { config : Config; rawCredential : json; wallet : string; c_heap : list Envelope; c_authenticated : list nat }.
Definition serveOne (x : Call) (w : W) : outcome Consumed * W :=
  let '(o, s) := consume keccak256 toUtf8Bytes sha256 recoverAddress isAddress getAddress hmac utf8Decode parse (config x) now statusOf
                   claimShared (rawCredential x) (wallet x) {| world := w; heap := c_heap x; authenticated := c_authenticated x |} in
  (o, world s).
Fixpoint serve (calls : list Call) (w : W) : list (outcome Consumed) * W :=
  match calls with
  | [] => ([], w)
  | x :: calls => let '(o, w1) := serveOne x w in let '(os, w2) := serve calls w1 in (o :: os, w2)
  end.

(** Between the steps of a call other tasks may claim, but nothing is taken out of the store. *)
Context (Hnow : ∀ w, lens_get w ⊆ lens_get (now w).2) (Hstatus : ∀ id w, lens_get w ⊆ lens_get (statusOf id w).2).

Lemma claimShared_grows id digest (w : W) : lens_get w ⊆ lens_get (claimShared id digest w).2.
Proof.
  unfold claimShared, zoom. pose proof (claim_grows id digest (lens_get w)) as H.
  destruct (claim_ id digest (lens_get w)) as [o m]. simpl. by rewrite lens_get_set.
Qed.

Lemma serveOne_store x (w w' : W) o : serveOne x w = (o, w') → lens_get w ⊆ lens_get w' ∧
  ∀ replay request n, o = Ok (Active replay request n) → lens_get w' !! request = Some (n_evidenceHash n)
    ∧ (replay = "duplicate" ∨ replay = "fresh" ∧ lens_get w !! request = None).
Proof.
  unfold serveOne. destruct (consume _ _ _ _ _ _ _ _ _ _ _ _ _ _ _ _) as [o' s'] eqn:E. intros [= <- <-].
  pose proof (consume_wp keccak256 toUtf8Bytes sha256 recoverAddress isAddress getAddress hmac utf8Decode parse (config x) now statusOf
    claimShared (λ v, lens_get w ⊆ lens_get v) (λ v Hv, transitivity Hv (Hnow v)) (λ id v Hv, transitivity Hv (Hstatus id v))
    (rawCredential x) (wallet x) {| world := w; heap := c_heap x; authenticated := c_authenticated x |} ltac:(cbv beta; reflexivity)) as H.
  apply (wp_run _ _ _ _ _ H) in E as [Hw Hr]. clear H. split.
  { destruct Hw as [|(v & id & digest & Hv & ->)]; [done|]. etrans; [exact Hv|apply claimShared_grows]. }
  intros replay request n ->. destruct (Hr _ eq_refl) as [Hc Ha]. destruct (Ha _ _ _ eq_refl) as (v & Hv & Hcl). clear Hw Ha.
  unfold claimShared, zoom in Hcl. destruct (claim_spec request (n_evidenceHash n) (lens_get v)) as [[E Hnone]|[[E Hsome]|[E _]]];
    rewrite E in Hcl; injection Hcl as <- <-; rewrite ?lens_get_set.
  - split; [by rewrite lookup_insert_eq|]. right. split; [done|]. by eapply lookup_weaken_None.
  - split; [done|by left].
  - inversion Hc; subst. set_solver.
Qed.

Lemma serve_active calls (w w' : W) os j replay request n : serve calls w = (os, w') → os !! j = Some (Ok (Active replay request n)) →
  lens_get w' !! request = Some (n_evidenceHash n) ∧ (replay = "duplicate" ∨ replay = "fresh" ∧ lens_get w !! request = None).
Proof.
  revert w os j. induction calls as [|x calls IH]; intros w os j; simpl; [by intros [= <- <-]|].
  destruct (serveOne x w) as [o w1] eqn:E1. destruct (serve calls w1) as [os2 w2] eqn:E2. intros [= <- <-] Hj.
  assert (∀ calls (w w' : W) os, serve calls w = (os, w') → lens_get w ⊆ lens_get w') as Hmono.
  { clear -Hnow Hstatus. induction calls as [|x calls IH]; intros w w' os; simpl; [by intros [= <- <-]|].
    destruct (serveOne x w) as [o w1] eqn:E1. destruct (serve calls w1) as [os2 w2] eqn:E2. intros [= <- <-].
    apply serveOne_store in E1 as [H1 _]. etrans; [exact H1|by eapply IH]. }
  apply serveOne_store in E1 as [H1 Ha]. destruct j as [|j]; simpl in Hj.
  - injection Hj as ->. destruct (Ha _ _ _ eq_refl) as [Hl Hf]. split; [|done]. by eapply lookup_weaken, Hmono.
  - destruct (IH w1 os2 j E2 Hj) as [Hl [Hf|[Hr Hf]]]; (split; [done|]); [by left|right]. split; [done|]. by eapply lookup_weaken_None.
Qed.

Lemma serve_pair calls (w w' : W) os i j replay replay' request n n' : serve calls w = (os, w') → (i < j)%nat →
  os !! i = Some (Ok (Active replay request n)) → os !! j = Some (Ok (Active replay' request n')) →
  replay' = "duplicate" ∧ n_evidenceHash n' = n_evidenceHash n.
Proof.
  revert w os i j. induction calls as [|x calls IH]; intros w os i j E Hij Hi Hj; simpl in E; [by injection E as <- <-|].
  pose proof (serve_active (x :: calls) w w' os j _ _ _ E Hj) as [Hlast _]. pose proof (serve_active (x :: calls) w w' os i _ _ _ E Hi) as [Hfirst _].
  destruct (serveOne x w) as [o w1] eqn:E1. destruct (serve calls w1) as [os2 w2] eqn:E2. injection E as <- <-.
  destruct j as [|j]; [lia|]. simpl in Hj. destruct i as [|i]; [|apply (IH w1 os2 i j); [done|lia|done|done]]. injection Hi as ->.
  split; [|congruence]. apply serveOne_store in E1 as [_ Ha]. destruct (Ha _ _ _ eq_refl) as [Hs _].
  pose proof (serve_active calls w1 w2 os2 j _ _ _ E2 Hj) as [_ [Hd|[_ Hn]]]; [done|congruence].
Qed.

(** Every accepted call has its token, what the token says and what the tables make of it. *)
Lemma serve_accepted calls (w w' : W) os i x replay request n : serve calls w = (os, w') → calls !! i = Some x →
  os !! i = Some (Ok (Active replay request n)) →
  ∃ token t e, rawCredential x = JStr token
    ∧ Authentic keccak256 toUtf8Bytes sha256 recoverAddress getAddress utf8Decode parse (config x) token (wallet x) t e
    ∧ request = requestId n ∧ Normal keccak256 toUtf8Bytes getAddress hmac (config x) e n.
Proof.
  revert w os i. induction calls as [|y calls IH]; intros w os i E Hx Hi; simpl in E; [done|].
  destruct (serveOne y w) as [o w1] eqn:E1. destruct (serve calls w1) as [os2 w2] eqn:E2. injection E as <- <-.
  destruct i as [|i]; [|by eapply (IH w1 os2 i)]. injection Hx as ->. injection Hi as ->. clear IH E2.
  unfold serveOne in E1. destruct (consume _ _ _ _ _ _ _ _ _ _ _ _ _ _ _ _) as [o' s'] eqn:E. injection E1 as -> _.
  pose proof (consume_wp keccak256 toUtf8Bytes sha256 recoverAddress isAddress getAddress hmac utf8Decode parse (config x) now statusOf
    claimShared (λ _, True) ltac:(done) ltac:(done) (rawCredential x) (wallet x)
    {| world := w; heap := c_heap x; authenticated := c_authenticated x |} I) as H.
  apply (wp_run _ _ _ _ _ H) in E as [_ Hr]. destruct (Hr _ eq_refl) as [Hc _]. inversion Hc; subst. by exists token, t1, e.
Qed.
End shared.
End External.

Module ExternalProofs.
Import External.

(** C13. A call of [consume] returns a credential only when the provider said all of
    it: the token is signed by the configured key over its exact text, names this
    issuer, this audience and the caller's wallet, and is within its times when the
    clock is read; the provider's status was active (or, for a revocation, revoked or
    expired); the replay store accepted the claim; the word packs exactly the assurance,
    regime, jurisdiction, times and methods of the signed claims under the reviewed
    tables, and a method bit is set exactly when a signed check maps to it. *)
Theorem external_consume_sound (keccak256 toUtf8Bytes sha256 : string → string) (recoverAddress : string → string → string → Z → outcome string)
    (isAddress : string → bool) (getAddress : string → outcome string) (hmac : string → string → string)
    (utf8Decode : list Z → outcome string) (parse : string → outcome json)
    {W : Type} (c : Config) (now : M W Z) (statusOf : string → M W string) (claim : string → string → M W string)
    (raw : json) (wallet : string) (s s' : State) (r : Consumed) :
  validateConfig isAddress c = Ok tt →
  consume keccak256 toUtf8Bytes sha256 recoverAddress isAddress getAddress hmac utf8Decode parse c now statusOf claim raw wallet s = (Ok r, s') →
  Consumption keccak256 toUtf8Bytes sha256 recoverAddress getAddress hmac utf8Decode parse c now statusOf claim raw wallet r ∧
  ∀ e n, Normal keccak256 toUtf8Bytes getAddress hmac c e n →
    1 ≤ n_assurance n ≤ 5 ∧ 1 ≤ n_jurisdiction n ≤ 999 ∧ n_regime n = (if String.eqb (environment c) "production" then 1 else 2) ∧
    ∀ i, 0 ≤ i < 32 → Z.testbit (n_methods n) i = true ↔
      ∃ check v, check ∈ checks (proofmark e) ∧ dget check (c_methods c) = Some v ∧ Z.testbit v i = true.
Proof.
  intros Hc E. split.
  - pose proof (consume_wp keccak256 toUtf8Bytes sha256 recoverAddress isAddress getAddress hmac utf8Decode parse c now statusOf claim
      (λ _, True) ltac:(done) ltac:(done) raw wallet s I) as H. apply (wp_run _ _ _ _ _ H) in E as [_ Hr]. by apply Hr.
  - intros e n HN. destruct (nm_tables _ _ _ _ _ _ _ HN) as (H1 & H2 & H3).
    pose proof (λ k v, config_tables isAddress c tt k v Hc) as Ht.
    apply (proj1 (Ht _ _)) in H1. apply (proj2 (proj2 (Ht _ _))) in H2. apply (proj1 (proj2 (Ht _ _))) in H3.
    split; [done|]. split; [done|]. split; [done|]. rewrite (nm_methods _ _ _ _ _ _ _ HN).
    apply methodMask_spec. by eapply config_methods.
Qed.

(** C14. Over any sequence of consume calls of adapters that share a replay store,
    while other tasks may claim between their steps: every accepted call had a token
    that is authentic for its adapter and wallet; two accepted tokens with one
    credential id, under adapters with the same id, identifier key and source issuer,
    have the same request id; and of two accepted calls with one request id the later is
    a duplicate whose token text has the same hash as the earlier one's, so such a
    credential id is fresh at most once and never accepted for tokens with different
    hashes. Adapters with different identifier keys claim under different request ids
    and are not covered. *)
Theorem external_replay (keccak256 toUtf8Bytes sha256 : string → string) (recoverAddress : string → string → string → Z → outcome string)
    (isAddress : string → bool) (getAddress : string → outcome string) (hmac : string → string → string)
    (utf8Decode : list Z → outcome string) (parse : string → outcome json)
    {W : Type} `{L : !Lens W Claims} (now : M W Z) (statusOf : string → M W string)
    (Hnow : ∀ w, lens_get w ⊆ lens_get (now w).2) (Hstatus : ∀ id w, lens_get w ⊆ lens_get (statusOf id w).2)
    (calls : list Call) (w w' : W) (os : list (outcome Consumed)) (i j : nat) (x x' : Call) (replay replay' q q' : string) (n n' : Normalized) :
  serve keccak256 toUtf8Bytes sha256 recoverAddress isAddress getAddress hmac utf8Decode parse now statusOf calls w = (os, w') →
  (i < j)%nat → calls !! i = Some x → calls !! j = Some x' →
  os !! i = Some (Ok (Active replay q n)) → os !! j = Some (Ok (Active replay' q' n')) →
  ∃ token t e token' t' e', rawCredential x = JStr token ∧ rawCredential x' = JStr token' ∧
    Authentic keccak256 toUtf8Bytes sha256 recoverAddress getAddress utf8Decode parse (config x) token (wallet x) t e ∧
    Authentic keccak256 toUtf8Bytes sha256 recoverAddress getAddress utf8Decode parse (config x') token' (wallet x') t' e' ∧
    (id_ (config x) = id_ (config x') → credentialIdHmacKey (config x) = credentialIdHmacKey (config x') →
     sourceIssuer (publication (config x)) = sourceIssuer (publication (config x')) → jti e = jti e' → q' = q) ∧
    (q' = q → replay' = "duplicate" ∧ keccak256 (toUtf8Bytes token') = keccak256 (toUtf8Bytes token)).
Proof.
  intros E Hij Hx Hx' Hi Hj.
  destruct (serve_accepted _ _ _ _ _ _ _ _ _ now statusOf calls w w' os i x _ _ _ E Hx Hi) as (token & t & e & Hr & Ha & -> & Hn).
  destruct (serve_accepted _ _ _ _ _ _ _ _ _ now statusOf calls w w' os j x' _ _ _ E Hx' Hj) as (token' & t' & e' & Hr' & Ha' & -> & Hn').
  exists token, t, e, token', t', e'. split_and!; [done..| |].
  - intros Hid Hk Hs Hjti. destruct (nm_ids _ _ _ _ _ _ _ Hn) as (Hc & -> & _). destruct (nm_ids _ _ _ _ _ _ _ Hn') as (Hc' & -> & _).
    rewrite Hc, Hc'. unfold requestIdOf, credentialIdHash. by rewrite Hid, Hk, Hs, Hjti.
  - intros Hq. rewrite Hq in Hj.
    destruct (serve_pair _ _ _ _ _ _ _ _ _ now statusOf Hnow Hstatus calls w w' os i j _ _ _ _ _ E Hij Hi Hj) as [Hd He]. split; [done|].
    destruct (nm_ids _ _ _ _ _ _ _ Hn) as (_ & _ & Hv). destruct (nm_ids _ _ _ _ _ _ _ Hn') as (_ & _ & Hv').
    by rewrite <- (a_digest _ _ _ _ _ _ _ _ _ _ _ _ Ha), <- (a_digest _ _ _ _ _ _ _ _ _ _ _ _ Ha'), <- Hv, <- Hv'.
Qed.

(** ** A provider with two checks *)

Definition exAddress (last : string) : string := "0x00000000000000000000000000000000000000" +:+ last.
Definition exConfig : Config := {|
  id_ := "acme"; issuerId := "https://acme.example"; issuerAddress := exAddress "a1"; keyId := "k1"; audience := "proofmark"; product := "kyc";
  environment := "production"; publication := {| model := "adapter"; sourceIssuer := exAddress "b1" |};
  c_assurance := [("high", 3)]; c_regimes := [("kr", 1)]; c_jurisdictions := [("KR", 410)];
  c_methods := [("document", 4); ("liveness", 16)]; requiredChecks := ["document"]; maxCredentialAgeSeconds := 86400;
  credentialIdHmacKey := "0123456789abcdef0123456789abcdef" |}.
Definition exPayload : json := JObj [
  ("iss", JStr "https://acme.example"); ("aud", JStr "proofmark"); ("sub", JStr (exAddress "01")); ("jti", JStr (RosterProofs.toyHash "id"));
  ("iat", JNum 1780000000); ("exp", JNum 1780600000); ("proofmark", JObj [
    ("schema", JStr EXTERNAL_CREDENTIAL_SCHEMA); ("provider", JStr "acme"); ("product", JStr "kyc"); ("environment", JStr "production");
    ("assurance", JStr "high"); ("regime", JStr "kr"); ("jurisdiction", JStr "KR"); ("checks", JArr [JStr "document"; JStr "liveness"; JStr "extra"]);
    ("evidenceDigest", JStr (RosterProofs.toyHash "evidence"))])].
(** The header is the byte 1, the payload the byte 2. *)
Definition exParse (s : string) : outcome json :=
  if String.eqb s (String "001" "") then Ok (JObj [("alg", JStr "ES256K"); ("typ", JStr "JWT"); ("kid", JStr "k1")])
  else if String.eqb s (String "002" "") then Ok exPayload else Throw (EError "SyntaxError").
Definition exUtf8 (bs : list Z) : outcome string := Ok (string_of_list_ascii (map (λ b, ascii_of_nat (Z.to_nat b)) bs)).
Definition exRecover (digest r s : string) (y : Z) : outcome string := Ok (exAddress (if y =? 0 then "A1" else "c1")).
Definition exHmac (key text : string) : string := Roster.hexBody (RosterProofs.toyHash (key +:+ text)).
Definition exToken : json := JStr ("AQ.Ag." +:+ Base64Url.encode (repeat 7 64)).
Definition exNow : M Claims Z := ret 1780000600.
Definition exStatus (_ : string) : M Claims string := ret "active".
Definition exCall : Call := {| config := exConfig; rawCredential := exToken; wallet := exAddress "01"; c_heap := []; c_authenticated := [] |}.
Definition exStart : State := {| world := ∅ : Claims; heap := []; authenticated := [] |}.
(** A short hash keeps the keys of the store short. *)
Definition exHash (s : string) : string := substring 62 4 (RosterProofs.toyHash s).
Definition exRun := Eval vm_compute in
  consume exHash id exHash exRecover isAddress20 Ok exHmac exUtf8 exParse exConfig exNow exStatus claim_ exToken (exAddress "01") exStart.
Definition exServed := Eval vm_compute in
  serve exHash id exHash exRecover isAddress20 Ok exHmac exUtf8 exParse exNow exStatus [exCall; exCall] (∅ : Claims).
Definition exCredential : Normalized := Eval vm_compute in
  match exRun.1 with Ok (Active _ _ n) => n
  | _ => Build_Normalized "" "" 0 0 0 0 0 0 "" "" "" "" "" end.

Lemma exConsumed : consume exHash id exHash exRecover isAddress20 Ok exHmac exUtf8 exParse exConfig exNow exStatus claim_ exToken (exAddress "01") exStart
  = (Ok (Active "fresh" (requestId exCredential) exCredential), exRun.2).
Proof. by vm_compute. Qed.
Lemma exServe : serve exHash id exHash exRecover isAddress20 Ok exHmac exUtf8 exParse exNow exStatus [exCall; exCall] (∅ : Claims) = exServed.
Proof. by vm_compute. Qed.
Lemma exServed_1 : exServed.1 !! 1%nat = Some (Ok (Active "duplicate" (requestId exCredential) exCredential)).
Proof. by vm_compute. Qed.
Lemma exServed_0 : exServed.1 !! 0%nat = Some (Ok (Active "fresh" (requestId exCredential) exCredential)).
Proof. by vm_compute. Qed.

(** A configuration may map a check to no method bit: only 32 bits of the value are looked at. *)
Lemma method_without_bit : validMethod (2 ^ 32) = true ∧ ∀ i, 0 ≤ i < 32 → Z.testbit (2 ^ 32) i = false.
Proof. split; [by vm_compute|]. intros i Hi. apply Z.pow2_bits_false. lia. Qed.

Lemma external_consume_sound_witness :
  Consumption exHash id exHash exRecover Ok exHmac exUtf8 exParse exConfig exNow exStatus claim_ exToken (exAddress "01")
    (Active "fresh" (requestId exCredential) exCredential).
Proof.
  apply (external_consume_sound exHash id exHash exRecover isAddress20 Ok exHmac exUtf8 exParse exConfig exNow exStatus claim_ exToken (exAddress "01")
    exStart exRun.2 _ ltac:(by vm_compute) exConsumed).
Defined.

(** Adapters with different identifier keys claim under different request ids, so each accepts the token as fresh. *)
Definition exOtherKey : Call := {| config := {|
    id_ := "acme"; issuerId := "https://acme.example"; issuerAddress := exAddress "a1"; keyId := "k1"; audience := "proofmark"; product := "kyc";
    environment := "production"; publication := publication exConfig; c_assurance := c_assurance exConfig; c_regimes := c_regimes exConfig;
    c_jurisdictions := c_jurisdictions exConfig; c_methods := c_methods exConfig; requiredChecks := ["document"]; maxCredentialAgeSeconds := 86400;
    credentialIdHmacKey := "fedcba9876543210fedcba9876543210" |};
  rawCredential := exToken; wallet := exAddress "01"; c_heap := []; c_authenticated := [] |}.
Example exServe_keys : map (λ o, match o with Ok (Active replay _ _) => replay | _ => "" end)
    (serve exHash id exHash exRecover isAddress20 Ok exHmac exUtf8 exParse exNow exStatus [exCall; exOtherKey; exCall] (∅ : Claims)).1
  = ["fresh"; "fresh"; "duplicate"].
Proof. by vm_compute. Qed.

(** The same token twice. *)
Lemma external_replay_witness : ∃ replay n n', exServed.1 !! 0%nat = Some (Ok (Active "fresh" (requestId exCredential) n))
  ∧ exServed.1 !! 1%nat = Some (Ok (Active replay (requestId exCredential) n'))
  ∧ (requestId exCredential = requestId exCredential → replay = "duplicate").
Proof.
  exists "duplicate", exCredential, exCredential. split; [exact exServed_0|]. split; [exact exServed_1|].
  destruct (external_replay exHash id exHash exRecover isAddress20 Ok exHmac exUtf8 exParse exNow exStatus ltac:(done) ltac:(done)
    [exCall; exCall] ∅ exServed.2 exServed.1 0 1 exCall exCall _ _ _ _ _ _ ltac:(rewrite exServe; by destruct exServed) ltac:(lia)
    eq_refl eq_refl exServed_0 exServed_1) as (token & t & e & token' & t' & e' & _ & _ & _ & _ & _ & H). intros Hq. apply (H Hq).
Defined.
End ExternalProofs.
