(* ===== verification/Lists.v ===== *)
(** From the published XML to list entries: the element stream over an XML parser
    ([src/aml/ingest/saxlite.ts], Module Sax), the extraction of entries from the three lists
    ([ingest/parse.ts], Module Ingest) and the checks on the bytes of a list ([ingest/validate.ts] and
    [parseListBytes] of [loader.ts], Module Loader).  The parser is a parameter: it gives the events of a text and
    whether the text is well formed.  The text of a document is a list of code points. *)

From Stdlib Require Import ZArith Lia Ascii String List.
From stdpp Require Import base decidable option list strings pretty.
From S2P Require Import Prelude JS Identity Kr Edit Names Match.
Local Open Scope string_scope.
Local Open Scope list_scope.
Local Open Scope Z_scope.
Local Open Scope js_scope.

(** A string of single-unit characters from the text of an identifier, a date or an address. *)
Definition asString (t : text) : string := string_of_list_ascii (map (λ c, ascii_of_nat (Z.to_nat c)) t).

Module Sax.

(** What the handlers of the parser are called with; [local] is the name without prefix. *)
Inductive event :=
  | Doctype
  | OpenTag (local : text) (attributes : list (text * text))
  | Text (t : text)
  | Cdata (t : text)
  | CloseTag
  | Other.

Unset Elimination Schemes.
Inductive El := mkEl { tag : text; attrs : list (text * text); kids : list El; txt : text }.
Set Elimination Schemes.

Definition fromEntries (l : list (text * text)) : list (text * text) := fold_left (λ d kv, mset kv.1 kv.2 d) l [].

(** ** The handlers

    The stack holds the elements that are open, the innermost first; the source appends an element to the
    children of its parent when it opens, the model when it closes, which gives the same children in the
    same order. *)
Section stream.
Context {A : Type} (wanted : text) (cb : El → A → outcome A).

Definition append (t : text) (stack : list El) : list El :=
  match stack with
  | [] => []
  | el :: stack => mkEl (tag el) (attrs el) (kids el) (txt el ++ t) :: stack
  end.

Definition handle (e : event) (st : list El * A) : outcome (list El * A) :=
  let '(stack, acc) := st in
  match e with
  | Doctype => Throw (EError "sanctions DTD is forbidden")
  | OpenTag local attributes =>
      if bool_decide (stack = []) && negb (bool_decide (local = wanted)) then Ok st
      else Ok (mkEl local (fromEntries attributes) [] [] :: stack, acc)
  | Text t | Cdata t => Ok (append t stack, acc)
  | CloseTag =>
      match stack with
      | [] => Ok st
      | el :: rest =>
          let el := mkEl (tag el) (attrs el) (kids el) (Normalize.trimText (txt el)) in
          match rest with
          | [] => let? acc := cb el acc in Ok ([], acc)
          | parent :: rest => Ok (mkEl (tag parent) (attrs parent) (kids parent ++ [el]) (txt parent) :: rest, acc)
          end
      end
  | Other => Ok st
  end.

(** A text that is not well formed throws after the events before its error. *)
Definition streamElements (parsed : list event * bool) (acc : A) : outcome A :=
  let? st := ofold handle parsed.1 ([], acc) in
  let? _ := orequire parsed.2 (EError "XML is not well formed") in
  Ok st.2.
End stream.

Definition attr (el : El) (name : text) : text := default [] (mget name (attrs el)).
Definition direct (el : El) (t : text) : list El := filter (λ k, bool_decide (tag k = t)) (kids el).
Definition text_ (el : El) (t : text) : text :=
  match find (λ k, bool_decide (tag k = t)) (kids el) with Some k => txt k | None => [] end.
Definition children (el : El) (parentTag childTag : text) : list El :=
  flat_map (λ p, direct p childTag) (direct el parentTag).

(** ** Documents

    The content of a well-formed document, the events it gives, and what a reader of the document would
    call its elements. *)
Unset Elimination Schemes.
Inductive node :=
  | NText (t : text)
  | NCdata (t : text)
  | NOther
  | NElem (local : text) (attributes : list (text * text)) (content : list node).
Set Elimination Schemes.

Section node_ind.
Variable P : node → Prop.
Hypothesis Ptext : ∀ t, P (NText t).
Hypothesis Pcdata : ∀ t, P (NCdata t).
Hypothesis Pother : P NOther.
Hypothesis Pelem : ∀ l a content, Forall P content → P (NElem l a content).

Definition node_ind : ∀ n, P n :=
  fix go n := match n with
  | NText t => Ptext t | NCdata t => Pcdata t | NOther => Pother
  | NElem l a content => Pelem l a content ((fix gol c := match c return Forall P c with
      | [] => List.Forall_nil _ | x :: c => List.Forall_cons _ _ _ (go x) (gol c) end) content)
  end.
End node_ind.

Fixpoint events (n : node) : list event :=
  match n with
  | NText t => [Text t]
  | NCdata t => [Cdata t]
  | NOther => [Other]
  | NElem l a content => OpenTag l a :: flat_map events content ++ [CloseTag]
  end.

(** The element of a node: its child elements in order, and its own text, trimmed. *)
Definition ownText (n : node) : text := match n with NText t | NCdata t => t | _ => [] end.
Fixpoint elementsOf (n : node) : list El :=
  match n with
  | NElem l a content => [mkEl l (fromEntries a) (flat_map elementsOf content) (Normalize.trimText (flat_map ownText content))]
  | _ => []
  end.
(** The outermost elements with a name, in document order. *)
Fixpoint outermost (wanted : text) (n : node) : list El :=
  match n with
  | NElem l a content => if bool_decide (l = wanted) then elementsOf n else flat_map (outermost wanted) content
  | _ => []
  end.

Section refinement.
Context {A : Type} (wanted : text) (cb : El → A → outcome A).
Abbreviation run := (ofold (handle wanted cb)).

(** Within an element that is kept, the events of a node add its elements and its text. *)
Definition Inside (n : node) : Prop := ∀ el rest acc,
  run (events n) (el :: rest, acc) = Ok (mkEl (tag el) (attrs el) (kids el ++ elementsOf n) (txt el ++ ownText n) :: rest, acc).

Lemma inside_content content : Forall Inside content → ∀ el rest acc, run (flat_map events content) (el :: rest, acc)
  = Ok (mkEl (tag el) (attrs el) (kids el ++ flat_map elementsOf content) (txt el ++ flat_map ownText content) :: rest, acc).
Proof.
  induction 1 as [|x content Hx _ IH]; intros el rest acc; simpl.
  - rewrite !app_nil_r. by destruct el.
  - rewrite ofold_app, Hx. simpl. rewrite IH. simpl. by rewrite !app_assoc.
Qed.

Lemma inside n : Inside n.
Proof.
  induction n as [t|t| |l a content IH] using node_ind; intros el rest acc.
  - simpl. by rewrite app_nil_r.
  - simpl. by rewrite app_nil_r.
  - simpl. rewrite !app_nil_r. by destruct el.
  - cbn [events]. change (run (OpenTag l a :: ?x) ?s) with (obind (handle wanted cb (OpenTag l a) s) (run x)).
    cbn [handle]. rewrite bool_decide_eq_false_2 by done. cbn [andb obind]. rewrite ofold_app, inside_content by done. simpl. by rewrite app_nil_r.
Qed.

(** At the top the handler is called for the outermost wanted elements, in order. *)
Lemma outside n : ∀ acc, run (events n) ([], acc) = obind (ofold cb (outermost wanted n) acc) (λ acc, Ok ([], acc)).
Proof.
  induction n as [t|t| |l a content IH] using node_ind; intros acc; [done..|].
  cbn [events outermost]. change (run (OpenTag l a :: ?x) ?s) with (obind (handle wanted cb (OpenTag l a) s) (run x)).
  cbn [handle]. rewrite bool_decide_eq_true_2 by done. destruct (decide (l = wanted)) as [Hl|Hl].
  - rewrite !bool_decide_eq_true_2 by done. cbn [negb andb obind]. rewrite ofold_app, inside_content by (apply Forall_true, inside). simpl.
    by destruct (cb _ acc).
  - rewrite !bool_decide_eq_false_2 by done. cbn [negb andb obind]. rewrite ofold_app.
    assert (∀ acc, run (flat_map events content) ([], acc) = obind (ofold cb (flat_map (outermost wanted) content) acc) (λ acc, Ok ([], acc))) as ->.
    { clear acc. induction IH as [|x content Hx _ IHc]; intros acc; simpl; [done|].
      rewrite !ofold_app, Hx. destruct (ofold cb (outermost wanted x) acc) as [acc'|]; simpl; [apply IHc|done]. }
    by destruct (ofold cb _ acc).
Qed.

Lemma streamElements_document n acc : streamElements wanted cb (events n, true) acc = ofold cb (outermost wanted n) acc.
Proof. unfold streamElements. cbn [fst snd]. rewrite outside. by destruct (ofold cb _ acc). Qed.
End refinement.
End Sax.

Module Ingest.
Import Match Sax.

(** [COUNTRY]: the names of countries, in lower case.  (A JavaScript object also answers for the names of
    [Object.prototype], such as [constructor]; no country is called so.) *)
Definition COUNTRY : list (string * string) := [
  ("korea, north", "KP"); ("north korea", "KP"); ("democratic people's republic of korea", "KP"); ("dprk", "KP");
  ("korea, south", "KR"); ("south korea", "KR"); ("republic of korea", "KR"); ("korea", "KR");
  ("iran", "IR"); ("islamic republic of iran", "IR"); ("syria", "SY"); ("syrian arab republic", "SY");
  ("cuba", "CU"); ("russia", "RU"); ("russian federation", "RU"); ("belarus", "BY"); ("venezuela", "VE");
  ("myanmar", "MM"); ("burma", "MM"); ("afghanistan", "AF"); ("iraq", "IQ"); ("libya", "LY"); ("somalia", "SO");
  ("sudan", "SD"); ("south sudan", "SS"); ("yemen", "YE"); ("zimbabwe", "ZW"); ("lebanon", "LB");
  ("china", "CN"); ("japan", "JP"); ("united states", "US"); ("united kingdom", "GB"); ("germany", "DE");
  ("france", "FR"); ("ukraine", "UA"); ("turkey", "TR"); ("tuerkiye", "TR"); ("pakistan", "PK"); ("india", "IN");
  ("nicaragua", "NI"); ("mali", "ML"); ("haiti", "HT"); ("central african republic", "CF");
  ("congo, democratic republic of the", "CD"); ("bosnia and herzegowina", "BA"); ("bosnia and herzegovina", "BA");
  ("moldova, republic of", "MD"); ("macedonia", "MK"); ("north macedonia", "MK"); ("serbia", "RS"); ("montenegro", "ME");
  ("cote d'ivoire", "CI"); ("cote d ivoire", "CI"); ("eritrea", "ER"); ("guinea", "GN"); ("guinea-bissau", "GW");
  ("burundi", "BI"); ("nigeria", "NG"); ("tunisia", "TN"); ("egypt", "EG"); ("israel", "IL"); ("palestine", "PS")].
Definition isLetter (c : ascii) : bool := Normalize.isAlpha c.
Definition toIso2 (v : string) : string :=
  let s := trim v in
  if String.eqb s "" then ""
  else if (String.length s =? 2)%nat && allChars isLetter s then toUpperCase s
  else default "" (dget (toLowerCase s) COUNTRY).
Example toIso2_names : map toIso2 [" South Korea "; "SYRIAN ARAB REPUBLIC"; "Bosnia and Herzegovina"; "Cote d'Ivoire"; "kp"; "Atlantis"; ""]
  = ["KR"; "SY"; "BA"; "CI"; "KP"; ""; ""].
Proof. by vm_compute. Qed.
(** Every name of the table is found, under the trimming and the lower case of the look-up. *)
Example toIso2_table : forallb (λ kv, String.eqb (toIso2 (toUpperCase kv.1)) kv.2) COUNTRY = true.
Proof. by vm_compute. Qed.

Definition CRYPTO_PREFIX : string := "digital currency address".
(** [a.filter(Boolean).join(' ').trim()] *)
Fixpoint joinSpace (l : list text) : text :=
  match l with [] => [] | [t] => t | t :: l => t ++ 32 :: joinSpace l end.
Definition nonEmpty (t : text) : bool := negb (bool_decide (t = [])).
Definition joined (parts : list text) : text := Normalize.trimText (joinSpace (filter nonEmpty parts)).
(** A value is added to a set unless it is empty. *)
Definition addText (t : text) (s : list text) : list text := if nonEmpty t then setAdd t s else s.
Definition addString (t : string) (s : list string) : list string := if String.eqb t "" then s else setAdd t s.
Definition addDob (raw : text) (s : list string) : list string :=
  match Normalize.normalizeDob (asString raw) with Some v => addString v s | None => s end.
(** [for (const x of l) add(f(x))] from a set. *)
Definition addAll {X Y} (add : Y → list Y → list Y) (f : X → Y) (l : list X) (s : list Y) : list Y :=
  fold_left (λ s x, add (f x) s) l s.
Definition tt_ (s : string) : text := textOf s.
Definition field (el : El) (name : string) : text := text_ el (tt_ name).
Definition fieldString (el : El) (name : string) : string := asString (field el name).

(** ** OFAC SDN *)

Definition akaName (aka : El) : text := joined [field aka "firstName"; field aka "lastName"].
(** The address of an identity document, or nothing when it is not one of a digital currency. *)
Definition cryptoAddress (id : El) : string :=
  if String.prefix CRYPTO_PREFIX (toLowerCase (fieldString id "idType")) then toLowerCase (trim (fieldString id "idNumber")) else "".

Definition ofacEntry (el : El) : outcome SanctionEntry :=
  let uid := fieldString el "uid" in
  let? _ := orequire (negb (String.eqb uid "")) (EError "OFAC entry missing uid") in
  let primary := joined [field el "firstName"; field el "lastName"] in
  let names := addAll addText akaName (children el (tt_ "akaList") (tt_ "aka")) (addText primary []) in
  let dobs := fold_left (λ s d, addDob (field d "dateOfBirth") s) (children el (tt_ "dateOfBirthList") (tt_ "dateOfBirthItem")) [] in
  let countries := addAll addString (λ n, toIso2 (fieldString n "country")) (children el (tt_ "nationalityList") (tt_ "nationality")) [] in
  let countries := addAll addString (λ n, toIso2 (fieldString n "country")) (children el (tt_ "citizenshipList") (tt_ "citizenship")) countries in
  let crypto := addAll addString cryptoAddress (children el (tt_ "idList") (tt_ "id")) [] in
  let st := toLowerCase (fieldString el "sdnType") in
  Ok {| listId := "OFAC_SDN"; entryId := uid; primaryName := if nonEmpty primary then primary else default [] (head names);
        Match.names := names; Match.dobs := dobs; Match.countries := countries;
        programs := filter (λ p, negb (String.eqb p "")) (map (λ p, asString (txt p)) (children el (tt_ "programList") (tt_ "program")));
        cryptoAddresses := crypto;
        e_type := if String.eqb st "individual" then "individual" else if String.eqb st "vessel" then "vessel"
                  else if String.eqb st "entity" then "entity" else "unknown" |}.

(** ** UN Consolidated *)

Definition unEntry (kind : string) (el : El) : outcome SanctionEntry :=
  let id := fieldString el "DATAID" in
  let? _ := orequire (negb (String.eqb id "")) (EError "UN entry missing DATAID") in
  let primary := joined (map (field el) ["FIRST_NAME"; "SECOND_NAME"; "THIRD_NAME"; "FOURTH_NAME"]) in
  let aliasTag := if String.eqb kind "individual" then "INDIVIDUAL_ALIAS" else "ENTITY_ALIAS" in
  let names := addAll addText (λ a, Normalize.trimText (field a "ALIAS_NAME")) (direct el (tt_ aliasTag)) (addText primary []) in
  let dobs := fold_left (λ s d, fold_left (λ s t, addDob (field d t) s) ["DATE"; "YEAR"; "FROM_YEAR"; "TO_YEAR"] s)
                (direct el (tt_ "INDIVIDUAL_DATE_OF_BIRTH")) [] in
  let countries := addAll addString (λ n, toIso2 (fieldString n "VALUE")) (direct el (tt_ "NATIONALITY")) [] in
  Ok {| listId := "UN_CONSOLIDATED"; entryId := id; primaryName := primary; Match.names := names; Match.dobs := dobs;
        Match.countries := countries; programs := filter (λ p, negb (String.eqb p "")) [fieldString el "UN_LIST_TYPE"];
        cryptoAddresses := []; e_type := kind |}.

(** ** EU FSF *)

Definition attribute (el : El) (name : string) : text := attr el (tt_ name).
Definition euAlias (a : El) : text :=
  let whole := Normalize.trimText (attribute a "wholeName") in
  if nonEmpty whole then whole else joined (map (attribute a) ["firstName"; "middleName"; "lastName"]).
(** [a || b] on texts. *)
Definition orText (a b : text) : text := if nonEmpty a then a else b.

Definition euEntry (el : El) : outcome SanctionEntry :=
  let id := asString (orText (attribute el "logicalId") (attribute el "euReferenceNumber")) in
  let? _ := orequire (negb (String.eqb id "")) (EError "EU entry missing identifier") in
  let names := addAll addText euAlias (direct el (tt_ "nameAlias")) [] in
  let dobs := fold_left (λ s b, fold_left (λ s k, addDob (attribute b k) s) ["birthdate"; "year"] s) (direct el (tt_ "birthdate")) [] in
  let countries := addAll addString (λ c, toIso2 (asString (orText (attribute c "countryIso2Code") (attribute c "countryDescription"))))
                     (direct el (tt_ "citizenship")) [] in
  let code := match direct el (tt_ "subjectType") with st :: _ => toLowerCase (asString (attribute st "code")) | [] => "" end in
  Ok {| listId := "EU_FSF"; entryId := id; primaryName := default [] (head names); Match.names := names; Match.dobs := dobs;
        Match.countries := countries; programs := []; cryptoAddresses := [];
        e_type := if String.eqb code "person" then "individual" else if String.eqb code "enterprise" then "entity" else "unknown" |}.

(** A handler that pushes the entry of each element. *)
Definition pushing (entry : El → outcome SanctionEntry) (el : El) (out : list SanctionEntry) : outcome (list SanctionEntry) :=
  let? e := entry el in Ok (out ++ [e]).

Definition parseOfac (parsed : list event * bool) : outcome (list SanctionEntry) := streamElements (tt_ "sdnEntry") (pushing ofacEntry) parsed [].
Definition parseUn (parsed : list event * bool) : outcome (list SanctionEntry) :=
  let? out := streamElements (tt_ "INDIVIDUAL") (pushing (unEntry "individual")) parsed [] in
  streamElements (tt_ "ENTITY") (pushing (unEntry "entity")) parsed out.
Definition parseEu (parsed : list event * bool) : outcome (list SanctionEntry) := streamElements (tt_ "sanctionEntity") (pushing euEntry) parsed [].

(** ** What is extracted *)

Lemma addAll_spec {X Y} (add : Y → list Y → list Y) (skip : Y → Prop) (f : X → Y) l s :
  (∀ y s z, z ∈ add y s ↔ (z = y ∧ ¬ skip y) ∨ z ∈ s) → ∀ z, z ∈ addAll add f l s ↔ (∃ x, x ∈ l ∧ z = f x ∧ ¬ skip z) ∨ z ∈ s.
Proof.
  intros Hadd. unfold addAll. induction l as [|x l IH] in s |- *; intros z; simpl.
  - split; [by right|]. intros [(x & Hx & _)|]; [by apply elem_of_nil in Hx|done].
  - rewrite IH, Hadd. split.
    + intros [(y & Hy & Hz)|[[-> Hz]|Hz]]; [left; exists y; split; [by right|done]|left; exists x; split; [by left|done]|by right].
    + intros [(y & [->|Hy]%elem_of_cons & -> & Hz)|Hz]; [by right; left|left; by exists y|by right; right].
Qed.
Lemma addText_spec y s z : z ∈ addText y s ↔ (z = y ∧ ¬ y = []) ∨ z ∈ s.
Proof.
  unfold addText, nonEmpty. destruct (bool_decide_reflect (y = [])) as [->|Hy]; simpl; [|rewrite elem_of_setAdd]; naive_solver.
Qed.
Lemma addString_spec y s z : z ∈ addString y s ↔ (z = y ∧ ¬ y = "") ∨ z ∈ s.
Proof.
  unfold addString. destruct (String.eqb_spec y "") as [->|Hy]; [|rewrite elem_of_setAdd]; naive_solver.
Qed.

Lemma pushing_entries entry els : ∀ out res, ofold (pushing entry) els out = Ok res → ∃ es, res = out ++ es ∧ Forall2 (λ el e, entry el = Ok e) els es.
Proof.
  induction els as [|el els IH]; intros out res; simpl.
  - intros [= <-]. exists []. by rewrite app_nil_r.
  - intros (out' & (e & He & [= <-])%obind_ok & (es & -> & Hes)%IH)%obind_ok. exists (e :: es). rewrite <- app_assoc. split; [done|]. by constructor.
Qed.
Lemma parse_document entry wanted d out res : streamElements wanted (pushing entry) (events d, true) out = Ok res →
  ∃ es, res = out ++ es ∧ Forall2 (λ el e, entry el = Ok e) (outermost wanted d) es.
Proof. rewrite streamElements_document. apply pushing_entries. Qed.

(** The names of an entry are the primary name and the aliases that are not empty. *)
Definition NamesOf (primary : text) (aliases : list text) (e : SanctionEntry) : Prop :=
  ∀ n, n ∈ Match.names e ↔ n ≠ [] ∧ (n = primary ∨ n ∈ aliases).
(** Every address that an identity document of digital currency gives, in lower case. *)
Definition WalletsOf (el : El) (e : SanctionEntry) : Prop :=
  ∀ a, a ∈ cryptoAddresses e ↔ a ≠ "" ∧ ∃ id, id ∈ children el (tt_ "idList") (tt_ "id") ∧ a = cryptoAddress id.

Lemma addAll_names {X} (f : X → text) l primary n :
  n ∈ addAll addText f l (addText primary []) ↔ n ≠ [] ∧ (n = primary ∨ n ∈ map f l).
Proof.
  rewrite (addAll_spec addText (λ y, y = []) f l _ addText_spec), addText_spec, list_elem_of_fmap. split.
  - intros [(x & Hx & -> & Hn)|[[-> Hn]|[]%elem_of_nil]]; [|by split; [|left]]. split; [done|]. right. by exists x.
  - intros [Hn [->|(x & -> & Hx)]]; [by right; left|]. left. by exists x.
Qed.

Lemma ofacEntry_spec el e : ofacEntry el = Ok e →
  listId e = "OFAC_SDN" ∧ entryId e = fieldString el "uid" ∧ entryId e ≠ ""
  ∧ NamesOf (joined [field el "firstName"; field el "lastName"]) (map akaName (children el (tt_ "akaList") (tt_ "aka"))) e ∧ WalletsOf el e.
Proof.
  intros (u & Hu%orequire_ok & [= <-])%obind_ok. apply negb_true_iff, String.eqb_neq in Hu. split_and!; [done|done|done| |].
  - intros n. apply addAll_names.
  - intros a. cbn [cryptoAddresses]. rewrite (addAll_spec addString (λ y, y = "") cryptoAddress _ _ addString_spec). split.
    + intros [(id & Hid & -> & Ha)|[]%elem_of_nil]. split; [done|]. by exists id.
    + intros [Ha (id & Hid & ->)]. left. by exists id.
Qed.

(** The codes of the nationalities and citizenships whose names the table has. *)
Definition CountriesOf (el : El) (e : SanctionEntry) : Prop :=
  ∀ c, c ∈ Match.countries e ↔ c ≠ "" ∧ ∃ n, c = toIso2 (fieldString n "country")
    ∧ (n ∈ children el (tt_ "nationalityList") (tt_ "nationality") ∨ n ∈ children el (tt_ "citizenshipList") (tt_ "citizenship")).
Lemma ofacEntry_countries el e : ofacEntry el = Ok e → CountriesOf el e.
Proof.
  intros (u & _ & [= <-])%obind_ok c. cbn [Match.countries].
  rewrite !(addAll_spec addString (λ y, y = "") (λ n, toIso2 (fieldString n "country")) _ _ addString_spec). split.
  - intros [(n & Hn & E & Hc)|[(n & Hn & E & Hc)|[]%elem_of_nil]]; (split; [done|]); exists n; split; [done|by right|done|by left].
  - intros [Hc (n & E & [Hn|Hn])]; [right; left|left]; by exists n.
Qed.

Lemma unEntry_spec kind el e : unEntry kind el = Ok e →
  listId e = "UN_CONSOLIDATED" ∧ entryId e = fieldString el "DATAID" ∧ entryId e ≠ ""
  ∧ NamesOf (joined (map (field el) ["FIRST_NAME"; "SECOND_NAME"; "THIRD_NAME"; "FOURTH_NAME"]))
      (map (λ a, Normalize.trimText (field a "ALIAS_NAME"))
         (direct el (tt_ (if String.eqb kind "individual" then "INDIVIDUAL_ALIAS" else "ENTITY_ALIAS")))) e.
Proof.
  intros (u & Hu%orequire_ok & [= <-])%obind_ok. apply negb_true_iff, String.eqb_neq in Hu. split_and!; [done|done|done|].
  intros n. apply addAll_names.
Qed.

Lemma euEntry_spec el e : euEntry el = Ok e →
  listId e = "EU_FSF" ∧ entryId e ≠ "" ∧ ∀ n, n ∈ Match.names e ↔ n ≠ [] ∧ n ∈ map euAlias (direct el (tt_ "nameAlias")).
Proof.
  intros (u & Hu%orequire_ok & [= <-])%obind_ok. apply negb_true_iff, String.eqb_neq in Hu. split_and!; [done|done|].
  intros n. cbn [Match.names]. rewrite (addAll_spec addText (λ y, y = []) euAlias _ _ addText_spec), list_elem_of_fmap. split.
  - intros [(x & Hx & -> & Hn)|[]%elem_of_nil]. split; [done|]. by exists x.
  - intros [Hn (x & -> & Hx)]. left. by exists x.
Qed.
End Ingest.

(** * The bytes of a list *)

Module Loader.
Import Match Sax Ingest.

Definition LIST_IDS : list string := ["OFAC_SDN"; "UN_CONSOLIDATED"; "EU_FSF"].
(** [SOURCES[id].root] and [SOURCES[id].file]. *)
Definition ROOTS : list (string * string) := [("OFAC_SDN", "sdnList"); ("UN_CONSOLIDATED", "CONSOLIDATED_LIST"); ("EU_FSF", "export")].
Definition FILES : list (string * string) := [("OFAC_SDN", "ofac_sdn.xml"); ("UN_CONSOLIDATED", "un_consolidated.xml"); ("EU_FSF", "eu_fsf.xml")].

(** The handlers of [validateXml]: the depth and the root element. *)
Definition depthOf (e : event) (st : Z * text) : outcome (Z * text) :=
  let '(depth, root) := st in
  match e with
  | Doctype => Throw (EError "sanctions DTD is forbidden")
  | OpenTag local _ =>
      let? _ := orequire (depth + 1 <=? 64) (EError "sanctions XML nesting exceeds limit") in
      Ok (depth + 1, if depth + 1 =? 1 then local else root)
  | CloseTag => Ok (depth - 1, root)
  | _ => Ok st
  end.

Section loader.
(** The fatal UTF-8 decoder, and the parser: the events of a text and whether it is well formed. *)
Context {Bytes : Type} (utf8Decode : Bytes → outcome text) (saxes : text → list event * bool).

Definition validateXml (bytes : Bytes) (id : string) : outcome text :=
  let? xml := utf8Decode bytes in
  let? st := ofold depthOf (saxes xml).1 (0, []) in
  let? _ := orequire (saxes xml).2 (EError "XML is not well formed") in
  let? _ := orequire (bool_decide (textOf <$> dget id ROOTS = Some st.2))
              (EError ("wrong sanctions XML root for " +:+ id)) in
  Ok xml.

Definition parsers (id : string) (parsed : list event * bool) : outcome (list SanctionEntry) :=
  if String.eqb id "OFAC_SDN" then parseOfac parsed
  else if String.eqb id "UN_CONSOLIDATED" then parseUn parsed
  else if String.eqb id "EU_FSF" then parseEu parsed
  else Throw (EError "TypeError").

(** The loop over the entries, with the identifiers seen. *)
Definition checkEntry (id : string) (e : SanctionEntry) (ids : list string) : outcome (list string) :=
  let? _ := orequire (negb (String.eqb (entryId e) "") && negb (bool_decide (primaryName e = [])) && negb (bool_decide (Match.names e = []))
                      && negb (bool_decide (entryId e ∈ ids))) (EError ("missing/duplicate sanctions identity in " +:+ id)) in
  Ok (entryId e :: ids).

Definition parseListBytes (bytes : Bytes) (id : string) : outcome (list SanctionEntry) :=
  let? xml := validateXml bytes id in
  let? entries := parsers id (saxes xml) in
  let? _ := orequire (negb (bool_decide (entries = []))) (EError ("empty sanctions list " +:+ id)) in
  let? _ := ofold (checkEntry id) entries [] in
  Ok entries.

(** What is loaded of a list: every entry has an identity and a name, and no identity occurs twice. *)
Definition Identified (es : list SanctionEntry) : Prop :=
  es ≠ [] ∧ NoDup (map entryId es) ∧ Forall (λ e, entryId e ≠ "" ∧ primaryName e ≠ [] ∧ Match.names e ≠ []) es.

Lemma checkEntries_ok id es : ∀ ids res, NoDup ids → ofold (checkEntry id) es ids = Ok res →
  NoDup (map entryId es ++ ids) ∧ Forall (λ e, entryId e ≠ "" ∧ primaryName e ≠ [] ∧ Match.names e ≠ []) es.
Proof.
  induction es as [|e es IH]; intros ids res Hnd; simpl; [by split|].
  intros (ids' & (u & Hu%orequire_ok & [= <-])%obind_ok & H)%obind_ok. rewrite !andb_true_iff, !negb_true_iff, !bool_decide_eq_false, String.eqb_neq in Hu.
  destruct Hu as [[[H1 H2] H3] H4]. destruct (IH (entryId e :: ids) res ltac:(by constructor) H) as [Hn Hf]. split; [|by constructor].
  revert Hn. by rewrite <- Permutation_middle.
Qed.

Lemma parseListBytes_ok bytes id es : parseListBytes bytes id = Ok es → ∃ xml, validateXml bytes id = Ok xml ∧ utf8Decode bytes = Ok xml
  ∧ parsers id (saxes xml) = Ok es ∧ Identified es.
Proof.
  intros (xml & Hv & (es' & Hp & (u & Hne%orequire_ok & (ids & Hc & [= <-])%obind_ok)%obind_ok)%obind_ok)%obind_ok.
  exists xml. split; [done|]. split.
  { apply obind_ok in Hv as (xml' & Hd & H). apply obind_ok in H as (st & _ & (u1 & _ & (u2 & _ & [= <-])%obind_ok)%obind_ok). done. }
  split; [done|]. apply negb_true_iff, bool_decide_eq_false in Hne. apply checkEntries_ok in Hc as [Hn Hf]; [|constructor].
  rewrite app_nil_r in Hn. done.
Qed.

(** Of a well-formed document, the entries of a list are those of its outermost elements with the name of
    its entries; nothing is skipped. *)
Definition entryTags (id : string) : list (text * (El → outcome SanctionEntry)) :=
  if String.eqb id "OFAC_SDN" then [(tt_ "sdnEntry", ofacEntry)]
  else if String.eqb id "UN_CONSOLIDATED" then [(tt_ "INDIVIDUAL", unEntry "individual"); (tt_ "ENTITY", unEntry "entity")]
  else [(tt_ "sanctionEntity", euEntry)].

Definition elementsOfList (id : string) (d : node) : list (El * (El → outcome SanctionEntry)) :=
  flat_map (λ te, map (λ el, (el, te.2)) (outermost te.1 d)) (entryTags id).

Lemma parsers_elements id d es : parsers id (events d, true) = Ok es → Forall2 (λ p e, p.2 p.1 = Ok e) (elementsOfList id d) es.
Proof.
  unfold parsers, elementsOfList, entryTags. repeat destruct (String.eqb id _); try done.
  - intros (es' & -> & H)%parse_document. simpl. rewrite app_nil_r. by apply Forall2_fmap_l.
  - intros (out & (es1 & -> & H1)%parse_document & (es2 & -> & H2)%parse_document)%obind_ok. simpl. rewrite app_nil_r.
    apply Forall2_app; by apply Forall2_fmap_l.
  - intros (es' & -> & H)%parse_document. simpl. rewrite app_nil_r. by apply Forall2_fmap_l.
Qed.
End loader.
End Loader.

Module ListsProofs.
Import Match Sax Ingest Loader.


(** A person with an alias and a wallet. *)
Definition leaf (name value : string) : node := NElem (tt_ name) [] [NText (textOf value)].
Definition exDocument : node := NElem (tt_ "sdnList") [] [NText [10]; NOther;
  NElem (tt_ "sdnEntry") [] [leaf "uid" "7"; leaf "firstName" "John"; leaf "lastName" " Smith "; leaf "sdnType" "Individual";
    NElem (tt_ "nationalityList") [] [NElem (tt_ "nationality") [] [leaf "country" "South Korea"]];
    NElem (tt_ "idList") [] [NElem (tt_ "id") [] [leaf "idType" "Digital Currency Address - XBT"; leaf "idNumber" "BC1Q"]];
    NElem (tt_ "akaList") [] [NElem (tt_ "aka") [] [leaf "lastName" "Smyth"]; NElem (tt_ "aka") [] [leaf "lastName" ""]]]].
Definition exEl : El := Eval vm_compute in default (mkEl [] [] [] []) (head (outermost (tt_ "sdnEntry") exDocument)).
Definition exParsed : list SanctionEntry := Eval vm_compute in
  ok_or [] (parseListBytes (λ b, Ok b) (λ _, (events exDocument, true)) [] "OFAC_SDN").
Definition exEntry : SanctionEntry := Eval vm_compute in default (mkEntry "" "" [] [] [] [] [] [] "") (head exParsed).
Lemma exParsed_ok : parseListBytes (λ b, Ok b) (λ _, (events exDocument, true)) [] "OFAC_SDN" = Ok exParsed.
Proof. by vm_compute. Qed.
Lemma exEntry_ok : ofacEntry exEl = Ok exEntry.
Proof. by vm_compute. Qed.

End ListsProofs.
