(* ===== verification/ListIndex.v ===== *)
(** The lists on their way to the screening engine: the baked index ([src/aml/index-format.ts], Module Index),
    the reading of an activated generation of lists ([loader.ts], Module Load) and the engine cache of the web
    process ([index-cache.ts], Module Cache).  Compression, JSON texts, SHA-256, files and the clock are
    parameters; limits that come from the environment are arguments. *)

From Stdlib Require Import ZArith Lia Ascii String List.
From stdpp Require Import base decidable option list strings pretty sets.
From S2P Require Import Prelude JS Roster Merkle Attrs Json Identity Kr Issue Edit Names Match Screen Lists.
Import Json Match Provenance.
Local Open Scope string_scope.
Local Open Scope list_scope.
Local Open Scope Z_scope.
Local Open Scope js_scope.

Module Index.

Definition INDEX_VERSION : Z := 3.

(** JSON values whose strings are texts. *)
Unset Elimination Schemes.
Inductive val :=
  | VNum (n : Z)
  | VText (t : text)
  | VArr (l : list val)
  | VObj (fields : list (string * val))
  | VOther.
Set Elimination Schemes.

Record IndexMeta := {
  m_v : Z; builtAt : string; m_provenance : ListProvenance; entriesSha256 : string; listVersions : list (string * Z);
  counts : list (string * Z); sourceUpdatedAt : list (string * string) }.
(** What the compressed file holds; the entries are not trusted to have their type. *)
Record RawIndex := { meta : IndexMeta; raw_entries : val }.

Definition isLowerAddress (s : string) : bool := hexString isLowerHex 40 s.
Definition typeNumber (t : string) : Z := if String.eqb t "individual" then 0 else if String.eqb t "entity" then 1 else 2.
Definition typeName (t : Z) : string := if t =? 0 then "individual" else if t =? 1 then "entity" else "unknown".

(** The slim entry of [buildIndex]. *)
Definition slim (e : SanctionEntry) : val := VObj [
  ("l", VNum (Merkle.Merkle.indexOf (listId e) LIST_IDS)); ("i", VText (textOf (entryId e))); ("p", VText (primaryName e));
  ("n", VArr (map VText (names e))); ("d", VArr (map (λ s, VText (textOf s)) (dobs e)));
  ("c", VArr (map (λ s, VText (textOf s)) (countries e)));
  ("w", VArr (map (λ s, VText (textOf s)) (filter isLowerAddress (cryptoAddresses e)))); ("t", VNum (typeNumber (e_type e)))].

(** [strings(v)]: an array of strings. *)
Definition texts (v : option val) : option (list text) :=
  match v with
  | Some (VArr l) => mapM (λ v, match v with VText t => Some t | _ => None end) l
  | _ => None
  end.
Definition wallet (t : text) : bool := bool_decide (textOf (asString t) = t) && isLowerAddress (asString t).

(** The callback of [value.entries.map], with the counts and the keys seen so far. *)
Definition readEntry (v : val) (st : list (string * Z) * list string) : outcome (SanctionEntry * (list (string * Z) * list string)) :=
  let '(cs, seen) := st in
  let bad := EError "invalid sanctions index entry" in
  match v with
  | VObj f =>
      match dget "l" f, dget "t" f, dget "i" f, dget "p" f, texts (dget "n" f), texts (dget "d" f), texts (dget "c" f), texts (dget "w" f) with
      | Some (VNum l), Some (VNum t), Some (VText i), Some (VText p), Some n, Some d, Some c, Some w =>
          let? _ := orequire ((0 <=? l) && (l <? Z.of_nat (length LIST_IDS)) && ((t =? 0) || (t =? 1) || (t =? 2))
                              && negb (bool_decide (i = [])) && negb (bool_decide (p = [])) && negb (bool_decide (n = []))
                              && forallb (λ n, negb (bool_decide (n = []))) n && forallb wallet w) bad in
          let id := default "" (LIST_IDS !! Z.to_nat l) in
          let key := id +:+ ":" +:+ asString i in
          let? _ := orequire (negb (bool_decide (key ∈ seen))) (EError "duplicate sanctions index entry") in
          Ok ({| listId := id; entryId := asString i; primaryName := p; names := n; dobs := map asString d; countries := map asString c;
                 programs := []; cryptoAddresses := map asString w; e_type := typeName t |},
              (dset id (default 0 (dget id cs) + 1) cs, key :: seen))
      | _, _, _, _, _, _, _, _ => Throw bad
      end
  | _ => Throw bad
  end.
Fixpoint readEntries (l : list val) (st : list (string * Z) * list string) : outcome (list SanctionEntry * list (string * Z)) :=
  match l with
  | [] => Ok ([], st.1)
  | v :: l =>
      let? r := readEntry v st in
      let? rest := readEntries l r.2 in
      Ok (r.1 :: rest.1, rest.2)
  end.

Section index.
Context {Bytes : Type} (byteLength : Bytes → Z).
(** [gzipSync(JSON.stringify(…))] and back, with its limit on the output. *)
Context (compress : RawIndex → Bytes) (decompress : Bytes → outcome RawIndex).
(** [sha256(JSON.stringify(v))] of entries, [sha256] and [new URL]; the default age limit. *)
Context (sha256Entries : val → string) (sha256 : string → string) (parseUrl : string → option Url) (freshnessHours : outcome Z).
Abbreviation assertProvenance := (assertProvenance sha256 parseUrl).

Definition consistent (value : IndexMeta) (cs versions : list (string * Z)) (id : string) : outcome unit :=
  let bad := EError ("inconsistent sanctions index " +:+ id) in
  match dget id (pv_sources (m_provenance value)) with
  | Some s => orequire (bool_decide (dget id cs = Some (s_entryCount s) ∧ dget id (counts value) = dget id cs
                                     ∧ dget id (listVersions value) = dget id versions
                                     ∧ dget id (sourceUpdatedAt value) = Some (s_checkedAt s))) bad
  | None => Throw (EError "TypeError")
  end.

Definition readIndex (compressed : Bytes) (now : Z) : outcome (list SanctionEntry * IndexMeta) :=
  let? _ := orequire (byteLength compressed <=? 32 * 1024 * 1024) (EError "sanctions compressed index too large") in
  let? value := decompress compressed in
  let m := meta value in
  let? _ := orequire (m_v m =? INDEX_VERSION) (EError "unsupported sanctions index; fetch and rebuild v3") in
  let? hours := freshnessHours in
  let? _ := assertProvenance (m_provenance m) now hours in
  let badTime := EError "invalid sanctions build time" in
  let? built := match timestamp (builtAt m) with Ok ms => Ok ms | Throw _ => Throw badTime end in
  let? _ := orequire ((built <=? now) && (Jurisdiction.parseInstant (pv_createdAt (m_provenance m)) <=? built)) badTime in
  let hashMismatch := EError "sanctions index entry hash mismatch" in
  match raw_entries value with
  | VArr l =>
      let? _ := orequire (String.eqb (sha256Entries (VArr l)) (entriesSha256 m)) hashMismatch in
      let? r := readEntries l ([], []) in
      let? _ := orequire (sameKeys (dkeys (counts m)) LIST_IDS) (EError "invalid sanctions counts") in
      let? _ := orequire (sameKeys (dkeys (listVersions m)) LIST_IDS) (EError "invalid sanctions listVersions") in
      let? _ := orequire (sameKeys (dkeys (sourceUpdatedAt m)) LIST_IDS) (EError "invalid sanctions sourceUpdatedAt") in
      let? _ := omap_out (consistent m r.2 (listVersionsOf (m_provenance m))) LIST_IDS in
      Ok (r.1, m)
  | _ => Throw hashMismatch
  end.

Definition buildIndex (entries : list SanctionEntry) (provenance : ListProvenance) (now : Z) : outcome Bytes :=
  let? hours := freshnessHours in
  let? _ := assertProvenance provenance now hours in
  let slims := VArr (map slim entries) in
  let source id := default (mkSource "" "" "" "" "" None "" 0 0) (dget id (pv_sources provenance)) in
  let m := {| m_v := INDEX_VERSION; builtAt := isoString now; m_provenance := provenance; entriesSha256 := sha256Entries slims;
              listVersions := listVersionsOf provenance; counts := map (λ id, (id, s_entryCount (source id))) LIST_IDS;
              sourceUpdatedAt := map (λ id, (id, s_checkedAt (source id))) LIST_IDS |} in
  let compressed := compress {| meta := m; raw_entries := slims |} in
  let? _ := readIndex compressed now in
  Ok compressed.

(** * What is read back *)

(** The entry as the index publishes it. *)
Definition published (e : SanctionEntry) : SanctionEntry :=
  {| listId := listId e; entryId := entryId e; primaryName := primaryName e; names := names e; dobs := dobs e; countries := countries e;
     programs := []; cryptoAddresses := filter isLowerAddress (cryptoAddresses e); e_type := typeName (typeNumber (e_type e)) |}.

Lemma asString_textOf s : asString (textOf s) = s.
Proof.
  unfold asString, textOf. rewrite map_map. rewrite <- (string_of_list_ascii_of_string s) at 2. f_equal.
  induction (list_ascii_of_string s) as [|c l IH]; simpl; [done|]. by rewrite IH, Nat2Z.id, ascii_nat_embedding.
Qed.
Lemma map_asString l : map asString (map textOf l) = l.
Proof. rewrite map_map. rewrite <- (map_id l) at 2. apply map_ext, asString_textOf. Qed.
Lemma texts_map (l : list text) : texts (Some (VArr (map VText l))) = Some l.
Proof. simpl. induction l as [|t l IH]; [done|]. simpl. unfold mbind, option_bind in *. simpl in *. by rewrite IH. Qed.
Lemma texts_strings (l : list string) : texts (Some (VArr (map (λ s, VText (textOf s)) l))) = Some (map textOf l).
Proof. rewrite <- texts_map. by rewrite map_map. Qed.

Lemma readEntry_slim e st r : readEntry (slim e) st = Ok r → r.1 = published e ∧ listId e ∈ LIST_IDS.
Proof.
  destruct st as [cs seen]. unfold readEntry, slim. cbn [dget String.eqb Ascii.eqb Bool.eqb andb]. cbv zeta.
  rewrite texts_map, !texts_strings. intros (u & Hu%orequire_ok & (u' & _ & [= <-])%obind_ok)%obind_ok. cbn [fst].
  rewrite !map_asString, !asString_textOf. rewrite !andb_true_iff in Hu. destruct Hu as (((((((Hl & _) & _) & _) & _) & _) & _) & _).
  unfold published. apply Z.leb_le in Hl.
  assert (default "" (LIST_IDS !! Z.to_nat (Merkle.Merkle.indexOf (listId e) LIST_IDS)) = listId e ∧ listId e ∈ LIST_IDS) as [-> Hin]; [|done].
  revert Hl. unfold LIST_IDS, Merkle.Merkle.indexOf, Roster.Roster.findIndex. simpl.
  destruct (String.eqb_spec (listId e) "OFAC_SDN") as [->|]; simpl; [intros _; split; [done|set_solver]|].
  destruct (String.eqb_spec (listId e) "UN_CONSOLIDATED") as [->|]; simpl; [intros _; split; [done|set_solver]|].
  destruct (String.eqb_spec (listId e) "EU_FSF") as [->|]; simpl; [intros _; split; [done|set_solver]|lia].
Qed.

Lemma readEntries_slims es : ∀ st r, readEntries (map slim es) st = Ok r → r.1 = map published es.
Proof.
  induction es as [|e es IH]; intros st r; simpl; [by intros [= <-]|].
  intros ([e' st'] & He & (rest & Hr & [= <-])%obind_ok)%obind_ok. apply readEntry_slim in He as [He _]. simpl in *. by rewrite He, (IH _ _ Hr).
Qed.

(** An accepted index: its entries have the hash it names and are well formed and distinct, as many of each
    list as its provenance says, and the provenance is fresh. *)
Record Accepted (compressed : Bytes) (now : Z) (es : list SanctionEntry) (m : IndexMeta) : Prop := {
  ac_raw : ∃ l, decompress compressed = Ok {| meta := m; raw_entries := VArr l |} ∧ sha256Entries (VArr l) = entriesSha256 m
    ∧ ∃ r, readEntries l ([], []) = Ok r ∧ r.1 = es;
  ac_fresh : ∃ hours u, freshnessHours = Ok hours ∧ assertProvenance (m_provenance m) now hours = Ok u;
  ac_counts id : id ∈ LIST_IDS → ∃ s, dget id (pv_sources (m_provenance m)) = Some s
    ∧ Z.of_nat (length (filter (λ e, listId e = id) es)) = s_entryCount s
    ∧ dget id (listVersions m) = dget id (listVersionsOf (m_provenance m));
  ac_keys : NoDup (map (λ e, (listId e, entryId e)) es);
  ac_entries e : e ∈ es → listId e ∈ LIST_IDS ∧ primaryName e ≠ [] ∧ names e ≠ []
    ∧ ∀ a, a ∈ cryptoAddresses e → isLowerAddress a = true }.

Lemma mapM_texts l ts : mapM (λ v, match v with VText t => Some t | _ => None end) l = Some ts → l = map VText ts.
Proof.
  revert ts. induction l as [|v l IH]; intros ts; simpl; [by intros [= <-]|]. intros (t & Ht & (ts' & Hts & [= <-])%bind_Some)%bind_Some.
  destruct v; try done. injection Ht as ->. simpl. by rewrite <- (IH _ Hts).
Qed.

(** What one entry adds to the counts and the keys. *)
Lemma readEntry_ok v cs seen e st : readEntry v (cs, seen) = Ok (e, st) →
  st = (dset (listId e) (default 0 (dget (listId e) cs) + 1) cs, entryKey e :: seen)
  ∧ (entryKey e ∉ seen) ∧ listId e ∈ LIST_IDS ∧ primaryName e ≠ [] ∧ names e ≠ []
  ∧ ∀ a, a ∈ cryptoAddresses e → isLowerAddress a = true.
Proof.
  unfold readEntry. destruct v as [| | |f|]; try done. cbv zeta.
  destruct (dget "l" f) as [[l| | | |]|]; try done. destruct (dget "t" f) as [[t| | | |]|]; try done.
  destruct (dget "i" f) as [[|i| | |]|]; try done. destruct (dget "p" f) as [[|p| | |]|]; try done.
  destruct (texts (dget "n" f)) as [n|]; [|done]. destruct (texts (dget "d" f)) as [d|]; [|done].
  destruct (texts (dget "c" f)) as [c|]; [|done]. destruct (texts (dget "w" f)) as [w|]; [|done].
  intros (u & Hu%orequire_ok & (u' & Hk%orequire_ok & [= <- <-])%obind_ok)%obind_ok. cbn [listId entryId primaryName names cryptoAddresses].
  apply negb_true_iff, bool_decide_eq_false in Hk. rewrite !andb_true_iff, !negb_true_iff, !bool_decide_eq_false in Hu.
  destruct Hu as (((((((Hl & Hl2) & _) & _) & Hp) & Hn) & _) & Hw). apply Z.leb_le in Hl. apply Z.ltb_lt in Hl2.
  destruct (lookup_lt_is_Some_2 LIST_IDS (Z.to_nat l)) as [id Hid]; [change (length LIST_IDS) with 3%nat in *; lia|].
  rewrite Hid in *. simpl. split_and!; [done|done|by eapply list_elem_of_lookup_2|done|done|].
  intros a (x & -> & Hx)%list_elem_of_fmap. rewrite forallb_forall in Hw. apply list_elem_of_In, Hw in Hx. by apply andb_true_iff in Hx as [_ Hx].
Qed.

Lemma key_inj a b c d : a ∈ LIST_IDS → c ∈ LIST_IDS → a +:+ ":" +:+ b = c +:+ ":" +:+ d → a = c ∧ b = d.
Proof.
  intros Ha Hc. unfold LIST_IDS in *. in_cases Ha; in_cases Hc; intros H; try discriminate H; (split; [done|]). all: by injection H.
Qed.

(** The counts are those of the entries read, the keys are all seen. *)
Lemma readEntries_ok l : ∀ cs seen r, readEntries l (cs, seen) = Ok r →
  (∀ e, e ∈ r.1 → (entryKey e ∉ seen) ∧ listId e ∈ LIST_IDS ∧ primaryName e ≠ [] ∧ names e ≠ []
     ∧ ∀ a, a ∈ cryptoAddresses e → isLowerAddress a = true)
  ∧ NoDup (map (λ e, (listId e, entryId e)) r.1)
  ∧ ∀ id, default 0 (dget id r.2) = default 0 (dget id cs) + Z.of_nat (length (filter (λ e, listId e = id) r.1)).
Proof.
  induction l as [|v l IH]; intros cs seen r; simpl.
  - intros [= <-]. simpl. split; [by intros e []%elem_of_nil|]. split; [constructor|]. intros id. lia.
  - intros ([e st] & He & (rest & Hr & [= <-])%obind_ok)%obind_ok. apply readEntry_ok in He as (-> & Hk & Hid & Hp & Hn & Hw).
    cbn [fst snd] in *. destruct (IH _ _ _ Hr) as (H1 & H2 & H3). split_and!.
    + intros e' [->|He']%elem_of_cons; [done|]. destruct (H1 e' He') as (Hs & Hrest). split; [|done]. set_solver.
    + cbn [map]. constructor; [|done]. intros (e' & [= Hi He] & Hin)%list_elem_of_fmap. destruct (H1 e' Hin) as (Hs & _).
      apply Hs. unfold entryKey. rewrite Hi, He. by left.
    + intros id. rewrite H3, dget_dset. rewrite filter_cons. destruct (String.eqb_spec id (listId e)) as [->|Hne].
      * rewrite decide_True by done. simpl. lia.
      * rewrite decide_False by congruence. done.
Qed.

Lemma readIndex_accepted compressed now es m : readIndex compressed now = Ok (es, m) → Accepted compressed now es m.
Proof.
  intros (u1 & _ & (value & Hd & (u2 & _ & (hours & Hh & (u3 & Hprov & (built & _ & (u4 & _ & H)%obind_ok)%obind_ok)%obind_ok)%obind_ok)%obind_ok)%obind_ok)%obind_ok.
  destruct value as [m' raw]. cbn [meta raw_entries] in *. destruct raw as [| |l| |]; try done.
  apply obind_ok in H as (u5 & Hsha%orequire_ok & (r & Hr & (u6 & _ & (u7 & _ & (u8 & _ & (us & Hc & [= <- <-])%obind_ok)%obind_ok)%obind_ok)%obind_ok)%obind_ok).
  apply String.eqb_eq in Hsha. destruct (readEntries_ok _ _ _ _ Hr) as (H1 & H2 & H3). split.
  - exists l. split; [done|]. split; [done|]. by exists r.
  - by exists hours, u3.
  - intros id Hid. apply omap_out_Forall2 in Hc. apply list_elem_of_lookup in Hid as (i & Hi).
    destruct (Forall2_lookup_l _ _ _ _ _ Hc Hi) as (u & _ & Hcons). unfold consistent in Hcons.
    destruct (dget id _) as [s|]; [|done]. apply orequire_ok, bool_decide_eq_true in Hcons as (Hn & _ & Hv & _). exists s. split_and!; [done| |done].
    specialize (H3 id). rewrite Hn in H3. simpl in H3. lia.
  - done.
  - intros e He. by destruct (H1 e He).
Qed.

Lemma build_reads entries provenance now bytes : (∀ x, decompress (compress x) = Ok x) → buildIndex entries provenance now = Ok bytes →
  ∃ m, readIndex bytes now = Ok (map published entries, m) ∧ m_provenance m = provenance.
Proof.
  intros Hlaw (hours & _ & (u & _ & H)%obind_ok)%obind_ok. cbv zeta in H. apply obind_ok in H as ([es m] & Hr & [= <-]).
  exists m. pose proof (readIndex_accepted _ _ _ _ Hr) as [(l & Hd & _ & (r & He & <-)) _ _ _ _]. rewrite Hlaw in Hd. injection Hd as <- <-.
  apply readEntries_slims in He. by rewrite <- He.
Qed.
End index.
End Index.

(** * Reading an activated generation *)

Module Load.
Import Loader.

Record Lists := { l_entries : list SanctionEntry; l_counts : list (string * Z); l_versions : list (string * Z); l_sha256 : list (string * string) }.
Record Loaded := { lists : Lists; ld_provenance : ListProvenance; ld_maxAgeHours : Z }.

(** [join(a, b)] of relative path segments. *)
Definition join (a b : string) : string := a +:+ "/" +:+ b.
(** [/^[0-9a-f-]{36}$/] *)
Definition isGeneration (s : string) : bool :=
  (String.length s =? 36)%nat && allChars (λ c, isLowerHex c || Ascii.eqb c "-") s.
(** [parseInt(hash.slice(0, 8), 16)] *)
Definition versionOf (hash : string) : Z := hexFrom 0 (Kr.slice 0 8 hash).

Section load.
Context {Bytes : Type} (utf8Decode : Bytes → outcome text) (saxes : text → list Sax.event * bool).
Context (byteLength : Bytes → Z) (sha256Bytes : Bytes → string) (sha256 : string → string) (parseUrl : string → option Url).
(** [JSON.parse] of the pointer file and of the manifest. *)
Context (parsePointer : Bytes → outcome string) (parseManifest : Bytes → outcome ListProvenance).
(** Files and the clock; other processes may write between two reads. *)
Context {W : Type} (readFile : string → M W Bytes) (now : M W Z) (exists_ : string → M W bool).
Abbreviation assertProvenance := (assertProvenance sha256 parseUrl).
Abbreviation parseListBytes := (parseListBytes utf8Decode saxes).

Definition currentGeneration (root : string) : M W string :=
  let! bytes := readFile (join root "current.json") in
  let! generation := lift_out (parsePointer bytes) in
  require (isGeneration generation) (EError "invalid sanctions generation pointer") ;;;
  ret (join (join root "generations") generation).

(** The body of the loop of [readLists]. *)
Definition readList (dir : string) (prov : option ListProvenance) (id : string) (out : Lists) : M W Lists :=
  let! bytes := readFile (join dir (default "" (dget id FILES))) in
  let hash := sha256Bytes bytes in
  let source := prov ≫= λ p, dget id (pv_sources p) in
  let given (P : SourceEvidence → bool) := match prov with None => true | Some _ => match source with Some s => P s | None => false end end in
  require (given (λ s, String.eqb hash (s_sha256 s) && (byteLength bytes =? s_bytes s))) (EError ("sanctions source hash/size mismatch " +:+ id)) ;;;
  let! parsed := lift_out (parseListBytes bytes id) in
  require (given (λ s, Z.of_nat (length parsed) =? s_entryCount s)) (EError ("sanctions source count mismatch " +:+ id)) ;;;
  ret {| l_entries := l_entries out ++ parsed; l_counts := dset id (Z.of_nat (length parsed)) (l_counts out);
         l_versions := dset id (versionOf hash) (l_versions out); l_sha256 := dset id hash (l_sha256 out) |}.
Definition noLists : Lists := {| l_entries := []; l_counts := []; l_versions := []; l_sha256 := [] |}.
Definition readLists (dir : string) (prov : option ListProvenance) : M W Lists := foldM (readList dir prov) LIST_IDS noLists.

(** [loadLists] with the age limit of its use and the pinned snapshot of the environment. *)
Definition loadLists (root : string) (freshnessHoursFor : outcome Z) (pinned : option string) : M W Loaded :=
  let! dir := currentGeneration root in
  let! bytes := readFile (join dir "manifest.json") in
  let! prov := lift_out (parseManifest bytes) in
  let! hours := lift_out freshnessHoursFor in
  let! t := now in
  let! _ := lift_out (assertProvenance prov t hours) in
  require (negb (truthy pinned && negb (bool_decide (pinned = Some (pv_snapshotId prov))))) (EError "sanctions snapshot differs from runtime pin") ;;;
  let! ls := readLists dir (Some prov) in
  let! t2 := now in
  let! _ := lift_out (assertProvenance prov t2 hours) in
  ret {| lists := ls; ld_provenance := prov; ld_maxAgeHours := hours |}.

Definition loadHistoricalLists (root : string) : M W Lists :=
  let! pointed := exists_ (join root "current.json") in
  if pointed then let! dir := currentGeneration root in readLists dir None else readLists root None.

(** ** What is loaded *)

(** A list as it was read from one file, whose bytes are those the provenance names. *)
Record ReadAs (dir : string) (prov : option ListProvenance) (id : string) (es : list SanctionEntry) : Prop := {
  ra_bytes : ∃ bytes, answered (readFile (join dir (default "" (dget id FILES)))) bytes ∧ parseListBytes bytes id = Ok es
    ∧ ∀ p, prov = Some p → ∃ s, dget id (pv_sources p) = Some s ∧ sha256Bytes bytes = s_sha256 s ∧ byteLength bytes = s_bytes s
         ∧ Z.of_nat (length es) = s_entryCount s }.

Lemma readList_spec dir prov id out (w : W) : wp (readList dir prov id out) (λ o _, ∀ out', o = Ok out' →
  ∃ es, l_entries out' = l_entries out ++ es ∧ ReadAs dir prov id es) w.
Proof.
  unfold readList. apply wp_bind, wp_read; [|by intros]. intros bytes w1 Hb. apply wp_bind, wp_require; intros H1; [|done].
  apply wp_bind, wp_lift_out. destruct (parseListBytes bytes id) as [es|] eqn:Hp; [|done].
  apply wp_bind, wp_require; intros H2; [|done]. apply wp_ret. intros out' [= <-]. exists es. split; [done|]. split.
  exists bytes. split; [done|]. split; [done|]. intros p ->. simpl in H1, H2. destruct (dget id (pv_sources p)) as [s|]; [|done].
  apply andb_true_iff in H1 as [Hs%String.eqb_eq Hl%Z.eqb_eq]. apply Z.eqb_eq in H2. by exists s.
Qed.

Lemma readLists_spec dir prov (w : W) : wp (readLists dir prov) (λ o _, ∀ out, o = Ok out →
  ∃ ess, l_entries out = concat ess ∧ Forall2 (ReadAs dir prov) LIST_IDS ess) w.
Proof.
  apply (wp_foldM (λ visited out, ∃ ess, l_entries out = concat ess ∧ Forall2 (ReadAs dir prov) visited ess)).
  - exists []. split; [done|constructor].
  - intros visited id rest out s _ (ess & Ho & HF). eapply wp_mono; [apply readList_spec|]. intros [out'|e] s' H; [|by intros].
    destruct (H out' eq_refl) as (es & He & HR). exists (ess ++ [es]). split; [rewrite He, Ho, concat_app; simpl; by rewrite app_nil_r|].
    apply Forall2_app; [done|]. by constructor.
  - intros out s (ess & Ho & HF) out' [= <-]. by exists ess.
Qed.

Lemma loadLists_spec root hours pinned (w : W) : wp (loadLists root hours pinned) (λ o _, ∀ l, o = Ok l →
  ∃ dir ess t u, l_entries (lists l) = concat ess ∧ Forall2 (ReadAs dir (Some (ld_provenance l))) LIST_IDS ess
    ∧ hours = Ok (ld_maxAgeHours l) ∧ answered now t ∧ assertProvenance (ld_provenance l) t (ld_maxAgeHours l) = Ok u
    ∧ (truthy pinned = true → pinned = Some (pv_snapshotId (ld_provenance l)))) w.
Proof.
  unfold loadLists. apply wp_bind, wp_read; [|by intros]. intros dir w1 _. apply wp_bind, wp_read; [|by intros]. intros bytes w2 _.
  apply wp_bind, wp_lift_out. destruct (parseManifest bytes) as [prov|]; [|done]. apply wp_bind, wp_lift_out. destruct hours as [hours|]; [|done].
  apply wp_bind, wp_read; [|by intros]. intros t w3 _. apply wp_bind, wp_lift_out. destruct (assertProvenance prov t hours); [|done].
  apply wp_bind, wp_require; intros Hpin; [|done]. apply wp_bind. eapply wp_mono; [apply readLists_spec|]. intros [ls|e] w4 Hls; [|by intros].
  destruct (Hls ls eq_refl) as (ess & He & HF). apply wp_bind, wp_read; [|by intros]. intros t2 w5 Ht2. apply wp_bind, wp_lift_out.
  destruct (assertProvenance prov t2 hours) as [u|] eqn:Hu; [|done]. apply wp_ret. intros l [= <-]. exists dir, ess, t2, u.
  split_and!; try done. intros Ht. rewrite Ht in Hpin. by destruct (bool_decide_reflect (pinned = Some (pv_snapshotId prov))).
Qed.
End load.
End Load.

(** * The engine cache *)

Module Cache.
Import Index.

Section cache.
Context (nfc nfd toLower : text → text) (isLetterOrNumber : Z → bool).
Context {Bytes : Type} (byteLength : Bytes → Z) (decompress : Bytes → outcome RawIndex) (sha256Entries : val → string).
Context (sha256Bytes : Bytes → string) (sha256 : string → string) (parseUrl : string → option Url) (freshnessHours : outcome Z).
Abbreviation assertProvenance := (assertProvenance sha256 parseUrl).
Abbreviation readIndex := (readIndex byteLength decompress sha256Entries sha256 parseUrl freshnessHours).
Abbreviation construct := (Engine.construct nfc nfd toLower isLetterOrNumber sha256 parseUrl).

Record Cached := { digest : string; engine : Engine.EngineState; c_meta : IndexMeta; c_key : string; c_keyId : string; c_maxAgeHours : Z }.

(** What [get] builds when nothing usable is cached. *)
Definition fresh (bytes : Bytes) (key keyId : string) (hours now : Z) : outcome Cached :=
  let? r := readIndex bytes now in
  let? _ := assertProvenance (m_provenance r.2) now hours in
  let? e := construct r.1 (listVersions r.2) key (Some keyId) false false (Some (m_provenance r.2)) hours now in
  Ok {| digest := sha256Bytes bytes; engine := e; c_meta := r.2; c_key := key; c_keyId := keyId; c_maxAgeHours := hours |}.

(** [get], given the bytes that the file holds now, the age limit of the use and the pinned snapshot. *)
Definition get (file : outcome Bytes) (key keyId : string) (freshnessHoursFor : outcome Z) (pinned : option string) (now : Z)
  : M (option Cached) (Engine.EngineState * IndexMeta) :=
  require (32 <=? Z.of_nat (String.length key)) (EError "EVIDENCE_HMAC_KEY is required (32+ chars)") ;;;
  let! bytes := lift_out file in
  let! hours := lift_out freshnessHoursFor in
  let! this := getS in
  let usable := match this with
    | Some c => String.eqb (sha256Bytes bytes) (digest c) && String.eqb key (c_key c) && String.eqb keyId (c_keyId c) && (hours =? c_maxAgeHours c)
    | None => false end in
  when (negb usable) (let! c := lift_out (fresh bytes key keyId hours now) in putS (Some c)) ;;;
  let! this := getS in
  match this with
  | Some c =>
      let! _ := lift_out (assertProvenance (m_provenance (c_meta c)) now hours) in
      require (negb (truthy pinned && negb (bool_decide (pinned = Some (pv_snapshotId (m_provenance (c_meta c)))))))
        (EError "sanctions snapshot differs from runtime pin") ;;;
      ret (engine c, c_meta c)
  | None => throw (EError "TypeError")
  end.

(** The cached engine is one that was built from some bytes, among [B], with the cached digest. *)
Definition Coherent (B : list Bytes) (this : option Cached) : Prop :=
  ∀ c, this = Some c → ∃ bytes t, bytes ∈ B ∧ fresh bytes (c_key c) (c_keyId c) (c_maxAgeHours c) t = Ok c.

Lemma fresh_fields bytes key keyId hours now c : fresh bytes key keyId hours now = Ok c →
  digest c = sha256Bytes bytes ∧ c_key c = key ∧ c_keyId c = keyId ∧ c_maxAgeHours c = hours.
Proof. by intros (r & _ & (u & _ & (e & _ & [= <-])%obind_ok)%obind_ok)%obind_ok. Qed.

Lemma get_spec B bytes key keyId hours pinned now this :
  Coherent B this → (∀ b b', b ∈ bytes :: B → b' ∈ bytes :: B → sha256Bytes b = sha256Bytes b' → b = b') →
  wp (get (Ok bytes) key keyId hours pinned now) (λ o this', Coherent (bytes :: B) this' ∧ ∀ e m, o = Ok (e, m) →
    ∃ h t c u, hours = Ok h ∧ fresh bytes key keyId h t = Ok c ∧ e = engine c ∧ m = c_meta c
      ∧ assertProvenance (m_provenance m) now h = Ok u ∧ (truthy pinned = true → pinned = Some (pv_snapshotId (m_provenance m)))) this.
Proof.
  intros HC Hinj. assert (Coherent (bytes :: B) this) as HC'.
  { intros c Hc. destruct (HC c Hc) as (b & t & Hb & Hf). exists b, t. split; [by right|done]. }
  unfold get. apply wp_bind, wp_require; intros _; [|done]. apply wp_bind, wp_lift_out, wp_bind, wp_lift_out.
  destruct hours as [h|]; [|done]. apply wp_bind, wp_getS, wp_bind.
  assert (wp (when (negb match this with
     | Some c => String.eqb (sha256Bytes bytes) (digest c) && String.eqb key (c_key c) && String.eqb keyId (c_keyId c) && (h =? c_maxAgeHours c)
     | None => false end) (let! c := lift_out (fresh bytes key keyId h now) in putS (Some c)))
    (λ o this', Coherent (bytes :: B) this' ∧ (o = Ok tt → ∃ c t, this' = Some c ∧ fresh bytes key keyId h t = Ok c)) this) as Hw.
  { apply wp_when; intros Hu.
    - apply wp_bind, wp_lift_out. destruct (fresh bytes key keyId h now) as [c|] eqn:Hf; [|done]. apply wp_putS. split.
      + intros c' [= <-]. destruct (fresh_fields _ _ _ _ _ _ Hf) as (_ & -> & -> & ->). exists bytes, now. split; [by left|done].
      + intros _. by exists c, now.
    - split; [done|]. intros _. destruct this as [c|]; [|done]. destruct (HC c eq_refl) as (b & t & Hb & Hf). exists c, t. split; [done|].
      apply negb_false_iff in Hu. rewrite !andb_true_iff, !String.eqb_eq, Z.eqb_eq in Hu. destruct Hu as (((Hd & ->) & ->) & ->).
      destruct (fresh_fields _ _ _ _ _ _ Hf) as (Hdig & _). rewrite Hdig in Hd.
      apply Hinj in Hd as ->; [done|by left|by right]. }
  eapply wp_mono; [exact Hw|]. intros [[]|e] this' [Hcoh Hok]; [|done]. destruct (Hok eq_refl) as (c & t & -> & Hf).
  apply wp_bind, wp_getS. apply wp_bind, wp_lift_out. destruct (assertProvenance _ now h) as [u|] eqn:Hu; [|done].
  apply wp_bind, wp_require; intros Hpin; [|done]. apply wp_ret. split; [done|]. intros e m [= <- <-]. exists h, t, c, u.
  split_and!; try done. intros Ht. rewrite Ht in Hpin. by destruct (bool_decide_reflect (pinned = Some (pv_snapshotId (m_provenance (c_meta c))))).
Qed.
End cache.
End Cache.

Module ListIndexProofs.
Import Sax Ingest Loader Index Cache.

Section published.
Context {Bytes : Type} (byteLength : Bytes → Z) (compress : RawIndex → Bytes) (decompress : Bytes → outcome RawIndex).
Context (sha256Entries : val → string) (sha256 : string → string) (parseUrl : string → option Url) (freshnessHours : outcome Z).
Context (gzip_law : ∀ x, decompress (compress x) = Ok x).
Abbreviation readIndex := (readIndex byteLength decompress sha256Entries sha256 parseUrl freshnessHours).
Abbreviation buildIndex := (buildIndex byteLength compress decompress sha256Entries sha256 parseUrl freshnessHours).

(** Whenever a built index is read, its entries are the published ones. *)
Lemma built_entries entries provenance tb bytes t es m :
  buildIndex entries provenance tb = Ok bytes → readIndex bytes t = Ok (es, m) → es = map published entries ∧ m_provenance m = provenance.
Proof.
  intros (m' & Hr & Hp)%build_reads H; [|done]. apply readIndex_accepted in Hr as [(l & Hd & _ & (r & He & Hes)) _ _ _ _].
  apply readIndex_accepted in H as [(l' & Hd' & _ & (r' & He' & <-)) _ _ _ _]. rewrite Hd in Hd'. injection Hd' as <- <-.
  rewrite He in He'. injection He' as <-. done.
Qed.

Lemma published_wallet e a : a ∈ cryptoAddresses e → isLowerAddress a = true → a ∈ cryptoAddresses (published e).
Proof. intros Ha Hl. cbn [published cryptoAddresses]. apply list_elem_of_filter. by rewrite Hl. Qed.
End published.

Lemma lower_address s : hexString isLowerHex 40 s = true → isAddress20 s = true.
Proof.
  unfold isAddress20, hexString. repeat (case_match; try done). rewrite !andb_true_iff. intros [Hl Hc]. split; [done|].
  eapply allChars_mono; [|exact Hc]. apply lowerHex_hex.
Qed.

(** A digital currency address of the document is one of its entries' addresses. *)
Lemma listed_address {Bytes : Type} (utf8Decode : Bytes → outcome text) (saxes : text → list event * bool) file xml d ofac el id :
  utf8Decode file = Ok xml → saxes xml = (events d, true) → parseListBytes utf8Decode saxes file "OFAC_SDN" = Ok ofac →
  el ∈ outermost (tt_ "sdnEntry") d → id ∈ children el (tt_ "idList") (tt_ "id") →
  String.prefix CRYPTO_PREFIX (toLowerCase (fieldString id "idType")) = true → isAddress20 (trim (fieldString id "idNumber")) = true →
  ∃ e, e ∈ ofac ∧ toLowerCase (trim (fieldString id "idNumber")) ∈ cryptoAddresses e.
Proof.
  intros Hd Hs (xml' & _ & Hd' & Hp & _)%parseListBytes_ok Hel Hid Hpre HA. assert (xml' = xml) as -> by congruence. rewrite Hs in Hp.
  apply parsers_elements in Hp. unfold elementsOfList, entryTags in Hp. simpl in Hp. rewrite app_nil_r in Hp.
  apply Forall2_fmap_l in Hp. apply list_elem_of_lookup in Hel as (i & Hi). destruct (Forall2_lookup_l _ _ _ _ _ Hp Hi) as (e & He & Hee).
  exists e. split; [by eapply list_elem_of_lookup_2|]. apply ofacEntry_spec in Hee as (_ & _ & _ & _ & Hw). apply Hw. split.
  - intros Hnil. destruct (trim _); [done|]. by simpl in Hnil.
  - exists id. split; [done|]. unfold cryptoAddress. by rewrite Hpre.
Qed.

(** C3. From the published file to the refusal to issue: if the document of the OFAC
    file lists, among the identity documents of any of its entries, a digital currency
    address that is an EVM address, then after the lists are baked into an index and an
    engine is taken from the cache over that index, in whatever state the cache was,
    every screening of a subject with that wallet, in any letter case, blocks, and no
    issuance over that engine issues a mark to it or leaves it to a reviewer. *)
Theorem published_wallet_blocked {Bytes Index_ : Type}
    (nfc nfd toLower : text → text) (isLetterOrNumber : Z → bool) (utf8Decode : Bytes → outcome text) (saxes : text → list event * bool)
    (byteLength : Index_ → Z) (compress : RawIndex → Index_) (decompress : Index_ → outcome RawIndex) (sha256Entries : val → string)
    (sha256Bytes : Index_ → string) (sha256 : string → string) (parseUrl : string → option Url) (freshnessHours : outcome Z)
    (hmacSha256 : string → text → string) (fatfDays : Z) (gzip_law : ∀ x, decompress (compress x) = Ok x)
    (file : Bytes) (xml : text) (d : node) (ofac others : list SanctionEntry) (provenance : ListProvenance) (tb now : Z) (index : Index_)
    (B : list Index_) (cache cache' : option Cached) (key keyId : string) (hours : outcome Z) (pinned : option string)
    (engine : Engine.EngineState) (meta : IndexMeta) (el id : El) :
  utf8Decode file = Ok xml → saxes xml = (events d, true) → parseListBytes utf8Decode saxes file "OFAC_SDN" = Ok ofac →
  buildIndex byteLength compress decompress sha256Entries sha256 parseUrl freshnessHours (ofac ++ others) provenance tb = Ok index →
  Coherent nfc nfd toLower isLetterOrNumber byteLength decompress sha256Entries sha256Bytes sha256 parseUrl freshnessHours B cache →
  (∀ b b', b ∈ index :: B → b' ∈ index :: B → sha256Bytes b = sha256Bytes b' → b = b') →
  get nfc nfd toLower isLetterOrNumber byteLength decompress sha256Entries sha256Bytes sha256 parseUrl freshnessHours
    (Ok index) key keyId hours pinned now cache = (Ok (engine, meta), cache') →
  el ∈ outermost (tt_ "sdnEntry") d → id ∈ children el (tt_ "idList") (tt_ "id") →
  String.prefix CRYPTO_PREFIX (toLowerCase (fieldString id "idType")) = true → isAddress20 (trim (fieldString id "idNumber")) = true →
  let listed a := toLowerCase a = toLowerCase (trim (fieldString id "idNumber")) in
  (∀ t subject r, listed (Engine.su_walletAddress subject) →
     Engine.screen nfc nfd toLower isLetterOrNumber sha256 parseUrl hmacSha256 fatfDays engine t subject = Ok r → Issue.decision r = Issue.BLOCK) ∧
  (∀ keccak256 toUtf8Bytes abiEncodeClaim nfkc newSalt adapter req t out, listed (Issue.wallet req) →
     Issue.runIssuance keccak256 toUtf8Bytes abiEncodeClaim nfkc newSalt adapter
       (Engine.amlScreen nfc nfd toLower isLetterOrNumber sha256 parseUrl hmacSha256 fatfDays engine t) req t = Ok out →
     match out with Issue.ISSUED _ => False | Issue.NotIssued status _ _ _ => status ≠ Issue.S_REVIEW end).
Proof.
  intros Hd Hs Hp Hbuild HC Hinj Hget Hel Hid Hpre HA listed.
  set (a := toLowerCase (trim (fieldString id "idNumber"))) in *.
  assert (∃ e, e ∈ ofac ∧ a ∈ cryptoAddresses e) as (e & He & Ha) by by eapply listed_address.
  pose proof (wp_run _ _ _ _ _ (get_spec nfc nfd toLower isLetterOrNumber byteLength decompress sha256Entries sha256Bytes sha256 parseUrl
    freshnessHours B index key keyId hours pinned now cache HC Hinj) Hget) as [_ Hok].
  destruct (Hok engine meta eq_refl) as (h & t & c & u & _ & Hf & -> & -> & _ & _).
  apply obind_ok in Hf as ([es m] & Hr & (u' & _ & (eng & Hc & [= <-])%obind_ok)%obind_ok). cbn [fst snd Cache.engine] in *.
  destruct (built_entries _ _ _ _ _ _ _ gzip_law _ _ _ _ _ _ _ Hbuild Hr) as [-> _]. apply Engine.construct_complete in Hc.
  assert (published e ∈ map published (ofac ++ others)) as Hin by (apply list_elem_of_fmap_2, elem_of_app; by left).
  assert (a ∈ cryptoAddresses (published e)) as Hpub by (apply published_wallet; [done|by apply hexString_toLower]).
  assert (isAddress20 a = true) as Ha20 by (apply lower_address; by apply hexString_toLower).
  assert (∀ t subject r, listed (Engine.su_walletAddress subject) →
    Engine.screen nfc nfd toLower isLetterOrNumber sha256 parseUrl hmacSha256 fatfDays eng t subject = Ok r → Issue.decision r = Issue.BLOCK) as HB.
  { intros t' subject r Hl. eapply Engine.listed_blocks; [exact Hc|exact Hin|exact Hpub|done|]. unfold a. by rewrite toLowerCase_idem. }
  split; [exact HB|]. intros keccak256 toUtf8Bytes abiEncodeClaim nfkc newSalt adapter req t' out Hl.
  apply Engine.blocked_never_issued. intros s. by apply HB.
Qed.

(** ** An entry with one wallet *)

Import MatchExample EngineExample.
Definition leaf (name value : string) : node := NElem (tt_ name) [] [NText (textOf value)].
Definition exDocument : node := NElem (tt_ "sdnList") [] [NText [10]; NElem (tt_ "publshInformation") [] [leaf "Record_Count" "1"];
  NElem (tt_ "sdnEntry") [] [leaf "uid" "7"; leaf "firstName" "John"; leaf "lastName" "Smith"; leaf "sdnType" "Individual";
    NElem (tt_ "idList") [] [NElem (tt_ "id") [] [leaf "idType" "Digital Currency Address - ETH"; leaf "idNumber" exWallet]];
    NElem (tt_ "akaList") [] [NElem (tt_ "aka") [] [leaf "lastName" "Smyth"]]]].
Definition exSaxes (xml : text) : list event * bool := (events exDocument, true).
Definition exOfac : list SanctionEntry := Eval vm_compute in ok_or [] (parseListBytes (λ b, Ok b) exSaxes [] "OFAC_SDN").
Definition exOthers : list SanctionEntry := tail exEntries.
Definition exHours : outcome Z := Ok 168.
Definition exEntriesSha (v : val) : string := "entries".
Definition exMeta : IndexMeta := Build_IndexMeta 0 "" exProvenance "" [] [] [].
Definition exIndex : RawIndex := Eval vm_compute in
  ok_or {| meta := exMeta; raw_entries := VOther |} (buildIndex (λ _, 1000) (λ x, x) (λ x, Ok x) exEntriesSha exSha exParse exHours (exOfac ++ exOthers) exProvenance exNow).
Definition exKey : string := "0123456789abcdef0123456789abcdef".
Definition exGet := Eval vm_compute in
  get exNormal exNormal exLower exAlnum (λ _, 1000) (λ x, Ok x) exEntriesSha (λ _, "digest") exSha exParse exHours (Ok exIndex) exKey "k" exHours None exNow None.
Definition exCachedEngine : Engine.EngineState := Eval vm_compute in match exGet.1 with Ok r => r.1 | Throw _ => exNoEngine end.
Definition exCachedMeta : IndexMeta := Eval vm_compute in match exGet.1 with Ok r => r.2 | Throw _ => exMeta end.
Definition exScreened : Engine.ScreeningResult := Eval vm_compute in
  ok_or exDummy (Engine.screen exNormal exNormal exLower exAlnum exSha exParse exMac 180 exCachedEngine exNow exListed).

Lemma exOfac_ok : parseListBytes (λ b, Ok b) exSaxes [] "OFAC_SDN" = Ok exOfac.
Proof. by vm_compute. Qed.
Lemma exIndex_ok : buildIndex (λ _, 1000) (λ x, x) (λ x, Ok x) exEntriesSha exSha exParse exHours (exOfac ++ exOthers) exProvenance exNow = Ok exIndex.
Proof. by vm_compute. Qed.
Lemma exGet_ok : get exNormal exNormal exLower exAlnum (λ _, 1000) (λ x, Ok x) exEntriesSha (λ _, "digest") exSha exParse exHours (Ok exIndex)
    exKey "k" exHours None exNow None = (Ok (exCachedEngine, exCachedMeta), exGet.2).
Proof. by vm_compute. Qed.
Lemma exPublishedScreened_ok : Engine.screen exNormal exNormal exLower exAlnum exSha exParse exMac 180 exCachedEngine exNow exListed = Ok exScreened.
Proof. by vm_compute. Qed.

Definition exElement : El := Eval vm_compute in default (mkEl [] [] [] []) (head (outermost (tt_ "sdnEntry") exDocument)).
Definition exIdentity : El := Eval vm_compute in default (mkEl [] [] [] []) (head (children exElement (tt_ "idList") (tt_ "id"))).
Lemma exElement_in : exElement ∈ outermost (tt_ "sdnEntry") exDocument.
Proof. apply (list_elem_of_lookup_2 _ 0). by vm_compute. Qed.
Lemma exIdentity_in : exIdentity ∈ children exElement (tt_ "idList") (tt_ "id").
Proof. apply (list_elem_of_lookup_2 _ 0). by vm_compute. Qed.

Lemma published_wallet_blocked_witness : Issue.decision exScreened = Issue.BLOCK.
Proof.
  apply (proj1 (published_wallet_blocked exNormal exNormal exLower exAlnum (λ b, Ok b) exSaxes (λ _, 1000) (λ x, x) (λ x, Ok x) exEntriesSha (λ _, "digest")
    exSha exParse exHours exMac 180 ltac:(done) [] [] exDocument exOfac exOthers exProvenance exNow exNow exIndex [] None exGet.2 exKey "k" exHours None
    exCachedEngine exCachedMeta exElement exIdentity eq_refl eq_refl exOfac_ok exIndex_ok ltac:(done)
    ltac:(intros b b' ->%list_elem_of_singleton ->%list_elem_of_singleton; done) exGet_ok exElement_in exIdentity_in
    ltac:(by vm_compute) ltac:(by vm_compute)) exNow exListed exScreened ltac:(by vm_compute) exPublishedScreened_ok).
Defined.
End ListIndexProofs.
