(* ===== verification/Snapshot.v ===== *)
(** The directory of list generations ([src/aml/snapshot-store.ts]): a refresh downloads the lists, writes a
    new generation with its baked index and its manifest, and then moves the pointer that the loader follows.
    The operations on files are those of [VaultFile.Fs]: each may fail, and the process may die before it.
    Downloads, JSON texts, hashes, compression and random identifiers are parameters; the clock's readings
    are arguments. *)

From Stdlib Require Import ZArith Lia Ascii String List.
From stdpp Require Import base decidable option list strings sets.
From S2P Require Import Prelude JS Float Json Edit Names Match Screen VaultFile Lists ListIndex.
Import Json Match Provenance Fs Loader Index Load.
Local Open Scope string_scope.
Local Open Scope list_scope.
Local Open Scope Z_scope.
Local Open Scope js_scope.

Lemma Forall2_impl_elem {A B} (P Q : A → B → Prop) l k : Forall2 P l k → (∀ x y, x ∈ l → P x y → Q x y) → Forall2 Q l k.
Proof. induction 1 as [|x y l k H _ IH]; intros HQ; constructor; [by apply HQ; [left|]|]. apply IH. intros ? ? ?. apply HQ. by right. Qed.

Module Refresh.

Record DownloadedList (Bytes : Type) := mkDownloaded { d_bytes : Bytes; d_fetchedAt : string; d_effectiveUrl : string; d_httpLastModified : option string }.
Arguments mkDownloaded {Bytes}.
Arguments d_bytes {Bytes}.
Arguments d_fetchedAt {Bytes}.
Arguments d_effectiveUrl {Bytes}.
Arguments d_httpLastModified {Bytes}.

Definition fileOf (id : string) : string := default "" (dget id FILES).
Definition urlOf (id : string) : string := default "" (dget id SOURCES).
Definition INDEX_FILE : string := "sanctions-index.json.gz".
Definition pointerOf (root : string) : string := join root "current.json".
Definition lockOf (root : string) : string := join root ".refresh.lock".
Definition dirOf (root generation : string) : string := join (join root "generations") generation.
(** [n < count * 0.8] on doubles. *)
Definition dropped (n : nat) (count : Z) : bool := fltb (fofNat n) (fmul (fofZ count) (fdec 8 10)).

Section refresh.
Context {Bytes : Type} (utf8Decode : Bytes → outcome text) (saxes : text → list Sax.event * bool).
Context (byteLength : Bytes → Z) (sha256Bytes : Bytes → string) (sha256 : string → string) (parseUrl : string → option Url).
Context (compress : RawIndex → Bytes) (decompress : Bytes → outcome RawIndex) (sha256Entries : val → string) (freshnessHours : outcome Z).
(** [JSON.parse] of the pointer and of the manifest, and [JSON.stringify] of both and of the lock's text. *)
Context (parsePointer : Bytes → outcome string) (parseManifest : Bytes → outcome ListProvenance).
Context (stringifyPointer : string → Bytes) (stringifyManifest : ListProvenance → Bytes) (leaseText : Z → Bytes).
(** What a read finds in a file that was partly written. *)
Context (torn : string → Bytes).
(** Which tests for a file come to an answer. *)
Context `{HTests : !Tests (Raw:=Bytes)}.
Abbreviation World := (@Fs Bytes).
Abbreviation assertProvenance := (assertProvenance sha256 parseUrl).
Abbreviation parseListBytes := (parseListBytes utf8Decode saxes).
Abbreviation buildIndex := (buildIndex byteLength compress decompress sha256Entries sha256 parseUrl freshnessHours).

(** [openSync(dir, 'r')], a flush and the close: of the directory that [path] is in. *)
Definition flushDirectory (path : string) : M World unit :=
  openDirectory path ;;; finally_ fsync (λ _, close_ (HDirectory path)).
Definition atomicFile (path random : string) (value : Bytes) : M World unit :=
  let tmp := tmpName path random in
  mkdir ;;;
  openExclusive tmp ;;;
  finally_ (writeFile tmp value ;;; fsync) (λ _, close_ (HFile tmp)) ;;;
  rename tmp path ;;;
  flushDirectory path.

(** [readFileSync]. *)
Definition readText (path : string) : M World Bytes :=
  let! c := readFile path in ret (match c with Full b => b | Partial => torn path end).

Section run.
(** The answer to a download, while which other processes may act. *)
Context (download : string → M World (DownloadedList Bytes)).
(** The identifiers drawn: of the generation, and for the temporary file of each path. *)
Context (root generation : string) (uuid : string → string).
(** The readings of the clock. *)
Context (t_start t_created t_checked t_built : Z).
Abbreviation dir := (dirOf root generation).

Definition previousOf (read : string → M World Bytes) : M World (option ListProvenance) :=
  let! pointed := exists_ (pointerOf root) in
  if pointed then
    let! current := currentGeneration parsePointer read root in
    let! bytes := read (join current "manifest.json") in
    let! p := lift_out (parseManifest bytes) in
    ret (Some p)
  else ret None.

Definition evidenceOf (id : string) (d : DownloadedList Bytes) (effectiveUrl : string) (count : nat) : SourceEvidence :=
  mkSource (urlOf id) effectiveUrl (sha256 (d_effectiveUrl d)) (d_fetchedAt d) (d_fetchedAt d) (d_httpLastModified d)
    (sha256Bytes (d_bytes d)) (byteLength (d_bytes d)) (Z.of_nat count).

(** The body of the loop over the lists: the evidence and the entries so far. *)
Definition refreshList (previous : option ListProvenance) (id : string) (st : list (string * SourceEvidence) * list SanctionEntry)
    : M World (list (string * SourceEvidence) * list SanctionEntry) :=
  let! d := download id in
  require (byteLength (d_bytes d) <=? 128 * 1024 * 1024) (EError ("sanctions download too large " +:+ id)) ;;;
  let! parsed := lift_out (parseListBytes (d_bytes d) id) in
  match previous with
  | None => ret tt
  | Some p => match dget id (pv_sources p) with
              | None => throw (EError "TypeError")
              | Some s => require (negb (dropped (length parsed) (s_entryCount s)))
                            (EError ("sanctions count dropped >20%; operator review required for " +:+ id))
              end
  end ;;;
  let! url := lift_out (publicEffectiveUrl parseUrl (d_effectiveUrl d)) in
  atomicFile (join dir (fileOf id)) (uuid (join dir (fileOf id))) (d_bytes d) ;;;
  ret (dset id (evidenceOf id d url (length parsed)) st.1, st.2 ++ parsed).

Definition provenanceOf (sources : list (string * SourceEvidence)) : ListProvenance :=
  let body := mkProvenance 2 PARSER_VERSION (isoString t_created) sources "" in
  mkProvenance 2 PARSER_VERSION (isoString t_created) sources (snapshotId sha256 body).

Definition store (path : string) (value : Bytes) : M World unit := atomicFile path (uuid path) value.

Definition refreshLocked : M World ListProvenance :=
  mkdir ;;;
  let! previous := previousOf readText in
  let! (sources, entries) := foldM (refreshList previous) LIST_IDS ([], []) in
  let provenance := provenanceOf sources in
  let! hours := lift_out freshnessHours in
  let! _ := lift_out (assertProvenance provenance t_checked hours) in
  let! index := lift_out (buildIndex entries provenance t_built) in
  store (join dir INDEX_FILE) index ;;;
  store (join dir "manifest.json") (stringifyManifest provenance) ;;;
  flushDirectory dir ;;;
  store (pointerOf root) (stringifyPointer generation) ;;;
  ret provenance.

Definition refreshSnapshot : M World ListProvenance :=
  mkdir ;;;
  openExclusive (lockOf root) ;;;
  finally_ (writeFile (lockOf root) (leaseText t_start) ;;; fsync ;;; refreshLocked)
    (λ _, close_ (HFile (lockOf root)) ;;; unlink (lockOf root)).

(** ** What a reader finds *)

(** A read that does not fail by itself. *)
Definition peek (path : string) : M World Bytes := λ s,
  (match at_ s path with Some (Full b) => Ok b | Some Partial => Ok (torn path) | None => Throw IoError end, s).
Definition loads (s : World) (t : Z) (hours : outcome Z) (pinned : option string) : outcome Loaded :=
  (loadLists utf8Decode saxes byteLength sha256Bytes sha256 parseUrl parsePointer parseManifest peek (ret t) root hours pinned s).1.

Definition InRoot (p : string) : Prop := ∃ q, p = join root q.
(** What the refresh may write. *)
Definition Touched (p : string) : Prop :=
  (∃ f, p = join dir f) ∨ p = lockOf root ∨ p = pointerOf root ∨ p = tmpName (pointerOf root) (uuid (pointerOf root)).
Definition Frame (s0 s : World) : Prop := ∀ p, InRoot p → ¬ Touched p → at_ s p = at_ s0 p.
Definition Kept (s0 s : World) : Prop := Frame s0 s ∧ at_ s (pointerOf root) = at_ s0 (pointerOf root).

(** The list as it was downloaded, in its file and in the evidence. *)
Definition Downloaded (s : World) (sources : list (string * SourceEvidence)) (id : string) (es : list SanctionEntry) : Prop :=
  ∃ d src, answered (download id) d ∧ parseListBytes (d_bytes d) id = Ok es ∧ at_ s (join dir (fileOf id)) = Some (Full (d_bytes d))
    ∧ dget id sources = Some src ∧ s_sha256 src = sha256Bytes (d_bytes d) ∧ s_bytes src = byteLength (d_bytes d)
    ∧ s_entryCount src = Z.of_nat (length es).
(** No list has lost a fifth of its entries. *)
Definition NotDropped (previous : option ListProvenance) (id : string) (es : list SanctionEntry) : Prop :=
  ∀ p, previous = Some p → ∃ s, dget id (pv_sources p) = Some s ∧ dropped (length es) (s_entryCount s) = false.

Record Complete (s : World) (p : ListProvenance) (ess : list (list SanctionEntry)) : Prop := {
  cp_manifest : at_ s (join dir "manifest.json") = Some (Full (stringifyManifest p));
  cp_lists : Forall2 (Downloaded s (pv_sources p)) LIST_IDS ess;
  cp_index : ∃ ib, at_ s (join dir INDEX_FILE) = Some (Full ib) ∧ buildIndex (concat ess) p t_built = Ok ib;
  cp_asserted : ∃ hours, freshnessHours = Ok hours ∧ assertProvenance p t_checked hours = Ok tt }.
Record Active (s0 s : World) (p : ListProvenance) (ess : list (list SanctionEntry)) : Prop := {
  av_pointer : at_ s (pointerOf root) = Some (Full (stringifyPointer generation));
  av_complete : Complete s p ess;
  av_counts : Exact → ∀ previous, (previousOf peek s0).1 = Ok previous → Forall2 (NotDropped previous) LIST_IDS ess }.

(** ** Paths *)

Lemma join_assoc a b c : join (join a b) c = join a (join b c).
Proof. unfold join. by rewrite !app_assoc_str. Qed.
Lemma join_inj a b c : join a b = join a c → b = c.
Proof. unfold join. intros H%(inj (String.append a)). by injection H. Qed.
Lemma tmpName_join a f u : tmpName (join a f) u = join a (f +:+ "." +:+ u +:+ ".tmp").
Proof. unfold tmpName, join. by rewrite !app_assoc_str. Qed.
Lemma dir_join f : join dir f = join root (join "generations" (join generation f)).
Proof. unfold dirOf. by rewrite !join_assoc. Qed.
Lemma dir_touched f : Touched (join dir f).
Proof. left. by exists f. Qed.
Lemma dir_inRoot f : InRoot (join dir f).
Proof. rewrite dir_join. by eexists. Qed.
Lemma pointer_inRoot : InRoot (pointerOf root).
Proof. by eexists. Qed.
Lemma dir_ne_pointer f : join dir f ≠ pointerOf root.
Proof. rewrite dir_join. by intros H%join_inj. Qed.
Lemma lock_ne_pointer : lockOf root ≠ pointerOf root.
Proof. by intros H%join_inj. Qed.
Lemma dir_ne_lock f : join dir f ≠ lockOf root.
Proof. rewrite dir_join. by intros H%join_inj. Qed.

Definition NAMES : list string := map fileOf LIST_IDS ++ [INDEX_FILE; "manifest.json"].
Lemma name_ne_tmp f f' u : f ∈ NAMES → f' ∈ NAMES → tmpName (join dir f) u ≠ join dir f'.
Proof.
  intros Hf Hf'. rewrite tmpName_join. intros E%join_inj. revert E. unfold NAMES in *. simpl in Hf, Hf'.
  in_cases Hf; in_cases Hf'; done.
Qed.
Lemma fileOf_inj i j : i ∈ LIST_IDS → j ∈ LIST_IDS → fileOf i = fileOf j → i = j.
Proof. unfold LIST_IDS. intros Hi Hj. in_cases Hi; in_cases Hj; done. Qed.
Lemma fileOf_name i : i ∈ LIST_IDS → fileOf i ∈ NAMES.
Proof. intros H. apply elem_of_app. left. by apply list_elem_of_fmap_2. Qed.

(** ** One file *)

Lemma flushDirectory_still path (s : World) : wp (flushDirectory path) (λ _ s', files s' = files s) s.
Proof.
  unfold flushDirectory. apply wp_bind. eapply wp_mono; [apply openDirectory_still|]. intros [[]|e] s1 H1; [|done].
  apply wp_finally. eapply wp_mono; [apply fsync_still|]. intros o s2 H2. split; [congruence|]. intros _.
  eapply wp_mono; [apply close_still|]. intros [[]|e] s3 H3; congruence.
Qed.
Lemma writeFlushed_spec tmp t (s : World) :
  wp (finally_ (writeFile tmp t ;;; fsync) (λ _, close_ (HFile tmp))) (λ o s', Same tmp s s' ∧ ∀ a, o = Ok a → at_ s' tmp = Some (Full t)) s.
Proof.
  apply wp_finally. apply wp_bind, (wp_one tmp _ _ _ (writeFile_spec tmp t s)).
  - intros [] s1 H1 Ht. eapply wp_mono; [apply fsync_still|]. intros o s2 H2.
    assert (Same tmp s s2) as HS by (etransitivity; [exact H1|by apply Same_files]). assert (at_ s2 tmp = Some (Full t)) as E2 by (unfold at_ in *; congruence).
    split; [done|]. intros _. eapply wp_mono; [apply close_still|]. intros [[]|e] s3 H3;
      (split; [etransitivity; [exact HS|by apply Same_files]|]); unfold at_ in *; congruence.
  - intros e s1 H1. split; [done|]. intros _. eapply wp_mono; [apply close_still|].
    intros [[]|e'] s2 H2; (split; [etransitivity; [exact H1|by apply Same_files]|done]).
Qed.

Record Written (path tmp : string) (t : Bytes) (s : World) (o : outcome unit) (s' : World) : Prop := {
  wr_frame : ∀ p, p ≠ tmp → p ≠ path → at_ s' p = at_ s p;
  wr_file : at_ s' path = at_ s path ∨ at_ s' path = Some (Full t);
  wr_done : o = Ok tt → at_ s' path = Some (Full t) }.
Lemma Written_same path tmp t (s s' : World) e : tmp ≠ path → Same tmp s s' → Written path tmp t s (Throw e) s'.
Proof. intros Hne H. split; [by auto|left; by apply H|done]. Qed.

Lemma atomicFile_spec path random t (s : World) : wp (atomicFile path random t) (Written path (tmpName path random) t s) s.
Proof.
  assert (tmpName path random ≠ path) as Hne by apply tmpName_ne. unfold atomicFile. set (tmp := tmpName path random) in *.
  apply wp_bind. eapply wp_mono; [apply mkdir_still|]. intros [[]|e] s1 H1; [|apply Written_same; [done|by apply Same_files]].
  apply wp_bind, (wp_one tmp _ _ _ (openExclusive_spec tmp s1)).
  2: { intros e s2 H2. apply Written_same; [done|]. etransitivity; [by apply Same_files|exact H2]. }
  intros [] s2 H2 _. assert (Same tmp s s2) as HS2 by (etransitivity; [by apply Same_files|exact H2]).
  apply wp_bind, (wp_one tmp _ _ _ (writeFlushed_spec tmp t s2)).
  2: { intros e s3 H3. apply Written_same; [done|]. by etransitivity. }
  intros [] s3 H3 Ht. assert (Same tmp s s3) as HS3 by (by etransitivity).
  apply wp_bind. eapply wp_mono; [by apply (rename_spec _ _ (Full t))|]. intros [[]|e] s4 H4.
  - destruct H4 as [Hp Hf]. eapply wp_mono; [apply flushDirectory_still|]. intros o s5 H5.
    assert (∀ p, at_ s5 p = at_ s4 p) as E by (intros p; unfold at_; congruence). split; rewrite ?E; auto.
    intros p ? ?. rewrite E, Hf by done. by apply HS3.
  - apply Written_same; [done|]. etransitivity; [exact HS3|by apply Same_files].
Qed.

(** ** The refresh *)

#[local] Instance Kept_preorder : PreOrder Kept.
Proof.
  split; [by intros s; split|]. intros s1 s2 s3 [F1 P1] [F2 P2]. split; [|congruence]. intros p Hp Ht. rewrite F2, F1; done.
Qed.
Lemma Kept_files s s' : files s' = files s → Kept s s'.
Proof. intros E. split; [intros p _ _|]; unfold at_; by rewrite E. Qed.

(** A file of the generation is stored: the generation's other files are as before. *)
Lemma store_spec f v (s : World) : f ∈ NAMES → wp (store (join dir f) v) (λ o s', Kept s s'
    ∧ (∀ f', f' ∈ NAMES → f' ≠ f → at_ s' (join dir f') = at_ s (join dir f')) ∧ (o = Ok tt → at_ s' (join dir f) = Some (Full v))) s.
Proof.
  intros Hf. unfold store. eapply wp_mono; [apply atomicFile_spec|]. intros o s' [W1 W2 W3]. split_and!; [split|intros f' Hf' Hne|done].
  - intros p Hp Ht. apply W1; intros ->; apply Ht; [rewrite tmpName_join|]; apply dir_touched.
  - apply W1; intros E; symmetry in E; revert E; [rewrite tmpName_join|]; apply dir_ne_pointer.
  - apply W1; [|by intros ?%join_inj]. intros E. by apply (name_ne_tmp f f' (uuid (join dir f)) Hf Hf').
Qed.

Context (download_still : ∀ id s, wp (download id) (λ _ s', ∀ p, InRoot p → at_ s' p = at_ s p) s).

Lemma download_kept id (s : World) : wp (download id) (λ o s', Kept s s' ∧ (∀ f, at_ s' (join dir f) = at_ s (join dir f)) ∧ ∀ d, o = Ok d → answered (download id) d) s.
Proof.
  pose proof (download_still id s) as H. unfold wp in *. destruct (download id s) as [o s'] eqn:E. simpl in *. split_and!; [split|..].
  - intros p Hp _. by apply H. - apply H, pointer_inRoot. - intros f. apply H, dir_inRoot. - intros d ->. by exists s, s'.
Qed.

Lemma Downloaded_keep s s' sources sources' id es : at_ s' (join dir (fileOf id)) = at_ s (join dir (fileOf id)) →
  dget id sources' = dget id sources → Downloaded s sources id es → Downloaded s' sources' id es.
Proof. intros E1 E2 (d & src & H). exists d, src. by rewrite E1, E2. Qed.

(** The lists visited so far. *)
Definition Visited (s0 : World) (previous : option ListProvenance) (visited : list string)
    (st : list (string * SourceEvidence) * list SanctionEntry) (s : World) : Prop :=
  Kept s0 s ∧ ∃ ess, st.2 = concat ess ∧ Forall2 (Downloaded s st.1) visited ess ∧ Forall2 (NotDropped previous) visited ess.

Lemma refreshList_spec s0 previous visited id rest st s : LIST_IDS = visited ++ id :: rest → Visited s0 previous visited st s →
  wp (refreshList previous id st)
    (λ o s', match o with Ok st' => Visited s0 previous (visited ++ [id]) st' s' | Throw e => Kept s0 s' end) s.
Proof.
  intros Hl [HK (ess & Hc & HD & HN)]. unfold refreshList. apply wp_bind. eapply wp_mono; [apply download_kept|].
  intros o s1 (K1 & E1 & Hd). assert (Kept s0 s1) as HK1 by (by etransitivity). destruct o as [d|e]; [|done]. specialize (Hd d eq_refl).
  apply wp_bind, wp_require; intros _; [|done]. apply wp_bind, wp_lift_out. destruct (parseListBytes (d_bytes d) id) as [parsed|] eqn:Hp; [|done].
  apply wp_bind. assert (NotDropped previous id parsed → wp (let! url := lift_out (publicEffectiveUrl parseUrl (d_effectiveUrl d)) in
    atomicFile (join dir (fileOf id)) (uuid (join dir (fileOf id))) (d_bytes d) ;;;
    ret (dset id (evidenceOf id d url (length parsed)) st.1, st.2 ++ parsed))
    (λ o s', match o with Ok st' => Visited s0 previous (visited ++ [id]) st' s' | Throw e => Kept s0 s' end) s1) as Hgo.
  { intros Hnd. apply wp_bind, wp_lift_out. destruct (publicEffectiveUrl parseUrl (d_effectiveUrl d)) as [url|]; [|done].
    assert (NoDup LIST_IDS) as Hdup by (by repeat constructor; set_solver).
    assert (∀ x, x ∈ visited → x ∈ LIST_IDS ∧ x ≠ id) as Hv.
    { intros x Hx. rewrite Hl. split; [set_solver|]. intros ->. rewrite Hl in Hdup. apply NoDup_app in Hdup as (_ & Hdup & _). set_solver. }
    assert (id ∈ LIST_IDS) as Hid by (rewrite Hl; set_solver).
    apply wp_bind. eapply wp_mono; [apply (store_spec (fileOf id) (d_bytes d) s1), fileOf_name, Hid|]. intros o s2 (K2 & E2 & W2).
    assert (Kept s0 s2) as HK2 by (by etransitivity). destruct o as [[]|e]; [|done]. apply wp_ret. split; [done|]. exists (ess ++ [parsed]).
    split_and!; [rewrite Hc, concat_app; simpl; by rewrite app_nil_r| |by apply Forall2_app; [|constructor]].
    apply Forall2_app; [|constructor; [|constructor]].
    - eapply Forall2_impl_elem; [exact HD|]. intros x es Hx Hdx. destruct (Hv x Hx) as [Hx1 Hx2]. revert Hdx. apply Downloaded_keep.
      + rewrite E2; [by rewrite E1|by apply fileOf_name|]. by intros ?%fileOf_inj.
      + by apply dget_dset_ne.
    - exists d, (evidenceOf id d url (length parsed)). split_and!; try done; [by apply W2|apply dget_dset_eq]. }
  destruct previous as [p|]; [|apply wp_ret; apply Hgo; intros ? [=]].
  destruct (dget id (pv_sources p)) as [src|] eqn:Hsrc; [|done]. apply wp_require; intros Hnd; [|done]. apply Hgo.
  intros p' [= <-]. exists src. split; [done|]. by apply negb_true_iff.
Qed.

(** ** Reading the same in two states *)

Definition Reads {A} (m : M World A) (s s' : World) : Prop := (m s).1 = (m s').1 ∧ (m s).2 = s ∧ (m s').2 = s'.
Lemma Reads_bind {A B} (m : M World A) (k : A → M World B) s s' :
  Reads m s s' → (∀ a, (m s).1 = Ok a → Reads (k a) s s') → Reads (bind m k) s s'.
Proof.
  unfold Reads, bind. intros (H1 & H2 & H3) Hk. destruct (m s) as [o s1], (m s') as [o' s1']. simpl in *. subst. destruct o' as [a|e]; [by apply Hk|done].
Qed.
Lemma Reads_const {A} (o : outcome A) s s' : Reads (λ s, (o, s)) s s'.
Proof. done. Qed.
Lemma Reads_require b e s s' : Reads (require b e : M World unit) s s'.
Proof. by destruct b. Qed.
Lemma Reads_foldM {A V} (f : A → V → M World V) l s s' : (∀ x v, Reads (f x v) s s') → ∀ v, Reads (foldM f l v) s s'.
Proof. intros H. induction l as [|x l IH]; intros v; [done|]. apply Reads_bind; [apply H|]. intros a _. apply IH. Qed.
Lemma Reads_peek p s s' : at_ s p = at_ s' p → Reads (peek p) s s'.
Proof. intros E. unfold Reads, peek. by rewrite E. Qed.

Abbreviation current := (currentGeneration parsePointer peek root).
Lemma current_reads s s' : at_ s (pointerOf root) = at_ s' (pointerOf root) → Reads current s s'.
Proof.
  intros E. apply Reads_bind; [by apply Reads_peek|]. intros b _. apply Reads_bind; [apply Reads_const|]. intros g _.
  apply Reads_bind; [apply Reads_require|]. intros _ _. apply Reads_const.
Qed.
Lemma current_dir s d : (current s).1 = Ok d → ∃ g, isGeneration g = true ∧ d = dirOf root g.
Proof.
  unfold currentGeneration, bind. destruct (peek _ s) as [[b|] s1]; [|done]. simpl. destruct (parsePointer b) as [g|]; [|done]. simpl.
  unfold require, when. destruct (isGeneration g) eqn:E; [|done]. simpl. intros [= <-]. by exists g.
Qed.

Context (generation_ok : isGeneration generation = true).
(** The identifier drawn is not that of the generation in use. *)
Definition New (s : World) : Prop := (current s).1 ≠ Ok dir.

Lemma old_untouched g f : isGeneration g = true → g ≠ generation → ¬ Touched (join (dirOf root g) f).
Proof.
  intros Hg Hne HT. assert (join (dirOf root g) f = join root (join "generations" (join g f))) as E by (unfold dirOf; by rewrite !join_assoc).
  rewrite E in HT. destruct HT as [(f' & H)|[H|[H|H]]].
  - rewrite dir_join in H. apply join_inj, join_inj in H. unfold join in H. apply Hne. unfold isGeneration in *.
    apply andb_true_iff in Hg as [Hg%Nat.eqb_eq _]. apply andb_true_iff in generation_ok as [Hn%Nat.eqb_eq _].
    apply app_str_inj in H as [H _]; [done|congruence].
  - by apply join_inj in H.
  - by apply join_inj in H.
  - unfold pointerOf in H. rewrite tmpName_join in H. by apply join_inj in H.
Qed.
Lemma current_kept s s' d f : New s → Frame s s' → (current s).1 = Ok d → at_ s (join d f) = at_ s' (join d f).
Proof.
  intros HN HF Hd. destruct (current_dir _ _ Hd) as (g & Hg & ->). symmetry. apply HF; [unfold dirOf; rewrite !join_assoc; by eexists|].
  apply old_untouched; [done|]. intros ->. by apply HN.
Qed.

Lemma loads_kept s s' t hours pinned : New s → Kept s s' → loads s' t hours pinned = loads s t hours pinned.
Proof.
  intros HN [HF HP]. unfold loads. symmetry. match goal with |- (?m s).1 = _ => assert (Reads m s s') as [E _]; [|exact E] end.
  apply Reads_bind; [by apply current_reads|]. intros d Hd. assert (∀ f, Reads (peek (join d f)) s s') as Hf.
  { intros f. apply Reads_peek. by eapply current_kept. }
  apply Reads_bind; [apply Hf|]. intros b _. apply Reads_bind; [apply Reads_const|]. intros p _. apply Reads_bind; [apply Reads_const|]. intros h _.
  apply Reads_bind; [done|]. intros t' _. apply Reads_bind; [apply Reads_const|]. intros _ _. apply Reads_bind; [apply Reads_require|]. intros _ _.
  apply Reads_bind.
  - apply Reads_foldM. intros id out. apply Reads_bind; [apply Hf|]. intros bytes _. apply Reads_bind; [apply Reads_require|]. intros _ _.
    apply Reads_bind; [apply Reads_const|]. intros es _. apply Reads_bind; [apply Reads_require|]. done.
  - intros ls _. apply Reads_bind; [done|]. intros t2 _. apply Reads_bind; [apply Reads_const|]. done.
Qed.
Lemma Reads_exists p s s' : Exact → at_ s p = at_ s' p → Reads (exists_ p) s s'.
Proof. intros HE E. unfold Reads, exists_, gets, dhas, at_ in *. simpl. by rewrite E, !HE. Qed.
Lemma previous_kept s s' : Exact → New s → Kept s s' → Reads (previousOf peek) s s'.
Proof.
  intros HE HN [HF HP]. apply Reads_bind; [by apply Reads_exists|]. intros [] _; [|done]. apply Reads_bind; [by apply current_reads|]. intros d Hd.
  apply Reads_bind; [apply Reads_peek; by eapply current_kept|]. intros b _. apply Reads_bind; [apply Reads_const|]. done.
Qed.

(** A read that answers, answers what the files hold, unless a test for a file failed. *)
Definition Agrees {A} (m m' : M World A) : Prop :=
  (∀ s, wp m (λ o s', files s' = files s ∧ (Exact → ∀ a, o = Ok a → (m' s).1 = Ok a)) s) ∧ (Exact → ∀ s s', files s = files s' → Reads m' s s').
Lemma Agrees_bind {A B} (m m' : M World A) (k k' : A → M World B) : Agrees m m' → (∀ a, Agrees (k a) (k' a)) → Agrees (bind m k) (bind m' k').
Proof.
  intros [H1 H2] Hk. split.
  - intros s. apply wp_bind. eapply wp_mono; [apply H1|]. intros [a|e] s1 [Hf Ha]; [|done]. destruct (Hk a) as [K1 K2].
    eapply wp_mono; [apply K1|]. intros o s2 [Hf2 Ho]. split; [congruence|]. intros HE b Hb. specialize (Ha HE a eq_refl). destruct (H2 HE s s eq_refl) as (_ & Hs & _).
    unfold bind. destruct (m' s) as [o' s']. simpl in *. subst. destruct (K2 HE s s1 ltac:(congruence)) as (-> & _). by apply Ho.
  - intros HE s s' E. apply Reads_bind; [by apply H2|]. intros a _. by apply Hk.
Qed.
Lemma Agrees_const {A} (o : outcome A) : Agrees (λ s, (o, s)) (λ s, (o, s)).
Proof. split; [by intros s; unfold wp|done]. Qed.
Lemma Agrees_read p : Agrees (readText p) (peek p).
Proof.
  split; [|intros _ s s' E; apply Reads_peek; unfold at_; by rewrite E]. intros s. unfold readText. apply wp_bind. eapply wp_mono; [apply readFile_still|].
  intros [c|e] s' [Hf Hc]; [|done]. apply wp_ret. split; [done|]. intros _ b [= <-]. unfold peek. rewrite (Hc c eq_refl). by destruct c.
Qed.
Lemma Agrees_exists p : Agrees (exists_ p) (exists_ p).
Proof. split; [by intros s; unfold wp|]. intros HE s s' E. apply Reads_exists; [done|]. unfold at_. by rewrite E. Qed.
Lemma Agrees_require b e : Agrees (require b e : M World unit) (require b e).
Proof. by destruct b; apply Agrees_const. Qed.
Lemma previous_agrees : Agrees (previousOf readText) (previousOf peek).
Proof.
  apply Agrees_bind; [apply Agrees_exists|]. intros []; [|apply Agrees_const]. apply Agrees_bind.
  - apply Agrees_bind; [apply Agrees_read|]. intros b. apply Agrees_bind; [apply Agrees_const|]. intros g.
    apply Agrees_bind; [apply Agrees_require|]. intros _. apply Agrees_const.
  - intros d. apply Agrees_bind; [apply Agrees_read|]. intros b. apply Agrees_bind; [apply Agrees_const|]. intros p. apply Agrees_const.
Qed.

(** ** What is activated *)

Lemma Complete_keep s s' p ess : (∀ f, f ∈ NAMES → at_ s' (join dir f) = at_ s (join dir f)) → Complete s p ess → Complete s' p ess.
Proof.
  intros E [H1 H2 H3 H4]. assert (INDEX_FILE ∈ NAMES ∧ "manifest.json" ∈ NAMES) as [Hi Hm] by (unfold NAMES; set_solver).
  split; [by rewrite E| |destruct H3 as (ib & ? & ?); exists ib; by rewrite E|done].
  eapply Forall2_impl_elem; [exact H2|]. intros id es Hid. apply Downloaded_keep; [|done]. by apply E, fileOf_name.
Qed.
Lemma Active_keep s0 s s' p ess : (∀ f, at_ s' (join dir f) = at_ s (join dir f)) → at_ s' (pointerOf root) = at_ s (pointerOf root) →
  Active s0 s p ess → Active s0 s' p ess.
Proof. intros E Ep [H1 H2 H3]. split; [by rewrite Ep|by apply (Complete_keep s); [intros f _|]|done]. Qed.

Definition Result (s0 : World) (o : outcome ListProvenance) (s : World) : Prop :=
  Frame s0 s ∧ match o with
  | Ok p => ∃ ess, Active s0 s p ess
  | Throw _ => at_ s (pointerOf root) = at_ s0 (pointerOf root) ∨ ∃ p ess, Active s0 s p ess
  end.
Lemma Result_throw s0 s e : Kept s0 s → Result s0 (Throw e) s.
Proof. intros [HF HP]. split; [done|by left]. Qed.

(** The pointer is moved to the generation. *)
Lemma activate_spec s0 s p ess : Kept s0 s → Complete s p ess →
  (Exact → ∀ previous, (previousOf peek s0).1 = Ok previous → Forall2 (NotDropped previous) LIST_IDS ess) →
  wp (store (pointerOf root) (stringifyPointer generation) ;;; ret p) (Result s0) s.
Proof.
  intros [HF HP] HC Hcount. unfold store. apply wp_bind. eapply wp_mono; [apply atomicFile_spec|]. intros o s' [W1 W2 W3].
  assert (Frame s0 s') as HF'.
  { intros q Hq Ht. rewrite <- HF by done. apply W1; intros ->; apply Ht; [by right; right; right|by right; right; left]. }
  assert (∀ f, at_ s' (join dir f) = at_ s (join dir f)) as Ef.
  { intros f. apply W1; [|apply dir_ne_pointer]. unfold pointerOf. rewrite tmpName_join, dir_join. by intros ?%join_inj. }
  assert (at_ s' (pointerOf root) = Some (Full (stringifyPointer generation)) → Active s0 s' p ess) as HA.
  { intros E. split; [done| |done]. by apply (Complete_keep s); [intros f _|]. }
  destruct o as [[]|e]; [|split; [done|]; destruct W2 as [E|E]; [left; congruence|right; eauto]].
  apply wp_ret. split; [done|]. exists ess. by apply HA, W3.
Qed.

Lemma refreshLocked_spec s0 s : New s0 → Kept s0 s →
  wp (refreshLocked) (Result s0) s.
Proof.
  intros HN HK. unfold refreshLocked. apply wp_bind. eapply wp_mono; [apply mkdir_still|]. intros [[]|e] s1 E1;
    (assert (Kept s0 s1) as HK1 by (etransitivity; [exact HK|by apply Kept_files])); [|by apply Result_throw].
  apply wp_bind. eapply wp_mono; [apply (proj1 previous_agrees)|]. intros o s2 [E2 Hprev].
  assert (Kept s0 s2) as HK2 by (etransitivity; [exact HK1|by apply Kept_files]). destruct o as [previous|e]; [|by apply Result_throw].
  assert (Exact → (previousOf peek s0).1 = Ok previous) as Hprev'.
  { intros HE. specialize (Hprev HE previous eq_refl). by destruct (previous_kept s0 s1 HE HN HK1) as (-> & _). }
  clear Hprev. rename Hprev' into Hprev.
  apply wp_bind. apply (wp_foldM_state (Visited s0 previous)).
  { split; [done|]. exists []. split_and!; [done|constructor..]. }
  { intros visited id rest st s3 Hl HV. eapply wp_mono; [by eapply refreshList_spec|]. intros [st'|e] s4 H; [done|by apply Result_throw]. }
  intros [sources entries] s3 [HK3 (ess & Hc & HD & HNd)]. simpl in Hc, HD. cbv beta iota.
  apply wp_bind, wp_lift_out. destruct freshnessHours as [hours|] eqn:Hh; [|by apply Result_throw].
  apply wp_bind, wp_lift_out. destruct (assertProvenance _ t_checked hours) as [[]|] eqn:Ha; [|by apply Result_throw].
  apply wp_bind, wp_lift_out. set (p := provenanceOf sources) in *. rewrite <- Hh. destruct (buildIndex entries p t_built) as [ib|] eqn:Hb; [|by apply Result_throw].
  assert (INDEX_FILE ∈ NAMES ∧ "manifest.json" ∈ NAMES) as [Hi Hm] by (unfold NAMES; set_solver).
  apply wp_bind. eapply wp_mono; [by apply store_spec|]. intros o s4 (K4 & F4 & W4). assert (Kept s0 s4) as HK4 by (by etransitivity).
  destruct o as [[]|e]; [|by apply Result_throw]. specialize (W4 eq_refl).
  apply wp_bind. eapply wp_mono; [by apply store_spec|]. intros o s5 (K5 & F5 & W5). assert (Kept s0 s5) as HK5 by (by etransitivity).
  destruct o as [[]|e]; [|by apply Result_throw]. specialize (W5 eq_refl).
  apply wp_bind. eapply wp_mono; [apply flushDirectory_still|]. intros o s6 E6. assert (Kept s0 s6) as HK6 by (etransitivity; [exact HK5|by apply Kept_files]).
  destruct o as [[]|e]; [|by apply Result_throw]. apply (activate_spec _ _ _ ess); [done| |].
  - apply (Complete_keep s5); [intros f _; unfold at_; by rewrite E6|]. split; [done| | |by exists hours].
    + eapply Forall2_impl_elem; [exact HD|]. intros id es Hid. apply Downloaded_keep; [|done].
      assert (fileOf id ≠ INDEX_FILE ∧ fileOf id ≠ "manifest.json") as [N1 N2] by (unfold LIST_IDS in Hid; in_cases Hid; done).
      rewrite F5, F4; [done|by apply fileOf_name|done|by apply fileOf_name|done].
    + exists ib. rewrite F5 by done. split; [done|]. by rewrite <- Hc.
  - intros HE previous' Hp'. specialize (Hprev HE). by replace previous' with previous by congruence.
Qed.

(** ** Locking, activation and loading *)

Lemma lock_kept s s' : Same (lockOf root) s s' → Kept s s' ∧ ∀ f, at_ s' (join dir f) = at_ s (join dir f).
Proof.
  intros H. split; [split|intros f; by apply H, dir_ne_lock].
  - intros p _ Ht. apply H. intros ->. apply Ht. by right; left.
  - by apply H, not_eq_sym, lock_ne_pointer.
Qed.
Lemma Result_lock s0 s s' o : Same (lockOf root) s s' → Result s0 o s → Result s0 o s' ∧ ∀ e, Result s0 (Throw e) s'.
Proof.
  intros [[HF HP] HD]%lock_kept [RF R]. assert (Frame s0 s') as HF' by (intros p Hp Ht; rewrite HF, RF; done).
  assert (∀ p ess, Active s0 s p ess → Active s0 s' p ess) as HA by (intros p ess; by apply Active_keep).
  split; [split; [done|]|intros e; split; [done|]].
  - destruct o as [p|e]; [destruct R as (ess & ?); eauto|]. destruct R as [R|(p & ess & R)]; [left; congruence|right; eauto].
  - destruct o as [p|e']; [destruct R as (ess & ?); eauto|]. destruct R as [R|(p & ess & R)]; [left; congruence|right; eauto].
Qed.

Lemma refreshSnapshot_spec s : New s →
  wp (refreshSnapshot) (λ o s',
    Result s o s' ∧ (dhas (lockOf root) (files s) = true → files s' = files s ∧ is_ok o = false) ∧ (is_ok o = true → at_ s' (lockOf root) = None)) s.
Proof.
  intros HN. unfold refreshSnapshot. assert (∀ s', files s' = files s → ∀ e : exn, Result s (Throw e) s') as Hsame by (intros s' E e; by apply Result_throw, Kept_files).
  apply wp_bind. eapply wp_mono; [apply mkdir_still|]. intros [[]|e] s1 E1; [|by split_and!; [apply Hsame| |]].
  apply wp_bind. eapply wp_mono; [apply (VaultFile.Vault.wp_conj _ _ _ _ (VaultFile.Vault.openExclusive_exact _ _) (openExclusive_spec _ _))|]. rewrite E1.
  intros [[]|e] s2 [H2 [HS2 _]]; [destruct H2 as [Hn E2]|destruct H2 as [E2 _]; split_and!; [by apply Hsame; congruence|done|done]].
  assert (Kept s s2) as HK2 by (etransitivity; [by apply (Kept_files s s1)|by apply lock_kept]).
  eapply wp_mono with (Q := λ o s', Result s o s' ∧ (is_ok o = true → at_ s' (lockOf root) = None)); [|intros o s' [H3 H4]; split_and!; [done|congruence|done]].
  apply wp_finally. eapply wp_mono with (Q := λ o s', Result s o s').
  - apply wp_bind. eapply wp_mono; [apply writeFile_spec|]. intros o s3 [HS3 _]. assert (Kept s s3) as HK3 by (etransitivity; [exact HK2|by apply lock_kept]).
    destruct o as [[]|e]; [|by apply Result_throw]. apply wp_bind. eapply wp_mono; [apply fsync_still|]. intros o s4 E4.
    assert (Kept s s4) as HK4 by (etransitivity; [exact HK3|by apply Kept_files]). destruct o as [[]|e]; [|by apply Result_throw]. by apply refreshLocked_spec.
  - intros o s3 H3. split; [intros ->; by split|]. intros _. apply wp_bind. eapply wp_mono; [apply close_still|]. intros o4 s4 E4.
    destruct (Result_lock _ _ s4 _ (Same_files _ _ _ E4) H3) as [R4 T4]. destruct o4 as [[]|e]; [|by split].
    eapply wp_mono; [apply unlink_spec|]. intros o5 s5 [S5 U5]. destruct (Result_lock _ _ _ _ S5 R4) as [R5 T5].
    destruct o5 as [[]|e]; [|by split]. split; [done|]. intros _. by eapply U5.
Qed.

(** The loader over an activated generation. *)
Lemma readLists_complete s p ids ess : Forall2 (Downloaded s (pv_sources p)) ids ess → ∀ out,
  ∃ out', foldM (readList utf8Decode saxes byteLength sha256Bytes peek dir (Some p)) ids out s = (Ok out', s)
    ∧ l_entries out' = l_entries out ++ concat ess.
Proof.
  induction 1 as [|id es ids ess (d & src & _ & Hp & Hf & Hs & H1 & H2 & H3) _ IH]; intros out; simpl; [exists out; by rewrite app_nil_r|].
  assert (∃ out1, readList utf8Decode saxes byteLength sha256Bytes peek dir (Some p) id out s = (Ok out1, s) ∧ l_entries out1 = l_entries out ++ es) as (out1 & E1 & El).
  { eexists. split.
    - unfold readList.
      etransitivity; [eapply bind_ok; unfold peek; unfold fileOf in Hf; rewrite Hf; reflexivity|]. cbv beta zeta. simpl (Some p ≫= _). rewrite Hs. cbv beta iota.
      run_step (require_true (S:=World) (String.eqb (sha256Bytes (d_bytes d)) (s_sha256 src) && (byteLength (d_bytes d) =? s_bytes src))
        (EError ("sanctions source hash/size mismatch " +:+ id)) s ltac:(by rewrite H1, H2, String.eqb_refl, Z.eqb_refl)).
      rewrite Hp. run_pure. run_step (require_true (S:=World) (Z.of_nat (length es) =? s_entryCount src)
        (EError ("sanctions source count mismatch " +:+ id)) s ltac:(by rewrite H3, Z.eqb_refl)). reflexivity.
    - done. }
  destruct (IH out1) as (out' & E' & El'). exists out'. rewrite (bind_ok _ _ _ _ _ E1). split; [done|]. by rewrite El', El, app_assoc.
Qed.

Context (pointer_law : ∀ g, parsePointer (stringifyPointer g) = Ok g) (manifest_law : ∀ p, parseManifest (stringifyManifest p) = Ok p).

Lemma active_loads s0 s p ess t h pinned : Active s0 s p ess → assertProvenance p t h = Ok tt →
  (truthy pinned = true → pinned = Some (pv_snapshotId p)) → ∃ l, loads s t (Ok h) pinned = Ok l ∧ l_entries (lists l) = concat ess ∧ ld_provenance l = p.
Proof.
  intros [Hp [Hm HD _ _] _] Ha Hpin. destruct (readLists_complete s p LIST_IDS ess HD noLists) as (ls & Hls & Hl).
  exists {| lists := ls; ld_provenance := p; ld_maxAgeHours := h |}. split; [|done]. unfold loads.
  match goal with |- (?m s).1 = _ => assert (m s = (Ok {| lists := ls; ld_provenance := p; ld_maxAgeHours := h |}, s)) as ->; [|done] end.
  assert (current s = (Ok dir, s)) as Hc.
  { unfold currentGeneration. etransitivity; [eapply bind_ok; unfold peek; unfold pointerOf in Hp; rewrite Hp; reflexivity|]. cbv beta.
    rewrite pointer_law. run_pure. run_step (require_true (S:=World) _ (EError "invalid sanctions generation pointer") s generation_ok). done. }
  unfold loadLists. run_step Hc. etransitivity; [eapply bind_ok; unfold peek; rewrite Hm; reflexivity|]. cbv beta. rewrite manifest_law.
  run_pure. run_pure. run_pure. rewrite Ha. run_pure.
  run_step (require_true (S:=World) (negb (truthy pinned && negb (bool_decide (pinned = Some (pv_snapshotId p))))) (EError "sanctions snapshot differs from runtime pin") s
    ltac:(destruct (truthy pinned) eqn:E; [rewrite bool_decide_eq_true_2 by auto|]; done)).
  run_step Hls. run_pure. rewrite Ha. run_pure. done.
Qed.

Context (gzip_law : ∀ x, decompress (compress x) = Ok x).
Abbreviation readIndex := (readIndex byteLength decompress sha256Entries sha256 parseUrl freshnessHours).

(** What a generation promises: the loader accepts it whenever its provenance is fresh, with the entries [ess] of
    the downloads, of which none dropped, and its index holds them. *)
Definition Activated (s s' : World) (p : ListProvenance) (ess : list (list SanctionEntry)) : Prop :=
  (∀ t h pinned, assertProvenance p t h = Ok tt → (truthy pinned = true → pinned = Some (pv_snapshotId p)) →
       ∃ l, loads s' t (Ok h) pinned = Ok l ∧ l_entries (lists l) = concat ess ∧ ld_provenance l = p)
  ∧ Forall2 (λ id es, ∃ d, answered (download id) d ∧ parseListBytes (d_bytes d) id = Ok es) LIST_IDS ess
  ∧ (Exact → ∀ previous, (previousOf peek s).1 = Ok previous → Forall2 (NotDropped previous) LIST_IDS ess)
  ∧ ∃ ib m, at_ s' (join dir INDEX_FILE) = Some (Full ib) ∧ readIndex ib t_built = Ok (map published (concat ess), m) ∧ m_provenance m = p.
Lemma active_activated s s' p ess : Active s s' p ess → Activated s s' p ess.
Proof.
  intros HA. split; [by intros; eapply active_loads|]. destruct HA as [_ [_ HD (ib & Hib & Hb) _] Hc]. split; [|split; [done|]].
  - eapply Forall2_impl_elem; [exact HD|]. intros id es _ (d & src & H1 & H2 & _). by exists d.
  - apply build_reads in Hb as (m & Hm & Hpm); [|done]. by exists ib, m.
Qed.

(** C6. A refresh of the lists is all or nothing for whoever loads them, whichever
    operation on files fails and wherever the process dies: either what is loaded is
    exactly what was loaded before, and the call did not return, or it is the new
    generation, complete: the loader accepts it at every moment at which its provenance
    is fresh, its entries are those of the three lists that were downloaded, none of
    which lost a fifth of the entries it had before (where no test for the existence of
    a file fails: a test that fails leaves nothing to compare with), and its baked index
    has the same entries and provenance; a call that returns has activated the
    generation it returns, and given up the lock. While another refresh holds the lock a
    call changes nothing and fails. *)
Theorem snapshot_activation (s : World) : New s →
  wp refreshSnapshot (λ o s',
    (is_ok o = false ∧ (∀ t hours pinned, loads s' t hours pinned = loads s t hours pinned)
     ∨ ∃ p ess, (∀ p', o = Ok p' → p' = p)
         ∧ Activated s s' p ess)
    ∧ (is_ok o = true → at_ s' (lockOf root) = None)
    ∧ (dhas (lockOf root) (files s) = true → files s' = files s ∧ is_ok o = false)) s.
Proof.
  intros HN. eapply wp_mono; [by apply refreshSnapshot_spec|]. intros o s' ([HF HR] & Hlock & Hfree). split_and!; [|done|done].
  destruct o as [p|e]; [destruct HR as (ess & HA%active_activated); right; exists p, ess; split; [by intros p' [= <-]|done]|].
  destruct HR as [HP|(p & ess & HA%active_activated)]; [|right; by exists p, ess]. left. split; [done|]. intros t hours pinned. by apply loads_kept.
Qed.
End run.
End refresh.
End Refresh.

(** * A first refresh, and a second one that dies before its pointer is moved *)

Module SnapshotExample.
Import Sax Ingest Refresh EngineExample.

Inductive Text := TList (id : string) | TIndex (x : RawIndex) | TPointer (g : string) | TManifest (p : ListProvenance) | TLease (t : Z).
Definition exDecode (b : Text) : outcome text := match b with TList id => Ok (textOf id) | _ => Throw (EError "TypeError") end.
Definition exLeaf (name value : string) : node := NElem (tt_ name) [] [NText (textOf value)].
Definition exSaxes (xml : text) : list event * bool :=
  (events (if bool_decide (xml = textOf "OFAC_SDN") then NElem (tt_ "sdnList") [] [NElem (tt_ "sdnEntry") [] [exLeaf "uid" "7"; exLeaf "lastName" "Smith"]]
           else if bool_decide (xml = textOf "UN_CONSOLIDATED") then
             NElem (tt_ "CONSOLIDATED_LIST") [] [NElem (tt_ "INDIVIDUALS") [] [NElem (tt_ "INDIVIDUAL") [] [exLeaf "DATAID" "8"; exLeaf "FIRST_NAME" "Anna"]]]
           else NElem (tt_ "export") [] [NElem (tt_ "sanctionEntity") [(tt_ "logicalId", textOf "9")] [NElem (tt_ "nameAlias") [(tt_ "wholeName", textOf "Ivan")] []]]), true).
Definition exUnzip (b : Text) : outcome RawIndex := match b with TIndex x => Ok x | _ => Throw (EError "incorrect header check") end.
Definition exPointer (b : Text) : outcome string := match b with TPointer g => Ok g | _ => Throw (EClass "SyntaxError" "JSON") end.
Definition exManifestOf (b : Text) : outcome ListProvenance := match b with TManifest p => Ok p | _ => Throw (EClass "SyntaxError" "JSON") end.
Definition exDownload (id : string) : M (@Fs Text) (DownloadedList Text) := ret (mkDownloaded (TList id) exAt (urlOf id) None).
Definition g1 : string := "00000000-0000-4000-8000-000000000001".
Definition g2 : string := "00000000-0000-4000-8000-000000000002".
Definition exUuid (p : string) : string := "u".
#[local] Instance exTextTests : Tests (Raw:=Text) := λ _ _, true.
Definition exRefresh (g : string) : M (@Fs Text) ListProvenance :=
  refreshSnapshot exDecode exSaxes (λ _, 1000) (λ _, exSha "list") exSha exParse TIndex exUnzip (λ _, "entries") (Ok 168) exPointer exManifestOf
    TPointer TManifest TLease (λ _, TLease 0) exDownload "data/raw" g exUuid exNow exNow exNow exNow.
Definition exLoads (s : @Fs Text) : outcome Loaded :=
  loads exDecode exSaxes (λ _, 1000) (λ _, exSha "list") exSha exParse exPointer exManifestOf (λ _, TLease 0) "data/raw" s exNow (Ok 168) None.
Definition s0 : @Fs Text := mkFs [] [] [].
Definition exRun : outcome ListProvenance * @Fs Text := Eval vm_compute in exRefresh g1 s0.
Definition s1 : @Fs Text := Eval vm_compute in exRun.2.
(** The second refresh dies when it is about to move the pointer. *)
Definition s1' : @Fs Text := mkFs (files s1) [] (repeat io_ok 60 ++ [io_die]).
Definition s2 : @Fs Text := Eval vm_compute in (exRefresh g2 s1').2.
Lemma exRefreshed_ok : exRefresh g1 s0 = (exRun.1, s1).
Proof. by vm_compute. Qed.
Definition exNewest : ListProvenance := Eval vm_compute in ok_or exManifest exRun.1.
Lemma exNewest_ok : exRun.1 = Ok exNewest.
Proof. by vm_compute. Qed.
Lemma exFresh : assertProvenance exSha exParse exNewest exNow 168 = Ok tt.
Proof. by vm_compute. Qed.
Lemma exDownload_still id (s : @Fs Text) : wp (exDownload id) (λ _ s', ∀ p, InRoot "data/raw" p → at_ s' p = at_ s p) s.
Proof. by unfold exDownload, wp, ret. Qed.

(** The first refresh is loaded; after the second one died, a third one changes nothing, since the
    lock was left behind. *)
Lemma snapshot_activation_witness : (∃ l, exLoads s1 = Ok l ∧ length (l_entries (lists l)) = 3%nat) ∧ files (exRefresh g2 s2).2 = files s2.
Proof.
  split.
  - pose proof (wp_run (exRefresh g1) _ s0 exRun.1 s1 (snapshot_activation exDecode exSaxes (λ _, 1000) (λ _, exSha "list") exSha exParse TIndex exUnzip (λ _, "entries") (Ok 168)
      exPointer exManifestOf TPointer TManifest TLease (λ _, TLease 0) exDownload "data/raw" g1 exUuid exNow exNow exNow exNow exDownload_still
      ltac:(by vm_compute) ltac:(done) ltac:(done) ltac:(done) s0 ltac:(by vm_compute)) exRefreshed_ok) as [[[Hno _]|(p & ess & Hp & Hl & HD & _)] _]; [discriminate Hno|].
    rewrite <- (Hp _ exNewest_ok) in Hl. destruct (Hl exNow 168 None exFresh ltac:(done)) as (l & H1 & H2 & _). exists l. split; [exact H1|].
    rewrite H2. apply (Forall2_length) in HD as Hlen. destruct ess as [|e1 [|e2 [|e3 [|]]]]; try discriminate Hlen.
    apply Forall2_cons in HD as [(d1 & (w1 & w1' & [= <- _]) & E1) HD]. apply Forall2_cons in HD as [(d2 & (w2 & w2' & [= <- _]) & E2) HD].
    apply Forall2_cons in HD as [(d3 & (w3 & w3' & [= <- _]) & E3) _]. vm_compute in E1, E2, E3. injection E1 as <-. injection E2 as <-. by injection E3 as <-.
  - apply (snapshot_activation exDecode exSaxes (λ _, 1000) (λ _, exSha "list") exSha exParse TIndex exUnzip (λ _, "entries") (Ok 168)
      exPointer exManifestOf TPointer TManifest TLease (λ _, TLease 0) exDownload "data/raw" g2 exUuid exNow exNow exNow exNow exDownload_still
      ltac:(by vm_compute) ltac:(done) ltac:(done) ltac:(done) s2 ltac:(by vm_compute)). by vm_compute.
Defined.
End SnapshotExample.
