(* ===== verification/Epoch.v ===== *)
(** What an epoch publication commits to: the bounds of its parameters ([src/pipeline/epoch.ts], Module Params, with
    the plan, its later checks and the waiting of [src/script/publish-epoch.ts], Module Plan) and the approvals of
    the issuers of its roster ([roster-authorization.ts], Module Authorization).  Addresses, typed-data hashing,
    SHA-256 and contract reads are parameters; durations are binary64 numbers, as the code computes them. *)

From Stdlib Require Import ZArith Lia Ascii String List SpecFloat.
From stdpp Require Import base decidable option list strings sets sorting.
From S2P Require Import Prelude JS Roster Merkle Attrs Json Evm Identity Kr Float Names Screen.
Import Json Jurisdiction Provenance.
Local Open Scope string_scope.
Local Open Scope list_scope.
Local Open Scope Z_scope.
Local Open Scope js_scope.

Module Params.

Definition EPOCH_SCHEMA_VERSION : Z := 2.
Definition MAX_EPOCH_AGE_SECONDS : Z := 86400.
Definition MAX_PUBLICATION_LAG_SECONDS : Z := 3600.

(** The integer that a double is, when it is a safe one. *)
Definition integral (x : f64) : option Z :=
  match x with
  | S754_zero _ => Some 0
  | S754_finite s m e =>
      let sign v := if (s : bool) then - v else v in
      if 0 <=? e then Some (sign (Zpos m * 2 ^ e))
      else if Zpos m mod 2 ^ (- e) =? 0 then Some (sign (Zpos m / 2 ^ (- e))) else None
  | _ => None
  end.
Definition safeInteger (x : f64) : option Z := v ← integral x; if isSafeInteger v then Some v else None.

Record EpochParams := mkParams { ep_sourceCutoff : Z; ep_snapshotId : string; ep_listVersion : Z; ep_validUntil : Z; ep_validDays : f64 }.

(** The loop of [requireEpochV2] and [requireRosterAuthorization]. *)
Fixpoint requireVersion {W} (version : Z) (unavailable unsupported : exn) (reads : list (M W Z)) : M W unit :=
  match reads with
  | [] => ret tt
  | read :: reads =>
      let! value := tryCatch read (λ _, throw unavailable) in
      require (value =? version) unsupported ;;;
      requireVersion version unavailable unsupported reads
  end.
Definition requireEpochV2 {W} (readVersions : list (M W Z)) : M W unit :=
  require (negb (bool_decide (length readVersions = 0%nat))) (EError "epoch compatibility requires a target") ;;;
  requireVersion EPOCH_SCHEMA_VERSION (EError "epoch schema v2 unavailable; migrate source/ASC/Registry together")
    (EError "unsupported epoch schema; migrate source/ASC/Registry together") readVersions.

Section params.
Context (sha256 : string → string) (parseUrl : string → option Url).
(** [freshnessHoursFor('epoch')]. *)
Context (freshnessHoursFor : outcome Z).
Abbreviation assertProvenance := (assertProvenance sha256 parseUrl).

Definition BadCutoff : exn := EError "epoch source cutoff is future, missing or too old".
Definition BadHours : exn := EError "EPOCH_VALID_HOURS must yield a positive whole-second duration <=24 hours".
Definition Expired : exn := EError "epoch validity is already expired or outside uint40".

(** The moment of the oldest check of a list, in seconds. *)
Definition oldestListCheck (p : ListProvenance) : Z :=
  match map (λ kv, parseInstant (s_checkedAt kv.2)) (pv_sources p) with [] => 0 | t :: ts => fold_left Z.min ts t end / 1000.

(** [hours]: the number the text stands for; [None] when the text is blank. *)
Definition boundedEpochParams (sourceCutoff : Z) (provenance : ListProvenance) (now : Z) (hours : option f64) : outcome EpochParams :=
  let? fresh := freshnessHoursFor in
  let? _ := assertProvenance provenance now (Z.min 24 fresh) in
  let at_ := now / 1000 in
  let duration := hours ≫= λ h, safeInteger (fmul h (fofZ 3600)) in
  let? _ := orequire (isSafeInteger sourceCutoff && (0 <? sourceCutoff) && (sourceCutoff <=? at_)
                      && (at_ - sourceCutoff <=? MAX_PUBLICATION_LAG_SECONDS)) BadCutoff in
  match duration with
  | Some duration =>
      let? _ := orequire ((0 <? duration) && (duration <=? MAX_EPOCH_AGE_SECONDS)) BadHours in
      let validUntil := Z.min (sourceCutoff + duration) (oldestListCheck provenance + MAX_EPOCH_AGE_SECONDS) in
      let? _ := orequire ((at_ <? validUntil) && (validUntil <? 2 ^ 40)) Expired in
      Ok (mkParams sourceCutoff ("0x" +:+ pv_snapshotId provenance) (hexFrom 0 (Kr.slice 0 8 (pv_snapshotId provenance)))
            validUntil (fdiv (fofZ (validUntil - sourceCutoff)) (fofZ 86400)))
  | None => Throw BadHours
  end.

(** ** Bounds *)

Record Bounded (cutoff : Z) (provenance : ListProvenance) (now : Z) (p : EpochParams) : Prop := {
  bd_cutoff : ep_sourceCutoff p = cutoff ∧ 0 < cutoff ≤ now / 1000 ∧ now / 1000 - cutoff ≤ 3600;
  bd_live : now / 1000 < ep_validUntil p < 2 ^ 40;
  bd_age : ep_validUntil p ≤ cutoff + 86400;
  bd_lists id : id ∈ LIST_IDS → ∃ s checked, dget id (pv_sources provenance) = Some s ∧ timestamp (s_checkedAt s) = Ok checked
    ∧ checked ≤ now ≤ checked + 24 * 3600000 ∧ ep_validUntil p ≤ checked / 1000 + 86400;
  bd_snapshot : ep_snapshotId p = "0x" +:+ pv_snapshotId provenance;
  bd_version : ep_listVersion p = hexFrom 0 (Kr.slice 0 8 (pv_snapshotId provenance)) }.

Lemma fold_min_le ts : ∀ t x, x = t ∨ x ∈ ts → fold_left Z.min ts t ≤ x.
Proof.
  induction ts as [|y ts IH]; intros t x; simpl; [intros [->|[]%elem_of_nil]; lia|]. intros H.
  assert (∀ a, fold_left Z.min ts a ≤ a) as Hle by (intros a; by apply IH; left).
  destruct H as [->|[->|H]%elem_of_cons]; [etransitivity; [apply Hle|lia]|etransitivity; [apply Hle|lia]|by apply IH; right].
Qed.
Lemma oldest_le p id s : dget id (pv_sources p) = Some s → oldestListCheck p ≤ parseInstant (s_checkedAt s) / 1000.
Proof.
  intros H%dget_elem. unfold oldestListCheck. apply Z.div_le_mono; [lia|].
  assert (parseInstant (s_checkedAt s) ∈ map (λ kv, parseInstant (s_checkedAt kv.2)) (pv_sources p)) as Hin.
  { apply list_elem_of_fmap. by exists (id, s). }
  destruct (map _ _) as [|t ts]; [by apply elem_of_nil in Hin|]. apply fold_min_le. by apply elem_of_cons in Hin.
Qed.
Lemma timestamp_instant v ms : timestamp v = Ok ms → ms = parseInstant v.
Proof. unfold timestamp. cbv zeta. intros H. apply obind_ok in H as (u & _ & H). injection H as <-. reflexivity. Qed.

Lemma boundedEpochParams_inv cutoff provenance now hours p : boundedEpochParams cutoff provenance now hours = Ok p →
  ∃ fresh h d, freshnessHoursFor = Ok fresh ∧ assertProvenance provenance now (Z.min 24 fresh) = Ok tt ∧ hours = Some h
    ∧ safeInteger (fmul h (fofZ 3600)) = Some d ∧ 0 < d ≤ 86400
    ∧ (isSafeInteger cutoff = true ∧ 0 < cutoff ≤ now / 1000 ∧ now / 1000 - cutoff ≤ 3600)
    ∧ now / 1000 < Z.min (cutoff + d) (oldestListCheck provenance + 86400) < 2 ^ 40
    ∧ p = mkParams cutoff ("0x" +:+ pv_snapshotId provenance) (hexFrom 0 (Kr.slice 0 8 (pv_snapshotId provenance)))
            (Z.min (cutoff + d) (oldestListCheck provenance + 86400))
            (fdiv (fofZ (Z.min (cutoff + d) (oldestListCheck provenance + 86400) - cutoff)) (fofZ 86400)).
Proof.
  intros (fresh & Hf & ([] & Ha & (u & Hc%orequire_ok & H)%obind_ok)%obind_ok)%obind_ok. destruct hours as [h|]; [|done]. cbn [mbind option_bind] in H.
  destruct (safeInteger _) as [d|] eqn:Hd; [|done]. cbv zeta in H. apply obind_ok in H as (u1 & H1%orequire_ok & H).
  apply obind_ok in H as (u2 & H2%orequire_ok & [= <-]). rewrite !andb_true_iff, ?Z.ltb_lt, ?Z.leb_le in *.
  unfold MAX_EPOCH_AGE_SECONDS, MAX_PUBLICATION_LAG_SECONDS in *. destruct Hc as [[[Hs Hc1] Hc2] Hc3]. exists fresh, h, d. split_and!; try done; lia.
Qed.

Lemma bounded_params cutoff provenance now hours p : boundedEpochParams cutoff provenance now hours = Ok p → Bounded cutoff provenance now p.
Proof.
  intros (fresh & h & d & Hf & Ha & _ & _ & Hd & Hc & Hv & ->)%boundedEpochParams_inv. split; cbn; try done; [split_and!; lia|lia|].
  intros id Hid. apply assertProvenance_fresh in Ha. rewrite Forall_forall in Ha. destruct (Ha id Hid) as (s & checked & Hs & Hch & Hle).
  exists s, checked. split_and!; try done; [lia|nia|]. apply oldest_le in Hs. apply timestamp_instant in Hch. subst. lia.
Qed.

(** ** The same plan, later *)

(** [String((validUntil - sourceCutoff) / 3600)] as a number of hours. *)
Definition hoursOf (seconds : Z) : option f64 := Some (fdiv (fofZ seconds) (fofZ 3600)).
(** What is left of a number of seconds after it was written as hours. *)
Definition afterHours (seconds : Z) : option Z := safeInteger (fmul (fdiv (fofZ seconds) (fofZ 3600)) (fofZ 3600)).

Lemma recheck_spec cutoff provenance now hours p now' : boundedEpochParams cutoff provenance now hours = Ok p →
  let n := ep_validUntil p - cutoff in
  (∃ fresh, freshnessHoursFor = Ok fresh ∧ assertProvenance provenance now' (Z.min 24 fresh) = Ok tt) →
  now ≤ now' → now' / 1000 - cutoff ≤ 3600 →
  (afterHours n = Some n → boundedEpochParams cutoff provenance now' (hoursOf n)
     = if now' / 1000 <? ep_validUntil p then Ok p else Throw Expired) ∧
  (afterHours n = None → boundedEpochParams cutoff provenance now' (hoursOf n) = Throw BadHours).
Proof.
  intros (fresh & h & d & Hf & _ & _ & _ & Hd & (Hs & Hc1 & _) & Hv & ->)%boundedEpochParams_inv n (fresh' & Hf' & Ha) Hnow Hlag.
  cbn [ep_validUntil] in *. assert (now / 1000 ≤ now' / 1000) as Hdiv by (apply Z.div_le_mono; lia).
  set (v := Z.min (cutoff + d) (oldestListCheck provenance + 86400)) in *.
  assert (isSafeInteger cutoff && (0 <? cutoff) && (cutoff <=? now' / 1000) && (now' / 1000 - cutoff <=? MAX_PUBLICATION_LAG_SECONDS) = true) as E.
  { rewrite Hs. rewrite !andb_true_iff, Z.ltb_lt, !Z.leb_le. unfold MAX_PUBLICATION_LAG_SECONDS. lia. }
  unfold boundedEpochParams. rewrite Hf'. cbn [obind]. rewrite Ha. cbn [obind]. cbv zeta. rewrite E. cbn [orequire obind hoursOf mbind option_bind].
  fold (afterHours n). split; intros ->; [|done].
  assert ((0 <? n) && (n <=? MAX_EPOCH_AGE_SECONDS) = true) as ->.
  { rewrite andb_true_iff, Z.ltb_lt, Z.leb_le. unfold MAX_EPOCH_AGE_SECONDS, n. lia. }
  cbn [orequire obind]. unfold MAX_EPOCH_AGE_SECONDS. replace (Z.min (cutoff + n) (oldestListCheck provenance + 86400)) with v by (unfold n; lia).
  rewrite (proj2 (Z.ltb_lt v (2 ^ 40))), andb_true_r by lia. by destruct (now' / 1000 <? v).
Qed.
End params.
End Params.

(** * The approvals of the issuers *)

Module Authorization.
Import Params.

Definition ROSTER_AUTH_VERSION : Z := 1.
Record RosterApprovalMessage := mkMessage {
  epoch : Z; root : string; listVersion : Z; validUntil : Z; sourceCutoff : Z; snapshotId : string; publisher : string }.
Record RosterApprovalData := mkData { dm_chainId : Z; dm_verifyingContract : string; dt_value : RosterApprovalMessage; dt_digest : string }.
Record RootApproval := mkApproval { issuer : string; signature : string }.
(** A parsed envelope: fields of another type are [None]. *)
Record Envelope := mkEnvelope { en_version : Z; en_digest : option string; en_approvals : option (list (option (option string * option string))) }.

Definition requireRosterAuthorization {W} (readVersions : list (M W Z)) : M W unit :=
  require (negb (bool_decide (length readVersions = 0%nat))) (EError "roster authorization target required") ;;;
  requireVersion ROSTER_AUTH_VERSION (EError "roster issuer authorization unavailable; migrate all contracts")
    (EError "unsupported roster issuer authorization") readVersions.

Section authorization.
Context (isAddress : string → bool) (getAddress : string → string) (isHexString : string → bool) (dataLength : string → Z).
(** [TypedDataEncoder.hash] in the domain of a chain and a contract. *)
Context (hashTyped : Z → string → RosterApprovalMessage → string).

Definition ZeroHash : string := "0x" +:+ Roster.hexDigits 64 0.
Definition uint (max n : Z) : bool := isSafeInteger n && (0 <=? n) && (n <=? max).
Definition rosterApprovalData (chainId : Z) (source : string) (message : RosterApprovalMessage) : outcome RosterApprovalData :=
  let? _ := orequire ((0 <? chainId) && isAddress source && negb (String.eqb source ZeroAddress)
                      && isAddress (publisher message) && negb (String.eqb (publisher message) ZeroAddress)
                      && isBytes32 (root message) && negb (String.eqb (root message) ZeroHash)
                      && isBytes32 (snapshotId message) && negb (String.eqb (snapshotId message) ZeroHash)
                      && uint 0xffffffff (epoch message) && uint 0xffffffff (listVersion message) && uint 0xffffffffff (validUntil message)
                      && uint 0xffffffffff (sourceCutoff message) && negb (epoch message =? 0)) (EError "invalid roster approval message") in
  let contract := getAddress source in
  let value := mkMessage (epoch message) (root message) (listVersion message) (validUntil message) (sourceCutoff message) (snapshotId message)
                 (getAddress (publisher message)) in
  Ok (mkData chainId contract value (hashTyped chainId contract value)).

(** [BigInt(a.issuer)]. *)
Definition numberOf (a : RootApproval) : Z := hexFrom 0 (Kr.sliceFrom 2 (issuer a)).
Definition readApproval (a : option (option string * option string)) : outcome RootApproval :=
  match a with
  | Some (Some i, Some s) =>
      let? _ := orequire (isAddress i && negb (String.eqb i ZeroAddress) && isHexString s && (dataLength s <=? 4096)) (EError "invalid issuer approval") in
      Ok (mkApproval (getAddress i) s)
  | _ => Throw (EError "invalid issuer approval")
  end.
Definition readRootApprovals (value : option Envelope) (digest : string) (requiredIssuers : list string) : outcome (list RootApproval) :=
  match value with
  | None => Throw (EError "invalid approval envelope")
  | Some v =>
      let unbound := EError "approval envelope does not bind this exact roster/destination or exceeds issuer limit" in
      match en_digest v, en_approvals v with
      | Some d, Some l =>
          let? _ := orequire ((en_version v =? 1) && same d digest && negb (bool_decide (l = [])) && (Z.of_nat (length l) <=? 16)) unbound in
          let? read := omap_out readApproval l in
          let approvals := sort_by (λ a b, numberOf a <=? numberOf b) read in
          let issuers := map (λ a, toLowerCase (issuer a)) approvals in
          let? _ := orequire (bool_decide (NoDup issuers) && forallb (λ i, bool_decide (toLowerCase i ∈ issuers)) requiredIssuers)
                      (EError "duplicate approval or roster issuer not covered") in
          Ok approvals
      | _, _ => Throw unbound
      end
  end.
End authorization.
End Authorization.

(** * Planning and checking a publication *)

Module Plan.
Import Params Authorization.

(** A decoded call of the source contract, with the issuers of its approvals. *)
Record Call := mkCall {
  k_name : string; k_root : string; k_listVersion : Z; k_validUntil : Z; k_sourceCutoff : Z; k_snapshotId : string; k_approvals : list string }.
(** A rebuilt roster: the root, the issuers of its entries, and the block of its cutoff. *)
Record Roster := mkRoster { ro_root : string; ro_issuers : list string; ro_cutoffBlockHash : string; ro_cutoffTimestamp : Z }.
(** An approval file: the hash of the cutoff block, and the signed message. *)
Record ApprovalBundle := mkBundle { sourceCutoffBlockHash : string; ab_value : RosterApprovalMessage }.

Section plan.
Context (sha256 : string → string) (parseUrl : string → option Url) (freshnessHoursFor : outcome Z).
Abbreviation boundedEpochParams := (boundedEpochParams sha256 parseUrl freshnessHoursFor).

(** [overrides]: whether the unsupported variables of the environment are set; [block]: the hash and the time
    of the cutoff block as it is now. *)
Definition epochParams (overrides : bool) (block : option (string * Z)) (lists : outcome ListProvenance) (roster : Roster)
    (frozen : option ApprovalBundle) (envHours : option f64) (now : Z) : outcome EpochParams :=
  let? _ := orequire (negb overrides) (EError "legacy epoch overrides are unsupported; use a fresh snapshot and EPOCH_VALID_HOURS <=24") in
  let? provenance := lists in
  match block with
  | None => Throw (EError "source cutoff block unavailable")
  | Some (hash, timestamp) =>
      let? _ := orequire (String.eqb hash (ro_cutoffBlockHash roster) && (timestamp =? ro_cutoffTimestamp roster))
                  (EError "source cutoff changed after snapshot replay") in
      let? _ := orequire (match frozen with
                          | Some b => String.eqb hash (sourceCutoffBlockHash b) && (timestamp =? sourceCutoff (ab_value b))
                          | None => true end) (EError "signed source cutoff changed; rebuild and obtain new approvals") in
      let hours := match frozen with Some b => hoursOf (validUntil (ab_value b) - sourceCutoff (ab_value b)) | None => envHours end in
      boundedEpochParams timestamp provenance now hours
  end.

(** The plan of [publishFresh], and its check [now'], when everything else is prepared. *)
Definition freshPlan (cutoff : Z) (provenance : ListProvenance) (now : Z) (hours : option f64) (now' : Z) : outcome EpochParams :=
  let? p := boundedEpochParams cutoff provenance now hours in
  let? _ := boundedEpochParams (ep_sourceCutoff p) provenance now' (hoursOf (ep_validUntil p - ep_sourceCutoff p)) in
  Ok p.

(** What a transaction must pass before every signature and broadcast, after the checks of the runtimes. *)
Definition guard (journalPublisher : string) (call : Call) (roster : Roster) (lists : outcome ListProvenance) (now : Z) : outcome unit :=
  let? _ := orequire (String.eqb (ro_root roster) (k_root call)) (EError "PUBLICATION_ROSTER_CHANGED") in
  let? provenance := lists in
  let? p := boundedEpochParams (k_sourceCutoff call) provenance now (hoursOf (k_validUntil call - k_sourceCutoff call)) in
  let? _ := orequire ((ep_validUntil p =? k_validUntil call) && String.eqb (ep_snapshotId p) (k_snapshotId call)
                      && (ep_listVersion p =? k_listVersion call)) (EError "PUBLICATION_SNAPSHOT_CHANGED") in
  let approved := if String.eqb (k_name call) "publishEpoch" then [journalPublisher] else map toLowerCase (k_approvals call) in
  orequire (forallb (λ i, bool_decide (toLowerCase i ∈ approved)) (ro_issuers roster)) (EError "PUBLICATION_ISSUER_NOT_APPROVED").
End plan.
End Plan.

(** * What holds of plans and approvals *)

Module EpochProofs.
Import Params Authorization Plan.

Section plan.
Context (sha256 : string → string) (parseUrl : string → option Url) (freshnessHoursFor : outcome Z).
Abbreviation boundedEpochParams := (boundedEpochParams sha256 parseUrl freshnessHoursFor).

Lemma plan_snapshot cutoff provenance now hours p : (∀ s, isSha256 (sha256 s) = true) → boundedEpochParams cutoff provenance now hours = Ok p →
  isSha256 (pv_snapshotId provenance) = true.
Proof.
  intros Hsha (fresh & h & d & _ & Ha & _)%boundedEpochParams_inv. unfold assertProvenance in Ha.
  apply obind_ok in Ha as (u1 & _ & Ha). apply obind_ok in Ha as (u2 & _ & Ha). apply obind_ok in Ha as (u3 & He%orequire_ok & _).
  apply String.eqb_eq in He. rewrite He. apply Hsha.
Qed.

Lemma allChars_substring P s : allChars P s = true → ∀ n m, allChars P (substring n m s) = true.
Proof.
  induction s as [|c s IH]; intros H n m; [by destruct n, m|]. cbn [allChars] in H. apply andb_true_iff in H as [Hc Hs].
  destruct n as [|n], m as [|m]; cbn [substring allChars]; try done; [|by apply IH..]. by rewrite Hc, IH.
Qed.
Lemma length_substring s : ∀ n m, (n + m ≤ String.length s)%nat → String.length (substring n m s) = m.
Proof.
  induction s as [|c s IH]; intros n m H; cbn [String.length] in H; [by replace m with 0%nat by lia; destruct n|].
  destruct n as [|n]; [destruct m as [|m]; cbn; [done|by rewrite IH by lia]|]. cbn. apply IH. lia.
Qed.

Lemma version_width id : isSha256 id = true → 0 ≤ hexFrom 0 (Kr.slice 0 8 id) < 2 ^ 32.
Proof.
  unfold isSha256. intros [Hl%Nat.eqb_eq Hh]%andb_true_iff. change (Kr.slice 0 8 id) with (substring 0 8 id).
  assert (allChars isHex (substring 0 8 id) = true) as Hx by (apply allChars_substring; eapply allChars_mono; [|exact Hh]; apply lowerHex_hex).
  pose proof (hexFrom_bound (substring 0 8 id) 0 Hx ltac:(lia)) as H. rewrite length_substring in H by lia. change (Z.of_nat 8) with 8 in H. lia.
Qed.

(** The hours of whole quarters of an hour are exact. *)
Lemma afterHours_quarter n : 0 < n ≤ 86400 → n mod 900 = 0 → afterHours n = Some n.
Proof.
  intros Hn Hm. assert (forallb (λ k, bool_decide (afterHours (900 * Z.of_nat k) = Some (900 * Z.of_nat k))) (seq 1 96) = true) as H by by vm_compute.
  rewrite forallb_forall in H. specialize (H (Z.to_nat (n / 900))). pose proof (Z.div_mod n 900 ltac:(lia)) as E. rewrite Hm, Z.add_0_r in E.
  assert (1 ≤ n / 900 ≤ 96) as Hk by lia. rewrite Z2Nat.id, <- E in H by lia.
  eapply bool_decide_eq_true. apply H. apply in_seq. lia.
Qed.
End plan.

(** C29. What is signed: a call that passes the check before every signature and
    broadcast publishes the root of the roster that was rebuilt from the source chain,
    every issuer of whose entries approved it; its validity ends in the future, at most
    a day after its source cutoff and at most a day after the oldest check of a
    sanctions list, the cutoff is at most an hour ago, each list was checked in the last
    day, and the numbers and the snapshot identifier, which is that of the lists in use,
    have the widths of the contract. *)
Theorem publication_guard_sound (sha256 : string → string) (parseUrl : string → option Url) (freshnessHoursFor : outcome Z)
    (journalPublisher : string) (call : Call) (roster : Roster) (lists : outcome ListProvenance) (now : Z) :
  (∀ s, isSha256 (sha256 s) = true) →
  guard sha256 parseUrl freshnessHoursFor journalPublisher call roster lists now = Ok tt →
  k_root call = ro_root roster ∧
  (∀ i, i ∈ ro_issuers roster → toLowerCase i ∈ (if String.eqb (k_name call) "publishEpoch" then [journalPublisher] else map toLowerCase (k_approvals call))) ∧
  ∃ provenance p, lists = Ok provenance ∧ Bounded (k_sourceCutoff call) provenance now p ∧ k_validUntil call = ep_validUntil p
    ∧ k_snapshotId call = "0x" +:+ pv_snapshotId provenance ∧ isBytes32 (k_snapshotId call) = true
    ∧ 0 ≤ k_listVersion call < 2 ^ 32 ∧ 0 < k_sourceCutoff call < k_validUntil call ∧ k_validUntil call < 2 ^ 40.
Proof.
  intros Hsha (u1 & Hr%orequire_ok & (provenance & Hl & (p & Hp & (u2 & H2%orequire_ok & H3%orequire_ok)%obind_ok)%obind_ok)%obind_ok)%obind_ok.
  apply String.eqb_eq in Hr. rewrite !andb_true_iff, !Z.eqb_eq, String.eqb_eq in H2. destruct H2 as [[Hv Hs] Hver].
  split; [done|]. split.
  - intros i Hi. rewrite forallb_forall in H3. apply list_elem_of_In, H3, bool_decide_eq_true in Hi. done.
  - pose proof (plan_snapshot _ _ _ _ _ _ _ _ Hsha Hp) as Hid. pose proof (bounded_params _ _ _ _ _ _ _ _ Hp) as HB.
    exists provenance, p. destruct HB as [[Hc1 Hc2] Hlive Hage Hlists Hsnap Hversion]. split_and!; try done; try lia; [congruence|..].
    + rewrite <- Hs, Hsnap. unfold isSha256 in Hid. apply andb_true_iff in Hid as [Hlen Hh]. unfold isBytes32, hexString. simpl.
      apply andb_true_iff. split; [done|]. eapply allChars_mono; [|exact Hh]. apply lowerHex_hex.
    + rewrite <- Hver, Hversion. apply version_width, Hid.
    + rewrite <- Hver, Hversion. by apply version_width.
Qed.

(** C30. A plan is checked again, with its duration written as a number of hours,
    when everything else is prepared: while the cutoff is at most an hour ago and the
    lists are fresh, a plan whose duration survives the division by 3600, in particular
    one of a whole number of quarter hours, is found to be the same plan if it has not
    expired yet and refused as expired if it has; a plan whose duration does not survive
    the division is refused whatever the time. *)
Theorem epoch_plan_recheck (sha256 : string → string) (parseUrl : string → option Url) (freshnessHoursFor : outcome Z)
    (cutoff : Z) (provenance : ListProvenance) (now now' : Z) (hours : option f64) (p : EpochParams) :
  boundedEpochParams sha256 parseUrl freshnessHoursFor cutoff provenance now hours = Ok p →
  (∃ fresh, freshnessHoursFor = Ok fresh ∧ assertProvenance sha256 parseUrl provenance now' (Z.min 24 fresh) = Ok tt) →
  now ≤ now' → now' / 1000 - cutoff ≤ 3600 →
  let plan := freshPlan sha256 parseUrl freshnessHoursFor cutoff provenance now hours now' in
  let n := ep_validUntil p - cutoff in
  (afterHours n = Some n ∨ n mod 900 = 0 → plan = if now' / 1000 <? ep_validUntil p then Ok p else Throw Expired) ∧
  (afterHours n = None → plan = Throw BadHours).
Proof.
  intros Hp Hfresh Hnow Hlag plan n. pose proof (bounded_params _ _ _ _ _ _ _ _ Hp) as [[Hc Hc'] Hlive Hage _ _ _].
  destruct (recheck_spec _ _ _ _ _ _ _ _ _ Hp Hfresh Hnow Hlag) as [H1 H2]. fold n in H1, H2.
  assert (∀ r, boundedEpochParams sha256 parseUrl freshnessHoursFor cutoff provenance now' (hoursOf n) = r →
    plan = match r with Ok _ => Ok p | Throw e => Throw e end) as E.
  { intros r Hr. unfold plan, freshPlan. rewrite Hp. cbn [obind]. rewrite Hc. fold n. rewrite Hr. by destruct r. }
  split; [|intros Hn; by rewrite (E _ (H2 Hn))]. intros Hn. assert (afterHours n = Some n) as Ha.
  { destruct Hn as [|Hm]; [done|]. apply afterHours_quarter; [|done]. pose proof (Z.div_le_mono now now' 1000). unfold n. lia. }
  rewrite (E _ (H1 Ha)). by destruct (_ <? _).
Qed.

(** Approvals that are accepted are those of the envelope, which binds the digest of this
    roster and destination: of one to sixteen different issuers, in ascending order of
    their addresses, as the contract demands, and every issuer that the roster requires is
    among them. *)
Theorem approvals_cover (isAddress : string → bool) (getAddress : string → string) (isHexString : string → bool) (dataLength : string → Z)
    (value : option Envelope) (digest : string) (required : list string) (approvals : list RootApproval) :
  readRootApprovals isAddress getAddress isHexString dataLength value digest required = Ok approvals →
  ∃ v d l read, value = Some v ∧ en_digest v = Some d ∧ toLowerCase d = toLowerCase digest ∧ en_approvals v = Some l
    ∧ Forall2 (λ a r, readApproval isAddress getAddress isHexString dataLength a = Ok r) l read ∧ approvals ≡ₚ read
    ∧ (1 ≤ length approvals ≤ 16)%nat ∧ StronglySorted (λ a b, numberOf a ≤ numberOf b) approvals
    ∧ NoDup (map (λ a, toLowerCase (issuer a)) approvals)
    ∧ ∀ i, i ∈ required → ∃ a, a ∈ approvals ∧ toLowerCase (issuer a) = toLowerCase i.
Proof.
  destruct value as [v|]; [|done]. unfold readRootApprovals. destruct (en_digest v) as [d|] eqn:Hd; [|done]. destruct (en_approvals v) as [l|] eqn:Hl; [|done].
  intros (u1 & H1%orequire_ok & (read & Hr%omap_out_Forall2 & H2)%obind_ok)%obind_ok. cbv zeta in H2. apply obind_ok in H2 as (u2 & H2%orequire_ok & [= <-]).
  rewrite !andb_true_iff, negb_true_iff, bool_decide_eq_false, Z.leb_le in H1. destruct H1 as [[[_ Hsame] Hne] Hlen]. apply String.eqb_eq in Hsame.
  apply andb_true_iff in H2 as [Hnd%bool_decide_eq_true Hcov]. exists v, d, l, read. pose proof (sort_by_perm (λ a b, numberOf a <=? numberOf b) read) as Hperm.
  split_and!; try done.
  - rewrite Hperm. apply Forall2_length in Hr. rewrite <- Hr. destruct l; [done|]. cbn. lia.
  - rewrite Hperm. apply Forall2_length in Hr. rewrite <- Hr. lia.
  - assert (∀ x y z, (numberOf x <=? numberOf y) = true → (numberOf y <=? numberOf z) = true → (numberOf x <=? numberOf z) = true) as Ht by (intros x y z; rewrite !Z.leb_le; lia).
    assert (∀ x y, (numberOf x <=? numberOf y) = true ∨ (numberOf y <=? numberOf x) = true) as Htot by (intros x y; rewrite !Z.leb_le; lia).
    pose proof (sort_by_sorted (λ a b, numberOf a <=? numberOf b) Htot Ht read) as HS. clear -HS.
    induction HS as [|a m _ IH HF]; constructor; [done|]. eapply Forall_impl; [exact HF|]. intros b Hb%Is_true_eq_true. lia.
  - intros i Hi. rewrite forallb_forall in Hcov. apply list_elem_of_In, Hcov, bool_decide_eq_true, list_elem_of_fmap in Hi as (a & Ha & Hin). by exists a.
Qed.
End EpochProofs.

(** * A plan whose validity the lists bound *)

Module EpochExample.
Import Params Authorization Plan EpochProofs EngineExample.

(** The lists were checked nearly six hours ago, and end the validity 65534 seconds after the cutoff. *)
Definition exCutoff : Z := 1789883266.
Definition exNow : Z := 1789883326000.
Definition exHours : option f64 := Some (fofZ 24).
Definition exPlan : EpochParams := mkParams exCutoff ("0x" +:+ pv_snapshotId exProvenance) (hexFrom 0 (Kr.slice 0 8 (pv_snapshotId exProvenance)))
  1789948800 (fdiv (fofZ 65534) (fofZ 86400)).
Lemma exPlan_ok : boundedEpochParams exSha exParse (Ok 24) exCutoff exProvenance exNow exHours = Ok exPlan.
Proof. by vm_compute. Qed.
Lemma exPlan_fresh : ∃ fresh, Ok 24 = Ok fresh ∧ assertProvenance exSha exParse exProvenance exNow (Z.min 24 fresh) = Ok tt.
Proof. exists 24. split; [done|by vm_compute]. Qed.
Lemma exPlan_lost : afterHours (ep_validUntil exPlan - exCutoff) = None.
Proof. by vm_compute. Qed.

(** A plan of a quarter of an hour is found again ten minutes after the cutoff, and has expired after sixteen. *)
Definition exQuarter : option f64 := Some (fdiv (fofZ 1) (fofZ 4)).
Definition exQuarterPlan : EpochParams := mkParams exCutoff ("0x" +:+ pv_snapshotId exProvenance)
  (hexFrom 0 (Kr.slice 0 8 (pv_snapshotId exProvenance))) (exCutoff + 900) (fdiv (fofZ 900) (fofZ 86400)).
Definition exLater (minutes : Z) : Z := (exCutoff + 60 * minutes) * 1000.
Lemma exQuarter_ok : boundedEpochParams exSha exParse (Ok 24) exCutoff exProvenance (exLater 5) exQuarter = Ok exQuarterPlan.
Proof. by vm_compute. Qed.
Lemma exQuarter_fresh minutes : minutes ∈ [10; 16] → ∃ fresh, Ok 24 = Ok fresh ∧ assertProvenance exSha exParse exProvenance (exLater minutes) (Z.min 24 fresh) = Ok tt.
Proof. intros H. exists 24. split; [done|]. in_cases H; by vm_compute. Qed.

(** The long plan is made and refused in the same moment. *)
Lemma epoch_plan_recheck_witness :
  freshPlan exSha exParse (Ok 24) exCutoff exProvenance exNow exHours exNow = Throw BadHours ∧
  freshPlan exSha exParse (Ok 24) exCutoff exProvenance (exLater 5) exQuarter (exLater 10) = Ok exQuarterPlan ∧
  freshPlan exSha exParse (Ok 24) exCutoff exProvenance (exLater 5) exQuarter (exLater 16) = Throw Expired.
Proof.
  split_and!.
  - exact (proj2 (epoch_plan_recheck exSha exParse (Ok 24) exCutoff exProvenance exNow exNow exHours exPlan exPlan_ok exPlan_fresh
      ltac:(done) ltac:(by vm_compute)) exPlan_lost).
  - exact (proj1 (epoch_plan_recheck exSha exParse (Ok 24) exCutoff exProvenance (exLater 5) (exLater 10) exQuarter exQuarterPlan exQuarter_ok
      (exQuarter_fresh 10 ltac:(by left)) ltac:(by vm_compute) ltac:(by vm_compute)) (or_intror eq_refl)).
  - exact (proj1 (epoch_plan_recheck exSha exParse (Ok 24) exCutoff exProvenance (exLater 5) (exLater 16) exQuarter exQuarterPlan exQuarter_ok
      (exQuarter_fresh 16 ltac:(by right; left)) ltac:(by vm_compute) ltac:(by vm_compute)) (or_intror eq_refl)).
Defined.

Definition exCall : Call := mkCall "publishEpochForIssuers" "0x01" (hexFrom 0 (Kr.slice 0 8 (pv_snapshotId exProvenance))) 1789948800 1789883100
  ("0x" +:+ pv_snapshotId exProvenance) ["0xAB"].
Definition exRoster : Roster := mkRoster "0x01" ["0xaB"] "" 0.
Lemma exSha_ok s : isSha256 (exSha s) = true.
Proof. unfold isSha256, exSha. by rewrite Roster.hexDigits_length, RosterProofs.hexDigits_chars. Qed.
Lemma publication_guard_sound_witness : k_validUntil exCall < 2 ^ 40 ∧ "0xab" ∈ ["0xab"].
Proof.
  destruct (publication_guard_sound exSha exParse (Ok 24) "" exCall exRoster (Ok exProvenance) 1789883160000 exSha_ok ltac:(by vm_compute)) as (_ & H & p & pl & _ & _ & _ & _ & _ & _ & _ & Hv).
  split; [exact Hv|]. exact (H "0xaB" ltac:(by left)).
Defined.

Definition exIsAddress (s : string) : bool := (String.length s =? 4)%nat.
Definition exEnvelope : Envelope := mkEnvelope 1 (Some "0xD1") (Some [Some (Some "0xb2", Some "0x01"); Some (Some "0xa1", Some "0x02")]).
Lemma approvals_cover_witness : ∃ a, a ∈ [mkApproval "0xa1" "0x02"; mkApproval "0xb2" "0x01"] ∧ toLowerCase (issuer a) = "0xb2".
Proof.
  destruct (approvals_cover exIsAddress (λ s, s) (λ _, true) (λ _, 1) (Some exEnvelope) "0xd1" ["0xB2"] _ ltac:(by vm_compute))
    as (v & d & l & read & _ & _ & _ & _ & _ & _ & _ & _ & _ & H). exact (H "0xB2" ltac:(by left)).
Defined.
End EpochExample.
