(* ===== verification/WalletSession.v ===== *)
(** The session of a browser wallet ([src/pipeline/wallet-session.ts]) as a state machine: the page's calls, the
    wallet's notifications, its answers to requests, timers and expiry come in any order.  Providers are identities,
    an answer of a provider or of the clock is one of the readings to come, and the monotonic clock counts in
    ticks.  What the page does when it is notified is not part of the model: the reasons are recorded. *)

From Stdlib Require Import ZArith Lia Ascii String List.
From stdpp Require Import base decidable option list strings.
From S2P Require Import Prelude JS.
Local Open Scope string_scope.
Local Open Scope list_scope.
Local Open Scope Z_scope.
Local Open Scope js_scope.

Module WalletSession.

(** What a provider answers: an array, with [None] for what is not a string, or something else. *)
Inductive Value := VArray (l : list (option string)) | VOther (s : string).
(** A reading of both clocks; [None] where it is not finite. *)
Record Clock := mkClock { wall : option Z; monotonic : option Z }.
Record Deadline := mkDeadline { d_wall : Z; d_monotonic : Z; startWall : Z; startMonotonic : Z }.
Inductive Method := eth_accounts | eth_requestAccounts | personal_sign.

(** One call of [request]: its promise is settled when [q_outcome] is there. *)
Record Request := mkRequest {
  q_revision : Z; q_provider : nat; q_started : Clock; q_timeout : Z; q_asked : bool; q_outcome : option (outcome Value) }.

Record St := mkSt {
  revision : Z; deadline : option Deadline; pending : list nat; provider : option nat; address : option string;
  observed : option (option string);   (* undefined, null or an account *)
  listening : option (nat * Z); requests : list Request; notices : list string;
  clocks : list Clock; currents : list (option nat) }.   (* the readings to come *)

Definition set_deadline d s := mkSt (revision s) d (pending s) (provider s) (address s) (observed s) (listening s) (requests s) (notices s) (clocks s) (currents s).
Definition set_address a s := mkSt (revision s) (deadline s) (pending s) (provider s) a (observed s) (listening s) (requests s) (notices s) (clocks s) (currents s).
Definition set_observed o s := mkSt (revision s) (deadline s) (pending s) (provider s) (address s) o (listening s) (requests s) (notices s) (clocks s) (currents s).
Definition set_requests p r s := mkSt (revision s) (deadline s) p (provider s) (address s) (observed s) (listening s) r (notices s) (clocks s) (currents s).
Definition set_session p l s := mkSt (revision s) (deadline s) (pending s) p None None l (requests s) (notices s) (clocks s) (currents s).
Definition set_notices n s := mkSt (revision s) (deadline s) (pending s) (provider s) (address s) (observed s) (listening s) (requests s) n (clocks s) (currents s).
Definition set_readings c p s := mkSt (revision s) (deadline s) (pending s) (provider s) (address s) (observed s) (listening s) (requests s) (notices s) c p.

Definition WalletSessionChanged : exn := EClass "WalletSessionChanged" "Wallet session changed. Reconnect and sign again.".
Definition first (value : Value) : option string :=
  match value with
  | VArray (Some a :: _) => if isAddress20 a then Some (toLowerCase a) else None
  | _ => None
  end.

(** Comparisons of numbers that may be missing. *)
Definition oltb (a b : option Z) : bool := match a, b with Some a, Some b => a <? b | _, _ => false end.
Definition elapsed (now start : option Z) (limit : Z) : bool := match now, start with Some a, Some b => limit <=? a - b | _, _ => false end.
Definition finite (a : option Z) : bool := match a with Some _ => true | None => false end.
Definition safeWall (a : option Z) : bool := match a with Some z => isSafeInteger z | None => false end.

Section session.
(** Ticks of the monotonic clock in a millisecond, and the limits of requests. *)
Context (ticks : Z) (accountTimeout promptTimeout : Z).

Definition clock : M St Clock :=
  let! s := getS in
  match clocks s with
  | c :: rest => putS (set_readings rest (currents s) s) ;;; ret c
  | [] => ret (mkClock None None)
  end.
Definition getCurrent : M St (option nat) :=
  let! s := getS in
  match currents s with
  | p :: rest => putS (set_readings (clocks s) rest s) ;;; ret p
  | [] => ret None
  end.

(** [finish]: a promise is settled once. *)
Definition settle (id : nat) (result : outcome Value) (s : St) : St :=
  match requests s !! id with
  | Some q =>
      match q_outcome q with
      | None => set_requests (filter (λ i, i ≠ id) (pending s))
                  (<[id := mkRequest (q_revision q) (q_provider q) (q_started q) (q_timeout q) (q_asked q) (Some result)]> (requests s)) s
      | Some _ => s
      end
  | None => s
  end.
Definition finish (id : nat) (result : outcome Value) : M St unit := modify (settle id result).
Definition cancel (id : nat) : M St unit := finish id (Throw WalletSessionChanged).

Definition dispose : M St unit :=
  modify (λ s, mkSt (revision s + 1) None (pending s) (provider s) (address s) (observed s) (listening s) (requests s) (notices s) (clocks s) (currents s)) ;;;
  let! s := getS in
  forM (pending s) cancel ;;;
  modify (set_session None None).
Definition invalidate (reason : string) : M St unit :=
  dispose ;;; modify (λ s, set_notices (notices s ++ [reason]) s).

Definition expireIfNeeded : M St bool :=
  let! s := getS in
  match deadline s with
  | None => ret false
  | Some d =>
      let! now := clock in
      if negb (safeWall (wall now)) || negb (finite (monotonic now)) || oltb (wall now) (Some (startWall d)) || oltb (monotonic now) (Some (startMonotonic d))
         || negb (oltb (wall now) (Some (d_wall d))) || negb (oltb (monotonic now) (Some (d_monotonic d)))
      then invalidate "expired" ;;; ret true
      else ret false
  end.
Definition assertCurrent (rev : Z) : M St unit :=
  let! s := getS in
  if negb (rev =? revision s) then throw WalletSessionChanged
  else let! expired := expireIfNeeded in require (negb expired) WalletSessionChanged.

Definition clearAuthorization : M St unit := modify (set_deadline None).
(** [timing] of the server, and the reading of the clock before the request to it. *)
Definition authorize (rev serverTime walletExpiresAt : Z) (started : Clock) : M St unit :=
  assertCurrent rev ;;;
  let remaining := walletExpiresAt - serverTime in
  match wall started, monotonic started with
  | Some w, Some m =>
      if negb (isSafeInteger serverTime) || (serverTime <=? 0) || negb (isSafeInteger walletExpiresAt) || (8640000000000000 <? walletExpiresAt)
         || (remaining <=? 0) || (30 * 60000 <? remaining) || negb (isSafeInteger w) || (w <=? 0) || (m <? 0) || negb (isSafeInteger (w + remaining))
      then invalidate "invalid expiry" ;;; throw WalletSessionChanged
      else modify (set_deadline (Some (mkDeadline (w + remaining) (m + remaining * ticks) w m))) ;;; assertCurrent rev
  | _, _ => invalidate "invalid expiry" ;;; throw WalletSessionChanged
  end.

(** [events]: whether the provider has [on] and [removeListener]; [subscribed]: whether [on] did not throw. *)
Definition attach (p : nat) (events subscribed : bool) : M St unit :=
  dispose ;;;
  require events (EError "This wallet does not support account-change notifications. Use an event-capable injected wallet.") ;;;
  let! s := getS in
  putS (set_session (Some p) (Some (p, revision s)) s) ;;;
  if subscribed then ret tt
  else dispose ;;; throw (EError "Wallet event subscription failed. Reconnect with a supported wallet.").

(** The listeners, of the revision and the provider at which they were attached. *)
Definition isSession (rev : Z) (p : nat) (s : St) : bool := (revision s =? rev) && bool_decide (provider s = Some p).
Definition invalidateSession (rev : Z) (p : nat) (reason : string) : M St unit :=
  let! s := getS in when (isSession rev p s) (invalidate reason).
Definition accountsChanged (rev : Z) (p : nat) (value : Value) : M St unit :=
  let! s := getS in
  when (isSession rev p s) (
    modify (set_observed (Some (first value))) ;;;
    let! s := getS in
    match first value with
    | None => invalidateSession rev p "account changed"
    | Some a => when (match address s with Some b => negb (String.eqb b a) | None => false end) (invalidateSession rev p "account changed")
    end).

Definition bind_ (rev : Z) (accounts : Value) : M St string :=
  assertCurrent rev ;;;
  let! s := getS in
  match first accounts with
  | Some a =>
      if match observed s with None => true | Some o => bool_decide (o = Some a) end
      then modify (set_address (Some a)) ;;; ret a
      else invalidate "account changed while connecting" ;;; throw WalletSessionChanged
  | None => invalidate "account changed while connecting" ;;; throw WalletSessionChanged
  end.

Definition timeoutOf (m : Method) : Z := match m with eth_accounts => accountTimeout | _ => promptTimeout end.
Definition request (rev : Z) (method : Method) : M St nat :=
  assertCurrent rev ;;;
  let! s := getS in
  match provider s with
  | Some p =>
      let! current := getCurrent in
      if negb (bool_decide (current = Some p)) then invalidate "provider changed" ;;; throw WalletSessionChanged
      else
        let timeoutMs := timeoutOf method in
        require (isSafeInteger timeoutMs && (1 <=? timeoutMs) && (timeoutMs <=? 120000)) (EError "Invalid wallet request limits.") ;;;
        let! started := clock in
        let! s := getS in
        let id := length (requests s) in
        putS (set_requests (pending s ++ [id]) (requests s ++ [mkRequest rev p started timeoutMs false None]) s) ;;;
        ret id
  | None => invalidate "provider changed" ;;; throw WalletSessionChanged
  end.

Definition late (q : Request) : M St bool :=
  let! now := clock in
  ret (negb (finite (wall now)) || negb (finite (monotonic now)) || oltb (wall now) (wall (q_started q)) || oltb (monotonic now) (monotonic (q_started q))
       || elapsed (wall now) (wall (q_started q)) (q_timeout q) || elapsed (monotonic now) (monotonic (q_started q)) (q_timeout q * ticks)).

(** The promise of the wallet is rejected, or an error was thrown before it was asked. *)
Definition rejected (id : nat) : M St unit :=
  let! s := getS in
  match requests s !! id with
  | Some q =>
      match q_outcome q with
      | None => when (q_revision q =? revision s) (invalidate "declined") ;;; cancel id
      | Some _ => ret tt
      end
  | None => ret tt
  end.
(** The first reaction of a request: the wallet is asked. *)
Definition ask (id : nat) : M St unit :=
  let! s := getS in
  match requests s !! id with
  | Some q =>
      if q_asked q then ret tt
      else tryCatch (
        assertCurrent (q_revision q) ;;;
        let! isLate := late q in
        (if isLate then invalidate "timeout" ;;; throw WalletSessionChanged else ret tt) ;;;
        let! current := getCurrent in
        require (bool_decide (current = Some (q_provider q))) WalletSessionChanged ;;;
        modify (λ s, set_requests (pending s) (alter (λ q, mkRequest (q_revision q) (q_provider q) (q_started q) (q_timeout q) true (q_outcome q)) id (requests s)) s))
        (λ _, rejected id)
  | None => ret tt
  end.
(** The wallet's answer. *)
Definition answered_ (id : nat) (value : Value) : M St unit :=
  let! s := getS in
  match requests s !! id with
  | Some q =>
      match q_outcome q with
      | Some _ => ret tt
      | None =>
          if negb (q_asked q) then ret tt
          else tryCatch (
            let! isLate := late q in
            if isLate then invalidate "timeout"
            else
              assertCurrent (q_revision q) ;;;
              let! current := getCurrent in
              if bool_decide (current = Some (q_provider q)) then finish id (Ok value)
              else invalidate "provider changed" ;;; throw WalletSessionChanged)
            (λ _, let! s := getS in when (q_revision q =? revision s) (invalidate "unconfirmed") ;;; cancel id)
      end
  | None => ret tt
  end.
(** The timer of a request that is not settled. *)
Definition timer (id : nat) : M St unit :=
  let! s := getS in
  match requests s !! id with
  | Some q => match q_outcome q with None => invalidate "timeout" | Some _ => ret tt end
  | None => ret tt
  end.

(** [check] until it waits for the wallet, and after that. *)
Definition checkStart (rev : Z) : M St (option nat) :=
  assertCurrent rev ;;;
  let! s := getS in
  let changed := invalidate "provider changed" ;;; throw WalletSessionChanged in
  match provider s with
  | None => changed
  | Some p =>
      let! current := getCurrent in
      if bool_decide (current = Some p) then
        match address s with
        | None => ret None
        | Some _ =>
            let! id := tryCatch (request rev eth_accounts) (λ _, assertCurrent rev ;;; invalidate "unavailable" ;;; throw WalletSessionChanged) in
            ret (Some id)
        end
      else changed
  end.
Definition checkEnd (rev : Z) (accounts : outcome Value) : M St unit :=
  match accounts with
  | Throw _ => assertCurrent rev ;;; invalidate "unavailable" ;;; throw WalletSessionChanged
  | Ok value =>
      assertCurrent rev ;;;
      let! s := getS in
      let! current := getCurrent in
      if match current with Some p => bool_decide (provider s = Some p) | None => false end && bool_decide (first value = address s) then ret tt
      else invalidate "account changed" ;;; throw WalletSessionChanged
  end.

(** Everything that can happen, in any order; the page may use any revision. *)
Inductive Op :=
  | OAuthorize (rev serverTime walletExpiresAt : Z) (started : Clock) | OClear | OExpire
  | OAttach (p : nat) (events subscribed : bool) | OBind (rev : Z) (accounts : Value) | ORequest (rev : Z) (m : Method)
  | OAsk (id : nat) | OAnswered (id : nat) (value : Value) | ORejected (id : nat) | OTimer (id : nat)
  | OAccounts (rev : Z) (p : nat) (value : Value) | OInvalidateSession (rev : Z) (p : nat) (reason : string)   (* chainChanged and disconnect *)
  | OCheckStart (rev : Z) | OCheckEnd (rev : Z) (accounts : outcome Value) | OInvalidate (reason : string) | ODispose
  | OReadings (c : list Clock) (p : list (option nat)).
Definition run (op : Op) : M St unit :=
  match op with
  | OAuthorize rev a b c => authorize rev a b c
  | OClear => clearAuthorization
  | OExpire => expireIfNeeded ;;; ret tt
  | OAttach p e b => attach p e b
  | OBind rev v => bind_ rev v ;;; ret tt
  | ORequest rev m => request rev m ;;; ret tt
  | OAsk id => ask id
  | OAnswered id v => answered_ id v
  | ORejected id => rejected id
  | OTimer id => timer id
  | OAccounts rev p v => accountsChanged rev p v
  | OInvalidateSession rev p r => invalidateSession rev p r
  | OCheckStart rev => checkStart rev ;;; ret tt
  | OCheckEnd rev v => checkEnd rev v
  | OInvalidate r => invalidate r
  | ODispose => dispose
  | OReadings c p => modify (set_readings c p)
  end.
Definition init : St := mkSt 0 None [] None None None None [] [] [] [].
Inductive reachable : St → Prop :=
  | reach_init : reachable init
  | reach_step s op : reachable s → reachable (run op s).2.

(** ** What every operation keeps *)

(** A request that is not settled is one of the session. *)
Definition Open (s : St) : Prop := ∀ id q, requests s !! id = Some q → q_outcome q = None →
  q_revision q = revision s ∧ provider s = Some (q_provider q) ∧ id ∈ pending s.
Record Inv (s : St) : Prop := {
  i_open : Open s;
  i_account a : address s = Some a → observed s = None ∨ observed s = Some (Some a);
  i_listening p r : listening s = Some (p, r) → provider s = Some p ∧ r = revision s;
  i_deadline d : deadline s = Some d → 0 < d_wall d - startWall d ≤ 30 * 60000 }.

(** The request that an operation delivers to, or asks the wallet for. *)
Definition Quiet (q q' : Request) : Prop :=
  q_revision q' = q_revision q ∧ q_provider q' = q_provider q ∧ q_started q' = q_started q ∧ q_timeout q' = q_timeout q
  ∧ q_asked q' = q_asked q ∧ (q_outcome q' = q_outcome q ∨ q_outcome q = None ∧ q_outcome q' = Some (Throw WalletSessionChanged)).
(** Requests are only cancelled; the revision never goes back. *)
Record Evolves (s s' : St) : Prop := {
  ev_revision : revision s ≤ revision s';
  ev_requests id q : requests s !! id = Some q → ∃ q', requests s' !! id = Some q' ∧ Quiet q q' }.

Lemma Quiet_refl q : Quiet q q.
Proof. repeat split; auto. Qed.
Lemma Quiet_trans q1 q2 q3 : Quiet q1 q2 → Quiet q2 q3 → Quiet q1 q3.
Proof.
  intros (A1 & A2 & A3 & A4 & A5 & A6) (B1 & B2 & B3 & B4 & B5 & B6). unfold Quiet. split_and!; try congruence.
  destruct A6 as [A6|[A6 A7]], B6 as [B6|[B6 B7]]; [left; congruence|right; split; congruence|right; split; congruence|congruence].
Qed.
#[local] Instance Evolves_preorder : PreOrder Evolves.
Proof.
  split; [intros s; split; [lia|]; intros id q H; exists q; by split; [|apply Quiet_refl]|].
  intros s1 s2 s3 [A1 A2] [B1 B2]. split; [lia|].
  intros id q H. destruct (A2 id q H) as (q2 & H2 & Q2). destruct (B2 id q2 H2) as (q3 & H3 & Q3). exists q3. split; [done|by eapply Quiet_trans].
Qed.

(** Only readings are consumed. *)
Definition Read (s s' : St) : Prop := s' = set_readings (clocks s') (currents s') s.
Lemma Read_fields s s' : Read s s' → revision s' = revision s ∧ deadline s' = deadline s ∧ pending s' = pending s ∧ provider s' = provider s
  ∧ address s' = address s ∧ observed s' = observed s ∧ listening s' = listening s ∧ requests s' = requests s.
Proof. intros H. rewrite H. done. Qed.
Lemma Inv_fields s s' : revision s' = revision s ∧ deadline s' = deadline s ∧ pending s' = pending s ∧ provider s' = provider s
  ∧ address s' = address s ∧ observed s' = observed s ∧ listening s' = listening s ∧ requests s' = requests s → Inv s → Inv s' ∧ Evolves s s'.
Proof.
  intros (E1 & E2 & E3 & E4 & E5 & E6 & E7 & E8) [H1 H2 H3 H4]. split.
  - split; [intros id q|intros a|intros p r|intros d]; rewrite ?E1, ?E2, ?E3, ?E4, ?E5, ?E6, ?E7, ?E8; eauto.
  - split; [lia|]. intros id q H. exists q. rewrite E8. split; [done|apply Quiet_refl].
Qed.

(** The state of a session that is over. *)
Record Over (s s' : St) : Prop := {
  ov_inv : Inv s';
  ov_evolves : Evolves s s';
  ov_revision : revision s' = revision s + 1;
  ov_provider : provider s' = None;
  ov_settled id q : requests s' !! id = Some q → q_outcome q ≠ None }.

Definition cancelAll (l : list nat) (s : St) : St := fold_left (λ s id, settle id (Throw WalletSessionChanged) s) l s.
Lemma forM_cancel l s : forM l cancel s = (Ok tt, cancelAll l s).
Proof. revert s. induction l as [|id l IH]; intros s; [done|]. apply IH. Qed.

Lemma settle_requests id r s j q : requests (settle id r s) !! j = Some q ↔
  ∃ q0, requests s !! j = Some q0 ∧ q = (if bool_decide (j = id ∧ q_outcome q0 = None)
    then mkRequest (q_revision q0) (q_provider q0) (q_started q0) (q_timeout q0) (q_asked q0) (Some r) else q0).
Proof.
  unfold settle. destruct (requests s !! id) as [qi|] eqn:Hi.
  - destruct (q_outcome qi) as [o|] eqn:Ho; cbn [requests set_requests].
    + split; [intros H; exists q; split; [done|]; rewrite bool_decide_eq_false_2; [done|intros [-> ?]; congruence]|].
      intros (q0 & H & ->). rewrite bool_decide_eq_false_2; [done|intros [-> ?]; congruence].
    + destruct (decide (j = id)) as [->|Hne].
      * rewrite list_lookup_insert_eq by (by eapply lookup_lt_Some). split.
        -- intros [= <-]. exists qi. split; [done|]. by rewrite bool_decide_eq_true_2.
        -- intros (q0 & H & ->). assert (q0 = qi) as -> by congruence. by rewrite bool_decide_eq_true_2.
      * rewrite list_lookup_insert_ne by done. split; [intros H; exists q; split; [done|]; by rewrite bool_decide_eq_false_2 by tauto|].
        intros (q0 & H & ->). by rewrite bool_decide_eq_false_2 by tauto.
  - split; [intros H; exists q; split; [done|]; rewrite bool_decide_eq_false_2; [done|intros [-> _]; congruence]|].
    intros (q0 & H & ->). rewrite bool_decide_eq_false_2; [done|intros [-> _]; congruence].
Qed.
Lemma settle_fields id r s : revision (settle id r s) = revision s ∧ deadline (settle id r s) = deadline s ∧ provider (settle id r s) = provider s
  ∧ address (settle id r s) = address s ∧ observed (settle id r s) = observed s ∧ listening (settle id r s) = listening s
  ∧ clocks (settle id r s) = clocks s ∧ currents (settle id r s) = currents s.
Proof. unfold settle. destruct (requests s !! id) as [q|]; [|done]. by destruct (q_outcome q). Qed.
Lemma settle_evolves id s : Evolves s (settle id (Throw WalletSessionChanged) s).
Proof.
  destruct (settle_fields id (Throw WalletSessionChanged) s) as (E1 & _). split; [lia|].
  intros j q H. eexists. split; [apply settle_requests; by exists q|]. case_bool_decide as Hc; [|apply Quiet_refl].
  unfold Quiet. cbn. destruct Hc as [-> Hc]. by repeat split; auto.
Qed.
Lemma settle_pending id r s j : j ∈ pending s → j ∈ pending (settle id r s) ∨ j = id.
Proof.
  intros H. unfold settle. destruct (requests s !! id) as [q|]; [|by left]. destruct (q_outcome q); [by left|]. cbn.
  destruct (decide (j = id)) as [->|]; [by right|left]. by apply list_elem_of_filter.
Qed.
Lemma settle_keeps id r s : Inv s → Inv (settle id r s).
Proof.
  intros [H1 H2 H3 H4]. destruct (settle_fields id r s) as (E1 & E2 & E3 & E4 & E5 & E6 & _). split; rewrite ?E1, ?E2, ?E3, ?E4, ?E5, ?E6; auto.
  intros j q (q0 & Hq & ->)%settle_requests. case_bool_decide as Hc; [done|]. intros Ho. destruct (H1 j q0 Hq Ho) as (A & B & C). rewrite E1, E3. split_and!; try done.
  destruct (settle_pending id r s j C) as [?| ->]; [done|tauto].
Qed.

Lemma cancelAll_spec l : ∀ s, Evolves s (cancelAll l s) ∧ (Inv s → Inv (cancelAll l s)) ∧ revision (cancelAll l s) = revision s
  ∧ deadline (cancelAll l s) = deadline s
  ∧ (∀ id q, requests (cancelAll l s) !! id = Some q → q_outcome q = None → (id ∉ l) ∧ ∃ q0, requests s !! id = Some q0 ∧ q_outcome q0 = None).
Proof.
  induction l as [|x l IH]; intros s; cbn [cancelAll fold_left].
  - split_and!; try done. intros id q H Ho. split; [apply not_elem_of_nil|by exists q].
  - destruct (IH (settle x (Throw WalletSessionChanged) s)) as (A & B & C & C' & D). split_and!.
    + etransitivity; [apply settle_evolves|exact A]. + intros HI. by apply B, settle_keeps.
    + unfold cancelAll in C. rewrite C. apply settle_fields. + unfold cancelAll in C'. rewrite C'. apply settle_fields.
    + intros id q H Ho. destruct (D id q H Ho) as [Hl (q0 & Hq & Hn)]. apply settle_requests in Hq as (q1 & Hq1 & ->).
      case_bool_decide as Hc; [done|]. split; [|by exists q1]. apply not_elem_of_cons. split; [|done]. intros ->. tauto.
Qed.

Lemma dispose_open s : Open s → wp dispose (λ o s', o = Ok tt ∧ Over s s') s.
Proof.
  intros H1. unfold dispose. apply wp_bind, wp_modify, wp_bind, wp_getS. cbn [pending].
  set (b := mkSt _ _ _ _ _ _ _ _ _ _ _). apply wp_bind. unfold wp at 1. rewrite forM_cancel. cbn [fst snd]. apply wp_modify. split; [done|].
  destruct (cancelAll_spec (pending s) b) as (EV & _ & Er & Ed & Ho). set (c := cancelAll (pending s) b) in *.
  assert (∀ id q, requests c !! id = Some q → q_outcome q ≠ None) as Hall.
  { intros id q Hq Hn. destruct (Ho id q Hq Hn) as [Hni (q0 & Hq0 & Hn0)]. by destruct (H1 id q0 Hq0 Hn0) as (_ & _ & ?). }
  split; [split| |cbn; rewrite Er; done|done|done].
  - intros id q Hq Hn. by destruct (Hall id q Hq). - done. - done. - intros d Hd. cbn in Hd. by rewrite Ed in Hd.
  - split; [cbn; rewrite Er; cbn; lia|apply EV].
Qed.

Lemma dispose_spec s : Inv s → wp dispose (λ o s', o = Ok tt ∧ Over s s') s.
Proof. intros HI. by apply dispose_open, i_open. Qed.

(** Operations after which the state is in order and no request was answered or asked. *)
Definition Fine {A} (m : M St A) : Prop := ∀ s, Inv s → wp m (λ _ s', Inv s' ∧ Evolves s s') s.
Lemma Fine_bind {A B} (m : M St A) (k : A → M St B) : Fine m → (∀ a, Fine (k a)) → Fine (bind m k).
Proof.
  intros Hm Hk s HI. apply wp_bind. eapply wp_mono; [by apply Hm|]. intros [a|e] s1 [I1 E1]; [|done].
  eapply wp_mono; [by apply Hk|]. intros o s2 [I2 E2]. split; [done|by etransitivity].
Qed.
Lemma Fine_out {A} (o : outcome A) : Fine (λ s, (o, s)).
Proof. intros s HI. by split. Qed.
Lemma Fine_try {A} (m : M St A) h : Fine m → (∀ e, Fine (h e)) → Fine (tryCatch m h).
Proof.
  intros Hm Hh s HI. apply wp_tryCatch. eapply wp_mono; [by apply Hm|]. intros [a|e] s1 [I1 E1]; [done|].
  eapply wp_mono; [by apply Hh|]. intros o s2 [I2 E2]. split; [done|by etransitivity].
Qed.
Lemma Fine_get {A} (k : St → M St A) : (∀ s, Inv s → wp (k s) (λ _ s', Inv s' ∧ Evolves s s') s) → Fine (bind getS k).
Proof. intros H s HI. apply wp_bind, wp_getS. by apply H. Qed.
Lemma Fine_fields {A} (m : M St A) : (∀ s, let s' := (m s).2 in revision s' = revision s ∧ deadline s' = deadline s ∧ pending s' = pending s ∧ provider s' = provider s
  ∧ address s' = address s ∧ observed s' = observed s ∧ listening s' = listening s ∧ requests s' = requests s) → Fine m.
Proof. intros H s HI. unfold wp. by apply Inv_fields. Qed.
Lemma Fine_dispose : Fine dispose.
Proof. intros s HI. eapply wp_mono; [by apply dispose_spec|]. by intros o s' [_ []]. Qed.
Lemma Fine_invalidate r : Fine (invalidate r).
Proof. apply Fine_bind; [apply Fine_dispose|]. intros _. by apply Fine_fields. Qed.
Lemma Fine_clock : Fine clock.
Proof. apply Fine_fields. intros s. unfold clock, bind, getS. by destruct (clocks s). Qed.
Lemma Fine_getCurrent : Fine getCurrent.
Proof. apply Fine_fields. intros s. unfold getCurrent, bind, getS. by destruct (currents s). Qed.
Lemma Fine_cancel id : Fine (cancel id).
Proof. intros s HI. apply wp_modify. split; [by apply settle_keeps|apply settle_evolves]. Qed.

Lemma Fine_require b e : Fine (require b e).
Proof. destruct b; apply Fine_out. Qed.
Lemma Fine_when b m : Fine m → Fine (when b m).
Proof. destruct b; [done|]. intros _. apply Fine_out. Qed.
Lemma Fine_at {A} (m : M St A) s : Fine m → Inv s → wp m (λ _ s', Inv s' ∧ Evolves s s') s.
Proof. auto. Qed.
Ltac fine :=
  repeat (cbv beta iota;
    match goal with
    | |- wp _ (λ _ s', Inv s' ∧ Evolves ?s s') ?s => apply Fine_at; [|assumption]
    | |- Fine (bind getS _) => apply Fine_get; intros ? ?
    | |- Fine (bind _ _) => apply Fine_bind; [|intros ?]
    | |- Fine (tryCatch _ _) => apply Fine_try; [|intros ?]
    | |- Fine dispose => apply Fine_dispose
    | |- Fine (invalidate _) => apply Fine_invalidate
    | |- Fine clock => apply Fine_clock
    | |- Fine getCurrent => apply Fine_getCurrent
    | |- Fine (cancel _) => apply Fine_cancel
    | H : Fine ?m |- Fine ?m => exact H
    | |- Fine (ret _) => apply Fine_out
    | |- Fine (throw _) => apply Fine_out
    | |- Fine (require _ _) => apply Fine_require
    | |- Fine (when _ _) => apply Fine_when
    | |- Fine (if ?b then _ else _) => destruct b eqn:?
    | |- Fine (match ?o with _ => _ end) => destruct o
    end).

Lemma Fine_expire : Fine expireIfNeeded.
Proof. unfold expireIfNeeded. fine. Qed.
Lemma Fine_assert rev : Fine (assertCurrent rev).
Proof. unfold assertCurrent. fine. apply Fine_expire. Qed.
Ltac fine_go := fine; try (match goal with
  | |- Fine (assertCurrent _) => apply Fine_assert
  | |- Fine expireIfNeeded => apply Fine_expire
  | |- Fine (late _) => unfold late
  | |- Fine (invalidateSession _ _ _) => unfold invalidateSession
  | |- Fine (rejected _) => unfold rejected
  end; fine_go).

(** An operation that changes the state after fine ones. *)
Lemma Fine_then {A B} (m : M St A) (k : A → M St B) s (Q : outcome B → St → Prop) : Fine m → Inv s →
  (∀ e s', Inv s' → Evolves s s' → Q (Throw e) s') → (∀ a s', Inv s' → Evolves s s' → wp (k a) Q s') → wp (bind m k) Q s.
Proof. intros Hm HI Hth Hok. apply wp_bind. eapply wp_mono; [by apply Hm|]. intros [a|e] s' [I E]; auto. Qed.

Lemma Fine_authorize rev a b c : Fine (authorize rev a b c).
Proof.
  unfold authorize. fine_go. intros s HI. apply wp_modify. split.
  - destruct HI as [H1 H2 H3 H4]. split; try done. intros d [= <-]. cbn. rewrite !orb_false_iff, !Z.leb_gt, !Z.ltb_ge in *. lia.
  - split; [done|]. intros id q Hq. exists q. split; [done|apply Quiet_refl].
Qed.
Lemma Evolves_requests s s' : revision s' = revision s → requests s' = requests s → Evolves s s'.
Proof. intros E1 E2. split; [lia|]. intros id q Hq. exists q. rewrite E2. split; [done|apply Quiet_refl]. Qed.

Lemma Fine_attach p e b : Fine (attach p e b).
Proof.
  intros s HI. unfold attach. apply wp_bind. eapply wp_mono; [by apply dispose_spec|]. intros o s1 [-> [I1 E1 _ _ Hset]].
  apply wp_bind, wp_require; intros _; [|done]. apply wp_bind, wp_getS, wp_bind, wp_putS.
  set (s2 := set_session (Some p) (Some (p, revision s1)) s1). assert (Inv s2) as I2.
  { split; [|done| |exact (i_deadline _ I1)]; [intros id q Hq Hn; by destruct (Hset id q Hq)|by intros p' r [= <- <-]]. }
  assert (Evolves s s2) as E2 by (etransitivity; [exact E1|by apply Evolves_requests]).
  destruct b; [by apply wp_ret|]. apply wp_bind. eapply wp_mono; [by apply dispose_spec|]. intros o s3 [-> [I3 E3 _ _ _]].
  apply wp_throw. split; [done|by etransitivity].
Qed.

Lemma Fine_bind_ rev v : Fine (bind_ rev v).
Proof.
  unfold bind_. apply Fine_bind; [apply Fine_assert|]. intros _ s HI. apply wp_bind, wp_getS. destruct (first v) as [a|]; [|fine_go].
  destruct (observed s) as [o|] eqn:Ho; [destruct (bool_decide_reflect (o = Some a)) as [->|Hne]; [|fine_go]|].
  all: apply wp_bind, wp_modify, wp_ret; (split; [|by apply Evolves_requests]); destruct HI as [H1 H2 H3 H4]; split; try done; intros b [= <-]; cbn; rewrite Ho; auto.
Qed.

(** Readings, exactly. *)
Definition tick (s : St) : St := set_readings (tail (clocks s)) (currents s) s.
Definition look (s : St) : St := set_readings (clocks s) (tail (currents s)) s.
Definition nextClock (s : St) : Clock := default (mkClock None None) (head (clocks s)).
Definition nextCurrent (s : St) : option nat := default None (head (currents s)).
Lemma clock_run s : clock s = (Ok (nextClock s), tick s).
Proof. unfold clock, bind, getS, nextClock, tick. destruct s as [? ? ? ? ? ? ? ? ? [|] ?]; done. Qed.
Lemma getCurrent_run s : getCurrent s = (Ok (nextCurrent s), look s).
Proof. unfold getCurrent, bind, getS, nextCurrent, look. destruct s as [? ? ? ? ? ? ? ? ? ? [|]]; done. Qed.
Lemma wp_clock (Q : outcome Clock → St → Prop) s : Q (Ok (nextClock s)) (tick s) → wp clock Q s.
Proof. unfold wp. by rewrite clock_run. Qed.
Lemma wp_getCurrent (Q : outcome (option nat) → St → Prop) s : Q (Ok (nextCurrent s)) (look s) → wp getCurrent Q s.
Proof. unfold wp. by rewrite getCurrent_run. Qed.

(** The authorization has not expired by the next reading of the clocks. *)
Definition Live (s : St) : Prop := ∀ d, deadline s = Some d → ∃ w m, nextClock s = mkClock (Some w) (Some m)
  ∧ startWall d ≤ w < d_wall d ∧ startMonotonic d ≤ m < d_monotonic d.
Definition afterAssert (s : St) : St := match deadline s with None => s | Some _ => tick s end.
Lemma assertCurrent_spec rev s : Inv s → wp (assertCurrent rev) (λ o s', match o with
  | Ok _ => rev = revision s ∧ Live s ∧ s' = afterAssert s
  | Throw _ => Inv s' ∧ Evolves s s' end) s.
Proof.
  intros HI. unfold assertCurrent. apply wp_bind, wp_getS. destruct (Z.eqb_spec rev (revision s)) as [->|]; [|by apply wp_throw]. cbn [negb].
  apply wp_bind. unfold expireIfNeeded. apply wp_bind, wp_getS. unfold afterAssert, Live. destruct (deadline s) as [d|]; [|by apply wp_ret, wp_require].
  apply wp_bind, wp_clock. destruct (nextClock s) as [w m]. cbn [wall monotonic]. destruct (_ || _) eqn:E.
  - destruct (Inv_fields s (tick s) ltac:(done) HI) as [I1 E1]. apply wp_bind. eapply wp_mono; [by apply Fine_invalidate|].
    intros [[]|e] s2 [I2 E2]; [|split; [done|by etransitivity]]. apply wp_ret. cbn. split; [done|by etransitivity].
  - apply wp_ret, wp_require; intros Hx; [|done]. split; [done|]. split; [|done]. intros d' [= <-].
    rewrite !orb_false_iff, !negb_false_iff in E. destruct w as [w|], m as [m|]; cbn in E; try (destruct E as [[[[[? ?] ?] ?] ?] ?]; discriminate).
    exists w, m. split; [done|]. destruct E as [[[[[_ _] E1] E2] E3] E4]. lia.
Qed.
Lemma afterAssert_fields s : let s' := afterAssert s in revision s' = revision s ∧ deadline s' = deadline s ∧ pending s' = pending s ∧ provider s' = provider s
  ∧ address s' = address s ∧ observed s' = observed s ∧ listening s' = listening s ∧ requests s' = requests s.
Proof. unfold afterAssert. destruct (deadline s) eqn:E; cbn; by rewrite ?E. Qed.

Lemma Fine_request rev m : Fine (request rev m).
Proof.
  intros s HI. unfold request. apply wp_bind. eapply wp_mono; [by apply assertCurrent_spec|]. intros [[]|e] s1; [|done]. intros (-> & _ & ->).
  destruct (Inv_fields s _ (afterAssert_fields s) HI) as [I1 E1]. pose proof (afterAssert_fields s) as (Er & _). set (s1 := afterAssert s) in *.
  assert (∀ m : M St nat, Fine m → wp m (λ _ s', Inv s' ∧ Evolves s s') s1) as Hfine.
  { intros m' Hm. eapply wp_mono; [by apply Hm|]. intros o s' [I E]. split; [done|by etransitivity]. }
  apply wp_bind, wp_getS. destruct (provider s1) as [p|] eqn:Hp; [|apply Hfine; fine_go].
  apply wp_bind, wp_getCurrent. destruct (Inv_fields s1 (look s1) ltac:(done) I1) as [I2 E2].
  destruct (bool_decide_reflect (nextCurrent s1 = Some p)) as [Hc|Hc]; cbn [negb].
  2: { eapply wp_mono; [apply (Fine_at _ (look s1)); [|exact I2]; fine_go|]. intros o s' [I E]. split; [done|]. etransitivity; [exact E1|by etransitivity]. }
  apply wp_bind, wp_require; intros _; [|split; [done|by etransitivity]]. apply wp_bind, wp_clock, wp_bind, wp_getS, wp_bind, wp_putS, wp_ret.
  change (requests (tick (look s1))) with (requests s1). change (pending (tick (look s1))) with (pending s1).
  set (q := mkRequest _ _ _ _ _ _). split.
  - destruct I1 as [H1 H2 H3 H4]. split; try done. intros id q' Hq Hn. cbn in Hq |- *.
    apply lookup_app_Some in Hq as [Hq|[Hle Hq]].
    + destruct (H1 id q' Hq Hn) as (A & B & C). split_and!; try done. apply elem_of_app. by left.
    + destruct (id - length (requests s1))%nat as [|k] eqn:Ek; [|done]. injection Hq as <-. cbn. split; [congruence|]. split; [done|].
      apply elem_of_app. right. apply list_elem_of_singleton. lia.
  - etransitivity; [exact E1|]. split; [done|]. intros id q' Hq. exists q'. split; [by apply lookup_app_l_Some|apply Quiet_refl].
Qed.

Lemma Fine_rejected id : Fine (rejected id).
Proof. fine_go. Qed.
Lemma Fine_timer id : Fine (timer id).
Proof. unfold timer. fine_go. Qed.
Lemma Fine_accountsChanged rev p v : Fine (accountsChanged rev p v).
Proof.
  intros s HI. unfold accountsChanged. apply wp_bind, wp_getS, wp_when; intros Hs; [|done]. apply wp_bind, wp_modify, wp_bind, wp_getS.
  set (s1 := set_observed (Some (first v)) s). assert (Evolves s s1) as E1 by by apply Evolves_requests.
  assert (isSession rev p s1 = true) as Hs1 by done.
  assert (∀ r, wp (invalidateSession rev p r) (λ _ s', Inv s' ∧ Evolves s s') s1) as Hover.
  { intros r. unfold invalidateSession. apply wp_bind, wp_getS. rewrite Hs1. apply wp_bind. eapply wp_mono; [by apply dispose_open, HI|].
    intros o s2 [-> [I2 E2 _ _ _]]. apply wp_modify. destruct (Inv_fields s2 (set_notices (notices s2 ++ [r]) s2) ltac:(done) I2) as [I3 E3].
    split; [done|]. etransitivity; [exact E1|by etransitivity]. }
  destruct (first v) as [a|] eqn:Hv; [|apply Hover]. apply wp_when; intros Hc; [apply Hover|]. split; [|done].
  destruct HI as [H1 H2 H3 H4]. split; try done. intros b Hb. change (address s = Some b) in Hb. change (address s1) with (address s) in Hc. rewrite Hb in Hc.
  apply negb_false_iff, String.eqb_eq in Hc as ->. by right.
Qed.
Lemma Fine_checkStart rev : Fine (checkStart rev).
Proof. unfold checkStart. fine_go. apply Fine_request. Qed.
Lemma Fine_checkEnd rev v : Fine (checkEnd rev v).
Proof. unfold checkEnd. fine_go. Qed.

(** ** Asking the wallet, and its answer *)

Definition InTime (q : Request) (now : Clock) : Prop := ∃ w m, now = mkClock (Some w) (Some m)
  ∧ (∀ w0, wall (q_started q) = Some w0 → w0 ≤ w < w0 + q_timeout q)
  ∧ (∀ m0, monotonic (q_started q) = Some m0 → m0 ≤ m < m0 + q_timeout q * ticks).
Lemma late_spec (Q : outcome bool → St → Prop) q s : Q (Ok true) (tick s) → (InTime q (nextClock s) → Q (Ok false) (tick s)) → wp (late q) Q s.
Proof.
  intros H1 H2. unfold late. apply wp_bind, wp_clock, wp_ret. destruct (_ || _) eqn:E; [exact H1|]. apply H2.
  destruct (nextClock s) as [w m]. rewrite !orb_false_iff, !negb_false_iff in E. cbn [wall monotonic] in E.
  destruct w as [w|]; [|by destruct E as [[[[[? ?] ?] ?] ?] ?]]. destruct m as [m|]; [|by destruct E as [[[[[? ?] ?] ?] ?] ?]].
  destruct E as [[[[_ E1] E2] E3] E4]. exists w, m. split; [done|].
  split; [intros w0 E|intros m0 E]; rewrite E in *; cbn in *; lia.
Qed.

Definition mark (id : nat) (s : St) : St :=
  set_requests (pending s) (alter (λ q, mkRequest (q_revision q) (q_provider q) (q_started q) (q_timeout q) true (q_outcome q)) id (requests s)) s.
Lemma mark_requests id s j : requests (mark id s) !! j = (if decide (j = id) then λ o, (λ q, mkRequest (q_revision q) (q_provider q) (q_started q) (q_timeout q) true (q_outcome q)) <$> o else λ o, o) (requests s !! j).
Proof. cbn. destruct (decide (j = id)) as [->|Hne]; [apply list_lookup_alter_eq|by apply list_lookup_alter_ne]. Qed.
Lemma mark_inv id s : Inv s → Inv (mark id s).
Proof.
  intros [H1 H2 H3 H4]. split; try done. intros j q. rewrite mark_requests. destruct (decide (j = id)) as [->|]; [|apply H1].
  intros (q0 & Hq & ->)%fmap_Some_1 Hn. by apply (H1 id q0).
Qed.

(** The wallet was asked for a request. *)
Definition Asked (id : nat) (s s' : St) : Prop := ∃ q s1, requests s !! id = Some q ∧ q_asked q = false ∧ q_revision q = revision s ∧ Live s
  ∧ nextCurrent s = Some (q_provider q) ∧ s' = mark id s1 ∧ requests s1 = requests s ∧ revision s1 = revision s.
(** A request was answered. *)
Definition Delivered (id : nat) (v : Value) (s s' : St) : Prop := ∃ q s1, requests s !! id = Some q ∧ q_outcome q = None ∧ q_asked q = true
  ∧ q_revision q = revision s ∧ provider s = Some (q_provider q) ∧ nextCurrent s = Some (q_provider q) ∧ InTime q (nextClock s) ∧ Live (tick s)
  ∧ s' = settle id (Ok v) s1 ∧ requests s1 = requests s ∧ revision s1 = revision s.

Lemma Fine_after {A} (m : M St A) s s1 : Fine m → Inv s1 → Evolves s s1 → wp m (λ _ s', Inv s' ∧ Evolves s s') s1.
Proof. intros Hm HI HE. eapply wp_mono; [by apply Hm|]. intros o s' [I E]. split; [done|by etransitivity]. Qed.
(** A body whose errors are handled by a fine operation. *)
Lemma wp_handled {A} (m : M St A) h (P : St → Prop) s : (∀ e, Fine (h e)) →
  wp m (λ o s', Inv s' ∧ (Evolves s s' ∨ is_ok o = true ∧ P s')) s → wp (tryCatch m h) (λ _ s', Inv s' ∧ (Evolves s s' ∨ P s')) s.
Proof.
  intros Hh Hm. apply wp_tryCatch. eapply wp_mono; [exact Hm|]. intros [a|e] s' [I E]; [split; [done|tauto]|].
  destruct E as [E|[E _]]; [|done]. eapply wp_mono; [by apply Fine_after|]. intros o s2 [I2 E2]. auto.
Qed.

Lemma ask_spec id s : Inv s → wp (ask id) (λ _ s', Inv s' ∧ (Evolves s s' ∨ Asked id s s')) s.
Proof.
  intros HI. unfold ask. apply wp_bind, wp_getS. destruct (requests s !! id) as [q|] eqn:Hq; [|by apply wp_ret; split; [|left]].
  destruct (q_asked q) eqn:Ha; [by apply wp_ret; split; [|left]|]. apply wp_handled; [intros e; apply Fine_rejected|].
  apply wp_bind. eapply wp_mono; [by apply assertCurrent_spec|]. intros [[]|e] s1; [|intros [I E]; auto]. intros (Hrev & Hlive & ->).
  pose proof (afterAssert_fields s) as Hf. assert (nextCurrent (afterAssert s) = nextCurrent s) as Hcur by (unfold afterAssert; by destruct (deadline s)).
  destruct (Inv_fields _ _ Hf HI) as [I1 E1]. set (s1 := afterAssert s) in *. destruct (Inv_fields s1 (tick s1) ltac:(done) I1) as [I2 E2].
  assert (Evolves s (tick s1)) as E2' by (by etransitivity). apply wp_bind, late_spec.
  - apply wp_bind, wp_bind. eapply wp_mono; [apply Fine_after; [apply Fine_invalidate|exact I2|exact E2']|].
    intros [u|e] s' [I E]; [apply wp_throw|]; auto.
  - intros _. apply wp_bind, wp_ret, wp_bind, wp_getCurrent. change (nextCurrent (tick s1)) with (nextCurrent s1). rewrite Hcur.
    destruct (Inv_fields (tick s1) (look (tick s1)) ltac:(done) I2) as [I3 E3]. apply wp_bind, wp_require; intros Hc.
    + apply bool_decide_eq_true in Hc. apply wp_modify. split; [by apply (mark_inv id)|]. right. split; [done|]. exists q, (look (tick s1)).
      destruct Hf as (Er & _ & _ & _ & _ & _ & _ & Eq). split_and!; try done.
    + split; [done|left; by etransitivity].
Qed.

Lemma answered_spec id v s : Inv s → wp (answered_ id v) (λ _ s', Inv s' ∧ (Evolves s s' ∨ Delivered id v s s')) s.
Proof.
  intros HI. unfold answered_. apply wp_bind, wp_getS. destruct (requests s !! id) as [q|] eqn:Hq; [|by apply wp_ret; split; [|left]].
  destruct (q_outcome q) eqn:Ho; [by apply wp_ret; split; [|left]|]. destruct (q_asked q) eqn:Ha; [|by apply wp_ret; split; [|left]].
  cbn [negb]. apply wp_handled; [intros e; fine_go|]. destruct (Inv_fields s (tick s) ltac:(done) HI) as [I1 E1]. apply wp_bind, late_spec.
  - eapply wp_mono; [by apply Fine_after; [apply Fine_invalidate| |]|]. intros o s' [I E]. auto.
  - intros Htime. apply wp_bind. eapply wp_mono; [by apply assertCurrent_spec|]. intros [[]|e] s1; [|intros [I E]; split; [done|left; by etransitivity]].
    intros (Hrev & Hlive & ->). pose proof (afterAssert_fields (tick s)) as Hf.
    assert (nextCurrent (afterAssert (tick s)) = nextCurrent s) as Hcur by (unfold afterAssert; by destruct (deadline (tick s))).
    destruct (Inv_fields _ _ Hf I1) as [I2 E2]. set (s1 := afterAssert (tick s)) in *. apply wp_bind, wp_getCurrent. rewrite Hcur.
    destruct (Inv_fields s1 (look s1) ltac:(done) I2) as [I3 E3]. assert (Evolves s (look s1)) as E3' by (etransitivity; [exact E1|by etransitivity]).
    destruct (bool_decide_reflect (nextCurrent s = Some (q_provider q))) as [Hc|Hc].
    + apply wp_modify. split; [by apply settle_keeps|]. right. split; [done|]. exists q, (look s1).
      destruct Hf as (Er & _ & _ & _ & _ & _ & _ & Eq). destruct (i_open s HI id q Hq Ho) as (Hr & Hp & _). split_and!; done.
    + eapply wp_mono; [apply (Fine_after (invalidate "provider changed" ;;; throw WalletSessionChanged) s); [fine_go|done|done]|]. intros o s' [I E]. auto.
Qed.

(** Every operation. *)
Lemma run_spec op s : Inv s → wp (run op) (λ _ s', Inv s' ∧ (Evolves s s'
  ∨ (∃ id, op = OAsk id ∧ Asked id s s') ∨ ∃ id v, op = OAnswered id v ∧ Delivered id v s s')) s.
Proof.
  intros HI. assert (Fine (run op) → wp (run op) (λ _ s', Inv s' ∧ (Evolves s s' ∨ (∃ id, op = OAsk id ∧ Asked id s s') ∨ ∃ id v, op = OAnswered id v ∧ Delivered id v s s')) s) as Hfine.
  { intros Hm. eapply wp_mono; [by apply Hm|]. intros o s' [I E]. auto. }
  destruct op; lazymatch goal with |- wp (run (OAsk _)) _ _ => idtac | |- wp (run (OAnswered _ _)) _ _ => idtac | _ => apply Hfine; cbn [run] end.
  - apply Fine_authorize. - intros s0 [H1 H2 H3 H4]. apply wp_modify. split; [by split|by apply Evolves_requests].
  - apply Fine_bind; [apply Fine_expire|intros; apply Fine_out]. - apply Fine_attach. - apply Fine_bind; [apply Fine_bind_|intros; apply Fine_out].
  - apply Fine_bind; [apply Fine_request|intros; apply Fine_out].
  - eapply wp_mono; [by apply ask_spec|]. intros o s' [I [E|E]]; split; eauto 6.
  - eapply wp_mono; [by apply answered_spec|]. intros o s' [I [E|E]]; split; eauto 8.
  - apply Fine_rejected. - apply Fine_timer. - apply Fine_accountsChanged. - fine_go. - apply Fine_bind; [apply Fine_checkStart|intros; apply Fine_out].
  - apply Fine_checkEnd. - apply Fine_invalidate. - apply Fine_dispose. - by apply Fine_fields.
Qed.
Lemma init_inv : Inv init.
Proof. by split. Qed.
Lemma session_reachable_inv s : reachable s → Inv s.
Proof. induction 1 as [|s op _ IH]; [apply init_inv|]. by destruct (run_spec op s IH) as [H _]. Qed.

(** C15. Nothing that a wallet answers reaches a session other than the one that
    asked. In every state that the page, the wallet, timers and clocks can bring about,
    the requests that are not settled are of the session in being and its provider, and
    an account that is bound is the one the wallet last notified, if it did; with every
    further event the revision never decreases and a settled request keeps its outcome;
    a request is settled with an answer only by that answer, and only when its session
    is still there, with its provider still the page's, within the time limit of the
    request by both clocks and before the authorization of the session expires by either
    clock; and the wallet is asked only for a session that is still there and has not
    expired. *)
Theorem wallet_session_fenced (s : St) (op : Op) : reachable s → let s' := (run op s).2 in
  (∀ id q, requests s !! id = Some q → q_outcome q = None → q_revision q = revision s ∧ provider s = Some (q_provider q)) ∧
  (∀ a, address s = Some a → observed s = None ∨ observed s = Some (Some a)) ∧
  revision s ≤ revision s' ∧
  ∀ id q, requests s !! id = Some q → ∃ q', requests s' !! id = Some q' ∧
    (q_outcome q' = q_outcome q
     ∨ q_outcome q = None ∧ q_outcome q' = Some (Throw WalletSessionChanged)
     ∨ ∃ v, q_outcome q = None ∧ q_outcome q' = Some (Ok v) ∧ op = OAnswered id v ∧ q_asked q = true
         ∧ q_revision q = revision s ∧ revision s' = revision s ∧ provider s = Some (q_provider q) ∧ nextCurrent s = Some (q_provider q)
         ∧ InTime q (nextClock s) ∧ Live (tick s)) ∧
    (q_asked q = false → q_asked q' = true → op = OAsk id ∧ q_revision q = revision s ∧ Live s ∧ nextCurrent s = Some (q_provider q)).
Proof.
  intros HI%session_reachable_inv s'. destruct (run_spec op s HI) as [_ H]. fold s' in H. pose proof HI as [H1 H2 _ _].
  split; [intros id q Hq Hn; by destruct (H1 id q Hq Hn) as (? & ? & _)|]. split; [done|].
  destruct H as [[E1 E2]|[(id & -> & q & s1 & Hq & Ha & Hr & Hl & Hc & Hs & Hreq & Hrev)|(id & v & -> & q & s1 & Hq & Ho & Ha & Hr & Hp & Hc & Ht & Hl & Hs & Hreq & Hrev)]].
  - split; [done|]. intros id q Hq. destruct (E2 id q Hq) as (q' & Hq' & (_ & _ & _ & _ & Ea & Eo)). exists q'. split; [done|]. split; [tauto|congruence].
  - rewrite Hs. split; [by rewrite <- Hrev|]. intros j qj Hj. pose proof (mark_requests id s1 j) as E. rewrite Hreq, Hj in E.
    destruct (decide (j = id)) as [->|Hne]; (eexists; split; [exact E|]; cbn; split; [by left|]).
    + intros _ _. assert (qj = q) as -> by congruence. done.
    + congruence.
  - rewrite Hs. destruct (settle_fields id (Ok v) s1) as (Er & _). rewrite Er, Hrev. split; [done|]. intros j qj Hj. eexists. split; [apply settle_requests; exists qj; by rewrite Hreq|].
    case_bool_decide as Hc'; [|split; [by left|congruence]]. destruct Hc' as [-> Hn]. assert (qj = q) as -> by congruence. cbn. split; [|congruence].
    right; right. exists v. by split_and!.
Qed.
End session.
End WalletSession.

(** * A session in which the wallet is asked and answers *)

Module WalletSessionExample.
Import WalletSession.

Definition exAt (n : Z) : Clock := mkClock (Some (1790000000000 + n)) (Some (1000 * n)).
Definition exRun (op : Op) (s : St) : St := (run 1000 10000 120000 op s).2.
Definition exAsked : St := Eval vm_compute in
  exRun (OAsk 0) (exRun (ORequest 1 eth_requestAccounts) (exRun (OAttach 7 true true) (exRun (OReadings [exAt 0; exAt 1; exAt 900] [Some 7%nat; Some 7%nat; Some 7%nat]) init))).
Lemma exAsked_run : exAsked =
  exRun (OAsk 0) (exRun (ORequest 1 eth_requestAccounts) (exRun (OAttach 7 true true) (exRun (OReadings [exAt 0; exAt 1; exAt 900] [Some 7%nat; Some 7%nat; Some 7%nat]) init))).
Proof. by vm_compute. Qed.
Lemma exAsked_reachable : reachable 1000 10000 120000 exAsked.
Proof. rewrite exAsked_run. by repeat constructor. Qed.
Definition exQ : Request := Eval vm_compute in default (mkRequest 0 0 (exAt 0) 0 false None) (requests exAsked !! 0%nat).

Lemma wallet_session_fenced_witness : q_revision exQ = revision exAsked ∧ InTime 1000 exQ (nextClock exAsked).
Proof.
  destruct (wallet_session_fenced 1000 10000 120000 exAsked (OAnswered 0 (VArray [Some "0x00"])) exAsked_reachable) as (_ & _ & _ & H).
  destruct (H 0%nat exQ eq_refl) as (q' & Hq & [Ho|[[_ Ho]|(v & _ & _ & _ & _ & Hr & _ & _ & _ & Ht & _)]] & _);
    [injection Hq as <-; discriminate Ho|injection Hq as <-; discriminate Ho|by split].
Defined.
End WalletSessionExample.
